(* ===== verification/_CoqProject ===== *)
-Q . S2P
Prelude.v
FreeQueue.v
Request.v
BlockHash.v
BlockMap.v
BlockPool.v
BlockPoolSpec.v
EncoderCache.v
Heap.v
RequestQueue.v
SchedUtils.v
Ngram.v
Detokenizer.v
OutputProcessor.v
OutputStream.v
OutputMaps.v
CacheHit.v
SingleTypeManager.v
SingleTypeManagerSpec.v
GroupSpec.v
Coordinator.v
CoordinatorHit.v
CoordinatorSpec.v
KVCacheManager.v
KVCacheManagerSpec.v
KVCacheManagerRun.v
KVCacheFrame.v
Scheduler.v
SchedulerSpec.v
SchedulerStep.v
SchedulerWaiting.v
SchedulerRun.v
SchedulerPolicy.v
SchedulerUpdate.v
SchedulerMachine.v
SchedulerKV.v
SchedulerEngine.v
SchedulerDemo.v
OffloadPolicy.v
Offload.v
OffloadSpec.v
OffloadRun.v
KVSpec.v
KVLayout.v
KVLayoutSpec.v
KVPages.v
KVGroups.v
KVGroupsSpec.v
KVGroupsPlace.v
KVSizing.v
KVSizingSpec.v
KVSizingRun.v
KVPlanDemo.v
NumPy.v
BlockTable.v
BlockTableSpec.v
SlotMapping.v
InputBatch.v
InputBatchSpec.v
InputBatchParts.v
InputBatchRun.v
Condense.v
LogitsUpdates.v
ReorderBatch.v
WorkerStates.v
WorkerPlaces.v
WorkerRun.v
WorkerNew.v
WorkerCached.v
WorkerLoops.v
WorkerFollow.v
WorkerStep.v
WorkerSampled.v
WorkerSafe.v
WorkerDemo.v
