(* ===== verification/Prelude.v ===== *)
(** * vLLM V1 engine core: a verification library

    The repository is a port of ROCm and of the vLLM inference server to gfx803
    cards.  The program it carries is vLLM; this library models the core of its
    V1 engine, under [src/vllm/vllm/v1]: the scheduler, which decides what every
    request computes in a step, and what decides which request owns which piece
    of GPU memory, the KV-cache management and the request bookkeeping.  (A near copy of the same code lies under
    [src/rocm7.14/vllm].)

    ** The program

    A request ([v1/request.py]) carries tokens.  As its token list grows it
    computes one hash per full block of tokens; the hash of a block covers
    everything before it ([v1/core/kv_cache_utils.py]).  The GPU memory for
    attention keys and values is divided into blocks.  The block pool
    ([v1/core/block_pool.py]) counts the references to each block, keeps the
    unreferenced ones in a doubly linked queue in eviction order, and has an
    index from block hashes to the blocks that hold such a prefix.  A model has
    one or more groups of attention layers; each group has a manager
    ([v1/core/single_type_kv_cache_manager.py]) with the block table of every
    request.  All managers share the pool; the coordinator
    ([v1/core/kv_cache_coordinator.py]) calls them in turn and finds the longest
    cached prefix that every group can use.  The scheduler
    ([v1/core/sched/scheduler.py], with the additions of [async_scheduler.py])
    talks to the KV cache manager ([v1/core/kv_cache_manager.py]): look up a
    request, allocate slots for the tokens of a step, free a request.  A step
    goes through the running requests, preempting when blocks are short, then
    admits waiting ones; its output goes to the model runner, whose answer is
    folded back into the requests.  Beside this, the encoder cache
    ([v1/core/encoder_cache_manager.py]) accounts for outputs of multimodal
    encoders, the waiting requests sit in a queue
    ([v1/core/sched/request_queue.py]), and [v1/core/sched/utils.py] decides
    when a generating request stops.  The n-gram proposer
    ([v1/spec_decode/ngram_proposer.py]) drafts tokens from what a request
    already contains.  What the engine generates goes to the output processor
    ([v1/engine/output_processor.py]): it turns tokens into text step by step
    ([v1/engine/detokenizer.py]), looks for stop strings, gathers the samples
    of a request with [n > 1] ([v1/engine/parallel_sampling.py]) and hands
    outputs to the consumer of each request through a collector.  KV blocks can
    also be offloaded to the CPU: the offloading manager
    ([v1/kv_offload/cpu/manager.py]) gives out the slots of that cache, counts
    the transfers of each block and evicts through a cache policy
    ([v1/kv_offload/cpu/policies]), LRU or ARC.

    Before any of this runs, the memory is planned
    ([v1/core/kv_cache_utils.py]).  Each layer declares what it stores per block
    ([v1/kv_cache_interface.py]); layers are grouped so that the layers of a
    group share a block table; a layout ([v1/kv_cache_layout.py]) says in which
    order layers, blocks, heads, states and contents lie in the one allocation
    that all groups share; the number of blocks follows from the memory of the
    worker that has the least, and must hold a request of the longest length,
    which can itself be chosen to fit.

    On each worker a model runner ([v1/worker/gpu_model_runner.py]) follows the
    output of the scheduler.  It caches a state per request and keeps the
    requests of a step in the places of a persistent batch
    ([v1/worker/gpu_input_batch.py]): parallel arrays, block tables
    ([v1/worker/block_table.py]) and dictionaries by place or by request.  From
    step to step requests leave, places are taken over, holes are filled from
    behind, and the batch is reordered for the attention kernels
    ([v1/attention/backends/utils.py]); the logits processors
    ([v1/sample/logits_processor]) are told of the changes at the end.  A kernel
    maps the tokens of the step to cache slots; after the model has run, the
    sampled tokens are cached.

    ** Files

    Definitions keep the names of the source.  A method is a function from the
    state and the arguments to [result (value * state)]; a raised exception is
    [Err] with its class.

    - [Prelude]: the result monad and its tactics, loops over lists, Python's
      integer division, indexing, slices, ranges and ordered dictionaries.
    - [FreeQueue]: [KVCacheBlock], [FreeKVCacheBlockQueue].  Blocks live in an
      explicit store and refer to each other by reference, so that the links
      are written one by one as the code writes them.
    - [Request]: [Request], [RequestStatus], [SamplingParams]: construction,
      [append_output_token_ids], [update_block_hashes], [__lt__].
    - [BlockHash]: packed keys, [generate_block_hash_extra_keys],
      [hash_block_tokens], [get_request_block_hasher],
      [BlockHashListWithBlockSize].  The digest is a parameter.
    - [BlockMap]: [BlockHashToBlockMap].
    - [BlockPool], [BlockPoolSpec]: [BlockPool] with all its operations, cache
      events and the calls of the metrics collector; their correctness.
    - [EncoderCache]: [EncoderCacheManager], [EncoderDecoderCacheManager],
      [compute_mm_encoder_budget].
    - [Heap], [RequestQueue]: [heapq]; [FCFSRequestQueue] and
      [PriorityRequestQueue] behind one class of queues.
    - [SchedUtils]: [check_sequence_repetition], [remove_all], [check_stop].
    - [Ngram]: [NgramProposer] with the compiled scan and the parallel kernel.
    - [Detokenizer]: [check_stop_strings], the update shared by the incremental
      detokenizers, the fast one over a decode stream, the slow one over
      [detokenize_incrementally].
    - [OutputProcessor], [OutputStream], [OutputMaps]: outputs and collectors,
      [ParentRequest], [RequestState] and [OutputProcessor]; what a consumer of
      deltas receives; the maps of requests, parents and external ids.
    - [CacheHit]: [find_longest_cache_hit] of full, sliding-window,
      chunked-local and ring groups, [reachable_block_mask].
    - [SingleTypeManager], [SingleTypeManagerSpec]: the block tables of one
      group; reference counting with the other groups as a parameter.
    - [GroupSpec]: every operation of a manager as a step of one group of a
      shared pool, with a frame condition for the other groups.
    - [Coordinator], [CoordinatorHit], [CoordinatorSpec]: the coordinators and
      how they are constructed; the common hit; the invariant over the tables
      of all groups and the loops over the managers.
    - [KVCacheManager], [KVCacheManagerSpec], [KVCacheManagerRun]: the manager
      the scheduler calls; the correctness of [allocate_slots]; look-up followed
      by allocation, and the manager as a state machine.
    - [KVCacheFrame]: what a call for one request leaves as it was for others.
    - [Scheduler]: [Scheduler] and [AsyncScheduler], over classes of operations
      for the KV cache, the encoder cache and the queues.
    - [SchedulerSpec], [SchedulerStep], [SchedulerWaiting], [SchedulerRun],
      [SchedulerPolicy]: the laws the scheduler asks of those classes and its
      invariant; the running phase, the waiting phase, a whole step, and whom a
      step preempts.
    - [SchedulerUpdate], [SchedulerMachine]: the answer of the runner; the
      scheduler with the outputs in flight as a state machine.
    - [SchedulerKV], [SchedulerEngine], [SchedulerDemo]: the KV cache manager
      and the encoder caches obey the laws; the scheduler on the real manager; a
      small engine that runs, synchronously and two steps ahead, with two
      settings in which an assertion fails.
    - [OffloadPolicy]: [BlockStatus], the class of cache policies with its
      laws, [LRUCachePolicy], [ARCCachePolicy], Python's floats.
    - [Offload], [OffloadSpec], [OffloadRun]: [CPUOffloadingManager] over a
      policy; what each call does to the blocks; the manager as a state
      machine, and runs of both policies.
    - [KVSpec]: the classes of [KVCacheSpec] as constructors of [LayerSpec],
      their pages, memory needs and merging, [UniformTypeKVCacheSpecs].
    - [KVLayout], [KVLayoutSpec], [KVPages]: layouts, strides, the placement of
      [get_kv_cache_config_from_groups] and the views of the workers; the
      strides in closed form and where a byte lies; separation and bounds.
    - [KVGroups], [KVGroupsSpec], [KVGroupsPlace]: [get_kv_cache_groups] and
      what it calls; the groups are a partition; the groups can be placed.
    - [KVSizing], [KVSizingSpec], [KVSizingRun], [KVPlanDemo]: the checks and
      estimates, projection and [get_kv_cache_configs]; binary search and
      auto-fitting; the plan of all workers; small models.
    - [NumPy]: what the workers use of arrays of fixed size.
    - [BlockTable], [BlockTableSpec], [SlotMapping]: [BlockTable],
      [MultiGroupBlockTable] and the slot mapping kernel; a table is a list of
      block lists; where the tokens of a launch go.
    - [InputBatch], [InputBatchSpec], [InputBatchParts], [InputBatchRun]:
      [CachedRequestState], [BatchUpdateBuilder] and [InputBatch]; the batch as
      a list of places ([InputBatchRun.batch_holds]), what its parts hold of
      them, and what adding, removing, exchanging and moving do.
    - [Condense], [ReorderBatch], [LogitsUpdates]: [condense];
      [reorder_batch_to_split_decodes_and_prefills]; [process_dict_updates].
    - [WorkerStates]: [_update_states] of the model runner, its helpers, and the
      caching of sampled tokens.
    - [WorkerPlaces], [WorkerRun], [WorkerNew], [WorkerCached], [WorkerLoops],
      [WorkerFollow], [WorkerStep], [WorkerSampled], [WorkerSafe], [WorkerDemo]:
      changes within a place; the runner and its batch hold the same requests
      ([WorkerRun.runner_holds]); new requests; running and resumed ones; the
      loops; what the logits processors see; a whole step; sampled tokens; the
      properties; a small runner, with three runs in which the batch forgets.

    ** Theorems

    - The engine (C1 to C6).  From its construction on, whatever the order of
      the calls, the scheduler raises nothing and keeps its invariant: every
      request is running or in exactly one queue, what is in flight of it and
      how far it runs ahead of its tokens is counted, and the running ones have
      slots for all tokens they are counted to have computed.  C1 states this of the real manager: the block tables
      cover the computed tokens, and no one else holds a block.  A step gives
      each scheduled request tokens within the budgets and its output says so;
      the tokens that come back are stored and reported, and whoever leaves is
      reported finished; preemption follows the policy; when all requests are
      finished nothing is left behind.
    - The whole manager (C7 to C10).  [allocate_slots] does not raise on a
      well-formed call, answers [None] exactly when the free blocks are short,
      and otherwise gives every group room for the tokens of the request while
      no other table changes.  In every state that permitted calls reach, the
      reference count of a block is the number of times the tables of all
      groups name it, and the free queue holds exactly the unreferenced blocks.
      What the look-up finds is accepted by [allocate_slots].  Once all requests
      are freed, in any order, every block is free.
    - Groups (C11, C12, C14).  The search for the common hit
      terminates and every group is verified at the length returned; the
      estimate of [get_num_blocks_to_allocate] suffices; the admission cap
      bounds what a request with a window holds.
    - The workers (C16 to C20).  A step of the model runner succeeds on every
      output that fits it, and leaves the scheduled requests in the batch,
      without holes and in the order the kernels ask for, with the cached states
      that the output says; the logits processors' states follow the requests;
      sampled tokens go to the request and its place alike, so that steps can
      follow each other from a new runner on ([WorkerDemo.init_between]).  A
      block table is a list of block lists however blocks are split for the
      kernel, and the launch gives every token the slot of its place.
    - Planning the memory (C21 to C26).  Pages of different blocks, and of
      different layers of a group, do not overlap in any of the six layouts
      that can be resolved for the layers, and lie inside the allocation; a plan
      that succeeds gives all workers the same number of blocks, enough for a
      request of the longest length and the null block; every layer is in
      exactly one group, and the groups can be placed; auto-fitting chooses the
      longest length that fits on every worker.
    - Offloading (C27 to C30).  Under every lawful policy, and so under LRU and
      ARC, no permitted call raises; slots are given out once each and the
      counters are right; a block keeps its slot while it is read or written;
      a store counts accesses, stores the keys seen often enough and evicts
      idle blocks outside them only.
    - Hashing (C31, C32, C40).  Under an injective digest equal block hashes of
      requests hashed at once mean equal prefixes and extra keys; hashing as tokens arrive and hashing at once agree; packed
      keys can be unpacked.
    - The pool (C33, C34).  The free queue refines a list, and every reachable
      pool is consistent; its operations have functional specifications.
    - Look-ups (C36), encoder cache (C38), queues (C37).
    - Output (C13, C35, C39).  A consumer of deltas gets exactly
      the text and tokens of the detokenizer, however its reads interleave with
      the engine and whatever the stream interval; several tokens at once give
      what one token at a time gives; the samples of a request whose final
      output is wanted are returned together and in order.
    - Drafting (C15).  The scan is equivalent to a search for the longest
      repeated suffix.
    - Further results, without a number: [BlockPoolSpec.free_blocks_correct],
      [SingleTypeManagerSpec.remove_skipped_blocks_correct],
      [Ngram.propose_correct], [Detokenizer.slow_text_exact],
      [SchedUtils.check_sequence_repetition_correct],
      [SchedUtils.check_stop_correct], [CacheHit.full_cache_hit_correct],
      [CacheHit.chunked_cache_hit_correct],
      [SingleTypeManagerSpec.manager_reachable_safe],
      [EncoderCache.can_allocate_correct], [OutputMaps.processor_maps_agree],
      [OutputMaps.pooling_request_result], [BlockMap.map_refines_multimap] (the
      index), [BlockPoolSpec.cache_full_blocks_correct],
      [Detokenizer.check_stop_strings_correct],
      [OffloadRun.lru_prepare_store_exact] (LRU refuses only when it must and
      evicts as little as it can) and others like them.  On the workers:
      [Condense.condense_correct] and [ReorderBatch.reorder_correct] (both loops
      end, with the same requests), [SlotMapping.slots_separate] (two tokens
      share a slot only in the same place of the same block).  In the planning of the memory:
      [KVGroupsSpec.approximate_gcd_spec] (the chunk size pads the least),
      [KVSizingSpec.estimate_longest] and [KVSizingSpec.estimate_layers_longest]
      (both estimates are exact), [KVSizingRun.uniform_pages] (layers of one
      type need the same pages), [KVSizingRun.scheduler_capacity_agrees].

    Some lemmas evaluate a concrete configuration in which the code departs
    from what comments or names promise:
    [KVCacheManagerRun.full_report_raises_under_dcp],
    [CoordinatorHit.hybrid_eagle_stale_verification],
    [CacheHit.swa_eagle_short_prefix], [BlockHash.mm_tail_collision],
    [BlockHash.lora_salt_collision], [EncoderCache.encoder_decoder_free_leak],
    [Ngram.propose_idle], [OutputMaps.abort_external_keeps_parent],
    [OutputMaps.abort_twice_raises], [OutputMaps.early_child_finishes_parent],
    [SchedulerDemo.adapters_exceed_the_limit],
    [SchedulerDemo.padded_decode_is_cut], [OffloadRun.arc_refuses_idle_blocks],
    [OffloadRun.own_key_is_evicted], [OutputMaps.pooling_request_result] and
    the theorems of [KVPlanDemo.PlanFindings] and [WorkerDemo.Forgets].

    ** Interfaces

    [CoordinatorHit.find_ok] and [CoordinatorHit.hit_found] are the one
    specification of a look-up, shared by the manager classes, against which
    the search for the common hit is verified.  [GroupSpec.group_step] is what a manager promises to the
    coordinator, [CoordinatorSpec.outcome] what the coordinator promises to
    the KV cache manager.  [Scheduler.KVCache], [Scheduler.EncoderCacheOps] and
    [RequestQueue.RequestQueue] are the operations the scheduler calls;
    [SchedulerSpec.KVLaws], [SchedulerSpec.EncLaws], [RequestQueue.QueueRefines]
    and [SchedulerSpec.PolicyPerm] are their laws, the scheduler is verified
    against the laws alone, and [SchedulerKV] and [RequestQueue] discharge them.
    [OffloadPolicy.CachePolicyLaws] is what the offloading manager relies on,
    and both cache policies discharge it.  [InputBatchRun.batch_holds] is what
    the batch promises to the runner, and [WorkerRun.runner_holds] what the runner
    promises to a step.
    [Heap.WeakOrder] is what the heap asks of the order
    of requests and [RequestQueue] instantiates it with [Request.__lt__].
    [Detokenizer.Decoder] is what the shared update asks of a decoder, with
    [LawfulDecoder] for its laws; the fast and the slow decoder are instances.
    [DecodeStream] and [Tokenizer] stand for the tokenizers library.

    ** Loops and fuel

    Loops over lists are structural.  A [while] loop takes fuel and raises
    [OutOfFuel] without it; the theorems show that this error does not occur.
    A walk along the free queue has as many steps as the queue has blocks; the
    hashing loop consumes a block of tokens per round, so the number of tokens
    bounds it; the search of the hybrid coordinator has [S max_length], since
    each round but the last lowers the candidate length; cutting a hit to an alignment removes
    a block per step, so the number of blocks is enough; heap operations halve
    or double an index and are bounded by the length of the heap.  The n-gram
    scan has twice the number of tokens: [2 * i - prev_lps] grows in every
    round.  The binary search has the length of the model, as each round shortens
    what is left to search.  Condensing takes an index off the removed ones in
    each round, and a cycle of the reordering settles an entry of its map in each.
    The running phase of a step visits each running request once; the
    loop around [allocate_slots] removes one of them per round; the waiting
    phase takes a request out of a queue per round, and requests it skips go to
    a third queue.  [abort_requests] calls itself for the children of a parent, and its
    fuel is the depth of these calls.

    ** Assumptions

    Python's integers are [Z]; the conversion of a group id to four bytes raises
    as [int.to_bytes] does, and the two ctypes fields of an offloaded block wrap
    around at their widths.  Floats are exact rationals rounded to doubles after
    each operation.  Digest functions are parameters, and only C31 assumes
    injectivity.  The caller of the offloading manager prepares loads of blocks
    it has looked up, completes each once, and stores keys that differ.  The state machine of the KV cache manager
    ([KVCacheManagerRun]) covers configurations without ring groups, in which
    the caching groups use the block size of the hashes, and hits of whole
    blocks.  The theorems about the scheduler hold for synchronous and for
    asynchronous scheduling, with any number of outputs in flight; they are for
    schedulers without adapters, whose steps sample at most one token besides
    the drafts, and for requests without multimodal items, with a threshold
    for long prefills that does not cut a padded decode
    ([SchedulerSpec.settings_ok], [SchedulerSpec.request_ok]).  A request that
    arrives is new; the runner answers for every request of its output with no
    more tokens than were asked for, and under asynchronous scheduling with at
    least one exactly where the step reached the end of the request
    ([SchedulerUpdate.runner_ok]); drafts are proposed for requests of which
    nothing is in flight.  Times and the watermark are integers given at construction.
    Layers declare pages as [KVGroupsPlace.spec_pos] says: sizes are positive, a
    Mamba page is one state of one head, local and hidden-state layers keep a
    state per token.  A name of a layer occurs once per dictionary.  C21 and C26
    are about blocks that the kernels do not split, and about groups whose
    dictionary has exactly their layers; [KVPlanDemo.PlanFindings] shows a
    worker for which projection breaks the latter.
    Arrays of NumPy and torch are lists whose length does not change, with slices
    cut and shapes compared as documented; their integers are unbounded, and a
    store into 32-bit floats is a parameter.  The programs of the slot mapping
    kernel run one after the other, which is enough as they write disjoint ranges.
    The theorems about the runner are for the last pipeline rank and for outputs
    that fit it ([WorkerStep.step_ok]); under asynchronous scheduling for steps
    without drafts whose verification is pending.  The steps of the other
    ranks and the later correction are modelled without theorems.
    Texts are shorter than [sys.maxsize] and stop strings not empty where the
    stop check is compared with its reference.  The slow detokenizer is exact
    for a tokenizer whose clean-up touches only the first token of a text.

    ** Not modelled

    Groups of Mamba and cross-attention layers and attention sinks, with the
    partial hits only they use; in the scheduler the alignment of chunks for
    Mamba layers, streaming sessions and grammars during decoding; in the
    planning of the memory the profiling that measures it, the split of a block
    into kernel blocks and the capacity that is logged as a float; connectors
    that transfer KV blocks, the tiers below the CPU and the copies themselves; log-probabilities, sampling masks, routed experts,
    LoRA counters and traces in the output processor; on the workers all that
    computes on tensors: the inputs, rotary positions and sampling metadata made
    from the batch, the GPU n-gram proposer, kernels, layers and the logits
    processors' own arithmetic; metrics and logging; the API servers;
    and the shell scripts and build files of the port.  Encoder
    inputs of the scheduler are modelled and run, but the theorems do not cover
    them.  The next steps would be these theorems and the Mamba
    manager. *)

From stdpp Require Export base list gmap strings numbers sorting.

(** ** Exceptions and the result monad

    A Python statement either completes or raises.  Operations are modelled as
    functions into [result]: [Ok] carries the returned value together with the
    updated state, [Err] the exception class that leaves the operation. *)

Inductive exn : Type :=
  | ValueError
  | ZeroDivisionError
  | RuntimeError
  | AssertionError
  | IndexError
  | KeyError
  | OverflowError
  | TypeError
  | NotImplementedError
  | AttributeError
  | StopIteration
  | OutOfFuel.

#[export] Instance exn_eq_dec : EqDecision exn.
Proof. solve_decision. Defined.

Inductive result (A : Type) : Type :=
  | Ok (a : A)
  | Err (e : exn).
Arguments Ok {A} _.
Arguments Err {A} _.

#[export] Instance result_ret : MRet result := @Ok.
#[export] Instance result_bind : MBind result := λ A B f m,
  match m with Ok a => f a | Err e => Err e end.
#[export] Instance result_fmap : FMap result := λ A B f m,
  match m with Ok a => Ok (f a) | Err e => Err e end.

#[export] Instance result_eq_dec `{EqDecision A} : EqDecision (result A).
Proof. solve_decision. Defined.

Definition is_ok {A} (m : result A) : bool :=
  match m with Ok _ => true | Err _ => false end.

(** [assert cond] *)
Definition py_assert (b : bool) : result unit :=
  if b then Ok tt else Err AssertionError.

(** [x is not None], or the exception that the code raises otherwise. *)
Definition unwrap {A} (e : exn) (o : option A) : result A :=
  match o with Some a => Ok a | None => Err e end.

(** A [for] loop that threads a state and may raise. *)
Fixpoint foldM {A S} (f : S → A → result S) (s : S) (l : list A) : result S :=
  match l with
  | [] => Ok s
  | x :: l' => s' ← f s x; foldM f s' l'
  end.

(** A list comprehension whose body may raise. *)
Fixpoint mapM_ok {A B} (f : A → result B) (l : list A) : result (list B) :=
  match l with
  | [] => Ok []
  | x :: l' => y ← f x; ys ← mapM_ok f l'; Ok (y :: ys)
  end.

Lemma bind_Ok {A B} (m : result A) (f : A → result B) b :
  m ≫= f = Ok b ↔ ∃ a, m = Ok a ∧ f a = Ok b.
Proof. destruct m; naive_solver. Qed.

Lemma py_assert_Ok b u : py_assert b = Ok u ↔ b = true.
Proof. destruct b, u; naive_solver. Qed.

Lemma unwrap_Ok {A} e (o : option A) a : unwrap e o = Ok a ↔ o = Some a.
Proof. destruct o; naive_solver. Qed.

Lemma mapM_ok_Forall2 {A B} (f : A → result B) l k :
  mapM_ok f l = Ok k ↔ Forall2 (λ x y, f x = Ok y) l k.
Proof.
  revert k. induction l as [|x l IH]; intros k; simpl.
  - split; [intros [= <-]; constructor|by intros ->%Forall2_nil_inv_l].
  - rewrite bind_Ok. setoid_rewrite bind_Ok. split.
    + intros (y & Hy & ys & Hys & [= <-]). constructor; [done|]. by apply IH.
    + intros (y & ys & Hy & Hys & ->)%Forall2_cons_inv_l.
      exists y. split; [done|]. exists ys. split; [by apply IH|done].
Qed.

Lemma foldM_app {A S} (f : S → A → result S) s l1 l2 :
  foldM f s (l1 ++ l2) = (foldM f s l1 ≫= λ s', foldM f s' l2).
Proof.
  revert s; induction l1 as [|x l1 IH]; intros s; [done|].
  simpl. by destruct (f s x); simpl; rewrite ?IH.
Qed.

(** Loop rule: an invariant indexed by the elements already visited. *)
Lemma foldM_ind {A S} (f : S → A → result S) (I : list A → S → Prop) l :
  ∀ s, I [] s →
  (∀ done x todo s, l = done ++ x :: todo → I done s →
     ∃ s', f s x = Ok s' ∧ I (done ++ [x]) s') →
  ∃ s', foldM f s l = Ok s' ∧ I l s'.
Proof.
  intros s Hs Hstep.
  cut (∀ todo done s, l = done ++ todo → I done s →
         ∃ s', foldM f s todo = Ok s' ∧ I l s').
  { intros H. by apply (H l []). }
  clear s Hs. induction todo as [|x todo IH]; intros dn s Hl HI; simpl.
  - rewrite app_nil_r in Hl. subst. eauto.
  - destruct (Hstep dn x todo s Hl HI) as (s' & -> & HI'). simpl.
    apply (IH (dn ++ [x])); [|done]. by rewrite <-app_assoc.
Qed.

Lemma Forall2_elem_r {A B} (R : A → B → Prop) l l' y : Forall2 R l l' → y ∈ l' → ∃ x, x ∈ l ∧ R x y.
Proof.
  intros Hf [i Hi]%list_elem_of_lookup. destruct (Forall2_lookup_r _ _ _ _ _ Hf Hi) as (x & Hx & Hxy). exists x.
  split; [by eapply list_elem_of_lookup_2|done].
Qed.

(** Rule for a loop already known to have completed. *)
Lemma foldM_inv {A S} (f : S → A → result S) (I : list A → S → Prop) l :
  ∀ s s', foldM f s l = Ok s' → I [] s →
  (∀ done x todo s1 s2, l = done ++ x :: todo → I done s1 →
     f s1 x = Ok s2 → I (done ++ [x]) s2) →
  I l s'.
Proof.
  intros s s' Hf Hs Hstep.
  cut (∀ todo done s, l = done ++ todo → I done s →
         foldM f s todo = Ok s' → I l s').
  { intros H. by eapply (H l []). }
  clear s Hs Hf. induction todo as [|x todo IH]; intros dn s Hl HI Hf; simpl in *.
  - rewrite app_nil_r in Hl. by simplify_eq.
  - apply bind_Ok in Hf as (s1 & Hx & Hf).
    apply (IH (dn ++ [x]) s1); [by rewrite <-app_assoc|by eapply Hstep|done].
Qed.

(** Case analysis on a completed monadic computation. *)
Ltac inv_ok :=
  repeat match goal with
  | H : Err _ = Ok _ |- _ => discriminate H
  | H : Ok _ = Ok _ |- _ => injection H as H; subst
  | H : mret _ = Ok _ |- _ => injection H as H; subst
  | H : (_ ≫= _) = Ok _ |- _ => apply bind_Ok in H as (? & ? & H)
  | H : py_assert _ = Ok _ |- _ => apply py_assert_Ok in H
  | H : unwrap _ _ = Ok _ |- _ => apply unwrap_Ok in H
  | H : (let '_ := ?x in _) = Ok _ |- _ => destruct x
  | H : (_, _) = (_, _) |- _ => injection H as H; subst
  end.

Ltac case_ok :=
  match goal with
  | H : (if ?b then _ else _) = Ok _ |- _ => destruct b eqn:?
  | H : match ?x with _ => _ end = Ok _ |- _ => destruct x eqn:?
  end.

(** ** Total correctness

    [runs m P]: the computation [m] completes, and [P] holds of its result. *)

Definition runs {A} (m : result A) (P : A → Prop) : Prop :=
  match m with Ok a => P a | Err _ => False end.

Lemma runs_Ok {A} (m : result A) P : runs m P ↔ ∃ a, m = Ok a ∧ P a.
Proof. destruct m; simpl; naive_solver. Qed.

Lemma runs_intro {A} (m : result A) (P : A → Prop) a : m = Ok a → P a → runs m P.
Proof. by intros ->. Qed.

Lemma runs_mono {A} (m : result A) (P P' : A → Prop) : runs m P → (∀ a, P a → P' a) → runs m P'.
Proof. destruct m; simpl; auto. Qed.

Lemma runs_bind {A B} (m : result A) (f : A → result B) (P : A → Prop) (P' : B → Prop) :
  runs m P → (∀ a, P a → runs (f a) P') → runs (m ≫= f) P'.
Proof. destruct m; simpl; auto. Qed.

Lemma runs_assert b : b = true → runs (py_assert b) (λ _, True).
Proof. by intros ->. Qed.

Lemma runs_unwrap {A} e (o : option A) a : o = Some a → runs (unwrap e o) (eq a).
Proof. by intros ->. Qed.

(** The loop rule with the visited and the remaining elements. *)
Lemma runs_foldM {A S} (f : S → A → result S) (I : list A → list A → S → Prop) l s :
  I [] l s →
  (∀ dn x todo s, I dn (x :: todo) s → runs (f s x) (I (dn ++ [x]) todo)) →
  runs (foldM f s l) (I l []).
Proof.
  intros Hs Hstep. cut (∀ todo dn s, I dn todo s → runs (foldM f s todo) (I (dn ++ todo) [])).
  { intros H. by apply (H l []). }
  clear s Hs. induction todo as [|x todo IH]; intros dn s HI; simpl; [by rewrite app_nil_r|].
  eapply runs_bind; [by apply Hstep|]. intros s' HI'. replace (dn ++ x :: todo) with ((dn ++ [x]) ++ todo) by by rewrite <-app_assoc.
  by apply IH.
Qed.

Lemma runs_mapM {A B} (f : A → result B) (P : A → B → Prop) l :
  (∀ x, x ∈ l → runs (f x) (P x)) → runs (mapM_ok f l) (Forall2 P l).
Proof.
  induction l as [|x l IH]; intros Hl; simpl; [constructor|].
  eapply runs_bind; [apply Hl; by left|]. intros y Hy. eapply runs_bind; [apply IH; intros z Hz; apply Hl; by right|].
  intros ys Hys. by constructor.
Qed.

(** ** Python integers, sequences and slices *)

Section Sequences.
Local Open Scope Z_scope.
Context {A : Type}.

Definition py_len (l : list A) : Z := Z.of_nat (length l).

(** [l[i]], negative indices counting from the end. *)
Definition py_get (l : list A) (i : Z) : result A :=
  let j := if i <? 0 then i + py_len l else i in
  if j <? 0 then Err IndexError
  else unwrap IndexError (l !! Z.to_nat j).

(** [slice(start, stop).indices(n)] for step one. *)
Definition slice_bound (n i : Z) : Z :=
  if i <? 0 then Z.max 0 (i + n) else Z.min i n.

(** [l[start:stop]] *)
Definition py_slice (l : list A) (start stop : Z) : list A :=
  let n := py_len l in
  let a := Z.to_nat (slice_bound n start) in
  let b := Z.to_nat (slice_bound n stop) in
  take (b - a) (drop a l).

(** [l[start:]] *)
Definition py_from (l : list A) (start : Z) : list A :=
  drop (Z.to_nat (slice_bound (py_len l) start)) l.

(** [l[:stop]] *)
Definition py_upto (l : list A) (stop : Z) : list A :=
  take (Z.to_nat (slice_bound (py_len l) stop)) l.

Lemma py_len_nonneg l : 0 ≤ py_len l.
Proof. unfold py_len. lia. Qed.

Lemma py_len_app l1 l2 : py_len (l1 ++ l2) = py_len l1 + py_len l2.
Proof. unfold py_len. rewrite length_app. lia. Qed.

Lemma py_get_nonneg l i :
  0 ≤ i → py_get l i = unwrap IndexError (l !! Z.to_nat i).
Proof.
  intros Hi. unfold py_get.
  destruct (Z.ltb_spec i 0); [lia|]. by destruct (Z.ltb_spec i 0); [lia|].
Qed.

Lemma py_get_Some l i x : l !! i = Some x → py_get l (Z.of_nat i) = Ok x.
Proof. intros H. rewrite py_get_nonneg by lia. by rewrite Nat2Z.id, H. Qed.

Lemma py_slice_nonneg l a b :
  0 ≤ a → 0 ≤ b →
  py_slice l a b = take (Z.to_nat b - Z.to_nat a) (drop (Z.to_nat a) l).
Proof.
  intros Ha Hb. unfold py_slice, slice_bound, py_len.
  destruct (Z.ltb_spec a 0); [lia|]. destruct (Z.ltb_spec b 0); [lia|].
  destruct (decide (length l ≤ Z.to_nat a)%nat).
  - rewrite !drop_ge by lia. by rewrite !take_nil.
  - replace (Z.to_nat (Z.min a (Z.of_nat (length l)))) with (Z.to_nat a) by lia.
    destruct (decide (length l ≤ Z.to_nat b)%nat).
    + rewrite !take_ge; [done|rewrite length_drop; lia..].
    + do 2 f_equal. lia.
Qed.

Lemma py_from_nonneg l a : 0 ≤ a → py_from l a = drop (Z.to_nat a) l.
Proof.
  intros Ha. unfold py_from, slice_bound, py_len.
  destruct (Z.ltb_spec a 0); [lia|].
  destruct (decide (length l ≤ Z.to_nat a)%nat).
  - rewrite !drop_ge by lia. done.
  - f_equal. lia.
Qed.
End Sequences.

(** [vllm.utils.math_utils.cdiv]: ceiling division, [-(a // -b)]. *)
Definition cdiv (a b : Z) : Z := (- (a / (- b)))%Z.

Lemma cdiv_spec a b : (0 < b)%Z → ((cdiv a b - 1) * b < a ≤ cdiv a b * b)%Z.
Proof.
  intros Hb. unfold cdiv.
  pose proof (Z.div_mod a (-b) ltac:(lia)).
  pose proof (Z.mod_neg_bound a (-b) ltac:(lia)). nia.
Qed.

Lemma cdiv_le_iff a b c : (0 < b)%Z → (cdiv a b ≤ c ↔ a ≤ c * b)%Z.
Proof. intros Hb. pose proof (cdiv_spec a b Hb). nia. Qed.

Lemma cdiv_nonneg a b : (0 ≤ a → 0 < b → 0 ≤ cdiv a b)%Z.
Proof. intros ? Hb. pose proof (cdiv_spec a b Hb). nia. Qed.

Lemma cdiv_mono a a' b : (0 < b → a ≤ a' → cdiv a b ≤ cdiv a' b)%Z.
Proof. intros Hb ?. apply cdiv_le_iff; [done|]. pose proof (cdiv_spec a' b Hb). lia. Qed.

Lemma cdiv_mul c b : (0 < b → cdiv (c * b) b = c)%Z.
Proof. intros Hb. pose proof (cdiv_spec (c * b) b Hb). nia. Qed.

(** [sum(l)] *)
Definition sumZ (l : list Z) : Z := foldr Z.add 0%Z l.

Lemma sumZ_app l1 l2 : sumZ (l1 ++ l2) = (sumZ l1 + sumZ l2)%Z.
Proof. unfold sumZ. induction l1 as [|x l1 IH]; simpl; [done|]. rewrite IH. lia. Qed.

#[export] Instance sumZ_perm : Proper ((≡ₚ) ==> (=)) sumZ.
Proof. intros l1 l2 Hl. unfold sumZ. induction Hl; simpl; lia. Qed.

Lemma sumZ_nonneg l : (∀ x, x ∈ l → (0 ≤ x)%Z) → (0 ≤ sumZ l)%Z.
Proof.
  induction l as [|x l IH]; intros Hl; simpl; [lia|]. pose proof (Hl x ltac:(left)).
  specialize (IH ltac:(intros y ?; apply Hl; by right)). lia.
Qed.

(** [range(a, b)] *)
Definition py_range (a b : Z) : list Z :=
  (λ i, a + Z.of_nat i)%Z <$> seq 0 (Z.to_nat (b - a)).

Lemma elem_of_py_range a b i : i ∈ py_range a b ↔ (a ≤ i < b)%Z.
Proof.
  unfold py_range. rewrite list_elem_of_fmap. setoid_rewrite elem_of_seq. split.
  - intros (k & -> & ?). lia.
  - intros [? ?]. exists (Z.to_nat (i - a)). lia.
Qed.

Lemma py_range_nil a b : (b ≤ a)%Z → py_range a b = [].
Proof. intros H. unfold py_range. by replace (Z.to_nat (b - a)) with 0%nat by lia. Qed.

Lemma py_range_cons a b : (a < b)%Z → py_range a b = a :: py_range (a + 1) b.
Proof.
  intros H. unfold py_range. replace (Z.to_nat (b - a)) with (S (Z.to_nat (b - (a + 1)))) by lia.
  simpl. f_equal; [lia|]. rewrite <-fmap_S_seq, <-list_fmap_compose. apply list_fmap_ext. intros i x _. simpl. lia.
Qed.

Lemma py_range_snoc a b : (a < b)%Z → py_range a b = py_range a (b - 1) ++ [(b - 1)%Z].
Proof.
  intros H. unfold py_range. replace (Z.to_nat (b - a)) with (S (Z.to_nat (b - 1 - a))) by lia.
  rewrite seq_S, fmap_app. simpl. do 2 f_equal. lia.
Qed.

(** ** Insertion-ordered dictionaries

    A Python [dict] (and [OrderedDict]) whose iteration order the code relies
    on: an association list without duplicate keys, in insertion order. *)

Section OrderedDict.
Context {K V : Type} `{EqDecision K}.

Fixpoint od_get (d : list (K * V)) (k : K) : option V :=
  match d with
  | [] => None
  | (k', v) :: d' => if decide (k = k') then Some v else od_get d' k
  end.

(** [d[k] = v]: an existing key keeps its position. *)
Fixpoint od_set (d : list (K * V)) (k : K) (v : V) : list (K * V) :=
  match d with
  | [] => [(k, v)]
  | (k', v') :: d' =>
      if decide (k = k') then (k, v) :: d' else (k', v') :: od_set d' k v
  end.

(** [del d[k]] / [d.pop(k)] *)
Fixpoint od_del (d : list (K * V)) (k : K) : list (K * V) :=
  match d with
  | [] => []
  | (k', v') :: d' => if decide (k = k') then d' else (k', v') :: od_del d' k
  end.

Definition od_keys (d : list (K * V)) : list K := d.*1.

Lemma od_get_None d k : od_get d k = None ↔ k ∉ od_keys d.
Proof.
  induction d as [|[k' v'] d IH]; simpl.
  - split; [intros _; apply not_elem_of_nil|done].
  - rewrite not_elem_of_cons. case_decide; naive_solver.
Qed.

Lemma od_get_Some_in d k v : od_get d k = Some v → (k, v) ∈ d.
Proof.
  induction d as [|[k' v'] d IH]; simpl; [done|].
  case_decide; intros ?; simplify_eq; [left|right; auto].
Qed.

Lemma od_set_new d k v : k ∉ od_keys d → od_set d k v = d ++ [(k, v)].
Proof.
  induction d as [|[k' v'] d IH]; simpl; [done|].
  intros [Hk Hd]%not_elem_of_cons. rewrite decide_False by done. f_equal. auto.
Qed.

Lemma od_get_set d k v k' :
  od_get (od_set d k v) k' = if decide (k' = k) then Some v else od_get d k'.
Proof.
  induction d as [|[k2 v2] d IH]; simpl.
  - by repeat case_decide; simplify_eq.
  - repeat (case_decide; simplify_eq; simpl; try done).
    all: by rewrite IH, ?decide_True, ?decide_False by done.
Qed.

Lemma od_get_keys d k : is_Some (od_get d k) ↔ k ∈ od_keys d.
Proof.
  destruct (decide (k ∈ od_keys d)) as [Hk|Hk].
  - split; [done|]. intros _. apply not_eq_None_Some. intros Hn. by apply od_get_None in Hn.
  - split; [|done]. rewrite (proj2 (od_get_None d k) Hk). by intros [? ?].
Qed.

Lemma od_keys_set_new d k v : k ∉ od_keys d → od_keys (od_set d k v) = od_keys d ++ [k].
Proof. intros Hk. unfold od_keys. by rewrite od_set_new, fmap_app. Qed.

Lemma od_set_keys d k v k' : k' ∈ od_keys (od_set d k v) ↔ k' = k ∨ k' ∈ od_keys d.
Proof. rewrite <-!od_get_keys, od_get_set. case_decide as Hk; split; [by left|by intros _; eexists|by right|by intros [->|?]]. Qed.

Lemma od_del_keys d k k' :
  NoDup (od_keys d) → k' ∈ od_keys (od_del d k) ↔ k' ∈ od_keys d ∧ k' ≠ k.
Proof.
  induction d as [|[k2 v2] d IH]; simpl.
  - intros _. split; [by intros ?%elem_of_nil|by intros [?%elem_of_nil _]].
  - intros [Hk2 Hd]%NoDup_cons. case_decide; simplify_eq; simpl.
    + rewrite elem_of_cons. naive_solver.
    + rewrite !elem_of_cons, IH by done. naive_solver.
Qed.

Lemma od_del_NoDup d k : NoDup (od_keys d) → NoDup (od_keys (od_del d k)).
Proof.
  induction d as [|[k2 v2] d IH]; simpl; [done|].
  intros [Hk2 Hd]%NoDup_cons. case_decide; simpl; [done|].
  apply NoDup_cons; split; [|by apply IH].
  change (k2 ∉ od_keys (od_del d k)). rewrite od_del_keys by done. naive_solver.
Qed.

Lemma od_get_del d k k' :
  NoDup (od_keys d) →
  od_get (od_del d k) k' = if decide (k' = k) then None else od_get d k'.
Proof.
  induction d as [|[k2 v2] d IH]; simpl.
  - intros _. by case_decide.
  - intros [Hk2 Hd]%NoDup_cons. specialize (IH Hd).
    destruct (decide (k = k2)) as [->|Hne]; simpl.
    + repeat case_decide; simplify_eq; [by apply od_get_None|done].
    + rewrite IH. by repeat case_decide; simplify_eq.
Qed.

Lemma od_del_perm d k v : od_get d k = Some v → d ≡ₚ (k, v) :: od_del d k.
Proof.
  induction d as [|[k' v'] d IH]; simpl; [done|]. case_decide; simplify_eq; [by intros [= ->]|].
  intros Hd. rewrite (IH Hd) at 1. apply Permutation_swap.
Qed.

Lemma od_get_In d k v : NoDup (od_keys d) → (k, v) ∈ d → od_get d k = Some v.
Proof.
  induction d as [|[k' v'] d IH]; simpl; [by intros _ ?%elem_of_nil|]. intros [Hk Hd]%NoDup_cons [[= -> ->]|Hin]%elem_of_cons.
  - by rewrite decide_True.
  - rewrite decide_False; [by apply IH|]. intros <-. apply Hk. change k with (k, v).1. by apply list_elem_of_fmap_2.
Qed.
End OrderedDict.

Lemma filter_ne_absent `{EqDecision A} (x : A) (l : list A) : x ∉ l → filter (λ y, y ≠ x) l = l.
Proof.
  intros Hx. induction l as [|y l IH]; [done|]. apply not_elem_of_cons in Hx as [Hy Hx].
  rewrite filter_cons_True by done. f_equal. by apply IH.
Qed.

(** Without duplicates, taking an element out leaves the others. *)
Lemma filter_ne_perm `{EqDecision A} (x : A) (l : list A) : NoDup l → x ∈ l → l ≡ₚ x :: filter (λ y, y ≠ x) l.
Proof.
  induction l as [|y l IH]; [by intros _ ?%elem_of_nil|]. intros [Hy Hl]%NoDup_cons [->|Hx]%elem_of_cons.
  - rewrite filter_cons_False by (intros Hn; by apply Hn). by rewrite filter_ne_absent.
  - rewrite filter_cons_True by (intros ->; done). rewrite (IH Hl Hx) at 1. apply Permutation_swap.
Qed.

(** ** Automation *)

Create HintDb vllm.
#[export] Hint Resolve py_len_nonneg cdiv_nonneg : vllm.

(** Close a goal of linear arithmetic after case-splitting boolean tests. *)
Ltac zbool :=
  repeat match goal with
  | H : (_ <? _)%Z = true |- _ => apply Z.ltb_lt in H
  | H : (_ <? _)%Z = false |- _ => apply Z.ltb_ge in H
  | H : (_ <=? _)%Z = true |- _ => apply Z.leb_le in H
  | H : (_ <=? _)%Z = false |- _ => apply Z.leb_gt in H
  | H : (_ =? _)%Z = true |- _ => apply Z.eqb_eq in H
  | H : (_ =? _)%Z = false |- _ => apply Z.eqb_neq in H
  | H : (_ && _) = true |- _ => apply andb_true_iff in H as [? ?]
  | H : (_ || _) = false |- _ => apply orb_false_iff in H as [? ?]
  | H : negb _ = true |- _ => apply negb_true_iff in H
  | H : negb _ = false |- _ => apply negb_false_iff in H
  end.
