(* ===== verification/FreeQueue.v ===== *)
(** * The free-block queue

    [vllm/vllm/v1/core/kv_cache_utils.py]: [KVCacheBlock] and
    [FreeKVCacheBlockQueue], the doubly linked list of free blocks that the
    block pool allocates from and evicts in.

    The Python objects live in an explicit store indexed by references.  The
    links are fields of the blocks, exactly as in the code, so every operation
    is a sequence of pointer writes; [queue_rep] relates a store to the list of
    references it represents and the theorems show that each operation
    implements the corresponding list operation. *)

From S2P Require Import Prelude.
Local Open Scope Z_scope.

(** A reference to a [KVCacheBlock]: the two sentinels of the queue, or the
    pool block with the given id.  The [block_id] attribute is fixed at
    construction, so a pool block is identified by it. *)
Inductive ref : Type :=
  | FakeHead
  | FakeTail
  | Blk (idx : nat).

#[export] Instance ref_eq_dec : EqDecision ref.
Proof. solve_decision. Defined.

#[export] Instance ref_countable : Countable ref.
Proof.
  refine (inj_countable'
    (λ r, match r with FakeHead => None | FakeTail => Some None | Blk i => Some (Some i) end)
    (λ o, match o with None => FakeHead | Some None => FakeTail | Some (Some i) => Blk i end) _).
  by intros [| |i].
Defined.

Definition block_id (r : ref) : Z :=
  match r with Blk i => Z.of_nat i | _ => -1 end.

(** A byte string, one entry per byte. *)
Abbreviation bytes := (list Z).

Record KVCacheBlock : Type := mkKVCacheBlock {
  ref_cnt : Z;
  block_hash : option bytes;
  block_hash_num_tokens : option Z;
  prev_free_block : option ref;
  next_free_block : option ref;
  is_null : bool;
}.

Definition new_block : KVCacheBlock :=
  {| ref_cnt := 0; block_hash := None; block_hash_num_tokens := None;
     prev_free_block := None; next_free_block := None; is_null := false |}.

Definition with_prev (p : option ref) (b : KVCacheBlock) : KVCacheBlock :=
  {| ref_cnt := ref_cnt b; block_hash := block_hash b;
     block_hash_num_tokens := block_hash_num_tokens b;
     prev_free_block := p; next_free_block := next_free_block b; is_null := is_null b |}.

Definition with_next (n : option ref) (b : KVCacheBlock) : KVCacheBlock :=
  {| ref_cnt := ref_cnt b; block_hash := block_hash b;
     block_hash_num_tokens := block_hash_num_tokens b;
     prev_free_block := prev_free_block b; next_free_block := n; is_null := is_null b |}.

(** The store of block objects. *)
Abbreviation store := (gmap ref KVCacheBlock).

(** Attribute reads and writes through a reference. *)
Definition prv (s : store) (r : ref) : option ref := s !! r ≫= prev_free_block.
Definition nxt (s : store) (r : ref) : option ref := s !! r ≫= next_free_block.
Definition set_prev (r : ref) (p : option ref) (s : store) : store := alter (with_prev p) r s.
Definition set_next (r : ref) (n : option ref) (s : store) : store := alter (with_next n) r s.

(** [x.prev_free_block = x.next_free_block = None] *)
Definition unlink (r : ref) (s : store) : store := set_next r None (set_prev r None s).

(** [FreeKVCacheBlockQueue]: the attribute [num_free_blocks]; the sentinels
    are the store entries of [FakeHead] and [FakeTail]. *)
Record FreeQueue : Type := mkFreeQueue {
  fq_store : store;
  num_free_blocks : Z;
}.

(** ** Operations *)

(** The two initial loops of [__init__]: links of consecutive blocks. *)
Definition init_links (blocks : list ref) (s : store) (i : nat) : store :=
  match blocks !! i with
  | None => s
  | Some b =>
      let s1 :=
        if bool_decide (0 < i)%nat
        then set_prev b (blocks !! (i - 1)%nat) s else s in
      if bool_decide (i < length blocks - 1)%nat
      then set_next b (blocks !! (i + 1)%nat) s1 else s1
  end.

Definition init_queue (blocks : list ref) (s : store) : FreeQueue :=
  let s1 := foldl (init_links blocks) s (seq 0 (length blocks)) in
  let s2 := <[FakeTail := new_block]> (<[FakeHead := new_block]> s1) in
  let s3 :=
    match blocks !! 0%nat, last blocks with
    | Some b0, Some bl =>
        set_next bl (Some FakeTail)
          (set_prev FakeTail (Some bl)
            (set_prev b0 (Some FakeHead)
              (set_next FakeHead (Some b0) s2)))
    | _, _ =>
        set_prev FakeTail (Some FakeHead) (set_next FakeHead (Some FakeTail) s2)
    end in
  {| fq_store := s3; num_free_blocks := py_len blocks |}.

Definition popleft (q : FreeQueue) : result (ref * FreeQueue) :=
  let s := fq_store q in
  match nxt s FakeHead with
  | None | Some FakeTail =>
      _ ← py_assert (num_free_blocks q =? 0); Err ValueError
  | Some first =>
      match nxt s first with
      | None => Err RuntimeError
      | Some second =>
          let s1 := set_next FakeHead (Some second) s in
          let s2 := set_prev second (Some FakeHead) s1 in
          Ok (first, {| fq_store := unlink first s2;
                        num_free_blocks := num_free_blocks q - 1 |})
      end
  end.

(** The [for _ in range(n)] loop of [popleft_n]. *)
Fixpoint popleft_loop (n : nat) (curr : option ref) (s : store) :
    result (list ref * option ref * store) :=
  match n with
  | O => Ok ([], curr, s)
  | S n' =>
      c ← unwrap AssertionError curr;
      '(ret, curr', s') ← popleft_loop n' (nxt s c) (unlink c s);
      Ok (c :: ret, curr', s')
  end.

Definition popleft_n (n : Z) (q : FreeQueue) : result (list ref * FreeQueue) :=
  if n =? 0 then Ok ([], q)
  else
    _ ← py_assert (n <=? num_free_blocks q);
    '(ret, curr, s) ← popleft_loop (Z.to_nat n) (nxt (fq_store q) FakeHead) (fq_store q);
    let s' := match curr with
              | None => s
              | Some c => set_prev c (Some FakeHead) (set_next FakeHead (Some c) s)
              end in
    Ok (ret, {| fq_store := s'; num_free_blocks := num_free_blocks q - n |}).

Definition remove (r : ref) (q : FreeQueue) : result FreeQueue :=
  let s := fq_store q in
  match prv s r, nxt s r with
  | Some p, Some n =>
      let s1 := set_next p (Some n) s in
      let s2 := set_prev n (Some p) s1 in
      Ok {| fq_store := unlink r s2; num_free_blocks := num_free_blocks q - 1 |}
  | _, _ => Err RuntimeError
  end.

Definition append (r : ref) (q : FreeQueue) : result FreeQueue :=
  let s := fq_store q in
  match prv s FakeTail with
  | None => Err RuntimeError
  | Some last =>
      let s1 := set_prev r (Some last) (set_next last (Some r) s) in
      let s2 := set_prev FakeTail (Some r) (set_next r (Some FakeTail) s1) in
      Ok {| fq_store := s2; num_free_blocks := num_free_blocks q + 1 |}
  end.

(** The loop shared by [prepend_n] and [append_n]: link each block after the
    previous one, returning the last block linked. *)
Fixpoint link_loop (last : ref) (blocks : list ref) (s : store) : ref * store :=
  match blocks with
  | [] => (last, s)
  | b :: bs => link_loop b bs (set_next last (Some b) (set_prev b (Some last) s))
  end.

Definition prepend_n (blocks : list ref) (q : FreeQueue) : result FreeQueue :=
  match blocks with
  | [] => Ok q
  | _ =>
      first ← unwrap AssertionError (nxt (fq_store q) FakeHead);
      let '(last, s) := link_loop FakeHead blocks (fq_store q) in
      Ok {| fq_store := set_prev first (Some last) (set_next last (Some first) s);
            num_free_blocks := num_free_blocks q + py_len blocks |}
  end.

Definition append_n (blocks : list ref) (q : FreeQueue) : result FreeQueue :=
  match blocks with
  | [] => Ok q
  | _ =>
      last0 ← unwrap AssertionError (prv (fq_store q) FakeTail);
      let '(last, s) := link_loop last0 blocks (fq_store q) in
      Ok {| fq_store := set_prev FakeTail (Some last) (set_next last (Some FakeTail) s);
            num_free_blocks := num_free_blocks q + py_len blocks |}
  end.

(** The [while curr_block.next_free_block is not None] loop. *)
Fixpoint walk_free (fuel : nat) (s : store) (curr : ref) : result (list ref) :=
  match fuel with
  | O => Err OutOfFuel
  | S fuel' =>
      match nxt s curr with
      | None => Ok []
      | Some n => rest ← walk_free fuel' s n; Ok (curr :: rest)
      end
  end.

Definition get_all_free_blocks (fuel : nat) (q : FreeQueue) : result (list ref) :=
  curr ← unwrap RuntimeError (nxt (fq_store q) FakeHead);
  walk_free fuel (fq_store q) curr.

(** [iter_blocks_after]: the generator, run to exhaustion. *)
Fixpoint walk_after (fuel : nat) (s : store) (curr : option ref) : result (list ref) :=
  match fuel with
  | O => Err OutOfFuel
  | S fuel' =>
      match curr with
      | None | Some FakeTail => Ok []
      | Some c => rest ← walk_after fuel' s (nxt s c); Ok (c :: rest)
      end
  end.

Definition iter_blocks_after (fuel : nat) (cursor : option ref) (q : FreeQueue) :
    result (list ref) :=
  walk_after fuel (fq_store q)
    (match cursor with None => nxt (fq_store q) FakeHead | Some c => nxt (fq_store q) c end).

(** ** Representation *)

(** Neighbours of an element in a list of references. *)
Fixpoint succ_in (rs : list ref) (r : ref) : option ref :=
  match rs with
  | a :: ((b :: _) as rs') => if decide (r = a) then Some b else succ_in rs' r
  | _ => None
  end.

Fixpoint pred_in (rs : list ref) (r : ref) : option ref :=
  match rs with
  | a :: ((b :: _) as rs') => if decide (r = b) then Some a else pred_in rs' r
  | _ => None
  end.

Definition ring (l : list ref) : list ref := FakeHead :: l ++ [FakeTail].

(** The store represents the free list [l]: along the sentinels and [l] the
    links are those of a doubly linked list, every other block is unlinked,
    and the counter is the length. *)
Record queue_rep (q : FreeQueue) (l : list ref) : Prop := {
  qr_nodup : NoDup (ring l);
  qr_nxt : ∀ r, nxt (fq_store q) r = succ_in (ring l) r;
  qr_prv : ∀ r, prv (fq_store q) r = pred_in (ring l) r;
  qr_len : num_free_blocks q = py_len l;
}.

(** ** Pointer reads after pointer writes *)

Definition has (s : store) (r : ref) : Prop := is_Some (s !! r).

Section Pointers.
Implicit Types (s : store) (r x : ref) (v : option ref).

Lemma nxt_set_next s r v x :
  has s r → nxt (set_next r v s) x = if decide (x = r) then v else nxt s x.
Proof.
  intros [b Hb]. unfold nxt, set_next. case_decide; subst.
  - by rewrite lookup_alter_eq, Hb.
  - by rewrite lookup_alter_ne.
Qed.

Lemma prv_set_prev s r v x :
  has s r → prv (set_prev r v s) x = if decide (x = r) then v else prv s x.
Proof.
  intros [b Hb]. unfold prv, set_prev. case_decide; subst.
  - by rewrite lookup_alter_eq, Hb.
  - by rewrite lookup_alter_ne.
Qed.

Lemma nxt_set_prev s r v x : nxt (set_prev r v s) x = nxt s x.
Proof.
  unfold nxt, set_prev. rewrite lookup_alter. case_decide; [|done].
  subst. by destruct (s !! x).
Qed.

Lemma prv_set_next s r v x : prv (set_next r v s) x = prv s x.
Proof.
  unfold prv, set_next. rewrite lookup_alter. case_decide; [|done].
  subst. by destruct (s !! x).
Qed.

Lemma has_set_next s r v x : has (set_next r v s) x ↔ has s x.
Proof. unfold has, set_next. by rewrite lookup_alter_is_Some. Qed.

Lemma has_set_prev s r v x : has (set_prev r v s) x ↔ has s x.
Proof. unfold has, set_prev. by rewrite lookup_alter_is_Some. Qed.

Lemma has_unlink s r x : has (unlink r s) x ↔ has s x.
Proof. unfold unlink. by rewrite has_set_next, has_set_prev. Qed.

Lemma nxt_unlink s r x : nxt (unlink r s) x = if decide (x = r) then None else nxt s x.
Proof.
  unfold unlink. destruct (s !! r) as [b|] eqn:Hr.
  - rewrite nxt_set_next, nxt_set_prev; [done|]. apply has_set_prev. by exists b.
  - unfold nxt, set_next, set_prev. rewrite !lookup_alter.
    repeat case_decide; simplify_eq; rewrite ?Hr; done.
Qed.

Lemma prv_unlink s r x : prv (unlink r s) x = if decide (x = r) then None else prv s x.
Proof.
  unfold unlink. rewrite prv_set_next. destruct (s !! r) as [b|] eqn:Hr.
  - apply prv_set_prev. by exists b.
  - unfold prv, set_prev. rewrite !lookup_alter.
    repeat case_decide; simplify_eq; rewrite ?Hr; done.
Qed.

Lemma nxt_has s r x : nxt s r = Some x → has s r.
Proof. unfold nxt, has. destruct (s !! r); [by eexists|done]. Qed.

Lemma prv_has s r x : prv s r = Some x → has s r.
Proof. unfold prv, has. destruct (s !! r); [by eexists|done]. Qed.
End Pointers.

#[export] Hint Resolve nxt_has prv_has : vllm.
#[export] Hint Extern 1 (has (set_next _ _ _) _) => apply has_set_next : vllm.
#[export] Hint Extern 1 (has (set_prev _ _ _) _) => apply has_set_prev : vllm.
#[export] Hint Extern 1 (has (unlink _ _) _) => apply has_unlink : vllm.

(** Evaluate the pointer reads of a goal through the writes. *)
Ltac ptr :=
  repeat first
    [ rewrite nxt_set_prev | rewrite prv_set_next | rewrite nxt_unlink | rewrite prv_unlink
    | rewrite nxt_set_next by eauto 10 with vllm
    | rewrite prv_set_prev by eauto 10 with vllm ].

(** ** Neighbours *)

Section Neighbours.
Implicit Types (rs : list ref) (r a b : ref).

Lemma succ_in_not rs r : r ∉ rs → succ_in rs r = None.
Proof.
  induction rs as [|a [|b rs] IH]; intros Hr; [done..|].
  apply not_elem_of_cons in Hr as [Ha Hr].
  change (succ_in (a :: b :: rs) r) with (if decide (r = a) then Some b else succ_in (b :: rs) r).
  rewrite decide_False by done. by apply IH.
Qed.

Lemma pred_in_not rs r : r ∉ rs → pred_in rs r = None.
Proof.
  induction rs as [|a [|b rs] IH]; intros Hr; [done..|].
  apply not_elem_of_cons in Hr as [Ha Hr].
  change (pred_in (a :: b :: rs) r) with (if decide (r = b) then Some a else pred_in (b :: rs) r).
  rewrite decide_False by (intros ->; apply Hr; left). by apply IH.
Qed.

(** Only the right part matters for an element that is not in the left one. *)
Lemma succ_in_app rs1 a rs2 r :
  succ_in (rs1 ++ a :: rs2) r =
    if decide (r ∈ rs1) then succ_in (rs1 ++ [a]) r else succ_in (a :: rs2) r.
Proof.
  induction rs1 as [|c rs1 IH]; simpl app.
  - by rewrite decide_False by apply not_elem_of_nil.
  - destruct rs1 as [|d rs1]; simpl app in *.
    + change (succ_in (c :: a :: rs2) r) with (if decide (r = c) then Some a else succ_in (a :: rs2) r).
      change (succ_in [c; a] r) with (if decide (r = c) then Some a else None).
      destruct (decide (r = c)) as [->|Hne].
      * by rewrite decide_True by set_solver.
      * by rewrite decide_False by set_solver.
    + change (succ_in (c :: d :: rs1 ++ a :: rs2) r)
        with (if decide (r = c) then Some d else succ_in (d :: rs1 ++ a :: rs2) r).
      change (succ_in (c :: d :: rs1 ++ [a]) r)
        with (if decide (r = c) then Some d else succ_in (d :: rs1 ++ [a]) r).
      destruct (decide (r = c)) as [->|Hne]; [by rewrite decide_True by set_solver|].
      rewrite IH. destruct (decide (r ∈ d :: rs1)).
      * by rewrite decide_True by set_solver.
      * by rewrite decide_False by set_solver.
Qed.

Lemma pred_in_app rs1 a rs2 r :
  NoDup (rs1 ++ a :: rs2) →
  pred_in (rs1 ++ a :: rs2) r =
    if decide (r ∈ rs2) then pred_in (a :: rs2) r else pred_in (rs1 ++ [a]) r.
Proof.
  induction rs1 as [|c rs1 IH]; simpl app; intros Hnd.
  - case_decide; [done|]. simpl. destruct rs2 as [|b rs2]; [done|].
    rewrite decide_False by set_solver. by apply pred_in_not.
  - apply NoDup_cons in Hnd as [Hc Hnd]. specialize (IH Hnd).
    destruct rs1 as [|d rs1]; simpl app in *.
    + change (pred_in (c :: a :: rs2) r) with (if decide (r = a) then Some c else pred_in (a :: rs2) r).
      change (pred_in [c; a] r) with (if decide (r = a) then Some c else None).
      apply NoDup_cons in Hnd as [Ha Hnd].
      destruct (decide (r = a)) as [->|Hne]; [by rewrite decide_False by done|].
      case_decide; [done|]. apply pred_in_not. set_solver.
    + change (pred_in (c :: d :: rs1 ++ a :: rs2) r)
        with (if decide (r = d) then Some c else pred_in (d :: rs1 ++ a :: rs2) r).
      change (pred_in (c :: d :: rs1 ++ [a]) r)
        with (if decide (r = d) then Some c else pred_in (d :: rs1 ++ [a]) r).
      apply NoDup_cons in Hnd as [Hd Hnd].
      destruct (decide (r = d)) as [->|Hne]; [by rewrite decide_False by set_solver|].
      exact IH.
Qed.

Lemma succ_in_cons a b rs r :
  succ_in (a :: b :: rs) r = if decide (r = a) then Some b else succ_in (b :: rs) r.
Proof. done. Qed.

Lemma pred_in_cons a b rs r :
  pred_in (a :: b :: rs) r = if decide (r = b) then Some a else pred_in (b :: rs) r.
Proof. done. Qed.

Lemma succ_in_single a r : succ_in [a] r = None.
Proof. done. Qed.

(** Every element but the last has a successor, every one but the first a
    predecessor. *)
Lemma succ_in_is_Some rs a r : r ∈ rs → is_Some (succ_in (rs ++ [a]) r).
Proof.
  induction rs as [|c rs IH]; intros Hr; [by apply elem_of_nil in Hr|].
  destruct rs as [|d rs]; simpl app in *; rewrite succ_in_cons; case_decide; eauto.
  - set_solver.
  - apply IH. set_solver.
Qed.

Lemma pred_in_is_Some rs a r : r ∈ rs → is_Some (pred_in (a :: rs) r).
Proof.
  revert a. induction rs as [|c rs IH]; intros a Hr; [by apply elem_of_nil in Hr|].
  rewrite pred_in_cons; case_decide; eauto. apply IH. set_solver.
Qed.

Lemma pred_in_tail a rs r : r ∉ rs → pred_in (a :: rs) r = None.
Proof.
  destruct rs as [|b rs]; [done|]. intros Hr.
  rewrite pred_in_cons, decide_False by set_solver. by apply pred_in_not.
Qed.

Lemma pred_in_snoc rs b r : r ≠ b → pred_in (rs ++ [b]) r = pred_in rs r.
Proof.
  intros Hr. induction rs as [|a [|c rs] IH]; simpl app in *; [done|..].
  - by rewrite pred_in_cons, decide_False by done.
  - rewrite !pred_in_cons. by rewrite IH.
Qed.

Lemma succ_in_first c l t : succ_in (c :: l ++ [t]) c = Some (default t (head l)).
Proof. destruct l; simpl app; by rewrite succ_in_cons, decide_True. Qed.

Lemma succ_in_rest c l t r : r ≠ c → succ_in (c :: l ++ [t]) r = succ_in (l ++ [t]) r.
Proof. intros Hr. destruct l; simpl app; by rewrite succ_in_cons, decide_False. Qed.

Lemma head_snoc (l : list ref) t : head (l ++ [t]) = Some (default t (head l)).
Proof. by destruct l. Qed.
End Neighbours.

#[global] Arguments succ_in : simpl never.
#[global] Arguments pred_in : simpl never.

(** ** What the queue leaves alone

    The queue operations write link fields only: the reference counts, hashes
    and null flags of all blocks, and the set of blocks, are unchanged. *)

Definition core (b : KVCacheBlock) : KVCacheBlock := with_next None (with_prev None b).

Definition same_core (s s' : store) : Prop := ∀ r, core <$> s !! r = core <$> s' !! r.

#[export] Instance same_core_equiv : Equivalence same_core.
Proof.
  split.
  - by intros s r.
  - intros s s' H r. by rewrite H.
  - intros s1 s2 s3 H1 H2 r. by rewrite H1, H2.
Qed.

Lemma same_core_set_next r v s : same_core (set_next r v s) s.
Proof.
  intros x. unfold set_next. rewrite lookup_alter. case_decide; [|done].
  subst. by destruct (s !! x).
Qed.

Lemma same_core_set_prev r v s : same_core (set_prev r v s) s.
Proof.
  intros x. unfold set_prev. rewrite lookup_alter. case_decide; [|done].
  subst. by destruct (s !! x).
Qed.

Lemma same_core_has s s' r : same_core s s' → has s r → has s' r.
Proof.
  intros H [b Hb]. specialize (H r). rewrite Hb in H. unfold has.
  destruct (s' !! r); [by eexists|done].
Qed.

Lemma same_core_lookup s s' r b :
  same_core s s' → s !! r = Some b → ∃ b', s' !! r = Some b' ∧ core b' = core b.
Proof.
  intros H Hb. specialize (H r). rewrite Hb in H.
  destruct (s' !! r) as [b'|]; [|done]. exists b'.
  split; [done|]. apply (inj Some) in H. by rewrite H.
Qed.

Lemma core_fields b b' :
  core b' = core b →
  ref_cnt b' = ref_cnt b ∧ block_hash b' = block_hash b ∧
  block_hash_num_tokens b' = block_hash_num_tokens b ∧ is_null b' = is_null b.
Proof. destruct b, b'. unfold core, with_next, with_prev. simpl. intros H. by injection H as -> -> -> ->. Qed.

#[export] Instance set_next_core_proper r v : Proper (same_core ==> same_core) (set_next r v).
Proof. intros s s' H. by rewrite !same_core_set_next. Qed.
#[export] Instance set_prev_core_proper r v : Proper (same_core ==> same_core) (set_prev r v).
Proof. intros s s' H. by rewrite !same_core_set_prev. Qed.

Ltac core_eq := simpl; unfold unlink; rewrite ?same_core_set_next, ?same_core_set_prev; reflexivity.

Lemma link_loop_core a bs s : same_core (link_loop a bs s).2 s.
Proof.
  revert a s. induction bs as [|b bs IH]; intros a s; simpl; [done|].
  rewrite IH. core_eq.
Qed.

(** ** Taking a block out and linking blocks in *)

Section Splice.
Implicit Types (s : store) (rs : list ref) (r a b : ref).

(** Links are those of [rs]; nothing else is linked. *)
Definition links s rs : Prop :=
  (∀ r, nxt s r = succ_in rs r) ∧ (∀ r, prv s r = pred_in rs r).

Lemma links_has s a b rs r : links s (a :: b :: rs) → NoDup (a :: b :: rs) →
  r ∈ a :: b :: rs → has s r.
Proof.
  intros [Hn Hp] Hnd Hr.
  apply elem_of_cons in Hr as [->|Hr].
  - apply (nxt_has _ _ b). rewrite Hn, succ_in_cons. by rewrite decide_True by done.
  - destruct (pred_in_is_Some (b :: rs) a r Hr) as [p Hpr].
    apply (prv_has _ _ p). by rewrite Hp.
Qed.

Lemma links_remove s rs1 a x b rs2 :
  NoDup (rs1 ++ a :: x :: b :: rs2) →
  links s (rs1 ++ a :: x :: b :: rs2) →
  links (unlink x (set_prev b (Some a) (set_next a (Some b) s)))
        (rs1 ++ a :: b :: rs2).
Proof.
  intros Hnd Hl.
  assert (Hnd' : NoDup (rs1 ++ a :: b :: rs2)).
  { eapply sublist_NoDup; [exact Hnd|]. apply sublist_app; [done|].
    by do 2 constructor. }
  assert (has s a ∧ has s b) as [Ha Hb].
  { destruct rs1 as [|c [|d rs1]]; split; eapply links_has; try exact Hl; done || set_solver. }
  destruct Hl as [Hn Hp].
  pose proof Hnd as Hnd0. apply NoDup_app in Hnd as (Hnd1 & Hdis & Hnd2).
  apply NoDup_cons in Hnd2 as [Hax Hnd2]. apply NoDup_cons in Hnd2 as [Hxb Hnd2].
  apply NoDup_cons in Hnd2 as [Hbr Hnd2].
  split; intros r; ptr.
  - rewrite Hn, (succ_in_app rs1 a (x :: b :: rs2)), (succ_in_app rs1 a (b :: rs2)).
    rewrite !succ_in_cons. pose proof (Hdis r) as Hr.
    destruct (decide (r = x)) as [->|]; [|by repeat case_decide; set_solver].
    rewrite !decide_False by set_solver. symmetry. by apply succ_in_not.
  - rewrite Hp, (pred_in_app rs1 a (x :: b :: rs2)), (pred_in_app rs1 a (b :: rs2)) by done.
    rewrite !pred_in_cons. pose proof (Hdis r) as Hr.
    destruct (decide (r = x)) as [->|].
    { rewrite decide_False by set_solver. symmetry. apply pred_in_not. set_solver. }
    repeat case_decide; set_solver.
Qed.

Lemma nxt_link_loop a bs s r :
  NoDup (a :: bs) → (∀ c, c ∈ a :: bs → has s c) →
  nxt (link_loop a bs s).2 r =
    match succ_in (a :: bs) r with Some y => Some y | None => nxt s r end.
Proof.
  revert a s. induction bs as [|b bs IH]; intros a s Hnd Hs; simpl link_loop; [done|].
  assert (has s a ∧ has s b) as [? ?] by (split; apply Hs; set_solver).
  apply NoDup_cons in Hnd as [Ha Hnd].
  rewrite IH; [|done|intros c Hc; apply has_set_next, has_set_prev, Hs; set_solver].
  rewrite succ_in_cons. ptr. destruct (decide (r = a)) as [->|]; [|done].
  by rewrite succ_in_not.
Qed.

Lemma prv_link_loop a bs s r :
  NoDup (a :: bs) → (∀ c, c ∈ a :: bs → has s c) →
  prv (link_loop a bs s).2 r =
    match pred_in (a :: bs) r with Some y => Some y | None => prv s r end.
Proof.
  revert a s. induction bs as [|b bs IH]; intros a s Hnd Hs; simpl link_loop; [done|].
  assert (has s a ∧ has s b) as [? ?] by (split; apply Hs; set_solver).
  apply NoDup_cons in Hnd as [Ha Hnd].
  rewrite IH; [|done|intros c Hc; apply has_set_next, has_set_prev, Hs; set_solver].
  rewrite pred_in_cons. ptr. destruct (decide (r = b)) as [->|]; [|done].
  apply NoDup_cons in Hnd as [Hb Hnd].
  destruct bs as [|c bs]; [done|].
  rewrite pred_in_cons, decide_False by set_solver. by rewrite pred_in_not.
Qed.

Lemma link_loop_last a bs s : ∃ bs', a :: bs = bs' ++ [(link_loop a bs s).1].
Proof.
  revert a s. induction bs as [|b bs IH]; intros a s; simpl.
  - by exists [].
  - destruct (IH b (set_next a (Some b) (set_prev b (Some a) s))) as [bs' Hbs'].
    exists (a :: bs'). simpl. by rewrite <-Hbs'.
Qed.
(** Neighbours in a list with [bs] spliced in between [a] and [b]. *)
Lemma splice_disjoint rs1 a bs b rs2 r :
  NoDup (rs1 ++ a :: bs ++ b :: rs2) → r ∈ (a :: bs) → (r ∉ rs1) ∧ r ∉ (b :: rs2).
Proof.
  intros Hnd Hr. rewrite app_comm_cons in Hnd.
  apply NoDup_app in Hnd as (_ & Hd1 & Hnd). apply NoDup_app in Hnd as (_ & Hd2 & _).
  split; [|by apply Hd2]. intros Hr1. apply (Hd1 r Hr1). set_solver.
Qed.

Lemma succ_splice rs1 a bs b rs2 bs' z r :
  NoDup (rs1 ++ a :: bs ++ b :: rs2) → (a :: bs) = (bs' ++ [z]) →
  succ_in (rs1 ++ a :: bs ++ b :: rs2) r =
    if decide (r = z) then Some b
    else match succ_in (a :: bs) r with
         | Some y => Some y
         | None => succ_in (rs1 ++ a :: b :: rs2) r
         end.
Proof.
  intros Hnd Hz. pose proof (splice_disjoint _ _ _ _ _ r Hnd) as Hdis.
  assert (Hnz : NoDup (bs' ++ [z])).
  { rewrite <-Hz. apply NoDup_app in Hnd as (_ & _ & Hnd).
    rewrite app_comm_cons in Hnd. by apply NoDup_app in Hnd as [? _]. }
  rewrite (succ_in_app rs1 a (bs ++ b :: rs2)), (succ_in_app rs1 a (b :: rs2)), succ_in_cons.
  rewrite app_comm_cons, Hz, <-app_assoc. simpl.
  rewrite (succ_in_app bs' z (b :: rs2)), succ_in_cons.
  assert (Ha : a ∈ bs' ++ [z]) by (rewrite <-Hz; left).
  rewrite Hz in Hdis. apply NoDup_app in Hnz as (_ & Hnz & _).
  destruct (decide (r = z)) as [->|Hrz].
  { rewrite (decide_False (P:=z ∈ rs1)), (decide_False (P:=z ∈ bs')); set_solver. }
  destruct (decide (r ∈ bs')) as [Hr|Hr].
  { destruct (succ_in_is_Some bs' z r Hr) as [y ->].
    by rewrite decide_False by set_solver. }
  rewrite (succ_in_not (bs' ++ [z])) by set_solver.
  destruct (decide (r = a)) as [->|]; [set_solver|done].
Qed.

Lemma pred_splice rs1 a bs b rs2 bs' z r :
  NoDup (rs1 ++ a :: bs ++ b :: rs2) → (a :: bs) = (bs' ++ [z]) →
  pred_in (rs1 ++ a :: bs ++ b :: rs2) r =
    if decide (r = b) then Some z
    else match pred_in (a :: bs) r with
         | Some y => Some y
         | None => pred_in (rs1 ++ a :: b :: rs2) r
         end.
Proof.
  intros Hnd Hz. pose proof (splice_disjoint _ _ _ _ _ r Hnd) as Hdis.
  assert (Hnd1 : NoDup (rs1 ++ a :: b :: rs2)).
  { eapply sublist_NoDup; [exact Hnd|]. apply sublist_app; [done|].
    constructor. by apply sublist_inserts_l. }
  assert (Hnd2 : NoDup (a :: bs ++ b :: rs2)) by (by apply NoDup_app in Hnd as (_ & _ & ?)).
  assert (Hnb : (b ∉ rs2) ∧ b ∉ (a :: bs)).
  { rewrite app_comm_cons in Hnd2. apply NoDup_app in Hnd2 as (_ & Hd & Hnd2).
    apply NoDup_cons in Hnd2 as [? _]. split; [done|]. intros ?%Hd. set_solver. }
  rewrite (pred_in_app rs1 a (bs ++ b :: rs2)), (pred_in_app rs1 a (b :: rs2)), pred_in_cons by done.
  rewrite app_comm_cons, (pred_in_app (a :: bs) b rs2) by done.
  destruct (decide (r = b)) as [->|Hrb].
  { rewrite decide_True by set_solver. rewrite decide_False by naive_solver.
    rewrite Hz, <-app_assoc. simpl.
    rewrite (pred_in_app bs' z [b]) by (rewrite app_comm_cons, Hz, <-app_assoc in Hnd2; simpl in Hnd2;
      eapply sublist_NoDup; [exact Hnd2|]; apply sublist_app; [done|]; do 2 constructor; apply sublist_nil_l).
    rewrite decide_True by set_solver. by rewrite pred_in_cons, decide_True by done. }
  rewrite pred_in_snoc by done.
  destruct (decide (r ∈ bs)) as [Hr|Hr].
  { rewrite decide_True, decide_False by set_solver.
    by destruct (pred_in_is_Some bs a r Hr) as [y ->]. }
  rewrite (pred_in_tail a bs) by done.
  repeat case_decide; done || set_solver.
Qed.

(** Linking [bs] between two neighbours [a] and [b]. *)
Lemma links_insert s rs1 a bs b rs2 :
  NoDup (rs1 ++ a :: bs ++ b :: rs2) →
  links s (rs1 ++ a :: b :: rs2) → (∀ c, c ∈ bs → has s c) →
  let '(last, s') := link_loop a bs s in
  links (set_prev b (Some last) (set_next last (Some b) s'))
        (rs1 ++ a :: bs ++ b :: rs2).
Proof.
  intros Hnd Hl Hbs.
  assert (Hnd1 : NoDup (rs1 ++ a :: b :: rs2)).
  { eapply sublist_NoDup; [exact Hnd|]. apply sublist_app; [done|].
    constructor. by apply sublist_inserts_l. }
  assert (has s a ∧ has s b) as [Ha Hb].
  { destruct rs1 as [|c [|d rs1]]; split; eapply links_has; try exact Hl; done || set_solver. }
  assert (Hnda : NoDup (a :: bs)).
  { apply NoDup_app in Hnd as (_ & _ & Hnd). rewrite app_comm_cons in Hnd.
    by apply NoDup_app in Hnd as [? _]. }
  assert (Hhas : ∀ c, c ∈ a :: bs → has s c) by (intros c [->|?]%elem_of_cons; auto).
  pose proof (λ r, nxt_link_loop a bs s r Hnda Hhas) as Hn'.
  pose proof (λ r, prv_link_loop a bs s r Hnda Hhas) as Hp'.
  pose proof (link_loop_core a bs s) as Hcore.
  destruct (link_loop_last a bs s) as [bs' Hlast].
  destruct (link_loop a bs s) as [last s'] eqn:Hloop; simpl in *.
  assert (Hh : ∀ c, has s c → has s' c) by (intros c; by apply same_core_has).
  assert (has s' last) by (apply Hh, Hhas; rewrite Hlast; set_solver).
  assert (has s' b) by auto.
  destruct Hl as [Hn Hp]. split; intros r; ptr.
  - by rewrite Hn', Hn, (succ_splice _ _ _ _ _ _ _ r Hnd Hlast).
  - by rewrite Hp', Hp, (pred_splice _ _ _ _ _ _ _ r Hnd Hlast).
Qed.
End Splice.

(** ** The operations implement the list operations *)

Section Operations.
Implicit Types (q : FreeQueue) (l : list ref) (r : ref).

Lemma rep_links q l : queue_rep q l → links (fq_store q) (ring l).
Proof. intros [? ? ? ?]. done. Qed.

Lemma links_rep q l :
  NoDup (ring l) → links (fq_store q) (ring l) → num_free_blocks q = py_len l →
  queue_rep q l.
Proof. intros ? [? ?] ?. by constructor. Qed.

Lemma ring_split l1 r l2 :
  ∃ rs1 a b rs2, (FakeHead :: l1) = (rs1 ++ [a]) ∧ (l2 ++ [FakeTail]) = (b :: rs2) ∧
    ring (l1 ++ r :: l2) = rs1 ++ a :: r :: b :: rs2 ∧ ring (l1 ++ l2) = rs1 ++ a :: b :: rs2.
Proof.
  destruct (exists_last (l:=FakeHead :: l1)) as (rs1 & a & H1); [done|].
  destruct (l2 ++ [FakeTail]) as [|b rs2] eqn:H2; [by destruct l2|].
  exists rs1, a, b, rs2. unfold ring. split_and!; [done|done|..];
    rewrite <-app_assoc, app_comm_cons, H1, <-app_assoc; simpl; by rewrite ?H2.
Qed.

Lemma ring_nodup l : NoDup (ring l) ↔ NoDup l ∧ (FakeHead ∉ l) ∧ FakeTail ∉ l.
Proof.
  unfold ring. rewrite NoDup_cons, NoDup_app. split.
  - intros (H1 & H2 & H3 & _). split_and!; [done|set_solver|].
    intros H. apply (H3 _ H). set_solver.
  - intros (H1 & H2 & H3). split_and!; [set_solver|done|set_solver|apply NoDup_singleton].
Qed.

Lemma rep_nodup q l : queue_rep q l → NoDup l.
Proof. intros [H _ _ _]. by apply ring_nodup in H as [? _]. Qed.

Lemma rep_has q l r : queue_rep q l → r ∈ l → has (fq_store q) r.
Proof.
  intros H Hr. pose proof (qr_nodup _ _ H) as Hnd. apply rep_links in H.
  unfold ring in *. destruct l as [|b l]; [by apply elem_of_nil in Hr|].
  eapply links_has; [exact H|done|]. set_solver.
Qed.

Lemma rep_remove q l1 r l2 :
  queue_rep q (l1 ++ r :: l2) →
  ∃ p n, prv (fq_store q) r = Some p ∧ nxt (fq_store q) r = Some n ∧
    queue_rep {| fq_store := unlink r (set_prev n (Some p) (set_next p (Some n) (fq_store q)));
                 num_free_blocks := num_free_blocks q - 1 |} (l1 ++ l2).
Proof.
  intros H. destruct (ring_split l1 r l2) as (rs1 & a & b & rs2 & _ & _ & E1 & E2).
  pose proof (qr_nodup _ _ H) as Hnd. rewrite E1 in Hnd.
  exists a, b. split_and!.
  - rewrite (qr_prv _ _ H), E1, pred_in_app by done.
    rewrite decide_True by set_solver. by rewrite pred_in_cons, decide_True.
  - rewrite (qr_nxt _ _ H), E1, succ_in_app.
    apply NoDup_app in Hnd as (_ & Hd & Hnd).
    rewrite decide_False by (intros Hr; apply (Hd r Hr); set_solver).
    apply NoDup_cons in Hnd as [Ha _].
    rewrite succ_in_cons, decide_False by set_solver. by rewrite succ_in_cons, decide_True.
  - apply links_rep; simpl.
    + rewrite E2. eapply sublist_NoDup; [exact Hnd|]. apply sublist_app; [done|].
      by do 2 constructor.
    + rewrite E2. apply links_remove; [done|]. rewrite <-E1. by apply rep_links.
    + rewrite (qr_len _ _ H). unfold py_len. rewrite !length_app. simpl. lia.
Qed.

Lemma remove_spec q l1 r l2 :
  queue_rep q (l1 ++ r :: l2) →
  ∃ q', remove r q = Ok q' ∧ queue_rep q' (l1 ++ l2) ∧ same_core (fq_store q') (fq_store q).
Proof.
  intros H. destruct (rep_remove q l1 r l2 H) as (p & n & Hp & Hn & H').
  unfold remove. rewrite Hp, Hn. eexists. split_and!; [done|exact H'|core_eq].
Qed.

Lemma remove_absent q l r : queue_rep q l → r ∉ l → remove r q = Err RuntimeError.
Proof.
  intros H Hr. unfold remove. rewrite (qr_prv _ _ H), (qr_nxt _ _ H).
  destruct (decide (r = FakeTail)) as [->|Ht].
  - replace (succ_in (ring l) FakeTail) with (@None ref); [by destruct (pred_in _ _)|].
    pose proof (qr_nodup _ _ H) as Hnd. unfold ring in *. rewrite app_comm_cons in *.
    apply NoDup_app in Hnd as (_ & Hd & _).
    rewrite succ_in_app, decide_False; [done|]. intros Hin. apply (Hd _ Hin). set_solver.
  - destruct (decide (r = FakeHead)) as [->|Hh].
    + unfold ring. rewrite pred_in_tail by set_solver. done.
    + rewrite pred_in_not by (unfold ring; set_solver). done.
Qed.

Lemma popleft_spec q r l :
  queue_rep q (r :: l) →
  ∃ q', popleft q = Ok (r, q') ∧ queue_rep q' l ∧ same_core (fq_store q') (fq_store q).
Proof.
  intros H. destruct (rep_remove q [] r l H) as (p & n & Hp & Hn & H').
  assert (p = FakeHead) as ->.
  { rewrite (qr_prv _ _ H) in Hp. unfold ring in Hp. simpl app in Hp.
    rewrite pred_in_cons, decide_True in Hp by done. by simplify_eq. }
  assert (Hh : nxt (fq_store q) FakeHead = Some r) by (by rewrite (qr_nxt _ _ H)).
  pose proof (qr_nodup _ _ H) as (_ & _ & Ht)%ring_nodup.
  unfold popleft. rewrite Hh, Hn.
  destruct r; [|set_solver|]; (eexists; split_and!; [done|exact H'|core_eq]).
Qed.

Lemma popleft_empty q : queue_rep q [] → popleft q = Err ValueError.
Proof.
  intros H. unfold popleft. rewrite (qr_nxt _ _ H), (qr_len _ _ H). done.
Qed.

Lemma append_spec q l r :
  queue_rep q l → r ∉ ring l → has (fq_store q) r →
  ∃ q', append r q = Ok q' ∧ queue_rep q' (l ++ [r]) ∧ same_core (fq_store q') (fq_store q).
Proof.
  intros H Hr Hs. unfold append.
  destruct (exists_last (l:=FakeHead :: l)) as (rs1 & a & E); [done|].
  assert (Er : ring l = rs1 ++ a :: FakeTail :: []).
  { unfold ring. by rewrite app_comm_cons, E, <-app_assoc. }
  assert (Er' : ring (l ++ [r]) = rs1 ++ a :: [r] ++ FakeTail :: []).
  { unfold ring. rewrite <-app_assoc, app_comm_cons, E, <-app_assoc. done. }
  assert (Hnd : NoDup (ring (l ++ [r]))).
  { pose proof (qr_nodup _ _ H) as (Hl & Hh & Ht)%ring_nodup. unfold ring in Hr.
    apply ring_nodup. rewrite NoDup_app.
    split_and!; try apply NoDup_singleton; try done; set_solver. }
  pose proof (rep_links _ _ H) as Hl. rewrite Er in Hl.
  assert (has (fq_store q) a ∧ has (fq_store q) FakeTail) as [Ha Ht].
  { pose proof (qr_nodup _ _ H) as Hn0. rewrite Er in Hn0.
    destruct rs1 as [|c [|d rs1]]; split; eapply links_has; try exact Hl; done || set_solver. }
  assert (Hp : prv (fq_store q) FakeTail = Some a).
  { rewrite (qr_prv _ _ H), Er. pose proof (qr_nodup _ _ H) as Hn0. rewrite Er in Hn0.
    rewrite pred_in_app, decide_True by (done || set_solver).
    by rewrite pred_in_cons, decide_True. }
  rewrite Hp. eexists. split_and!; [done| |core_eq].
  apply links_rep; simpl; [done| |].
  - rewrite Er' in *.
    pose proof (links_insert (fq_store q) rs1 a [r] FakeTail [] Hnd Hl) as Hi.
    simpl in Hi. destruct Hi as [Hn Hpr]; [set_solver|].
    split; intros x; [rewrite <-Hn|rewrite <-Hpr]; ptr; done.
  - rewrite (qr_len _ _ H), py_len_app. done.
Qed.

(** Linking a fresh batch of blocks in after position [l1]. *)
Lemma rep_insert q l1 l2 bs rs1 a b rs2 :
  queue_rep q (l1 ++ l2) →
  ring (l1 ++ l2) = rs1 ++ a :: b :: rs2 → ring (l1 ++ bs ++ l2) = rs1 ++ a :: bs ++ b :: rs2 →
  NoDup (ring (l1 ++ bs ++ l2)) → (∀ r, r ∈ bs → has (fq_store q) r) →
  let '(z, s) := link_loop a bs (fq_store q) in
  queue_rep {| fq_store := set_prev b (Some z) (set_next z (Some b) s);
               num_free_blocks := num_free_blocks q + py_len bs |} (l1 ++ bs ++ l2).
Proof.
  intros H E1 E2 Hnd Hbs. rewrite E2 in Hnd.
  pose proof (rep_links _ _ H) as Hl. rewrite E1 in Hl.
  pose proof (links_insert (fq_store q) rs1 a bs b rs2 Hnd Hl Hbs) as Hi.
  destruct (link_loop a bs (fq_store q)) as [z s].
  apply links_rep; simpl; [by rewrite E2|by rewrite E2|].
  rewrite (qr_len _ _ H). unfold py_len. rewrite !length_app. lia.
Qed.

Lemma batch_nodup l bs :
  NoDup (ring l) → NoDup bs → (∀ r, r ∈ bs → r ∉ ring l) →
  NoDup (ring (l ++ bs)) ∧ NoDup (ring (bs ++ l)).
Proof.
  intros (Hl & Hh & Ht)%ring_nodup Hbs Hd. unfold ring in Hd.
  rewrite !ring_nodup, !NoDup_app, !not_elem_of_app.
  assert (FakeHead ∉ bs) by (intros ?%Hd; set_solver).
  assert (FakeTail ∉ bs) by (intros ?%Hd; set_solver).
  split_and!; try done; set_solver.
Qed.

Lemma append_n_spec q l bs :
  queue_rep q l → NoDup bs → (∀ r, r ∈ bs → (r ∉ ring l) ∧ has (fq_store q) r) →
  ∃ q', append_n bs q = Ok q' ∧ queue_rep q' (l ++ bs) ∧ same_core (fq_store q') (fq_store q).
Proof.
  intros H Hbs Hd. destruct bs as [|c bs].
  { exists q. rewrite app_nil_r. done. }
  set (bs0 := c :: bs) in *.
  destruct (exists_last (l:=FakeHead :: l)) as (rs1 & a & E); [done|].
  assert (E1 : ring (l ++ []) = rs1 ++ a :: FakeTail :: []).
  { unfold ring. by rewrite app_nil_r, app_comm_cons, E, <-app_assoc. }
  assert (E2 : ring (l ++ bs0 ++ []) = rs1 ++ a :: bs0 ++ FakeTail :: []).
  { unfold ring. by rewrite app_nil_r, <-app_assoc, app_comm_cons, E, <-app_assoc. }
  destruct (batch_nodup l bs0 (qr_nodup _ _ H) Hbs) as [Hnd _]; [naive_solver|].
  rewrite <-(app_nil_r l) in H. rewrite <-(app_nil_r bs0) in Hnd.
  pose proof (rep_insert q l [] bs0 rs1 a FakeTail [] H E1 E2 Hnd) as Hi.
  assert (Hp : prv (fq_store q) FakeTail = Some a).
  { rewrite (qr_prv _ _ H), E1. pose proof (qr_nodup _ _ H) as Hn0. rewrite E1 in Hn0.
    rewrite pred_in_app, decide_True by (done || set_solver).
    by rewrite pred_in_cons, decide_True. }
  unfold append_n. change (c :: bs) with bs0. rewrite Hp. cbn [unwrap mbind result_bind].
  pose proof (link_loop_core a bs0 (fq_store q)) as Hc.
  rewrite app_nil_r in Hi. fold bs0.
  destruct (link_loop a bs0 (fq_store q)) as [z s]. simpl in Hc.
  eexists. split_and!; [done|apply Hi; naive_solver|].
  simpl. by rewrite same_core_set_prev, same_core_set_next.
Qed.

Lemma prepend_n_spec q l bs :
  queue_rep q l → NoDup bs → (∀ r, r ∈ bs → (r ∉ ring l) ∧ has (fq_store q) r) →
  ∃ q', prepend_n bs q = Ok q' ∧ queue_rep q' (bs ++ l) ∧ same_core (fq_store q') (fq_store q).
Proof.
  intros H Hbs Hd. destruct bs as [|c bs]; [by exists q|].
  set (bs0 := c :: bs) in *.
  destruct (l ++ [FakeTail]) as [|b rs2] eqn:E; [by destruct l|].
  assert (E1 : ring ([] ++ l) = [] ++ FakeHead :: b :: rs2) by (unfold ring; simpl; by rewrite E).
  assert (E2 : ring ([] ++ bs0 ++ l) = [] ++ FakeHead :: bs0 ++ b :: rs2).
  { unfold ring. cbn [app]. by rewrite <-app_assoc, E. }
  destruct (batch_nodup l bs0 (qr_nodup _ _ H) Hbs) as [_ Hnd]; [naive_solver|].
  pose proof (rep_insert q [] l bs0 [] FakeHead b rs2 H E1 E2 Hnd) as Hi.
  assert (Hn : nxt (fq_store q) FakeHead = Some b).
  { rewrite (qr_nxt _ _ H). simpl in E1. by rewrite E1. }
  unfold prepend_n. change (c :: bs) with bs0. rewrite Hn. cbn [unwrap mbind result_bind].
  pose proof (link_loop_core FakeHead bs0 (fq_store q)) as Hc. fold bs0.
  destruct (link_loop FakeHead bs0 (fq_store q)) as [z s]. simpl in Hc.
  eexists. split_and!; [done|apply Hi; naive_solver|].
  simpl. by rewrite same_core_set_prev, same_core_set_next.
Qed.

Definition unlink_all (bs : list ref) (s : store) : store := foldl (λ s r, unlink r s) s bs.

Lemma unlink_all_links bs s r :
  nxt (unlink_all bs s) r = (if decide (r ∈ bs) then None else nxt s r) ∧
  prv (unlink_all bs s) r = (if decide (r ∈ bs) then None else prv s r) ∧
  (has (unlink_all bs s) r ↔ has s r) ∧ same_core (unlink_all bs s) s.
Proof.
  revert s. induction bs as [|b bs IH]; intros s; simpl.
  - split_and!; done.
  - destruct (IH (unlink b s)) as (-> & -> & -> & ->). rewrite has_unlink. ptr.
    split_and!; [..|done|core_eq];
      repeat case_decide; done || set_solver.
Qed.

Lemma popleft_loop_spec n l t s :
  NoDup (l ++ [t]) → (∀ r, r ∈ l → nxt s r = succ_in (l ++ [t]) r) → (n ≤ length l)%nat →
  popleft_loop n (head (l ++ [t])) s
  = Ok (take n l, head (drop n l ++ [t]), unlink_all (take n l) s).
Proof.
  revert l s. induction n as [|n IH]; intros l s Hnd Hn Hle; [done|].
  destruct l as [|c l]; simpl in Hle; [lia|].
  simpl app in *. apply NoDup_cons in Hnd as [Hc Hnd].
  assert (Hc' : nxt s c = head (l ++ [t])).
  { rewrite Hn, head_snoc by left. apply succ_in_first. }
  simpl popleft_loop. rewrite Hc', IH; [done|done| |lia].
  intros r Hr. ptr. rewrite decide_False by set_solver.
  rewrite Hn by (by right). apply succ_in_rest. set_solver.
Qed.

(** Links after the elements [dn] between [h] and [c] are taken out. *)
Lemma succ_in_drop h dn c rest r :
  NoDup ((h :: dn) ++ c :: rest) →
  (if decide (r = h) then Some c
   else if decide (r ∈ dn) then None else succ_in ((h :: dn) ++ c :: rest) r)
  = succ_in (h :: c :: rest) r.
Proof.
  intros (_ & Hdis & _)%NoDup_app. specialize (Hdis r).
  rewrite succ_in_app, succ_in_cons.
  destruct (decide (r = h)); [done|]. destruct (decide (r ∈ dn)) as [Hr|Hr].
  - symmetry. apply succ_in_not. set_solver.
  - by rewrite decide_False by set_solver.
Qed.

Lemma pred_in_drop h dn c rest r :
  NoDup ((h :: dn) ++ c :: rest) →
  (if decide (r = c) then Some h
   else if decide (r ∈ dn) then None else pred_in ((h :: dn) ++ c :: rest) r)
  = pred_in (h :: c :: rest) r.
Proof.
  intros Hnd. rewrite pred_in_app, pred_in_cons by done.
  apply NoDup_app in Hnd as (_ & Hdis & _). specialize (Hdis r).
  destruct (decide (r = c)); [done|]. destruct (decide (r ∈ dn)) as [Hr|Hr].
  - symmetry. apply pred_in_not. set_solver.
  - destruct (decide (r ∈ rest)); [done|]. rewrite (pred_in_tail c) by done.
    simpl app. apply pred_in_tail. set_solver.
Qed.

Lemma popleft_n_spec q l n :
  queue_rep q l → 0 ≤ n ≤ py_len l →
  ∃ q', popleft_n n q = Ok (take (Z.to_nat n) l, q') ∧
    queue_rep q' (drop (Z.to_nat n) l) ∧ same_core (fq_store q') (fq_store q).
Proof.
  intros H Hn. unfold popleft_n. destruct (Z.eqb_spec n 0) as [->|Hn0]; [by exists q|].
  rewrite (qr_len _ _ H). rewrite (proj2 (Z.leb_le n (py_len l))) by lia. simpl.
  set (k := Z.to_nat n). set (s := fq_store q).
  pose proof (qr_nodup _ _ H) as Hnd. pose proof Hnd as Hnd'.
  unfold ring in Hnd'. apply NoDup_cons in Hnd' as [Hh Hnd'].
  assert (Hhead : nxt s FakeHead = head (l ++ [FakeTail])).
  { unfold s. rewrite (qr_nxt _ _ H), head_snoc. apply succ_in_first. }
  rewrite Hhead, popleft_loop_spec; [|done| |unfold py_len in Hn; lia]; simpl.
  2:{ intros r Hr. unfold s. rewrite (qr_nxt _ _ H). unfold ring.
      apply succ_in_rest. set_solver. }
  destruct (drop k l ++ [FakeTail]) as [|c rest] eqn:Hc; [by destruct (drop k l)|]. simpl.
  assert (Hsplit : ring l = (FakeHead :: take k l) ++ c :: rest).
  { unfold ring. rewrite <-Hc, <-app_comm_cons, app_assoc, take_drop. done. }
  assert (Hring : ring (drop k l) = FakeHead :: c :: rest) by (unfold ring; by rewrite Hc).
  rewrite Hsplit in Hnd. pose proof Hnd as Hnd0.
  apply NoDup_app in Hnd as (Hnd1 & Hdis & Hnd2).
  apply NoDup_cons in Hnd1 as [Hht _]. apply NoDup_cons in Hnd2 as [Hcr Hnd2].
  assert (Hhas : ∀ r, r ∈ FakeHead :: c :: rest → has s r).
  { intros r Hr. apply rep_links in H as Hl. rewrite Hsplit in Hl. simpl app in Hl, Hnd0.
    destruct (take k l ++ c :: rest) as [|d rs] eqn:Hd; [by destruct (take k l)|].
    eapply links_has; [exact Hl|done|]. rewrite <-Hd.
    apply elem_of_cons in Hr as [->|Hr]; [left|]. by apply elem_of_cons; right; apply elem_of_app; right. }
  assert (Hh1 : has s FakeHead) by (apply Hhas; left).
  assert (Hh2 : has s c) by (apply Hhas; right; left).
  assert (Hu : ∀ r, has s r → has (unlink_all (take k l) s) r)
    by (intros r; by apply (unlink_all_links (take k l) s r)).
  eexists. split_and!; [done| |].
  - apply links_rep; simpl.
    + rewrite Hring. apply NoDup_cons. split; [set_solver|by apply NoDup_cons].
    + rewrite Hring. split; intros r; ptr.
      * rewrite (proj1 (unlink_all_links (take k l) s r)). unfold s.
        rewrite (qr_nxt _ _ H), Hsplit. by apply succ_in_drop.
      * rewrite (proj1 (proj2 (unlink_all_links (take k l) s r))). unfold s.
        rewrite (qr_prv _ _ H), Hsplit. by apply pred_in_drop.
    + unfold py_len in *. rewrite length_drop. lia.
  - simpl. rewrite same_core_set_prev, same_core_set_next.
    apply (unlink_all_links (take k l) s FakeHead).
Qed.

(** The walks visit exactly the free list; the fuel needed is its length
    plus one. *)
Lemma walk_free_spec fuel s l t :
  (length l < fuel)%nat → NoDup (l ++ [t]) → nxt s t = None →
  (∀ r, r ∈ l → nxt s r = succ_in (l ++ [t]) r) →
  walk_free fuel s (default t (head l)) = Ok l.
Proof.
  revert l. induction fuel as [|fuel IH]; intros l Hf Hnd Ht Hn; [lia|].
  destruct l as [|c l]; simpl in *; [by rewrite Ht|].
  apply NoDup_cons in Hnd as [Hc Hnd].
  rewrite Hn, succ_in_first by left. rewrite IH; [done|lia|done|done|].
  intros r Hr. rewrite Hn by (by right). apply succ_in_rest. set_solver.
Qed.

Lemma get_all_free_blocks_spec q l fuel :
  queue_rep q l → (length l < fuel)%nat → get_all_free_blocks fuel q = Ok l.
Proof.
  intros H Hf. unfold get_all_free_blocks.
  pose proof (qr_nodup _ _ H) as Hnd. unfold ring in Hnd. apply NoDup_cons in Hnd as [Hh Hnd].
  replace (nxt (fq_store q) FakeHead) with (Some (default FakeTail (head l)))
    by (rewrite (qr_nxt _ _ H); symmetry; apply succ_in_first).
  simpl. apply walk_free_spec; [done|done|..].
  - rewrite (qr_nxt _ _ H). unfold ring. rewrite app_comm_cons, succ_in_app.
    rewrite decide_False; [done|]. apply NoDup_app in Hnd as (_ & Hd & _).
    intros [?|Hr]%elem_of_cons; [done|]. apply (Hd _ Hr). set_solver.
  - intros r Hr. rewrite (qr_nxt _ _ H). unfold ring. apply succ_in_rest. set_solver.
Qed.

Lemma walk_after_spec fuel s l :
  (length l < fuel)%nat → NoDup (l ++ [FakeTail]) →
  (∀ r, r ∈ l → nxt s r = succ_in (l ++ [FakeTail]) r) →
  walk_after fuel s (head (l ++ [FakeTail])) = Ok l.
Proof.
  revert l. induction fuel as [|fuel IH]; intros l Hf Hnd Hn; [lia|].
  destruct l as [|c l]; simpl in *; [done|].
  apply NoDup_cons in Hnd as [Hc Hnd].
  assert (Hc' : nxt s c = head (l ++ [FakeTail])).
  { rewrite Hn, head_snoc by left. apply succ_in_first. }
  rewrite Hc', IH; [destruct c; done || set_solver|lia|done|].
  intros r Hr. rewrite Hn by (by right). apply succ_in_rest. set_solver.
Qed.

Lemma iter_blocks_after_spec q l1 c l2 fuel :
  queue_rep q (l1 ++ c :: l2) → (length l2 < fuel)%nat →
  iter_blocks_after fuel (Some c) q = Ok l2.
Proof.
  intros H Hf. pose proof (qr_nodup _ _ H) as Hnd. unfold iter_blocks_after.
  assert (E : ring (l1 ++ c :: l2) = (FakeHead :: l1) ++ c :: l2 ++ [FakeTail]).
  { unfold ring. by rewrite <-app_assoc. }
  rewrite E in Hnd. apply NoDup_app in Hnd as (_ & Hd & Hnd). apply NoDup_cons in Hnd as [Hc Hnd].
  assert (Hn : ∀ r, r ∈ c :: l2 → nxt (fq_store q) r = succ_in (c :: l2 ++ [FakeTail]) r).
  { intros r Hr. rewrite (qr_nxt _ _ H), E, succ_in_app, decide_False; [done|].
    intros Hin. apply (Hd r Hin). set_solver. }
  replace (nxt (fq_store q) c) with (head (l2 ++ [FakeTail])).
  - apply walk_after_spec; [done|done|]. intros r Hr. rewrite Hn by (by right).
    apply succ_in_rest. set_solver.
  - rewrite Hn, head_snoc by left. symmetry. apply succ_in_first.
Qed.
End Operations.

(** ** Construction *)

Section Init.
Implicit Types (s : store) (bs : list ref) (r : ref).

Lemma succ_in_lookup bs i r : NoDup bs → bs !! i = Some r → succ_in bs r = bs !! S i.
Proof.
  revert i. induction bs as [|a [|b bs] IH]; intros i Hnd Hi; [done|by destruct i|].
  rewrite succ_in_cons. destruct i as [|i]; simpl in Hi.
  - simplify_eq. by rewrite decide_True.
  - apply NoDup_cons in Hnd as [Ha Hnd]. rewrite decide_False.
    + by apply (IH i).
    + intros ->. apply Ha. by eapply list_elem_of_lookup_2.
Qed.

Lemma pred_in_lookup bs i r : NoDup bs → bs !! S i = Some r → pred_in bs r = bs !! i.
Proof.
  revert i. induction bs as [|a [|b bs] IH]; intros i Hnd Hi; [done|by destruct i|].
  rewrite pred_in_cons. destruct i as [|i]; simpl in Hi.
  - simplify_eq. by rewrite decide_True.
  - apply NoDup_cons in Hnd as [Ha Hnd]. rewrite decide_False.
    + by apply (IH i).
    + intros ->. apply NoDup_cons in Hnd as [Hb _]. apply Hb. by eapply list_elem_of_lookup_2.
Qed.

(** After the first [k] rounds of the loop, the first [k] blocks are linked. *)
Lemma init_links_loop bs s k :
  NoDup bs → (∀ r, r ∈ bs → has s r) → (∀ r, nxt s r = None ∧ prv s r = None) →
  (k ≤ length bs)%nat →
  let s' := foldl (init_links bs) s (seq 0 k) in
  same_core s' s ∧
  (∀ i r, bs !! i = Some r →
     nxt s' r = (if decide (i < k)%nat then bs !! S i else None) ∧
     prv s' r = (if decide (0 < i < k)%nat then bs !! pred i else None)) ∧
  (∀ r, r ∉ bs → nxt s' r = None ∧ prv s' r = None).
Proof.
  intros Hnd Hs H0 Hk. induction k as [|k IH].
  { simpl. split_and!; [done| |auto]. intros i r Hi. destruct (H0 r) as [-> ->].
    repeat case_decide; done || lia. }
  destruct IH as (Hc & Hin & Hout); [lia|]. rewrite seq_S, foldl_app. simpl.
  set (s1 := foldl (init_links bs) s (seq 0 k)) in *.
  destruct (lookup_lt_is_Some_2 bs k) as [b Hb]; [lia|].
  assert (Hsb : has s1 b).
  { apply (same_core_has s); [by symmetry|]. apply Hs. by eapply list_elem_of_lookup_2. }
  unfold init_links. rewrite Hb.
  set (s2 := if bool_decide (0 < k)%nat then _ else _).
  assert (Hc2 : same_core s2 s).
  { unfold s2. case_bool_decide; [|done]. by rewrite same_core_set_prev. }
  assert (Hn2 : ∀ r, nxt s2 r = nxt s1 r).
  { intros r. unfold s2. case_bool_decide; [|done]. by ptr. }
  assert (Hp2 : ∀ r, prv s2 r = if decide (r = b ∧ (0 < k)%nat) then bs !! (k - 1)%nat else prv s1 r).
  { intros r. unfold s2. case_bool_decide as Hd.
    - ptr. repeat case_decide; naive_solver.
    - rewrite decide_False by naive_solver. done. }
  assert (Hb2 : has s2 b) by (unfold s2; case_bool_decide; eauto with vllm).
  set (s3 := if bool_decide _ then _ else _).
  assert (Hc3 : same_core s3 s).
  { unfold s3. case_bool_decide; [|done]. by rewrite same_core_set_next. }
  assert (Hp3 : ∀ r, prv s3 r = prv s2 r).
  { intros r. unfold s3. case_bool_decide; [|done]. by ptr. }
  assert (Hn3 : ∀ r, nxt s3 r = if decide (r = b) then bs !! S k else nxt s1 r).
  { intros r. unfold s3. case_bool_decide as Hd.
    - ptr. rewrite Hn2. replace (k + 1)%nat with (S k) by lia. done.
    - rewrite Hn2. destruct (decide (r = b)) as [->|]; [|done].
      destruct (Hin k b Hb) as [-> _]. rewrite decide_False by lia.
      symmetry. apply lookup_ge_None_2. lia. }
  split_and!; [done| |].
  - intros i r Hi. rewrite Hn3, Hp3, Hp2. destruct (Hin i r Hi) as [-> ->].
    destruct (decide (i = k)) as [->|Hik].
    + assert (r = b) as -> by congruence.
      rewrite (decide_True (P:=b = b)), (decide_True (P:=(k < S k)%nat)) by (done || lia).
      replace (k - 1)%nat with (pred k) by lia.
      split; [done|]. repeat case_decide; done || naive_solver lia.
    + assert (r ≠ b) by (intros ->; apply Hik; by eapply NoDup_lookup).
      rewrite (decide_False (P:=r = b)), (decide_False (P:=r = b ∧ _)) by naive_solver.
      split; repeat case_decide; done || lia.
  - intros r Hr. rewrite Hn3, Hp3, Hp2.
    assert (r ≠ b) by (intros ->; apply Hr; by eapply list_elem_of_lookup_2).
    rewrite !decide_False by naive_solver. by apply Hout.
Qed.

Lemma succ_in_ring b0 bs' bs1 z r :
  let bs := b0 :: bs' in NoDup (ring bs) → bs = bs1 ++ [z] →
  (if decide (r = z) then Some FakeTail
   else if decide (r = FakeHead) then Some b0 else succ_in bs r) = succ_in (ring bs) r.
Proof.
  intros bs Hnd Ez. unfold ring in *. change (FakeHead :: bs ++ [FakeTail])
    with ([] ++ FakeHead :: bs ++ [FakeTail]) in *.
  assert (Hz : z ≠ FakeHead) by (intros ->; rewrite Ez in Hnd; simpl in Hnd;
    apply NoDup_cons in Hnd as [? _]; set_solver).
  rewrite (succ_splice [] FakeHead bs FakeTail [] (FakeHead :: bs1) z r Hnd) by (by rewrite Ez).
  destruct (decide (r = z)); [done|]. unfold bs. rewrite succ_in_cons.
  destruct (decide (r = FakeHead)); [done|].
  simpl app. rewrite succ_in_cons, decide_False by done.
  by destruct (succ_in (b0 :: bs') r).
Qed.

Lemma pred_in_ring b0 bs' bs1 z r :
  let bs := b0 :: bs' in NoDup (ring bs) → bs = bs1 ++ [z] →
  (if decide (r = FakeTail) then Some z
   else if decide (r = b0) then Some FakeHead else pred_in bs r) = pred_in (ring bs) r.
Proof.
  intros bs Hnd Ez. unfold ring in *. change (FakeHead :: bs ++ [FakeTail])
    with ([] ++ FakeHead :: bs ++ [FakeTail]) in *.
  rewrite (pred_splice [] FakeHead bs FakeTail [] (FakeHead :: bs1) z r Hnd) by (by rewrite Ez).
  destruct (decide (r = FakeTail)); [done|]. unfold bs. rewrite pred_in_cons.
  destruct (decide (r = b0)); [done|].
  simpl app. rewrite pred_in_cons, decide_False by done.
  by destruct (pred_in (b0 :: bs') r).
Qed.

Lemma init_queue_spec bs s :
  NoDup bs → FakeHead ∉ bs → FakeTail ∉ bs →
  (∀ r, r ∈ bs → has s r) → (∀ r, nxt s r = None ∧ prv s r = None) →
  queue_rep (init_queue bs s) bs ∧
  (∀ r, r ≠ FakeHead → r ≠ FakeTail →
     core <$> fq_store (init_queue bs s) !! r = core <$> s !! r).
Proof.
  intros Hnd Hh Ht Hs H0.
  destruct (init_links_loop bs s (length bs) Hnd Hs H0) as (Hc & Hin & Hout); [done|].
  unfold init_queue.
  set (s1 := foldl (init_links bs) s (seq 0 (length bs))) in *.
  set (s2 := <[FakeTail:=new_block]> (<[FakeHead:=new_block]> s1)).
  assert (Hn2 : ∀ r, nxt s2 r = succ_in bs r).
  { intros r. unfold nxt, s2. rewrite !lookup_insert.
    repeat case_decide; subst; [by rewrite succ_in_not..|].
    change (nxt s1 r = succ_in bs r).
    destruct (decide (r ∈ bs)) as [Hr|Hr]; [|rewrite succ_in_not by done; by apply Hout].
    apply list_elem_of_lookup in Hr as [i Hi]. destruct (Hin i r Hi) as [-> _].
    rewrite decide_True by (by eapply lookup_lt_Some). by rewrite (succ_in_lookup bs i). }
  assert (Hp2 : ∀ r, prv s2 r = pred_in bs r).
  { intros r. unfold prv, s2. rewrite !lookup_insert.
    repeat case_decide; subst; [by rewrite pred_in_not..|].
    change (prv s1 r = pred_in bs r).
    destruct (decide (r ∈ bs)) as [Hr|Hr]; [|rewrite pred_in_not by done; by apply Hout].
    apply list_elem_of_lookup in Hr as [i Hi]. destruct (Hin i r Hi) as [_ ->].
    pose proof (lookup_lt_Some _ _ _ Hi). destruct i as [|i].
    - rewrite decide_False by lia. destruct bs as [|b bs]; [done|]. simpl in Hi. simplify_eq.
      symmetry. apply pred_in_tail. by apply NoDup_cons in Hnd as [? _].
    - rewrite decide_True by lia. by rewrite (pred_in_lookup bs i). }
  assert (has s2 FakeHead ∧ has s2 FakeTail ∧ ∀ r, r ∈ bs → has s2 r) as (H2h & H2t & H2b).
  { unfold has, s2. split_and!; [by rewrite lookup_insert_ne, lookup_insert_eq; eauto
                                |by rewrite lookup_insert_eq; eauto|].
    intros r Hr. rewrite !lookup_insert. repeat case_decide; eauto.
    apply (same_core_has s); [by symmetry|auto]. }
  assert (Hc2 : ∀ r, r ≠ FakeHead → r ≠ FakeTail → core <$> s2 !! r = core <$> s !! r).
  { intros r Hr1 Hr2. unfold s2. rewrite !lookup_insert_ne by done. apply Hc. }
  destruct bs as [|b0 bs'].
  - simpl. split; [apply links_rep; simpl|].
    + apply ring_nodup. split_and!; [constructor|set_solver..].
    + split; intros r; ptr; rewrite ?Hn2, ?Hp2; unfold ring; simpl app;
        rewrite ?succ_in_cons, ?pred_in_cons; done.
    + done.
    + intros r Hr1 Hr2. simpl. rewrite same_core_set_prev, same_core_set_next. by apply Hc2.
  - set (bs := b0 :: bs') in *.
    destruct (exists_last (l:=bs)) as (bs1 & z & Ez); [done|].
    assert (Hlast : last bs = Some z) by (rewrite Ez; apply last_snoc).
    change (bs !! 0%nat) with (Some b0). rewrite Hlast.
    assert (has s2 b0 ∧ has s2 z) as [Hb0 Hbz].
    { split; apply H2b; [left|rewrite Ez; apply elem_of_app; right; left]. }
    assert (Hr : NoDup (ring bs)) by (by apply ring_nodup).
    split; [apply links_rep; simpl|].
    + done.
    + split; intros r; ptr; rewrite ?Hn2, ?Hp2.
      * by apply (succ_in_ring b0 bs' bs1).
      * by apply (pred_in_ring b0 bs' bs1).
    + done.
    + intros r Hr1 Hr2. simpl.
      rewrite same_core_set_next, same_core_set_prev, same_core_set_prev, same_core_set_next.
      by apply Hc2.
Qed.
End Init.

(** ** Refinement of a sequence of operations

    The abstract queue is a list; [spec_op] is what each method promises,
    including the exceptions it raises. *)

Inductive queue_op : Type :=
  | OpPopleft
  | OpPopleftN (n : Z)
  | OpRemove (r : ref)
  | OpAppend (r : ref)
  | OpPrependN (bs : list ref)
  | OpAppendN (bs : list ref).

Definition run_op (op : queue_op) (q : FreeQueue) : result (list ref * FreeQueue) :=
  match op with
  | OpPopleft => '(r, q') ← popleft q; Ok ([r], q')
  | OpPopleftN n => popleft_n n q
  | OpRemove r => q' ← remove r q; Ok ([], q')
  | OpAppend r => q' ← append r q; Ok ([], q')
  | OpPrependN bs => q' ← prepend_n bs q; Ok ([], q')
  | OpAppendN bs => q' ← append_n bs q; Ok ([], q')
  end.

Definition spec_op (op : queue_op) (l : list ref) : result (list ref * list ref) :=
  match op with
  | OpPopleft => match l with [] => Err ValueError | r :: l' => Ok ([r], l') end
  | OpPopleftN n =>
      if py_len l <? n then Err AssertionError
      else Ok (take (Z.to_nat n) l, drop (Z.to_nat n) l)
  | OpRemove r => if decide (r ∈ l) then Ok ([], filter (λ x, x ≠ r) l) else Err RuntimeError
  | OpAppend r => Ok ([], l ++ [r])
  | OpPrependN bs => Ok ([], bs ++ l)
  | OpAppendN bs => Ok ([], l ++ bs)
  end.

(** What a caller must respect: counts are not negative, and blocks handed to
    the queue exist, are distinct and are not already in it. *)
Definition op_pre (alive : ref → Prop) (op : queue_op) (l : list ref) : Prop :=
  match op with
  | OpPopleftN n => 0 ≤ n
  | OpAppend r => (r ∉ ring l) ∧ alive r
  | OpPrependN bs | OpAppendN bs => NoDup bs ∧ ∀ r, r ∈ bs → (r ∉ ring l) ∧ alive r
  | _ => True
  end.

Section Runs.
Context {St : Type} (step : queue_op → St → result (list ref * St)).

Fixpoint run_ops (ops : list queue_op) (s : St) : result (list (list ref) * St) :=
  match ops with
  | [] => Ok ([], s)
  | op :: ops' =>
      '(out, s1) ← step op s;
      '(outs, s2) ← run_ops ops' s1;
      Ok (out :: outs, s2)
  end.
End Runs.

(** The callers' obligation along a whole run of the abstract queue. *)
Fixpoint ops_pre (alive : ref → Prop) (ops : list queue_op) (l : list ref) : Prop :=
  match ops with
  | [] => True
  | op :: ops' =>
      op_pre alive op l ∧
      match spec_op op l with Ok (_, l') => ops_pre alive ops' l' | Err _ => True end
  end.

Definition refines (q : result (list (list ref) * FreeQueue))
    (l : result (list (list ref) * list ref)) : Prop :=
  match l with
  | Ok (outs, l') => ∃ q', q = Ok (outs, q') ∧ queue_rep q' l'
  | Err e => q = Err e
  end.

Lemma filter_ne_id (l : list ref) r : r ∉ l → filter (λ x, x ≠ r) l = l.
Proof.
  induction l as [|x l IH]; intros Hr; [done|].
  rewrite filter_cons_True by set_solver. f_equal. apply IH. set_solver.
Qed.

Lemma filter_remove_mid (l1 l2 : list ref) r :
  NoDup (l1 ++ r :: l2) → filter (λ x, x ≠ r) (l1 ++ r :: l2) = l1 ++ l2.
Proof.
  intros (_ & Hd & Hnd)%NoDup_app. apply NoDup_cons in Hnd as [Hr _].
  rewrite filter_app, filter_cons_False by naive_solver.
  rewrite !filter_ne_id; [done|done|]. intros Hx. apply (Hd _ Hx). left.
Qed.

Lemma run_op_refines op q l :
  queue_rep q l → op_pre (has (fq_store q)) op l →
  match spec_op op l with
  | Ok (out, l') => ∃ q', run_op op q = Ok (out, q') ∧ queue_rep q' l' ∧
                      same_core (fq_store q') (fq_store q)
  | Err e => run_op op q = Err e
  end.
Proof.
  intros H Hpre. destruct op as [|n|r|r|bs|bs]; simpl in *.
  - destruct l as [|r l]; [by rewrite (popleft_empty q H)|].
    destruct (popleft_spec q r l H) as (q' & -> & ? & ?). by exists q'.
  - destruct (Z.ltb_spec (py_len l) n) as [Hlt|Hle].
    + unfold popleft_n. rewrite (qr_len _ _ H). pose proof (py_len_nonneg l).
      destruct (Z.eqb_spec n 0); [lia|]. by destruct (Z.leb_spec n (py_len l)); [lia|].
    + destruct (popleft_n_spec q l n H) as (q' & -> & ? & ?); [lia|]. by exists q'.
  - case_decide as Hr; [|by rewrite (remove_absent q l r H)].
    apply list_elem_of_split in Hr as (l1 & l2 & ->).
    rewrite filter_remove_mid by (by eapply rep_nodup).
    destruct (remove_spec q l1 r l2 H) as (q' & -> & ? & ?). by exists q'.
  - destruct Hpre as [Hr Hs].
    destruct (append_spec q l r H Hr Hs) as (q' & -> & ? & ?). by exists q'.
  - destruct Hpre as [Hnd Hbs].
    destruct (prepend_n_spec q l bs H Hnd Hbs) as (q' & -> & ? & ?). by exists q'.
  - destruct Hpre as [Hnd Hbs].
    destruct (append_n_spec q l bs H Hnd Hbs) as (q' & -> & ? & ?). by exists q'.
Qed.

Lemma ops_pre_mono (P Q : ref → Prop) ops l :
  (∀ r, P r → Q r) → ops_pre P ops l → ops_pre Q ops l.
Proof.
  intros HPQ. revert l. induction ops as [|op ops IH]; intros l; simpl; [done|].
  intros [Hop Hrest]. split; [destruct op; simpl in *; naive_solver|].
  destruct (spec_op op l) as [[out l']|e]; auto.
Qed.

(** C34: Every sequence of [popleft], [popleft_n], [remove], [append],
    [prepend_n] and [append_n] calls on the pointer structure returns the same
    blocks, or raises the same exception, as the sequence of list operations it
    stands for, and ends in a store that represents the resulting list. *)
Theorem free_queue_refines_list ops q l :
  queue_rep q l → ops_pre (has (fq_store q)) ops l →
  refines (run_ops run_op ops q) (run_ops spec_op ops l).
Proof.
  revert q l. induction ops as [|op ops IH]; intros q l H Hpre; simpl.
  { by exists q. }
  destruct Hpre as [Hop Hrest]. pose proof (run_op_refines op q l H Hop) as Hstep.
  destruct (spec_op op l) as [[out l']|e]; simpl; [|by rewrite Hstep].
  destruct Hstep as (q' & -> & H' & Hc). simpl.
  assert (Hpre' : ops_pre (has (fq_store q')) ops l').
  { eapply ops_pre_mono; [|exact Hrest]. intros r. by apply same_core_has. }
  specialize (IH q' l' H' Hpre'). unfold refines in *.
  destruct (run_ops spec_op ops l') as [[outs l'']|e]; simpl; [|by rewrite IH].
  destruct IH as (q'' & -> & ?). by exists q''.
Qed.

(** Three blocks: allocate two, give them back at both ends, hit the third. *)
Definition demo_store : store :=
  list_to_map ((λ i, (Blk i, new_block)) <$> [0; 1; 2]%nat).

Definition demo_ops : list queue_op :=
  [OpPopleftN 2; OpAppendN [Blk 1]; OpPrependN [Blk 0]; OpRemove (Blk 2); OpRemove (Blk 2)].

Lemma demo_rep : queue_rep (init_queue (Blk <$> [0; 1; 2]%nat) demo_store) (Blk <$> [0; 1; 2]%nat).
Proof.
  apply init_queue_spec.
  - apply (bool_decide_unpack _). vm_compute. exact I.
  - apply (bool_decide_unpack _). vm_compute. exact I.
  - apply (bool_decide_unpack _). vm_compute. exact I.
  - intros r Hr. unfold has. simpl in Hr.
    repeat (apply elem_of_cons in Hr as [->|Hr]; [by eexists|]). by apply elem_of_nil in Hr.
  - intros r. unfold nxt, prv, demo_store. simpl.
    rewrite !lookup_insert. repeat case_decide; by rewrite ?lookup_empty.
Qed.

Lemma free_queue_refines_list_witness :
  run_ops spec_op demo_ops (Blk <$> [0; 1; 2]%nat) = Err RuntimeError ∧
  refines (run_ops run_op demo_ops (init_queue (Blk <$> [0; 1; 2]%nat) demo_store))
    (run_ops spec_op demo_ops (Blk <$> [0; 1; 2]%nat)).
Proof.
  split; [reflexivity|].
  apply free_queue_refines_list; [exact demo_rep|].
  simpl. split_and!; try lia; try done; try apply NoDup_singleton;
    intros r ->%list_elem_of_singleton; (split; [|by eexists]);
    apply (bool_decide_unpack _); vm_compute; exact I.
Defined.
