(* ===== verification/Request.v ===== *)
(** * Requests

    [vllm/vllm/v1/request.py]: the [Request] object the scheduler and the KV
    cache managers work on, its status enumeration and the construction,
    extension and comparison of requests.  Fields that none of the modelled
    components read (tracing headers, structured output, streaming queues,
    transfer parameters) are left out.  [arrival_time] is a float that is only
    ever compared, modelled by an integer time stamp; [py_id] is the object
    identity [id(request)]. *)

From S2P Require Import Prelude FreeQueue.
Local Open Scope Z_scope.

(** [class RequestStatus(enum.IntEnum)] *)
Inductive RequestStatus : Type :=
  | WAITING
  | WAITING_FOR_STRUCTURED_OUTPUT_GRAMMAR
  | WAITING_FOR_REMOTE_KVS
  | WAITING_FOR_STREAMING_REQ
  | RUNNING
  | PREEMPTED
  | FINISHED_STOPPED
  | FINISHED_LENGTH_CAPPED
  | FINISHED_ABORTED
  | FINISHED_IGNORED
  | FINISHED_ERROR
  | FINISHED_REPETITION.

#[export] Instance RequestStatus_eq_dec : EqDecision RequestStatus.
Proof. solve_decision. Defined.

(** The value [enum.auto()] gives to each member. *)
Definition status_value (s : RequestStatus) : Z :=
  match s with
  | WAITING => 1
  | WAITING_FOR_STRUCTURED_OUTPUT_GRAMMAR => 2
  | WAITING_FOR_REMOTE_KVS => 3
  | WAITING_FOR_STREAMING_REQ => 4
  | RUNNING => 5
  | PREEMPTED => 6
  | FINISHED_STOPPED => 7
  | FINISHED_LENGTH_CAPPED => 8
  | FINISHED_ABORTED => 9
  | FINISHED_IGNORED => 10
  | FINISHED_ERROR => 11
  | FINISHED_REPETITION => 12
  end.

(** [class FinishReason(enum.IntEnum)] of [engine/__init__.py] *)
Inductive FinishReason : Type :=
  | STOP | LENGTH | ABORT | ERROR | REPETITION.

(** [RequestStatus.is_finished] *)
Definition is_finished (s : RequestStatus) : bool := status_value PREEMPTED <? status_value s.

(** [_FINISHED_REASON_MAP.get(status)] *)
Definition get_finished_reason (s : RequestStatus) : option FinishReason :=
  match s with
  | FINISHED_STOPPED => Some STOP
  | FINISHED_LENGTH_CAPPED => Some LENGTH
  | FINISHED_ABORTED => Some ABORT
  | FINISHED_IGNORED => Some LENGTH
  | FINISHED_ERROR => Some ERROR
  | WAITING_FOR_STREAMING_REQ => Some STOP
  | FINISHED_REPETITION => Some REPETITION
  | _ => None
  end.

(** [stop_reason: int | str | None] *)
Inductive StopReason : Type :=
  | StopToken (t : Z)
  | StopText (s : string).

(** [PlaceholderRange]: where a multimodal item sits in the prompt. *)
Record PlaceholderRange : Type := mkPlaceholderRange {
  offset : Z;
  length_ : Z;
  is_embed : option (list bool);
}.

(** [get_num_embeds]: the last entry of the running count of [is_embed]. *)
Definition get_num_embeds (p : PlaceholderRange) : Z :=
  match is_embed p with
  | None => length_ p
  | Some mask => Z.of_nat (length (filter (λ b, b = true) mask))
  end.

Record MultiModalFeatureSpec : Type := mkFeature {
  identifier : option string;
  mm_position : PlaceholderRange;
}.

Record LoRARequest : Type := mkLoRARequest {
  lora_name : string;
  lora_int_id : Z;
}.

Record RepetitionDetectionParams : Type := mkRepetitionDetectionParams {
  max_pattern_size : Z;
  min_pattern_size : Z;
  min_count : Z;
}.

Record SamplingParams : Type := mkSamplingParams {
  sp_max_tokens : option Z;
  min_tokens : Z;
  eos_token_id : option Z;
  stop_token_ids : option (list Z);
  repetition_detection : option RepetitionDetectionParams;
  sp_skip_reading_prefix_cache : option bool;
}.

Record PoolingParams : Type := mkPoolingParams {
  pp_skip_reading_prefix_cache : option bool;
}.

Record Request : Type := mkRequest {
  py_id : Z;
  request_id : string;
  priority : Z;
  arrival_time : Z;
  status : RequestStatus;
  stop_reason : option StopReason;
  sampling_params : option SamplingParams;
  pooling_params : option PoolingParams;
  lora_request : option LoRARequest;
  max_tokens : Z;
  prompt_embeds : option (list bytes);
  prompt_embeds_per_block_hashes : gmap (Z * Z) bytes;
  num_prompt_tokens : Z;
  output_token_ids : list Z;
  all_token_ids : list Z;
  num_output_placeholders : Z;
  num_in_flight_tokens : Z;
  spec_token_ids : list Z;
  num_computed_tokens : Z;
  cache_salt : option string;
  mm_features : list MultiModalFeatureSpec;
  shared_prefix_boundary : Z;
  num_preemptions : Z;
  block_hashes : list bytes;
  skip_reading_prefix_cache : bool;
  num_stale_output_tokens : Z;
  drop_stale_output : bool;
  next_decode_eligible_step : Z;
  is_prefill_chunk : bool;
}.

Definition set_status (v : RequestStatus) (r : Request) : Request :=
    {| py_id := py_id r; request_id := request_id r; priority := priority r; arrival_time :=
     arrival_time r; status := v; stop_reason := stop_reason r; sampling_params :=
     sampling_params r; pooling_params := pooling_params r; lora_request := lora_request r;
     max_tokens := max_tokens r; prompt_embeds := prompt_embeds r;
     prompt_embeds_per_block_hashes := prompt_embeds_per_block_hashes r; num_prompt_tokens :=
     num_prompt_tokens r; output_token_ids := output_token_ids r; all_token_ids := all_token_ids
     r; num_output_placeholders := num_output_placeholders r; num_in_flight_tokens :=
     num_in_flight_tokens r; spec_token_ids := spec_token_ids r; num_computed_tokens :=
     num_computed_tokens r; cache_salt := cache_salt r; mm_features := mm_features r;
     shared_prefix_boundary := shared_prefix_boundary r; num_preemptions := num_preemptions r;
     block_hashes := block_hashes r; skip_reading_prefix_cache := skip_reading_prefix_cache r;
     num_stale_output_tokens := num_stale_output_tokens r; drop_stale_output := drop_stale_output r; next_decode_eligible_step := next_decode_eligible_step r;
     is_prefill_chunk := is_prefill_chunk r |}.

Definition set_stop_reason (v : option StopReason) (r : Request) : Request :=
    {| py_id := py_id r; request_id := request_id r; priority := priority r; arrival_time :=
     arrival_time r; status := status r; stop_reason := v; sampling_params := sampling_params r;
     pooling_params := pooling_params r; lora_request := lora_request r; max_tokens :=
     max_tokens r; prompt_embeds := prompt_embeds r; prompt_embeds_per_block_hashes :=
     prompt_embeds_per_block_hashes r; num_prompt_tokens := num_prompt_tokens r;
     output_token_ids := output_token_ids r; all_token_ids := all_token_ids r;
     num_output_placeholders := num_output_placeholders r; num_in_flight_tokens :=
     num_in_flight_tokens r; spec_token_ids := spec_token_ids r; num_computed_tokens :=
     num_computed_tokens r; cache_salt := cache_salt r; mm_features := mm_features r;
     shared_prefix_boundary := shared_prefix_boundary r; num_preemptions := num_preemptions r;
     block_hashes := block_hashes r; skip_reading_prefix_cache := skip_reading_prefix_cache r;
     num_stale_output_tokens := num_stale_output_tokens r; drop_stale_output := drop_stale_output r; next_decode_eligible_step := next_decode_eligible_step r;
     is_prefill_chunk := is_prefill_chunk r |}.

Definition set_prompt_embeds_per_block_hashes (v : gmap (Z * Z) bytes) (r : Request) : Request :=
    {| py_id := py_id r; request_id := request_id r; priority := priority r; arrival_time :=
     arrival_time r; status := status r; stop_reason := stop_reason r; sampling_params :=
     sampling_params r; pooling_params := pooling_params r; lora_request := lora_request r;
     max_tokens := max_tokens r; prompt_embeds := prompt_embeds r;
     prompt_embeds_per_block_hashes := v; num_prompt_tokens := num_prompt_tokens r;
     output_token_ids := output_token_ids r; all_token_ids := all_token_ids r;
     num_output_placeholders := num_output_placeholders r; num_in_flight_tokens :=
     num_in_flight_tokens r; spec_token_ids := spec_token_ids r; num_computed_tokens :=
     num_computed_tokens r; cache_salt := cache_salt r; mm_features := mm_features r;
     shared_prefix_boundary := shared_prefix_boundary r; num_preemptions := num_preemptions r;
     block_hashes := block_hashes r; skip_reading_prefix_cache := skip_reading_prefix_cache r;
     num_stale_output_tokens := num_stale_output_tokens r; drop_stale_output := drop_stale_output r; next_decode_eligible_step := next_decode_eligible_step r;
     is_prefill_chunk := is_prefill_chunk r |}.

Definition set_output_token_ids (v : list Z) (r : Request) : Request :=
    {| py_id := py_id r; request_id := request_id r; priority := priority r; arrival_time :=
     arrival_time r; status := status r; stop_reason := stop_reason r; sampling_params :=
     sampling_params r; pooling_params := pooling_params r; lora_request := lora_request r;
     max_tokens := max_tokens r; prompt_embeds := prompt_embeds r;
     prompt_embeds_per_block_hashes := prompt_embeds_per_block_hashes r; num_prompt_tokens :=
     num_prompt_tokens r; output_token_ids := v; all_token_ids := all_token_ids r;
     num_output_placeholders := num_output_placeholders r; num_in_flight_tokens :=
     num_in_flight_tokens r; spec_token_ids := spec_token_ids r; num_computed_tokens :=
     num_computed_tokens r; cache_salt := cache_salt r; mm_features := mm_features r;
     shared_prefix_boundary := shared_prefix_boundary r; num_preemptions := num_preemptions r;
     block_hashes := block_hashes r; skip_reading_prefix_cache := skip_reading_prefix_cache r;
     num_stale_output_tokens := num_stale_output_tokens r; drop_stale_output := drop_stale_output r; next_decode_eligible_step := next_decode_eligible_step r;
     is_prefill_chunk := is_prefill_chunk r |}.

Definition set_all_token_ids (v : list Z) (r : Request) : Request :=
    {| py_id := py_id r; request_id := request_id r; priority := priority r; arrival_time :=
     arrival_time r; status := status r; stop_reason := stop_reason r; sampling_params :=
     sampling_params r; pooling_params := pooling_params r; lora_request := lora_request r;
     max_tokens := max_tokens r; prompt_embeds := prompt_embeds r;
     prompt_embeds_per_block_hashes := prompt_embeds_per_block_hashes r; num_prompt_tokens :=
     num_prompt_tokens r; output_token_ids := output_token_ids r; all_token_ids := v;
     num_output_placeholders := num_output_placeholders r; num_in_flight_tokens :=
     num_in_flight_tokens r; spec_token_ids := spec_token_ids r; num_computed_tokens :=
     num_computed_tokens r; cache_salt := cache_salt r; mm_features := mm_features r;
     shared_prefix_boundary := shared_prefix_boundary r; num_preemptions := num_preemptions r;
     block_hashes := block_hashes r; skip_reading_prefix_cache := skip_reading_prefix_cache r;
     num_stale_output_tokens := num_stale_output_tokens r; drop_stale_output := drop_stale_output r; next_decode_eligible_step := next_decode_eligible_step r;
     is_prefill_chunk := is_prefill_chunk r |}.

Definition set_block_hashes (v : list bytes) (r : Request) : Request :=
    {| py_id := py_id r; request_id := request_id r; priority := priority r; arrival_time :=
     arrival_time r; status := status r; stop_reason := stop_reason r; sampling_params :=
     sampling_params r; pooling_params := pooling_params r; lora_request := lora_request r;
     max_tokens := max_tokens r; prompt_embeds := prompt_embeds r;
     prompt_embeds_per_block_hashes := prompt_embeds_per_block_hashes r; num_prompt_tokens :=
     num_prompt_tokens r; output_token_ids := output_token_ids r; all_token_ids := all_token_ids
     r; num_output_placeholders := num_output_placeholders r; num_in_flight_tokens :=
     num_in_flight_tokens r; spec_token_ids := spec_token_ids r; num_computed_tokens :=
     num_computed_tokens r; cache_salt := cache_salt r; mm_features := mm_features r;
     shared_prefix_boundary := shared_prefix_boundary r; num_preemptions := num_preemptions r;
     block_hashes := v; skip_reading_prefix_cache := skip_reading_prefix_cache r;
     num_stale_output_tokens := num_stale_output_tokens r; drop_stale_output := drop_stale_output r; next_decode_eligible_step := next_decode_eligible_step r;
     is_prefill_chunk := is_prefill_chunk r |}.

Definition set_num_computed_tokens (v : Z) (r : Request) : Request :=
    {| py_id := py_id r; request_id := request_id r; priority := priority r; arrival_time :=
     arrival_time r; status := status r; stop_reason := stop_reason r; sampling_params :=
     sampling_params r; pooling_params := pooling_params r; lora_request := lora_request r;
     max_tokens := max_tokens r; prompt_embeds := prompt_embeds r;
     prompt_embeds_per_block_hashes := prompt_embeds_per_block_hashes r; num_prompt_tokens :=
     num_prompt_tokens r; output_token_ids := output_token_ids r; all_token_ids := all_token_ids
     r; num_output_placeholders := num_output_placeholders r; num_in_flight_tokens :=
     num_in_flight_tokens r; spec_token_ids := spec_token_ids r; num_computed_tokens := v;
     cache_salt := cache_salt r; mm_features := mm_features r; shared_prefix_boundary :=
     shared_prefix_boundary r; num_preemptions := num_preemptions r; block_hashes :=
     block_hashes r; skip_reading_prefix_cache := skip_reading_prefix_cache r;
     num_stale_output_tokens := num_stale_output_tokens r; drop_stale_output := drop_stale_output r; next_decode_eligible_step := next_decode_eligible_step r;
     is_prefill_chunk := is_prefill_chunk r |}.

Definition set_shared_prefix_boundary (v : Z) (r : Request) : Request :=
    {| py_id := py_id r; request_id := request_id r; priority := priority r; arrival_time :=
     arrival_time r; status := status r; stop_reason := stop_reason r; sampling_params :=
     sampling_params r; pooling_params := pooling_params r; lora_request := lora_request r;
     max_tokens := max_tokens r; prompt_embeds := prompt_embeds r;
     prompt_embeds_per_block_hashes := prompt_embeds_per_block_hashes r; num_prompt_tokens :=
     num_prompt_tokens r; output_token_ids := output_token_ids r; all_token_ids := all_token_ids
     r; num_output_placeholders := num_output_placeholders r; num_in_flight_tokens :=
     num_in_flight_tokens r; spec_token_ids := spec_token_ids r; num_computed_tokens :=
     num_computed_tokens r; cache_salt := cache_salt r; mm_features := mm_features r;
     shared_prefix_boundary := v; num_preemptions := num_preemptions r; block_hashes :=
     block_hashes r; skip_reading_prefix_cache := skip_reading_prefix_cache r;
     num_stale_output_tokens := num_stale_output_tokens r; drop_stale_output := drop_stale_output r; next_decode_eligible_step := next_decode_eligible_step r;
     is_prefill_chunk := is_prefill_chunk r |}.

Definition set_num_preemptions (v : Z) (r : Request) : Request :=
    {| py_id := py_id r; request_id := request_id r; priority := priority r; arrival_time :=
     arrival_time r; status := status r; stop_reason := stop_reason r; sampling_params :=
     sampling_params r; pooling_params := pooling_params r; lora_request := lora_request r;
     max_tokens := max_tokens r; prompt_embeds := prompt_embeds r;
     prompt_embeds_per_block_hashes := prompt_embeds_per_block_hashes r; num_prompt_tokens :=
     num_prompt_tokens r; output_token_ids := output_token_ids r; all_token_ids := all_token_ids
     r; num_output_placeholders := num_output_placeholders r; num_in_flight_tokens :=
     num_in_flight_tokens r; spec_token_ids := spec_token_ids r; num_computed_tokens :=
     num_computed_tokens r; cache_salt := cache_salt r; mm_features := mm_features r;
     shared_prefix_boundary := shared_prefix_boundary r; num_preemptions := v; block_hashes :=
     block_hashes r; skip_reading_prefix_cache := skip_reading_prefix_cache r;
     num_stale_output_tokens := num_stale_output_tokens r; drop_stale_output := drop_stale_output r; next_decode_eligible_step := next_decode_eligible_step r;
     is_prefill_chunk := is_prefill_chunk r |}.

Definition set_num_in_flight_tokens (v : Z) (r : Request) : Request :=
    {| py_id := py_id r; request_id := request_id r; priority := priority r; arrival_time :=
     arrival_time r; status := status r; stop_reason := stop_reason r; sampling_params :=
     sampling_params r; pooling_params := pooling_params r; lora_request := lora_request r;
     max_tokens := max_tokens r; prompt_embeds := prompt_embeds r;
     prompt_embeds_per_block_hashes := prompt_embeds_per_block_hashes r; num_prompt_tokens
     := num_prompt_tokens r; output_token_ids := output_token_ids r; all_token_ids :=
     all_token_ids r; num_output_placeholders := num_output_placeholders r;
     num_in_flight_tokens := v; spec_token_ids := spec_token_ids r; num_computed_tokens :=
     num_computed_tokens r; cache_salt := cache_salt r; mm_features := mm_features r;
     shared_prefix_boundary := shared_prefix_boundary r; num_preemptions := num_preemptions
     r; block_hashes := block_hashes r; skip_reading_prefix_cache :=
     skip_reading_prefix_cache r; num_stale_output_tokens := num_stale_output_tokens r;
     drop_stale_output := drop_stale_output r; next_decode_eligible_step :=
     next_decode_eligible_step r; is_prefill_chunk := is_prefill_chunk r |}.

Definition set_num_output_placeholders (v : Z) (r : Request) : Request :=
    {| py_id := py_id r; request_id := request_id r; priority := priority r; arrival_time :=
     arrival_time r; status := status r; stop_reason := stop_reason r; sampling_params :=
     sampling_params r; pooling_params := pooling_params r; lora_request := lora_request r;
     max_tokens := max_tokens r; prompt_embeds := prompt_embeds r;
     prompt_embeds_per_block_hashes := prompt_embeds_per_block_hashes r; num_prompt_tokens
     := num_prompt_tokens r; output_token_ids := output_token_ids r; all_token_ids :=
     all_token_ids r; num_output_placeholders := v; num_in_flight_tokens :=
     num_in_flight_tokens r; spec_token_ids := spec_token_ids r; num_computed_tokens :=
     num_computed_tokens r; cache_salt := cache_salt r; mm_features := mm_features r;
     shared_prefix_boundary := shared_prefix_boundary r; num_preemptions := num_preemptions
     r; block_hashes := block_hashes r; skip_reading_prefix_cache :=
     skip_reading_prefix_cache r; num_stale_output_tokens := num_stale_output_tokens r;
     drop_stale_output := drop_stale_output r; next_decode_eligible_step :=
     next_decode_eligible_step r; is_prefill_chunk := is_prefill_chunk r |}.

Definition set_spec_token_ids (v : list Z) (r : Request) : Request :=
    {| py_id := py_id r; request_id := request_id r; priority := priority r; arrival_time :=
     arrival_time r; status := status r; stop_reason := stop_reason r; sampling_params :=
     sampling_params r; pooling_params := pooling_params r; lora_request := lora_request r;
     max_tokens := max_tokens r; prompt_embeds := prompt_embeds r;
     prompt_embeds_per_block_hashes := prompt_embeds_per_block_hashes r; num_prompt_tokens
     := num_prompt_tokens r; output_token_ids := output_token_ids r; all_token_ids :=
     all_token_ids r; num_output_placeholders := num_output_placeholders r;
     num_in_flight_tokens := num_in_flight_tokens r; spec_token_ids := v;
     num_computed_tokens := num_computed_tokens r; cache_salt := cache_salt r; mm_features
     := mm_features r; shared_prefix_boundary := shared_prefix_boundary r; num_preemptions
     := num_preemptions r; block_hashes := block_hashes r; skip_reading_prefix_cache :=
     skip_reading_prefix_cache r; num_stale_output_tokens := num_stale_output_tokens r;
     drop_stale_output := drop_stale_output r; next_decode_eligible_step :=
     next_decode_eligible_step r; is_prefill_chunk := is_prefill_chunk r |}.

Definition set_num_stale_output_tokens (v : Z) (r : Request) : Request :=
    {| py_id := py_id r; request_id := request_id r; priority := priority r; arrival_time :=
     arrival_time r; status := status r; stop_reason := stop_reason r; sampling_params :=
     sampling_params r; pooling_params := pooling_params r; lora_request := lora_request r;
     max_tokens := max_tokens r; prompt_embeds := prompt_embeds r;
     prompt_embeds_per_block_hashes := prompt_embeds_per_block_hashes r; num_prompt_tokens
     := num_prompt_tokens r; output_token_ids := output_token_ids r; all_token_ids :=
     all_token_ids r; num_output_placeholders := num_output_placeholders r;
     num_in_flight_tokens := num_in_flight_tokens r; spec_token_ids := spec_token_ids r;
     num_computed_tokens := num_computed_tokens r; cache_salt := cache_salt r; mm_features
     := mm_features r; shared_prefix_boundary := shared_prefix_boundary r; num_preemptions
     := num_preemptions r; block_hashes := block_hashes r; skip_reading_prefix_cache :=
     skip_reading_prefix_cache r; num_stale_output_tokens := v; drop_stale_output :=
     drop_stale_output r; next_decode_eligible_step := next_decode_eligible_step r;
     is_prefill_chunk := is_prefill_chunk r |}.

Definition set_drop_stale_output (v : bool) (r : Request) : Request :=
    {| py_id := py_id r; request_id := request_id r; priority := priority r; arrival_time :=
     arrival_time r; status := status r; stop_reason := stop_reason r; sampling_params :=
     sampling_params r; pooling_params := pooling_params r; lora_request := lora_request r;
     max_tokens := max_tokens r; prompt_embeds := prompt_embeds r;
     prompt_embeds_per_block_hashes := prompt_embeds_per_block_hashes r; num_prompt_tokens
     := num_prompt_tokens r; output_token_ids := output_token_ids r; all_token_ids :=
     all_token_ids r; num_output_placeholders := num_output_placeholders r;
     num_in_flight_tokens := num_in_flight_tokens r; spec_token_ids := spec_token_ids r;
     num_computed_tokens := num_computed_tokens r; cache_salt := cache_salt r; mm_features
     := mm_features r; shared_prefix_boundary := shared_prefix_boundary r; num_preemptions
     := num_preemptions r; block_hashes := block_hashes r; skip_reading_prefix_cache :=
     skip_reading_prefix_cache r; num_stale_output_tokens := num_stale_output_tokens r;
     drop_stale_output := v; next_decode_eligible_step := next_decode_eligible_step r;
     is_prefill_chunk := is_prefill_chunk r |}.

Definition set_next_decode_eligible_step (v : Z) (r : Request) : Request :=
    {| py_id := py_id r; request_id := request_id r; priority := priority r; arrival_time :=
     arrival_time r; status := status r; stop_reason := stop_reason r; sampling_params :=
     sampling_params r; pooling_params := pooling_params r; lora_request := lora_request r;
     max_tokens := max_tokens r; prompt_embeds := prompt_embeds r;
     prompt_embeds_per_block_hashes := prompt_embeds_per_block_hashes r; num_prompt_tokens
     := num_prompt_tokens r; output_token_ids := output_token_ids r; all_token_ids :=
     all_token_ids r; num_output_placeholders := num_output_placeholders r;
     num_in_flight_tokens := num_in_flight_tokens r; spec_token_ids := spec_token_ids r;
     num_computed_tokens := num_computed_tokens r; cache_salt := cache_salt r; mm_features
     := mm_features r; shared_prefix_boundary := shared_prefix_boundary r; num_preemptions
     := num_preemptions r; block_hashes := block_hashes r; skip_reading_prefix_cache :=
     skip_reading_prefix_cache r; num_stale_output_tokens := num_stale_output_tokens r;
     drop_stale_output := drop_stale_output r; next_decode_eligible_step := v;
     is_prefill_chunk := is_prefill_chunk r |}.

Definition set_is_prefill_chunk (v : bool) (r : Request) : Request :=
    {| py_id := py_id r; request_id := request_id r; priority := priority r; arrival_time :=
     arrival_time r; status := status r; stop_reason := stop_reason r; sampling_params :=
     sampling_params r; pooling_params := pooling_params r; lora_request := lora_request r;
     max_tokens := max_tokens r; prompt_embeds := prompt_embeds r;
     prompt_embeds_per_block_hashes := prompt_embeds_per_block_hashes r; num_prompt_tokens
     := num_prompt_tokens r; output_token_ids := output_token_ids r; all_token_ids :=
     all_token_ids r; num_output_placeholders := num_output_placeholders r;
     num_in_flight_tokens := num_in_flight_tokens r; spec_token_ids := spec_token_ids r;
     num_computed_tokens := num_computed_tokens r; cache_salt := cache_salt r; mm_features
     := mm_features r; shared_prefix_boundary := shared_prefix_boundary r; num_preemptions
     := num_preemptions r; block_hashes := block_hashes r; skip_reading_prefix_cache :=
     skip_reading_prefix_cache r; num_stale_output_tokens := num_stale_output_tokens r;
     drop_stale_output := drop_stale_output r; next_decode_eligible_step :=
     next_decode_eligible_step r; is_prefill_chunk := v |}.


(** ** Properties of a request *)

Definition num_tokens (r : Request) : Z := py_len (all_token_ids r).
Definition num_tokens_with_spec (r : Request) : Z :=
  py_len (all_token_ids r) + py_len (spec_token_ids r).
Definition num_output_tokens (r : Request) : Z := py_len (output_token_ids r).
Definition num_encoder_inputs (r : Request) : Z := py_len (mm_features r).

(** [get_num_encoder_embeds(input_id)] *)
Definition get_num_encoder_embeds (r : Request) (input_id : Z) : result Z :=
  _ ← py_assert (input_id <? py_len (mm_features r));
  f ← py_get (mm_features r) input_id;
  Ok (get_num_embeds (mm_position f)).

Definition get_skip_reading_prefix_cache (sp : option SamplingParams) (pp : option PoolingParams) : bool :=
  match sp ≫= sp_skip_reading_prefix_cache with
  | Some b => b
  | None => default false (pp ≫= pp_skip_reading_prefix_cache)
  end.

(** [length_from_prompt_token_ids_or_embeds] of [vllm/utils/__init__.py] *)
Definition length_from_prompt_token_ids_or_embeds (toks : option (list Z)) (embeds : option (list bytes)) :
    result Z :=
  match toks, embeds with
  | None, None => Err ValueError
  | None, Some e => Ok (py_len e)
  | Some t, Some e => if py_len e =? py_len t then Ok (py_len t) else Err ValueError
  | Some t, None => Ok (py_len t)
  end.

(** A block hasher reads a request and may fill its memo of embedding hashes. *)
Definition BlockHasher : Type := Request → result (list bytes * Request).

Definition update_block_hashes (block_hasher : option BlockHasher) (r : Request) : result Request :=
  match block_hasher with
  | None => Ok r
  | Some h => '(hs, r') ← h r; Ok (set_block_hashes (block_hashes r ++ hs) r')
  end.

(** [Request.__init__] *)
Definition new_request (id_ : Z) (rid : string) (prompt_token_ids : option (list Z))
    (sp : option SamplingParams) (pp : option PoolingParams) (arrival : Z)
    (embeds : option (list bytes)) (prompt_is_token_ids : option (list bool))
    (mm : list MultiModalFeatureSpec) (lora : option LoRARequest) (salt : option string)
    (prio : Z) (structured : bool) (block_hasher : option BlockHasher) : result Request :=
  '(mt, st) ←
    match pp, sp with
    | Some _, _ => Ok (1, WAITING)
    | None, Some s =>
        m ← unwrap AssertionError (sp_max_tokens s);
        Ok (m, if structured then WAITING_FOR_STRUCTURED_OUTPUT_GRAMMAR else WAITING)
    | None, None => Err ValueError
    end;
  n ← length_from_prompt_token_ids_or_embeds prompt_token_ids embeds;
  let toks :=
    match prompt_token_ids, prompt_is_token_ids with
    | None, _ => replicate (Z.to_nat n) 0
    | Some t, None => t
    | Some t, Some mask => zip_with (λ (x : Z) (is_tok : bool), if is_tok then x else 0) t mask
    end in
  update_block_hashes block_hasher
    {| py_id := id_; request_id := rid; priority := prio; arrival_time := arrival;
       status := st; stop_reason := None; sampling_params := sp; pooling_params := pp;
       lora_request := lora; max_tokens := mt; prompt_embeds := embeds;
       prompt_embeds_per_block_hashes := ∅; num_prompt_tokens := n;
       output_token_ids := []; all_token_ids := toks; num_output_placeholders := 0;
       num_in_flight_tokens := 0; spec_token_ids := []; num_computed_tokens := 0;
       cache_salt := salt; mm_features := mm; shared_prefix_boundary := 0;
       num_preemptions := 0; block_hashes := [];
       skip_reading_prefix_cache := get_skip_reading_prefix_cache sp pp;
       num_stale_output_tokens := 0; drop_stale_output := false; next_decode_eligible_step := 0;
       is_prefill_chunk := false |}.

(** [append_output_token_ids] with a list; a single token is the list of it. *)
Definition append_output_token_ids (block_hasher : option BlockHasher) (token_ids : list Z)
    (r : Request) : result Request :=
  update_block_hashes block_hasher
    (set_all_token_ids (all_token_ids r ++ token_ids)
      (set_output_token_ids (output_token_ids r ++ token_ids) r)).

(** [Request.__lt__]: priority, then arrival time, then request id, then
    object identity. *)
Definition request_lt (a b : Request) : bool :=
  if negb (priority a =? priority b) then priority a <? priority b
  else if negb (arrival_time a =? arrival_time b) then arrival_time a <? arrival_time b
  else if negb (String.eqb (request_id a) (request_id b))
       then String.ltb (request_id a) (request_id b)
  else py_id a <? py_id b.
