(* ===== verification/BlockHash.v ===== *)
(** * Block hashes

    [vllm/vllm/v1/core/kv_cache_utils.py]: the packed keys of the prefix cache,
    the extra keys of a block, the chained block hashes of a request and the
    views of a hash list at a coarser block size.

    The digest function is a parameter: [hash_fn] stands for
    [caching_hash_fn], applied either to the seed string of [NONE_HASH] or to
    the triple (parent hash, token tuple, extra keys); [sha256_rows] for
    [hashlib.sha256(tensor_data(rows)).digest()]. *)

From S2P Require Import Prelude FreeQueue Request.
Local Open Scope Z_scope.

(** ** Packed keys: block hash followed by four bytes of group id *)

(** [g.to_bytes(4, "big", signed=False)] *)
Definition to_bytes4 (g : Z) : result bytes :=
  if (0 <=? g) && (g <? 2 ^ 32) then
    Ok [Z.land (Z.shiftr g 24) 255; Z.land (Z.shiftr g 16) 255;
        Z.land (Z.shiftr g 8) 255; Z.land g 255]
  else Err OverflowError.

(** [int.from_bytes(b, "big")] *)
Definition from_bytes (b : bytes) : Z := foldl (λ acc x, acc * 256 + x) 0 b.

Definition make_block_hash_with_group_id (block_hash : bytes) (group_id : Z) : result bytes :=
  t ← to_bytes4 group_id; Ok (block_hash ++ t).

Definition get_block_hash (key : bytes) : bytes := py_upto key (-4).

Definition get_group_id (key : bytes) : Z := from_bytes (py_from key (-4)).

(** [ExternalBlockHash = bytes | int] *)
Inductive ExternalBlockHash : Type :=
  | ExtBytes (b : bytes)
  | ExtInt (z : Z).

(** [use_int] is [envs.VLLM_KV_EVENTS_USE_INT_BLOCK_HASHES]. *)
Definition maybe_convert_block_hash (use_int : bool) (h : bytes) : ExternalBlockHash :=
  if use_int then ExtInt (Z.land (from_bytes h) (Z.shiftl 1 64 - 1)) else ExtBytes h.

(** ** Extra keys *)

(** An entry of the extra-key tuple: a string (LoRA name or cache salt), a
    pair (multimodal identifier, offset in the block), or a digest. *)
Inductive ExtraKey : Type :=
  | KeyStr (s : string)
  | KeyMM (identifier : string) (rel_offset : Z)
  | KeyBytes (b : bytes).

#[export] Instance ExtraKey_eq_dec : EqDecision ExtraKey.
Proof. solve_decision. Defined.

(** The [while] loop of [_gen_mm_extra_hash_keys], over the features from
    [curr_mm_idx] on. *)
Fixpoint mm_key_loop (feats : list MultiModalFeatureSpec) (start_token_idx end_token_idx : Z)
    (curr_mm_idx : Z) : result (list ExtraKey * Z) :=
  match feats with
  | [] => Ok ([], curr_mm_idx)
  | f :: fs =>
      ident ← unwrap AssertionError (identifier f);
      let off := offset (mm_position f) in
      let len := length_ (mm_position f) in
      if off <? end_token_idx then
        if off + len <=? start_token_idx then
          mm_key_loop fs start_token_idx end_token_idx (curr_mm_idx + 1)
        else if off + len <=? end_token_idx then
          '(keys, idx) ← mm_key_loop fs start_token_idx end_token_idx (curr_mm_idx + 1);
          Ok (KeyMM ident (off - start_token_idx) :: keys, idx)
        else Ok ([KeyMM ident (off - start_token_idx)], curr_mm_idx)
      else Ok ([], curr_mm_idx)
  end.

Definition _gen_mm_extra_hash_keys (r : Request) (start_token_idx end_token_idx start_mm_idx : Z) :
    result (list ExtraKey * Z) :=
  let feats := mm_features r in
  match last feats with
  | None => Ok ([], start_mm_idx)
  | Some f =>
      if offset (mm_position f) + length_ (mm_position f) <=? start_token_idx
      then Ok ([], start_mm_idx)
      else
        idx ←
          (if start_mm_idx <? 0 then
             _ ← py_assert (- start_mm_idx <=? py_len feats);
             Ok (py_len feats + start_mm_idx)
           else Ok start_mm_idx);
        mm_key_loop (drop (Z.to_nat idx) feats) start_token_idx end_token_idx idx
  end.

Definition _gen_lora_extra_hash_keys (r : Request) : list ExtraKey :=
  match lora_request r with
  | None => []
  | Some l => [KeyStr (lora_name l)]
  end.

(** [[request.cache_salt] if (start_token_idx == 0 and request.cache_salt) else []] *)
Definition cache_salt_keys (r : Request) (start_token_idx : Z) : list ExtraKey :=
  match cache_salt r with
  | Some s => if (start_token_idx =? 0) && negb (String.eqb s EmptyString) then [KeyStr s] else []
  | None => []
  end.

(** What a digest is taken of: the seed of [NONE_HASH], or a block. *)
Inductive HashInput : Type :=
  | HashSeed (s : string)
  | HashBlock (parent : bytes) (token_ids : list Z) (extra_keys : option (list ExtraKey)).

Section Hashing.
Context (hash_fn : HashInput → bytes) (sha256_rows : list bytes → bytes) (seed : string).

Definition NONE_HASH : bytes := hash_fn (HashSeed seed).

(** The digest is computed once per block range and kept on the request. *)
Definition _gen_prompt_embeds_extra_hash_keys (r : Request) (start_token_idx end_token_idx : Z) :
    list ExtraKey * Request :=
  match prompt_embeds r with
  | None => ([], r)
  | Some rows =>
      match prompt_embeds_per_block_hashes r !! (start_token_idx, end_token_idx) with
      | Some h => ([KeyBytes h], r)
      | None =>
          let h := sha256_rows (py_slice rows start_token_idx end_token_idx) in
          ([KeyBytes h],
           set_prompt_embeds_per_block_hashes
             (<[(start_token_idx, end_token_idx) := h]> (prompt_embeds_per_block_hashes r)) r)
      end
  end.

Definition generate_block_hash_extra_keys (r : Request)
    (start_token_idx end_token_idx start_mm_idx : Z) :
    result (option (list ExtraKey) * Z * Request) :=
  '(mm_extra_keys, new_start_mm_idx) ←
    _gen_mm_extra_hash_keys r start_token_idx end_token_idx start_mm_idx;
  let lora_extra_keys := _gen_lora_extra_hash_keys r in
  let salt_keys := cache_salt_keys r start_token_idx in
  let '(embeds_keys, r') := _gen_prompt_embeds_extra_hash_keys r start_token_idx end_token_idx in
  match lora_extra_keys ++ mm_extra_keys ++ salt_keys ++ embeds_keys with
  | [] => Ok (None, new_start_mm_idx, r')
  | keys => Ok (Some keys, new_start_mm_idx, r')
  end.

(** [if not parent_block_hash]: both [None] and the empty byte string. *)
Definition hash_block_tokens (parent_block_hash : option bytes) (curr_block_token_ids : list Z)
    (extra_keys : option (list ExtraKey)) : bytes :=
  let parent := match parent_block_hash with
                | None | Some [] => NONE_HASH
                | Some h => h
                end in
  hash_fn (HashBlock parent curr_block_token_ids extra_keys).

(** The [while True] loop of [request_block_hasher]. *)
Fixpoint block_hash_loop (fuel : nat) (hash_block_size : Z) (r : Request)
    (start_token_idx curr_mm_idx : Z) (prev : option bytes) : result (list bytes * Request) :=
  match fuel with
  | O => Err OutOfFuel
  | S fuel' =>
      let end_token_idx := start_token_idx + hash_block_size in
      if num_tokens r <? end_token_idx then Ok ([], r)
      else
        '(extra_keys, mm_idx, r1) ←
          generate_block_hash_extra_keys r start_token_idx end_token_idx curr_mm_idx;
        let block_tokens := py_slice (all_token_ids r) start_token_idx end_token_idx in
        let h := hash_block_tokens prev block_tokens extra_keys in
        '(hs, r2) ← block_hash_loop fuel' hash_block_size r1 end_token_idx mm_idx (Some h);
        Ok (h :: hs, r2)
  end.

Definition request_block_hasher (hash_block_size : Z) (r : Request) : result (list bytes * Request) :=
  let start_token_idx := py_len (block_hashes r) * hash_block_size in
  if num_tokens r <? start_token_idx + hash_block_size then Ok ([], r)
  else
    let curr_mm_idx := if 0 <? start_token_idx then -1 else 0 in
    block_hash_loop (S (length (all_token_ids r))) hash_block_size r start_token_idx curr_mm_idx
      (last (block_hashes r)).
End Hashing.

(** ** Views at a coarser block size *)

(** [BlockHashList = list[BlockHash] | BlockHashListWithBlockSize] *)
Inductive BlockHashList : Type :=
  | RawHashes (hashes : list bytes)
  | HashView (hashes : list bytes) (scale_factor : Z).

(** [BlockHashListWithBlockSize.__init__] *)
Definition BlockHashListWithBlockSize (hashes : list bytes) (hash_block_size target_block_size : Z) :
    result BlockHashList :=
  _ ← py_assert (target_block_size mod hash_block_size =? 0);
  Ok (HashView hashes (target_block_size / hash_block_size)).

(** [_get_value_at] *)
Definition get_value_at (hashes : list bytes) (scale_factor idx : Z) : result bytes :=
  py_get hashes ((idx + 1) * scale_factor - 1).

(** [len(block_hashes)], [block_hashes[idx]] *)
Definition hl_len (hl : BlockHashList) : Z :=
  match hl with
  | RawHashes hs => py_len hs
  | HashView hs k => py_len hs / k
  end.

Definition hl_get (hl : BlockHashList) (idx : Z) : result bytes :=
  match hl with
  | RawHashes hs => py_get hs idx
  | HashView hs k => get_value_at hs k idx
  end.

(** [block_hashes[start:]]: a slice of the list, or of the view. *)
Definition hl_from (hl : BlockHashList) (start : Z) : result (list bytes) :=
  match hl with
  | RawHashes hs => Ok (py_from hs start)
  | HashView hs k =>
      mapM_ok (get_value_at hs k) (py_range (slice_bound (hl_len hl) start) (hl_len hl))
  end.

Definition resolve_block_hashes (hl : BlockHashList) (hash_block_size block_size : Z)
    (supports_fine_grained_hash_lookup : bool) (alignment_tokens : option Z) : result BlockHashList :=
  if block_size =? hash_block_size then Ok hl
  else
    match hl with
    | HashView hs k =>
        _ ← py_assert (k =? block_size / hash_block_size); Ok hl
    | RawHashes hs =>
        let fine :=
          supports_fine_grained_hash_lookup &&
          match alignment_tokens with
          | None => false
          | Some a => (a <? block_size) && (block_size mod a =? 0)
          end in
        if fine then Ok hl
        else
          _ ← py_assert (block_size mod hash_block_size =? 0);
          BlockHashListWithBlockSize hs hash_block_size block_size
    end.

(** ** Packed keys: proofs *)

Definition is_bytes (b : bytes) : Prop := Forall (λ x, 0 ≤ x < 256) b.

Lemma from_bytes4 a b c d : from_bytes [a; b; c; d] = ((a * 256 + b) * 256 + c) * 256 + d.
Proof. unfold from_bytes. simpl. lia. Qed.

Lemma to_bytes4_spec g t :
  to_bytes4 g = Ok t → length t = 4%nat ∧ is_bytes t ∧ from_bytes t = g ∧ 0 ≤ g < 2 ^ 32.
Proof.
  unfold to_bytes4. destruct (andb _ _) eqn:Hg; [|done]. zbool. intros [= <-].
  rewrite from_bytes4.
  assert (Hl : ∀ z, Z.land z 255 = z mod 256) by (intros z; apply (Z.land_ones z 8); lia).
  rewrite !Hl, !Z.shiftr_div_pow2 by lia.
  split_and!; [done| |change (2 ^ 24) with 16777216; change (2 ^ 16) with 65536;
                      change (2 ^ 8) with 256|lia|lia].
  - repeat constructor; apply Z.mod_pos_bound; lia.
  - pose proof (Z.div_mod g 256 ltac:(lia)).
    pose proof (Z.div_mod (g / 256) 256 ltac:(lia)).
    pose proof (Z.div_mod (g / 256 / 256) 256 ltac:(lia)).
    rewrite (Z.div_div g 256 256), (Z.div_div g (256 * 256) 256) in * by lia.
    change (256 * 256) with 65536 in *. change (65536 * 256) with 16777216 in *.
    assert (g / 16777216 < 256) by (apply Z.div_lt_upper_bound; lia).
    assert (0 ≤ g / 16777216) by (apply Z.div_pos; lia).
    rewrite (Z.mod_small (g / 16777216) 256) by lia. lia.
Qed.

Lemma split_last4 (h t : bytes) :
  length t = 4%nat → py_upto (h ++ t) (-4) = h ∧ py_from (h ++ t) (-4) = t.
Proof.
  intros Ht. unfold py_upto, py_from, slice_bound, py_len. rewrite length_app, Ht. simpl.
  replace (Z.to_nat (Z.max 0 (-4 + Z.of_nat (length h + 4)))) with (length h) by lia.
  split; [by rewrite take_app_length|by rewrite drop_app_length].
Qed.

(** C40: A packed prefix-cache key determines the block hash and the group id it
    was made from: unpacking gives both back, for every group id that fits in
    the four bytes; a group id that does not fit raises [OverflowError]. *)
Theorem block_hash_key_roundtrip h g :
  if (0 <=? g) && (g <? 2 ^ 32) then
    ∃ k, make_block_hash_with_group_id h g = Ok k ∧ get_block_hash k = h ∧ get_group_id k = g
  else make_block_hash_with_group_id h g = Err OverflowError.
Proof.
  unfold make_block_hash_with_group_id. destruct (andb _ _) eqn:Hg.
  - destruct (to_bytes4 g) as [t|e] eqn:Ht; [|unfold to_bytes4 in Ht; by rewrite Hg in Ht].
    apply to_bytes4_spec in Ht as (Hlen & _ & Hv & _). simpl.
    exists (h ++ t). unfold get_block_hash, get_group_id.
    destruct (split_last4 h t Hlen) as [-> ->]. done.
  - unfold to_bytes4. by rewrite Hg.
Qed.

Lemma make_key_inj h h' g g' k :
  make_block_hash_with_group_id h g = Ok k →
  make_block_hash_with_group_id h' g' = Ok k → h = h' ∧ g = g'.
Proof.
  unfold make_block_hash_with_group_id. intros H H'.
  apply bind_Ok in H as (t & Ht & [= Hk]). apply bind_Ok in H' as (t' & Ht' & [= Hk']).
  apply to_bytes4_spec in Ht as (Hl & _ & Hv & _). apply to_bytes4_spec in Ht' as (Hl' & _ & Hv' & _).
  subst k. symmetry in Hk'. apply app_inj_2 in Hk' as [-> ->]; [|congruence]. split; congruence.
Qed.

(** ** The extra keys of a block, without the cursor and the memo *)

Definition feature_end (f : MultiModalFeatureSpec) : Z :=
  offset (mm_position f) + length_ (mm_position f).

(** Features as the front end builds them: identified and of non-negative length. *)
Definition wf_features (feats : list MultiModalFeatureSpec) : Prop :=
  Forall (λ f, is_Some (identifier f) ∧ 0 ≤ length_ (mm_position f)) feats.

Definition mm_keys_ref (feats : list MultiModalFeatureSpec) (s e : Z) : list ExtraKey :=
  match last feats with
  | None => []
  | Some f =>
      if feature_end f <=? s then []
      else match mm_key_loop feats s e 0 with Ok (ks, _) => ks | Err _ => [] end
  end.

Lemma mm_key_loop_ok feats s e :
  wf_features feats → s < e →
  ∃ ks n, (∀ j, mm_key_loop feats s e j = Ok (ks, j + Z.of_nat n)) ∧
    (n ≤ length feats)%nat ∧ Forall (λ f, feature_end f ≤ e) (take n feats).
Proof.
  intros Hwf Hse. induction Hwf as [|f fs [[ident Hid] Hlen] Hwf IH].
  { exists [], 0%nat. split_and!; [intros j; simpl; do 2 f_equal; lia|simpl; lia|constructor]. }
  destruct IH as (ks & n & IH & Hn & HF). unfold feature_end in *.
  simpl mm_key_loop. rewrite Hid. simpl.
  destruct (Z.ltb_spec (offset (mm_position f)) e).
  - destruct (Z.leb_spec (offset (mm_position f) + length_ (mm_position f)) s).
    + exists ks, (S n). split_and!.
      * intros j. rewrite IH. do 2 f_equal. lia.
      * simpl; lia.
      * simpl. constructor; [lia|done].
    + destruct (Z.leb_spec (offset (mm_position f) + length_ (mm_position f)) e).
      * exists (KeyMM ident (offset (mm_position f) - s) :: ks), (S n). split_and!.
        -- intros j. rewrite IH. simpl. do 2 f_equal. lia.
        -- simpl; lia.
        -- simpl. constructor; [lia|done].
      * exists [KeyMM ident (offset (mm_position f) - s)], 0%nat.
        split_and!; [intros j; do 2 f_equal; lia|simpl; lia|constructor].
  - exists [], 0%nat. split_and!; [intros j; do 2 f_equal; lia|simpl; lia|constructor].
Qed.

(** Starting the scan further on does not change the keys, as long as every
    feature left out ends before the block. *)
Lemma mm_key_loop_skip feats s e k i :
  wf_features feats → s < e → Forall (λ f, feature_end f ≤ s) (take k feats) →
  (k ≤ length feats)%nat →
  mm_key_loop feats s e i = mm_key_loop (drop k feats) s e (i + Z.of_nat k).
Proof.
  intros Hwf Hse. revert k i. induction Hwf as [|f fs [[ident Hid] Hlen] Hwf IH]; intros k i HF Hk.
  { simpl in Hk. replace k with 0%nat by lia. simpl. do 2 f_equal. lia. }
  destruct k as [|k]; [simpl drop; f_equal; lia|].
  simpl take in HF. apply Forall_cons in HF as [Hf HF]. unfold feature_end in Hf.
  simpl. rewrite Hid. simpl.
  destruct (Z.ltb_spec (offset (mm_position f)) e); [|lia].
  destruct (Z.leb_spec (offset (mm_position f) + length_ (mm_position f)) s); [|lia].
  rewrite (IH k (i + 1)) by (done || (simpl in Hk; lia)). f_equal. lia.
Qed.

(** The cursor is valid for a block starting at [s]: the features before it end
    by [s]. *)
Definition cursor_ok (feats : list MultiModalFeatureSpec) (idx s : Z) : Prop :=
  let k := if idx <? 0 then py_len feats + idx else idx in
  0 ≤ k ∧ Forall (λ f, feature_end f ≤ s) (take (Z.to_nat k) feats) ∧ k ≤ py_len feats.

Lemma cursor_ok_mono feats idx s s' : s ≤ s' → cursor_ok feats idx s → cursor_ok feats idx s'.
Proof.
  intros Hs (? & HF & ?). split_and!; [done| |done].
  eapply Forall_impl; [exact HF|]. simpl. lia.
Qed.

Lemma gen_mm_keys_spec r s e idx :
  wf_features (mm_features r) → s < e →
  (mm_features r = [] ∨ cursor_ok (mm_features r) idx s) →
  ∃ idx', _gen_mm_extra_hash_keys r s e idx = Ok (mm_keys_ref (mm_features r) s e, idx') ∧
    (mm_features r = [] ∨ cursor_ok (mm_features r) idx' e).
Proof.
  intros Hwf Hse Hidx. unfold _gen_mm_extra_hash_keys, mm_keys_ref.
  set (feats := mm_features r) in *.
  destruct (last feats) as [f|] eqn:Hlast.
  2:{ apply last_None in Hlast. eexists. eauto. }
  destruct Hidx as [Hnil|Hidx]; [by rewrite Hnil in Hlast|].
  unfold feature_end. destruct (Z.leb_spec (offset (mm_position f) + length_ (mm_position f)) s).
  { eexists. split; [done|]. right. eapply cursor_ok_mono; [|done]. lia. }
  destruct Hidx as (Hk0 & HF & Hk1).
  set (k := if idx <? 0 then py_len feats + idx else idx) in *.
  assert (Hidx : (if idx <? 0 then
             _ ← py_assert (- idx <=? py_len feats); Ok (py_len feats + idx)
           else Ok idx) = Ok k).
  { unfold k. destruct (Z.ltb_spec idx 0); [|done].
    destruct (Z.leb_spec (- idx) (py_len feats)); [done|lia]. }
  rewrite Hidx. simpl.
  assert (Hwf' : wf_features (drop (Z.to_nat k) feats)) by (by apply Forall_drop).
  destruct (mm_key_loop_ok (drop (Z.to_nat k) feats) s e Hwf' Hse) as (ks & n & Hl & Hn & HFn).
  rewrite Hl. rewrite (mm_key_loop_skip feats s e (Z.to_nat k) 0) by (done || (unfold py_len in *; lia)).
  rewrite Hl. eexists. split; [done|]. right.
  rewrite length_drop in Hn. unfold cursor_ok.
  destruct (Z.ltb_spec (k + Z.of_nat n) 0); [lia|]. split_and!; [lia| |unfold py_len in *; lia].
  replace (Z.to_nat (k + Z.of_nat n)) with (Z.to_nat k + n)%nat by lia.
  rewrite <-take_take_drop. apply Forall_app. split; [|done].
  eapply Forall_impl; [exact HF|]. simpl. lia.
Qed.

(** ** The chain of hashes of a request *)

(** A request up to its memo of embedding digests. *)
Definition strip (r : Request) : Request := set_prompt_embeds_per_block_hashes ∅ r.

Section Chain.
Context (hash_fn : HashInput → bytes) (sha256_rows : list bytes → bytes) (seed : string).
Context (bs : Z) (Hbs : 0 < bs).

Definition memo_ok (r : Request) : Prop :=
  ∀ s e h, prompt_embeds_per_block_hashes r !! (s, e) = Some h →
    ∃ rows, prompt_embeds r = Some rows ∧ h = sha256_rows (py_slice rows s e).

Definition embeds_keys_ref (r : Request) (s e : Z) : list ExtraKey :=
  match prompt_embeds r with
  | None => []
  | Some rows => [KeyBytes (sha256_rows (py_slice rows s e))]
  end.

(** The extra keys of the tokens [s .. e) of a request. *)
Definition extra_keys_ref (r : Request) (s e : Z) : option (list ExtraKey) :=
  match _gen_lora_extra_hash_keys r ++ mm_keys_ref (mm_features r) s e ++
        cache_salt_keys r s ++ embeds_keys_ref r s e with
  | [] => None
  | keys => Some keys
  end.

Lemma embeds_keys_spec r s e :
  memo_ok r →
  ∃ r', _gen_prompt_embeds_extra_hash_keys sha256_rows r s e = (embeds_keys_ref r s e, r') ∧
    memo_ok r' ∧ strip r' = strip r.
Proof.
  intros Hm. unfold _gen_prompt_embeds_extra_hash_keys, embeds_keys_ref.
  destruct (prompt_embeds r) as [rows|] eqn:Hr; [|by exists r].
  destruct (prompt_embeds_per_block_hashes r !! (s, e)) as [h|] eqn:Hh.
  { destruct (Hm _ _ _ Hh) as (rows' & Hr' & ->). simplify_eq. by exists r. }
  eexists. split_and!; [done| |done].
  intros s' e' h'. simpl. rewrite lookup_insert. case_decide as He; [|by apply Hm].
  intros [= <-]. simplify_eq. eauto.
Qed.

Lemma generate_keys_spec r s e idx :
  wf_features (mm_features r) → s < e → memo_ok r →
  (mm_features r = [] ∨ cursor_ok (mm_features r) idx s) →
  ∃ idx' r', generate_block_hash_extra_keys sha256_rows r s e idx
             = Ok (extra_keys_ref r s e, idx', r') ∧
    (mm_features r = [] ∨ cursor_ok (mm_features r) idx' e) ∧ memo_ok r' ∧ strip r' = strip r.
Proof.
  intros Hwf Hse Hm Hidx. unfold generate_block_hash_extra_keys.
  destruct (gen_mm_keys_spec r s e idx Hwf Hse Hidx) as (idx' & -> & Hidx'). simpl.
  destruct (embeds_keys_spec r s e Hm) as (r' & -> & Hm' & Hs).
  exists idx', r'. split; [|done].
  unfold extra_keys_ref. by destruct (_ ++ _ ++ _ ++ _).
Qed.

(** Hashes of a list of blocks, each with its tokens and extra keys. *)
Fixpoint chain (prev : option bytes) (blocks : list (list Z * option (list ExtraKey))) : list bytes :=
  match blocks with
  | [] => []
  | (toks, keys) :: blocks' =>
      let h := hash_block_tokens hash_fn seed prev toks keys in
      h :: chain (Some h) blocks'
  end.

Definition block_at (r : Request) (i : nat) : list Z * option (list ExtraKey) :=
  let s := Z.of_nat i * bs in
  let e := s + bs in
  (py_slice (all_token_ids r) s e, extra_keys_ref r s e).

(** The full blocks [i .. i + n) of a request. *)
Definition blocks_from (r : Request) (i n : nat) : list (list Z * option (list ExtraKey)) :=
  block_at r <$> seq i n.

Definition num_full (r : Request) : nat := Z.to_nat (num_tokens r / bs).

Lemma num_full_le r i : (i < num_full r)%nat ↔ Z.of_nat i * bs + bs ≤ num_tokens r.
Proof.
  unfold num_full. pose proof (py_len_nonneg (all_token_ids r)).
  assert (0 ≤ num_tokens r) by done.
  assert (0 ≤ num_tokens r / bs) by (apply Z.div_pos; lia).
  pose proof (Z.div_mod (num_tokens r) bs ltac:(lia)).
  pose proof (Z.mod_pos_bound (num_tokens r) bs ltac:(lia)). nia.
Qed.

Lemma chain_app prev xs ys :
  chain prev (xs ++ ys) =
    chain prev xs ++ chain (match last (chain prev xs) with Some h => Some h | None => prev end) ys.
Proof.
  revert prev. induction xs as [|[t k] xs IH]; intros prev; simpl; [done|].
  rewrite IH. f_equal. f_equal.
  set (h := hash_block_tokens hash_fn seed prev t k).
  rewrite last_cons. by destruct (last (chain (Some h) xs)).
Qed.

Lemma chain_length prev xs : length (chain prev xs) = length xs.
Proof. revert prev. induction xs as [|[t k] xs IH]; intros prev; simpl; auto. Qed.

Lemma strip_block_at r r' i : strip r' = strip r → block_at r' i = block_at r i.
Proof.
  intros Hs. change (block_at (strip r') i = block_at (strip r) i). by rewrite Hs.
Qed.

Lemma strip_fields r r' :
  strip r' = strip r →
  all_token_ids r' = all_token_ids r ∧ mm_features r' = mm_features r ∧
  block_hashes r' = block_hashes r ∧ prompt_embeds r' = prompt_embeds r.
Proof.
  intros Hs. split_and!.
  - by apply (f_equal all_token_ids) in Hs.
  - by apply (f_equal mm_features) in Hs.
  - by apply (f_equal block_hashes) in Hs.
  - by apply (f_equal prompt_embeds) in Hs.
Qed.

Lemma block_hash_loop_spec fuel r i idx prev :
  wf_features (mm_features r) → memo_ok r →
  (mm_features r = [] ∨ cursor_ok (mm_features r) idx (Z.of_nat i * bs)) →
  (num_full r - i < fuel)%nat →
  ∃ r', block_hash_loop hash_fn sha256_rows seed fuel bs r (Z.of_nat i * bs) idx prev
        = Ok (chain prev (blocks_from r i (num_full r - i)), r') ∧
    memo_ok r' ∧ strip r' = strip r.
Proof.
  revert r i idx prev. induction fuel as [|fuel IH]; intros r i idx prev Hwf Hm Hidx Hf; [lia|].
  simpl block_hash_loop.
  destruct (Z.ltb_spec (num_tokens r) (Z.of_nat i * bs + bs)) as [Hlt|Hge].
  - assert (Hi : ¬ (i < num_full r)%nat) by (rewrite num_full_le; lia).
    replace (num_full r - i)%nat with 0%nat by lia. by exists r.
  - assert (Hi : (i < num_full r)%nat) by (rewrite num_full_le; lia).
    destruct (generate_keys_spec r (Z.of_nat i * bs) (Z.of_nat i * bs + bs) idx)
      as (idx' & r1 & -> & Hidx' & Hm1 & Hs1); [done|lia|done|done|]. simpl.
    destruct (strip_fields _ _ Hs1) as (Ht & Hmm & _ & _).
    assert (Hn : num_full r1 = num_full r) by (unfold num_full, num_tokens; by rewrite Ht).
    replace (Z.of_nat i * bs + bs) with (Z.of_nat (S i) * bs) in * by lia.
    rewrite <-Hmm in Hidx', Hwf.
    set (h := hash_block_tokens _ _ _ _ _).
    destruct (IH r1 (S i) idx' (Some h)) as (r2 & -> & Hm2 & Hs2); [done|done|done|lia|].
    exists r2. simpl. split_and!; [|done|congruence]. do 2 f_equal.
    rewrite Hn. replace (num_full r - i)%nat with (S (num_full r - S i)) by lia.
    unfold blocks_from. simpl. f_equal; unfold h.
    { do 2 f_equal; lia. }
    f_equal; [do 3 f_equal; lia|]. apply list_fmap_ext. intros ? k _. by apply strip_block_at.
Qed.

(** The hashes on a request are those of its first [m] blocks. *)
Definition hashed_to (r : Request) (m : nat) : Prop :=
  block_hashes r = chain None (blocks_from r 0 m).

(** Where the hasher may resume: nothing hashed yet, or every multimodal item
    but the last ends before the first block that is not hashed. *)
Definition resume_ok (r : Request) : Prop :=
  let m := length (block_hashes r) in
  m = 0%nat ∨ Forall (λ f, feature_end f ≤ Z.of_nat m * bs) (removelast (mm_features r)).

Lemma resume_cursor r m :
  length (block_hashes r) = m → resume_ok r →
  mm_features r = [] ∨
  cursor_ok (mm_features r) (if 0 <? Z.of_nat m * bs then -1 else 0) (Z.of_nat m * bs).
Proof.
  intros Hm Hr. unfold resume_ok in Hr. rewrite Hm in Hr.
  destruct (decide (mm_features r = [])) as [|Hne]; [by left|]. right.
  unfold cursor_ok, py_len. destruct m as [|m].
  - simpl. split_and!; [lia|constructor|lia].
  - destruct (Z.ltb_spec 0 (Z.of_nat (S m) * bs)); [|lia].
    destruct Hr as [?|HF]; [done|].
    destruct (exists_last (l:=mm_features r)) as (fs & f & E); [done|].
    rewrite E, removelast_last in HF. rewrite E, length_app. simpl.
    split_and!; [lia| |lia].
    replace (Z.to_nat (Z.of_nat (length fs + 1) + -1)) with (length fs) by lia.
    by rewrite take_app_length.
Qed.

Lemma request_block_hasher_spec r m :
  wf_features (mm_features r) → memo_ok r → hashed_to r m → resume_ok r → (m ≤ num_full r)%nat →
  ∃ r', request_block_hasher hash_fn sha256_rows seed bs r
        = Ok (chain (last (block_hashes r)) (blocks_from r m (num_full r - m)), r') ∧
    memo_ok r' ∧ strip r' = strip r.
Proof.
  intros Hwf Hmo Hh Hres Hle. unfold request_block_hasher.
  assert (Hlen : length (block_hashes r) = m).
  { rewrite Hh, chain_length. unfold blocks_from. by rewrite length_fmap, length_seq. }
  unfold py_len. rewrite Hlen.
  destruct (Z.ltb_spec (num_tokens r) (Z.of_nat m * bs + bs)) as [Hlt|Hge].
  - assert (Hi : ¬ (m < num_full r)%nat) by (rewrite num_full_le; lia).
    replace (num_full r - m)%nat with 0%nat by lia. by exists r.
  - apply block_hash_loop_spec; [done|done|by apply resume_cursor|].
    assert (num_full r ≤ length (all_token_ids r))%nat; [|lia].
    unfold num_full, num_tokens, py_len.
    pose proof (Z.div_le_upper_bound (Z.of_nat (length (all_token_ids r))) bs
                  (Z.of_nat (length (all_token_ids r)))). nia.
Qed.

(** [update_block_hashes] brings the hashes up to date. *)
Lemma update_block_hashes_spec r m :
  wf_features (mm_features r) → memo_ok r → hashed_to r m → resume_ok r → (m ≤ num_full r)%nat →
  ∃ r', update_block_hashes (Some (request_block_hasher hash_fn sha256_rows seed bs)) r = Ok r' ∧
    memo_ok r' ∧ hashed_to r' (num_full r') ∧
    strip r' = set_block_hashes (block_hashes r') (strip r).
Proof.
  intros Hwf Hmo Hh Hres Hle. unfold update_block_hashes.
  destruct (request_block_hasher_spec r m Hwf Hmo Hh Hres Hle) as (r1 & -> & Hm1 & Hs1). simpl.
  eexists. split_and!; [done|exact Hm1| |].
  - unfold hashed_to. simpl.
    change (num_full (set_block_hashes _ _)) with (num_full r1).
    destruct (strip_fields _ _ Hs1) as (Ht & _ & _ & _).
    replace (num_full r1) with (num_full r) by (unfold num_full, num_tokens; by rewrite Ht).
    set (r2 := set_block_hashes _ r1).
    assert (Hb : ∀ i n, blocks_from r2 i n = blocks_from r i n).
    { intros i n. apply list_fmap_ext. intros ? k _. by apply (strip_block_at r r1). }
    rewrite Hb. replace (num_full r) with (m + (num_full r - m))%nat at 2 by lia.
    unfold blocks_from at 2. rewrite seq_app, fmap_app. simpl.
    rewrite chain_app. fold (blocks_from r 0 m) (blocks_from r m (num_full r - m)).
    rewrite <-Hh. f_equal. by destruct (last (block_hashes r)).
  - simpl. rewrite <-Hs1. done.
Qed.

(** Appending tokens leaves the blocks that were already full alone. *)
Lemma blocks_from_extend r r' m :
  (∃ toks, all_token_ids r' = all_token_ids r ++ toks) →
  lora_request r' = lora_request r → mm_features r' = mm_features r →
  cache_salt r' = cache_salt r → prompt_embeds r' = prompt_embeds r →
  (m ≤ num_full r)%nat → blocks_from r' 0 m = blocks_from r 0 m.
Proof.
  intros [toks Ht] Hlo Hmm Hsa Hem Hm. apply list_fmap_ext. intros i k Hk.
  apply lookup_seq in Hk as [-> Hi]. simpl. unfold block_at. f_equal.
  - rewrite Ht, !py_slice_nonneg by nia.
    assert (Hlt : (i < num_full r)%nat) by lia. apply num_full_le in Hlt.
    unfold num_tokens, py_len in Hlt.
    rewrite drop_app_le by nia. rewrite take_app_le; [done|]. rewrite length_drop. nia.
  - unfold extra_keys_ref, _gen_lora_extra_hash_keys, cache_salt_keys, embeds_keys_ref.
    by rewrite Hlo, Hmm, Hsa, Hem.
Qed.
End Chain.

(** ** Incremental hashing *)

Section Incremental.
Context (hash_fn : HashInput → bytes) (sha256_rows : list bytes → bytes) (seed : string).
Context (bs : Z) (Hbs : 0 < bs).

Local Abbreviation hasher := (request_block_hasher hash_fn sha256_rows seed bs).

(** All items but the last end in a block that the prompt fills. *)
Definition mm_before_tail (r : Request) : Prop :=
  wf_features (mm_features r) ∧
  Forall (λ f, feature_end f ≤ num_tokens r / bs * bs) (removelast (mm_features r)).

Definition up_to_date (r : Request) : Prop :=
  memo_ok sha256_rows r ∧ hashed_to hash_fn sha256_rows seed bs r (num_full bs r).

Lemma mm_before_tail_resume r :
  mm_before_tail r → up_to_date r → resume_ok bs r.
Proof.
  intros [_ HF] [_ Hh]. right. eapply Forall_impl; [exact HF|]. simpl. intros f Hf.
  assert (Z.of_nat (length (block_hashes r)) = num_tokens r / bs) as ->; [|done].
  rewrite Hh, chain_length. unfold blocks_from. rewrite length_fmap, length_seq.
  unfold num_full. pose proof (py_len_nonneg (all_token_ids r)).
  assert (0 ≤ num_tokens r / bs) by (apply Z.div_pos; unfold num_tokens; lia). lia.
Qed.

Lemma append_up_to_date r toks :
  mm_before_tail r → up_to_date r →
  ∃ r', append_output_token_ids (Some hasher) toks r = Ok r' ∧
    all_token_ids r' = all_token_ids r ++ toks ∧ mm_before_tail r' ∧ up_to_date r'.
Proof.
  intros Hmm Hup. pose proof (mm_before_tail_resume r Hmm Hup) as Hres.
  destruct Hup as [Hmo Hh]. destruct Hmm as [Hwf HF].
  unfold append_output_token_ids.
  set (r1 := set_all_token_ids _ _).
  assert (Hnt : num_tokens r ≤ num_tokens r1).
  { unfold num_tokens, r1. simpl. rewrite py_len_app. pose proof (py_len_nonneg toks). lia. }
  assert (Hdiv : num_tokens r / bs ≤ num_tokens r1 / bs) by (apply Z.div_le_mono; lia).
  assert (Hnf : (num_full bs r ≤ num_full bs r1)%nat) by (unfold num_full; lia).
  assert (Hh1 : hashed_to hash_fn sha256_rows seed bs r1 (num_full bs r)).
  { unfold hashed_to. rewrite (blocks_from_extend _ bs Hbs r r1); try done. by exists toks. }
  destruct (update_block_hashes_spec hash_fn sha256_rows seed bs Hbs r1 (num_full bs r))
    as (r' & -> & Hm' & Hh' & Hs'); [done|done|done|done|done|].
  assert (Ht : all_token_ids r' = all_token_ids r1)
    by (by apply (f_equal all_token_ids) in Hs').
  assert (Hf : mm_features r' = mm_features r) by (by apply (f_equal mm_features) in Hs').
  exists r'. split_and!; [done|by rewrite Ht| |done].
  unfold mm_before_tail. rewrite Hf. split; [done|].
  eapply Forall_impl; [exact HF|]. simpl. intros f Hle.
  replace (num_tokens r') with (num_tokens r1) by (unfold num_tokens; by rewrite Ht). nia.
Qed.

Lemma new_request_up_to_date id_ rid ptoks sp pp arr emb mask mm lora salt prio st r :
  new_request id_ rid ptoks sp pp arr emb mask mm lora salt prio st (Some hasher) = Ok r →
  wf_features mm → up_to_date r ∧ mm_features r = mm.
Proof.
  unfold new_request. intros H Hwf.
  apply bind_Ok in H as ([mt s] & _ & H). apply bind_Ok in H as (n & _ & H).
  match type of H with update_block_hashes _ ?r = _ => set (r0 := r) in H end.
  destruct (update_block_hashes_spec hash_fn sha256_rows seed bs Hbs r0 0)
    as (r' & E & Hm' & Hh' & Hs'); [done|by intros ???|done|by left|lia|].
  rewrite E in H. injection H as <-. split; [done|].
  by apply (f_equal mm_features) in Hs'.
Qed.

(** C32: Hashing a request block by block as its tokens arrive gives the same
    block hashes as hashing the finished token sequence from scratch, for any
    split of the generated tokens into batches, provided no multimodal item
    but the last reaches into the block the prompt leaves unfinished.  The
    hasher never raises and its fuel suffices. *)
Theorem incremental_hashing_from_scratch id_ rid ptoks sp pp arr emb mask mm lora salt prio st r batches :
  new_request id_ rid ptoks sp pp arr emb mask mm lora salt prio st (Some hasher) = Ok r →
  wf_features mm → Forall (λ f, feature_end f ≤ num_tokens r / bs * bs) (removelast mm) →
  ∃ r' r'', foldM (λ r toks, append_output_token_ids (Some hasher) toks r) r batches = Ok r' ∧
    all_token_ids r' = all_token_ids r ++ concat batches ∧
    hasher (set_block_hashes [] r') = Ok (block_hashes r', r'').
Proof.
  intros Hnew Hwf HF.
  destruct (new_request_up_to_date _ _ _ _ _ _ _ _ _ _ _ _ _ r Hnew Hwf) as [Hup Hmm].
  assert (Hbt : mm_before_tail r) by (unfold mm_before_tail; by rewrite Hmm).
  destruct (foldM_ind (λ r toks, append_output_token_ids (Some hasher) toks r)
    (λ dn r', all_token_ids r' = all_token_ids r ++ concat dn ∧ mm_before_tail r' ∧ up_to_date r')
    batches r) as (r' & -> & Ht & [Hwf' _] & [Hmo Hh]).
  { by rewrite app_nil_r. }
  { intros dn toks todo r1 _ (Ht1 & Hbt1 & Hup1).
    destruct (append_up_to_date r1 toks Hbt1 Hup1) as (r2 & -> & Ht2 & ? & ?).
    exists r2. split_and!; [done| |done|done].
    rewrite Ht2, Ht1, concat_app. simpl. by rewrite app_nil_r, app_assoc. }
  destruct (request_block_hasher_spec hash_fn sha256_rows seed bs Hbs (set_block_hashes [] r') 0)
    as (r'' & Hr'' & _ & _); [done|done|done|by left|lia|].
  exists r', r''. split_and!; [done|done|]. rewrite Hr''. simpl.
  rewrite Nat.sub_0_r. by rewrite Hh.
Qed.
End Incremental.

(** ** What a block hash determines *)

Section Soundness.
Context (hash_fn : HashInput → bytes) (sha256_rows : list bytes → bytes) (seed : string).
(** Collision resistance of the digest, and that a digest is not empty. *)
Context (hash_inj : Inj (=) (=) hash_fn) (hash_nonempty : ∀ x, hash_fn x ≠ []).

Local Abbreviation chain := (chain hash_fn seed).

Lemma chain_parent prev xs i h :
  chain prev xs !! i = Some h →
  ∃ t k p, xs !! i = Some (t, k) ∧ h = hash_fn (HashBlock p t k) ∧
    match i with
    | O => p = match prev with None | Some [] => NONE_HASH hash_fn seed | Some q => q end
    | S i' => chain prev xs !! i' = Some p
    end.
Proof.
  revert prev i. induction xs as [|[t k] xs IH]; intros prev i Hi; simpl in *; [done|].
  destruct i as [|i]; simpl in *.
  { injection Hi as <-. do 3 eexists. split_and!; [done|done|]. by destruct prev as [[]|]. }
  destruct (IH _ _ Hi) as (t' & k' & p & Hx & -> & Hp).
  exists t', k', p. split_and!; [done|done|]. destruct i as [|i]; [|done].
  subst p. set (h0 := hash_block_tokens _ _ _ _ _).
  assert (h0 ≠ []) by apply hash_nonempty. by destruct h0.
Qed.

Lemma chain_sound xs ys i j h :
  chain None xs !! i = Some h → chain None ys !! j = Some h →
  i = j ∧ take (S i) xs = take (S j) ys.
Proof.
  revert j h. induction i as [|i IH]; intros j h Hx Hy;
    destruct (chain_parent _ _ _ _ Hx) as (t & k & p & Hxi & Hh & Hp);
    destruct (chain_parent _ _ _ _ Hy) as (t' & k' & p' & Hyj & Hh' & Hp');
    rewrite Hh in Hh'; apply hash_inj in Hh'; simplify_eq.
  - destruct j as [|j].
    + split; [done|]. by rewrite (take_S_r _ _ _ Hxi), (take_S_r _ _ _ Hyj).
    + destruct (chain_parent _ _ _ _ Hp') as (? & ? & ? & _ & Hn & _).
      unfold NONE_HASH in Hn. by apply hash_inj in Hn.
  - destruct j as [|j].
    + destruct (chain_parent _ _ _ _ Hp) as (? & ? & ? & _ & Hn & _).
      rewrite Hp' in Hn. by apply hash_inj in Hn.
    + destruct (IH j p' Hp Hp') as [-> Htake]. split; [done|].
      by rewrite (take_S_r _ _ _ Hxi), (take_S_r _ _ _ Hyj), Htake.
Qed.

(** A resolved view reads the last hash of each coarser block. *)
Lemma resolve_view hbs block_size hs v :
  0 < hbs → 0 < block_size →
  resolve_block_hashes (RawHashes hs) hbs block_size false None = Ok v →
  ∃ c, 0 < c ∧ block_size = c * hbs ∧
    ∀ i, 0 ≤ i → hl_get v i = unwrap IndexError (hs !! Z.to_nat ((i + 1) * c - 1)).
Proof.
  intros Hh Hb. unfold resolve_block_hashes, BlockHashListWithBlockSize.
  destruct (Z.eqb_spec block_size hbs) as [->|Hne].
  - intros [= <-]. exists 1. split_and!; [lia|lia|]. intros i Hi. simpl.
    rewrite py_get_nonneg by done. do 3 f_equal. lia.
  - simpl. destruct (Z.eqb_spec (block_size mod hbs) 0) as [Hm|]; simpl; [|done].
    intros [= <-]. pose proof (Z.div_mod block_size hbs ltac:(lia)).
    exists (block_size / hbs). split_and!; [nia|lia|].
    intros i Hi. simpl. unfold get_value_at. by rewrite py_get_nonneg by nia.
Qed.

Context (bs : Z) (Hbs : 0 < bs).
Local Abbreviation hasher := (request_block_hasher hash_fn sha256_rows seed bs).

Lemma prefix_of_blocks r1 r2 n :
  (∀ k, (k < n)%nat → (block_at sha256_rows bs r1 k).1 = (block_at sha256_rows bs r2 k).1) →
  take (n * Z.to_nat bs) (all_token_ids r1) = take (n * Z.to_nat bs) (all_token_ids r2).
Proof.
  induction n as [|n IH]; intros Hk; [done|].
  replace (S n * Z.to_nat bs)%nat with (n * Z.to_nat bs + Z.to_nat bs)%nat by lia.
  rewrite <-!take_take_drop, IH by auto. f_equal.
  specialize (Hk n ltac:(lia)). unfold block_at in Hk. simpl in Hk.
  rewrite !py_slice_nonneg in Hk by nia.
  replace (Z.to_nat (Z.of_nat n * bs)) with (n * Z.to_nat bs)%nat in Hk by nia.
  replace (Z.to_nat (Z.of_nat n * bs + bs) - n * Z.to_nat bs)%nat with (Z.to_nat bs) in Hk by nia.
  exact Hk.
Qed.

Lemma hash_determines_prefix r1 r2 hs1 hs2 r1' r2' i j h :
  wf_features (mm_features r1) → wf_features (mm_features r2) →
  memo_ok sha256_rows r1 → memo_ok sha256_rows r2 →
  block_hashes r1 = [] → block_hashes r2 = [] →
  hasher r1 = Ok (hs1, r1') → hasher r2 = Ok (hs2, r2') →
  hs1 !! i = Some h → hs2 !! j = Some h →
  i = j ∧
  take (S i * Z.to_nat bs) (all_token_ids r1) = take (S i * Z.to_nat bs) (all_token_ids r2) ∧
  ∀ k, (k ≤ i)%nat →
    extra_keys_ref sha256_rows r1 (Z.of_nat k * bs) (Z.of_nat k * bs + bs)
    = extra_keys_ref sha256_rows r2 (Z.of_nat k * bs) (Z.of_nat k * bs + bs).
Proof.
  intros Hwf1 Hwf2 Hm1 Hm2 Hb1 Hb2 H1 H2 Hi Hj.
  assert (E : ∀ r hs r', wf_features (mm_features r) → memo_ok sha256_rows r → block_hashes r = [] →
            hasher r = Ok (hs, r') → hs = chain None (blocks_from sha256_rows bs r 0 (num_full bs r))).
  { intros r hs r' Hwf Hm Hb Hr.
    destruct (request_block_hasher_spec hash_fn sha256_rows seed bs Hbs r 0)
      as (r2'' & Hr2 & _ & _); [done|done|done| |lia|].
    { left. by rewrite Hb. }
    rewrite Hr2, Hb, Nat.sub_0_r in Hr. by simplify_eq. }
  apply E in H1 as ->; [|done..]. apply E in H2 as ->; [|done..]. clear E.
  destruct (chain_sound _ _ _ _ _ Hi Hj) as [-> Htake]. split; [done|].
  assert (Hat : ∀ k, (k ≤ j)%nat → block_at sha256_rows bs r1 k = block_at sha256_rows bs r2 k).
  { intros k Hk. apply (f_equal (.!! k)) in Htake.
    rewrite !lookup_take_lt in Htake by lia.
    apply lookup_lt_Some in Hi, Hj. rewrite chain_length in Hi, Hj.
    unfold blocks_from in *. rewrite length_fmap, length_seq in Hi, Hj.
    rewrite !list_lookup_fmap, !lookup_seq_lt in Htake by lia. by apply (inj Some) in Htake. }
  split.
  - apply prefix_of_blocks. intros k Hk. rewrite Hat by lia. done.
  - intros k Hk. specialize (Hat k Hk). by apply (f_equal snd) in Hat.
Qed.

(** C31: Prefix caching is keyed soundly for requests that are hashed at once: take
    two requests without block hashes yet, whose hash lists one call of the hasher
    makes.  If the lists have an equal block hash anywhere, viewed at any block
    size that the hash block size divides, it is at the same block index, the
    requests agree on every token up to the end of that block, and every hash
    block up to there has the same extra keys (LoRA name, multimodal items, cache
    salt, embedding digests), given a collision-free digest.  (Lists made in
    several calls are covered as far as they equal those made at once, see
    [incremental_hashing_from_scratch]; [mm_tail_collision] is a list that does
    not.) *)
Theorem block_hash_determines_prefix r1 r2 hs1 hs2 r1' r2' block_size v1 v2 i j h :
  wf_features (mm_features r1) → wf_features (mm_features r2) →
  memo_ok sha256_rows r1 → memo_ok sha256_rows r2 →
  block_hashes r1 = [] → block_hashes r2 = [] →
  hasher r1 = Ok (hs1, r1') → hasher r2 = Ok (hs2, r2') → 0 < block_size →
  resolve_block_hashes (RawHashes hs1) bs block_size false None = Ok v1 →
  resolve_block_hashes (RawHashes hs2) bs block_size false None = Ok v2 →
  0 ≤ i → 0 ≤ j → hl_get v1 i = Ok h → hl_get v2 j = Ok h →
  i = j ∧
  take (Z.to_nat ((i + 1) * block_size)) (all_token_ids r1)
  = take (Z.to_nat ((i + 1) * block_size)) (all_token_ids r2) ∧
  ∀ k, 0 ≤ k → k * bs < (i + 1) * block_size →
    extra_keys_ref sha256_rows r1 (k * bs) (k * bs + bs)
    = extra_keys_ref sha256_rows r2 (k * bs) (k * bs + bs).
Proof.
  intros Hwf1 Hwf2 Hm1 Hm2 Hb1 Hb2 H1 H2 Hpos Hv1 Hv2 Hi Hj Hg1 Hg2.
  destruct (resolve_view bs block_size hs1 v1 Hbs Hpos Hv1) as (c & Hc & -> & Hget1).
  destruct (resolve_view bs (c * bs) hs2 v2 Hbs Hpos Hv2) as (c' & Hc' & Hcc & Hget2).
  assert (c' = c) as -> by nia. rewrite Hget1 in Hg1 by done. rewrite Hget2 in Hg2 by done.
  apply unwrap_Ok in Hg1, Hg2.
  destruct (hash_determines_prefix _ _ _ _ _ _ _ _ _ Hwf1 Hwf2 Hm1 Hm2 Hb1 Hb2 H1 H2 Hg1 Hg2)
    as (Hij & Htoks & Hkeys).
  assert (i = j) as <- by nia. split; [done|].
  replace (S (Z.to_nat ((i + 1) * c - 1)) * Z.to_nat bs)%nat
    with (Z.to_nat ((i + 1) * (c * bs))) in Htoks by nia.
  split; [done|]. intros k Hk Hlt.
  specialize (Hkeys (Z.to_nat k)). rewrite Z2Nat.id in Hkeys by done. apply Hkeys. nia.
Qed.
End Soundness.

(** ** Witnesses, and two collisions that no digest can prevent *)

#[export] Instance ExtraKey_countable : Countable ExtraKey.
Proof.
  refine (inj_countable'
    (λ k, match k with KeyStr s => inl s | KeyMM i o => inr (inl (i, o)) | KeyBytes b => inr (inr b) end)
    (λ k, match k with inl s => KeyStr s | inr (inl (i, o)) => KeyMM i o | inr (inr b) => KeyBytes b end) _).
  by intros [].
Defined.

#[export] Instance HashInput_eq_dec : EqDecision HashInput.
Proof. solve_decision. Defined.

#[export] Instance HashInput_countable : Countable HashInput.
Proof.
  refine (inj_countable'
    (λ k, match k with HashSeed s => inl s | HashBlock p t e => inr (p, t, e) end)
    (λ k, match k with inl s => HashSeed s | inr (p, t, e) => HashBlock p t e end) _).
  by intros [].
Defined.

(** A collision-free digest: the countable encoding of its input. *)
Definition ideal_hash (x : HashInput) : bytes := [Z.pos (encode x)].

Lemma ideal_hash_inj : Inj (=) (=) ideal_hash.
Proof. intros x y H. apply (inj encode). by injection H. Qed.

Definition demo_sp : SamplingParams :=
  {| sp_max_tokens := Some 16; min_tokens := 0; eos_token_id := None; stop_token_ids := None;
     repetition_detection := None; sp_skip_reading_prefix_cache := None |}.

(** A text request, with an optional LoRA adapter and cache salt. *)
Definition demo_request (toks : list Z) (mm : list MultiModalFeatureSpec) (lora : option LoRARequest)
    (salt : option string) (hasher : option BlockHasher) : result Request :=
  new_request 0 "req" (Some toks) (Some demo_sp) None 0 None None mm lora salt 0 false hasher.

Definition feature (ident : string) (off len : Z) : MultiModalFeatureSpec :=
  {| identifier := Some ident;
     mm_position := {| offset := off; length_ := len; is_embed := None |} |}.

Definition ideal_hasher : BlockHasher := request_block_hasher ideal_hash (@concat Z) "seed" 4.

Definition demo_mm_prompt : list MultiModalFeatureSpec := [feature "a" 1 2; feature "b" 5 2].

Lemma incremental_hashing_from_scratch_witness :
  ∃ r r' r'', demo_request [1; 9; 9; 2; 3; 9] demo_mm_prompt None None (Some ideal_hasher) = Ok r ∧
    foldM (λ r toks, append_output_token_ids (Some ideal_hasher) toks r) r [[9; 5]; [6]; [7; 8; 9]] = Ok r' ∧
    all_token_ids r' = all_token_ids r ++ [9; 5; 6; 7; 8; 9] ∧
    ideal_hasher (set_block_hashes [] r') = Ok (block_hashes r', r'').
Proof.
  destruct (demo_request [1; 9; 9; 2; 3; 9] demo_mm_prompt None None (Some ideal_hasher)) as [r|e] eqn:E;
    [|vm_compute in E; discriminate E].
  exists r.
  assert (Hr : num_tokens r = 6).
  { assert (Some (num_tokens r) = Some 6) as H; [|by injection H].
    transitivity (match demo_request [1; 9; 9; 2; 3; 9] demo_mm_prompt None None (Some ideal_hasher) with
                  | Ok r => Some (num_tokens r) | Err _ => None end); [by rewrite E|by vm_compute]. }
  pose proof E as Hnew. unfold demo_request, ideal_hasher in Hnew.
  destruct (incremental_hashing_from_scratch ideal_hash (@concat Z) "seed" 4 ltac:(lia)
    _ _ _ _ _ _ _ _ _ _ _ _ _ r [[9; 5]; [6]; [7; 8; 9]] Hnew) as (r' & r'' & ? & ? & ?).
  - repeat constructor; simpl; eauto; lia.
  - rewrite Hr. repeat constructor; vm_compute; discriminate.
  - exists r', r''. eauto.
Defined.

Definition text_request (toks : list Z) : Request :=
  {| py_id := 0; request_id := "req"; priority := 0; arrival_time := 0; status := WAITING;
     stop_reason := None; sampling_params := Some demo_sp; pooling_params := None;
     lora_request := None; max_tokens := 16; prompt_embeds := None;
     prompt_embeds_per_block_hashes := ∅; num_prompt_tokens := py_len toks;
     output_token_ids := []; all_token_ids := toks; num_output_placeholders := 0;
     num_in_flight_tokens := 0; spec_token_ids := []; num_computed_tokens := 0;
     cache_salt := None; mm_features := []; shared_prefix_boundary := 0; num_preemptions := 0;
     block_hashes := []; skip_reading_prefix_cache := false; num_stale_output_tokens := 0;
     drop_stale_output := false; next_decode_eligible_step := 0; is_prefill_chunk := false |}.

Lemma block_hash_determines_prefix_witness :
  ∃ hs1 hs2 r1 r2 v1 v2 h,
    request_block_hasher ideal_hash (@concat Z) "seed" 2 (text_request [1; 2; 3; 4; 5]) = Ok (hs1, r1) ∧
    request_block_hasher ideal_hash (@concat Z) "seed" 2 (text_request [1; 2; 3; 4; 6; 7]) = Ok (hs2, r2) ∧
    resolve_block_hashes (RawHashes hs1) 2 4 false None = Ok v1 ∧
    resolve_block_hashes (RawHashes hs2) 2 4 false None = Ok v2 ∧
    hl_get v1 0 = Ok h ∧ hl_get v2 0 = Ok h ∧
    take 4 (all_token_ids (text_request [1; 2; 3; 4; 5]))
    = take 4 (all_token_ids (text_request [1; 2; 3; 4; 6; 7])).
Proof.
  do 7 eexists. split_and!; [reflexivity|reflexivity|reflexivity|reflexivity|reflexivity|reflexivity|].
  destruct (block_hash_determines_prefix ideal_hash (@concat Z) "seed" ideal_hash_inj ltac:(done) 2 ltac:(lia)
    (text_request [1; 2; 3; 4; 5]) (text_request [1; 2; 3; 4; 6; 7]) _ _ _ _ 4 _ _ 0 0 _
    ltac:(constructor) ltac:(constructor) ltac:(by intros ???) ltac:(by intros ???)
    eq_refl eq_refl eq_refl eq_refl ltac:(lia) eq_refl eq_refl ltac:(lia) ltac:(lia) eq_refl eq_refl)
    as (_ & H & _).
  exact H.
Defined.

(** A prompt of six tokens whose unfinished second block holds two one-token
    items, completed by two generated tokens. *)
Definition two_items_in_tail (hasher : BlockHasher) (ident : string) : result Request :=
  r ← demo_request [1; 2; 3; 4; 9; 9] [feature ident 4 1; feature "b" 5 1] None None (Some hasher);
  append_output_token_ids (Some hasher) [7; 8] r.

(** The hash of a block completed by generated tokens is resumed at the
    last multimodal item only.  When the unfinished block of the prompt holds
    two items, the identifier of the first one does not enter the hash: for
    every digest function two requests that differ in that item get the same
    block hashes, although the extra keys of the block differ. *)
Theorem mm_tail_collision (hash_fn : HashInput → bytes) (sha256_rows : list bytes → bytes)
    (seed : string) :
  ∃ r1 r2,
    two_items_in_tail (request_block_hasher hash_fn sha256_rows seed 4) "cat" = Ok r1 ∧
    two_items_in_tail (request_block_hasher hash_fn sha256_rows seed 4) "dog" = Ok r2 ∧
    block_hashes r1 = block_hashes r2 ∧ py_len (block_hashes r1) = 2 ∧
    extra_keys_ref sha256_rows r1 4 8 ≠ extra_keys_ref sha256_rows r2 4 8.
Proof. do 2 eexists. split_and!; [reflexivity..|]. by vm_compute. Qed.

(** Extra keys carry no tag: the name of a LoRA adapter and a cache salt
    are plain strings of the same tuple, so for every digest function a request
    for the adapter [x] and a request of the base model salted with [x] share
    the hash of the first block. *)
Theorem lora_salt_collision (hash_fn : HashInput → bytes) (sha256_rows : list bytes → bytes)
    (seed : string) (x : string) :
  x ≠ EmptyString →
  ∃ r1 r2,
    demo_request [1; 2; 3; 4] [] (Some {| lora_name := x; lora_int_id := 1 |}) None
      (Some (request_block_hasher hash_fn sha256_rows seed 4)) = Ok r1 ∧
    demo_request [1; 2; 3; 4] [] None (Some x)
      (Some (request_block_hasher hash_fn sha256_rows seed 4)) = Ok r2 ∧
    block_hashes r1 = block_hashes r2 ∧ py_len (block_hashes r1) = 1.
Proof.
  intros Hx. destruct x as [|c x]; [done|].
  do 2 eexists. split_and!; reflexivity.
Qed.

Lemma lora_salt_collision_witness :
  ∃ r1 r2,
    demo_request [1; 2; 3; 4] [] (Some {| lora_name := "x"; lora_int_id := 1 |}) None (Some ideal_hasher) = Ok r1 ∧
    demo_request [1; 2; 3; 4] [] None (Some "x") (Some ideal_hasher) = Ok r2 ∧
    block_hashes r1 = block_hashes r2 ∧ py_len (block_hashes r1) = 1.
Proof. apply (lora_salt_collision ideal_hash (@concat Z) "seed" "x"). discriminate. Defined.
