(* ===== verification/BlockMap.v ===== *)
(** * The prefix-cache index

    [vllm/vllm/v1/core/block_pool.py]: [BlockHashToBlockMap], the dictionary
    from packed hash keys to the cached block, or to a dictionary of the blocks
    with that key.  [contents] is the multimap it stands for; the lemmas state
    every operation as an operation on the multimap. *)

From S2P Require Import Prelude FreeQueue.
Local Open Scope Z_scope.

(** [KVCacheBlock | dict[int, KVCacheBlock]] *)
Inductive KVCacheBlocks : Type :=
  | OneBlock (block : ref)
  | ManyBlocks (blocks : list (Z * ref)).

Abbreviation BlockHashToBlockMap := (gmap bytes KVCacheBlocks).

(** [next(iter(blocks.values()))] raises on an empty dictionary. *)
Definition get_one_block (key : bytes) (cache : BlockHashToBlockMap) : result (option ref) :=
  match cache !! key with
  | None => Ok None
  | Some (OneBlock b) => Ok (Some b)
  | Some (ManyBlocks ((_, b) :: _)) => Ok (Some b)
  | Some (ManyBlocks []) => Err RuntimeError
  end.

Definition contain (key : bytes) (id : Z) (cache : BlockHashToBlockMap) : bool :=
  match cache !! key with
  | None => false
  | Some (OneBlock b) => block_id b =? id
  | Some (ManyBlocks bs) => bool_decide (id ∈ od_keys bs)
  end.

Definition map_insert (key : bytes) (block : ref) (cache : BlockHashToBlockMap) : BlockHashToBlockMap :=
  match cache !! key with
  | None => <[key := OneBlock block]> cache
  | Some (OneBlock b) =>
      <[key := ManyBlocks (od_set [(block_id b, b)] (block_id block) block)]> cache
  | Some (ManyBlocks bs) => <[key := ManyBlocks (od_set bs (block_id block) block)]> cache
  end.

Definition map_pop (key : bytes) (id : Z) (cache : BlockHashToBlockMap) :
    option ref * BlockHashToBlockMap :=
  match cache !! key with
  | None => (None, cache)
  | Some (OneBlock b) =>
      if block_id b =? id then (Some b, delete key cache) else (None, cache)
  | Some (ManyBlocks bs) =>
      let bs' := od_del bs id in
      (od_get bs id,
       match bs' with [] => delete key cache | _ => <[key := ManyBlocks bs']> cache end)
  end.

(** ** The multimap *)

Definition blocks_of (c : KVCacheBlocks) : list ref :=
  match c with OneBlock b => [b] | ManyBlocks bs => bs.*2 end.

Definition contents (cache : BlockHashToBlockMap) (key : bytes) : list ref :=
  match cache !! key with Some c => blocks_of c | None => [] end.

(** A dictionary entry maps the id of a pool block to that block. *)
Definition entry_ok (e : Z * ref) : Prop := ∃ i, e.2 = Blk i ∧ e.1 = Z.of_nat i.

Definition blocks_ok (c : KVCacheBlocks) : Prop :=
  match c with
  | OneBlock b => ∃ i, b = Blk i
  | ManyBlocks bs => bs ≠ [] ∧ NoDup (od_keys bs) ∧ Forall entry_ok bs
  end.

Definition map_ok (cache : BlockHashToBlockMap) : Prop := map_Forall (λ _, blocks_ok) cache.

Section Multimap.
Implicit Types (m : BlockHashToBlockMap) (k : bytes) (d : list (Z * ref)).

Lemma map_ok_lookup m k c : map_ok m → m !! k = Some c → blocks_ok c.
Proof. intros Hm. apply Hm. Qed.

Lemma contents_insert m k c k' :
  contents (<[k := c]> m) k' = if decide (k' = k) then blocks_of c else contents m k'.
Proof.
  unfold contents. destruct (decide (k' = k)) as [->|].
  - by rewrite lookup_insert_eq.
  - by rewrite lookup_insert_ne.
Qed.

Lemma contents_delete m k k' :
  contents (delete k m) k' = if decide (k' = k) then [] else contents m k'.
Proof.
  unfold contents. destruct (decide (k' = k)) as [->|].
  - by rewrite lookup_delete_eq.
  - by rewrite lookup_delete_ne.
Qed.

(** In a well-formed dictionary a block is a value exactly when its id is a key. *)
Lemma entry_id_in d i : Forall entry_ok d → Blk i ∈ d.*2 ↔ Z.of_nat i ∈ od_keys d.
Proof.
  intros Hd. unfold od_keys. rewrite !list_elem_of_fmap. rewrite Forall_forall in Hd. split.
  - intros ([z r] & Hr & Hin). simpl in Hr. subst.
    destruct (Hd _ Hin) as (j & Hj & Hz). simpl in *. simplify_eq. by exists (Z.of_nat j, Blk j).
  - intros ([z r] & Hz & Hin). simpl in Hz. subst.
    destruct (Hd _ Hin) as (j & Hj & Hz). simpl in *. assert (i = j) as -> by lia.
    exists (Z.of_nat j, r). by split.
Qed.

Lemma contents_blk m k r : map_ok m → r ∈ contents m k → ∃ i, r = Blk i.
Proof.
  intros Hm. unfold contents. destruct (m !! k) as [c|] eqn:Hk; [|by intros ?%elem_of_nil].
  pose proof (map_ok_lookup _ _ _ Hm Hk) as Hc. destruct c as [b|d]; simpl.
  - intros ->%list_elem_of_singleton. done.
  - destruct Hc as (_ & _ & Hd). rewrite list_elem_of_fmap. intros (e & -> & He).
    rewrite Forall_forall in Hd. destruct (Hd _ He) as (i & ? & _). eauto.
Qed.

Lemma contents_nodup m k : map_ok m → NoDup (contents m k).
Proof.
  intros Hm. unfold contents. destruct (m !! k) as [c|] eqn:Hk; [|constructor].
  pose proof (map_ok_lookup _ _ _ Hm Hk) as Hc. destruct c as [b|d]; simpl.
  - apply NoDup_singleton.
  - destruct Hc as (_ & Hnd & Hd). clear Hk Hm. induction d as [|[z r] d IH]; [constructor|].
    apply Forall_cons in Hd as [(i & Hr & Hz) Hd]. simpl in *. subst.
    apply NoDup_cons in Hnd as [Hz Hnd]. apply NoDup_cons. split; [|by apply IH].
    change (Blk i ∉ d.*2). by rewrite entry_id_in.
Qed.

Lemma contents_nonempty m k c : map_ok m → m !! k = Some c → contents m k ≠ [].
Proof.
  intros Hm Hk. unfold contents. rewrite Hk. apply (map_ok_lookup _ _ _ Hm) in Hk.
  destruct c as [b|[|e d]]; simpl in *; naive_solver.
Qed.

(** [get_one_block] returns the block inserted first. *)
Lemma get_one_block_spec m k : map_ok m → get_one_block k m = Ok (head (contents m k)).
Proof.
  intros Hm. unfold get_one_block, contents. destruct (m !! k) as [c|] eqn:Hk; [|done].
  apply (map_ok_lookup _ _ _ Hm) in Hk.
  destruct c as [b|[|[z r] d]]; [done|destruct Hk; done|done].
Qed.

Lemma contain_spec m k i : map_ok m → contain k (Z.of_nat i) m = true ↔ Blk i ∈ contents m k.
Proof.
  intros Hm. unfold contain, contents. destruct (m !! k) as [c|] eqn:Hk.
  2: { split; [done|by intros ?%elem_of_nil]. }
  apply (map_ok_lookup _ _ _ Hm) in Hk. destruct c as [b|d]; simpl.
  - destruct Hk as [j ->]. simpl. rewrite list_elem_of_singleton, Z.eqb_eq.
    split; [intros ?; f_equal; lia|by intros [= ->]].
  - rewrite bool_decide_eq_true. symmetry. apply entry_id_in, Hk.
Qed.

Lemma od_set_entries d i :
  Forall entry_ok d →
  od_set d (Z.of_nat i) (Blk i) =
  if decide (Blk i ∈ d.*2) then d else d ++ [(Z.of_nat i, Blk i)].
Proof.
  intros Hd. case_decide as Hi; [|by apply od_set_new; rewrite <-entry_id_in].
  apply (entry_id_in _ _ Hd) in Hi. induction d as [|[z r] d IH]; simpl in *; [by apply elem_of_nil in Hi|].
  apply Forall_cons in Hd as [(j & Hr & Hz) Hd]. simpl in *. subst.
  case_decide as Hij; [assert (i = j) as -> by lia; done|].
  f_equal. apply IH; [done|]. by apply elem_of_cons in Hi as [|].
Qed.

(** One dictionary that stands for the blocks of the key, whatever their
    representation. *)
Lemma insert_as_dict m k i c :
  map_ok m → m !! k = Some c →
  ∃ d, blocks_ok (ManyBlocks d) ∧ contents m k = d.*2 ∧
    map_insert k (Blk i) m = <[k := ManyBlocks (od_set d (Z.of_nat i) (Blk i))]> m.
Proof.
  intros Hm Hk. unfold map_insert, contents. rewrite Hk.
  pose proof (map_ok_lookup _ _ _ Hm Hk) as Hok. destruct c as [b|d]; [|by exists d].
  destruct Hok as [j ->]. exists [(Z.of_nat j, Blk j)].
  split; [|done]. split_and!; [done|..].
  - apply NoDup_singleton.
  - apply Forall_singleton. by exists j.
Qed.

Lemma dict_snoc_ok d i :
  blocks_ok (ManyBlocks d) → Blk i ∉ d.*2 → blocks_ok (ManyBlocks (d ++ [(Z.of_nat i, Blk i)])).
Proof.
  intros (Hne & Hnd & Hd) Hi. split_and!.
  - by destruct d.
  - unfold od_keys. rewrite fmap_app. apply NoDup_app. split_and!; [done| |apply NoDup_singleton].
    intros z Hz ->%list_elem_of_singleton. by apply (entry_id_in _ _ Hd) in Hz.
  - apply Forall_app. split; [done|]. apply Forall_singleton. by exists i.
Qed.

Lemma map_insert_spec m k i :
  map_ok m →
  map_ok (map_insert k (Blk i) m) ∧
  ∀ k', contents (map_insert k (Blk i) m) k' =
        if decide (k' = k)
        then if decide (Blk i ∈ contents m k) then contents m k else contents m k ++ [Blk i]
        else contents m k'.
Proof.
  intros Hm. destruct (m !! k) as [c|] eqn:Hk.
  - destruct (insert_as_dict m k i c Hm Hk) as (d & Hok & Hc & ->). rewrite Hc.
    rewrite od_set_entries by apply Hok. split.
    + apply map_Forall_insert_2; [|done]. case_decide; [done|by apply dict_snoc_ok].
    + intros k'. rewrite contents_insert. destruct (decide (k' = k)); [|done].
      case_decide; [done|]. simpl. by rewrite fmap_app.
  - assert (Hc : contents m k = []) by (unfold contents; by rewrite Hk).
    unfold map_insert. rewrite Hk, Hc, (decide_False (P := Blk i ∈ [])) by apply not_elem_of_nil.
    split; [|apply contents_insert]. apply map_Forall_insert_2; [by exists i|done].
Qed.

Lemma entries_del d i :
  Forall entry_ok d → NoDup (od_keys d) →
  (od_del d (Z.of_nat i)).*2 = filter (λ r, r ≠ Blk i) d.*2 ∧ Forall entry_ok (od_del d (Z.of_nat i)).
Proof.
  induction d as [|[z r] d IH]; intros Hd Hnd; [done|].
  apply Forall_cons in Hd as [(j & Hr & Hz) Hd]. simpl in *. subst.
  apply NoDup_cons in Hnd as [Hj Hnd]. rewrite filter_cons.
  destruct (decide (Z.of_nat i = Z.of_nat j)) as [Hij|Hij].
  - assert (i = j) as <- by lia. rewrite decide_False by auto.
    split; [|done]. symmetry. apply filter_ne_id.
    by rewrite entry_id_in.
  - rewrite decide_True by (intros [= ->]; done). simpl.
    destruct (IH Hd Hnd) as [He ?]. split; [by f_equal|]. constructor; [|done]. by exists j.
Qed.

Lemma od_get_entries d i :
  Forall entry_ok d →
  od_get d (Z.of_nat i) = if decide (Blk i ∈ d.*2) then Some (Blk i) else None.
Proof.
  intros Hd. case_decide as Hi.
  - destruct (od_get d (Z.of_nat i)) as [r|] eqn:Hg.
    + apply od_get_Some_in in Hg. rewrite Forall_forall in Hd.
      destruct (Hd _ Hg) as (j & Hr & Hz). simpl in *. subst. do 2 f_equal. lia.
    + apply od_get_None in Hg. by rewrite <-entry_id_in in Hg.
  - apply od_get_None. by rewrite <-entry_id_in.
Qed.

Lemma map_pop_spec m k i :
  map_ok m →
  let '(res, m') := map_pop k (Z.of_nat i) m in
  res = (if decide (Blk i ∈ contents m k) then Some (Blk i) else None) ∧ map_ok m' ∧
  ∀ k', contents m' k' =
        if decide (k' = k) then filter (λ r, r ≠ Blk i) (contents m k) else contents m k'.
Proof.
  intros Hm. unfold map_pop.
  assert (Hid : ∀ l, l = contents m k → filter (λ r, r ≠ Blk i) l = l →
    ∀ k', contents m k' = if decide (k' = k) then filter (λ r, r ≠ Blk i) (contents m k) else contents m k').
  { intros l -> Hl k'. rewrite Hl. by case_decide; subst. }
  destruct (m !! k) as [c|] eqn:Hk.
  2: { assert (Hc : contents m k = []) by (unfold contents; by rewrite Hk).
       split_and!; [|done|].
       { rewrite Hc, decide_False; [done|]. apply not_elem_of_nil. }
       apply (Hid []); [done|done]. }
  assert (Hc : contents m k = blocks_of c) by (unfold contents; by rewrite Hk).
  pose proof (map_ok_lookup _ _ _ Hm Hk) as Hok. destruct c as [b|d]; simpl in Hok, Hc.
  - destruct Hok as [j ->]. simpl. destruct (Z.eqb_spec (Z.of_nat j) (Z.of_nat i)) as [Hij|Hij].
    + assert (j = i) as -> by lia. rewrite Hc. split_and!.
      * rewrite decide_True by (apply list_elem_of_singleton; done). done.
      * by apply map_Forall_delete.
      * intros k'. rewrite contents_delete, filter_cons_False by auto. done.
    + assert (Blk j ≠ Blk i) by (intros [= ->]; done). split_and!; [|done|].
      * rewrite decide_False; [done|]. rewrite Hc. intros ?%list_elem_of_singleton. congruence.
      * apply (Hid [Blk j]); [done|]. by rewrite filter_cons_True by done.
  - destruct Hok as (Hne & Hnd & Hd). destruct (entries_del d i Hd Hnd) as [Hdel Hdok].
    split_and!; [by rewrite od_get_entries, Hc|..].
    + destruct (od_del d (Z.of_nat i)) as [|e d'] eqn:He; [by apply map_Forall_delete|].
      apply map_Forall_insert_2; [|done]. split_and!; [done| |done].
      rewrite <-He. by apply od_del_NoDup.
    + intros k'. rewrite Hc, <-Hdel.
      destruct (od_del d (Z.of_nat i)) as [|e d'] eqn:He.
      * by rewrite contents_delete.
      * by rewrite contents_insert.
Qed.
End Multimap.

(** ** Refinement *)

Inductive map_op : Type :=
  | MInsert (key : bytes) (i : nat)
  | MPop (key : bytes) (i : nat)
  | MGetOne (key : bytes)
  | MContain (key : bytes) (i : nat).

(** What an operation returns to its caller. *)
Inductive map_ret : Type :=
  | RNone
  | RBlock (b : option ref)
  | RBool (b : bool).

Definition run_map_op (op : map_op) (m : BlockHashToBlockMap) : result (map_ret * BlockHashToBlockMap) :=
  match op with
  | MInsert k i => Ok (RNone, map_insert k (Blk i) m)
  | MPop k i => let '(b, m') := map_pop k (block_id (Blk i)) m in Ok (RBlock b, m')
  | MGetOne k => b ← get_one_block k m; Ok (RBlock b, m)
  | MContain k i => Ok (RBool (contain k (block_id (Blk i)) m), m)
  end.

(** The specification: every key has a list of distinct blocks in the order
    of their insertion. *)
Definition spec_map_op (op : map_op) (M : bytes → list ref) : map_ret * (bytes → list ref) :=
  match op with
  | MInsert k i =>
      (RNone, λ k', if decide (k' = k) then if decide (Blk i ∈ M k) then M k else M k ++ [Blk i] else M k')
  | MPop k i =>
      (RBlock (if decide (Blk i ∈ M k) then Some (Blk i) else None),
       λ k', if decide (k' = k) then filter (λ r, r ≠ Blk i) (M k) else M k')
  | MGetOne k => (RBlock (head (M k)), M)
  | MContain k i => (RBool (bool_decide (Blk i ∈ M k)), M)
  end.

Fixpoint run_map_ops (ops : list map_op) (m : BlockHashToBlockMap) :
    result (list map_ret * BlockHashToBlockMap) :=
  match ops with
  | [] => Ok ([], m)
  | op :: ops' =>
      '(x, m1) ← run_map_op op m;
      '(xs, m2) ← run_map_ops ops' m1;
      Ok (x :: xs, m2)
  end.

Fixpoint spec_map_ops (ops : list map_op) (M : bytes → list ref) : list map_ret * (bytes → list ref) :=
  match ops with
  | [] => ([], M)
  | op :: ops' =>
      let '(x, M1) := spec_map_op op M in
      let '(xs, M2) := spec_map_ops ops' M1 in
      (x :: xs, M2)
  end.

Definition map_refines (m : BlockHashToBlockMap) (M : bytes → list ref) : Prop :=
  map_ok m ∧ ∀ k, contents m k = M k.

Lemma run_map_op_refines op m M :
  map_refines m M →
  ∃ m', run_map_op op m = Ok ((spec_map_op op M).1, m') ∧ map_refines m' (spec_map_op op M).2.
Proof.
  intros [Hm HM]. destruct op as [k i|k i|k|k i]; simpl.
  - destruct (map_insert_spec m k i Hm) as [Hok Hc]. eexists. split; [done|]. split; [done|].
    intros k'. by rewrite Hc, !HM.
  - pose proof (map_pop_spec m k i Hm) as Hp. destruct (map_pop _ _ _) as [b m'].
    destruct Hp as (-> & Hok & Hc). eexists. rewrite HM. split; [done|]. split; [done|].
    intros k'. by rewrite Hc, !HM.
  - rewrite get_one_block_spec, HM by done. by exists m.
  - exists m. split; [|done]. do 3 f_equal. apply eq_bool_prop_intro.
    rewrite bool_decide_spec, <-HM, <-contain_spec by done. by destruct (contain _ _ _).
Qed.

(** From an empty index every sequence of insertions, removals and
    look-ups completes, returns what the multimap returns and leaves the index
    representing the multimap: the union of the single-block and the dictionary
    representation is invisible. *)
Theorem map_refines_multimap ops :
  ∃ m', run_map_ops ops ∅ = Ok ((spec_map_ops ops (λ _, [])).1, m') ∧
        map_refines m' (spec_map_ops ops (λ _, [])).2.
Proof.
  assert (Hgen : ∀ m M, map_refines m M →
    ∃ m', run_map_ops ops m = Ok ((spec_map_ops ops M).1, m') ∧ map_refines m' (spec_map_ops ops M).2).
  { induction ops as [|op ops IH]; intros m M HR; simpl; [by exists m|].
    destruct (run_map_op_refines op m M HR) as (m1 & -> & HR1). simpl.
    destruct (spec_map_op op M) as [x M1]. simpl in *.
    destruct (IH m1 M1 HR1) as (m2 & -> & HR2). simpl.
    destruct (spec_map_ops ops M1) as [xs M2]. simpl in *. by exists m2. }
  apply Hgen. split; [apply map_Forall_empty|done].
Qed.
