(* ===== verification/BlockPool.v ===== *)
(** * The block pool

    [vllm/vllm/v1/core/block_pool.py]: [BlockPool], which allocates, frees,
    caches and evicts the blocks of the KV cache.  The pool owns the block
    objects (the store of its free queue), the prefix-cache index, the extra
    hash keys of each block, the KV-cache events and the metrics hooks. *)

From S2P Require Import Prelude FreeQueue Request BlockHash BlockMap.
From Stdlib Require Import QArith.
Local Open Scope Z_scope.

(** What the pool takes from its environment: the digest of embedding rows,
    the flag [VLLM_KV_EVENTS_USE_INT_BLOCK_HASHES], and the iteration order of
    a Python set, of which only the elements are documented. *)
Class PoolEnv : Type := {
  sha256_rows : list bytes → bytes;
  use_int_block_hashes : bool;
  set_order : gset bytes → list bytes;
  set_order_perm : ∀ X, set_order X ≡ₚ elements X;
}.

(** ** KV-cache events and metrics hooks *)

Inductive KVCacheEvent : Type :=
  | BlockStored (block_hashes : list ExternalBlockHash) (parent_block_hash : option ExternalBlockHash)
      (token_ids : list Z) (block_size : Z) (lora_id : option Z) (medium : string)
      (lora_name : option string) (extra_keys : option (list (option (list ExtraKey)))) (group_idx : Z)
  | BlockRemoved (block_hashes : list ExternalBlockHash) (medium : string) (group_idx : Z)
  | AllBlocksCleared.

Definition MEDIUM_GPU : string := "GPU".

(** A call of the pool to its metrics collector. *)
Inductive MetricsCall : Type :=
  | OnBlockAllocated (id : Z)
  | OnBlockAccessed (id : Z)
  | OnBlockEvicted (id : Z)
  | MetricsReset.

(** ** State *)

Record BlockPool : Type := mkBlockPool {
  num_gpu_blocks : Z;
  enable_caching : bool;
  hash_block_size : Z;
  free_block_queue : FreeQueue;
  cached_block_hash_to_block : BlockHashToBlockMap;
  cached_block_hashes_by_block : gmap Z (gset bytes);
  null_block : ref;
  enable_kv_cache_events : bool;
  kv_event_queue : list KVCacheEvent;
  metrics_collector : option (list MetricsCall);
}.

Definition set_free_block_queue (v : FreeQueue) (p : BlockPool) : BlockPool :=
  {| num_gpu_blocks := num_gpu_blocks p; enable_caching := enable_caching p;
     hash_block_size := hash_block_size p; free_block_queue := v;
     cached_block_hash_to_block := cached_block_hash_to_block p;
     cached_block_hashes_by_block := cached_block_hashes_by_block p;
     null_block := null_block p; enable_kv_cache_events := enable_kv_cache_events p;
     kv_event_queue := kv_event_queue p; metrics_collector := metrics_collector p |}.

Definition set_cache (v : BlockHashToBlockMap) (p : BlockPool) : BlockPool :=
  {| num_gpu_blocks := num_gpu_blocks p; enable_caching := enable_caching p;
     hash_block_size := hash_block_size p; free_block_queue := free_block_queue p;
     cached_block_hash_to_block := v;
     cached_block_hashes_by_block := cached_block_hashes_by_block p;
     null_block := null_block p; enable_kv_cache_events := enable_kv_cache_events p;
     kv_event_queue := kv_event_queue p; metrics_collector := metrics_collector p |}.

Definition set_hashes_by_block (v : gmap Z (gset bytes)) (p : BlockPool) : BlockPool :=
  {| num_gpu_blocks := num_gpu_blocks p; enable_caching := enable_caching p;
     hash_block_size := hash_block_size p; free_block_queue := free_block_queue p;
     cached_block_hash_to_block := cached_block_hash_to_block p;
     cached_block_hashes_by_block := v;
     null_block := null_block p; enable_kv_cache_events := enable_kv_cache_events p;
     kv_event_queue := kv_event_queue p; metrics_collector := metrics_collector p |}.

Definition set_kv_event_queue (v : list KVCacheEvent) (p : BlockPool) : BlockPool :=
  {| num_gpu_blocks := num_gpu_blocks p; enable_caching := enable_caching p;
     hash_block_size := hash_block_size p; free_block_queue := free_block_queue p;
     cached_block_hash_to_block := cached_block_hash_to_block p;
     cached_block_hashes_by_block := cached_block_hashes_by_block p;
     null_block := null_block p; enable_kv_cache_events := enable_kv_cache_events p;
     kv_event_queue := v; metrics_collector := metrics_collector p |}.

(** [if self.metrics_collector: self.metrics_collector.<call>] *)
Definition notify (c : MetricsCall) (p : BlockPool) : BlockPool :=
  {| num_gpu_blocks := num_gpu_blocks p; enable_caching := enable_caching p;
     hash_block_size := hash_block_size p; free_block_queue := free_block_queue p;
     cached_block_hash_to_block := cached_block_hash_to_block p;
     cached_block_hashes_by_block := cached_block_hashes_by_block p;
     null_block := null_block p; enable_kv_cache_events := enable_kv_cache_events p;
     kv_event_queue := kv_event_queue p;
     metrics_collector := (λ calls, calls ++ [c]) <$> metrics_collector p |}.

(** ** Block objects *)

Definition with_ref_cnt (f : Z → Z) (b : KVCacheBlock) : KVCacheBlock :=
  {| ref_cnt := f (ref_cnt b); block_hash := block_hash b;
     block_hash_num_tokens := block_hash_num_tokens b; prev_free_block := prev_free_block b;
     next_free_block := next_free_block b; is_null := is_null b |}.

Definition with_hash (h : option bytes) (n : option Z) (b : KVCacheBlock) : KVCacheBlock :=
  {| ref_cnt := ref_cnt b; block_hash := h; block_hash_num_tokens := n;
     prev_free_block := prev_free_block b; next_free_block := next_free_block b;
     is_null := is_null b |}.

Definition with_is_null (v : bool) (b : KVCacheBlock) : KVCacheBlock :=
  {| ref_cnt := ref_cnt b; block_hash := block_hash b;
     block_hash_num_tokens := block_hash_num_tokens b; prev_free_block := prev_free_block b;
     next_free_block := next_free_block b; is_null := v |}.

(** The object a reference denotes. *)
Definition blk (p : BlockPool) (r : ref) : KVCacheBlock :=
  default new_block (fq_store (free_block_queue p) !! r).

(** An attribute write on the object. *)
Definition update_block (f : KVCacheBlock → KVCacheBlock) (r : ref) (p : BlockPool) : BlockPool :=
  let q := free_block_queue p in
  set_free_block_queue {| fq_store := alter f r (fq_store q); num_free_blocks := num_free_blocks q |} p.

Definition set_block_hash (h : bytes) (num_tokens : option Z) (r : ref) (p : BlockPool) : result BlockPool :=
  _ ← py_assert (bool_decide (block_hash (blk p r) = None) &&
                 bool_decide (block_hash_num_tokens (blk p r) = None));
  Ok (update_block (with_hash (Some h) num_tokens) r p).

Definition reset_hash (r : ref) (p : BlockPool) : BlockPool := update_block (with_hash None None) r p.

(** [self.blocks] *)
Definition pool_blocks (p : BlockPool) : list ref := Blk <$> seq 0 (Z.to_nat (num_gpu_blocks p)).

Definition get_num_free_blocks (p : BlockPool) : Z := num_free_blocks (free_block_queue p).

(** ** Operations *)

(** [BlockPool.__init__] *)
Definition new_block_pool (n : Z) (caching : bool) (hbs : Z) (events : bool)
    (metrics : option (list MetricsCall)) : result BlockPool :=
  _ ← py_assert (0 <? n);
  let refs := Blk <$> seq 0 (Z.to_nat n) in
  let s := foldl (λ s r, <[r := new_block]> s) (∅ : store) refs in
  '(null, q) ← popleft (init_queue refs s);
  Ok (update_block (with_is_null true) null
    {| num_gpu_blocks := n; enable_caching := caching; hash_block_size := hbs;
       free_block_queue := q; cached_block_hash_to_block := ∅;
       cached_block_hashes_by_block := ∅; null_block := null;
       enable_kv_cache_events := events; kv_event_queue := []; metrics_collector := metrics |}).

Fixpoint get_cached_block (h : bytes) (kv_cache_group_ids : list Z) (p : BlockPool) :
    result (option (list ref)) :=
  match kv_cache_group_ids with
  | [] => Ok (Some [])
  | g :: gs =>
      key ← make_block_hash_with_group_id h g;
      b ← get_one_block key (cached_block_hash_to_block p);
      match b with
      | None => Ok None
      | Some b => rest ← get_cached_block h gs p; Ok (option_map (cons b) rest)
      end
  end.

Section Pool.
Context `{PoolEnv}.

Definition convert : bytes → ExternalBlockHash := maybe_convert_block_hash use_int_block_hashes.

(** The loop of [_remove_cached_block_hashes]: [pop] every key. *)
Definition pop_hashes (id : Z) (hs : list bytes) (m : BlockHashToBlockMap) :
    list bytes * BlockHashToBlockMap :=
  foldl (λ acc h, let '(removed, m) := acc in
           let '(b, m') := map_pop h id m in
           (match b with Some _ => removed ++ [h] | None => removed end, m')) ([], m) hs.

Definition _remove_cached_block_hashes (r : ref) (p : BlockPool) : list bytes * BlockPool :=
  let extra := cached_block_hashes_by_block p !! block_id r in
  let hs := match block_hash (blk p r) with Some h => [h] | None => [] end
            ++ match extra with Some X => set_order X | None => [] end in
  let p1 := set_hashes_by_block (delete (block_id r) (cached_block_hashes_by_block p)) p in
  match hs with
  | [] => ([], p1)
  | _ =>
      let '(removed, m) := pop_hashes (block_id r) hs (cached_block_hash_to_block p1) in
      (removed, reset_hash r (set_cache m p1))
  end.

Definition _emit_block_removed_events (hs : list bytes) (p : BlockPool) : BlockPool :=
  if enable_kv_cache_events p then
    set_kv_event_queue
      (kv_event_queue p ++
       ((λ h, BlockRemoved [convert (get_block_hash h)] MEDIUM_GPU (get_group_id h)) <$> hs)) p
  else p.

Definition _insert_block_hash (key : bytes) (r : ref) (num_tokens : option Z) (p : BlockPool) :
    result BlockPool :=
  if bool_decide (block_hash (blk p r) = Some key) then Ok p
  else if contain key (block_id r) (cached_block_hash_to_block p) then Ok p
  else
    p1 ← match block_hash (blk p r) with
         | None => set_block_hash key num_tokens r p
         | Some _ =>
             let X := default ∅ (cached_block_hashes_by_block p !! block_id r) in
             Ok (set_hashes_by_block
                   (<[block_id r := X ∪ {[key]}]> (cached_block_hashes_by_block p)) p)
         end;
    Ok (set_cache (map_insert key r (cached_block_hash_to_block p1)) p1).

Definition _build_block_stored_event (req : Request) (hs : list ExternalBlockHash)
    (parent : option ExternalBlockHash) (start_token_idx end_token_idx block_size gid : Z)
    (extra_keys_list : list (option (list ExtraKey))) : KVCacheEvent :=
  BlockStored hs parent (py_slice (all_token_ids req) start_token_idx end_token_idx) block_size
    (lora_int_id <$> lora_request req) MEDIUM_GPU (lora_name <$> lora_request req)
    (match extra_keys_list with [] => None | _ => Some extra_keys_list end) gid.

(** [block_mask is not None and not block_mask[i]] *)
Definition masked_out (mask : option (list bool)) (i : Z) : result bool :=
  match mask with None => Ok false | Some m => b ← py_get m i; Ok (negb b) end.

(** One iteration of the first loop of [cache_full_blocks]. *)
Definition cache_full_step (new_block_hashes : list bytes) (num_cached_blocks block_size gid : Z)
    (mask : option (list bool)) (st : BlockPool * list ExternalBlockHash) (ib : nat * ref) :
    result (BlockPool * list ExternalBlockHash) :=
  let '(p, new_hashes) := st in
  let '(i, r) := ib in
  skip ← (if is_null (blk p r) then Ok true else masked_out mask (Z.of_nat i));
  if skip : bool then Ok st
  else
    h ← py_get new_block_hashes (Z.of_nat i);
    let num_hash_tokens := (num_cached_blocks + Z.of_nat i + 1) * block_size in
    key ← make_block_hash_with_group_id h gid;
    p1 ← match block_hash (blk p r) with
         | None => Ok p
         | Some _ =>
             _ ← py_assert (match block_hash_num_tokens (blk p r) with
                            | Some n => n <? num_hash_tokens | None => false end);
             let '(removed, p') := _remove_cached_block_hashes r p in
             Ok (_emit_block_removed_events removed p')
         end;
    p2 ← _insert_block_hash key r (Some num_hash_tokens) p1;
    Ok (p2, new_hashes ++ [convert h]).

(** One iteration of the extra-key loop of [cache_full_blocks]. *)
Definition extra_keys_step (p : BlockPool) (blocks : list ref) (num_cached_blocks block_size : Z)
    (mask : option (list bool)) (st : list (option (list ExtraKey)) * Z * Request) (i : Z) :
    result (list (option (list ExtraKey)) * Z * Request) :=
  let '(keys, curr_mm_idx, req) := st in
  r ← py_get blocks i;
  skip ← (if is_null (blk p r) then Ok true else masked_out mask (i - num_cached_blocks));
  if skip : bool then Ok st
  else
    '(k, mm_idx, req') ←
      generate_block_hash_extra_keys sha256_rows req (i * block_size) (i * block_size + block_size)
        curr_mm_idx;
    Ok (keys ++ [k], mm_idx, req').

Definition cache_full_blocks (req : Request) (blocks : list ref)
    (num_cached_blocks num_full_blocks block_size gid : Z) (mask : option (list bool))
    (p : BlockPool) : result (BlockPool * Request) :=
  if num_full_blocks <=? num_cached_blocks then Ok (p, req)
  else
    let new_full_blocks := py_slice blocks num_cached_blocks num_full_blocks in
    _ ← py_assert (match mask with None => true | Some m => py_len m =? py_len new_full_blocks end);
    hl ← resolve_block_hashes (RawHashes (block_hashes req)) (hash_block_size p) block_size false None;
    new_block_hashes ← hl_from hl num_cached_blocks;
    '(p1, new_hashes) ←
      foldM (cache_full_step new_block_hashes num_cached_blocks block_size gid mask)
        (p, []) (imap pair new_full_blocks);
    if enable_kv_cache_events p1 then
      parent ← (if num_cached_blocks =? 0 then Ok None
                else h ← hl_get hl (num_cached_blocks - 1); Ok (Some (convert h)));
      '(keys, _, req') ←
        foldM (extra_keys_step p1 blocks num_cached_blocks block_size mask)
          ([], 0, req) (py_range num_cached_blocks num_full_blocks);
      let ev := _build_block_stored_event req' new_hashes parent (num_cached_blocks * block_size)
                  (num_full_blocks * block_size) block_size gid keys in
      Ok (set_kv_event_queue (kv_event_queue p1 ++ [ev]) p1, req')
    else Ok (p1, req).

(** One iteration of the loop of [emit_cached_block_events]. *)
Definition cached_event_step (hl : BlockHashList) (block_size : Z)
    (st : list ExternalBlockHash * list (option (list ExtraKey)) * Z * Request) (i : Z) :
    result (list ExternalBlockHash * list (option (list ExtraKey)) * Z * Request) :=
  let '(hs, keys, curr_mm_idx, req) := st in
  h ← hl_get hl i;
  '(k, mm_idx, req') ←
    generate_block_hash_extra_keys sha256_rows req (i * block_size) (i * block_size + block_size)
      curr_mm_idx;
  Ok (hs ++ [convert h], keys ++ [k], mm_idx, req').

Definition emit_cached_block_events (req : Request) (num_cached_blocks block_size gid : Z)
    (p : BlockPool) : result (BlockPool * Request) :=
  if negb (enable_kv_cache_events p) || (num_cached_blocks =? 0) then Ok (p, req)
  else
    hl ← resolve_block_hashes (RawHashes (block_hashes req)) (hash_block_size p) block_size false None;
    '(hs, keys, _, req') ←
      foldM (cached_event_step hl block_size) ([], [], 0, req) (py_range 0 num_cached_blocks);
    match hs with
    | [] => Ok (p, req')
    | _ =>
        let ev := _build_block_stored_event req' hs None 0 (num_cached_blocks * block_size)
                    block_size gid keys in
        Ok (set_kv_event_queue (kv_event_queue p ++ [ev]) p, req')
    end.

Definition _get_partial_block_hash (req : Request) (num_tokens : Z) (p : BlockPool) : result bytes :=
  _ ← py_assert (num_tokens mod hash_block_size p =? 0);
  let num_hash_blocks := num_tokens / hash_block_size p in
  _ ← py_assert ((0 <? num_hash_blocks) && (num_hash_blocks <=? py_len (block_hashes req)));
  py_get (block_hashes req) (num_hash_blocks - 1).

Definition _get_partial_block_parent_hash_and_start (req : Request) (num_tokens : Z) (p : BlockPool) :
    result (option bytes * Z) :=
  let num_hash_blocks := num_tokens / hash_block_size p in
  parent ← (if 1 <? num_hash_blocks
            then h ← py_get (block_hashes req) (num_hash_blocks - 2); Ok (Some h) else Ok None);
  Ok (parent, (num_hash_blocks - 1) * hash_block_size p).

Definition cache_partial_block (req : Request) (r : ref) (num_tokens gid block_size : Z)
    (p : BlockPool) : result (option bytes * BlockPool * Request) :=
  if is_null (blk p r) then Ok (None, p, req)
  else
    _ ← py_assert (hash_block_size p <? block_size);
    _ ← py_assert (block_size mod hash_block_size p =? 0);
    _ ← py_assert (negb (num_tokens mod block_size =? 0));
    h ← _get_partial_block_hash req num_tokens p;
    let num_hash_tokens := num_tokens / hash_block_size p * hash_block_size p in
    key ← make_block_hash_with_group_id h gid;
    let already_cached := bool_decide (block_hash (blk p r) = Some key) ||
                          contain key (block_id r) (cached_block_hash_to_block p) in
    let p1 :=
      match block_hash (blk p r), block_hash_num_tokens (blk p r) with
      | Some _, Some n =>
          if negb already_cached && (n <? num_hash_tokens) then
            let '(removed, p') := _remove_cached_block_hashes r p in
            _emit_block_removed_events removed p'
          else p
      | _, _ => p
      end in
    p2 ← _insert_block_hash key r (Some num_hash_tokens) p1;
    if enable_kv_cache_events p2 && negb already_cached then
      '(parent, block_start) ← _get_partial_block_parent_hash_and_start req num_tokens p2;
      '(k, _, req') ←
        generate_block_hash_extra_keys sha256_rows req block_start num_tokens
          (if 0 <? block_start then -1 else 0);
      let ev := BlockStored [convert h] (convert <$> parent)
                  (py_slice (all_token_ids req') block_start num_tokens) (num_tokens - block_start)
                  (lora_int_id <$> lora_request req') MEDIUM_GPU (lora_name <$> lora_request req')
                  (Some [k]) gid in
      Ok (Some key, set_kv_event_queue (kv_event_queue p2 ++ [ev]) p2, req')
    else Ok (Some key, p2, req).

Definition move_block_hashes (src dst : ref) (p : BlockPool) : result BlockPool :=
  _ ← py_assert (bool_decide (block_hash (blk p dst) = None));
  _ ← py_assert (bool_decide (cached_block_hashes_by_block p !! block_id dst = None));
  let num_tokens := block_hash_num_tokens (blk p src) in
  let '(hs, p1) := _remove_cached_block_hashes src p in
  foldM (λ p h, _insert_block_hash h dst num_tokens p) p1 hs.

Definition _maybe_evict_cached_block (r : ref) (p : BlockPool) : bool * BlockPool :=
  let p1 := notify (OnBlockEvicted (block_id r)) p in
  match _remove_cached_block_hashes r p1 with
  | ([], p2) => (false, p2)
  | (hs, p2) => (true, _emit_block_removed_events hs p2)
  end.

(** One iteration of the loops of [get_new_blocks]. *)
Definition alloc_step (p : BlockPool) (r : ref) : result BlockPool :=
  let p1 := if enable_caching p then (_maybe_evict_cached_block r p).2 else p in
  _ ← py_assert (ref_cnt (blk p1 r) =? 0);
  Ok (notify (OnBlockAllocated (block_id r)) (update_block (with_ref_cnt (λ n, n + 1)) r p1)).

Definition get_new_blocks (num_blocks : Z) (p : BlockPool) : result (list ref * BlockPool) :=
  if get_num_free_blocks p <? num_blocks then Err ValueError
  else
    '(ret, q) ← popleft_n num_blocks (free_block_queue p);
    p' ← foldM alloc_step (set_free_block_queue q p) ret;
    Ok (ret, p').

Definition touch_step (p : BlockPool) (r : ref) : result BlockPool :=
  p1 ← (if (ref_cnt (blk p r) =? 0) && negb (is_null (blk p r)) then
          q ← remove r (free_block_queue p); Ok (set_free_block_queue q p)
        else Ok p);
  Ok (notify (OnBlockAccessed (block_id r)) (update_block (with_ref_cnt (λ n, n + 1)) r p1)).

Definition touch (blocks : list ref) (p : BlockPool) : result BlockPool := foldM touch_step p blocks.

Definition is_block_writable (r : ref) (p : BlockPool) : bool :=
  negb (is_null (blk p r)) && (ref_cnt (blk p r) =? 1) && bool_decide (block_hash (blk p r) = None).

(** One iteration of [free_blocks]: the blocks to evict first and last. *)
Definition free_step (st : BlockPool * list ref * list ref) (r : ref) : BlockPool * list ref * list ref :=
  let '(p, first, last) := st in
  let p1 := update_block (with_ref_cnt (λ n, n - 1)) r p in
  if (ref_cnt (blk p1 r) =? 0) && negb (is_null (blk p1 r)) then
    if bool_decide (block_hash (blk p1 r) = None) || negb (enable_caching p1)
    then (p1, first ++ [r], last)
    else (p1, first, last ++ [r])
  else (p1, first, last).

Definition free_blocks (ordered_blocks : list ref) (p : BlockPool) : result BlockPool :=
  let '(p1, first, last) := foldl free_step (p, [], []) ordered_blocks in
  q1 ← prepend_n first (free_block_queue p1);
  q2 ← append_n last q1;
  Ok (set_free_block_queue q2 p1).

Definition evict_step (p : BlockPool) (id : Z) : result BlockPool :=
  _ ← py_assert (id <? py_len (pool_blocks p));
  r ← py_get (pool_blocks p) id;
  Ok (_maybe_evict_cached_block r p).2.

(** [block_ids] in the order in which the set is iterated. *)
Definition evict_blocks (block_ids : list Z) (p : BlockPool) : result BlockPool :=
  foldM evict_step p block_ids.

Definition reset_prefix_cache (p : BlockPool) : bool * BlockPool :=
  let num_used_blocks := num_gpu_blocks p - get_num_free_blocks p in
  if negb (num_used_blocks =? 1) then (false, p)
  else
    let p1 := set_hashes_by_block ∅ (set_cache ∅ p) in
    let p2 := foldl (λ p r, reset_hash r p) p1 (pool_blocks p1) in
    let p3 := notify MetricsReset p2 in
    (true, if enable_kv_cache_events p3
           then set_kv_event_queue (kv_event_queue p3 ++ [AllBlocksCleared]) p3 else p3).

(** The exact quotient of which [get_usage] returns the nearest double. *)
Definition get_usage (p : BlockPool) : Q :=
  let total := num_gpu_blocks p - 1 in
  if total =? 0 then 0%Q
  else (1 - inject_Z (get_num_free_blocks p) / inject_Z total)%Q.

Definition take_events (p : BlockPool) : list KVCacheEvent * BlockPool :=
  if negb (enable_kv_cache_events p) then ([], p)
  else (kv_event_queue p, set_kv_event_queue [] p).
End Pool.

(** ** Reads after writes *)

Abbreviation pool_store p := (fq_store (free_block_queue p)).

Lemma blk_update f r p r' :
  has (pool_store p) r →
  blk (update_block f r p) r' = if decide (r' = r) then f (blk p r) else blk p r'.
Proof.
  intros [b Hb]. unfold blk. simpl. case_decide; subst.
  - by rewrite lookup_alter_eq, Hb.
  - by rewrite lookup_alter_ne.
Qed.

Lemma has_update f r p r' : has (pool_store (update_block f r p)) r' ↔ has (pool_store p) r'.
Proof. unfold has. simpl. by rewrite lookup_alter_is_Some. Qed.

(** An update that leaves the links of a block alone. *)
Definition keeps_links (f : KVCacheBlock → KVCacheBlock) : Prop :=
  ∀ b, prev_free_block (f b) = prev_free_block b ∧ next_free_block (f b) = next_free_block b.

Lemma links_update f r p r' :
  keeps_links f →
  nxt (pool_store (update_block f r p)) r' = nxt (pool_store p) r' ∧
  prv (pool_store (update_block f r p)) r' = prv (pool_store p) r'.
Proof.
  intros Hf. unfold nxt, prv. simpl. rewrite lookup_alter. case_decide; [|done]. subst.
  destruct (pool_store p !! r') as [b|]; [|done]. simpl. by destruct (Hf b) as [-> ->].
Qed.

(** ** What the two halves of the state depend on *)

(** Every attribute except the prefix-cache metadata. *)
Record same_queue (p p' : BlockPool) : Prop := {
  sq_num : num_gpu_blocks p = num_gpu_blocks p';
  sq_null : null_block p = null_block p';
  sq_free : get_num_free_blocks p = get_num_free_blocks p';
  sq_nxt : ∀ r, nxt (pool_store p) r = nxt (pool_store p') r;
  sq_prv : ∀ r, prv (pool_store p) r = prv (pool_store p') r;
  sq_has : ∀ r, has (pool_store p) r ↔ has (pool_store p') r;
  sq_ref : ∀ r, ref_cnt (blk p r) = ref_cnt (blk p' r);
  sq_is_null : ∀ r, is_null (blk p r) = is_null (blk p' r);
}.

(** The prefix-cache metadata. *)
Record same_cache (p p' : BlockPool) : Prop := {
  sc_map : cached_block_hash_to_block p = cached_block_hash_to_block p';
  sc_extra : cached_block_hashes_by_block p = cached_block_hashes_by_block p';
  sc_hash : ∀ r, block_hash (blk p r) = block_hash (blk p' r);
  sc_tokens : ∀ r, block_hash_num_tokens (blk p r) = block_hash_num_tokens (blk p' r);
}.

(** The attributes no operation writes. *)
Record same_config (p p' : BlockPool) : Prop := {
  cf_num : num_gpu_blocks p = num_gpu_blocks p';
  cf_caching : enable_caching p = enable_caching p';
  cf_hash_size : hash_block_size p = hash_block_size p';
  cf_null : null_block p = null_block p';
  cf_events : enable_kv_cache_events p = enable_kv_cache_events p';
}.

#[export] Instance same_queue_equiv : Equivalence same_queue.
Proof.
  split.
  - intros p. by constructor.
  - intros p p' []. constructor; intros; symmetry; auto.
  - intros p1 p2 p3 [] []. constructor; intros; etransitivity; eauto.
Qed.

#[export] Instance same_cache_equiv : Equivalence same_cache.
Proof.
  split.
  - intros p. by constructor.
  - intros p p' []. constructor; intros; symmetry; auto.
  - intros p1 p2 p3 [] []. constructor; intros; etransitivity; eauto.
Qed.

#[export] Instance same_config_equiv : Equivalence same_config.
Proof.
  split.
  - intros p. by constructor.
  - intros p p' []. constructor; intros; symmetry; auto.
  - intros p1 p2 p3 [] []. constructor; intros; etransitivity; eauto.
Qed.

(** ** Invariants *)

(** The free queue holds exactly the unreferenced blocks other than the null
    block, which is block 0; reference counts are not negative. *)
Record queue_inv (p : BlockPool) (free : list ref) : Prop := {
  qi_rep : queue_rep (free_block_queue p) free;
  qi_dom : ∀ i, has (pool_store p) (Blk i) ↔ Z.of_nat i < num_gpu_blocks p;
  qi_pos : 0 < num_gpu_blocks p;
  qi_null : null_block p = Blk 0;
  qi_is_null : ∀ i, is_null (blk p (Blk i)) = true ↔ i = 0%nat;
  qi_blk : ∀ r, r ∈ free → ∃ i, r = Blk i;
  qi_free : ∀ i, Blk i ∈ free ↔
    has (pool_store p) (Blk i) ∧ i ≠ 0%nat ∧ ref_cnt (blk p (Blk i)) = 0;
  qi_ref : ∀ i, i ≠ 0%nat → 0 ≤ ref_cnt (blk p (Blk i));
}.

(** The secondary hash keys of a block. *)
Definition extra_hashes (p : BlockPool) (i : nat) : gset bytes :=
  default ∅ (cached_block_hashes_by_block p !! Z.of_nat i).

(** The block carries the key, as its primary hash or as a secondary one. *)
Definition owns (p : BlockPool) (i : nat) (key : bytes) : Prop :=
  block_hash (blk p (Blk i)) = Some key ∨ key ∈ extra_hashes p i.

(** The index maps a key to exactly the blocks that carry it; a block without
    a primary hash carries nothing; the null block is never cached. *)
Record cache_inv (p : BlockPool) : Prop := {
  ci_map : map_ok (cached_block_hash_to_block p);
  ci_owns : ∀ key i, Blk i ∈ contents (cached_block_hash_to_block p) key ↔ owns p i key;
  ci_fresh : ∀ i, block_hash (blk p (Blk i)) = None →
    block_hash_num_tokens (blk p (Blk i)) = None ∧ cached_block_hashes_by_block p !! Z.of_nat i = None;
  ci_primary : ∀ i key, block_hash (blk p (Blk i)) = Some key → key ∉ extra_hashes p i;
  ci_null : block_hash (blk p (Blk 0)) = None;
}.

Definition pool_inv (p : BlockPool) (free : list ref) : Prop := queue_inv p free ∧ cache_inv p.

Lemma queue_inv_same p p' free : same_queue p p' → queue_inv p free → queue_inv p' free.
Proof.
  intros [] []. constructor; try done; try congruence.
  - destruct qi_rep0. constructor; [done|..].
    + intros r. by rewrite <-sq_nxt0.
    + intros r. by rewrite <-sq_prv0.
    + unfold get_num_free_blocks in *. congruence.
  - intros i. by rewrite <-sq_has0, qi_dom0, sq_num0.
  - intros i. by rewrite <-sq_is_null0.
  - intros i. by rewrite <-sq_has0, <-sq_ref0, qi_free0.
  - intros i. rewrite <-sq_ref0. auto.
Qed.

#[export] Instance queue_inv_proper : Proper (same_queue ==> (=) ==> iff) queue_inv.
Proof. intros p p' Hs free ? <-. split; apply queue_inv_same; [done|by symmetry]. Qed.

Lemma owns_same p p' i key : same_cache p p' → owns p i key ↔ owns p' i key.
Proof. intros []. unfold owns, extra_hashes. by rewrite sc_hash0, sc_extra0. Qed.

Lemma cache_inv_same p p' : same_cache p p' → cache_inv p → cache_inv p'.
Proof.
  intros Hs []. pose proof (owns_same p p') as Ho. destruct Hs. constructor.
  - by rewrite <-sc_map0.
  - intros key i. rewrite <-sc_map0, ci_owns0. by apply Ho.
  - intros i. rewrite <-sc_hash0, <-sc_tokens0, <-sc_extra0. apply ci_fresh0.
  - intros i key. unfold extra_hashes. rewrite <-sc_hash0, <-sc_extra0. apply ci_primary0.
  - by rewrite <-sc_hash0.
Qed.

#[export] Instance cache_inv_proper : Proper (same_cache ==> iff) cache_inv.
Proof. intros p p' Hs. split; apply cache_inv_same; [done|by symmetry]. Qed.

(** Attribute writes on one side leave the other side alone. *)
Lemma update_same_queue f r p :
  keeps_links f → (∀ b, ref_cnt (f b) = ref_cnt b ∧ is_null (f b) = is_null b) →
  same_queue p (update_block f r p).
Proof.
  intros Hl Hf.
  assert (Hb : ∀ r', ref_cnt (blk (update_block f r p) r') = ref_cnt (blk p r') ∧
                     is_null (blk (update_block f r p) r') = is_null (blk p r')).
  { intros r'. unfold blk. simpl. rewrite lookup_alter. case_decide; [|done].
    subst. destruct (_ !! _) as [b|]; [apply Hf|done]. }
  constructor; try done; intros r'.
  - symmetry. by apply links_update.
  - symmetry. by apply links_update.
  - symmetry. apply has_update.
  - symmetry. apply Hb.
  - symmetry. apply Hb.
Qed.

Lemma update_same_cache f r p :
  (∀ b, block_hash (f b) = block_hash b ∧ block_hash_num_tokens (f b) = block_hash_num_tokens b) →
  same_cache p (update_block f r p).
Proof.
  intros Hf.
  assert (Hb : ∀ r', block_hash (blk (update_block f r p) r') = block_hash (blk p r') ∧
     block_hash_num_tokens (blk (update_block f r p) r') = block_hash_num_tokens (blk p r')).
  { intros r'. unfold blk. simpl. rewrite lookup_alter. case_decide; [|done].
    subst. destruct (_ !! _) as [b|]; [apply Hf|done]. }
  constructor; try done; intros r'; symmetry; apply Hb.
Qed.

(** Pointer surgery of the queue leaves the cache side alone. *)
Lemma blk_same_core p q r :
  same_core (fq_store q) (pool_store p) →
  core (blk (set_free_block_queue q p) r) = core (blk p r).
Proof.
  intros Hc. unfold blk. simpl. specialize (Hc r).
  destruct (fq_store q !! r), (pool_store p !! r); simpl in *; try done.
  by apply (inj Some) in Hc.
Qed.

Lemma queue_same_cache p q :
  same_core (fq_store q) (pool_store p) → same_cache p (set_free_block_queue q p).
Proof.
  intros Hc. constructor; try done; intros r;
    by destruct (core_fields _ _ (blk_same_core p q r Hc)) as (? & ? & ? & ?).
Qed.

(** ** Removing and inserting hash keys *)

Section Hashes.
Context `{PoolEnv}.
Implicit Types (p : BlockPool) (m : BlockHashToBlockMap) (i j : nat) (key : bytes).

(** [pop] of keys that all hold the block removes it from each of them. *)
Lemma pop_hashes_spec i hs m :
  map_ok m → NoDup hs → (∀ k, k ∈ hs → Blk i ∈ contents m k) →
  ∃ m', pop_hashes (Z.of_nat i) hs m = (hs, m') ∧ map_ok m' ∧
    ∀ k, contents m' k = if decide (k ∈ hs) then filter (λ r, r ≠ Blk i) (contents m k) else contents m k.
Proof.
  intros Hm Hnd Hin. induction hs as [|h hs IH] using rev_ind.
  - exists m. split_and!; [done|done|]. intros k. by rewrite decide_False by apply not_elem_of_nil.
  - apply NoDup_app in Hnd as (Hnd & Hdis & _).
    destruct IH as (m1 & Hpop & Hm1 & Hc1); [done|intros k Hk; apply Hin; set_solver|].
    unfold pop_hashes in *. rewrite foldl_app. simpl. rewrite Hpop.
    pose proof (map_pop_spec m1 h i Hm1) as Hp. destruct (map_pop h (Z.of_nat i) m1) as [b m'].
    assert (Hh : h ∉ hs) by (intros Hh; eapply Hdis; [done|by apply list_elem_of_singleton]).
    destruct Hp as (-> & Hm' & Hc'). rewrite Hc1, decide_False in Hc' by done.
    rewrite Hc1, (decide_False (P := h ∈ hs)), decide_True by (done || (apply Hin; set_solver)).
    exists m'. split_and!; [done|done|]. intros k. rewrite Hc', Hc1.
    destruct (decide (k = h)) as [->|].
    + rewrite (decide_True (P := h ∈ hs ++ [h])) by set_solver. done.
    + by destruct (decide (k ∈ hs)), (decide (k ∈ hs ++ [h])); try done; set_solver.
Qed.

(** The keys in the order in which [_remove_cached_block_hashes] visits them. *)
Definition hash_list p i : list bytes :=
  match block_hash (blk p (Blk i)) with Some h => [h] | None => [] end
  ++ match cached_block_hashes_by_block p !! Z.of_nat i with Some X => set_order X | None => [] end.

Lemma elem_of_hash_list p i key : key ∈ hash_list p i ↔ owns p i key.
Proof.
  unfold hash_list, owns, extra_hashes. rewrite elem_of_app.
  assert (∀ X, key ∈ set_order X ↔ key ∈ X) as Hset.
  { intros X. by rewrite set_order_perm, elem_of_elements. }
  destruct (block_hash _), (_ !! _); simpl; rewrite ?Hset, ?list_elem_of_singleton, ?elem_of_nil;
    set_solver.
Qed.

Lemma hash_list_nodup p i : cache_inv p → NoDup (hash_list p i).
Proof.
  intros Hc. unfold hash_list. pose proof (ci_primary p Hc i) as Hp. unfold extra_hashes in Hp.
  assert (∀ X, NoDup (set_order X)) as Hset by (intros X; rewrite set_order_perm; apply NoDup_elements).
  destruct (block_hash _) as [h|], (_ !! _) as [X|]; simpl; rewrite ?app_nil_r;
    [|apply NoDup_singleton|apply Hset|constructor].
  apply NoDup_cons. split; [|apply Hset].
  rewrite set_order_perm, elem_of_elements. by apply (Hp h).
Qed.

Lemma hashed_has p r : block_hash (blk p r) ≠ None → has (pool_store p) r.
Proof. unfold blk, has. by destruct (_ !! _). Qed.

Lemma owns_hashed p i key : cache_inv p → owns p i key → block_hash (blk p (Blk i)) ≠ None.
Proof.
  intros Hc [Hk|Hk] Hn; [congruence|].
  destruct (ci_fresh p Hc i Hn) as [_ He]. unfold extra_hashes in Hk. rewrite He in Hk. set_solver.
Qed.

(** The effect of taking all keys from block [i]. *)
Record removes p i p' : Prop := {
  rm_inv : cache_inv p';
  rm_queue : same_queue p p';
  rm_config : same_config p p';
  rm_blk : ∀ j, blk p' (Blk j) =
    if decide (j = i) then with_hash None None (blk p (Blk j)) else blk p (Blk j);
  rm_contents : ∀ k, contents (cached_block_hash_to_block p') k =
    filter (λ r, r ≠ Blk i) (contents (cached_block_hash_to_block p) k);
  rm_owns : ∀ j k, owns p' j k ↔ owns p j k ∧ j ≠ i;
}.

Lemma remove_hashes_unhashed p i :
  cache_inv p → block_hash (blk p (Blk i)) = None → _remove_cached_block_hashes (Blk i) p = ([], p).
Proof.
  intros Hc Hh. destruct (ci_fresh p Hc i Hh) as [_ He].
  unfold _remove_cached_block_hashes. simpl. rewrite Hh, He, delete_id by done. by destruct p.
Qed.

Lemma remove_hashes_hashed p i h :
  cache_inv p → block_hash (blk p (Blk i)) = Some h →
  ∃ m', _remove_cached_block_hashes (Blk i) p =
      (hash_list p i, reset_hash (Blk i) (set_cache m'
         (set_hashes_by_block (delete (Z.of_nat i) (cached_block_hashes_by_block p)) p))) ∧
    map_ok m' ∧ ∀ k, contents m' k = filter (λ r, r ≠ Blk i) (contents (cached_block_hash_to_block p) k).
Proof.
  intros Hc Hh.
  destruct (pop_hashes_spec i (hash_list p i) (cached_block_hash_to_block p)) as (m' & Hpop & Hm' & Hc').
  { apply Hc. } { by apply hash_list_nodup. }
  { intros k Hk. by apply ci_owns, elem_of_hash_list. }
  exists m'. split_and!; [|done|].
  - unfold _remove_cached_block_hashes. change (block_id (Blk i)) with (Z.of_nat i).
    unfold hash_list in *. rewrite Hh in *. simpl in *. by rewrite Hpop.
  - intros k. rewrite Hc'. case_decide as Hk; [done|]. symmetry. apply filter_ne_id.
    by rewrite ci_owns, <-elem_of_hash_list.
Qed.

Lemma elem_of_filter_ne (l : list ref) i j : Blk j ∈ filter (λ r, r ≠ Blk i) l ↔ Blk j ∈ l ∧ j ≠ i.
Proof. rewrite list_elem_of_filter. naive_solver congruence. Qed.

(** [_remove_cached_block_hashes] returns the keys of the block and takes
    them from it. *)
Lemma remove_hashes_spec p i :
  cache_inv p →
  ∃ p', _remove_cached_block_hashes (Blk i) p = (hash_list p i, p') ∧ removes p i p' ∧
    kv_event_queue p' = kv_event_queue p.
Proof.
  intros Hc. destruct (block_hash (blk p (Blk i))) as [h|] eqn:Hh.
  - destruct (remove_hashes_hashed p i h Hc Hh) as (m' & -> & Hm' & Hc').
    set (p1 := set_cache m' _). exists (reset_hash (Blk i) p1). split_and!; [done| |done].
    assert (Hhas : has (pool_store p1) (Blk i)) by (apply (hashed_has p); congruence).
    assert (Hb : ∀ j, blk (reset_hash (Blk i) p1) (Blk j) =
      if decide (j = i) then with_hash None None (blk p (Blk j)) else blk p (Blk j)).
    { intros j. unfold reset_hash. rewrite blk_update by done.
      destruct (decide (j = i)) as [->|]; [by rewrite decide_True|by rewrite decide_False by congruence]. }
    assert (He : ∀ j, extra_hashes (reset_hash (Blk i) p1) j = if decide (j = i) then ∅ else extra_hashes p j).
    { intros j. unfold extra_hashes. simpl. rewrite lookup_delete.
      by repeat case_decide; try lia. }
    assert (Ho : ∀ j k, owns (reset_hash (Blk i) p1) j k ↔ owns p j k ∧ j ≠ i).
    { intros j k. unfold owns. rewrite Hb, He. case_decide; simpl; set_solver. }
    constructor; try done.
    + constructor.
      * done.
      * intros k j. rewrite Ho. simpl. rewrite Hc', elem_of_filter_ne. by rewrite ci_owns.
      * intros j. rewrite Hb. simpl. rewrite lookup_delete.
        repeat case_decide; subst; try done; try lia. apply (ci_fresh p Hc).
      * intros j k. rewrite Hb, He. case_decide; [done|]. apply (ci_primary p Hc).
      * rewrite Hb. case_decide; [done|]. apply Hc.
    + etransitivity; [|by apply update_same_queue]. by constructor.
  - rewrite remove_hashes_unhashed by done. unfold hash_list. rewrite Hh.
    destruct (ci_fresh p Hc i Hh) as [Ht ->]. exists p. split_and!; [done| |done].
    assert (Hno : ∀ k, ¬ owns p i k) by (intros k Hk; by apply (owns_hashed p i k)).
    constructor; try done.
    + intros j. case_decide; [|done]. subst. unfold with_hash. rewrite <-Hh, <-Ht at 1.
      by destruct (blk p (Blk i)).
    + intros k. symmetry. apply filter_ne_id. rewrite ci_owns by done. apply Hno.
    + intros j k. split; [|by intros [? _]]. intros Ho. split; [done|]. intros ->. by apply (Hno k).
Qed.

#[export] Instance owns_dec p i key : Decision (owns p i key).
Proof. unfold owns. apply _. Defined.

(** The effect of giving block [i] the key [key]. *)
Record inserts p i key (num_tokens : option Z) p' : Prop := {
  in_inv : cache_inv p';
  in_queue : same_queue p p';
  in_config : same_config p p';
  in_blk : ∀ j, blk p' (Blk j) =
    if decide (j = i ∧ block_hash (blk p (Blk i)) = None)
    then with_hash (Some key) num_tokens (blk p (Blk j)) else blk p (Blk j);
  in_owns : ∀ j k, owns p' j k ↔ owns p j k ∨ (j = i ∧ k = key);
  in_contents : ∀ k, contents (cached_block_hash_to_block p') k =
    if decide (k = key ∧ ¬ owns p i key)
    then contents (cached_block_hash_to_block p) k ++ [Blk i]
    else contents (cached_block_hash_to_block p) k;
}.

(** Already indexed: nothing changes. *)
Lemma inserts_refl p i key n : cache_inv p → owns p i key → inserts p i key n p.
Proof.
  intros Hc Ho. constructor; try done.
  - intros j. rewrite decide_False; [done|]. intros [-> Hn]. by apply (owns_hashed p i key).
  - intros j k. split; [by left|]. by intros [?|[-> ->]].
  - intros k. by rewrite decide_False by naive_solver.
Qed.

(** A pool whose blocks and secondary keys were extended with the key and
    whose index got the block. *)
Lemma inserts_intro p i key (n : option Z) p' (X' : gmap Z (gset bytes)) :
  cache_inv p → ¬ owns p i key → i ≠ 0%nat →
  same_queue p p' → same_config p p' →
  cached_block_hash_to_block p' = map_insert key (Blk i) (cached_block_hash_to_block p) →
  X' = cached_block_hashes_by_block p' →
  (∀ j, blk p' (Blk j) =
    if decide (j = i ∧ block_hash (blk p (Blk i)) = None)
    then with_hash (Some key) n (blk p (Blk j)) else blk p (Blk j)) →
  (X' = cached_block_hashes_by_block p ∧ block_hash (blk p (Blk i)) = None ∨
   X' = <[Z.of_nat i := extra_hashes p i ∪ {[key]}]> (cached_block_hashes_by_block p) ∧
   block_hash (blk p (Blk i)) ≠ None) →
  inserts p i key n p'.
Proof.
  intros Hc Hno Hi Hq Hcf Hmap -> Hb Hex.
  assert (Ho : ∀ j k, owns p' j k ↔ owns p j k ∨ (j = i ∧ k = key)).
  { intros j k. unfold owns, extra_hashes. rewrite Hb. destruct Hex as [[-> Hn]|[-> Hn]].
    - case_decide as Hd; [destruct Hd as [-> _]|].
      + simpl. rewrite Hn. destruct (ci_fresh p Hc i Hn) as [_ ->]. set_solver.
      + naive_solver.
    - rewrite (decide_False (P := _ ∧ _)) by naive_solver. rewrite lookup_insert.
      repeat case_decide; simplify_eq; try lia; simpl; unfold extra_hashes; set_solver. }
  destruct (map_insert_spec (cached_block_hash_to_block p) key i (ci_map p Hc)) as [Hm Hct].
  assert (Hct' : ∀ k, contents (cached_block_hash_to_block p') k =
    if decide (k = key ∧ ¬ owns p i key)
    then contents (cached_block_hash_to_block p) k ++ [Blk i]
    else contents (cached_block_hash_to_block p) k).
  { intros k. rewrite Hmap, Hct. rewrite <-ci_owns in Hno by done.
    rewrite (decide_False (P := Blk i ∈ _)) by done.
    destruct (decide (k = key)) as [->|].
    - rewrite decide_True; [done|]. by rewrite <-ci_owns by done.
    - by rewrite decide_False by naive_solver. }
  clear Hct. constructor; try done. constructor.
  - by rewrite Hmap.
  - intros k j. rewrite Hct', Ho. case_decide as Hd.
    + destruct Hd as [-> _]. rewrite elem_of_app, list_elem_of_singleton, ci_owns by done.
      split; [intros [?|[= ->]]; auto|intros [?|[-> _]]; auto].
    + rewrite ci_owns by done. split; [by left|]. intros [?|[-> ->]]; [done|]. by destruct Hd.
  - intros j. rewrite Hb. case_decide as Hd; [done|]. intros Hn.
    destruct (ci_fresh p Hc j Hn) as [? He]. split; [done|].
    destruct Hex as [[-> _]|[-> Hne]]; [done|]. rewrite lookup_insert_ne; [done|].
    intros ?%Nat2Z.inj. by subst.
  - intros j k. rewrite Hb. unfold extra_hashes. case_decide as Hd.
    + destruct Hd as [-> Hn]. intros _. destruct Hex as [[-> _]|[_ ?]]; [|done].
      destruct (ci_fresh p Hc i Hn) as [_ ->]. set_solver.
    + intros Hk. destruct Hex as [[-> _]|[-> _]]; [by apply ci_primary|].
      rewrite lookup_insert. case_decide as Hj; [|by apply ci_primary].
      apply Nat2Z.inj in Hj as ->. simpl. apply not_elem_of_union. split; [by apply ci_primary|].
      intros ->%elem_of_singleton. apply Hno. by left.
  - rewrite Hb, decide_False by naive_solver. apply Hc.
Qed.

Lemma insert_hash_spec p i key n :
  cache_inv p → has (pool_store p) (Blk i) → i ≠ 0%nat →
  ∃ p', _insert_block_hash key (Blk i) n p = Ok p' ∧ inserts p i key n p' ∧
    kv_event_queue p' = kv_event_queue p.
Proof.
  intros Hc Hhas Hi. unfold _insert_block_hash.
  destruct (bool_decide_reflect (block_hash (blk p (Blk i)) = Some key)) as [Hh|Hh].
  { exists p. split_and!; [done| |done]. apply inserts_refl; [done|by left]. }
  change (block_id (Blk i)) with (Z.of_nat i).
  destruct (contain key (Z.of_nat i) (cached_block_hash_to_block p)) eqn:Hin.
  { apply contain_spec, ci_owns in Hin; [|done|apply Hc]. exists p. split_and!; [done| |done].
    by apply inserts_refl. }
  assert (Hno : ¬ owns p i key).
  { intros Ho. apply ci_owns, contain_spec in Ho; [congruence|apply Hc|done]. }
  destruct (block_hash (blk p (Blk i))) as [h|] eqn:Hb; simpl.
  - eexists. split_and!; [done| |done].
    eapply inserts_intro; try done; try (by constructor).
    + intros j. by rewrite decide_False by naive_solver.
    + right. split; [done|congruence].
  - unfold set_block_hash. rewrite Hb. destruct (ci_fresh p Hc i Hb) as [-> He]. simpl.
    eexists. split_and!; [done| |done].
    eapply inserts_intro; try done; try (by constructor).
    + etransitivity; [by apply (update_same_queue (with_hash (Some key) n) (Blk i) p)|]. by constructor.
    + intros j. pose proof (blk_update (with_hash (Some key) n) (Blk i) p (Blk j) Hhas) as Hu.
      unfold blk in Hu |- *. simpl in *. rewrite Hu. unfold blk in Hb. rewrite Hb.
      repeat case_decide; naive_solver.
Qed.
End Hashes.

(** ** Eviction, allocation and reference counts *)

(** Only events and metrics differ. *)
Definition same_state (p p' : BlockPool) : Prop := same_queue p p' ∧ same_cache p p' ∧ same_config p p'.

Lemma notify_same c p : same_state p (notify c p).
Proof. split_and!; by constructor. Qed.

Lemma set_events_same v p : same_state p (set_kv_event_queue v p).
Proof. split_and!; by constructor. Qed.

Section Operations.
Context `{PoolEnv}.
Implicit Types (p : BlockPool) (i j : nat) (free : list ref).

Lemma emit_same hs p : same_state p (_emit_block_removed_events hs p).
Proof. unfold _emit_block_removed_events. case_match; [apply set_events_same|split_and!; by constructor]. Qed.

Lemma blk_same_state p p' r : same_state p p' →
  ref_cnt (blk p' r) = ref_cnt (blk p r) ∧ is_null (blk p' r) = is_null (blk p r) ∧
  block_hash (blk p' r) = block_hash (blk p r) ∧
  block_hash_num_tokens (blk p' r) = block_hash_num_tokens (blk p r).
Proof. by intros ([] & [] & _). Qed.

(** The effect of [_maybe_evict_cached_block]. *)
Record evicts p i p' : Prop := {
  ev_inv : cache_inv p';
  ev_queue : same_queue p p';
  ev_config : same_config p p';
  ev_hash : ∀ j, block_hash (blk p' (Blk j)) =
    if decide (j = i) then None else block_hash (blk p (Blk j));
  ev_contents : ∀ k, contents (cached_block_hash_to_block p') k =
    filter (λ r, r ≠ Blk i) (contents (cached_block_hash_to_block p) k);
  ev_owns : ∀ j k, owns p' j k ↔ owns p j k ∧ j ≠ i;
}.

Lemma removes_evicts p0 p i p1 p2 :
  same_state p0 p → removes p i p1 → same_state p1 p2 → evicts p0 i p2.
Proof.
  intros (Hq0 & Hc0 & Hcf0) [] (Hq & Hc & Hcf).
  pose proof (λ j k, owns_same _ _ j k Hc) as Ho.
  pose proof (λ j k, owns_same _ _ j k Hc0) as Ho0. constructor.
  - by rewrite <-Hc.
  - by rewrite Hq0, rm_queue0.
  - by rewrite Hcf0, rm_config0.
  - intros j. rewrite <-(sc_hash _ _ Hc), (sc_hash _ _ Hc0), rm_blk0. by case_decide.
  - intros k. by rewrite <-(sc_map _ _ Hc), (sc_map _ _ Hc0), rm_contents0.
  - intros j k. by rewrite <-Ho, Ho0, rm_owns0.
Qed.

(** [_maybe_evict_cached_block] takes every key from the block, reports
    whether it had one, and emits one event per key. *)
Lemma maybe_evict_spec p i :
  cache_inv p →
  ∃ p', _maybe_evict_cached_block (Blk i) p
      = (negb (bool_decide (block_hash (blk p (Blk i)) = None)), p') ∧ evicts p i p'.
Proof.
  intros Hc. unfold _maybe_evict_cached_block. set (p1 := notify _ p).
  assert (Hn : same_state p p1) by apply notify_same.
  assert (Hc1 : cache_inv p1) by (apply (cache_inv_same p); [apply Hn|done]).
  destruct (remove_hashes_spec p1 i Hc1) as (p2 & -> & Hrm & _).
  assert (Hev : evicts p i p2 ∧ evicts p i (_emit_block_removed_events (hash_list p1 i) p2)).
  { split; (eapply removes_evicts; [exact Hn|exact Hrm|]); [split_and!; reflexivity|apply emit_same]. }
  destruct Hev as [Hev1 Hev2]. unfold hash_list in *.
  change (blk p1 (Blk i)) with (blk p (Blk i)) in *.
  destruct (block_hash (blk p (Blk i))) as [h|] eqn:Hh; simpl in *.
  - eexists. by split; [|exact Hev2].
  - destruct (ci_fresh p Hc i Hh) as [_ He].
    change (cached_block_hashes_by_block p1) with (cached_block_hashes_by_block p). rewrite He.
    eexists. by split; [|exact Hev1].
Qed.

(** The pool has the same blocks and the same null block. *)
Record same_shape p p' : Prop := {
  sh_config : same_config p p';
  sh_has : ∀ r, has (pool_store p) r ↔ has (pool_store p') r;
  sh_is_null : ∀ r, is_null (blk p r) = is_null (blk p' r);
}.

#[export] Instance same_shape_equiv : Equivalence same_shape.
Proof.
  split.
  - intros p. by constructor.
  - intros p p' []. constructor; intros; symmetry; auto.
  - intros p1 p2 p3 [] []. constructor; intros; etransitivity; eauto.
Qed.

Lemma same_queue_shape p p' : same_queue p p' → same_config p p' → same_shape p p'.
Proof. intros [] ?. by constructor. Qed.

Lemma queue_shape p q : same_core (fq_store q) (pool_store p) → same_shape p (set_free_block_queue q p).
Proof.
  intros Hc. constructor.
  - by constructor.
  - intros r. split; apply same_core_has; [by symmetry|done].
  - intros r. by destruct (core_fields _ _ (blk_same_core p q r Hc)) as (_ & _ & _ & ->).
Qed.

Lemma queue_ref_cnt p q r :
  same_core (fq_store q) (pool_store p) → ref_cnt (blk (set_free_block_queue q p) r) = ref_cnt (blk p r).
Proof. intros Hc. by destruct (core_fields _ _ (blk_same_core p q r Hc)) as (-> & _). Qed.

Lemma update_ref_shape f r p : same_shape p (update_block (with_ref_cnt f) r p).
Proof.
  constructor; [by constructor|intros; symmetry; apply has_update|].
  intros r'. unfold blk. simpl. rewrite lookup_alter. case_decide; [|done].
  subst. by destruct (_ !! _).
Qed.

Lemma update_ref_rep f r p l :
  queue_rep (free_block_queue p) l → queue_rep (free_block_queue (update_block (with_ref_cnt f) r p)) l.
Proof.
  intros []. constructor; [done|..|done]; intros r';
    destruct (links_update (with_ref_cnt f) r p r') as [Hn Hp]; [done|by rewrite Hn|done|by rewrite Hp].
Qed.

Lemma same_queue_rep p p' l :
  same_queue p p' → queue_rep (free_block_queue p) l → queue_rep (free_block_queue p') l.
Proof.
  intros [] []. constructor; [done|..].
  - intros r. by rewrite <-sq_nxt0.
  - intros r. by rewrite <-sq_prv0.
  - unfold get_num_free_blocks in *. congruence.
Qed.

Lemma queue_inv_intro p p' free free' :
  queue_inv p free → same_shape p p' → queue_rep (free_block_queue p') free' →
  (∀ r, r ∈ free' → ∃ i, r = Blk i) →
  (∀ i, Blk i ∈ free' ↔ has (pool_store p) (Blk i) ∧ i ≠ 0%nat ∧ ref_cnt (blk p' (Blk i)) = 0) →
  (∀ i, i ≠ 0%nat → 0 ≤ ref_cnt (blk p' (Blk i))) →
  queue_inv p' free'.
Proof.
  intros [] [[] Hh Hn] Hr Hb Hf Href. constructor; try done; try congruence.
  - intros i. rewrite <-Hh, qi_dom0. by rewrite cf_num0.
  - intros i. by rewrite <-Hn.
  - intros i. by rewrite <-Hh, Hf.
Qed.

(** ** [get_new_blocks] *)

(** The blocks [ret] have been taken: each has one reference and, when
    caching is enabled, no hash. *)
Record allocates p (ret : list ref) p' : Prop := {
  al_inv : cache_inv p';
  al_shape : same_shape p p';
  al_ref : ∀ j, ref_cnt (blk p' (Blk j)) =
    if decide (Blk j ∈ ret) then 1 else ref_cnt (blk p (Blk j));
  al_hash : ∀ j, block_hash (blk p' (Blk j)) =
    if decide (enable_caching p = true ∧ Blk j ∈ ret) then None else block_hash (blk p (Blk j));
  al_contents : ∀ k, contents (cached_block_hash_to_block p') k =
    if enable_caching p then filter (λ r, r ∉ ret) (contents (cached_block_hash_to_block p) k)
    else contents (cached_block_hash_to_block p) k;
}.

Lemma alloc_step_spec p i :
  cache_inv p → has (pool_store p) (Blk i) → ref_cnt (blk p (Blk i)) = 0 →
  ∃ p', alloc_step p (Blk i) = Ok p' ∧ allocates p [Blk i] p' ∧
    ∀ l, queue_rep (free_block_queue p) l → queue_rep (free_block_queue p') l.
Proof.
  intros Hc Hhas Href. unfold alloc_step.
  assert (∃ p1, (if enable_caching p then (_maybe_evict_cached_block (Blk i) p).2 else p) = p1 ∧
    cache_inv p1 ∧ same_queue p p1 ∧ same_config p p1 ∧
    (∀ j, block_hash (blk p1 (Blk j)) =
      if decide (enable_caching p = true ∧ Blk j ∈ [Blk i]) then None else block_hash (blk p (Blk j))) ∧
    (∀ k, contents (cached_block_hash_to_block p1) k =
      if enable_caching p then filter (λ r, r ∉ [Blk i]) (contents (cached_block_hash_to_block p) k)
      else contents (cached_block_hash_to_block p) k)) as (p1 & -> & Hc1 & Hq1 & Hcf1 & Hh1 & Hct1).
  { destruct (enable_caching p).
    - destruct (maybe_evict_spec p i Hc) as (p1 & -> & []). exists p1. split_and!; try done.
      + intros j. rewrite ev_hash0. destruct (decide (j = i)) as [->|Hji].
        * by rewrite decide_True by (split; [done|by apply list_elem_of_singleton]).
        * rewrite decide_False; [done|]. intros [_ [= ->]%list_elem_of_singleton]. done.
      + intros k. rewrite ev_contents0. apply list_filter_iff. intros r. by rewrite list_elem_of_singleton.
    - exists p. by split_and!. }
  rewrite <-(sq_ref _ _ Hq1), Href. simpl. eexists. split; [done|].
  set (p2 := update_block (with_ref_cnt (λ n, n + 1)) (Blk i) p1).
  pose proof (update_same_cache (with_ref_cnt (λ n, n + 1)) (Blk i) p1 ltac:(done)) as Hsc.
  destruct (notify_same (OnBlockAllocated (block_id (Blk i))) p2) as (Hq3 & Hc3 & Hcf3).
  split.
  2: { intros l Hl. apply (same_queue_rep _ _ _ Hq3), update_ref_rep. by apply (same_queue_rep p). }
  constructor.
  - by apply (cache_inv_same p2), (cache_inv_same p1).
  - transitivity p2; [|by apply same_queue_shape].
    transitivity p1; [by apply same_queue_shape|apply update_ref_shape].
  - intros j. rewrite <-(sq_ref _ _ Hq3). unfold p2.
    rewrite blk_update by (by apply (sq_has _ _ Hq1)).
    destruct (decide (j = i)) as [->|Hji].
    + rewrite !decide_True by (done || by apply list_elem_of_singleton). simpl.
      by rewrite <-(sq_ref _ _ Hq1), Href.
    + rewrite (decide_False (P := Blk j = Blk i)) by congruence.
      rewrite decide_False; [by rewrite (sq_ref _ _ Hq1)|]. by intros [= ->]%list_elem_of_singleton.
  - intros j. by rewrite <-(sc_hash _ _ Hc3), <-(sc_hash _ _ Hsc), Hh1.
  - exact Hct1.
Qed.

Lemma allocates_nil p : cache_inv p → allocates p [] p.
Proof.
  intros Hc. constructor; try done.
  - intros j. rewrite decide_False; [done|]. by intros [_ ?%elem_of_nil].
  - intros k. destruct (enable_caching p); [|done]. symmetry.
    induction (contents _ k) as [|r l IH]; [done|].
    rewrite filter_cons_True by apply not_elem_of_nil. by f_equal.
Qed.

Lemma filter_not_in_snoc (l rs : list ref) r :
  filter (λ x, x ∉ [r]) (filter (λ x, x ∉ rs) l) = filter (λ x, x ∉ rs ++ [r]) l.
Proof.
  rewrite list_filter_filter. apply list_filter_iff. intros x. rewrite not_elem_of_app. naive_solver.
Qed.

Lemma allocates_snoc p rs p1 i p2 :
  allocates p rs p1 → allocates p1 [Blk i] p2 → allocates p (rs ++ [Blk i]) p2.
Proof.
  intros [] [].
  assert (Hcf : enable_caching p1 = enable_caching p) by (destruct al_shape0 as [[]]; done).
  constructor; auto.
  - by etransitivity.
  - intros j. rewrite al_ref1, al_ref0.
    destruct (decide (Blk j ∈ [Blk i])), (decide (Blk j ∈ rs)), (decide (Blk j ∈ rs ++ [Blk i])) as [Hj|Hj];
      rewrite ?elem_of_app in Hj; tauto.
  - intros j. rewrite al_hash1, al_hash0, Hcf.
    assert (Blk j ∈ rs ++ [Blk i] ↔ Blk j ∈ rs ∨ Blk j ∈ [Blk i]) as Hj by apply elem_of_app.
    repeat case_decide; tauto.
  - intros k. rewrite al_contents1, al_contents0, Hcf. destruct (enable_caching p); [|done].
    apply filter_not_in_snoc.
Qed.

(** The loop over distinct unreferenced blocks. *)
Lemma alloc_loop_spec p ret :
  cache_inv p → NoDup ret →
  (∀ r, r ∈ ret → ∃ i, r = Blk i ∧ has (pool_store p) (Blk i) ∧ ref_cnt (blk p (Blk i)) = 0) →
  ∃ p', foldM alloc_step p ret = Ok p' ∧ allocates p ret p' ∧
    ∀ l, queue_rep (free_block_queue p) l → queue_rep (free_block_queue p') l.
Proof.
  intros Hc Hnd Hret.
  apply (foldM_ind alloc_step (λ dn p', allocates p dn p' ∧
    ∀ l, queue_rep (free_block_queue p) l → queue_rep (free_block_queue p') l));
    [split; [by apply allocates_nil|done]|].
  intros dn r todo p1 -> [Hal Hrep]. destruct (Hret r) as (i & -> & Hhas & Href); [set_solver|].
  apply NoDup_app in Hnd as (_ & Hd & _).
  assert (Hi : Blk i ∉ dn) by (intros Hi; apply (Hd _ Hi); set_solver).
  destruct (alloc_step_spec p1 i) as (p2 & -> & Hal2 & Hrep2).
  - apply Hal.
  - by apply (sh_has _ _ (al_shape _ _ _ Hal)).
  - by rewrite (al_ref _ _ _ Hal), decide_False.
  - exists p2. split; [done|]. split; [by eapply allocates_snoc|auto].
Qed.

Lemma allocates_queue p q ret p' :
  same_core (fq_store q) (pool_store p) →
  allocates (set_free_block_queue q p) ret p' → allocates p ret p'.
Proof.
  intros Hcore []. pose proof (queue_same_cache p q Hcore) as Hsc. constructor; auto.
  - by rewrite (queue_shape p q Hcore).
  - intros j. by rewrite al_ref0, queue_ref_cnt.
  - intros j. by rewrite al_hash0, <-(sc_hash _ _ Hsc).
Qed.

Lemma get_new_blocks_spec p free n :
  pool_inv p free → 0 ≤ n ≤ py_len free →
  ∃ p', get_new_blocks n p = Ok (take (Z.to_nat n) free, p') ∧
    pool_inv p' (drop (Z.to_nat n) free) ∧ allocates p (take (Z.to_nat n) free) p'.
Proof.
  intros [Hq Hc] Hn. unfold get_new_blocks, get_num_free_blocks.
  rewrite (qr_len _ _ (qi_rep _ _ Hq)).
  destruct (Z.ltb_spec (py_len free) n); [lia|].
  destruct (popleft_n_spec _ _ n (qi_rep _ _ Hq) Hn) as (q & -> & Hrep & Hcore). simpl.
  set (k := Z.to_nat n) in *. set (p1 := set_free_block_queue q p).
  pose proof (rep_nodup _ _ (qi_rep _ _ Hq)) as Hnd.
  rewrite <-(take_drop k free) in Hnd. apply NoDup_app in Hnd as (Hnd1 & Hdis & Hnd2).
  assert (Hc1 : cache_inv p1) by (apply (cache_inv_same p); [by apply queue_same_cache|done]).
  assert (Hin : ∀ r, r ∈ free ↔ r ∈ take k free ∨ r ∈ drop k free).
  { intros r. by rewrite <-elem_of_app, take_drop. }
  destruct (alloc_loop_spec p1 (take k free) Hc1 Hnd1) as (p' & -> & Hal & Hkeep).
  { intros r Hr. destruct (qi_blk _ _ Hq r) as [i ->]; [by apply Hin; left|].
    destruct (proj1 (qi_free _ _ Hq i)) as (Hhas & _ & Href); [by apply Hin; left|].
    exists i. split_and!; [done|by apply (queue_shape p q Hcore)|].
    unfold p1. by rewrite queue_ref_cnt. }
  apply allocates_queue in Hal; [|done]. simpl. exists p'. split_and!; [done| |done].
  split; [|apply Hal]. apply (queue_inv_intro p p' free); [done|apply Hal|by apply Hkeep|..].
  - intros r Hr. apply (qi_blk _ _ Hq), Hin. by right.
  - intros i. rewrite (al_ref _ _ _ Hal). pose proof (qi_free _ _ Hq i) as Hf. rewrite Hin in Hf.
    specialize (Hdis (Blk i)). case_decide; [|tauto]. split; [tauto|lia].
  - intros i Hi. rewrite (al_ref _ _ _ Hal). case_decide; [lia|]. by apply (qi_ref _ _ Hq).
Qed.

Lemma get_new_blocks_exhausted p free n :
  pool_inv p free → py_len free < n → get_new_blocks n p = Err ValueError.
Proof.
  intros [Hq _] Hn. unfold get_new_blocks, get_num_free_blocks.
  rewrite (qr_len _ _ (qi_rep _ _ Hq)). by destruct (Z.ltb_spec (py_len free) n); [|lia].
Qed.
End Operations.

(** ** Counting occurrences *)

(** How often a block occurs in a list. *)
Definition mult (l : list ref) (r : ref) : Z := Z.of_nat (length (filter (λ x, x = r) l)).

Lemma mult_nonneg l r : 0 ≤ mult l r.
Proof. unfold mult. lia. Qed.

Lemma mult_app l1 l2 r : mult (l1 ++ l2) r = mult l1 r + mult l2 r.
Proof. unfold mult. rewrite filter_app, length_app. lia. Qed.

Lemma mult_single x r : mult [x] r = if decide (x = r) then 1 else 0.
Proof. unfold mult. rewrite filter_cons. by case_decide. Qed.

Lemma mult_pos l r : 0 < mult l r ↔ r ∈ l.
Proof.
  induction l as [|x l IH]; [unfold mult; simpl; split; [lia|by intros ?%elem_of_nil]|].
  change (x :: l) with ([x] ++ l). rewrite mult_app, mult_single, elem_of_app, list_elem_of_singleton, <-IH.
  pose proof (mult_nonneg l r). case_decide; subst; split; intros; [tauto|lia|right; lia|].
  destruct H1; [by subst|lia].
Qed.

(** [remove_dups] keeps the last occurrence of every element. *)
Lemma remove_dups_snoc (l : list ref) x :
  remove_dups (l ++ [x]) = filter (λ y, y ≠ x) (remove_dups l) ++ [x].
Proof.
  induction l as [|y l IH]; simpl; [done|].
  destruct (decide_rel elem_of y (l ++ [x])) as [H1|H1], (decide_rel elem_of y l) as [H2|H2];
    rewrite IH; rewrite elem_of_app, list_elem_of_singleton in H1.
  - done.
  - destruct H1 as [?| ->]; [done|]. by rewrite filter_cons_False by auto.
  - tauto.
  - rewrite filter_cons_True; [done|]. intros ->. tauto.
Qed.

Lemma filter_filter_ne (P : ref → Prop) `{∀ x, Decision (P x)} (l : list ref) x :
  ¬ P x → filter P (filter (λ y, y ≠ x) l) = filter P l.
Proof. intros Hx. rewrite list_filter_filter. apply list_filter_iff. intros y. naive_solver. Qed.

(** ** [touch] and [free_blocks] *)

Section References.
Context `{PoolEnv}.
Implicit Types (p : BlockPool) (i j : nat) (free : list ref).

Lemma blk_absent p r : ¬ has (pool_store p) r → blk p r = new_block.
Proof. unfold blk, has. destruct (_ !! _); [|done]. intros Hn. destruct Hn. by eexists. Qed.

#[local] Instance has_dec s r : Decision (has s r).
Proof. unfold has. apply _. Defined.

(** Only reference counts and queue links differ. *)
Record counts p (f : ref → Z) p' : Prop := {
  co_shape : same_shape p p';
  co_cache : same_cache p p';
  co_ref : ∀ r, has (pool_store p) r → ref_cnt (blk p' r) = ref_cnt (blk p r) + f r;
}.

Lemma counts_trans p f p1 g p2 :
  counts p f p1 → counts p1 g p2 → counts p (λ r, f r + g r) p2.
Proof.
  intros [] []. constructor; [by etransitivity..|].
  intros r Hr. rewrite co_ref1, co_ref0; [lia|done|by apply co_shape0].
Qed.

Lemma counts_ext p f g p' : (∀ r, f r = g r) → counts p f p' → counts p g p'.
Proof. intros Hfg []. constructor; auto. intros r Hr. by rewrite <-Hfg, co_ref0. Qed.

Lemma counts_zero p p' : same_shape p p' → same_cache p p' → (∀ r, ref_cnt (blk p' r) = ref_cnt (blk p r)) →
  counts p (λ _, 0) p'.
Proof. intros ?? Hr. constructor; [done..|]. intros r _. rewrite Hr. lia. Qed.

Lemma counts_nonneg p f p' r :
  counts p f p' → 0 ≤ ref_cnt (blk p r) + f r → 0 ≤ ref_cnt (blk p' r).
Proof.
  intros [] Hr. destruct (decide (has (pool_store p) r)) as [Hh|Hh]; [by rewrite co_ref0|].
  rewrite blk_absent; [done|]. by rewrite <-(sh_has _ _ co_shape0).
Qed.

Lemma update_counts p r d :
  has (pool_store p) r →
  counts p (λ r', mult [r] r' * d) (update_block (with_ref_cnt (λ n, n + d)) r p).
Proof.
  intros Hhas. constructor; [apply update_ref_shape|by apply update_same_cache|].
  intros r' _. rewrite blk_update, mult_single by done.
  repeat case_decide; subst; simpl; (done || lia).
Qed.

Lemma queue_counts p q : same_core (fq_store q) (pool_store p) → counts p (λ _, 0) (set_free_block_queue q p).
Proof.
  intros Hc. apply counts_zero; [by apply queue_shape|by apply queue_same_cache|].
  intros r. by apply queue_ref_cnt.
Qed.

Lemma notify_counts p c : counts p (λ _, 0) (notify c p).
Proof.
  destruct (notify_same c p) as (Hq & Hc & Hcf).
  apply counts_zero; [by apply same_queue_shape|done|done].
Qed.

Lemma touch_step_spec p free i :
  pool_inv p free → has (pool_store p) (Blk i) →
  ∃ p', touch_step p (Blk i) = Ok p' ∧ pool_inv p' (filter (λ r, r ≠ Blk i) free) ∧
    counts p (mult [Blk i]) p'.
Proof.
  intros [Hq Hc] Hhas. unfold touch_step.
  assert (∃ p1, (if (ref_cnt (blk p (Blk i)) =? 0) && negb (is_null (blk p (Blk i)))
     then q ← remove (Blk i) (free_block_queue p); Ok (set_free_block_queue q p) else Ok p) = Ok p1 ∧
     queue_rep (free_block_queue p1) (filter (λ r, r ≠ Blk i) free) ∧ counts p (λ _, 0) p1)
    as (p1 & -> & Hrep & Hco).
  { destruct (_ && _) eqn:E.
    - zbool. assert (Hin : Blk i ∈ free).
      { apply (qi_free _ _ Hq). split_and!; [done| |done].
        intros Hi. apply (qi_is_null _ _ Hq) in Hi. congruence. }
      apply list_elem_of_split in Hin as (l1 & l2 & ->).
      destruct (remove_spec _ _ _ _ (qi_rep _ _ Hq)) as (q & -> & Hrep & Hcore). simpl.
      exists (set_free_block_queue q p). split_and!; [done| |by apply queue_counts].
      rewrite filter_remove_mid; [done|]. apply (rep_nodup _ _ (qi_rep _ _ Hq)).
    - exists p. split_and!; [done| |by apply counts_zero].
      rewrite filter_ne_id; [apply Hq|]. intros (_ & Hi & Hr)%(qi_free _ _ Hq).
      rewrite Hr in E. simpl in E. apply negb_false_iff, (qi_is_null _ _ Hq) in E. done. }
  simpl. eexists. split; [done|]. set (p' := notify _ _).
  assert (Hco' : counts p (mult [Blk i]) p').
  { eapply counts_ext; [|eapply counts_trans; [exact Hco|eapply counts_trans;
      [apply (update_counts _ (Blk i) 1); by apply (co_shape _ _ _ Hco)|apply notify_counts]]].
    intros r. simpl. lia. }
  split; [|done]. split; [|by apply (cache_inv_same p), Hc; apply Hco'].
  apply (queue_inv_intro p p' free); [done|apply Hco'|..].
  - apply (same_queue_rep _ _ _ (proj1 (notify_same _ _))). by apply update_ref_rep.
  - intros r Hr. apply (qi_blk _ _ Hq). by apply list_elem_of_filter in Hr as [_ ?].
  - intros j. rewrite elem_of_filter_ne, (qi_free _ _ Hq).
    split.
    + intros [(Hh & H0 & Hr) Hne]. split_and!; [done|done|].
      rewrite (co_ref _ _ _ Hco' _ Hh), mult_single, decide_False by congruence. lia.
    + intros (Hh & H0 & Hr). rewrite (co_ref _ _ _ Hco' _ Hh), mult_single in Hr.
      pose proof (qi_ref _ _ Hq j H0). case_decide; [lia|]. split_and!; [done|done|lia|congruence].
  - intros j Hj. pose proof (qi_ref _ _ Hq j Hj). pose proof (mult_nonneg [Blk i] (Blk j)).
    by apply (counts_nonneg p (mult [Blk i])); [|lia].
Qed.

(** Touching blocks adds one reference per occurrence and takes the touched
    blocks out of the free queue. *)
Lemma touch_spec p free rs :
  pool_inv p free → (∀ r, r ∈ rs → ∃ i, r = Blk i ∧ has (pool_store p) r) →
  ∃ p', touch rs p = Ok p' ∧ pool_inv p' (filter (λ r, r ∉ rs) free) ∧ counts p (mult rs) p'.
Proof.
  intros Hinv Hrs. unfold touch.
  set (I := λ (dn : list ref) p', pool_inv p' (filter (λ r, r ∉ dn) free) ∧ counts p (mult dn) p').
  apply (foldM_ind touch_step I rs); unfold I; clear I.
  - split; [|by apply counts_zero]. replace (filter _ free) with free; [done|].
    clear Hinv. induction free as [|r l IH]; [done|].
    rewrite filter_cons_True by apply not_elem_of_nil. by f_equal.
  - intros dn r todo p1 -> [Hinv1 Hco]. destruct (Hrs r) as (i & -> & Hhas); [set_solver|].
    destruct (touch_step_spec p1 _ i Hinv1) as (p2 & -> & Hinv2 & Hco2); [by apply (co_shape _ _ _ Hco)|].
    exists p2. split_and!; [done|..].
    + rewrite <-filter_not_in_snoc.
      erewrite list_filter_iff; [exact Hinv2|]. intros r. by rewrite list_elem_of_singleton.
    + eapply counts_ext; [|by eapply counts_trans]. intros r. by rewrite mult_app.
Qed.

(** Freeing [l] drops the last reference of the block. *)
Definition drops_last p (l : list ref) (r : ref) : Prop :=
  is_null (blk p r) = false ∧ ref_cnt (blk p r) = mult l r.

#[export] Instance drops_last_dec p l r : Decision (drops_last p l r).
Proof. unfold drops_last. apply _. Defined.

(** The blocks that lose their last reference when [l] is freed, in order. *)
Definition released p (l : list ref) : list ref :=
  filter (drops_last p l) (remove_dups l).

(** Evicted before cached blocks: not in the prefix cache. *)
Definition evict_first p (r : ref) : Prop := block_hash (blk p r) = None ∨ enable_caching p = false.

#[export] Instance evict_first_dec p r : Decision (evict_first p r).
Proof. unfold evict_first. apply _. Defined.

Lemma released_snoc p l r :
  (is_null (blk p r) = false → mult (l ++ [r]) r ≤ ref_cnt (blk p r)) →
  released p (l ++ [r]) = released p l ++ filter (drops_last p (l ++ [r])) [r].
Proof.
  intros Hr. unfold released. rewrite remove_dups_snoc, filter_app. f_equal.
  rewrite <-(filter_filter_ne (drops_last p l) _ r).
  - rewrite !list_filter_filter. apply list_filter_iff. intros x. unfold drops_last.
    rewrite mult_app, mult_single. case_decide; subst; [tauto|].
    rewrite Z.add_0_r. tauto.
  - intros [Hn Hm]. specialize (Hr Hn). rewrite mult_app, mult_single, decide_True in Hr by done. lia.
Qed.

(** One step of the loop, in terms of the state before the loop. *)
Lemma free_step_spec p p1 a b l r :
  has (pool_store p) r → counts p (λ x, - mult l x) p1 →
  ∃ p2, free_step (p1, a, b) r =
      (p2, a ++ filter (evict_first p) (filter (drops_last p (l ++ [r])) [r]),
       b ++ filter (λ r, ¬ evict_first p r) (filter (drops_last p (l ++ [r])) [r])) ∧
    counts p (λ x, - mult (l ++ [r]) x) p2 ∧
    ∀ f, queue_rep (free_block_queue p1) f → queue_rep (free_block_queue p2) f.
Proof.
  intros Hhr Hco. unfold free_step. set (p2 := update_block _ r p1). exists p2.
  assert (Hco2 : counts p (λ x, - mult (l ++ [r]) x) p2).
  { eapply counts_ext; [|eapply counts_trans; [exact Hco|apply (update_counts _ r (-1));
      by apply (co_shape _ _ _ Hco)]]. intros x. rewrite mult_app. simpl. lia. }
  split_and!; [|done|intros f Hf; by apply update_ref_rep].
  rewrite (co_ref _ _ _ Hco2 r Hhr), <-(sh_is_null _ _ (co_shape _ _ _ Hco2)),
    <-(sc_hash _ _ (co_cache _ _ _ Hco2)), <-(cf_caching _ _ (sh_config _ _ (co_shape _ _ _ Hco2))).
  rewrite filter_cons.
  destruct (Z.eqb_spec (ref_cnt (blk p r) + - mult (l ++ [r]) r) 0) as [Hz|Hz].
  2: { rewrite decide_False by (intros [? ?]; lia). simpl. by rewrite !filter_nil, !app_nil_r. }
  destruct (is_null (blk p r)) eqn:Hn.
  { rewrite decide_False by (intros [? ?]; congruence). simpl. by rewrite !filter_nil, !app_nil_r. }
  rewrite decide_True by (split; [done|lia]). rewrite filter_nil, !filter_cons, !filter_nil.
  destruct (decide (evict_first p r)) as [He|He].
  - assert (bool_decide (block_hash (blk p r) = None) || negb (enable_caching p) = true) as ->.
    { unfold evict_first in He. rewrite orb_true_iff, bool_decide_eq_true, negb_true_iff. done. }
    rewrite decide_False by tauto. simpl. by rewrite app_nil_r.
  - assert (bool_decide (block_hash (blk p r) = None) || negb (enable_caching p) = false) as ->.
    { unfold evict_first in He. rewrite orb_false_iff, bool_decide_eq_false, negb_false_iff.
      destruct (enable_caching p); tauto. }
    rewrite decide_True by tauto. simpl. by rewrite app_nil_r.
Qed.

(** The loop of [free_blocks]. *)
Lemma free_loop_spec p l :
  (∀ r, r ∈ l → has (pool_store p) r) →
  (∀ r, r ∈ l → is_null (blk p r) = false → mult l r ≤ ref_cnt (blk p r)) →
  ∃ p1, foldl free_step (p, [], []) l =
      (p1, filter (evict_first p) (released p l), filter (λ r, ¬ evict_first p r) (released p l)) ∧
    counts p (λ r, - mult l r) p1 ∧
    ∀ f, queue_rep (free_block_queue p) f → queue_rep (free_block_queue p1) f.
Proof.
  induction l as [|r l IH] using rev_ind; intros Hhas Hmul.
  { exists p. split_and!; [done|by apply counts_zero|done]. }
  destruct IH as (p1 & Hf & Hco & Hrep).
  { intros x Hx. apply Hhas. set_solver. }
  { intros x Hx Hn. pose proof (Hmul x ltac:(set_solver) Hn) as Hm. rewrite mult_app in Hm.
    pose proof (mult_nonneg [r] x). lia. }
  rewrite foldl_app, Hf. cbn [foldl].
  destruct (free_step_spec p p1 (filter (evict_first p) (released p l))
    (filter (λ r, ¬ evict_first p r) (released p l)) l r) as (p2 & -> & Hco2 & Hrep2);
    [apply Hhas; set_solver|done|].
  exists p2. split_and!; [|done|auto].
  rewrite released_snoc by (apply Hmul; set_solver). by rewrite !filter_app.
Qed.

(** What may be freed: every block with at least as many references as it
    is freed times; the null block any number of times. *)
Definition freeable p (l : list ref) : Prop :=
  ∀ r, r ∈ l → (∃ i, r = Blk i) ∧ has (pool_store p) r ∧
    (is_null (blk p r) = false → mult l r ≤ ref_cnt (blk p r)).

Lemma elem_of_released p l r :
  r ∈ released p l ↔ r ∈ l ∧ is_null (blk p r) = false ∧ ref_cnt (blk p r) = mult l r.
Proof. unfold released. rewrite list_elem_of_filter, elem_of_remove_dups. unfold drops_last. tauto. Qed.

Lemma released_not_free p free l r :
  queue_inv p free → freeable p l → r ∈ released p l → r ∉ free.
Proof.
  intros Hq Hl (Hr & Hn & Hm)%elem_of_released Hf. destruct (Hl r Hr) as ([i ->] & _ & _).
  apply (qi_free _ _ Hq) in Hf as (_ & _ & Hz). apply mult_pos in Hr. lia.
Qed.

(** The blocks of the queue after [free_blocks]. *)
Definition free_after p (l free : list ref) : list ref :=
  filter (evict_first p) (released p l) ++ free ++ filter (λ r, ¬ evict_first p r) (released p l).

Lemma elem_of_free_after p l free r : r ∈ free_after p l free ↔ r ∈ released p l ∨ r ∈ free.
Proof.
  unfold free_after. rewrite !elem_of_app, !list_elem_of_filter.
  destruct (decide (evict_first p r)); tauto.
Qed.

Lemma free_after_zero p free l i :
  queue_inv p free → freeable p l →
  Blk i ∈ free_after p l free ↔
  has (pool_store p) (Blk i) ∧ i ≠ 0%nat ∧ ref_cnt (blk p (Blk i)) - mult l (Blk i) = 0.
Proof.
  intros Hq Hl. rewrite elem_of_free_after, elem_of_released, (qi_free _ _ Hq).
  pose proof (mult_pos l (Blk i)) as Hp. pose proof (mult_nonneg l (Blk i)).
  assert (Hn : is_null (blk p (Blk i)) = false ↔ i ≠ 0%nat).
  { pose proof (qi_is_null _ _ Hq i). destruct (is_null _); naive_solver. }
  split.
  - intros [(Hin & Hnn & Hm)|(Hh & Hi0 & Hz)].
    + destruct (Hl _ Hin) as (_ & Hh & _). split_and!; [done|by apply Hn|lia].
    + split_and!; [done|done|]. destruct (decide (Blk i ∈ l)) as [Hin|Hin].
      * destruct (Hl _ Hin) as (_ & _ & Hle). rewrite Hn in Hle. specialize (Hle Hi0). lia.
      * assert (¬ 0 < mult l (Blk i)) by (by rewrite Hp). lia.
  - intros (Hh & Hi0 & Hz). destruct (decide (Blk i ∈ l)) as [Hin|Hin].
    + left. split_and!; [done|by apply Hn|lia].
    + right. assert (¬ 0 < mult l (Blk i)) by (by rewrite Hp). split_and!; [done|done|lia].
Qed.

Lemma not_in_ring free r : (∃ i, r = Blk i) → r ∉ free → r ∉ ring free.
Proof. intros [i ->] Hr. unfold ring. rewrite elem_of_cons, elem_of_app, list_elem_of_singleton. naive_solver. Qed.

(** Both queue insertions of [free_blocks]. *)
Lemma free_queue_spec p free l p1 :
  queue_inv p free → freeable p l → queue_rep (free_block_queue p1) free → same_shape p p1 →
  ∃ q1 q2, prepend_n (filter (evict_first p) (released p l)) (free_block_queue p1) = Ok q1 ∧
    append_n (filter (λ r, ¬ evict_first p r) (released p l)) q1 = Ok q2 ∧
    queue_rep q2 (free_after p l free) ∧ same_core (fq_store q2) (pool_store p1).
Proof.
  intros Hq Hl Hrep Hsh.
  assert (Hnd : NoDup (released p l)) by (apply NoDup_filter, NoDup_remove_dups).
  assert (Hrel : ∀ r, r ∈ released p l → (∃ i, r = Blk i) ∧ (r ∉ free) ∧ has (pool_store p1) r).
  { intros r Hr. pose proof (released_not_free p free l r Hq Hl Hr).
    apply elem_of_released in Hr as (Hr & _). destruct (Hl r Hr) as (? & ? & _).
    split_and!; [done|done|by apply Hsh]. }
  destruct (prepend_n_spec (free_block_queue p1) free (filter (evict_first p) (released p l)))
    as (q1 & Hp1 & Hrep1 & Hcore1); [done|by apply NoDup_filter| |].
  { intros r [_ Hr]%list_elem_of_filter. destruct (Hrel r Hr) as (? & ? & ?).
    split; [by apply not_in_ring|done]. }
  destruct (append_n_spec q1 _ (filter (λ r, ¬ evict_first p r) (released p l)) Hrep1)
    as (q2 & Hp2 & Hrep2 & Hcore2); [by apply NoDup_filter| |].
  { intros r [Hne Hr]%list_elem_of_filter. destruct (Hrel r Hr) as (? & ? & ?). split.
    - apply not_in_ring; [done|]. rewrite elem_of_app, list_elem_of_filter. tauto.
    - by eapply same_core_has; [symmetry|]. }
  exists q1, q2. split_and!; [done|done| |by etransitivity].
  unfold free_after. by rewrite app_assoc.
Qed.

Lemma free_blocks_spec p free l :
  pool_inv p free → freeable p l →
  ∃ p', free_blocks l p = Ok p' ∧ pool_inv p' (free_after p l free) ∧ counts p (λ r, - mult l r) p'.
Proof.
  intros [Hq Hc] Hl. unfold free_blocks.
  destruct (free_loop_spec p l) as (p1 & -> & Hco & Hrep); [apply Hl|apply Hl|].
  destruct (free_queue_spec p free l p1 Hq Hl (Hrep _ (qi_rep _ _ Hq)) (co_shape _ _ _ Hco))
    as (q1 & q2 & -> & Hq2 & Hrep2 & Hcore). simpl. rewrite Hq2. simpl.
  eexists. split; [done|]. set (p' := set_free_block_queue q2 p1).
  assert (Hco' : counts p (λ r, - mult l r) p').
  { eapply counts_ext; [|eapply counts_trans; [exact Hco|by apply queue_counts]]. intros r. simpl. lia. }
  split; [|done]. split; [|by apply (cache_inv_same p); [apply Hco'|]].
  apply (queue_inv_intro p p' free); [done|apply Hco'|done|..].
  - intros r [(Hr & _)%elem_of_released|Hr]%elem_of_free_after; [by apply Hl|by apply (qi_blk _ _ Hq)].
  - intros i. rewrite free_after_zero by done.
    split; intros (Hh & Hi0 & Hz); (split_and!; [done|done|]);
      rewrite (co_ref _ _ _ Hco' _ Hh) in *; lia.
  - intros i Hi. apply (counts_nonneg p (λ r, - mult l r)); [done|].
    pose proof (qi_ref _ _ Hq i Hi). destruct (decide (Blk i ∈ l)) as [Hin|Hin].
    + destruct (Hl _ Hin) as (_ & _ & Hle). pose proof (qi_is_null _ _ Hq i).
      destruct (is_null _); [naive_solver|]. specialize (Hle eq_refl). lia.
    + rewrite <-mult_pos in Hin. pose proof (mult_nonneg l (Blk i)). lia.
Qed.
End References.
