(* ===== verification/BlockPoolSpec.v ===== *)
(** * Correctness of the block pool

    The prefix-cache operations of [BlockPool] (caching full and partial
    blocks, moving and evicting hashes, resetting the cache), the initial pool,
    and the invariant of every reachable pool. *)

From S2P Require Import Prelude FreeQueue Request BlockHash BlockMap BlockPool.
Local Open Scope Z_scope.

(** ** Hashes at the granularity of a group *)

(** The hash of the [i]-th block of [block_size] tokens. *)
Definition level_hash (hs : list bytes) (hbs block_size i : Z) : option bytes :=
  hs !! Z.to_nat ((i + 1) * (block_size / hbs) - 1).

Lemma mapM_ok_total {A B} (f : A → result B) (g : A → option B) l :
  (∀ x, x ∈ l → ∃ y, f x = Ok y ∧ g x = Some y) →
  ∃ ys, mapM_ok f l = Ok ys ∧ ∀ i, ys !! i = l !! i ≫= g.
Proof.
  induction l as [|x l IH]; intros Hf; [by exists []|].
  destruct (Hf x) as (y & Hy & Hg); [left|]. destruct IH as (ys & Hys & Hl); [intros; apply Hf; by right|].
  exists (y :: ys). simpl. rewrite Hy. simpl. rewrite Hys. split; [done|].
  intros [|i]; simpl; [done|apply Hl].
Qed.

Lemma view_from hs k a :
  0 < k → 0 ≤ a →
  ∃ l, hl_from (HashView hs k) a = Ok l ∧ ∀ i : nat, l !! i = hs !! Z.to_nat ((a + Z.of_nat i + 1) * k - 1).
Proof.
  intros Hk Ha. unfold hl_from, hl_len. set (n := py_len hs / k).
  pose proof (py_len_nonneg hs) as Hlen.
  pose proof (Z.div_mod (py_len hs) k ltac:(lia)) as Hdm. pose proof (Z.mod_pos_bound (py_len hs) k ltac:(lia)) as Hmb.
  fold n in Hdm. assert (0 ≤ n) by (apply Z.div_pos; lia).
  destruct (mapM_ok_total (get_value_at hs k) (λ i, hs !! Z.to_nat ((i + 1) * k - 1))
    (py_range (slice_bound n a) n)) as (l & Hl & Hi).
  { intros i [Hi1 Hi2]%elem_of_py_range. unfold slice_bound in Hi1.
    destruct (Z.ltb_spec a 0); [lia|]. unfold get_value_at. rewrite py_get_nonneg by nia.
    destruct (lookup_lt_is_Some_2 hs (Z.to_nat ((i + 1) * k - 1))) as [h Hh]; [unfold py_len in *; nia|].
    exists h. by rewrite Hh. }
  exists l. split; [done|]. intros i. rewrite Hi. unfold py_range, slice_bound.
  destruct (Z.ltb_spec a 0); [lia|]. rewrite list_lookup_fmap.
  destruct (decide (Z.of_nat i < n - a)) as [Hlt|Hge].
  - rewrite lookup_seq_lt by lia. simpl. do 2 f_equal. lia.
  - rewrite lookup_seq_ge by lia. simpl. symmetry. apply lookup_ge_None_2. unfold py_len in *. nia.
Qed.

Lemma resolve_from hs hbs block_size a :
  0 < hbs → 0 < block_size → block_size mod hbs = 0 → 0 ≤ a →
  ∃ v l, resolve_block_hashes (RawHashes hs) hbs block_size false None = Ok v ∧
    hl_from v a = Ok l ∧ (∀ i : nat, l !! i = level_hash hs hbs block_size (a + Z.of_nat i)) ∧
    ∀ i, 0 ≤ i → hl_get v i = unwrap IndexError (level_hash hs hbs block_size i).
Proof.
  intros Hh Hb Hmod Ha. unfold resolve_block_hashes, level_hash.
  pose proof (Z.div_mod block_size hbs ltac:(lia)) as Hdm.
  destruct (Z.eqb_spec block_size hbs) as [->|Hne].
  - exists (RawHashes hs), (py_from hs a). rewrite Z.div_same by lia. split_and!; try done.
    + intros i. rewrite py_from_nonneg, lookup_drop by done. f_equal. lia.
    + intros i Hi. simpl. rewrite py_get_nonneg by done. do 2 f_equal. lia.
  - simpl. rewrite Hmod. simpl. unfold BlockHashListWithBlockSize. rewrite Hmod. simpl.
    destruct (view_from hs (block_size / hbs) a ltac:(nia) Ha) as (l & Hl & Hi).
    eexists _, l. split_and!; [done|done|done|].
    intros i Hi0. simpl. unfold get_value_at. by rewrite py_get_nonneg by nia.
Qed.

(** ** Caching full blocks *)

Section FullBlocks.
Context `{PoolEnv}.
Implicit Types (p : BlockPool) (i j : nat) (free : list ref) (key : bytes).

(** Only the prefix-cache side changed. *)
Record recached p p' : Prop := {
  rc_inv : cache_inv p';
  rc_queue : same_queue p p';
  rc_config : same_config p p';
}.

Lemma recached_pool_inv p p' free : recached p p' → pool_inv p free → pool_inv p' free.
Proof. intros [] [Hq _]. split; [|done]. by apply (queue_inv_same p). Qed.

Lemma recached_trans p1 p2 p3 : recached p1 p2 → recached p2 p3 → recached p1 p3.
Proof. intros [] []. constructor; [done|by etransitivity..]. Qed.

Lemma recached_events p v : cache_inv p → recached p (set_kv_event_queue v p).
Proof.
  intros Hc. destruct (set_events_same v p) as (? & ? & ?). constructor; [by apply (cache_inv_same p)|done..].
Qed.

(** Block [i] carries exactly [key], for a prefix of [n] tokens. *)
Record rekeys p i key (n : Z) p' : Prop := {
  rk_recached : recached p p';
  rk_hash : ∀ j, block_hash (blk p' (Blk j)) =
    if decide (j = i) then Some key else block_hash (blk p (Blk j));
  rk_tokens : ∀ j, block_hash_num_tokens (blk p' (Blk j)) =
    if decide (j = i) then Some n else block_hash_num_tokens (blk p (Blk j));
  rk_owns : ∀ j k, owns p' j k ↔ if decide (j = i) then k = key else owns p j k;
}.

(** Dropping the old keys of a block and giving it a new one. *)
Lemma replace_key_spec p i key n :
  cache_inv p → has (pool_store p) (Blk i) → i ≠ 0%nat →
  ∃ p2, _insert_block_hash key (Blk i) (Some n)
      (match block_hash (blk p (Blk i)) with
       | None => p
       | Some _ => let '(removed, p') := _remove_cached_block_hashes (Blk i) p in
                   _emit_block_removed_events removed p'
       end) = Ok p2 ∧ rekeys p i key n p2.
Proof.
  intros Hc Hhas Hi. destruct (remove_hashes_spec p i Hc) as (p1 & Hrm & Hr & _).
  set (p1' := match block_hash (blk p (Blk i)) with None => p | Some _ => _ end).
  assert (Hp1 : removes p i p1').
  { unfold p1'. destruct (block_hash (blk p (Blk i))) as [h|] eqn:Hh.
    - rewrite Hrm. destruct (emit_same (hash_list p i) p1) as (Hq & Hsc & Hcf).
      pose proof (λ j k, owns_same _ _ j k Hsc) as Ho. destruct Hr. constructor.
      + by apply (cache_inv_same p1).
      + by etransitivity.
      + by etransitivity.
      + intros j. rewrite <-rm_blk. unfold _emit_block_removed_events. by case_match.
      + intros k. by rewrite <-rm_contents, (sc_map _ _ Hsc).
      + intros j k. by rewrite <-Ho.
    - rewrite remove_hashes_unhashed in Hrm by done. by injection Hrm as _ <-. }
  clearbody p1'. clear Hrm Hr p1. rename p1' into p1.
  destruct (insert_hash_spec p1 i key (Some n)) as (p2 & -> & Hin & _).
  { apply Hp1. } { by apply (sq_has _ _ (rm_queue _ _ _ Hp1)). } { done. }
  exists p2. split; [done|].
  assert (Hnone : block_hash (blk p1 (Blk i)) = None) by (by rewrite (rm_blk _ _ _ Hp1), decide_True).
  constructor.
  - constructor; [apply Hin|..].
    + etransitivity; [apply Hp1|apply Hin].
    + etransitivity; [apply Hp1|apply Hin].
  - intros j. rewrite (in_blk _ _ _ _ _ Hin), Hnone, (rm_blk _ _ _ Hp1 j).
    destruct (decide (j = i)) as [->|]; [by rewrite decide_True|by rewrite decide_False by naive_solver].
  - intros j. rewrite (in_blk _ _ _ _ _ Hin), Hnone, (rm_blk _ _ _ Hp1 j).
    destruct (decide (j = i)) as [->|]; [by rewrite decide_True|by rewrite decide_False by naive_solver].
  - intros j k. rewrite (in_owns _ _ _ _ _ Hin), (rm_owns _ _ _ Hp1).
    destruct (decide (j = i)); naive_solver.
Qed.

(** A block that is cached by a call: not null and not masked out. *)
Definition selected p (mask : option (list bool)) (i : nat) (r : ref) : bool :=
  negb (is_null (blk p r)) && match mask with None => true | Some m => default true (m !! i) end.

Lemma selected_skip p mask i r :
  (∀ m, mask = Some m → (i < length m)%nat) →
  (if is_null (blk p r) then Ok true else masked_out mask (Z.of_nat i)) = Ok (negb (selected p mask i r)).
Proof.
  intros Hm. unfold selected, masked_out. destruct (is_null (blk p r)); [done|]. simpl.
  destruct mask as [m|]; [|done]. destruct (lookup_lt_is_Some_2 m i) as [b Hb]; [by apply Hm|].
  rewrite (py_get_Some _ _ _ Hb). simpl. by rewrite Hb.
Qed.

(** A block may be cached for a prefix of [n] tokens: it is a block of the
    pool, and its hash, if any, covers fewer tokens. *)
Definition promotable p (r : ref) (n : Z) : Prop :=
  (∃ j, r = Blk j ∧ j ≠ 0%nat ∧ has (pool_store p) r) ∧
  (block_hash (blk p r) ≠ None → ∃ n', block_hash_num_tokens (blk p r) = Some n' ∧ n' < n).

Lemma cache_full_step_spec p hs new_block_hashes a block_size gid mask i r h key :
  cache_inv p → (∀ m, mask = Some m → (i < length m)%nat) →
  selected p mask i r = true → promotable p r ((a + Z.of_nat i + 1) * block_size) →
  new_block_hashes !! i = Some h → make_block_hash_with_group_id h gid = Ok key →
  ∃ j p', r = Blk j ∧
    cache_full_step new_block_hashes a block_size gid mask (p, hs) (i, r) = Ok (p', hs ++ [convert h]) ∧
    rekeys p j key ((a + Z.of_nat i + 1) * block_size) p'.
Proof.
  intros Hc Hm Hsel [(j & -> & Hj & Hhas) Hold] Hh Hkey. exists j.
  unfold cache_full_step. rewrite selected_skip, Hsel by done. cbn -[py_get make_block_hash_with_group_id].
  rewrite (py_get_Some _ _ _ Hh). cbn -[make_block_hash_with_group_id]. rewrite Hkey. cbn.
  destruct (replace_key_spec p j key ((a + Z.of_nat i + 1) * block_size) Hc Hhas Hj) as (p' & Hins & Hrk).
  exists p'. split_and!; [done| |done].
  destruct (block_hash (blk p (Blk j))) as [h0|].
  - destruct Hold as (n' & -> & Hn'); [done|]. rewrite (proj2 (Z.ltb_lt _ _) Hn'). cbn.
    destruct (_remove_cached_block_hashes (Blk j) p) as [removed p1]. cbn. by rewrite Hins.
  - cbn. by rewrite Hins.
Qed.

(** The packed key, total on valid group ids. *)
Definition pack (h : bytes) (gid : Z) : bytes :=
  match make_block_hash_with_group_id h gid with Ok key => key | Err _ => [] end.

Definition valid_group (gid : Z) : Prop := 0 ≤ gid < 2 ^ 32.

Lemma make_pack h gid : valid_group gid → make_block_hash_with_group_id h gid = Ok (pack h gid).
Proof.
  intros [H1 H2]. unfold pack, make_block_hash_with_group_id, to_bytes4.
  apply Z.leb_le in H1. apply Z.ltb_lt in H2. by rewrite H1, H2.
Qed.

Section Loop.
Context (p : BlockPool) (new_bh : list bytes) (a B gid : Z) (mask : option (list bool)).
Context (Hinv : cache_inv p) (HB : 0 < B) (Hgid : valid_group gid).

(** The key and prefix length an iteration gives to block [j]. *)
Definition given (j : nat) (ib : nat * ref) : option (bytes * Z) :=
  if selected p mask ib.1 ib.2 && bool_decide (ib.2 = Blk j)
  then (λ h, (pack h gid, (a + Z.of_nat ib.1 + 1) * B)) <$> new_bh !! ib.1 else None.

(** The outcome of the iterations [dn] for block [j]: the last one counts. *)
Definition assigned (dn : list (nat * ref)) (j : nat) : option (bytes * Z) := last (omap (given j) dn).

Lemma assigned_snoc dn ib j :
  assigned (dn ++ [ib]) j = match given j ib with Some v => Some v | None => assigned dn j end.
Proof.
  unfold assigned. rewrite omap_app. simpl. destruct (given j ib); [apply last_snoc|by rewrite app_nil_r].
Qed.

Lemma assigned_given dn j v : assigned dn j = Some v → ∃ ib, ib ∈ dn ∧ given j ib = Some v.
Proof. intros Hv%last_Some_elem_of. by apply list_elem_of_omap in Hv. Qed.

(** The hashes reported for the iterations [dn]. *)
Definition reported (dn : list (nat * ref)) : list ExternalBlockHash :=
  omap (λ ib, if selected p mask ib.1 ib.2 then convert <$> new_bh !! ib.1 else None) dn.

Record cached_upto (dn : list (nat * ref)) (p' : BlockPool) : Prop := {
  cu_recached : recached p p';
  cu_hash : ∀ j, block_hash (blk p' (Blk j)) =
    match assigned dn j with Some (key, _) => Some key | None => block_hash (blk p (Blk j)) end;
  cu_tokens : ∀ j, block_hash_num_tokens (blk p' (Blk j)) =
    match assigned dn j with Some (_, n) => Some n | None => block_hash_num_tokens (blk p (Blk j)) end;
  cu_owns : ∀ j k, owns p' j k ↔
    match assigned dn j with Some (key, _) => k = key | None => owns p j k end;
}.

Lemma cached_upto_skip dn ib p' :
  selected p mask ib.1 ib.2 = false → cached_upto dn p' → cached_upto (dn ++ [ib]) p'.
Proof.
  intros Hs []. assert (Ha : ∀ j, assigned (dn ++ [ib]) j = assigned dn j).
  { intros j. rewrite assigned_snoc. unfold given. by rewrite Hs. }
  constructor; [done|..]; intros; rewrite Ha; auto.
Qed.

Lemma cached_upto_step dn i j h p1 p2 :
  selected p mask i (Blk j) = true → new_bh !! i = Some h →
  cached_upto dn p1 → rekeys p1 j (pack h gid) ((a + Z.of_nat i + 1) * B) p2 →
  cached_upto (dn ++ [(i, Blk j)]) p2.
Proof.
  intros Hs Hh [] []. assert (Ha : ∀ j', assigned (dn ++ [(i, Blk j)]) j' =
    if decide (j' = j) then Some (pack h gid, (a + Z.of_nat i + 1) * B) else assigned dn j').
  { intros j'. rewrite assigned_snoc. unfold given. simpl. rewrite Hs, Hh.
    destruct (decide (j' = j)) as [->|Hne]; [by rewrite bool_decide_true|].
    by rewrite bool_decide_false by congruence. }
  constructor.
  - by eapply recached_trans.
  - intros j'. rewrite Ha, rk_hash0, cu_hash0. by destruct (decide (j' = j)).
  - intros j'. rewrite Ha, rk_tokens0, cu_tokens0. by destruct (decide (j' = j)).
  - intros j' k. rewrite Ha, rk_owns0. destruct (decide (j' = j)); [done|apply cu_owns0].
Qed.

Lemma selected_recached p' i r : recached p p' → selected p' mask i r = selected p mask i r.
Proof. intros []. unfold selected. by rewrite (sq_is_null _ _ rc_queue0). Qed.

(** A block that is promotable at the start stays so: iterations only give
    it shorter prefixes. *)
Lemma promotable_upto dn i r p' :
  (∀ ib, ib ∈ dn → (ib.1 < i)%nat) → cached_upto dn p' →
  promotable p r ((a + Z.of_nat i + 1) * B) → promotable p' r ((a + Z.of_nat i + 1) * B).
Proof.
  intros Hlt [] [(j & -> & Hj & Hhas) Hold]. split.
  { exists j. split_and!; [done|done|]. by apply (sq_has _ _ (rc_queue _ _ cu_recached0)). }
  rewrite cu_hash0, cu_tokens0. destruct (assigned dn j) as [[key n]|] eqn:Ha; [|done].
  intros _. exists n. split; [done|]. apply assigned_given in Ha as ([i' r'] & Hin & Hg).
  apply Hlt in Hin. unfold given in Hg. simpl in *.
  destruct (_ && _); [|done]. destruct (new_bh !! i'); [|done]. simplify_eq/=. nia.
Qed.

Lemma elem_of_imap_pair (bs : list ref) ib : ib ∈ imap pair bs ↔ bs !! ib.1 = Some ib.2.
Proof.
  rewrite list_elem_of_lookup. setoid_rewrite list_lookup_imap_Some. destruct ib as [i r]. simpl.
  naive_solver.
Qed.

(** The first loop of [cache_full_blocks]. *)
Lemma cache_full_loop_spec bs :
  (∀ m, mask = Some m → length m = length bs) →
  (∀ i r, bs !! i = Some r → selected p mask i r = true →
     promotable p r ((a + Z.of_nat i + 1) * B) ∧ is_Some (new_bh !! i)) →
  ∃ p', foldM (cache_full_step new_bh a B gid mask) (p, []) (imap pair bs)
        = Ok (p', reported (imap pair bs)) ∧ cached_upto (imap pair bs) p'.
Proof.
  intros Hm Hbs.
  destruct (foldM_ind (cache_full_step new_bh a B gid mask)
    (λ dn st, st.2 = reported dn ∧ cached_upto dn st.1) (imap pair bs) (p, []))
    as ([p' hs] & Hf & Hhs & Hc).
  - split; [done|]. by constructor.
  - intros dn [i r] todo [p1 hs] Hsplit [Hhs Hc]. simpl in *.
    assert (Hi : i = length dn ∧ bs !! i = Some r).
    { assert (imap pair bs !! length dn = Some (i, r)) as Hl.
      { rewrite Hsplit. by rewrite list_lookup_middle. }
      rewrite list_lookup_imap in Hl. destruct (bs !! length dn) eqn:E; simpl in Hl; naive_solver. }
    destruct Hi as [Hi Hr].
    assert (Hlt : ∀ ib, ib ∈ dn → (ib.1 < i)%nat).
    { intros ib [k Hk]%list_elem_of_lookup. pose proof (lookup_lt_Some _ _ _ Hk).
      assert (imap pair bs !! k = Some ib) as Hl by (rewrite Hsplit, lookup_app_l by done; done).
      rewrite list_lookup_imap in Hl. destruct (bs !! k); simpl in Hl; simplify_eq/=; lia. }
    assert (Hmi : ∀ m, mask = Some m → (i < length m)%nat).
    { intros m Hmm. rewrite (Hm m Hmm). by apply lookup_lt_Some in Hr. }
    destruct (selected p mask i r) eqn:Hs.
    + destruct (Hbs i r Hr Hs) as [Hprom [h Hh]].
      destruct (cache_full_step_spec p1 hs new_bh a B gid mask i r h (pack h gid)) as (j & p2 & -> & Hst & Hrk).
      * apply Hc.
      * done.
      * by rewrite selected_recached by apply Hc.
      * by apply (promotable_upto dn).
      * done.
      * by apply make_pack.
      * eexists. split; [exact Hst|]. simpl. split; [|by eapply cached_upto_step].
        subst hs. unfold reported. rewrite omap_app. simpl. by rewrite Hs, Hh.
    + exists (p1, hs). split; [|split].
      * unfold cache_full_step. rewrite selected_skip, selected_recached, Hs by (done || apply Hc). done.
      * simpl. subst hs. unfold reported. rewrite omap_app. simpl. rewrite Hs. by rewrite app_nil_r.
      * simpl. by apply cached_upto_skip.
  - simpl in *. subst hs. by exists p'.
Qed.
End Loop.

Lemma py_range_split (a b : Z) (dn : list Z) (i : Z) (todo : list Z) :
  py_range a b = dn ++ i :: todo → i = a + py_len dn ∧ a ≤ i < b.
Proof.
  intros Hs. assert (Hl : py_range a b !! length dn = Some i) by (rewrite Hs; by apply list_lookup_middle).
  assert (Hin : i ∈ py_range a b) by (rewrite Hs; set_solver). apply elem_of_py_range in Hin.
  unfold py_range in Hl. apply list_lookup_fmap_Some in Hl as (k & -> & Hk).
  apply lookup_seq in Hk as [-> ?]. unfold py_len. lia.
Qed.

(** The extra keys an event reports, for the blocks [idxs]. *)
Definition reported_keys p (req : Request) (blocks : list ref) (a B : Z) (mask : option (list bool))
    (idxs : list Z) : list (option (list ExtraKey)) :=
  omap (λ i : Z, match blocks !! Z.to_nat i with
             | Some r => if selected p mask (Z.to_nat (i - a)) r
                         then Some (extra_keys_ref sha256_rows req (i * B) (i * B + B)) else None
             | None => None
             end) idxs.

Lemma extra_keys_loop_spec p req blocks a b B mask :
  0 < B → 0 ≤ a → b ≤ py_len blocks → (∀ m, mask = Some m → py_len m = b - a) →
  wf_features (mm_features req) → memo_ok sha256_rows req →
  ∃ idx req', foldM (extra_keys_step p blocks a B mask) ([], 0, req) (py_range a b)
      = Ok (reported_keys p req blocks a B mask (py_range a b), idx, req') ∧ strip req' = strip req ∧ memo_ok sha256_rows req'.
Proof.
  intros HB Ha Hb Hm Hwf Hmemo.
  destruct (foldM_ind (extra_keys_step p blocks a B mask)
    (λ dn st, st.1.1 = reported_keys p req blocks a B mask dn ∧
      memo_ok sha256_rows st.2 ∧ strip st.2 = strip req ∧
      (mm_features req = [] ∨ cursor_ok (mm_features req) st.1.2 ((a + py_len dn) * B)))
    (py_range a b) ([], 0, req)) as ([[keys idx] req'] & Hf & Hk & Hmo & Hs & _).
  - simpl. split_and!; [done|done|done|]. right. unfold cursor_ok. simpl.
    pose proof (py_len_nonneg (mm_features req)). split_and!; [lia|constructor|lia].
  - intros dn i todo [[keys idx] req1] Hsplit (Hk & Hm1 & Hs1 & Hcur). simpl in *.
    destruct (py_range_split _ _ _ _ _ Hsplit) as [Hi [Hia Hib]].
    destruct (lookup_lt_is_Some_2 blocks (Z.to_nat i)) as [r Hr]; [unfold py_len in *; lia|].
    assert (Hmi : ∀ m, mask = Some m → (Z.to_nat (i - a) < length m)%nat).
    { intros m Hmm. specialize (Hm m Hmm). unfold py_len in Hm. lia. }
    pose proof (selected_skip p mask (Z.to_nat (i - a)) r Hmi) as Hskip. rewrite Z2Nat.id in Hskip by lia.
    assert (Hrep : reported_keys p req blocks a B mask (dn ++ [i]) = reported_keys p req blocks a B mask dn ++
      if selected p mask (Z.to_nat (i - a)) r then [extra_keys_ref sha256_rows req (i * B) (i * B + B)] else []).
    { unfold reported_keys. rewrite omap_app. simpl. rewrite Hr. by destruct (selected _ _ _ _). }
    destruct (strip_fields _ _ Hs1) as (_ & Hfe & _).
    rewrite py_get_nonneg, Hr by lia. simpl. rewrite Hskip. simpl.
    destruct (selected p mask (Z.to_nat (i - a)) r) eqn:Hsel; simpl.
    + destruct (generate_keys_spec sha256_rows req1 (i * B) (i * B + B) idx) as (idx' & req2 & -> & Hc2 & Hm2 & Hs2).
      { by rewrite Hfe. } { lia. } { done. } { rewrite Hfe. by rewrite Hi. }
      simpl. eexists. split; [done|]. simpl. rewrite Hfe in Hc2. split_and!.
      * rewrite Hrep, Hk. do 2 f_equal. change (extra_keys_ref sha256_rows (strip req1) (i * B) (i * B + B) =
          extra_keys_ref sha256_rows (strip req) (i * B) (i * B + B)). by rewrite Hs1.
      * done.
      * congruence.
      * rewrite py_len_app. change (py_len [i]) with 1.
        replace ((a + (py_len dn + 1)) * B) with (i * B + B) by (rewrite Hi; ring). done.
    + eexists. split; [done|]. simpl. split_and!; [by rewrite Hrep, Hk, app_nil_r|done|done|].
      destruct Hcur as [?|Hcur]; [by left|right]. eapply cursor_ok_mono; [|exact Hcur].
      rewrite py_len_app. unfold py_len. simpl. nia.
  - simpl in *. subst. eauto.
Qed.

(** A well-formed call of [cache_full_blocks]. *)
Record full_call p (req : Request) (blocks : list ref) (a b B gid : Z) (mask : option (list bool)) : Prop := {
  fc_lo : 0 ≤ a;
  fc_lt : a < b;
  fc_hi : b ≤ py_len blocks;
  fc_mask : ∀ m, mask = Some m → py_len m = b - a;
  fc_hbs : 0 < hash_block_size p;
  fc_B : 0 < B;
  fc_mod : B mod hash_block_size p = 0;
  fc_hashes : b * B ≤ py_len (block_hashes req) * hash_block_size p;
  fc_gid : valid_group gid;
  fc_blocks : ∀ (i : Z) r, a ≤ i < b → blocks !! Z.to_nat i = Some r →
    selected p mask (Z.to_nat (i - a)) r = true → promotable p r ((i + 1) * B);
  fc_distinct : ∀ (i i' : Z) r, a ≤ i < b → a ≤ i' < b →
    blocks !! Z.to_nat i = Some r → blocks !! Z.to_nat i' = Some r →
    selected p mask (Z.to_nat (i - a)) r = true → selected p mask (Z.to_nat (i' - a)) r = true → i = i';
  fc_wf : wf_features (mm_features req);
  fc_memo : memo_ok sha256_rows req;
}.

(** The block is one of those cached by the call. *)
Definition cached_by p (blocks : list ref) (a b : Z) (mask : option (list bool)) (i : Z) (j : nat) : Prop :=
  a ≤ i < b ∧ blocks !! Z.to_nat i = Some (Blk j) ∧ selected p mask (Z.to_nat (i - a)) (Blk j) = true.

(** What the call leaves behind. *)
Record full_effect p (req : Request) (blocks : list ref) (a b B gid : Z) (mask : option (list bool)) p' : Prop := {
  fe_recached : recached p p';
  fe_cached : ∀ (i : Z) j, cached_by p blocks a b mask i j →
    ∃ h, level_hash (block_hashes req) (hash_block_size p) B i = Some h ∧
      block_hash (blk p' (Blk j)) = Some (pack h gid) ∧
      block_hash_num_tokens (blk p' (Blk j)) = Some ((i + 1) * B) ∧
      ∀ k, owns p' j k ↔ k = pack h gid;
  fe_frame : ∀ j, (∀ i : Z, ¬ cached_by p blocks a b mask i j) →
    block_hash (blk p' (Blk j)) = block_hash (blk p (Blk j)) ∧
    block_hash_num_tokens (blk p' (Blk j)) = block_hash_num_tokens (blk p (Blk j)) ∧
    ∀ k, owns p' j k ↔ owns p j k;
}.

Lemma level_hash_some hs (hbs B i : Z) :
  0 < hbs → 0 < B → B mod hbs = 0 → 0 ≤ i → (i + 1) * B ≤ py_len hs * hbs →
  is_Some (level_hash hs hbs B i).
Proof.
  intros Hh HB Hmod Hi Hle. unfold level_hash. apply lookup_lt_is_Some_2.
  pose proof (Z.div_mod B hbs ltac:(lia)) as Hdm. rewrite Hmod in Hdm. unfold py_len in Hle.
  assert ((i + 1) * (B / hbs) ≤ Z.of_nat (length hs)) by nia. nia.
Qed.

Lemma slice_lookup (blocks : list ref) a b (i : nat) :
  0 ≤ a → a < b → b ≤ py_len blocks →
  py_slice blocks a b !! i = if decide (Z.of_nat i < b - a) then blocks !! Z.to_nat (a + Z.of_nat i) else None.
Proof.
  intros Ha Hab Hb. rewrite py_slice_nonneg by lia. case_decide.
  - rewrite lookup_take_lt, lookup_drop by lia. f_equal. lia.
  - apply lookup_take_ge. lia.
Qed.

Lemma slice_length (blocks : list ref) a b :
  0 ≤ a → a < b → b ≤ py_len blocks → py_len (py_slice blocks a b) = b - a.
Proof.
  intros Ha Hab Hb. rewrite py_slice_nonneg by lia. unfold py_len in *.
  rewrite length_take, length_drop. lia.
Qed.

Lemma given_cached p l a b B gid mask blocks j ib key n :
  0 ≤ a → a < b → b ≤ py_len blocks →
  ib ∈ imap pair (py_slice blocks a b) → given p l a B gid mask j ib = Some (key, n) →
  ∃ h, cached_by p blocks a b mask (a + Z.of_nat ib.1) j ∧ l !! ib.1 = Some h ∧
    key = pack h gid ∧ n = (a + Z.of_nat ib.1 + 1) * B.
Proof.
  intros Ha Hab Hb Hin%elem_of_imap_pair. destruct ib as [i r]. unfold given. simpl in *.
  rewrite slice_lookup in Hin by done. case_decide; [|done].
  destruct (_ && _) eqn:E; [|done]. apply andb_true_iff in E as [Hs Hr%bool_decide_eq_true]. subst r.
  destruct (l !! i) as [h|] eqn:Hh; [|done]. intros [= <- <-]. exists h. split; [|done]. unfold cached_by. split_and!; [lia|lia|done|].
  by replace (Z.to_nat (a + Z.of_nat i - a)) with i by lia.
Qed.

(** The state after the loop, block by block. *)
Lemma full_effect_intro p req blocks a b B gid mask l p' :
  full_call p req blocks a b B gid mask →
  (∀ i : nat, l !! i = level_hash (block_hashes req) (hash_block_size p) B (a + Z.of_nat i)) →
  cached_upto p l a B gid mask (imap pair (py_slice blocks a b)) p' →
  full_effect p req blocks a b B gid mask p'.
Proof.
  intros [] Hl [].
  set (dn := imap pair (py_slice blocks a b)) in *.
  assert (Hcached : ∀ (i : Z) j, cached_by p blocks a b mask i j → ∃ h,
    level_hash (block_hashes req) (hash_block_size p) B i = Some h ∧
    assigned p l a B gid mask dn j = Some (pack h gid, (i + 1) * B)).
  { intros i j (Hi & Hr & Hs).
    destruct (level_hash_some (block_hashes req) (hash_block_size p) B i) as [h Hh]; [done|done|done|lia|nia|].
    exists h. split; [done|].
    assert (Hin : (Z.to_nat (i - a), Blk j) ∈ dn).
    { apply elem_of_imap_pair. simpl. rewrite slice_lookup, decide_True by lia. rewrite <-Hr. f_equal. lia. }
    assert (Hg : given p l a B gid mask j (Z.to_nat (i - a), Blk j) = Some (pack h gid, (i + 1) * B)).
    { unfold given. simpl. rewrite Hs, bool_decide_true, Hl by done. simpl.
      replace (a + Z.of_nat (Z.to_nat (i - a))) with i by lia. by rewrite Hh. }
    destruct (assigned p l a B gid mask dn j) as [[key n]|] eqn:Ha.
    - apply assigned_given in Ha as (ib & Hib & Hgib).
      destruct (given_cached p l a b B gid mask blocks j ib key n) as (h' & (? & ? & ?) & Hh' & -> & ->); try done.
      assert (a + Z.of_nat ib.1 = i) as Heq by (by apply (fc_distinct0 _ _ (Blk j))).
      rewrite Hl, Heq, Hh in Hh'. rewrite Heq. by simplify_eq.
    - unfold assigned in Ha. apply last_None in Ha.
      assert ((pack h gid, (i + 1) * B) ∈ omap (given p l a B gid mask j) dn) as Ho
        by (apply list_elem_of_omap; eauto).
      rewrite Ha in Ho. by apply elem_of_nil in Ho. }
  constructor; [done|..].
  - intros i j Hij. destruct (Hcached i j Hij) as (h & Hh & Ha). exists h.
    pose proof (cu_hash0 j) as H1. pose proof (cu_tokens0 j) as H2. pose proof (cu_owns0 j) as H3.
    rewrite Ha in H1, H2, H3. done.
  - intros j Hj. pose proof (cu_hash0 j) as H1. pose proof (cu_tokens0 j) as H2. pose proof (cu_owns0 j) as H3.
    destruct (assigned p l a B gid mask dn j) as [[key n]|] eqn:Ha; [|done]. exfalso.
    apply assigned_given in Ha as (ib & Hib & Hgib).
    destruct (given_cached p l a b B gid mask blocks j ib key n) as (h' & Hc & _); try done.
    by apply (Hj (a + Z.of_nat ib.1)).
Qed.

Lemma omap_imap_pair {A B} (f : nat * A → option B) (l : list A) :
  omap f (imap pair l) = omap (λ k, l !! k ≫= λ r, f (k, r)) (seq 0 (length l)).
Proof.
  induction l as [|x l IH] using rev_ind; [done|].
  rewrite imap_app, omap_app, length_app, Nat.add_1_r, seq_S, omap_app. simpl. f_equal.
  - rewrite IH. apply list_omap_ext, Forall_Forall2_diag, Forall_forall. intros k Hk%elem_of_seq.
    by rewrite lookup_app_l by lia.
  - rewrite Nat.add_0_r, lookup_app_r, Nat.sub_diag by lia. done.
Qed.

Lemma omap_range {B} (f : Z → option B) a b :
  omap f (py_range a b) = omap (λ k, f (a + Z.of_nat k)) (seq 0 (Z.to_nat (b - a))).
Proof.
  unfold py_range. induction (seq 0 (Z.to_nat (b - a))) as [|k l IH]; [done|].
  simpl. destruct (f (a + Z.of_nat k)); [f_equal|]; exact IH.
Qed.

(** The hashes an event reports, for the blocks [idxs]. *)
Definition reported_hashes p (req : Request) (blocks : list ref) (a B : Z) (mask : option (list bool))
    (idxs : list Z) : list ExternalBlockHash :=
  omap (λ i : Z, match blocks !! Z.to_nat i with
             | Some r => if selected p mask (Z.to_nat (i - a)) r
                         then convert <$> level_hash (block_hashes req) (hash_block_size p) B i else None
             | None => None
             end) idxs.

Lemma reported_range p req blocks a b B gid mask l :
  full_call p req blocks a b B gid mask →
  (∀ i : nat, l !! i = level_hash (block_hashes req) (hash_block_size p) B (a + Z.of_nat i)) →
  reported p l mask (imap pair (py_slice blocks a b)) =
  reported_hashes p req blocks a B mask (py_range a b).
Proof.
  intros [] Hl. unfold reported, reported_hashes. rewrite omap_imap_pair, omap_range.
  assert (Hlen : length (py_slice blocks a b) = Z.to_nat (b - a)).
  { pose proof (slice_length blocks a b) as Hs. unfold py_len in *. lia. }
  rewrite Hlen. apply list_omap_ext, Forall_Forall2_diag, Forall_forall. intros k Hk%elem_of_seq.
  rewrite slice_lookup, decide_True by lia. simpl.
  destruct (blocks !! Z.to_nat (a + Z.of_nat k)); simpl; [|done]. rewrite Hl.
  by replace (Z.to_nat (a + Z.of_nat k - a)) with k by lia.
Qed.

(** The event of a call. *)
Definition stored_event p (req : Request) (blocks : list ref) (a b B gid : Z) (mask : option (list bool)) :
    KVCacheEvent :=
  _build_block_stored_event req (reported_hashes p req blocks a B mask (py_range a b))
    (if a =? 0 then None else convert <$> level_hash (block_hashes req) (hash_block_size p) B (a - 1))
    (a * B) (b * B) B gid (reported_keys p req blocks a B mask (py_range a b)).

Lemma stored_event_strip req req' hs parent s e B gid keys :
  strip req' = strip req →
  _build_block_stored_event req' hs parent s e B gid keys = _build_block_stored_event req hs parent s e B gid keys.
Proof.
  intros Hs. change (_build_block_stored_event (strip req') hs parent s e B gid keys =
    _build_block_stored_event (strip req) hs parent s e B gid keys). by rewrite Hs.
Qed.

Lemma full_effect_events p req blocks a b B gid mask p1 v :
  full_effect p req blocks a b B gid mask p1 → full_effect p req blocks a b B gid mask (set_kv_event_queue v p1).
Proof.
  intros []. constructor; [|done|done].
  eapply recached_trans; [done|]. apply recached_events. apply fe_recached0.
Qed.

Lemma reported_keys_recached p p' req blocks a B mask idxs :
  recached p p' → reported_keys p' req blocks a B mask idxs = reported_keys p req blocks a B mask idxs.
Proof.
  intros Hrc. unfold reported_keys. apply list_omap_ext, Forall_Forall2_diag, Forall_forall. intros i _.
  destruct (blocks !! Z.to_nat i); [|done]. by rewrite (selected_recached p).
Qed.

(** The whole of [cache_full_blocks] on a well-formed call. *)
Lemma cache_full_blocks_spec p req blocks a b B gid mask :
  cache_inv p → full_call p req blocks a b B gid mask →
  ∃ p' req', cache_full_blocks req blocks a b B gid mask p = Ok (p', req') ∧
    full_effect p req blocks a b B gid mask p' ∧ strip req' = strip req ∧ memo_ok sha256_rows req' ∧
    (enable_kv_cache_events p = true →
       last (kv_event_queue p') = Some (stored_event p req blocks a b B gid mask)).
Proof.
  intros Hc Hcall. pose proof Hcall as []. unfold cache_full_blocks.
  destruct (Z.leb_spec b a); [lia|].
  assert (Hmask : match mask with None => true | Some m => py_len m =? py_len (py_slice blocks a b) end = true).
  { destruct mask as [m|]; [|done]. rewrite slice_length by lia. apply Z.eqb_eq. by apply fc_mask0. }
  rewrite Hmask. cbn [py_assert mbind result_bind].
  destruct (resolve_from (block_hashes req) (hash_block_size p) B a) as (v & l & -> & Hfrom & Hl & Hget); [lia..|].
  cbn [mbind result_bind]. rewrite Hfrom. cbn [mbind result_bind].
  destruct (cache_full_loop_spec p l a B gid mask Hc fc_B0 fc_gid0 (py_slice blocks a b)) as (p1 & -> & Hupto).
  { intros m Hm. specialize (fc_mask0 m Hm). pose proof (slice_length blocks a b). unfold py_len in *. lia. }
  { intros i r Hi Hs. rewrite slice_lookup in Hi by lia. case_decide; [|done].
    rewrite Hl. split.
    - apply (fc_blocks0 (a + Z.of_nat i)); [lia|done|].
      by replace (Z.to_nat (a + Z.of_nat i - a)) with i by lia.
    - apply level_hash_some; [done|done|done|lia|nia]. }
  cbn [mbind result_bind]. rewrite (reported_range p req blocks a b B gid) by done.
  pose proof (full_effect_intro p req blocks a b B gid mask l p1 Hcall Hl Hupto) as Heff.
  pose proof (cf_events _ _ (rc_config _ _ (fe_recached _ _ _ _ _ _ _ _ _ Heff))) as Hev. rewrite <-Hev.
  destruct (enable_kv_cache_events p).
  2: { exists p1, req. by split_and!. }
  assert (Hpar : (if a =? 0 then Ok None else h ← hl_get v (a - 1); Ok (Some (convert h))) =
    Ok (if a =? 0 then None else convert <$> level_hash (block_hashes req) (hash_block_size p) B (a - 1))).
  { destruct (Z.eqb_spec a 0); [done|]. rewrite Hget by lia.
    destruct (level_hash_some (block_hashes req) (hash_block_size p) B (a - 1)) as [h ->]; [lia|lia|lia|lia|nia|done]. }
  rewrite Hpar. cbn [mbind result_bind].
  destruct (extra_keys_loop_spec p1 req blocks a b B mask) as (idx & req' & -> & Hs & Hmo); [done..|].
  cbn [mbind result_bind]. rewrite (reported_keys_recached p) by apply Heff.
  do 2 eexists. split; [done|]. split_and!; [by apply full_effect_events|done|done|].
  intros _. simpl. rewrite last_snoc. f_equal. by apply stored_event_strip.
Qed.
End FullBlocks.

(** ** Look-up, eviction, moving and resetting *)

Section CacheOps.
Context `{PoolEnv}.
Implicit Types (p : BlockPool) (i j : nat) (free : list ref) (key : bytes).

Lemma get_cached_block_eq p h gids :
  cache_inv p → Forall valid_group gids →
  get_cached_block h gids p =
    Ok (mapM (λ g, head (contents (cached_block_hash_to_block p) (pack h g))) gids).
Proof.
  intros Hc. induction 1 as [|g gids Hg _ IH]; [done|]. cbn [get_cached_block].
  rewrite make_pack by done. cbn [mbind result_bind].
  rewrite get_one_block_spec by apply Hc. cbn [mbind result_bind]. simpl.
  destruct (head _) as [b|]; [|done]. rewrite IH. simpl. by destruct (mapM _ gids).
Qed.

(** A hit returns one cached block per group, a miss means some group has none. *)
Lemma get_cached_block_spec p h gids :
  cache_inv p → Forall valid_group gids →
  ∃ res, get_cached_block h gids p = Ok res ∧
    match res with
    | Some bs => Forall2 (λ g r, ∃ j, r = Blk j ∧ owns p j (pack h g)) gids bs
    | None => ∃ g, g ∈ gids ∧ ∀ j, ¬ owns p j (pack h g)
    end.
Proof.
  intros Hc Hg. rewrite get_cached_block_eq by done. eexists. split; [done|].
  assert (Hhd : ∀ g, match head (contents (cached_block_hash_to_block p) (pack h g)) with
                     | Some r => ∃ j, r = Blk j ∧ owns p j (pack h g)
                     | None => ∀ j, ¬ owns p j (pack h g) end).
  { intros g. pose proof (ci_owns p Hc (pack h g)) as Ho.
    pose proof (contents_blk (cached_block_hash_to_block p) (pack h g)) as Hb.
    destruct (contents _ _) as [|r rs]; simpl.
    - intros j Hj. apply Ho in Hj. by apply elem_of_nil in Hj.
    - destruct (Hb r) as [j ->]; [apply Hc|left|]. exists j. split; [done|]. apply Ho. left. }
  destruct (mapM _ gids) as [bs|] eqn:E.
  - apply mapM_Some in E. eapply Forall2_impl; [exact E|]. simpl. intros g r Hr.
    specialize (Hhd g). by rewrite Hr in Hhd.
  - apply mapM_None, Exists_exists in E as (g & Hin & Hn). exists g. split; [done|].
    specialize (Hhd g). by rewrite Hn in Hhd.
Qed.

Lemma evicts_recached p i p' : evicts p i p' → recached p p'.
Proof. intros []. by constructor. Qed.

Lemma recached_refl p : cache_inv p → recached p p.
Proof. by constructor. Qed.

(** [evict_blocks] takes the keys of exactly the named blocks. *)
Lemma evict_blocks_spec p ids :
  cache_inv p → (∀ id, id ∈ ids → 0 ≤ id < num_gpu_blocks p) →
  ∃ p', evict_blocks ids p = Ok p' ∧ recached p p' ∧
    ∀ j k, owns p' j k ↔ owns p j k ∧ Z.of_nat j ∉ ids.
Proof.
  intros Hc Hids. unfold evict_blocks.
  apply (foldM_ind evict_step (λ dn p', recached p p' ∧ ∀ j k, owns p' j k ↔ owns p j k ∧ Z.of_nat j ∉ dn)).
  { split; [by apply recached_refl|]. intros j k. rewrite elem_of_nil. tauto. }
  intros dn id todo p1 -> [Hrc Ho]. destruct (Hids id) as [Hid1 Hid2]; [set_solver|].
  unfold evict_step. assert (Hn : num_gpu_blocks p1 = num_gpu_blocks p) by (destruct Hrc as [_ _ []]; done).
  unfold pool_blocks, py_len. rewrite length_fmap, length_seq, Hn.
  destruct (Z.ltb_spec id (Z.of_nat (Z.to_nat (num_gpu_blocks p)))); [|lia]. simpl.
  rewrite py_get_nonneg by done. rewrite list_lookup_fmap, lookup_seq_lt by lia. simpl.
  destruct (maybe_evict_spec p1 (Z.to_nat id)) as (p2 & -> & Hev); [apply Hrc|]. simpl.
  exists p2. split; [done|]. split.
  - eapply recached_trans; [done|by eapply evicts_recached].
  - intros j k. rewrite (ev_owns _ _ _ Hev), Ho, elem_of_app, list_elem_of_singleton.
    assert (j ≠ Z.to_nat id ↔ Z.of_nat j ≠ id) by lia. tauto.
Qed.

(** Inserting the keys of a list, one after the other. *)
Lemma insert_all_spec p i n hs :
  cache_inv p → has (pool_store p) (Blk i) → i ≠ 0%nat →
  ∃ p', foldM (λ p h, _insert_block_hash h (Blk i) n p) p hs = Ok p' ∧ recached p p' ∧
    (∀ j k, owns p' j k ↔ owns p j k ∨ (j = i ∧ k ∈ hs)) ∧
    (∀ j, j ≠ i → blk p' (Blk j) = blk p (Blk j)) ∧
    block_hash (blk p' (Blk i)) =
      match block_hash (blk p (Blk i)) with Some h => Some h | None => head hs end ∧
    (block_hash (blk p (Blk i)) = None → hs ≠ [] → block_hash_num_tokens (blk p' (Blk i)) = n).
Proof.
  intros Hc Hhas Hi.
  apply (foldM_ind (λ p h, _insert_block_hash h (Blk i) n p) (λ dn p', recached p p' ∧
    (∀ j k, owns p' j k ↔ owns p j k ∨ (j = i ∧ k ∈ dn)) ∧
    (∀ j, j ≠ i → blk p' (Blk j) = blk p (Blk j)) ∧
    block_hash (blk p' (Blk i)) =
      match block_hash (blk p (Blk i)) with Some h => Some h | None => head dn end ∧
    (block_hash (blk p (Blk i)) = None → dn ≠ [] → block_hash_num_tokens (blk p' (Blk i)) = n))).
  - split_and!; [by apply recached_refl| |done|by destruct (block_hash _)|done].
    intros j k. rewrite elem_of_nil. tauto.
  - intros dn h todo p1 _ (Hrc & Ho & Hb & Hh & Hn).
    destruct (insert_hash_spec p1 i h n) as (p2 & -> & Hin & _).
    { apply Hrc. } { by apply (sq_has _ _ (rc_queue _ _ Hrc)). } { done. }
    exists p2. split; [done|]. split_and!.
    + eapply recached_trans; [done|]. destruct Hin. by constructor.
    + intros j k. rewrite (in_owns _ _ _ _ _ Hin), Ho, elem_of_app, list_elem_of_singleton. tauto.
    + intros j Hj. rewrite (in_blk _ _ _ _ _ Hin), decide_False by tauto. by apply Hb.
    + rewrite (in_blk _ _ _ _ _ Hin). case_decide as Hd.
      * simpl. destruct Hd as [_ Hd]. rewrite Hd in Hh. destruct (block_hash (blk p (Blk i))); [done|].
        destruct dn; [done|simpl in Hh; congruence].
      * destruct (block_hash (blk p1 (Blk i))) as [h1|] eqn:E; [|tauto]. rewrite Hh.
        destruct (block_hash (blk p (Blk i))); [done|]. by destruct dn.
    + intros Hp _. rewrite (in_blk _ _ _ _ _ Hin). case_decide as Hd; [done|].
      apply Hn; [done|]. intros ->. rewrite Hp in Hh. simpl in Hh. tauto.
Qed.

(** [move_block_hashes] hands every key of the source to the destination. *)
Lemma move_block_hashes_spec p src dst :
  cache_inv p → has (pool_store p) (Blk dst) → dst ≠ 0%nat → src ≠ dst →
  block_hash (blk p (Blk dst)) = None →
  ∃ p', move_block_hashes (Blk src) (Blk dst) p = Ok p' ∧ recached p p' ∧
    (∀ j k, owns p' j k ↔ (j = dst ∧ owns p src k) ∨ (j ≠ src ∧ owns p j k)) ∧
    block_hash (blk p' (Blk dst)) = block_hash (blk p (Blk src)) ∧
    block_hash_num_tokens (blk p' (Blk dst)) = block_hash_num_tokens (blk p (Blk src)) ∧
    block_hash (blk p' (Blk src)) = None.
Proof.
  intros Hc Hhas Hdst Hne Hh. unfold move_block_hashes.
  destruct (ci_fresh p Hc dst Hh) as [Ht He]. simpl.
  rewrite Hh, He. rewrite !bool_decide_true by done. simpl.
  destruct (remove_hashes_spec p src Hc) as (p1 & -> & Hrm & _).
  assert (Hh1 : blk p1 (Blk dst) = blk p (Blk dst)) by (rewrite (rm_blk _ _ _ Hrm), decide_False by done; done).
  destruct (insert_all_spec p1 dst (block_hash_num_tokens (blk p (Blk src))) (hash_list p src))
    as (p' & -> & Hrc & Ho & Hb & Hhash & Htok).
  { apply Hrm. } { by apply (sq_has _ _ (rm_queue _ _ _ Hrm)). } { done. }
  rewrite Hh1, Hh in Hhash, Htok.
  exists p'. split; [done|]. split_and!.
  - eapply recached_trans; [|done]. destruct Hrm. by constructor.
  - intros j k. rewrite Ho, (rm_owns _ _ _ Hrm), elem_of_hash_list. tauto.
  - rewrite Hhash. unfold hash_list. destruct (block_hash (blk p (Blk src))) eqn:Hs; [done|].
    destruct (ci_fresh p Hc src Hs) as [_ ->]. done.
  - destruct (block_hash (blk p (Blk src))) as [h|] eqn:Hs.
    + apply Htok; [done|]. unfold hash_list. by rewrite Hs.
    + destruct (ci_fresh p Hc src Hs) as [-> Hes]. apply (ci_fresh p'); [apply Hrc|].
      rewrite Hhash. unfold hash_list. by rewrite Hs, Hes.
  - rewrite Hb, (rm_blk _ _ _ Hrm), decide_True by done. done.
Qed.
End CacheOps.

(** ** Accounting, reset and the initial pool *)

Section Accounting.
Context `{PoolEnv}.
Implicit Types (p : BlockPool) (i j : nat) (free : list ref).

(** The blocks in use: referenced and not the null block. *)
Definition in_use p : list ref :=
  filter (λ r, is_null (blk p r) = false ∧ 0 < ref_cnt (blk p r)) (pool_blocks p).

Lemma elem_of_pool_blocks p i : Blk i ∈ pool_blocks p ↔ Z.of_nat i < num_gpu_blocks p.
Proof.
  unfold pool_blocks. rewrite list_elem_of_fmap. setoid_rewrite elem_of_seq. split.
  - intros (k & [= ->] & ?). lia.
  - intros ?. exists i. split; [done|lia].
Qed.

Lemma pool_blocks_nodup p : NoDup (pool_blocks p).
Proof. apply NoDup_fmap_2; [by intros ?? [=]|apply NoDup_seq]. Qed.

Lemma is_null_false p free i : queue_inv p free → is_null (blk p (Blk i)) = false ↔ i ≠ 0%nat.
Proof. intros Hq. pose proof (qi_is_null _ _ Hq i). destruct (is_null _); naive_solver. Qed.

(** The null block, the free blocks and the blocks in use make up the pool. *)
Lemma pool_partition p free :
  queue_inv p free → pool_blocks p ≡ₚ Blk 0 :: free ++ in_use p.
Proof.
  intros Hq. apply NoDup_Permutation.
  - apply pool_blocks_nodup.
  - apply NoDup_cons. split.
    + rewrite elem_of_app. unfold in_use. rewrite list_elem_of_filter, (qi_free _ _ Hq), (is_null_false p free) by done.
      tauto.
    + apply NoDup_app. split_and!.
      * apply (rep_nodup _ _ (qi_rep _ _ Hq)).
      * intros r Hr [[_ Hpos] _]%list_elem_of_filter. destruct (qi_blk _ _ Hq r Hr) as [i ->].
        apply (qi_free _ _ Hq) in Hr. lia.
      * apply NoDup_filter, pool_blocks_nodup.
  - intros r. rewrite elem_of_cons, elem_of_app. unfold in_use. rewrite list_elem_of_filter. split.
    + intros Hr. assert (∃ i, r = Blk i) as [i ->].
      { unfold pool_blocks in Hr. apply list_elem_of_fmap in Hr as (i & -> & _). eauto. }
      pose proof (qi_free _ _ Hq i) as Hf. rewrite (qi_dom _ _ Hq), <-elem_of_pool_blocks in Hf.
      rewrite (is_null_false p free) by done. pose proof (qi_ref _ _ Hq i).
      destruct (decide (i = 0%nat)) as [->|Hi]; [by left|]. right.
      destruct (decide (ref_cnt (blk p (Blk i)) = 0)); [left; tauto|right]. split; [|done]. split; [done|].
      specialize (H0 Hi). lia.
    + intros [->|[Hr|[_ Hr]]]; [|destruct (qi_blk _ _ Hq r Hr) as [i ->]|done].
      * apply elem_of_pool_blocks. apply (qi_pos _ _ Hq).
      * apply (qi_free _ _ Hq) in Hr as [Hr _]. by apply elem_of_pool_blocks, (qi_dom _ _ Hq).
Qed.

Lemma pool_count p free :
  queue_inv p free → num_gpu_blocks p = 1 + get_num_free_blocks p + py_len (in_use p).
Proof.
  intros Hq. pose proof (Permutation_length (pool_partition p free Hq)) as Hl.
  unfold get_num_free_blocks. rewrite (qr_len _ _ (qi_rep _ _ Hq)). unfold py_len.
  unfold pool_blocks in Hl. rewrite length_fmap, length_seq in Hl. simpl in Hl. rewrite length_app in Hl.
  pose proof (qi_pos _ _ Hq). lia.
Qed.

Lemma in_use_nil p free : queue_inv p free → in_use p = [] ↔ get_num_free_blocks p = num_gpu_blocks p - 1.
Proof.
  intros Hq. pose proof (pool_count p free Hq) as Hc. unfold py_len in Hc.
  split; [intros Hn; rewrite Hn in Hc; simpl in Hc; lia|]. intros Hf. apply length_zero_iff_nil. lia.
Qed.

(** The loop of [reset_prefix_cache] over [self.blocks]. *)
Lemma reset_loop_spec p rs :
  let p' := foldl (λ p r, reset_hash r p) p rs in
  same_queue p p' ∧ same_config p p' ∧
  cached_block_hash_to_block p' = cached_block_hash_to_block p ∧
  cached_block_hashes_by_block p' = cached_block_hashes_by_block p ∧
  kv_event_queue p' = kv_event_queue p ∧
  ∀ r, blk p' r = if decide (r ∈ rs) then with_hash None None (blk p r) else blk p r.
Proof.
  induction rs as [|r rs IH] using rev_ind; simpl.
  { split_and!; try done. }
  rewrite foldl_app. simpl. destruct IH as (Hq & Hcf & Hm & He & Hev & Hb).
  set (p1 := foldl (λ p r, reset_hash r p) p rs) in *.
  split_and!; try done.
  - etransitivity; [exact Hq|by apply update_same_queue].
  - etransitivity; [exact Hcf|by constructor].
  - intros r'. assert (Hblk : blk (reset_hash r p1) r' = if decide (r' = r) then with_hash None None (blk p1 r') else blk p1 r').
    { unfold reset_hash, blk. simpl. rewrite lookup_alter. repeat case_decide; subst; try done.
      by destruct (_ !! _). }
    rewrite Hblk, Hb. pose proof (elem_of_app rs [r] r') as Hin. rewrite list_elem_of_singleton in Hin.
    destruct (decide (r' = r)), (decide (r' ∈ rs)), (decide (r' ∈ rs ++ [r])); tauto.
Qed.

(** [reset_prefix_cache] succeeds exactly when no block is in use, and then
    no key is left. *)
Lemma reset_prefix_cache_spec p free :
  pool_inv p free →
  ∃ p', reset_prefix_cache p = (bool_decide (in_use p = []), p') ∧ pool_inv p' free ∧ recached p p' ∧
    (in_use p = [] → ∀ j k, ¬ owns p' j k) ∧ (in_use p ≠ [] → p' = p).
Proof.
  intros [Hq Hc]. unfold reset_prefix_cache. pose proof (in_use_nil p free Hq) as Hnil.
  destruct (Z.eqb_spec (num_gpu_blocks p - get_num_free_blocks p) 1) as [Hone|Hone]; simpl.
  2: { exists p. rewrite bool_decide_false by (rewrite Hnil; lia). split_and!; try done.
       intros Hn%Hnil. lia. }
  rewrite bool_decide_true by (apply Hnil; lia).
  set (p1 := set_hashes_by_block ∅ (set_cache ∅ p)).
  destruct (reset_loop_spec p1 (pool_blocks p1)) as (Hq2 & Hcf2 & Hm2 & He2 & _ & Hb2).
  set (p2 := foldl _ p1 _) in *.
  assert (Hh2 : ∀ i, block_hash (blk p2 (Blk i)) = None ∧ block_hash_num_tokens (blk p2 (Blk i)) = None).
  { intros i. rewrite Hb2. case_decide as Hin; [done|]. change (blk p1 (Blk i)) with (blk p (Blk i)).
    change (pool_blocks p1) with (pool_blocks p) in Hin.
    rewrite elem_of_pool_blocks, <-(qi_dom _ _ Hq) in Hin. by rewrite blk_absent. }
  assert (Ho2 : ∀ j k, ¬ owns p2 j k).
  { intros j k. unfold owns, extra_hashes. rewrite He2. simpl. rewrite lookup_empty. simpl.
    destruct (Hh2 j) as [-> _]. set_solver. }
  assert (Hc2 : cache_inv p2).
  { constructor.
    - rewrite Hm2. apply map_Forall_empty.
    - intros k i. rewrite Hm2. simpl. unfold contents. rewrite lookup_empty.
      split; [by intros ?%elem_of_nil|by intros ?%Ho2].
    - intros i _. split; [apply Hh2|]. by rewrite He2.
    - intros i k Hk. destruct (Hh2 i) as [Hn _]. congruence.
    - apply Hh2. }
  assert (Hq02 : same_queue p p2) by (etransitivity; [|exact Hq2]; by constructor).
  assert (Hcf02 : same_config p p2) by (etransitivity; [|exact Hcf2]; by constructor).
  assert (Hfin : ∀ p3, same_state p2 p3 → pool_inv p3 free ∧ recached p p3 ∧ ∀ j k, ¬ owns p3 j k).
  { intros p3 (Hq3 & Hc3 & Hcf3). split_and!.
    - split; [|by apply (cache_inv_same p2)]. apply (queue_inv_same p); [by etransitivity|done].
    - constructor; [by apply (cache_inv_same p2)|by etransitivity..].
    - intros j k. rewrite <-(owns_same p2 p3) by done. apply Ho2. }
  destruct (enable_kv_cache_events _).
  - destruct (Hfin (set_kv_event_queue (kv_event_queue (notify MetricsReset p2) ++ [AllBlocksCleared])
                      (notify MetricsReset p2))) as (? & ? & ?).
    { split_and!; by constructor. }
    eexists. split; [done|]. split_and!; [done|done|done|]. intros Hn. rewrite Hnil in Hn. lia.
  - destruct (Hfin (notify MetricsReset p2)) as (? & ? & ?); [apply notify_same|].
    eexists. split; [done|]. split_and!; [done|done|done|]. intros Hn. rewrite Hnil in Hn. lia.
Qed.
End Accounting.

(** ** The initial pool *)

Section Initial.
Implicit Types (s : store) (rs : list ref).

Lemma fresh_store rs s r :
  foldl (λ s r, <[r := new_block]> s) s rs !! r = if decide (r ∈ rs) then Some new_block else s !! r.
Proof.
  revert s. induction rs as [|x rs IH]; intros s; simpl; [done|].
  rewrite IH. pose proof (elem_of_cons rs r x) as Hin.
  destruct (decide (r ∈ rs)), (decide (r ∈ x :: rs)); try tauto.
  - assert (r = x) as -> by tauto. by rewrite lookup_insert_eq.
  - rewrite lookup_insert_ne; [done|]. naive_solver.
Qed.

Lemma fresh_queue n :
  0 < n →
  let refs := Blk <$> seq 0 (Z.to_nat n) in
  let s := foldl (λ s r, <[r := new_block]> s) (∅ : store) refs in
  ∃ q, popleft (init_queue refs s) = Ok (Blk 0, q) ∧ queue_rep q (Blk <$> seq 1 (Z.to_nat n - 1)) ∧
    ∀ i, core <$> fq_store q !! Blk i = if decide (Z.of_nat i < n) then Some new_block else None.
Proof.
  intros Hn refs s.
  assert (Hlk : ∀ r, s !! r = if decide (r ∈ refs) then Some new_block else None) by (intros r; apply fresh_store).
  assert (Hnot : (FakeHead ∉ refs) ∧ FakeTail ∉ refs).
  { split; unfold refs; rewrite list_elem_of_fmap; by intros (? & ? & _). }
  destruct (init_queue_spec refs s) as [Hrep Hcore].
  { apply NoDup_fmap_2; [by intros ?? [=]|apply NoDup_seq]. } { tauto. } { tauto. }
  { intros r Hr. unfold has. rewrite Hlk, decide_True by done. by eexists. }
  { intros r. unfold nxt, prv. rewrite Hlk. by case_decide. }
  assert (Hrefs : refs = Blk 0 :: (Blk <$> seq 1 (Z.to_nat n - 1))).
  { unfold refs. replace (Z.to_nat n) with (S (Z.to_nat n - 1)) at 1 by lia. done. }
  assert (Hrep' : queue_rep (init_queue refs s) (Blk 0 :: (Blk <$> seq 1 (Z.to_nat n - 1))))
    by (by rewrite <-Hrefs).
  destruct (popleft_spec _ _ _ Hrep') as (q & Hpop & Hq & Hsame).
  exists q. split_and!; [done|done|]. intros i. rewrite (Hsame (Blk i)), Hcore, Hlk by done.
  assert (Blk i ∈ refs ↔ Z.of_nat i < n) as Hi.
  { unfold refs. rewrite list_elem_of_fmap. setoid_rewrite elem_of_seq. split.
    - intros (k & [= ->] & ?). lia.
    - intros ?. exists i. split; [done|lia]. }
  destruct (decide (Blk i ∈ refs)), (decide (Z.of_nat i < n)); tauto.
Qed.

Lemma update_rep f r p l :
  keeps_links f → queue_rep (free_block_queue p) l → queue_rep (free_block_queue (update_block f r p)) l.
Proof.
  intros Hf []. constructor; [done|..|done]; intros r';
    destruct (links_update f r p r' Hf) as [Hn Hp]; [by rewrite Hn|by rewrite Hp].
Qed.

(** A pool of unreferenced, unhashed blocks with an empty cache. *)
Lemma fresh_pool_inv p :
  0 < num_gpu_blocks p → null_block p = Blk 0 →
  queue_rep (free_block_queue p) (Blk <$> seq 1 (Z.to_nat (num_gpu_blocks p) - 1)) →
  (∀ i, has (pool_store p) (Blk i) ↔ Z.of_nat i < num_gpu_blocks p) →
  (∀ i, ref_cnt (blk p (Blk i)) = 0 ∧ block_hash (blk p (Blk i)) = None ∧
     block_hash_num_tokens (blk p (Blk i)) = None ∧ is_null (blk p (Blk i)) = bool_decide (i = 0%nat)) →
  cached_block_hash_to_block p = ∅ → cached_block_hashes_by_block p = ∅ →
  pool_inv p (Blk <$> seq 1 (Z.to_nat (num_gpu_blocks p) - 1)).
Proof.
  intros Hn Hnull Hrep Hhas Hf Hm He. split.
  - constructor; try done.
    + intros i. destruct (Hf i) as (_ & _ & _ & ->). by rewrite bool_decide_eq_true.
    + intros r Hr. apply list_elem_of_fmap in Hr as (i & -> & _). eauto.
    + intros i. rewrite Hhas, list_elem_of_fmap. setoid_rewrite elem_of_seq. destruct (Hf i) as (-> & _). split.
      * intros (k & [= ->] & ?). lia.
      * intros (? & ? & _). exists i. split; [done|lia].
    + intros i _. by destruct (Hf i) as (-> & _).
  - assert (Ho : ∀ i k, ¬ owns p i k).
    { intros i k. unfold owns, extra_hashes. destruct (Hf i) as (_ & -> & _). rewrite He, lookup_empty. set_solver. }
    constructor.
    + rewrite Hm. apply map_Forall_empty.
    + intros k i. split; [|by intros ?%Ho]. unfold contents. rewrite Hm, lookup_empty. by intros ?%elem_of_nil.
    + intros i _. split; [apply Hf|]. by rewrite He.
    + intros i k Hk. destruct (Hf i) as (_ & Hn' & _). congruence.
    + apply Hf.
Qed.

(** A new pool has every block but the null block free, in order, and an
    empty cache. *)
Lemma new_block_pool_spec n caching hbs events metrics :
  0 < n →
  ∃ p, new_block_pool n caching hbs events metrics = Ok p ∧
    pool_inv p (Blk <$> seq 1 (Z.to_nat n - 1)) ∧ num_gpu_blocks p = n ∧ enable_caching p = caching ∧
    hash_block_size p = hbs ∧ enable_kv_cache_events p = events ∧ kv_event_queue p = [] ∧
    ∀ i, ref_cnt (blk p (Blk i)) = 0 ∧ block_hash (blk p (Blk i)) = None.
Proof.
  intros Hn. unfold new_block_pool. rewrite (proj2 (Z.ltb_lt 0 n)) by done. cbn [py_assert mbind result_bind].
  destruct (fresh_queue n Hn) as (q & -> & Hrep & Hcore). cbn [mbind result_bind].
  eexists. split; [done|]. set (p0 := mkBlockPool _ _ _ _ _ _ _ _ _ _).
  set (p := update_block (with_is_null true) (Blk 0) p0).
  assert (Hhas : ∀ i, has (pool_store p0) (Blk i) ↔ Z.of_nat i < n).
  { intros i. unfold has. simpl. specialize (Hcore i). destruct (fq_store q !! Blk i) as [b|]; simpl in Hcore.
    - case_decide; [|done]. split; [done|by eexists].
    - case_decide; [done|]. split; [by intros [? ?]|done]. }
  assert (Hblk0 : ∀ i, core (blk p0 (Blk i)) = new_block).
  { intros i. unfold blk. simpl. specialize (Hcore i). destruct (fq_store q !! Blk i); simpl in *; [|done].
    case_decide; [|done]. by apply (inj Some) in Hcore. }
  assert (Hf : ∀ i, ref_cnt (blk p (Blk i)) = 0 ∧ block_hash (blk p (Blk i)) = None ∧
     block_hash_num_tokens (blk p (Blk i)) = None ∧ is_null (blk p (Blk i)) = bool_decide (i = 0%nat)).
  { intros i. unfold p. rewrite blk_update by (apply Hhas; lia).
    destruct (core_fields new_block (blk p0 (Blk i)) (Hblk0 i)) as (Hr & Hh & Ht & Hnl).
    destruct (decide (Blk i = Blk 0)) as [[= ->]|Hne]; [done|].
    rewrite bool_decide_false by congruence. done. }
  split_and!; try done; [|intros i; by destruct (Hf i) as (? & ? & _)].
  apply fresh_pool_inv; try done.
  - by apply update_rep.
  - intros i. unfold p. by rewrite has_update.
Qed.
End Initial.

(** ** Partial entries *)

Section PartialBlocks.
Context `{PoolEnv}.
Implicit Types (p : BlockPool) (j : nat) (key : bytes).

Lemma gen_mm_keys_total r s e idx :
  wf_features (mm_features r) → s < e → - 1 ≤ idx →
  ∃ ks idx', _gen_mm_extra_hash_keys r s e idx = Ok (ks, idx').
Proof.
  intros Hwf Hse Hidx. unfold _gen_mm_extra_hash_keys. destruct (last (mm_features r)) as [f|] eqn:Hl; [|by do 2 eexists].
  destruct (_ <=? _); [by do 2 eexists|].
  assert (Hlen : 1 ≤ py_len (mm_features r)).
  { unfold py_len. destruct (mm_features r); [done|]. simpl. lia. }
  assert (∃ idx0, (if idx <? 0 then _ ← py_assert (- idx <=? py_len (mm_features r)); Ok (py_len (mm_features r) + idx)
                   else Ok idx) = Ok idx0) as [idx0 ->].
  { destruct (Z.ltb_spec idx 0); [|by eexists]. destruct (Z.leb_spec (- idx) (py_len (mm_features r))); [|lia]. by eexists. }
  cbn [mbind result_bind].
  destruct (mm_key_loop_ok (drop (Z.to_nat idx0) (mm_features r)) s e) as (ks & n & Hk & _); [by apply Forall_drop|done|].
  rewrite Hk. by do 2 eexists.
Qed.

Lemma generate_keys_total r s e idx :
  wf_features (mm_features r) → s < e → memo_ok sha256_rows r → - 1 ≤ idx →
  ∃ ks idx' r', generate_block_hash_extra_keys sha256_rows r s e idx = Ok (ks, idx', r') ∧ strip r' = strip r.
Proof.
  intros Hwf Hse Hm Hidx. unfold generate_block_hash_extra_keys.
  destruct (gen_mm_keys_total r s e idx Hwf Hse Hidx) as (ks & idx' & ->). cbn [mbind result_bind].
  destruct (embeds_keys_spec sha256_rows r s e Hm) as (r' & -> & _ & Hs).
  destruct (_ ++ _ ++ _ ++ _); by do 3 eexists.
Qed.

(** A well-formed call of [cache_partial_block]. *)
Record partial_call p (req : Request) (j : nat) (num_tokens gid B : Z) : Prop := {
  pc_has : has (pool_store p) (Blk j);
  pc_null : is_null (blk p (Blk j)) = false;
  pc_j : j ≠ 0%nat;
  pc_hbs : 0 < hash_block_size p;
  pc_lt : hash_block_size p < B;
  pc_mod : B mod hash_block_size p = 0;
  pc_partial : num_tokens mod B ≠ 0;
  pc_aligned : num_tokens mod hash_block_size p = 0;
  pc_pos : 0 < num_tokens;
  pc_hashes : num_tokens ≤ py_len (block_hashes req) * hash_block_size p;
  pc_gid : valid_group gid;
  pc_wf : wf_features (mm_features req);
  pc_memo : memo_ok sha256_rows req;
}.

(** The key of the prefix of [num_tokens] tokens. *)
Definition prefix_hash (req : Request) (hbs num_tokens : Z) : bytes :=
  default [] (block_hashes req !! Z.to_nat (num_tokens / hbs - 1)).

Lemma partial_hash_spec p req j num_tokens gid B :
  partial_call p req j num_tokens gid B →
  _get_partial_block_hash req num_tokens p = Ok (prefix_hash req (hash_block_size p) num_tokens) ∧
  0 < num_tokens / hash_block_size p ≤ py_len (block_hashes req).
Proof.
  intros []. unfold _get_partial_block_hash, prefix_hash. rewrite pc_aligned0.
  pose proof (Z.div_mod num_tokens (hash_block_size p) ltac:(lia)) as Hdm.
  assert (0 < num_tokens / hash_block_size p ≤ py_len (block_hashes req)) as Hr by nia. split; [|done].
  destruct (Z.ltb_spec 0 (num_tokens / hash_block_size p)); [|lia].
  destruct (Z.leb_spec (num_tokens / hash_block_size p) (py_len (block_hashes req))); [|lia]. simpl.
  rewrite py_get_nonneg by lia.
  destruct (lookup_lt_is_Some_2 (block_hashes req) (Z.to_nat (num_tokens / hash_block_size p - 1))) as [h ->];
    [unfold py_len in *; lia|done].
Qed.

(** The step that may drop the shorter entry of the block. *)
Lemma drop_shorter_spec p j (b : bool) :
  cache_inv p →
  let p1 := if b then (let '(removed, p') := _remove_cached_block_hashes (Blk j) p in
                       _emit_block_removed_events removed p') else p in
  recached p p1 ∧ (∀ i k, i ≠ j → owns p1 i k ↔ owns p i k) ∧ (∀ k, owns p1 j k → owns p j k ∧ b = false).
Proof.
  intros Hc. destruct b; simpl; [|split_and!; [by apply recached_refl|done|done]].
  destruct (remove_hashes_spec p j Hc) as (p1 & -> & Hrm & _).
  destruct (emit_same (hash_list p j) p1) as (Hq & Hsc & Hcf).
  pose proof (λ i k, owns_same _ _ i k Hsc) as Ho. destruct Hrm. split_and!.
  - constructor; [by apply (cache_inv_same p1)|by etransitivity..].
  - intros i k Hi. rewrite <-Ho, rm_owns. tauto.
  - intros k. rewrite <-Ho, rm_owns. tauto.
Qed.

Lemma cache_partial_block_spec p req j num_tokens gid B :
  cache_inv p → partial_call p req j num_tokens gid B →
  let key := pack (prefix_hash req (hash_block_size p) num_tokens) gid in
  ∃ p' req', cache_partial_block req (Blk j) num_tokens gid B p = Ok (Some key, p', req') ∧
    recached p p' ∧ strip req' = strip req ∧ owns p' j key ∧
    (∀ i k, i ≠ j → owns p' i k ↔ owns p i k) ∧ (∀ k, owns p' j k → k = key ∨ owns p j k).
Proof.
  intros Hc Hcall key. pose proof Hcall as [].
  destruct (partial_hash_spec _ _ _ _ _ _ Hcall) as [Hh Hrange].
  unfold cache_partial_block. rewrite pc_null0.
  rewrite (proj2 (Z.ltb_lt _ _) pc_lt0), pc_mod0, (proj2 (Z.eqb_neq _ _) pc_partial0). cbn [Z.eqb py_assert mbind result_bind negb].
  rewrite Hh. cbn [mbind result_bind]. rewrite make_pack by done. cbn [mbind result_bind]. fold key.
  set (already := _ || _). clearbody already. set (nht := num_tokens / _ * _).
  assert (∃ b : bool, match block_hash (blk p (Blk j)), block_hash_num_tokens (blk p (Blk j)) with
      | Some _, Some n => if negb already && (n <? nht) then
            let '(removed, p') := _remove_cached_block_hashes (Blk j) p in _emit_block_removed_events removed p'
          else p
      | _, _ => p end =
    if b then (let '(removed, p') := _remove_cached_block_hashes (Blk j) p in _emit_block_removed_events removed p')
    else p) as [b ->].
  { destruct (block_hash (blk p (Blk j))), (block_hash_num_tokens (blk p (Blk j))) as [n|]; [|by exists false..].
    by exists (negb already && (n <? nht)). }
  destruct (drop_shorter_spec p j b Hc) as (Hrc1 & Ho1 & Hoj1). set (p1 := if b then _ else p) in *.
  destruct (insert_hash_spec p1 j key (Some nht)) as (p2 & -> & Hin & _).
  { apply Hrc1. } { by apply (sq_has _ _ (rc_queue _ _ Hrc1)). } { done. }
  cbn [mbind result_bind].
  assert (Hfin : recached p p2 ∧ owns p2 j key ∧ (∀ i k, i ≠ j → owns p2 i k ↔ owns p i k) ∧
                 (∀ k, owns p2 j k → k = key ∨ owns p j k)).
  { pose proof (in_owns _ _ _ _ _ Hin) as Ho. split_and!.
    - eapply recached_trans; [done|]. destruct Hin. by constructor.
    - apply Ho. auto.
    - intros i k Hi. rewrite Ho, Ho1 by done. naive_solver.
    - intros k. rewrite Ho. intros [Hk|[_ ->]]; [|by left]. apply Hoj1 in Hk. tauto. }
  destruct Hfin as (Hrc2 & Hkey & Hoth & Hsub).
  assert (Hhbs : hash_block_size p2 = hash_block_size p) by (destruct Hrc2 as [_ _ []]; done).
  destruct (_ && _); [|by exists p2, req; split_and!].
  unfold _get_partial_block_parent_hash_and_start. rewrite Hhbs. set (k := num_tokens / hash_block_size p) in *.
  assert (∃ parent, (if 1 <? k then h ← py_get (block_hashes req) (k - 2); Ok (Some h) else Ok None) = Ok parent)
    as [parent ->].
  { destruct (Z.ltb_spec 1 k); [|by eexists]. rewrite py_get_nonneg by lia.
    destruct (lookup_lt_is_Some_2 (block_hashes req) (Z.to_nat (k - 2))) as [h ->];
      [unfold py_len in *; lia|by eexists]. }
  cbn [mbind result_bind].
  pose proof (Z.div_mod num_tokens (hash_block_size p) ltac:(lia)) as Hdm. fold k in Hdm.
  destruct (generate_keys_total req ((k - 1) * hash_block_size p) num_tokens
    (if 0 <? (k - 1) * hash_block_size p then -1 else 0)) as (ks & idx & req' & -> & Hs);
    [done|nia|done|destruct (_ <? _); lia|].
  cbn [mbind result_bind]. do 2 eexists. split; [done|].
  split_and!; try done. eapply recached_trans; [done|]. apply recached_events. apply Hrc2.
Qed.
End PartialBlocks.

(** ** Events of reused blocks *)

Section CachedEvents.
Context `{PoolEnv}.
Implicit Types (p : BlockPool).

(** A well-formed call of [emit_cached_block_events]. *)
Record emit_call p (req : Request) (n B : Z) : Prop := {
  ec_n : 0 ≤ n;
  ec_hbs : 0 < hash_block_size p;
  ec_B : 0 < B;
  ec_mod : B mod hash_block_size p = 0;
  ec_hashes : n * B ≤ py_len (block_hashes req) * hash_block_size p;
  ec_wf : wf_features (mm_features req);
  ec_memo : memo_ok sha256_rows req;
}.

Definition cached_hashes p (req : Request) (B : Z) (idxs : list Z) : list ExternalBlockHash :=
  omap (λ i : Z, convert <$> level_hash (block_hashes req) (hash_block_size p) B i) idxs.

Definition cached_keys (req : Request) (B : Z) (idxs : list Z) : list (option (list ExtraKey)) :=
  (λ i : Z, extra_keys_ref sha256_rows req (i * B) (i * B + B)) <$> idxs.

Lemma cached_event_loop_spec p req n B v :
  emit_call p req n B →
  (∀ i, 0 ≤ i → hl_get v i = unwrap IndexError (level_hash (block_hashes req) (hash_block_size p) B i)) →
  ∃ idx req', foldM (cached_event_step v B) ([], [], 0, req) (py_range 0 n)
      = Ok (cached_hashes p req B (py_range 0 n), cached_keys req B (py_range 0 n), idx, req') ∧
    strip req' = strip req ∧ memo_ok sha256_rows req'.
Proof.
  intros [] Hv.
  destruct (foldM_ind (cached_event_step v B)
    (λ dn st, st.1.1.1 = cached_hashes p req B dn ∧ st.1.1.2 = cached_keys req B dn ∧
      memo_ok sha256_rows st.2 ∧ strip st.2 = strip req ∧
      (mm_features req = [] ∨ cursor_ok (mm_features req) st.1.2 (py_len dn * B)))
    (py_range 0 n) ([], [], 0, req)) as ([[[hs keys] idx] req'] & Hf & Hh & Hk & Hmo & Hs & _).
  - simpl. split_and!; [done|done|done|done|]. right. unfold cursor_ok. simpl.
    pose proof (py_len_nonneg (mm_features req)). split_and!; [lia|constructor|lia].
  - intros dn i todo [[[hs keys] idx] req1] Hsplit (Hh & Hk & Hm1 & Hs1 & Hcur). simpl in *.
    destruct (py_range_split _ _ _ _ _ Hsplit) as [Hi [Hia Hib]].
    destruct (level_hash_some (block_hashes req) (hash_block_size p) B i) as [h Hlh]; [done|done|done|lia|nia|].
    destruct (strip_fields _ _ Hs1) as (_ & Hfe & _).
    rewrite Hv, Hlh by done. simpl.
    destruct (generate_keys_spec sha256_rows req1 (i * B) (i * B + B) idx) as (idx' & req2 & -> & Hc2 & Hm2 & Hs2).
    { by rewrite Hfe. } { lia. } { done. } { rewrite Hfe, Hi. by rewrite Z.add_0_l. }
    simpl. eexists. split; [done|]. simpl. rewrite Hfe in Hc2. split_and!.
    + rewrite Hh. unfold cached_hashes. rewrite omap_app. simpl. by rewrite Hlh.
    + rewrite Hk. unfold cached_keys. rewrite fmap_app. simpl. do 2 f_equal.
      change (extra_keys_ref sha256_rows (strip req1) (i * B) (i * B + B) =
        extra_keys_ref sha256_rows (strip req) (i * B) (i * B + B)). by rewrite Hs1.
    + done.
    + congruence.
    + rewrite py_len_app. change (py_len [i]) with 1.
      replace ((py_len dn + 1) * B) with (i * B + B) by (rewrite Hi; ring). done.
  - simpl in *. subst. eauto.
Qed.

(** [emit_cached_block_events] appends one event describing the reused
    prefix, and changes nothing else. *)
Lemma emit_cached_block_events_spec p req n B gid :
  emit_call p req n B →
  ∃ req', strip req' = strip req ∧ memo_ok sha256_rows req' ∧
    emit_cached_block_events req n B gid p =
      Ok (if enable_kv_cache_events p && (0 <? n) then
            set_kv_event_queue (kv_event_queue p ++
              [_build_block_stored_event req (cached_hashes p req B (py_range 0 n)) None 0 (n * B) B gid
                 (cached_keys req B (py_range 0 n))]) p
          else p, req').
Proof.
  intros Hcall. pose proof Hcall as []. unfold emit_cached_block_events.
  destruct (enable_kv_cache_events p); simpl; [|by exists req].
  destruct (Z.eqb_spec n 0) as [->|Hn]; [by exists req|].
  destruct (resolve_from (block_hashes req) (hash_block_size p) B 0) as (v & l & -> & _ & _ & Hget); [lia..|].
  cbn [mbind result_bind].
  destruct (cached_event_loop_spec p req n B v Hcall Hget) as (idx & req' & -> & Hs & Hmo). cbn [mbind result_bind].
  exists req'. split; [done|]. split; [done|]. destruct (Z.ltb_spec 0 n); [|lia].
  destruct (cached_hashes p req B (py_range 0 n)) as [|h hs] eqn:E.
  - exfalso. destruct (level_hash_some (block_hashes req) (hash_block_size p) B 0) as [h Hh]; [lia|lia|lia|lia|nia|].
    assert (convert h ∈ cached_hashes p req B (py_range 0 n)) as Hin.
    { apply list_elem_of_omap. exists 0. split; [by apply elem_of_py_range; lia|]. by rewrite Hh. }
    rewrite E in Hin. by apply elem_of_nil in Hin.
  - do 4 f_equal. f_equal. by apply stored_event_strip.
Qed.
End CachedEvents.

(** ** Every reachable pool *)

Section Reachable.
Context `{PoolEnv}.

Inductive pool_op : Type :=
  | PGetNewBlocks (n : Z)
  | PTouch (blocks : list ref)
  | PFreeBlocks (blocks : list ref)
  | PCacheFullBlocks (req : Request) (blocks : list ref) (a b B gid : Z) (mask : option (list bool))
  | PCachePartialBlock (req : Request) (block : ref) (num_tokens gid B : Z)
  | PEmitCached (req : Request) (n B gid : Z)
  | PMoveBlockHashes (src dst : ref)
  | PEvictBlocks (ids : list Z)
  | PResetPrefixCache
  | PTakeEvents.

Definition run_pool_op (op : pool_op) (p : BlockPool) : result BlockPool :=
  match op with
  | PGetNewBlocks n => '(_, p') ← get_new_blocks n p; Ok p'
  | PTouch bs => touch bs p
  | PFreeBlocks bs => free_blocks bs p
  | PCacheFullBlocks req bs a b B gid mask => '(p', _) ← cache_full_blocks req bs a b B gid mask p; Ok p'
  | PCachePartialBlock req r n gid B => '(_, p', _) ← cache_partial_block req r n gid B p; Ok p'
  | PEmitCached req n B gid => '(p', _) ← emit_cached_block_events req n B gid p; Ok p'
  | PMoveBlockHashes src dst => move_block_hashes src dst p
  | PEvictBlocks ids => evict_blocks ids p
  | PResetPrefixCache => Ok (reset_prefix_cache p).2
  | PTakeEvents => Ok (take_events p).2
  end.

(** A block of the pool. *)
Definition pool_block (p : BlockPool) (r : ref) : Prop := ∃ i, r = Blk i ∧ Z.of_nat i < num_gpu_blocks p.

(** What the callers of the pool respect. *)
Definition pool_pre (op : pool_op) (p : BlockPool) : Prop :=
  match op with
  | PGetNewBlocks n => 0 ≤ n ≤ get_num_free_blocks p
  | PTouch bs => Forall (pool_block p) bs
  | PFreeBlocks bs => freeable p bs
  | PCacheFullBlocks req bs a b B gid mask => b ≤ a ∨ full_call p req bs a b B gid mask
  | PCachePartialBlock req r n gid B =>
      is_null (blk p r) = true ∨ ∃ j, r = Blk j ∧ partial_call p req j n gid B
  | PEmitCached req n B gid => emit_call p req n B
  | PMoveBlockHashes src dst =>
      pool_block p src ∧ pool_block p dst ∧ dst ≠ null_block p ∧ src ≠ dst ∧ block_hash (blk p dst) = None
  | PEvictBlocks ids => Forall (λ id, 0 ≤ id < num_gpu_blocks p) ids
  | PResetPrefixCache | PTakeEvents => True
  end.

Inductive reachable : BlockPool → Prop :=
  | reach_init n caching hbs events metrics p :
      new_block_pool n caching hbs events metrics = Ok p → reachable p
  | reach_step op p p' :
      reachable p → pool_pre op p → run_pool_op op p = Ok p' → reachable p'.

(** Every operation respects the invariant and does not raise. *)
Lemma run_pool_op_inv op p free :
  pool_inv p free → pool_pre op p →
  ∃ p' free', run_pool_op op p = Ok p' ∧ pool_inv p' free'.
Proof.
  intros Hinv Hpre. pose proof Hinv as [Hq Hc].
  assert (Hrc : ∀ p', recached p p' → ∃ free', pool_inv p' free').
  { intros p' Hrc. exists free. by apply (recached_pool_inv p). }
  destruct op as [n|bs|bs|req bs a b B gid mask|req r n gid B|req n B gid|src dst|ids| |]; simpl in *.
  - unfold get_num_free_blocks in Hpre. rewrite (qr_len _ _ (qi_rep _ _ Hq)) in Hpre.
    destruct (get_new_blocks_spec p free n Hinv Hpre) as (p' & -> & ? & _). simpl. eauto.
  - destruct (touch_spec p free bs Hinv) as (p' & -> & ? & _); [|eauto].
    intros r Hr. rewrite Forall_forall in Hpre. destruct (Hpre r Hr) as (i & -> & Hi).
    exists i. split; [done|]. by apply (qi_dom _ _ Hq).
  - destruct (free_blocks_spec p free bs Hinv Hpre) as (p' & -> & ? & _). eauto.
  - destruct Hpre as [Hle|Hcall].
    + unfold cache_full_blocks. rewrite (proj2 (Z.leb_le _ _) Hle). simpl. eauto.
    + destruct (cache_full_blocks_spec p req bs a b B gid mask Hc Hcall) as (p' & req' & -> & Heff & _). simpl.
      destruct (Hrc p') as [free' ?]; [apply Heff|]. eauto.
  - destruct Hpre as [Hn|(j & -> & Hcall)].
    + unfold cache_partial_block. rewrite Hn. simpl. eauto.
    + destruct (cache_partial_block_spec p req j n gid B Hc Hcall) as (p' & req' & -> & Hr & _). simpl.
      destruct (Hrc p' Hr) as [free' ?]. eauto.
  - destruct (emit_cached_block_events_spec p req n B gid Hpre) as (req' & _ & _ & ->). simpl.
    destruct (_ && _); [|eauto]. eexists _, free. split; [done|].
    apply (recached_pool_inv p); [by apply recached_events|done].
  - destruct Hpre as ((i & -> & Hi) & (j & -> & Hj) & Hnull & Hne & Hh). rewrite (qi_null _ _ Hq) in Hnull.
    destruct (move_block_hashes_spec p i j Hc) as (p' & -> & Hr & _); [|congruence..|done|].
    { by apply (qi_dom _ _ Hq). }
    destruct (Hrc p' Hr) as [free' ?]. eauto.
  - rewrite Forall_forall in Hpre. destruct (evict_blocks_spec p ids Hc Hpre) as (p' & -> & Hr & _).
    destruct (Hrc p' Hr) as [free' ?]. eauto.
  - destruct (reset_prefix_cache_spec p free Hinv) as (p' & -> & ? & _). simpl. eauto.
  - unfold take_events. destruct (negb _); simpl; [eauto|]. eexists _, free. split; [done|].
    apply (recached_pool_inv p); [by apply recached_events|done].
Qed.

Lemma reachable_inv p : reachable p → ∃ free, pool_inv p free.
Proof.
  induction 1 as [n caching hbs events metrics p Hnew|op p p' _ [free Hinv] Hpre Hrun].
  - destruct (decide (0 < n)) as [Hn|Hn].
    + destruct (new_block_pool_spec n caching hbs events metrics Hn) as (p0 & Hp0 & Hinv & _).
      rewrite Hp0 in Hnew. injection Hnew as <-. eauto.
    + unfold new_block_pool in Hnew. rewrite (proj2 (Z.ltb_ge 0 n)) in Hnew by lia. done.
  - destruct (run_pool_op_inv op p free Hinv Hpre) as (p1 & free' & Hp1 & Hinv').
    rewrite Hp1 in Hrun. injection Hrun as <-. eauto.
Qed.
End Reachable.

(** ** Properties of the pool *)

Section Properties.
Context `{PoolEnv}.
Implicit Types (p : BlockPool) (j : nat) (free : list ref).

(** C33: Invariant and safety of the block pool.  In every pool reached from a
    new one by calls that respect the preconditions, the free queue holds
    exactly the unreferenced blocks, the prefix-cache index holds exactly the
    keys of the blocks, the null block, the free blocks and the blocks in use
    add up to the size of the pool, and no further call raises. *)
Theorem reachable_pool_safe p :
  reachable p →
  (∃ free, pool_inv p free) ∧
  num_gpu_blocks p = 1 + get_num_free_blocks p + py_len (in_use p) ∧
  ∀ op, pool_pre op p → ∃ p', run_pool_op op p = Ok p' ∧ reachable p'.
Proof.
  intros Hr. destruct (reachable_inv p Hr) as [free Hinv]. split_and!.
  - by exists free.
  - apply (pool_count p free). apply Hinv.
  - intros op Hpre. destruct (run_pool_op_inv op p free Hinv Hpre) as (p' & free' & Hrun & _).
    exists p'. split; [done|]. by eapply reach_step.
Qed.

(** [get_new_blocks(n)] returns the [n] blocks at the front of the free
    queue, distinct, unreferenced and never the null block; each leaves with
    one reference and, when caching is enabled, with no hash and no entry in
    the index; the other blocks keep their counts, hashes and entries; asking
    for more blocks than are free raises [ValueError]. *)
Theorem get_new_blocks_correct p free n :
  pool_inv p free → 0 ≤ n →
  (n ≤ py_len free →
   ∃ p', get_new_blocks n p = Ok (take (Z.to_nat n) free, p') ∧
     NoDup (take (Z.to_nat n) free) ∧ pool_inv p' (drop (Z.to_nat n) free) ∧
     (∀ r, r ∈ take (Z.to_nat n) free →
        pool_block p r ∧ r ≠ null_block p ∧ ref_cnt (blk p r) = 0 ∧ ref_cnt (blk p' r) = 1 ∧
        (enable_caching p = true → block_hash (blk p' r) = None ∧
           ∀ k, r ∉ contents (cached_block_hash_to_block p') k)) ∧
     (∀ j, Blk j ∉ take (Z.to_nat n) free →
        ref_cnt (blk p' (Blk j)) = ref_cnt (blk p (Blk j)) ∧
        block_hash (blk p' (Blk j)) = block_hash (blk p (Blk j)) ∧
        ∀ k, Blk j ∈ contents (cached_block_hash_to_block p') k ↔
             Blk j ∈ contents (cached_block_hash_to_block p) k)) ∧
  (py_len free < n → get_new_blocks n p = Err ValueError).
Proof.
  intros Hinv Hn. split; [|by apply get_new_blocks_exhausted]. intros Hle.
  destruct (get_new_blocks_spec p free n Hinv) as (p' & Hp' & Hinv' & Hal); [done|].
  exists p'. destruct Hinv as [Hq Hc]. pose proof (rep_nodup _ _ (qi_rep _ _ Hq)) as Hnd.
  rewrite <-(take_drop (Z.to_nat n) free) in Hnd. apply NoDup_app in Hnd as [Hnd _].
  assert (Hsub : ∀ r, r ∈ take (Z.to_nat n) free → r ∈ free).
  { intros r Hr. rewrite <-(take_drop (Z.to_nat n) free). apply elem_of_app. by left. }
  split_and!; [done|done|done|..].
  - intros r Hr. destruct (qi_blk _ _ Hq r (Hsub r Hr)) as [i ->].
    pose proof (proj1 (qi_free _ _ Hq i) (Hsub _ Hr)) as (Hh & Hi & Hz).
    rewrite (qi_null _ _ Hq), (al_ref _ _ _ Hal), decide_True by done.
    split_and!; [exists i; split; [done|by apply (qi_dom _ _ Hq)]|congruence|done|done|].
    intros Hcache. rewrite (al_hash _ _ _ Hal), decide_True by done. split; [done|].
    intros k. rewrite (al_contents _ _ _ Hal), Hcache, list_elem_of_filter. tauto.
  - intros j Hj. rewrite (al_ref _ _ _ Hal), (al_hash _ _ _ Hal), !decide_False by tauto.
    split_and!; [done|done|]. intros k. rewrite (al_contents _ _ _ Hal).
    destruct (enable_caching p); [|done]. rewrite list_elem_of_filter. tauto.
Qed.

(** [free_blocks] drops one reference per occurrence; the blocks that
    lose their last reference join the free queue in the order in which they
    lose it, those that are not in the prefix cache in front (they are reused
    first), the cached ones at the back (least recently used first); no
    hash, no index entry and no other part of the queue changes. *)
Theorem free_blocks_correct p free l :
  pool_inv p free → pool_pre (PFreeBlocks l) p →
  ∃ p', free_blocks l p = Ok p' ∧
    pool_inv p' (filter (evict_first p) (released p l) ++ free ++
                 filter (λ r, ¬ evict_first p r) (released p l)) ∧
    (∀ r, has (pool_store p) r → ref_cnt (blk p' r) = ref_cnt (blk p r) - mult l r) ∧
    (∀ r, block_hash (blk p' r) = block_hash (blk p r)) ∧
    cached_block_hash_to_block p' = cached_block_hash_to_block p.
Proof.
  intros Hinv Hl. destruct (free_blocks_spec p free l Hinv Hl) as (p' & -> & Hinv' & [Hsh Hsc Hr]).
  exists p'. split_and!; [done|done|..].
  - intros r Hh. rewrite Hr by done. lia.
  - intros r. by rewrite (sc_hash _ _ Hsc).
  - by rewrite (sc_map _ _ Hsc).
Qed.

(** [touch] adds one reference per occurrence and takes the touched
    blocks out of the free queue, so that they cannot be evicted; freeing the
    same blocks afterwards gives every block its old reference count back. *)
Theorem touch_correct p free l :
  pool_inv p free → Forall (pool_block p) l →
  ∃ p', touch l p = Ok p' ∧ pool_inv p' (filter (λ r, r ∉ l) free) ∧
    (∀ r, has (pool_store p) r → ref_cnt (blk p' r) = ref_cnt (blk p r) + mult l r) ∧
    (∀ r, block_hash (blk p' r) = block_hash (blk p r)) ∧
    ∃ p'', free_blocks l p' = Ok p'' ∧
      ∀ r, has (pool_store p) r → ref_cnt (blk p'' r) = ref_cnt (blk p r).
Proof.
  intros Hinv Hl. rewrite Forall_forall in Hl. pose proof Hinv as [Hq _].
  assert (Hl' : ∀ r, r ∈ l → ∃ i, r = Blk i ∧ has (pool_store p) r).
  { intros r Hr. destruct (Hl r Hr) as (i & -> & Hi). exists i. split; [done|]. by apply (qi_dom _ _ Hq). }
  destruct (touch_spec p free l Hinv Hl') as (p' & -> & Hinv' & [Hsh Hsc Hr]).
  exists p'. split_and!; [done|done|done|by intros r; rewrite (sc_hash _ _ Hsc)|].
  destruct (free_blocks_spec p' _ l Hinv') as (p'' & -> & _ & [_ _ Hr2]).
  { intros r Hin. destruct (Hl' r Hin) as (i & -> & Hh). split_and!; [by exists i|by apply Hsh|].
    intros Hnn. rewrite Hr by done. rewrite <-(sh_is_null _ _ Hsh) in Hnn.
    apply (is_null_false p free) in Hnn; [|done]. pose proof (qi_ref _ _ Hq i Hnn). lia. }
  exists p''. split; [done|]. intros r Hh. rewrite Hr2, Hr by (done || by apply Hsh). lia.
Qed.

(** After [cache_full_blocks] every block of the call that is neither
    null nor masked out carries exactly the hash of the request's prefix that
    ends with it and is returned by [get_cached_block] for that hash (or an
    older block with the same key is); every other block keeps its hashes; the
    free queue and the reference counts are untouched; and with events enabled
    the last event reports the hashes and extra keys of exactly these blocks. *)
Theorem cache_full_blocks_correct p free req blocks a b B gid mask :
  pool_inv p free → full_call p req blocks a b B gid mask →
  ∃ p' req', cache_full_blocks req blocks a b B gid mask p = Ok (p', req') ∧
    pool_inv p' free ∧ (∀ r, ref_cnt (blk p' r) = ref_cnt (blk p r)) ∧
    (∀ i j, cached_by p blocks a b mask i j →
       ∃ h, level_hash (block_hashes req) (hash_block_size p) B i = Some h ∧
         block_hash (blk p' (Blk j)) = Some (pack h gid) ∧
         block_hash_num_tokens (blk p' (Blk j)) = Some ((i + 1) * B) ∧
         (∀ k, owns p' j k ↔ k = pack h gid) ∧
         ∃ j', get_cached_block h [gid] p' = Ok (Some [Blk j']) ∧ owns p' j' (pack h gid)) ∧
    (∀ j, (∀ i, ¬ cached_by p blocks a b mask i j) → ∀ k, owns p' j k ↔ owns p j k) ∧
    (enable_kv_cache_events p = true →
       last (kv_event_queue p') = Some (stored_event p req blocks a b B gid mask)).
Proof.
  intros Hinv Hcall. pose proof Hinv as [Hq Hc].
  destruct (cache_full_blocks_spec p req blocks a b B gid mask Hc Hcall) as (p' & req' & -> & [Hrc Hca Hfr] & _ & _ & Hev).
  exists p', req'. split_and!; [done|by apply (recached_pool_inv p)| | |by intros j Hj; apply Hfr|done].
  { intros r. by rewrite (sq_ref _ _ (rc_queue _ _ Hrc)). }
  intros i j Hij. destruct (Hca i j Hij) as (h & Hh & Hb & Ht & Ho). exists h. split_and!; try done.
  destruct (get_cached_block_spec p' h [gid]) as (res & -> & Hres).
  { apply Hrc. } { apply Forall_singleton. by destruct Hcall. }
  destruct res as [bs|].
  - apply Forall2_cons_inv_l in Hres as (r & bs' & (j' & -> & Hj') & ->%Forall2_nil_inv_l & ->). eauto.
  - destruct Hres as (g & ->%list_elem_of_singleton & Hno). destruct (Hno j). by apply Ho.
Qed.

(** [move_block_hashes] hands every key of the source block to the
    destination, with the prefix length of the primary key, and takes them
    from the source; no other block gains or loses a key. *)
Theorem move_block_hashes_correct p free src dst :
  pool_inv p free → pool_pre (PMoveBlockHashes (Blk src) (Blk dst)) p →
  ∃ p', move_block_hashes (Blk src) (Blk dst) p = Ok p' ∧ pool_inv p' free ∧
    (∀ j k, owns p' j k ↔ (j = dst ∧ owns p src k) ∨ (j ≠ src ∧ owns p j k)) ∧
    block_hash (blk p' (Blk dst)) = block_hash (blk p (Blk src)) ∧
    block_hash_num_tokens (blk p' (Blk dst)) = block_hash_num_tokens (blk p (Blk src)) ∧
    block_hash (blk p' (Blk src)) = None.
Proof.
  intros Hinv ((i & [= <-] & Hi) & (j & [= <-] & Hj) & Hnull & Hne & Hh). pose proof Hinv as [Hq Hc].
  rewrite (qi_null _ _ Hq) in Hnull.
  destruct (move_block_hashes_spec p src dst Hc) as (p' & -> & Hr & Hrest); [|congruence..|done|].
  { by apply (qi_dom _ _ Hq). }
  exists p'. split_and!; [done|by apply (recached_pool_inv p)|apply Hrest..].
Qed.

(** [reset_prefix_cache] succeeds exactly when no block is in use; then
    no look-up hits any more, whatever the hash and the groups, and the free
    queue is unchanged; when it fails the pool is unchanged. *)
Theorem reset_prefix_cache_correct p free :
  pool_inv p free →
  ∃ ok p', reset_prefix_cache p = (ok, p') ∧ pool_inv p' free ∧ (ok = true ↔ in_use p = []) ∧
    (ok = false → p' = p) ∧
    (ok = true → ∀ h g gids, valid_group g → Forall valid_group gids →
       get_cached_block h (g :: gids) p' = Ok None).
Proof.
  intros Hinv. destruct (reset_prefix_cache_spec p free Hinv) as (p' & -> & Hinv' & _ & Hno & Hsame).
  eexists _, p'. split_and!; [done|done|by rewrite bool_decide_eq_true|by intros ?%bool_decide_eq_false; auto|].
  intros Hok%bool_decide_eq_true h g gids Hg Hgs. specialize (Hno Hok).
  destruct (get_cached_block_spec p' h (g :: gids)) as (res & -> & Hres); [apply Hinv'|by constructor|].
  destruct res as [bs|]; [|done]. apply Forall2_cons_inv_l in Hres as (r & bs' & (j & -> & Hj) & _).
  by apply Hno in Hj.
Qed.

(** [evict_blocks] takes every key of the named blocks out of the
    prefix cache, and of no other block; the blocks stay allocated: reference
    counts and the free queue do not change. *)
Theorem evict_blocks_correct p free ids :
  pool_inv p free → pool_pre (PEvictBlocks ids) p →
  ∃ p', evict_blocks ids p = Ok p' ∧ pool_inv p' free ∧
    (∀ r, ref_cnt (blk p' r) = ref_cnt (blk p r)) ∧
    ∀ j k, Blk j ∈ contents (cached_block_hash_to_block p') k ↔
           Blk j ∈ contents (cached_block_hash_to_block p) k ∧ Z.of_nat j ∉ ids.
Proof.
  intros Hinv Hids. simpl in Hids. rewrite Forall_forall in Hids. pose proof Hinv as [Hq Hc].
  destruct (evict_blocks_spec p ids Hc Hids) as (p' & -> & Hrc & Ho).
  exists p'. split_and!; [done|by apply (recached_pool_inv p)|..].
  - intros r. by rewrite (sq_ref _ _ (rc_queue _ _ Hrc)).
  - intros j k. rewrite !ci_owns by (done || apply Hrc). apply Ho.
Qed.
End Properties.

(** ** Witnesses *)

Definition demo_env : PoolEnv :=
  {| sha256_rows := @concat Z; use_int_block_hashes := false; set_order := elements;
     set_order_perm := λ X, reflexivity (elements X) |}.

(** Four blocks, of which two are allocated. *)
Definition demo_pool : result BlockPool := new_block_pool 4 true 2 true None.

Definition demo_alloc : result (list ref * BlockPool) :=
  p ← demo_pool; @get_new_blocks demo_env 2 p.

Lemma demo_pool_ok : ∃ p, demo_pool = Ok p ∧ pool_inv p [Blk 1; Blk 2; Blk 3] ∧ reachable (H := demo_env) p ∧
  num_gpu_blocks p = 4 ∧ hash_block_size p = 2 ∧ enable_kv_cache_events p = true.
Proof.
  destruct (new_block_pool_spec 4 true 2 true None) as (p & Hp & Hinv & Hn & _ & Hh & He & _); [lia|].
  exists p. split_and!; try done. by eapply reach_init.
Qed.

(** What the witnesses need of an allocated block. *)
Lemma demo_alloc_ok : ∃ p, demo_alloc = Ok ([Blk 1; Blk 2], p) ∧ pool_inv p [Blk 3] ∧
  num_gpu_blocks p = 4 ∧ hash_block_size p = 2 ∧ enable_kv_cache_events p = true ∧
  ∀ i, i = 1%nat ∨ i = 2%nat → has (pool_store p) (Blk i) ∧ is_null (blk p (Blk i)) = false ∧
    ref_cnt (blk p (Blk i)) = 1 ∧ block_hash (blk p (Blk i)) = None.
Proof.
  destruct demo_pool_ok as (p0 & Hp0 & Hinv & _ & Hn & Hh & He).
  unfold demo_alloc. rewrite Hp0. cbn [mbind result_bind].
  destruct (@get_new_blocks_spec demo_env p0 _ 2 Hinv) as (p & -> & Hinv' & Hal); [done|].
  exists p. destruct (sh_config _ _ (al_shape _ _ _ Hal)) as [Hc1 _ Hc2 _ Hc3].
  split_and!; [done|done|congruence|congruence|congruence|].
  intros i Hi. pose proof Hinv' as [Hq Hc]. split_and!.
  - apply (qi_dom _ _ Hq). rewrite <-Hc1, Hn. lia.
  - apply (is_null_false p _ i Hq). lia.
  - rewrite (al_ref _ _ _ Hal), decide_True; [done|]. destruct Hi as [-> | ->]; set_solver.
  - assert (block_hash (blk p0 (Blk i)) = None) as H0.
    { destruct (new_block_pool_spec 4 true 2 true None) as (p1 & Hp1 & _ & _ & _ & _ & _ & _ & Hb); [lia|].
      unfold demo_pool in Hp0. rewrite Hp0 in Hp1. injection Hp1 as <-. apply Hb. }
    rewrite (al_hash _ _ _ Hal). by case_decide.
Qed.

Lemma reachable_pool_safe_witness :
  ∃ p p', demo_pool = Ok p ∧ num_gpu_blocks p = 1 + get_num_free_blocks p + py_len (in_use p) ∧
    @run_pool_op demo_env (PTouch [Blk 1; Blk 1]) p = Ok p'.
Proof.
  destruct demo_pool_ok as (p & Hp & Hinv & Hr & Hn & _).
  destruct (@reachable_pool_safe demo_env p Hr) as (_ & Hcount & Hops).
  destruct (Hops (PTouch [Blk 1; Blk 1])) as (p' & Hrun & _).
  { apply Forall_forall. intros r Hr'. exists 1%nat. rewrite Hn. split; [set_solver|lia]. }
  by exists p, p'.
Defined.

Lemma get_new_blocks_correct_witness :
  ∃ p p', demo_pool = Ok p ∧ @get_new_blocks demo_env 2 p = Ok ([Blk 1; Blk 2], p') ∧
    ref_cnt (blk p' (Blk 2)) = 1 ∧ @get_new_blocks demo_env 4 p = Err ValueError.
Proof.
  destruct demo_pool_ok as (p & Hp & Hinv & _).
  destruct (@get_new_blocks_correct demo_env p _ 2 Hinv ltac:(lia)) as [Hok _].
  destruct (Hok ltac:(done)) as (p' & Hrun & _ & _ & Href & _).
  destruct (@get_new_blocks_correct demo_env p _ 4 Hinv ltac:(lia)) as [_ Herr].
  exists p, p'. split_and!; [done|exact Hrun|apply Href; set_solver|by apply Herr].
Defined.

Lemma free_blocks_correct_witness :
  ∃ p p', demo_alloc = Ok ([Blk 1; Blk 2], p) ∧ free_blocks [Blk 2; Blk 1] p = Ok p' ∧
    get_all_free_blocks 4 (free_block_queue p') = Ok [Blk 2; Blk 1; Blk 3] ∧
    ref_cnt (blk p' (Blk 1)) = 0.
Proof.
  destruct demo_alloc_ok as (p & Hp & Hinv & Hn & _ & _ & Hblk).
  destruct (Hblk 1%nat) as (Hh1 & Hn1 & Hr1 & Hb1); [by left|].
  destruct (Hblk 2%nat) as (Hh2 & Hn2 & Hr2 & Hb2); [by right|].
  destruct (@free_blocks_correct demo_env p _ [Blk 2; Blk 1] Hinv) as (p' & Hrun & Hinv' & Href & _).
  { intros r [->|[->|?%elem_of_nil]%elem_of_cons]%elem_of_cons; [..|done];
      (split_and!; [by eexists|done|]); rewrite ?Hr1, ?Hr2; intros _; done. }
  exists p, p'. split_and!; [done|done| |rewrite Href, Hr1 by done; done].
  assert (Hrel : released p [Blk 2; Blk 1] = [Blk 2; Blk 1]).
  { unfold released. simpl. rewrite !filter_cons_True; [done|by split|by split]. }
  rewrite Hrel in Hinv'.
  rewrite !filter_cons_True, !filter_cons_False in Hinv' by (unfold evict_first; tauto).
  destruct Hinv' as [Hq' _]. apply (get_all_free_blocks_spec _ _ 4 (qi_rep _ _ Hq')). simpl. lia.
Defined.

Lemma touch_correct_witness :
  ∃ p p' p'', demo_pool = Ok p ∧ touch [Blk 2; Blk 2] p = Ok p' ∧ free_blocks [Blk 2; Blk 2] p' = Ok p'' ∧
    ref_cnt (blk p' (Blk 2)) = ref_cnt (blk p (Blk 2)) + 2 ∧ ref_cnt (blk p'' (Blk 2)) = ref_cnt (blk p (Blk 2)).
Proof.
  destruct demo_pool_ok as (p & Hp & Hinv & _ & Hn & _).
  destruct (touch_correct p _ [Blk 2; Blk 2] Hinv) as (p' & Hrun & _ & Href & _ & p'' & Hrun' & Href').
  { apply Forall_forall. intros r Hr'. exists 2%nat. rewrite Hn. split; [set_solver|lia]. }
  assert (has (pool_store p) (Blk 2)) by (apply (qi_dom _ _ (proj1 Hinv)); lia).
  exists p, p', p''. split_and!; [done|done|done|by apply Href|by apply Href'].
Defined.

Definition demo_hashed : Request := set_block_hashes [[7]; [8]] (text_request [10; 11; 12; 13; 14]).

(** Caching the first block of the request in block 1 of the pool. *)
Lemma demo_full_call :
  ∃ p, demo_alloc = Ok ([Blk 1; Blk 2], p) ∧ pool_inv p [Blk 3] ∧
    @full_call demo_env p demo_hashed [Blk 1; Blk 2] 0 1 2 3 None ∧ enable_kv_cache_events p = true ∧
    cached_by p [Blk 1; Blk 2] 0 1 None 0 1 ∧ num_gpu_blocks p = 4 ∧
    hash_block_size p = 2 ∧ block_hash (blk p (Blk 2)) = None.
Proof.
  destruct demo_alloc_ok as (p & Hp & Hinv & Hn & Hh & He & Hblk).
  destruct (Hblk 1%nat) as (Hh1 & Hn1 & Hr1 & Hb1); [by left|].
  destruct (Hblk 2%nat) as (Hh2 & Hn2 & Hr2 & Hb2); [by right|].
  assert (Hsel : selected p None 0 (Blk 1) = true) by (unfold selected; by rewrite Hn1).
  exists p. split_and!; [done|done| |done|by split_and!|done|done|done].
  constructor; rewrite ?Hh; try done.
  - intros i r Hi Hr _. assert (i = 0) as -> by lia. simpl in Hr. injection Hr as <-.
    split; [by exists 1%nat|]. by rewrite Hb1.
  - intros i i' r Hi Hi' _ _ _ _. lia.
  - constructor.
Qed.

Lemma cache_full_blocks_correct_witness :
  ∃ p p' req' j, demo_alloc = Ok ([Blk 1; Blk 2], p) ∧
    @cache_full_blocks demo_env demo_hashed [Blk 1; Blk 2] 0 1 2 3 None p = Ok (p', req') ∧
    block_hash (blk p' (Blk 1)) = Some [7; 0; 0; 0; 3] ∧
    get_cached_block [7] [3] p' = Ok (Some [Blk j]) ∧
    last (kv_event_queue p') = Some (@stored_event demo_env p demo_hashed [Blk 1; Blk 2] 0 1 2 3 None).
Proof.
  destruct demo_full_call as (p & Hp & Hinv & Hcall & He & Hcb & Hn & Hh & Hb2).
  destruct (@cache_full_blocks_correct demo_env p _ demo_hashed _ 0 1 2 3 None Hinv Hcall)
    as (p' & req' & Hrun & Hinv' & _ & Hca & Hfr & Hev).
  destruct (Hca 0 1%nat Hcb) as (h & Hlh & Hhash & _ & Ho & j & Hget & Hj).
  unfold level_hash in Hlh. rewrite Hh in Hlh. vm_compute in Hlh. injection Hlh as <-.
  exists p, p', req', j. split_and!; [done|done|exact Hhash|done|by apply Hev].
Defined.

Definition demo_cached : result BlockPool :=
  '(rs, p) ← demo_alloc;
  '(p', _) ← @cache_full_blocks demo_env demo_hashed rs 0 1 2 3 None p; Ok p'.

(** The same call, as the starting point of the witnesses below. *)
Lemma demo_cached_ok :
  ∃ p, demo_cached = Ok p ∧
    pool_inv p [Blk 3] ∧ num_gpu_blocks p = 4 ∧ null_block p = Blk 0 ∧
    owns p 1 [7; 0; 0; 0; 3] ∧ block_hash (blk p (Blk 2)) = None.
Proof.
  destruct demo_full_call as (p & Hp & Hinv & Hcall & He & Hcb & Hn & Hh & Hb2).
  destruct (@cache_full_blocks_spec demo_env p demo_hashed [Blk 1; Blk 2] 0 1 2 3 None (proj2 Hinv) Hcall)
    as (p' & req' & Hrun & [Hrc Hca Hfr] & Hst & _).
  destruct (Hca 0 1%nat Hcb) as (h & Hlh & Hhash & _ & Ho).
  unfold level_hash in Hlh. rewrite Hh in Hlh. vm_compute in Hlh. injection Hlh as <-.
  exists p'. unfold demo_cached. rewrite Hp. cbn [mbind result_bind]. rewrite Hrun. cbn [mbind result_bind].
  pose proof (recached_pool_inv p p' _ Hrc Hinv) as Hinv'.
  split_and!; [done|done|by rewrite <-(cf_num _ _ (rc_config _ _ Hrc))|apply Hinv'|by apply Ho|].
  destruct (Hfr 2%nat) as [-> _]; [|done]. intros i (Hi & Hb & _). assert (i = 0) as -> by lia. done.
Qed.

Lemma move_block_hashes_correct_witness :
  ∃ p p', demo_cached = Ok p ∧
    @move_block_hashes demo_env (Blk 1) (Blk 2) p = Ok p' ∧ owns p' 2 [7; 0; 0; 0; 3] ∧
    block_hash (blk p' (Blk 1)) = None.
Proof.
  destruct demo_cached_ok as (p & Hp & Hinv & Hn & Hnull & Ho & Hb2).
  destruct (@move_block_hashes_correct demo_env p _ 1 2 Hinv) as (p' & Hrun & _ & Hown & _ & _ & Hnone).
  { split_and!; [exists 1%nat; split; [reflexivity|lia]|exists 2%nat; split; [reflexivity|lia]|..].
    - by rewrite Hnull.
    - congruence.
    - exact Hb2. }
  exists p, p'. split_and!; [exact Hp|exact Hrun| |exact Hnone]. apply Hown. left. split; [reflexivity|exact Ho].
Defined.

Lemma reset_prefix_cache_correct_witness :
  ∃ p p', demo_pool = Ok p ∧ reset_prefix_cache p = (true, p') ∧ get_cached_block [7] [3] p' = Ok None.
Proof.
  destruct demo_pool_ok as (p & Hp & Hinv & _ & Hn & _).
  destruct (reset_prefix_cache_correct p _ Hinv) as (ok & p' & Hrun & _ & Hok & _ & Hmiss).
  assert (ok = true) as ->.
  { apply Hok, (in_use_nil p _ (proj1 Hinv)). unfold get_num_free_blocks.
    by rewrite (qr_len _ _ (qi_rep _ _ (proj1 Hinv))), Hn. }
  exists p, p'. split_and!; [done|done|]. by apply Hmiss.
Defined.
