(* ===== verification/EncoderCache.v ===== *)
(** * The encoder cache

    [vllm/vllm/v1/core/encoder_cache_manager.py]: [EncoderCacheManager], which
    accounts for the cached outputs of multimodal encoders,
    [compute_mm_encoder_budget] and the simpler [EncoderDecoderCacheManager]. *)

From S2P Require Import Prelude FreeQueue Request BlockHash.
Local Open Scope Z_scope.

(** The [identifier] of a multimodal item. *)
Abbreviation mm_hash_t := (option string).

(** The iteration order of a Python set of integers, of which only the
    elements are documented. *)
Class IntSetOrder : Type := {
  int_set_order : gset Z → list Z;
  int_set_order_perm : ∀ X, int_set_order X ≡ₚ elements X;
}.

Record EncoderCacheManager : Type := mkEncoderCacheManager {
  cache_size : Z;
  num_free_slots : Z;
  num_freeable_slots : Z;
  cached : gmap mm_hash_t (gset string);
  request_cached_ids : gmap string (gset Z);
  freeable : list (mm_hash_t * Z);
  freed : list mm_hash_t;
}.

Definition new_encoder_cache_manager (size : Z) : EncoderCacheManager :=
  {| cache_size := size; num_free_slots := size; num_freeable_slots := size;
     cached := ∅; request_cached_ids := ∅; freeable := []; freed := [] |}.

Definition reset (m : EncoderCacheManager) : EncoderCacheManager :=
  {| cache_size := cache_size m; num_free_slots := cache_size m; num_freeable_slots := cache_size m;
     cached := ∅; request_cached_ids := ∅; freeable := []; freed := [] |}.

(** [request.mm_features[input_id].identifier] *)
Definition mm_hash_of (r : Request) (input_id : Z) : result mm_hash_t :=
  f ← py_get (mm_features r) input_id; Ok (identifier f).

(** [self.request_cached_ids.setdefault(request_id, set()).add(input_id)] *)
Definition add_cached_id (rid : string) (input_id : Z) (ids : gmap string (gset Z)) : gmap string (gset Z) :=
  <[rid := default ∅ (ids !! rid) ∪ {[input_id]}]> ids.

Definition check_and_update_cache (r : Request) (input_id : Z) (m : EncoderCacheManager) :
    result (bool * EncoderCacheManager) :=
  h ← mm_hash_of r input_id;
  match cached m !! h with
  | None => Ok (false, m)
  | Some refs =>
      '(freeable', nfs) ←
        (if decide (refs = ∅) then
           n ← unwrap KeyError (od_get (freeable m) h);
           Ok (od_del (freeable m) h, num_freeable_slots m - n)
         else Ok (freeable m, num_freeable_slots m));
      Ok (true,
        {| cache_size := cache_size m; num_free_slots := num_free_slots m; num_freeable_slots := nfs;
           cached := <[h := refs ∪ {[request_id r]}]> (cached m);
           request_cached_ids := add_cached_id (request_id r) input_id (request_cached_ids m);
           freeable := freeable'; freed := freed m |})
  end.

(** The [while num_embeds > self.num_free_slots] loop of [can_allocate]:
    evict from the front of [freeable]. *)
Fixpoint evict_loop (num_embeds : Z) (entries : list (mm_hash_t * Z)) (m : EncoderCacheManager) :
    result EncoderCacheManager :=
  if num_embeds <=? num_free_slots m then Ok m
  else
    match entries with
    | [] => Err KeyError
    | (h, n) :: entries' =>
        _ ← unwrap KeyError (cached m !! h);
        evict_loop num_embeds entries'
          {| cache_size := cache_size m; num_free_slots := num_free_slots m + n;
             num_freeable_slots := num_freeable_slots m; cached := delete h (cached m);
             request_cached_ids := request_cached_ids m; freeable := entries';
             freed := freed m ++ [h] |}
    end.

Definition can_allocate (r : Request) (input_id encoder_compute_budget num_embeds_to_schedule : Z)
    (m : EncoderCacheManager) : result (bool * EncoderCacheManager) :=
  num_embeds ← get_num_encoder_embeds r input_id;
  if encoder_compute_budget <? num_embeds then Ok (false, m)
  else
    let num_embeds := num_embeds + num_embeds_to_schedule in
    if num_embeds <=? num_free_slots m then Ok (true, m)
    else if num_freeable_slots m <? num_embeds then Ok (false, m)
    else m' ← evict_loop num_embeds (freeable m) m; Ok (true, m').

Definition allocate (r : Request) (input_id : Z) (m : EncoderCacheManager) : result EncoderCacheManager :=
  h ← mm_hash_of r input_id;
  let refs := default ∅ (cached m !! h) in
  n ← get_num_encoder_embeds r input_id;
  _ ← py_assert (n <=? num_free_slots m);
  _ ← py_assert (n <=? num_freeable_slots m);
  Ok {| cache_size := cache_size m; num_free_slots := num_free_slots m - n;
        num_freeable_slots := num_freeable_slots m - n;
        cached := <[h := refs ∪ {[request_id r]}]> (cached m);
        request_cached_ids := add_cached_id (request_id r) input_id (request_cached_ids m);
        freeable := freeable m; freed := freed m |}.

Definition get_cached_input_ids (r : Request) (m : EncoderCacheManager) : gset Z :=
  default ∅ (request_cached_ids m !! request_id r).

(** The clean-up of [request_cached_ids] in [free_encoder_input]. *)
Definition discard_cached_id (rid : string) (input_id : Z) (ids : gmap string (gset Z)) : gmap string (gset Z) :=
  match ids !! rid with
  | None => ids
  | Some X => if decide (X ∖ {[input_id]} = ∅) then delete rid ids else <[rid := X ∖ {[input_id]}]> ids
  end.

Section EncoderOps.
Context `{IntSetOrder}.

(** [any(request.mm_features[other_id].identifier == mm_hash for other_id in ids)] *)
Fixpoint any_same_hash (r : Request) (h : mm_hash_t) (ids : list Z) : result bool :=
  match ids with
  | [] => Ok false
  | i :: ids' =>
      h' ← mm_hash_of r i;
      if bool_decide (h' = h) then Ok true else any_same_hash r h ids'
  end.

Definition free_encoder_input (r : Request) (input_id : Z) (m : EncoderCacheManager) :
    result EncoderCacheManager :=
  h ← mm_hash_of r input_id;
  let ids := discard_cached_id (request_id r) input_id (request_cached_ids m) in
  let m1 := {| cache_size := cache_size m; num_free_slots := num_free_slots m;
               num_freeable_slots := num_freeable_slots m; cached := cached m;
               request_cached_ids := ids; freeable := freeable m; freed := freed m |} in
  match cached m !! h with
  | None => Ok m1
  | Some refs =>
      if decide (refs = ∅) then Ok m1
      else
        held ← any_same_hash r h (match ids !! request_id r with
                                  | Some X => int_set_order X | None => [] end);
        if held : bool then Ok m1
        else
          let refs' := refs ∖ {[request_id r]} in
          if decide (refs' = ∅) then
            n ← get_num_encoder_embeds r input_id;
            Ok {| cache_size := cache_size m; num_free_slots := num_free_slots m;
                  num_freeable_slots := num_freeable_slots m + n; cached := <[h := refs']> (cached m);
                  request_cached_ids := ids; freeable := od_set (freeable m) h n; freed := freed m |}
          else
            Ok {| cache_size := cache_size m; num_free_slots := num_free_slots m;
                  num_freeable_slots := num_freeable_slots m; cached := <[h := refs']> (cached m);
                  request_cached_ids := ids; freeable := freeable m; freed := freed m |}
  end.

Definition free (r : Request) (m : EncoderCacheManager) : result EncoderCacheManager :=
  foldM (λ m i, free_encoder_input r i m) m (int_set_order (get_cached_input_ids r m)).

Definition get_freed_mm_hashes (m : EncoderCacheManager) : list mm_hash_t * EncoderCacheManager :=
  (filter (λ h, cached m !! h = None) (freed m),
   {| cache_size := cache_size m; num_free_slots := num_free_slots m;
      num_freeable_slots := num_freeable_slots m; cached := cached m;
      request_cached_ids := request_cached_ids m; freeable := freeable m; freed := [] |}).
End EncoderOps.

(** ** [compute_mm_encoder_budget] *)

Record SchedulerConfig : Type := mkSchedulerConfig {
  disable_chunked_mm_input : bool;
  max_num_batched_tokens : Z;
  max_num_encoder_input_tokens : Z;
  encoder_cache_size : Z;
}.

(** [max(d.values())] of a non-empty dictionary *)
Definition py_max (x : Z) (xs : list Z) : Z := foldl Z.max x xs.

Definition compute_mm_encoder_budget (cfg : SchedulerConfig) (mm_max_toks_per_item : list (string * Z)) :
    result (Z * Z) :=
  match mm_max_toks_per_item.*2 with
  | [] => Ok (0, 0)
  | n :: ns =>
      let max_tokens_per_mm_item := py_max n ns in
      if disable_chunked_mm_input cfg && (max_num_batched_tokens cfg <? max_tokens_per_mm_item)
      then Err ValueError
      else Ok (Z.max (max_num_encoder_input_tokens cfg) max_tokens_per_mm_item,
               Z.max (encoder_cache_size cfg) max_tokens_per_mm_item)
  end.

(** ** [EncoderDecoderCacheManager] *)

Record EncoderDecoderCacheManager : Type := mkEncoderDecoderCacheManager {
  ed_cache_size : Z;
  ed_num_free_slots : Z;
  allocated : list mm_hash_t;
  to_free : list mm_hash_t;
}.

Definition new_encoder_decoder_cache_manager (size : Z) : EncoderDecoderCacheManager :=
  {| ed_cache_size := size; ed_num_free_slots := size; allocated := []; to_free := [] |}.

Definition ed_reset (m : EncoderDecoderCacheManager) : EncoderDecoderCacheManager :=
  {| ed_cache_size := ed_cache_size m; ed_num_free_slots := ed_cache_size m; allocated := []; to_free := [] |}.

Definition ed_check_and_update_cache (r : Request) (input_id : Z) (m : EncoderDecoderCacheManager) : bool := false.

Definition ed_can_allocate (r : Request) (input_id encoder_compute_budget num_embeds_to_schedule : Z)
    (m : EncoderDecoderCacheManager) : result bool :=
  n ← get_num_encoder_embeds r input_id;
  if encoder_compute_budget <? n then Ok false
  else Ok (n + num_embeds_to_schedule <=? ed_num_free_slots m).

Definition ed_allocate (r : Request) (input_id : Z) (m : EncoderDecoderCacheManager) :
    result EncoderDecoderCacheManager :=
  n ← get_num_encoder_embeds r input_id;
  h ← mm_hash_of r input_id;
  Ok {| ed_cache_size := ed_cache_size m; ed_num_free_slots := ed_num_free_slots m - n;
        allocated := allocated m ++ [h]; to_free := to_free m |}.

Definition ed_free_encoder_input (r : Request) (input_id : Z) (m : EncoderDecoderCacheManager) :
    result EncoderDecoderCacheManager :=
  n ← get_num_encoder_embeds r input_id;
  Ok {| ed_cache_size := ed_cache_size m; ed_num_free_slots := ed_num_free_slots m + n;
        allocated := allocated m; to_free := to_free m |}.

Definition ed_free (r : Request) (m : EncoderDecoderCacheManager) : result EncoderDecoderCacheManager :=
  foldM (λ m i, ed_free_encoder_input r i m) m (py_range 0 (py_len (mm_features r))).

Definition ed_get_cached_input_ids (r : Request) : gset Z := list_to_set (py_range 0 (py_len (mm_features r))).

Definition ed_get_freed_mm_hashes (m : EncoderDecoderCacheManager) :
    list mm_hash_t * EncoderDecoderCacheManager :=
  (to_free m, {| ed_cache_size := ed_cache_size m; ed_num_free_slots := ed_num_free_slots m;
                 allocated := []; to_free := allocated m |}).

(** ** Accounting *)

Section Accounting.
Context `{IntSetOrder}.

(** The number of embeddings of an item, determined by its identifier, and
    the multimodal items of each request. *)
Context (sz : mm_hash_t → Z) (Hsz : ∀ h, 0 ≤ sz h).
Context (items : string → list MultiModalFeatureSpec).
Context (Hitems : ∀ rid f, f ∈ items rid → get_num_embeds (mm_position f) = sz (identifier f)).

Implicit Types (m : EncoderCacheManager) (r : Request) (h : mm_hash_t) (rid : string).

(** Embeddings held by a set of entries. *)
Definition total (c : gmap mm_hash_t (gset string)) : Z :=
  map_fold (λ h (_ : gset string) acc, sz h + acc) 0 c.

Lemma total_insert c h refs : c !! h = None → total (<[h := refs]> c) = sz h + total c.
Proof. intros Hn. unfold total. rewrite map_fold_insert_L; [done|intros; lia|done]. Qed.

Lemma total_delete c h refs : c !! h = Some refs → total c = sz h + total (delete h c).
Proof. intros Hs. rewrite <-(total_insert (delete h c) h refs) by apply lookup_delete_eq. by rewrite insert_delete_id. Qed.

Lemma total_update c h refs refs' : c !! h = Some refs → total (<[h := refs']> c) = total c.
Proof.
  intros Hs. rewrite (total_delete c h refs Hs), <-insert_delete_eq.
  apply total_insert, lookup_delete_eq.
Qed.

Lemma total_nonneg c : 0 ≤ total c.
Proof.
  induction c as [|h refs c Hn IH] using map_ind; [done|]. rewrite total_insert by done. specialize (Hsz h). lia.
Qed.

(** The inputs a request holds, and the identifier of one of them. *)
Definition ids_of m rid : gset Z := default ∅ (request_cached_ids m !! rid).
Definition hash_at rid (i : Z) : option mm_hash_t := identifier <$> items rid !! Z.to_nat i.

(** Some request references the entry. *)
Definition refers m rid h : Prop := ∃ refs, cached m !! h = Some refs ∧ rid ∈ refs.

Record enc_inv m : Prop := {
  ei_keys : ∀ h, h ∈ od_keys (freeable m) ↔ cached m !! h = Some ∅;
  ei_nodup : NoDup (od_keys (freeable m));
  ei_sizes : Forall (λ e, e.2 = sz e.1) (freeable m);
  ei_freeable : num_freeable_slots m = num_free_slots m + sumZ (freeable m).*2;
  ei_total : cache_size m = num_free_slots m + total (cached m);
  ei_nonneg : 0 ≤ num_free_slots m;
  ei_refs : ∀ rid h, refers m rid h ↔ ∃ i, i ∈ ids_of m rid ∧ hash_at rid i = Some h;
  ei_ids : ∀ rid i, i ∈ ids_of m rid → 0 ≤ i < py_len (items rid);
  ei_some : ∀ rid X, request_cached_ids m !! rid = Some X → X ≠ ∅;
}.

(** A call concerns an input of a known request. *)
Record valid_input r (i : Z) : Prop := {
  vi_items : mm_features r = items (request_id r);
  vi_range : 0 ≤ i < py_len (mm_features r);
}.

Lemma valid_lookup r i : valid_input r i →
  ∃ f, mm_features r !! Z.to_nat i = Some f ∧ mm_hash_of r i = Ok (identifier f) ∧
    hash_at (request_id r) i = Some (identifier f) ∧ get_num_encoder_embeds r i = Ok (sz (identifier f)).
Proof.
  intros [Hi Hr]. destruct (lookup_lt_is_Some_2 (mm_features r) (Z.to_nat i)) as [f Hf]; [unfold py_len in *; lia|].
  exists f. unfold mm_hash_of, get_num_encoder_embeds, hash_at. rewrite py_get_nonneg, Hf by lia. simpl.
  rewrite (proj2 (Z.ltb_lt _ _)) by lia. simpl. rewrite <-Hi, Hf. split_and!; try done.
  f_equal. apply (Hitems (request_id r)). rewrite <-Hi. by eapply list_elem_of_lookup_2.
Qed.

Lemma freeable_entry m h n : enc_inv m → od_get (freeable m) h = Some n → n = sz h.
Proof.
  intros Hm Hg%od_get_Some_in. pose proof (ei_sizes m Hm) as Hs. rewrite Forall_forall in Hs. by apply (Hs (h, n)).
Qed.

Lemma sum_od_del (d : list (mm_hash_t * Z)) h n :
  od_get d h = Some n → sumZ d.*2 = n + sumZ (od_del d h).*2.
Proof.
  induction d as [|[h' n'] d IH]; simpl; [done|]. case_decide; [by intros [= ->]|].
  intros Hg. change (n' + sumZ d.*2 = n + (n' + sumZ (od_del d h).*2)). rewrite (IH Hg). lia.
Qed.

Lemma od_del_Forall {V} (P : mm_hash_t * V → Prop) d h : Forall P d → Forall P (od_del d h).
Proof. induction 1 as [|[h' v] d Hx HF IH]; simpl; [constructor|]. case_decide; [done|by constructor]. Qed.

(** Adding an input to a request. *)
Lemma ids_add m rid rid' i ids :
  ids = add_cached_id rid i (request_cached_ids m) →
  default ∅ (ids !! rid') = if decide (rid' = rid) then ids_of m rid ∪ {[i]} else ids_of m rid'.
Proof.
  intros ->. unfold add_cached_id, ids_of. case_decide; subst.
  - by rewrite lookup_insert_eq.
  - by rewrite lookup_insert_ne.
Qed.

(** Both ways a request comes to hold input [i] of identifier [h]. *)
Lemma refs_add m m' r i h :
  enc_inv m → valid_input r i → hash_at (request_id r) i = Some h →
  request_cached_ids m' = add_cached_id (request_id r) i (request_cached_ids m) →
  cached m' = <[h := default ∅ (cached m !! h) ∪ {[request_id r]}]> (cached m) →
  (∀ rid h', refers m' rid h' ↔ ∃ j, j ∈ ids_of m' rid ∧ hash_at rid j = Some h') ∧
  (∀ rid j, j ∈ ids_of m' rid → 0 ≤ j < py_len (items rid)) ∧
  (∀ rid X, request_cached_ids m' !! rid = Some X → X ≠ ∅).
Proof.
  intros Hm [Hi Hr] Hh Hids Hc. set (rid := request_id r) in *.
  assert (Hi' : ∀ rid', ids_of m' rid' = if decide (rid' = rid) then ids_of m rid ∪ {[i]} else ids_of m rid').
  { intros rid'. unfold ids_of at 1. by apply ids_add. }
  assert (Href : ∀ rid' h', refers m' rid' h' ↔ refers m rid' h' ∨ (rid' = rid ∧ h' = h)).
  { intros rid' h'. unfold refers. rewrite Hc. destruct (decide (h' = h)) as [->|Hne].
    - rewrite lookup_insert_eq. split.
      + intros (refs & [= <-] & [Hin| ->%elem_of_singleton]%elem_of_union); [|by right]. left.
        destruct (cached m !! h) as [X|]; [by exists X|set_solver].
      + intros [(refs & Hs & Hin)|[-> _]]; eexists; (split; [done|]); [rewrite Hs; set_solver|set_solver].
    - rewrite lookup_insert_ne by done. naive_solver. }
  split_and!.
  - intros rid' h'. rewrite Href, (ei_refs m Hm), Hi'. split.
    + intros [(j & Hj & Hjh)|[-> ->]].
      * exists j. split; [|done]. case_decide; [subst; set_solver|done].
      * exists i. rewrite decide_True by done. set_solver.
    + intros (j & Hj & Hjh). case_decide; subst; [|left; by exists j].
      apply elem_of_union in Hj as [Hj| ->%elem_of_singleton]; [left; by exists j|right; split; [done|congruence]].
  - intros rid' j. rewrite Hi'. case_decide; subst; [|by apply ei_ids].
    intros [Hj| ->%elem_of_singleton]%elem_of_union; [by apply (ei_ids m Hm)|]. by rewrite <-Hi.
  - intros rid' X. rewrite Hids. unfold add_cached_id. rewrite lookup_insert. case_decide; subst; [|by apply ei_some].
    intros [= <-]. set_solver.
Qed.

Lemma union_singleton_ne (X : gset string) x : X ∪ {[x]} ≠ ∅.
Proof. set_solver. Qed.

(** ** The operations *)

Lemma new_inv size : 0 ≤ size → enc_inv (new_encoder_cache_manager size).
Proof.
  intros Hs. constructor; simpl.
  - intros h. rewrite elem_of_nil, lookup_empty. done.
  - constructor.
  - constructor.
  - unfold sumZ. simpl. lia.
  - unfold total. rewrite map_fold_empty. lia.
  - done.
  - intros rid h. unfold refers, ids_of. simpl. rewrite !lookup_empty. split; [by intros (? & ? & _)|].
    intros (i & Hi & _). set_solver.
  - intros rid i. unfold ids_of. simpl. rewrite lookup_empty. set_solver.
  - intros rid X. by rewrite lookup_empty.
Qed.

Lemma reset_inv m : enc_inv m → enc_inv (reset m).
Proof.
  intros Hm. change (reset m) with (new_encoder_cache_manager (cache_size m)). apply new_inv.
  rewrite (ei_total m Hm). pose proof (ei_nonneg m Hm). pose proof (total_nonneg (cached m)). lia.
Qed.

(** [check_and_update_cache] reports whether the item is cached, and then the
    request holds it. *)
Lemma check_and_update_cache_spec m r i :
  enc_inv m → valid_input r i →
  ∃ b m', check_and_update_cache r i m = Ok (b, m') ∧ enc_inv m' ∧
    num_free_slots m' = num_free_slots m ∧ dom (cached m') = dom (cached m) ∧ freed m' = freed m ∧
    (b = true → i ∈ ids_of m' (request_id r)) ∧ (b = false → m' = m) ∧
    ∀ h, hash_at (request_id r) i = Some h → (b = true ↔ is_Some (cached m !! h)).
Proof.
  intros Hm Hv. destruct (valid_lookup r i Hv) as (f & _ & Hh & Hat & _).
  unfold check_and_update_cache. rewrite Hh. simpl. set (h := identifier f) in *.
  destruct (cached m !! h) as [refs|] eqn:Hc.
  2: { exists false, m. split_and!; try done. intros h' Hh'. rewrite Hat in Hh'. injection Hh' as <-. rewrite Hc.
       split; [done|by intros [? ?]]. }
  assert (∃ fr nfs, (if decide (refs = ∅) then
           n ← unwrap KeyError (od_get (freeable m) h);
           Ok (od_del (freeable m) h, num_freeable_slots m - n)
         else Ok (freeable m, num_freeable_slots m)) = Ok (fr, nfs) ∧
      (∀ h', h' ∈ od_keys fr ↔ h' ∈ od_keys (freeable m) ∧ h' ≠ h) ∧ NoDup (od_keys fr) ∧
      Forall (λ e, e.2 = sz e.1) fr ∧ nfs = num_free_slots m + sumZ fr.*2) as (fr & nfs & -> & Hk & Hnd & Hs & Hf).
  { destruct (decide (refs = ∅)) as [->|Hne].
    - assert (Hin : h ∈ od_keys (freeable m)) by (by apply (ei_keys m Hm)).
      destruct (od_get (freeable m) h) as [n|] eqn:Hg; [|by apply od_get_None in Hg]. simpl.
      do 2 eexists. split; [done|]. split_and!.
      + intros h'. apply od_del_keys, Hm.
      + apply od_del_NoDup, Hm.
      + apply od_del_Forall, Hm.
      + rewrite (ei_freeable m Hm), (sum_od_del _ _ _ Hg). lia.
    - do 2 eexists. split; [done|]. split_and!; [|apply Hm..].
      intros h'. split; [|tauto]. intros Hh'. split; [done|]. intros ->. apply (ei_keys m Hm) in Hh'. congruence. }
  simpl. do 2 eexists. split; [done|]. set (m' := mkEncoderCacheManager _ _ _ _ _ _ _).
  destruct (refs_add m m' r i h Hm Hv Hat) as (Hr1 & Hr2 & Hr3); [done|by simpl; rewrite Hc|].
  split_and!; try done.
  - constructor; simpl; try done.
    + intros h'. rewrite Hk, (ei_keys m Hm), lookup_insert. case_decide; subst; [|naive_solver].
      split; [tauto|]. intros Hbad%(inj Some). by apply union_singleton_ne in Hbad.
    + rewrite (total_update _ _ refs) by done. apply Hm.
    + apply Hm.
  - simpl. rewrite dom_insert_L. apply elem_of_dom_2 in Hc. set_solver.
  - intros _. unfold ids_of. erewrite ids_add by done. rewrite decide_True by done. apply elem_of_union_r, elem_of_singleton_2, eq_refl.
  - intros h' Hh'. rewrite Hat in Hh'. injection Hh' as <-. rewrite Hc. split; [by eexists|done].
Qed.

(** [allocate] of an item that is not cached and fits. *)
Lemma allocate_spec m r i h :
  enc_inv m → valid_input r i → hash_at (request_id r) i = Some h →
  cached m !! h = None → sz h ≤ num_free_slots m →
  ∃ m', allocate r i m = Ok m' ∧ enc_inv m' ∧ num_free_slots m' = num_free_slots m - sz h ∧
    cached m' = <[h := {[request_id r]}]> (cached m) ∧ freeable m' = freeable m ∧ freed m' = freed m ∧
    i ∈ ids_of m' (request_id r).
Proof.
  intros Hm Hv Hat Hc Hfit. destruct (valid_lookup r i Hv) as (f & _ & Hh & Hat' & Hn).
  assert (h = identifier f) as -> by congruence. clear Hat'.
  pose proof (ei_freeable m Hm) as Hfr.
  assert (Hs : 0 ≤ sumZ (freeable m).*2).
  { pose proof (ei_sizes m Hm) as HF. clear Hfr. induction HF as [|e d He _ IH]; [done|].
    change (0 ≤ e.2 + sumZ d.*2). specialize (Hsz e.1). lia. }
  unfold allocate. rewrite Hh. simpl. rewrite Hn. simpl.
  rewrite (proj2 (Z.leb_le _ _) Hfit). simpl. rewrite (proj2 (Z.leb_le _ _)) by lia. simpl.
  eexists. split; [done|]. set (m' := mkEncoderCacheManager _ _ _ _ _ _ _).
  destruct (refs_add m m' r i (identifier f) Hm Hv Hat) as (Hr1 & Hr2 & Hr3); [done|done|].
  split_and!; try done.
  - constructor; simpl; try done; try apply Hm.
    + intros h. rewrite (ei_keys m Hm), lookup_insert. case_decide; subst; [|done].
      rewrite Hc. split; [done|]. intros Hbad%(inj Some). by apply union_singleton_ne in Hbad.
    + lia.
    + rewrite total_insert, (ei_total m Hm) by done. lia.
    + lia.
  - simpl. rewrite Hc. simpl. by rewrite union_empty_l_L.
  - unfold ids_of. erewrite ids_add by done. rewrite decide_True by done. apply elem_of_union_r, elem_of_singleton_2, eq_refl.
Qed.

(** The effect of evicting the [k] oldest unreferenced entries. *)
Record evicted m (k : nat) m' : Prop := {
  ev_freeable : freeable m' = drop k (freeable m);
  ev_freed : freed m' = freed m ++ od_keys (take k (freeable m));
  ev_free : num_free_slots m' = num_free_slots m + sumZ (take k (freeable m)).*2;
  ev_cached : ∀ h, cached m' !! h = if decide (h ∈ od_keys (take k (freeable m))) then None else cached m !! h;
  ev_ids : request_cached_ids m' = request_cached_ids m;
  ev_size : cache_size m' = cache_size m;
}.

(** Evicting the entry at the front. *)
Definition evict_front (h : mm_hash_t) (n : Z) (rest : list (mm_hash_t * Z)) m : EncoderCacheManager :=
  {| cache_size := cache_size m; num_free_slots := num_free_slots m + n;
     num_freeable_slots := num_freeable_slots m; cached := delete h (cached m);
     request_cached_ids := request_cached_ids m; freeable := rest; freed := freed m ++ [h] |}.

Lemma evict_front_inv m h n rest : enc_inv m → freeable m = (h, n) :: rest → enc_inv (evict_front h n rest m).
Proof.
  intros Hm Hfr. pose proof (ei_keys m Hm) as Hk. pose proof (ei_nodup m Hm) as Hnd.
  pose proof (ei_sizes m Hm) as Hs. pose proof (ei_freeable m Hm) as Hf. rewrite Hfr in *.
  apply NoDup_cons in Hnd as [Hh Hnd]. apply Forall_cons in Hs as [Hn Hs]. simpl in Hn. subst n.
  assert (Hc : cached m !! h = Some ∅) by (apply Hk; left).
  constructor; simpl; try done.
  - intros h'. specialize (Hk h'). simpl in Hk. rewrite elem_of_cons in Hk.
    destruct (decide (h' = h)) as [->|Hne].
    + rewrite lookup_delete_eq. split; [|done]. intros Hin. by destruct Hh.
    + rewrite lookup_delete_ne, <-Hk by done. split; [by right|]. by intros [?|?].
  - rewrite Hf. change (sumZ ((h, sz h) :: rest).*2) with (sz h + sumZ rest.*2). lia.
  - rewrite (ei_total m Hm), (total_delete _ _ _ Hc). lia.
  - pose proof (ei_nonneg m Hm). specialize (Hsz h). lia.
  - intros rid h'. transitivity (refers m rid h'); [|apply (ei_refs m Hm)]. unfold refers. simpl.
    destruct (decide (h' = h)) as [->|Hne]; [|by rewrite lookup_delete_ne].
    rewrite lookup_delete_eq, Hc. split; [by intros (? & ? & _)|]. intros (refs & [= <-] & Hin). set_solver.
  - apply (ei_ids m Hm).
  - apply (ei_some m Hm).
Qed.

Lemma evicted_refl m : evicted m 0 m.
Proof. constructor; try done; [by rewrite app_nil_r|unfold sumZ; simpl; lia]. Qed.

(** The eviction loop ends with enough room, having evicted no more of the
    oldest entries than needed. *)
Lemma evict_loop_spec m need :
  enc_inv m → need ≤ num_freeable_slots m →
  ∃ m' k, evict_loop need (freeable m) m = Ok m' ∧ enc_inv m' ∧ evicted m k m' ∧ need ≤ num_free_slots m' ∧
    (k ≤ length (freeable m))%nat ∧
    (k = 0%nat ∨ num_free_slots m + sumZ (take (k - 1) (freeable m)).*2 < need).
Proof.
  remember (freeable m) as fr eqn:Hfr. revert m Hfr. induction fr as [|[h n] rest IH]; intros m Hfr Hm Hneed; simpl.
  - pose proof (ei_freeable m Hm) as Hf. rewrite <-Hfr in Hf. change (sumZ [].*2) with 0 in Hf.
    rewrite (proj2 (Z.leb_le _ _)) by lia. exists m, 0%nat. split_and!; [done|done|apply evicted_refl|lia|lia|by left].
  - destruct (Z.leb_spec need (num_free_slots m)) as [Hle|Hgt].
    + exists m, 0%nat. split_and!; [done|done|apply evicted_refl|lia|lia|by left].
    + assert (Hc : cached m !! h = Some ∅) by (apply (ei_keys m Hm); rewrite <-Hfr; left).
      rewrite Hc. simpl. pose proof (evict_front_inv m h n rest Hm (eq_sym Hfr)) as Hm1.
      destruct (IH (evict_front h n rest m) eq_refl Hm1 Hneed) as (m' & k & Hrun & Hm' & [] & Hn' & Hk & Hmin).
      exists m', (S k). unfold evict_front in Hrun. rewrite Hrun. simpl in *.
      assert (Hsum : ∀ j, sumZ (take (S j) ((h, n) :: rest)).*2 = n + sumZ (take j rest).*2) by done.
      split_and!; [done|done| |lia|lia|right].
      * constructor; rewrite <-?Hfr; try done.
        -- rewrite ev_freed0, <-app_assoc. done.
        -- rewrite ev_free0, Hsum. lia.
        -- intros h'. simpl. rewrite ev_cached0. pose proof (elem_of_cons (od_keys (take k rest)) h' h) as Hin.
           unfold od_keys in *. destruct (decide (h' = h)) as [->|Hne].
           ++ rewrite lookup_delete_eq. by repeat case_decide; try tauto.
           ++ rewrite lookup_delete_ne by done. by repeat case_decide; try tauto.
      * rewrite Nat.sub_0_r. destruct Hmin as [->|Hmin]; [simpl; unfold sumZ; simpl; lia|].
        destruct k as [|k]; [simpl; unfold sumZ; simpl; lia|].
        change (num_free_slots m + sumZ (take (S k) ((h, n) :: rest)).*2 < need).
        rewrite Hsum. simpl in Hmin. rewrite Nat.sub_0_r in Hmin. lia.
Qed.

(** [can_allocate], on every branch. *)
Lemma can_allocate_spec m r i h budget sched :
  enc_inv m → valid_input r i → hash_at (request_id r) i = Some h →
  ∃ b m', can_allocate r i budget sched m = Ok (b, m') ∧ enc_inv m' ∧
    (b = true ↔ sz h ≤ budget ∧ sz h + sched ≤ num_freeable_slots m) ∧
    (b = false → m' = m) ∧
    (b = true → sz h + sched ≤ num_free_slots m' ∧
       ∃ k, (k ≤ length (freeable m))%nat ∧ evicted m k m' ∧
         (k = 0%nat ∨ num_free_slots m + sumZ (take (k - 1) (freeable m)).*2 < sz h + sched)).
Proof.
  intros Hm Hv Hat. destruct (valid_lookup r i Hv) as (f & _ & _ & Hat' & Hn).
  assert (h = identifier f) as -> by congruence.
  pose proof (evicted_refl m) as Hid.
  pose proof (ei_freeable m Hm) as Hfr.
  assert (Hs : 0 ≤ sumZ (freeable m).*2).
  { pose proof (ei_sizes m Hm) as HF. clear Hfr. induction HF as [|e d He _ IH]; [done|].
    change (0 ≤ e.2 + sumZ d.*2). specialize (Hsz e.1). lia. }
  unfold can_allocate. rewrite Hn. simpl. set (n := sz (identifier f)) in *.
  destruct (Z.ltb_spec budget n).
  { exists false, m. split_and!; [done|done|split; [done|lia]|done|done]. }
  destruct (Z.leb_spec (n + sched) (num_free_slots m)).
  { exists true, m. split_and!; [done|done|split; [lia|done]|done|]. intros _. split; [done|].
    exists 0%nat. split_and!; [lia|done|by left]. }
  destruct (Z.ltb_spec (num_freeable_slots m) (n + sched)).
  { exists false, m. split_and!; [done|done|split; [done|lia]|done|done]. }
  destruct (evict_loop_spec m (n + sched) Hm) as (m' & k & -> & Hm' & Hev & Hfree & Hk & Hmin); [lia|]. simpl.
  exists true, m'. split_and!; [done|done|split; [lia|done]|done|]. intros _. split; [done|]. by exists k.
Qed.

(** [any(...)] over inputs of the request. *)
Lemma any_same_hash_spec r h ids :
  mm_features r = items (request_id r) → (∀ i, i ∈ ids → 0 ≤ i < py_len (mm_features r)) →
  ∃ b, any_same_hash r h ids = Ok b ∧ (b = true ↔ ∃ i, i ∈ ids ∧ hash_at (request_id r) i = Some h).
Proof.
  intros Hi. induction ids as [|i ids IH]; intros Hids; simpl.
  { exists false. split; [done|]. split; [done|]. by intros (? & ?%elem_of_nil & _). }
  destruct (valid_lookup r i) as (f & _ & Hh & Hat & _); [constructor; [done|apply Hids; left]|].
  rewrite Hh. simpl. destruct (bool_decide_reflect (identifier f = h)) as [<-|Hne].
  - exists true. split; [done|]. split; [|done]. intros _. exists i. split; [left|done].
  - destruct IH as (b & -> & Hb); [intros; apply Hids; by right|]. exists b. split; [done|]. rewrite Hb. split.
    + intros (j & Hj & ?). exists j. split; [by right|done].
    + intros (j & [->|Hj]%elem_of_cons & Hjh); [congruence|]. by exists j.
Qed.

Lemma ids_discard m rid i rid' :
  default ∅ (discard_cached_id rid i (request_cached_ids m) !! rid') =
  if decide (rid' = rid) then ids_of m rid ∖ {[i]} else ids_of m rid'.
Proof.
  unfold discard_cached_id, ids_of. destruct (request_cached_ids m !! rid) as [X|] eqn:HX; simpl.
  - destruct (decide (X ∖ {[i]} = ∅)) as [He|He]; destruct (decide (rid' = rid)) as [->|].
    + by rewrite lookup_delete_eq, He.
    + by rewrite lookup_delete_ne.
    + by rewrite lookup_insert_eq.
    + by rewrite lookup_insert_ne.
  - destruct (decide (rid' = rid)) as [->|]; [|done]. rewrite HX. simpl. set_solver.
Qed.

Lemma discard_some m rid i rid' X :
  enc_inv m → discard_cached_id rid i (request_cached_ids m) !! rid' = Some X → X ≠ ∅.
Proof.
  intros Hm. unfold discard_cached_id. destruct (request_cached_ids m !! rid) as [Y|] eqn:HY.
  - destruct (decide (Y ∖ {[i]} = ∅)); [intros Hd%lookup_delete_Some|intros Hd%lookup_insert_Some].
    + by apply (ei_some m Hm rid'), Hd.
    + destruct Hd as [[_ <-]|[_ Hd]]; [done|by apply (ei_some m Hm rid')].
  - by apply ei_some.
Qed.

(** The references after an input of identifier [h] has been discarded; [b]
    tells whether the request still holds the item. *)
Lemma refs_discard m m' r i h (b : bool) :
  enc_inv m → hash_at (request_id r) i = Some h →
  request_cached_ids m' = discard_cached_id (request_id r) i (request_cached_ids m) →
  (b = true ↔ ∃ j, j ∈ ids_of m (request_id r) ∖ {[i]} ∧ hash_at (request_id r) j = Some h) →
  (∀ rid h', refers m' rid h' ↔ refers m rid h' ∧ ¬ (b = false ∧ rid = request_id r ∧ h' = h)) →
  (∀ rid h', refers m' rid h' ↔ ∃ j, j ∈ ids_of m' rid ∧ hash_at rid j = Some h') ∧
  (∀ rid j, j ∈ ids_of m' rid → 0 ≤ j < py_len (items rid)) ∧
  (∀ rid X, request_cached_ids m' !! rid = Some X → X ≠ ∅).
Proof.
  intros Hm Hh Hids Hb Href. set (rid := request_id r) in *.
  assert (Hi' : ∀ rid', ids_of m' rid' = if decide (rid' = rid) then ids_of m rid ∖ {[i]} else ids_of m rid').
  { intros rid'. unfold ids_of at 1. rewrite Hids. apply ids_discard. }
  split_and!.
  - intros rid' h'. rewrite Href, (ei_refs m Hm), Hi'. destruct (decide (rid' = rid)) as [->|Hne].
    2: { split; [by intros [? _]|]. intros Hj. split; [done|]. naive_solver. }
    split.
    + intros [(j & Hj & Hjh) Hn]. destruct (decide (j = i)) as [->|Hji].
      * assert (h' = h) as -> by congruence. apply Hb. destruct b; [done|]. by destruct Hn.
      * exists j. split; [|done]. apply elem_of_difference. split; [done|]. by intros ?%elem_of_singleton.
    + intros (j & Hj & Hjh). split.
      * exists j. split; [|done]. by apply elem_of_difference in Hj as [? _].
      * intros (Hbf & _ & ->). assert (b = true) by (apply Hb; by exists j). congruence.
  - intros rid' j. rewrite Hi'. case_decide; subst; [|by apply ei_ids].
    intros [Hj _]%elem_of_difference. by apply (ei_ids m Hm).
  - intros rid' X. rewrite Hids. by apply discard_some.
Qed.

(** Dropping the reference of a request from a set of references. *)
Lemma refers_drop m m' rid0 h refs :
  cached m !! h = Some refs → cached m' = <[h := refs ∖ {[rid0]}]> (cached m) →
  ∀ rid h', refers m' rid h' ↔ refers m rid h' ∧ ¬ (false = false ∧ rid = rid0 ∧ h' = h).
Proof.
  intros Hc Hc' rid h'. unfold refers. rewrite Hc'. destruct (decide (h' = h)) as [->|Hne].
  - rewrite lookup_insert_eq, Hc. split.
    + intros (X & HX%(inj Some) & Hin). subst X. apply elem_of_difference in Hin as [Hin Hn].
      split; [by exists refs|]. intros (_ & -> & _). by apply Hn, elem_of_singleton.
    + intros [(X & HX%(inj Some) & Hin) Hn]. subst X. eexists. split; [done|]. apply elem_of_difference.
      split; [done|]. intros ->%elem_of_singleton. by apply Hn.
  - rewrite lookup_insert_ne by done. naive_solver.
Qed.

(** The state after the input has been discarded and nothing else. *)
Definition discarded m r (i : Z) : EncoderCacheManager :=
  {| cache_size := cache_size m; num_free_slots := num_free_slots m;
     num_freeable_slots := num_freeable_slots m; cached := cached m;
     request_cached_ids := discard_cached_id (request_id r) i (request_cached_ids m);
     freeable := freeable m; freed := freed m |}.

(** Whether the request still holds the item at another position. *)
Lemma still_held_spec m r i h :
  enc_inv m → mm_features r = items (request_id r) →
  ∃ b, any_same_hash r h
         (match discard_cached_id (request_id r) i (request_cached_ids m) !! request_id r with
          | Some X => int_set_order X | None => [] end) = Ok b ∧
    (b = true ↔ ∃ j, j ∈ ids_of m (request_id r) ∖ {[i]} ∧ hash_at (request_id r) j = Some h).
Proof.
  intros Hm Hi. set (ids := discard_cached_id _ _ _).
  assert (Hids : default ∅ (ids !! request_id r) = ids_of m (request_id r) ∖ {[i]}).
  { unfold ids. by rewrite ids_discard, decide_True. }
  assert (Hel : ∀ j, j ∈ (match ids !! request_id r with Some X => int_set_order X | None => [] end) ↔
                     j ∈ ids_of m (request_id r) ∖ {[i]}).
  { intros j. rewrite <-Hids. destruct (ids !! request_id r); simpl; [by rewrite int_set_order_perm, elem_of_elements|].
    rewrite elem_of_nil. set_solver. }
  destruct (any_same_hash_spec r h (match ids !! request_id r with Some X => int_set_order X | None => [] end) Hi)
    as (b & Hb & Hiff).
  { intros j Hj%Hel. apply elem_of_difference in Hj as [Hj _]. rewrite Hi. by apply (ei_ids m Hm). }
  exists b. split; [done|]. rewrite Hiff. by setoid_rewrite Hel.
Qed.

Lemma discarded_inv m r i h (b : bool) :
  enc_inv m → hash_at (request_id r) i = Some h →
  (b = true ↔ ∃ j, j ∈ ids_of m (request_id r) ∖ {[i]} ∧ hash_at (request_id r) j = Some h) →
  (b = true ∨ ¬ refers m (request_id r) h) → enc_inv (discarded m r i).
Proof.
  intros Hm Hat Hb Hno. destruct (refs_discard m (discarded m r i) r i h b Hm Hat eq_refl Hb) as (? & ? & ?).
  - intros rid h'. change (refers (discarded m r i) rid h') with (refers m rid h'). split; [|tauto].
    intros Hr. split; [done|]. intros (-> & -> & ->). destruct Hno; [done|tauto].
  - by destruct Hm; constructor.
Qed.

(** The request drops its reference: either other requests keep the entry, or
    it becomes evictable as the youngest one. *)
Lemma dropped_inv m r i h refs :
  enc_inv m → hash_at (request_id r) i = Some h → cached m !! h = Some refs → refs ≠ ∅ →
  (¬ ∃ j, j ∈ ids_of m (request_id r) ∖ {[i]} ∧ hash_at (request_id r) j = Some h) →
  let refs' := refs ∖ {[request_id r]} in
  enc_inv {| cache_size := cache_size m; num_free_slots := num_free_slots m;
             num_freeable_slots := num_freeable_slots m + (if decide (refs' = ∅) then sz h else 0);
             cached := <[h := refs']> (cached m);
             request_cached_ids := discard_cached_id (request_id r) i (request_cached_ids m);
             freeable := if decide (refs' = ∅) then od_set (freeable m) h (sz h) else freeable m;
             freed := freed m |}.
Proof.
  intros Hm Hat Hc Hne Hno refs'. set (m' := mkEncoderCacheManager _ _ _ _ _ _ _).
  destruct (refs_discard m m' r i h false Hm Hat eq_refl) as (Hr1 & Hr2 & Hr3).
  { split; [done|]. intros ?. by destruct Hno. }
  { by apply (refers_drop m m' _ _ refs). }
  assert (Hkeys : h ∉ od_keys (freeable m)).
  { intros Hin%(ei_keys m Hm). rewrite Hc in Hin. apply (inj Some) in Hin. done. }
  constructor; simpl; try done; try apply Hm.
  - intros h'. rewrite lookup_insert. destruct (decide (refs' = ∅)) as [He|He].
    + rewrite od_set_new by done. unfold od_keys. rewrite fmap_app, elem_of_app. simpl.
      rewrite list_elem_of_singleton. change (h' ∈ (freeable m).*1) with (h' ∈ od_keys (freeable m)).
      rewrite (ei_keys m Hm). case_decide; subst; [rewrite He; tauto|naive_solver].
    + rewrite (ei_keys m Hm). case_decide; subst; [|done]. rewrite Hc.
      split; intros Hx%(inj Some); done.
  - case_decide; [|apply Hm]. rewrite od_set_new by done. unfold od_keys. rewrite fmap_app. apply NoDup_app.
    split_and!; [apply Hm| |apply NoDup_singleton]. intros h' Hh' ->%list_elem_of_singleton. done.
  - case_decide; [|apply Hm]. rewrite od_set_new by done. apply Forall_app. split; [apply Hm|].
    by apply Forall_singleton.
  - rewrite (ei_freeable m Hm). case_decide; [|lia]. rewrite od_set_new by done.
    rewrite fmap_app, sumZ_app. change (sumZ ([(h, sz h)].*2)) with (sz h + 0). lia.
  - rewrite (total_update _ _ refs) by done. apply Hm.
Qed.

(** [free_encoder_input] on every branch. *)
Lemma free_encoder_input_spec m r i :
  enc_inv m → valid_input r i →
  ∃ m', free_encoder_input r i m = Ok m' ∧ enc_inv m' ∧ num_free_slots m' = num_free_slots m ∧
    freed m' = freed m ∧ dom (cached m') = dom (cached m) ∧
    request_cached_ids m' = discard_cached_id (request_id r) i (request_cached_ids m).
Proof.
  intros Hm Hv. destruct (valid_lookup r i Hv) as (f & _ & Hh & Hat & Hn). pose proof Hv as [Hi _].
  unfold free_encoder_input. rewrite Hh. simpl. set (h := identifier f) in *.
  destruct (still_held_spec m r i h Hm Hi) as (b & Hany & Hb).
  assert (Hkeep : b = true ∨ ¬ refers m (request_id r) h → ∃ m', Ok (discarded m r i) = Ok m' ∧ enc_inv m' ∧
    num_free_slots m' = num_free_slots m ∧ freed m' = freed m ∧ dom (cached m') = dom (cached m) ∧
    request_cached_ids m' = discard_cached_id (request_id r) i (request_cached_ids m)).
  { intros Hno. exists (discarded m r i). split_and!; try done. by eapply discarded_inv. }
  destruct (cached m !! h) as [refs|] eqn:Hc.
  2: { apply Hkeep. right. intros (X & HX & _). congruence. }
  destruct (decide (refs = ∅)) as [->|Hne].
  { apply Hkeep. right. intros (X & HX & Hin). rewrite Hc in HX. apply (inj Some) in HX. subst. set_solver. }
  rewrite Hany. simpl. destruct b; [apply Hkeep; by left|]. clear Hkeep.
  pose proof (dropped_inv m r i h refs Hm Hat Hc Hne) as Hinv.
  assert (Hdom : dom (<[h := refs ∖ {[request_id r]}]> (cached m)) = dom (cached m)).
  { rewrite dom_insert_L. apply elem_of_dom_2 in Hc. clear -Hc. set_solver. }
  assert (Hno : ¬ ∃ j, j ∈ ids_of m (request_id r) ∖ {[i]} ∧ hash_at (request_id r) j = Some h).
  { intros Hj. by apply Hb in Hj. }
  specialize (Hinv Hno). simpl in Hinv.
  destruct (decide (refs ∖ {[request_id r]} = ∅)) as [He|He].
  - rewrite Hn. simpl. eexists. split; [done|]. by split_and!.
  - rewrite Z.add_0_r in Hinv. eexists. split; [done|]. by split_and!.
Qed.

(** [free] releases every input of the request. *)
Lemma free_spec m r :
  enc_inv m → mm_features r = items (request_id r) →
  ∃ m', free r m = Ok m' ∧ enc_inv m' ∧ num_free_slots m' = num_free_slots m ∧ freed m' = freed m ∧
    dom (cached m') = dom (cached m) ∧
    ∀ rid, ids_of m' rid = if decide (rid = request_id r) then ∅ else ids_of m rid.
Proof.
  intros Hm Hi. unfold free. set (X := get_cached_input_ids r m).
  assert (HX : X = ids_of m (request_id r)) by done.
  destruct (foldM_ind (λ m i, free_encoder_input r i m) (λ dn m', enc_inv m' ∧ num_free_slots m' = num_free_slots m ∧
    freed m' = freed m ∧ dom (cached m') = dom (cached m) ∧
    ∀ rid, ids_of m' rid = if decide (rid = request_id r) then ids_of m rid ∖ list_to_set dn else ids_of m rid)
    (int_set_order X) m) as (m' & Hrun & Hm' & Hf & Hfd & Hd & Hids).
  - split_and!; try done. intros rid. case_decide; [|done]. set_solver.
  - intros dn i todo m1 Hl (Hm1 & Hf & Hfd & Hd & Hids).
    assert (Hin : i ∈ X). { rewrite <-elem_of_elements, <-int_set_order_perm, Hl. set_solver. }
    destruct (free_encoder_input_spec m1 r i Hm1) as (m2 & -> & Hm2 & Hf2 & Hfd2 & Hd2 & Hi2).
    { constructor; [done|]. rewrite Hi. apply (ei_ids m Hm). by rewrite <-HX. }
    exists m2. split_and!; [done|done|congruence|congruence|congruence|].
    intros rid. unfold ids_of at 1. rewrite Hi2, ids_discard.
    destruct (decide (rid = request_id r)) as [->|]; [|by rewrite Hids, decide_False].
    rewrite Hids, decide_True, list_to_set_app_L by done. simpl. set_solver.
  - exists m'. split_and!; try done. intros rid. rewrite Hids. case_decide; subst; [|done].
    assert (list_to_set (int_set_order X) = X) as ->.
    { apply set_eq. intros j. by rewrite elem_of_list_to_set, int_set_order_perm, elem_of_elements. }
    rewrite HX. set_solver.
Qed.

(** ** Properties *)

Inductive enc_op : Type :=
  | ECheckAndUpdate (r : Request) (i : Z)
  | ECanAllocate (r : Request) (i budget sched : Z)
  | EAllocate (r : Request) (i : Z)
  | EFreeInput (r : Request) (i : Z)
  | EFree (r : Request)
  | EGetFreed
  | EReset.

Definition run_enc_op (op : enc_op) m : result EncoderCacheManager :=
  match op with
  | ECheckAndUpdate r i => '(_, m') ← check_and_update_cache r i m; Ok m'
  | ECanAllocate r i budget sched => '(_, m') ← can_allocate r i budget sched m; Ok m'
  | EAllocate r i => allocate r i m
  | EFreeInput r i => free_encoder_input r i m
  | EFree r => free r m
  | EGetFreed => Ok (get_freed_mm_hashes m).2
  | EReset => Ok (reset m)
  end.

(** What the scheduler respects: inputs of known requests, and [allocate] only
    for an item that is not cached and fits. *)
Definition enc_pre (op : enc_op) m : Prop :=
  match op with
  | ECheckAndUpdate r i | ECanAllocate r i _ _ | EFreeInput r i => valid_input r i
  | EAllocate r i =>
      valid_input r i ∧
      ∃ h, hash_at (request_id r) i = Some h ∧ cached m !! h = None ∧ sz h ≤ num_free_slots m
  | EFree r => mm_features r = items (request_id r)
  | EGetFreed | EReset => True
  end.

Inductive enc_reachable : EncoderCacheManager → Prop :=
  | enc_init size : 0 ≤ size → enc_reachable (new_encoder_cache_manager size)
  | enc_step op m m' : enc_reachable m → enc_pre op m → run_enc_op op m = Ok m' → enc_reachable m'.

(** Who holds what after a call. *)
Definition enc_effect (op : enc_op) m m' : Prop :=
  match op with
  | ECheckAndUpdate r i => ∀ h, hash_at (request_id r) i = Some h → is_Some (cached m !! h) → i ∈ ids_of m' (request_id r)
  | EAllocate r i => i ∈ ids_of m' (request_id r)
  | EFreeInput r i => dom (cached m') = dom (cached m) ∧
      ∀ rid, ids_of m' rid = if decide (rid = request_id r) then ids_of m rid ∖ {[i]} else ids_of m rid
  | EFree r => dom (cached m') = dom (cached m) ∧ ∀ rid, ids_of m' rid = if decide (rid = request_id r) then ∅ else ids_of m rid
  | EReset => cached m' = ∅ ∧ num_free_slots m' = cache_size m
  | ECanAllocate _ _ _ _ | EGetFreed => True
  end.

Lemma discard_ids m m' rid i : request_cached_ids m' = discard_cached_id rid i (request_cached_ids m) →
  ∀ rid', ids_of m' rid' = if decide (rid' = rid) then ids_of m rid' ∖ {[i]} else ids_of m rid'.
Proof.
  intros E rid'. unfold ids_of. rewrite E. unfold discard_cached_id. destruct (request_cached_ids m !! rid) as [X|] eqn:HX.
  - destruct (decide (X ∖ {[i]} = ∅)) as [He|He]; destruct (decide (rid' = rid)) as [->|Hn].
    + rewrite lookup_delete_eq, HX. cbn. by rewrite He.
    + by rewrite lookup_delete_ne.
    + by rewrite lookup_insert_eq, HX.
    + by rewrite lookup_insert_ne.
  - case_decide as Hr; [|done]. subst. rewrite HX. cbn. set_solver.
Qed.

Lemma run_enc_op_inv op m : enc_inv m → enc_pre op m → ∃ m', run_enc_op op m = Ok m' ∧ enc_inv m' ∧ enc_effect op m m'.
Proof.
  intros Hm Hpre. destruct op as [r i|r i budget sched|r i|r i|r| |]; simpl in *.
  - destruct (check_and_update_cache_spec m r i Hm Hpre) as (b & m' & -> & Hm' & _ & _ & _ & Hin & _ & Hb). simpl.
    exists m'. split_and!; [done|done|]. intros h Hh Hc. by apply Hin, (Hb h).
  - destruct (valid_lookup r i Hpre) as (f & _ & _ & Hat & _).
    destruct (can_allocate_spec m r i _ budget sched Hm Hpre Hat) as (b & m' & -> & Hm' & _). simpl. eauto.
  - destruct Hpre as (Hv & h & Hat & Hc & Hfit).
    destruct (allocate_spec m r i h Hm Hv Hat Hc Hfit) as (m' & -> & Hm' & _ & _ & _ & _ & Hin). eauto.
  - destruct (free_encoder_input_spec m r i Hm Hpre) as (m' & -> & Hm' & _ & _ & Hd & Hids). exists m'. split_and!; try done. by apply discard_ids.
  - destruct (free_spec m r Hm Hpre) as (m' & -> & Hm' & _ & _ & Hd & Hids). by exists m'.
  - eexists. split; [done|]. split; [by destruct Hm; constructor|done].
  - eexists. split; [done|]. split; [by apply reset_inv|done].
Qed.

Lemma enc_reachable_inv m : enc_reachable m → enc_inv m.
Proof.
  induction 1 as [size Hs|op m m' _ Hm Hpre Hrun]; [by apply new_inv|].
  destruct (run_enc_op_inv op m Hm Hpre) as (m1 & Hm1 & Hinv & _). rewrite Hrun in Hm1. injection Hm1 as ->. done.
Qed.

(** C38: Safety of the encoder cache.  In every reachable state the free slots
    and the cached items fill the cache exactly, the reclaimable slots are the
    free ones plus those of the items that can be evicted, and an item can be
    evicted if and only if it is cached and no request holds it; every item a
    request holds is cached.  No call that respects its precondition raises, and
    after it the requests hold what the call says: an item that was allocated or
    found in the cache, everything but the input that was freed, or nothing. *)
Theorem encoder_cache_safe m :
  enc_reachable m →
  cache_size m = num_free_slots m + total (cached m) ∧
  num_freeable_slots m = num_free_slots m + sumZ (freeable m).*2 ∧
  0 ≤ num_free_slots m ≤ num_freeable_slots m ∧
  (∀ rid i, i ∈ ids_of m rid → ∃ h, hash_at rid i = Some h ∧ is_Some (cached m !! h) ∧ h ∉ od_keys (freeable m)) ∧
  (∀ h, h ∈ od_keys (freeable m) ↔ is_Some (cached m !! h) ∧ ∀ rid i, i ∈ ids_of m rid → hash_at rid i ≠ Some h) ∧
  ∀ op, enc_pre op m → ∃ m', run_enc_op op m = Ok m' ∧ enc_reachable m' ∧ enc_effect op m m'.
Proof.
  intros Hr. pose proof (enc_reachable_inv m Hr) as Hm. pose proof Hm as [].
  assert (Hs : 0 ≤ sumZ (freeable m).*2).
  { clear -ei_sizes0 Hsz. induction ei_sizes0 as [|e d He _ IH]; [done|].
    change (0 ≤ e.2 + sumZ d.*2). specialize (Hsz e.1). lia. }
  split_and!; [done|done|done|lia|..].
  - intros rid i Hi. destruct (lookup_lt_is_Some_2 (items rid) (Z.to_nat i)) as [f Hf].
    { specialize (ei_ids0 _ _ Hi). unfold py_len in *. lia. }
    exists (identifier f). assert (Hat : hash_at rid i = Some (identifier f)) by (unfold hash_at; by rewrite Hf).
    destruct (proj2 (ei_refs0 rid (identifier f))) as (refs & Hc & Hin); [by exists i|].
    split_and!; [done|by exists refs|]. rewrite ei_keys0, Hc. intros ->%(inj Some). set_solver.
  - intros h. rewrite ei_keys0. split.
    + intros Hc. split; [by eexists|]. intros rid i Hi Hh. destruct (proj2 (ei_refs0 rid h)) as (refs & Hc' & Hin); [by exists i|].
      rewrite Hc in Hc'. apply (inj Some) in Hc'. subst. set_solver.
    + intros [[refs Hc] Hno]. rewrite Hc. f_equal. apply set_eq. intros rid. split; [|set_solver]. intros Hin.
      destruct (proj1 (ei_refs0 rid h)) as (i & Hi & Hh); [by exists refs|]. by destruct (Hno rid i Hi).
  - intros op Hpre. destruct (run_enc_op_inv op m Hm Hpre) as (m' & Hrun & _ & He). exists m'. split; [done|].
    split; [by eapply enc_step|done].
Qed.

(** [can_allocate] answers yes exactly when the item fits the compute
    budget and the reclaimable slots; it then leaves room for it in the free
    slots by evicting the oldest unreferenced items, no more of them than
    needed, and reports them as freed; a negative answer changes nothing. *)
Theorem can_allocate_correct m r i h budget sched :
  enc_reachable m → valid_input r i → hash_at (request_id r) i = Some h →
  ∃ b m', can_allocate r i budget sched m = Ok (b, m') ∧
    (b = true ↔ sz h ≤ budget ∧ sz h + sched ≤ num_freeable_slots m) ∧
    (b = false → m' = m) ∧
    (b = true → sz h + sched ≤ num_free_slots m' ∧
       ∃ k, (k ≤ length (freeable m))%nat ∧
         freeable m' = drop k (freeable m) ∧ freed m' = freed m ++ od_keys (take k (freeable m)) ∧
         (∀ h', cached m' !! h' = if decide (h' ∈ od_keys (take k (freeable m))) then None else cached m !! h') ∧
         (k = 0%nat ∨ num_free_slots m + sumZ (take (k - 1) (freeable m)).*2 < sz h + sched)).
Proof.
  intros Hr Hv Hat. destruct (can_allocate_spec m r i h budget sched (enc_reachable_inv m Hr) Hv Hat)
    as (b & m' & Hrun & _ & Hb & Hno & Hyes).
  exists b, m'. split_and!; try done. intros Ht. destruct (Hyes Ht) as (Hroom & k & Hk & [] & Hmin).
  split; [done|]. exists k. by split_and!.
Qed.

(** [free] releases every item a request holds: no entry refers to the
    request any more, the references of the other requests are unchanged, every
    entry stays cached until it is evicted, and an entry nobody else refers to
    becomes reclaimable. *)
Theorem encoder_free_correct m r :
  enc_reachable m → mm_features r = items (request_id r) →
  ∃ m', free r m = Ok m' ∧ dom (cached m') = dom (cached m) ∧ num_free_slots m' = num_free_slots m ∧
    (∀ rid h, refers m' rid h ↔ refers m rid h ∧ rid ≠ request_id r) ∧
    ∀ h, is_Some (cached m !! h) → (h ∈ od_keys (freeable m') ↔ ∀ rid, rid ≠ request_id r → ¬ refers m rid h).
Proof.
  intros Hr Hi. pose proof (enc_reachable_inv m Hr) as Hm.
  destruct (free_spec m r Hm Hi) as (m' & -> & Hm' & Hf & _ & Hd & Hids). exists m'.
  assert (Href : ∀ rid h, refers m' rid h ↔ refers m rid h ∧ rid ≠ request_id r).
  { intros rid h. rewrite (ei_refs m' Hm'), (ei_refs m Hm), Hids. case_decide; [|naive_solver].
    split; [intros (j & Hj & _); set_solver|tauto]. }
  split_and!; try done. intros h [refs Hc].
  assert (is_Some (cached m' !! h)) as [refs' Hc'].
  { apply elem_of_dom. rewrite Hd. by eapply elem_of_dom_2. }
  rewrite (ei_keys m' Hm'), Hc'. split.
  - intros Hrefs%(inj Some) rid Hne Hrd. assert (refers m' rid h) as (X & HX & Hin) by (by apply Href).
    rewrite Hc' in HX. apply (inj Some) in HX. subst. set_solver.
  - intros Hno. f_equal. apply set_eq. intros rid. split; [|set_solver]. intros Hin.
    assert (refers m' rid h) as [Hrd Hne]%Href by (by exists refs'). by destruct (Hno rid Hne).
Qed.
End Accounting.

(** ** Budgets *)

Lemma py_max_ge x xs : x ≤ py_max x xs ∧ Forall (λ y, y ≤ py_max x xs) xs ∧ py_max x xs ∈ x :: xs.
Proof.
  unfold py_max. revert x. induction xs as [|y xs IH]; intros x; simpl.
  - split_and!; [lia|constructor|left].
  - destruct (IH (Z.max x y)) as (H1 & H2 & H3). split_and!; [lia|constructor; [lia|done]|].
    apply elem_of_cons in H3 as [H3|H3]; [|by right; right].
    rewrite H3. destruct (Z.max_spec x y) as [[_ ->]|[_ ->]]; [right; left|left].
Qed.

(** The encoder budgets: every item the model can produce fits the
    compute budget and the cache, which are not below the configured values; the
    call raises [ValueError] exactly when chunking of multimodal inputs is
    disabled and some item is larger than a batch; without items both are 0. *)
Theorem compute_mm_encoder_budget_correct cfg items :
  match compute_mm_encoder_budget cfg items with
  | Ok (compute, size) =>
      (items = [] ∧ compute = 0 ∧ size = 0) ∨
      (Forall (λ e, e.2 ≤ compute ∧ e.2 ≤ size) items ∧ max_num_encoder_input_tokens cfg ≤ compute ∧
       encoder_cache_size cfg ≤ size ∧
       (disable_chunked_mm_input cfg = true → Forall (λ e, e.2 ≤ max_num_batched_tokens cfg) items))
  | Err e => e = ValueError ∧ disable_chunked_mm_input cfg = true ∧
      Exists (λ e, max_num_batched_tokens cfg < e.2) items
  end.
Proof.
  unfold compute_mm_encoder_budget. destruct items.*2 as [|n ns] eqn:E.
  { left. by destruct items. }
  destruct (py_max_ge n ns) as (H1 & H2 & H3). rewrite Forall_forall in H2.
  assert (Hall : ∀ e, e ∈ items → e.2 ≤ py_max n ns).
  { intros e He. assert (e.2 ∈ n :: ns) as Hin by (rewrite <-E; by apply list_elem_of_fmap_2).
    apply elem_of_cons in Hin as [->|Hin]; [done|by apply H2]. }
  destruct (disable_chunked_mm_input cfg && _) eqn:Hd.
  - apply andb_true_iff in Hd as [Hd1 Hd2%Z.ltb_lt]. split_and!; [done|done|].
    rewrite <-E in H3. apply list_elem_of_fmap in H3 as (e & He & Hin). apply Exists_exists. exists e. split; [done|].
    by rewrite <-He.
  - right. split_and!; [|lia|lia|].
    + apply Forall_forall. intros e He. specialize (Hall e He). lia.
    + intros Ht. rewrite Ht in Hd. apply Z.ltb_ge in Hd. apply Forall_forall. intros e He. specialize (Hall e He). lia.
Qed.

(** The accounts of the encoder-decoder manager do not balance:
    [free_encoder_input] adds the size of the input to the free slots whether or
    not the input is allocated, and all inputs are always reported as cached, so
    every call after the first raises the free slots above the cache size. *)
Theorem encoder_decoder_free_leak r i n size k :
  get_num_encoder_embeds r i = Ok n → 0 < n → is_ok (mm_hash_of r i) = true →
  ∃ m m', ed_allocate r i (new_encoder_decoder_cache_manager size) = Ok m ∧
    ed_num_free_slots m = size - n ∧
    foldM (λ m _, ed_free_encoder_input r i m) m (seq 0 k) = Ok m' ∧
    ed_num_free_slots m' = ed_cache_size m' + (Z.of_nat k - 1) * n ∧
    (0 ≤ i < py_len (mm_features r) → i ∈ ed_get_cached_input_ids r).
Proof.
  intros Hn Hpos Hok. destruct (mm_hash_of r i) as [h|] eqn:Hh; [|done].
  unfold ed_allocate. rewrite Hn, Hh. simpl. eexists. set (m0 := mkEncoderDecoderCacheManager _ _ _ _).
  destruct (foldM_ind (λ m _, ed_free_encoder_input r i m)
    (λ (dn : list nat) m, ed_num_free_slots m = size - n + py_len dn * n ∧ ed_cache_size m = size) (seq 0 k) m0)
    as (m' & Hrun & Hf & Hs).
  - split; [unfold py_len; simpl; lia|done].
  - intros dn x todo m _ [Hf Hs]. unfold ed_free_encoder_input. rewrite Hn. simpl. eexists. split; [done|]. simpl.
    rewrite py_len_app, Hf. split; [change (py_len [x]) with 1; lia|done].
  - exists m'. split_and!; [done|done|done| |].
    + rewrite Hf, Hs. unfold py_len. rewrite length_seq. lia.
    + intros Hi. unfold ed_get_cached_input_ids. by rewrite elem_of_list_to_set, elem_of_py_range.
Qed.

(** ** Witnesses *)

#[export] Instance demo_int_order : IntSetOrder := {| int_set_order := elements; int_set_order_perm := λ X, reflexivity _ |}.

Definition demo_items (rid : string) : list MultiModalFeatureSpec :=
  if String.eqb rid "r" then [feature "a" 0 3; feature "b" 4 2] else [].

Definition demo_sz (h : mm_hash_t) : Z :=
  if bool_decide (h = Some "a") then 3 else if bool_decide (h = Some "b") then 2 else 0.

Definition enc_request : Request :=
  match new_request 0 "r" (Some [9; 9; 9; 1; 9; 9]) (Some demo_sp) None 0 None None (demo_items "r") None None 0 false None with
  | Ok r => r | Err _ => text_request [] end.

Lemma demo_sz_nonneg h : 0 ≤ demo_sz h.
Proof. unfold demo_sz. repeat case_bool_decide; lia. Qed.

Lemma demo_items_sz rid f : f ∈ demo_items rid → get_num_embeds (mm_position f) = demo_sz (identifier f).
Proof.
  unfold demo_items. destruct (String.eqb rid "r"); [|by intros ?%elem_of_nil].
  by intros [-> | [-> | ?%elem_of_nil]%elem_of_cons]%elem_of_cons.
Qed.

Lemma demo_valid i : 0 ≤ i < 2 → valid_input demo_items enc_request i.
Proof. by constructor. Qed.

(** A cache of four slots in which item "a" is held. *)
Definition demo_enc : EncoderCacheManager :=
  match allocate enc_request 0 (new_encoder_cache_manager 4) with Ok m => m | Err _ => new_encoder_cache_manager 0 end.

Lemma demo_enc_reachable : enc_reachable demo_sz demo_items demo_enc.
Proof.
  eapply (enc_step _ _ (EAllocate enc_request 0)); [apply (enc_init _ _ 4); lia| |reflexivity].
  split; [by apply demo_valid|]. exists (Some "a"). split_and!; [done|done|by vm_compute].
Qed.

(** ... and released again. *)
Definition demo_enc_free : EncoderCacheManager :=
  match free_encoder_input enc_request 0 demo_enc with Ok m => m | Err _ => demo_enc end.

Lemma demo_enc_free_reachable : enc_reachable demo_sz demo_items demo_enc_free.
Proof.
  eapply (enc_step _ _ (EFreeInput enc_request 0)); [apply demo_enc_reachable|by apply demo_valid|].
  vm_compute. reflexivity.
Qed.

(** Freeing the only request that holds the item makes it evictable. *)
Lemma encoder_cache_safe_witness :
  cache_size demo_enc = num_free_slots demo_enc + total demo_sz (cached demo_enc) ∧
  ∃ m', run_enc_op (EFree enc_request) demo_enc = Ok m' ∧ ids_of m' "r" = ∅ ∧ is_Some (cached m' !! Some "a") ∧
    od_keys (freeable m') = [Some "a"].
Proof.
  destruct (encoder_cache_safe demo_sz demo_sz_nonneg demo_items demo_items_sz demo_enc demo_enc_reachable)
    as (H1 & _ & _ & _ & _ & Hops).
  split; [exact H1|]. destruct (Hops (EFree enc_request)) as (m' & Hrun & _ & Hd & Hids); [reflexivity|]. exists m'.
  split; [exact Hrun|]. split; [apply Hids|]. vm_compute in Hrun. injection Hrun as <-. split; [by eexists|reflexivity].
Defined.

Lemma can_allocate_correct_witness :
  ∃ m', can_allocate enc_request 1 8 0 demo_enc_free = Ok (true, m') ∧ freed m' = [Some "a"] ∧
    2 ≤ num_free_slots m'.
Proof.
  destruct (can_allocate_correct demo_sz demo_sz_nonneg demo_items demo_items_sz demo_enc_free enc_request 1 (Some "b") 8 0
    demo_enc_free_reachable ltac:(by apply demo_valid) ltac:(reflexivity)) as (b & m' & Hrun & Hb & _ & Hyes).
  assert (b = true) as -> by (apply Hb; split; vm_compute; discriminate).
  destruct (Hyes eq_refl) as (Hroom & _). exists m'. split_and!; [exact Hrun| |exact Hroom].
  vm_compute in Hrun. injection Hrun as <-. reflexivity.
Defined.

Lemma encoder_free_correct_witness :
  ∃ m', free enc_request demo_enc = Ok m' ∧ Some "a" ∈ od_keys (freeable m').
Proof.
  destruct (encoder_free_correct demo_sz demo_sz_nonneg demo_items demo_items_sz demo_enc enc_request
    demo_enc_reachable ltac:(reflexivity)) as (m' & Hrun & _ & _ & _ & Hfr).
  exists m'. split; [exact Hrun|]. apply Hfr; [by vm_compute; eexists|].
  intros rid Hne (refs & Hc & Hin).
  assert (Hc0 : cached demo_enc !! Some "a" = Some ({["r"]} : gset string)) by (vm_compute; reflexivity).
  rewrite Hc0 in Hc. apply (inj Some) in Hc. subst refs. apply Hne. by apply elem_of_singleton in Hin.
Defined.

Lemma encoder_decoder_free_leak_witness :
  ∃ m m', ed_allocate enc_request 0 (new_encoder_decoder_cache_manager 4) = Ok m ∧
    foldM (λ m _, ed_free_encoder_input enc_request 0 m) m (seq 0 5) = Ok m' ∧
    ed_num_free_slots m' = ed_cache_size m' + 12.
Proof.
  destruct (encoder_decoder_free_leak enc_request 0 3 4 5 ltac:(reflexivity) ltac:(lia) ltac:(reflexivity))
    as (m & m' & H1 & _ & H3 & H4 & _).
  by exists m, m'.
Defined.
