(* ===== verification/Heap.v ===== *)
(** * Binary heaps

    The functions of Python's [heapq] that the priority queue uses, as the
    standard library implements them on a list, and their correctness for any
    weak order. *)

From S2P Require Import Prelude.

(** A strict weak order as a boolean test, the [__lt__] of the elements. *)
Class WeakOrder {A} (lt : A → A → bool) : Prop := {
  lt_asym : ∀ x y, lt x y = true → lt y x = false;
  lt_ntrans : ∀ x y z, lt y x = false → lt z y = false → lt z x = false;
}.

Section Heapq.
Context {A : Type} (lt : A → A → bool).

Definition parent (i : nat) : nat := (i - 1) / 2.

(** The [while pos > startpos] loop of [_siftdown], with the final store. *)
Fixpoint siftdown_loop (fuel : nat) (heap : list A) (startpos pos : nat) (newitem : A) : result (list A) :=
  match fuel with
  | O => Err OutOfFuel
  | S fuel' =>
      if bool_decide (startpos < pos) then
        p ← unwrap IndexError (heap !! parent pos);
        if lt newitem p then siftdown_loop fuel' (<[pos := p]> heap) startpos (parent pos) newitem
        else Ok (<[pos := newitem]> heap)
      else Ok (<[pos := newitem]> heap)
  end.

Definition _siftdown (heap : list A) (startpos pos : nat) : result (list A) :=
  newitem ← unwrap IndexError (heap !! pos);
  siftdown_loop (S pos) heap startpos pos newitem.

(** The [while childpos < endpos] loop of [_siftup]: the smaller child moves
    up; the result is the list and the final position of the hole. *)
Fixpoint siftup_loop (fuel : nat) (heap : list A) (pos : nat) : result (list A * nat) :=
  match fuel with
  | O => Err OutOfFuel
  | S fuel' =>
      let childpos := 2 * pos + 1 in
      match heap !! childpos with
      | None => Ok (heap, pos)
      | Some c =>
          match heap !! (childpos + 1) with
          | Some r => if lt c r then siftup_loop fuel' (<[pos := c]> heap) childpos
                      else siftup_loop fuel' (<[pos := r]> heap) (childpos + 1)
          | None => siftup_loop fuel' (<[pos := c]> heap) childpos
          end
      end
  end.

Definition _siftup (heap : list A) (pos : nat) : result (list A) :=
  newitem ← unwrap IndexError (heap !! pos);
  '(heap', pos') ← siftup_loop (S (length heap)) heap pos;
  _siftdown (<[pos' := newitem]> heap') pos pos'.

Definition heappush (heap : list A) (item : A) : result (list A) :=
  _siftdown (heap ++ [item]) 0 (length heap).

Definition heappop (heap : list A) : result (A * list A) :=
  match last heap with
  | None => Err IndexError
  | Some lastelt =>
      let heap' := take (length heap - 1) heap in
      match heap' !! 0 with
      | None => Ok (lastelt, heap')
      | Some returnitem => h ← _siftup (<[0 := lastelt]> heap') 0; Ok (returnitem, h)
      end
  end.

(** [for i in reversed(range(n // 2)): _siftup(x, i)] *)
Definition heapify (x : list A) : result (list A) := foldM _siftup x (rev (seq 0 (length x / 2))).

(** Popping until the heap is empty. *)
Fixpoint drain (fuel : nat) (heap : list A) : result (list A) :=
  match heap with
  | [] => Ok []
  | _ => match fuel with
         | O => Err OutOfFuel
         | S fuel' => '(x, h) ← heappop heap; xs ← drain fuel' h; Ok (x :: xs)
         end
  end.

(** ** Exchanging two entries *)

Lemma delete_insert_same (l : list A) i x : delete i (<[i := x]> l) = delete i l.
Proof. revert i. induction l as [|y l IH]; intros [|i]; simpl; [done..|]. f_equal. apply IH. Qed.

Lemma insert_delete_perm (l : list A) i x : i < length l → <[i := x]> l ≡ₚ x :: delete i l.
Proof.
  intros Hi. rewrite (delete_Permutation (<[i := x]> l) i x) by (by apply list_lookup_insert_eq).
  constructor. by rewrite delete_insert_same.
Qed.

Lemma swap_perm (l : list A) i j x y :
  i ≠ j → l !! i = Some x → l !! j = Some y → <[i := y]> (<[j := x]> l) ≡ₚ l.
Proof.
  intros Hij Hi Hj. pose proof (lookup_lt_Some _ _ _ Hi). pose proof (lookup_lt_Some _ _ _ Hj).
  set (c := <[j := x]> l).
  assert (Hci : c !! i = Some x) by (unfold c; by rewrite list_lookup_insert_ne).
  assert (Hd : delete i c ≡ₚ delete j l).
  { apply (Permutation_cons_inv (a := x)). rewrite <-(delete_Permutation c i x Hci).
    unfold c. by apply insert_delete_perm. }
  rewrite insert_delete_perm by (unfold c; by rewrite length_insert). rewrite Hd. symmetry.
  by apply delete_Permutation.
Qed.

(** ** Heap order *)

Context `{!WeakOrder lt}.
Implicit Types (l : list A) (i s pos : nat) (x y : A).

Definition le x y : Prop := lt y x = false.

Lemma le_refl x : le x x.
Proof. unfold le. destruct (lt x x) eqn:E; [|done]. pose proof (lt_asym x x E). congruence. Qed.

Lemma le_trans x y z : le x y → le y z → le x z.
Proof. unfold le. apply lt_ntrans. Qed.

Lemma lt_le x y : lt x y = true → le x y.
Proof. apply lt_asym. Qed.

(** The edge from the parent of [i] to [i] is in order. *)
Definition edge_ok l i : Prop := ∀ x y, l !! parent i = Some x → l !! i = Some y → le x y.

(** All edges below [s]: those whose upper end is at [s] or after it. *)
Definition heap_from l s : Prop := ∀ i, 0 < i → s ≤ parent i → edge_ok l i.

(** The positions in the subtree of [s]. *)
Inductive below (s : nat) : nat → Prop :=
  | below_refl : below s s
  | below_left p : below s p → below s (2 * p + 1)
  | below_right p : below s p → below s (2 * p + 1 + 1).

Lemma parent_left p : parent (2 * p + 1) = p.
Proof. unfold parent. replace (2 * p + 1 - 1) with (p * 2) by lia. apply Nat.div_mul. lia. Qed.

Lemma parent_right p : parent (2 * p + 1 + 1) = p.
Proof.
  unfold parent. replace (2 * p + 1 + 1 - 1) with (1 + p * 2) by lia. rewrite Nat.div_add by lia. done.
Qed.

Lemma parent_lt i : 0 < i → parent i < i.
Proof. intros Hi. unfold parent. pose proof (Nat.div_mod_eq (i - 1) 2). lia. Qed.

Lemma parent_cases i : 0 < i → i = 2 * parent i + 1 ∨ i = 2 * parent i + 1 + 1.
Proof.
  intros Hi. unfold parent. pose proof (Nat.div_mod_eq (i - 1) 2). pose proof (Nat.mod_upper_bound (i - 1) 2). lia.
Qed.

Lemma below_ge s p : below s p → s ≤ p.
Proof. induction 1; lia. Qed.

Lemma below_parent s p : below s p → s < p → below s (parent p).
Proof. destruct 1; [lia|by rewrite parent_left|by rewrite parent_right]. Qed.

(** Everything is in order but the edge above [pos]; the entries below [pos]
    are not smaller than the parent of [pos]. *)
Record up_inv l s pos : Prop := {
  ui_below : below s pos;
  ui_edges : ∀ i, 0 < i → s ≤ parent i → i ≠ pos → edge_ok l i;
  ui_skip : s < pos → ∀ c, 0 < c → parent c = pos → ∀ x y, l !! parent pos = Some x → l !! c = Some y → le x y;
}.

Lemma lookup_swap l i j a b k :
  i ≠ j → i < length l → j < length l →
  <[i := a]> (<[j := b]> l) !! k = if decide (k = i) then Some a else if decide (k = j) then Some b else l !! k.
Proof.
  intros Hij Hi Hj. destruct (decide (k = i)) as [->|Hki].
  - apply list_lookup_insert_eq. by rewrite length_insert.
  - rewrite list_lookup_insert_ne by done. destruct (decide (k = j)) as [->|Hkj].
    + by apply list_lookup_insert_eq.
    + by rewrite list_lookup_insert_ne.
Qed.

(** One step of [_siftdown]: a smaller entry changes places with its parent. *)
Lemma up_inv_swap l s pos x p :
  up_inv l s pos → s < pos → l !! pos = Some x → l !! parent pos = Some p → lt x p = true →
  up_inv (<[parent pos := x]> (<[pos := p]> l)) s (parent pos).
Proof.
  intros [Hb He Hs] Hpos Hx Hp Hlt. pose proof (parent_lt pos ltac:(lia)) as Hpp.
  pose proof (below_parent s pos Hb Hpos) as Hbp. pose proof (below_ge _ _ Hbp) as Hge.
  pose proof (lookup_lt_Some _ _ _ Hx) as Hl1. pose proof (lookup_lt_Some _ _ _ Hp) as Hl2.
  pose proof (λ k, lookup_swap l (parent pos) pos x p k ltac:(lia) Hl2 Hl1) as Hk.
  constructor; [done|..].
  - intros i Hi0 Hsi Hip a b. rewrite !Hk. pose proof (parent_lt i Hi0).
    destruct (decide (i = parent pos)); [done|].
    destruct (decide (i = pos)) as [->|Hne].
    + rewrite decide_True by done. intros [= <-] [= <-]. by apply lt_le.
    + destruct (decide (parent i = parent pos)) as [E|Hpar].
      * intros [= <-] Hb'. apply le_trans with p; [by apply lt_le|].
        apply (He i); [done|done|done|congruence|done].
      * destruct (decide (parent i = pos)) as [E|Hpar'].
        -- intros [= <-] Hb'. by apply (Hs Hpos i Hi0 E).
        -- by apply He.
  - intros Hsp c Hc0 Hcp a b. rewrite !Hk. pose proof (parent_lt (parent pos) ltac:(lia)).
    pose proof (parent_lt c Hc0). rewrite !(decide_False (P := parent (parent pos) = _)) by lia.
    intros Ha. assert (Hap : le a p).
    { apply (He (parent pos)); [lia| |lia|done|done]. by apply below_ge, below_parent. }
    rewrite (decide_False (P := c = parent pos)) by lia.
    destruct (decide (c = pos)) as [->|Hne]; [by intros [= <-]|].
    intros Hb'. apply le_trans with p; [done|]. apply (He c); [done|by rewrite Hcp|done|by rewrite Hcp|done].
Qed.

Lemma up_inv_done l s pos :
  up_inv l s pos → (s < pos → edge_ok l pos) → heap_from l s.
Proof.
  intros [Hb He Hs] Hpos i Hi0 Hsi. destruct (decide (i = pos)) as [->|Hne]; [|by apply He].
  apply Hpos. apply Nat.le_lt_trans with (parent pos); [done|by apply parent_lt].
Qed.

(** [_siftdown] restores the order and permutes the entries. *)
Lemma siftdown_loop_spec fuel l s pos x :
  pos < fuel → pos < length l → up_inv (<[pos := x]> l) s pos →
  ∃ l', siftdown_loop fuel l s pos x = Ok l' ∧ l' ≡ₚ <[pos := x]> l ∧ heap_from l' s.
Proof.
  revert l pos. induction fuel as [|fuel IH]; intros l pos Hf Hlen Hinv; [lia|]. simpl.
  assert (Hx : <[pos := x]> l !! pos = Some x) by (by apply list_lookup_insert_eq).
  destruct (bool_decide_reflect (s < pos)) as [Hpos|Hpos].
  2: { eexists. split_and!; [done|done|]. by apply (up_inv_done _ s pos). }
  pose proof (parent_lt pos ltac:(lia)) as Hpp.
  destruct (lookup_lt_is_Some_2 l (parent pos)) as [p Hp]; [lia|]. rewrite Hp. simpl.
  assert (Hp' : <[pos := x]> l !! parent pos = Some p) by (rewrite list_lookup_insert_ne by lia; done).
  destruct (lt x p) eqn:Hlt.
  - pose proof (up_inv_swap _ s pos x p Hinv Hpos Hx Hp' Hlt) as Hinv'. rewrite list_insert_insert_eq in Hinv'.
    destruct (IH (<[pos := p]> l) (parent pos)) as (l' & Hrun & Hperm & Hh); [lia|by rewrite length_insert; lia|done|].
    exists l'. split_and!; [done| |done]. rewrite Hperm.
    rewrite <-(swap_perm (<[pos := x]> l) (parent pos) pos p x) by (done || lia).
    by rewrite list_insert_insert_eq.
  - eexists. split_and!; [done|done|]. apply (up_inv_done _ s pos); [done|].
    intros _ a b Ha Hb. rewrite Hp' in Ha. rewrite Hx in Hb. injection Ha as <-. injection Hb as <-. done.
Qed.

Lemma siftdown_spec l s pos :
  pos < length l → up_inv l s pos → ∃ l', _siftdown l s pos = Ok l' ∧ l' ≡ₚ l ∧ heap_from l' s.
Proof.
  intros Hlen Hinv. unfold _siftdown. destruct (lookup_lt_is_Some_2 l pos Hlen) as [x Hx]. rewrite Hx. cbn [unwrap mbind result_bind].
  destruct (siftdown_loop_spec (S pos) l s pos x) as (l' & -> & Hperm & Hh); [lia|done|by rewrite list_insert_id|].
  exists l'. by rewrite list_insert_id in Hperm.
Qed.

(** Everything is in order but the edges at [pos], whose entry is missing; the
    entries below [pos] are not smaller than its parent. *)
Record down_inv l s pos : Prop := {
  di_below : below s pos;
  di_edges : ∀ i, 0 < i → s ≤ parent i → parent i ≠ pos → i ≠ pos → edge_ok l i;
  di_skip : s < pos → ∀ c, 0 < c → parent c = pos → ∀ x y, l !! parent pos = Some x → l !! c = Some y → le x y;
}.

(** One step of [_siftup]: the child [c], not larger than its sibling, moves up. *)
Lemma down_inv_step l s pos c y :
  down_inv l s pos → pos < length l → 0 < c → parent c = pos → l !! c = Some y →
  (∀ d z, 0 < d → parent d = pos → l !! d = Some z → le y z) →
  down_inv (<[pos := y]> l) s c.
Proof.
  intros [Hb He Hs] Hlen Hc0 Hcp Hy Hmin. pose proof (parent_lt c Hc0) as Hlt. pose proof (below_ge _ _ Hb) as Hge.
  assert (Hk : ∀ k, <[pos := y]> l !! k = if decide (k = pos) then Some y else l !! k).
  { intros k. destruct (decide (k = pos)) as [->|]; [by apply list_lookup_insert_eq|by rewrite list_lookup_insert_ne]. }
  constructor.
  - destruct (parent_cases c Hc0) as [E|E]; rewrite E, Hcp; by constructor.
  - intros i Hi0 Hsi Hpi Hic a b. rewrite !Hk. pose proof (parent_lt i Hi0).
    destruct (decide (parent i = pos)) as [Ep|Ep].
    + rewrite (decide_False (P := i = pos)) by lia. intros [= <-] Hb'. by apply (Hmin i).
    + destruct (decide (i = pos)) as [->|Ei]; [|by apply He].
      intros Ha [= <-]. apply (Hs ltac:(lia) c Hc0 Hcp); [done|done].
  - intros Hsc d Hd0 Hdp a b. pose proof (parent_lt d Hd0). rewrite !Hk, Hcp, (decide_True (P := pos = pos)) by done.
    rewrite (decide_False (P := d = pos)) by lia. intros [= <-] Hb'.
    apply (He d); [done|lia|lia|lia|by rewrite Hdp|done].
Qed.

Lemma siftup_loop_spec fuel l s pos :
  length l - pos < fuel → pos < length l → down_inv l s pos →
  ∃ l' pos', siftup_loop fuel l pos = Ok (l', pos') ∧ pos' < length l' ∧ length l' = length l ∧
    length l' ≤ 2 * pos' + 1 ∧ down_inv l' s pos' ∧ ∀ x, <[pos' := x]> l' ≡ₚ <[pos := x]> l.
Proof.
  revert l pos. induction fuel as [|fuel IH]; intros l pos Hf Hlen Hinv; [lia|]. cbn [siftup_loop].
  set (c := 2 * pos + 1).
  destruct (l !! c) as [y|] eqn:Hy.
  2: { apply lookup_ge_None in Hy. exists l, pos. by split_and!. }
  (* Moving the child at [d] up. *)
  assert (Hmove : ∀ d z, d = c ∨ d = c + 1 → l !! d = Some z →
    (∀ e w, 0 < e → parent e = pos → l !! e = Some w → le z w) →
    ∃ l' pos', siftup_loop fuel (<[pos := z]> l) d = Ok (l', pos') ∧ pos' < length l' ∧ length l' = length l ∧
      length l' ≤ 2 * pos' + 1 ∧ down_inv l' s pos' ∧ ∀ x, <[pos' := x]> l' ≡ₚ <[pos := x]> l).
  { intros d z Hd Hz Hmin. assert (Hdp : parent d = pos) by (destruct Hd as [->| ->]; [apply parent_left|apply parent_right]).
    pose proof (lookup_lt_Some _ _ _ Hz).
    destruct (IH (<[pos := z]> l) d) as (l' & pos' & Hrun & H1 & H2 & H3 & H4 & H5); rewrite ?length_insert in *; [lia|done|..].
    - apply (down_inv_step l s pos d z); [done|done|lia|done|done|done].
    - exists l', pos'. split_and!; [done|done|done|done|done|]. intros x. rewrite H5.
      rewrite <-(swap_perm (<[pos := x]> l) d pos z x).
      + by rewrite list_insert_insert_eq.
      + lia.
      + rewrite list_lookup_insert_ne by lia. done.
      + by apply list_lookup_insert_eq. }
  assert (Hch : ∀ e w, 0 < e → parent e = pos → l !! e = Some w → (e = c ∨ e = c + 1)).
  { intros e w He Hep _. destruct (parent_cases e He) as [E|E]; rewrite Hep in E; [by left|right; lia]. }
  destruct (l !! (c + 1)) as [r|] eqn:Hr.
  - destruct (lt y r) eqn:Hlt; apply Hmove; try done; try (by left); try (by right).
    + intros e w He Hep Hw. destruct (Hch e w He Hep Hw) as [->| ->].
      * rewrite Hy in Hw. injection Hw as <-. apply le_refl.
      * rewrite Hr in Hw. injection Hw as <-. by apply lt_le.
    + intros e w He Hep Hw. destruct (Hch e w He Hep Hw) as [->| ->].
      * rewrite Hy in Hw. injection Hw as <-. done.
      * rewrite Hr in Hw. injection Hw as <-. apply le_refl.
  - apply Hmove; [by left|done|]. intros e w He Hep Hw. destruct (Hch e w He Hep Hw) as [->| ->]; [|congruence].
    rewrite Hy in Hw. injection Hw as <-. apply le_refl.
Qed.

(** [_siftup] repairs the subtree of a position whose children are heaps. *)
Lemma siftup_spec l s :
  s < length l → heap_from l (S s) → ∃ l', _siftup l s = Ok l' ∧ l' ≡ₚ l ∧ heap_from l' s.
Proof.
  intros Hlen Hh. unfold _siftup. destruct (lookup_lt_is_Some_2 l s Hlen) as [x Hx]. rewrite Hx.
  cbn [unwrap mbind result_bind].
  destruct (siftup_loop_spec (S (length l)) l s s) as (l' & pos & -> & H1 & H2 & H3 & [Hb He Hs] & H5); [lia|done|..].
  { constructor; [constructor| |lia]. intros i Hi0 Hsi Hne _. apply Hh; [done|lia]. }
  cbn [mbind result_bind].
  assert (Hk : ∀ k, <[pos := x]> l' !! k = if decide (k = pos) then Some x else l' !! k).
  { intros k. destruct (decide (k = pos)) as [->|]; [by apply list_lookup_insert_eq|by rewrite list_lookup_insert_ne]. }
  assert (Hleaf : ∀ c, 0 < c → parent c = pos → l' !! c = None).
  { intros c Hc0 Hcp. apply lookup_ge_None. destruct (parent_cases c Hc0); lia. }
  destruct (siftdown_spec (<[pos := x]> l') s pos) as (l'' & -> & Hperm & Hheap).
  { by rewrite length_insert. }
  { constructor; [done|..].
    - intros i Hi0 Hsi Hne a b. rewrite !Hk, (decide_False (P := i = pos)) by done.
      destruct (decide (parent i = pos)) as [Ep|Ep]; [rewrite Hleaf by done; done|by apply He].
    - intros _ c Hc0 Hcp a b _. rewrite Hk. pose proof (parent_lt c Hc0).
      rewrite decide_False, Hleaf by lia || done. done. }
  exists l''. split_and!; [done| |done]. rewrite Hperm, H5. by rewrite list_insert_id.
Qed.

(** ** The operations *)

Definition heap l : Prop := heap_from l 0.

Lemma heap_min l x : heap l → l !! 0 = Some x → ∀ i y, l !! i = Some y → le x y.
Proof.
  intros Hh Hx i. induction i as [i IH] using lt_wf_ind. intros y Hy.
  destruct (decide (i = 0)) as [->|Hi]; [rewrite Hx in Hy; injection Hy as <-; apply le_refl|].
  pose proof (parent_lt i ltac:(lia)) as Hp.
  destruct (lookup_lt_is_Some_2 l (parent i)) as [z Hz]; [apply lookup_lt_Some in Hy; lia|].
  apply le_trans with z; [by apply (IH (parent i))|]. by apply (Hh i ltac:(lia) ltac:(lia)).
Qed.

Lemma heappush_spec l x : heap l → ∃ l', heappush l x = Ok l' ∧ l' ≡ₚ x :: l ∧ heap l'.
Proof.
  intros Hh. unfold heappush. destruct (siftdown_spec (l ++ [x]) 0 (length l)) as (l' & -> & Hperm & Hh').
  - rewrite length_app. simpl. lia.
  - constructor.
    + clear. induction (length l) as [n IH] using lt_wf_ind. destruct (decide (n = 0)) as [->|Hn]; [constructor|].
      destruct (parent_cases n ltac:(lia)) as [E|E]; rewrite E; constructor; apply IH, parent_lt; lia.
    + intros i Hi0 _ Hne a b Ha Hb. pose proof (lookup_lt_Some _ _ _ Hb) as Hlt. rewrite length_app in Hlt. simpl in Hlt.
      pose proof (parent_lt i Hi0). rewrite lookup_app_l in Ha, Hb by lia. by apply (Hh i Hi0 ltac:(lia)).
    + intros _ c Hc0 Hcp a b _ Hb. pose proof (lookup_lt_Some _ _ _ Hb) as Hlt. rewrite length_app in Hlt. simpl in Hlt.
      pose proof (parent_lt c Hc0). lia.
  - exists l'. split_and!; [done| |done]. rewrite Hperm. symmetry. apply Permutation_cons_append.
Qed.

(** [heappop] returns a least entry and leaves a heap of the others. *)
Lemma heappop_spec l :
  heap l → l ≠ [] → ∃ x l', heappop l = Ok (x, l') ∧ l ≡ₚ x :: l' ∧ heap l' ∧ Forall (le x) l.
Proof.
  intros Hh Hne. unfold heappop. destruct (exists_last Hne) as (t & z & ->). rewrite last_snoc.
  assert (Htake : take (length (t ++ [z]) - 1) (t ++ [z]) = t).
  { rewrite length_app. simpl. replace (length t + 1 - 1) with (length t) by lia. by rewrite take_app_length. }
  rewrite Htake.
  assert (Hmin : ∀ x, (t ++ [z]) !! 0 = Some x → Forall (le x) (t ++ [z])).
  { intros x Hx. apply Forall_lookup_2. intros i y. by apply (heap_min _ x). }
  destruct (t !! 0) as [x|] eqn:Hx.
  2: { apply lookup_ge_None in Hx. destruct t; simpl in Hx; [|lia]. exists z, []. split_and!; [done|done| |by apply Hmin].
       intros i Hi0 _ a b Ha. done. }
  pose proof (lookup_lt_Some _ _ _ Hx) as Hlen.
  assert (Ht : heap_from t 0).
  { intros i Hi0 _ a b Ha Hb. apply (Hh i Hi0 ltac:(lia)); by apply lookup_app_l_Some. }
  destruct (siftup_spec (<[0 := z]> t) 0) as (l' & -> & Hperm & Hh').
  { by rewrite length_insert. }
  { intros i Hi0 Hs a b. pose proof (parent_lt i Hi0). rewrite !list_lookup_insert_ne by lia. by apply Ht; [|lia]. }
  simpl. exists x, l'. split_and!; [done| |done|].
  - rewrite Hperm, insert_delete_perm by done. rewrite (delete_Permutation t 0 x Hx) at 1. simpl.
    constructor. symmetry. apply Permutation_cons_append.
  - apply Hmin. by apply lookup_app_l_Some.
Qed.

Lemma heapify_spec l : ∃ l', heapify l = Ok l' ∧ l' ≡ₚ l ∧ heap l'.
Proof.
  unfold heapify. set (n := length l / 2).
  assert (Hgen : ∀ k l0, k ≤ n → l0 ≡ₚ l → heap_from l0 k →
    ∃ l', foldM _siftup l0 (rev (seq 0 k)) = Ok l' ∧ l' ≡ₚ l ∧ heap l').
  { induction k as [|k IH]; intros l0 Hk Hperm Hh; [by exists l0|].
    rewrite seq_S, rev_app_distr. simpl.
    pose proof (Nat.div_mod_eq (length l) 2). pose proof (Permutation_length Hperm).
    destruct (siftup_spec l0 k) as (l1 & -> & Hp1 & Hh1); [unfold n in *; lia|done|]. simpl.
    apply IH; [lia|by rewrite Hp1|done]. }
  apply Hgen; [done|done|]. intros i Hi0 Hs a b _ Hb. apply lookup_lt_Some in Hb.
  unfold n, parent in Hs. pose proof (Nat.div_mod_eq (length l) 2). pose proof (Nat.mod_upper_bound (length l) 2).
  pose proof (Nat.div_mod_eq (i - 1) 2). lia.
Qed.

(** Draining a heap sorts it. *)
Lemma drain_spec fuel l :
  heap l → length l ≤ fuel → ∃ xs, drain fuel l = Ok xs ∧ xs ≡ₚ l ∧ StronglySorted le xs.
Proof.
  revert l. induction fuel as [|fuel IH]; intros l Hh Hf.
  { destruct l; [|simpl in Hf; lia]. exists []. split_and!; [done|done|constructor]. }
  destruct l as [|a l]; [exists []; split_and!; [done|done|constructor]|].
  destruct (heappop_spec (a :: l) Hh) as (x & l' & Hpop & Hperm & Hh' & Hmin); [done|].
  cbn [drain]. rewrite Hpop. cbn [mbind result_bind].
  pose proof (Permutation_length Hperm) as Hlen. simpl in Hlen, Hf.
  destruct (IH l') as (xs & -> & Hxs & Hsort); [done|lia|]. cbn [mbind result_bind].
  exists (x :: xs). split_and!; [done|by rewrite Hxs, Hperm|]. constructor; [done|].
  rewrite Hxs. rewrite Hperm in Hmin. by apply Forall_cons in Hmin as [_ ?].
Qed.
End Heapq.
