(* ===== verification/RequestQueue.v ===== *)
(** * Request queues

    [vllm/vllm/v1/core/sched/request_queue.py]: the abstract [RequestQueue],
    the first-come-first-served queue (a [deque]) and the priority queue (a
    binary heap over [Request.__lt__]).  Both implement one interface; a
    reference queue, the plain list of requests in scheduling order, is refined
    by both.  Requests are compared with [==] by identity ([py_id]): the class
    defines no [__eq__].  The fields [__lt__] reads are fixed when a request is
    created, so a queue may hold the requests by value. *)

From Stdlib Require OrdersEx.
From S2P Require Import Prelude FreeQueue Request Heap.
Local Open Scope Z_scope.

(** ** The order on requests *)

Lemma string_ltb_lt s t : String.ltb s t = true ↔ OrdersEx.String_as_OT.lt s t.
Proof.
  unfold String.ltb, OrdersEx.String_as_OT.lt. change (OrdersEx.String_as_OT.compare s t) with (String.compare s t).
  by destruct (String.compare s t).
Qed.

Lemma string_lt_trichotomy s t :
  OrdersEx.String_as_OT.lt s t ∨ s = t ∨ OrdersEx.String_as_OT.lt t s.
Proof. destruct (OrdersEx.String_as_OT.compare_spec s t); auto. Qed.

(** [request_lt] as a proposition: the lexicographic order on priority, arrival
    time, request id and identity. *)
Definition request_before (a b : Request) : Prop :=
  priority a < priority b ∨
  priority a = priority b ∧
    (arrival_time a < arrival_time b ∨
     arrival_time a = arrival_time b ∧
       (OrdersEx.String_as_OT.lt (request_id a) (request_id b) ∨
        request_id a = request_id b ∧ py_id a < py_id b)).

Lemma request_lt_before a b : request_lt a b = true ↔ request_before a b.
Proof.
  unfold request_lt, request_before.
  destruct (Z.eqb_spec (priority a) (priority b)); simpl; [|rewrite Z.ltb_lt; lia].
  destruct (Z.eqb_spec (arrival_time a) (arrival_time b)); simpl; [|rewrite Z.ltb_lt; lia].
  destruct (String.eqb_spec (request_id a) (request_id b)) as [E|E]; simpl.
  - rewrite Z.ltb_lt, E. split; [auto 10|]. intros [?|[_ [?|[_ [H|[_ ?]]]]]]; [lia|lia| |done].
    by apply StrictOrder_Irreflexive in H.
  - rewrite string_ltb_lt. naive_solver lia.
Qed.

Lemma request_before_trans a b c : request_before a b → request_before b c → request_before a c.
Proof.
  unfold request_before.
  intros [?|[E1 [?|[E2 [H1|[E3 ?]]]]]] [?|[F1 [?|[F2 [H2|[F3 ?]]]]]]; try (left; lia);
    right; (split; [lia|]); try (left; lia); right; (split; [lia|]).
  - left. by transitivity (request_id b).
  - left. by rewrite <-F3.
  - left. by rewrite E3.
  - right. split; [congruence|lia].
Qed.

Lemma request_before_irrefl a : ¬ request_before a a.
Proof.
  intros [?|[_ [?|[_ [H|[_ ?]]]]]]; [lia|lia| |lia]. by apply StrictOrder_Irreflexive in H.
Qed.

Lemma request_before_same a b :
  request_before a b ∨ request_before b a ∨
  (priority a = priority b ∧ arrival_time a = arrival_time b ∧ request_id a = request_id b ∧ py_id a = py_id b).
Proof.
  unfold request_before.
  pose proof (Z.lt_trichotomy (priority a) (priority b)).
  pose proof (Z.lt_trichotomy (arrival_time a) (arrival_time b)).
  pose proof (string_lt_trichotomy (request_id a) (request_id b)).
  pose proof (Z.lt_trichotomy (py_id a) (py_id b)).
  intuition auto.
Qed.

(** Two requests that are different objects are comparable. *)
Lemma request_before_total a b : request_before a b ∨ py_id a = py_id b ∨ request_before b a.
Proof. destruct (request_before_same a b) as [?|[?|(_ & _ & _ & ?)]]; auto. Qed.

#[export] Instance request_weak_order : WeakOrder request_lt.
Proof.
  split.
  - intros x y Hxy%request_lt_before. apply not_true_iff_false. intros Hyx%request_lt_before.
    eapply request_before_irrefl, request_before_trans; eassumption.
  - intros x y z Hyx Hzy. apply not_true_iff_false. intros Hzx%request_lt_before.
    apply not_true_iff_false in Hyx, Hzy. rewrite request_lt_before in Hyx, Hzy.
    destruct (request_before_same y z) as [H|[H|(E1 & E2 & E3 & E4)]].
    + apply Hyx. by eapply request_before_trans.
    + done.
    + apply Hyx. unfold request_before in *. by rewrite E1, E2, E3, E4.
Qed.

(** ** The interface *)

(** [class SchedulingPolicy(Enum)] *)
Inductive SchedulingPolicy : Type := FCFS | PRIORITY.

(** [class RequestQueue(ABC)].  A queue passed to [prepend_requests] is given
    by the requests its iterator yields. *)
Class RequestQueue (Q : Type) : Type := {
  add_request : Request → Q → result Q;
  pop_request : Q → result (Request * Q);
  peek_request : Q → result Request;
  prepend_request : Request → Q → result Q;
  prepend_requests : list Request → Q → result Q;
  remove_request : Request → Q → result Q;
  remove_requests : list Request → Q → result Q;
  queue_bool : Q → bool;
  queue_len : Q → Z;
  queue_iter : Q → result (list Request);
}.

(** [list.remove] and [deque.remove]: the first occurrence goes, or
    [ValueError] is raised. *)
Fixpoint remove_first (r : Request) (l : list Request) : result (list Request) :=
  match l with
  | [] => Err ValueError
  | x :: l' => if py_id x =? py_id r then Ok l' else cons x <$> remove_first r l'
  end.

(** [[req for req in self if req not in requests_to_remove]] *)
Definition filter_requests (rs l : list Request) : list Request :=
  filter (λ x, py_id x ∉ py_id <$> rs) l.

(** [class FCFSRequestQueue(deque[Request], RequestQueue)] *)
Record FCFSRequestQueue : Type := mkFCFS { deque : list Request }.

#[export] Instance fcfs_queue : RequestQueue FCFSRequestQueue := {
  add_request r q := Ok (mkFCFS (deque q ++ [r]));
  pop_request q :=
    match deque q with [] => Err IndexError | x :: d => Ok (x, mkFCFS d) end;
  peek_request q := unwrap IndexError (deque q !! 0%nat);
  prepend_request r q := Ok (mkFCFS (r :: deque q));
  prepend_requests rs q := Ok (mkFCFS (foldl (λ d r, r :: d) (deque q) rs));
  remove_request r q := mkFCFS <$> remove_first r (deque q);
  remove_requests rs q := Ok (mkFCFS (filter_requests rs (deque q)));
  queue_bool q := 0 <? py_len (deque q);
  queue_len q := py_len (deque q);
  queue_iter q := Ok (deque q);
}.

(** [class PriorityRequestQueue(RequestQueue)] *)
Record PriorityRequestQueue : Type := mkPriority { _heap : list Request }.

Definition priority_add (q : PriorityRequestQueue) (r : Request) : result PriorityRequestQueue :=
  mkPriority <$> heappush request_lt (_heap q) r.

#[export] Instance priority_queue : RequestQueue PriorityRequestQueue := {
  add_request r q := priority_add q r;
  pop_request q :=
    match _heap q with
    | [] => Err IndexError
    | _ => '(x, h) ← heappop request_lt (_heap q); Ok (x, mkPriority h)
    end;
  peek_request q := unwrap IndexError (_heap q !! 0%nat);
  prepend_request r q := priority_add q r;
  prepend_requests rs q := foldM priority_add q rs;
  remove_request r q :=
    h ← remove_first r (_heap q); mkPriority <$> heapify request_lt h;
  remove_requests rs q := mkPriority <$> heapify request_lt (filter_requests rs (_heap q));
  queue_bool q := negb (bool_decide (_heap q = []));
  queue_len q := py_len (_heap q);
  queue_iter q := drain request_lt (length (_heap q)) (_heap q);
}.

(** [create_request_queue]: the enumeration has no third member, so the
    [ValueError] branch is not reachable. *)
Definition create_request_queue (policy : SchedulingPolicy) : FCFSRequestQueue + PriorityRequestQueue :=
  match policy with
  | PRIORITY => inr (mkPriority [])
  | FCFS => inl (mkFCFS [])
  end.

(** ** Runs of operations *)

Inductive queue_op : Type :=
  | OpAdd (r : Request) | OpPop | OpPeek | OpPrepend (r : Request)
  | OpPrependAll (rs : list Request) | OpRemove (r : Request) | OpRemoveAll (rs : list Request)
  | OpBool | OpLen | OpIter.

(** What the caller of an operation sees. *)
Inductive queue_out : Type :=
  | OutNone | OutRequest (r : Request) | OutBool (b : bool) | OutLen (n : Z)
  | OutList (l : list Request) | OutRaise (e : exn).

Definition finish {Q A} (q : Q) (view : A → Q * queue_out) (m : result A) : Q * queue_out :=
  match m with Ok a => view a | Err e => (q, OutRaise e) end.

Definition queue_step `{RequestQueue Q} (q : Q) (op : queue_op) : Q * queue_out :=
  let upd := finish q (λ q', (q', OutNone)) in
  match op with
  | OpAdd r => upd (add_request r q)
  | OpPop => finish q (λ '(r, q'), (q', OutRequest r)) (pop_request q)
  | OpPeek => finish q (λ r, (q, OutRequest r)) (peek_request q)
  | OpPrepend r => upd (prepend_request r q)
  | OpPrependAll rs => upd (prepend_requests rs q)
  | OpRemove r => upd (remove_request r q)
  | OpRemoveAll rs => upd (remove_requests rs q)
  | OpBool => (q, OutBool (queue_bool q))
  | OpLen => (q, OutLen (queue_len q))
  | OpIter => finish q (λ l, (q, OutList l)) (queue_iter q)
  end.

Fixpoint queue_run `{RequestQueue Q} (q : Q) (ops : list queue_op) : Q * list queue_out :=
  match ops with
  | [] => (q, [])
  | op :: ops' =>
      let '(q', o) := queue_step q op in
      let '(q'', os) := queue_run q' ops' in (q'', o :: os)
  end.

(** ** The reference queue

    The requests in the order in which they will be scheduled.  A policy is
    where it puts a new request and where it puts one back. *)

Record policy : Type := mkPolicy {
  enqueue : Request → list Request → list Request;
  requeue : Request → list Request → list Request;
}.

Definition fcfs_policy : policy :=
  {| enqueue r l := l ++ [r]; requeue r l := r :: l |}.

Fixpoint insort (r : Request) (l : list Request) : list Request :=
  match l with
  | [] => [r]
  | x :: l' => if request_lt r x then r :: x :: l' else x :: insort r l'
  end.

Definition priority_policy : policy := {| enqueue := insort; requeue := insort |}.

Definition present (r : Request) (l : list Request) : bool := bool_decide (py_id r ∈ py_id <$> l).

Definition spec_step (P : policy) (l : list Request) (op : queue_op) : list Request * queue_out :=
  match op with
  | OpAdd r => (enqueue P r l, OutNone)
  | OpPop => match l with [] => ([], OutRaise IndexError) | x :: l' => (l', OutRequest x) end
  | OpPeek => (l, match l with [] => OutRaise IndexError | x :: _ => OutRequest x end)
  | OpPrepend r => (requeue P r l, OutNone)
  | OpPrependAll rs => (foldl (λ l r, requeue P r l) l rs, OutNone)
  | OpRemove r => if present r l then (filter_requests [r] l, OutNone) else (l, OutRaise ValueError)
  | OpRemoveAll rs => (filter_requests rs l, OutNone)
  | OpBool => (l, OutBool (negb (bool_decide (l = []))))
  | OpLen => (l, OutLen (py_len l))
  | OpIter => (l, OutList l)
  end.

Fixpoint spec_run (P : policy) (l : list Request) (ops : list queue_op) : list Request * list queue_out :=
  match ops with
  | [] => (l, [])
  | op :: ops' =>
      let '(l', o) := spec_step P l op in
      let '(l'', os) := spec_run P l' ops' in (l'', o :: os)
  end.

(** A request is queued once at a time. *)
Definition op_ok (l : list Request) (op : queue_op) : Prop :=
  match op with
  | OpAdd r | OpPrepend r => py_id r ∉ py_id <$> l
  | OpPrependAll rs => NoDup (py_id <$> (rs ++ l))
  | _ => True
  end.

Fixpoint run_ok (P : policy) (l : list Request) (ops : list queue_op) : Prop :=
  match ops with
  | [] => True
  | op :: ops' => op_ok l op ∧ run_ok P (spec_step P l op).1 ops'
  end.

(** What an implementation owes the scheduler: a representation relation that
    every permitted operation keeps, with the outputs of the reference. *)
Class QueueRefines (Q : Type) `{RequestQueue Q} (P : policy) : Type := {
  represents : Q → list Request → Prop;
  represents_step q l op :
    represents q l → op_ok l op →
    ∃ q', queue_step q op = (q', (spec_step P l op).2) ∧ represents q' (spec_step P l op).1;
}.

Lemma queue_run_refines `{QueueRefines Q P} ops (q : Q) l :
  represents q l → run_ok P l ops →
  ∃ q', queue_run q ops = (q', (spec_run P l ops).2) ∧ represents q' (spec_run P l ops).1.
Proof.
  revert q l. induction ops as [|op ops IH]; intros q l Hr Hok; simpl; [by exists q|].
  destruct Hok as [Hop Hok]. destruct (represents_step q l op Hr Hop) as (q' & -> & Hr').
  destruct (spec_step P l op) as [l' o]. simpl in *. destruct (IH q' l' Hr' Hok) as (q'' & -> & Hr'').
  destruct (spec_run P l' ops) as [l'' os]. by exists q''.
Qed.

(** ** Shared facts *)

Definition ids (l : list Request) : list Z := py_id <$> l.

Lemma filter_requests_ids_subseteq rs l : NoDup (ids l) → NoDup (ids (filter_requests rs l)).
Proof.
  intros H. eapply sublist_NoDup; [exact H|]. apply fmap_sublist. apply sublist_filter.
Qed.

Lemma filter_requests_absent r l : py_id r ∉ ids l → filter_requests [r] l = l.
Proof.
  induction l as [|x l IH]; intros H; [done|]. cbn [ids fmap list_fmap] in H.
  apply not_elem_of_cons in H as [Hx H]. unfold filter_requests.
  rewrite filter_cons_True by (simpl; rewrite list_elem_of_singleton; congruence). f_equal. by apply IH.
Qed.

Lemma remove_first_spec r l :
  NoDup (ids l) →
  remove_first r l = if present r l then Ok (filter_requests [r] l) else Err ValueError.
Proof.
  intros Hnd. unfold present. induction l as [|x l IH]; [by rewrite bool_decide_false by apply not_elem_of_nil|].
  apply NoDup_cons in Hnd as [Hx Hnd]. specialize (IH Hnd). cbn [remove_first].
  destruct (Z.eqb_spec (py_id x) (py_id r)) as [E|E].
  - rewrite bool_decide_true by (rewrite fmap_cons, E; left). unfold filter_requests.
    rewrite filter_cons_False by (intros H; apply H; simpl; rewrite E; left).
    fold (filter_requests [r] l). by rewrite filter_requests_absent by (by rewrite <-E).
  - rewrite IH. unfold filter_requests. rewrite filter_cons_True by (simpl; by rewrite list_elem_of_singleton).
    destruct (bool_decide_reflect (py_id r ∈ py_id <$> l)) as [H|H].
    + rewrite bool_decide_true by (rewrite fmap_cons; by right). done.
    + rewrite bool_decide_false by (rewrite fmap_cons, elem_of_cons; naive_solver). done.
Qed.

Lemma insort_perm r l : insort r l ≡ₚ r :: l.
Proof.
  induction l as [|x l IH]; simpl; [done|]. destruct (request_lt r x); [done|].
  rewrite IH. apply Permutation_swap.
Qed.

Lemma ids_insort r l : NoDup (ids l) → py_id r ∉ ids l → NoDup (ids (insort r l)).
Proof. intros H1 H2. unfold ids. rewrite insort_perm. by apply NoDup_cons. Qed.

Lemma insort_sorted r l :
  StronglySorted (le request_lt) l → StronglySorted (le request_lt) (insort r l).
Proof.
  induction l as [|x l IH]; intros Hs; simpl; [by repeat constructor|].
  apply StronglySorted_inv in Hs as [Hs Hx]. destruct (request_lt r x) eqn:E.
  - assert (Hrx : le request_lt r x) by (by apply (lt_le request_lt)). constructor; [by constructor|].
    constructor; [done|]. eapply Forall_impl; [exact Hx|]. intros y Hy. by apply (le_trans request_lt r x y).
  - constructor; [by apply IH|]. rewrite insort_perm. by constructor.
Qed.

Lemma sorted_before l :
  StronglySorted (le request_lt) l → StronglySorted (λ a b, ¬ request_before b a) l.
Proof.
  induction 1 as [|x l Hs IH Hx]; constructor; [done|]. eapply Forall_impl; [exact Hx|].
  intros y Hle Hb%request_lt_before. unfold le in Hle. congruence.
Qed.

(** Among requests queued once the order is total, so the sorted sequence is
    determined by the contents. *)
Lemma sorted_ids_unique l1 l2 :
  NoDup (ids l2) → StronglySorted (le request_lt) l1 → StronglySorted (le request_lt) l2 → l1 ≡ₚ l2 → l1 = l2.
Proof.
  intros Hnd H1 H2 Hp. apply (StronglySorted_unique_strong (le request_lt)); [|done..].
  intros x y Hx Hy Hxy Hyx. rewrite Hp in Hx. apply list_elem_of_lookup in Hx as [i Hi], Hy as [j Hj].
  assert (Hid : py_id x = py_id y).
  { unfold le in *. destruct (request_before_total x y) as [H|[H|H]]; [|done|].
    - apply request_lt_before in H. congruence.
    - apply request_lt_before in H. congruence. }
  assert (i = j) as ->; [|congruence].
  apply (NoDup_lookup (ids l2) i j (py_id x)); [done|..]; unfold ids; rewrite list_lookup_fmap.
  - by rewrite Hi.
  - by rewrite Hj, Hid.
Qed.

(** ** The first-come-first-served queue *)

Definition fcfs_represents (q : FCFSRequestQueue) (l : list Request) : Prop :=
  deque q = l ∧ NoDup (ids l).

Lemma foldl_cons_rev {A} (rs l : list A) : foldl (λ d r, r :: d) l rs = rev rs ++ l.
Proof.
  revert l. induction rs as [|r rs IH]; intros l; simpl; [done|]. rewrite IH. by rewrite <-app_assoc.
Qed.

Lemma fcfs_step q l op :
  fcfs_represents q l → op_ok l op →
  ∃ q', queue_step q op = (q', (spec_step fcfs_policy l op).2) ∧
    fcfs_represents q' (spec_step fcfs_policy l op).1.
Proof.
  intros [<- Hnd] Hok. unfold fcfs_represents. destruct q as [l]. simpl in *.
  destruct op as [r| | |r|rs|r|rs| | |]; simpl in *; try (eexists; split; [done|]; done).
  - eexists. split; [done|]. split; [done|]. unfold ids. rewrite fmap_app. apply NoDup_app. split_and!; [done| |apply NoDup_singleton].
    intros x Hx. simpl. rewrite list_elem_of_singleton. by intros ->.
  - destruct l as [|x l]; eexists; (split; [done|]); (split; [done|]); [done|]. by apply NoDup_cons in Hnd as [_ ?].
  - destruct l as [|x l]; eexists; (split; [done|]); done.
  - eexists. split; [done|]. split; [done|]. by apply NoDup_cons.
  - eexists. split; [done|]. split; [done|]. rewrite foldl_cons_rev. unfold ids.
    rewrite <-Permutation_rev. done.
  - unfold fcfs_represents. rewrite (remove_first_spec r l Hnd). destruct (present r l); simpl.
    + eexists. split; [done|]. split; [done|]. by apply filter_requests_ids_subseteq.
    + eexists. split; [done|]. split; done.
  - eexists. split; [done|]. split; [done|]. by apply filter_requests_ids_subseteq.
  - exists (mkFCFS l). split; [by destruct l|done].
Qed.

#[export] Instance fcfs_refines : QueueRefines FCFSRequestQueue fcfs_policy :=
  {| represents := fcfs_represents; represents_step := fcfs_step |}.

(** ** The priority queue *)

Record priority_represents (q : PriorityRequestQueue) (l : list Request) : Prop := {
  pr_heap : heap request_lt (_heap q);
  pr_perm : _heap q ≡ₚ l;
  pr_sorted : StronglySorted (le request_lt) l;
  pr_ids : NoDup (ids l);
}.

Lemma priority_add_spec q l r :
  priority_represents q l → py_id r ∉ ids l →
  ∃ q', priority_add q r = Ok q' ∧ priority_represents q' (insort r l).
Proof.
  intros [Hh Hp Hs Hn] Hr. unfold priority_add.
  destruct (heappush_spec request_lt (_heap q) r Hh) as (h & -> & Hperm & Hh').
  exists (mkPriority h). split; [done|]. constructor; simpl.
  - done.
  - by rewrite Hperm, insort_perm, Hp.
  - by apply insort_sorted.
  - by apply ids_insort.
Qed.

Lemma priority_add_all_spec rs q l :
  priority_represents q l → NoDup (ids (rs ++ l)) →
  ∃ q', foldM priority_add q rs = Ok q' ∧ priority_represents q' (foldl (λ l r, insort r l) l rs).
Proof.
  revert q l. induction rs as [|r rs IH]; intros q l Hq Hnd; simpl; [by exists q|].
  cbn in Hnd. apply NoDup_cons in Hnd as [Hr Hnd].
  destruct (priority_add_spec q l r Hq) as (q1 & -> & Hq1).
  { intros H. apply Hr. unfold ids in *. rewrite fmap_app. apply elem_of_app. by right. }
  simpl. apply IH; [done|]. unfold ids. rewrite (insort_perm r l), <-Permutation_middle.
  by apply NoDup_cons.
Qed.

Lemma priority_min q l x : priority_represents q l → l !! 0%nat = Some x → _heap q !! 0%nat = Some x.
Proof.
  intros [Hh Hp Hs Hn] Hx. destruct l as [|x' l]; [done|]. injection Hx as ->.
  destruct (_heap q !! 0%nat) as [y|] eqn:Hy.
  2: { apply lookup_ge_None in Hy. rewrite Hp in Hy. simpl in Hy. lia. }
  f_equal.
  assert (Hyin : y ∈ x :: l) by (rewrite <-Hp; by eapply list_elem_of_lookup_2).
  apply StronglySorted_inv in Hs as [_ Hall]. apply elem_of_cons in Hyin as [?|Hyin]; [done|].
  rewrite Forall_forall in Hall. specialize (Hall y Hyin).
  assert (Hxin : x ∈ _heap q) by (rewrite Hp; left). apply list_elem_of_lookup in Hxin as [i Hi].
  pose proof (heap_min request_lt _ _ Hh Hy i x Hi) as Hle. unfold le in *.
  destruct (request_before_total x y) as [H%request_lt_before|[H|H%request_lt_before]]; [congruence| |congruence].
  exfalso. apply NoDup_cons in Hn as [Hn _]. apply Hn. rewrite H. by apply list_elem_of_fmap_2.
Qed.

Lemma priority_pop_spec q x l :
  priority_represents q (x :: l) →
  ∃ q', pop_request q = Ok (x, q') ∧ priority_represents q' l.
Proof.
  intros Hq. pose proof (priority_min q (x :: l) x Hq eq_refl) as Hx. destruct Hq as [Hh Hp Hs Hn]. cbn.
  destruct (_heap q) as [|y h0] eqn:E; [done|]. injection Hx as ->.
  destruct (heappop_spec request_lt (x :: h0) Hh) as (z & h & Hrun & Hperm & Hh' & Hmin); [done|].
  rewrite Hrun. simpl. assert (z = x) as ->.
  { rewrite Hp in Hperm. destruct (elem_of_cons l z x) as [Hz _].
    destruct Hz as [?|Hz]; [rewrite Hperm; left|done|].
    apply StronglySorted_inv in Hs as [_ Hall]. rewrite Forall_forall in Hall. specialize (Hall z Hz).
    rewrite Forall_forall in Hmin. specialize (Hmin x ltac:(left)). unfold le in *.
    destruct (request_before_total x z) as [H%request_lt_before|[H|H%request_lt_before]]; [congruence| |congruence].
    exfalso. apply NoDup_cons in Hn as [Hn _]. apply Hn. rewrite H. by apply list_elem_of_fmap_2. }
  exists (mkPriority h). split; [done|]. constructor; simpl.
  - done.
  - apply (Permutation_cons_inv (a := x)). by rewrite <-Hperm.
  - by apply StronglySorted_inv in Hs as [? _].
  - by apply NoDup_cons in Hn as [_ ?].
Qed.

Lemma StronglySorted_filter_requests rs l :
  StronglySorted (le request_lt) l → StronglySorted (le request_lt) (filter_requests rs l).
Proof.
  unfold filter_requests. induction 1 as [|x l Hs IH Hx]; [constructor|]. rewrite filter_cons.
  case_decide; [|done]. constructor; [done|]. rewrite Forall_forall in *. intros y [_ Hy]%list_elem_of_filter. auto.
Qed.

(** Rebuilding the heap after a removal. *)
Lemma priority_rebuild q l rs h :
  priority_represents q l → h ≡ₚ filter_requests rs (_heap q) →
  ∃ q', mkPriority <$> heapify request_lt h = Ok q' ∧ priority_represents q' (filter_requests rs l).
Proof.
  intros [Hh Hp Hs Hn] Hf. destruct (heapify_spec request_lt h) as (h' & -> & Hperm & Hh').
  exists (mkPriority h'). split; [done|]. constructor; simpl.
  - done.
  - rewrite Hperm, Hf. unfold filter_requests. by rewrite Hp.
  - by apply StronglySorted_filter_requests.
  - by apply filter_requests_ids_subseteq.
Qed.

Lemma priority_iter_spec q l : priority_represents q l → queue_iter q = Ok l.
Proof.
  intros [Hh Hp Hs Hn]. cbn. destruct (drain_spec request_lt (length (_heap q)) (_heap q) Hh) as (xs & -> & Hperm & Hsort); [done|].
  f_equal. apply sorted_ids_unique; [done..|]. by rewrite Hperm.
Qed.

Lemma priority_remove_spec q l r :
  priority_represents q l →
  if present r l then ∃ q', remove_request r q = Ok q' ∧ priority_represents q' (filter_requests [r] l)
  else remove_request r q = Err ValueError.
Proof.
  intros Hq. pose proof Hq as [Hh Hp Hs Hn]. cbn.
  rewrite remove_first_spec by (unfold ids; by rewrite Hp).
  assert (present r (_heap q) = present r l) as -> by (unfold present; apply bool_decide_ext; by rewrite Hp).
  destruct (present r l); [|done]. simpl. by apply (priority_rebuild q l [r]).
Qed.

Lemma priority_step q l op :
  priority_represents q l → op_ok l op →
  ∃ q', queue_step q op = (q', (spec_step priority_policy l op).2) ∧
    priority_represents q' (spec_step priority_policy l op).1.
Proof.
  intros Hq Hok. destruct op as [r| | |r|rs|r|rs| | |]; cbn [queue_step spec_step op_ok enqueue requeue priority_policy] in *.
  - destruct (priority_add_spec q l r Hq Hok) as (q' & Hrun & Hq'). cbn. rewrite Hrun. by exists q'.
  - destruct l as [|x l].
    + exists q. split; [|done]. destruct Hq as [_ Hp _ _]. apply Permutation_nil_r in Hp. cbn. by rewrite Hp.
    + destruct (priority_pop_spec q x l Hq) as (q' & -> & Hq'). by exists q'.
  - exists q. split; [|done]. cbn. destruct l as [|x l].
    + destruct Hq as [_ Hp _ _]. apply Permutation_nil_r in Hp. by rewrite Hp.
    + by rewrite (priority_min q (x :: l) x Hq eq_refl).
  - destruct (priority_add_spec q l r Hq Hok) as (q' & Hrun & Hq'). cbn. rewrite Hrun. by exists q'.
  - destruct (priority_add_all_spec rs q l Hq Hok) as (q' & Hrun & Hq'). cbn. rewrite Hrun. by exists q'.
  - pose proof (priority_remove_spec q l r Hq) as Hrm. destruct (present r l).
    + destruct Hrm as (q' & -> & Hq'). by exists q'.
    + rewrite Hrm. by exists q.
  - destruct (priority_rebuild q l rs (filter_requests rs (_heap q)) Hq) as (q' & Hrun & Hq'); [done|].
    cbn [remove_requests priority_queue]. rewrite Hrun. by exists q'.
  - exists q. split; [|done]. destruct Hq as [_ Hp _ _]. cbn. do 3 f_equal. apply bool_decide_ext.
    split; intros E; rewrite E in Hp; [by apply Permutation_nil_l in Hp|by apply Permutation_nil_r in Hp].
  - exists q. split; [|done]. destruct Hq as [_ Hp _ _]. cbn. unfold py_len. by rewrite Hp.
  - rewrite (priority_iter_spec q l Hq). by exists q.
Qed.

#[export] Instance priority_refines : QueueRefines PriorityRequestQueue priority_policy :=
  {| represents := priority_represents; represents_step := priority_step |}.

(** ** Correctness *)

(** Whatever sequence of operations the scheduler performs on the queue
    that [create_request_queue] returns for the FCFS policy, as long as a
    request is never queued twice at the same time, every operation returns
    (or raises) exactly what the plain list of requests does: new requests go
    to the back, prepended ones to the front (a prepended queue in reverse
    order), removal takes out exactly the named requests, and removing an
    absent request or popping an empty queue raises without changing anything. *)
Theorem fcfs_queue_refines_list ops :
  run_ok fcfs_policy [] ops →
  ∃ q0 q', create_request_queue FCFS = inl q0 ∧
    queue_run q0 ops = (q', (spec_run fcfs_policy [] ops).2) ∧
    deque q' = (spec_run fcfs_policy [] ops).1.
Proof.
  intros Hok. assert (H0 : fcfs_represents (mkFCFS []) []) by (split; [done|constructor]).
  destruct (queue_run_refines (P := fcfs_policy) ops (mkFCFS []) []) as (q' & Hrun & Hq & _); [exact H0|exact Hok|].
  by exists (mkFCFS []), q'.
Qed.

(** C37: The same for the priority policy, against the list kept sorted by
    (priority, arrival time, request id, identity): although the heap only
    orders parents before children, every [pop_request] and [peek_request]
    yields the least request of the queue, iteration yields all of them in
    scheduling order, re-queueing a preempted request puts it at its place in
    that order, removals re-establish the heap, and no operation runs out of
    its loop bound.  No request in the list is preceded by one that should come
    after it. *)
Theorem priority_queue_refines_sorted_list ops :
  run_ok priority_policy [] ops →
  ∃ q0 q', create_request_queue PRIORITY = inr q0 ∧
    queue_run q0 ops = (q', (spec_run priority_policy [] ops).2) ∧
    _heap q' ≡ₚ (spec_run priority_policy [] ops).1 ∧
    StronglySorted (λ a b, ¬ request_before b a) (spec_run priority_policy [] ops).1.
Proof.
  intros Hok. assert (H0 : priority_represents (mkPriority []) []).
  { constructor; simpl; [done|done|constructor|constructor]. }
  destruct (queue_run_refines (P := priority_policy) ops (mkPriority []) []) as (q' & Hrun & [_ Hp Hs _]); [exact H0|exact Hok|].
  exists (mkPriority []), q'. split_and!; [done|done|done|]. by apply sorted_before.
Qed.

(** Requests that differ in what the queues look at. *)
Definition queued (id_ prio arrival : Z) (rid : string) : Request :=
  {| py_id := id_; request_id := rid; priority := prio; arrival_time := arrival;
     status := WAITING; stop_reason := None; sampling_params := None; pooling_params := None;
     lora_request := None; max_tokens := 16; prompt_embeds := None;
     prompt_embeds_per_block_hashes := ∅; num_prompt_tokens := 0;
     output_token_ids := []; all_token_ids := []; num_output_placeholders := 0;
     num_in_flight_tokens := 0; spec_token_ids := []; num_computed_tokens := 0;
     cache_salt := None; mm_features := []; shared_prefix_boundary := 0;
     num_preemptions := 0; block_hashes := []; skip_reading_prefix_cache := false; num_stale_output_tokens := 0;
     drop_stale_output := false; next_decode_eligible_step := 0; is_prefill_chunk := false |}.

Definition demo_ops : list queue_op :=
  [OpAdd (queued 1 5 10 "a"); OpAdd (queued 2 0 11 "b"); OpAdd (queued 3 5 9 "c"); OpPeek;
   OpPop; OpPrependAll [queued 4 1 12 "d"; queued 5 0 8 "e"]; OpIter;
   OpRemove (queued 3 5 9 "c"); OpRemove (queued 3 5 9 "c"); OpLen; OpPop; OpPop; OpPop; OpPop].

Definition out_ids (os : list queue_out) : list (list Z) :=
  (λ o, match o with OutRequest r => [py_id r] | OutList l => ids l | _ => [] end) <$> os.

#[export] Instance op_ok_dec l op : Decision (op_ok l op).
Proof. destruct op; simpl; apply _. Defined.

#[export] Instance run_ok_dec P l ops : Decision (run_ok P l ops).
Proof. revert l. induction ops as [|op ops IH]; intros l; simpl; apply _. Defined.

Lemma fcfs_queue_refines_list_witness :
  out_ids (spec_run fcfs_policy [] demo_ops).2 =
    [[]; []; []; [1]; [1]; []; [5; 4; 2; 3]; []; []; []; [5]; [4]; [2]; []] ∧
  ∃ q0 q', create_request_queue FCFS = inl q0 ∧
    queue_run q0 demo_ops = (q', (spec_run fcfs_policy [] demo_ops).2) ∧
    deque q' = (spec_run fcfs_policy [] demo_ops).1.
Proof.
  split; [vm_compute; reflexivity|].
  apply (fcfs_queue_refines_list demo_ops).
  apply (bool_decide_unpack _). vm_compute. exact I.
Defined.

Lemma priority_queue_refines_sorted_list_witness :
  out_ids (spec_run priority_policy [] demo_ops).2 =
    [[]; []; []; [2]; [2]; []; [5; 4; 3; 1]; []; []; []; [5]; [4]; [1]; []] ∧
  ∃ q0 q', create_request_queue PRIORITY = inr q0 ∧
    queue_run q0 demo_ops = (q', (spec_run priority_policy [] demo_ops).2) ∧
    _heap q' ≡ₚ (spec_run priority_policy [] demo_ops).1 ∧
    StronglySorted (λ a b, ¬ request_before b a) (spec_run priority_policy [] demo_ops).1.
Proof.
  split; [vm_compute; reflexivity|].
  apply (priority_queue_refines_sorted_list demo_ops).
  apply (bool_decide_unpack _). vm_compute. exact I.
Defined.
