(* ===== verification/SchedUtils.v ===== *)
(** * Scheduler utilities

    [vllm/vllm/v1/core/sched/utils.py]: detection of repeated token patterns,
    removal of finished requests from a list, and the stop condition of a
    generating request. *)

From S2P Require Import Prelude FreeQueue Request.
Local Open Scope Z_scope.

(** A [for] loop that returns [False] at the first element that fails. *)
Fixpoint allM {A} (f : A → result bool) (l : list A) : result bool :=
  match l with
  | [] => Ok true
  | x :: l' => f x ≫= λ b : bool, if b then allM f l' else Ok false
  end.

Definition _has_repeating_pattern (token_ids : list Z) (pattern_len repetition_min_count : Z) : result bool :=
  allM (λ n,
    target_token ← py_get token_ids (- n);
    allM (λ m, t ← py_get token_ids (- (pattern_len * m + n)); Ok (t =? target_token))
      (py_range 1 repetition_min_count))
    (py_range 1 (pattern_len + 1)).

(** The loop over the candidate pattern lengths. *)
Fixpoint pattern_loop (token_ids : list Z) (count : Z) (lens : list Z) : result bool :=
  match lens with
  | [] => Ok false
  | pattern_len :: lens' =>
      if py_len token_ids <? pattern_len * count then Ok false
      else _has_repeating_pattern token_ids pattern_len count ≫= λ b : bool,
           if b then Ok true else pattern_loop token_ids count lens'
  end.

Definition check_sequence_repetition (token_ids : list Z) (params : RepetitionDetectionParams) : result bool :=
  let max_size := max_pattern_size params in
  let min_size := if min_pattern_size params <=? 0 then 1 else min_pattern_size params in
  if (max_size <=? 0) || (min_count params <? 2) || (max_size <? min_size) then Ok false
  else pattern_loop token_ids (min_count params) (py_range min_size (max_size + 1)).

(** [remove_all]: the argument list as the call leaves it, and the returned
    list (the same object on the first two paths). *)
Definition remove_all `{Countable A} (lst : list A) (items_to_remove : gset A) : list A * list A :=
  if bool_decide (items_to_remove = ∅) then (lst, lst)
  else match elements items_to_remove with
       | [item] =>
           let l := match list_find (eq item) lst with
                    | Some (i, _) => delete i lst
                    | None => lst
                    end in (l, l)
       | _ => (lst, filter (λ item, item ∉ items_to_remove) lst)
       end.

(** [check_stop]: whether the request stops, with its updated fields. *)
Definition check_stop (request : Request) (max_model_len : Z) : result (bool * Request) :=
  _ ← py_assert (negb (bool_decide (is_Some (pooling_params request))));
  sp ← unwrap AssertionError (sampling_params request);
  last_token_id ← py_get (output_token_ids request) (-1);
  if bool_decide (eos_token_id sp = Some last_token_id) then
    Ok (true, set_status FINISHED_STOPPED request)
  else if bool_decide (last_token_id ∈ default [] (stop_token_ids sp)) then
    Ok (true, set_stop_reason (Some (StopToken last_token_id)) (set_status FINISHED_STOPPED request))
  else if (max_model_len <=? num_tokens request) || (max_tokens request <=? num_output_tokens request) then
    Ok (true, set_status FINISHED_LENGTH_CAPPED request)
  else if num_output_tokens request <? min_tokens sp then Ok (false, request)
  else match repetition_detection sp with
       | None => Ok (false, request)
       | Some params =>
           check_sequence_repetition (output_token_ids request) params ≫= λ rep : bool,
           if rep then
             Ok (true, set_stop_reason (Some (StopText "repetition_detected"))
                         (set_status FINISHED_REPETITION request))
           else Ok (false, request)
       end.

(** ** Repetition *)

(** The reference: the tokens end in [c] copies of some pattern of length [p]. *)
Definition repeats (l : list Z) (p c : nat) : Prop :=
  ∃ w, length w = p ∧ concat (replicate c w) `suffix_of` l.

Lemma allM_Ok {A} (f : A → result bool) (P : A → Prop) l :
  (∀ x, x ∈ l → ∃ b, f x = Ok b ∧ (b = true ↔ P x)) →
  ∃ b, allM f l = Ok b ∧ (b = true ↔ ∀ x, x ∈ l → P x).
Proof.
  induction l as [|x l IH]; intros Hf; simpl.
  - exists true. split; [done|]. split; [|done]. intros _ x Hx. by apply elem_of_nil in Hx.
  - destruct (Hf x) as (b & -> & Hb); [left|]. simpl.
    destruct IH as (b' & Hl & Hb'); [intros y Hy; apply Hf; by right|].
    setoid_rewrite elem_of_cons. destruct b.
    + exists b'. split; [done|]. rewrite Hb'. naive_solver.
    + exists false. split; [done|]. naive_solver.
Qed.

Lemma py_get_neg (l : list Z) k :
  1 ≤ k ≤ py_len l → py_get l (- k) = unwrap IndexError (reverse l !! (Z.to_nat k - 1)%nat).
Proof.
  unfold py_get, py_len. intros Hk. destruct (Z.ltb_spec (- k) 0); [|lia].
  destruct (Z.ltb_spec (- k + Z.of_nat (length l)) 0); [lia|]. f_equal.
  rewrite reverse_lookup by lia. f_equal. lia.
Qed.

Lemma length_concat_replicate {A} (w : list A) c : length (concat (replicate c w)) = (c * length w)%nat.
Proof. induction c as [|c IH]; simpl; [done|]. rewrite length_app. lia. Qed.

Lemma lookup_concat_replicate {A} (w : list A) c m j :
  (m < c)%nat → (j < length w)%nat → concat (replicate c w) !! (m * length w + j)%nat = w !! j.
Proof.
  revert m. induction c as [|c IH]; intros m Hm Hj; [lia|]. simpl. destruct m as [|m].
  - by rewrite lookup_app_l by (simpl; lia).
  - rewrite lookup_app_r by (simpl; lia). rewrite <-(IH m) by lia. f_equal. simpl. lia.
Qed.

Lemma concat_replicate_snoc {A} (w : list A) c : concat (replicate c w) ++ w = w ++ concat (replicate c w).
Proof. induction c as [|c IH]; simpl; [by rewrite app_nil_r|]. by rewrite <-app_assoc, IH. Qed.

Lemma reverse_concat_replicate {A} (w : list A) c :
  reverse (concat (replicate c w)) = concat (replicate c (reverse w)).
Proof.
  induction c as [|c IH]; simpl; [done|]. rewrite reverse_app, IH. apply concat_replicate_snoc.
Qed.

(** Counted from the end, every token equals the one [m] patterns later. *)
Definition periodic (r : list Z) (p c : nat) : Prop :=
  ∀ j m, (j < p)%nat → (m < c)%nat → r !! (m * p + j)%nat = r !! j.

Lemma repeats_periodic l p c :
  (0 < p)%nat → (0 < c)%nat → (c * p ≤ length l)%nat → repeats l p c ↔ periodic (reverse l) p c.
Proof.
  intros Hp Hc Hlen. unfold repeats, periodic. split.
  - intros (w & <- & k & ->) j m Hj Hm. rewrite reverse_app, reverse_concat_replicate.
    assert (Hb : (m * length w + length w ≤ c * length w)%nat) by nia.
    rewrite !lookup_app_l by (rewrite length_concat_replicate, length_reverse; nia).
    rewrite <-(length_reverse w) at 1. rewrite lookup_concat_replicate by (rewrite ?length_reverse; lia).
    pose proof (lookup_concat_replicate (reverse w) c 0 j ltac:(lia)) as H0. rewrite length_reverse in H0.
    by rewrite <-H0 by lia.
  - intros Hper. set (r := reverse l) in *. exists (reverse (take p r)).
    assert (Hl : length r = length l) by apply length_reverse.
    split; [rewrite length_reverse, length_take; nia|].
    assert (Htake : take (c * p) r = concat (replicate c (take p r))).
    { assert (Hw : length (take p r) = p) by (rewrite length_take; nia).
      apply list_eq_same_length with (c * p)%nat; [rewrite length_concat_replicate; lia|rewrite length_take; lia|].
      intros i x y Hi Hx Hy.
      assert (Hmod : i = (i / p * p + i mod p)%nat) by (pose proof (Nat.div_mod_eq i p); lia).
      assert (Hj : (i mod p < p)%nat) by (apply Nat.mod_upper_bound; lia).
      assert (Hm : (i / p < c)%nat) by (apply Nat.Div0.div_lt_upper_bound; lia).
      rewrite lookup_take_lt in Hx by done. rewrite Hmod in Hx, Hy. rewrite Hper in Hx by done.
      rewrite <-Hw in Hy at 2. rewrite lookup_concat_replicate in Hy by lia.
      rewrite lookup_take_lt in Hy by done. congruence. }
    rewrite <-reverse_concat_replicate, <-Htake. exists (reverse (drop (c * p) r)).
    rewrite <-reverse_app, take_drop. unfold r. by rewrite reverse_involutive.
Qed.

Lemma has_repeating_pattern_spec l p c :
  1 ≤ p → 1 ≤ c → p * c ≤ py_len l →
  ∃ b, _has_repeating_pattern l p c = Ok b ∧ (b = true ↔ repeats l (Z.to_nat p) (Z.to_nat c)).
Proof.
  intros Hp Hc Hlen.
  assert (Hget : ∀ k, 1 ≤ k ≤ py_len l → ∃ t, py_get l (- k) = Ok t ∧ reverse l !! (Z.to_nat k - 1)%nat = Some t).
  { intros k Hk. rewrite py_get_neg by done.
    destruct (lookup_lt_is_Some_2 (reverse l) (Z.to_nat k - 1)) as [t Ht]; [rewrite length_reverse; unfold py_len in *; lia|].
    exists t. by rewrite Ht. }
  unfold _has_repeating_pattern.
  destruct (allM_Ok (λ n, target_token ← py_get l (- n);
      allM (λ m, t ← py_get l (- (p * m + n)); Ok (t =? target_token)) (py_range 1 c))
    (λ n, ∀ m, m ∈ py_range 1 c → reverse l !! (Z.to_nat (p * m + n) - 1)%nat = reverse l !! (Z.to_nat n - 1)%nat)
    (py_range 1 (p + 1))) as (b & Hb & Hiff).
  { intros n Hn%elem_of_py_range. destruct (Hget n) as (t & Hn1 & Hn2); [nia|]. rewrite Hn1. cbn [mbind result_bind].
    apply allM_Ok. intros m Hm%elem_of_py_range. destruct (Hget (p * m + n)) as (t' & Hm1 & Hm2); [nia|].
    rewrite Hm1, Hm2, Hn2. cbn [mbind result_bind]. eexists. split; [done|]. rewrite Z.eqb_eq. naive_solver. }
  exists b. split; [done|]. rewrite Hiff, repeats_periodic; [|lia|lia|unfold py_len in *; nia].
  setoid_rewrite elem_of_py_range. unfold periodic. split.
  - intros H j m Hj Hm. destruct m as [|m]; [done|].
    specialize (H (Z.of_nat j + 1) ltac:(lia) (Z.of_nat (S m)) ltac:(lia)).
    replace (Z.to_nat (p * Z.of_nat (S m) + (Z.of_nat j + 1)) - 1)%nat with (S m * Z.to_nat p + j)%nat in H by nia.
    by replace (Z.to_nat (Z.of_nat j + 1) - 1)%nat with j in H by lia.
  - intros H n Hn m Hm. rewrite <-(H (Z.to_nat n - 1)%nat (Z.to_nat m)) by lia. f_equal. nia.
Qed.

(** The early exit loses nothing: longer patterns do not fit either. *)
Lemma pattern_loop_spec l c n a :
  1 ≤ a → 1 ≤ c →
  ∃ b, pattern_loop l c (py_range a (a + Z.of_nat n)) = Ok b ∧
    (b = true ↔ ∃ p, a ≤ p < a + Z.of_nat n ∧ p * c ≤ py_len l ∧ repeats l (Z.to_nat p) (Z.to_nat c)).
Proof.
  revert a. induction n as [|n IH]; intros a Ha Hc.
  - rewrite py_range_nil by lia. exists false. split; [done|]. split; [done|]. intros (p & ? & _). lia.
  - rewrite py_range_cons by lia. cbn [pattern_loop]. destruct (Z.ltb_spec (py_len l) (a * c)).
    { exists false. split; [done|]. split; [done|]. intros (p & ? & ? & _). nia. }
    destruct (has_repeating_pattern_spec l a c) as (b & -> & Hb); [done|done|done|]. cbn [mbind result_bind]. destruct b.
    + exists true. split; [done|]. split; [|done]. intros _. exists a. split; [lia|]. split; [done|]. by apply Hb.
    + replace (a + Z.of_nat (S n)) with (a + 1 + Z.of_nat n) by lia.
      destruct (IH (a + 1)) as (b' & -> & Hb'); [lia|done|]. exists b'. split; [done|]. rewrite Hb'. split.
      * intros (p & ? & ?). exists p. split; [lia|done].
      * intros (p & Hp & Hlen & Hrep). destruct (decide (p = a)) as [->|]; [by apply Hb in Hrep|].
        exists p. split; [lia|done].
Qed.

(** What the parameters ask for: some admissible pattern length, repeated at
    the end of the tokens. *)
Definition repetition_found (l : list Z) (params : RepetitionDetectionParams) : Prop :=
  2 ≤ min_count params ∧
  ∃ p, Z.max 1 (min_pattern_size params) ≤ p ≤ max_pattern_size params ∧
    repeats l (Z.to_nat p) (Z.to_nat (min_count params)).

Lemma repeats_length l p c : repeats l p c → (c * p ≤ length l)%nat.
Proof.
  intros (w & <- & k & ->). rewrite length_app, length_concat_replicate. lia.
Qed.

Lemma check_sequence_repetition_sound l params :
  ∃ b, check_sequence_repetition l params = Ok b ∧ (b = true ↔ repetition_found l params).
Proof.
  unfold check_sequence_repetition, repetition_found. set (c := min_count params).
  set (lo := if min_pattern_size params <=? 0 then 1 else min_pattern_size params).
  assert (Hlo : lo = Z.max 1 (min_pattern_size params)) by (unfold lo; destruct (Z.leb_spec (min_pattern_size params) 0); lia).
  rewrite <-Hlo. set (hi := max_pattern_size params).
  destruct ((hi <=? 0) || (c <? 2) || (hi <? lo)) eqn:Hg.
  - exists false. split; [done|]. split; [done|]. intros (Hc & p & Hp & _).
    apply orb_true_iff in Hg as [[Hg|Hg]%orb_true_iff|Hg]; zbool; lia.
  - zbool. destruct (pattern_loop_spec l c (Z.to_nat (hi + 1 - lo)) lo) as (b & Hb & Hiff); [lia|lia|].
    replace (lo + Z.of_nat (Z.to_nat (hi + 1 - lo))) with (hi + 1) in * by lia.
    exists b. split; [done|]. rewrite Hiff. split.
    + intros (p & Hp & _ & Hrep). split; [done|]. exists p. split; [lia|done].
    + intros (_ & p & Hp & Hrep). exists p. split; [lia|]. split; [|done].
      apply repeats_length in Hrep. unfold py_len. nia.
Qed.

(** [check_sequence_repetition] never raises (no index leaves the token
    list, whatever the parameters) and returns [True] exactly when the tokens
    end in at least [min_count >= 2] copies of one pattern whose length lies
    between [max(1, min_pattern_size)] and [max_pattern_size]; a non-positive
    minimum counts as one, and the early return on patterns that no longer fit
    misses nothing. *)
Theorem check_sequence_repetition_correct l params :
  ∃ b, check_sequence_repetition l params = Ok b ∧ (b = true ↔ repetition_found l params).
Proof. apply check_sequence_repetition_sound. Qed.

(** ** Removal *)

Lemma list_find_None_notin `{EqDecision A} (x : A) (l : list A) : list_find (eq x) l = None → x ∉ l.
Proof. intros H Hx. apply list_find_None in H. rewrite Forall_forall in H. by apply (H x). Qed.

Lemma filter_notin_id {A} `{Countable A} (X : gset A) (l : list A) : (∀ x, x ∈ l → x ∉ X) → filter (λ x, x ∉ X) l = l.
Proof.
  induction l as [|x l IH]; intros Hl; [done|]. rewrite filter_cons_True by (apply Hl; left). f_equal.
  apply IH. intros y Hy. apply Hl. by right.
Qed.

(** Deleting the only occurrence is filtering. *)
Lemma delete_filter {A} `{Countable A} (x : A) (l : list A) i :
  NoDup l → l !! i = Some x → delete i l = filter (λ y, y ∉ ({[x]} : gset A)) l.
Proof.
  intros Hnd. revert i. induction Hnd as [|y l Hy Hnd IH]; intros i Hi; [done|].
  destruct i as [|i]; simpl in Hi.
  - injection Hi as ->. rewrite filter_cons_False by set_solver. simpl. symmetry. apply filter_notin_id. set_solver.
  - rewrite filter_cons_True; [simpl; f_equal; by apply IH|].
    apply list_elem_of_lookup_2 in Hi. set_solver.
Qed.

(** On a list without repetitions [remove_all] returns exactly the
    elements that are not to be removed, in their order, on all three paths;
    the argument list itself is changed only on the single-item path, where the
    returned list is the argument. *)
Theorem remove_all_correct `{Countable A} (lst : list A) (items : gset A) :
  NoDup lst →
  (remove_all lst items).2 = filter (λ x, x ∉ items) lst ∧
  ((remove_all lst items).1 = lst ∨
   size items = 1%nat ∧ (remove_all lst items).1 = (remove_all lst items).2).
Proof.
  intros Hnd. unfold remove_all. destruct (bool_decide_reflect (items = ∅)) as [->|Hne].
  - split; [|by left]. symmetry. apply filter_notin_id. set_solver.
  - destruct (elements items) as [|x [|y xs]] eqn:E; [split; [done|by left]| |split; [done|by left]].
    assert (items = {[x]}) as ->.
    { apply set_eq. intros z. rewrite <-elem_of_elements, E. set_solver. }
    split; [|right; split; [apply size_singleton|done]].
    destruct (list_find (eq x) lst) as [[i y]|] eqn:F; simpl.
    + apply list_find_Some in F as (Hi & <- & _). by apply delete_filter.
    + apply list_find_None_notin in F. symmetry. apply filter_notin_id. set_solver.
Qed.

(** The single-item path stops at the first occurrence. *)
Lemma remove_all_repeated : (remove_all [7; 8; 7] ({[7]} : gset Z)).2 = [8; 7].
Proof. vm_compute. reflexivity. Qed.

(** ** Stopping *)

(** The request keeps everything but its status and stop reason. *)
Definition stopped_from (r r' : Request) : Prop :=
  r' = set_stop_reason (stop_reason r') (set_status (status r') r).

(** The part the scheduler relies on. *)
Lemma check_stop_outcome r max_model_len :
  pooling_params r = None → is_Some (sampling_params r) → output_token_ids r ≠ [] →
  runs (check_stop r max_model_len) (λ '(b, r'),
    if b : bool then is_finished (status r') = true ∧ stopped_from r r' else r' = r ∧ num_tokens r < max_model_len).
Proof.
  intros Hpp [sp Hsp] Ho. unfold check_stop. rewrite Hpp, Hsp. cbn [bool_decide is_Some decide negb py_assert mbind result_bind unwrap].
  assert (Hget : is_Some (last (output_token_ids r))) by by (rewrite last_is_Some).
  destruct Hget as [t [l' Hl]%last_Some].
  assert (Hg : py_get (output_token_ids r) (-1) = Ok t).
  { change (-1) with (- (1)). rewrite py_get_neg by (rewrite Hl, py_len_app; unfold py_len; simpl; lia). by rewrite Hl, reverse_snoc. }
  cbn. rewrite Hg. cbn [mbind result_bind].
  case_bool_decide; [split; [done|by destruct r]|]. case_bool_decide; [split; [done|by destruct r]|].
  destruct (_ || _) eqn:E; [split; [done|by destruct r]|]. zbool. destruct (_ <? _); [by split|].
  destruct (repetition_detection sp) as [params|]; [|by split].
  destruct (check_sequence_repetition_sound (output_token_ids r) params) as (b & -> & _). cbn [mbind result_bind].
  destruct b; [split; [done|by destruct r]|by split].
Qed.

(** For a generating request that has produced a token, [check_stop] never
    raises.  It answers [True] exactly when the last token is the end-of-sequence
    token or a stop token, or the sequence has reached the model's or the
    request's length limit, or, once [min_tokens] outputs exist, the repetition
    the request asked to detect is there.  If it answers [False] the request is
    untouched; if [True] the request is finished, with only its status and stop
    reason changed, and the finish reason tells which condition applied, the
    stop tokens taking precedence over the length limits and those over
    repetition. *)
Theorem check_stop_correct r sp max_model_len t :
  pooling_params r = None → sampling_params r = Some sp → last (output_token_ids r) = Some t →
  let stop_tok := eos_token_id sp = Some t ∨ t ∈ default [] (stop_token_ids sp) in
  let length_cap := max_model_len ≤ num_tokens r ∨ max_tokens r ≤ num_output_tokens r in
  let repetition := min_tokens sp ≤ num_output_tokens r ∧
    ∃ params, repetition_detection sp = Some params ∧ repetition_found (output_token_ids r) params in
  ∃ b r', check_stop r max_model_len = Ok (b, r') ∧
    (b = true ↔ stop_tok ∨ length_cap ∨ repetition) ∧
    (b = false → r' = r) ∧
    (b = true → is_finished (status r') = true ∧ stopped_from r r' ∧
       (get_finished_reason (status r') = Some STOP ∧ stop_tok ∨
        get_finished_reason (status r') = Some LENGTH ∧ length_cap ∧ ¬ stop_tok ∨
        get_finished_reason (status r') = Some REPETITION ∧ repetition ∧ ¬ stop_tok ∧ ¬ length_cap)).
Proof.
  intros Hpp Hsp Ht stop_tok length_cap repetition. unfold check_stop. rewrite Hpp, Hsp.
  assert (Hget : py_get (output_token_ids r) (-1) = Ok t).
  { apply last_Some in Ht as [l' E]. change (-1) with (- (1)). rewrite py_get_neg, E.
    - change (Z.to_nat 1 - 1)%nat with 0%nat. by rewrite reverse_snoc.
    - rewrite E, py_len_app. unfold py_len. simpl. lia. }
  cbn [py_assert negb bool_decide unwrap mbind result_bind decide option_eq_dec]. rewrite Hget. cbn [mbind result_bind].
  destruct (bool_decide_reflect (eos_token_id sp = Some t)) as [He|He].
  { eexists true, _. split; [done|]. split; [unfold stop_tok; tauto|]. split; [done|]. intros _.
    split_and!; [done|by destruct r|]. left. split; [done|by left]. }
  destruct (bool_decide_reflect (t ∈ default [] (stop_token_ids sp))) as [Hs|Hs].
  { eexists true, _. split; [done|]. split; [unfold stop_tok; tauto|]. split; [done|]. intros _.
    split_and!; [done|by destruct r|]. left. split; [done|by right]. }
  assert (Hnstop : ¬ stop_tok) by (unfold stop_tok; tauto).
  destruct ((max_model_len <=? num_tokens r) || (max_tokens r <=? num_output_tokens r)) eqn:Hl.
  { assert (Hcap : length_cap) by (apply orb_true_iff in Hl as [?|?]; zbool; [by left|by right]).
    eexists true, _. split; [done|]. split; [tauto|]. split; [done|]. intros _.
    split_and!; [done|by destruct r|]. right. left. done. }
  assert (Hncap : ¬ length_cap) by (zbool; unfold length_cap; lia).
  destruct (Z.ltb_spec (num_output_tokens r) (min_tokens sp)) as [Hm|Hm].
  { exists false, r. split_and!; [done| |done|done]. split; [done|]. unfold repetition. intros [?|[?|[? _]]]; [tauto|tauto|lia]. }
  destruct (repetition_detection sp) as [params|] eqn:Hrd.
  2: { exists false, r. split_and!; [done| |done|done]. split; [done|]. unfold repetition. intros [?|[?|(_ & p & E & _)]]; [tauto|tauto|done]. }
  destruct (check_sequence_repetition_sound (output_token_ids r) params) as (b & -> & Hb). cbn [mbind result_bind].
  assert (Hrep : repetition ↔ b = true).
  { rewrite Hb. unfold repetition. split; [intros (_ & p & E & ?); congruence|]. intros ?. split; [done|]. by exists params. }
  destruct b.
  - eexists true, _. split; [done|]. split; [tauto|]. split; [done|]. intros _.
    split_and!; [done|by destruct r|]. right. right. split; [done|]. tauto.
  - exists false, r. split_and!; [done| |done|done]. split; [done|]. intros [?|[?|H%Hrep]]; [tauto|tauto|done].
Qed.

Definition demo_generating : Request :=
  {| py_id := 1; request_id := "r"; priority := 0; arrival_time := 0;
     status := RUNNING; stop_reason := None;
     sampling_params := Some (mkSamplingParams (Some 100) 2 (Some 2) (Some [13])
                               (Some (mkRepetitionDetectionParams 4 0 3)) None);
     pooling_params := None;
     lora_request := None; max_tokens := 100; prompt_embeds := None;
     prompt_embeds_per_block_hashes := ∅; num_prompt_tokens := 2;
     output_token_ids := [9; 5; 6; 5; 6; 5; 6]; all_token_ids := [1; 1; 9; 5; 6; 5; 6; 5; 6];
     num_output_placeholders := 0;
     num_in_flight_tokens := 0; spec_token_ids := []; num_computed_tokens := 8;
     cache_salt := None; mm_features := []; shared_prefix_boundary := 0;
     num_preemptions := 0; block_hashes := []; skip_reading_prefix_cache := false; num_stale_output_tokens := 0;
     drop_stale_output := false; next_decode_eligible_step := 0; is_prefill_chunk := false |}.

Lemma check_stop_correct_witness :
  (∃ r', check_stop demo_generating 4096 = Ok (true, r') ∧ status r' = FINISHED_REPETITION) ∧
  ∃ b r', check_stop demo_generating 4096 = Ok (b, r') ∧ (b = false → r' = demo_generating).
Proof.
  split; [eexists; split; vm_compute; reflexivity|].
  destruct (check_stop_correct demo_generating
    (mkSamplingParams (Some 100) 2 (Some 2) (Some [13]) (Some (mkRepetitionDetectionParams 4 0 3)) None) 4096 6)
    as (b & r' & H1 & _ & H2 & _); [reflexivity..|]. exists b, r'. split; assumption.
Defined.
