(* ===== verification/Ngram.v ===== *)
(** * Speculative decoding by n-gram look-up

    [vllm/vllm/v1/spec_decode/ngram_proposer.py]: the proposer that drafts the
    tokens that followed an earlier occurrence of the last tokens of a request.
    The search is a Knuth-Morris-Pratt scan of the reversed context whose
    failure table stops at [max_ngram]; it is shown to agree with trying all
    lengths and positions in turn.  The compiled kernel runs the requests of a
    batch in parallel: the order of its iterations is an argument.  numba's
    thread count is the field [num_threads]; array accesses are checked. *)

From S2P Require Import Prelude.
Local Open Scope Z_scope.

(** ** The search *)

(** [a[i] = v] on an array. *)
Definition np_store {A} (a : list A) (i : Z) (v : A) : result (list A) :=
  let j := if i <? 0 then i + py_len a else i in
  if (j <? 0) || (py_len a <=? j) then Err IndexError
  else Ok (<[Z.to_nat j := v]> a).

(** [np.zeros(n)] *)
Definition np_zeros (n : Z) : result (list Z) :=
  if n <? 0 then Err ValueError else Ok (replicate (Z.to_nat n) 0).

(** The [while i < total_token] loop; the result is
    [(longest_ngram, position)]. *)
Fixpoint ngram_loop (fuel : nat) (tokens : list Z) (total_token max_ngram : Z)
    (lps : list Z) (longest_ngram position prev_lps i : Z) : result (Z * Z) :=
  match fuel with
  | O => Err OutOfFuel
  | S fuel' =>
      if i <? total_token then
        t0 ← py_get tokens prev_lps;
        t1 ← py_get tokens i;
        if t0 =? t1 then
          let prev_lps := prev_lps + 1 in
          let '(longest_ngram, position) :=
            if longest_ngram <=? prev_lps then (prev_lps, i) else (longest_ngram, position) in
          lps ← (if i <? max_ngram then np_store lps i prev_lps else Ok lps);
          prev_lps ← (if prev_lps =? max_ngram then py_get lps (max_ngram - 1) else Ok prev_lps);
          ngram_loop fuel' tokens total_token max_ngram lps longest_ngram position prev_lps (i + 1)
        else if negb (prev_lps =? 0) then
          prev_lps ← py_get lps (prev_lps - 1);
          ngram_loop fuel' tokens total_token max_ngram lps longest_ngram position prev_lps i
        else
          ngram_loop fuel' tokens total_token max_ngram lps longest_ngram position prev_lps (i + 1)
      else Ok (longest_ngram, position)
  end.

Definition _find_longest_matched_ngram_and_propose_tokens
    (origin_tokens : list Z) (min_ngram max_ngram max_model_len k : Z) : result (list Z) :=
  let total_token := py_len origin_tokens in
  if total_token <? min_ngram then Ok []
  else
    let k := Z.min k (max_model_len - total_token) in
    if k <=? 0 then Ok []
    else
      let tokens := reverse origin_tokens in
      lps ← np_zeros max_ngram;
      '(longest_ngram, position) ←
        ngram_loop (S (2 * length origin_tokens)) tokens total_token max_ngram lps 0 0 0 1;
      if longest_ngram <? min_ngram then Ok []
      else
        let start_position := total_token - 1 - position + longest_ngram in
        let k := Z.min k (total_token - start_position) in
        Ok (py_slice origin_tokens start_position (start_position + k)).

(** ** The proposer *)

Record NgramProposer := {
  min_n : Z;
  max_n : Z;
  ngram_k : Z;
  ng_max_model_len : Z;
  valid_ngram_draft : list (list Z);
  valid_ngram_num_drafts : list Z;
  num_tokens_threshold : Z;
  num_numba_thread_available : Z;
  (** numba's thread count *)
  num_threads : Z
}.

Definition set_buffers (s : NgramProposer) d n : NgramProposer := {|
  min_n := min_n s; max_n := max_n s; ngram_k := ngram_k s; ng_max_model_len := ng_max_model_len s;
  valid_ngram_draft := d; valid_ngram_num_drafts := n;
  num_tokens_threshold := num_tokens_threshold s;
  num_numba_thread_available := num_numba_thread_available s; num_threads := num_threads s |}.

Definition set_num_threads (n : Z) (s : NgramProposer) : NgramProposer := {|
  min_n := min_n s; max_n := max_n s; ngram_k := ngram_k s; ng_max_model_len := ng_max_model_len s;
  valid_ngram_draft := valid_ngram_draft s; valid_ngram_num_drafts := valid_ngram_num_drafts s;
  num_tokens_threshold := num_tokens_threshold s;
  num_numba_thread_available := num_numba_thread_available s; num_threads := n |}.

(** One iteration of the kernel: the draft of the request [idx] is written to
    its row of the buffers. *)
Definition kernel_step (valid_ngram_requests num_tokens_no_spec : list Z) (token_ids_cpu : list (list Z))
    (k : Z) (s : NgramProposer) (i : Z) : result NgramProposer :=
  idx ← py_get valid_ngram_requests i;
  num_tokens ← py_get num_tokens_no_spec idx;
  row ← py_get token_ids_cpu idx;
  let context_token_ids := py_upto row num_tokens in
  drafter_output ← _find_longest_matched_ngram_and_propose_tokens context_token_ids
                     (min_n s) (max_n s) (ng_max_model_len s) k;
  num ← np_store (valid_ngram_num_drafts s) idx (py_len drafter_output);
  if py_len drafter_output =? 0 then Ok (set_buffers s (valid_ngram_draft s) num)
  else
    old ← py_get (valid_ngram_draft s) idx;
    if py_len old <? py_len drafter_output then Err ValueError
    else
      draft ← np_store (valid_ngram_draft s) idx (drafter_output ++ drop (length drafter_output) old);
      Ok (set_buffers s draft num).

(** [prange]: the iterations [0 .. n-1] in the order [schedule n]. *)
Definition batch_propose_numba (schedule : Z → list Z) (valid_ngram_requests num_tokens_no_spec : list Z)
    (token_ids_cpu : list (list Z)) (k : Z) (s : NgramProposer) : result NgramProposer :=
  foldM (kernel_step valid_ngram_requests num_tokens_no_spec token_ids_cpu k) s
    (schedule (py_len valid_ngram_requests)).

(** The body of the loop over the requests that collects the drafts. *)
Definition collect_draft (valid_ngram_requests : list Z) (s : NgramProposer) (i : Z) : result (list Z) :=
  if bool_decide (i ∈ valid_ngram_requests) then
    n ← py_get (valid_ngram_num_drafts s) i;
    if 0 <? n then
      row ← py_get (valid_ngram_draft s) i;
      Ok (py_upto row n)
    else Ok []
  else Ok [].

Definition batch_propose (schedule : Z → list Z) (num_requests : Z) (valid_ngram_requests num_tokens_no_spec : list Z)
    (token_ids_cpu : list (list Z)) (k : Z) (s : NgramProposer) : result (list (list Z) * NgramProposer) :=
  let num_ngram_requests := py_len valid_ngram_requests in
  s1 ← (if num_ngram_requests =? 0 then Ok s
        else
          let original_num_numba_threads := num_threads s in
          let total_tokens := sumZ num_tokens_no_spec in
          let s1 := if num_tokens_threshold s <=? total_tokens
                    then set_num_threads (Z.max 1 (Z.min (num_numba_thread_available s) num_ngram_requests)) s
                    else set_num_threads 1 s in
          s2 ← batch_propose_numba schedule valid_ngram_requests num_tokens_no_spec token_ids_cpu k s1;
          Ok (set_num_threads original_num_numba_threads s2));
  draft_token_ids ← mapM_ok (collect_draft valid_ngram_requests s1) (py_range 0 num_requests);
  Ok (draft_token_ids, s1).

(** The requests that need a proposal. *)
Fixpoint select_requests (max_model_len i : Z) (sampled_token_ids : list (list Z)) (num_tokens_no_spec : list Z)
    : result (list Z) :=
  match sampled_token_ids with
  | [] => Ok []
  | sampled_ids :: rest =>
      if py_len sampled_ids =? 0 then select_requests max_model_len (i + 1) rest num_tokens_no_spec
      else
        num_tokens ← py_get num_tokens_no_spec i;
        l ← select_requests max_model_len (i + 1) rest num_tokens_no_spec;
        Ok (if max_model_len <=? num_tokens then l else i :: l)
  end.

Definition propose (schedule : Z → list Z) (num_speculative_tokens : Z) (sampled_token_ids : list (list Z))
    (num_tokens_no_spec : list Z) (token_ids_cpu : list (list Z)) (s : NgramProposer)
    : result (list (list Z) * NgramProposer) :=
  _ ← py_assert (num_speculative_tokens <=? ngram_k s);
  valid_ngram_requests ← select_requests (ng_max_model_len s) 0 sampled_token_ids num_tokens_no_spec;
  batch_propose schedule (py_len sampled_token_ids) valid_ngram_requests num_tokens_no_spec token_ids_cpu
    num_speculative_tokens s.

(** The parts of [VllmConfig] that the constructor reads. *)
Record NgramConfig := {
  has_speculative_config : bool;
  prompt_lookup_min : option Z;
  prompt_lookup_max : option Z;
  num_speculative_tokens : Z;
  cfg_max_model_len : Z;
  max_num_seqs : Z;
  tensor_parallel_size : Z
}.

(** [NgramProposer.__init__]; [cpu_count] is [os.cpu_count()] and [threads]
    numba's thread count. *)
Definition new_ngram_proposer (schedule : Z → list Z) (c : NgramConfig) (cpu_count : option Z) (threads : Z)
    : result NgramProposer :=
  _ ← py_assert (has_speculative_config c);
  lo ← unwrap AssertionError (prompt_lookup_min c);
  hi ← unwrap AssertionError (prompt_lookup_max c);
  num_drafts ← np_zeros (max_num_seqs c);
  row ← np_zeros (num_speculative_tokens c);
  let available :=
    match cpu_count with
    | Some n => if n =? 0 then 1 else Z.min 1 (n / 2) / tensor_parallel_size c
    | None => 1
    end in
  let s := {| min_n := lo; max_n := hi; ngram_k := num_speculative_tokens c;
              ng_max_model_len := cfg_max_model_len c;
              valid_ngram_draft := replicate (Z.to_nat (max_num_seqs c)) row;
              valid_ngram_num_drafts := num_drafts;
              num_tokens_threshold := 8192; num_numba_thread_available := available;
              num_threads := threads |} in
  zeros ← np_zeros 1024;
  tokens ← np_zeros (cfg_max_model_len c);
  '(_, s) ← propose schedule (ngram_k s) (replicate 1024 []) zeros (replicate 1024 tokens) s;
  Ok s.

(** ** Borders

    [border t n l]: the first [l] elements of [t] are also the last [l] of its
    first [n] elements, and [l] is less than [n]. *)

Definition border (t : list Z) (n l : nat) : Prop :=
  (l < n)%nat ∧ ∀ j, (j < l)%nat → t !! j = t !! (n - l + j)%nat.

(** The longest border, the entry of the failure table. *)
Definition failure (t : list Z) (n l : nat) : Prop :=
  border t n l ∧ ∀ l', border t n l' → (l' ≤ l)%nat.

Lemma border_0 t n : (0 < n)%nat → border t n 0.
Proof. split; [lia|]. intros j ?. lia. Qed.

Lemma border_S t n l : border t (S n) (S l) ↔ border t n l ∧ t !! l = t !! n.
Proof.
  unfold border. split.
  - intros [Hl Hj]. split; [split; [lia|]|].
    + intros j ?. rewrite (Hj j) by lia. f_equal.
    + rewrite (Hj l) by lia. f_equal. lia.
  - intros [[Hl Hj] He]. split; [lia|]. intros j ?. destruct (decide (j = l)) as [->|].
    + rewrite He. f_equal. lia.
    + rewrite (Hj j) by lia. f_equal.
Qed.

Lemma border_nest t n p l : border t n p → border t n l → (l < p)%nat → border t p l.
Proof.
  intros [? Hp] [? Hl] ?. split; [done|]. intros j ?.
  rewrite (Hl j), (Hp (p - l + j)%nat) by lia. f_equal. lia.
Qed.

Lemma border_trans t n p l : border t n p → border t p l → border t n l.
Proof.
  intros [? Hp] [? Hl]. split; [lia|]. intros j ?.
  rewrite (Hl j), (Hp (p - l + j)%nat) by lia. f_equal. lia.
Qed.

(** The longest border of at most [max] elements over the first [i] prefixes,
    and the last prefix that has it. *)
Record best_border (t : list Z) (max i longest position : nat) : Prop := {
  bb_le : ∀ n l, (n ≤ i)%nat → border t n l → (l ≤ max)%nat → (l ≤ longest)%nat;
  bb_last : ∀ n, (n ≤ i)%nat → (0 < longest)%nat → border t n longest → (n ≤ S position)%nat;
  bb_found : (0 < longest)%nat → border t (S position) longest ∧ (longest ≤ max)%nat ∧ (S position ≤ i)%nat
}.

Lemma best_border_next t max i b longest position :
  best_border t max i longest position →
  (0 < b → border t (S i) b ∧ b ≤ max)%nat → (∀ l, border t (S i) l → l ≤ max → l ≤ b)%nat →
  best_border t max (S i) (if decide (longest ≤ b ∧ 0 < b)%nat then b else longest)
    (if decide (longest ≤ b ∧ 0 < b)%nat then i else position).
Proof.
  intros [Hle Hlast Hf] Hb Hmax.
  assert (∀ n l, n ≤ S i → border t n l → l ≤ max → l ≤ longest ∨ n = S i ∧ l ≤ b)%nat as Hcase.
  { intros n l ? Hn ?. destruct (decide (n = S i)) as [->|]; [right; eauto|left; apply (Hle n); [lia|done..]]. }
  case_decide as Hd.
  - split.
    + intros n l ? Hn ?. destruct (Hcase n l) as [|[_ ?]]; auto; lia.
    + intros n ? ? _. lia.
    + intros ?. destruct Hb; [lia|]. done.
  - split.
    + intros n l ? Hn ?. destruct (Hcase n l) as [|[_ ?]]; auto; lia.
    + intros n ? ? Hn. destruct (Hf ltac:(done)) as (_ & ? & ?). destruct (decide (n = S i)) as [->|].
      * specialize (Hmax longest Hn ltac:(lia)). lia.
      * apply Hlast; [lia|done..].
    + intros ?. destruct (Hf ltac:(done)) as (? & ? & ?). split_and!; [done..|lia].
Qed.

(** The state of the scan before it looks at [t !! i] with candidate [p]. *)
Record scan_inv (t : list Z) (max i p : nat) (lps : list nat) (longest position : nat) : Prop := {
  sc_pos : (1 ≤ i)%nat;
  sc_border : border t i p;
  sc_cap : (p < max)%nat;
  sc_excluded : ∀ l, (p < l)%nat → (l < max)%nat → border t i l → t !! l ≠ t !! i;
  sc_length : length lps = max;
  sc_table : ∀ j, (j < i)%nat → (j < max)%nat → ∃ l, lps !! j = Some l ∧ failure t (S j) l;
  sc_zero : ∀ j, (i ≤ j)%nat → (j < max)%nat → lps !! j = Some 0%nat;
  sc_best : best_border t max i longest position
}.

Lemma scan_init t max : (0 < max)%nat → scan_inv t max 1 0 (replicate max 0%nat) 0 0.
Proof.
  assert (∀ n l, (n ≤ 1)%nat → border t n l → l = 0%nat) as H1.
  { intros n l ? [? _]. lia. }
  intros ?. split; [lia|apply border_0; lia|done| |apply length_replicate| | |].
  - intros l ? ? [? _]. lia.
  - intros j ? ?. exists 0%nat. split; [by apply lookup_replicate_2|]. split; [apply border_0; lia|].
    intros l' Hl'. apply H1 in Hl' as ->; lia.
  - intros j ? ?. by apply lookup_replicate_2.
  - split; [|lia..]. intros n l ? Hl ?. apply H1 in Hl as ->; lia.
Qed.

(** A mismatch with a non-empty candidate: the next shorter border. *)
Lemma scan_fallback t max i p lps longest position :
  scan_inv t max i p lps longest position → t !! p ≠ t !! i → p ≠ 0%nat →
  ∃ q, lps !! (p - 1)%nat = Some q ∧ (q < p)%nat ∧ scan_inv t max i q lps longest position.
Proof.
  intros [H1 H2 H3 H4 H5 H6 H7 H8] Hne ?. pose proof (proj1 H2).
  destruct (H6 (p - 1)%nat) as (q & Hq & Hb & Hm); [lia..|]. replace (S (p - 1)) with p in * by lia.
  pose proof (proj1 Hb). exists q. split_and!; [done|lia|].
  split; [done|by apply (border_trans _ _ p)|lia| |done..].
  intros l ? ? Hl. destruct (decide (l = p)) as [->|]; [done|]. destruct (decide (l < p)%nat).
  - specialize (Hm l (border_nest _ _ _ _ H2 Hl ltac:(lia))). lia.
  - apply H4; [lia|done..].
Qed.

(** A mismatch without a candidate. *)
Lemma scan_restart t max i lps longest position :
  scan_inv t max i 0 lps longest position → t !! 0%nat ≠ t !! i →
  scan_inv t max (S i) 0 lps longest position.
Proof.
  intros [H1 H2 H3 H4 H5 H6 H7 H8] Hne.
  assert (∀ l, l ≤ max → border t (S i) l → l = 0)%nat as Hnone.
  { intros [|l] ? Hl; [done|]. apply border_S in Hl as [Hl He]. exfalso.
    destruct l as [|l]; [done|]. by apply (H4 (S l)); [lia..| |]. }
  split; [lia|apply border_0; lia|done| |done| | |].
  - intros l ? ? Hl. apply Hnone in Hl; lia.
  - intros j ? ?. destruct (decide (j = i)) as [->|]; [|apply H6; lia].
    exists 0%nat. split; [by apply H7|]. split; [apply border_0; lia|].
    intros l Hl. pose proof (proj1 Hl). apply Hnone in Hl; lia.
  - intros j ? ?. apply H7; lia.
  - pose proof (best_border_next t max i 0 longest position H8) as Hb.
    rewrite !decide_False in Hb by lia. apply Hb; [lia|]. intros l Hl ?. apply Hnone in Hl; lia.
Qed.

(** What the match of [t !! i] with candidate [p] writes into the table. *)
Definition store_border (lps : list nat) (i max b : nat) : list nat :=
  if decide (i < max)%nat then <[i := b]> lps else lps.

(** A match. *)
Lemma scan_match t max i p lps longest position :
  scan_inv t max i p lps longest position → t !! p = t !! i →
  let lps' := store_border lps i max (S p) in
  ∃ q, (if decide (S p = max) then lps' !! (max - 1)%nat = Some q else q = S p) ∧
    scan_inv t max (S i) q lps' (if decide (longest ≤ S p)%nat then S p else longest)
      (if decide (longest ≤ S p)%nat then i else position).
Proof.
  intros [H1 H2 H3 H4 H5 H6 H7 H8] He lps'.
  assert (border t (S i) (S p)) as Hb by by apply border_S.
  assert (∀ l, border t (S i) l → l ≤ max → l ≤ S p)%nat as Hmax.
  { intros [|l] Hl ?; [lia|]. apply border_S in Hl as [Hl Hel]. destruct (decide (l ≤ p)%nat); [lia|].
    exfalso. apply (H4 l); [lia..|done|done]. }
  assert (∀ j, j < S i → j < max → ∃ l, lps' !! j = Some l ∧ failure t (S j) l)%nat as Htab.
  { intros j ? ?. unfold lps', store_border. case_decide; [|apply H6; lia].
    destruct (decide (j = i)) as [->|]; [|rewrite list_lookup_insert_ne by lia; apply H6; lia].
    exists (S p). rewrite list_lookup_insert_eq by lia. split; [done|]. split; [done|].
    intros l Hl. pose proof (proj1 Hl). apply Hmax; [done|lia]. }
  pose proof (best_border_next t max i (S p) longest position H8) as Hbest.
  assert (∀ A (x y : A), (if decide (longest ≤ S p ∧ 0 < S p)%nat then x else y) = if decide (longest ≤ S p)%nat then x else y) as Hif.
  { intros A x y. repeat case_decide; naive_solver lia. }
  rewrite !Hif in Hbest. specialize (Hbest ltac:(intros _; split; [done|lia]) Hmax).
  assert (∀ j, S i ≤ j → j < max → lps' !! j = Some 0)%nat as Hzero.
  { intros j ? ?. unfold lps', store_border. destruct (decide (i < max)%nat); [rewrite list_lookup_insert_ne by lia|]; apply H7; lia. }
  assert (length lps' = max) as Hlen.
  { unfold lps', store_border. destruct (decide (i < max)%nat); [by rewrite length_insert|done]. }
  destruct (decide (S p = max)) as [Hcap|Hcap].
  - destruct (Htab (max - 1)%nat) as (q & Hq & Hqb & Hqm); [pose proof (proj1 H2); lia|lia|].
    replace (S (max - 1)) with (S p) in * by lia. pose proof (proj1 Hqb).
    exists q. split; [done|]. split; [lia|by apply (border_trans _ _ (S p))|lia| |done..].
    intros l ? ? Hl. specialize (Hqm l (border_nest _ _ _ _ Hb Hl ltac:(lia))). lia.
  - exists (S p). split; [done|]. split; [lia|done|lia| |done..].
    intros l ? ? Hl. specialize (Hmax l Hl). lia.
Qed.

(** ** The loop computes the best border *)

Lemma np_store_in {A} (a : list A) i v : (i < length a)%nat → np_store a (Z.of_nat i) v = Ok (<[i := v]> a).
Proof.
  intros ?. unfold np_store, py_len. destruct (Z.ltb_spec (Z.of_nat i) 0); [lia|].
  destruct (Z.ltb_spec (Z.of_nat i) 0); [lia|]. destruct (Z.leb_spec (Z.of_nat (length a)) (Z.of_nat i)); [lia|].
  simpl. by rewrite Nat2Z.id.
Qed.

Lemma store_border_Z lps i max b :
  length lps = max →
  (if Z.of_nat i <? Z.of_nat max then np_store (Z.of_nat <$> lps) (Z.of_nat i) (Z.of_nat b) else Ok (Z.of_nat <$> lps))
  = Ok (Z.of_nat <$> store_border lps i max b).
Proof.
  intros Hlen. unfold store_border. destruct (Z.ltb_spec (Z.of_nat i) (Z.of_nat max)); case_decide; try lia; [|done].
  by rewrite np_store_in, list_fmap_insert by (rewrite length_fmap; lia).
Qed.

Lemma ngram_loop_spec fuel : ∀ t max i p lps longest position,
  scan_inv t max i p lps longest position → (i ≤ length t)%nat → (2 * (length t - i) + p < fuel)%nat →
  ∃ L P, ngram_loop fuel t (py_len t) (Z.of_nat max) (Z.of_nat <$> lps) (Z.of_nat longest) (Z.of_nat position)
           (Z.of_nat p) (Z.of_nat i) = Ok (Z.of_nat L, Z.of_nat P) ∧ best_border t max (length t) L P.
Proof.
  induction fuel as [|fuel IH]; intros t max i p lps longest position Hinv Hi Hfuel; [lia|]. simpl.
  pose proof (proj1 (sc_border _ _ _ _ _ _ _ Hinv)) as Hp.
  destruct (Z.ltb_spec (Z.of_nat i) (py_len t)) as [Hlt|Hge]; unfold py_len in *.
  2: { exists longest, position. split; [done|]. replace (length t) with i by lia. apply Hinv. }
  destruct (lookup_lt_is_Some_2 t p) as [x Hx]; [lia|]. destruct (lookup_lt_is_Some_2 t i) as [y Hy]; [lia|].
  rewrite (py_get_Some t p x Hx), (py_get_Some t i y Hy). cbn [mbind result_bind].
  assert (Z.of_nat i + 1 = Z.of_nat (S i)) as Hsi by lia.
  destruct (Z.eqb_spec x y) as [->|Hne].
  - destruct (scan_match _ _ _ _ _ _ _ Hinv ltac:(congruence)) as (q & Hq & Hinv').
    replace (Z.of_nat p + 1) with (Z.of_nat (S p)) by lia.
    replace (if Z.of_nat longest <=? Z.of_nat (S p) then _ else _) with
      (Z.of_nat (if decide (longest ≤ S p)%nat then S p else longest),
       Z.of_nat (if decide (longest ≤ S p)%nat then i else position)).
    2: { destruct (Z.leb_spec (Z.of_nat longest) (Z.of_nat (S p))), (decide (longest ≤ S p)%nat); done || lia. }
    rewrite store_border_Z by apply Hinv. cbn [mbind result_bind].
    assert ((if Z.of_nat (S p) =? Z.of_nat max
             then py_get (Z.of_nat <$> store_border lps i max (S p)) (Z.of_nat max - 1)
             else Ok (Z.of_nat (S p))) = Ok (Z.of_nat q)) as ->.
    { destruct (Z.eqb_spec (Z.of_nat (S p)) (Z.of_nat max)), (decide (S p = max)); try lia; [|by subst].
      replace (Z.of_nat max - 1) with (Z.of_nat (max - 1)) by lia. apply py_get_Some.
      by rewrite list_lookup_fmap, Hq. }
    cbn [mbind result_bind]. rewrite Hsi. apply IH; [done|lia|].
    assert (q ≤ S p)%nat; [|lia].
    destruct (decide (S p = max)); [|lia]. pose proof (sc_cap _ _ _ _ _ _ _ Hinv'). lia.
  - destruct (Z.eqb_spec (Z.of_nat p) 0) as [H0|H0]; simpl negb; cbv iota.
    + assert (p = 0%nat) as -> by lia. rewrite Hsi. apply IH; [|lia..].
      apply scan_restart; [done|congruence].
    + destruct (scan_fallback _ _ _ _ _ _ _ Hinv) as (q & Hq & ? & Hinv'); [congruence|lia|].
      replace (Z.of_nat p - 1) with (Z.of_nat (p - 1)) by lia.
      rewrite (py_get_Some _ _ (Z.of_nat q)) by (by rewrite list_lookup_fmap, Hq).
      cbn [mbind result_bind]. apply IH; [done|lia..].
Qed.

(** ** Trying all lengths and positions *)

(** The first position before the last [l] tokens where these occur. *)
Definition first_occurrence (o : list Z) (l : nat) : option nat :=
  head (filter (λ s, take l (drop s o) = drop (length o - l) o) (seq 0 (length o - l))).

(** The longest suffix of at most [lo + n - 1] and at least [lo] tokens that
    occurs before, with its first position. *)
Fixpoint longest_occurrence (o : list Z) (lo n : nat) : option (nat * nat) :=
  match n with
  | O => None
  | S n' =>
      match first_occurrence o (lo + n') with
      | Some s => Some ((lo + n')%nat, s)
      | None => longest_occurrence o lo n'
      end
  end.

(** What the proposer should draft. *)
Definition draft_reference (o : list Z) (lo hi k : Z) : list Z :=
  match longest_occurrence o (Z.to_nat lo) (Z.to_nat (hi - lo + 1)) with
  | Some (l, s) => take (Z.to_nat k) (drop (s + l) o)
  | None => []
  end.

(** [take l (drop s o)] are the last [l] tokens. *)
Lemma border_reverse o n l :
  (l < n)%nat → (n ≤ length o)%nat →
  border (reverse o) n l ↔ take l (drop (length o - n) o) = drop (length o - l) o.
Proof.
  intros ? ?. unfold border. split.
  - intros [_ Hj]. apply list_eq. intros j. destruct (decide (j < l)%nat).
    + rewrite lookup_take_lt, !lookup_drop by lia. specialize (Hj (l - 1 - j)%nat ltac:(lia)).
      rewrite !reverse_lookup in Hj by lia. etrans; [|etrans; [symmetry; apply Hj|]]; f_equal; lia.
    + rewrite lookup_take_ge by lia. symmetry. apply lookup_ge_None. rewrite length_drop. lia.
  - intros Heq. split; [done|]. intros j ?. rewrite !reverse_lookup by lia.
    apply (f_equal (lookup (l - 1 - j)%nat)) in Heq. rewrite lookup_take_lt, !lookup_drop in Heq by lia.
    etrans; [|etrans; [symmetry; apply Heq|]]; f_equal; lia.
Qed.

Lemma head_filter_seq (P : nat → Prop) `{∀ s, Decision (P s)} n : ∀ a s,
  (a ≤ s)%nat → (s < a + n)%nat → P s → (∀ s', (a ≤ s' < s)%nat → ¬ P s') → head (filter P (seq a n)) = Some s.
Proof.
  induction n as [|n IH]; intros a s ? ? HP Hmin; [lia|]. simpl. rewrite filter_cons.
  destruct (decide (s = a)) as [->|]; [by rewrite decide_True|].
  rewrite decide_False by (apply Hmin; lia). apply IH; [lia..|done|]. intros s' ?. apply Hmin. lia.
Qed.

Lemma first_occurrence_None o l :
  (∀ s, s < length o - l → take l (drop s o) ≠ drop (length o - l) o)%nat → first_occurrence o l = None.
Proof.
  intros Hn. unfold first_occurrence. destruct (filter _ _) as [|s l'] eqn:Hf; [done|].
  assert (s ∈ filter (λ s, take l (drop s o) = drop (length o - l) o) (seq 0 (length o - l))) as Hs.
  { rewrite Hf. by left. }
  apply list_elem_of_filter in Hs as [Hs [_ Hlt]%elem_of_seq]. exfalso. by apply (Hn s).
Qed.

Lemma longest_occurrence_None o lo n :
  (∀ l, lo ≤ l < lo + n → first_occurrence o l = None)%nat → longest_occurrence o lo n = None.
Proof. induction n as [|n IH]; intros Hl; [done|]. simpl. rewrite Hl by lia. apply IH. intros l ?. apply Hl. lia. Qed.

Lemma longest_occurrence_Some o lo n l s :
  (lo ≤ l < lo + n)%nat → first_occurrence o l = Some s →
  (∀ l', l < l' < lo + n → first_occurrence o l' = None)%nat → longest_occurrence o lo n = Some (l, s).
Proof.
  induction n as [|n IH]; intros ? Hs Hnone; [lia|]. simpl. destruct (decide (l = lo + n)%nat) as [->|].
  - by rewrite Hs.
  - rewrite Hnone by lia. apply IH; [lia|done|]. intros l' ?. apply Hnone. lia.
Qed.

(** The best border of the reversed context is the longest occurrence. *)
Lemma best_occurrence o lo hi L P :
  (0 < lo)%nat → best_border (reverse o) hi (length o) L P →
  longest_occurrence o lo (S hi - lo) = if decide (lo ≤ L)%nat then Some (L, length o - S P)%nat else None.
Proof.
  intros Hlo [Hle Hlast Hf].
  assert (∀ l, l ≤ hi → L < l → first_occurrence o l = None)%nat as Hnone.
  { intros l ? ?. apply first_occurrence_None. intros s ? Hs.
    assert (l ≤ L)%nat; [|lia]. apply (Hle (length o - s)%nat); [lia| |done].
    apply border_reverse; [lia..|]. rewrite <-Hs. do 2 f_equal. lia. }
  case_decide as HL; [|apply longest_occurrence_None; intros l ?; apply Hnone; lia].
  destruct Hf as (Hb & ? & ?); [lia|]. pose proof (proj1 Hb).
  apply longest_occurrence_Some; [lia| |intros l' ?; apply Hnone; lia].
  apply head_filter_seq; [lia..|by apply border_reverse|].
  intros s' ? Hs. assert (length o - s' ≤ S P)%nat; [|lia]. apply Hlast; [lia..|].
  apply border_reverse; [lia..|]. rewrite <-Hs. do 2 f_equal. lia.
Qed.

Lemma ngram_search_spec o lo hi max_len k :
  0 < lo → lo ≤ hi →
  _find_longest_matched_ngram_and_propose_tokens o lo hi max_len k =
    Ok (draft_reference o lo hi (Z.min k (max_len - py_len o))).
Proof.
  intros Hlo Hhi. unfold _find_longest_matched_ngram_and_propose_tokens, draft_reference.
  pose proof (py_len_nonneg o) as H0.
  destruct (decide (o = [])) as [->|Hne].
  { rewrite longest_occurrence_None by (intros l _; apply first_occurrence_None; simpl; lia).
    replace (py_len [] <? lo) with true; [done|]. symmetry. by apply Z.ltb_lt. }
  assert (0 < length o)%nat as Hlen by (destruct o; [done|simpl; lia]).
  destruct (ngram_loop_spec (S (2 * length o)) (reverse o) (Z.to_nat hi) 1 0 (replicate (Z.to_nat hi) 0%nat) 0 0)
    as (L & P & Hrun & Hbest); [apply scan_init; lia|rewrite length_reverse; lia..|].
  rewrite length_reverse in Hbest. pose proof (best_occurrence o (Z.to_nat lo) (Z.to_nat hi) L P ltac:(lia) Hbest) as Hocc.
  replace (S (Z.to_nat hi) - Z.to_nat lo)%nat with (Z.to_nat (hi - lo + 1)) in Hocc by lia. rewrite Hocc.
  destruct (Z.ltb_spec (py_len o) lo) as [Hshort|Hshort].
  { rewrite decide_False; [done|]. intros ?. destruct (bb_found _ _ _ _ _ Hbest) as ([? _] & _ & ?); [lia|].
    unfold py_len in *. lia. }
  destruct (Z.leb_spec (Z.min k (max_len - py_len o)) 0) as [Hk|Hk].
  { case_decide; [|done]. by rewrite Z2Nat.nonpos by lia. }
  unfold np_zeros. destruct (Z.ltb_spec hi 0); [lia|]. cbn [mbind result_bind].
  rewrite fmap_replicate, Z2Nat.id in Hrun by lia. unfold py_len in Hrun at 1. rewrite length_reverse in Hrun.
  change (Z.of_nat 0) with 0 in Hrun. change (Z.of_nat 1) with 1 in Hrun.
  unfold py_len. rewrite Hrun. cbn [mbind result_bind].
  destruct (Z.ltb_spec (Z.of_nat L) lo) as [HL|HL]; [by rewrite decide_False by lia|]. rewrite decide_True by lia.
  destruct (bb_found _ _ _ _ _ Hbest) as ([? _] & ? & ?); [lia|].
  unfold py_len in Hk. rewrite py_slice_nonneg by lia. f_equal.
  replace (Z.to_nat (Z.of_nat (length o) - 1 - Z.of_nat P + Z.of_nat L)) with (length o - S P + L)%nat by lia.
  set (m := Z.min k (max_len - Z.of_nat (length o))) in *.
  destruct (decide (Z.to_nat m ≤ length o - (length o - S P + L))%nat).
  - f_equal. lia.
  - rewrite !take_ge by (rewrite length_drop; lia). done.
Qed.

(** ** Batches *)

Lemma draft_reference_length o lo hi k : (length (draft_reference o lo hi k) ≤ Z.to_nat k)%nat.
Proof. unfold draft_reference. destruct (longest_occurrence _ _ _) as [[]|]; simpl; [rewrite length_take|]; lia. Qed.

(** The draft that the context of the [i]-th request calls for. *)
Definition request_draft (s : NgramProposer) (num_tokens_no_spec : list Z) (token_ids_cpu : list (list Z)) (k : Z)
    (i : nat) : list Z :=
  match num_tokens_no_spec !! i, token_ids_cpu !! i with
  | Some n, Some row =>
      draft_reference (take (Z.to_nat n) row) (min_n s) (max_n s) (Z.min k (ng_max_model_len s - n))
  | _, _ => []
  end.

(** The buffers have a row of [ngram_k] entries and a counter for each of the
    [n] sequences. *)
Record buffers_ok (n : nat) (s : NgramProposer) : Prop := {
  bo_min : 0 < min_n s;
  bo_max : min_n s ≤ max_n s;
  bo_drafts : length (valid_ngram_draft s) = n;
  bo_nums : length (valid_ngram_num_drafts s) = n;
  bo_rows : ∀ i row, valid_ngram_draft s !! i = Some row → length row = Z.to_nat (ngram_k s)
}.

(** The arrays of a batch describe [n] requests. *)
Definition batch_ok (num_tokens_no_spec : list Z) (token_ids_cpu : list (list Z)) (n : nat) : Prop :=
  ∀ i, (i < n)%nat → ∃ m row, num_tokens_no_spec !! i = Some m ∧ token_ids_cpu !! i = Some row ∧
    0 ≤ m ≤ py_len row.

Definition same_settings (s s' : NgramProposer) : Prop :=
  min_n s' = min_n s ∧ max_n s' = max_n s ∧ ngram_k s' = ngram_k s ∧ ng_max_model_len s' = ng_max_model_len s ∧
  num_tokens_threshold s' = num_tokens_threshold s ∧ num_numba_thread_available s' = num_numba_thread_available s ∧
  num_threads s' = num_threads s.

(** The buffers hold the draft [d] for request [i]. *)
Definition drafted (s : NgramProposer) (i : nat) (d : list Z) : Prop :=
  valid_ngram_num_drafts s !! i = Some (py_len d) ∧
  ∃ row, valid_ngram_draft s !! i = Some row ∧ take (length d) row = d.

Lemma same_settings_draft s s' nums rows k i :
  same_settings s s' → request_draft s' nums rows k i = request_draft s nums rows k i.
Proof. intros (H1 & H2 & _ & H3 & _). unfold request_draft. by rewrite H1, H2, H3. Qed.

Section Batch.
Context (n : nat) (nums : list Z) (rows : list (list Z)) (k : Z) (valid : list Z).
Hypothesis Hbatch : batch_ok nums rows n.

Lemma kernel_step_spec s j i :
  buffers_ok n s → k ≤ ngram_k s → valid !! j = Some (Z.of_nat i) → (i < n)%nat →
  ∃ s', kernel_step valid nums rows k s (Z.of_nat j) = Ok s' ∧ buffers_ok n s' ∧ same_settings s s' ∧
    drafted s' i (request_draft s nums rows k i) ∧
    (∀ i' d, i' ≠ i → drafted s i' d → drafted s' i' d).
Proof using Hbatch.
  intros [Hmin Hmax Hd Hn Hrows] Hk Hj Hi. destruct (Hbatch i Hi) as (m & row & Hm & Hrow & ?).
  unfold kernel_step, drafted, request_draft. rewrite Hm, Hrow.
  rewrite (py_get_Some _ _ _ Hj). cbn [mbind result_bind]. rewrite (py_get_Some _ _ _ Hm), (py_get_Some _ _ _ Hrow).
  cbn [mbind result_bind]. unfold py_upto. replace (slice_bound (py_len row) m) with m.
  2: { unfold slice_bound. destruct (Z.ltb_spec m 0); lia. }
  rewrite ngram_search_spec by done. cbn [mbind result_bind].
  replace (py_len (take (Z.to_nat m) row)) with m by (unfold py_len in *; rewrite length_take; lia).
  set (d := draft_reference _ _ _ _).
  assert (length d ≤ Z.to_nat (ngram_k s))%nat as Hlen.
  { etrans; [apply draft_reference_length|]. lia. }
  rewrite np_store_in by lia. cbn [mbind result_bind].
  destruct (lookup_lt_is_Some_2 (valid_ngram_draft s) i) as [old Hold]; [lia|].
  destruct (Z.eqb_spec (py_len d) 0) as [H0|H0].
  - eexists. split; [done|]. split; [split; simpl; rewrite ?length_insert; done|]. split; [done|]. simpl. split.
    + rewrite list_lookup_insert_eq by lia. split; [done|]. exists old. split; [done|].
      destruct d; [done|unfold py_len in H0; simpl in H0; lia].
    + intros i' d' Hne [Hn' Hd']. by rewrite list_lookup_insert_ne.
  - rewrite (py_get_Some _ _ _ Hold). cbn [mbind result_bind]. pose proof (Hrows i old Hold) as Hw.
    destruct (Z.ltb_spec (py_len old) (py_len d)); [unfold py_len in *; lia|].
    rewrite np_store_in by lia. cbn [mbind result_bind]. eexists. split; [done|]. split.
    { split; simpl; rewrite ?length_insert; try done. intros i' row' Hi'.
      apply list_lookup_insert_Some in Hi' as [(<- & <- & _)|[_ Hi']]; [|by eapply Hrows].
      rewrite length_app, length_drop. lia. }
    split; [done|]. simpl. split.
    + rewrite !list_lookup_insert_eq by lia. split; [done|]. eexists. split; [done|]. by rewrite take_app_length.
    + intros i' d' Hne [Hn' Hd']. by rewrite !list_lookup_insert_ne.
Qed.

(** The kernel drafts for all valid requests, in whatever order. *)
Lemma kernel_spec s order :
  buffers_ok n s → k ≤ ngram_k s →
  (∀ z, z ∈ order → ∃ j i, z = Z.of_nat j ∧ valid !! j = Some (Z.of_nat i) ∧ (i < n)%nat) →
  ∃ s', foldM (kernel_step valid nums rows k) s order = Ok s' ∧ buffers_ok n s' ∧ same_settings s s' ∧
    ∀ j i, Z.of_nat j ∈ order → valid !! j = Some (Z.of_nat i) → drafted s' i (request_draft s nums rows k i).
Proof using Hbatch.
  intros Hok Hk Hord.
  destruct (foldM_ind (kernel_step valid nums rows k)
    (λ done s', buffers_ok n s' ∧ same_settings s s' ∧
      ∀ j i, Z.of_nat j ∈ done → valid !! j = Some (Z.of_nat i) → drafted s' i (request_draft s nums rows k i))
    order s) as (s' & Hrun & H); [|intros dn z todo s1 Hl (Hok1 & Hset1 & Hdone)|by exists s'].
  - split; [done|]. split; [done|]. intros j i Hj. by apply elem_of_nil in Hj.
  - destruct (Hord z) as (j & i & -> & Hj & Hi); [rewrite Hl; set_solver|].
    destruct (kernel_step_spec s1 j i Hok1) as (s2 & Hrun & Hok2 & Hset2 & Hnew & Hold); [|done..|].
    { destruct Hset1 as (_ & _ & -> & _). done. }
    exists s2. split; [done|]. split; [done|]. split; [unfold same_settings in *; intuition congruence|].
    intros j' i' [Hj'|Hj']%elem_of_app Hv.
    + destruct (decide (i' = i)) as [->|Hne]; [|by apply Hold; [|eapply Hdone]].
      by rewrite (same_settings_draft s s1) in Hnew.
    + apply list_elem_of_singleton in Hj'. assert (j' = j) as -> by lia. assert (i' = i) as -> by (rewrite Hj in Hv; injection Hv; lia).
      by rewrite (same_settings_draft s s1) in Hnew.
Qed.
End Batch.

(** A request needs a proposal: it sampled a token and is not at the maximum
    length. *)
Definition needs_draft (max_model_len : Z) (nums : list Z) (sampled : list (list Z)) (base i : nat) : Prop :=
  ∃ ids m, sampled !! i = Some ids ∧ ids ≠ [] ∧ nums !! (base + i)%nat = Some m ∧ m < max_model_len.

Lemma select_requests_spec ml nums sampled : ∀ base,
  (base + length sampled ≤ length nums)%nat →
  ∃ v, select_requests ml (Z.of_nat base) sampled nums = Ok v ∧
    ∀ z, z ∈ v ↔ ∃ i, z = Z.of_nat (base + i) ∧ needs_draft ml nums sampled base i.
Proof.
  induction sampled as [|ids sampled IH]; intros base Hlen; simpl in *.
  - exists []. split; [done|]. intros z. split; [by intros ?%elem_of_nil|].
    by intros (i & _ & ids & m & H & _).
  - destruct (IH (S base)) as (v & Hv & Hin); [lia|].
    replace (Z.of_nat base + 1) with (Z.of_nat (S base)) by lia.
    assert (∀ z, z ∈ v ↔ ∃ i, z = Z.of_nat (base + S i) ∧ needs_draft ml nums (ids :: sampled) base (S i)) as Hin'.
    { intros z. rewrite Hin. unfold needs_draft. simpl. setoid_rewrite Nat.add_succ_r. done. }
    destruct (lookup_lt_is_Some_2 nums base) as [m Hm]; [lia|].
    assert (∀ z, (∃ i, z = Z.of_nat (base + i) ∧ needs_draft ml nums (ids :: sampled) base i) ↔
      z ∈ v ∨ z = Z.of_nat base ∧ ids ≠ [] ∧ m < ml) as Hsplit.
    { intros z. rewrite Hin'. split.
      - intros ([|i] & -> & H); [|by left; exists i]. right. destruct H as (? & ? & [= <-] & ? & Hm' & ?).
        rewrite Nat.add_0_r in *. split; [done|]. split; [done|]. congruence.
      - intros [(i & ? & ?)|(-> & ? & ?)]; [by exists (S i)|]. exists 0%nat. rewrite Nat.add_0_r. split; [done|].
        exists ids, m. rewrite Nat.add_0_r. done. }
    destruct (Z.eqb_spec (py_len ids) 0) as [He|He].
    + exists v. split; [done|]. intros z. rewrite Hsplit. destruct ids; [naive_solver|].
      unfold py_len in He. simpl in He. lia.
    + rewrite (py_get_Some _ _ _ Hm). cbn [mbind result_bind]. rewrite Hv. cbn [mbind result_bind].
      assert (ids ≠ []) by by intros ->.
      destruct (Z.leb_spec ml m); (eexists; split; [done|]); intros z; rewrite Hsplit; [naive_solver lia|].
      rewrite elem_of_cons. naive_solver.
Qed.

Lemma collect_draft_spec valid s i d :
  drafted s i d → collect_draft valid s (Z.of_nat i) = Ok (if decide (Z.of_nat i ∈ valid) then d else []).
Proof.
  intros [Hn (row & Hrow & Hd)]. unfold collect_draft. case_bool_decide; [|by rewrite decide_False].
  rewrite decide_True by done. rewrite (py_get_Some _ _ _ Hn). cbn [mbind result_bind].
  destruct (Z.ltb_spec 0 (py_len d)) as [H0|H0].
  - rewrite (py_get_Some _ _ _ Hrow). cbn [mbind result_bind]. f_equal. rewrite <-Hd at 2.
    unfold py_upto, slice_bound. pose proof (f_equal length Hd) as Hl. rewrite length_take in Hl.
    unfold py_len in *. destruct (Z.ltb_spec (Z.of_nat (length d)) 0); [lia|]. f_equal. lia.
  - destruct d; [done|]. unfold py_len in H0. simpl in H0. lia.
Qed.

Lemma collect_skipped valid s i : Z.of_nat i ∉ valid → collect_draft valid s (Z.of_nat i) = Ok [].
Proof. intros ?. unfold collect_draft. by rewrite bool_decide_false. Qed.

(** The drafts of a batch, request by request. *)
Definition batch_reference (s : NgramProposer) (k : Z) (sampled : list (list Z)) (nums : list Z) (rows : list (list Z))
    : list (list Z) :=
  imap (λ i ids, if bool_decide (ids = []) || (ng_max_model_len s <=? default 0 (nums !! i)) then []
                 else request_draft s nums rows k i) sampled.

Lemma collect_reference s s' k sampled nums rows valid :
  (length sampled ≤ length nums)%nat →
  (∀ z, z ∈ valid ↔ ∃ i, z = Z.of_nat i ∧ needs_draft (ng_max_model_len s) nums sampled 0 i) →
  (∀ i, Z.of_nat i ∈ valid → drafted s' i (request_draft s nums rows k i)) →
  mapM_ok (collect_draft valid s') (py_range 0 (py_len sampled)) = Ok (batch_reference s k sampled nums rows).
Proof.
  intros Hlen Hvalid Hdraft. apply mapM_ok_Forall2. apply Forall2_same_length_lookup. split.
  { unfold batch_reference, py_range, py_len. rewrite length_fmap, length_seq, length_imap. lia. }
  intros i z d Hz Hd. unfold py_range in Hz. rewrite list_lookup_fmap in Hz.
  apply fmap_Some in Hz as (j & Hj & ->). apply lookup_seq in Hj as [-> _].
  replace (0 + Z.of_nat (0 + i)) with (Z.of_nat i) by lia.
  unfold batch_reference in Hd. rewrite list_lookup_imap in Hd. apply fmap_Some in Hd as (ids & Hids & ->).
  pose proof (lookup_lt_Some _ _ _ Hids). destruct (lookup_lt_is_Some_2 nums i) as [m Hm]; [lia|].
  rewrite Hm. simpl.
  assert (Z.of_nat i ∈ valid ↔ ids ≠ [] ∧ m < ng_max_model_len s) as Hin.
  { rewrite Hvalid. unfold needs_draft. simpl. split.
    - intros (i' & He & ids' & m' & Hids' & ? & Hm' & ?). assert (i' = i) as -> by lia. naive_solver.
    - intros [? ?]. exists i. split; [done|]. by exists ids, m. }
  case_bool_decide as He; simpl; [by rewrite collect_skipped by naive_solver|].
  destruct (Z.leb_spec (ng_max_model_len s) m); [rewrite collect_skipped; [done|naive_solver lia]|].
  rewrite (collect_draft_spec _ _ _ (request_draft s nums rows k i)); [|apply Hdraft; naive_solver].
  rewrite decide_True by naive_solver. done.
Qed.

(** ** The proposer *)

(** C15: the capped Knuth-Morris-Pratt scan never raises, terminates, and returns
    what trying every length and position returns: of the n-grams of admissible
    length that end the context and occur before, the longest one is chosen, at
    its first occurrence, and the tokens that followed it are the draft, at most
    [k] of them and none beyond the maximum model length. *)
Theorem ngram_search_correct origin_tokens min_ngram max_ngram max_model_len k :
  0 < min_ngram → min_ngram ≤ max_ngram →
  _find_longest_matched_ngram_and_propose_tokens origin_tokens min_ngram max_ngram max_model_len k =
    Ok (draft_reference origin_tokens min_ngram max_ngram (Z.min k (max_model_len - py_len origin_tokens))).
Proof. apply ngram_search_spec. Qed.

(** a batch is served request by request: whatever the order in which the
    kernel runs its iterations and whatever earlier batches left in the
    buffers, a request that sampled a token and is below the maximum length
    gets the reference draft of its own context, every other request none; the
    settings, numba's thread count included, are as before. *)
Theorem propose_correct schedule k sampled nums rows s n :
  (∀ m, schedule m ≡ₚ py_range 0 m) →
  buffers_ok n s → batch_ok nums rows n → (length sampled ≤ n)%nat → k ≤ ngram_k s →
  ∃ s', propose schedule k sampled nums rows s = Ok (batch_reference s k sampled nums rows, s') ∧
    buffers_ok n s' ∧ same_settings s s'.
Proof.
  intros Hsched Hok Hbatch Hlen Hk. unfold propose.
  replace (k <=? ngram_k s) with true by (symmetry; by apply Z.leb_le). cbn [py_assert mbind result_bind].
  assert (length sampled ≤ length nums)%nat as Hnums.
  { destruct (decide (length sampled = 0)%nat); [lia|]. destruct (Hbatch (length sampled - 1)%nat) as (m & _ & Hm & _); [lia|].
    apply lookup_lt_Some in Hm. lia. }
  destruct (select_requests_spec (ng_max_model_len s) nums sampled 0) as (valid & Hv & Hvalid); [simpl; lia|].
  change (Z.of_nat 0) with 0 in Hv. rewrite Hv. cbn [mbind result_bind]. unfold batch_propose.
  destruct (Z.eqb_spec (py_len valid) 0) as [H0|H0].
  { destruct valid; [|unfold py_len in H0; simpl in H0; lia]. cbn [mbind result_bind].
    rewrite (collect_reference s s k sampled nums rows []); [|done..|by intros i ?%elem_of_nil].
    exists s. split; [done|]. split; [done|]. unfold same_settings. done. }
  set (s1 := if num_tokens_threshold s <=? sumZ nums then _ else _).
  assert (buffers_ok n s1 ∧ ngram_k s1 = ngram_k s ∧ ∀ i, request_draft s1 nums rows k i = request_draft s nums rows k i)
    as (Hok1 & Hk1 & Hd1).
  { unfold s1. destruct (_ <=? _); (split; [destruct Hok; by split|done]). }
  destruct (kernel_spec n nums rows k valid Hbatch s1 (schedule (py_len valid)) Hok1) as (s2 & Hrun & Hok2 & Hset2 & Hd2); [lia| |].
  { intros z Hz. rewrite (Hsched _), elem_of_py_range in Hz.
    destruct (lookup_lt_is_Some_2 valid (Z.to_nat z)) as [y Hy]; [unfold py_len in Hz; lia|].
    destruct (proj1 (Hvalid y) ltac:(by eapply list_elem_of_lookup_2)) as (i & -> & (ids & _ & Hi & _)).
    exists (Z.to_nat z), i. split; [lia|]. split; [done|]. apply lookup_lt_Some in Hi. lia. }
  unfold batch_propose_numba. rewrite Hrun. cbn [mbind result_bind].
  set (s3 := set_num_threads (num_threads s) s2).
  rewrite (collect_reference s s3 k sampled nums rows valid); [|done..|].
  - cbn [mbind result_bind]. exists s3. split; [done|]. split; [destruct Hok2; by split|].
    unfold same_settings in *. simpl. unfold s1 in Hset2. destruct (_ <=? _) in Hset2; simpl in Hset2; intuition.
  - intros i Hi. apply list_elem_of_lookup in Hi as [j Hj]. rewrite <-Hd1. apply (Hd2 j i); [|done].
    rewrite (Hsched _), elem_of_py_range. apply lookup_lt_Some in Hj. unfold py_len. lia.
Qed.

(** Without sampled tokens no request is selected, and the kernel does not run:
    its schedule is never asked for. *)
Lemma propose_idle schedule k m nums rows s :
  k ≤ ngram_k s → propose schedule k (replicate m []) nums rows s = Ok (replicate m [], s).
Proof.
  intros Hk. unfold propose. replace (k <=? ngram_k s) with true by (symmetry; by apply Z.leb_le).
  cbn [py_assert mbind result_bind].
  assert (∀ i, select_requests (ng_max_model_len s) i (replicate m []) nums = Ok []) as Hsel.
  { intros i. revert i. induction m as [|m IH]; intros i; [done|]. simpl. apply IH. }
  assert (mapM_ok (collect_draft [] s) (py_range 0 (py_len (replicate m (@nil Z)))) = Ok (replicate m [])) as Hc.
  { apply mapM_ok_Forall2. apply Forall2_same_length_lookup. split.
    { unfold py_range, py_len. rewrite length_fmap, length_seq, !length_replicate. lia. }
    intros i z d _ [-> _]%lookup_replicate. unfold collect_draft. by rewrite bool_decide_false by by intros ?%elem_of_nil. }
  rewrite Hsel. cbn [mbind result_bind]. unfold batch_propose. change (py_len [] =? 0) with true.
  cbn [mbind result_bind]. by rewrite Hc.
Qed.

(** A configuration the engine accepts. *)
Record ngram_config_ok (c : NgramConfig) : Prop := {
  nc_spec : has_speculative_config c = true;
  nc_sizes : 0 ≤ max_num_seqs c ∧ 0 ≤ num_speculative_tokens c ∧ 0 ≤ cfg_max_model_len c;
  nc_range : ∃ lo hi, prompt_lookup_min c = Some lo ∧ prompt_lookup_max c = Some hi ∧ 0 < lo ∧ lo ≤ hi
}.

Lemma new_ngram_proposer_spec schedule c cpu threads :
  ngram_config_ok c →
  ∃ s, new_ngram_proposer schedule c cpu threads = Ok s ∧ buffers_ok (Z.to_nat (max_num_seqs c)) s ∧
    ngram_k s = num_speculative_tokens c ∧ ng_max_model_len s = cfg_max_model_len c ∧ num_threads s = threads.
Proof.
  intros [Hspec (Hseqs & Hk & Hml) (lo & hi & Hlo & Hhi & ? & ?)]. unfold new_ngram_proposer.
  rewrite Hspec, Hlo, Hhi. cbn [py_assert unwrap mbind result_bind]. unfold np_zeros.
  destruct (Z.ltb_spec (max_num_seqs c) 0); [lia|]. destruct (Z.ltb_spec (num_speculative_tokens c) 0); [lia|].
  destruct (Z.ltb_spec (cfg_max_model_len c) 0); [lia|]. cbn [Z.ltb Z.compare mbind result_bind].
  rewrite propose_idle by done. cbn [mbind result_bind]. eexists. split; [done|]. split; [|done].
  split; simpl; [done..|by rewrite length_replicate|by rewrite length_replicate|].
  intros i row [-> _]%lookup_replicate. by rewrite length_replicate.
Qed.

(** ** Concrete runs *)

Definition demo_ngram_config : NgramConfig := {|
  has_speculative_config := true; prompt_lookup_min := Some 2; prompt_lookup_max := Some 3;
  num_speculative_tokens := 2; cfg_max_model_len := 16; max_num_seqs := 3; tensor_parallel_size := 1 |}.

Definition demo_ngram : NgramProposer :=
  match new_ngram_proposer (py_range 0) demo_ngram_config (Some 8) 4 with
  | Ok s => s
  | Err _ => set_num_threads 0 {| min_n := 0; max_n := 0; ngram_k := 0; ng_max_model_len := 0; valid_ngram_draft := [];
      valid_ngram_num_drafts := []; num_tokens_threshold := 0; num_numba_thread_available := 0; num_threads := 0 |}
  end.

Lemma demo_ngram_ok : buffers_ok 3 demo_ngram.
Proof.
  destruct (new_ngram_proposer_spec (py_range 0) demo_ngram_config (Some 8) 4) as (s & Hs & Hok & _).
  - split; [done|vm_compute; split_and!; by intros|]. exists 2, 3. done.
  - unfold demo_ngram. by rewrite Hs.
Qed.

Lemma ngram_search_correct_witness :
  0 < 2 ∧ 2 ≤ 3 ∧
  _find_longest_matched_ngram_and_propose_tokens [5; 1; 2; 3; 9; 2; 3; 7; 1; 2; 3] 2 3 16 2 = Ok [9; 2].
Proof.
  split; [lia|]. split; [lia|].
  rewrite (ngram_search_correct [5; 1; 2; 3; 9; 2; 3; 7; 1; 2; 3] 2 3 16 2) by lia. vm_compute. reflexivity.
Defined.

(** The kernel runs its iterations backwards. *)
Lemma propose_correct_witness :
  let sampled := [[3]; []; [4]] in
  let nums := [11; 2; 5] in
  let rows := [[5; 1; 2; 3; 9; 2; 3; 7; 1; 2; 3; 0; 0; 0; 0; 0]; replicate 16 0; [4; 4; 4; 4; 4; 0; 0; 0; 0; 0; 0; 0; 0; 0; 0; 0]] in
  buffers_ok 3 demo_ngram ∧ batch_ok nums rows 3 ∧
  ∃ s', propose (λ m, reverse (py_range 0 m)) 2 sampled nums rows demo_ngram =
    Ok ([[9; 2]; []; [4; 4]], s') ∧ num_threads s' = 4.
Proof.
  intros sampled nums rows.
  assert (batch_ok nums rows 3) as Hb.
  { intros [|[|[|i]]] ?; [eexists _, _; (split; [reflexivity|]); (split; [reflexivity|]); vm_compute; split; by intros ..|lia]. }
  split; [apply demo_ngram_ok|]. split; [done|].
  destruct (propose_correct (λ m, reverse (py_range 0 m)) 2 sampled nums rows demo_ngram 3) as (s' & Hrun & _ & Hset).
  - intros m. apply reverse_Permutation.
  - apply demo_ngram_ok.
  - done.
  - simpl. lia.
  - vm_compute. by intros.
  - exists s'. split; [rewrite Hrun; vm_compute; reflexivity|]. destruct Hset as (_ & _ & _ & _ & _ & _ & ->). vm_compute. reflexivity.
Defined.
