(* ===== verification/Detokenizer.v ===== *)
(** * Incremental detokenization

    [vllm/vllm/v1/engine/detokenizer.py] and [vllm/vllm/tokenizers/detokenizer_utils.py]:
    the text of a request grows token by token, stop strings end it, and the
    text is handed out as deltas, of which nothing may be taken back.

    A Python string is the list of its code points.  The tokenizer libraries are
    parameters: [DecodeStream] stands for the stream decoder of [tokenizers],
    [Tokenizer] for a [TokenizerLike].  The two detokenizers of the code are
    instances of one interface, [Decoder], against which the handling of text
    and stop strings is verified. *)

From S2P Require Import Prelude.
Local Open Scope Z_scope.

Abbreviation text := (list Z).

(** ** Stop strings *)

(** The first position from [i] on where [sub] occurs in the rest of a string. *)
Fixpoint find_at (i : nat) (rest sub : text) : option nat :=
  if decide (sub `prefix_of` rest) then Some i
  else match rest with [] => None | _ :: rest' => find_at (S i) rest' sub end.

(** [s.find(sub, start)] *)
Definition py_find (s sub : text) (start : Z) : Z :=
  let a := if start <? 0 then Z.max 0 (start + py_len s) else start in
  if py_len s <? a then -1
  else match find_at 0 (drop (Z.to_nat a) s) sub with
       | Some i => a + Z.of_nat i
       | None => -1
       end.

(** [sys.maxsize] *)
Definition maxsize : Z := 2 ^ 63 - 1.

(** [best_stop_str], [best_stop_index] and [best_end]. *)
Record BestStop := { best_stop_str : option text; best_stop_index : Z; best_end : Z }.

Definition stop_step (output_text : text) (new_char_count : Z) (b : BestStop) (stop_str : text) : BestStop :=
  let stop_string_len := py_len stop_str in
  let stop_index := py_find output_text stop_str (1 - new_char_count - stop_string_len) in
  if stop_index =? -1 then b
  else
    let end_ := stop_index + stop_string_len in
    if end_ <? best_end b then {| best_stop_str := Some stop_str; best_stop_index := stop_index; best_end := end_ |}
    else b.

Definition check_stop_strings (output_text : text) (new_char_count : Z) (stop : list text) (include_in_output : bool)
    : option (text * Z) :=
  if (new_char_count =? 0) || (py_len stop =? 0) then None
  else
    let b := foldl (stop_step output_text new_char_count)
               {| best_stop_str := None; best_stop_index := 0; best_end := maxsize |} stop in
    match best_stop_str b with
    | None => None
    | Some best =>
        if include_in_output then
          if py_len output_text <=? best_end b then Some (best, -1) else Some (best, best_end b)
        else Some (best, best_stop_index b)
    end.

(** ** The interface of a decoder

    [decode_next ids d] decodes the last of the token ids [ids]; [prompt_tokens]
    is the number of leading ids that belong to the prompt. *)
Class Decoder (D : Type) := {
  decode_next : list Z → Z → D → result (text * D);
  prompt_tokens : D → Z
}.

Record Detokenizer (D : Type) := mkDetokenizer {
  token_ids : list Z;
  stop : list text;
  dt_min_tokens : Z;
  include_stop_str_in_output : bool;
  stop_buffer_length : Z;
  last_output_text_offset : Z;
  output_text : text;
  decoder : D
}.
Arguments mkDetokenizer {D} _ _ _ _ _ _ _ _.
Arguments token_ids {D} _.
Arguments stop {D} _.
Arguments dt_min_tokens {D} _.
Arguments include_stop_str_in_output {D} _.
Arguments stop_buffer_length {D} _.
Arguments last_output_text_offset {D} _.
Arguments output_text {D} _.
Arguments decoder {D} _.

Section Incremental.
Context {D : Type} `{Decoder D}.

Definition set_text (ids : list Z) (t : text) (c : D) (d : Detokenizer D) : Detokenizer D :=
  mkDetokenizer ids (stop d) (dt_min_tokens d) (include_stop_str_in_output d) (stop_buffer_length d)
    (last_output_text_offset d) t c.

Definition set_offset (o : Z) (d : Detokenizer D) : Detokenizer D :=
  mkDetokenizer (token_ids d) (stop d) (dt_min_tokens d) (include_stop_str_in_output d) (stop_buffer_length d)
    o (output_text d) (decoder d).

Definition output_token_ids (d : Detokenizer D) : list Z :=
  let p := prompt_tokens (decoder d) in
  if p =? 0 then token_ids d else py_from (token_ids d) p.

Definition num_output_tokens (d : Detokenizer D) : Z := py_len (token_ids d) - prompt_tokens (decoder d).

(** The body of the loop over the new tokens; the second component is
    [stop_check_offset]. *)
Definition feed_token (s : Detokenizer D * Z) (new_token_id : Z) : result (Detokenizer D * Z) :=
  let '(d, stop_check_offset) := s in
  let ids := token_ids d ++ [new_token_id] in
  '(t, c) ← decode_next ids new_token_id (decoder d);
  let d := set_text ids (output_text d ++ t) c d in
  if negb (dt_min_tokens d =? 0) && (num_output_tokens d <=? dt_min_tokens d)
  then Ok (d, py_len (output_text d)) else Ok (d, stop_check_offset).

(** The stop check at the end of [update]. *)
Definition eval_stop (d : Detokenizer D) (stop_check_offset : Z) : option text * Detokenizer D :=
  if negb (py_len (stop d) =? 0) && (dt_min_tokens d <? num_output_tokens d) then
    match check_stop_strings (output_text d) (py_len (output_text d) - stop_check_offset) (stop d)
            (include_stop_str_in_output d) with
    | Some (stop_string, truncate_to) =>
        (Some stop_string,
         if negb (truncate_to =? -1)
         then set_text (token_ids d) (py_upto (output_text d) truncate_to) (decoder d) d else d)
    | None => (None, d)
    end
  else (None, d).

Definition update (new_token_ids : list Z) (stop_terminated : bool) (d : Detokenizer D)
    : result (option text * Detokenizer D) :=
  if py_len new_token_ids =? 0 then Ok (None, d)
  else
    '(new_token_ids, skipped_stop_token_id) ←
      (if stop_terminated && negb (include_stop_str_in_output d) then
         t ← py_get new_token_ids (-1);
         Ok (py_upto new_token_ids (-1), Some t)
       else Ok (new_token_ids, None));
    '(d, stop_check_offset) ← foldM feed_token (d, py_len (output_text d)) new_token_ids;
    let d := match skipped_stop_token_id with
             | Some t => set_text (token_ids d ++ [t]) (output_text d) (decoder d) d
             | None => d
             end in
    Ok (eval_stop d stop_check_offset).

Definition get_next_output_text (finished delta : bool) (d : Detokenizer D) : text * Detokenizer D :=
  let buffer_length := if finished then 0 else stop_buffer_length d in
  if negb delta then
    if buffer_length =? 0 then (output_text d, d)
    else (py_upto (output_text d) (- buffer_length), d)
  else
    let length := py_len (output_text d) - buffer_length in
    let last_offset := last_output_text_offset d in
    if last_offset <? length
    then (py_slice (output_text d) last_offset length, set_offset length d)
    else ([], d).
End Incremental.

(** The fields of a request and its sampling parameters that the detokenizer
    reads; [params_stop] is [None], a string or a list. *)
Inductive StopParam := NoStop | StopString (s : text) | StopList (l : list text).

Record DetokRequest := {
  params_stop : StopParam;
  params_min_tokens : Z;
  params_include_stop : bool;
  skip_special_tokens : bool;
  spaces_between_special_tokens : bool;
  rq_prompt_token_ids : option (list Z);
  prompt_embeds_len : option Z
}.

(** [BaseIncrementalDetokenizer.__init__] around a decoder. *)
Definition new_base {D} (r : DetokRequest) (c : D) : Detokenizer D :=
  let stop := match params_stop r with NoStop => [] | StopString s => [s] | StopList l => l end in
  let buffer :=
    match stop with
    | s :: l => if params_include_stop r then 0 else foldr Z.max (py_len s) (py_len <$> l) - 1
    | [] => 0
    end in
  mkDetokenizer [] stop (params_min_tokens r) (params_include_stop r) buffer 0 [] c.

(** ** The fast detokenizer *)

(** What a step of the stream decoder of [tokenizers] does: it returns a string
    or [None], or raises an overflow or type error, an error whose message
    starts with "Invalid prefix encountered", or another one. *)
Inductive step_outcome :=
  | Stepped (t : option text)
  | StepOverflow
  | StepInvalidPrefix
  | StepRaised (e : exn).

Class DecodeStream (S : Type) := {
  new_stream : option (list Z) → bool → S;
  stream_step : S → Z → step_outcome * S
}.

Record FastDecoder (S : Type) := mkFast {
  stream : S;
  fast_skip_special_tokens : bool;
  fast_spaces : bool;
  added_token_ids : list (Z * text);
  last_special : bool
}.
Arguments mkFast {S} _ _ _ _ _.
Arguments stream {S} _.
Arguments fast_skip_special_tokens {S} _.
Arguments fast_spaces {S} _.
Arguments added_token_ids {S} _.
Arguments last_special {S} _.

Section Fast.
Context {S : Type} `{DecodeStream S}.

Definition set_stream (s : S) (d : FastDecoder S) : FastDecoder S :=
  mkFast s (fast_skip_special_tokens d) (fast_spaces d) (added_token_ids d) (last_special d).

(** [FastIncrementalDetokenizer.__init__]; [added] are the added tokens of the
    tokenizer. *)
Definition new_fast (added : list (Z * text)) (r : DetokRequest) : FastDecoder S :=
  let spaces := skip_special_tokens r || spaces_between_special_tokens r in
  mkFast (new_stream (rq_prompt_token_ids r) (skip_special_tokens r)) (skip_special_tokens r)
    (if spaces then true else bool_decide (added = [])) (if spaces then [] else added) false.

Definition _protected_step (next_token_id : Z) (d : FastDecoder S) : result (option text * FastDecoder S) :=
  let '(o, s) := stream_step (stream d) next_token_id in
  match o with
  | Stepped t => Ok (t, set_stream s d)
  | StepOverflow => Ok (None, set_stream s d)
  | StepInvalidPrefix =>
      let '(o, s) := stream_step (new_stream None (fast_skip_special_tokens d)) next_token_id in
      match o with
      | Stepped t => Ok (t, set_stream s d)
      | StepOverflow => Err OverflowError
      | StepInvalidPrefix => Err RuntimeError
      | StepRaised e => Err e
      end
  | StepRaised e => Err e
  end.

Definition fast_decode_next (_ : list Z) (next_token_id : Z) (d : FastDecoder S) : result (text * FastDecoder S) :=
  '(token, d) ← _protected_step next_token_id d;
  if fast_spaces d then Ok (default [] token, d)
  else
    let special_token := od_get (added_token_ids d) next_token_id in
    let is_special := bool_decide (is_Some special_token) in
    let token := if is_special && last_special d then special_token else token in
    Ok (default [] token,
        mkFast (stream d) (fast_skip_special_tokens d) (fast_spaces d) (added_token_ids d) is_special).

#[export] Instance fast_decoder : Decoder (FastDecoder S) := {|
  decode_next := fast_decode_next;
  prompt_tokens := λ _, 0
|}.
End Fast.

(** ** The slow detokenizer *)

(** A tokenizer: [convert_ids_to_tokens] may return [None] for an id outside
    the vocabulary; [vocab] is [len(tokenizer)]. *)
Class Tokenizer := {
  vocab : Z;
  convert_ids_to_tokens : list Z → bool → list (option text);
  convert_tokens_to_string : list text → text;
  is_fast : bool;
  get_added_vocab : list text;
  all_special_tokens : list text
}.

Definition INITIAL_INCREMENTAL_DETOKENIZATION_OFFSET : Z := 5.

Definition _replace_none_with_empty (tokens : list (option text)) : list text := default [] <$> tokens.

(** [sep.join(l)] *)
Fixpoint py_join (sep : text) (l : list text) : text :=
  match l with
  | [] => []
  | [s] => s
  | s :: l' => s ++ sep ++ py_join sep l'
  end.

Section Slow.
Context `{Tokenizer}.

(** The loop over the tokens: [sub_texts] and [current_sub_text]. *)
Definition added_encoder_step (skip : list text) (s : list text * list text) (token : text)
    : list text * list text :=
  let '(sub_texts, current_sub_text) := s in
  if bool_decide (token ∈ skip) then s
  else if bool_decide (token ∈ get_added_vocab) then
    ((if py_len current_sub_text =? 0 then sub_texts
      else sub_texts ++ [convert_tokens_to_string current_sub_text]) ++ [token], [])
  else (sub_texts, current_sub_text ++ [token]).

Definition _convert_tokens_to_string_with_added_encoders (output_tokens : list text) (skip_special_tokens spaces : bool)
    : text :=
  let '(sub_texts, current_sub_text) :=
    foldl (added_encoder_step (if skip_special_tokens then all_special_tokens else [])) ([], []) output_tokens in
  let sub_texts := if py_len current_sub_text =? 0 then sub_texts
                   else sub_texts ++ [convert_tokens_to_string current_sub_text] in
  if spaces then py_join [32] sub_texts else py_join [] sub_texts.

Definition convert_prompt_ids_to_tokens (prompt_ids : list Z) (skip_special_tokens : bool) : list text * Z * Z :=
  let new_tokens :=
    convert_ids_to_tokens (py_from prompt_ids (- INITIAL_INCREMENTAL_DETOKENIZATION_OFFSET - 2)) skip_special_tokens in
  let read_offset := py_len new_tokens in
  let prefix_offset := Z.max (read_offset - INITIAL_INCREMENTAL_DETOKENIZATION_OFFSET) 0 in
  (_replace_none_with_empty new_tokens, prefix_offset, read_offset).

(** The text of some tokens, by one of the two conversions. *)
Definition tokens_text (skip spaces : bool) (tokens : list text) : text :=
  if is_fast || (py_len get_added_vocab =? 0) then convert_tokens_to_string tokens
  else _convert_tokens_to_string_with_added_encoders tokens skip spaces.

(** [detokenize_incrementally]: the new tokens, the new text and the offsets. *)
Definition detokenize_incrementally (all_input_ids : list Z) (prev_tokens : option (list text))
    (prefix_offset read_offset : Z) (skip_special_tokens spaces : bool) : result (list text * text * Z * Z) :=
  new_token_id ← py_get all_input_ids (-1);
  let is_first_iter := bool_decide (prev_tokens = None) in
  let '(prev_tokens, prefix_offset, read_offset) :=
    match prev_tokens with
    | None => convert_prompt_ids_to_tokens (py_upto all_input_ids (-1)) skip_special_tokens
    | Some l => (l, prefix_offset, read_offset)
    end in
  let new_tokens :=
    if (0 <=? new_token_id) && (new_token_id <? vocab)
    then _replace_none_with_empty (convert_ids_to_tokens [new_token_id] skip_special_tokens)
    else [[]] in
  let output_tokens := prev_tokens ++ new_tokens in
  let new_tokens := if is_first_iter then output_tokens else new_tokens in
  let prefix_text := tokens_text skip_special_tokens spaces (py_slice output_tokens prefix_offset read_offset) in
  let new_text := tokens_text skip_special_tokens spaces (py_from output_tokens prefix_offset) in
  if (py_len new_text <=? py_len prefix_text) || bool_decide (last new_text = Some 65533)
  then Ok (new_tokens, [], prefix_offset, read_offset)
  else Ok (new_tokens, py_from new_text (py_len prefix_text), read_offset, py_len output_tokens).
End Slow.

Record SlowDecoder := mkSlow {
  slow_prompt_len : Z;
  tokens : list text;
  prefix_offset : Z;
  read_offset : Z;
  slow_skip : bool;
  slow_spaces : bool
}.

(** [vllm.utils.length_from_prompt_token_ids_or_embeds] *)
Definition length_from_prompt_token_ids_or_embeds (ids : option (list Z)) (embeds : option Z) : result Z :=
  match ids, embeds with
  | None, None => Err ValueError
  | None, Some n => Ok n
  | Some l, Some n => if negb (n =? py_len l) then Err ValueError else Ok (py_len l)
  | Some l, None => Ok (py_len l)
  end.

Section SlowDetokenizer.
Context `{Tokenizer}.

Definition slow_decode_next (all_input_ids : list Z) (_ : Z) (d : SlowDecoder) : result (text * SlowDecoder) :=
  '(new_tokens, decoded_text, p, r) ←
    detokenize_incrementally all_input_ids (Some (tokens d)) (prefix_offset d) (read_offset d) (slow_skip d) (slow_spaces d);
  Ok (decoded_text, mkSlow (slow_prompt_len d) (tokens d ++ new_tokens) p r (slow_skip d) (slow_spaces d)).

#[export] Instance slow_decoder : Decoder SlowDecoder := {|
  decode_next := slow_decode_next;
  prompt_tokens := slow_prompt_len
|}.

(** [SlowIncrementalDetokenizer.__init__] *)
Definition new_slow (r : DetokRequest) : result (Detokenizer SlowDecoder) :=
  n ← length_from_prompt_token_ids_or_embeds (rq_prompt_token_ids r) (prompt_embeds_len r);
  let '(toks, p, ro) :=
    match rq_prompt_token_ids r with
    | Some ids => convert_prompt_ids_to_tokens ids (skip_special_tokens r)
    | None => (replicate (Z.to_nat n) [], 0, 0)
    end in
  let d := new_base r (mkSlow n toks p ro (skip_special_tokens r) (spaces_between_special_tokens r)) in
  let ids := match rq_prompt_token_ids r with
             | Some (t :: l) => t :: l
             | _ => replicate (Z.to_nat n) 0
             end in
  Ok (set_text (token_ids d ++ ids) (output_text d) (decoder d) d).
End SlowDetokenizer.

(** ** The detokenizer of a request *)

(** Without a tokenizer only the token ids are kept. *)
Inductive IncrementalDetokenizer (S : Type) :=
  | NoTokenizer (ids : list Z)
  | FastIncrementalDetokenizer (d : Detokenizer (FastDecoder S))
  | SlowIncrementalDetokenizer (d : Detokenizer SlowDecoder).
Arguments NoTokenizer {S} _.
Arguments FastIncrementalDetokenizer {S} _.
Arguments SlowIncrementalDetokenizer {S} _.

(** The tokenizer of a request: none, one with a backend of the [tokenizers]
    library whose stream decoder can be used, or another one. *)
Inductive TokenizerKind :=
  | NoTok
  | FastTok (added : list (Z * text))
  | SlowTok.

Definition from_new_request {S} `{DecodeStream S} `{Tokenizer} (k : TokenizerKind) (r : DetokRequest)
    : result (IncrementalDetokenizer S) :=
  match k with
  | NoTok => Ok (NoTokenizer [])
  | FastTok added => Ok (FastIncrementalDetokenizer (new_base r (new_fast added r)))
  | SlowTok => d ← new_slow r; Ok (SlowIncrementalDetokenizer d)
  end.

Section Dispatch.
Context {S : Type} `{DecodeStream S} `{Tokenizer}.

Definition detok_update (new_token_ids : list Z) (stop_terminated : bool) (d : IncrementalDetokenizer S)
    : result (option text * IncrementalDetokenizer S) :=
  match d with
  | NoTokenizer ids => Ok (None, NoTokenizer (ids ++ new_token_ids))
  | FastIncrementalDetokenizer d =>
      '(s, d) ← update new_token_ids stop_terminated d; Ok (s, FastIncrementalDetokenizer d)
  | SlowIncrementalDetokenizer d =>
      '(s, d) ← update new_token_ids stop_terminated d; Ok (s, SlowIncrementalDetokenizer d)
  end.

Definition detok_next_text (finished delta : bool) (d : IncrementalDetokenizer S)
    : text * IncrementalDetokenizer S :=
  match d with
  | NoTokenizer ids => ([], NoTokenizer ids)
  | FastIncrementalDetokenizer d =>
      let '(t, d) := get_next_output_text finished delta d in (t, FastIncrementalDetokenizer d)
  | SlowIncrementalDetokenizer d =>
      let '(t, d) := get_next_output_text finished delta d in (t, SlowIncrementalDetokenizer d)
  end.

Definition detok_output_token_ids (d : IncrementalDetokenizer S) : list Z :=
  match d with
  | NoTokenizer ids => ids
  | FastIncrementalDetokenizer d => output_token_ids d
  | SlowIncrementalDetokenizer d => output_token_ids d
  end.

Definition detok_num_output_tokens (d : IncrementalDetokenizer S) : Z :=
  match d with
  | NoTokenizer ids => py_len ids
  | FastIncrementalDetokenizer d => num_output_tokens d
  | SlowIncrementalDetokenizer d => num_output_tokens d
  end.
End Dispatch.

(** ** Where stop strings end *)

(** The first stop string, in the order of the list, that ends at position [e]. *)
Definition stop_at (t : text) (stop : list text) (e : nat) : option text :=
  head (filter (λ s, s `suffix_of` take e t) stop).

(** The first of the positions [e, e + n) where a stop string ends. *)
Fixpoint first_stop (t : text) (stop : list text) (e n : nat) : option (text * nat) :=
  match n with
  | O => None
  | S n' =>
      match stop_at t stop e with
      | Some s => Some (s, e)
      | None => first_stop t stop (S e) n'
      end
  end.

(** The stop string that completes first after the first [old] characters. *)
Definition stop_reference (t : text) (stop : list text) (old : nat) : option (text * nat) :=
  first_stop t stop (S old) (length t - old).

Lemma stop_at_app t l1 l2 e :
  stop_at t (l1 ++ l2) e = match stop_at t l1 e with Some s => Some s | None => stop_at t l2 e end.
Proof. unfold stop_at. rewrite filter_app. by destruct (filter _ l1). Qed.

Lemma stop_at_Some t stop e s : stop_at t stop e = Some s → s ∈ stop ∧ s `suffix_of` take e t.
Proof.
  unfold stop_at. intros Hh. assert (s ∈ filter (λ s, s `suffix_of` take e t) stop) as Hs.
  { destruct (filter _ _); [done|]. injection Hh as ->. by left. }
  apply list_elem_of_filter in Hs. tauto.
Qed.

Lemma first_stop_Some t stop n : ∀ e s e',
  first_stop t stop e n = Some (s, e') ↔
  (e ≤ e' < e + n)%nat ∧ stop_at t stop e' = Some s ∧ ∀ k, (e ≤ k < e')%nat → stop_at t stop k = None.
Proof.
  induction n as [|n IH]; intros e s e'; simpl; [split; [done|lia]|].
  destruct (stop_at t stop e) as [s0|] eqn:Hs0.
  - split.
    + intros [= <- <-]. split; [lia|]. split; [done|lia].
    + intros (? & Hs & Hk). destruct (decide (e' = e)) as [->|]; [congruence|].
      rewrite Hk in Hs0 by lia. done.
  - rewrite IH. split; intros (? & Hs & Hk).
    + split; [lia|]. split; [done|]. intros k ?. destruct (decide (k = e)) as [->|]; [done|]. apply Hk. lia.
    + destruct (decide (e' = e)) as [->|]; [congruence|]. split; [lia|]. split; [done|]. intros k ?. apply Hk. lia.
Qed.

Lemma first_stop_None t stop n : ∀ e,
  first_stop t stop e n = None ↔ ∀ k, (e ≤ k < e + n)%nat → stop_at t stop k = None.
Proof.
  induction n as [|n IH]; intros e; simpl; [split; [lia|done]|].
  destruct (stop_at t stop e) as [s0|] eqn:Hs0.
  - split; [done|]. intros Hk. rewrite Hk in Hs0 by lia. done.
  - rewrite IH. split; intros Hk k ?; [|apply Hk; lia].
    destruct (decide (k = e)) as [->|]; [done|]. apply Hk. lia.
Qed.

Lemma reference_Some t stop old s e :
  stop_reference t stop old = Some (s, e) ↔
  (old < e ≤ length t)%nat ∧ stop_at t stop e = Some s ∧ ∀ k, (old < k < e)%nat → stop_at t stop k = None.
Proof.
  unfold stop_reference. rewrite first_stop_Some. split; intros (? & Hs & Hk).
  - split; [lia|]. split; [done|]. intros k ?. apply Hk. lia.
  - split; [lia|]. split; [done|]. intros k ?. apply Hk. lia.
Qed.

Lemma reference_None t stop old :
  stop_reference t stop old = None ↔ ∀ k, (old < k ≤ length t)%nat → stop_at t stop k = None.
Proof.
  unfold stop_reference. rewrite first_stop_None. split; intros Hk k ?; apply Hk; lia.
Qed.

(** ** The search for one stop string *)

Lemma find_at_spec rest sub : ∀ i,
  match find_at i rest sub with
  | Some j => ∃ k, j = (i + k)%nat ∧ sub `prefix_of` drop k rest ∧ ∀ k', (k' < k)%nat → ¬ sub `prefix_of` drop k' rest
  | None => ∀ k, ¬ sub `prefix_of` drop k rest
  end.
Proof.
  induction rest as [|x rest IH]; intros i; simpl; case_decide as Hp.
  - exists 0%nat. split; [lia|]. split; [done|lia].
  - intros k. by rewrite drop_nil.
  - exists 0%nat. split; [lia|]. split; [done|lia].
  - specialize (IH (S i)). destruct (find_at (S i) rest sub) as [j|].
    + destruct IH as (k & -> & Hk & Hmin). exists (S k). split; [lia|]. split; [done|].
      intros [|k'] ?; simpl; [done|]. apply Hmin. lia.
    + intros [|k]; simpl; [done|apply IH].
Qed.

Lemma occurrence_end (t s : text) e :
  (e ≤ length t)%nat → s `suffix_of` take e t ↔ (length s ≤ e)%nat ∧ s `prefix_of` drop (e - length s) t.
Proof.
  intros He. split.
  - intros [a Ha]. pose proof (f_equal length Ha) as Hl. rewrite length_take, length_app in Hl.
    split; [lia|]. replace (e - length s)%nat with (length a) by lia.
    exists (drop e t). rewrite <-(take_drop e t) at 1. rewrite Ha, <-(assoc_L (++)). by rewrite drop_app_length.
  - intros [Hl [r Hr]]. exists (take (e - length s) t).
    rewrite <-(take_drop (e - length s) t) at 1. rewrite Hr.
    replace e with (length (take (e - length s) t ++ s)) at 1 by (rewrite length_app, length_take; lia).
    rewrite (assoc_L (++)). by rewrite take_app_length.
Qed.

(** Searching from just before the new characters finds the first occurrence
    that ends in them. *)
Lemma find_new t s old :
  s ≠ [] → (old < length t)%nat →
  let i := py_find t s (1 - (py_len t - Z.of_nat old) - py_len s) in
  (∃ e, (old < e ≤ length t)%nat ∧ s `suffix_of` take e t ∧
     (∀ k, (old < k < e)%nat → ¬ s `suffix_of` take k t) ∧ i = Z.of_nat e - py_len s ∧ 0 ≤ i) ∨
  ((∀ k, (old < k ≤ length t)%nat → ¬ s `suffix_of` take k t) ∧ i = -1).
Proof.
  intros Hs Hold i. unfold i, py_find, py_len. clear i.
  assert (0 < length s)%nat by (destruct s; [done|simpl; lia]).
  destruct (Z.ltb_spec (1 - (Z.of_nat (length t) - Z.of_nat old) - Z.of_nat (length s)) 0); [|lia].
  set (a := (S old - length s)%nat).
  replace (Z.max 0 _) with (Z.of_nat a) by lia.
  destruct (Z.ltb_spec (Z.of_nat (length t)) (Z.of_nat a)); [lia|]. rewrite Nat2Z.id.
  pose proof (find_at_spec (drop a t) s 0) as Hf. destruct (find_at 0 (drop a t) s) as [j|].
  - left. destruct Hf as (k & -> & Hk & Hmin). rewrite drop_drop in Hk. exists (a + k + length s)%nat.
    pose proof (prefix_length _ _ Hk) as Hlen. rewrite length_drop in Hlen.
    split; [lia|]. split.
    { apply occurrence_end; [lia|]. split; [lia|]. by replace (a + k + length s - length s)%nat with (a + k)%nat by lia. }
    split; [|lia]. intros k' ? Hk'. apply occurrence_end in Hk' as [? Hk']; [|lia].
    apply (Hmin (k' - length s - a)%nat); [lia|]. rewrite drop_drop.
    by replace (a + (k' - length s - a))%nat with (k' - length s)%nat by lia.
  - right. split; [|done]. intros k ? Hk. apply occurrence_end in Hk as [? Hk]; [|lia].
    apply (Hf (k - length s - a)%nat). rewrite drop_drop.
    by replace (a + (k - length s - a))%nat with (k - length s)%nat by lia.
Qed.

(** The variables of the loop that stand for the best stop string so far. *)
Definition best_of (r : option (text * nat)) : BestStop :=
  match r with
  | Some (s, e) => {| best_stop_str := Some s; best_stop_index := Z.of_nat e - py_len s; best_end := Z.of_nat e |}
  | None => {| best_stop_str := None; best_stop_index := 0; best_end := maxsize |}
  end.

Lemma stop_step_spec t old done s :
  s ≠ [] → (old < length t)%nat → py_len t < maxsize →
  stop_step t (py_len t - Z.of_nat old) (best_of (stop_reference t done old)) s =
    best_of (stop_reference t (done ++ [s]) old).
Proof.
  intros Hs Hold Hmax. unfold stop_step. unfold py_len in Hmax.
  assert (∀ e, stop_at t (done ++ [s]) e =
    match stop_at t done e with Some x => Some x | None => if decide (s `suffix_of` take e t) then Some s else None end) as Happ.
  { intros e. rewrite stop_at_app. unfold stop_at at 2. rewrite filter_cons, filter_nil. by case_decide. }
  destruct (find_new t s old Hs Hold) as [(e & He & Hse & Hmin & -> & Hi)|[Hno ->]].
  - destruct (Z.eqb_spec (Z.of_nat e - py_len s) (-1)); [lia|].
    replace (Z.of_nat e - py_len s + py_len s) with (Z.of_nat e) by lia.
    destruct (stop_reference t done old) as [[s0 e0]|] eqn:Hr; simpl.
    + apply reference_Some in Hr as (? & Hs0 & Hk). destruct (Z.ltb_spec (Z.of_nat e) (Z.of_nat e0)).
      * rewrite (proj2 (reference_Some _ _ _ s e)); [done|]. split; [lia|]. split.
        { rewrite Happ, Hk by lia. by rewrite decide_True. }
        intros k ?. rewrite Happ, Hk by lia. rewrite decide_False; [done|]. apply Hmin. lia.
      * rewrite (proj2 (reference_Some _ _ _ s0 e0)); [done|]. split; [lia|]. split; [by rewrite Happ, Hs0|].
        intros k ?. rewrite Happ, Hk by lia. rewrite decide_False; [done|]. apply Hmin. lia.
    + rewrite reference_None in Hr. destruct (Z.ltb_spec (Z.of_nat e) maxsize); [|lia].
      rewrite (proj2 (reference_Some _ _ _ s e)); [done|]. split; [lia|]. split.
      { rewrite Happ, Hr by lia. by rewrite decide_True. }
      intros k ?. rewrite Happ, Hr by lia. rewrite decide_False; [done|]. apply Hmin. lia.
  - simpl. replace (stop_reference t (done ++ [s]) old) with (stop_reference t done old); [done|].
    assert (∀ k, (old < k ≤ length t)%nat → stop_at t (done ++ [s]) k = stop_at t done k) as Heq.
    { intros k ?. rewrite Happ. destruct (stop_at t done k); [done|]. rewrite decide_False; [done|]. by apply Hno. }
    symmetry. destruct (stop_reference t done old) as [[s0 e0]|] eqn:Hr.
    + apply reference_Some in Hr as (? & ? & Hk). apply reference_Some. split; [done|].
      split; [by rewrite Heq by lia|]. intros k ?. rewrite Heq by lia. apply Hk. lia.
    + apply reference_None. rewrite reference_None in Hr. intros k ?. rewrite Heq by lia. by apply Hr.
Qed.

Lemma stop_loop_spec t old stop :
  Forall (λ s, s ≠ []) stop → (old < length t)%nat → py_len t < maxsize →
  foldl (stop_step t (py_len t - Z.of_nat old)) (best_of None) stop = best_of (stop_reference t stop old).
Proof.
  intros Hne Hold Hmax. induction stop as [|s stop IH] using rev_ind.
  - simpl. by rewrite (proj2 (reference_None _ _ _)).
  - apply Forall_app in Hne as [Hne [Hs _]%Forall_cons].
    rewrite foldl_app. cbn [foldl]. rewrite (IH Hne). by apply stop_step_spec.
Qed.

(** How the text is cut at a stop string that ends at [e]. *)
Definition cut_at (t : text) (include : bool) (s : text) (e : nat) : Z :=
  if include then if (length t <=? e)%nat then -1 else Z.of_nat e else Z.of_nat (e - length s).

Lemma check_stop_spec t old stop include :
  Forall (λ s, s ≠ []) stop → (old ≤ length t)%nat → py_len t < maxsize →
  check_stop_strings t (py_len t - Z.of_nat old) stop include =
    match stop_reference t stop old with
    | Some (s, e) => Some (s, cut_at t include s e)
    | None => None
    end.
Proof.
  intros Hne Hold Hmax. unfold check_stop_strings.
  destruct (Z.eqb_spec (py_len t - Z.of_nat old) 0) as [H0|H0].
  { rewrite (proj2 (reference_None _ _ _)); [done|]. unfold py_len in H0. lia. }
  destruct (Z.eqb_spec (py_len stop) 0) as [Hs|Hs].
  { destruct stop; [|unfold py_len in Hs; simpl in Hs; lia]. by rewrite (proj2 (reference_None _ _ _)). }
  cbn [orb]. pose proof (stop_loop_spec t old stop Hne ltac:(unfold py_len in H0; lia) Hmax) as Hl.
  change (best_of None) with {| best_stop_str := None; best_stop_index := 0; best_end := maxsize |} in Hl.
  rewrite Hl. clear Hl.
  destruct (stop_reference t stop old) as [[s e]|] eqn:Hr; [|done]. simpl.
  apply reference_Some in Hr as (He & Hs0 & _). apply stop_at_Some in Hs0 as [_ Hs0].
  apply occurrence_end in Hs0 as [? _]; [|lia]. unfold cut_at, py_len. destruct include; [|do 2 f_equal; lia].
  destruct (Z.leb_spec (Z.of_nat (length t)) (Z.of_nat e)), (Nat.leb_spec (length t) e); done || lia.
Qed.

(** Whatever the length of the text, a reported stop string ends in the new
    characters, and the cut is at its start or end. *)
Lemma stop_loop_sound t old stop s :
  Forall (λ s, s ≠ []) stop → (old < length t)%nat →
  let b := foldl (stop_step t (py_len t - Z.of_nat old)) (best_of None) stop in
  best_stop_str b = Some s →
  s ∈ stop ∧ ∃ e, (old < e ≤ length t)%nat ∧ (length s ≤ e)%nat ∧
    best_stop_index b = Z.of_nat e - py_len s ∧ best_end b = Z.of_nat e.
Proof.
  intros Hne Hold. induction stop as [|s1 stop IH] using rev_ind; [done|].
  apply Forall_app in Hne as [Hne [Hs1 _]%Forall_cons]. rewrite foldl_app. cbn [foldl].
  specialize (IH Hne). set (b := foldl _ _ stop) in *. cbv zeta in IH |- *. intros Hb.
  assert (best_stop_str b = Some s → s ∈ stop ++ [s1] ∧ ∃ e, (old < e ≤ length t)%nat ∧ (length s ≤ e)%nat ∧
    best_stop_index b = Z.of_nat e - py_len s ∧ best_end b = Z.of_nat e) as Hkeep.
  { intros H. apply IH in H as [? ?]. split; [set_solver|done]. }
  revert Hb. unfold stop_step.
  destruct (find_new t s1 old Hs1 Hold) as [(e & He & Hse & _ & -> & Hi)|[_ ->]]; [|done].
  destruct (Z.eqb_spec (Z.of_nat e - py_len s1) (-1)); [done|].
  destruct (_ <? best_end b); [|done]. cbn [best_stop_str best_stop_index best_end]. intros [= <-].
  split; [set_solver|]. exists e. apply occurrence_end in Hse as [? _]; [|lia]. split_and!; [lia..|done|lia].
Qed.

Lemma check_stop_sound t old stop include s k :
  Forall (λ s, s ≠ []) stop → (old ≤ length t)%nat →
  check_stop_strings t (py_len t - Z.of_nat old) stop include = Some (s, k) →
  s ∈ stop ∧ ∃ e, (old < e ≤ length t)%nat ∧ (length s ≤ e)%nat ∧ k = cut_at t include s e.
Proof.
  intros Hne Hold. unfold check_stop_strings.
  destruct (Z.eqb_spec (py_len t - Z.of_nat old) 0) as [H0|H0]; [done|].
  destruct (Z.eqb_spec (py_len stop) 0); [done|]. cbn [orb].
  assert (old < length t)%nat as Hlt by (unfold py_len in H0; lia).
  pose proof (stop_loop_sound t old stop) as Hl.
  change (best_of None) with {| best_stop_str := None; best_stop_index := 0; best_end := maxsize |} in Hl.
  set (b := foldl _ _ stop) in *. destruct (best_stop_str b) as [s0|] eqn:Hb; [|done].
  destruct (Hl s0 Hne Hlt) as (Hin & e & He & Hle & Hi & Hend); [done|]. rewrite Hi, Hend. unfold cut_at, py_len in *.
  destruct include.
  - destruct (Z.leb_spec (Z.of_nat (length t)) (Z.of_nat e)), (Nat.leb_spec (length t) e); try lia;
      intros [= <- <-]; (split; [done|]); exists e; (split; [done|]); (split; [done|]); destruct (Nat.leb_spec (length t) e); lia.
  - intros [= <- <-]. split; [done|]. exists e. split; [done|]. split; [done|]. lia.
Qed.

(** ** Text that was handed out stays *)

Section Streaming.
Context {D : Type} `{Decoder D}.
Implicit Types d : Detokenizer D.

(** What no operation but construction changes. *)
Definition same_params d d' : Prop :=
  stop d' = stop d ∧ dt_min_tokens d' = dt_min_tokens d ∧
  include_stop_str_in_output d' = include_stop_str_in_output d ∧
  stop_buffer_length d' = stop_buffer_length d.

(** The text that was handed out. *)
Definition sent_text d : text := take (Z.to_nat (last_output_text_offset d)) (output_text d).

(** The buffer holds back what a stop string may still take away. *)
Record det_inv d : Prop := {
  di_stop : Forall (λ s, s ≠ []) (stop d);
  di_buffer : 0 ≤ stop_buffer_length d;
  di_covers : include_stop_str_in_output d = false → ∀ s, s ∈ stop d → py_len s ≤ stop_buffer_length d + 1;
  di_offset : 0 ≤ last_output_text_offset d;
  di_sent : last_output_text_offset d = 0 ∨ last_output_text_offset d ≤ py_len (output_text d) - stop_buffer_length d
}.

Lemma same_params_refl d : same_params d d.
Proof. by unfold same_params. Qed.

Lemma same_params_trans d1 d2 d3 : same_params d1 d2 → same_params d2 d3 → same_params d1 d3.
Proof. unfold same_params. intuition congruence. Qed.

Lemma feed_tokens_spec l : ∀ d off d' off',
  foldM feed_token (d, off) l = Ok (d', off') →
  token_ids d' = token_ids d ++ l ∧ same_params d d' ∧ last_output_text_offset d' = last_output_text_offset d ∧
  output_text d `prefix_of` output_text d' ∧
  (off' = off ∨ py_len (output_text d) ≤ off' ≤ py_len (output_text d')).
Proof.
  induction l as [|t l IH]; intros d off d' off'; cbn [foldM].
  - intros [= <- <-]. rewrite app_nil_r. split_and!; [done|apply same_params_refl|done..|by left].
  - intros Hrun. apply bind_Ok in Hrun as ([d1 off1] & H1 & H2).
    apply IH in H2 as (Hids & Hpar & Hoff & Hpre & Hchk). unfold feed_token in H1.
    apply bind_Ok in H1 as ([x c] & Hx & H1). 
    assert (d1 = set_text (token_ids d ++ [t]) (output_text d ++ x) c d ∧
      (off1 = off ∨ off1 = py_len (output_text d ++ x))) as [-> Hoff1].
    { destruct (negb _ && _); injection H1 as <- <-; auto. }
    cbn [token_ids output_text last_output_text_offset set_text] in *.
    assert (output_text d `prefix_of` output_text d ++ x) as Hpx by by apply prefix_app_r.
    pose proof (prefix_length _ _ Hpre) as Hlp. pose proof (prefix_length _ _ Hpx) as Hlx.
    split; [by rewrite Hids, <-(assoc_L (++))|]. split; [done|]. split; [done|].
    split; [by etrans|]. unfold py_len in *. destruct Hchk as [->|], Hoff1 as [->| ->]; [by left|right; lia..].
Qed.

Lemma eval_stop_spec d old r d' :
  Forall (λ s, s ≠ []) (stop d) → 0 ≤ old ≤ py_len (output_text d) →
  eval_stop d old = (r, d') →
  same_params d d' ∧ last_output_text_offset d' = last_output_text_offset d ∧ token_ids d' = token_ids d ∧
  match r with
  | None => d' = d
  | Some s => s ∈ stop d ∧ ∃ e, (Z.to_nat old < e ≤ length (output_text d))%nat ∧ (length s ≤ e)%nat ∧
      output_text d' = take (if include_stop_str_in_output d then e else (e - length s)%nat) (output_text d)
  end.
Proof.
  intros Hne Hold. unfold eval_stop.
  destruct (negb _ && _); [|intros [= <- <-]; by split; [apply same_params_refl|]].
  replace old with (Z.of_nat (Z.to_nat old)) at 1 by lia.
  destruct (check_stop_strings _ _ _ _) as [[s k]|] eqn:Hc; intros [= <- <-]; [|by split; [apply same_params_refl|]].
  apply check_stop_sound in Hc as (Hin & e & He & Hle & ->); [|done|unfold py_len in Hold; lia].
  assert (∀ (b : bool) (t : text), same_params d (if b then set_text (token_ids d) t (decoder d) d else d) ∧
    last_output_text_offset (if b then set_text (token_ids d) t (decoder d) d else d) = last_output_text_offset d ∧
    token_ids (if b then set_text (token_ids d) t (decoder d) d else d) = token_ids d) as Hb.
  { intros [] t; by split. }
  destruct (Hb (negb (cut_at (output_text d) (include_stop_str_in_output d) s e =? -1))
    (py_upto (output_text d) (cut_at (output_text d) (include_stop_str_in_output d) s e))) as (? & ? & ?).
  split_and!; [done..|]. exists e. split; [done|]. split; [done|]. unfold cut_at, py_upto, slice_bound, py_len.
  destruct (include_stop_str_in_output d).
  - destruct (Nat.leb_spec (length (output_text d)) e); simpl.
    + rewrite take_ge; [done|lia].
    + destruct (Z.eqb_spec (Z.of_nat e) (-1)); [lia|]. simpl. destruct (Z.ltb_spec (Z.of_nat e) 0); [lia|]. f_equal. lia.
  - destruct (Z.eqb_spec (Z.of_nat (e - length s)) (-1)); [lia|]. simpl.
    destruct (Z.ltb_spec (Z.of_nat (e - length s)) 0); [lia|]. f_equal. lia.
Qed.

Lemma sent_bound d : det_inv d → (Z.to_nat (last_output_text_offset d) ≤ length (output_text d))%nat.
Proof. intros [_ ? _ ? [?|?]]; unfold py_len in *; lia. Qed.

Lemma take_prefix {A} (n : nat) (l k : list A) : l `prefix_of` k → (n ≤ length l)%nat → take n k = take n l.
Proof. intros [r ->] ?. by rewrite take_app_le. Qed.

Lemma det_inv_grow d d' :
  det_inv d → same_params d d' → last_output_text_offset d' = last_output_text_offset d →
  output_text d `prefix_of` output_text d' → det_inv d' ∧ sent_text d' = sent_text d.
Proof.
  intros Hinv (H1 & H2 & H3 & H4) Ho Hp. pose proof (sent_bound d Hinv) as Hsb. pose proof (prefix_length _ _ Hp).
  split; [|unfold sent_text; rewrite Ho; by apply take_prefix].
  destruct Hinv. split; rewrite ?H1, ?H3, ?H4, ?Ho; try done. unfold py_len in *. lia.
Qed.

(** What [update] does to the text: without a stop string it grows; with one it
    is cut behind everything that was handed out. *)
Lemma update_spec l term d r d' :
  det_inv d → update l term d = Ok (r, d') →
  same_params d d' ∧ last_output_text_offset d' = last_output_text_offset d ∧ token_ids d' = token_ids d ++ l ∧
  sent_text d' = sent_text d ∧ (Z.to_nat (last_output_text_offset d') ≤ length (output_text d'))%nat ∧
  match r with
  | None => det_inv d' ∧ output_text d `prefix_of` output_text d'
  | Some s => s ∈ stop d
  end.
Proof.
  intros Hinv. unfold update. pose proof (sent_bound d Hinv) as Hsb. destruct (Z.eqb_spec (py_len l) 0) as [H0|H0].
  { intros [= <- <-]. destruct l; [|unfold py_len in H0; simpl in H0; lia]. rewrite app_nil_r.
    split; [apply same_params_refl|]. by split_and!. }
  intros Hrun. apply bind_Ok in Hrun as ([l1 sk] & Hsk & Hrun). apply bind_Ok in Hrun as ([d1 off] & Hfeed & Hrun).
  injection Hrun as Hrun. apply feed_tokens_spec in Hfeed as (Hids & Hpar & Hoff & Hpre & Hchk).
  set (d2 := match sk with Some t => _ | None => _ end) in Hrun.
  assert (token_ids d2 = token_ids d ++ l ∧ same_params d d2 ∧ last_output_text_offset d2 = last_output_text_offset d ∧
    output_text d2 = output_text d1) as (Hids2 & Hpar2 & Hoff2 & Htext2).
  { unfold d2. destruct (term && _).
    - apply bind_Ok in Hsk as (t & Ht & [= <- <-]). cbn [token_ids output_text last_output_text_offset set_text].
      split; [|done]. rewrite Hids, <-(assoc_L (++)). f_equal. destruct l as [|t' l' _] using rev_ind; [done|].
      unfold py_get, py_len in Ht. rewrite length_app in Ht. simpl length in Ht.
      destruct (Z.ltb_spec (-1) 0); [|lia]. destruct (Z.ltb_spec (-1 + Z.of_nat (length l' + 1)) 0); [lia|].
      replace (Z.to_nat _) with (length l') in Ht by lia. rewrite lookup_app_r, Nat.sub_diag in Ht by lia.
      injection Ht as <-. unfold py_upto, slice_bound, py_len. rewrite length_app. simpl length.
      destruct (Z.ltb_spec (-1) 0); [|lia]. replace (Z.to_nat _) with (length l') by lia. by rewrite take_app_length.
    - by injection Hsk as <- <-. }
  destruct (det_inv_grow d d2 Hinv Hpar2 Hoff2 ltac:(by rewrite Htext2)) as [Hinv2 Hsent2].
  assert (0 ≤ off ≤ py_len (output_text d2)) as Hoff0.
  { rewrite Htext2. pose proof (prefix_length _ _ Hpre). unfold py_len in *. lia. }
  assert (py_len (output_text d) ≤ off) as Hoff1 by (unfold py_len in *; lia).
  apply eval_stop_spec in Hrun as (Hpar3 & Hoff3 & Hids3 & Hr); [|apply Hinv2|done].
  split; [by eapply same_params_trans|]. split; [by rewrite Hoff3|]. split; [by rewrite Hids3|].
  destruct r as [s|].
  - destruct Hr as (Hin & e & He & Hle & Htext3). destruct Hpar2 as (Hp1 & Hp2 & Hp3 & Hp4). rewrite Hp1 in Hin.
    assert (Z.to_nat (last_output_text_offset d) ≤
      (if include_stop_str_in_output d2 then e else (e - length s)%nat))%nat as Hcut.
    { rewrite Hp3. destruct Hinv as [_ ? Hcov ? Hs]. destruct (include_stop_str_in_output d).
      - unfold py_len in *. lia.
      - specialize (Hcov eq_refl s Hin). unfold py_len in *. lia. }
    unfold sent_text. rewrite Htext3, Hoff3, Hoff2. split.
    { rewrite take_take, Nat.min_l by done. unfold sent_text in Hsent2. by rewrite <-Hsent2, Hoff2. }
    split; [|done]. rewrite length_take. pose proof (sent_bound d2 Hinv2) as Hb. rewrite Hoff2 in Hb. lia.
  - subst d'. split; [done|]. split; [by apply sent_bound|]. split; [done|]. by rewrite Htext2.
Qed.

(** A delta continues what was sent. *)
Lemma delta_spec d t d' :
  det_inv d → get_next_output_text false true d = (t, d') →
  det_inv d' ∧ same_params d d' ∧ output_text d' = output_text d ∧ token_ids d' = token_ids d ∧ decoder d' = decoder d ∧
  sent_text d' = sent_text d ++ t.
Proof.
  intros [Hne Hb Hc Ho Hs]. unfold get_next_output_text. cbn [negb].
  destruct (Z.ltb_spec (last_output_text_offset d) (py_len (output_text d) - stop_buffer_length d)) as [Hlt|Hge];
    intros [= <- <-].
  - split; [split; simpl; try done; lia|]. split_and!; try done.
    unfold sent_text. simpl. rewrite py_slice_nonneg by lia.
    replace (Z.to_nat (py_len (output_text d) - stop_buffer_length d)) with
      (Z.to_nat (last_output_text_offset d) +
       (Z.to_nat (py_len (output_text d) - stop_buffer_length d) - Z.to_nat (last_output_text_offset d)))%nat at 1 by lia.
    by rewrite <-take_take_drop.
  - split; [done|]. split_and!; try done. by rewrite app_nil_r.
Qed.

(** The last delta sends the rest. *)
Lemma last_delta_spec d t d' :
  0 ≤ last_output_text_offset d → (Z.to_nat (last_output_text_offset d) ≤ length (output_text d))%nat →
  get_next_output_text true true d = (t, d') →
  output_text d' = output_text d ∧ token_ids d' = token_ids d ∧ decoder d' = decoder d ∧ sent_text d ++ t = output_text d.
Proof.
  intros H0 Hle. unfold get_next_output_text. cbn [negb]. rewrite Z.sub_0_r.
  destruct (Z.ltb_spec (last_output_text_offset d) (py_len (output_text d))) as [Hlt|Hge]; intros [= <- <-];
    (do 3 (split; [done|])); unfold sent_text.
  - rewrite py_slice_nonneg by (unfold py_len; lia). rewrite (take_ge (drop _ _)).
    + apply take_drop.
    + rewrite length_drop. unfold py_len. lia.
  - rewrite app_nil_r, take_ge; [done|]. unfold py_len in Hge. lia.
Qed.

Lemma new_base_inv (r : DetokRequest) (c : D) :
  (∀ s, s ∈ (match params_stop r with NoStop => [] | StopString s => [s] | StopList l => l end) → s ≠ []) →
  det_inv (new_base r c).
Proof.
  set (l := match params_stop r with NoStop => [] | StopString s => [s] | StopList l => l end). intros Hne.
  assert (∀ (s : text) (l : list text) x, x ∈ s :: l → py_len x ≤ foldr Z.max (py_len s) (py_len <$> l)) as Hmax.
  { intros s l' x Hx. induction l' as [|y l' IH]; rewrite ?fmap_cons; cbn [foldr].
    - apply list_elem_of_singleton in Hx as ->. simpl. lia.
    - apply elem_of_cons in Hx as [->|[->|Hx]%elem_of_cons].
      + specialize (IH ltac:(by left)). lia.
      + lia.
      + specialize (IH ltac:(by right)). lia. }
  split; simpl; fold l.
  - apply Forall_forall. done.
  - destruct l as [|s l']; [lia|]. destruct (params_include_stop r); [lia|].
    specialize (Hmax s l' s ltac:(by left)). assert (0 < py_len s); [|lia].
    assert (s ≠ []) by (apply Hne; by left). destruct s; [done|]. unfold py_len. simpl. lia.
  - intros -> s Hs. destruct l as [|s0 l']; [by apply elem_of_nil in Hs|]. specialize (Hmax s0 l' s Hs). lia.
  - lia.
  - by left.
Qed.
End Streaming.

(** ** Several tokens at once, or one after the other *)

(** Decoding does not change how many tokens belong to the prompt. *)
Class LawfulDecoder (D : Type) `{Decoder D} : Prop :=
  decode_keeps_prompt : ∀ ids t c x c', decode_next ids t c = Ok (x, c') → prompt_tokens c' = prompt_tokens c.

#[export] Instance fast_lawful {S} `{DecodeStream S} : LawfulDecoder (FastDecoder S).
Proof. done. Qed.

#[export] Instance slow_lawful `{Tokenizer} : LawfulDecoder SlowDecoder.
Proof.
  intros ids t c x c' Hd. simpl in *. unfold slow_decode_next in Hd.
  apply bind_Ok in Hd as ([[[n w] p] r] & _ & [= <- <-]). done.
Qed.

Section Batch.
Context {D : Type} `{LawfulDecoder D}.
Implicit Types d : Detokenizer D.

(** Appending one token at a time, until a stop string is found. *)
Fixpoint update_each (l : list Z) d : result (option text * Detokenizer D) :=
  match l with
  | [] => Ok (None, d)
  | t :: l' =>
      '(s, d) ← update [t] false d;
      match s with
      | Some _ => Ok (s, d)
      | None => update_each l' d
      end
  end.

Lemma feed_one d off t d' off' :
  feed_token (d, off) t = Ok (d', off') →
  token_ids d' = token_ids d ++ [t] ∧ same_params d d' ∧ output_text d `prefix_of` output_text d' ∧
  num_output_tokens d' = num_output_tokens d + 1 ∧
  ∀ o, feed_token (d, o) t =
    Ok (d', if negb (dt_min_tokens d =? 0) && (num_output_tokens d + 1 <=? dt_min_tokens d) then py_len (output_text d') else o).
Proof.
  unfold feed_token. intros Hrun. apply bind_Ok in Hrun as ([x c] & Hx & Hrun).
  assert (num_output_tokens (set_text (token_ids d ++ [t]) (output_text d ++ x) c d) = num_output_tokens d + 1) as Hn.
  { unfold num_output_tokens. cbn [token_ids decoder set_text]. apply decode_keeps_prompt in Hx as ->.
    rewrite py_len_app. unfold py_len. simpl. lia. }
  assert (d' = set_text (token_ids d ++ [t]) (output_text d ++ x) c d) as ->.
  { destruct (negb _ && _); by injection Hrun as <- _. }
  split; [done|]. split; [by unfold same_params|]. split; [by apply prefix_app_r|]. split; [done|].
  intros o. rewrite Hx. cbn [mbind result_bind]. rewrite Hn.
  change (dt_min_tokens (set_text _ _ c d)) with (dt_min_tokens d).
  by destruct (negb (dt_min_tokens d =? 0) && (num_output_tokens d + 1 <=? dt_min_tokens d)).
Qed.

(** Past the minimum number of tokens the offset of the check stays. *)
Lemma feed_late l : ∀ d off d' off',
  0 ≤ dt_min_tokens d → dt_min_tokens d < num_output_tokens d + 1 →
  foldM feed_token (d, off) l = Ok (d', off') → ∀ o, foldM feed_token (d, o) l = Ok (d', o).
Proof.
  induction l as [|t l IH]; intros d off d' off' Hpos Hmin; cbn [foldM].
  - by intros [= <- <-].
  - intros Hrun o. apply bind_Ok in Hrun as ([d1 off1] & H1 & H2).
    apply feed_one in H1 as (_ & (_ & Hm & _) & _ & Hn & Ho). rewrite Ho.
    replace (negb (dt_min_tokens d =? 0) && _) with false.
    2: { destruct (Z.eqb_spec (dt_min_tokens d) 0), (Z.leb_spec (num_output_tokens d + 1) (dt_min_tokens d)); done || lia. }
    cbn [mbind result_bind]. eapply IH; [| |exact H2]; rewrite ?Hm, ?Hn; lia.
Qed.

Lemma feed_counts l : ∀ d off d' off',
  foldM feed_token (d, off) l = Ok (d', off') → num_output_tokens d' = num_output_tokens d + py_len l.
Proof.
  induction l as [|t l IH]; intros d off d' off'; cbn [foldM].
  - intros [= <- <-]. unfold py_len. simpl. lia.
  - intros Hrun. apply bind_Ok in Hrun as ([d1 off1] & H1 & H2). apply feed_one in H1 as (_ & _ & _ & Hn & _).
    apply IH in H2. rewrite H2, Hn. unfold py_len. simpl. lia.
Qed.

(** The stop check in terms of the reference. *)
Lemma eval_stop_reference d old :
  Forall (λ s, s ≠ []) (stop d) → (old ≤ length (output_text d))%nat → py_len (output_text d) < maxsize →
  eval_stop d (Z.of_nat old) =
    match (if dt_min_tokens d <? num_output_tokens d then stop_reference (output_text d) (stop d) old else None) with
    | Some (s, e) =>
        let k := cut_at (output_text d) (include_stop_str_in_output d) s e in
        (Some s, if negb (k =? -1) then set_text (token_ids d) (py_upto (output_text d) k) (decoder d) d else d)
    | None => (None, d)
    end.
Proof.
  intros Hne Hold Hmax. unfold eval_stop. destruct (Z.eqb_spec (py_len (stop d)) 0) as [Hs|Hs]; cbn [negb andb].
  - destruct (stop d); [|unfold py_len in Hs; simpl in Hs; lia].
    rewrite (proj2 (reference_None _ _ _)) by done. by destruct (_ <? _).
  - destruct (_ <? _); [|done]. rewrite check_stop_spec by done. by destruct (stop_reference _ _ _) as [[s e]|].
Qed.

Lemma cut_text (t : text) include s e :
  (0 < e)%nat → (if negb (cut_at t include s e =? -1) then py_upto t (cut_at t include s e) else t) =
    take (if include then e else (e - length s)%nat) t.
Proof.
  intros ?. unfold cut_at, py_upto, slice_bound, py_len. destruct include.
  - destruct (Nat.leb_spec (length t) e); simpl; [by rewrite take_ge|].
    destruct (Z.eqb_spec (Z.of_nat e) (-1)); [lia|]. simpl. destruct (Z.ltb_spec (Z.of_nat e) 0); [lia|]. f_equal. lia.
  - destruct (Z.eqb_spec (Z.of_nat (e - length s)) (-1)); [lia|]. simpl.
    destruct (Z.ltb_spec (Z.of_nat (e - length s)) 0); [lia|].
    destruct (decide (e - length s ≤ length t)%nat); [f_equal; lia|]. rewrite !take_ge; [done|lia..].
Qed.

(** A stop string found in a prefix is found in the whole. *)
Lemma reference_prefix t1 t2 stop old s e :
  t1 `prefix_of` t2 → stop_reference t1 stop old = Some (s, e) → stop_reference t2 stop old = Some (s, e).
Proof.
  intros Hp. pose proof (prefix_length _ _ Hp). rewrite !reference_Some. intros (? & Hs & Hk).
  assert (∀ k, (k ≤ length t1)%nat → stop_at t2 stop k = stop_at t1 stop k) as Heq.
  { intros k ?. unfold stop_at. by rewrite (take_prefix k t1 t2). }
  split; [lia|]. split; [by rewrite Heq by lia|]. intros k ?. rewrite Heq by lia. by apply Hk.
Qed.

(** Without one in a prefix, the search may start behind it. *)
Lemma reference_skip t1 t2 stop old :
  t1 `prefix_of` t2 → (old ≤ length t1)%nat → stop_reference t1 stop old = None →
  stop_reference t2 stop old = stop_reference t2 stop (length t1).
Proof.
  intros Hp ?. pose proof (prefix_length _ _ Hp). rewrite reference_None. intros Hnone.
  assert (∀ k, (old < k ≤ length t1)%nat → stop_at t2 stop k = None) as Heq.
  { intros k ?. unfold stop_at. rewrite (take_prefix k t1 t2) by (done || lia). by apply Hnone. }
  destruct (stop_reference t2 stop (length t1)) as [[s e]|] eqn:Hr.
  - apply reference_Some in Hr as (? & Hs & Hk). apply reference_Some. split; [lia|]. split; [done|].
    intros k ?. destruct (decide (k ≤ length t1)%nat); [apply Heq|apply Hk]; lia.
  - rewrite reference_None in *. intros k ?. destruct (decide (k ≤ length t1)%nat); [apply Heq|apply Hr]; lia.
Qed.

Lemma eval_stop_here d : eval_stop d (py_len (output_text d)) = (None, d).
Proof. unfold eval_stop, check_stop_strings. rewrite Z.sub_diag. simpl. by destruct (negb _ && _). Qed.

Lemma update_plain l d :
  update l false d = ('(d1, off) ← foldM feed_token (d, py_len (output_text d)) l; Ok (eval_stop d1 off)).
Proof.
  unfold update. destruct (Z.eqb_spec (py_len l) 0) as [Hl|Hl].
  - destruct l; [|unfold py_len in Hl; simpl in Hl; lia]. cbn [foldM mbind result_bind]. by rewrite eval_stop_here.
  - cbn [andb mbind result_bind]. by destruct (foldM _ _ _) as [[d1 off]|].
Qed.

(** The outcome of a check: the stop string and the text. *)
Definition check_result (r : option text * Detokenizer D) : option text * text := (fst r, output_text (snd r)).

Lemma eval_stop_result d old s e :
  Forall (λ s, s ≠ []) (stop d) → (old ≤ length (output_text d))%nat → py_len (output_text d) < maxsize →
  dt_min_tokens d < num_output_tokens d → stop_reference (output_text d) (stop d) old = Some (s, e) →
  check_result (eval_stop d (Z.of_nat old)) =
    (Some s, take (if include_stop_str_in_output d then e else (e - length s)%nat) (output_text d)).
Proof.
  intros Hne Hold Hmax Hact Hr. rewrite eval_stop_reference by done.
  replace (dt_min_tokens d <? num_output_tokens d) with true by (symmetry; by apply Z.ltb_lt). rewrite Hr.
  unfold check_result. cbn [fst snd]. f_equal. apply reference_Some in Hr as (? & _ & _).
  rewrite <-(cut_text (output_text d) (include_stop_str_in_output d) s e) by lia. cbv zeta.
  by destruct (negb (cut_at (output_text d) (include_stop_str_in_output d) s e =? -1)).
Qed.

Lemma update_each_spec l : ∀ d d1 off1,
  Forall (λ s, s ≠ []) (stop d) → 0 ≤ dt_min_tokens d → 0 ≤ num_output_tokens d →
  foldM feed_token (d, py_len (output_text d)) l = Ok (d1, off1) → py_len (output_text d1) < maxsize →
  ∃ r, update_each l d = Ok r ∧ check_result r = check_result (eval_stop d1 off1) ∧ (fst r = None → snd r = d1).
Proof.
  induction l as [|t l IH]; intros d d1 off1 Hne Hmin Hnum; cbn [foldM update_each].
  { intros [= <- <-] _. exists (None, d). by rewrite eval_stop_here. }
  intros Hrun Hmax. apply bind_Ok in Hrun as ([d2 off2] & H1 & H2).
  destruct (feed_one d _ t d2 off2 H1) as (_ & (Hstop & Hdm & Hinc & _) & Hpre & Hn & Ho).
  assert (output_text d2 `prefix_of` output_text d1) as Hpre1.
  { apply feed_tokens_spec in H2. tauto. }
  pose proof (prefix_length _ _ Hpre1) as Hlen1. pose proof (prefix_length _ _ Hpre) as Hlen2.
  rewrite update_plain. cbn [foldM]. rewrite Ho in H1. rewrite Ho. cbn [mbind result_bind].
  destruct (negb (dt_min_tokens d =? 0) && (num_output_tokens d + 1 <=? dt_min_tokens d)) eqn:Hcase.
  - injection H1 as <-. rewrite eval_stop_here. cbn [mbind result_bind].
    apply IH; rewrite ?Hstop, ?Hdm, ?Hn; done || lia.
  - injection H1 as <-.
    assert (dt_min_tokens d2 < num_output_tokens d2) as Hact.
    { rewrite Hdm, Hn. destruct (Z.eqb_spec (dt_min_tokens d) 0), (Z.leb_spec (num_output_tokens d + 1) (dt_min_tokens d)); done || lia. }
    pose proof (feed_late l d2 _ d1 off1 ltac:(lia) ltac:(lia) H2) as Hlate.
    pose proof (Hlate (py_len (output_text d))) as H2'. rewrite H2' in H2. injection H2 as <-.
    assert (same_params d2 d1) as (Hs1 & Hm1 & Hi1 & _) by (apply feed_tokens_spec in H2'; tauto).
    pose proof (feed_counts _ _ _ _ _ H2') as Hn1. pose proof (py_len_nonneg l).
    assert (py_len (output_text d2) < maxsize) as Hmax2 by (unfold py_len in *; lia).
    change (py_len (output_text d)) with (Z.of_nat (length (output_text d))).
    destruct (stop_reference (output_text d2) (stop d2) (length (output_text d))) as [[s e]|] eqn:Hr.
    + pose proof (eval_stop_result d2 (length (output_text d)) s e ltac:(by rewrite Hstop) Hlen2 Hmax2 Hact Hr) as He2.
      destruct (eval_stop d2 (Z.of_nat (length (output_text d)))) as [o d3] eqn:He. unfold check_result in He2.
      cbn [fst snd] in He2. injection He2 as -> Ht. cbn [mbind result_bind]. exists (Some s, d3). split; [done|]. split; [|done].
      rewrite (eval_stop_result d1 (length (output_text d)) s e); [|by rewrite Hs1, Hstop|lia|done|lia|].
      2: { rewrite Hs1. by eapply reference_prefix. }
      unfold check_result. cbn [fst snd]. rewrite Ht, Hi1. f_equal. symmetry. apply take_prefix; [done|].
      apply reference_Some in Hr as (? & _ & _). destruct (include_stop_str_in_output d2); lia.
    + rewrite eval_stop_reference by (done || by rewrite Hstop). 
      replace (dt_min_tokens d2 <? num_output_tokens d2) with true by (symmetry; by apply Z.ltb_lt). rewrite Hr.
      cbn [mbind result_bind].
      destruct (IH d2 d1 (py_len (output_text d2))) as (r & Hrun & Hres & Hd1);
        [by rewrite Hstop|lia|lia|apply Hlate|done|].
      exists r. split; [done|]. split; [|done]. rewrite Hres. unfold py_len.
      rewrite !eval_stop_reference by (try rewrite Hs1, Hstop; done || lia).
      by rewrite (reference_skip (output_text d2) (output_text d1) (stop d1) (length (output_text d))) by (rewrite ?Hs1; done).
Qed.
End Batch.

(** ** The token ids of the output *)

Section OutputIds.
Context {D : Type} `{LawfulDecoder D}.
Implicit Types d : Detokenizer D.

(** The prompt is among the token ids. *)
Definition prompt_ok d : Prop := 0 ≤ prompt_tokens (decoder d) ≤ py_len (token_ids d).

Lemma output_ids_num d : prompt_ok d → py_len (output_token_ids d) = num_output_tokens d.
Proof.
  intros [? ?]. unfold output_token_ids, num_output_tokens. destruct (Z.eqb_spec (prompt_tokens (decoder d)) 0); [lia|].
  rewrite py_from_nonneg by done. unfold py_len in *. rewrite length_drop. lia.
Qed.

Lemma output_ids_drop d : prompt_ok d → output_token_ids d = drop (Z.to_nat (prompt_tokens (decoder d))) (token_ids d).
Proof.
  intros [? ?]. unfold output_token_ids. destruct (Z.eqb_spec (prompt_tokens (decoder d)) 0) as [->|]; [done|].
  by apply py_from_nonneg.
Qed.

Lemma feed_prompt l : ∀ d off d' off',
  foldM feed_token (d, off) l = Ok (d', off') → prompt_tokens (decoder d') = prompt_tokens (decoder d).
Proof.
  induction l as [|t l IH]; intros d off d' off'; cbn [foldM]; [by intros [= <- <-]|].
  intros Hrun. apply bind_Ok in Hrun as ([d1 off1] & H1 & H2). apply IH in H2 as ->.
  unfold feed_token in H1. apply bind_Ok in H1 as ([x c] & Hx & H1). apply decode_keeps_prompt in Hx.
  by destruct (negb _ && _); injection H1 as <- _.
Qed.

Lemma eval_stop_decoder d old : decoder (snd (eval_stop d old)) = decoder d.
Proof.
  unfold eval_stop. destruct (negb _ && _); [|done].
  destruct (check_stop_strings _ _ _ _) as [[s k]|]; [|done]. by destruct (negb (k =? -1)).
Qed.

Lemma update_prompt l term d r d' :
  update l term d = Ok (r, d') → prompt_tokens (decoder d') = prompt_tokens (decoder d).
Proof.
  unfold update. destruct (py_len l =? 0); [by intros [= <- <-]|]. intros Hrun.
  apply bind_Ok in Hrun as ([l1 sk] & _ & Hrun). apply bind_Ok in Hrun as ([d1 off] & Hfeed & Hrun).
  injection Hrun as Hrun. apply feed_prompt in Hfeed as <-. apply (f_equal snd) in Hrun. cbn [snd] in Hrun.
  rewrite <-Hrun, eval_stop_decoder. by destruct sk.
Qed.

Lemma update_output_ids l term d r d' :
  det_inv d → prompt_ok d → update l term d = Ok (r, d') →
  prompt_ok d' ∧ output_token_ids d' = output_token_ids d ++ l.
Proof.
  intros Hinv Hp Hrun. pose proof (update_prompt _ _ _ _ _ Hrun) as Hpr.
  destruct (update_spec _ _ _ _ _ Hinv Hrun) as (_ & _ & Hids & _).
  assert (prompt_ok d') as Hp'.
  { unfold prompt_ok in *. rewrite Hpr, Hids, py_len_app. pose proof (py_len_nonneg l). lia. }
  split; [done|]. rewrite !output_ids_drop by done. rewrite Hpr, Hids, drop_app_le; [done|].
  destruct Hp. unfold py_len in *. lia.
Qed.
Lemma eval_stop_offset o d old :
  eval_stop (set_offset o d) old = (fst (eval_stop d old), set_offset o (snd (eval_stop d old))).
Proof.
  unfold eval_stop. cbn [stop dt_min_tokens output_text include_stop_str_in_output set_offset].
  change (num_output_tokens (set_offset o d)) with (num_output_tokens d).
  destruct (negb (py_len (stop d) =? 0) && (dt_min_tokens d <? num_output_tokens d)); [|done].
  destruct (check_stop_strings _ _ _ _) as [[s k]|]; [|done]. by destruct (negb (k =? -1)).
Qed.

Lemma feed_offset o l : ∀ d off,
  foldM feed_token (set_offset o d, off) l = ('(d', off') ← foldM feed_token (d, off) l; Ok (set_offset o d', off')).
Proof.
  induction l as [|t l IH]; intros d off; cbn [foldM]; [done|]. unfold feed_token at 2 4.
  cbn [token_ids decoder output_text set_offset].
  destruct (decode_next (token_ids d ++ [t]) t (decoder d)) as [[x c]|]; [|done]. cbn [mbind result_bind].
  set (d1 := set_text (token_ids d ++ [t]) (output_text d ++ x) c d).
  change (set_text (token_ids d ++ [t]) (output_text d ++ x) c (set_offset o d)) with (set_offset o d1).
  change (dt_min_tokens (set_offset o d1)) with (dt_min_tokens d1).
  change (num_output_tokens (set_offset o d1)) with (num_output_tokens d1).
  destruct (negb (dt_min_tokens d1 =? 0) && (num_output_tokens d1 <=? dt_min_tokens d1)); cbn [mbind result_bind]; apply IH.
Qed.

(** What was handed out has no influence on the text. *)
Lemma update_offset o l term d :
  update l term (set_offset o d) = ('(r, d') ← update l term d; Ok (r, set_offset o d')).
Proof.
  unfold update. destruct (py_len l =? 0); [done|]. cbn [include_stop_str_in_output output_text set_offset].
  destruct (if term && negb (include_stop_str_in_output d) then _ else _) as [[l1 sk]|]; [|done]. cbn [mbind result_bind].
  rewrite feed_offset.
  destruct (foldM feed_token (d, py_len (output_text d)) l1) as [[d1 off]|]; [|done]. cbn [mbind result_bind].
  destruct sk as [t|].
  - change (set_text (token_ids (set_offset o d1) ++ [t]) (output_text (set_offset o d1)) (decoder (set_offset o d1)) (set_offset o d1))
      with (set_offset o (set_text (token_ids d1 ++ [t]) (output_text d1) (decoder d1) d1)).
    rewrite eval_stop_offset. by destruct (eval_stop (set_text (token_ids d1 ++ [t]) _ _ _) off).
  - rewrite eval_stop_offset. by destruct (eval_stop d1 off).
Qed.
End OutputIds.

(** ** The slow detokenizer loses no text *)

(** The tokens that the slow detokenizer decodes an id to. *)
Definition new_tokens_of `{Tokenizer} (skip : bool) (id : Z) : list text :=
  if (0 <=? id) && (id <? vocab) then _replace_none_with_empty (convert_ids_to_tokens [id] skip) else [[]].

Section SlowText.
Context `{Tokenizer} (skip spaces : bool).

(** The text of a token inside a sequence; clean-up by the tokenizer touches
    the first token of a sequence only. *)
Context (raw : list text → text).
Hypothesis raw_app : ∀ a b, raw (a ++ b) = raw a ++ raw b.
Hypothesis clean_first : ∀ a b, a ≠ [] → tokens_text skip spaces (a ++ b) = tokens_text skip spaces a ++ raw b.

Lemma raw_nil : raw [] = [].
Proof using raw_app. pose proof (raw_app [] []) as Hr. apply (f_equal length) in Hr. rewrite length_app in Hr. simpl in Hr. destruct (raw []); [done|simpl in Hr; lia]. Qed.

(** What was handed out, and what is still pending. *)
Record slow_inv (gen : list text) (out : text) (d : SlowDecoder) : Prop := {
  si_flags : slow_skip d = skip ∧ slow_spaces d = spaces;
  si_offsets : 0 ≤ prefix_offset d < read_offset d ∧ read_offset d ≤ py_len (tokens d);
  si_text : out ++ raw (drop (Z.to_nat (read_offset d)) (tokens d)) = raw gen;
  si_pending : raw (drop (Z.to_nat (read_offset d)) (tokens d)) = [] ∨
    last (raw (drop (Z.to_nat (read_offset d)) (tokens d))) = Some 65533
}.

Lemma slow_step gen out d ids t :
  slow_inv gen out d →
  ∃ x d', slow_decode_next (ids ++ [t]) t d = Ok (x, d') ∧ slow_inv (gen ++ new_tokens_of skip t) (out ++ x) d'.
Proof using raw_app clean_first.
  intros [[Hsk Hsp] [Hp Hr] Htext Hpend]. unfold slow_decode_next, detokenize_incrementally.
  assert (py_get (ids ++ [t]) (-1) = Ok t) as ->.
  { unfold py_get, py_len. rewrite length_app. simpl length. destruct (Z.ltb_spec (-1) 0); [|lia].
    destruct (Z.ltb_spec (-1 + Z.of_nat (length ids + 1)) 0); [lia|].
    replace (Z.to_nat _) with (length ids) by lia. rewrite lookup_app_r, Nat.sub_diag by lia. done. }
  cbn [mbind result_bind]. rewrite (bool_decide_false (Some (tokens d) = None)) by done. rewrite Hsk, Hsp. fold (new_tokens_of skip t).
  set (n := new_tokens_of skip t). set (T := tokens d) in *. set (p := prefix_offset d) in *. set (r := read_offset d) in *.
  assert (Z.to_nat r ≤ length T)%nat as Hr' by (unfold py_len in Hr; lia).
  rewrite py_slice_nonneg, py_from_nonneg by lia.
  set (a := take (Z.to_nat r - Z.to_nat p) (drop (Z.to_nat p) (T ++ n))). set (b := drop (Z.to_nat r) (T ++ n)).
  assert (drop (Z.to_nat p) (T ++ n) = a ++ b) as Hab.
  { unfold a, b. rewrite <-(take_drop (Z.to_nat r - Z.to_nat p) (drop (Z.to_nat p) (T ++ n))) at 1.
    rewrite drop_drop. do 2 f_equal. lia. }
  assert (a ≠ []) as Ha.
  { intros Ha. apply (f_equal length) in Ha. unfold a in Ha. rewrite length_take, length_drop, length_app in Ha. simpl in Ha. lia. }
  assert (b = drop (Z.to_nat r) T ++ n) as Hb by (unfold b; by rewrite drop_app_le).
  rewrite Hab, clean_first by done. rewrite py_len_app.
  assert (out ++ raw b = raw (gen ++ n)) as Hnew.
  { rewrite Hb, !raw_app, (assoc_L (++)). by f_equal. }
  destruct (raw b) as [|y rb _] eqn:Hrb using rev_ind.
  - replace (_ <=? _) with true by (symmetry; apply Z.leb_le; unfold py_len; simpl; lia). cbn [orb mbind result_bind].
    eexists _, _. split; [done|]. rewrite app_nil_r. split; simpl.
    + done.
    + fold p r. rewrite py_len_app. split; [done|]. pose proof (py_len_nonneg n). lia.
    + fold r. by fold b; rewrite Hrb.
    + left. by fold r; fold b.
  - replace (_ <=? _) with false by (symmetry; apply Z.leb_gt; unfold py_len; rewrite length_app; simpl; lia). cbn [orb].
    rewrite (assoc_L (++)), last_snoc. destruct (decide (y = 65533)) as [->|Hy].
    + rewrite bool_decide_true by done. cbn [mbind result_bind]. eexists _, _. split; [done|]. rewrite app_nil_r. split; simpl.
      * done.
      * fold p r. rewrite py_len_app. split; [done|]. pose proof (py_len_nonneg n). lia.
      * fold r. by fold b; rewrite Hrb.
      * right. fold r; fold b. by rewrite Hrb, last_snoc.
    + rewrite bool_decide_false by congruence. cbn [mbind result_bind]. eexists _, _. split; [done|].
      assert (Z.to_nat r < length (T ++ n))%nat as Hlt.
      { destruct (decide (Z.to_nat r < length (T ++ n))%nat); [done|]. exfalso.
        unfold b in Hrb. rewrite drop_ge, raw_nil in Hrb by lia. by destruct rb. }
      assert (drop (Z.to_nat (py_len (T ++ n))) (T ++ n) = []) as Hend.
      { apply drop_ge. unfold py_len. lia. }
      split; simpl.
      * done.
      * fold r. rewrite py_len_app in *. split; [|lia]. unfold py_len in *. rewrite length_app in *. lia.
      * rewrite Hend, raw_nil, app_nil_r. rewrite py_from_nonneg by (unfold py_len; lia).
        rewrite <-(assoc_L (++)). unfold py_len. rewrite Nat2Z.id, drop_app_length. done.
      * left. by rewrite Hend, raw_nil.
Qed.

Lemma slow_feed l : ∀ gen (d : Detokenizer SlowDecoder) off,
  slow_inv gen (output_text d) (decoder d) →
  ∃ d' off', foldM feed_token (d, off) l = Ok (d', off') ∧
    slow_inv (gen ++ concat (new_tokens_of skip <$> l)) (output_text d') (decoder d').
Proof using raw_app clean_first.
  induction l as [|t l IH]; intros gen d off Hinv; cbn [foldM].
  - exists d, off. simpl. by rewrite app_nil_r.
  - destruct (slow_step gen (output_text d) (decoder d) (token_ids d) t Hinv) as (x & c & Hd & Hinv').
    cbn [feed_token decode_next slow_decoder]. rewrite Hd. cbn [mbind result_bind].
    set (d1 := set_text _ _ c d). set (o := if negb _ && _ then _ else _).
    replace o with (@Ok (Detokenizer SlowDecoder * Z) (d1, if negb (dt_min_tokens d1 =? 0) && (num_output_tokens d1 <=? dt_min_tokens d1)
      then py_len (output_text d1) else off)).
    2: { unfold o. by destruct (negb (dt_min_tokens d1 =? 0) && (num_output_tokens d1 <=? dt_min_tokens d1)). }
    cbn [mbind result_bind]. rewrite fmap_cons. cbn [concat]. rewrite (assoc_L (++)). by apply IH.
Qed.
End SlowText.

(** ** Properties *)

(** the check finds the stop string that completes first among those that
    end in the new characters, ties going to the order of the list, exactly as
    trying every end position in turn does; the text is to be cut at its start,
    or at its end when it is included, where -1 says that there is nothing to
    cut. *)
Theorem check_stop_strings_correct t old stop include :
  Forall (λ s, s ≠ []) stop → (old ≤ length t)%nat → py_len t < maxsize →
  check_stop_strings t (py_len t - Z.of_nat old) stop include =
    match stop_reference t stop old with
    | Some (s, e) => Some (s, cut_at t include s e)
    | None => None
    end.
Proof. apply check_stop_spec. Qed.

(** C35: an update with several tokens (speculative decoding) gives what one
    update per token gives: the same stop string and the same text, and without
    a stop string the same state. *)
Theorem update_one_by_one {D} `{LawfulDecoder D} (d : Detokenizer D) l r d' :
  Forall (λ s, s ≠ []) (stop d) → 0 ≤ dt_min_tokens d → 0 ≤ num_output_tokens d →
  (∀ d1 off, foldM feed_token (d, py_len (output_text d)) l = Ok (d1, off) → py_len (output_text d1) < maxsize) →
  update l false d = Ok (r, d') →
  ∃ d'', update_each l d = Ok (r, d'') ∧ output_text d'' = output_text d' ∧ (r = None → d'' = d').
Proof.
  intros Hne Hmin Hnum Hmax. rewrite update_plain.
  destruct (foldM feed_token _ l) as [[d1 off]|] eqn:Hrun; [|done]. cbn [mbind result_bind]. intros [= Hr].
  destruct (update_each_spec l d d1 off Hne Hmin Hnum Hrun (Hmax _ _ eq_refl)) as ([r0 d''] & Heach & Hres & Hd).
  rewrite Hr in Hres. injection Hres as -> Ht. cbn [fst snd] in *. exists d''. split; [done|]. split; [done|].
  intros ->. rewrite Hd by done.
  destruct (eval_stop_spec d1 off None d') as (_ & _ & _ & ->); [| |done..].
  - apply feed_tokens_spec in Hrun as (_ & (-> & _) & _). done.
  - apply feed_tokens_spec in Hrun as (_ & _ & _ & Hp & Hoff). pose proof (prefix_length _ _ Hp). unfold py_len in *. lia.
Qed.

(** the slow detokenizer loses and repeats nothing: as long as the
    tokenizer's clean-up only concerns the first token of a sequence, the text
    handed out is the text of the generated tokens, short of a pending end that
    finishes in an incomplete character. *)
Theorem slow_text_exact `{Tokenizer} raw r ids l :
  (∀ a b, raw (a ++ b) = raw a ++ raw b) →
  (∀ a b, a ≠ [] → tokens_text (skip_special_tokens r) (spaces_between_special_tokens r) (a ++ b) =
     tokens_text (skip_special_tokens r) (spaces_between_special_tokens r) a ++ raw b) →
  rq_prompt_token_ids r = Some ids → prompt_embeds_len r = None →
  convert_ids_to_tokens (py_from ids (-7)) (skip_special_tokens r) ≠ [] →
  ∃ d0 d off pending, new_slow r = Ok d0 ∧ foldM feed_token (d0, 0) l = Ok (d, off) ∧
    output_text d ++ pending = raw (concat (new_tokens_of (skip_special_tokens r) <$> l)) ∧
    (pending = [] ∨ last pending = Some 65533).
Proof.
  intros Hraw Hclean Hids Hemb Hne. unfold new_slow. rewrite Hids, Hemb. cbn [length_from_prompt_token_ids_or_embeds mbind result_bind].
  unfold convert_prompt_ids_to_tokens. set (toks := convert_ids_to_tokens _ _).
  set (d0 := set_text _ _ _ _). exists d0.
  assert (slow_inv (skip_special_tokens r) (spaces_between_special_tokens r) raw [] (output_text d0) (decoder d0)) as Hinv.
  { assert (raw [] = []) as Hnil by by apply raw_nil.
    assert (drop (Z.to_nat (py_len toks)) (_replace_none_with_empty toks) = []) as Hend.
    { apply drop_ge. unfold _replace_none_with_empty, py_len. rewrite length_fmap. lia. }
    split; simpl; rewrite ?Hend, ?Hnil; [done| |done|by left].
    unfold _replace_none_with_empty. unfold py_len. rewrite length_fmap.
    assert (0 < length toks)%nat; [|unfold INITIAL_INCREMENTAL_DETOKENIZATION_OFFSET; lia].
    destruct toks eqn:Ht; [|simpl; lia]. by unfold toks in Ht. }
  destruct (slow_feed _ _ raw Hraw Hclean l [] d0 0 Hinv) as (d & off & Hrun & [_ _ Htext Hpend]).
  exists d, off, (raw (drop (Z.to_nat (read_offset (decoder d))) (tokens (decoder d)))).
  split; [done|]. split; [done|]. split; [by rewrite Htext|done].
Qed.

(** ** Concrete runs *)

(** A stream decoder whose tokens are single characters. *)
#[local] Instance char_stream : DecodeStream unit := {| new_stream _ _ := tt; stream_step _ id := (Stepped (Some [id]), tt) |}.

Definition demo_request (stop : list text) : DetokRequest := {|
  params_stop := StopList stop; params_min_tokens := 1; params_include_stop := false;
  skip_special_tokens := true; spaces_between_special_tokens := true;
  rq_prompt_token_ids := Some [1; 2]; prompt_embeds_len := None |}.

Definition demo_detok (stop : list text) : Detokenizer (FastDecoder unit) :=
  new_base (demo_request stop) (@new_fast unit char_stream [] (demo_request stop)).

Lemma check_stop_strings_correct_witness :
  Forall (λ s : text, s ≠ []) [[3; 4; 5]; [2; 3]; [3]] ∧ (2 ≤ length [1; 2; 3; 4; 5; 6])%nat ∧
  check_stop_strings [1; 2; 3; 4; 5; 6] 4 [[3; 4; 5]; [2; 3]; [3]] false = Some ([2; 3], 1).
Proof.
  assert (Forall (λ s : text, s ≠ []) [[3; 4; 5]; [2; 3]; [3]]) as Hne by by repeat constructor.
  split; [done|]. split; [simpl; lia|].
  etrans; [exact (check_stop_strings_correct [1; 2; 3; 4; 5; 6] 2 [[3; 4; 5]; [2; 3]; [3]] false Hne ltac:(simpl; lia) ltac:(done))|].
  vm_compute. reflexivity.
Defined.

Lemma update_one_by_one_witness :
  ∃ d' d'', update [7; 3; 4; 5; 6] false (demo_detok [[4; 5]; [7]]) = Ok (Some [4; 5], d') ∧
    update_each [7; 3; 4; 5; 6] (demo_detok [[4; 5]; [7]]) = Ok (Some [4; 5], d'') ∧ output_text d'' = [7; 3].
Proof.
  eexists. destruct (update_one_by_one (demo_detok [[4; 5]; [7]]) [7; 3; 4; 5; 6] (Some [4; 5])
    (set_text [7; 3; 4; 5; 6] [7; 3] (decoder (demo_detok [])) (demo_detok [[4; 5]; [7]]))) as (d'' & Hrun & Htext & _).
  - by repeat constructor.
  - vm_compute. by intros.
  - vm_compute. by intros.
  - intros d1 off Hrun. vm_compute in Hrun. injection Hrun as <- <-. reflexivity.
  - vm_compute. reflexivity.
  - exists d''. split; [vm_compute; reflexivity|]. split; [exact Hrun|]. rewrite Htext. reflexivity.
Defined.

(** A tokenizer that strips the space in front of the first token; id 200 is an
    incomplete character. *)
Definition space_tokenizer : Tokenizer := {|
  vocab := 300;
  convert_ids_to_tokens ids _ := (λ i, Some (if i =? 200 then [65533] else [32; i])) <$> ids;
  convert_tokens_to_string l :=
    match l with
    | (32 :: s) :: l' => s ++ concat l'
    | _ => concat l
    end;
  is_fast := true; get_added_vocab := []; all_special_tokens := [] |}.

Lemma slow_text_exact_witness :
  ∃ d0 d off pending, @new_slow space_tokenizer (demo_request []) = Ok d0 ∧
    foldM (@feed_token _ (@slow_decoder space_tokenizer)) (d0, 0) [5; 6; 200] = Ok (d, off) ∧
    output_text d ++ pending = [32; 5; 32; 6; 65533] ∧ (pending = [] ∨ last pending = Some 65533).
Proof.
  apply (@slow_text_exact space_tokenizer (@concat Z) (demo_request []) [1; 2] [5; 6; 200]).
  - intros a b. apply concat_app.
  - intros [|s a] b Ha; [done|]. unfold tokens_text. cbn [is_fast space_tokenizer orb convert_tokens_to_string app concat].
    destruct s as [|c s]; [by rewrite concat_app|].
    destruct (decide (c = 32)) as [->|Hc]; [by rewrite concat_app, (assoc_L (++))|].
    assert (∀ (A : Type) (x y : A), match c with 32 => x | _ => y end = y) as Hne.
    { intros A x y. destruct c as [|[p|p|]|]; try done. repeat (destruct p as [p|p|]; try done). }
    rewrite !Hne. by rewrite concat_app, <-(assoc_L (++)).
  - done.
  - done.
  - vm_compute. by intros.
Defined.
