(* ===== verification/OutputProcessor.v ===== *)
(** * From engine outputs to request outputs

    [vllm/vllm/v1/engine/output_processor.py], [vllm/vllm/v1/engine/parallel_sampling.py]
    and [RequestOutput.add] of [vllm/vllm/outputs.py]: the front end turns the
    tokens the engine core produces into the outputs of requests: it detokenizes
    them, detects stop strings, joins the children of a request with several
    samples, and hands outputs to the consumers through collectors that merge
    what was not fetched yet.

    Objects that several parties share are in stores: the parents of parallel
    sampling, referred to by their request id, and the collectors, referred to
    by a number.  Log-probabilities, routed experts, sampling masks, transfer
    parameters, statistics and tracing are left out; the data of a pooling output
    is an opaque number. *)

From stdpp Require Import pretty.
From S2P Require Import Prelude Detokenizer.
Local Open Scope Z_scope.

Inductive RequestOutputKind := CUMULATIVE | DELTA | FINAL_ONLY.

Inductive FinishReason := FINISH_STOP | FINISH_LENGTH | FINISH_ABORT | FINISH_ERROR | FINISH_REPETITION.

Inductive StopReason := StopToken (id : Z) | StopText (s : text).

#[export] Instance kind_eq_dec : EqDecision RequestOutputKind.
Proof. solve_decision. Defined.

#[export] Instance finish_reason_eq_dec : EqDecision FinishReason.
Proof. solve_decision. Defined.

(** ** Outputs and collectors *)

Record CompletionOutput := {
  co_index : Z;
  co_text : text;
  co_token_ids : list Z;
  co_finish_reason : option FinishReason;
  co_stop_reason : option StopReason
}.

(** [outputs] may hold the [None]s a parent request reserves for its children. *)
Record RequestOutput := {
  ro_request_id : string;
  ro_outputs : list (option CompletionOutput);
  ro_finished : bool
}.

Record PoolingRequestOutput := { po_request_id : string; po_data : Z; po_finished : bool }.

Inductive AnyOutput := ReqOut (o : RequestOutput) | PoolOut (o : PoolingRequestOutput) | ExcOut (e : exn).

(** The inner loop of [add]: the completion is merged into, or replaces, the
    first one with its index, or is appended. *)
Fixpoint add_completion (aggregate : bool) (outs : list (option CompletionOutput)) (next : CompletionOutput)
    : result (list (option CompletionOutput)) :=
  match outs with
  | [] => Ok [Some next]
  | None :: _ => Err AttributeError
  | Some c :: rest =>
      if co_index c =? co_index next then
        Ok (Some (if aggregate
                  then {| co_index := co_index c; co_text := co_text c ++ co_text next;
                          co_token_ids := co_token_ids c ++ co_token_ids next;
                          co_finish_reason := co_finish_reason next; co_stop_reason := co_stop_reason next |}
                  else next) :: rest)
      else rest' ← add_completion aggregate rest next; Ok (Some c :: rest')
  end.

(** [RequestOutput.add] *)
Definition output_add (o next : RequestOutput) (aggregate : bool) : result RequestOutput :=
  outs ← foldM (λ outs c, match c with
                          | Some c => add_completion aggregate outs c
                          | None => match outs with [] => Ok [None] | _ :: _ => Err AttributeError end
                          end) (ro_outputs o) (ro_outputs next);
  Ok {| ro_request_id := ro_request_id o; ro_outputs := outs; ro_finished := ro_finished o || ro_finished next |}.

Record Collector := { aggregate : bool; output : option AnyOutput }.

Definition new_collector (k : RequestOutputKind) : Collector :=
  {| aggregate := bool_decide (k = DELTA); output := None |}.

(** [RequestOutputCollector.put] *)
Definition collector_put (o : AnyOutput) (c : Collector) : result Collector :=
  let set x := {| aggregate := aggregate c; output := Some x |} in
  match output c, o with
  | None, _ => Ok (set o)
  | _, ExcOut e => Ok (set o)
  | Some (ReqOut o1), ReqOut o2 => o' ← output_add o1 o2 (aggregate c); Ok (set (ReqOut o'))
  | Some (PoolOut _), PoolOut o2 => Ok (set o)
  | Some _, _ => Ok c
  end.

(** [RequestOutputCollector.get_nowait]; [get] is the same once there is an
    output. *)
Definition collector_get (c : Collector) : result (option AnyOutput) * Collector :=
  let c' := {| aggregate := aggregate c; output := None |} in
  match output c with
  | Some (ExcOut e) => (Err e, c')
  | Some o => (Ok (Some o), c')
  | None => (Ok None, c)
  end.

(** ** Parallel sampling *)

(** The sampling parameters of a parent and of its children that differ. *)
Record ChildParams := { cp_n : Z; cp_seed : option Z }.

Record ParentRequest := {
  pr_request_id : string;
  pr_external_req_id : string;
  pr_n : Z;
  pr_output_kind : RequestOutputKind;
  pr_seed : option Z;
  child_requests : list string;
  output_aggregator : list (option CompletionOutput);
  cached_child_sampling_params : option ChildParams
}.

(** [ParentRequest.__init__] *)
Definition new_parent (request_id : string) (external_req_id : option string) (n : Z) (kind : RequestOutputKind)
    (seed : option Z) : result ParentRequest :=
  ext ← unwrap AssertionError external_req_id;
  Ok {| pr_request_id := request_id; pr_external_req_id := ext; pr_n := n; pr_output_kind := kind; pr_seed := seed;
        child_requests := [];
        output_aggregator := if bool_decide (kind = FINAL_ONLY) then replicate (Z.to_nat n) None else [];
        cached_child_sampling_params := None |}.

Definition set_children (p : ParentRequest) (c : list string) (a : list (option CompletionOutput))
    (s : option ChildParams) : ParentRequest :=
  {| pr_request_id := pr_request_id p; pr_external_req_id := pr_external_req_id p; pr_n := pr_n p;
     pr_output_kind := pr_output_kind p; pr_seed := pr_seed p; child_requests := c; output_aggregator := a;
     cached_child_sampling_params := s |}.

Definition _get_child_sampling_params (index : Z) (p : ParentRequest) : ChildParams * ParentRequest :=
  match cached_child_sampling_params p with
  | Some c => (c, p)
  | None =>
      match pr_seed p with
      | None =>
          let c := {| cp_n := 1; cp_seed := None |} in
          (c, set_children p (child_requests p) (output_aggregator p) (Some c))
      | Some s => ({| cp_n := 1; cp_seed := Some (s + index) |}, p)
      end
  end.

(** Adding to a set, kept in the order of first insertion. *)
Definition set_add (x : string) (l : list string) : list string := if decide (x ∈ l) then l else l ++ [x].

Definition set_discard (x : string) (l : list string) : list string := filter (λ y, y ≠ x) l.

Definition child_id (index : Z) (id : string) : string := (pretty index +:+ "_" +:+ id)%string.

Definition get_child_info (index : Z) (p : ParentRequest) : string * ChildParams * ParentRequest :=
  let child_req_id := child_id index (pr_request_id p) in
  let '(c, p) := _get_child_sampling_params index
    (set_children p (set_add child_req_id (child_requests p)) (output_aggregator p) (cached_child_sampling_params p)) in
  (child_req_id, c, p).

(** [self.output_aggregator[i] = output] *)
Definition aggregator_set (l : list (option CompletionOutput)) (i : Z) (o : CompletionOutput)
    : result (list (option CompletionOutput)) :=
  let j := if i <? 0 then i + py_len l else i in
  if (j <? 0) || (py_len l <=? j) then Err IndexError else Ok (<[Z.to_nat j := Some o]> l).

(** [ParentRequest.get_outputs] *)
Definition get_outputs (child_request_id : string) (o : CompletionOutput) (p : ParentRequest)
    : result (list (option CompletionOutput) * bool * ParentRequest) :=
  let co_finished := bool_decide (is_Some (co_finish_reason o)) in
  let known := bool_decide (child_request_id ∈ child_requests p) in
  let already_finished_and_returned := co_finished && negb known in
  let children := if co_finished then set_discard child_request_id (child_requests p) else child_requests p in
  if bool_decide (pr_output_kind p = FINAL_ONLY) then
    agg ← aggregator_set (output_aggregator p) (co_index o) o;
    Ok (if bool_decide (children = []) then agg else [], bool_decide (children = []),
        set_children p children agg (cached_child_sampling_params p))
  else
    Ok (if already_finished_and_returned then [] else [Some o], bool_decide (children = []),
        set_children p children (output_aggregator p) (cached_child_sampling_params p)).

(** ** The state of a request *)

Record StreamingUpdate := { su_prompt : option text; su_prompt_token_ids : option (list Z); su_final : bool }.

Record RequestState (S : Type) := mkRequestState {
  rs_request_id : string;
  rs_external_req_id : string;
  parent_req : option string;
  request_index : Z;
  output_kind : RequestOutputKind;
  prompt : option text;
  rs_prompt_token_ids : option (list Z);
  rs_prompt_embeds : option Z;
  prompt_len : Z;
  detokenizer : option (IncrementalDetokenizer S);
  is_prefilling : bool;
  queue : option nat;
  stream_interval : Z;
  sent_tokens_offset : Z;
  streaming_input : bool;
  input_chunk_queue : option (list StreamingUpdate)
}.
Arguments mkRequestState {S} _ _ _ _ _ _ _ _ _ _ _ _ _ _ _ _.
Arguments rs_request_id {S} _.
Arguments rs_external_req_id {S} _.
Arguments parent_req {S} _.
Arguments request_index {S} _.
Arguments output_kind {S} _.
Arguments prompt {S} _.
Arguments rs_prompt_token_ids {S} _.
Arguments rs_prompt_embeds {S} _.
Arguments prompt_len {S} _.
Arguments detokenizer {S} _.
Arguments is_prefilling {S} _.
Arguments queue {S} _.
Arguments stream_interval {S} _.
Arguments sent_tokens_offset {S} _.
Arguments streaming_input {S} _.
Arguments input_chunk_queue {S} _.

(** The parts of a new request and its parameters that are read; a pooling
    request has no [SamplingInfo]. *)
Record SamplingInfo := {
  detokenize : bool;
  si_output_kind : RequestOutputKind;
  si_stream_interval : option Z;
  si_detok : DetokRequest
}.

Record EngineCoreRequest := {
  rq_request_id : string;
  rq_external_req_id : option string;
  rq_sampling : option SamplingInfo;
  rq_pooling_kind : option RequestOutputKind;
  rq_token_ids : option (list Z);
  rq_prompt_embeds : option Z;
  rq_resumable : bool
}.

Record EngineCoreOutput := {
  eo_request_id : string;
  new_token_ids : list Z;
  pooling_output : option Z;
  finish_reason : option FinishReason;
  stop_reason : option StopReason
}.

Section RequestState.
Context {S : Type} `{DecodeStream S} `{Tokenizer}.
Implicit Types st : RequestState S.

Definition set_detok (d : option (IncrementalDetokenizer S)) st : RequestState S :=
  mkRequestState (rs_request_id st) (rs_external_req_id st) (parent_req st) (request_index st) (output_kind st)
    (prompt st) (rs_prompt_token_ids st) (rs_prompt_embeds st) (prompt_len st) d (is_prefilling st) (queue st)
    (stream_interval st) (sent_tokens_offset st) (streaming_input st) (input_chunk_queue st).

Definition set_sent (n : Z) st : RequestState S :=
  mkRequestState (rs_request_id st) (rs_external_req_id st) (parent_req st) (request_index st) (output_kind st)
    (prompt st) (rs_prompt_token_ids st) (rs_prompt_embeds st) (prompt_len st) (detokenizer st) (is_prefilling st)
    (queue st) (stream_interval st) n (streaming_input st) (input_chunk_queue st).

Definition set_prefilling (b : bool) st : RequestState S :=
  mkRequestState (rs_request_id st) (rs_external_req_id st) (parent_req st) (request_index st) (output_kind st)
    (prompt st) (rs_prompt_token_ids st) (rs_prompt_embeds st) (prompt_len st) (detokenizer st) b
    (queue st) (stream_interval st) (sent_tokens_offset st) (streaming_input st) (input_chunk_queue st).

Definition set_input (b : bool) (q : option (list StreamingUpdate)) st : RequestState S :=
  mkRequestState (rs_request_id st) (rs_external_req_id st) (parent_req st) (request_index st) (output_kind st)
    (prompt st) (rs_prompt_token_ids st) (rs_prompt_embeds st) (prompt_len st) (detokenizer st) (is_prefilling st)
    (queue st) (stream_interval st) (sent_tokens_offset st) b q.

(** An empty string is false in a condition. *)
Definition truthy {A} (l : option (list A)) : bool := match l with Some (_ :: _) => true | _ => false end.

Definition apply_streaming_update (u : StreamingUpdate) st : RequestState S :=
  let prompt' :=
    if truthy (su_prompt u)
    then (if truthy (prompt st) then Some (default [] (prompt st) ++ default [] (su_prompt u)) else su_prompt u)
    else prompt st in
  let ids :=
    if truthy (rs_prompt_token_ids st) then default [] (rs_prompt_token_ids st) ++ default [] (su_prompt_token_ids u)
    else default [] (su_prompt_token_ids u) in
  mkRequestState (rs_request_id st) (rs_external_req_id st) (parent_req st) (request_index st) (output_kind st)
    prompt' (Some ids) (rs_prompt_embeds st) (py_len ids) (detokenizer st) true (queue st)
    (stream_interval st) (sent_tokens_offset st) (negb (su_final u)) (input_chunk_queue st).

(** [RequestState.from_new_request] and [__init__]. *)
Definition new_request_state (tok : TokenizerKind) (r : EngineCoreRequest) (prompt : option text)
    (parent : option string) (index : Z) (queue : option nat) (interval : Z) : result (RequestState S) :=
  '(detok, kind, interval) ←
    match rq_sampling r with
    | Some s =>
        let tok := if detokenize s then tok else NoTok in
        let interval := match si_stream_interval s with Some i => Z.max i interval | None => interval end in
        d ← from_new_request tok (si_detok s);
        Ok (Some d, si_output_kind s, interval)
    | None => k ← unwrap AssertionError (rq_pooling_kind r); Ok (None, k, interval)
    end;
  ext ← unwrap AssertionError (rq_external_req_id r);
  n ← length_from_prompt_token_ids_or_embeds (rq_token_ids r) (rq_prompt_embeds r);
  Ok (mkRequestState (rq_request_id r) ext parent index kind prompt (rq_token_ids r) (rq_prompt_embeds r) n detok
        true queue interval 0 (rq_resumable r) (if rq_resumable r then Some [] else None)).

(** [_new_completion_output] *)
Definition _new_completion_output (token_ids : list Z) (finish : option FinishReason) (stop : option StopReason) st
    : result (CompletionOutput * RequestState S) :=
  d ← unwrap AssertionError (detokenizer st);
  let finished := bool_decide (is_Some finish) in
  let delta := bool_decide (output_kind st = DELTA) in
  let '(t, d) := detok_next_text finished delta d in
  let token_ids := if delta then token_ids else detok_output_token_ids d in
  Ok ({| co_index := request_index st; co_text := t; co_token_ids := token_ids;
         co_finish_reason := finish; co_stop_reason := if finished then stop else None |},
      set_detok (Some d) st).

(** The prompt token ids every output carries. *)
Definition check_prompt st : result unit :=
  py_assert (bool_decide (is_Some (rs_prompt_token_ids st)) || bool_decide (is_Some (rs_prompt_embeds st))).

(** The part of [make_request_output] that holds outputs back until
    [stream_interval] tokens are there; [None] means that nothing is sent. *)
Definition apply_stream_interval (new_token_ids : list Z) (finished : bool) st : result (option (list Z * RequestState S)) :=
  if 1 <? stream_interval st then
    d ← unwrap AssertionError (detokenizer st);
    if finished || (sent_tokens_offset st =? 0) ||
       (stream_interval st <=? detok_num_output_tokens d - sent_tokens_offset st)
    then
      if bool_decide (output_kind st = DELTA)
      then Ok (Some (py_from (detok_output_token_ids d) (sent_tokens_offset st),
                     set_sent (detok_num_output_tokens d) st))
      else Ok (Some (new_token_ids, st))
    else Ok None
  else Ok (Some (new_token_ids, st)).

(** [make_request_output] *)
Definition make_request_output (new_token_ids : list Z) (pooling : option Z) (finish : option FinishReason)
    (stop : option StopReason) (parents : gmap string ParentRequest) st
    : result (option AnyOutput * RequestState S * gmap string ParentRequest) :=
  let finished := bool_decide (is_Some finish) in
  if negb finished && bool_decide (output_kind st = FINAL_ONLY) then Ok (None, st, parents)
  else
    held ← apply_stream_interval new_token_ids finished st;
    match held with
    | None => Ok (None, st, parents)
    | Some (ids, st) =>
        match pooling with
        | Some data =>
            _ ← check_prompt st;
            Ok (Some (PoolOut {| po_request_id := rs_external_req_id st; po_data := data; po_finished := finished |}), st, parents)
        | None =>
            '(o, st) ← _new_completion_output ids finish stop st;
            match parent_req st with
            | None =>
                _ ← check_prompt st;
                Ok (Some (ReqOut {| ro_request_id := rs_external_req_id st; ro_outputs := [Some o]; ro_finished := finished |}), st, parents)
            | Some pid =>
                p ← unwrap KeyError (parents !! pid);
                '(outs, finished, p) ← get_outputs (rs_request_id st) o p;
                let parents := <[pid := p]> parents in
                if bool_decide (outs = []) then Ok (None, st, parents)
                else
                  _ ← check_prompt st;
                  Ok (Some (ReqOut {| ro_request_id := pr_external_req_id p; ro_outputs := outs; ro_finished := finished |}), st, parents)
            end
        end
    end.
End RequestState.

(** ** The output processor *)

Record OutputProcessor (S : Type) := mkProcessor {
  op_stream_interval : Z;
  op_tokenizer : TokenizerKind;
  request_states : gmap string (RequestState S);
  (** the dictionary [parent_requests], and the parents it or a request state
      refers to *)
  parent_requests : gset string;
  parents : gmap string ParentRequest;
  external_req_ids : gmap string (list string);
  collectors : gmap nat Collector
}.
Arguments mkProcessor {S} _ _ _ _ _ _ _.
Arguments op_stream_interval {S} _.
Arguments op_tokenizer {S} _.
Arguments request_states {S} _.
Arguments parent_requests {S} _.
Arguments parents {S} _.
Arguments external_req_ids {S} _.
Arguments collectors {S} _.

(** [l.remove(x)] *)
Fixpoint list_remove (x : string) (l : list string) : result (list string) :=
  match l with
  | [] => Err ValueError
  | y :: l' => if decide (y = x) then Ok l' else l'' ← list_remove x l'; Ok (y :: l'')
  end.

Section Processor.
Context {S : Type} `{DecodeStream S} `{Tokenizer}.
Implicit Types op : OutputProcessor S.

Definition set_requests (m : gmap string (RequestState S)) op : OutputProcessor S :=
  mkProcessor (op_stream_interval op) (op_tokenizer op) m (parent_requests op) (parents op) (external_req_ids op) (collectors op).
Definition set_parents (d : gset string) (m : gmap string ParentRequest) op : OutputProcessor S :=
  mkProcessor (op_stream_interval op) (op_tokenizer op) (request_states op) d m (external_req_ids op) (collectors op).
Definition set_external (m : gmap string (list string)) op : OutputProcessor S :=
  mkProcessor (op_stream_interval op) (op_tokenizer op) (request_states op) (parent_requests op) (parents op) m (collectors op).
Definition set_collectors (m : gmap nat Collector) op : OutputProcessor S :=
  mkProcessor (op_stream_interval op) (op_tokenizer op) (request_states op) (parent_requests op) (parents op) (external_req_ids op) m.

Definition new_output_processor (interval : Z) (tok : TokenizerKind) : OutputProcessor S :=
  mkProcessor interval tok ∅ ∅ ∅ ∅ ∅.

Definition get_num_unfinished_requests op : Z := Z.of_nat (size (request_states op)).

Definition has_unfinished_requests op : bool := 0 <? Z.of_nat (size (request_states op)).

Definition has_request (id : string) op : bool := bool_decide (is_Some (request_states op !! id)).

Definition get_num_queued_tokens op : Z :=
  map_fold (λ _ st n, (if is_prefilling st then prompt_len st else 0) + n) 0 (request_states op).

(** Putting an output into the collector of a request. *)
Definition put_output (q : nat) (o : AnyOutput) op : result (OutputProcessor S) :=
  c ← unwrap KeyError (collectors op !! q);
  c ← collector_put o c;
  Ok (set_collectors (<[q := c]> (collectors op)) op).

(** Taking a request id out of the external mapping; an empty list goes. *)
Definition drop_external (ext id : string) op : result (OutputProcessor S) :=
  ids ← list_remove id (default [] (external_req_ids op !! ext));
  Ok (set_external (match ids with [] => delete ext (external_req_ids op) | _ => <[ext := ids]> (external_req_ids op) end) op).

(** [propagate_error] *)
Definition propagate_error (e : exn) op : result (OutputProcessor S) :=
  foldM (λ op '(_, st), q ← unwrap AssertionError (queue st); put_output q (ExcOut e) op) op
    (map_to_list (request_states op)).

(** [_finish_request] *)
Definition _finish_request (st : RequestState S) op : result (OutputProcessor S) :=
  _ ← unwrap KeyError (request_states op !! rs_request_id st);
  let op := set_requests (delete (rs_request_id st) (request_states op)) op in
  op ← drop_external (rs_external_req_id st) (rs_request_id st) op;
  match parent_req st with
  | Some pid =>
      p ← unwrap KeyError (parents op !! pid);
      Ok (if bool_decide (child_requests p = []) then set_parents (parent_requests op ∖ {[pid]}) (parents op) op else op)
  | None => Ok op
  end.

(** The output that ends a streaming session. *)
Definition STREAM_FINISHED : RequestOutput := {| ro_request_id := EmptyString; ro_outputs := []; ro_finished := true |}.

(** [_update_streaming_request_state] *)
Definition _update_streaming_request_state (st : RequestState S) (r : EngineCoreRequest) (prompt : option text) op
    : result (OutputProcessor S) :=
  let store st := set_requests (<[rs_request_id st := st]> (request_states op)) op in
  if negb (rq_resumable r) then
    match input_chunk_queue st with
    | None =>
        op ← _finish_request st op;
        match queue st with Some q => put_output q (ReqOut STREAM_FINISHED) op | None => Ok op end
    | Some (u :: us) =>
        let l := u :: us in
        let mark (u : StreamingUpdate) :=
          {| su_prompt := su_prompt u; su_prompt_token_ids := su_prompt_token_ids u; su_final := true |} in
        Ok (store (set_input (streaming_input st) (Some (alter mark (length us) l)) st))
    | Some [] => Ok (store (set_input false (Some []) st))
    end
  else
    let u := {| su_prompt := prompt; su_prompt_token_ids := rq_token_ids r; su_final := false |} in
    match input_chunk_queue st with
    | None => let st := apply_streaming_update u st in Ok (store (set_input (streaming_input st) (Some []) st))
    | Some l => Ok (store (set_input (streaming_input st) (Some (l ++ [u])) st))
    end.

(** [add_request]; [parent] refers to an object of [parents]. *)
Definition add_request (r : EngineCoreRequest) (prompt : option text) (parent : option string) (index : Z)
    (queue : option nat) op : result (OutputProcessor S) :=
  match request_states op !! rq_request_id r with
  | Some st => _update_streaming_request_state st r prompt op
  | None =>
      st ← new_request_state (op_tokenizer op) r prompt parent index queue (op_stream_interval op);
      let op := set_requests (<[rq_request_id r := st]> (request_states op)) op in
      let op := match parent with Some pid => set_parents ({[pid]} ∪ parent_requests op) (parents op) op | None => op end in
      let ext := rs_external_req_id st in
      Ok (set_external (<[ext := default [] (external_req_ids op !! ext) ++ [rq_request_id r]]> (external_req_ids op)) op)
  end.

(** The first loop of [abort_requests]: the internal ids. *)
Definition resolve_abort (internal : bool) (s : list string * OutputProcessor S) (request_id : string)
    : result (list string * OutputProcessor S) :=
  let '(ids, op) := s in
  if internal then
    match request_states op !! request_id with
    | Some st => op ← drop_external (rs_external_req_id st) request_id op; Ok (ids ++ [request_id], op)
    | None => Ok (ids ++ [request_id], op)
    end
  else
    match external_req_ids op !! request_id with
    | Some (i :: rest) => Ok (ids ++ i :: rest, set_external (delete request_id (external_req_ids op)) op)
    | _ => Ok (ids, set_external (delete request_id (external_req_ids op)) op)
    end.

(** The final output of an aborted request. *)
Definition abort_output (st : RequestState S) op : result (OutputProcessor S) :=
  match queue st with
  | None => Ok op
  | Some q =>
      '(o, _, ps) ← make_request_output [] (match detokenizer st with Some _ => None | None => Some 0 end) (Some FINISH_ABORT) None (parents op) st;
      let op := set_parents (parent_requests op) ps op in
      match o with Some o => put_output q o op | None => Ok op end
  end.

(** The body of the second loop of [abort_requests]; [rec] aborts the children
    of a parent. *)
Definition abort_one (rec : list string → OutputProcessor S → result (list string * OutputProcessor S))
    (set_order : list string → list string) (s : list string * OutputProcessor S) (request_id : string)
    : result (list string * OutputProcessor S) :=
  let '(aborted, op) := s in
  match request_states op !! request_id with
  | Some st =>
      op ← abort_output st (set_requests (delete request_id (request_states op)) op);
      Ok (aborted ++ [request_id], op)
  | None =>
      if decide (request_id ∈ parent_requests op) then
        p ← unwrap KeyError (parents op !! request_id);
        '(child, op) ← (if bool_decide (child_requests p = []) then Ok ([], op)
                        else rec (set_order (child_requests p)) op);
        Ok (aborted ++ child, set_parents (parent_requests op ∖ {[request_id]}) (parents op) op)
      else Ok (aborted, op)
  end.

(** [abort_requests]; the recursion goes from a parent to its children, whose
    order in the set is [set_order]. *)
Fixpoint abort_requests (fuel : nat) (set_order : list string → list string) (request_ids : list string) (internal : bool)
    op : result (list string * OutputProcessor S) :=
  match fuel with
  | O => Err OutOfFuel
  | Datatypes.S fuel' =>
      '(internal_req_ids, op) ← foldM (resolve_abort internal) ([], op) request_ids;
      foldM (abort_one (λ ids op, abort_requests fuel' set_order ids true op) set_order) ([], op) internal_req_ids
  end.

(** What happens to a request whose output has a finish reason. *)
Definition complete_request (st : RequestState S) (eo : EngineCoreOutput) (reqs_to_abort : list string) op
    : result (list string * OutputProcessor S) :=
  if streaming_input st then
    let st := match input_chunk_queue st with
              | Some (u :: us) => apply_streaming_update u (set_input (streaming_input st) (Some us) st)
              | _ => set_input (streaming_input st) None st
              end in
    Ok (reqs_to_abort, set_requests (<[rs_request_id st := st]> (request_states op)) op)
  else
    op ← _finish_request st op;
    Ok (if bool_decide (finish_reason eo = None) then reqs_to_abort ++ [eo_request_id eo] else reqs_to_abort, op).

(** The body of the loop of [process_outputs]: the accumulators are
    [request_outputs] and [reqs_to_abort]. *)
Definition process_output (s : list AnyOutput * list string * OutputProcessor S) (eo : EngineCoreOutput)
    : result (list AnyOutput * list string * OutputProcessor S) :=
  let '(request_outputs, reqs_to_abort, op) := s in
  match request_states op !! eo_request_id eo with
  | None => Ok s
  | Some st =>
      let st := set_prefilling false st in
      '(st, finish, stop) ←
        match pooling_output eo with
        | Some _ => Ok (st, finish_reason eo, stop_reason eo)
        | None =>
            d ← unwrap AssertionError (detokenizer st);
            '(stop_string, d) ← detok_update (new_token_ids eo) (bool_decide (finish_reason eo = Some FINISH_STOP)) d;
            let st := set_detok (Some d) st in
            match stop_string with
            | Some (c :: s) => Ok (st, Some FINISH_STOP, Some (StopText (c :: s)))
            | _ => Ok (st, finish_reason eo, stop_reason eo)
            end
        end;
      '(o, st, ps) ← make_request_output (new_token_ids eo) (pooling_output eo) finish stop (parents op) st;
      let op := set_parents (parent_requests op) ps (set_requests (<[eo_request_id eo := st]> (request_states op)) op) in
      '(request_outputs, op) ←
        match o with
        | None => Ok (request_outputs, op)
        | Some o =>
            let o := if streaming_input st
                     then match o with
                          | ReqOut o => ReqOut {| ro_request_id := ro_request_id o; ro_outputs := ro_outputs o; ro_finished := false |}
                          | PoolOut o => PoolOut {| po_request_id := po_request_id o; po_data := po_data o; po_finished := false |}
                          | ExcOut e => ExcOut e
                          end
                     else o in
            match queue st with
            | Some q => op ← put_output q o op; Ok (request_outputs, op)
            | None => Ok (request_outputs ++ [o], op)
            end
        end;
      match finish with
      | None => Ok (request_outputs, reqs_to_abort, op)
      | Some _ =>
          '(reqs_to_abort, op) ← complete_request st eo reqs_to_abort op;
          Ok (request_outputs, reqs_to_abort, op)
      end
  end.

(** [process_outputs] *)
Definition process_outputs (outs : list EngineCoreOutput) op
    : result (list AnyOutput * list string * OutputProcessor S) :=
  foldM process_output ([], [], op) outs.
End Processor.

Lemma list_remove_in x l : x ∈ l → ∃ l', list_remove x l = Ok l'.
Proof.
  induction l as [|y l IH]; simpl; [by intros ?%elem_of_nil|]. intros Hx. case_decide; [eauto|].
  destruct IH as [l' ->]; [set_solver|]. by eexists.
Qed.
