(* ===== verification/OutputStream.v ===== *)
(** * Streaming the output of a request

    [OutputProcessor] and [Detokenizer] together: the deltas of a request that
    reach its consumer, through the stream interval and a collector that merges
    what was not fetched in time, are the text and token ids of the detokenizer
    run alone. *)

From S2P Require Import Prelude Detokenizer OutputProcessor.
Local Open Scope Z_scope.

(** ** The detokenizer behind the interface of the processor *)

Section AnyDetok.
Context {S : Type} `{DecodeStream S} `{Tokenizer}.
Implicit Types d : IncrementalDetokenizer S.

Definition detok_text d : text :=
  match d with
  | NoTokenizer _ => []
  | FastIncrementalDetokenizer d => output_text d
  | SlowIncrementalDetokenizer d => output_text d
  end.

(** The text that was handed out. *)
Definition detok_sent d : text :=
  match d with
  | NoTokenizer _ => []
  | FastIncrementalDetokenizer d => sent_text d
  | SlowIncrementalDetokenizer d => sent_text d
  end.

(** A detokenizer in the middle of a request. *)
Definition detok_ok d : Prop :=
  match d with
  | NoTokenizer _ => True
  | FastIncrementalDetokenizer d => det_inv d ∧ prompt_ok d
  | SlowIncrementalDetokenizer d => det_inv d ∧ prompt_ok d
  end.

(** A detokenizer that may hand out the rest of its text. *)
Definition can_close {D} `{Decoder D} (d : Detokenizer D) : Prop :=
  0 ≤ last_output_text_offset d ∧ (Z.to_nat (last_output_text_offset d) ≤ length (output_text d))%nat ∧ prompt_ok d.

Definition detok_closing d : Prop :=
  match d with
  | NoTokenizer _ => True
  | FastIncrementalDetokenizer d => can_close d
  | SlowIncrementalDetokenizer d => can_close d
  end.

Lemma base_update_ok {D} `{LawfulDecoder D} l term (d d' : Detokenizer D) r :
  det_inv d → prompt_ok d → update l term d = Ok (r, d') →
  output_token_ids d' = output_token_ids d ++ l ∧ sent_text d' = sent_text d ∧ can_close d' ∧
  match r with None => det_inv d' ∧ prompt_ok d' | Some s => s ≠ [] end.
Proof.
  intros Hinv Hp Hrun. destruct (update_output_ids _ _ _ _ _ Hinv Hp Hrun) as [Hp' Hids].
  destruct (update_spec _ _ _ _ _ Hinv Hrun) as (_ & Hoff & _ & Hsent & Hle & Hr).
  split; [done|]. split; [done|]. split; [split; [rewrite Hoff; apply Hinv|done]|].
  destruct r as [s|]; [|tauto]. by apply (proj1 (Forall_forall _ _) (di_stop d Hinv)).
Qed.

Lemma detok_update_ok l term d r d' :
  detok_ok d → detok_update l term d = Ok (r, d') →
  detok_output_token_ids d' = detok_output_token_ids d ++ l ∧ detok_sent d' = detok_sent d ∧ detok_closing d' ∧
  match r with None => detok_ok d' | Some s => s ≠ [] end.
Proof.
  destruct d as [ids|d|d]; cbn [detok_update detok_ok].
  - by intros _ [= <- <-].
  - intros [Hinv Hp] Hrun. apply bind_Ok in Hrun as ([r1 d1] & Hrun & [= <- <-]).
    exact (base_update_ok _ _ _ _ _ Hinv Hp Hrun).
  - intros [Hinv Hp] Hrun. apply bind_Ok in Hrun as ([r1 d1] & Hrun & [= <- <-]).
    exact (base_update_ok _ _ _ _ _ Hinv Hp Hrun).
Qed.

Lemma base_delta_ok {D} `{Decoder D} (d d' : Detokenizer D) t :
  det_inv d → prompt_ok d → get_next_output_text false true d = (t, d') →
  (det_inv d' ∧ prompt_ok d') ∧ sent_text d' = sent_text d ++ t ∧ output_token_ids d' = output_token_ids d.
Proof.
  intros Hinv Hp Hrun. destruct (delta_spec _ _ _ Hinv Hrun) as (Hinv' & _ & _ & Hids & Hc & Hsent).
  unfold output_token_ids, prompt_ok. rewrite Hids, Hc. done.
Qed.

Lemma detok_delta_ok d t d' :
  detok_ok d → detok_next_text false true d = (t, d') →
  detok_ok d' ∧ detok_sent d' = detok_sent d ++ t ∧ detok_output_token_ids d' = detok_output_token_ids d.
Proof.
  destruct d as [ids|d|d]; cbn [detok_next_text detok_ok].
  - by intros _ [= <- <-].
  - intros [Hinv Hp]. destruct (get_next_output_text false true d) as [t1 d1] eqn:Hrun. intros [= <- <-].
    by apply base_delta_ok.
  - intros [Hinv Hp]. destruct (get_next_output_text false true d) as [t1 d1] eqn:Hrun. intros [= <- <-].
    by apply base_delta_ok.
Qed.

Lemma detok_last_ok d t d' :
  detok_closing d → detok_next_text true true d = (t, d') →
  detok_sent d ++ t = detok_text d ∧ detok_output_token_ids d' = detok_output_token_ids d.
Proof.
  destruct d as [ids|d|d]; cbn [detok_next_text detok_closing].
  - by intros _ [= <- <-].
  - intros (H1 & H2 & _). destruct (get_next_output_text true true d) as [t1 d1] eqn:Hrun. intros [= <- <-].
    destruct (last_delta_spec _ _ _ H1 H2 Hrun) as (_ & Hids & Hc & Ht). cbn [detok_output_token_ids].
    unfold output_token_ids. by rewrite Hids, Hc.
  - intros (H1 & H2 & _). destruct (get_next_output_text true true d) as [t1 d1] eqn:Hrun. intros [= <- <-].
    destruct (last_delta_spec _ _ _ H1 H2 Hrun) as (_ & Hids & Hc & Ht). cbn [detok_output_token_ids].
    unfold output_token_ids. by rewrite Hids, Hc.
Qed.

Lemma detok_num d : detok_closing d → detok_num_output_tokens d = py_len (detok_output_token_ids d).
Proof. destruct d; [done|intros (_ & _ & ?); symmetry; by apply output_ids_num..]. Qed.

Lemma detok_ok_closing d : detok_ok d → detok_closing d.
Proof.
  destruct d; cbn; [done|intros [Hi ?]..]; (split; [apply Hi|]; split; [by apply sent_bound|done]).
Qed.
End AnyDetok.

(** ** A streaming request and its consumer *)

(** The text and the token ids in an output. *)
Definition any_text (o : AnyOutput) : text :=
  match o with ReqOut o => concat ((λ c, match c with Some c => co_text c | None => [] end) <$> ro_outputs o) | _ => [] end.

Definition any_ids (o : AnyOutput) : list Z :=
  match o with ReqOut o => concat ((λ c, match c with Some c => co_token_ids c | None => [] end) <$> ro_outputs o) | _ => [] end.

Definition any_finished (o : AnyOutput) : bool :=
  match o with ReqOut o => ro_finished o | PoolOut o => po_finished o | ExcOut _ => false end.

Definition texts (l : list AnyOutput) : text := concat (any_text <$> l).
Definition ids_of (l : list AnyOutput) : list Z := concat (any_ids <$> l).
Definition finished_in (l : list AnyOutput) : bool := existsb any_finished l.

(** A collector of a single completion. *)
Definition mergeable (idx : Z) (c : Collector) : Prop :=
  aggregate c = true ∧
  match output c with
  | None => True
  | Some (ReqOut o) => ∃ co, ro_outputs o = [Some co] ∧ co_index co = idx
  | Some _ => False
  end.

Lemma put_merges idx c ext co fin :
  mergeable idx c → co_index co = idx →
  ∃ c', collector_put (ReqOut {| ro_request_id := ext; ro_outputs := [Some co]; ro_finished := fin |}) c = Ok c' ∧
    mergeable idx c' ∧
    texts (option_list (output c')) = texts (option_list (output c)) ++ co_text co ∧
    ids_of (option_list (output c')) = ids_of (option_list (output c)) ++ co_token_ids co ∧
    finished_in (option_list (output c')) = finished_in (option_list (output c)) || fin.
Proof.
  intros [Hagg Hm] Hidx. unfold collector_put. destruct (output c) as [[o|o|e]|] eqn:Ho; [|done..|].
  - destruct Hm as (co0 & Hout & Hi). unfold output_add. rewrite Hout. cbn [ro_outputs foldM mbind result_bind add_completion].
    rewrite Hi, Hidx, Z.eqb_refl. cbn [mbind result_bind]. eexists. split; [done|]. unfold mergeable. cbn [aggregate output].
    split; [split; [done|]; eexists; split; [reflexivity|]; cbn [co_index]; by rewrite Hagg|]. rewrite Hagg. unfold texts, ids_of, finished_in. simpl. rewrite Hout. simpl.
    by rewrite !app_nil_r, !orb_false_r.
  - eexists. split; [done|]. unfold mergeable. cbn [aggregate output]. split; [split; [done|]; by eexists|].
    unfold texts, ids_of, finished_in. simpl. by rewrite !app_nil_r, orb_false_r.
Qed.

Section Stream.
Context {S : Type} `{DecodeStream S} `{Tokenizer}.
Context (id : string) (q : nat).
Implicit Types (op : OutputProcessor S) (d : IncrementalDetokenizer S) (st : RequestState S).

Definition with_offset (o : Z) d : IncrementalDetokenizer S :=
  match d with
  | NoTokenizer ids => NoTokenizer ids
  | FastIncrementalDetokenizer d => FastIncrementalDetokenizer (set_offset o d)
  | SlowIncrementalDetokenizer d => SlowIncrementalDetokenizer (set_offset o d)
  end.

Lemma detok_update_offset o l term d :
  detok_update l term (with_offset o d) = ('(r, d') ← detok_update l term d; Ok (r, with_offset o d')).
Proof. destruct d; cbn [detok_update with_offset]; [done|rewrite update_offset; by destruct (update l term d) as [[]|]..]. Qed.

(** A request whose deltas go to collector [q]. *)
Record delta_state st d : Prop := {
  dl_id : rs_request_id st = id;
  dl_queue : queue st = Some q;
  dl_parent : parent_req st = None;
  dl_kind : output_kind st = DELTA;
  dl_detok : detokenizer st = Some d;
  dl_input : streaming_input st = false;
  dl_prompt : check_prompt st = Ok tt
}.

(** The token ids that were handed out. *)
Definition sent_ids st d : list Z :=
  if 1 <? stream_interval st then take (Z.to_nat (sent_tokens_offset st)) (detok_output_token_ids d)
  else detok_output_token_ids d.

(** The request runs, and the outputs [got] and what is in the collector make
    up what the detokenizer handed out. *)
Record streaming (got : list AnyOutput) d op : Prop := {
  sm_state : ∃ st, request_states op !! id = Some st ∧ delta_state st d ∧
    0 ≤ sent_tokens_offset st ≤ py_len (detok_output_token_ids d) ∧
    (∃ l, external_req_ids op !! rs_external_req_id st = Some l ∧ id ∈ l) ∧
    ∃ c, collectors op !! q = Some c ∧ mergeable (request_index st) c ∧
      texts (got ++ option_list (output c)) = detok_sent d ∧
      ids_of (got ++ option_list (output c)) = sent_ids st d ∧
      finished_in (got ++ option_list (output c)) = false;
  sm_detok : detok_ok d
}.

(** The request has finished with the detokenizer [d]. *)
Record streamed (got : list AnyOutput) d op : Prop := {
  sd_gone : request_states op !! id = None;
  sd_collector : ∃ c, collectors op !! q = Some c ∧ (∃ idx, mergeable idx c) ∧
    texts (got ++ option_list (output c)) = detok_text d ∧
    ids_of (got ++ option_list (output c)) = detok_output_token_ids d ∧
    finished_in (got ++ option_list (output c)) = true
}.

Lemma make_delta st d ids fin stop ps :
  delta_state st d →
  make_request_output ids None fin stop ps st =
    let finished := bool_decide (is_Some fin) in
    if (1 <? stream_interval st) && negb (finished || (sent_tokens_offset st =? 0) ||
         (stream_interval st <=? detok_num_output_tokens d - sent_tokens_offset st))
    then Ok (None, st, ps)
    else
      let '(t, d') := detok_next_text finished true d in
      let toks := if 1 <? stream_interval st then py_from (detok_output_token_ids d) (sent_tokens_offset st) else ids in
      Ok (Some (ReqOut {| ro_request_id := rs_external_req_id st;
                          ro_outputs := [Some {| co_index := request_index st; co_text := t; co_token_ids := toks;
                            co_finish_reason := fin; co_stop_reason := if finished then stop else None |}];
                          ro_finished := finished |}),
          set_detok (Some d') (if 1 <? stream_interval st then set_sent (detok_num_output_tokens d) st else st), ps).
Proof.
  intros [H1 H2 H3 H4 H5 H6 H7]. unfold make_request_output, apply_stream_interval, _new_completion_output.
  rewrite H4, (bool_decide_false (DELTA = FINAL_ONLY)) by done. rewrite andb_false_r.
  destruct (1 <? stream_interval st); cbn [andb].
  - rewrite H5. cbn [unwrap mbind result_bind].
    destruct (bool_decide (is_Some fin) || _ || _); cbn [negb mbind result_bind]; [|done].
    rewrite (bool_decide_true (DELTA = DELTA)) by done.
    cbn [mbind result_bind unwrap detokenizer set_sent parent_req output_kind].
    rewrite H5. cbn [mbind result_bind unwrap]. rewrite H4, (bool_decide_true (DELTA = DELTA)) by done.
    destruct (detok_next_text _ _ d) as [t d']. cbn [mbind result_bind]. cbn [parent_req set_detok set_sent]. rewrite H3.
    change (check_prompt (set_detok _ _)) with (check_prompt st). rewrite H7. done.
  - cbn [mbind result_bind]. rewrite H5. cbn [mbind result_bind unwrap]. rewrite H4, (bool_decide_true (DELTA = DELTA)) by done.
    destruct (detok_next_text _ _ d) as [t d']. cbn [mbind result_bind]. cbn [parent_req set_detok]. rewrite H3.
    change (check_prompt (set_detok _ _)) with (check_prompt st). rewrite H7. done.
Qed.

Lemma texts_app l k : texts (l ++ k) = texts l ++ texts k.
Proof. unfold texts. by rewrite fmap_app, concat_app. Qed.

Lemma ids_of_app l k : ids_of (l ++ k) = ids_of l ++ ids_of k.
Proof. unfold ids_of. by rewrite fmap_app, concat_app. Qed.

Lemma finished_in_app l k : finished_in (l ++ k) = finished_in l || finished_in k.
Proof. apply existsb_app. Qed.

Lemma next_text_offset d fin : ∃ o, snd (detok_next_text fin true d) = with_offset o d.
Proof.
  assert (∀ D (d : Detokenizer D), ∃ o, snd (get_next_output_text fin true d) = set_offset o d) as Hb.
  { intros D d0. unfold get_next_output_text. cbn [negb]. destruct (_ <? _); [by eexists|].
    exists (last_output_text_offset d0). by destruct d0. }
  destruct d as [ids|d|d]; cbn [detok_next_text].
  - by exists 0.
  - destruct (Hb _ d) as [o Ho]. destruct (get_next_output_text fin true d). exists o. simpl in *. by rewrite Ho.
  - destruct (Hb _ d) as [o Ho]. destruct (get_next_output_text fin true d). exists o. simpl in *. by rewrite Ho.
Qed.

(** What an output adds completes the token ids. *)
Lemma send_ids st d d1 new :
  detok_output_token_ids d1 = detok_output_token_ids d ++ new →
  0 ≤ sent_tokens_offset st ≤ py_len (detok_output_token_ids d) →
  sent_ids st d ++ (if 1 <? stream_interval st then py_from (detok_output_token_ids d1) (sent_tokens_offset st) else new) =
    detok_output_token_ids d1.
Proof.
  intros Hids [? Hle]. unfold sent_ids. destruct (1 <? stream_interval st); [|done].
  rewrite py_from_nonneg by done. rewrite <-(take_drop (Z.to_nat (sent_tokens_offset st)) (detok_output_token_ids d1)) at 2.
  f_equal. rewrite Hids, take_app_le; [done|]. unfold py_len in Hle. lia.
Qed.

(** The first half of [process_output] for a streaming request. *)
Lemma delta_updated st d d1 :
  delta_state st d → delta_state (set_detok (Some d1) (set_prefilling false st)) d1.
Proof. intros [H1 H2 H3 H4 H5 H6 H7]. by split. Qed.

Lemma out_continues got d op eo d1 :
  streaming got d op → eo_request_id eo = id → pooling_output eo = None → finish_reason eo = None →
  detok_update (new_token_ids eo) false d = Ok (None, d1) →
  ∃ op' o, process_outputs [eo] op = Ok ([], [], op') ∧ streaming got (with_offset o d1) op'.
Proof.
  intros [(st & Hst & Hdl & Hsent & Hext & c & Hc & Hm & Ht & Hi & Hf) Hok] Hid Hpool Hfin Hupd.
  destruct (detok_update_ok _ _ _ _ _ Hok Hupd) as (Hids & Hsame & Hclose & Hok1).
  pose proof (delta_updated st d d1 Hdl) as Hdl1. set (st1 := set_detok (Some d1) (set_prefilling false st)) in *.
  unfold process_outputs. cbn [foldM]. unfold process_output. rewrite Hid, Hst, Hpool.
  change (detokenizer (set_prefilling false st)) with (detokenizer st). rewrite (dl_detok _ _ Hdl), Hfin.
  rewrite (bool_decide_false (None = Some FINISH_STOP)) by done. cbn [unwrap mbind result_bind]. rewrite Hupd.
  cbn [mbind result_bind]. fold st1. rewrite (make_delta st1 d1) by done.
  rewrite (bool_decide_false (is_Some (@None FinishReason))) by by intros [? ?]. cbv zeta.
  change (stream_interval st1) with (stream_interval st). change (sent_tokens_offset st1) with (sent_tokens_offset st).
  rewrite detok_num by done.
  assert (py_len (detok_output_token_ids d) ≤ py_len (detok_output_token_ids d1)) as Hgrow.
  { rewrite Hids, py_len_app. pose proof (py_len_nonneg (new_token_ids eo)). lia. }
  destruct ((1 <? stream_interval st) && negb _) eqn:Hhold.
  - cbn [mbind result_bind]. exists (set_parents (parent_requests op) (parents op) (set_requests (<[id := st1]> (request_states op)) op)).
    assert (∃ o, with_offset o d1 = d1) as [o Ho].
    { destruct d1 as [?|d0|d0]; [by exists 0|exists (last_output_text_offset d0); by destruct d0..]. }
    exists o. rewrite Ho. split; [done|]. split; [|done]. exists st1. split; [by cbn; rewrite lookup_insert_eq|].
    split; [done|]. split; [change (sent_tokens_offset st1) with (sent_tokens_offset st); lia|]. split; [done|].
    exists c. split; [done|]. split; [done|]. split; [by rewrite Ht, Hsame|]. split; [|done]. rewrite Hi.
    unfold sent_ids. change (stream_interval st1) with (stream_interval st). change (sent_tokens_offset st1) with (sent_tokens_offset st).
    apply andb_true_iff in Hhold as [-> _]. rewrite Hids, take_app_le; [done|]. unfold py_len in *. lia.
  - destruct (next_text_offset d1 false) as [o Ho]. destruct (detok_next_text false true d1) as [t d2] eqn:Hnext. cbn [snd] in Ho. subst d2.
    destruct (detok_delta_ok _ _ _ Hok1 Hnext) as (Hok2 & Hsent2 & Hids2).
    cbn [mbind result_bind].
    set (st2 := set_detok _ _). set (co := Build_CompletionOutput _ _ _ _ _).
    assert (delta_state st2 (with_offset o d1)) as Hdl2.
    { unfold st2. destruct (1 <? stream_interval st); destruct Hdl1; by split. }
    rewrite (dl_input _ _ Hdl2), (dl_queue _ _ Hdl2). unfold put_output. cbn [collectors set_parents set_requests].
    rewrite Hc. cbn [unwrap mbind result_bind].
    destruct (put_merges (request_index st) c (rs_external_req_id st1) co false Hm eq_refl) as (c' & -> & Hm' & Ht' & Hi' & Hf').
    cbn [mbind result_bind]. eexists _, o. split; [done|]. split; [|done].
    exists st2. split; [by cbn; rewrite lookup_insert_eq|]. split; [done|].
    assert (sent_ids st2 (with_offset o d1) = detok_output_token_ids d1 ∧
      0 ≤ sent_tokens_offset st2 ≤ py_len (detok_output_token_ids (with_offset o d1)) ∧
      rs_external_req_id st2 = rs_external_req_id st ∧ request_index st2 = request_index st) as (Hs2 & Hb2 & He2 & Hx2).
    { rewrite Hids2. unfold sent_ids, st2. rewrite Hids2. pose proof (py_len_nonneg (detok_output_token_ids d1)).
      destruct (1 <? stream_interval st) eqn:Hiv.
      - change (stream_interval (set_detok _ _)) with (stream_interval st). rewrite Hiv. cbn [sent_tokens_offset set_detok set_sent].
        split; [rewrite take_ge; [done|unfold py_len; lia]|]. split; [lia|done].
      - change (stream_interval (set_detok _ _)) with (stream_interval st). rewrite Hiv.
        change (sent_tokens_offset (set_detok _ _)) with (sent_tokens_offset st). split; [done|]. split; [lia|done]. }
    split; [done|]. split; [by rewrite He2|]. exists c'. cbn [collectors set_collectors]. split; [by rewrite lookup_insert_eq|].
    split; [by rewrite Hx2|]. rewrite texts_app, ids_of_app, finished_in_app in *. rewrite Ht', Hi', Hf', Hs2, !(assoc_L (++)), Ht, Hi.
    split; [by rewrite Hsent2, Hsame|]. split; [|by rewrite orb_false_r]. by apply send_ids.
Qed.

(** The end of a request is always delivered. *)
Lemma final_output got op st d d1 new fin stop c :
  delta_state st d1 → detok_ok d → detok_closing d1 → detok_sent d1 = detok_sent d →
  detok_output_token_ids d1 = detok_output_token_ids d ++ new →
  0 ≤ sent_tokens_offset st ≤ py_len (detok_output_token_ids d) →
  mergeable (request_index st) c →
  texts (got ++ option_list (output c)) = detok_sent d → ids_of (got ++ option_list (output c)) = sent_ids st d →
  ∃ o st2 c', make_request_output new None (Some fin) stop (parents op) st = Ok (Some (ReqOut o), st2, parents op) ∧
    (∃ d2, delta_state st2 d2) ∧ rs_external_req_id st2 = rs_external_req_id st ∧
    collector_put (ReqOut o) c = Ok c' ∧ mergeable (request_index st) c' ∧
    texts (got ++ option_list (output c')) = detok_text d1 ∧
    ids_of (got ++ option_list (output c')) = detok_output_token_ids d1 ∧
    finished_in (got ++ option_list (output c')) = true.
Proof.
  intros Hdl Hok Hclose Hsame Hids Hsent Hm Ht Hi. rewrite (make_delta st d1) by done.
  rewrite (bool_decide_true (is_Some (Some fin))) by by eexists. cbv zeta. cbn [orb negb]. rewrite andb_false_r.
  destruct (detok_next_text true true d1) as [t d2] eqn:Hnext. destruct (detok_last_ok _ _ _ Hclose Hnext) as [Hlast _].
  set (co := Build_CompletionOutput _ _ _ _ _).
  destruct (put_merges (request_index st) c (rs_external_req_id st) co true Hm eq_refl) as (c' & Hput & Hm' & Ht' & Hi' & Hf').
  eexists _, _, c'. split; [done|]. split.
  { exists d2. destruct (1 <? stream_interval st); destruct Hdl; by split. }
  split; [by destruct (1 <? stream_interval st)|]. split; [done|]. split; [done|].
  rewrite texts_app, ids_of_app, finished_in_app in *. rewrite Ht', Hi', Hf', !(assoc_L (++)), Ht, Hi, <-Hsame.
  split; [done|]. split; [by apply send_ids|]. by rewrite !orb_true_r.
Qed.

Lemma out_finishes got d op eo r d1 :
  streaming got d op → eo_request_id eo = id → pooling_output eo = None →
  detok_update (new_token_ids eo) (bool_decide (finish_reason eo = Some FINISH_STOP)) d = Ok (r, d1) →
  is_Some r ∨ is_Some (finish_reason eo) →
  ∃ ab op', process_outputs [eo] op = Ok ([], ab, op') ∧ streamed got d1 op'.
Proof.
  intros [(st & Hst & Hdl & Hsent & (l & Hext & Hin) & c & Hc & Hm & Ht & Hi & Hf) Hok] Hid Hpool Hupd Hend.
  destruct (detok_update_ok _ _ _ _ _ Hok Hupd) as (Hids & Hsame & Hclose & Hr).
  pose proof (delta_updated st d d1 Hdl) as Hdl1. set (st1 := set_detok (Some d1) (set_prefilling false st)) in *.
  unfold process_outputs. cbn [foldM]. unfold process_output. rewrite Hid, Hst, Hpool.
  change (detokenizer (set_prefilling false st)) with (detokenizer st). rewrite (dl_detok _ _ Hdl).
  cbn [unwrap mbind result_bind]. rewrite Hupd. cbn [mbind result_bind]. fold st1.
  assert (∃ fin stop, match r with
    | Some (c :: s) => Ok (st1, Some FINISH_STOP, Some (StopText (c :: s)))
    | _ => Ok (st1, finish_reason eo, stop_reason eo)
    end = Ok (st1, Some fin, stop)) as (fin & stop & ->).
  { destruct r as [[|x s]|]; [done|by eexists _, _|]. destruct Hend as [[? ?]|[f ->]]; [done|by eexists _, _]. }
  cbn [mbind result_bind].
  destruct (final_output got op st1 d d1 (new_token_ids eo) fin stop c) as
    (o & st2 & c' & Hmake & (d2 & Hdl2) & Hext2 & Hput & Hm' & Ht' & Hi' & Hf'); try done.
  rewrite Hmake. cbn [mbind result_bind]. rewrite (dl_input _ _ Hdl2), (dl_queue _ _ Hdl2).
  unfold put_output. cbn [collectors set_parents set_requests]. rewrite Hc. cbn [unwrap mbind result_bind]. rewrite Hput.
  cbn [mbind result_bind]. unfold complete_request. rewrite (dl_input _ _ Hdl2). unfold _finish_request.
  cbn [request_states set_collectors set_parents set_requests]. rewrite (dl_id _ _ Hdl2), lookup_insert_eq.
  cbn [unwrap mbind result_bind]. unfold drop_external. cbn [external_req_ids set_collectors set_parents set_requests].
  change (rs_external_req_id st1) with (rs_external_req_id st) in Hext2. rewrite Hext2, Hext.
  replace (default [] (Some l)) with l by done.
  destruct (list_remove_in id l Hin) as [l' ->]. cbn [mbind result_bind]. rewrite (dl_parent _ _ Hdl2). cbn [mbind result_bind].
  eexists _, _. split; [done|]. split; [cbn; by rewrite lookup_delete_eq|].
  exists c'. split; [cbn; by rewrite lookup_insert_eq|]. split; [by eexists|]. done.
Qed.

(** Outputs for a request that is gone are ignored. *)
Lemma out_ignored got d op eo :
  streamed got d op → eo_request_id eo = id → process_outputs [eo] op = Ok ([], [], op).
Proof.
  intros [Hgone _] Hid. unfold process_outputs. cbn [foldM]. unfold process_output. by rewrite Hid, Hgone.
Qed.

(** ** Interleaving with the consumer *)

(** An engine output for the request, or the consumer fetching. *)
Inductive event := Out (eo : EngineCoreOutput) | Get.

Definition run_event (s : list AnyOutput * OutputProcessor S) (e : event) : result (list AnyOutput * OutputProcessor S) :=
  let '(got, op) := s in
  match e with
  | Out eo => '(_, _, op) ← process_outputs [eo] op; Ok (got, op)
  | Get =>
      c ← unwrap KeyError (collectors op !! q);
      let '(o, c) := collector_get c in
      o ← o;
      Ok (got ++ option_list o, set_collectors (<[q := c]> (collectors op)) op)
  end.

(** The detokenizer alone on the same engine outputs, up to the end. *)
Definition detok_event (s : IncrementalDetokenizer S * bool) (e : event) : result (IncrementalDetokenizer S * bool) :=
  let '(d, ended) := s in
  match e with
  | Out eo =>
      if ended then Ok s
      else
        '(r, d) ← detok_update (new_token_ids eo) (bool_decide (finish_reason eo = Some FINISH_STOP)) d;
        Ok (d, bool_decide (is_Some r) || bool_decide (is_Some (finish_reason eo)))
  | Get => Ok s
  end.

Definition event_ok (e : event) : Prop :=
  match e with Out eo => eo_request_id eo = id ∧ pooling_output eo = None | Get => True end.

Definition related (got : list AnyOutput) op d (ended : bool) : Prop :=
  if ended then streamed got d op else ∃ o, streaming got (with_offset o d) op.

Lemma with_offset_twice a b d : with_offset a (with_offset b d) = with_offset a d.
Proof. by destruct d. Qed.

Lemma with_offset_text o d : detok_text (with_offset o d) = detok_text d ∧ detok_output_token_ids (with_offset o d) = detok_output_token_ids d.
Proof. by destruct d. Qed.

Lemma get_event idx got c :
  mergeable idx c →
  ∃ o c', collector_get c = (Ok o, c') ∧ mergeable idx c' ∧ (got ++ option_list o) ++ option_list (output c') = got ++ option_list (output c).
Proof.
  intros [Hagg Hm]. unfold collector_get. destruct (output c) as [[o|o|e]|] eqn:Ho; [|done..|].
  - exists (Some (ReqOut o)), {| aggregate := aggregate c; output := None |}. split; [done|]. split; [done|]. by rewrite app_nil_r.
  - exists None, c. split; [done|]. split; [split; [done|by rewrite Ho]|]. rewrite Ho. by rewrite app_nil_r.
Qed.

Lemma streamed_offset got o d op : streamed got (with_offset o d) op → streamed got d op.
Proof. intros [Hg Hc]. destruct (with_offset_text o d) as [Ht Hi]. rewrite Ht, Hi in Hc. by split. Qed.

Lemma event_step got op d ended e d' ended' :
  event_ok e → related got op d ended → detok_event (d, ended) e = Ok (d', ended') →
  ∃ got' op', run_event (got, op) e = Ok (got', op') ∧ related got' op' d' ended'.
Proof.
  intros Hev Hrel. destruct e as [eo|]; cbn [detok_event run_event].
  - destruct Hev as [Hid Hpool]. destruct ended.
    + intros [= <- <-]. unfold related in Hrel. rewrite (out_ignored got d op eo Hrel Hid). by eexists _, _.
    + destruct Hrel as [o Hst]. intros Hrun. apply bind_Ok in Hrun as ([r d1] & Hupd & [= <- <-]).
      pose proof (detok_update_offset o (new_token_ids eo) (bool_decide (finish_reason eo = Some FINISH_STOP)) d) as Hupd'.
      rewrite Hupd in Hupd'. cbn [mbind result_bind] in Hupd'.
      destruct (bool_decide (is_Some r) || bool_decide (is_Some (finish_reason eo))) eqn:Hend.
      * destruct (out_finishes got _ op eo r _ Hst Hid Hpool Hupd') as (ab & op' & -> & Hs).
        { apply orb_true_iff in Hend as [H1%bool_decide_eq_true|H1%bool_decide_eq_true]; auto. }
        cbn [mbind result_bind]. eexists _, _. split; [done|]. by eapply streamed_offset.
      * apply orb_false_iff in Hend as [H1%bool_decide_eq_false H2%bool_decide_eq_false].
        assert (r = None) as -> by (destruct r; [by destruct H1|done]).
        assert (finish_reason eo = None) as Hfin by (destruct (finish_reason eo); [by destruct H2|done]).
        rewrite Hfin, (bool_decide_false (None = Some FINISH_STOP)) in Hupd' by done.
        destruct (out_continues got _ op eo _ Hst Hid Hpool Hfin Hupd') as (op' & o' & -> & Hs).
        cbn [mbind result_bind]. eexists _, _. split; [done|]. exists o'. by rewrite with_offset_twice in Hs.
  - intros [= <- <-]. destruct ended; cbn [related] in *.
    + destruct Hrel as [Hg (c & Hc & (idx & Hm) & Ht & Hi & Hf)]. rewrite Hc. cbn [unwrap mbind result_bind].
      destruct (get_event idx got c Hm) as (o & c' & -> & Hm' & Heq). cbn [mbind result_bind]. eexists _, _. split; [done|].
      split; [done|]. exists c'. split; [cbn; by rewrite lookup_insert_eq|]. split; [by eexists|]. by rewrite Heq.
    + destruct Hrel as [o [(st & Hst & Hdl & Hsent & Hext & c & Hc & Hm & Hrest) Hok]]. rewrite Hc. cbn [unwrap mbind result_bind].
      destruct (get_event _ got c Hm) as (o' & c' & -> & Hm' & Heq). cbn [mbind result_bind]. eexists _, _. split; [done|].
      exists o. split; [|done]. exists st. split; [done|]. split; [done|]. split; [done|]. split; [done|].
      exists c'. split; [cbn; by rewrite lookup_insert_eq|]. split; [done|]. by rewrite Heq.
Qed.
End Stream.

(** ** Adding a streaming request *)

Section AddStream.
Context {S : Type} `{DecodeStream S} `{Tokenizer}.
Implicit Types (op : OutputProcessor S) (d : IncrementalDetokenizer S).

Definition stop_list (r : DetokRequest) : list text :=
  match params_stop r with NoStop => [] | StopString s => [s] | StopList l => l end.

(** A detokenizer that has not seen a token. *)
Lemma new_detok_ok (k : TokenizerKind) r d :
  (∀ s, s ∈ stop_list r → s ≠ []) → (∀ n, prompt_embeds_len r = Some n → 0 ≤ n) →
  from_new_request k r = Ok d →
  detok_ok d ∧ detok_sent d = [] ∧ detok_output_token_ids d = [].
Proof.
  intros Hstop Hemb. destruct k as [|added|]; cbn [from_new_request].
  - by intros [= <-].
  - intros [= <-]. split; [split; [by apply new_base_inv|]|done]. unfold prompt_ok, py_len. simpl. lia.
  - unfold new_slow. intros Hd. apply bind_Ok in Hd as (d0 & Hd0 & [= <-]). apply bind_Ok in Hd0 as (n & Hn & Hd0).
    set (ids := match rq_prompt_token_ids r with Some (t :: l) => t :: l | _ => replicate (Z.to_nat n) 0 end) in *.
    assert (0 ≤ n ∧ length ids = Z.to_nat n) as [Hn0 Hlen].
    { unfold ids. unfold length_from_prompt_token_ids_or_embeds in Hn.
      destruct (rq_prompt_token_ids r) as [[|t l]|], (prompt_embeds_len r) as [m|] eqn:Hm; unfold py_len in Hn; simpl in Hn;
        try done; try specialize (Hemb _ eq_refl);
        repeat match goal with Hn : (if ?b then _ else _) = _ |- _ => destruct b; [done|] end;
        injection Hn as <-; rewrite ?length_replicate; simpl; lia. }
    assert (∃ toks p ro, d0 = set_text ([] ++ ids) [] (mkSlow n toks p ro (skip_special_tokens r) (spaces_between_special_tokens r))
      (new_base r (mkSlow n toks p ro (skip_special_tokens r) (spaces_between_special_tokens r)))) as (toks & p & ro & ->).
    { destruct (rq_prompt_token_ids r) as [l|]; [destruct (convert_prompt_ids_to_tokens l (skip_special_tokens r)) as [[toks p] ro]|];
        injection Hd0 as <-; by eexists _, _, _. }
    assert (prompt_ok (set_text ([] ++ ids) [] (mkSlow n toks p ro (skip_special_tokens r) (spaces_between_special_tokens r))
      (new_base r (mkSlow n toks p ro (skip_special_tokens r) (spaces_between_special_tokens r))))) as Hp.
    { unfold prompt_ok, py_len. simpl. lia. }
    split; [split; [|done]|].
    + pose proof (new_base_inv r (mkSlow n toks p ro (skip_special_tokens r) (spaces_between_special_tokens r)) Hstop) as [H1 H2 H3 H4 H5].
      split; [done..|]. by left.
    + split; [done|]. cbn [detok_output_token_ids]. rewrite output_ids_drop by done. apply drop_ge. simpl. lia.
Qed.

(** A new request that streams deltas into the empty collector [q]. *)
Record stream_request (r : EngineCoreRequest) (q : nat) (s : SamplingInfo) d op : Prop := {
  sr_sampling : rq_sampling r = Some s;
  sr_kind : si_output_kind s = DELTA;
  sr_detok : from_new_request (if detokenize s then op_tokenizer op else NoTok) (si_detok s) = Ok d;
  sr_stop : ∀ x, x ∈ stop_list (si_detok s) → x ≠ [];
  sr_embeds : ∀ n, prompt_embeds_len (si_detok s) = Some n → 0 ≤ n;
  sr_once : rq_resumable r = false;
  sr_external : is_Some (rq_external_req_id r);
  sr_prompt : is_ok (length_from_prompt_token_ids_or_embeds (rq_token_ids r) (rq_prompt_embeds r)) = true;
  sr_new : request_states op !! rq_request_id r = None;
  sr_collector : collectors op !! q = Some (new_collector DELTA)
}.

Lemma add_stream r q s d op prompt :
  stream_request r q s d op →
  ∃ op', add_request r prompt None 0 (Some q) op = Ok op' ∧ streaming (rq_request_id r) q [] d op'.
Proof.
  intros [H1 H2 H3 H4 H5 H6 [ext H7] H8 H9 H10]. unfold add_request. rewrite H9. unfold new_request_state. rewrite H1, H3.
  cbn [mbind result_bind]. rewrite H7. cbn [unwrap mbind result_bind].
  destruct (length_from_prompt_token_ids_or_embeds _ _) as [n|] eqn:Hn; [|done]. cbn [mbind result_bind].
  destruct (new_detok_ok _ _ _ H4 H5 H3) as (Hok & Hsent & Hids).
  eexists. split; [done|]. split; [|done]. eexists. split; [cbn; by rewrite lookup_insert_eq|]. split.
  { split; try done. unfold check_prompt. cbn. unfold length_from_prompt_token_ids_or_embeds in Hn.
    destruct (rq_token_ids r), (rq_prompt_embeds r); done. }
  rewrite Hids. cbn [sent_tokens_offset]. split; [unfold py_len; simpl; lia|]. split.
  { eexists. cbn. rewrite lookup_insert_eq. split; [done|]. apply elem_of_app. right. by left. }
  exists (new_collector DELTA). split; [done|]. split; [by split|]. rewrite Hsent. split; [done|]. split; [|done].
  unfold sent_ids. rewrite Hids. rewrite take_nil. by destruct (_ <? _).
Qed.

Lemma run_events id q evs : ∀ got op d ended d' ended',
  Forall (event_ok id) evs → related id q got op d ended → foldM detok_event (d, ended) evs = Ok (d', ended') →
  ∃ got' op', foldM (run_event q) (got, op) evs = Ok (got', op') ∧ related id q got' op' d' ended'.
Proof.
  induction evs as [|e evs IH]; intros got op d ended d' ended' Hev Hrel; cbn [foldM].
  - intros [= <- <-]. by eexists _, _.
  - apply Forall_cons in Hev as [He Hev]. intros Hrun. apply bind_Ok in Hrun as ([d1 e1] & H1 & H2).
    destruct (event_step id q got op d ended e d1 e1 He Hrel H1) as (got1 & op1 & -> & Hrel1). cbn [mbind result_bind].
    by apply (IH got1 op1 d1 e1).
Qed.

(** C13: for a request that streams deltas, whatever the interleaving of engine
    outputs with a consumer that may lag behind, and whatever the stream
    interval, nothing is lost, repeated or taken back: once the request has
    ended (by the engine or by a stop string), the texts and token ids the
    consumer has fetched are together the text and token ids of the detokenizer
    run alone, and the end is reported; before that they are a prefix. *)
Theorem streaming_delivers_text r q s d op prompt evs d' ended :
  stream_request r q s d op → Forall (event_ok (rq_request_id r)) evs →
  foldM detok_event (d, false) evs = Ok (d', ended) →
  ∃ op0 got op', add_request r prompt None 0 (Some q) op = Ok op0 ∧
    foldM (run_event q) ([], op0) (evs ++ [Get]) = Ok (got, op') ∧
    (if ended
     then texts got = detok_text d' ∧ ids_of got = detok_output_token_ids d' ∧ request_states op' !! rq_request_id r = None
     else texts got `prefix_of` detok_text d' ∧ ids_of got `prefix_of` detok_output_token_ids d') ∧
    finished_in got = ended.
Proof.
  intros Hreq Hev Hrun. destruct (add_stream r q s d op prompt Hreq) as (op0 & Hadd & Hst).
  assert (related (rq_request_id r) q [] op0 d false) as Hrel.
  { destruct Hst as [Hs Hok]. assert (∃ o, with_offset o d = d) as [o Ho].
    { destruct d as [?|d0|d0]; [by exists 0|exists (last_output_text_offset d0); by destruct d0..]. }
    exists o. rewrite Ho. by split. }
  assert (Forall (event_ok (rq_request_id r)) (evs ++ [Get])) as Hev' by (apply Forall_app; split; [done|by repeat constructor]).
  assert (foldM detok_event (d, false) (evs ++ [Get]) = Ok (d', ended)) as Hrun'.
  { rewrite foldM_app, Hrun. reflexivity. }
  destruct (run_events (rq_request_id r) q evs [] op0 d false d' ended Hev Hrel Hrun) as (got1 & op1 & Hrun1 & Hrel1).
  destruct (event_step (rq_request_id r) q got1 op1 d' ended Get d' ended I Hrel1 eq_refl) as (got & op' & Hget & Hrel2).
  exists op0, got, op'. split; [done|]. split.
  { rewrite foldM_app, Hrun1. cbn [mbind result_bind foldM]. by rewrite Hget. }
  assert (∀ c, collectors op' !! q = Some c → output c = None) as Hempty.
  { intros c Hc. cbn [run_event] in Hget. apply bind_Ok in Hget as (c1 & Hc1 & Hget).
    destruct (collector_get c1) as [o c2] eqn:Hcg. apply bind_Ok in Hget as (x & Hx & [= <- <-]). cbn in Hc.
    rewrite lookup_insert_eq in Hc. injection Hc as <-. unfold collector_get in Hcg.
    destruct (output c1) as [[]|] eqn:Ho; injection Hcg as <- <-; try done. }
  destruct ended; cbn [related] in Hrel2.
  - destruct Hrel2 as [Hgone (c & Hc & _ & Ht & Hi & Hf)]. rewrite (Hempty c Hc), app_nil_r in *. done.
  - destruct Hrel2 as [o [(st & Hst' & Hdl & Hsent & _ & c & Hc & _ & Ht & Hi & Hf) Hok]].
    rewrite (Hempty c Hc), app_nil_r in *. destruct (with_offset_text o d') as [Htx Hix]. split; [|done]. rewrite Ht, Hi. split.
    + rewrite <-Htx. destruct (with_offset o d') as [?|d0|d0]; cbn; [done|apply prefix_take..].
    + unfold sent_ids. rewrite Hix. destruct (_ <? _); [apply prefix_take|done].
Qed.
End AddStream.

(** ** A concrete run *)

#[local] Instance letters : DecodeStream unit := {| new_stream _ _ := tt; stream_step _ id := (Stepped (Some [id]), tt) |}.
#[local] Instance no_vocabulary : Tokenizer := {|
  vocab := 0; convert_ids_to_tokens _ _ := []; convert_tokens_to_string := @concat Z;
  is_fast := true; get_added_vocab := []; all_special_tokens := [] |}.

Definition demo_sampling : SamplingInfo := {|
  detokenize := true; si_output_kind := DELTA; si_stream_interval := Some 2;
  si_detok := {| params_stop := StopList [[5; 6]]; params_min_tokens := 0; params_include_stop := false;
    skip_special_tokens := true; spaces_between_special_tokens := true;
    rq_prompt_token_ids := Some [1]; prompt_embeds_len := None |} |}.

Definition demo_stream_request : EngineCoreRequest := {|
  rq_request_id := "a"; rq_external_req_id := Some "x"%string; rq_sampling := Some demo_sampling;
  rq_pooling_kind := None; rq_token_ids := Some [1]; rq_prompt_embeds := None; rq_resumable := false |}.

Definition demo_op : OutputProcessor unit :=
  set_collectors {[0%nat := new_collector DELTA]} (new_output_processor 1 (FastTok [])).

Definition demo_out (ids : list Z) : event :=
  Out {| eo_request_id := "a"; new_token_ids := ids; pooling_output := None; finish_reason := None; stop_reason := None |}.

(** The stop string "5 6" arrives in two engine outputs; the consumer fetches
    in between and at the end. *)
Definition demo_events : list event :=
  [demo_out [3; 4]; Get; demo_out [5]; demo_out [7; 8]; Get; demo_out [5]; demo_out [6; 9]].

Definition demo_detok : IncrementalDetokenizer unit :=
  FastIncrementalDetokenizer (new_base (si_detok demo_sampling) (new_fast [] (si_detok demo_sampling))).

Lemma streaming_delivers_text_witness :
  ∃ op0 got op', add_request demo_stream_request None None 0 (Some 0%nat) demo_op = Ok op0 ∧
    foldM (run_event 0) ([], op0) (demo_events ++ [Get]) = Ok (got, op') ∧
    texts got = [3; 4; 5; 7; 8] ∧ ids_of got = [3; 4; 5; 7; 8; 5; 6; 9] ∧ finished_in got = true.
Proof.
  destruct (foldM detok_event (demo_detok, false) demo_events) as [[d' ended]|] eqn:Hrun; [|by vm_compute in Hrun].
  destruct (streaming_delivers_text demo_stream_request 0 demo_sampling demo_detok demo_op None demo_events d' ended)
    as (op0 & got & op' & Hadd & Hgot & Hres & Hfin).
  - split; try reflexivity; [|by intros|by eexists]. intros x. simpl. by intros ->%list_elem_of_singleton.
  - repeat constructor.
  - exact Hrun.
  - exists op0, got, op'. split; [exact Hadd|]. split; [exact Hgot|]. vm_compute in Hrun. injection Hrun as <- <-.
    destruct Hres as (Ht & Hi & _). split; [rewrite Ht; reflexivity|]. split; [rewrite Hi; reflexivity|]. exact Hfin.
Defined.
