(* ===== verification/OutputMaps.v ===== *)
(** * The books of the output processor

    [OutputProcessor]: the outputs of the children of a request with several
    samples are joined once and in order; the dictionaries of request states and
    external ids agree in every reachable state; aborting an external id leaves
    none of its requests. *)

From stdpp Require Import pretty.
From S2P Require Import Prelude Detokenizer OutputProcessor.
Local Open Scope Z_scope.

(** ** Joining the children of a request *)

Lemma string_length_app (a b : string) : String.length (a +:+ b) = (String.length a + String.length b)%nat.
Proof. induction a as [|x a IH]; [done|]. simpl. by rewrite IH. Qed.

Lemma string_app_cancel (a b c : string) : (a +:+ c = b +:+ c → a = b)%string.
Proof.
  revert b. induction a as [|x a IH]; intros [|y b] Heq; try done.
  - apply (f_equal String.length) in Heq. rewrite !string_length_app in Heq. simpl in Heq. lia.
  - apply (f_equal String.length) in Heq. rewrite !string_length_app in Heq. simpl in Heq. lia.
  - simpl in Heq. injection Heq as -> Heq. f_equal. by apply IH.
Qed.

Lemma child_id_inj i j id : child_id i id = child_id j id → i = j.
Proof. unfold child_id. intros Heq%string_app_cancel. by apply (inj pretty) in Heq. Qed.

(** Registering the children [0 .. n-1]. *)
Fixpoint register_children (k : nat) (p : ParentRequest) : ParentRequest :=
  match k with
  | O => p
  | S k' => let p := register_children k' p in (get_child_info (Z.of_nat k') p).2
  end.

(** The finished outputs [f i] of the children arrive in some order. *)
Fixpoint run_children (order : list nat) (f : nat → CompletionOutput) (p : ParentRequest)
    : result (list (list (option CompletionOutput) * bool) * ParentRequest) :=
  match order with
  | [] => Ok ([], p)
  | i :: order' =>
      '(outs, fin, p) ← get_outputs (child_id (Z.of_nat i) (pr_request_id p)) (f i) p;
      '(l, p) ← run_children order' f p;
      Ok ((outs, fin) :: l, p)
  end.

(** [rest] are the children that have not finished. *)
Record parent_waits (n : nat) (f : nat → CompletionOutput) (rest : list nat) (p : ParentRequest) : Prop := {
  pw_children : ∀ x, x ∈ child_requests p ↔ ∃ i, i ∈ rest ∧ x = child_id (Z.of_nat i) (pr_request_id p);
  pw_length : pr_output_kind p = FINAL_ONLY → length (output_aggregator p) = n;
  pw_outputs : pr_output_kind p = FINAL_ONLY → ∀ i, (i < n)%nat →
    output_aggregator p !! i = Some (if decide (i ∈ rest) then None else Some (f i))
}.

Lemma get_child_info_fields i p :
  let p' := (get_child_info i p).2 in
  pr_request_id p' = pr_request_id p ∧ pr_output_kind p' = pr_output_kind p ∧ pr_n p' = pr_n p ∧
  child_requests p' = set_add (child_id i (pr_request_id p)) (child_requests p) ∧
  output_aggregator p' = output_aggregator p.
Proof.
  unfold get_child_info, _get_child_sampling_params. cbn [cached_child_sampling_params pr_seed set_children].
  destruct (cached_child_sampling_params p) as [c|]; [done|]. by destruct (pr_seed p).
Qed.

Lemma elem_of_set_add x y l : x ∈ set_add y l ↔ x = y ∨ x ∈ l.
Proof. unfold set_add. case_decide; set_solver. Qed.

Lemma register_spec k p :
  let p' := register_children k p in
  pr_request_id p' = pr_request_id p ∧ pr_output_kind p' = pr_output_kind p ∧
  output_aggregator p' = output_aggregator p ∧
  ∀ x, x ∈ child_requests p' ↔ x ∈ child_requests p ∨ ∃ i, (i < k)%nat ∧ x = child_id (Z.of_nat i) (pr_request_id p).
Proof.
  induction k as [|k IH]; simpl.
  - split_and!; try done. intros x. split; [auto|]. intros [?|(i & ? & _)]; [done|lia].
  - destruct IH as (Hid & Hk & Ha & Hc).
    destruct (get_child_info_fields (Z.of_nat k) (register_children k p)) as (Hid' & Hk' & _ & Hc' & Ha').
    split; [congruence|]. split; [congruence|]. split; [congruence|]. intros x. rewrite Hc', elem_of_set_add, Hc, Hid. split.
    + intros [->|[?|(i & ? & ->)]]; [right; exists k; split; [lia|done]|by left|right; exists i; split; [lia|done]].
    + intros [?|(i & ? & ->)]; [by auto|]. destruct (decide (i = k)) as [->|]; [by left|]. right. right. exists i. split; [lia|done].
Qed.

Lemma waits_step n f i rest p :
  NoDup (i :: rest) → (i < n)%nat → parent_waits n f (i :: rest) p →
  co_index (f i) = Z.of_nat i → is_Some (co_finish_reason (f i)) →
  ∃ p', get_outputs (child_id (Z.of_nat i) (pr_request_id p)) (f i) p =
      Ok (if bool_decide (pr_output_kind p = FINAL_ONLY)
          then if bool_decide (rest = []) then output_aggregator p' else []
          else [Some (f i)], bool_decide (rest = []), p') ∧
    pr_request_id p' = pr_request_id p ∧ pr_output_kind p' = pr_output_kind p ∧ parent_waits n f rest p'.
Proof.
  intros [Hni Hnd]%NoDup_cons Hi [Hc Hl Ho] Hidx Hfin. unfold get_outputs.
  rewrite (bool_decide_true (is_Some _)) by done.
  rewrite (bool_decide_true (_ ∈ child_requests p)) by (apply Hc; exists i; split; [by left|done]).
  set (children := set_discard _ _).
  assert (∀ x, x ∈ children ↔ ∃ j, j ∈ rest ∧ x = child_id (Z.of_nat j) (pr_request_id p)) as Hc'.
  { intros x. unfold children, set_discard. rewrite list_elem_of_filter, Hc. split.
    - intros [Hne (j & [->|Hj]%elem_of_cons & ->)]; [done|eauto].
    - intros (j & Hj & ->). split; [|exists j; split; [by right|done]]. intros Heq%child_id_inj. assert (j = i) as -> by lia. done. }
  assert (bool_decide (children = []) = bool_decide (rest = [])) as Hnil.
  { apply bool_decide_ext. split; intros Heq.
    - destruct rest as [|j rest]; [done|]. assert (child_id (Z.of_nat j) (pr_request_id p) ∈ children) as Hin.
      { apply Hc'. exists j. split; [by left|done]. }
      rewrite Heq in Hin. by apply elem_of_nil in Hin.
    - destruct children as [|x c]; [done|]. destruct (proj1 (Hc' x) ltac:(by left)) as (j & Hj & _).
      rewrite Heq in Hj. by apply elem_of_nil in Hj. }
  rewrite Hnil. destruct (decide (pr_output_kind p = FINAL_ONLY)) as [Hk|Hk].
  - rewrite (bool_decide_true (pr_output_kind p = FINAL_ONLY)) by done. specialize (Hl Hk). specialize (Ho Hk).
    unfold aggregator_set. rewrite Hidx. unfold py_len. rewrite Hl.
    destruct (Z.ltb_spec (Z.of_nat i) 0); [lia|]. destruct (Z.ltb_spec (Z.of_nat i) 0); [lia|].
    destruct (Z.leb_spec (Z.of_nat n) (Z.of_nat i)); [lia|]. cbn [orb mbind result_bind]. rewrite Nat2Z.id.
    exists (set_children p children (<[i:=Some (f i)]> (output_aggregator p)) (cached_child_sampling_params p)).
    split; [done|]. split; [done|]. split; [done|]. split; cbn; [done|by rewrite length_insert|].
    intros _ j Hj. destruct (decide (j = i)) as [->|Hne].
    + rewrite list_lookup_insert_eq by lia. by rewrite decide_False.
    + rewrite list_lookup_insert_ne by done. rewrite Ho by done. do 2 f_equal.
      destruct (decide (j ∈ rest)); [by rewrite decide_True by by right|]. rewrite decide_False; [done|]. by intros [?|?]%elem_of_cons.
  - rewrite (bool_decide_false (pr_output_kind p = FINAL_ONLY)) by done. cbn [negb andb].
    eexists. split; [done|]. split; [done|]. split; [done|]. by split.
Qed.

Lemma run_children_spec n f rest : ∀ p,
  NoDup rest → (∀ i, i ∈ rest → i < n)%nat → rest ≠ [] → parent_waits n f rest p →
  (∀ i, (i < n)%nat → co_index (f i) = Z.of_nat i ∧ is_Some (co_finish_reason (f i))) →
  ∃ p', run_children rest f p =
    Ok (if bool_decide (pr_output_kind p = FINAL_ONLY)
        then replicate (length rest - 1) ([], false) ++ [((λ i, Some (f i)) <$> seq 0 n, true)]
        else imap (λ k i, ([Some (f i)], bool_decide (S k = length rest))) rest, p').
Proof.
  induction rest as [|i rest IH]; intros p Hnd Hlt Hne Hw Hf; [done|]. cbn [run_children].
  destruct (Hf i (Hlt i ltac:(by left))) as [Hidx Hfin].
  destruct (waits_step n f i rest p Hnd (Hlt i ltac:(by left)) Hw Hidx Hfin) as (p1 & -> & Hid1 & Hk1 & Hw1).
  cbn [mbind result_bind]. apply NoDup_cons in Hnd as [_ Hnd]. destruct (decide (rest = [])) as [->|Hne1].
  - cbn [run_children mbind result_bind]. exists p1. rewrite (bool_decide_true (@nil nat = [])) by done. do 2 f_equal.
    destruct (decide (pr_output_kind p = FINAL_ONLY)) as [Hk|Hk].
    + rewrite !(bool_decide_true (pr_output_kind p = FINAL_ONLY)) by done. cbn. do 2 f_equal.
      destruct Hw1 as [_ Hl1 Ho1]. rewrite Hk1 in Hl1, Ho1. specialize (Hl1 Hk). specialize (Ho1 Hk).
      apply list_eq. intros j. rewrite list_lookup_fmap. destruct (decide (j < n)%nat).
      * rewrite Ho1 by done. rewrite decide_False by by intros ?%elem_of_nil. by rewrite lookup_seq_lt.
      * rewrite lookup_ge_None_2 by lia. by rewrite lookup_seq_ge by lia.
    + rewrite !(bool_decide_false (pr_output_kind p = FINAL_ONLY)) by done. done.
  - destruct (IH p1) as (p2 & ->); [done|intros j Hj; apply Hlt; by right|done|done|done|].
    cbn [mbind result_bind]. exists p2. rewrite Hk1, (bool_decide_false (rest = [])) by done. do 2 f_equal.
    destruct (decide (pr_output_kind p = FINAL_ONLY)) as [Hk|Hk].
    + rewrite !(bool_decide_true (pr_output_kind p = FINAL_ONLY)) by done. destruct rest as [|j rest]; [done|].
      cbn. by rewrite !Nat.sub_0_r.
    + rewrite !(bool_decide_false (pr_output_kind p = FINAL_ONLY)) by done. rewrite imap_cons. f_equal.
      * f_equal. rewrite bool_decide_false; [done|]. destruct rest; [done|simpl; lia].
      * apply imap_ext. intros k j _. unfold compose. f_equal. apply bool_decide_ext. cbn. lia.
Qed.

(** ** The maps of the processor *)

Section Maps.
Context {S : Type} `{DecodeStream S} `{Tokenizer}.
Implicit Types (op : OutputProcessor S) (st : RequestState S).

(** The request states and the external ids agree, but for the requests [E]
    that are being aborted. *)
Record maps_agree (E : gset string) op : Prop := {
  ma_id : ∀ id st, request_states op !! id = Some st → rs_request_id st = id;
  ma_external : ∀ id st, request_states op !! id = Some st → id ∉ E →
    ∃ l, external_req_ids op !! rs_external_req_id st = Some l ∧ id ∈ l;
  ma_back : ∀ ext l, external_req_ids op !! ext = Some l → l ≠ [] ∧ NoDup l ∧
    ∀ id, id ∈ l → (id ∉ E) ∧ ∃ st, request_states op !! id = Some st ∧ rs_external_req_id st = ext
}.

(** Only the parents and collectors differ. *)
Definition same_maps op op' : Prop :=
  request_states op' = request_states op ∧ external_req_ids op' = external_req_ids op.

Lemma same_maps_agree E op op' : same_maps op op' → maps_agree E op → maps_agree E op'.
Proof. intros [H1 H2] [Ha Hb Hc]. split; rewrite ?H1, ?H2; done. Qed.

Lemma list_remove_spec x l l' : list_remove x l = Ok l' → NoDup l → x ∈ l ∧ NoDup l' ∧ ∀ y, y ∈ l' ↔ y ∈ l ∧ y ≠ x.
Proof.
  revert l'. induction l as [|y l IH]; intros l'; simpl; [done|]. intros Hr [Hy Hnd]%NoDup_cons. case_decide as Hd.
  - subst. injection Hr as <-. split; [by left|]. split; [done|]. set_solver.
  - apply bind_Ok in Hr as (l1 & H1 & [= <-]). destruct (IH _ H1 Hnd) as (Hin & Hnd1 & Heq).
    split; [by right|]. split; [apply NoDup_cons; set_solver|]. set_solver.
Qed.

Lemma drop_external_agrees E op op' ext id :
  maps_agree E op → drop_external ext id op = Ok op' →
  request_states op' = request_states op ∧ maps_agree ({[id]} ∪ E) op' ∧ parents op' = parents op ∧
  parent_requests op' = parent_requests op ∧
  ∃ st, request_states op !! id = Some st ∧ rs_external_req_id st = ext.
Proof.
  intros [Ha Hb Hc] Hd. unfold drop_external in Hd. apply bind_Ok in Hd as (l' & Hrem & [= <-]).
  destruct (external_req_ids op !! ext) as [l|] eqn:Hl; [|done]. cbn [from_option] in Hrem. change (Datatypes.id l) with l in Hrem.
  destruct (Hc _ _ Hl) as (_ & Hnd & Hback). destruct (list_remove_spec _ _ _ Hrem Hnd) as (Hin & Hnd' & Hl').
  destruct (Hback _ Hin) as (_ & st0 & Hst0 & Hext0).
  assert (∀ e, external_req_ids (set_external (match l' with [] => delete ext (external_req_ids op) | _ => <[ext := l']> (external_req_ids op) end) op) !! e =
    if decide (e = ext) then match l' with [] => None | _ => Some l' end else external_req_ids op !! e) as Hlook.
  { intros e. cbn [external_req_ids set_external]. case_decide as He.
    - subst. destruct l'; [by rewrite lookup_delete_eq|by rewrite lookup_insert_eq].
    - destruct l'; [by rewrite lookup_delete_ne|by rewrite lookup_insert_ne]. }
  split; [done|]. split; [|eauto]. split; [done| |].
  - intros i st Hst Hi. destruct (Hb i st Hst ltac:(set_solver)) as (k & Hk & Hik). rewrite Hlook. case_decide as He.
    + rewrite He, Hl in Hk. injection Hk as <-. assert (i ∈ l') as Hin' by (apply Hl'; set_solver).
      destruct l'; [by apply elem_of_nil in Hin'|]. eauto.
    + eauto.
  - intros e k. rewrite Hlook. case_decide as He.
    + subst e. intros Hk. assert (k = l' ∧ l' ≠ []) as [-> Hne] by (destruct l'; [done|]; by injection Hk as <-).
      split; [done|]. split; [done|]. intros i Hi. apply Hl' in Hi as [Hi Hne']. destruct (Hback i Hi). split; [set_solver|done].
    + intros Hk. destruct (Hc _ _ Hk) as (? & ? & Hb'). split; [done|]. split; [done|]. intros i Hi.
      destruct (Hb' i Hi) as (? & st1 & Hst1 & He1). split; [|eauto]. intros [->%elem_of_singleton|?]%elem_of_union; [|done].
      rewrite Hst0 in Hst1. injection Hst1 as <-. congruence.
Qed.

(** Deleting requests that no list names any more. *)
Lemma delete_agrees E op id :
  maps_agree E op → id ∈ E → maps_agree E (set_requests (delete id (request_states op)) op).
Proof.
  intros [Ha Hb Hc] HE. split; cbn [request_states external_req_ids set_requests].
  - intros i st [_ Hi]%lookup_delete_Some. eauto.
  - intros i st [_ Hi]%lookup_delete_Some. eauto.
  - intros ext l Hl. destruct (Hc _ _ Hl) as (? & ? & Hback). split; [done|]. split; [done|]. intros i Hi.
    destruct (Hback i Hi) as (HiE & st & Hst & He). split; [done|]. exists st. split; [|done].
    rewrite lookup_delete_ne by (intros ->; done). done.
Qed.

(** Once the requests in [E'] are gone, they are no exception. *)
Lemma agrees_shrink E E' op :
  maps_agree (E' ∪ E) op → (∀ id, id ∈ E' → request_states op !! id = None) → maps_agree E op.
Proof.
  intros [Ha Hb Hc] Hgone. split; [done| |].
  - intros id st Hst HE. apply (Hb id st Hst). intros [Hi|?]%elem_of_union; [|done]. by rewrite Hgone in Hst.
  - intros ext l Hl. destruct (Hc _ _ Hl) as (? & ? & Hback). split; [done|]. split; [done|]. intros id Hi.
    destruct (Hback id Hi). split; [set_solver|done].
Qed.

(** Replacing the state of a request by one with the same names. *)
Lemma update_agrees E op st st' :
  maps_agree E op → request_states op !! rs_request_id st = Some st →
  rs_request_id st' = rs_request_id st → rs_external_req_id st' = rs_external_req_id st →
  maps_agree E (set_requests (<[rs_request_id st := st']> (request_states op)) op).
Proof.
  intros [Ha Hb Hc] Hst Hid Hext. split; cbn [request_states external_req_ids set_requests].
  - intros i s [[<- <-]|[_ Hi]]%lookup_insert_Some; [done|eauto].
  - intros i s [[<- <-]|[_ Hi]]%lookup_insert_Some; [rewrite Hext; eauto|eauto].
  - intros ext l Hl. destruct (Hc _ _ Hl) as (? & ? & Hback). split; [done|]. split; [done|]. intros i Hi.
    destruct (Hback i Hi) as (? & s & Hs & He). split; [done|]. destruct (decide (i = rs_request_id st)) as [->|Hne].
    + exists st'. rewrite lookup_insert_eq. split; [done|]. rewrite Hs in Hst. injection Hst as ->. congruence.
    + exists s. by rewrite lookup_insert_ne.
Qed.

Lemma put_output_maps q o op op' : put_output q o op = Ok op' → same_maps op op'.
Proof.
  unfold put_output. intros Hp. apply bind_Ok in Hp as (c & _ & Hp). apply bind_Ok in Hp as (c' & _ & [= <-]). done.
Qed.

(** The end of a request takes it out of both maps. *)
Lemma finish_agrees op op' st :
  maps_agree ∅ op → _finish_request st op = Ok op' → request_states op !! rs_request_id st = Some st →
  maps_agree ∅ op' ∧ request_states op' = delete (rs_request_id st) (request_states op).
Proof.
  intros Hag Hf Hst. unfold _finish_request in Hf. apply bind_Ok in Hf as (s0 & _ & Hf). apply bind_Ok in Hf as (op1 & Hd & Hf).
  (* the deletion and the removal from the list commute *)
  assert (∃ op2, drop_external (rs_external_req_id st) (rs_request_id st) op = Ok op2 ∧
    op1 = set_requests (delete (rs_request_id st) (request_states op)) op2) as (op2 & Hd2 & ->).
  { unfold drop_external in *. cbn [external_req_ids set_requests] in Hd. apply bind_Ok in Hd as (l & -> & [= <-]).
    by eexists. }
  destruct (drop_external_agrees _ _ _ _ _ Hag Hd2) as (Hsame & Hag2 & _).
  assert (maps_agree ∅ (set_requests (delete (rs_request_id st) (request_states op)) op2)) as Hag3.
  { rewrite <-Hsame. apply (agrees_shrink _ {[rs_request_id st]}).
    - apply delete_agrees; [done|set_solver].
    - intros i ->%elem_of_singleton. cbn. by rewrite lookup_delete_eq. }
  assert (same_maps (set_requests (delete (rs_request_id st) (request_states op)) op2) op') as Hsm.
  { destruct (parent_req st) as [pid|]; [|by injection Hf as <-].
    apply bind_Ok in Hf as (p & _ & [= <-]). by case_bool_decide. }
  split; [by eapply same_maps_agree|]. by destruct Hsm as [-> _].
Qed.

(** Names of a request that no operation changes. *)
Definition same_names st st' : Prop :=
  rs_request_id st' = rs_request_id st ∧ rs_external_req_id st' = rs_external_req_id st.

Lemma interval_names new fin st l st' :
  apply_stream_interval new fin st = Ok (Some (l, st')) → same_names st st'.
Proof.
  unfold apply_stream_interval. destruct (1 <? stream_interval st); [|by intros [= _ <-]].
  intros Hr. apply bind_Ok in Hr as (d & _ & Hr). destruct (_ || _ || _); [|done].
  case_bool_decide; by injection Hr as _ <-.
Qed.

Lemma make_names new pool fin stop ps st o st' ps' :
  make_request_output new pool fin stop ps st = Ok (o, st', ps') → same_names st st'.
Proof.
  unfold make_request_output. destruct (_ && _); [by intros [= _ <- _]|]. intros Hr.
  apply bind_Ok in Hr as ([[l st1]|] & Hint & Hr); [|by injection Hr as _ <- _]. apply interval_names in Hint as [Hi He].
  destruct pool as [data|].
  - apply bind_Ok in Hr as (? & _ & [= _ <- _]). done.
  - apply bind_Ok in Hr as ([co st2] & Hco & Hr). unfold _new_completion_output in Hco.
    apply bind_Ok in Hco as (d & _ & Hco). destruct (detok_next_text _ _ d) as [t d']. injection Hco as _ <-.
    destruct (parent_req _) as [pid|].
    + apply bind_Ok in Hr as (p & _ & Hr). apply bind_Ok in Hr as ([[outs f] p'] & _ & Hr).
      case_bool_decide; [by injection Hr as _ <- _|]. apply bind_Ok in Hr as (? & _ & [= _ <- _]). done.
    + apply bind_Ok in Hr as (? & _ & [= _ <- _]). done.
Qed.

Lemma abort_output_maps st op op' : abort_output st op = Ok op' → same_maps op op'.
Proof.
  unfold abort_output. destruct (queue st) as [q|]; [|by intros [= <-]]. intros Hr.
  apply bind_Ok in Hr as ([[o st'] ps] & _ & Hr). destruct o as [o|]; [|by injection Hr as <-].
  apply put_output_maps in Hr. done.
Qed.

(** What an abort promises: the maps agree, and no request appears. *)
Definition aborts E op op' : Prop :=
  maps_agree E op → maps_agree E op' ∧ request_states op' ⊆ request_states op.

Lemma resolve_agrees internal E ids op id ids' op' :
  resolve_abort internal (ids, op) id = Ok (ids', op') → maps_agree (list_to_set ids ∪ E) op →
  maps_agree (list_to_set ids' ∪ E) op' ∧ request_states op' = request_states op.
Proof.
  unfold resolve_abort. intros Hr Hag. destruct internal.
  - destruct (request_states op !! id) as [st|] eqn:Hst.
    + apply bind_Ok in Hr as (op1 & Hd & [= <- <-]). destruct (drop_external_agrees _ _ _ _ _ Hag Hd) as (Hs & Hag1 & _).
      split; [|done]. rewrite list_to_set_app_L. simpl. by replace (list_to_set ids ∪ ({[id]} ∪ ∅) ∪ E) with ({[id]} ∪ (list_to_set ids ∪ E)) by set_solver.
    + injection Hr as <- <-. split; [|done]. rewrite list_to_set_app_L. simpl. destruct Hag as [Ha Hb Hc]. split; [done| |].
      * intros i st Hi HE. apply (Hb i st Hi). set_solver.
      * intros ext l Hl. destruct (Hc _ _ Hl) as (? & ? & Hback). split; [done|]. split; [done|]. intros i Hi.
        destruct (Hback i Hi) as (? & st & Hst' & ?). split; [|eauto]. assert (i ≠ id) by (intros ->; congruence). set_solver.
  - destruct (external_req_ids op !! id) as [l|] eqn:Hl.
    + assert (ids' = ids ++ l ∧ op' = set_external (delete id (external_req_ids op)) op) as [-> ->].
      { destruct l; injection Hr as <- <-; [by rewrite app_nil_r|done]. }
      split; [|done]. rewrite list_to_set_app_L. destruct Hag as [Ha Hb Hc]. split; [done| |].
      * cbn [request_states external_req_ids set_external]. intros i st Hi HE.
        destruct (Hb i st Hi ltac:(set_solver)) as (k & Hk & Hik).
        assert (rs_external_req_id st ≠ id) by (intros Heq; rewrite Heq, Hl in Hk; injection Hk as ->; set_solver).
        exists k. by rewrite lookup_delete_ne.
      * cbn [request_states external_req_ids set_external]. intros ext k [Hne Hk]%lookup_delete_Some.
        destruct (Hc _ _ Hk) as (? & ? & Hback). split; [done|]. split; [done|]. intros i Hi.
        destruct (Hback i Hi) as (? & st & Hst & He). split; [|eauto]. intros Hin.
        assert (i ∈ l) as Hil by set_solver. destruct (Hc _ _ Hl) as (_ & _ & Hbl). destruct (Hbl i Hil) as (_ & st' & Hst' & He').
        congruence.
    + injection Hr as <- <-. assert (set_external (delete id (external_req_ids op)) op = op) as ->; [|done].
      rewrite delete_id by done. by destruct op.
Qed.

Lemma resolve_all_agrees internal E l : ∀ ids op ids' op',
  foldM (resolve_abort internal) (ids, op) l = Ok (ids', op') → maps_agree (list_to_set ids ∪ E) op →
  maps_agree (list_to_set ids' ∪ E) op' ∧ request_states op' = request_states op.
Proof.
  induction l as [|id l IH]; intros ids op ids' op'; cbn [foldM]; [by intros [= <- <-]|].
  intros Hr Hag. apply bind_Ok in Hr as ([ids1 op1] & H1 & H2).
  destruct (resolve_agrees _ _ _ _ _ _ _ H1 Hag) as [Hag1 Hs1]. destruct (IH _ _ _ _ H2 Hag1) as [? Hs2].
  split; [done|]. by rewrite Hs2.
Qed.

(** The second loop: every id is gone afterwards. *)
Lemma abort_one_agrees rec set_order E ab op id ab' op' :
  (∀ ids op op' l, rec ids op = Ok (l, op') → ∀ E, aborts E op op') →
  abort_one rec set_order (ab, op) id = Ok (ab', op') → id ∈ E → maps_agree E op →
  maps_agree E op' ∧ request_states op' !! id = None ∧ request_states op' ⊆ request_states op.
Proof.
  intros Hrec Hr HE Hag. unfold abort_one in Hr. destruct (request_states op !! id) as [st|] eqn:Hst.
  - apply bind_Ok in Hr as (op1 & Ho & [= <- <-]). apply abort_output_maps in Ho as Hsm.
    split; [eapply same_maps_agree; [exact Hsm|]; by apply delete_agrees|]. destruct Hsm as [-> _]. cbn.
    split; [by rewrite lookup_delete_eq|]. apply delete_subseteq.
  - case_decide; [|by injection Hr as <- <-]. apply bind_Ok in Hr as (p & _ & Hr).
    apply bind_Ok in Hr as ([child op1] & Hc & [= <- <-]).
    assert (maps_agree E op1 ∧ request_states op1 ⊆ request_states op) as [Hag1 Hsub].
    { case_bool_decide; [by injection Hc as <- <-|]. exact (Hrec _ _ _ _ Hc E Hag). }
    split; [by apply (same_maps_agree _ op1)|]. cbn. split; [by eapply lookup_weaken_None|done].
Qed.

Lemma abort_loop_agrees rec set_order E l : ∀ ab op ab' op',
  (∀ ids op op' l, rec ids op = Ok (l, op') → ∀ E, aborts E op op') →
  foldM (abort_one rec set_order) (ab, op) l = Ok (ab', op') → (∀ id, id ∈ l → id ∈ E) → maps_agree E op →
  maps_agree E op' ∧ (∀ id, id ∈ l → request_states op' !! id = None) ∧ request_states op' ⊆ request_states op.
Proof.
  induction l as [|id l IH]; intros ab op ab' op' Hrec; cbn [foldM].
  - intros [= <- <-] _ Hag. split; [done|]. split; [|done]. by intros i ?%elem_of_nil.
  - intros Hr HE Hag. apply bind_Ok in Hr as ([ab1 op1] & H1 & H2).
    destruct (abort_one_agrees _ _ E _ _ _ _ _ Hrec H1 (HE id ltac:(by left)) Hag) as (Hag1 & Hid & Hmono).
    destruct (IH _ _ _ _ Hrec H2 (λ i Hi, HE i ltac:(by right)) Hag1) as (Hag2 & Hl & Hmono2). split; [done|]. split; [|by etrans].
    intros i [->|Hi]%elem_of_cons; [by eapply lookup_weaken_None|auto].
Qed.

Lemma resolve_collects exts : ∀ ids op ids' op',
  foldM (resolve_abort false) (ids, op) exts = Ok (ids', op') →
  (∀ i, i ∈ ids → i ∈ ids') ∧ ∀ ext l, ext ∈ exts → external_req_ids op !! ext = Some l → ∀ i, i ∈ l → i ∈ ids'.
Proof.
  induction exts as [|e exts IH]; intros ids op ids' op'; cbn [foldM].
  - intros [= <- <-]. split; [done|]. by intros ext l ?%elem_of_nil.
  - intros Hr. apply bind_Ok in Hr as ([ids1 op1] & H1 & H2). destruct (IH _ _ _ _ H2) as [Hkeep Hcol].
    assert (ids1 = ids ++ default [] (external_req_ids op !! e) ∧
      external_req_ids op1 = delete e (external_req_ids op)) as [-> Hext1].
    { unfold resolve_abort in H1. destruct (external_req_ids op !! e) as [[|x l]|]; injection H1 as <- <-; by rewrite ?app_nil_r. }
    split; [intros i Hi; apply Hkeep; set_solver|]. intros ext l Hin Hl i Hi.
    destruct (decide (ext = e)) as [->|Hne].
    + apply Hkeep. rewrite Hl. apply elem_of_app. by right.
    + apply (Hcol ext l); [set_solver| |done]. by rewrite Hext1, lookup_delete_ne.
Qed.

Lemma abort_agrees fuel set_order : ∀ ids internal op op' l,
  abort_requests fuel set_order ids internal op = Ok (l, op') → ∀ E, aborts E op op'.
Proof.
  induction fuel as [|fuel IH]; intros ids internal op op' l Hr E Hag; [done|]. cbn [abort_requests] in Hr.
  apply bind_Ok in Hr as ([ids1 op1] & H1 & H2).
  destruct (resolve_all_agrees internal E ids [] op ids1 op1 H1) as [Hag1 Hs1].
  { simpl. by replace (∅ ∪ E) with E by set_solver. }
  destruct (abort_loop_agrees _ set_order (list_to_set ids1 ∪ E) ids1 [] op1 l op' (λ ids, IH ids true) H2) as (Hag2 & Hgone & Hmono); [set_solver|done|].
  split; [|by rewrite <-Hs1]. apply (agrees_shrink E (list_to_set ids1)); [done|]. intros i Hi. apply Hgone. set_solver.
Qed.

(** Aborting external ids leaves none of their requests. *)
Lemma abort_external_gone fuel set_order exts op op' l :
  maps_agree ∅ op → abort_requests fuel set_order exts false op = Ok (l, op') →
  ∀ id st, request_states op' !! id = Some st → rs_external_req_id st ∉ exts.
Proof.
  intros Hag Hr id st Hst Hin. destruct (abort_agrees _ _ _ _ _ _ _ Hr ∅ Hag) as [_ Hsub].
  pose proof (lookup_weaken _ _ _ _ Hst Hsub) as Hst0. destruct (ma_external _ _ Hag _ _ Hst0) as (k & Hk & Hik); [set_solver|].
  destruct fuel as [|fuel]; [done|]. cbn [abort_requests] in Hr. apply bind_Ok in Hr as ([ids1 op1] & H1 & H2).
  destruct (resolve_collects _ _ _ _ _ H1) as [_ Hcol]. specialize (Hcol _ _ Hin Hk _ Hik).
  destruct (resolve_all_agrees false ∅ exts [] op ids1 op1 H1) as [Hag1 Hs1].
  { simpl. by replace (∅ ∪ ∅) with (∅ : gset string) by set_solver. }
  destruct (abort_loop_agrees _ set_order (list_to_set ids1 ∪ ∅) ids1 [] op1 l op'
    (λ ids, abort_agrees fuel set_order ids true) H2) as (_ & Hgone & _); [set_solver|done|].
  by rewrite (Hgone id Hcol) in Hst.
Qed.

(** ** Adding and processing *)

Lemma new_state_names tok r prompt parent index q iv st :
  new_request_state tok r prompt parent index q iv = Ok st → rs_request_id st = rq_request_id r.
Proof.
  unfold new_request_state. intros Hr. apply bind_Ok in Hr as ([[dt k] iv'] & _ & Hr).
  apply bind_Ok in Hr as (ext & _ & Hr). apply bind_Ok in Hr as (n & _ & [= <-]). done.
Qed.

Lemma add_agrees r prompt parent index q op op' :
  maps_agree ∅ op → add_request r prompt parent index q op = Ok op' → maps_agree ∅ op'.
Proof.
  intros Hag. unfold add_request. destruct (request_states op !! rq_request_id r) as [st|] eqn:Hst.
  - pose proof (ma_id _ _ Hag _ _ Hst) as Hid. rewrite <-Hid in Hst. unfold _update_streaming_request_state.
    destruct (rq_resumable r); cbn [negb].
    + destruct (input_chunk_queue st); intros [= <-]; by apply (update_agrees ∅ op st).
    + destruct (input_chunk_queue st) as [[|u us]|]; [intros [= <-]; by apply (update_agrees ∅ op st)..|].
      intros Hr. apply bind_Ok in Hr as (op1 & Hf & Hr). destruct (finish_agrees _ _ _ Hag Hf Hst) as [Hag1 _].
      destruct (queue st); [|by injection Hr as <-]. apply put_output_maps in Hr. by eapply same_maps_agree.
  - intros Hr. apply bind_Ok in Hr as (st & Hnew & Hr). apply new_state_names in Hnew.
    set (op1 := match parent with Some _ => _ | None => _ end) in Hr.
    assert (request_states op1 = <[rq_request_id r := st]> (request_states op) ∧ external_req_ids op1 = external_req_ids op) as [Hs1 He1].
    { unfold op1. by destruct parent. }
    injection Hr as <-. rewrite He1. destruct Hag as [Ha Hb Hc].
    split; cbn [request_states external_req_ids set_external]; rewrite Hs1.
    + intros i s [[<- <-]|[_ Hi]]%lookup_insert_Some; [done|eauto].
    + intros i s [[<- <-]|[Hne Hi]]%lookup_insert_Some _.
      * eexists. rewrite lookup_insert_eq. split; [done|]. apply elem_of_app. right. by left.
      * destruct (Hb i s Hi) as (k & Hk & Hik); [set_solver|].
        destruct (decide (rs_external_req_id s = rs_external_req_id st)) as [He|He].
        -- eexists. rewrite He, lookup_insert_eq. split; [done|]. rewrite <-He, Hk. apply elem_of_app. by left.
        -- exists k. by rewrite lookup_insert_ne.
    + intros ext k Hk. apply lookup_insert_Some in Hk as [[<- <-]|[Hne Hk]].
      * assert (∀ i, i ∈ default [] (external_req_ids op !! rs_external_req_id st) →
          ∃ s, request_states op !! i = Some s ∧ rs_external_req_id s = rs_external_req_id st) as Hold.
        { intros i Hi. destruct (external_req_ids op !! rs_external_req_id st) as [k|] eqn:Hk; [|by apply elem_of_nil in Hi].
          destruct (Hc _ _ Hk) as (_ & _ & Hback). destruct (Hback i Hi) as [_ ?]. done. }
        split; [by destruct (default [] _)|]. split.
        -- apply NoDup_app. split; [|split; [|by apply NoDup_singleton]].
           ++ destruct (external_req_ids op !! rs_external_req_id st) as [k|] eqn:Hk; [|constructor]. by destruct (Hc _ _ Hk) as (_ & ? & _).
           ++ intros i Hi ->%list_elem_of_singleton. destruct (Hold _ Hi) as (s & Hs & _). congruence.
        -- intros i [Hi|Hi%list_elem_of_singleton]%elem_of_app; (split; [set_solver|]).
           ++ destruct (Hold i Hi) as (s & Hs & He). exists s. rewrite lookup_insert_ne; [done|]. intros <-. congruence.
           ++ subst. exists st. by rewrite lookup_insert_eq.
      * destruct (Hc _ _ Hk) as (? & ? & Hback). split; [done|]. split; [done|]. intros i Hi.
        destruct (Hback i Hi) as (? & s & Hs & He). split; [done|]. exists s. rewrite lookup_insert_ne; [done|]. intros <-. congruence.
Qed.

Lemma streaming_update_names u st : same_names st (apply_streaming_update u st).
Proof. done. Qed.

Lemma process_output_agrees acc1 acc2 op eo acc1' acc2' op' :
  maps_agree ∅ op → process_output (acc1, acc2, op) eo = Ok (acc1', acc2', op') → maps_agree ∅ op'.
Proof.
  intros Hag. unfold process_output. destruct (request_states op !! eo_request_id eo) as [st|] eqn:Hst; [|by intros [= _ _ <-]].
  pose proof (ma_id _ _ Hag _ _ Hst) as Hid. rewrite <-Hid in Hst. rewrite <-Hid.
  intros Hr. apply bind_Ok in Hr as ([[st1 fin] stop] & Hupd & Hr).
  assert (same_names st st1) as [Hn1 He1].
  { destruct (pooling_output eo); [by injection Hupd as <- _ _|]. apply bind_Ok in Hupd as (d & _ & Hupd).
    apply bind_Ok in Hupd as ([s d'] & _ & Hupd). by destruct s as [[|]|]; injection Hupd as <- _ _. }
  apply bind_Ok in Hr as ([[o st2] ps] & Hmake & Hr). apply make_names in Hmake as [Hn2 He2].
  pose proof (update_agrees ∅ op st st2 Hag Hst ltac:(congruence) ltac:(congruence)) as Hag1.
  set (op1 := set_parents _ _ _) in Hr.
  assert (maps_agree ∅ op1) as Hag2 by by apply (same_maps_agree _ (set_requests (<[rs_request_id st:=st2]> (request_states op)) op)).
  assert (request_states op1 !! rs_request_id st = Some st2) as Hst2 by (cbn; by rewrite lookup_insert_eq).
  apply bind_Ok in Hr as ([outs op2] & Hput & Hr).
  assert (same_maps op1 op2) as Hsm.
  { destruct o as [o|]; [|by injection Hput as _ <-]. destruct (queue st2); [|by injection Hput as _ <-].
    apply bind_Ok in Hput as (op3 & Hp & [= _ <-]). by eapply put_output_maps. }
  pose proof (same_maps_agree _ _ _ Hsm Hag2) as Hag3. destruct Hsm as [Hsm _]. rewrite <-Hsm in Hst2.
  destruct fin as [f|]; [|by injection Hr as _ _ <-].
  apply bind_Ok in Hr as ([ab op3] & Hcomp & [= _ _ <-]). unfold complete_request in Hcomp.
  assert (rs_request_id st2 = rs_request_id st) as Hn by congruence. rewrite <-Hn in Hst2.
  destruct (streaming_input st2).
  - injection Hcomp as _ <-. set (st3 := match input_chunk_queue st2 with Some (u :: us) => _ | _ => _ end).
    assert (same_names st2 st3) as [Hn3 He3] by (unfold st3; by destruct (input_chunk_queue st2) as [[|]|]).
    rewrite Hn3. by apply update_agrees.
  - apply bind_Ok in Hcomp as (op4 & Hf & [= _ <-]). by destruct (finish_agrees _ _ _ Hag3 Hf Hst2).
Qed.

Lemma process_agrees outs : ∀ acc1 acc2 op acc1' acc2' op',
  maps_agree ∅ op → foldM process_output (acc1, acc2, op) outs = Ok (acc1', acc2', op') → maps_agree ∅ op'.
Proof.
  induction outs as [|eo outs IH]; intros acc1 acc2 op acc1' acc2' op' Hag; cbn [foldM]; [by intros [= _ _ <-]|].
  intros Hr. apply bind_Ok in Hr as ([[a b] op1] & H1 & H2). apply process_output_agrees in H1; [|done]. by eapply IH.
Qed.

(** A request that is there can always be finished. *)
Lemma finish_ok op st :
  maps_agree ∅ op → request_states op !! rs_request_id st = Some st →
  (∀ pid, parent_req st = Some pid → is_Some (parents op !! pid)) → ∃ op', _finish_request st op = Ok op'.
Proof.
  intros Hag Hst Hpar. unfold _finish_request. rewrite Hst. cbn [unwrap mbind result_bind]. unfold drop_external.
  cbn [external_req_ids set_requests]. destruct (ma_external _ _ Hag _ _ Hst) as (l & Hl & Hin); [set_solver|].
  rewrite Hl. destruct (list_remove_in _ _ Hin) as [l' Hrem]. replace (default [] (Some l)) with l by done.
  rewrite Hrem. cbn [mbind result_bind]. destruct (parent_req st) as [pid|]; [|by eexists].
  cbn [parents set_external set_requests]. destruct (Hpar pid eq_refl) as [p ->]. by eexists.
Qed.

(** The states the processor can get into: whatever requests are added, engine
    outputs processed and requests aborted, and whatever happens to the
    parents and collectors that others share. *)
Inductive processor_reachable : OutputProcessor S → Prop :=
  | pr_new interval tok : processor_reachable (new_output_processor interval tok)
  | pr_add r prompt parent index q op op' :
      processor_reachable op → add_request r prompt parent index q op = Ok op' → processor_reachable op'
  | pr_process outs ro ab op op' :
      processor_reachable op → process_outputs outs op = Ok (ro, ab, op') → processor_reachable op'
  | pr_abort fuel set_order ids internal l op op' :
      processor_reachable op → abort_requests fuel set_order ids internal op = Ok (l, op') → processor_reachable op'
  | pr_shared ps cs op :
      processor_reachable op → processor_reachable (set_collectors cs (set_parents (parent_requests op) ps op)).

Lemma reachable_agrees op : processor_reachable op → maps_agree ∅ op.
Proof.
  induction 1 as [interval tok|r prompt parent index q op op' _ IH Hr|outs ro ab op op' _ IH Hr
    |fuel so ids internal l op op' _ IH Hr|ps cs op _ IH].
  - split; cbn; intros *; by rewrite lookup_empty.
  - by eapply add_agrees.
  - by eapply process_agrees.
  - by destruct (abort_agrees _ _ _ _ _ _ _ Hr ∅ IH).
  - by apply (same_maps_agree _ op).
Qed.
End Maps.

(** ** Properties *)

(** C39: once all [n] children of a request are registered with its parent, their
    finished outputs may arrive in any order.  If only the final output is wanted,
    nothing is returned until the last child has finished, and then the outputs of
    all children in the order of their indices; for the other kinds each output
    is returned as it arrives.  In both cases the request is marked as finished by
    the last one and by no other. *)
Theorem parallel_outputs_correct id ext n kind seed order f :
  (0 < n)%nat → order ≡ₚ seq 0 n →
  (∀ i, (i < n)%nat → co_index (f i) = Z.of_nat i ∧ is_Some (co_finish_reason (f i))) →
  ∃ p p', new_parent id (Some ext) (Z.of_nat n) kind seed = Ok p ∧
    run_children order f (register_children n p) =
      Ok (if bool_decide (kind = FINAL_ONLY)
          then replicate (n - 1) ([], false) ++ [((λ i, Some (f i)) <$> seq 0 n, true)]
          else imap (λ k i, ([Some (f i)], bool_decide (S k = n))) order, p').
Proof.
  intros Hn Hperm Hf.
  set (p := {| pr_request_id := id; pr_external_req_id := ext; pr_n := Z.of_nat n; pr_output_kind := kind; pr_seed := seed;
    child_requests := []; output_aggregator := if bool_decide (kind = FINAL_ONLY) then replicate (Z.to_nat (Z.of_nat n)) None else [];
    cached_child_sampling_params := None |}). destruct (register_spec n p) as (Hid & Hk & Ha & Hc).
  assert (length order = n) as Hlen by (rewrite Hperm; apply length_seq).
  destruct (run_children_spec n f order (register_children n p)) as (p' & Hrun); try done.
  - rewrite Hperm. apply NoDup_seq.
  - intros i. rewrite Hperm, elem_of_seq. lia.
  - intros ->. simpl in Hlen. lia.
  - split.
    + intros x. rewrite Hc, Hid. split.
      * intros [?%elem_of_nil|(i & ? & ->)]; [done|]. exists i. split; [|done]. rewrite Hperm, elem_of_seq. lia.
      * intros (i & Hi & ->). right. exists i. rewrite Hperm, elem_of_seq in Hi. split; [lia|done].
    + intros Hfin. rewrite Hk in Hfin. rewrite Ha. unfold p in *. cbn [output_aggregator pr_output_kind] in *.
      rewrite bool_decide_true, length_replicate by done. lia.
    + intros Hfin i Hi. rewrite Hk in Hfin. rewrite Ha. unfold p in *. cbn [output_aggregator pr_output_kind] in *.
      rewrite bool_decide_true by done.
      rewrite decide_True by (rewrite Hperm, elem_of_seq; lia). apply lookup_replicate_2. lia.
  - exists p, p'. split; [done|]. rewrite Hrun, Hk, Hlen. done.
Qed.

(** in every state the output processor can get into, each running request
    is named by the list of its external id, these lists are not empty, have no
    duplicates and name running requests only; finishing a running request
    cannot fail; and aborting external ids leaves none of their requests. *)
Theorem processor_maps_agree {S} `{DecodeStream S} `{Tokenizer} (op : OutputProcessor S) :
  processor_reachable op →
  maps_agree ∅ op ∧
  (∀ st, request_states op !! rs_request_id st = Some st →
     (∀ pid, parent_req st = Some pid → is_Some (parents op !! pid)) → ∃ op', _finish_request st op = Ok op') ∧
  (∀ fuel set_order exts l op', abort_requests fuel set_order exts false op = Ok (l, op') →
     ∀ id st, request_states op' !! id = Some st → rs_external_req_id st ∉ exts).
Proof.
  intros Hr%reachable_agrees. split; [done|]. split.
  - intros st. by apply finish_ok.
  - intros fuel so exts l op'. by apply abort_external_gone.
Qed.

(** the result of a pooling request, from [add_request] to [process_outputs].
    An engine that does not stream in intervals returns it, marked as finished,
    and forgets the request; an engine that does raises, because such a request
    has no detokenizer and the interval check asserts one. *)
Theorem pooling_request_result {S} `{DecodeStream S} `{Tokenizer} (op op1 : OutputProcessor S) r prompt index eo ext data fin :
  request_states op !! rq_request_id r = None → rq_sampling r = None → rq_external_req_id r = Some ext → rq_resumable r = false →
  add_request r prompt None index None op = Ok op1 →
  eo_request_id eo = rq_request_id r → pooling_output eo = Some data → finish_reason eo = Some fin →
  if 1 <? op_stream_interval op then process_outputs [eo] op1 = Err AssertionError
  else ∃ op2, process_outputs [eo] op1 = Ok ([PoolOut {| po_request_id := ext; po_data := data; po_finished := true |}], [], op2) ∧
         request_states op2 = request_states op ∧ parents op2 = parents op.
Proof.
  intros Hnew Hpool Hext Hres Hadd Hid Hdata Hfin. unfold add_request in Hadd. rewrite Hnew in Hadd. unfold new_request_state in Hadd. rewrite Hpool in Hadd.
  destruct (rq_pooling_kind r) as [kind|]; [|done]. rewrite Hext, Hres in Hadd. cbn [unwrap mbind result_bind] in Hadd.
  destruct (length_from_prompt_token_ids_or_embeds _ _) as [n|e] eqn:Hlen; [|done]. cbn [mbind result_bind rs_external_req_id] in Hadd.
  set (st := mkRequestState _ _ _ _ _ _ _ _ _ _ _ _ _ _ _ _) in Hadd. injection Hadd as <-.
  assert (Hprompt : check_prompt (set_prefilling false st) = Ok ()).
  { unfold check_prompt. cbn. destruct (rq_token_ids r); [done|]. by destruct (rq_prompt_embeds r). }
  unfold process_outputs. cbn [foldM]. unfold process_output. rewrite Hid. cbn [request_states set_external set_requests]. rewrite lookup_insert_eq, Hdata, Hfin.
  cbn [mbind result_bind]. unfold make_request_output. rewrite (bool_decide_true (is_Some (Some fin))) by by eexists. cbn [negb andb].
  unfold apply_stream_interval. change (stream_interval (set_prefilling false st)) with (op_stream_interval op). destruct (1 <? op_stream_interval op); [done|].
  cbn [mbind result_bind]. rewrite Hprompt. cbn [mbind result_bind streaming_input queue set_prefilling]. unfold st at 1 2 3. cbn [streaming_input queue mbind result_bind].
  unfold complete_request. cbn [streaming_input set_prefilling]. unfold st at 1. cbn [streaming_input].
  unfold _finish_request. cbn [rs_request_id set_prefilling request_states set_parents set_requests set_external]. unfold st at 1. cbn [rs_request_id]. rewrite lookup_insert_eq.
  cbn [unwrap mbind result_bind]. unfold drop_external. cbn [external_req_ids set_requests set_parents set_external rs_external_req_id set_prefilling].
  unfold st. cbn [rs_external_req_id rs_request_id parent_req]. rewrite lookup_insert_eq. cbn [default id].
  destruct (list_remove_in (rq_request_id r) (default [] (external_req_ids op !! ext) ++ [rq_request_id r])) as [l ->]; [set_solver|].
  cbn [mbind result_bind]. rewrite bool_decide_false by congruence. eexists. split; [done|]. split; [|done]. cbn.
  rewrite insert_insert_eq. by apply delete_insert_id.
Qed.

(** ** Concrete runs *)

#[local] Instance no_stream : DecodeStream unit := {| new_stream _ _ := tt; stream_step _ id := (Stepped (Some [id]), tt) |}.
#[local] Instance no_tokenizer : Tokenizer := {|
  vocab := 0; convert_ids_to_tokens _ _ := []; convert_tokens_to_string := @concat Z;
  is_fast := true; get_added_vocab := []; all_special_tokens := [] |}.

Definition demo_completion (i : nat) : CompletionOutput := {|
  co_index := Z.of_nat i; co_text := [Z.of_nat i]; co_token_ids := [Z.of_nat i];
  co_finish_reason := Some FINISH_LENGTH; co_stop_reason := None |}.

Lemma parallel_outputs_correct_witness :
  ∃ p p', new_parent "r" (Some "x"%string) 3 FINAL_ONLY None = Ok p ∧
    run_children [2; 0; 1]%nat demo_completion (register_children 3 p) =
      Ok ([([], false); ([], false);
           ([Some (demo_completion 0); Some (demo_completion 1); Some (demo_completion 2)], true)], p').
Proof.
  apply (parallel_outputs_correct "r" "x" 3 FINAL_ONLY None [2; 0; 1]%nat demo_completion).
  - lia.
  - change (seq 0 3) with ([0; 1] ++ [2])%nat. change [2; 0; 1]%nat with ([2] ++ [0; 1])%nat. apply Permutation_app_comm.
  - intros i _. split; [done|by eexists].
Defined.

(** A request without a tokenizer. *)
Definition plain_request (id ext : string) : EngineCoreRequest := {|
  rq_request_id := id; rq_external_req_id := Some ext;
  rq_sampling := Some {| detokenize := false; si_output_kind := FINAL_ONLY; si_stream_interval := None;
    si_detok := {| params_stop := NoStop; params_min_tokens := 0; params_include_stop := false;
      skip_special_tokens := true; spaces_between_special_tokens := true;
      rq_prompt_token_ids := Some [1]; prompt_embeds_len := None |} |};
  rq_pooling_kind := None; rq_token_ids := Some [1]; rq_prompt_embeds := None; rq_resumable := false |}.

(** Two requests of one external id and one of another. *)
Definition demo_steps (op : OutputProcessor unit) : result (OutputProcessor unit) :=
  op ← add_request (plain_request "a" "x") None None 0 None op;
  op ← add_request (plain_request "b" "x") None None 0 None op;
  add_request (plain_request "c" "y") None None 0 None op.

Definition demo_processor : OutputProcessor unit := default (new_output_processor 1 NoTok)
  (match demo_steps (new_output_processor 1 NoTok) with Ok op => Some op | Err _ => None end).

Lemma demo_reachable : processor_reachable demo_processor.
Proof.
  assert (∃ op, demo_steps (new_output_processor 1 NoTok) = Ok op) as [op Hop] by by eexists.
  unfold demo_processor. rewrite Hop. cbn. unfold demo_steps in Hop.
  apply bind_Ok in Hop as (op1 & H1 & Hop). apply bind_Ok in Hop as (op2 & H2 & H3).
  eapply pr_add; [|exact H3]. eapply pr_add; [|exact H2]. eapply pr_add; [|exact H1]. apply pr_new.
Qed.

Lemma processor_maps_agree_witness :
  external_req_ids demo_processor !! "x"%string = Some ["a"; "b"]%string ∧
  ∃ op', abort_requests 1 (λ l, l) ["x"%string] false demo_processor = Ok (["a"; "b"]%string, op') ∧
    ∀ id st, request_states op' !! id = Some st → rs_external_req_id st ∉ ["x"%string].
Proof.
  split; [vm_compute; reflexivity|].
  destruct (abort_requests 1 (λ l, l) ["x"%string] false demo_processor) as [[l op']|] eqn:Ha; [|by vm_compute in Ha].
  exists op'. assert (l = ["a"; "b"]%string) as ->.
  { assert (fst <$> abort_requests 1 (λ l, l) ["x"%string] false demo_processor = Ok ["a"; "b"]%string) as Hl by (vm_compute; reflexivity).
    rewrite Ha in Hl. by injection Hl. }
  split; [done|]. destruct (processor_maps_agree demo_processor demo_reachable) as (_ & _ & Hgone). by apply (Hgone 1%nat (λ l, l) _ _ _ Ha).
Defined.

(** A pooling request. *)
Definition pooling_request : EngineCoreRequest := {|
  rq_request_id := "p"; rq_external_req_id := Some "x"%string; rq_sampling := None; rq_pooling_kind := Some FINAL_ONLY;
  rq_token_ids := Some [1]; rq_prompt_embeds := None; rq_resumable := false |}.
Definition pooled : EngineCoreOutput := {|
  eo_request_id := "p"; new_token_ids := []; pooling_output := Some 7; finish_reason := Some FINISH_STOP; stop_reason := None |}.
Definition pooling_processor (interval : Z) : OutputProcessor unit :=
  match add_request pooling_request None None 0 None (new_output_processor interval NoTok) with Ok op => op | Err _ => new_output_processor interval NoTok end.

Lemma pooling_request_result_witness :
  process_outputs [pooled] (pooling_processor 2) = Err AssertionError ∧
  ∃ op2, process_outputs [pooled] (pooling_processor 1) = Ok ([PoolOut {| po_request_id := "x"; po_data := 7; po_finished := true |}], [], op2) ∧
    request_states op2 = ∅.
Proof.
  split.
  - refine (pooling_request_result (new_output_processor 2 NoTok) (pooling_processor 2) pooling_request None 0 pooled "x" 7 FINISH_STOP _ _ _ _ _ _ _ _); reflexivity.
  - destruct (pooling_request_result (new_output_processor 1 NoTok) (pooling_processor 1) pooling_request None 0 pooled "x" 7 FINISH_STOP) as (op2 & H1 & H2 & _);
      [reflexivity..|]. by exists op2.
Defined.

(** ** Where the parents go wrong *)

(** The parent of two children, none of which the engine has finished. *)
Definition demo_parent : ParentRequest :=
  match new_parent "r" (Some "x"%string) 2 FINAL_ONLY None with
  | Ok p => p
  | Err _ => set_children {| pr_request_id := EmptyString; pr_external_req_id := EmptyString; pr_n := 0; pr_output_kind := DELTA; pr_seed := None;
      child_requests := []; output_aggregator := []; cached_child_sampling_params := None |} [] [] None
  end.

Definition demo_children : OutputProcessor unit :=
  let op := set_parents ∅ {["r"%string := register_children 2 demo_parent]} (new_output_processor 1 NoTok) in
  match (op ← add_request (plain_request "0_r" "x") None (Some "r"%string) 0 None op;
         add_request (plain_request "1_r" "x") None (Some "r"%string) 1 None op) with
  | Ok op => op
  | Err _ => op
  end.

(** Aborting the external id of a request with two samples leaves its parent
    registered, although no request is left. *)
Lemma abort_external_keeps_parent :
  match abort_requests 2 (λ l, l) ["x"%string] false demo_children with
  | Ok (l, op') => l = ["0_r"; "1_r"]%string ∧ request_states op' = ∅ ∧ external_req_ids op' = ∅ ∧ "r"%string ∈ parent_requests op'
  | Err _ => False
  end.
Proof.
  vm_compute. split_and!; [reflexivity..|]. apply (bool_decide_unpack _). vm_compute. exact I.
Qed.

(** Aborting the same internal id twice in one call raises. *)
Lemma abort_twice_raises :
  abort_requests 1 (λ l, l) ["a"; "a"]%string true demo_processor = Err ValueError.
Proof. vm_compute. reflexivity. Qed.

(** If the first child finishes before the second one is registered, the
    request is reported as finished, with [None] for the second child. *)
Lemma early_child_finishes_parent :
  match get_outputs "0_r" (demo_completion 0) (register_children 1 demo_parent) with
  | Ok (outs, fin, _) => outs = [Some (demo_completion 0); None] ∧ fin = true
  | Err _ => False
  end.
Proof. vm_compute. by split. Qed.
