(* ===== verification/CacheHit.v ===== *)
(** * Prefix-cache look-up per attention type

    [vllm/vllm/v1/core/single_type_kv_cache_manager.py]: the class methods
    [find_longest_cache_hit] of the full-attention, sliding-window,
    chunked-local and ring-buffer managers, which only read the block pool, and
    the sliding-window [reachable_block_mask], which decides what is worth
    caching for such look-ups. *)

From S2P Require Import Prelude FreeQueue Request BlockHash BlockMap BlockPool BlockPoolSpec.
Local Open Scope Z_scope.

(** ** Specifications of cache groups

    The constructors of [KVCacheSpec] that the managers distinguish, with the
    fields they read; a subclass that adds nothing to them (MLA, sink, hidden
    state, sliding-window MLA) is its base class. *)
Inductive KVCacheSpec : Type :=
  | FullAttentionSpec (block_size : Z)
  | RSWASpec (block_size rswa_window : Z)
  | SlidingWindowSpec (block_size sliding_window extra_retained_tokens : Z)
  | ChunkedLocalAttentionSpec (block_size attention_chunk_size : Z)
  | CircularBufferSpec (block_size : Z).

Definition spec_block_size (s : KVCacheSpec) : Z :=
  match s with
  | FullAttentionSpec b | RSWASpec b _ | SlidingWindowSpec b _ _
  | ChunkedLocalAttentionSpec b _ | CircularBufferSpec b => b
  end.

(** ** One list of blocks per cache group *)

(** [for computed, cached in zip(computed_blocks, cached_block): computed.append(cached)] *)
Fixpoint zip_append (computed : list (list ref)) (cached : list ref) : list (list ref) :=
  match computed, cached with
  | c :: cs, x :: xs => (c ++ [x]) :: zip_append cs xs
  | _, _ => computed
  end.

(** [for computed, cached in zip(...): computed[i] = cached], for an [i] in range *)
Fixpoint zip_set (i : nat) (computed : list (list ref)) (cached : list ref) : list (list ref) :=
  match computed, cached with
  | c :: cs, x :: xs => <[i := x]> c :: zip_set i cs xs
  | _, _ => computed
  end.

(** [for computed in computed_blocks: del computed[n:]] *)
Definition trim (n : Z) (computed : list (list ref)) : list (list ref) := (λ c, py_upto c n) <$> computed.

(** [for computed in computed_blocks: computed.pop()] *)
Definition pop_each (computed : list (list ref)) : result (list (list ref)) :=
  mapM_ok (λ c, match c with [] => Err IndexError | _ => Ok (take (length c - 1) c) end) computed.

(** [len(computed_blocks[0])] *)
Definition first_len (computed : list (list ref)) : result Z :=
  c ← py_get computed 0; Ok (py_len c).

(** [if cached_block := block_pool.get_cached_block(h, gids)]: an empty list is
    falsy, too. *)
Definition lookup_all (h : bytes) (gids : list Z) (p : BlockPool) : result (option (list ref)) :=
  c ← get_cached_block h gids p;
  Ok (match c with Some (_ :: _) => c | _ => None end).

(** ** Full attention *)

(** The loop of phase 1. *)
Fixpoint full_block_loop (hl : BlockHashList) (gids : list Z) (p : BlockPool) (idxs : list Z)
    (computed : list (list ref)) : result (list (list ref)) :=
  match idxs with
  | [] => Ok computed
  | i :: idxs' =>
      h ← hl_get hl i;
      cached ← lookup_all h gids p;
      match cached with
      | None => Ok computed
      | Some bs => full_block_loop hl gids p idxs' (zip_append computed bs)
      end
  end.

(** The loop of phase 2: the first interior boundary that hits. *)
Fixpoint partial_block_loop (hl : BlockHashList) (gids : list Z) (p : BlockPool) (alignment_tokens : Z)
    (idxs : list Z) (computed : list (list ref)) (hit_length : Z) : result (list (list ref) * Z) :=
  match idxs with
  | [] => Ok (computed, hit_length)
  | i :: idxs' =>
      h ← hl_get hl i;
      cached ← lookup_all h gids p;
      match cached with
      | None => partial_block_loop hl gids p alignment_tokens idxs' computed hit_length
      | Some bs => Ok (zip_append computed bs, (i + 1) * alignment_tokens)
      end
  end.

(** [assert isinstance(block_hashes, Sequence)]: a view is not a [Sequence]. *)
Definition raw_hashes (hl : BlockHashList) : result (list bytes) :=
  match hl with RawHashes hs => Ok hs | HashView _ _ => Err AssertionError end.

Definition full_find_longest_cache_hit (hl0 : BlockHashList) (max_length : Z) (gids : list Z) (p : BlockPool)
    (spec : KVCacheSpec) (drop_eagle_block : bool) (alignment_tokens dcp_world_size : Z) :
    result (list (list ref) * Z) :=
  _ ← py_assert (match spec with
                 | FullAttentionSpec _ | RSWASpec _ _ | ChunkedLocalAttentionSpec _ _ => true
                 | _ => false
                 end);
  let block_size := if 1 <? dcp_world_size then spec_block_size spec * dcp_world_size else spec_block_size spec in
  hl ← resolve_block_hashes hl0 (hash_block_size p) block_size true (Some alignment_tokens);
  let fine_grained := (alignment_tokens <? block_size) && (block_size mod alignment_tokens =? 0) in
  full_hl ← (if fine_grained then hs ← raw_hashes hl; BlockHashListWithBlockSize hs alignment_tokens block_size
             else Ok hl);
  let max_blocks := max_length / block_size in
  _ ← (if max_blocks <? 0 then Err ValueError else Ok tt);
  computed ← full_block_loop full_hl gids p (py_range 0 (Z.min max_blocks (hl_len full_hl)))
               (replicate (length gids) []);
  n ← first_len computed;
  '(computed, hit_length) ←
    (if fine_grained then
       hs ← raw_hashes hl;
       let scale_factor := block_size / alignment_tokens in
       let first_partial_idx := n * scale_factor in
       let max_partial_idx :=
         Z.min (Z.min (first_partial_idx + scale_factor - 1) (max_length / alignment_tokens)) (py_len hs) in
       partial_block_loop hl gids p alignment_tokens (rev (py_range first_partial_idx max_partial_idx))
         computed (n * block_size)
     else Ok (computed, n * block_size));
  let hit_length := if drop_eagle_block && (0 <? hit_length)
                    then hit_length - Z.min alignment_tokens block_size else hit_length in
  let hit_length := hit_length - hit_length mod alignment_tokens in
  Ok (trim (cdiv hit_length block_size) computed, hit_length).

(** ** Sliding window *)

Definition _contiguous_blocks_for_hit (window_size block_size : Z) (use_eagle : bool) : Z :=
  cdiv (window_size - 1) block_size + if use_eagle then 1 else 0.

(** The search from right to left: the blocks, the length of the current run,
    and whether a run was long enough. *)
Fixpoint swa_loop (hl : BlockHashList) (gids : list Z) (p : BlockPool)
    (block_size alignment_tokens need : Z) (drop_eagle_block : bool)
    (idxs : list Z) (computed : list (list ref)) (run : Z) : result (list (list ref) * Z * bool) :=
  match idxs with
  | [] => Ok (computed, run, false)
  | i :: idxs' =>
      h ← hl_get hl i;
      cached ← lookup_all h gids p;
      match cached with
      | None => swa_loop hl gids p block_size alignment_tokens need drop_eagle_block idxs' computed 0
      | Some bs =>
          if (run =? 0) && negb (block_size =? alignment_tokens) &&
             negb (((if drop_eagle_block then i else i + 1) * block_size) mod alignment_tokens =? 0)
          then swa_loop hl gids p block_size alignment_tokens need drop_eagle_block idxs' computed run
          else
            let computed' := zip_set (Z.to_nat i) computed bs in
            if need <=? run + 1 then Ok (trim (i + (run + 1)) computed', run + 1, true)
            else swa_loop hl gids p block_size alignment_tokens need drop_eagle_block idxs' computed' (run + 1)
      end
  end.

(** [while block_size != alignment_tokens and
      len(computed_blocks[0]) * block_size % alignment_tokens != 0: pop] *)
Fixpoint pop_unaligned (fuel : nat) (block_size alignment_tokens : Z) (computed : list (list ref)) :
    result (list (list ref)) :=
  match fuel with
  | O => Err OutOfFuel
  | S fuel' =>
      if block_size =? alignment_tokens then Ok computed
      else
        n ← first_len computed;
        if n * block_size mod alignment_tokens =? 0 then Ok computed
        else c ← pop_each computed; pop_unaligned fuel' block_size alignment_tokens c
  end.

(** Enough iterations to empty the list. *)
Definition realign (block_size alignment_tokens : Z) (computed : list (list ref)) : result (list (list ref)) :=
  n ← first_len computed; pop_unaligned (S (Z.to_nat n)) block_size alignment_tokens computed.

Definition swa_find_longest_cache_hit (hl0 : BlockHashList) (max_length : Z) (gids : list Z) (p : BlockPool)
    (spec : KVCacheSpec) (drop_eagle_block : bool) (alignment_tokens dcp_world_size pcp_world_size : Z) :
    result (list (list ref) * Z) :=
  match spec with
  | SlidingWindowSpec block_size sliding_window _ =>
      _ ← py_assert (dcp_world_size =? 1);
      _ ← py_assert (pcp_world_size =? 1);
      _ ← py_assert (alignment_tokens mod block_size =? 0);
      hl ← resolve_block_hashes hl0 (hash_block_size p) block_size false (Some alignment_tokens);
      let need := _contiguous_blocks_for_hit sliding_window block_size drop_eagle_block in
      let max_num_blocks := max_length / block_size in
      let computed := replicate (length gids) (replicate (Z.to_nat max_num_blocks) (null_block p)) in
      '(computed, run, match_found) ←
        swa_loop hl gids p block_size alignment_tokens need drop_eagle_block
          (rev (py_range 0 max_num_blocks)) computed 0;
      computed ← (if match_found : bool then Ok computed
                  else realign block_size alignment_tokens (trim run computed));
      n ← first_len computed;
      computed ← (if drop_eagle_block && (0 <? n)
                  then c ← pop_each computed; realign block_size alignment_tokens c
                  else Ok computed);
      n ← first_len computed;
      Ok (computed, n * block_size)
  | _ => Err AssertionError
  end.

(** ** Chunked local attention *)

Definition chunked_find_longest_cache_hit (hl0 : BlockHashList) (max_length : Z) (gids : list Z) (p : BlockPool)
    (spec : KVCacheSpec) (drop_eagle_block : bool) (alignment_tokens dcp_world_size pcp_world_size : Z) :
    result (list (list ref) * Z) :=
  match spec with
  | ChunkedLocalAttentionSpec block_size attention_chunk_size =>
      _ ← py_assert (negb drop_eagle_block);
      _ ← py_assert (dcp_world_size =? 1);
      _ ← py_assert (pcp_world_size =? 1);
      _ ← py_assert (block_size =? alignment_tokens);
      hl ← resolve_block_hashes hl0 (hash_block_size p) block_size false (Some alignment_tokens);
      let max_num_blocks := max_length / block_size in
      let local_attention_start_idx :=
        if 0 <? max_length then max_length / attention_chunk_size * attention_chunk_size else 0 in
      let start_block := local_attention_start_idx / block_size in
      computed ← full_block_loop hl gids p (py_range start_block max_num_blocks)
                   (replicate (length gids) (replicate (Z.to_nat start_block) (null_block p)));
      n ← first_len computed;
      Ok (computed, n * block_size)
  | _ => Err AssertionError
  end.

(** [CircularBufferManager.find_longest_cache_hit] *)
Definition ring_find_longest_cache_hit (gids : list Z) : list (list ref) * Z :=
  (replicate (length gids) [], 0).

(** ** What the sliding window makes worth caching *)

(** [mask[j - start_block] = True] for [j] in a range inside the mask *)
Definition mark (start_block lo hi : Z) (mask : list bool) : list bool :=
  foldl (λ m j, <[Z.to_nat (j - start_block) := true]> m) mask (py_range lo hi).

Definition swa_reachable_block_mask (start_block end_block : Z) (alignment_tokens : option Z)
    (spec : KVCacheSpec) (use_eagle : bool) (retention_interval : option Z)
    (reachable_boundaries : list Z) : result (option (list bool)) :=
  match spec with
  | SlidingWindowSpec block_size sliding_window _ =>
      match alignment_tokens with
      | None => Ok None
      | Some alignment =>
          _ ← py_assert (alignment mod block_size =? 0);
          let need := _contiguous_blocks_for_hit sliding_window block_size use_eagle in
          let shift := if use_eagle then 1 else 0 in
          let mask := replicate (Z.to_nat (end_block - start_block)) false in
          let segment_tokens :=
            match retention_interval with
            | None => Some alignment
            | Some r => if r =? 0 then None else Some r
            end in
          let dense :=
            match segment_tokens with
            | None => Some mask
            | Some s =>
                let per_segment := s / block_size in
                if per_segment <=? need then None
                else Some (imap (λ k b,
                       let i := start_block + Z.of_nat k in
                       b || ((shift <=? i) && (per_segment - need <=? (i - shift) mod per_segment))) mask)
            end in
          match dense with
          | None => Ok None
          | Some mask =>
              match retention_interval with
              | None => Ok (Some mask)
              | Some _ =>
                  Ok (Some (foldl (λ m boundary_tokens,
                    let aligned := boundary_tokens / alignment * alignment in
                    let e := aligned / block_size + shift in
                    mark start_block (Z.max start_block (e - need)) (Z.min end_block e) m)
                    mask reachable_boundaries))
              end
          end
      end
  | _ => Err AssertionError
  end.

(** ** Tables of blocks *)

(** One list per group, all of length [n], whose entries satisfy [Q]. *)
Definition table (Q : Z → nat → ref → Prop) (gids : list Z) (n : nat) (computed : list (list ref)) : Prop :=
  Forall2 (λ g c, length c = n ∧ ∀ k r, c !! k = Some r → Q g k r) gids computed.

Section Tables.
Implicit Types (Q : Z → nat → ref → Prop) (gids : list Z) (computed : list (list ref)) (bs : list ref) (n k : nat).

Lemma table_weaken Q Q' gids n computed :
  (∀ g k r, (k < n)%nat → Q g k r → Q' g k r) → table Q gids n computed → table Q' gids n computed.
Proof.
  intros Himp Ht. eapply Forall2_impl; [exact Ht|]. simpl. intros g c [Hlen Hc]. split; [done|]. intros k r Hk.
  apply Himp; [|by apply Hc]. rewrite <-Hlen. by eapply lookup_lt_Some.
Qed.

Lemma table_replicate Q gids n x : (∀ g k, (k < n)%nat → Q g k x) → table Q gids n (replicate (length gids) (replicate n x)).
Proof.
  intros Hx. induction gids as [|g gids IH]; simpl; constructor; [|done].
  split; [apply length_replicate|]. intros k r Hr. apply lookup_replicate in Hr as [-> ?]. by apply Hx.
Qed.

Lemma table_append Q gids n computed bs :
  table Q gids n computed → Forall2 (λ g r, Q g n r) gids bs → table Q gids (S n) (zip_append computed bs).
Proof.
  intros Ht. revert bs. induction Ht as [|g c gids computed [Hlen Hc] _ IH]; intros bs Hbs.
  - inversion Hbs. constructor.
  - inversion Hbs as [|? x ? xs Hx Hxs]; subst. simpl. constructor; [|by apply IH].
    split; [rewrite length_app; simpl; lia|]. intros k r [Hk|[Hk Hr]]%lookup_app_Some; [by apply Hc|].
    apply list_lookup_singleton_Some in Hr as [? ->]. by replace k with (length c) by lia.
Qed.

Lemma table_set Q Q' gids n computed bs i :
  table Q gids n computed → Forall2 (λ g r, Q' g i r) gids bs → (i < n)%nat →
  (∀ g k r, k ≠ i → Q g k r → Q' g k r) → table Q' gids n (zip_set i computed bs).
Proof.
  intros Ht. revert bs. induction Ht as [|g c gids computed [Hlen Hc] _ IH]; intros bs Hbs Hi Himp.
  - inversion Hbs. constructor.
  - inversion Hbs as [|? x ? xs Hx Hxs]; subst. simpl. constructor; [|by apply IH].
    split; [apply length_insert|]. intros k r Hk. destruct (decide (k = i)) as [->|Hne].
    + rewrite list_lookup_insert_eq in Hk by done. congruence.
    + rewrite list_lookup_insert_ne in Hk by done. apply Himp; [done|by apply Hc].
Qed.

Lemma table_take Q gids n m computed (f : list ref → list ref) :
  (m ≤ n)%nat → table Q gids n computed → (∀ c, length c = n → f c = take m c) → table Q gids m (f <$> computed).
Proof.
  intros Hm Ht Hf. unfold table. rewrite Forall2_fmap_r. eapply Forall2_impl; [exact Ht|]. simpl. intros g c [Hlen Hc].
  rewrite Hf by done. split; [rewrite length_take; lia|]. intros k r [Hk _]%lookup_take_Some. by apply Hc.
Qed.

Lemma table_trim Q gids n m computed :
  0 ≤ m ≤ Z.of_nat n → table Q gids n computed → table Q gids (Z.to_nat m) (trim m computed).
Proof.
  intros Hm Ht. apply (table_take Q gids n); [lia|done|]. intros c Hc. unfold py_upto, slice_bound, py_len.
  destruct (Z.ltb_spec m 0); [lia|]. f_equal. lia.
Qed.

Lemma table_pop Q gids n computed :
  table Q gids (S n) computed → ∃ c', pop_each computed = Ok c' ∧ table Q gids n c'.
Proof.
  intros Ht. exists ((λ c, take (length c - 1) c) <$> computed). split.
  - apply mapM_ok_Forall2. apply Forall2_fmap_r. apply Forall_Forall2_diag. apply Forall_forall. intros c Hc.
    assert (length c = S n) as Hlen.
    { apply list_elem_of_lookup in Hc as [i Hi]. destruct (Forall2_lookup_r _ _ _ _ _ Ht Hi) as (g & _ & ? & _). done. }
    by destruct c.
  - apply (table_take Q gids (S n)); [lia|done|]. intros c ->. f_equal. lia.
Qed.

Lemma table_first_len Q gids n computed :
  gids ≠ [] → table Q gids n computed → first_len computed = Ok (Z.of_nat n).
Proof.
  intros Hne Ht. unfold first_len. destruct Ht as [|g c gids' computed' [Hlen _] _]; [done|].
  rewrite py_get_nonneg by done. change (Ok (py_len c) = Ok (Z.of_nat n)). unfold py_len. by rewrite Hlen.
Qed.

Lemma pop_unaligned_spec Q gids (bs al : Z) fuel n computed :
  gids ≠ [] → 0 < bs → 0 < al → (n < fuel)%nat → table Q gids n computed →
  ∃ m c, pop_unaligned fuel bs al computed = Ok c ∧ (m ≤ n)%nat ∧ table Q gids m c ∧
    (bs ≠ al → Z.of_nat m * bs mod al = 0) ∧ (bs = al → m = n) ∧
    ∀ k, (m < k ≤ n)%nat → Z.of_nat k * bs mod al ≠ 0.
Proof.
  intros Hne Hbs Hal. revert n computed. induction fuel as [|fuel IH]; intros n computed Hf Ht; [lia|]. simpl.
  destruct (Z.eqb_spec bs al) as [E|E].
  { exists n, computed. split_and!; [done|lia|done|done|done|]. intros k. lia. }
  rewrite (table_first_len _ _ _ _ Hne Ht). cbn [mbind result_bind].
  destruct (Z.eqb_spec (Z.of_nat n * bs mod al) 0) as [E0|E0].
  { exists n, computed. split_and!; [done|lia|done|done|done|]. intros k. lia. }
  destruct n as [|n]; [by rewrite Z.mod_0_l in E0 by lia|].
  destruct (table_pop _ _ _ _ Ht) as (c' & -> & Ht'). cbn [mbind result_bind].
  destruct (IH n c') as (m & c & -> & Hm & Htm & Hal' & Heq & Hmax); [lia|done|].
  exists m, c. split_and!; [done|lia|done|done|done|]. intros k Hk. destruct (decide (k = S n)) as [->|]; [done|]. apply Hmax. lia.
Qed.

Lemma realign_spec Q gids (bs al : Z) n computed :
  gids ≠ [] → 0 < bs → 0 < al → table Q gids n computed →
  ∃ m c, realign bs al computed = Ok c ∧ (m ≤ n)%nat ∧ table Q gids m c ∧
    (bs ≠ al → Z.of_nat m * bs mod al = 0) ∧ (bs = al → m = n) ∧
    ∀ k, (m < k ≤ n)%nat → Z.of_nat k * bs mod al ≠ 0.
Proof.
  intros Hne Hbs Hal Ht. unfold realign. rewrite (table_first_len _ _ _ _ Hne Ht). cbn [mbind result_bind].
  apply (pop_unaligned_spec Q); [done|done|done|lia|done].
Qed.
End Tables.

(** ** Hits *)

(** Some block of every group carries the hash. *)
Definition cached (p : BlockPool) (gids : list Z) (h : bytes) : Prop :=
  ∀ g, g ∈ gids → ∃ j, owns p j (pack h g).

(** The block of group [g] carries the hash. *)
Definition holds (p : BlockPool) (g : Z) (h : bytes) (r : ref) : Prop := ∃ j, r = Blk j ∧ owns p j (pack h g).

Lemma lookup_all_spec p gids h :
  cache_inv p → Forall valid_group gids → gids ≠ [] →
  ∃ res, lookup_all h gids p = Ok res ∧
    match res with Some bs => cached p gids h ∧ Forall2 (λ g r, holds p g h r) gids bs | None => ¬ cached p gids h end.
Proof.
  intros Hc Hg Hne. unfold lookup_all. destruct (get_cached_block_spec p h gids Hc Hg) as (res & -> & Hres).
  cbn [mbind result_bind]. eexists. split; [done|]. destruct res as [bs|].
  - assert (cached p gids h).
    { intros g Hin. apply list_elem_of_lookup in Hin as [i Hi]. destruct (Forall2_lookup_l _ _ _ _ _ Hres Hi) as (r & _ & j & _ & ?). eauto. }
    destruct bs as [|b bs]; [by inversion Hres; subst|]. done.
  - destruct Hres as (g & Hin & Hno). intros Hall. destruct (Hall g Hin) as [j Hj]. by apply (Hno j).
Qed.

(** The blocks of a group and the hashes they are looked up under: the [i]-th
    hash of the list, which exists for [0 <= i < hl_len]. *)
Record hash_seq (hl : BlockHashList) (H : Z → option bytes) : Prop := {
  hs_get : ∀ i, 0 ≤ i → hl_get hl i = unwrap IndexError (H i);
  hs_len : ∀ i, 0 ≤ i < hl_len hl → is_Some (H i);
  hs_nonneg : 0 ≤ hl_len hl;
}.

Lemma view_hash_seq hs hbs B :
  0 < hbs → 0 < B → B mod hbs = 0 → hash_seq (HashView hs (B / hbs)) (level_hash hs hbs B).
Proof.
  intros Hh HB Hmod. pose proof (Z.div_mod B hbs ltac:(lia)) as Hdm. pose proof (py_len_nonneg hs).
  assert (0 < B / hbs) by nia. split.
  - intros i Hi. cbn [hl_get]. unfold get_value_at, level_hash. by rewrite py_get_nonneg by nia.
  - intros i [Hi0 Hi]. apply level_hash_some; [done..|]. cbn [hl_len] in Hi.
    pose proof (Z.mul_div_le (py_len hs) (B / hbs) ltac:(done)). nia.
  - cbn [hl_len]. apply Z.div_pos; lia.
Qed.

Lemma raw_hash_seq hs hbs : 0 < hbs → hash_seq (RawHashes hs) (level_hash hs hbs hbs).
Proof.
  intros Hh. pose proof (py_len_nonneg hs). split.
  - intros i Hi. cbn [hl_get]. unfold level_hash. rewrite Z.div_same, py_get_nonneg by lia. do 2 f_equal. lia.
  - intros i Hi. apply level_hash_some; [done|done|apply Z.mod_same; lia|lia|]. cbn [hl_len] in Hi. nia.
  - done.
Qed.

Lemma resolve_hash_seq hs hbs B al :
  0 < hbs → 0 < B → B mod hbs = 0 →
  ∃ hl, resolve_block_hashes (RawHashes hs) hbs B false al = Ok hl ∧ hash_seq hl (level_hash hs hbs B) ∧
    hl_len hl = py_len hs * hbs / B.
Proof.
  intros Hh HB Hmod. pose proof (Z.div_mod B hbs ltac:(lia)) as Hdm. unfold resolve_block_hashes.
  destruct (Z.eqb_spec B hbs) as [->|Hne].
  - exists (RawHashes hs). split_and!; [done|by apply raw_hash_seq|]. cbn [hl_len]. by rewrite Z.div_mul by lia.
  - simpl. rewrite Hmod. cbn. unfold BlockHashListWithBlockSize. rewrite Hmod. cbn.
    eexists. split_and!; [done|by apply view_hash_seq|]. cbn [hl_len].
    assert (0 < B / hbs) by nia. rewrite Hmod, Z.add_0_r in Hdm.
    rewrite Hdm at 2. rewrite (Z.mul_comm (py_len hs)), Z.div_mul_cancel_l by lia. done.
Qed.

Section Look.
Context (p : BlockPool) (gids : list Z).
Context (Hc : cache_inv p) (Hg : Forall valid_group gids) (Hne : gids ≠ []).

(** The forward loop stops at the first hash that is not cached. *)
Lemma full_block_loop_spec (Q : Z → nat → ref → Prop) hl H n a (computed : list (list ref)) :
  hash_seq hl H → 0 ≤ a → a + Z.of_nat n ≤ hl_len hl → table Q gids (Z.to_nat a) computed →
  (∀ g k h r, a ≤ k → H k = Some h → holds p g h r → Q g (Z.to_nat k) r) →
  ∃ m c, full_block_loop hl gids p (py_range a (a + Z.of_nat n)) computed = Ok c ∧
    a ≤ m ≤ a + Z.of_nat n ∧ table Q gids (Z.to_nat m) c ∧
    (∀ k, a ≤ k < m → ∃ h, H k = Some h ∧ cached p gids h) ∧
    (m < a + Z.of_nat n → ∃ h, H m = Some h ∧ ¬ cached p gids h).
Proof.
  intros Hs. revert a computed. induction n as [|n IH]; intros a computed Ha Hlen Ht HQ.
  - rewrite py_range_nil by lia. exists a, computed. split_and!; [done|lia|lia|done|lia|lia].
  - rewrite py_range_cons by lia. cbn [full_block_loop]. rewrite (hs_get _ _ Hs a Ha).
    destruct (hs_len _ _ Hs a ltac:(lia)) as [h Hh]. rewrite Hh. cbn [unwrap mbind result_bind].
    destruct (lookup_all_spec p gids h Hc Hg Hne) as ([bs|] & -> & Hres); cbn [mbind result_bind].
    + destruct Hres as [Hcached Hbs]. replace (a + Z.of_nat (S n)) with (a + 1 + Z.of_nat n) in * by lia.
      destruct (IH (a + 1) (zip_append computed bs)) as (m & c & -> & Hm & Htm & Hk & Hstop); [lia|lia| | |].
      * replace (Z.to_nat (a + 1)) with (S (Z.to_nat a)) by lia. apply table_append; [done|].
        eapply Forall2_impl; [exact Hbs|]. simpl. intros g r Hr. by apply (HQ g a h).
      * intros g k h' r Hak. apply HQ. lia.
      * exists m, c. split_and!; [done|lia|lia|done| |done]. intros k Hak. destruct (decide (k = a)) as [->|]; [eauto|]. apply Hk. lia.
    + exists a, computed. split_and!; [done|lia|lia|done|lia|eauto].
Qed.

(** The backward probe finds the last cached boundary of the range. *)
Lemma partial_block_loop_spec (Q : Z → nat → ref → Prop) hl H al n a (computed : list (list ref)) w hit :
  hash_seq hl H → 0 ≤ a → a + Z.of_nat n ≤ hl_len hl → table Q gids w computed →
  (∀ g k h r, a ≤ k < a + Z.of_nat n → H k = Some h → holds p g h r → Q g w r) →
  ∃ c len, partial_block_loop hl gids p al (rev (py_range a (a + Z.of_nat n))) computed hit = Ok (c, len) ∧
    ((c = computed ∧ len = hit ∧ ∀ k h, a ≤ k < a + Z.of_nat n → H k = Some h → ¬ cached p gids h) ∨
     (∃ i h, a ≤ i < a + Z.of_nat n ∧ H i = Some h ∧ cached p gids h ∧ len = (i + 1) * al ∧ table Q gids (S w) c ∧
        (∃ bs, c = zip_append computed bs ∧ Forall2 (λ g r, holds p g h r) gids bs) ∧
        ∀ k h, i < k < a + Z.of_nat n → H k = Some h → ¬ cached p gids h)).
Proof.
  intros Hs Ha. induction n as [|n IH]; intros Hlen Ht HQ.
  - rewrite py_range_nil by lia. exists computed, hit. split; [done|]. left. split_and!; [done|done|]. lia.
  - rewrite py_range_snoc by lia. rewrite rev_app_distr. cbn [rev app partial_block_loop].
    replace (a + Z.of_nat (S n) - 1) with (a + Z.of_nat n) in * by lia. rewrite (hs_get _ _ Hs) by lia.
    destruct (hs_len _ _ Hs (a + Z.of_nat n) ltac:(lia)) as [h Hh]. rewrite Hh. cbn [unwrap mbind result_bind].
    destruct (lookup_all_spec p gids h Hc Hg Hne) as ([bs|] & -> & Hres); cbn [mbind result_bind].
    + destruct Hres as [Hcached Hbs]. do 2 eexists. split; [done|]. right. exists (a + Z.of_nat n), h.
      split_and!; [lia|lia|done|done|done| |by exists bs|intros; lia].
      apply table_append; [done|]. eapply Forall2_impl; [exact Hbs|]. simpl. intros g r Hr. apply (HQ g (a + Z.of_nat n) h); [lia|done|done].
    + destruct IH as (c & len & -> & Hcase); [lia|done|intros g k h' r Hk; apply HQ; lia|]. exists c, len. split; [done|].
      destruct Hcase as [(-> & -> & Hno)|(i & h' & Hi & HHi & Hci & -> & Htc & Hbs & Hno)].
      * left. split_and!; [done|done|]. intros k h'' Hk HHk. destruct (decide (k = a + Z.of_nat n)) as [->|]; [congruence|]. apply (Hno k); [lia|done].
      * right. exists i, h'. split_and!; [lia|lia|done|done|done|done|done|]. intros k h'' Hk HHk.
        destruct (decide (k = a + Z.of_nat n)) as [->|]; [congruence|]. apply (Hno k); [lia|done].
Qed.

(** ** Full attention: proofs *)

(** All full blocks of the first [m] tokens are cached, and if [m] ends inside
    a block, the prefix of [m] tokens itself is. *)
Definition prefix_cached (hs : list bytes) (hbs B m : Z) : Prop :=
  (∀ k, 0 ≤ k < m / B → ∃ h, level_hash hs hbs B k = Some h ∧ cached p gids h) ∧
  (m mod B ≠ 0 → ∃ h, level_hash hs hbs hbs (m / hbs - 1) = Some h ∧ cached p gids h).

(** The longest such prefix on the boundaries of [unit] tokens. *)
Record longest_prefix (hs : list bytes) (hbs B unit max_length m : Z) : Prop := {
  lp_unit : m mod unit = 0;
  lp_bound : 0 ≤ m ≤ max_length;
  lp_cached : prefix_cached hs hbs B m;
  lp_max : ∀ m', m' mod unit = 0 → m < m' ≤ max_length → ¬ prefix_cached hs hbs B m';
}.

(** The [k]-th block carries the hash of a prefix of [t] tokens that ends in
    the block and covers what a hit of [hit] tokens uses of it. *)
Definition block_for (hs : list bytes) (hbs B hit g : Z) (k : nat) (r : ref) : Prop :=
  ∃ t h, Z.of_nat k * B < t ≤ (Z.of_nat k + 1) * B ∧ Z.min ((Z.of_nat k + 1) * B) hit ≤ t ∧
    t mod hbs = 0 ∧ level_hash hs hbs hbs (t / hbs - 1) = Some h ∧ holds p g h r.

Lemma level_hash_fine hs hbs B k :
  0 < hbs → B mod hbs = 0 → level_hash hs hbs B k = level_hash hs hbs hbs ((k + 1) * B / hbs - 1).
Proof.
  intros Hh Hmod. unfold level_hash. rewrite Z.div_same by lia. f_equal. f_equal.
  rewrite Z.divide_div_mul_exact; [lia|lia|]. by apply Z.mod_divide; [lia|].
Qed.

Lemma full_block_for hs hbs B hit g k h r :
  0 < hbs → 0 < B → B mod hbs = 0 → 0 ≤ k → level_hash hs hbs B k = Some h → holds p g h r →
  block_for hs hbs B hit g (Z.to_nat k) r.
Proof.
  intros Hh HB Hmod Hk Hlev Hr. exists ((k + 1) * B), h. rewrite Z2Nat.id by done. split_and!; [nia|lia|lia| | |done].
  - rewrite Z.mul_mod, Hmod, Z.mul_0_r by lia. apply Z.mod_0_l. lia.
  - by rewrite <-level_hash_fine.
Qed.
End Look.

(** The last steps: dropping the EAGLE unit, rounding and trimming. *)
Definition full_hit_length (drop : bool) (al B hit0 : Z) : Z :=
  let h := if drop && (0 <? hit0) then hit0 - Z.min al B else hit0 in h - h mod al.

Lemma full_hit_length_bounds drop al B hit0 :
  0 < al → 0 < B → 0 ≤ hit0 → hit0 mod Z.min al B = 0 →
  0 ≤ full_hit_length drop al B hit0 ≤ hit0 ∧ full_hit_length drop al B hit0 mod al = 0.
Proof.
  intros Hal HB H0 Hunit. unfold full_hit_length.
  set (h := if drop && (0 <? hit0) then hit0 - Z.min al B else hit0).
  assert (Hh : 0 ≤ h ≤ hit0).
  { unfold h. destruct drop; simpl; [|lia]. destruct (Z.ltb_spec 0 hit0); [|lia].
    assert (0 < Z.min al B) by lia. pose proof (Z.div_mod hit0 (Z.min al B) ltac:(lia)) as Hdm. rewrite Hunit in Hdm.
    set (u := Z.min al B) in *. assert (1 ≤ hit0 / u) by nia. nia. }
  pose proof (Z.div_mod h al ltac:(lia)) as Hdm. pose proof (Z.mod_pos_bound h al ltac:(lia)).
  pose proof (Z.div_pos h al ltac:(lia) ltac:(lia)).
  replace (h - h mod al) with (al * (h / al)) by lia. split; [nia|].
  rewrite Z.mul_comm. apply Z.mod_mul. lia.
Qed.

Lemma block_for_shorter p hs hbs B hit hit' g k r :
  hit' ≤ hit → block_for p hs hbs B hit g k r → block_for p hs hbs B hit' g k r.
Proof. intros Hle (t & h & H1 & H2 & H3). exists t, h. split_and!; [lia|lia|lia|apply H3..]. Qed.

Lemma full_trim p gids hs hbs B al drop hit0 (computed : list (list ref)) :
  0 < al → 0 < B → 0 ≤ hit0 → hit0 mod Z.min al B = 0 →
  table (block_for p hs hbs B hit0) gids (Z.to_nat (cdiv hit0 B)) computed →
  let hit := full_hit_length drop al B hit0 in
  table (block_for p hs hbs B hit) gids (Z.to_nat (cdiv hit B)) (trim (cdiv hit B) computed).
Proof.
  intros Hal HB H0 Hunit Ht hit. destruct (full_hit_length_bounds drop al B hit0 Hal HB H0 Hunit) as [Hb _].
  fold hit in Hb. pose proof (cdiv_mono hit hit0 B HB ltac:(lia)). pose proof (cdiv_nonneg hit B ltac:(lia) HB).
  apply (table_trim _ _ (Z.to_nat (cdiv hit0 B))); [lia|]. revert Ht. apply table_weaken.
  intros g k r _. apply block_for_shorter. lia.
Qed.

Section FullHit.
Context (p : BlockPool) (gids : list Z) (hs : list bytes) (B max_length : Z).
Context (Hc : cache_inv p) (Hg : Forall valid_group gids) (Hne : gids ≠ []).
Context (Hh : 0 < (hash_block_size p)) (HB : 0 < B) (Hmod : B mod (hash_block_size p) = 0) (Hmax : 0 ≤ max_length).

(** What phase 1 finds: the run of cached full blocks from the start. *)
Lemma full_run_spec hl :
  hash_seq hl (level_hash hs (hash_block_size p) B) → hl_len hl = py_len hs * (hash_block_size p) / B →
  ∃ n c, full_block_loop hl gids p (py_range 0 (Z.min (max_length / B) (hl_len hl))) (replicate (length gids) []) = Ok c ∧
    0 ≤ n ≤ max_length / B ∧ n ≤ hl_len hl ∧
    (∀ hit, table (block_for p hs (hash_block_size p) B hit) gids (Z.to_nat n) c) ∧
    (∀ k, 0 ≤ k < n → ∃ h, level_hash hs (hash_block_size p) B k = Some h ∧ cached p gids h) ∧
    (n < max_length / B → ¬ ∃ h, level_hash hs (hash_block_size p) B n = Some h ∧ cached p gids h).
Proof.
  intros Hs Hlen. pose proof (hs_nonneg _ _ Hs) as Hl0. set (b := Z.min (max_length / B) (hl_len hl)).
  assert (Hb0 : 0 ≤ b) by (pose proof (Z.div_pos max_length B); lia).
  set (Q := λ g k r, ∀ hit, block_for p hs (hash_block_size p) B hit g k r).
  destruct (full_block_loop_spec p gids Hc Hg Hne Q hl (level_hash hs (hash_block_size p) B) (Z.to_nat b) 0 (replicate (length gids) []) Hs)
    as (n & c & Hrun & Hn & Ht & Hk & Hstop); [lia|lia|apply (table_replicate Q gids 0 (Blk 0)); lia| |].
  { intros g k h r Hk Hlev Hr hit. by eapply full_block_for. }
  rewrite Z.add_0_l, Z2Nat.id in * by lia. exists n, c. split_and!; [done|lia|lia|lia|..].
  - intros hit. revert Ht. apply table_weaken. by intros g k r _ HQ.
  - intros k Hk'. apply Hk. lia.
  - intros Hlt (h & Hlev & Hch). destruct (decide (n < b)) as [Hnb|Hnb].
    + destruct (Hstop Hnb) as (h' & Hlev' & Hno). congruence.
    + apply lookup_lt_Some in Hlev as Hlt'. assert (n = hl_len hl) as -> by lia. rewrite Hlen in Hlt'.
      pose proof (Z.div_mod B (hash_block_size p) ltac:(lia)) as Hdm. rewrite Hmod in Hdm.
      pose proof (Z.div_mod (py_len hs * (hash_block_size p)) B ltac:(lia)). pose proof (Z.mod_pos_bound (py_len hs * (hash_block_size p)) B ltac:(lia)).
      assert (0 < B / (hash_block_size p)) by nia. unfold py_len in *. nia.
Qed.

Lemma mod_mul_div m B' : 0 < B' → m mod B' = 0 → m = m / B' * B'.
Proof. intros HB' Hm. pose proof (Z.div_mod m B' ltac:(lia)). lia. Qed.

(** Whole-block alignment: the run is the longest prefix. *)
Lemma coarse_longest n :
  0 ≤ n ≤ max_length / B →
  (∀ k, 0 ≤ k < n → ∃ h, level_hash hs (hash_block_size p) B k = Some h ∧ cached p gids h) →
  (n < max_length / B → ¬ ∃ h, level_hash hs (hash_block_size p) B n = Some h ∧ cached p gids h) →
  longest_prefix p gids hs (hash_block_size p) B B max_length (n * B).
Proof.
  intros Hn Hk Hstop. pose proof (Z.mul_div_le max_length B HB). split.
  - apply Z.mod_mul. lia.
  - nia.
  - split; [rewrite Z.div_mul by lia; done|]. by rewrite Z.mod_mul by lia.
  - intros m Hm Hlt [Hall _]. apply mod_mul_div in Hm; [|done]. pose proof (Z.div_le_mono m max_length B HB ltac:(lia)).
    assert (n < m / B) by nia. apply Hstop; [lia|]. apply Hall. lia.
Qed.

(** Fine-grained: the run extended by the last cached interior boundary. *)
Lemma fine_longest n (i : option Z) :
  (hash_block_size p) < B → 0 ≤ n ≤ max_length / B →
  (∀ k, 0 ≤ k < n → ∃ h, level_hash hs (hash_block_size p) B k = Some h ∧ cached p gids h) →
  (n < max_length / B → ¬ ∃ h, level_hash hs (hash_block_size p) B n = Some h ∧ cached p gids h) →
  let a := n * (B / (hash_block_size p)) in
  let b := Z.min (Z.min (a + B / (hash_block_size p) - 1) (max_length / (hash_block_size p))) (py_len hs) in
  match i with
  | None => ∀ k h, a ≤ k < b → level_hash hs (hash_block_size p) (hash_block_size p) k = Some h → ¬ cached p gids h
  | Some i => a ≤ i < b ∧ (∃ h, level_hash hs (hash_block_size p) (hash_block_size p) i = Some h ∧ cached p gids h) ∧
      ∀ k h, i < k < b → level_hash hs (hash_block_size p) (hash_block_size p) k = Some h → ¬ cached p gids h
  end →
  longest_prefix p gids hs (hash_block_size p) B (hash_block_size p) max_length (match i with None => n * B | Some i => (i + 1) * (hash_block_size p) end).
Proof.
  intros Hlt Hn Hk Hstop a b Hi. pose proof (mod_mul_div B (hash_block_size p) Hh Hmod) as HBm. set (sf := B / (hash_block_size p)) in *.
  pose proof (Z.mul_div_le max_length B HB). pose proof (Z.mul_div_le max_length (hash_block_size p) Hh).
  set (m0 := match i with None => n * B | Some i => (i + 1) * (hash_block_size p) end).
  assert (Hm0 : n * B ≤ m0 < (n + 1) * B ∧ m0 mod (hash_block_size p) = 0 ∧ m0 ≤ max_length).
  { unfold m0. destruct i as [i|].
    - destruct Hi as [Hi _]. split_and!; [nia|nia|apply Z.mod_mul; lia|nia].
    - split_and!; [lia|nia| |nia]. rewrite HBm, Z.mul_assoc. apply Z.mod_mul. lia. }
  destruct Hm0 as (Hm0 & Hm0h & Hm0m).
  assert (Hdiv : m0 / B = n) by (symmetry; apply (Z.div_unique m0 B n (m0 - n * B)); lia).
  split; [done|nia|..].
  - split; [rewrite Hdiv; done|]. intros Hnz. unfold m0 in *. destruct i as [i|].
    + rewrite Z.div_mul by lia. replace (i + 1 - 1) with i by lia. apply Hi.
    + by rewrite Z.mod_mul in Hnz by lia.
  - intros m Hm Hlt' [Hall Hpart]. apply mod_mul_div in Hm; [|done]. set (q := m / (hash_block_size p)) in *.
    pose proof (Z.div_le_mono m max_length B HB ltac:(lia)). pose proof (Z.div_le_mono m max_length (hash_block_size p) Hh ltac:(lia)) as Hq.
    fold q in Hq. destruct (decide (n < m / B)) as [Hnb|Hnb].
    + apply Hstop; [lia|]. apply Hall. lia.
    + pose proof (Z.div_mod m B ltac:(lia)) as Hdm. pose proof (Z.mod_pos_bound m B ltac:(lia)).
      assert (m / B = n) as E by nia. destruct Hpart as (h & Hlev & Hch); [nia|].
      assert (Hql : q - 1 < py_len hs).
      { apply lookup_lt_Some in Hlev. rewrite Z.div_same in Hlev by lia. unfold py_len. lia. }
      assert (a ≤ q - 1 < b) by (unfold a, b; nia). unfold m0 in *. destruct i as [i|].
      * destruct Hi as (_ & _ & Hno). apply (Hno (q - 1) h); [nia|done|done].
      * by apply (Hi (q - 1) h).
Qed.
End FullHit.

Definition full_spec (spec : KVCacheSpec) : bool :=
  match spec with FullAttentionSpec _ | RSWASpec _ _ | ChunkedLocalAttentionSpec _ _ => true | _ => false end.

(** The block size a full-attention group caches at. *)
Definition group_block_size (spec : KVCacheSpec) (dcp_world_size : Z) : Z :=
  if 1 <? dcp_world_size then spec_block_size spec * dcp_world_size else spec_block_size spec.

(** How the coordinator calls the look-up: hashes computed at a granularity
    that divides the block size, and an alignment that is either a multiple of
    the block size or, fine-grained, the hash granularity itself. *)
Record full_call_ok (p : BlockPool) (gids : list Z) (B al max_length : Z) : Prop := {
  fc_cache : cache_inv p;
  fc_groups : Forall valid_group gids;
  fc_some : gids ≠ [];
  fc_hash : 0 < hash_block_size p;
  fc_block : 0 < B;
  fc_mod : B mod hash_block_size p = 0;
  fc_max : 0 ≤ max_length;
  fc_pos : 0 < al;
  fc_align : al mod B = 0 ∨ al = hash_block_size p ∧ hash_block_size p < B;
}.

Lemma mod_zero_ge a b : 0 < a → 0 < b → a mod b = 0 → b ≤ a.
Proof.
  intros Ha Hb Hm. pose proof (Z.div_mod a b ltac:(lia)). assert (1 ≤ a / b) by nia. nia.
Qed.

Lemma full_hit_coarse p gids hs spec al dcp max_length drop :
  let B := group_block_size spec dcp in
  full_spec spec = true → full_call_ok p gids B al max_length → al mod B = 0 →
  ∃ hit0 computed,
    full_find_longest_cache_hit (RawHashes hs) max_length gids p spec drop al dcp =
      Ok (trim (cdiv (full_hit_length drop al B hit0) B) computed, full_hit_length drop al B hit0) ∧
    longest_prefix p gids hs (hash_block_size p) B (Z.min al B) max_length hit0 ∧
    table (block_for p hs (hash_block_size p) B hit0) gids (Z.to_nat (cdiv hit0 B)) computed.
Proof.
  intros B Hspec [Hc Hg Hne Hh HB Hmod Hmax Hal _] HalB. pose proof (mod_zero_ge al B Hal HB HalB) as Hge.
  destruct (resolve_hash_seq hs (hash_block_size p) B (Some al) Hh HB Hmod) as (hl & Hres & Hseq & Hlen).
  destruct (full_run_spec p gids hs B max_length Hc Hg Hne Hh HB Hmod Hmax hl Hseq Hlen) as (n & c & Hrun & Hn & Hnl & Ht & Hk & Hstop).
  exists (n * B), c. split_and!.
  - unfold full_find_longest_cache_hit, full_hit_length. fold (full_spec spec). rewrite Hspec.
    fold (group_block_size spec dcp). fold B. cbn [py_assert mbind result_bind].
    assert (Hres' : resolve_block_hashes (RawHashes hs) (hash_block_size p) B true (Some al) = Ok hl).
    { rewrite <-Hres. unfold resolve_block_hashes. by rewrite (proj2 (Z.ltb_ge al B) Hge). }
    rewrite Hres'. cbn [mbind result_bind]. rewrite (proj2 (Z.ltb_ge al B) Hge). cbn [andb mbind result_bind].
    rewrite (proj2 (Z.ltb_ge (max_length / B) 0)) by (apply Z.div_pos; [exact Hmax|exact HB]). cbn [mbind result_bind]. rewrite Hrun. cbn [mbind result_bind].
    rewrite (table_first_len _ _ _ _ Hne (Ht 0)). cbn [mbind result_bind]. by rewrite Z2Nat.id by lia.
  - rewrite Z.min_r by lia. by apply coarse_longest.
  - rewrite cdiv_mul by done. apply Ht.
Qed.

Lemma full_hit_fine p gids hs spec al dcp max_length drop :
  let B := group_block_size spec dcp in
  full_spec spec = true → full_call_ok p gids B al max_length → al = hash_block_size p → hash_block_size p < B →
  ∃ hit0 computed,
    full_find_longest_cache_hit (RawHashes hs) max_length gids p spec drop al dcp =
      Ok (trim (cdiv (full_hit_length drop al B hit0) B) computed, full_hit_length drop al B hit0) ∧
    longest_prefix p gids hs (hash_block_size p) B (Z.min al B) max_length hit0 ∧
    table (block_for p hs (hash_block_size p) B hit0) gids (Z.to_nat (cdiv hit0 B)) computed.
Proof.
  intros B Hspec [Hc Hg Hne Hh HB Hmod Hmax _ _] -> Hlt. set (hbs := hash_block_size p) in *.
  pose proof (view_hash_seq hs hbs B Hh HB Hmod) as Hseq. pose proof (mod_mul_div B hbs Hh Hmod) as HBm.
  assert (Hsf : 0 < B / hbs) by nia.
  assert (Hlen : hl_len (HashView hs (B / hbs)) = py_len hs * hbs / B).
  { cbn [hl_len]. rewrite HBm at 2. by rewrite Z.div_mul_cancel_r by lia. }
  destruct (full_run_spec p gids hs B max_length Hc Hg Hne Hh HB Hmod Hmax _ Hseq Hlen) as (n & c & Hrun & Hn & Hnl & Ht & Hk & Hstop).
  set (a := n * (B / hbs)). set (b := Z.min (Z.min (a + B / hbs - 1) (max_length / hbs)) (py_len hs)).
  pose proof (raw_hash_seq hs hbs Hh) as Hraw.
  assert (Hal : a ≤ py_len hs) by (cbn [hl_len] in Hnl; pose proof (Z.mul_div_le (py_len hs) (B / hbs) Hsf); unfold a; nia).
  assert (Hrange : rev (py_range a b) = rev (py_range a (a + Z.of_nat (Z.to_nat (b - a))))).
  { destruct (decide (a ≤ b)); [do 2 f_equal; lia|]. by rewrite !py_range_nil by lia. }
  destruct (partial_block_loop_spec p gids Hc Hg Hne (block_for p hs hbs B (n * B)) (RawHashes hs) (level_hash hs hbs hbs) hbs
    (Z.to_nat (b - a)) a c (Z.to_nat n) (n * B) Hraw) as (c' & hit0 & Hpart & Hcase); [nia|cbn [hl_len]; unfold b; lia|apply Ht| |].
  { intros g k h r Hka Hlev Hr. exists ((k + 1) * hbs), h. rewrite Z2Nat.id by lia.
    split_and!; [nia|nia|nia|apply Z.mod_mul; lia| |done]. rewrite Z.div_mul by lia. by replace (k + 1 - 1) with k by lia. }
  assert (Hcode : full_find_longest_cache_hit (RawHashes hs) max_length gids p spec drop hbs dcp =
      Ok (trim (cdiv (full_hit_length drop hbs B hit0) B) c', full_hit_length drop hbs B hit0)).
  { unfold full_find_longest_cache_hit, full_hit_length. fold (full_spec spec). rewrite Hspec.
    fold (group_block_size spec dcp). fold B hbs. cbn [py_assert mbind result_bind].
    assert (Hres : resolve_block_hashes (RawHashes hs) hbs B true (Some hbs) = Ok (RawHashes hs)).
    { unfold resolve_block_hashes. destruct (Z.eqb_spec B hbs); [done|]. destruct (Z.ltb_spec hbs B); [|lia]. by rewrite Hmod. }
    rewrite Hres. cbn [mbind result_bind]. destruct (Z.ltb_spec hbs B); [|lia]. rewrite Hmod. cbn [andb Z.eqb raw_hashes mbind result_bind].
    unfold BlockHashListWithBlockSize. rewrite Hmod. cbn [py_assert Z.eqb mbind result_bind].
    rewrite (proj2 (Z.ltb_ge (max_length / B) 0)) by (apply Z.div_pos; [exact Hmax|exact HB]). cbn [mbind result_bind]. rewrite Hrun. cbn [mbind result_bind].
    rewrite (table_first_len _ _ _ _ Hne (Ht 0)). cbn [mbind result_bind]. rewrite Z2Nat.id by lia.
    fold a b. rewrite Hrange, Hpart. by cbn [mbind result_bind]. }
  exists hit0, c'. rewrite Z.min_l by lia. split; [done|].
  destruct Hcase as [(-> & -> & Hno)|(i & h & Hi & Hlev & Hch & -> & Ht' & (bs & -> & Hbs) & Hno)].
  - split; [|rewrite cdiv_mul by done; apply Ht].
    apply (fine_longest p gids hs B max_length Hh HB Hmod Hmax n None); [done..|]. fold hbs a b. intros k h Hkb. apply Hno. lia.
  - split.
    + apply (fine_longest p gids hs B max_length Hh HB Hmod Hmax n (Some i)); [done..|]. fold hbs a b.
      split_and!; [lia|lia|by exists h|]. intros k h' Hkb. apply Hno. lia.
    + assert (Hcd : cdiv ((i + 1) * hbs) B = n + 1).
      { pose proof (cdiv_spec ((i + 1) * hbs) B HB). unfold a, b in *. nia. }
      rewrite Hcd. replace (Z.to_nat (n + 1)) with (S (Z.to_nat n)) by lia. apply table_append; [apply Ht|].
      eapply Forall2_impl; [exact Hbs|]. simpl. intros g r Hr. exists ((i + 1) * hbs), h. rewrite Z2Nat.id by lia.
      unfold a, b in *. split_and!; [nia|nia|nia|apply Z.mod_mul; lia| |done]. rewrite Z.div_mul by lia. by replace (i + 1 - 1) with i by lia.
Qed.

Lemma full_cache_hit_spec p gids hs spec al dcp max_length drop :
  let B := group_block_size spec dcp in
  full_spec spec = true → full_call_ok p gids B al max_length →
  ∃ hit0 computed hit,
    full_find_longest_cache_hit (RawHashes hs) max_length gids p spec drop al dcp = Ok (computed, hit) ∧
    longest_prefix p gids hs (hash_block_size p) B (Z.min al B) max_length hit0 ∧
    hit = full_hit_length drop al B hit0 ∧
    0 ≤ hit ≤ max_length ∧ hit mod al = 0 ∧
    table (block_for p hs (hash_block_size p) B hit) gids (Z.to_nat (cdiv hit B)) computed.
Proof.
  intros B Hspec Hok.
  assert (Hcore : ∃ hit0 computed,
    full_find_longest_cache_hit (RawHashes hs) max_length gids p spec drop al dcp =
      Ok (trim (cdiv (full_hit_length drop al B hit0) B) computed, full_hit_length drop al B hit0) ∧
    longest_prefix p gids hs (hash_block_size p) B (Z.min al B) max_length hit0 ∧
    table (block_for p hs (hash_block_size p) B hit0) gids (Z.to_nat (cdiv hit0 B)) computed).
  { pose proof Hok as [_ _ _ _ _ _ _ _ [Hal|[Hal Hlt]]]; [by apply full_hit_coarse|by apply full_hit_fine]. }
  destruct Hcore as (hit0 & computed & Hrun & Hlp & Ht). destruct Hok.
  pose proof (lp_unit _ _ _ _ _ _ _ _ Hlp) as Hu. pose proof (lp_bound _ _ _ _ _ _ _ _ Hlp) as Hb.
  destruct (full_hit_length_bounds drop al B hit0) as [Hle Halm]; [done|done|lia|done|].
  do 3 eexists. split_and!; [exact Hrun|exact Hlp|done|lia|lia|done|]. by apply full_trim; [..|lia|done|].
Qed.

(** For a full-attention group, with any granularity of hashes that divides
    the block size and both alignment modes, [find_longest_cache_hit] never
    raises.  It determines the longest prefix (a multiple of the smaller of
    alignment and block size, not longer than [max_length]) whose full blocks,
    and whose own end if it ends inside a block, are cached in every group;
    gives up one unit for EAGLE; and rounds down to the alignment.  It returns,
    for every group, exactly the blocks that cover the hit, each of them holding
    the hash of a prefix that reaches as far as the hit uses the block. *)
Theorem full_cache_hit_correct p gids hs spec al dcp max_length drop :
  let B := group_block_size spec dcp in
  full_spec spec = true → full_call_ok p gids B al max_length →
  ∃ hit0 computed hit,
    full_find_longest_cache_hit (RawHashes hs) max_length gids p spec drop al dcp = Ok (computed, hit) ∧
    longest_prefix p gids hs (hash_block_size p) B (Z.min al B) max_length hit0 ∧
    hit = full_hit_length drop al B hit0 ∧
    0 ≤ hit ≤ max_length ∧ hit mod al = 0 ∧
    table (block_for p hs (hash_block_size p) B hit) gids (Z.to_nat (cdiv hit B)) computed.
Proof. apply full_cache_hit_spec. Qed.

(** ** Local attention: proofs *)

(** The [k]-th block carries the [k]-th hash, or is the null block before [lo]. *)
Definition entry (p : BlockPool) (H : Z → option bytes) (lo g : Z) (k : nat) (r : ref) : Prop :=
  (∃ h, H (Z.of_nat k) = Some h ∧ holds p g h r) ∨ r = null_block p ∧ Z.of_nat k < lo.

(** The [k]-th block is cached in every group. *)
Definition block_cached (p : BlockPool) (gids : list Z) (H : Z → option bytes) (k : Z) : Prop :=
  ∃ h, H k = Some h ∧ cached p gids h.

(** The last [need] blocks ending with block [t], or all of them if there are
    fewer, are cached. *)
Definition window_cached (p : BlockPool) (gids : list Z) (H : Z → option bytes) (need t : Z) : Prop :=
  ∀ k, Z.max 0 (t + 1 - need) ≤ k ≤ t → block_cached p gids H k.

Section Window.
Context (p : BlockPool) (gids : list Z) (hl : BlockHashList) (H : Z → option bytes).
Context (Hc : cache_inv p) (Hg : Forall valid_group gids) (Hne : gids ≠ []) (Hs : hash_seq hl H).
Context (B al need : Z) (drop : bool) (N : Z).
Context (HN : N ≤ hl_len hl) (Hneed : 1 ≤ need).

(** The search may end its run at block [i]. *)
Definition top (i : Z) : Prop := B = al ∨ ((if drop then i else i + 1) * B) mod al = 0.

(** Between iterations: blocks [n .. N-1] have been looked at, the last [run]
    of them form the current run. *)
Record swa_state (n run : Z) (computed : list (list ref)) : Prop := {
  ss_run : 0 ≤ run < need;
  ss_top : 0 < run → top (n + run - 1) ∧ n + run ≤ N;
  ss_cached : ∀ k, n ≤ k < n + run → block_cached p gids H k;
  ss_none : ∀ t, n + run ≤ t < N → top t → ¬ window_cached p gids H need t;
  ss_table : table (λ g k r, (∃ h, H (Z.of_nat k) = Some h ∧ holds p g h r) ∨
                             r = null_block p ∧ ¬ (n ≤ Z.of_nat k < n + run)) gids (Z.to_nat N) computed;
}.

(** A miss ends the run: no window can end in it or after it. *)
Lemma swa_miss n run computed :
  0 ≤ n → swa_state (n + 1) run computed → ¬ block_cached p gids H n → swa_state n 0 computed.
Proof.
  intros Hn [Hr Ht Hk Hno Htab] Hmiss. split; [lia|lia|intros; lia| |].
  - intros t Hnt Htop Hwin. destruct (decide (n + 1 + run ≤ t)) as [Hlt|Hlt]; [by apply (Hno t ltac:(lia))|].
    apply Hmiss, Hwin. lia.
  - revert Htab. apply table_weaken. intros g k r _ [?|[? _]]; [by left|right]. split; [done|lia].
Qed.

(** A hit where no run may end is skipped. *)
Lemma swa_skip n computed :
  0 ≤ n → swa_state (n + 1) 0 computed → ¬ top n → swa_state n 0 computed.
Proof.
  intros Hn [Hr Ht Hk Hno Htab] Htop. split; [lia|lia|intros; lia| |].
  - intros t Hnt Ht'. destruct (decide (t = n)) as [->|]; [done|]. apply Hno; [lia|done].
  - revert Htab. apply table_weaken. intros g k r _ [?|[? _]]; [by left|right]. split; [done|lia].
Qed.

(** A hit that extends (or starts) the run. *)
Lemma swa_extend n run computed h bs :
  0 ≤ n < N → swa_state (n + 1) run computed → (run = 0 → top n) → run + 1 < need →
  H n = Some h → cached p gids h → Forall2 (λ g r, holds p g h r) gids bs →
  swa_state n (run + 1) (zip_set (Z.to_nat n) computed bs).
Proof.
  intros Hn [Hr Ht Hk Hno Htab] Htop Hlt Hh Hch Hbs. split; [lia| | | |].
  - intros _. destruct (decide (run = 0)) as [->|]; [by replace (n + (0 + 1) - 1) with n by lia; split; [apply Htop|lia]|].
    replace (n + (run + 1) - 1) with (n + 1 + run - 1) by lia. split; [apply Ht; lia|]. destruct Ht; lia.
  - intros k Hk'. destruct (decide (k = n)) as [->|]; [by exists h|]. apply Hk. lia.
  - intros t Ht'. apply Hno. lia.
  - eapply (table_set _ _ _ _ _ _ (Z.to_nat n) Htab); [|lia|].
    + eapply Forall2_impl; [exact Hbs|]. simpl. intros g r Hr'. left. exists h. by rewrite Z2Nat.id by lia.
    + simpl. intros g k r Hk' [?|[? ?]]; [by left|right]. split; [done|lia].
Qed.

(** The run is long enough: the result of the search. *)
Lemma swa_match n run computed h bs :
  0 ≤ n < N → swa_state (n + 1) run computed → (run = 0 → top n) → need ≤ run + 1 →
  H n = Some h → cached p gids h → Forall2 (λ g r, holds p g h r) gids bs →
  let t := n + run in
  top t ∧ window_cached p gids H need t ∧ t < N ∧
  (∀ t', t < t' < N → top t' → ¬ window_cached p gids H need t') ∧
  table (entry p H (t + 1 - need)) gids (Z.to_nat (t + 1)) (trim (n + (run + 1)) (zip_set (Z.to_nat n) computed bs)).
Proof.
  intros Hn [Hr Ht Hk Hno Htab] Htop Hge Hh Hch Hbs t. split_and!.
  - unfold t. destruct (decide (run = 0)) as [->|]; [rewrite Z.add_0_r; by apply Htop|].
    replace (n + run) with (n + 1 + run - 1) by lia. apply Ht. lia.
  - intros k Hk'. destruct (decide (k = n)) as [->|]; [by exists h|]. apply Hk. unfold t in *. lia.
  - unfold t. destruct (decide (run = 0)) as [->|]; [lia|]. destruct Ht; lia.
  - intros t' Ht'. apply Hno. unfold t in *. lia.
  - replace (n + (run + 1)) with (t + 1) by (unfold t; lia).
    assert (t < N) by (unfold t; destruct (decide (run = 0)) as [->|]; [lia|destruct Ht; lia]).
    set (Q := λ g (k : nat) r, (∃ h, H (Z.of_nat k) = Some h ∧ holds p g h r) ∨
                         r = null_block p ∧ ¬ (n ≤ Z.of_nat k < n + 1 + run)).
    apply (table_weaken Q); [|apply (table_trim Q gids (Z.to_nat N)); [unfold t; lia|]].
    + intros g k r Hk' [?|[? ?]]; [by left|right]. split; [done|]. unfold t in *. lia.
    + eapply (table_set _ _ _ _ _ _ (Z.to_nat n) Htab); [|lia|].
      * eapply Forall2_impl; [exact Hbs|]. simpl. intros g r Hr'. left. exists h. by rewrite Z2Nat.id by lia.
      * simpl. intros g k r Hk' [?|[? ?]]; [by left|right]. split; [done|lia].
Qed.

(** What the search returns: the greatest admissible window, if any. *)
Definition swa_result (res : list (list ref) * Z * bool) (t : option Z) : Prop :=
  let '(computed, run, found) := res in
  match t with
  | None => run = 0 ∧ found = false ∧ (∃ Q, table Q gids (Z.to_nat N) computed) ∧
      ∀ t', 0 ≤ t' < N → top t' → ¬ window_cached p gids H need t'
  | Some t => 0 ≤ t < N ∧ top t ∧ window_cached p gids H need t ∧
      (∀ t', t < t' < N → top t' → ¬ window_cached p gids H need t') ∧
      if found then table (entry p H (t + 1 - need)) gids (Z.to_nat (t + 1)) computed ∧ need ≤ t + 1
      else run = t + 1 ∧ t + 1 < need ∧ table (entry p H (t + 1 - need)) gids (Z.to_nat (t + 1)) (trim run computed)
  end.

Lemma top_skips n run :
  top n ∨ 0 < run →
  ((run =? 0) && negb (B =? al) && negb (((if drop then n else n + 1) * B) mod al =? 0)) = false.
Proof.
  intros [[->|Ht]|Hr].
  - rewrite Z.eqb_refl. by destruct (run =? 0).
  - rewrite Ht. by destruct (run =? 0), (B =? al).
  - by destruct (Z.eqb_spec run 0); [lia|].
Qed.

Lemma top_dec n : top n ∨ ¬ top n.
Proof. unfold top. destruct (decide (B = al)); [tauto|]. destruct (decide ((((if drop then n else n + 1) * B) mod al) = 0)); tauto. Qed.

Lemma swa_loop_spec (n : nat) run computed :
  Z.of_nat n ≤ N → swa_state (Z.of_nat n) run computed →
  ∃ res t, swa_loop hl gids p B al need drop (rev (py_range 0 (Z.of_nat n))) computed run = Ok res ∧ swa_result res t.
Proof.
  revert run computed. induction n as [|n IH]; intros run computed Hn Hst.
  - rewrite py_range_nil by lia. simpl. destruct Hst as [Hr Ht Hk Hno Htab].
    destruct (decide (run = 0)) as [->|Hr0].
    + exists (computed, 0, false), None. split; [done|]. split_and!; [done|done|by eexists|]. intros t Ht'. apply Hno. lia.
    + exists (computed, run, false), (Some (run - 1)). split; [done|]. destruct Ht as [Htop HrN]; [lia|].
      split; [lia|]. split; [by replace (run - 1) with (Z.of_nat 0 + run - 1) by lia|]. split; [intros k Hk'; apply Hk; lia|].
      split; [intros t Ht'; apply Hno; lia|]. split_and!; [lia|lia|].
      set (Q := λ g (k : nat) r, (∃ h, H (Z.of_nat k) = Some h ∧ holds p g h r) ∨
                         r = null_block p ∧ ¬ (Z.of_nat 0 ≤ Z.of_nat k < Z.of_nat 0 + run)).
      replace (run - 1 + 1) with run by lia.
      apply (table_weaken Q); [|apply (table_trim Q gids (Z.to_nat N)); [lia|done]].
      intros g k r Hk' [?|[? ?]]; [by left|lia].
  - rewrite py_range_snoc by lia. rewrite rev_app_distr. replace (Z.of_nat (S n) - 1) with (Z.of_nat n) by lia. cbn [rev app swa_loop].
    replace (Z.of_nat (S n)) with (Z.of_nat n + 1) in Hst by lia.
    rewrite (hs_get _ _ Hs) by lia. destruct (hs_len _ _ Hs (Z.of_nat n) ltac:(lia)) as [h Hh]. rewrite Hh.
    cbn [unwrap mbind result_bind]. destruct (lookup_all_spec p gids h Hc Hg Hne) as ([bs|] & -> & Hres); cbn [mbind result_bind].
    2: { apply IH; [lia|]. apply (swa_miss _ run); [lia|done|]. intros (h' & E & Hch). congruence. }
    destruct Hres as [Hch Hbs]. pose proof (ss_run _ _ _ Hst) as Hrun.
    assert (Hcase : (top (Z.of_nat n) ∨ 0 < run) ∨ (run = 0 ∧ ¬ top (Z.of_nat n))).
    { destruct (decide (run = 0)); [|left; right; lia]. destruct (top_dec (Z.of_nat n)); tauto. }
    destruct Hcase as [Htop|[-> Htop]].
    + rewrite (top_skips _ _ Htop). assert (run = 0 → top (Z.of_nat n)) by (intros; destruct Htop; [done|lia]).
      destruct (Z.leb_spec need (run + 1)).
      * destruct (swa_match (Z.of_nat n) run computed h bs) as (Hm1 & Hm2 & Hm3 & Hm4 & Hm5); [lia|done..|].
        eexists _, (Some (Z.of_nat n + run)). split; [done|]. split_and!; [lia|lia|done|done|done|done|lia].
      * apply IH; [lia|]. by apply (swa_extend _ _ _ h); [lia|..].
    + assert (Hskip : ((0 =? 0) && negb (B =? al) && negb (((if drop then Z.of_nat n else Z.of_nat n + 1) * B) mod al =? 0)) = true).
      { unfold top in Htop. destruct (Z.eqb_spec B al); [tauto|]. destruct (Z.eqb_spec (((if drop then Z.of_nat n else Z.of_nat n + 1) * B) mod al) 0); [tauto|done]. }
      rewrite Hskip. apply IH; [lia|]. by apply swa_skip; [lia|..].
Qed.
End Window.

(** A hit of [n] blocks the sliding window could use: [n] is aligned and the
    window before it is cached; with EAGLE the block after it, too. *)
Definition usable (p : BlockPool) (gids : list Z) (H : Z → option bytes) (B al need N : Z) (drop : bool) (n : Z) : Prop :=
  n * B mod al = 0 ∧
  (n = 0 ∨ let t := if drop then n else n - 1 in 0 ≤ t < N ∧ window_cached p gids H need t).

(** How the coordinator calls the look-up of a sliding-window group. *)
Record swa_call_ok (p : BlockPool) (gids : list Z) (hs : list bytes) (B window al max_length : Z) : Prop := {
  sc_full : full_call_ok p gids B al max_length;
  sc_align : al mod B = 0;
  sc_window : 2 ≤ window;
  sc_hashes : max_length / B ≤ py_len hs * hash_block_size p / B;
}.

Lemma contiguous_pos window B drop : 0 < B → 2 ≤ window → 1 ≤ _contiguous_blocks_for_hit window B drop.
Proof.
  intros HB Hw. unfold _contiguous_blocks_for_hit. pose proof (cdiv_spec (window - 1) B HB).
  assert (1 ≤ cdiv (window - 1) B) by nia. destruct drop; lia.
Qed.

(** What is left after trimming, aligning and dropping the EAGLE block. *)
Definition swa_finish (B al : Z) (drop : bool) (res : list (list ref) * Z * bool) : result (list (list ref) * Z) :=
  let '(computed, run, match_found) := res in
  computed ← (if match_found : bool then Ok computed else realign B al (trim run computed));
  n ← first_len computed;
  computed ← (if drop && (0 <? n) then c ← pop_each computed; realign B al c else Ok computed);
  n ← first_len computed;
  Ok (computed, n * B).

Lemma aligned_top B al n : 0 < B → top B al false (n - 1) → n * B mod al = 0.
Proof.
  intros HB Ht. unfold top in Ht. replace (n - 1 + 1) with n in Ht by lia.
  destruct Ht as [E|E]; [|done]. rewrite <-E. apply Z.mod_mul. lia.
Qed.

Section Finish.
Context (p : BlockPool) (gids : list Z) (H : Z → option bytes) (B al need N : Z).
Context (Hne : gids ≠ []) (HB : 0 < B) (Hal : 0 < al) (HalB : al mod B = 0) (Hneed : 1 ≤ need) (HN : 0 ≤ N).

(** The result: a usable hit whose window consists of cached blocks. *)
Record swa_hit (drop : bool) (n : Z) (computed : list (list ref)) : Prop := {
  sh_usable : usable p gids H B al need N drop n;
  sh_bound : 0 ≤ n ≤ N;
  sh_table : table (entry p H (n + (if drop then 1 else 0) - need)) gids (Z.to_nat n) computed;
  sh_longest : ∀ n', usable p gids H B al need N drop n' → drop = false ∨ B = al ∨ need ≤ n' + 1 → n' ≤ n;
}.

Lemma finish_none drop computed run found :
  swa_result p gids H B al need drop N (computed, run, found) None →
  ∃ c, swa_finish B al drop (computed, run, found) = Ok (c, 0) ∧ swa_hit drop 0 c.
Proof.
  intros (-> & -> & (Q & Ht) & Hno). unfold swa_finish.
  assert (Ht0 : table (entry p H 0) gids 0 (trim 0 computed)).
  { change 0%nat with (Z.to_nat 0). apply (table_weaken (λ _ _ _, True)); [intros g k r Hk; lia|].
    apply (table_trim (λ _ _ _, True) gids (Z.to_nat N)); [lia|]. revert Ht. by apply table_weaken. }
  destruct (realign_spec _ gids B al 0 _ Hne HB Hal Ht0) as (m & c & -> & Hm & Htc & _). assert (m = 0%nat) as -> by lia.
  cbn [mbind result_bind]. rewrite (table_first_len _ _ _ _ Hne Htc). cbn [mbind result_bind].
  replace (drop && (0 <? Z.of_nat 0)) with false by (by destruct drop). cbn [mbind result_bind].
  rewrite (table_first_len _ _ _ _ Hne Htc). cbn [mbind result_bind]. exists c. split; [done|]. split.
  - split; [apply Z.mod_0_l; lia|by left].
  - lia.
  - revert Htc. apply table_weaken. intros g k r Hk; lia.
  - intros n' [Halign [->|[Ht' Hw]]] _; [lia|]. destruct (decide (n' ≤ 0)); [done|]. exfalso. revert Hw. apply Hno; [done|].
    right. destruct drop; [done|]. by replace (n' - 1 + 1) with n' by lia.
Qed.

Lemma swa_hit_intro drop t computed n :
  0 ≤ t < N → top B al drop t → window_cached p gids H need t →
  (∀ t', t < t' < N → top B al drop t' → ¬ window_cached p gids H need t') →
  n = (if drop then t else t + 1) → table (entry p H (t + 1 - need)) gids (Z.to_nat n) computed →
  swa_hit drop n computed.
Proof.
  intros Ht Htop Hw Hno -> Htab. split.
  - split; [|right; destruct drop; [done|by replace (t + 1 - 1) with t by lia]].
    destruct Htop as [E|E]; [rewrite E; apply Z.mod_mul; lia|by destruct drop].
  - destruct drop; lia.
  - revert Htab. apply table_weaken. intros g k r _. destruct drop; [done|]. by rewrite Z.add_0_r.
  - intros n' [Halign [->|[Ht' Hw']]] _; [destruct drop; lia|].
    destruct (decide (n' ≤ if drop then t else t + 1)) as [|Hgt]; [done|]. exfalso. revert Hw'. apply Hno; [destruct drop; lia|].
    right. destruct drop; [done|]. by replace (n' - 1 + 1) with n' by lia.
Qed.

(** The run was long enough. *)
Lemma finish_found drop computed run t :
  swa_result p gids H B al need drop N (computed, run, true) (Some t) →
  ∃ c, swa_finish B al drop (computed, run, true) = Ok (c, (if drop then t else t + 1) * B) ∧
    swa_hit drop (if drop then t else t + 1) c.
Proof.
  intros (Ht & Htop & Hw & Hno & Htab & Hlong). unfold swa_finish. cbn [mbind result_bind].
  rewrite (table_first_len _ _ _ _ Hne Htab). cbn [mbind result_bind]. destruct drop; cbn [andb].
  - destruct (Z.ltb_spec 0 (Z.of_nat (Z.to_nat (t + 1)))); [|lia].
    replace (Z.to_nat (t + 1)) with (S (Z.to_nat t)) in Htab by lia.
    destruct (table_pop _ _ _ _ Htab) as (c & -> & Htc). cbn [mbind result_bind].
    destruct (realign_spec _ gids B al _ _ Hne HB Hal Htc) as (m & c' & -> & Hm & Htc' & _ & Heq & Hmax).
    assert (m = Z.to_nat t) as ->.
    { destruct (decide (B = al)); [by apply Heq|]. destruct (decide (m = Z.to_nat t)) as [|Hlt]; [done|].
      exfalso. apply (Hmax (Z.to_nat t)); [lia|]. rewrite Z2Nat.id by lia. by destruct Htop. }
    cbn [mbind result_bind]. rewrite (table_first_len _ _ _ _ Hne Htc'). cbn [mbind result_bind]. exists c'.
    rewrite Z2Nat.id by lia. split; [done|]. by apply (swa_hit_intro true t).
  - cbn [mbind result_bind]. rewrite (table_first_len _ _ _ _ Hne Htab). cbn [mbind result_bind]. exists computed.
    rewrite Z2Nat.id by lia. split; [done|]. by apply (swa_hit_intro false t).
Qed.

(** The run reaches the first block without being long enough. *)
Lemma finish_prefix computed run t :
  swa_result p gids H B al need false N (computed, run, false) (Some t) →
  ∃ c, swa_finish B al false (computed, run, false) = Ok (c, (t + 1) * B) ∧ swa_hit false (t + 1) c.
Proof.
  intros (Ht & Htop & Hw & Hno & -> & Hshort & Htab). unfold swa_finish.
  destruct (realign_spec _ gids B al _ _ Hne HB Hal Htab) as (m & c & -> & Hm & Htc & _ & Heq & Hmax).
  assert (m = Z.to_nat (t + 1)) as ->.
  { destruct (decide (B = al)); [by apply Heq|]. destruct (decide (m = Z.to_nat (t + 1))) as [|Hlt]; [done|].
    exfalso. apply (Hmax (Z.to_nat (t + 1))); [lia|]. rewrite Z2Nat.id by lia. by destruct Htop. }
  cbn [mbind result_bind]. rewrite (table_first_len _ _ _ _ Hne Htc). cbn [andb mbind result_bind].
  rewrite (table_first_len _ _ _ _ Hne Htc). cbn [mbind result_bind]. exists c. rewrite Z2Nat.id by lia.
  split; [done|]. by apply (swa_hit_intro false t).
Qed.

(** The window of every shorter hit is cached as well, since the whole prefix is. *)
Lemma prefix_usable t n :
  0 ≤ t < N → t + 1 < need → window_cached p gids H need t → 0 ≤ n ≤ t → n * B mod al = 0 →
  usable p gids H B al need N true n.
Proof.
  intros Ht Hshort Hw Hn Halign. split; [done|right]. split; [lia|]. intros k Hk. apply Hw. lia.
Qed.

Lemma finish_prefix_eagle computed run t :
  swa_result p gids H B al need true N (computed, run, false) (Some t) →
  ∃ n c, swa_finish B al true (computed, run, false) = Ok (c, n * B) ∧ swa_hit true n c.
Proof.
  intros (Ht & Htop & Hw & Hno & -> & Hshort & Htab). unfold swa_finish.
  destruct (realign_spec _ gids B al _ _ Hne HB Hal Htab) as (m & c & -> & Hm & Htc & Hmal & Heq & _).
  cbn [mbind result_bind]. rewrite (table_first_len _ _ _ _ Hne Htc). cbn [mbind result_bind].
  assert (Hfin : ∀ n c', table (entry p H (t + 1 - need)) gids n c' → (n ≤ Z.to_nat t)%nat → (B ≠ al → Z.of_nat n * B mod al = 0) →
    (B = al → n = Z.to_nat t) → swa_hit true (Z.of_nat n) c').
  { intros n c' Htn Hnt Haln Hneq. assert (Z.of_nat n * B mod al = 0).
    { destruct (decide (B = al)) as [E|]; [rewrite E; apply Z.mod_mul; lia|by apply Haln]. }
    split; [by apply (prefix_usable t); [..|lia|]|lia| |].
    - rewrite Nat2Z.id. revert Htn. apply table_weaken. intros g k r Hk [?|[? ?]]; [by left|right]. split; [done|lia].
    - intros n' Hu [|[E|Hlong]]; [done|..].
      + rewrite (Hneq E), Z2Nat.id by lia. destruct Hu as [Ha [->|[Ht' Hw']]]; [lia|].
        destruct (decide (n' ≤ t)); [done|]. exfalso. revert Hw'. apply Hno; [lia|by right].
      + destruct Hu as [Ha [->|[Ht' Hw']]]; [lia|]. destruct (decide (n' ≤ t)); [lia|]. exfalso. revert Hw'. apply Hno; [lia|by right]. }
  destruct m as [|m].
  - replace (true && (0 <? Z.of_nat 0)) with false by done. cbn [mbind result_bind].
    rewrite (table_first_len _ _ _ _ Hne Htc). exists 0, c. split; [done|].
    apply (Hfin 0%nat); [done|lia|intros; apply Z.mod_0_l; lia|intros E; apply Heq in E; lia].
  - destruct (Z.ltb_spec 0 (Z.of_nat (S m))); [|lia]. cbn [andb]. destruct (table_pop _ _ _ _ Htc) as (c1 & -> & Htc1). cbn [mbind result_bind].
    destruct (realign_spec _ gids B al _ _ Hne HB Hal Htc1) as (m' & c2 & -> & Hm' & Htc2 & Hal2 & Heq2 & _).
    cbn [mbind result_bind]. rewrite (table_first_len _ _ _ _ Hne Htc2). cbn [mbind result_bind]. exists (Z.of_nat m'), c2. split; [done|].
    apply (Hfin m'); [done|lia|done|]. intros E. apply Heq in E as E1. apply Heq2 in E. lia.
Qed.
End Finish.

Lemma swa_cache_hit_spec p gids hs B window extra al max_length drop :
  swa_call_ok p gids hs B window al max_length →
  ∃ n computed,
    swa_find_longest_cache_hit (RawHashes hs) max_length gids p (SlidingWindowSpec B window extra) drop al 1 1 =
      Ok (computed, n * B) ∧
    swa_hit p gids (level_hash hs (hash_block_size p) B) B al (_contiguous_blocks_for_hit window B drop)
      (max_length / B) drop n computed.
Proof.
  intros [[Hc Hg Hne Hh HB Hmod Hmax Hal _] HalB Hw Hlen].
  set (need := _contiguous_blocks_for_hit window B drop). pose proof (contiguous_pos window B drop HB Hw) as Hneed. fold need in Hneed.
  destruct (resolve_hash_seq hs (hash_block_size p) B (Some al) Hh HB Hmod) as (hl & Hres & Hseq & Hhl).
  set (N := max_length / B). assert (HN0 : 0 ≤ N) by (apply Z.div_pos; lia).
  assert (HN : N ≤ hl_len hl) by (by rewrite Hhl).
  destruct (swa_loop_spec p gids hl _ Hc Hg Hne Hseq B al need drop N HN Hneed (Z.to_nat N) 0
    (replicate (length gids) (replicate (Z.to_nat N) (null_block p)))) as (res & t & Hrun & Hresult); [lia| |].
  { split; [lia|lia|intros; lia|intros; lia|]. apply table_replicate. intros g k Hk. right. split; [done|lia]. }
  rewrite Z2Nat.id in Hrun by lia.
  assert (Hcode : swa_find_longest_cache_hit (RawHashes hs) max_length gids p (SlidingWindowSpec B window extra) drop al 1 1 =
    swa_finish B al drop res).
  { unfold swa_find_longest_cache_hit. cbn [Z.eqb Pos.eqb py_assert mbind result_bind]. rewrite HalB, Hres.
    cbn [Z.eqb py_assert mbind result_bind]. fold need N. rewrite Hrun. by destruct res as [[computed run] found]. }
  rewrite Hcode. destruct res as [[computed run] found], t as [t|].
  - destruct found.
    + eapply finish_found in Hresult as (c & -> & Hhit); [|done..]. eauto.
    + destruct drop.
      * eapply finish_prefix_eagle in Hresult as (n & c & -> & Hhit); [|done..]. eauto.
      * eapply finish_prefix in Hresult as (c & -> & Hhit); [|done..]. eauto.
  - eapply finish_none in Hresult as (c & -> & Hhit); [|done..].
    exists 0, c. eauto.
Qed.

(** C36: For a sliding-window group, [find_longest_cache_hit] never raises and
    its loops terminate.  The hit it returns is aligned, not longer than
    [max_length] and usable: every block the window of the next token reaches
    into (and, with EAGLE, the block after the hit) is cached in every group,
    and the returned lists hold exactly these blocks at their places, null
    blocks filling the part before the window.  No usable hit is longer when
    EAGLE is off, when the alignment is the block size, or when the longer hit
    has a full window before it. *)
Theorem swa_cache_hit_correct p gids hs B window extra al max_length drop :
  swa_call_ok p gids hs B window al max_length →
  ∃ n computed,
    swa_find_longest_cache_hit (RawHashes hs) max_length gids p (SlidingWindowSpec B window extra) drop al 1 1 =
      Ok (computed, n * B) ∧
    swa_hit p gids (level_hash hs (hash_block_size p) B) B al (_contiguous_blocks_for_hit window B drop)
      (max_length / B) drop n computed.
Proof. apply swa_cache_hit_spec. Qed.

(** ** Chunked local attention: correctness *)

Lemma chunked_cache_hit_spec p gids hs B chunk max_length :
  full_call_ok p gids B B max_length → 0 < chunk → chunk mod B = 0 →
  max_length / B ≤ py_len hs * hash_block_size p / B →
  let H := level_hash hs (hash_block_size p) B in
  let start := max_length / chunk * chunk in
  ∃ n computed,
    chunked_find_longest_cache_hit (RawHashes hs) max_length gids p (ChunkedLocalAttentionSpec B chunk) false B 1 1 =
      Ok (computed, n * B) ∧
    start ≤ n * B ≤ max_length ∧ n * B / chunk * chunk = start ∧
    table (entry p H (start / B)) gids (Z.to_nat n) computed ∧
    (∀ k, start / B ≤ k < n → block_cached p gids H k) ∧
    (n < max_length / B → ¬ block_cached p gids H n).
Proof.
  intros [Hc Hg Hne Hh HB Hmod Hmax _ _] Hch Hcm Hlen H start.
  destruct (resolve_hash_seq hs (hash_block_size p) B (Some B) Hh HB Hmod) as (hl & Hres & Hseq & Hhl).
  set (N := max_length / B). assert (HN : N ≤ hl_len hl) by (by rewrite Hhl).
  assert (Hst : 0 ≤ start ≤ max_length ∧ max_length < start + chunk).
  { unfold start. pose proof (Z.div_mod max_length chunk ltac:(lia)). pose proof (Z.mod_pos_bound max_length chunk Hch).
    pose proof (Z.div_pos max_length chunk ltac:(lia) Hch). nia. }
  assert (Hsb : start = start / B * B).
  { apply mod_mul_div; [done|]. unfold start. rewrite Z.mul_mod, Hcm, Z.mul_0_r by lia. apply Z.mod_0_l. lia. }
  set (s := start / B) in *. assert (HsN : 0 ≤ s ≤ N).
  { split; [apply Z.div_pos; lia|]. apply Z.div_le_mono; lia. }
  destruct (full_block_loop_spec p gids Hc Hg Hne (entry p H s) hl H (Z.to_nat (N - s)) s
    (replicate (length gids) (replicate (Z.to_nat s) (null_block p))) Hseq) as (n & c & Hrun & Hn & Ht & Hk & Hstop); [lia|lia| | |].
  { apply table_replicate. intros g k Hk. right. split; [done|lia]. }
  { intros g k h r Hk Hlev Hr. left. exists h. by rewrite Z2Nat.id by lia. }
  replace (s + Z.of_nat (Z.to_nat (N - s))) with N in * by lia. pose proof (Z.mul_div_le max_length B HB) as HNB. fold N in HNB.
  exists n, c. split_and!; [| nia | nia | | done | exact Hk |].
  - unfold chunked_find_longest_cache_hit. cbn [negb Z.eqb Pos.eqb py_assert mbind result_bind]. rewrite Z.eqb_refl.
    cbn [py_assert mbind result_bind]. rewrite Hres. cbn [mbind result_bind]. fold N.
    assert ((if 0 <? max_length then max_length / chunk * chunk else 0) = start) as ->.
    { destruct (Z.ltb_spec 0 max_length); [done|]. lia. }
    fold s. rewrite Hrun. cbn [mbind result_bind]. rewrite (table_first_len _ _ _ _ Hne Ht). cbn [mbind result_bind].
    by rewrite Z2Nat.id by lia.
  - f_equal. symmetry. apply (Z.div_unique (n * B) chunk (max_length / chunk) (n * B - start)); [nia|]. unfold start. lia.
  - intros Hlt (h & Hlev & Hcached). destruct (Hstop Hlt) as (h' & Hlev' & Hno). congruence.
Qed.

(** For chunked local attention (chunks of whole blocks), the look-up never
    raises; the hit it returns lies in the chunk of position [max_length], so the
    blocks before the chunk, which the next token never attends to, may be null
    blocks; all blocks from the start of the chunk to the end of the hit are
    cached blocks of their hashes, and the hit stops only at [max_length] or at a
    block that is not cached. *)
Theorem chunked_cache_hit_correct p gids hs B chunk max_length :
  full_call_ok p gids B B max_length → 0 < chunk → chunk mod B = 0 →
  max_length / B ≤ py_len hs * hash_block_size p / B →
  let H := level_hash hs (hash_block_size p) B in
  let start := max_length / chunk * chunk in
  ∃ n computed,
    chunked_find_longest_cache_hit (RawHashes hs) max_length gids p (ChunkedLocalAttentionSpec B chunk) false B 1 1 =
      Ok (computed, n * B) ∧
    start ≤ n * B ≤ max_length ∧ n * B / chunk * chunk = start ∧
    table (entry p H (start / B)) gids (Z.to_nat n) computed ∧
    (∀ k, start / B ≤ k < n → block_cached p gids H k) ∧
    (n < max_length / B → ¬ block_cached p gids H n).
Proof. apply chunked_cache_hit_spec. Qed.

(** ** What the sliding window makes worth caching: correctness *)

Lemma mark_lookup start lo hi (mask : list bool) (i : Z) :
  start ≤ lo → start ≤ i < start + py_len mask → hi ≤ start + py_len mask →
  mark start lo hi mask !! Z.to_nat (i - start) =
    (λ b, b || bool_decide (lo ≤ i < hi)) <$> mask !! Z.to_nat (i - start).
Proof.
  intros Hlo Hi Hhi. unfold mark.
  assert (Hgen : ∀ (js : list Z) m, py_len m = py_len mask → (∀ j, j ∈ js → start ≤ j < start + py_len mask) →
    foldl (λ m j, <[Z.to_nat (j - start) := true]> m) m js !! Z.to_nat (i - start) =
      (λ b, b || bool_decide (i ∈ js)) <$> m !! Z.to_nat (i - start)).
  { induction js as [|j js IH]; intros m Hm Hjs; simpl.
    - destruct (m !! _) as [b|]; [|done]. by destruct b.
    - rewrite IH; [|unfold py_len in *; by rewrite length_insert|intros k Hk; apply Hjs; by right].
      pose proof (Hjs j ltac:(left)) as Hj. destruct (decide (j = i)) as [->|Hji].
      + rewrite list_lookup_insert_eq by (unfold py_len in *; lia).
        destruct (lookup_lt_is_Some_2 m (Z.to_nat (i - start))) as [b ->]; [unfold py_len in *; lia|]. simpl.
        rewrite (bool_decide_true (i ∈ i :: js)) by left. by rewrite orb_true_r.
      + rewrite list_lookup_insert_ne by lia. destruct (m !! _) as [b|]; [|done]. simpl. do 2 f_equal.
        apply bool_decide_ext. rewrite elem_of_cons. naive_solver. }
  rewrite Hgen; [|done|]. 
  - destruct (mask !! _) as [b|]; [|done]. simpl. do 2 f_equal. apply bool_decide_ext. apply elem_of_py_range.
  - intros j Hj%elem_of_py_range. lia.
Qed.

Lemma mark_length start lo hi mask : length (mark start lo hi mask) = length mask.
Proof.
  unfold mark. generalize (py_range lo hi). intros js. revert mask. induction js as [|j js IH]; intros mask; simpl; [done|].
  by rewrite IH, length_insert.
Qed.

(** Block [i] is one of the [need] blocks before the end of the run that serves
    a hit of [e] blocks. *)
Definition in_tail (need shift e i : Z) : Prop := e + shift - need ≤ i < e + shift.

Lemma dense_tail per need shift i :
  1 ≤ need < per →
  ((shift <=? i) && (per - need <=? (i - shift) mod per)) = true ↔ ∃ q, 1 ≤ q ∧ in_tail need shift (q * per) i.
Proof.
  intros Hn. rewrite andb_true_iff, !Z.leb_le. unfold in_tail.
  pose proof (Z.div_mod (i - shift) per ltac:(lia)) as Hdm. pose proof (Z.mod_pos_bound (i - shift) per ltac:(lia)) as Hmb. split.
  - intros [Hs Hm]. exists ((i - shift) / per + 1). pose proof (Z.div_pos (i - shift) per ltac:(lia) ltac:(lia)). split; [lia|]. nia.
  - intros (q & Hq & Hi). split; [nia|].
    rewrite <-(Z.mod_unique (i - shift) per (q - 1) (i - shift - (q - 1) * per)); [nia|left; nia|lia].
Qed.

(** A boundary whose tail is retained: the ends of the segments, and under
    sparse retention the given token positions rounded down to the alignment. *)
Definition retained (B al : Z) (retention : option Z) (bounds : list Z) (e : Z) : Prop :=
  (∃ s, (retention = None ∧ s = al ∨ retention = Some s ∧ s ≠ 0) ∧ 0 < e ∧ e * B mod s = 0) ∨
  (∃ b, is_Some retention ∧ b ∈ bounds ∧ e = b / al * al / B).

Lemma foldl_mark_lookup start fin need shift al B bounds (mask : list bool) i :
  0 < B → py_len mask = fin - start → start ≤ i < fin →
  foldl (λ m b, let aligned := b / al * al in let e := aligned / B + shift in
           mark start (Z.max start (e - need)) (Z.min fin e) m) mask bounds !! Z.to_nat (i - start) = Some true ↔
  mask !! Z.to_nat (i - start) = Some true ∨ ∃ b, b ∈ bounds ∧ in_tail need shift (b / al * al / B) i.
Proof.
  intros HB. revert mask. induction bounds as [|b bounds IH]; intros mask Hlen Hi; cbn [foldl].
  - split; [by left|]. intros [?|(b & Hb & _)]; [done|by apply elem_of_nil in Hb].
  - rewrite IH; [|unfold py_len in *; by rewrite mark_length|done]. rewrite mark_lookup by lia.
    destruct (lookup_lt_is_Some_2 mask (Z.to_nat (i - start))) as [v Hv]; [unfold py_len in *; lia|]. rewrite Hv. simpl.
    assert (Hiff : Some (v || bool_decide (Z.max start (b / al * al / B + shift - need) ≤ i < Z.min fin (b / al * al / B + shift))) = Some true ↔
      Some v = Some true ∨ in_tail need shift (b / al * al / B) i).
    { rewrite !(inj_iff Some), orb_true_iff, bool_decide_eq_true. unfold in_tail. split; intros [?|?]; [by left|right; lia|by left|right; lia]. }
    rewrite Hiff. setoid_rewrite elem_of_cons. naive_solver.
Qed.

Lemma foldl_mark_length start (f : Z → Z * Z) bounds mask :
  length (foldl (λ m b, mark start (f b).1 (f b).2 m) mask bounds) = length mask.
Proof. revert mask. induction bounds as [|b bounds IH]; intros mask; simpl; [done|]. by rewrite IH, mark_length. Qed.

Lemma segment_boundary B s e : 0 < B → 0 < s → s mod B = 0 → e * B mod s = 0 ↔ ∃ q, e = q * (s / B).
Proof.
  intros HB Hs Hm. pose proof (mod_mul_div s B HB Hm) as E. split.
  - intros He. apply mod_mul_div in He; [|done]. exists (e * B / s). nia.
  - intros [q ->]. replace (q * (s / B) * B) with (q * s) by nia. apply Z.mod_mul. lia.
Qed.

(** The mask of the segment tails. *)
Definition dense_mask (start per need shift : Z) (mask : list bool) : list bool :=
  imap (λ k b, let i := start + Z.of_nat k in
                b || ((shift <=? i) && (per - need <=? (i - shift) mod per))) mask.

Lemma dense_mask_spec start fin B s need shift :
  0 < B → 0 < s → s mod B = 0 → 1 ≤ need < s / B → start ≤ fin →
  let mask := dense_mask start (s / B) need shift (replicate (Z.to_nat (fin - start)) false) in
  py_len mask = fin - start ∧ ∀ i, start ≤ i < fin →
    (mask !! Z.to_nat (i - start) = Some true ↔ ∃ e, (0 < e ∧ e * B mod s = 0) ∧ in_tail need shift e i).
Proof.
  intros HB Hs Hsm Hper Hsf mask. split; [unfold mask, dense_mask, py_len; rewrite length_imap, length_replicate; lia|].
  intros i Hi. unfold mask, dense_mask. rewrite list_lookup_imap, lookup_replicate_2 by lia. simpl.
  rewrite (inj_iff Some). replace (start + Z.of_nat (Z.to_nat (i - start))) with i by lia. rewrite dense_tail by lia. split.
  - intros (q & Hq & Hin). exists (q * (s / B)). split_and!; [nia| |done]. apply segment_boundary; [done..|eauto].
  - intros (e & [He Hes] & Hin). apply segment_boundary in Hes as [q ->]; [|done..]. exists q. split; [nia|done].
Qed.

(** The tails of the explicit boundaries are added to any mask. *)
Lemma sparse_mask_spec start fin B al need shift retention bounds (mask : list bool) (P : Z → Prop) :
  0 < B → py_len mask = fin - start →
  (∀ i, start ≤ i < fin → mask !! Z.to_nat (i - start) = Some true ↔ ∃ e, P e ∧ in_tail need shift e i) →
  (∀ e, retained B al retention bounds e ↔ P e ∨ ∃ b, b ∈ bounds ∧ e = b / al * al / B) →
  let mask' := foldl (λ m b, let aligned := b / al * al in let e := aligned / B + shift in
         mark start (Z.max start (e - need)) (Z.min fin e) m) mask bounds in
  py_len mask' = fin - start ∧ ∀ i, start ≤ i < fin →
    (mask' !! Z.to_nat (i - start) = Some true ↔ ∃ e, retained B al retention bounds e ∧ in_tail need shift e i).
Proof.
  intros HB Hlen HP Hretained mask'. split.
  - unfold mask', py_len in *. rewrite <-Hlen. f_equal.
    apply (foldl_mark_length start (λ b, (Z.max start (b / al * al / B + shift - need), Z.min fin (b / al * al / B + shift)))).
  - intros i Hi. unfold mask'. rewrite foldl_mark_lookup by done. rewrite (HP i Hi). setoid_rewrite Hretained. naive_solver.
Qed.

Lemma retained_sparse B al r bounds e :
  retained B al (Some r) bounds e ↔
    (r ≠ 0 ∧ 0 < e ∧ e * B mod r = 0) ∨ ∃ b, b ∈ bounds ∧ e = b / al * al / B.
Proof.
  unfold retained. split.
  - intros [(s & [[? _]|[[= <-] ?]] & ?)|(b & _ & ?)]; [done|by left|right; eauto].
  - intros [[? ?]|(b & Hb)]; [left; exists r; split; [by right|done]|right; exists b; split; [by eexists|done]].
Qed.

Lemma swa_mask_spec start fin B window extra al use_eagle retention bounds :
  0 ≤ start ≤ fin → 0 < B → 2 ≤ window → 0 < al → al mod B = 0 →
  (∀ r, retention = Some r → 0 ≤ r ∧ r mod B = 0) →
  let need := _contiguous_blocks_for_hit window B use_eagle in
  let shift := if use_eagle then 1 else 0 in
  ∃ m, swa_reachable_block_mask start fin (Some al) (SlidingWindowSpec B window extra) use_eagle retention bounds = Ok m ∧
    match m with
    | None => ∃ s, (retention = None ∧ s = al ∨ retention = Some s ∧ s ≠ 0) ∧ s ≤ need * B
    | Some mask => py_len mask = fin - start ∧
        ∀ i, start ≤ i < fin →
          (mask !! Z.to_nat (i - start) = Some true ↔ ∃ e, retained B al retention bounds e ∧ in_tail need shift e i)
    end.
Proof.
  intros Hsf HB Hw Hal HalB Hret need shift. unfold swa_reachable_block_mask. rewrite HalB. cbn [Z.eqb py_assert mbind result_bind].
  fold need shift. pose proof (contiguous_pos window B use_eagle HB Hw) as Hneed. fold need in Hneed.
  destruct retention as [r|].
  - destruct (Hret r eq_refl) as [Hr0 Hrm]. destruct (Z.eqb_spec r 0) as [->|Hrne].
    + eexists. split; [done|]. apply (sparse_mask_spec _ _ _ _ _ _ _ _ _ (λ _, False)); [done| | |].
      * unfold py_len. rewrite length_replicate. lia.
      * intros i Hi. rewrite lookup_replicate_2 by lia. split; [done|naive_solver].
      * intros e. rewrite retained_sparse. naive_solver.
    + destruct (Z.leb_spec (r / B) need) as [Hle|Hgt].
      * eexists. split; [done|]. exists r. split; [right; done|]. pose proof (mod_mul_div r B HB Hrm). nia.
      * destruct (dense_mask_spec start fin B r need shift) as [Hl Hd]; [lia..|]. eexists. split; [done|].
        apply (sparse_mask_spec _ _ _ _ _ _ _ _ _ (λ e, 0 < e ∧ e * B mod r = 0)); [done|done|done|].
        intros e. rewrite retained_sparse. naive_solver.
  - destruct (Z.leb_spec (al / B) need) as [Hle|Hgt].
    + eexists. split; [done|]. exists al. split; [by left|]. pose proof (mod_mul_div al B HB HalB). nia.
    + destruct (dense_mask_spec start fin B al need shift) as [Hl Hd]; [lia..|]. eexists. split; [done|]. split; [done|].
      intros i Hi. rewrite (Hd i Hi). unfold retained. split.
      * intros (e & [? ?] & ?). exists e. split; [left; exists al; split_and!; [by left|done|done]|done].
      * intros (e & [(s & [[_ ->]|[? _]] & ? & ?)|(b & [? ?] & _)] & ?); [by exists e|done|done].
Qed.

(** [reachable_block_mask] keeps exactly the blocks that a look-up can use.
    It never raises; if it returns no mask, every block is cached, and this
    happens only when the segments are no longer than the tails; if it returns
    a mask, the mask has one entry per block, and the entry of block [i] is
    [True] if and only if [i] is among the last [need] blocks (the window, and
    the EAGLE block) of a retained boundary: every multiple of the alignment,
    or, under sparse retention, every multiple of the interval and the
    explicitly given boundaries. *)
Theorem swa_mask_correct start fin B window extra al use_eagle retention bounds :
  0 ≤ start ≤ fin → 0 < B → 2 ≤ window → 0 < al → al mod B = 0 →
  (∀ r, retention = Some r → 0 ≤ r ∧ r mod B = 0) →
  let need := _contiguous_blocks_for_hit window B use_eagle in
  let shift := if use_eagle then 1 else 0 in
  ∃ m, swa_reachable_block_mask start fin (Some al) (SlidingWindowSpec B window extra) use_eagle retention bounds = Ok m ∧
    match m with
    | None => ∃ s, (retention = None ∧ s = al ∨ retention = Some s ∧ s ≠ 0) ∧ s ≤ need * B
    | Some mask => py_len mask = fin - start ∧
        ∀ i, start ≤ i < fin →
          (mask !! Z.to_nat (i - start) = Some true ↔ ∃ e, retained B al retention bounds e ∧ in_tail need shift e i)
    end.
Proof. apply swa_mask_spec. Qed.

(** ** The EAGLE block is given up twice on short prefixes *)

(** Three blocks of four tokens of a request, cached in group 3. *)
Definition demo_prompt : Request := set_block_hashes [[7]; [8]; [9]] (text_request (py_range 0 12)).

Definition demo_three : result BlockPool :=
  p ← new_block_pool 5 true 4 false None;
  '(rs, p) ← @get_new_blocks demo_env 3 p;
  '(p, _) ← @cache_full_blocks demo_env demo_prompt rs 0 3 4 3 None p; Ok p.

(** With EAGLE and an alignment of two blocks, a prompt whose first three
    blocks are cached but which is shorter than the window gets no hit at all,
    although the hit of two blocks (eight tokens) is usable: the run of three
    blocks ends, by the alignment test inside the loop, one block after an
    aligned position; the loop after the search cuts it back to two blocks, and
    then the EAGLE block is dropped once more and the rest is cut back to zero.
    For a prompt with a full window before it the same position is returned. *)
Theorem swa_eagle_short_prefix :
  match demo_three with
  | Err _ => False
  | Ok p =>
      let H := level_hash [[7]; [8]; [9]] 4 4 in
      usable p [3] H 4 8 (_contiguous_blocks_for_hit 32 4 true) 3 true 2 ∧
      swa_find_longest_cache_hit (RawHashes [[7]; [8]; [9]]) 12 [3] p (SlidingWindowSpec 4 32 0) true 8 1 1 = Ok ([[]], 0) ∧
      swa_find_longest_cache_hit (RawHashes [[7]; [8]; [9]]) 12 [3] p (SlidingWindowSpec 4 8 0) true 8 1 1 =
        Ok ([[Blk 1; Blk 2]], 8)
  end.
Proof.
  destruct demo_three as [p|e] eqn:E; [|by vm_compute in E].
  assert (Hb : ∀ i : nat, (i < 3)%nat → block_hash (blk p (Blk (S i))) = (λ h, pack h 3) <$> [[7]; [8]; [9]] !! i).
  { assert (Hall : (λ p, (λ i, block_hash (blk p (Blk (S i)))) <$> [0; 1; 2]%nat) <$> demo_three =
      Ok ((λ h, Some (pack h 3)) <$> [[7]; [8]; [9]])) by (vm_compute; reflexivity).
    rewrite E in Hall. simpl in Hall. injection Hall as H0 H1 H2. intros [|[|[|i]]] Hi; [done|done|done|lia]. }
  split_and!.
  - split; [done|right]. split; [lia|]. intros k Hk. change (_contiguous_blocks_for_hit 32 4 true) with 9 in Hk.
    exists (nth (Z.to_nat k) [[7]; [8]; [9]] []).
    assert (k = 0 ∨ k = 1 ∨ k = 2) as [-> |[-> | ->]] by lia; (split; [done|]); intros g ->%list_elem_of_singleton.
    + exists 1%nat. left. by apply (Hb 0%nat); lia.
    + exists 2%nat. left. by apply (Hb 1%nat); lia.
    + exists 3%nat. left. by apply (Hb 2%nat); lia.
  - assert (Hrun : (demo_three ≫= λ p, swa_find_longest_cache_hit (RawHashes [[7]; [8]; [9]]) 12 [3] p (SlidingWindowSpec 4 32 0) true 8 1 1) =
      Ok ([[]], 0)) by (vm_compute; reflexivity). by rewrite E in Hrun.
  - assert (Hrun : (demo_three ≫= λ p, swa_find_longest_cache_hit (RawHashes [[7]; [8]; [9]]) 12 [3] p (SlidingWindowSpec 4 8 0) true 8 1 1) =
      Ok ([[Blk 1; Blk 2]], 8)) by (vm_compute; reflexivity). by rewrite E in Hrun.
Qed.

(** ** Witnesses *)

(** A pool that has the first two tokens of a request cached in group 3. *)
Lemma demo_cached_call : ∃ p, demo_cached = Ok p ∧ hash_block_size p = 2 ∧ full_call_ok p [3] 2 2 4.
Proof.
  destruct demo_cached_ok as (p & Hp & Hinv & _). exists p.
  assert (Hh : hash_block_size <$> demo_cached = Ok 2) by (vm_compute; reflexivity).
  rewrite Hp in Hh. injection Hh as Hh. split_and!; [done|done|].
  split; rewrite ?Hh; [apply Hinv|by repeat constructor|done|lia|lia|done|lia|lia|by left].
Qed.

Lemma full_cache_hit_correct_witness :
  ∃ p hit0 computed hit, demo_cached = Ok p ∧
    full_find_longest_cache_hit (RawHashes [[7]; [8]]) 4 [3] p (FullAttentionSpec 2) false 2 1 = Ok (computed, hit) ∧
    longest_prefix p [3] [[7]; [8]] (hash_block_size p) 2 2 4 hit0 ∧ hit mod 2 = 0.
Proof.
  destruct demo_cached_call as (p & Hp & Hh & Hok).
  destruct (full_cache_hit_correct p [3] [[7]; [8]] (FullAttentionSpec 2) 2 1 4 false eq_refl Hok)
    as (hit0 & computed & hit & Hrun & Hlp & _ & _ & Hal & _).
  exists p, hit0, computed, hit. split; [exact Hp|]. split; [exact Hrun|]. split; [exact Hlp|exact Hal].
Defined.

Lemma swa_cache_hit_correct_witness :
  ∃ p n computed, demo_cached = Ok p ∧
    swa_find_longest_cache_hit (RawHashes [[7]; [8]]) 4 [3] p (SlidingWindowSpec 2 3 0) false 2 1 1 = Ok (computed, n * 2).
Proof.
  destruct demo_cached_call as (p & Hp & Hh & Hok).
  destruct (swa_cache_hit_correct p [3] [[7]; [8]] 2 3 0 2 4 false) as (n & computed & Hrun & _).
  { split; [exact Hok|reflexivity|lia|rewrite Hh; vm_compute; discriminate]. }
  exists p, n, computed. split; [exact Hp|exact Hrun].
Defined.

Lemma chunked_cache_hit_correct_witness :
  ∃ p n computed, demo_cached = Ok p ∧
    chunked_find_longest_cache_hit (RawHashes [[7]; [8]]) 4 [3] p (ChunkedLocalAttentionSpec 2 4) false 2 1 1 =
      Ok (computed, n * 2) ∧ 4 ≤ n * 2 ≤ 4.
Proof.
  destruct demo_cached_call as (p & Hp & Hh & Hok).
  destruct (chunked_cache_hit_correct p [3] [[7]; [8]] 2 4 4 Hok) as (n & computed & Hrun & Hb & _);
    [lia|reflexivity|rewrite Hh; vm_compute; discriminate|].
  exists p, n, computed. split; [exact Hp|]. split; [exact Hrun|exact Hb].
Defined.

Lemma swa_mask_correct_witness :
  swa_reachable_block_mask 0 8 (Some 16) (SlidingWindowSpec 4 5 0) false (Some 32) [17] =
    Ok (Some [false; false; false; true; false; false; false; true]) ∧
  ∃ m, swa_reachable_block_mask 0 8 (Some 16) (SlidingWindowSpec 4 5 0) false (Some 32) [17] = Ok m.
Proof.
  split; [vm_compute; reflexivity|].
  destruct (swa_mask_correct 0 8 4 5 0 16 false (Some 32) [17]) as (m & Hm & _); [lia|lia|lia|lia|reflexivity| |].
  - intros r E. injection E as <-. split; [lia|reflexivity].
  - exists m. exact Hm.
Defined.
