(* ===== verification/SingleTypeManager.v ===== *)
(** * Block tables of one cache group

    [vllm/vllm/v1/core/single_type_kv_cache_manager.py]: the manager that keeps
    the block table of every request for one group of attention layers and
    moves blocks between the tables and the pool.  The managers of all groups
    share one [BlockPool], so an operation takes and returns the pool next to
    the manager.  The specification of the group decides which overrides
    apply: full attention, R-SWA, sliding window, chunked local attention and
    the ring buffer are covered. *)

From S2P Require Import Prelude FreeQueue Request BlockHash BlockMap BlockPool BlockPoolSpec CacheHit.
Local Open Scope Z_scope.

(** ** State *)

(** [SingleTypeKVCacheManager]; [req_to_blocks] is a [defaultdict(list)]. *)
Record Manager : Type := mkManager {
  kv_cache_spec : KVCacheSpec;
  block_size : Z;
  m_enable_caching : bool;
  kv_cache_group_id : Z;
  scheduler_block_size : Z;
  cache_hit_alignment_tokens : Z;
  max_admission_blocks : option Z;
  record_new_block_ids : bool;
  use_eagle : bool;
  new_block_ids : list Z;
  req_to_blocks : gmap string (list ref);
  num_cached_block : gmap string Z;
  partial_hit_reqs : gmap string (Z * ref);
  pending_cow_copies : list (ref * ref);
}.

Definition set_new_block_ids (v : list Z) (m : Manager) : Manager :=
  mkManager (kv_cache_spec m) (block_size m) (m_enable_caching m) (kv_cache_group_id m)
    (scheduler_block_size m) (cache_hit_alignment_tokens m) (max_admission_blocks m)
    (record_new_block_ids m) (use_eagle m) v (req_to_blocks m) (num_cached_block m)
    (partial_hit_reqs m) (pending_cow_copies m).

Definition set_req_to_blocks (v : gmap string (list ref)) (m : Manager) : Manager :=
  mkManager (kv_cache_spec m) (block_size m) (m_enable_caching m) (kv_cache_group_id m)
    (scheduler_block_size m) (cache_hit_alignment_tokens m) (max_admission_blocks m)
    (record_new_block_ids m) (use_eagle m) (new_block_ids m) v (num_cached_block m)
    (partial_hit_reqs m) (pending_cow_copies m).

Definition set_num_cached_block (v : gmap string Z) (m : Manager) : Manager :=
  mkManager (kv_cache_spec m) (block_size m) (m_enable_caching m) (kv_cache_group_id m)
    (scheduler_block_size m) (cache_hit_alignment_tokens m) (max_admission_blocks m)
    (record_new_block_ids m) (use_eagle m) (new_block_ids m) (req_to_blocks m) v
    (partial_hit_reqs m) (pending_cow_copies m).

Definition set_partial_hit_reqs (v : gmap string (Z * ref)) (m : Manager) : Manager :=
  mkManager (kv_cache_spec m) (block_size m) (m_enable_caching m) (kv_cache_group_id m)
    (scheduler_block_size m) (cache_hit_alignment_tokens m) (max_admission_blocks m)
    (record_new_block_ids m) (use_eagle m) (new_block_ids m) (req_to_blocks m) (num_cached_block m)
    v (pending_cow_copies m).

Definition set_pending_cow_copies (v : list (ref * ref)) (m : Manager) : Manager :=
  mkManager (kv_cache_spec m) (block_size m) (m_enable_caching m) (kv_cache_group_id m)
    (scheduler_block_size m) (cache_hit_alignment_tokens m) (max_admission_blocks m)
    (record_new_block_ids m) (use_eagle m) (new_block_ids m) (req_to_blocks m) (num_cached_block m)
    (partial_hit_reqs m) v.

(** [self.req_to_blocks[request_id]]: reading a missing key yields a new empty
    list and stores it. *)
Definition blocks_of (rid : string) (m : Manager) : list ref := default [] (req_to_blocks m !! rid).

Definition set_blocks (rid : string) (l : list ref) (m : Manager) : Manager :=
  set_req_to_blocks (<[rid := l]> (req_to_blocks m)) m.

(** [if self._record_new_block_ids: self.new_block_ids.extend(...)] *)
Definition record_ids (blocks : list ref) (m : Manager) : Manager :=
  if record_new_block_ids m then set_new_block_ids (new_block_ids m ++ (block_id <$> blocks)) m else m.

(** [max_admission_blocks_per_request] of the specifications that recycle
    blocks. *)
Definition max_admission_blocks_per_request (spec : KVCacheSpec) (max_in_flight_tokens max_model_len : Z) :
    option Z :=
  match spec with
  | SlidingWindowSpec bs window extra =>
      Some (cdiv (Z.min (window - 1 + extra + max_in_flight_tokens) max_model_len) bs + 1)
  | ChunkedLocalAttentionSpec bs chunk =>
      Some (cdiv (Z.min (chunk + max_in_flight_tokens) max_model_len) bs)
  | _ => None
  end.

(** [get_manager_for_kv_cache_spec] and [__init__] *)
Definition get_manager_for_kv_cache_spec (spec : KVCacheSpec) (max_in_flight_tokens max_model_len : Z)
    (caching : bool) (gid sched_block_size dcp_world_size : Z) (needs_kv_cache_zeroing : bool) : Manager :=
  {| kv_cache_spec := spec;
     block_size := group_block_size spec dcp_world_size;
     m_enable_caching := caching; kv_cache_group_id := gid;
     scheduler_block_size := sched_block_size; cache_hit_alignment_tokens := sched_block_size;
     max_admission_blocks := max_admission_blocks_per_request spec max_in_flight_tokens max_model_len;
     record_new_block_ids :=
       needs_kv_cache_zeroing && match spec with CircularBufferSpec _ => false | _ => true end;
     use_eagle := false; new_block_ids := []; req_to_blocks := ∅; num_cached_block := ∅;
     partial_hit_reqs := ∅; pending_cow_copies := [] |}.

(** ** Operations *)

(** [get_num_skipped_tokens] of the manager of each specification *)
Definition get_num_skipped_tokens (spec : KVCacheSpec) (num_computed_tokens : Z) : Z :=
  match spec with
  | SlidingWindowSpec _ sliding_window extra_retained_tokens =>
      Z.max 0 (num_computed_tokens - sliding_window + 1 - extra_retained_tokens)
  | ChunkedLocalAttentionSpec _ attention_chunk_size =>
      num_computed_tokens / attention_chunk_size * attention_chunk_size
  | _ => 0
  end.

Definition _get_num_evictable_blocks (blocks : list ref) (p : BlockPool) : Z :=
  py_len (filter (λ r, ref_cnt (blk p r) = 0 ∧ is_null (blk p r) = false) blocks).

Definition _has_partial_local_hit (new_computed_blocks : list ref) (num_local_computed_tokens : Z) (m : Manager) : bool :=
  (0 <? py_len new_computed_blocks) && negb (num_local_computed_tokens mod block_size m =? 0).

(** The ring buffer needs one block for its whole life. *)
Definition is_ring (spec : KVCacheSpec) : bool := match spec with CircularBufferSpec _ => true | _ => false end.

Definition get_num_blocks_to_allocate (rid : string) (num_tokens : Z) (new_computed_blocks : list ref)
    (total_computed_tokens num_local_computed_tokens : Z) (apply_admission_cap : bool)
    (m : Manager) (p : BlockPool) : result Z :=
  if is_ring (kv_cache_spec m) then Ok (match blocks_of rid m with [] => 1 | _ => 0 end)
  else
    let num_required_blocks := cdiv num_tokens (block_size m) in
    let num_required_blocks :=
      match max_admission_blocks m with
      | Some cap => if apply_admission_cap then Z.min num_required_blocks cap else num_required_blocks
      | None => num_required_blocks
      end in
    let num_req_blocks := py_len (blocks_of rid m) in
    match num_cached_block m !! rid with
    | Some _ =>
        _ ← py_assert (py_len new_computed_blocks =? 0);
        Ok (Z.max (num_required_blocks - num_req_blocks) 0)
    | None =>
        let num_skipped_tokens := get_num_skipped_tokens (kv_cache_spec m) total_computed_tokens in
        let num_local_computed_blocks := py_len new_computed_blocks + num_req_blocks in
        let num_skipped_blocks := num_skipped_tokens / block_size m in
        let num_new_blocks := Z.max (num_required_blocks - Z.max num_skipped_blocks num_local_computed_blocks) 0 in
        let num_skipped_new_computed_blocks := Z.max 0 (num_skipped_blocks - num_req_blocks) in
        let num_evictable_blocks :=
          _get_num_evictable_blocks (py_from new_computed_blocks num_skipped_new_computed_blocks) p in
        let num_new_blocks :=
          if _has_partial_local_hit new_computed_blocks num_local_computed_tokens m
          then num_new_blocks + 1 else num_new_blocks in
        Ok (num_new_blocks + num_evictable_blocks)
    end.

Section Operations.
Context `{PoolEnv}.

Definition add_local_computed_blocks (rid : string) (new_computed_blocks : list ref)
    (num_local_computed_tokens num_external_computed_tokens : Z) (m : Manager) (p : BlockPool) :
    result (Manager * BlockPool) :=
  if is_ring (kv_cache_spec m) then Ok (m, p)
  else
    let m := set_blocks rid (blocks_of rid m) m in
    _ ← py_assert (py_len (blocks_of rid m) =? 0);
    let num_total_computed_tokens := num_local_computed_tokens + num_external_computed_tokens in
    let num_skipped_tokens := get_num_skipped_tokens (kv_cache_spec m) num_total_computed_tokens in
    let num_skipped_blocks := num_skipped_tokens / block_size m in
    let new_computed_blocks :=
      if 0 <? num_skipped_blocks then py_from new_computed_blocks num_skipped_blocks else new_computed_blocks in
    p ← (if m_enable_caching m then touch new_computed_blocks p
         else _ ← py_assert (bool_decide (new_computed_blocks = [])); Ok p);
    let req_blocks :=
      blocks_of rid m ++ replicate (Z.to_nat num_skipped_blocks) (null_block p) ++ new_computed_blocks in
    let m := set_blocks rid req_blocks m in
    let m := set_num_cached_block (<[rid := py_len req_blocks]> (num_cached_block m)) m in
    if _has_partial_local_hit new_computed_blocks num_local_computed_tokens m then
      let block_idx := num_local_computed_tokens / block_size m in
      tail ← py_get new_computed_blocks (-1);
      let m := set_partial_hit_reqs (<[rid := (block_idx, tail)]> (partial_hit_reqs m)) m in
      Ok (set_num_cached_block (<[rid := block_idx]> (num_cached_block m)) m, p)
    else Ok (m, p).

(** [CircularBufferManager._claim_ring_block] *)
Definition _claim_ring_block (rid : string) (m : Manager) (p : BlockPool) : result (list ref * Manager * BlockPool) :=
  match blocks_of rid m with
  | _ :: _ => Ok ([], m, p)
  | [] =>
      '(new_blocks, p) ← get_new_blocks 1 p;
      Ok (new_blocks, record_ids new_blocks (set_blocks rid new_blocks m), p)
  end.

Definition allocate_external_computed_blocks (rid : string)
    (num_local_computed_tokens num_external_computed_tokens : Z) (m : Manager) (p : BlockPool) :
    result (Manager * BlockPool) :=
  if is_ring (kv_cache_spec m) then '(_, m, p) ← _claim_ring_block rid m p; Ok (m, p)
  else
    let num_total_computed_tokens := num_local_computed_tokens + num_external_computed_tokens in
    let num_skipped_tokens := get_num_skipped_tokens (kv_cache_spec m) num_total_computed_tokens in
    let num_external_computed_tokens :=
      if 0 <? num_skipped_tokens
      then Z.min (num_total_computed_tokens - num_skipped_tokens) num_external_computed_tokens
      else num_external_computed_tokens in
    if num_external_computed_tokens <=? 0 then Ok (m, p)
    else
      let req_blocks := blocks_of rid m in
      let num_new_blocks := Z.max 0 (cdiv num_total_computed_tokens (block_size m) - py_len req_blocks) in
      '(allocated_blocks, p) ← get_new_blocks num_new_blocks p;
      Ok (record_ids allocated_blocks (set_blocks rid (req_blocks ++ allocated_blocks) m), p).

Definition _apply_cow (rid : string) (block_idx : Z) (source_block cow_block : ref) (m : Manager) (p : BlockPool) :
    result (Manager * BlockPool) :=
  let req_blocks := blocks_of rid m in
  _ ← py_assert (block_idx <? py_len req_blocks);
  b ← py_get req_blocks block_idx;
  _ ← py_assert (bool_decide (b = source_block));
  _ ← py_assert (negb (is_null (blk p source_block)) && (0 <? ref_cnt (blk p source_block)));
  let m := set_blocks rid (<[Z.to_nat block_idx := cow_block]> req_blocks) m in
  let m := set_pending_cow_copies (pending_cow_copies m ++ [(source_block, cow_block)]) m in
  Ok (m, update_block (with_ref_cnt (λ n, n + 1)) cow_block p).

(** The redirection of a shared partial tail, in front of [allocate_new_blocks] *)
Definition redirect_partial_hit (rid : string) (m : Manager) (p : BlockPool) :
    result (list ref * Manager * BlockPool) :=
  match partial_hit_reqs m !! rid with
  | None => Ok ([], m, p)
  | Some (block_idx, source_block) =>
      let m := set_partial_hit_reqs (delete rid (partial_hit_reqs m)) m in
      '(bs, p) ← get_new_blocks 1 p;
      cow_block ← py_get bs 0;
      '(m, p) ← _apply_cow rid block_idx source_block cow_block m p;
      Ok ([cow_block], set_new_block_ids (new_block_ids m ++ [block_id cow_block]) m, p)
  end.

Definition allocate_new_blocks (rid : string) (num_tokens : Z) (m : Manager) (p : BlockPool) :
    result (list ref * Manager * BlockPool) :=
  if is_ring (kv_cache_spec m) then _claim_ring_block rid m p
  else
    '(cow_blocks, m, p) ← redirect_partial_hit rid m p;
    let req_blocks := blocks_of rid m in
    let m := set_blocks rid req_blocks m in
    let num_new_blocks := cdiv num_tokens (block_size m) - py_len req_blocks in
    if num_new_blocks <=? 0 then Ok (cow_blocks, m, p)
    else
      '(new_blocks, p) ← get_new_blocks num_new_blocks p;
      Ok (cow_blocks ++ new_blocks, record_ids new_blocks (set_blocks rid (req_blocks ++ new_blocks) m), p).

Definition take_new_block_ids (m : Manager) : list Z * Manager := (new_block_ids m, set_new_block_ids [] m).

Definition take_pending_cow_copies (m : Manager) : list (ref * ref) * Manager :=
  (pending_cow_copies m, set_pending_cow_copies [] m).

(** [reachable_block_mask] of the manager of each specification *)
Definition reachable_block_mask (m : Manager) (start_block end_block : Z) (retention_interval : option Z)
    (reachable_boundaries : list Z) : result (option (list bool)) :=
  match kv_cache_spec m with
  | SlidingWindowSpec _ _ _ =>
      swa_reachable_block_mask start_block end_block (Some (cache_hit_alignment_tokens m)) (kv_cache_spec m)
        (use_eagle m) retention_interval reachable_boundaries
  | _ => Ok None
  end.

(** [FullAttentionManager._cache_partial_tail_block] *)
Definition _cache_partial_tail_block (req : Request) (num_tokens : Z) (m : Manager) (p : BlockPool) :
    result (Request * Manager * BlockPool) :=
  let boundary_tokens := num_prompt_tokens req / hash_block_size p * hash_block_size p in
  if (boundary_tokens =? 0) || (num_tokens <? boundary_tokens) then Ok (req, m, p)
  else if boundary_tokens mod block_size m =? 0 then Ok (req, m, p)
  else
    let blocks := blocks_of (request_id req) m in
    let m := set_blocks (request_id req) blocks m in
    let block_idx := boundary_tokens / block_size m in
    if py_len blocks <=? block_idx then Ok (req, m, p)
    else
      b ← py_get blocks block_idx;
      '(_, p, req) ← cache_partial_block req b boundary_tokens (kv_cache_group_id m) (block_size m) p;
      Ok (req, m, p).

Definition base_cache_blocks (req : Request) (num_tokens : Z) (retention_interval : option Z)
    (m : Manager) (p : BlockPool) : result (Request * Manager * BlockPool) :=
  let num_cached_blocks := default 0 (num_cached_block m !! request_id req) in
  let num_full_blocks := num_tokens / block_size m in
  if num_full_blocks <=? num_cached_blocks then Ok (req, m, p)
  else
    let reachable_boundaries :=
      (num_prompt_tokens req - 1) ::
      (if shared_prefix_boundary req =? 0 then [] else [shared_prefix_boundary req]) in
    mask ← reachable_block_mask m num_cached_blocks num_full_blocks retention_interval reachable_boundaries;
    let blocks := blocks_of (request_id req) m in
    let m := set_blocks (request_id req) blocks m in
    '(p, req) ← cache_full_blocks req blocks num_cached_blocks num_full_blocks (block_size m)
                  (kv_cache_group_id m) mask p;
    Ok (req, set_num_cached_block (<[request_id req := num_full_blocks]> (num_cached_block m)) m, p).

Definition cache_blocks (req : Request) (num_tokens : Z) (retention_interval : option Z)
    (m : Manager) (p : BlockPool) : result (Request * Manager * BlockPool) :=
  match kv_cache_spec m with
  | CircularBufferSpec _ => Ok (req, m, p)
  | FullAttentionSpec _ | RSWASpec _ _ =>
      '(req, m, p) ← base_cache_blocks req num_tokens retention_interval m p;
      if block_size m =? hash_block_size p then Ok (req, m, p)
      else _cache_partial_tail_block req num_tokens m p
  | _ => base_cache_blocks req num_tokens retention_interval m p
  end.

Definition pop_blocks_for_free (rid : string) (m : Manager) : list ref * Manager :=
  (blocks_of rid m,
   set_partial_hit_reqs (delete rid (partial_hit_reqs m))
     (set_num_cached_block (delete rid (num_cached_block m))
       (set_req_to_blocks (delete rid (req_to_blocks m)) m))).

Definition manager_free (rid : string) (m : Manager) (p : BlockPool) : result (Manager * BlockPool) :=
  let '(blocks, m) := pop_blocks_for_free rid m in
  p ← free_blocks (rev blocks) p; Ok (m, p).

(** The loop of [_remove_blocks_in_range]: the freed blocks and the table. *)
Fixpoint null_loop (null : ref) (idxs : list Z) (freed blocks : list ref) : result (list ref * list ref) :=
  match idxs with
  | [] => Ok (freed, blocks)
  | i :: idxs' =>
      b ← py_get blocks i;
      if bool_decide (b = null) then Ok (freed, blocks)
      else null_loop null idxs' (freed ++ [b]) (<[Z.to_nat i := null]> blocks)
  end.

Definition _remove_blocks_in_range (rid : string) (first_block last_block : Z) (m : Manager) (p : BlockPool) :
    result (Manager * BlockPool) :=
  match req_to_blocks m !! rid with
  | None => Ok (m, p)
  | Some blocks =>
      if last_block <=? first_block then Ok (m, p)
      else
        let last_block := Z.min last_block (py_len blocks) in
        '(freed, blocks) ← null_loop (null_block p) (rev (py_range first_block last_block)) [] blocks;
        let m := set_blocks rid blocks m in
        match freed with
        | [] => Ok (m, p)
        | _ => p ← free_blocks freed p; Ok (m, p)
        end
  end.

Definition base_remove_skipped_blocks (rid : string) (processed_computed_tokens : Z) (m : Manager) (p : BlockPool) :
    result (Manager * BlockPool) :=
  let num_skipped_tokens := get_num_skipped_tokens (kv_cache_spec m) processed_computed_tokens in
  if num_skipped_tokens <=? 0 then Ok (m, p)
  else
    let blocks := blocks_of rid m in
    let m := set_blocks rid blocks m in
    let num_skipped_blocks := Z.min (num_skipped_tokens / block_size m) (py_len blocks) in
    _remove_blocks_in_range rid 0 num_skipped_blocks m p.

Definition remove_skipped_blocks (rid : string) (processed_computed_tokens : Z) (num_prompt_tokens : option Z)
    (m : Manager) (p : BlockPool) : result (Manager * BlockPool) :=
  match kv_cache_spec m, num_prompt_tokens with
  | CircularBufferSpec _, _ => Ok (m, p)
  | RSWASpec _ rswa_window, Some n =>
      let first_gap_block := cdiv n (block_size m) in
      let window_start := Z.max n (processed_computed_tokens - rswa_window) in
      _remove_blocks_in_range rid first_gap_block (window_start / block_size m) m p
  | _, _ => base_remove_skipped_blocks rid processed_computed_tokens m p
  end.

(** [get_num_common_prefix_blocks]: the leading blocks every request refers to *)
Fixpoint common_prefix (n : Z) (blocks : list ref) (p : BlockPool) : Z :=
  match blocks with
  | [] => 0
  | b :: bs => if ref_cnt (blk p b) =? n then 1 + common_prefix n bs p else 0
  end.

Definition get_num_common_prefix_blocks (rid : string) (m : Manager) (p : BlockPool) : Z * Manager :=
  match kv_cache_spec m with
  | FullAttentionSpec _ | RSWASpec _ _ =>
      let blocks := blocks_of rid m in
      let m := set_blocks rid blocks m in
      (common_prefix (Z.of_nat (size (req_to_blocks m))) blocks p, m)
  | _ => (0, m)
  end.
End Operations.
