(* ===== verification/SingleTypeManagerSpec.v ===== *)
(** * Correctness of the block tables

    Reference counting of [SingleTypeManager]: the invariant that ties the
    reference counts of the pool to the block tables of one cache group, the
    sufficiency of the allocation estimate, freeing, the removal of blocks
    outside the attention window, and the admission cap.

    A pool is shared by several groups; the references they hold are the
    parameter [others] of the invariant. *)

From S2P Require Import Prelude FreeQueue Request BlockHash BlockMap BlockPool BlockPoolSpec CacheHit SingleTypeManager.
Local Open Scope Z_scope.

(** ** Counting references *)

(** How often a block occurs in the tables of all requests. *)
Definition table_refs (t : gmap string (list ref)) (r : ref) : Z := map_fold (λ _ l n, mult l r + n) 0 t.

(** The references kept for pending copies: both ends of each. *)
Definition cow_refs (l : list (ref * ref)) (r : ref) : Z := mult (l.*1 ++ l.*2) r.

Lemma table_refs_insert t rid l r :
  t !! rid = None → table_refs (<[rid := l]> t) r = mult l r + table_refs t r.
Proof. intros Hn. unfold table_refs. rewrite map_fold_insert_L; [done| |done]. intros. lia. Qed.

Lemma table_refs_delete t rid r :
  table_refs t r = mult (default [] (t !! rid)) r + table_refs (delete rid t) r.
Proof.
  destruct (t !! rid) as [l|] eqn:E; simpl.
  - rewrite <-(insert_delete_id t rid l) at 1 by done. by rewrite table_refs_insert by apply lookup_delete_eq.
  - by rewrite delete_id.
Qed.

Lemma table_refs_set t rid l r :
  table_refs (<[rid := l]> t) r = table_refs t r - mult (default [] (t !! rid)) r + mult l r.
Proof.
  rewrite (table_refs_delete t rid r), (table_refs_delete (<[rid := l]> t) rid r), lookup_insert_eq, delete_insert_eq. simpl. lia.
Qed.

Lemma table_refs_nonneg t r : 0 ≤ table_refs t r.
Proof.
  unfold table_refs. apply (map_fold_weak_ind (λ n _, 0 ≤ n)); [done|]. intros ? l t' n _ Hn. pose proof (mult_nonneg l r). lia.
Qed.

Lemma mult_nodup l r : NoDup l → mult l r = if decide (r ∈ l) then 1 else 0.
Proof.
  induction 1 as [|x l Hx Hnd IH]; [done|]. change (x :: l) with ([x] ++ l). rewrite mult_app, mult_single, IH.
  destruct (decide (x = r)) as [->|Hne].
  - rewrite decide_False by done. by rewrite decide_True by (apply elem_of_app; left; left).
  - destruct (decide (r ∈ l)); [by rewrite decide_True by (apply elem_of_app; by right)|].
    rewrite decide_False; [done|]. rewrite elem_of_app, list_elem_of_singleton. naive_solver.
Qed.

Lemma mult_replace l i x y r :
  l !! i = Some x → mult (<[i := y]> l) r = mult l r - mult [x] r + mult [y] r.
Proof.
  intros Hi. rewrite <-(take_drop_middle l i x Hi) at 2. pose proof (lookup_lt_Some _ _ _ Hi).
  rewrite insert_take_drop by done. change (y :: drop (S i) l) with ([y] ++ drop (S i) l).
  change (x :: drop (S i) l) with ([x] ++ drop (S i) l). rewrite !mult_app. lia.
Qed.

Lemma mult_rev l r : mult (rev l) r = mult l r.
Proof. unfold mult. by rewrite <-Permutation_rev. Qed.

(** ** The invariant of a manager *)

Section Invariant.
Context `{PoolEnv}.
Implicit Types (p : BlockPool) (m : Manager) (free : list ref) (others : ref → Z) (rid : string).

(** A block is referenced exactly as often as it occurs in the tables of this
    group and in its pending copies, plus the references [others] holds (the
    other groups, and copies handed out). *)
Record mgr_inv others m p free : Prop := {
  mi_pool : pool_inv p free;
  mi_refs : ∀ j, j ≠ 0%nat → has (pool_store p) (Blk j) →
    ref_cnt (blk p (Blk j)) =
      table_refs (req_to_blocks m) (Blk j) + cow_refs (pending_cow_copies m) (Blk j) + others (Blk j);
  mi_others : ∀ r, 0 ≤ others r;
  mi_valid : ∀ rid r, r ∈ blocks_of rid m → ∃ j, r = Blk j ∧ has (pool_store p) r;
  mi_partial : ∀ rid idx src, partial_hit_reqs m !! rid = Some (idx, src) →
    0 ≤ idx ∧ blocks_of rid m !! Z.to_nat idx = Some src ∧ src ≠ Blk 0;
  mi_size : 0 < block_size m;
}.

(** One change of the pool's reference counts, matched by the tables. *)
Lemma mgr_inv_step others m p free (f : ref → Z) m' p' free' :
  mgr_inv others m p free → pool_inv p' free' → same_shape p p' →
  (∀ j, has (pool_store p) (Blk j) → j ≠ 0%nat → ref_cnt (blk p' (Blk j)) = ref_cnt (blk p (Blk j)) + f (Blk j)) →
  (∀ j, j ≠ 0%nat → table_refs (req_to_blocks m') (Blk j) + cow_refs (pending_cow_copies m') (Blk j) =
        table_refs (req_to_blocks m) (Blk j) + cow_refs (pending_cow_copies m) (Blk j) + f (Blk j)) →
  (∀ rid r, r ∈ blocks_of rid m' → r ∈ blocks_of rid m ∨ ∃ j, r = Blk j ∧ has (pool_store p) r) →
  (∀ rid idx src, partial_hit_reqs m' !! rid = Some (idx, src) →
     0 ≤ idx ∧ blocks_of rid m' !! Z.to_nat idx = Some src ∧ src ≠ Blk 0) →
  block_size m' = block_size m →
  mgr_inv others m' p' free'.
Proof.
  intros [Hpool Hrefs Hoth Hval Hpart Hsz] Hpool' Hsh Hcnt Htab Hval' Hpart' Hsz'. split; [done| |done| |done|lia].
  - intros j Hj Hh. apply (sh_has _ _ Hsh) in Hh. rewrite Hcnt, Hrefs by done. specialize (Htab j Hj). lia.
  - intros rid r Hr. destruct (Hval' rid r Hr) as [Hin|(j & -> & Hh)].
    + destruct (Hval rid r Hin) as (j & -> & Hh). exists j. split; [done|]. by apply (sh_has _ _ Hsh).
    + exists j. split; [done|]. by apply (sh_has _ _ Hsh).
Qed.

Lemma blocks_of_set rid l m rid' : blocks_of rid' (set_blocks rid l m) = if decide (rid' = rid) then l else blocks_of rid' m.
Proof.
  unfold blocks_of, set_blocks. simpl. destruct (decide (rid' = rid)) as [->|]; [by rewrite lookup_insert_eq|by rewrite lookup_insert_ne].
Qed.

Lemma blocks_of_record bs m rid : blocks_of rid (record_ids bs m) = blocks_of rid m.
Proof. unfold record_ids. by destruct (record_new_block_ids m). Qed.

Lemma record_ids_frame bs m :
  req_to_blocks (record_ids bs m) = req_to_blocks m ∧ pending_cow_copies (record_ids bs m) = pending_cow_copies m ∧
  partial_hit_reqs (record_ids bs m) = partial_hit_reqs m ∧ block_size (record_ids bs m) = block_size m ∧
  num_cached_block (record_ids bs m) = num_cached_block m ∧ kv_cache_spec (record_ids bs m) = kv_cache_spec m.
Proof. unfold record_ids. by destruct (record_new_block_ids m). Qed.

(** Blocks taken from the pool gain one reference each. *)
Lemma alloc_delta p free n p' :
  pool_inv p free → allocates p (take n free) p' → ∀ j, has (pool_store p) (Blk j) → j ≠ 0%nat →
  ref_cnt (blk p' (Blk j)) = ref_cnt (blk p (Blk j)) + mult (take n free) (Blk j).
Proof.
  intros [Hq _] Hal j Hh Hj. rewrite (al_ref _ _ _ Hal).
  assert (Hnd : NoDup (take n free)) by (eapply sublist_NoDup; [apply (rep_nodup _ _ (qi_rep _ _ Hq))|apply sublist_take]).
  rewrite (mult_nodup _ _ Hnd). destruct (decide (Blk j ∈ take n free)) as [Hin|]; [|lia].
  assert (Blk j ∈ free) as Hf by (rewrite <-(take_drop n free); apply elem_of_app; by left).
  apply (qi_free _ _ Hq) in Hf as (_ & _ & Hz). lia.
Qed.

Lemma taken_valid p free n r : pool_inv p free → r ∈ take n free → ∃ j, r = Blk j ∧ has (pool_store p) r.
Proof.
  intros [Hq _] Hr. assert (Hf : r ∈ free) by (rewrite <-(take_drop n free); apply elem_of_app; by left).
  destruct (qi_blk _ _ Hq r Hf) as [j ->]. exists j. split; [done|]. by apply (qi_free _ _ Hq) in Hf as (? & _).
Qed.

(** Appending [n] new blocks to a table. *)
Lemma extend_spec others m p free rid n :
  mgr_inv others m p free → 0 ≤ n ≤ py_len free →
  ∃ p', get_new_blocks n p = Ok (take (Z.to_nat n) free, p') ∧ allocates p (take (Z.to_nat n) free) p' ∧
    mgr_inv others (record_ids (take (Z.to_nat n) free) (set_blocks rid (blocks_of rid m ++ take (Z.to_nat n) free) m)) p'
      (drop (Z.to_nat n) free).
Proof.
  intros Hinv Hn. set (k := Z.to_nat n). destruct (get_new_blocks_spec p free n (mi_pool _ _ _ _ Hinv) Hn) as (p' & Hrun & Hpool' & Hal).
  fold k in Hrun, Hpool', Hal. exists p'. split_and!; [done|done|].
  set (m1 := set_blocks rid (blocks_of rid m ++ take k free) m). destruct (record_ids_frame (take k free) m1) as (E1 & E2 & E3 & E4 & _).
  apply (mgr_inv_step others m p free (mult (take k free))); [done|done|apply Hal| | | | |done].
  - by apply alloc_delta; [apply Hinv|].
  - intros j _. rewrite E1, E2. unfold m1. simpl. rewrite table_refs_set. fold (blocks_of rid m). rewrite mult_app. lia.
  - intros rid' r. rewrite blocks_of_record. unfold m1. rewrite blocks_of_set. destruct (decide (rid' = rid)) as [->|]; [|by left].
    intros [Hr|Hr]%elem_of_app; [by left|right]. by apply (taken_valid p free k); [apply Hinv|].
  - intros rid' idx src. rewrite E3, blocks_of_record. unfold m1. rewrite blocks_of_set. simpl. intros Hp.
    destruct (mi_partial _ _ _ _ Hinv _ _ _ Hp) as (Hi & Hl & Hne). split_and!; [done| |done].
    destruct (decide (rid' = rid)) as [->|]; [|done]. rewrite lookup_app_l; [done|]. by eapply lookup_lt_Some.
Qed.
Lemma mult_replicate_null n j : j ≠ 0%nat → mult (replicate n (Blk 0)) (Blk j) = 0.
Proof.
  intros Hj. assert (¬ 0 < mult (replicate n (Blk 0)) (Blk j)); [|pose proof (mult_nonneg (replicate n (Blk 0)) (Blk j)); lia].
  rewrite mult_pos. intros [[= ->] _]%elem_of_replicate. done.
Qed.

Lemma null_valid p free : pool_inv p free → has (pool_store p) (Blk 0).
Proof. intros [Hq _]. apply (qi_dom _ _ Hq). pose proof (qi_pos _ _ Hq). lia. Qed.

Lemma skipped_nonneg spec n :
  0 ≤ n → match spec with ChunkedLocalAttentionSpec _ c => 0 < c | _ => True end → 0 ≤ get_num_skipped_tokens spec n.
Proof. intros Hn Hc. destruct spec; simpl; try lia. pose proof (Z.div_pos n attention_chunk_size Hn Hc). nia. Qed.

(** A group specification the managers work with. *)
Definition spec_ok (spec : KVCacheSpec) : Prop :=
  match spec with ChunkedLocalAttentionSpec _ c => 0 < c | CircularBufferSpec _ => False | _ => True end.

(** Blocks skipped by the attention window at [n] computed tokens. *)
Definition skipped_blocks m (n : Z) : Z := get_num_skipped_tokens (kv_cache_spec m) n / block_size m.

Lemma skipped_blocks_nonneg m n : 0 < block_size m → spec_ok (kv_cache_spec m) → 0 ≤ n → 0 ≤ skipped_blocks m n.
Proof.
  intros Hb Hs Hn. apply Z.div_pos; [|done]. apply skipped_nonneg; [done|]. by destruct (kv_cache_spec m).
Qed.

(** The prefix-cache hit the manager is given for a request: cached blocks for
    exactly the local tokens, the last one a real block if it is shared
    partially. *)
Record hit_ok m p (new_computed_blocks : list ref) (num_local : Z) : Prop := {
  ho_local : 0 ≤ num_local;
  ho_valid : ∀ r, r ∈ new_computed_blocks → ∃ j, r = Blk j ∧ has (pool_store p) r;
  ho_len : py_len new_computed_blocks = cdiv num_local (block_size m);
  ho_tail : num_local mod block_size m ≠ 0 → ∀ r, last new_computed_blocks = Some r → r ≠ Blk 0;
  ho_caching : m_enable_caching m = false → new_computed_blocks = [];
}.

(** The request is new to the manager. *)
Definition fresh m rid : Prop := blocks_of rid m = [] ∧ partial_hit_reqs m !! rid = None.

(** The blocks of the hit that are inside the attention window. *)
Definition inside (s : Z) (bs : list ref) : list ref := drop (Z.to_nat s) bs.

Lemma inside_slice s bs : 0 ≤ s → (if 0 <? s then py_from bs s else bs) = inside s bs.
Proof.
  intros Hs. unfold inside. destruct (Z.ltb_spec 0 s); [by rewrite py_from_nonneg by lia|].
  by replace (Z.to_nat s) with 0%nat by lia.
Qed.

Lemma last_py_get {A} (l : list A) x : last l = Some x → py_get l (-1) = Ok x.
Proof.
  intros [l' ->]%last_Some. unfold py_get, py_len. rewrite length_app. simpl.
  destruct (Z.ltb_spec (-1 + Z.of_nat (length l' + 1)) 0); [lia|].
  rewrite lookup_app_r by lia. by replace (Z.to_nat (-1 + Z.of_nat (length l' + 1)) - length l')%nat with 0%nat by lia.
Qed.

(** The touched blocks leave the free queue. *)
Lemma touch_or_skip m p free bs :
  pool_inv p free → (∀ r, r ∈ bs → ∃ j, r = Blk j ∧ has (pool_store p) r) → (m_enable_caching m = false → bs = []) →
  ∃ p', (if m_enable_caching m then touch bs p else _ ← py_assert (bool_decide (bs = [])); Ok p) = Ok p' ∧
    pool_inv p' (filter (λ r, r ∉ bs) free) ∧ counts p (mult bs) p'.
Proof.
  intros Hinv Hbs Hoff. destruct (m_enable_caching m).
  - by destruct (touch_spec p free bs Hinv Hbs) as (p' & -> & Hinv' & Hco); exists p'.
  - rewrite Hoff by done. exists p. split_and!; [done| |].
    + replace (filter _ free) with free; [done|]. clear. induction free as [|x l IH]; [done|].
      rewrite filter_cons_True by apply not_elem_of_nil. by f_equal.
    + by apply counts_zero.
Qed.

(** What [add_local_computed_blocks] does. *)
Record adds_local others m p free rid (bs : list ref) (num_local s : Z) m' p' : Prop := {
  ad_inv : mgr_inv others m' p' (filter (λ r, r ∉ inside s bs) free);
  ad_counts : counts p (mult (inside s bs)) p';
  ad_table : blocks_of rid m' = replicate (Z.to_nat s) (Blk 0) ++ inside s bs;
  ad_other : ∀ rid', rid' ≠ rid → blocks_of rid' m' = blocks_of rid' m;
  ad_known : is_Some (num_cached_block m' !! rid);
  ad_whole : _has_partial_local_hit (inside s bs) num_local m = false →
    num_cached_block m' = <[rid := py_len (blocks_of rid m')]> (num_cached_block m) ∧ partial_hit_reqs m' = partial_hit_reqs m;
  ad_partial : is_Some (partial_hit_reqs m' !! rid) ↔ _has_partial_local_hit (inside s bs) num_local m = true;
  ad_size : block_size m' = block_size m;
  ad_spec : kv_cache_spec m' = kv_cache_spec m;
}.

Lemma partial_tail m p bs num_local s :
  0 < block_size m → 0 ≤ s → hit_ok m p bs num_local → _has_partial_local_hit (inside s bs) num_local m = true →
  ∃ r, last (inside s bs) = Some r ∧ r ≠ Blk 0 ∧
    (replicate (Z.to_nat s) (Blk 0) ++ inside s bs) !! Z.to_nat (num_local / block_size m) = Some r.
Proof.
  intros HB Hs [Hl Hv Hlen Htail _]. unfold _has_partial_local_hit. intros [Hpos Hmod]%andb_true_iff.
  apply Z.ltb_lt in Hpos. apply negb_true_iff, Z.eqb_neq in Hmod.
  unfold inside, py_len in *. rewrite length_drop in Hpos.
  destruct (last (drop (Z.to_nat s) bs)) as [r|] eqn:Elast.
  2: { apply last_None in Elast. apply (f_equal length) in Elast. rewrite length_drop in Elast. simpl in Elast. lia. }
  assert (Hlast : last bs = Some r).
  { rewrite <-(take_drop (Z.to_nat s) bs), last_app, Elast. done. }
  exists r. split_and!; [done|by apply Htail|].
  pose proof (cdiv_spec num_local (block_size m) HB). pose proof (Z.div_mod num_local (block_size m) ltac:(lia)).
  pose proof (Z.mod_pos_bound num_local (block_size m) HB). pose proof (Z.div_pos num_local (block_size m) Hl HB).
  assert (Hidx : num_local / block_size m = Z.of_nat (length bs) - 1) by nia. rewrite Hidx.
  rewrite lookup_app_r by (rewrite length_replicate; lia). rewrite length_replicate, lookup_drop.
  rewrite last_lookup in Hlast. rewrite <-Hlast. f_equal. lia.
Qed.

Lemma adds_local_intro others m p free rid bs num_local s m' p' :
  mgr_inv others m p free → blocks_of rid m = [] → hit_ok m p bs num_local →
  pool_inv p' (filter (λ r, r ∉ inside s bs) free) → counts p (mult (inside s bs)) p' →
  req_to_blocks m' = <[rid := replicate (Z.to_nat s) (Blk 0) ++ inside s bs]> (req_to_blocks m) →
  pending_cow_copies m' = pending_cow_copies m → is_Some (num_cached_block m' !! rid) →
  (_has_partial_local_hit (inside s bs) num_local m = false →
    num_cached_block m' = <[rid := py_len (replicate (Z.to_nat s) (Blk 0) ++ inside s bs)]> (num_cached_block m) ∧
    partial_hit_reqs m' = partial_hit_reqs m) →
  block_size m' = block_size m → kv_cache_spec m' = kv_cache_spec m →
  (is_Some (partial_hit_reqs m' !! rid) ↔ _has_partial_local_hit (inside s bs) num_local m = true) →
  (∀ rid' idx src, partial_hit_reqs m' !! rid' = Some (idx, src) →
     0 ≤ idx ∧ blocks_of rid' m' !! Z.to_nat idx = Some src ∧ src ≠ Blk 0) →
  adds_local others m p free rid bs num_local s m' p'.
Proof.
  intros Hinv Hempty [_ Hv _ _ _] Hpool' Hcnt E1 E2 E3 E3' E4 E5 E6 E7.
  assert (Hbo : ∀ rid', blocks_of rid' m' = if decide (rid' = rid) then replicate (Z.to_nat s) (Blk 0) ++ inside s bs else blocks_of rid' m).
  { intros rid'. unfold blocks_of. rewrite E1. destruct (decide (rid' = rid)) as [->|]; [by rewrite lookup_insert_eq|by rewrite lookup_insert_ne]. }
  split; [|done|by rewrite Hbo, decide_True|intros rid' Hne; by rewrite Hbo, decide_False|done|by rewrite Hbo, decide_True|done..].
  apply (mgr_inv_step others m p free (mult (inside s bs))); [done|done|apply Hcnt|intros j Hh _; by apply Hcnt| | |done|done].
  - intros j Hj. rewrite E1, E2, table_refs_set. fold (blocks_of rid m). rewrite Hempty, mult_app, mult_replicate_null by done.
    change (mult [] (Blk j)) with 0. lia.
  - intros rid' r. rewrite Hbo. destruct (decide (rid' = rid)) as [->|]; [|by left].
    intros [[-> _]%elem_of_replicate|Hr]%elem_of_app; right; [exists 0%nat; split; [done|by eapply null_valid, Hinv]|].
    apply Hv. unfold inside in Hr. rewrite <-(take_drop (Z.to_nat s) bs). apply elem_of_app. by right.
Qed.

Lemma add_local_spec others m p free rid bs num_local num_ext :
  mgr_inv others m p free → spec_ok (kv_cache_spec m) → fresh m rid → hit_ok m p bs num_local → 0 ≤ num_ext →
  let s := skipped_blocks m (num_local + num_ext) in
  ∃ m' p', add_local_computed_blocks rid bs num_local num_ext m p = Ok (m', p') ∧
    adds_local others m p free rid bs num_local s m' p'.
Proof.
  intros Hinv Hspec [Hempty Hnop] Hhit Hext s. pose proof Hhit as [Hl Hv Hlen Htail Hoff]. pose proof (mi_size _ _ _ _ Hinv) as HB.
  assert (Hs : 0 ≤ s) by (apply skipped_blocks_nonneg; [done|done|lia]).
  unfold add_local_computed_blocks. replace (is_ring (kv_cache_spec m)) with false by (by destruct (kv_cache_spec m)).
  rewrite blocks_of_set, decide_True, Hempty by done. cbn [py_len length Z.of_nat Z.eqb py_assert mbind result_bind].
  cbn [kv_cache_spec block_size m_enable_caching set_blocks set_req_to_blocks]. fold (skipped_blocks m (num_local + num_ext)). fold s.
  rewrite inside_slice by done.
  destruct (touch_or_skip m p free (inside s bs)) as (p' & -> & Hpool' & Hcnt); [apply Hinv| | |].
  { intros r Hr. apply Hv. unfold inside in Hr. rewrite <-(take_drop (Z.to_nat s) bs). apply elem_of_app. by right. }
  { intros E. unfold inside. by rewrite (Hoff E), drop_nil. }
  cbn [mbind result_bind]. assert (Hnull : null_block p' = Blk 0) by (apply (qi_null _ _ (proj1 Hpool'))).
  rewrite Hnull. set (tbl := [] ++ replicate (Z.to_nat s) (Blk 0) ++ inside s bs).
  set (m1 := set_blocks rid tbl (set_blocks rid [] m)). set (m2 := set_num_cached_block (<[rid:=py_len tbl]> (num_cached_block m1)) m1).
  assert (Hpe : _has_partial_local_hit (inside s bs) num_local m2 = _has_partial_local_hit (inside s bs) num_local m) by done.
  rewrite Hpe. destruct (_has_partial_local_hit (inside s bs) num_local m) eqn:Epart.
  - destruct (partial_tail m p bs num_local s HB Hs Hhit Epart) as (r & Hlast & Hr0 & Hidx).
    rewrite (last_py_get _ _ Hlast). cbn [mbind result_bind]. do 2 eexists. split; [done|]. apply (adds_local_intro others m p free rid bs num_local s); try done.
    + simpl. by rewrite insert_insert_eq.
    + simpl. rewrite lookup_insert_eq. by eexists.
    + by rewrite Epart.
    + simpl. rewrite lookup_insert_eq. split; [done|by eexists].
    + intros rid' idx src. simpl. unfold blocks_of. simpl. rewrite insert_insert_eq. destruct (decide (rid' = rid)) as [->|Hne].
      * rewrite !lookup_insert_eq. intros [= <- <-]. split_and!; [by apply Z.div_pos|exact Hidx|done].
      * rewrite !lookup_insert_ne by done. apply (mi_partial _ _ _ _ Hinv).
  - do 2 eexists. split; [done|]. apply (adds_local_intro others m p free rid bs num_local s); try done.
    + simpl. by rewrite insert_insert_eq.
    + simpl. rewrite lookup_insert_eq. by eexists.
    + simpl. rewrite Hnop, Epart. split; [by intros [? ?]|done].
    + intros rid' idx src. unfold m2, m1, blocks_of. simpl. intros Hp. rewrite insert_insert_eq.
      destruct (decide (rid' = rid)) as [->|Hne]; [by rewrite Hnop in Hp|]. rewrite lookup_insert_ne by done. by apply (mi_partial _ _ _ _ Hinv).
Qed.

(** ** Allocation *)

(** The blocks [allocate_external_computed_blocks] has to take for a table of
    [len] blocks. *)
Definition external_blocks m (num_local num_ext len : Z) : Z :=
  let total := num_local + num_ext in
  let skipped := get_num_skipped_tokens (kv_cache_spec m) total in
  let ext := if 0 <? skipped then Z.min (total - skipped) num_ext else num_ext in
  if ext <=? 0 then 0 else Z.max 0 (cdiv total (block_size m) - len).

(** New blocks at the end of one table; nothing else changes. *)
Record extends others m p free rid (n : Z) m' p' : Prop := {
  ex_inv : mgr_inv others m' p' (drop (Z.to_nat n) free);
  ex_alloc : allocates p (take (Z.to_nat n) free) p';
  ex_table : blocks_of rid m' = blocks_of rid m ++ take (Z.to_nat n) free;
  ex_other : ∀ rid', rid' ≠ rid → blocks_of rid' m' = blocks_of rid' m;
  ex_known : num_cached_block m' = num_cached_block m;
  ex_partial : partial_hit_reqs m' = partial_hit_reqs m;
  ex_size : block_size m' = block_size m;
  ex_spec : kv_cache_spec m' = kv_cache_spec m;
}.

Lemma extends_refl others m p free rid : mgr_inv others m p free → extends others m p free rid 0 m p.
Proof. intros Hinv. split; try done; [|by rewrite app_nil_r]. apply allocates_nil, Hinv. Qed.

Lemma extends_alloc others m p free rid n :
  mgr_inv others m p free → 0 ≤ n ≤ py_len free →
  ∃ p', get_new_blocks n p = Ok (take (Z.to_nat n) free, p') ∧
    extends others m p free rid n
      (record_ids (take (Z.to_nat n) free) (set_blocks rid (blocks_of rid m ++ take (Z.to_nat n) free) m)) p'.
Proof.
  intros Hinv Hn. destruct (extend_spec others m p free rid n Hinv Hn) as (p' & Hrun & Hsh & Hinv'). exists p'. split; [done|].
  destruct (record_ids_frame (take (Z.to_nat n) free) (set_blocks rid (blocks_of rid m ++ take (Z.to_nat n) free) m))
    as (E1 & E2 & E3 & E4 & E5 & E6).
  split; try done.
  - rewrite blocks_of_record, blocks_of_set. by rewrite decide_True.
  - intros rid' Hne. rewrite blocks_of_record, blocks_of_set. by rewrite decide_False.
Qed.

Lemma external_spec others m p free rid num_local num_ext :
  mgr_inv others m p free → spec_ok (kv_cache_spec m) →
  let n := external_blocks m num_local num_ext (py_len (blocks_of rid m)) in
  n ≤ py_len free →
  ∃ m' p', allocate_external_computed_blocks rid num_local num_ext m p = Ok (m', p') ∧ extends others m p free rid n m' p'.
Proof.
  intros Hinv Hspec n Hn. unfold allocate_external_computed_blocks, n, external_blocks in *.
  replace (is_ring (kv_cache_spec m)) with false by (by destruct (kv_cache_spec m)).
  destruct (_ <=? 0); [do 2 eexists; split; [done|by apply extends_refl]|].
  destruct (extends_alloc others m p free rid (Z.max 0 (cdiv (num_local + num_ext) (block_size m) - py_len (blocks_of rid m))) Hinv)
    as (p' & -> & Hex); [lia|]. cbn [mbind result_bind]. eauto.
Qed.

(** An extra reference to a block in use. *)
Lemma extra_ref_inv p free j :
  pool_inv p free → has (pool_store p) (Blk j) → Blk j ∉ free →
  pool_inv (update_block (with_ref_cnt (λ n, n + 1)) (Blk j) p) free ∧
  counts p (mult [Blk j]) (update_block (with_ref_cnt (λ n, n + 1)) (Blk j) p).
Proof.
  intros [Hq Hc] Hh Hf. set (p' := update_block _ _ p).
  assert (Hco : counts p (mult [Blk j]) p').
  { eapply counts_ext; [|by apply (update_counts p (Blk j) 1)]. intros r. simpl. lia. }
  split; [|done]. split; [|by apply (cache_inv_same p), Hc; apply Hco].
  apply (queue_inv_intro p p' free); [done|apply Hco|by apply update_ref_rep; apply Hq|apply (qi_blk _ _ Hq)|..].
  - intros i. rewrite (qi_free _ _ Hq). split.
    + intros (Hhi & Hi0 & Hz). split_and!; [done|done|]. rewrite (co_ref _ _ _ Hco _ Hhi), mult_single, decide_False; [lia|].
      intros [= ->]. apply Hf, (qi_free _ _ Hq). done.
    + intros (Hhi & Hi0 & Hz). rewrite (co_ref _ _ _ Hco _ Hhi), mult_single in Hz. pose proof (qi_ref _ _ Hq i Hi0).
      case_decide; [lia|]. split_and!; [done|done|lia].
  - intros i Hi0. pose proof (qi_ref _ _ Hq i Hi0). pose proof (mult_nonneg [Blk j] (Blk i)).
    by apply (counts_nonneg p (mult [Blk j])); [|lia].
Qed.

(** The redirection of a partial hit: one new block replaces the shared tail in
    the table, both are kept for the copy. *)
Record redirects others m p free rid (cow : list ref) m' p' : Prop := {
  rd_inv : mgr_inv others m' p' (drop (length cow) free);
  rd_shape : same_shape p p';
  rd_len : length (blocks_of rid m') = length (blocks_of rid m);
  rd_cow : cow = if decide (is_Some (partial_hit_reqs m !! rid)) then take 1 free else [];
  rd_table : ∀ idx src, partial_hit_reqs m !! rid = Some (idx, src) →
    ∃ c, cow = [c] ∧ blocks_of rid m' = <[Z.to_nat idx := c]> (blocks_of rid m) ∧
      pending_cow_copies m' = pending_cow_copies m ++ [(src, c)];
  rd_same : partial_hit_reqs m !! rid = None → m' = m ∧ p' = p;
  rd_other : ∀ rid', rid' ≠ rid → blocks_of rid' m' = blocks_of rid' m;
  rd_known : num_cached_block m' = num_cached_block m;
  rd_size : block_size m' = block_size m;
  rd_spec : kv_cache_spec m' = kv_cache_spec m;
}.

(** A block of a table is in use. *)
Lemma in_table_used others m p free rid j :
  mgr_inv others m p free → Blk j ∈ blocks_of rid m → j ≠ 0%nat → 1 ≤ ref_cnt (blk p (Blk j)).
Proof.
  intros Hinv Hin Hj. destruct (mi_valid _ _ _ _ Hinv rid _ Hin) as (j' & [= <-] & Hh).
  rewrite (mi_refs _ _ _ _ Hinv j Hj Hh), (table_refs_delete _ rid). fold (blocks_of rid m).
  apply mult_pos in Hin. pose proof (table_refs_nonneg (delete rid (req_to_blocks m)) (Blk j)).
  pose proof (mult_nonneg ((pending_cow_copies m).*1 ++ (pending_cow_copies m).*2) (Blk j)). unfold cow_refs.
  pose proof (mi_others _ _ _ _ Hinv (Blk j)). lia.
Qed.

Lemma cow_refs_snoc l src c r : cow_refs (l ++ [(src, c)]) r = cow_refs l r + mult [src] r + mult [c] r.
Proof. unfold cow_refs. rewrite !fmap_app, !mult_app. simpl. lia. Qed.

Lemma head_fresh p free c rest :
  pool_inv p free → free = c :: rest → ∃ j, c = Blk j ∧ has (pool_store p) (Blk j) ∧ j ≠ 0%nat ∧ ref_cnt (blk p (Blk j)) = 0 ∧ Blk j ∉ rest.
Proof.
  intros [Hq _] ->. destruct (qi_blk _ _ Hq c) as [j ->]; [left|]. exists j.
  destruct (proj1 (qi_free _ _ Hq j)) as (Hh & Hj & Hz); [left|]. split_and!; [done..|].
  pose proof (rep_nodup _ _ (qi_rep _ _ Hq)) as Hnd. by apply NoDup_cons in Hnd as [? _].
Qed.

(** The table after the redirection. *)
Lemma redirect_inv others m p c rest rid idx src p1 j :
  mgr_inv others m p (c :: rest) → partial_hit_reqs m !! rid = Some (idx, src) → c = Blk j → j ≠ 0%nat →
  has (pool_store p) (Blk j) → Blk j ∉ rest → pool_inv p1 rest → allocates p [c] p1 →
  let m1 := set_partial_hit_reqs (delete rid (partial_hit_reqs m)) m in
  let m2 := set_pending_cow_copies (pending_cow_copies m ++ [(src, c)])
              (set_blocks rid (<[Z.to_nat idx := c]> (blocks_of rid m)) m1) in
  mgr_inv others m2 (update_block (with_ref_cnt (λ n, n + 1)) c p1) rest.
Proof.
  intros Hinv Hp -> Hj Hh Hnr Hpool1 Hal m1 m2. destruct (mi_partial _ _ _ _ Hinv _ _ _ Hp) as (Hi & Hl & Hs0).
  assert (Hh1 : has (pool_store p1) (Blk j)) by (by apply (sh_has _ _ (al_shape _ _ _ Hal))).
  destruct (extra_ref_inv p1 rest j Hpool1 Hh1 Hnr) as [Hpool2 Hco].
  apply (mgr_inv_step others m p (Blk j :: rest) (λ r, 2 * mult [Blk j] r)); [done|done| | | | | |done].
  - etransitivity; [apply Hal|apply Hco].
  - intros i Hhi Hi0. rewrite (co_ref _ _ _ Hco) by (by apply (sh_has _ _ (al_shape _ _ _ Hal))).
    rewrite (alloc_delta p (Blk j :: rest) 1 p1) by (done || apply Hinv). change (take 1 (Blk j :: rest)) with [Blk j]. lia.
  - intros i Hi0. unfold m2. simpl. rewrite table_refs_set, cow_refs_snoc. fold (blocks_of rid m).
    rewrite (mult_replace _ _ src) by done. lia.
  - intros rid' r. unfold m2. change (blocks_of rid' (set_pending_cow_copies ?v ?x)) with (blocks_of rid' x).
    rewrite blocks_of_set. destruct (decide (rid' = rid)) as [->|]; [|by left].
    intros [n Hn]%list_elem_of_lookup. destruct (decide (n = Z.to_nat idx)) as [->|Hne].
    + rewrite list_lookup_insert_eq in Hn by (by eapply lookup_lt_Some). injection Hn as <-. right. eauto.
    + rewrite list_lookup_insert_ne in Hn by done. left. by eapply list_elem_of_lookup_2.
  - intros rid' idx' src'. unfold m2. simpl. rewrite lookup_delete_Some. intros [Hne Hp'].
    change (blocks_of rid' (set_pending_cow_copies ?v ?x)) with (blocks_of rid' x).
    rewrite blocks_of_set, decide_False by done. by apply (mi_partial _ _ _ _ Hinv).
Qed.

Lemma apply_cow_run rid idx src c m p :
  0 ≤ idx → blocks_of rid m !! Z.to_nat idx = Some src → is_null (blk p src) = false → 0 < ref_cnt (blk p src) →
  _apply_cow rid idx src c m p =
    Ok (set_pending_cow_copies (pending_cow_copies m ++ [(src, c)])
          (set_blocks rid (<[Z.to_nat idx := c]> (blocks_of rid m)) m),
        update_block (with_ref_cnt (λ n, n + 1)) c p).
Proof.
  intros Hi Hl Hn Hr. unfold _apply_cow. pose proof (lookup_lt_Some _ _ _ Hl) as Hlt.
  rewrite (proj2 (Z.ltb_lt idx (py_len (blocks_of rid m)))) by (unfold py_len; lia).
  rewrite py_get_nonneg, Hl by done. cbn [py_assert unwrap mbind result_bind]. rewrite bool_decide_true, Hn by done.
  by rewrite (proj2 (Z.ltb_lt 0 (ref_cnt (blk p src)))).
Qed.

Lemma redirect_spec others m p free rid :
  mgr_inv others m p free → (is_Some (partial_hit_reqs m !! rid) → 1 ≤ py_len free) →
  ∃ cow m' p', redirect_partial_hit rid m p = Ok (cow, m', p') ∧ redirects others m p free rid cow m' p'.
Proof.
  intros Hinv Hfree. unfold redirect_partial_hit. destruct (partial_hit_reqs m !! rid) as [[idx src]|] eqn:Hp.
  2: { exists [], m, p. split; [done|]. split; try done; rewrite Hp; [|done]. by rewrite decide_False by (by intros [? ?]). }
  specialize (Hfree ltac:(by eexists)). destruct (get_new_blocks_spec p free 1 (mi_pool _ _ _ _ Hinv) ltac:(lia)) as (p1 & -> & Hpool1 & Hal).
  destruct free as [|c rest]; [done|]. change (Z.to_nat 1) with 1%nat in *. cbn [drop take] in Hpool1, Hal.
  destruct (head_fresh p (c :: rest) c rest) as (j & -> & Hh & Hj & Hz & Hnr); [apply Hinv|done|].
  cbn [take mbind result_bind]. change (py_get (Blk j :: take 0 rest) 0) with (Ok (Blk j)). cbn [mbind result_bind].
  destruct (mi_partial _ _ _ _ Hinv _ _ _ Hp) as (Hi & Hl & Hs0).
  destruct (mi_valid _ _ _ _ Hinv rid src) as (k & -> & Hhk); [by eapply list_elem_of_lookup_2|].
  assert (Hk0 : k ≠ 0%nat) by (by intros ->).
  assert (Huse : 1 ≤ ref_cnt (blk p (Blk k))) by (eapply in_table_used; [done|by eapply list_elem_of_lookup_2|done]).
  assert (Hkj : k ≠ j) by (intros ->; lia).
  cbv zeta. rewrite (apply_cow_run rid idx (Blk k) (Blk j)); [|done|exact Hl|..].
  2: { rewrite <-(sh_is_null _ _ (al_shape _ _ _ Hal)). by apply (is_null_false p _ k (proj1 (mi_pool _ _ _ _ Hinv))). }
  2: { rewrite (al_ref _ _ _ Hal), decide_False by (rewrite list_elem_of_singleton; congruence). lia. }
  cbn [mbind result_bind]. do 3 eexists. split; [done|].
  pose proof (redirect_inv others m p (Blk j) rest rid idx (Blk k) p1 j Hinv Hp eq_refl Hj Hh Hnr Hpool1 Hal) as Hinv'. simpl in Hinv'.
  split; try done; simpl.
  - destruct Hinv'. by split.
  - etransitivity; [apply Hal|apply update_ref_shape].
  - change (blocks_of rid (set_new_block_ids ?v (set_pending_cow_copies ?w ?x))) with (blocks_of rid x).
    rewrite blocks_of_set, decide_True by done. apply length_insert.
  - rewrite Hp. by rewrite decide_True by (by eexists).
  - intros idx' src'. rewrite Hp. intros [= <- <-]. exists (Blk j). split_and!; [done| |done].
    change (blocks_of rid (set_new_block_ids ?v (set_pending_cow_copies ?w ?x))) with (blocks_of rid x).
    by rewrite blocks_of_set, decide_True.
  - by rewrite Hp.
  - intros rid' Hne. change (blocks_of rid' (set_new_block_ids ?v (set_pending_cow_copies ?w ?x))) with (blocks_of rid' x).
    by rewrite blocks_of_set, decide_False.
Qed.

(** The blocks [allocate_new_blocks] takes. *)
Definition new_blocks_needed m rid (num_tokens : Z) : Z :=
  (if decide (is_Some (partial_hit_reqs m !! rid)) then 1 else 0) +
  Z.max 0 (cdiv num_tokens (block_size m) - py_len (blocks_of rid m)).

Record grows others m p free rid (num_tokens n : Z) (ret : list ref) m' p' : Prop := {
  gr_inv : mgr_inv others m' p' (drop (Z.to_nat n) free);
  gr_shape : same_shape p p';
  gr_alloc : partial_hit_reqs m !! rid = None → allocates p ret p';
  gr_partial : partial_hit_reqs m !! rid = None → partial_hit_reqs m' = partial_hit_reqs m;
  gr_ret : ret = take (Z.to_nat n) free;
  gr_len : py_len (blocks_of rid m') = Z.max (py_len (blocks_of rid m)) (cdiv num_tokens (block_size m));
  gr_table : partial_hit_reqs m !! rid = None → blocks_of rid m' = blocks_of rid m ++ ret;
  gr_other : ∀ rid', rid' ≠ rid → blocks_of rid' m' = blocks_of rid' m;
  gr_known : num_cached_block m' = num_cached_block m;
  gr_size : block_size m' = block_size m;
  gr_spec : kv_cache_spec m' = kv_cache_spec m;
}.

Lemma set_same_inv others m p free rid : mgr_inv others m p free → mgr_inv others (set_blocks rid (blocks_of rid m) m) p free.
Proof.
  intros Hinv. apply (mgr_inv_step others m p free (λ _, 0)); [done|apply Hinv|done|intros; lia| | | |done].
  - intros j _. simpl. rewrite table_refs_set. fold (blocks_of rid m). lia.
  - intros rid' r. rewrite blocks_of_set. destruct (decide (rid' = rid)) as [->|]; by left.
  - intros rid' idx src Hp. apply (mi_partial _ _ _ _ Hinv) in Hp. rewrite blocks_of_set. by destruct (decide (rid' = rid)) as [->|].
Qed.

Lemma allocate_new_spec others m p free rid num_tokens :
  mgr_inv others m p free → spec_ok (kv_cache_spec m) →
  let n := new_blocks_needed m rid num_tokens in
  n ≤ py_len free →
  ∃ ret m' p', allocate_new_blocks rid num_tokens m p = Ok (ret, m', p') ∧ grows others m p free rid num_tokens n ret m' p'.
Proof.
  intros Hinv Hspec n Hn. unfold allocate_new_blocks. replace (is_ring (kv_cache_spec m)) with false by (by destruct (kv_cache_spec m)).
  unfold n, new_blocks_needed in *. set (k := Z.max 0 (cdiv num_tokens (block_size m) - py_len (blocks_of rid m))) in *.
  destruct (redirect_spec others m p free rid Hinv) as (cow & m1 & p1 & -> & Hrd).
  { intros Hs. rewrite decide_True in Hn by done. lia. }
  cbn [mbind result_bind]. pose proof (rd_inv _ _ _ _ _ _ _ _ Hrd) as Hinv1.
  assert (Hlen1 : py_len (blocks_of rid m1) = py_len (blocks_of rid m)) by (unfold py_len; by rewrite (rd_len _ _ _ _ _ _ _ _ Hrd)).
  assert (Hc : cow = take (length cow) free ∧ Z.of_nat (length cow) = if decide (is_Some (partial_hit_reqs m !! rid)) then 1 else 0).
  { rewrite (rd_cow _ _ _ _ _ _ _ _ Hrd). destruct (decide _); [|done]. destruct free; [|done]. unfold py_len in Hn. simpl in Hn. lia. }
  destruct Hc as [Hcow Hcl]. rewrite <-Hcl in *. set (c := length cow) in *.
  change (block_size (set_blocks rid (blocks_of rid m1) m1)) with (block_size m1). rewrite (rd_size _ _ _ _ _ _ _ _ Hrd), Hlen1.
  destruct (Z.leb_spec (cdiv num_tokens (block_size m) - py_len (blocks_of rid m)) 0) as [Hle|Hgt].
  - exists cow, (set_blocks rid (blocks_of rid m1) m1), p1. split; [done|]. destruct Hrd.
    assert (Hk : Z.to_nat (Z.of_nat c + k) = c) by (unfold k; lia). split; rewrite ?Hk; try done.
    + by apply set_same_inv.
    + intros Hp. destruct (rd_same0 Hp) as [_ ->]. rewrite rd_cow0, Hp, decide_False by (by intros [? ?]). apply allocates_nil, Hinv.
    + intros Hp. by destruct (rd_same0 Hp) as [-> _].
    + rewrite blocks_of_set, decide_True by done. lia.
    + intros Hp. destruct (rd_same0 Hp) as [-> ->]. rewrite blocks_of_set, decide_True by done.
      rewrite rd_cow0, Hp, decide_False by (by intros [? ?]). by rewrite app_nil_r.
    + intros rid' Hne. rewrite blocks_of_set, decide_False by done. auto.
  - destruct (extends_alloc others (set_blocks rid (blocks_of rid m1) m1) p1 (drop c free) rid
      (cdiv num_tokens (block_size m) - py_len (blocks_of rid m))) as (p2 & -> & Hex).
    { by apply set_same_inv. }
    { unfold py_len in *. rewrite length_drop. lia. }
    cbn [mbind result_bind]. do 3 eexists. split; [done|].
    rewrite blocks_of_set, decide_True in Hex by done.
    destruct Hex, Hrd.
    assert (Hk : Z.to_nat (Z.of_nat c + k) = (c + Z.to_nat (cdiv num_tokens (block_size m) - py_len (blocks_of rid m)))%nat) by (unfold k; lia).
    split; rewrite ?Hk; try done; try congruence.
    + by rewrite <-drop_drop.
    + etransitivity; [exact rd_shape0|apply ex_alloc0].
    + intros Hp. destruct (rd_same0 Hp) as [_ Ep]. rewrite Ep in ex_alloc0.
      assert (Hcn : cow = []) by (rewrite rd_cow0, Hp; by rewrite decide_False by (by intros [? ?])).
      unfold c in ex_alloc0 |- *. rewrite Hcn in ex_alloc0 |- *. exact ex_alloc0.
    + intros Hp. destruct (rd_same0 Hp) as [-> _]. by rewrite ex_partial0.
    + rewrite Hcow at 1. by rewrite take_take_drop.
    + rewrite ex_table0, blocks_of_set, decide_True by done. rewrite py_len_app, Hlen1. unfold py_len at 2.
      rewrite length_take, length_drop. unfold py_len in *. lia.
    + intros Hp. destruct (rd_same0 Hp) as [-> ->]. rewrite ex_table0, blocks_of_set, decide_True by done.
      rewrite rd_cow0, Hp, decide_False by (by intros [? ?]). done.
    + intros rid' Hne. rewrite ex_other0, blocks_of_set, decide_False by done. auto.
    + by rewrite ex_known0.
    + by rewrite ex_size0.
    + by rewrite ex_spec0.
Qed.

(** ** The estimate is enough *)

Lemma evictable_bound p free bs :
  pool_inv p free → py_len free - py_len (filter (λ r, r ∉ bs) free) ≤ _get_num_evictable_blocks bs p.
Proof.
  intros [Hq _]. unfold _get_num_evictable_blocks, py_len.
  assert (Hsplit : length free = (length (filter (λ r, r ∈ bs) free) + length (filter (λ r, r ∉ bs) free))%nat).
  { clear. induction free as [|x l IH]; [done|]. rewrite !filter_cons. destruct (decide (x ∈ bs)), (decide (x ∉ bs)); simpl; try tauto; lia. }
  assert (Hsub : filter (λ r, r ∈ bs) free ⊆+ filter (λ r, ref_cnt (blk p r) = 0 ∧ is_null (blk p r) = false) bs).
  { apply NoDup_submseteq; [apply NoDup_filter, (rep_nodup _ _ (qi_rep _ _ Hq))|].
    intros r [Hr Hf]%list_elem_of_filter. apply list_elem_of_filter. split; [|done].
    destruct (qi_blk _ _ Hq r Hf) as [j ->]. apply (qi_free _ _ Hq) in Hf as (_ & Hj & Hz). split; [done|].
    by apply (is_null_false p free j Hq). }
  apply submseteq_length in Hsub. lia.
Qed.

Lemma partial_inside m s bs num_local :
  _has_partial_local_hit (inside s bs) num_local m = true → _has_partial_local_hit bs num_local m = true.
Proof.
  unfold _has_partial_local_hit, inside, py_len. rewrite length_drop. intros [H1 H2]%andb_true_iff.
  apply andb_true_iff. split; [|done]. apply Z.ltb_lt in H1. apply Z.ltb_lt. lia.
Qed.

Lemma estimate_fresh m p rid num_tokens bs num_local num_ext :
  spec_ok (kv_cache_spec m) → 0 < block_size m → 0 ≤ num_local + num_ext → fresh m rid → num_cached_block m !! rid = None →
  let s := skipped_blocks m (num_local + num_ext) in
  get_num_blocks_to_allocate rid num_tokens bs (num_local + num_ext) num_local false m p =
    Ok (Z.max (cdiv num_tokens (block_size m) - Z.max s (py_len bs)) 0 +
        (if _has_partial_local_hit bs num_local m then 1 else 0) + _get_num_evictable_blocks (inside s bs) p).
Proof.
  intros Hspec HB Hn [Hempty _] Hnew s. pose proof (skipped_blocks_nonneg m _ HB Hspec Hn) as Hs. fold s in Hs.
  unfold get_num_blocks_to_allocate. replace (is_ring (kv_cache_spec m)) with false by (by destruct (kv_cache_spec m)).
  rewrite Hnew, Hempty. fold (skipped_blocks m (num_local + num_ext)). fold s. change (py_len ([] : list ref)) with 0.
  replace (Z.max 0 (s - 0)) with s by lia. rewrite (py_from_nonneg bs) by lia. fold (inside s bs). rewrite Z.add_0_r.
  replace (match max_admission_blocks m with Some _ | _ => cdiv num_tokens (block_size m) end) with (cdiv num_tokens (block_size m))
    by (by destruct (max_admission_blocks m)).
  by destruct (_has_partial_local_hit bs num_local m); rewrite ?Z.add_0_r.
Qed.
End Invariant.

(** C12: The number of blocks the scheduler is told a new request needs is
    enough.  If [get_num_blocks_to_allocate] answers [n] and the pool has [n]
    free blocks, then adding the prefix-cache hit, allocating blocks for
    externally computed tokens and allocating the new blocks all succeed, take
    at most [n] blocks out of the free queue (evictable hits, copy-on-write
    redirection and new blocks together), give the request a table that covers
    all its tokens, leave the tables of other requests alone, and keep the
    reference counts exact. *)
Theorem allocation_estimate_sufficient `{PoolEnv} others m p free rid bs num_local num_ext num_tokens n :
  mgr_inv others m p free → spec_ok (kv_cache_spec m) → fresh m rid → num_cached_block m !! rid = None →
  hit_ok m p bs num_local → 0 ≤ num_ext → num_local + num_ext ≤ num_tokens →
  get_num_blocks_to_allocate rid num_tokens bs (num_local + num_ext) num_local false m p = Ok n →
  n ≤ get_num_free_blocks p →
  ∃ m1 p1 m2 p2 ret m3 p3 free3,
    add_local_computed_blocks rid bs num_local num_ext m p = Ok (m1, p1) ∧
    (if 0 <? num_ext then allocate_external_computed_blocks rid num_local num_ext m1 p1 else Ok (m1, p1)) = Ok (m2, p2) ∧
    allocate_new_blocks rid num_tokens m2 p2 = Ok (ret, m3, p3) ∧
    mgr_inv others m3 p3 free3 ∧ get_num_free_blocks p - n ≤ py_len free3 ∧
    num_tokens ≤ py_len (blocks_of rid m3) * block_size m ∧
    ∀ rid', rid' ≠ rid → blocks_of rid' m3 = blocks_of rid' m.
Proof.
  intros Hinv Hspec Hfresh Hnew Hhit Hext Htok Hest Hfree. pose proof (mi_size _ _ _ _ Hinv) as HB. pose proof (ho_local _ _ _ _ Hhit) as Hl0.
  assert (Hfl : get_num_free_blocks p = py_len free) by (apply (qr_len _ _ (qi_rep _ _ (proj1 (mi_pool _ _ _ _ Hinv))))).
  set (s := skipped_blocks m (num_local + num_ext)). assert (Hs : 0 ≤ s) by (apply skipped_blocks_nonneg; [done|done|lia]).
  rewrite estimate_fresh in Hest by (done || lia). fold s in Hest. injection Hest as Hn.
  destruct (add_local_spec others m p free rid bs num_local num_ext Hinv Hspec Hfresh Hhit Hext) as (m1 & p1 & Hadd & [Hinv1 _ Ht1 Ho1 _ _ Hp1 Hz1 Hk1]).
  fold s in Hinv1, Ht1, Hp1. set (free1 := filter (λ r, r ∉ inside s bs) free) in *.
  pose proof (evictable_bound p free (inside s bs) (mi_pool _ _ _ _ Hinv)) as Hev. fold free1 in Hev.
  assert (Hlen1 : py_len (blocks_of rid m1) = Z.max s (py_len bs)).
  { rewrite Ht1. unfold py_len, inside. rewrite length_app, length_replicate, length_drop. lia. }
  set (part := if decide (is_Some (partial_hit_reqs m1 !! rid)) then 1 else 0).
  assert (Hpart : 0 ≤ part ≤ if _has_partial_local_hit bs num_local m then 1 else 0).
  { unfold part. destruct (decide _) as [Hsome|]; [|destruct (_has_partial_local_hit bs num_local m); lia]. rewrite (partial_inside m s bs num_local) by (by apply Hp1). lia. }
  set (n2 := if 0 <? num_ext then external_blocks m1 num_local num_ext (py_len (blocks_of rid m1)) else 0).
  assert (Hcd : cdiv (num_local + num_ext) (block_size m) ≤ cdiv num_tokens (block_size m)) by (by apply cdiv_mono).
  assert (Hn2 : 0 ≤ n2 ≤ Z.max 0 (cdiv num_tokens (block_size m) - py_len (blocks_of rid m1)) ∧
    (0 < n2 → n2 = cdiv (num_local + num_ext) (block_size m) - py_len (blocks_of rid m1))).
  { unfold n2, external_blocks. rewrite Hz1. destruct (0 <? num_ext); [|lia]. destruct (_ <=? 0); lia. }
  assert (H2 : ∃ m2 p2, (if 0 <? num_ext then allocate_external_computed_blocks rid num_local num_ext m1 p1 else Ok (m1, p1)) = Ok (m2, p2) ∧
    extends others m1 p1 free1 rid n2 m2 p2).
  { unfold n2 in *. destruct (0 <? num_ext); [|exists m1, p1; split; [done|by apply extends_refl]].
    apply (external_spec others); [done|by rewrite Hk1|lia]. }
  destruct H2 as (m2 & p2 & Hrun2 & [Hinv2 _ Ht2 Ho2 _ Hp2 Hz2 Hk2]).
  assert (Hlen2 : py_len (blocks_of rid m2) = py_len (blocks_of rid m1) + n2).
  { rewrite Ht2, py_len_app. unfold py_len at 2. rewrite length_take. unfold py_len in *. lia. }
  assert (Hn3 : new_blocks_needed m2 rid num_tokens = part + Z.max 0 (cdiv num_tokens (block_size m) - (py_len (blocks_of rid m1) + n2))).
  { unfold new_blocks_needed. rewrite Hp2, Hz2, Hz1, Hlen2. done. }
  destruct (allocate_new_spec others m2 p2 (drop (Z.to_nat n2) free1) rid num_tokens Hinv2) as (ret & m3 & p3 & Hrun3 & [Hinv3 _ _ _ _ Hl3 _ Ho3 _ _ _]).
  { by rewrite Hk2, Hk1. }
  { rewrite Hn3. unfold py_len in *. rewrite length_drop. lia. }
  exists m1, p1, m2, p2, ret, m3, p3. eexists. split_and!; [done|done|done|exact Hinv3| | |].
  - rewrite Hn3. unfold py_len in *. rewrite !length_drop. lia.
  - rewrite Hl3, Hz2, Hz1. pose proof (cdiv_spec num_tokens (block_size m) HB). nia.
  - intros rid' Hne. by rewrite Ho3, Ho2, Ho1.
Qed.

(** ** Giving blocks back *)

Section Release.
Context `{PoolEnv}.
Implicit Types (p : BlockPool) (m : Manager) (free : list ref) (others : ref → Z) (rid : string).

(** Blocks that occur in the table of a request may be freed as often as they
    occur there. *)
Lemma table_freeable others m p free rid (l : list ref) :
  mgr_inv others m p free → (∀ r, r ∈ l → r ∈ blocks_of rid m) →
  (∀ j, j ≠ 0%nat → mult l (Blk j) ≤ mult (blocks_of rid m) (Blk j)) → freeable p l.
Proof.
  intros Hinv Hin Hle r Hr. destruct (mi_valid _ _ _ _ Hinv rid r (Hin r Hr)) as (j & -> & Hh). split_and!; [by eexists|done|].
  intros Hn. apply (is_null_false p free j (proj1 (mi_pool _ _ _ _ Hinv))) in Hn.
  rewrite (mi_refs _ _ _ _ Hinv j Hn Hh), (table_refs_delete _ rid). fold (blocks_of rid m). specialize (Hle j Hn).
  pose proof (table_refs_nonneg (delete rid (req_to_blocks m)) (Blk j)).
  pose proof (mult_nonneg ((pending_cow_copies m).*1 ++ (pending_cow_copies m).*2) (Blk j)). unfold cow_refs.
  pose proof (mi_others _ _ _ _ Hinv (Blk j)). lia.
Qed.

Lemma manager_free_spec others m p free rid :
  mgr_inv others m p free →
  ∃ m' p', manager_free rid m p = Ok (m', p') ∧ counts p (λ r, - mult (blocks_of rid m) r) p' ∧
    mgr_inv others m' p' (free_after p (rev (blocks_of rid m)) free) ∧
    blocks_of rid m' = [] ∧ (∀ rid', rid' ≠ rid → blocks_of rid' m' = blocks_of rid' m) ∧
    num_cached_block m' !! rid = None ∧ partial_hit_reqs m' !! rid = None.
Proof.
  intros Hinv. unfold manager_free, pop_blocks_for_free. cbv zeta. set (l := blocks_of rid m).
  assert (Hfr : freeable p (rev l)).
  { apply (table_freeable others m p free rid); [done| |].
    - intros r. by rewrite <-Permutation_rev.
    - intros j _. by rewrite mult_rev. }
  destruct (free_blocks_spec p free (rev l) (mi_pool _ _ _ _ Hinv) Hfr) as (p' & -> & Hpool' & Hco). cbn [mbind result_bind].
  assert (Hco' : counts p (λ r, - mult l r) p') by (eapply counts_ext; [|exact Hco]; intros r; simpl; by rewrite mult_rev).
  assert (Hbo : ∀ rid', default [] (delete rid (req_to_blocks m) !! rid') = if decide (rid' = rid) then [] else blocks_of rid' m).
  { intros rid'. destruct (decide (rid' = rid)) as [->|]; [by rewrite lookup_delete_eq|by rewrite lookup_delete_ne]. }
  do 2 eexists. split; [done|]. split; [done|]. split_and!.
  - apply (mgr_inv_step others m p free (λ r, - mult l r)); [done|done|apply Hco'|intros j Hh _; by apply Hco'| | | |done].
    + intros j _. simpl. rewrite (table_refs_delete (req_to_blocks m) rid). fold (blocks_of rid m). fold l. lia.
    + intros rid' r. unfold blocks_of at 1. simpl. rewrite Hbo. destruct (decide (rid' = rid)); [by intros ?%elem_of_nil|by left].
    + intros rid' idx src. simpl. rewrite lookup_delete_Some. intros [Hne Hp]. unfold blocks_of. simpl. rewrite Hbo, decide_False by done.
      by apply (mi_partial _ _ _ _ Hinv).
  - unfold blocks_of. simpl. by rewrite Hbo, decide_True.
  - intros rid' Hne. unfold blocks_of at 1. simpl. by rewrite Hbo, decide_False.
  - simpl. apply lookup_delete_eq.
  - simpl. apply lookup_delete_eq.
Qed.

(** ** Blocks outside the attention window *)

(** The null blocks at or after position [first] follow it without a gap. *)
Definition null_from (first : Z) (l : list ref) : Prop :=
  ∀ i j, first ≤ Z.of_nat i → (i ≤ j)%nat → l !! j = Some (Blk 0) → l !! i = Some (Blk 0).

Lemma null_loop_spec n a freed blocks :
  0 ≤ a → a + Z.of_nat n ≤ py_len blocks →
  ∃ freed' blocks', null_loop (Blk 0) (rev (py_range a (a + Z.of_nat n))) freed blocks = Ok (freed', blocks') ∧
    length blocks' = length blocks ∧
    (∀ j, j ≠ 0%nat → mult blocks' (Blk j) + mult freed' (Blk j) = mult blocks (Blk j) + mult freed (Blk j)) ∧
    (∀ r, r ∈ freed' → r ∈ freed ∨ r ∈ blocks ∧ r ≠ Blk 0) ∧
    (∀ k, ¬ (a ≤ Z.of_nat k < a + Z.of_nat n) → blocks' !! k = blocks !! k) ∧
    (∀ k, blocks' !! k = blocks !! k ∨ blocks' !! k = Some (Blk 0)) ∧
    ((∀ i j, a ≤ Z.of_nat i → (i ≤ j)%nat → Z.of_nat j < a + Z.of_nat n → blocks !! j = Some (Blk 0) → blocks !! i = Some (Blk 0)) →
     ∀ k, a ≤ Z.of_nat k < a + Z.of_nat n → blocks' !! k = Some (Blk 0)).
Proof.
  intros Ha. revert freed blocks. induction n as [|n IH]; intros freed blocks Hlen.
  - rewrite py_range_nil by lia. exists freed, blocks. split_and!; try done; [by left|by left|]. intros _ k. lia.
  - rewrite py_range_snoc by lia. rewrite rev_app_distr. replace (a + Z.of_nat (S n) - 1) with (a + Z.of_nat n) by lia. cbn [rev app null_loop].
    set (i := Z.to_nat (a + Z.of_nat n)). destruct (lookup_lt_is_Some_2 blocks i) as [b Hb]; [unfold py_len in Hlen; lia|].
    rewrite py_get_nonneg by lia. fold i. rewrite Hb. cbn [unwrap mbind result_bind].
    destruct (bool_decide_reflect (b = Blk 0)) as [->|Hne].
    + exists freed, blocks. split_and!; try done; [by left|by left|]. intros Hpre k Hk. apply (Hpre k i); [lia|lia|lia|done].
    + destruct (IH (freed ++ [b]) (<[i := Blk 0]> blocks)) as (freed' & blocks' & -> & Hl & Hm & Hf & Hout & Hor & Hin).
      { unfold py_len in *. rewrite length_insert. lia. }
      rewrite length_insert in Hl. pose proof (lookup_lt_Some _ _ _ Hb). exists freed', blocks'. split_and!; [done|done|..].
      * intros j Hj. rewrite (Hm j Hj), mult_app, (mult_replace blocks i b) by done.
        rewrite (mult_single (Blk 0)), decide_False by congruence. lia.
      * intros r Hr. destruct (Hf r Hr) as [[Hr'|Hr']%elem_of_app|Hr']; [by left| |].
        -- apply list_elem_of_singleton in Hr' as ->. right. split; [by eapply list_elem_of_lookup_2|done].
        -- destruct Hr' as [Hr' Hr0]. right. split; [|done]. apply list_elem_of_lookup in Hr' as [k Hk].
           rewrite list_lookup_insert_ne in Hk; [by eapply list_elem_of_lookup_2|].
           intros <-. rewrite list_lookup_insert_eq in Hk by done. congruence.
      * intros k Hk. rewrite Hout by lia. rewrite list_lookup_insert_ne; [done|]. unfold i. lia.
      * intros k. destruct (Hor k) as [E|E]; [|by right]. rewrite E. destruct (decide (k = i)) as [->|].
        -- right. by rewrite list_lookup_insert_eq.
        -- left. by rewrite list_lookup_insert_ne.
      * intros Hpre k Hk. destruct (decide (k = i)) as [->|Hki].
        -- rewrite Hout by (unfold i; lia). by rewrite list_lookup_insert_eq.
        -- apply Hin; [|unfold i in Hki; lia]. intros x y Hax Hxy Hy. rewrite !list_lookup_insert_ne by (unfold i; lia).
           apply Hpre; [done|done|lia].
Qed.

(** Replacing blocks of a table by null blocks and freeing them. *)
Lemma nulled_inv others m p free rid freed blocks' p' free' :
  mgr_inv others m p free → partial_hit_reqs m !! rid = None →
  (∀ j, j ≠ 0%nat → mult blocks' (Blk j) + mult freed (Blk j) = mult (blocks_of rid m) (Blk j)) →
  (∀ k, blocks' !! k = blocks_of rid m !! k ∨ blocks' !! k = Some (Blk 0)) →
  pool_inv p' free' → counts p (λ r, - mult freed r) p' → mgr_inv others (set_blocks rid blocks' m) p' free'.
Proof.
  intros Hinv Hnp Hm Hor Hpool' Hco'.
  apply (mgr_inv_step others m p free (λ r, - mult freed r)); [done|done|apply Hco'|intros j Hh _; by apply Hco'| | | |done].
  - intros j Hj. simpl. rewrite table_refs_set. fold (blocks_of rid m). pose proof (Hm j Hj). lia.
  - intros rid' r. rewrite blocks_of_set. destruct (decide (rid' = rid)) as [->|]; [|by left]. intros [k Hk]%list_elem_of_lookup.
    destruct (Hor k) as [E|E]; rewrite E in Hk; [left; by eapply list_elem_of_lookup_2|injection Hk as <-; right].
    exists 0%nat. split; [done|by eapply null_valid, Hinv].
  - intros rid' idx src Hp. rewrite blocks_of_set. destruct (decide (rid' = rid)) as [->|]; [simpl in Hp; by rewrite Hnp in Hp|].
    by apply (mi_partial _ _ _ _ Hinv).
Qed.

(** The table of the request after a range of it was freed. *)
Record nulls others m p rid (first last : Z) m' p' free' : Prop := {
  nu_inv : mgr_inv others m' p' free';
  nu_counts : ∃ freed, counts p (λ r, - mult freed r) p' ∧
    ∀ j, j ≠ 0%nat → mult (blocks_of rid m') (Blk j) + mult freed (Blk j) = mult (blocks_of rid m) (Blk j);
  nu_known : num_cached_block m' = num_cached_block m;
  nu_len : length (blocks_of rid m') = length (blocks_of rid m);
  nu_keep : ∀ k, ¬ (first ≤ Z.of_nat k < last) → blocks_of rid m' !! k = blocks_of rid m !! k;
  nu_or : ∀ k, blocks_of rid m' !! k = blocks_of rid m !! k ∨ blocks_of rid m' !! k = Some (Blk 0);
  nu_null : null_from first (blocks_of rid m) → ∀ k, first ≤ Z.of_nat k < Z.min last (py_len (blocks_of rid m)) →
    blocks_of rid m' !! k = Some (Blk 0);
  nu_other : ∀ rid', rid' ≠ rid → blocks_of rid' m' = blocks_of rid' m;
  nu_partial : partial_hit_reqs m' = partial_hit_reqs m;
  nu_size : block_size m' = block_size m;
  nu_spec : kv_cache_spec m' = kv_cache_spec m;
}.

Lemma nulls_refl others m p free rid first last :
  mgr_inv others m p free → Z.min last (py_len (blocks_of rid m)) ≤ first →
  nulls others m p rid first last (set_blocks rid (blocks_of rid m) m) p free ∧ nulls others m p rid first last m p free.
Proof.
  intros Hinv Hle.
  assert (Hc : ∃ freed, counts p (λ r, - mult freed r) p ∧
    ∀ j, j ≠ 0%nat → mult (blocks_of rid m) (Blk j) + mult freed (Blk j) = mult (blocks_of rid m) (Blk j)).
  { exists []. split; [by apply counts_zero|]. intros j _. change (mult [] (Blk j)) with 0. lia. }
  split; split; rewrite ?blocks_of_set, ?decide_True by done; try done; try (intros _ k Hk; lia); try (intros k; by left).
  - by apply set_same_inv.
  - intros rid' Hne. by rewrite blocks_of_set, decide_False.
Qed.

Lemma remove_range_spec others m p free rid first last :
  mgr_inv others m p free → 0 ≤ first → partial_hit_reqs m !! rid = None →
  ∃ m' p' free', _remove_blocks_in_range rid first last m p = Ok (m', p') ∧ nulls others m p rid first last m' p' free'.
Proof.
  intros Hinv Hf Hnp. unfold _remove_blocks_in_range. destruct (req_to_blocks m !! rid) as [blocks|] eqn:Hrid.
  2: { exists m, p, free. split; [done|]. apply nulls_refl; [done|]. unfold blocks_of. rewrite Hrid. unfold py_len. simpl. lia. }
  assert (Hbm : blocks_of rid m = blocks) by (unfold blocks_of; by rewrite Hrid). rewrite <-Hbm.
  destruct (Z.leb_spec last first); [exists m, p, free; split; [done|apply nulls_refl; [done|lia]]|].
  set (l := Z.min last (py_len (blocks_of rid m))).
  assert (Hnull : null_block p = Blk 0) by (apply (qi_null _ _ (proj1 (mi_pool _ _ _ _ Hinv)))). rewrite Hnull.
  destruct (decide (first ≤ l)) as [Hle|Hgt].
  2: { rewrite py_range_nil by lia. cbn [rev null_loop mbind result_bind]. do 3 eexists. split; [done|]. apply nulls_refl; [done|lia]. }
  destruct (null_loop_spec (Z.to_nat (l - first)) first [] (blocks_of rid m) Hf ltac:(unfold l; lia)) as (freed & blocks' & Hloop & Hlen & Hm & Hfr & Hout & Hor & Hin).
  replace (first + Z.of_nat (Z.to_nat (l - first))) with l in * by lia. rewrite Hloop. cbn [mbind result_bind].
  assert (Hm' : ∀ j, j ≠ 0%nat → mult blocks' (Blk j) + mult freed (Blk j) = mult (blocks_of rid m) (Blk j)).
  { intros j Hj. rewrite (Hm j Hj). change (mult [] (Blk j)) with 0. lia. }
  assert (Hfa : freeable p freed).
  { apply (table_freeable others m p free rid); [done|..].
    - intros r Hr. destruct (Hfr r Hr) as [?%elem_of_nil|[? _]]; done.
    - intros j Hj. pose proof (Hm' j Hj). pose proof (mult_nonneg blocks' (Blk j)). lia. }
  assert (Hfin : ∀ p' free', mgr_inv others (set_blocks rid blocks' m) p' free' → counts p (λ r, - mult freed r) p' →
    nulls others m p rid first last (set_blocks rid blocks' m) p' free').
  { intros p' free' Hinv' Hcounts. split; rewrite ?blocks_of_set, ?decide_True by done; try done.
    - exists freed. by split.
    - intros k Hk. destruct (decide (Z.of_nat k < py_len (blocks_of rid m))); [apply Hout; unfold l; lia|].
      rewrite !lookup_ge_None_2; [done|unfold py_len in *; lia|unfold py_len in *; lia].
    - intros Hpre k Hk. apply Hin; [|done]. intros i j Hi Hij _. by apply Hpre.
    - intros rid' Hne. by rewrite blocks_of_set, decide_False. }
  destruct freed as [|r freed].
  - do 3 eexists. split; [done|]. apply Hfin; [|by apply counts_zero]. eapply nulled_inv; [done|done|exact Hm'|done|apply Hinv|by apply counts_zero].
  - destruct (free_blocks_spec p free (r :: freed) (mi_pool _ _ _ _ Hinv) Hfa) as (p1 & -> & Hpool1 & Hco). cbn [mbind result_bind].
    do 3 eexists. split; [done|]. apply Hfin; [|exact Hco]. eapply nulled_inv; [done|done|exact Hm'|done|exact Hpool1|done].
Qed.
End Release.

(** The positions of the table that [remove_skipped_blocks] empties. *)
Definition skip_range (m : Manager) (processed : Z) (num_prompt_tokens : option Z) : Z * Z :=
  match kv_cache_spec m, num_prompt_tokens with
  | RSWASpec _ w, Some n => (cdiv n (block_size m), Z.max n (processed - w) / block_size m)
  | _, _ => (0, skipped_blocks m processed)
  end.

Lemma remove_skipped_spec `{PoolEnv} others m p free rid processed num_prompt :
  mgr_inv others m p free → spec_ok (kv_cache_spec m) → 0 ≤ processed → (∀ n, num_prompt = Some n → 0 ≤ n) →
  partial_hit_reqs m !! rid = None →
  let '(first, last) := skip_range m processed num_prompt in
  ∃ m' p' free', remove_skipped_blocks rid processed num_prompt m p = Ok (m', p') ∧ nulls others m p rid first last m' p' free'.
Proof.
  intros Hinv Hspec Hproc Hn Hnp. pose proof (mi_size _ _ _ _ Hinv) as HB.
  assert (Hbase : ∃ m' p' free', base_remove_skipped_blocks rid processed m p = Ok (m', p') ∧
    nulls others m p rid 0 (skipped_blocks m processed) m' p' free').
  { unfold base_remove_skipped_blocks. pose proof (skipped_blocks_nonneg m processed HB Hspec Hproc) as Hs.
    destruct (Z.leb_spec (get_num_skipped_tokens (kv_cache_spec m) processed) 0) as [Hle|Hgt].
    - exists m, p, free. split; [done|]. apply (nulls_refl others m p free); [done|]. unfold skipped_blocks.
      assert (get_num_skipped_tokens (kv_cache_spec m) processed / block_size m ≤ 0 / block_size m) by (apply Z.div_le_mono; lia).
      rewrite Z.div_0_l in * by lia. pose proof (py_len_nonneg (blocks_of rid m)). lia.
    - set (m1 := set_blocks rid (blocks_of rid m) m).
      destruct (remove_range_spec others m1 p free rid 0 (Z.min (skipped_blocks m processed) (py_len (blocks_of rid m))))
        as (m' & p' & free' & Hrun & [Hi Hcnt Hnc Hl Hk Hor Hz Ho Hp Hsz Hsp]); [by apply set_same_inv|lia|done|].
      assert (E : blocks_of rid m1 = blocks_of rid m) by (unfold m1; by rewrite blocks_of_set, decide_True).
      rewrite E in *. exists m', p', free'. split; [exact Hrun|]. split; try done.
      + intros k Hk'. destruct (decide (Z.of_nat k < py_len (blocks_of rid m))); [apply Hk; lia|].
        rewrite !lookup_ge_None_2; [done|unfold py_len in *; lia|unfold py_len in *; lia].
      + intros Hpre k Hk'. apply Hz; [done|lia].
      + intros rid' Hne. rewrite Ho by done. unfold m1. by rewrite blocks_of_set, decide_False. }
  unfold remove_skipped_blocks, skip_range. destruct (kv_cache_spec m) as [| bs w | | |] eqn:Es; try done.
  destruct num_prompt as [n|]; [|done]. apply (remove_range_spec others m p free); [done| |done]. apply cdiv_nonneg; [by apply Hn|done].
Qed.

(** [free] always succeeds and gives the request's blocks back: its table,
    its cached-block count and a pending redirection are gone, every block loses
    exactly as many references as it occurs in the table, the reference counts
    stay exact, other requests keep their tables, and a block is free afterwards
    if and only if no table, no pending copy and no other group refers to it. *)
Theorem manager_free_correct `{PoolEnv} others m p free rid :
  mgr_inv others m p free →
  ∃ m' p' free', manager_free rid m p = Ok (m', p') ∧ mgr_inv others m' p' free' ∧
    blocks_of rid m' = [] ∧ num_cached_block m' !! rid = None ∧ partial_hit_reqs m' !! rid = None ∧
    (∀ rid', rid' ≠ rid → blocks_of rid' m' = blocks_of rid' m) ∧
    (∀ j, has (pool_store p) (Blk j) →
       ref_cnt (blk p' (Blk j)) = ref_cnt (blk p (Blk j)) - mult (blocks_of rid m) (Blk j)) ∧
    (∀ j, j ≠ 0%nat → has (pool_store p) (Blk j) →
       (Blk j ∈ free' ↔ table_refs (req_to_blocks m') (Blk j) + cow_refs (pending_cow_copies m') (Blk j) + others (Blk j) = 0)).
Proof.
  intros Hinv. destruct (manager_free_spec others m p free rid Hinv) as (m' & p' & Hrun & Hco & Hinv' & Hb & Ho & Hc & Hp).
  do 3 eexists. split_and!; [exact Hrun|exact Hinv'|done|done|done|done| |].
  - intros j Hh. rewrite (co_ref _ _ _ Hco) by done. lia.
  - intros j Hj Hh. apply (sh_has _ _ (co_shape _ _ _ Hco)) in Hh. rewrite <-(mi_refs _ _ _ _ Hinv' j Hj Hh).
    rewrite (qi_free _ _ (proj1 (mi_pool _ _ _ _ Hinv'))). tauto.
Qed.

(** [remove_skipped_blocks] frees exactly what attention no longer reaches.
    It always succeeds and keeps the reference counts exact.  Blocks outside the
    skipped range stay where they are: for sliding-window and chunked attention
    everything from the block of the first token in the window on, for R-SWA the
    prompt and the decoding window; for full attention nothing is skipped.
    Inside the range every block becomes the null block, provided that the null
    blocks already in the range come first, which it re-establishes. *)
Theorem remove_skipped_blocks_correct `{PoolEnv} others m p free rid processed num_prompt :
  mgr_inv others m p free → spec_ok (kv_cache_spec m) → 0 ≤ processed → (∀ n, num_prompt = Some n → 0 ≤ n) →
  partial_hit_reqs m !! rid = None →
  let '(first, last) := skip_range m processed num_prompt in
  null_from first (blocks_of rid m) →
  ∃ m' p' free', remove_skipped_blocks rid processed num_prompt m p = Ok (m', p') ∧ mgr_inv others m' p' free' ∧
    length (blocks_of rid m') = length (blocks_of rid m) ∧
    (∀ k, first ≤ Z.of_nat k < Z.min last (py_len (blocks_of rid m)) → blocks_of rid m' !! k = Some (Blk 0)) ∧
    (∀ k, ¬ (first ≤ Z.of_nat k < last) → blocks_of rid m' !! k = blocks_of rid m !! k) ∧
    null_from first (blocks_of rid m') ∧
    (∀ rid', rid' ≠ rid → blocks_of rid' m' = blocks_of rid' m).
Proof.
  intros Hinv Hspec Hproc Hn Hnp. pose proof (remove_skipped_spec others m p free rid processed num_prompt Hinv Hspec Hproc Hn Hnp) as Hrm.
  destruct (skip_range m processed num_prompt) as [first last]. intros Hnf.
  destruct Hrm as (m' & p' & free' & Hrun & [Hi _ _ Hl Hk _ Hz Ho _ _ _]). exists m', p', free'. split_and!; try done; [by apply Hz|].
  intros i j Hfi Hij Hj. pose proof (lookup_lt_Some _ _ _ Hj) as Hlt. rewrite Hl in Hlt.
  destruct (decide (Z.of_nat i < last)) as [Hil|Hil].
  - apply Hz; [done|]. unfold py_len. lia.
  - rewrite Hk in Hj |- * by lia. by apply (Hnf i j).
Qed.

(** The real blocks of a table. *)
Definition real_blocks (l : list ref) : Z := py_len (filter (λ r, r ≠ Blk 0) l).

Lemma real_blocks_nulls l s :
  0 ≤ s → (∀ k, Z.of_nat k < Z.min s (py_len l) → l !! k = Some (Blk 0)) → real_blocks l ≤ Z.max 0 (py_len l - s).
Proof.
  intros Hs Hnull. unfold real_blocks. rewrite <-(take_drop (Z.to_nat s) l), filter_app, py_len_app.
  assert (Hnil : filter (λ r, r ≠ Blk 0) (take (Z.to_nat s) l) = []).
  { destruct (filter _ (take (Z.to_nat s) l)) as [|x k] eqn:E; [done|].
    assert (Hx : x ∈ filter (λ r, r ≠ Blk 0) (take (Z.to_nat s) l)) by (rewrite E; left).
    apply list_elem_of_filter in Hx as [Hne [i [Hi Hlt]%lookup_take_Some]%list_elem_of_lookup].
    pose proof (lookup_lt_Some _ _ _ Hi). rewrite Hnull in Hi by (unfold py_len; lia). congruence. }
  rewrite Hnil.
  pose proof (length_filter (λ r, r ≠ Blk 0) (drop (Z.to_nat s) l)) as Hf. rewrite length_drop in Hf.
  unfold py_len at 1. simpl. unfold py_len. rewrite length_app, length_take, length_drop. lia.
Qed.

Lemma cap_arith spec B processed num_tokens inflight max_len cap :
  0 < B → 0 ≤ processed → num_tokens ≤ processed + inflight → num_tokens ≤ max_len → 0 ≤ inflight → spec_block_size spec = B →
  (match spec with SlidingWindowSpec _ w e => 1 ≤ w ∧ 0 ≤ e | ChunkedLocalAttentionSpec _ c => 0 < c ∧ c mod B = 0 | _ => True end) →
  max_admission_blocks_per_request spec inflight max_len = Some cap →
  cdiv num_tokens B - get_num_skipped_tokens spec processed / B ≤ cap.
Proof.
  intros HB Hp Hn1 Hn2 Hi Hbs Hok Hcap. pose proof (cdiv_spec num_tokens B HB) as Hcd.
  destruct spec as [| | b w e | b c |]; simpl in *; try done; subst b; injection Hcap as <-.
  - pose proof (cdiv_mono num_tokens max_len B HB ltac:(lia)). set (x := Z.max 0 (processed - w + 1 - e)).
    pose proof (Z.div_mod x B ltac:(lia)). pose proof (Z.mod_pos_bound x B HB). pose proof (Z.div_pos x B ltac:(lia) HB).
    destruct (Z.min_spec (w - 1 + e + inflight) max_len) as [[_ ->]|[_ ->]]; [|lia].
    pose proof (cdiv_spec (w - 1 + e + inflight) B HB). nia.
  - destruct Hok as [Hc Hcm]. pose proof (cdiv_mono num_tokens max_len B HB ltac:(lia)).
    set (x := processed / c * c). pose proof (Z.div_mod processed c ltac:(lia)). pose proof (Z.mod_pos_bound processed c Hc).
    assert (Hx : x mod B = 0) by (unfold x; rewrite Z.mul_mod, Hcm, Z.mul_0_r by lia; apply Z.mod_0_l; lia).
    assert (Hx0 : 0 ≤ x) by (unfold x; pose proof (Z.div_pos processed c Hp Hc); nia).
    pose proof (mod_mul_div x B HB Hx). pose proof (Z.div_pos x B Hx0 HB).
    destruct (Z.min_spec (c + inflight) max_len) as [[_ ->]|[_ ->]]; [|lia].
    pose proof (cdiv_spec (c + inflight) B HB). nia.
Qed.

(** A table that covers the computed tokens has the skipped blocks. *)
Lemma skipped_le_covered m processed len :
  0 < block_size m → 0 ≤ processed →
  (match kv_cache_spec m with
   | SlidingWindowSpec _ w e => 1 ≤ w ∧ 0 ≤ e | ChunkedLocalAttentionSpec _ c => 0 < c ∧ c mod block_size m = 0 | _ => True end) →
  spec_ok (kv_cache_spec m) → processed ≤ len * block_size m → skipped_blocks m processed ≤ len.
Proof.
  intros HB Hp Hok Hspec Hcov. unfold skipped_blocks. apply Z.div_le_upper_bound; [done|].
  destruct (kv_cache_spec m) as [| |b w e|b c|]; simpl in *; try done; try lia.
  pose proof (Z.mul_div_le processed c ltac:(lia)). lia.
Qed.

(** C14: The per-request admission cap is a bound on what a request really
    holds.  For sliding-window and chunked attention: whenever a request whose
    table covers its processed tokens first drops the skipped blocks and then
    allocates slots for its in-flight tokens, it holds at most
    [max_admission_blocks_per_request] real blocks, before and after the
    allocation, and the allocation succeeds if the pool has the blocks it needs. *)
Theorem admission_cap_bounds_blocks `{PoolEnv} others m p free rid processed num_tokens inflight max_len cap :
  mgr_inv others m p free → spec_ok (kv_cache_spec m) → spec_block_size (kv_cache_spec m) = block_size m →
  (match kv_cache_spec m with
   | SlidingWindowSpec _ w e => 1 ≤ w ∧ 0 ≤ e | ChunkedLocalAttentionSpec _ c => 0 < c ∧ c mod block_size m = 0 | _ => True end) →
  max_admission_blocks_per_request (kv_cache_spec m) inflight max_len = Some cap →
  0 ≤ processed → 0 ≤ inflight → num_tokens ≤ processed + inflight → num_tokens ≤ max_len →
  partial_hit_reqs m !! rid = None → null_from 0 (blocks_of rid m) →
  processed ≤ py_len (blocks_of rid m) * block_size m → py_len (blocks_of rid m) ≤ cdiv num_tokens (block_size m) →
  ∃ m1 p1 free1, remove_skipped_blocks rid processed None m p = Ok (m1, p1) ∧ mgr_inv others m1 p1 free1 ∧
    real_blocks (blocks_of rid m1) ≤ cap ∧
    (new_blocks_needed m1 rid num_tokens ≤ py_len free1 →
     ∃ ret m2 p2, allocate_new_blocks rid num_tokens m1 p1 = Ok (ret, m2, p2) ∧ real_blocks (blocks_of rid m2) ≤ cap).
Proof.
  intros Hinv Hspec Hsz Hok Hcap Hp Hi Hn1 Hn2 Hnp Hnf Hcov Hlen. pose proof (mi_size _ _ _ _ Hinv) as HB.
  pose proof (cap_arith _ _ _ _ _ _ _ HB Hp Hn1 Hn2 Hi Hsz Hok Hcap) as Hb. set (s := skipped_blocks m processed).
  change (cdiv num_tokens (block_size m) - s ≤ cap) in Hb.
  assert (Hs : 0 ≤ s) by (apply skipped_blocks_nonneg; [done|done|done]).
  pose proof (skipped_le_covered m processed _ HB Hp Hok Hspec Hcov) as Hs_le. fold s in Hs_le.
  pose proof (remove_skipped_spec others m p free rid processed None Hinv Hspec Hp ltac:(done) Hnp) as Hrm.
  replace (skip_range m processed None) with (0, s) in Hrm by (unfold skip_range; by destruct (kv_cache_spec m)).
  destruct Hrm as (m1 & p1 & free1 & Hrun & [Hi1 _ _ Hl1 Hk1 _ Hz1 _ Hp1 Hs1 Hsp1]).
  assert (Hnull : ∀ k, Z.of_nat k < Z.min s (py_len (blocks_of rid m1)) → blocks_of rid m1 !! k = Some (Blk 0)).
  { intros k Hk. apply Hz1; [done|]. unfold py_len in *. rewrite Hl1 in Hk. lia. }
  assert (Hlen1 : py_len (blocks_of rid m1) = py_len (blocks_of rid m)) by (unfold py_len; by rewrite Hl1).
  exists m1, p1, free1. split_and!; [done|done|pose proof (real_blocks_nulls _ _ Hs Hnull); lia|].
  intros Hfree. destruct (allocate_new_spec others m1 p1 free1 rid num_tokens Hi1) as (ret & m2 & p2 & Hrun2 & Hgr); [by rewrite Hsp1|done|].
  exists ret, m2, p2. split; [done|]. pose proof (gr_table _ _ _ _ _ _ _ _ _ _ Hgr) as Ht. rewrite Hp1 in Ht. specialize (Ht Hnp).
  pose proof (gr_len _ _ _ _ _ _ _ _ _ _ Hgr) as Hl2. rewrite Hs1, Hlen1 in Hl2.
  pose proof (real_blocks_nulls (blocks_of rid m2) s Hs) as Hr. rewrite Hl2 in Hr.
  assert (real_blocks (blocks_of rid m2) ≤ Z.max 0 (Z.max (py_len (blocks_of rid m)) (cdiv num_tokens (block_size m)) - s)); [|lia].
  apply Hr. intros k Hk. rewrite Ht, lookup_app_l by (unfold py_len in *; lia). apply Hnull. lia.
Qed.

(** ** All operations *)

Inductive mgr_op : Type :=
  | MAddLocal (rid : string) (bs : list ref) (num_local num_ext : Z)
  | MExternal (rid : string) (num_local num_ext : Z)
  | MAllocate (rid : string) (num_tokens : Z)
  | MCache (req : Request) (num_tokens : Z) (retention : option Z)
  | MSkip (rid : string) (processed : Z) (num_prompt : option Z)
  | MFree (rid : string).

Section Ops.
Context `{PoolEnv}.

Definition run_mgr_op (op : mgr_op) (m : Manager) (p : BlockPool) : result (Manager * BlockPool) :=
  match op with
  | MAddLocal rid bs num_local num_ext => add_local_computed_blocks rid bs num_local num_ext m p
  | MExternal rid num_local num_ext => allocate_external_computed_blocks rid num_local num_ext m p
  | MAllocate rid num_tokens => '(_, m, p) ← allocate_new_blocks rid num_tokens m p; Ok (m, p)
  | MCache req num_tokens retention => '(_, m, p) ← base_cache_blocks req num_tokens retention m p; Ok (m, p)
  | MSkip rid processed num_prompt => remove_skipped_blocks rid processed num_prompt m p
  | MFree rid => manager_free rid m p
  end.

(** What the coordinator ensures before each call. *)
Definition mgr_pre (op : mgr_op) (m : Manager) (p : BlockPool) : Prop :=
  match op with
  | MAddLocal rid bs num_local num_ext => fresh m rid ∧ hit_ok m p bs num_local ∧ 0 ≤ num_ext
  | MExternal rid num_local num_ext => external_blocks m num_local num_ext (py_len (blocks_of rid m)) ≤ get_num_free_blocks p
  | MAllocate rid num_tokens => new_blocks_needed m rid num_tokens ≤ get_num_free_blocks p
  | MCache req num_tokens retention =>
      let a := default 0 (num_cached_block m !! request_id req) in
      let b := num_tokens / block_size m in
      b ≤ a ∨ ∃ mask, reachable_block_mask m a b retention
          ((num_prompt_tokens req - 1) :: (if shared_prefix_boundary req =? 0 then [] else [shared_prefix_boundary req])) = Ok mask ∧
        full_call p req (blocks_of (request_id req) m) a b (block_size m) (kv_cache_group_id m) mask
  | MSkip rid processed num_prompt =>
      0 ≤ processed ∧ (∀ n, num_prompt = Some n → 0 ≤ n) ∧ partial_hit_reqs m !! rid = None
  | MFree _ => True
  end.

Lemma recached_mgr_inv others m p free p' : recached p p' → mgr_inv others m p free → mgr_inv others m p' free.
Proof.
  intros Hrc Hinv. apply (mgr_inv_step others m p free (λ _, 0)); [done| | | | | | |done].
  - eapply recached_pool_inv; [done|apply Hinv].
  - destruct Hrc. by apply same_queue_shape.
  - intros j _ _. rewrite <-(sq_ref _ _ (rc_queue _ _ Hrc)). lia.
  - intros j _. lia.
  - intros rid r Hr. by left.
  - apply (mi_partial _ _ _ _ Hinv).
Qed.

Lemma base_cache_blocks_spec others m p free req num_tokens retention :
  mgr_inv others m p free → mgr_pre (MCache req num_tokens retention) m p →
  ∃ req' m' p', base_cache_blocks req num_tokens retention m p = Ok (req', m', p') ∧ mgr_inv others m' p' free ∧
    kv_cache_spec m' = kv_cache_spec m.
Proof.
  intros Hinv Hpre. unfold base_cache_blocks. simpl in Hpre.
  destruct (Z.leb_spec (num_tokens / block_size m) (default 0 (num_cached_block m !! request_id req))) as [Hle|Hgt].
  { by exists req, m, p. }
  destruct Hpre as [?|(mask & Hmask & Hcall)]; [lia|]. rewrite Hmask. cbn [mbind result_bind].
  destruct (cache_full_blocks_spec p req _ _ _ _ _ mask (proj2 (mi_pool _ _ _ _ Hinv)) Hcall) as (p' & req' & Hrun & Heff & _).
  change (block_size (set_blocks ?r ?l m)) with (block_size m). change (kv_cache_group_id (set_blocks ?r ?l m)) with (kv_cache_group_id m).
  rewrite Hrun. cbn [mbind result_bind]. do 3 eexists. split; [done|]. split; [|done].
  pose proof (recached_mgr_inv others m p free p' (fe_recached _ _ _ _ _ _ _ _ _ Heff) Hinv) as Hinv'.
  destruct (set_same_inv others m p' free (request_id req) Hinv'). by split.
Qed.

Lemma run_mgr_op_inv others op m p free :
  mgr_inv others m p free → spec_ok (kv_cache_spec m) → mgr_pre op m p →
  ∃ m' p' free', run_mgr_op op m p = Ok (m', p') ∧ mgr_inv others m' p' free' ∧ kv_cache_spec m' = kv_cache_spec m.
Proof.
  intros Hinv Hspec Hpre. assert (Hfl : get_num_free_blocks p = py_len free) by (apply (qr_len _ _ (qi_rep _ _ (proj1 (mi_pool _ _ _ _ Hinv))))).
  destruct op as [rid bs l e|rid l e|rid n|req n ret|rid n np|rid]; simpl in *.
  - destruct Hpre as (Hf & Hh & He). destruct (add_local_spec others m p free rid bs l e Hinv Hspec Hf Hh He) as (m' & p' & -> & []). eauto 10.
  - destruct (external_spec others m p free rid l e Hinv Hspec) as (m' & p' & -> & []); [lia|]. eauto 10.
  - destruct (allocate_new_spec others m p free rid n Hinv Hspec) as (ret & m' & p' & -> & []); [lia|]. cbn [mbind result_bind]. eauto 10.
  - destruct (base_cache_blocks_spec others m p free req n ret Hinv Hpre) as (req' & m' & p' & -> & ? & ?). cbn [mbind result_bind]. eauto 10.
  - destruct Hpre as (Hn & Hnp & Hp). pose proof (remove_skipped_spec others m p free rid n np Hinv Hspec Hn Hnp Hp) as Hrm.
    destruct (skip_range m n np) as [a b]. destruct Hrm as (m' & p' & free' & -> & []). eauto 10.
  - destruct (manager_free_spec others m p free rid Hinv) as (m' & p' & Hrun & _ & Hinv' & _). exists m', p'. eexists. split_and!; [done|done|].
    unfold manager_free, pop_blocks_for_free in Hrun. cbv zeta in Hrun. destruct (free_blocks _ p); [|done]. cbn [mbind result_bind] in Hrun. by injection Hrun as <- <-.
Qed.

(** Runs of a manager from its creation over a new pool. *)
Inductive mgr_reachable : Manager → BlockPool → Prop :=
  | mr_new n caching hbs events metrics p spec inflight max_len gid sbs dcp zeroing :
      new_block_pool n caching hbs events metrics = Ok p → spec_ok spec → 0 < group_block_size spec dcp →
      mgr_reachable (get_manager_for_kv_cache_spec spec inflight max_len caching gid sbs dcp zeroing) p
  | mr_step op m p m' p' :
      mgr_reachable m p → mgr_pre op m p → run_mgr_op op m p = Ok (m', p') → mgr_reachable m' p'.

End Ops.

Lemma mgr_reachable_inv `{PoolEnv} m p :
  mgr_reachable m p → spec_ok (kv_cache_spec m) ∧ ∃ free, mgr_inv (λ _, 0) m p free.
Proof.
  induction 1 as [n caching hbs events metrics p spec inflight max_len gid sbs dcp zeroing Hp Hspec HB|op m p m' p' _ [Hspec [free Hinv]] Hpre Hrun].
  - assert (Hn : 0 < n).
    { destruct (decide (0 < n)); [done|]. unfold new_block_pool in Hp. by rewrite (proj2 (Z.ltb_ge 0 n)) in Hp by lia. }
    destruct (new_block_pool_spec n caching hbs events metrics Hn) as (p' & Hp' & Hinv & _ & _ & _ & _ & _ & Hz).
    rewrite Hp' in Hp. injection Hp as ->. split; [done|]. eexists. split; [exact Hinv| |done| |done|done].
    + intros j _ _. destruct (Hz j) as [-> _]. done.
    + intros rid r Hr. by apply elem_of_nil in Hr.
  - destruct (run_mgr_op_inv (λ _, 0) op m p free Hinv Hspec Hpre) as (m1 & p1 & free1 & Hrun' & Hinv' & Hsp).
    rewrite Hrun in Hrun'. injection Hrun' as <- <-. rewrite Hsp. eauto.
Qed.

(** However the coordinator interleaves its calls, as long as each call meets
    its precondition: every block is referenced exactly as often as it occurs in
    the block tables of the requests and in pending copies, a block is in the
    free queue if and only if nothing refers to it, the tables name only blocks
    of the pool, and no call raises. *)
Theorem manager_reachable_safe `{PoolEnv} m p :
  mgr_reachable m p →
  (∀ j, j ≠ 0%nat → Z.of_nat j < num_gpu_blocks p →
     ref_cnt (blk p (Blk j)) = table_refs (req_to_blocks m) (Blk j) + cow_refs (pending_cow_copies m) (Blk j)) ∧
  (∃ free, get_all_free_blocks (S (length free)) (free_block_queue p) = Ok free ∧
     ∀ j, j ≠ 0%nat → Z.of_nat j < num_gpu_blocks p →
       (Blk j ∈ free ↔ table_refs (req_to_blocks m) (Blk j) + cow_refs (pending_cow_copies m) (Blk j) = 0)) ∧
  (∀ rid r, r ∈ blocks_of rid m → ∃ j, r = Blk j ∧ Z.of_nat j < num_gpu_blocks p) ∧
  (∀ op, mgr_pre op m p → ∃ m' p', run_mgr_op op m p = Ok (m', p') ∧ mgr_reachable m' p').
Proof.
  intros Hr. destruct (mgr_reachable_inv m p Hr) as [Hspec [free Hinv]]. pose proof (mi_pool _ _ _ _ Hinv) as [Hq Hc].
  assert (Hrefs : ∀ j, j ≠ 0%nat → Z.of_nat j < num_gpu_blocks p →
     ref_cnt (blk p (Blk j)) = table_refs (req_to_blocks m) (Blk j) + cow_refs (pending_cow_copies m) (Blk j)).
  { intros j Hj Hlt. rewrite (mi_refs _ _ _ _ Hinv j Hj) by (by apply (qi_dom _ _ Hq)). lia. }
  split_and!; [done|..].
  - exists free. split; [apply (get_all_free_blocks_spec _ _ _ (qi_rep _ _ Hq)); lia|]. intros j Hj Hlt.
    rewrite (qi_free _ _ Hq), <-(Hrefs j Hj Hlt), (qi_dom _ _ Hq). tauto.
  - intros rid r Hin. destruct (mi_valid _ _ _ _ Hinv rid r Hin) as (j & -> & Hh). exists j. split; [done|]. by apply (qi_dom _ _ Hq).
  - intros op Hpre. destruct (run_mgr_op_inv (λ _, 0) op m p free Hinv Hspec Hpre) as (m' & p' & free' & Hrun & _).
    exists m', p'. split; [done|]. by eapply mr_step.
Qed.

(** ** Witnesses *)

Definition demo_manager (spec : KVCacheSpec) : Manager := get_manager_for_kv_cache_spec spec 4 16 true 3 2 1 false.

(** A new manager over a new pool of four blocks. *)
Lemma demo_manager_ok spec :
  spec_block_size spec = 2 →
  ∃ p, demo_pool = Ok p ∧ mgr_inv (λ _, 0) (demo_manager spec) p [Blk 1; Blk 2; Blk 3] ∧ get_num_free_blocks p = 3.
Proof.
  intros Hs. destruct (new_block_pool_spec 4 true 2 true None) as (p & Hp & Hinv & _ & _ & _ & _ & _ & Hz); [lia|]. exists p.
  split_and!; [done| |apply (qr_len _ _ (qi_rep _ _ (proj1 Hinv)))].
  split; [exact Hinv| |done| |done|simpl; unfold group_block_size; simpl; lia].
  - intros j _ _. destruct (Hz j) as [-> _]. done.
  - intros rid r Hr. by apply elem_of_nil in Hr.
Qed.

Lemma allocation_estimate_sufficient_witness :
  ∃ p m1 p1 ret m3 p3, demo_pool = Ok p ∧
    get_num_blocks_to_allocate "r" 5 [] 0 0 false (demo_manager (FullAttentionSpec 2)) p = Ok 3 ∧
    add_local_computed_blocks "r" [] 0 0 (demo_manager (FullAttentionSpec 2)) p = Ok (m1, p1) ∧
    @allocate_new_blocks demo_env "r" 5 m1 p1 = Ok (ret, m3, p3) ∧ 5 ≤ py_len (blocks_of "r" m3) * 2.
Proof.
  destruct (demo_manager_ok (FullAttentionSpec 2) eq_refl) as (p & Hp & Hinv & Hfree).
  destruct (@allocation_estimate_sufficient demo_env (λ _, 0) (demo_manager (FullAttentionSpec 2)) p _ "r" [] 0 0 5 3 Hinv)
    as (m1 & p1 & m2 & p2 & ret & m3 & p3 & free3 & H1 & H2 & H3 & _ & _ & H4 & _).
  - exact I.
  - split; reflexivity.
  - reflexivity.
  - split; [lia|intros r Hr; by apply elem_of_nil in Hr|reflexivity|intros Hm; by destruct Hm|reflexivity].
  - lia.
  - lia.
  - reflexivity.
  - rewrite Hfree. lia.
  - injection H2 as <- <-. exists p, m1, p1, ret, m3, p3. split; [exact Hp|]. split; [reflexivity|]. split; [exact H1|]. split; [exact H3|exact H4].
Defined.

(** The manager after a request got slots for five tokens. *)
Lemma demo_allocated spec :
  spec_block_size spec = 2 → spec_ok spec →
  ∃ p m1 p1, demo_pool = Ok p ∧ @allocate_new_blocks demo_env "r" 5 (demo_manager spec) p = Ok ([Blk 1; Blk 2; Blk 3], m1, p1) ∧
    mgr_inv (λ _, 0) m1 p1 [] ∧ blocks_of "r" m1 = [Blk 1; Blk 2; Blk 3] ∧ kv_cache_spec m1 = spec ∧ partial_hit_reqs m1 !! "r" = None.
Proof.
  intros Hs Hok. destruct (demo_manager_ok spec Hs) as (p & Hp & Hinv & _).
  assert (HB : block_size (demo_manager spec) = 2) by exact Hs.
  assert (Hn : new_blocks_needed (demo_manager spec) "r" 5 = 3) by (unfold new_blocks_needed; by rewrite HB).
  destruct (@allocate_new_spec demo_env (λ _, 0) (demo_manager spec) p _ "r" 5 Hinv Hok) as (ret & m1 & p1 & Hrun & Hgr); [by rewrite Hn|].
  rewrite Hn in Hgr. destruct Hgr as [Hi _ _ _ -> _ Ht _ _ _ Hsp]. exists p, m1, p1. split_and!; [done|done|done|by apply Ht|done|].
  destruct (partial_hit_reqs m1 !! "r") as [[idx src]|] eqn:E; [|done].
  unfold allocate_new_blocks in Hrun. replace (is_ring (kv_cache_spec (demo_manager spec))) with false in Hrun by (by destruct spec).
  cbn [redirect_partial_hit] in Hrun. unfold redirect_partial_hit in Hrun. cbn [demo_manager get_manager_for_kv_cache_spec partial_hit_reqs] in Hrun.
  rewrite lookup_empty in Hrun. cbn [mbind result_bind] in Hrun.
  destruct (_ <=? 0); [injection Hrun as _ <- _; done|]. destruct (get_new_blocks _ p) as [[bs p2]|]; [|done]. cbn [mbind result_bind] in Hrun.
  injection Hrun as _ <- _. done.
Qed.

Lemma manager_free_correct_witness :
  ∃ m1 p1 m' p', blocks_of "r" m1 = [Blk 1; Blk 2; Blk 3] ∧ mgr_inv (λ _, 0) m1 p1 [] ∧
    manager_free "r" m1 p1 = Ok (m', p') ∧ blocks_of "r" m' = [].
Proof.
  destruct (demo_allocated (FullAttentionSpec 2) eq_refl I) as (p & m1 & p1 & _ & _ & Hinv & Ht & _).
  destruct (@manager_free_correct demo_env (λ _, 0) m1 p1 _ "r" Hinv) as (m' & p' & free' & Hrun & _ & Hb & _).
  exists m1, p1, m', p'. split; [exact Ht|]. split; [exact Hinv|]. split; [exact Hrun|exact Hb].
Defined.

Lemma remove_skipped_blocks_correct_witness :
  ∃ m1 p1 m' p', blocks_of "r" m1 = [Blk 1; Blk 2; Blk 3] ∧ kv_cache_spec m1 = SlidingWindowSpec 2 3 0 ∧
    remove_skipped_blocks "r" 7 None m1 p1 = Ok (m', p').
Proof.
  destruct (demo_allocated (SlidingWindowSpec 2 3 0) eq_refl I) as (p & m1 & p1 & _ & _ & Hinv & Ht & Hs & Hp).
  pose proof (@remove_skipped_blocks_correct demo_env (λ _, 0) m1 p1 _ "r" 7 None Hinv) as Hrm.
  unfold skip_range in Hrm. rewrite Hs in Hrm.
  destruct Hrm as (m' & p' & free' & Hrun & _); [exact I|lia|discriminate|exact Hp| |].
  - rewrite Ht. intros i [|[|[|j]]] _ _ Hj; discriminate Hj.
  - exists m1, p1, m', p'. split; [exact Ht|]. split; [exact Hs|exact Hrun].
Defined.

Lemma admission_cap_bounds_blocks_witness :
  ∃ p m1 p1, demo_pool = Ok p ∧ max_admission_blocks (demo_manager (SlidingWindowSpec 2 3 0)) = Some 4 ∧
    remove_skipped_blocks "r" 0 None (demo_manager (SlidingWindowSpec 2 3 0)) p = Ok (m1, p1) ∧
    real_blocks (blocks_of "r" m1) ≤ 4.
Proof.
  destruct (demo_manager_ok (SlidingWindowSpec 2 3 0) eq_refl) as (p & Hp & Hinv & _).
  destruct (@admission_cap_bounds_blocks demo_env (λ _, 0) (demo_manager (SlidingWindowSpec 2 3 0)) p _ "r" 0 4 4 16 4 Hinv I)
    as (m1 & p1 & free1 & Hrun & _ & Hb & _);
    [reflexivity|simpl; lia|reflexivity|lia|lia|lia|lia|reflexivity|intros i j _ _ Hj; discriminate Hj|vm_compute; discriminate|vm_compute; discriminate|].
  exists p, m1, p1. split; [exact Hp|]. split; [reflexivity|]. split; [exact Hrun|exact Hb].
Defined.

Lemma manager_reachable_safe_witness :
  ∃ p m' p', demo_pool = Ok p ∧ @mgr_reachable demo_env (demo_manager (FullAttentionSpec 2)) p ∧
    @run_mgr_op demo_env (MAllocate "r" 5) (demo_manager (FullAttentionSpec 2)) p = Ok (m', p').
Proof.
  destruct (demo_manager_ok (FullAttentionSpec 2) eq_refl) as (p & Hp & _ & Hfree).
  assert (Hr : @mgr_reachable demo_env (demo_manager (FullAttentionSpec 2)) p).
  { apply (@mr_new demo_env 4 true 2 true None); [exact Hp|exact I|reflexivity]. }
  destruct (@manager_reachable_safe demo_env _ p Hr) as (_ & _ & _ & Hops).
  destruct (Hops (MAllocate "r" 5)) as (m' & p' & Hrun & _).
  { change (3 ≤ get_num_free_blocks p). rewrite Hfree. lia. }
  exists p, m', p'. split; [exact Hp|]. split; [exact Hr|exact Hrun].
Defined.
