(* ===== verification/GroupSpec.v ===== *)
(** * One group of a shared pool

    The operations of [SingleTypeManager] as steps of one cache group over a
    pool that other groups use as well.  The invariant of a group adds to the
    reference counts of [SingleTypeManagerSpec] that the blocks a request has
    not cached yet are its own and carry no hash, which is what makes caching
    them possible; each step is shown to keep it and to leave the uncached
    blocks of the other groups alone. *)

From S2P Require Import Prelude FreeQueue Request BlockHash BlockMap BlockPool BlockPoolSpec CacheHit SingleTypeManager.
From S2P Require Import SingleTypeManagerSpec.
Local Open Scope Z_scope.

(** ** The invariant of a group *)

(** The references a group holds. *)
Definition group_refs (m : Manager) (r : ref) : Z :=
  table_refs (req_to_blocks m) r + cow_refs (pending_cow_copies m) r.

Lemma group_refs_nonneg m r : 0 ≤ group_refs m r.
Proof. unfold group_refs, cow_refs. pose proof (table_refs_nonneg (req_to_blocks m) r). pose proof (mult_nonneg ((pending_cow_copies m).*1 ++ (pending_cow_copies m).*2) r). lia. Qed.

Lemma group_refs_table rid m r : mult (blocks_of rid m) r ≤ group_refs m r.
Proof.
  unfold group_refs, cow_refs. rewrite (table_refs_delete _ rid). fold (blocks_of rid m).
  pose proof (table_refs_nonneg (delete rid (req_to_blocks m)) r). pose proof (mult_nonneg ((pending_cow_copies m).*1 ++ (pending_cow_copies m).*2) r). lia.
Qed.

Lemma group_refs_tables rid rid' m r :
  rid ≠ rid' → mult (blocks_of rid m) r + mult (blocks_of rid' m) r ≤ group_refs m r.
Proof.
  intros Hne. unfold group_refs, cow_refs. rewrite (table_refs_delete _ rid), (table_refs_delete (delete rid _) rid'), lookup_delete_ne by done.
  fold (blocks_of rid m) (blocks_of rid' m). pose proof (table_refs_nonneg (delete rid' (delete rid (req_to_blocks m))) r).
  pose proof (mult_nonneg ((pending_cow_copies m).*1 ++ (pending_cow_copies m).*2) r). lia.
Qed.

(** Position [k] of the table of [rid] holds the block [j] that is not cached
    yet. *)
Definition uncached (m : Manager) (rid : string) (k : nat) (j : nat) : Prop :=
  blocks_of rid m !! k = Some (Blk j) ∧ j ≠ 0%nat ∧ default 0 (num_cached_block m !! rid) ≤ Z.of_nat k.

(** A block referenced once and without a hash. *)
Definition private (p : BlockPool) (j : nat) : Prop :=
  ref_cnt (blk p (Blk j)) = 1 ∧ block_hash (blk p (Blk j)) = None.

Definition tracked (m : Manager) (p : BlockPool) : Prop :=
  enable_caching p = true → ∀ rid k j, uncached m rid k j → private p j.

(** What a group knows apart from the reference counts. *)
Record group_local (m : Manager) (p : BlockPool) : Prop := {
  gl_valid : ∀ rid r, r ∈ blocks_of rid m → ∃ j, r = Blk j ∧ has (pool_store p) r;
  gl_size : 0 < block_size m;
  gl_spec : spec_ok (kv_cache_spec m);
  gl_partial : partial_hit_reqs m = ∅;
  gl_cached : ∀ rid, 0 ≤ default 0 (num_cached_block m !! rid);
  gl_tracked : tracked m p;
  gl_copies : pending_cow_copies m = [];
}.

Record group_inv (others : ref → Z) (m : Manager) (p : BlockPool) (free : list ref) : Prop := {
  gi_mgr : mgr_inv others m p free;
  gi_ok : group_local m p;
}.

(** The fields of a manager that no operation changes while there are no partial
    hits. *)
Definition config (m : Manager) :=
  (kv_cache_spec m, block_size m, m_enable_caching m, kv_cache_group_id m, scheduler_block_size m,
   cache_hit_alignment_tokens m, max_admission_blocks m, record_new_block_ids m, use_eagle m, pending_cow_copies m).

Lemma config_fields m m' :
  config m' = config m → kv_cache_spec m' = kv_cache_spec m ∧ block_size m' = block_size m ∧ m_enable_caching m' = m_enable_caching m ∧
    kv_cache_group_id m' = kv_cache_group_id m ∧ cache_hit_alignment_tokens m' = cache_hit_alignment_tokens m ∧ use_eagle m' = use_eagle m ∧
    pending_cow_copies m' = pending_cow_copies m.
Proof. by intros [= ]. Qed.

Lemma config_record bs m : config (record_ids bs m) = config m.
Proof. unfold record_ids. by destruct (record_new_block_ids m). Qed.

(** ** Steps *)

(** The blocks that another group holds privately keep their state. *)
Record calm (others : ref → Z) (p p' : BlockPool) : Prop := {
  ca_shape : same_shape p p';
  ca_private : enable_caching p = true → ∀ j, j ≠ 0%nat → has (pool_store p) (Blk j) → 1 ≤ others (Blk j) → private p j → private p' j;
}.

Lemma calm_group others m p p' :
  group_local m p → (∀ r, group_refs m r ≤ others r) → calm others p p' → group_local m p'.
Proof.
  intros [Hval Hsz Hsp Hpart Hc Htr Hcw] Hle [Hsh Hpr]. split; try done.
  - intros rid r Hr. destruct (Hval rid r Hr) as (j & -> & Hh). exists j. split; [done|]. by apply (sh_has _ _ Hsh).
  - intros Hcache rid k j Hun. rewrite <-(cf_caching _ _ (sh_config _ _ Hsh)) in Hcache. pose proof Hun as (Hk & Hj & _).
    apply list_elem_of_lookup_2 in Hk as Hin. destruct (Hval rid _ Hin) as (j' & [= <-] & Hh).
    apply Hpr; [done|done|done| |by eapply Htr]. apply mult_pos in Hin. pose proof (group_refs_table rid m (Blk j)). specialize (Hle (Blk j)). lia.
Qed.

Section Steps.
Context `{PoolEnv}.
Implicit Types (p : BlockPool) (m : Manager) (free : list ref) (others : ref → Z) (rid : string).

(** A block referenced once occurs once, in one table of one group. *)
Lemma private_unique others m p free rid k j :
  mgr_inv others m p free → blocks_of rid m !! k = Some (Blk j) → j ≠ 0%nat → ref_cnt (blk p (Blk j)) = 1 →
  others (Blk j) = 0 ∧ mult (blocks_of rid m) (Blk j) = 1 ∧ (∀ rid', rid' ≠ rid → mult (blocks_of rid' m) (Blk j) = 0) ∧
  (∀ k', blocks_of rid m !! k' = Some (Blk j) → k' = k).
Proof.
  intros Hinv Hk Hj Hone. apply list_elem_of_lookup_2 in Hk as Hin. destruct (mi_valid _ _ _ _ Hinv rid _ Hin) as (j' & [= <-] & Hh).
  pose proof (mi_refs _ _ _ _ Hinv j Hj Hh) as Href. fold (group_refs m (Blk j)) in Href. apply mult_pos in Hin.
  pose proof (group_refs_table rid m (Blk j)). pose proof (mi_others _ _ _ _ Hinv (Blk j)).
  assert (Hm1 : mult (blocks_of rid m) (Blk j) = 1) by lia. split_and!; [lia|done| |].
  - intros rid' Hne. pose proof (group_refs_tables rid rid' m (Blk j) ltac:(done)). pose proof (mult_nonneg (blocks_of rid' m) (Blk j)). lia.
  - intros k' Hk'. destruct (decide (k' = k)) as [|Hne]; [done|exfalso].
    pose proof (mult_replace _ k (Blk j) (Blk 0) (Blk j) Hk) as Hrep. rewrite !mult_single, decide_True, decide_False in Hrep by (done || congruence).
    assert (Blk j ∈ <[k := Blk 0]> (blocks_of rid m)) as Hin' by (apply (list_elem_of_lookup_2 _ k'); by rewrite list_lookup_insert_ne).
    apply mult_pos in Hin'. lia.
Qed.

(** References change by [f], hashes stay: enough when [f] is zero on private
    blocks. *)
Lemma counts_private p f p' j :
  counts p f p' → has (pool_store p) (Blk j) → f (Blk j) = 0 → private p j → private p' j.
Proof.
  intros Hco Hh Hf [Hone Hno]. split; [rewrite (co_ref _ _ _ Hco) by done; lia|].
  by rewrite <-(sc_hash _ _ (co_cache _ _ _ Hco)).
Qed.

Lemma alloc_private p free n p' j :
  pool_inv p free → allocates p (take n free) p' → private p j → private p' j.
Proof.
  intros [Hq _] Hal [Hone Hno].
  assert (Hnf : Blk j ∉ take n free).
  { intros Hin. assert (Hf : Blk j ∈ free) by (rewrite <-(take_drop n free); apply elem_of_app; by left). apply (qi_free _ _ Hq) in Hf. lia. }
  split; [by rewrite (al_ref _ _ _ Hal), decide_False|]. rewrite (al_hash _ _ _ Hal). by case_decide.
Qed.

Lemma alloc_new_private p free n p' j :
  pool_inv p free → allocates p (take n free) p' → enable_caching p = true → Blk j ∈ take n free → private p' j.
Proof.
  intros _ Hal Hc Hin. split; [by rewrite (al_ref _ _ _ Hal), decide_True|]. by rewrite (al_hash _ _ _ Hal), decide_True.
Qed.

Lemma alloc_calm others p free n p' : pool_inv p free → allocates p (take n free) p' → calm others p p'.
Proof. intros Hp Hal. split; [apply Hal|]. intros _ j _ _ _ Hj. by eapply alloc_private. Qed.
End Steps.

(** ** The configuration is constant *)

Section Config.
Context `{PoolEnv}.

Lemma add_local_config rid bs l e m p m' p' : add_local_computed_blocks rid bs l e m p = Ok (m', p') → config m' = config m.
Proof. unfold add_local_computed_blocks. intros Hr. repeat (inv_ok; cbv zeta in *; case_ok || idtac); done. Qed.

Lemma external_config rid l e m p m' p' :
  spec_ok (kv_cache_spec m) → allocate_external_computed_blocks rid l e m p = Ok (m', p') → config m' = config m.
Proof.
  intros Hs. unfold allocate_external_computed_blocks. replace (is_ring (kv_cache_spec m)) with false by (by destruct (kv_cache_spec m)).
  intros Hr. destruct (_ <=? 0); [by simplify_eq|]. cbv zeta in Hr. inv_ok. by rewrite config_record.
Qed.

Lemma allocate_new_config rid n m p ret m' p' :
  spec_ok (kv_cache_spec m) → partial_hit_reqs m !! rid = None → allocate_new_blocks rid n m p = Ok (ret, m', p') → config m' = config m.
Proof.
  intros Hs Hp. unfold allocate_new_blocks. replace (is_ring (kv_cache_spec m)) with false by (by destruct (kv_cache_spec m)).
  unfold redirect_partial_hit. rewrite Hp. cbn [mbind result_bind]. intros Hr.
  destruct (_ <=? 0); [by simplify_eq|]. apply bind_Ok in Hr as ([bs p2] & _ & Hr). simplify_eq. by rewrite config_record.
Qed.

Lemma remove_range_config rid a b m p m' p' : _remove_blocks_in_range rid a b m p = Ok (m', p') → config m' = config m.
Proof.
  unfold _remove_blocks_in_range. intros Hr. destruct (req_to_blocks m !! rid); [|by simplify_eq]. destruct (_ <=? _); [by simplify_eq|].
  apply bind_Ok in Hr as ([fr bl] & _ & Hr). destruct fr; [by simplify_eq|]. apply bind_Ok in Hr as (p1 & _ & Hr). by simplify_eq.
Qed.

Lemma remove_skipped_config rid n np m p m' p' : remove_skipped_blocks rid n np m p = Ok (m', p') → config m' = config m.
Proof.
  assert (Hb : ∀ m' p', base_remove_skipped_blocks rid n m p = Ok (m', p') → config m' = config m).
  { unfold base_remove_skipped_blocks. intros m1 p1 Hr. destruct (_ <=? 0); [by simplify_eq|]. by apply remove_range_config in Hr. }
  unfold remove_skipped_blocks. intros Hr. destruct (kv_cache_spec m); try by eapply Hb.
  - destruct np; [by apply remove_range_config in Hr|by eapply Hb].
  - by simplify_eq.
Qed.

Lemma free_config rid m p m' p' : manager_free rid m p = Ok (m', p') → config m' = config m.
Proof. unfold manager_free, pop_blocks_for_free. intros Hr. apply bind_Ok in Hr as (p1 & _ & Hr). by simplify_eq. Qed.
End Config.

(** ** The operations as steps *)

(** One call of the manager of a group: the invariant is kept, the other groups
    are left alone, and at most [cost] blocks leave the free queue. *)
Record group_step `{PoolEnv} (others : ref → Z) (m : Manager) (p : BlockPool) (free : list ref) (cost : Z) (m' : Manager) (p' : BlockPool) : Prop := {
  gs_inv : ∃ free', group_inv others m' p' free' ∧ py_len free - cost ≤ py_len free';
  gs_calm : calm others p p';
  gs_config : config m' = config m;
}.

(** References are only added and no hash changes. *)
Record held (p p' : BlockPool) : Prop := {
  he_hash : ∀ r, block_hash (blk p r) = block_hash (blk p' r);
  he_ref : ∀ r, has (pool_store p) r → ref_cnt (blk p r) ≤ ref_cnt (blk p' r);
  he_shape : same_shape p p';
}.

#[export] Instance held_preorder : PreOrder held.
Proof.
  split.
  - intros p. by split.
  - intros p1 p2 p3 [H1 R1 S1] [H2 R2 S2]. split; [intros r; by rewrite H1| |by etransitivity].
    intros r Hr. etransitivity; [by apply R1|]. apply R2. by apply (sh_has _ _ S1).
Qed.

Section Steps2.
Context `{PoolEnv}.
Implicit Types (p : BlockPool) (m : Manager) (free : list ref) (others : ref → Z) (rid : string).

Lemma evictable_mono p p' bs :
  held p p' → (∀ r, r ∈ bs → has (pool_store p) r) → (∀ r, r ∈ bs → r ≠ Blk 0 → 0 ≤ ref_cnt (blk p r)) →
  is_null (blk p (Blk 0)) = true → _get_num_evictable_blocks bs p' ≤ _get_num_evictable_blocks bs p.
Proof.
  intros [_ Hr Hsh] Hh Hpos Hnull. unfold _get_num_evictable_blocks, py_len. apply Nat2Z.inj_le, sublist_length.
  induction bs as [|r bs IH]; [done|]. rewrite !filter_cons.
  assert (sublist (filter (λ r, ref_cnt (blk p' r) = 0 ∧ is_null (blk p' r) = false) bs)
                  (filter (λ r, ref_cnt (blk p r) = 0 ∧ is_null (blk p r) = false) bs)) by (apply IH; set_solver).
  assert (Himp : ref_cnt (blk p' r) = 0 ∧ is_null (blk p' r) = false → ref_cnt (blk p r) = 0 ∧ is_null (blk p r) = false).
  { rewrite <-(sh_is_null _ _ Hsh). intros [Hz Hn]. split; [|done]. specialize (Hr r (Hh r ltac:(left))).
    assert (r ≠ Blk 0) by (intros ->; congruence). specialize (Hpos r ltac:(left) ltac:(done)). lia. }
  destruct (decide (ref_cnt (blk p' r) = 0 ∧ _)); destruct (decide (ref_cnt (blk p r) = 0 ∧ _)); try tauto; by constructor.
Qed.

(** The hits are cached blocks. *)
Definition hashed p (bs : list ref) : Prop := ∀ j, j ≠ 0%nat → Blk j ∈ bs → block_hash (blk p (Blk j)) ≠ None.

Lemma counts_held p f p' : counts p f p' → (∀ r, 0 ≤ f r) → held p p'.
Proof.
  intros [Hsh Hc Hr] Hf. split; [apply Hc| |done]. intros r Hh. rewrite Hr by done. specialize (Hf r). lia.
Qed.

Lemma touched_private p bs p' j :
  hashed p bs → counts p (mult bs) p' → has (pool_store p) (Blk j) → j ≠ 0%nat → private p j → private p' j.
Proof.
  intros Hbs Hco Hh Hj Hpr. apply (counts_private p (mult bs) p'); [done|done| |done]. destruct Hpr as [_ Hno].
  destruct (decide (Blk j ∈ bs)) as [Hin|Hin]; [by destruct (Hbs j Hj Hin)|].
  pose proof (mult_nonneg bs (Blk j)). rewrite <-mult_pos in Hin. lia.
Qed.

Lemma add_local_step others m p free rid bs nl ext :
  group_inv others m p free → blocks_of rid m = [] → hit_ok m p bs nl → nl mod block_size m = 0 → hashed p bs → 0 ≤ ext →
  let s := skipped_blocks m (nl + ext) in
  ∃ m' p', add_local_computed_blocks rid bs nl ext m p = Ok (m', p') ∧
    group_step others m p free (_get_num_evictable_blocks (inside s bs) p) m' p' ∧ held p p' ∧
    blocks_of rid m' = replicate (Z.to_nat s) (Blk 0) ++ inside s bs ∧
    num_cached_block m' !! rid = Some (py_len (blocks_of rid m')) ∧
    (∀ rid', rid' ≠ rid → blocks_of rid' m' = blocks_of rid' m).
Proof.
  intros [Hinv [Hval Hsz Hsp Hpart Hc Htr Hcw]] Hempty Hhit Hmod Hhash Hext s.
  assert (Hfresh : fresh m rid) by (split; [done|by rewrite Hpart]).
  destruct (add_local_spec others m p free rid bs nl ext Hinv Hsp Hfresh Hhit Hext) as (m' & p' & Hrun & [Hi Hco Ht Ho _ Hw _ Hsz' Hsp']).
  fold s in Hi, Hco, Ht, Hw. destruct Hw as [Hw1 Hw2]; [unfold _has_partial_local_hit; by rewrite Hmod, andb_false_r|].
  assert (Hins : hashed p (inside s bs)) by (intros j Hj Hin; apply Hhash; [done|]; unfold inside in Hin; rewrite <-(take_drop (Z.to_nat s) bs); apply elem_of_app; by right).
  pose proof (add_local_config _ _ _ _ _ _ _ _ Hrun) as Hcf. pose proof (config_fields _ _ Hcf) as (_ & _ & _ & _ & _ & _ & Hcw').
  exists m', p'. split; [done|]. split; [split|].
  - eexists. split; [split; [exact Hi|split]|].
    + apply (mi_valid _ _ _ _ Hi).
    + lia.
    + by rewrite Hsp'.
    + by rewrite Hw2.
    + intros rid'. rewrite Hw1. destruct (decide (rid' = rid)) as [->|]; [rewrite lookup_insert_eq; apply py_len_nonneg|by rewrite lookup_insert_ne].
    + intros Hcache rid' k j (Hk & Hj & Hge). rewrite Hw1 in Hge. destruct (decide (rid' = rid)) as [->|Hne].
      * rewrite lookup_insert_eq in Hge. apply lookup_lt_Some in Hk. unfold py_len in Hge. simpl in Hge. lia.
      * rewrite lookup_insert_ne in Hge by done. rewrite Ho in Hk by done. rewrite <-(cf_caching _ _ (sh_config _ _ (co_shape _ _ _ Hco))) in Hcache.
        apply (touched_private p (inside s bs)); [done|done| |done|by apply (Htr Hcache rid' k)].
        by destruct (Hval rid' (Blk j)) as (j' & [= <-] & ?); [by eapply list_elem_of_lookup_2|].
    + by rewrite Hcw'.
    + pose proof (evictable_bound p free (inside s bs) (mi_pool _ _ _ _ Hinv)). lia.
  - split; [apply Hco|]. intros _ j Hj Hh _ Hpr. by apply (touched_private p (inside s bs)).
  - done.
  - split_and!; [|done|by rewrite Hw1, lookup_insert_eq|done]. eapply counts_held; [done|]. apply mult_nonneg.
Qed.
End Steps2.

Section Steps3.
Context `{PoolEnv}.
Implicit Types (p : BlockPool) (m : Manager) (free : list ref) (others : ref → Z) (rid : string).

(** New blocks at the end of a table. *)
Lemma extended_local others m p free rid n m' p' free' :
  group_inv others m p free → mgr_inv others m' p' free' → allocates p (take n free) p' →
  blocks_of rid m' = blocks_of rid m ++ take n free → (∀ rid', rid' ≠ rid → blocks_of rid' m' = blocks_of rid' m) →
  num_cached_block m' = num_cached_block m → partial_hit_reqs m' = partial_hit_reqs m →
  config m' = config m → group_inv others m' p' free'.
Proof.
  intros [Hinv [Hval Hsz Hsp Hpart Hc Htr Hcw]] Hi Hal Ht Ho Hn Hp (Hsp' & Hsz' & _ & _ & _ & _ & Hcw')%config_fields.
  split; [done|]. split; [apply (mi_valid _ _ _ _ Hi)|lia|by rewrite Hsp'|by rewrite Hp|by rewrite Hn| |by rewrite Hcw'].
  intros Hcache rid' k j (Hk & Hj & Hge). rewrite Hn in Hge. rewrite <-(cf_caching _ _ (sh_config _ _ (al_shape _ _ _ Hal))) in Hcache.
  destruct (decide (rid' = rid)) as [->|Hne].
  - rewrite Ht in Hk. apply lookup_app_Some in Hk as [Hk|[_ Hk]].
    + eapply alloc_private; [apply Hinv|done|]. by apply (Htr Hcache rid k).
    + eapply alloc_new_private; [apply Hinv|done|done|by eapply list_elem_of_lookup_2].
  - rewrite Ho in Hk by done. eapply alloc_private; [apply Hinv|done|]. by apply (Htr Hcache rid' k).
Qed.

Lemma drop_cost (n : Z) free : 0 ≤ n → py_len free - n ≤ py_len (drop (Z.to_nat n) free).
Proof. intros Hn. unfold py_len. rewrite length_drop. lia. Qed.

Lemma external_blocks_nonneg m l e len : 0 ≤ external_blocks m l e len.
Proof. unfold external_blocks. destruct (_ <=? 0); lia. Qed.

Lemma external_step others m p free rid nl ext :
  group_inv others m p free →
  let n := external_blocks m nl ext (py_len (blocks_of rid m)) in
  n ≤ py_len free →
  ∃ m' p', allocate_external_computed_blocks rid nl ext m p = Ok (m', p') ∧ group_step others m p free n m' p' ∧
    (∃ new, blocks_of rid m' = blocks_of rid m ++ new ∧ py_len new = n) ∧
    num_cached_block m' = num_cached_block m ∧ (∀ rid', rid' ≠ rid → blocks_of rid' m' = blocks_of rid' m).
Proof.
  intros Hg n Hn. pose proof Hg as [Hinv [_ _ Hsp _ _ _ _]].
  destruct (external_spec others m p free rid nl ext Hinv Hsp Hn) as (m' & p' & Hrun & [Hi Hal Ht Ho Hk Hp _ _]). fold n in Hi, Hal, Ht.
  pose proof (external_config _ _ _ _ _ _ _ Hsp Hrun) as Hcf. assert (Hn0 : 0 ≤ n) by apply external_blocks_nonneg.
  exists m', p'. split_and!; [done|split| |done|done].
  - eexists. split; [by eapply extended_local|by apply drop_cost].
  - eapply alloc_calm; [apply Hinv|done].
  - done.
  - exists (take (Z.to_nat n) free). split; [done|]. unfold py_len in *. rewrite length_take. lia.
Qed.

Lemma allocate_new_step others m p free rid nt :
  group_inv others m p free →
  let n := Z.max 0 (cdiv nt (block_size m) - py_len (blocks_of rid m)) in
  n ≤ py_len free →
  ∃ ret m' p', allocate_new_blocks rid nt m p = Ok (ret, m', p') ∧ group_step others m p free n m' p' ∧
    blocks_of rid m' = blocks_of rid m ++ ret ∧ py_len ret = n ∧
    num_cached_block m' = num_cached_block m ∧ (∀ rid', rid' ≠ rid → blocks_of rid' m' = blocks_of rid' m).
Proof.
  intros Hg n Hn. pose proof Hg as [Hinv [_ _ Hsp Hpart _ _ _]].
  assert (Hnp : partial_hit_reqs m !! rid = None) by (by rewrite Hpart).
  assert (Hneed : new_blocks_needed m rid nt = n).
  { unfold new_blocks_needed. rewrite Hnp, decide_False by (by intros [? ?]). lia. }
  destruct (allocate_new_spec others m p free rid nt Hinv Hsp) as (ret & m' & p' & Hrun & [Hi _ Hal Hp Hret _ Ht Ho Hk _ _]); [lia|].
  rewrite Hneed in *. specialize (Hal Hnp). specialize (Hp Hnp). specialize (Ht Hnp). subst ret.
  pose proof (allocate_new_config _ _ _ _ _ _ _ Hsp Hnp Hrun) as Hcf.
  exists (take (Z.to_nat n) free), m', p'. split_and!; [done|split|done| |done|done].
  - eexists. split; [by eapply extended_local|apply drop_cost; unfold n; lia].
  - eapply alloc_calm; [apply Hinv|done].
  - done.
  - unfold py_len in *. rewrite length_take. lia.
Qed.

(** Dropping references: the free queue grows. *)
Lemma free_mono p free p' free' f :
  pool_inv p free → pool_inv p' free' → counts p f p' → (∀ j, j ≠ 0%nat → f (Blk j) ≤ 0) → py_len free ≤ py_len free'.
Proof.
  intros [Hq _] [Hq' _] Hco Hf. unfold py_len. apply Nat2Z.inj_le, submseteq_length, NoDup_submseteq; [apply (rep_nodup _ _ (qi_rep _ _ Hq))|].
  intros r Hr. destruct (qi_blk _ _ Hq r Hr) as [j ->]. apply (qi_free _ _ Hq) in Hr as (Hh & Hj & Hz).
  pose proof (qi_ref _ _ Hq' j Hj). pose proof (Hf j Hj). rewrite (co_ref _ _ _ Hco _ Hh) in *.
  apply (qi_free _ _ Hq'). split_and!; [by apply (sh_has _ _ (co_shape _ _ _ Hco))|done|]. rewrite (co_ref _ _ _ Hco _ Hh). lia.
Qed.

(** Freed blocks come from the table of the request; what stays in it stays
    private. *)
Lemma dropped_local others m p free rid freed m' p' free' :
  group_inv others m p free → mgr_inv others m' p' free' → counts p (λ r, - mult freed r) p' →
  (∀ j, j ≠ 0%nat → mult (blocks_of rid m') (Blk j) + mult freed (Blk j) = mult (blocks_of rid m) (Blk j)) →
  (∀ k, blocks_of rid m' !! k = blocks_of rid m !! k ∨ blocks_of rid m' !! k = Some (Blk 0) ∨ blocks_of rid m' !! k = None) →
  (∀ rid', rid' ≠ rid → blocks_of rid' m' = blocks_of rid' m) →
  (∀ rid', num_cached_block m' !! rid' = num_cached_block m !! rid' ∨ (num_cached_block m' !! rid' = None ∧ blocks_of rid' m' = [])) →
  partial_hit_reqs m' = ∅ → config m' = config m →
  group_step others m p free 0 m' p'.
Proof.
  intros Hg Hi Hco Hm Hor Ho Hn Hp Hcf. pose proof Hg as [Hinv [Hval Hsz Hsp Hpart Hc Htr Hcw]]. pose proof (config_fields _ _ Hcf) as (Hsp' & Hsz' & _ & _ & _ & _ & Hcw').
  assert (Hpr : ∀ rid' k j, enable_caching p = true → uncached m rid' k j → blocks_of rid' m' !! k = Some (Blk j) → private p' j).
  { intros rid' k j Hcache Hun Hk'. pose proof Hun as (Hk & Hj & _). pose proof (Htr Hcache rid' k j Hun) as Hpr.
    destruct (private_unique others m p free rid' k j Hinv Hk Hj (proj1 Hpr)) as (_ & Hm1 & Hm0 & _).
    assert (Hh : has (pool_store p) (Blk j)) by (destruct (Hval rid' (Blk j)) as (? & [= <-] & ?); [by eapply list_elem_of_lookup_2|done]).
    apply (counts_private p (λ r, - mult freed r) p'); [done|done| |done]. pose proof (mult_nonneg freed (Blk j)). specialize (Hm j Hj).
    destruct (decide (rid' = rid)) as [->|Hne].
    - apply list_elem_of_lookup_2, mult_pos in Hk'. lia.
    - rewrite (Hm0 rid) in Hm by congruence. pose proof (mult_nonneg (blocks_of rid m') (Blk j)). lia. }
  split; [|split; [apply Hco|]|done].
  - exists free'. split.
    + split; [done|]. split; [apply (mi_valid _ _ _ _ Hi)|lia|by rewrite Hsp'|done| | |by rewrite Hcw'].
      * intros rid'. destruct (Hn rid') as [->|[-> _]]; [done|]. simpl. lia.
      * intros Hcache rid' k j (Hk & Hj & Hge). rewrite <-(cf_caching _ _ (sh_config _ _ (co_shape _ _ _ Hco))) in Hcache.
        destruct (Hn rid') as [E|[_ E]]; [|by rewrite E in Hk]. rewrite E in Hge.
        apply (Hpr rid' k j Hcache); [|done]. split_and!; [|done|done]. destruct (decide (rid' = rid)) as [->|Hne]; [|by rewrite <-Ho].
        destruct (Hor k) as [Ek|[Ek|Ek]]; rewrite Ek in Hk; [done|by injection Hk as <-|done].
    + pose proof (free_mono p free p' free' (λ r, - mult freed r) (mi_pool _ _ _ _ Hinv) (mi_pool _ _ _ _ Hi) Hco) as Hle.
      assert (py_len free ≤ py_len free'); [|lia]. apply Hle. intros j _. pose proof (mult_nonneg freed (Blk j)). lia.
  - intros _ j Hj Hh Hoth Hpriv. apply (counts_private p (λ r, - mult freed r) p'); [done|done| |done].
    pose proof (mi_refs _ _ _ _ Hinv j Hj Hh) as Href. fold (group_refs m (Blk j)) in Href. destruct Hpriv as [Hone _].
    pose proof (group_refs_table rid m (Blk j)). specialize (Hm j Hj). pose proof (mult_nonneg freed (Blk j)).
    pose proof (mult_nonneg (blocks_of rid m') (Blk j)). lia.
Qed.

Lemma remove_skipped_step others m p free rid processed np :
  group_inv others m p free → 0 ≤ processed → (∀ n, np = Some n → 0 ≤ n) →
  ∃ m' p', remove_skipped_blocks rid processed np m p = Ok (m', p') ∧ group_step others m p free 0 m' p' ∧
    (∀ r, block_hash (blk p r) = block_hash (blk p' r)) ∧
    length (blocks_of rid m') = length (blocks_of rid m) ∧
    (let '(first, last) := skip_range m processed np in
     ∀ k, ¬ (first ≤ Z.of_nat k < last) → blocks_of rid m' !! k = blocks_of rid m !! k) ∧
    (∀ k, blocks_of rid m' !! k = blocks_of rid m !! k ∨ blocks_of rid m' !! k = Some (Blk 0)) ∧
    num_cached_block m' = num_cached_block m ∧ (∀ rid', rid' ≠ rid → blocks_of rid' m' = blocks_of rid' m).
Proof.
  intros Hg Hproc Hn. pose proof Hg as [Hinv [_ _ Hsp Hpart _ _ _]].
  assert (Hnp : partial_hit_reqs m !! rid = None) by (by rewrite Hpart).
  pose proof (remove_skipped_spec others m p free rid processed np Hinv Hsp Hproc Hn Hnp) as Hrm.
  destruct (skip_range m processed np) as [first last]. destruct Hrm as (m' & p' & free' & Hrun & [Hi (freed & Hco & Hm) Hk Hl Hkeep Hor _ Ho Hp _ _]).
  exists m', p'. split_and!; [done| |apply (sc_hash _ _ (co_cache _ _ _ Hco))|done|done|done|done|done].
  apply (dropped_local others m p free rid freed m' p' free'); try done.
  - intros k. destruct (Hor k) as [E|E]; auto.
  - intros rid'. left. by rewrite Hk.
  - by rewrite Hp.
  - by eapply remove_skipped_config.
Qed.

Lemma free_step_group others m p free rid :
  group_inv others m p free →
  ∃ m' p', manager_free rid m p = Ok (m', p') ∧ group_step others m p free 0 m' p' ∧
    blocks_of rid m' = [] ∧ num_cached_block m' = delete rid (num_cached_block m) ∧
    (∀ rid', rid' ≠ rid → blocks_of rid' m' = blocks_of rid' m).
Proof.
  intros Hg. pose proof Hg as [Hinv [_ _ _ Hpart _ _ _]].
  destruct (manager_free_spec others m p free rid Hinv) as (m' & p' & Hrun & Hco & Hi & Hb & Ho & _).
  assert (Hfields : num_cached_block m' = delete rid (num_cached_block m) ∧ partial_hit_reqs m' = delete rid (partial_hit_reqs m)).
  { unfold manager_free, pop_blocks_for_free in Hrun. apply bind_Ok in Hrun as (p1 & _ & Hrun). by simplify_eq. }
  destruct Hfields as [Hnc Hpr]. exists m', p'. split_and!; [done| |done|done|done].
  apply (dropped_local others m p free rid (blocks_of rid m) m' p' _ Hg Hi Hco).
  - intros j _. rewrite Hb. change (mult [] (Blk j)) with 0. lia.
  - intros k. right; right. by rewrite Hb.
  - done.
  - intros rid'. destruct (decide (rid' = rid)) as [->|]; [right; by rewrite Hnc, lookup_delete_eq|left; by rewrite Hnc, lookup_delete_ne].
  - by rewrite Hpr, Hpart, delete_empty.
  - by eapply free_config.
Qed.
End Steps3.

(** ** Caching *)

(** A group whose full blocks can be cached; full-attention blocks have the size
    of the hash blocks, so that there is no partial tail to cache. *)
Record cacheable (retention : option Z) (m : Manager) (p : BlockPool) : Prop := {
  cb_enabled : m_enable_caching m = true;
  cb_hbs : 0 < hash_block_size p;
  cb_mod : block_size m mod hash_block_size p = 0;
  cb_gid : valid_group (kv_cache_group_id m);
  cb_spec : match kv_cache_spec m with
            | FullAttentionSpec _ | RSWASpec _ _ => block_size m = hash_block_size p
            | SlidingWindowSpec b w _ => b = block_size m ∧ 2 ≤ w ∧ 0 < cache_hit_alignment_tokens m ∧
                cache_hit_alignment_tokens m mod b = 0 ∧ ∀ r, retention = Some r → 0 ≤ r ∧ r mod b = 0
            | _ => True
            end;
}.

Lemma cacheable_same retention m p m' p' : config m' = config m → same_shape p p' → cacheable retention m p → cacheable retention m' p'.
Proof.
  intros (E1 & E2 & E3 & E4 & E5 & _)%config_fields Hsh [H0 H1 H2 H3 H4]. pose proof (cf_hash_size _ _ (sh_config _ _ Hsh)) as Eh.
  split; rewrite ?E1, ?E2, ?E3, ?E4, ?E5, <-?Eh; done.
Qed.

(** A request whose hashes can be used to cache blocks. *)
Definition request_ready `{PoolEnv} (req : Request) : Prop := wf_features (mm_features req) ∧ memo_ok sha256_rows req.

Lemma request_ready_strip `{PoolEnv} req req' :
  strip req' = strip req → memo_ok sha256_rows req' → request_ready req → request_ready req'.
Proof. intros Hs Hm [Hwf _]. split; [|done]. by destruct (strip_fields _ _ Hs) as (_ & -> & _). Qed.

Section Caching.
Context `{PoolEnv}.
Implicit Types (p : BlockPool) (m : Manager) (free : list ref) (others : ref → Z).

Lemma mask_ok m p retention a b bounds :
  cacheable retention m p → spec_ok (kv_cache_spec m) → 0 < block_size m → 0 ≤ a ≤ b →
  ∃ mask, reachable_block_mask m a b retention bounds = Ok mask ∧ ∀ l, mask = Some l → py_len l = b - a.
Proof.
  intros [_ _ _ _ Hs] Hok HB Hab. unfold reachable_block_mask. destruct (kv_cache_spec m) as [bs|bs w|bs w e|bs c|bs] eqn:Es; try by exists None.
  destruct Hs as (-> & Hw & Hal & HalB & Hret).
  destruct (swa_mask_spec a b (block_size m) w e (cache_hit_alignment_tokens m) (use_eagle m) retention bounds) as (mask & Hrun & Hm); try done.
  exists mask. split; [done|]. intros l ->. apply Hm.
Qed.

(** The call of [cache_full_blocks] is well-formed. *)
Lemma tracked_call others m p free retention req a b mask :
  group_inv others m p free → cacheable retention m p → enable_caching p = true → request_ready req →
  default 0 (num_cached_block m !! request_id req) = a → a < b → b ≤ py_len (blocks_of (request_id req) m) →
  b * block_size m ≤ py_len (block_hashes req) * hash_block_size p → (∀ l, mask = Some l → py_len l = b - a) →
  full_call p req (blocks_of (request_id req) m) a b (block_size m) (kv_cache_group_id m) mask.
Proof.
  intros [Hinv [Hval Hsz Hsp Hpart Hc Htr Hcw]] [_ Hh Hmod Hgid _] Hcache [Hwf Hmemo] Ha Hab Hb Hhash Hmask.
  assert (Ha0 : 0 ≤ a) by (rewrite <-Ha; apply Hc).
  assert (Hsel : ∀ i r, a ≤ i < b → blocks_of (request_id req) m !! Z.to_nat i = Some r → selected p mask (Z.to_nat (i - a)) r = true →
    ∃ j, r = Blk j ∧ j ≠ 0%nat ∧ has (pool_store p) r ∧ private p j).
  { intros i r Hi Hr Hs. destruct (Hval (request_id req) r) as (j & -> & Hhas); [by eapply list_elem_of_lookup_2|]. exists j.
    assert (Hj : j ≠ 0%nat).
    { unfold selected in Hs. apply andb_true_iff in Hs as [Hs _]. apply negb_true_iff in Hs. by apply (is_null_false p free j (proj1 (mi_pool _ _ _ _ Hinv))). }
    split_and!; [done|done|done|]. apply (Htr Hcache (request_id req) (Z.to_nat i)). split_and!; [done|done|lia]. }
  split; try done.
  - intros i r Hi Hr Hs. destruct (Hsel i r Hi Hr Hs) as (j & -> & Hj & Hhas & [_ Hno]). split; [by eauto|]. by rewrite Hno.
  - intros i i' r Hi Hi' Hr Hr' Hs _. destruct (Hsel i r Hi Hr Hs) as (j & -> & Hj & _ & [Hone _]).
    destruct (private_unique others m p free _ _ _ Hinv Hr Hj Hone) as (_ & _ & _ & Hu). apply Hu in Hr'. lia.
Qed.

(** What caching the blocks of a request does to its group. *)
Record cached_step others m p free (req : Request) (b : Z) req' m' p' : Prop := {
  cs_step : group_step others m p free 0 m' p';
  cs_blocks : ∀ rid, blocks_of rid m' = blocks_of rid m;
  cs_known : ∀ rid, default 0 (num_cached_block m' !! rid) =
    if decide (rid = request_id req) then Z.max (default 0 (num_cached_block m !! rid)) b else default 0 (num_cached_block m !! rid);
  cs_strip : strip req' = strip req;
  cs_ready : request_ready req';
}.

Lemma base_cache_step others m p free retention req nt :
  group_inv others m p free → cacheable retention m p → enable_caching p = true → request_ready req → 0 ≤ nt →
  nt / block_size m ≤ py_len (blocks_of (request_id req) m) →
  nt / block_size m * block_size m ≤ py_len (block_hashes req) * hash_block_size p →
  ∃ req' m' p', base_cache_blocks req nt retention m p = Ok (req', m', p') ∧
    cached_step others m p free req (nt / block_size m) req' m' p'.
Proof.
  intros Hg Hcb Hcache Hready Hnt Hb Hhash. pose proof Hg as [Hinv [Hval Hsz Hsp Hpart Hc Htr Hcw]]. set (rid := request_id req) in *.
  set (a := default 0 (num_cached_block m !! rid)). set (b := nt / block_size m) in *.
  assert (Ha0 : 0 ≤ a) by apply Hc. unfold base_cache_blocks. fold rid a b. destruct (Z.leb_spec b a) as [Hle|Hlt].
  { exists req, m, p. split; [done|]. split; try done.
    - split; [exists free; split; [done|lia]| |done]. split; [done|auto].
    - intros rid'. fold rid. case_decide; [subst rid'; fold a; lia|done]. }
  destruct (mask_ok m p retention a b ((num_prompt_tokens req - 1) ::
    (if shared_prefix_boundary req =? 0 then [] else [shared_prefix_boundary req])) Hcb Hsp Hsz) as (mask & -> & Hmask); [pose proof (Hc rid); lia|].
  cbn [mbind result_bind].
  pose proof (tracked_call others m p free retention req a b mask Hg Hcb Hcache Hready eq_refl Hlt Hb Hhash Hmask) as Hcall. fold rid in Hcall.
  destruct (cache_full_blocks_spec p req _ _ _ _ _ mask (proj2 (mi_pool _ _ _ _ Hinv)) Hcall) as (p' & req' & Hrun & Heff & Hs & Hmo & _).
  change (block_size (set_blocks ?r ?l m)) with (block_size m). change (kv_cache_group_id (set_blocks ?r ?l m)) with (kv_cache_group_id m).
  rewrite Hrun. cbn [mbind result_bind]. assert (Hid : request_id req' = rid) by (change (request_id (strip req') = request_id (strip req)); by rewrite Hs).
  rewrite Hid. set (m' := set_num_cached_block _ _). exists req', m', p'. split; [done|].
  pose proof (fe_recached _ _ _ _ _ _ _ _ _ Heff) as Hrc. pose proof (same_queue_shape _ _ (rc_queue _ _ Hrc) (rc_config _ _ Hrc)) as Hsh.
  assert (Hblk : ∀ rid', blocks_of rid' m' = blocks_of rid' m).
  { intros rid'. change (blocks_of rid' m') with (blocks_of rid' (set_blocks rid (blocks_of rid m) m)). rewrite blocks_of_set. by case_decide; [subst|]. }
  assert (Hkn : ∀ rid', num_cached_block m' !! rid' = if decide (rid' = rid) then Some b else num_cached_block m !! rid').
  { intros rid'. change (num_cached_block m' !! rid') with (<[rid := b]> (num_cached_block m) !! rid').
    destruct (decide (rid' = rid)) as [->|]; [by rewrite lookup_insert_eq|by rewrite lookup_insert_ne]. }
  assert (Hkeep : ∀ j, private p j → (∀ i : Z, ¬ cached_by p (blocks_of rid m) a b mask i j) → private p' j).
  { intros j [Hone Hno] Hnc. destruct (fe_frame _ _ _ _ _ _ _ _ _ Heff j Hnc) as (Hh & _). split; [by rewrite <-(sq_ref _ _ (rc_queue _ _ Hrc))|congruence]. }
  assert (Hinv' : mgr_inv others m' p' free).
  { pose proof (set_same_inv others m p' free rid (recached_mgr_inv others m p free p' Hrc Hinv)) as []. by split. }
  split; [|done| |done|by eapply request_ready_strip].
  2: { intros rid'. rewrite Hkn. fold rid. case_decide; [subst; simpl; fold a; lia|done]. }
  split; [|split; [done|]|done].
  - exists free. split; [|lia]. split; [done|]. split; [apply (mi_valid _ _ _ _ Hinv')|done|done|done| | |done].
    + intros rid'. rewrite Hkn. case_decide; [simpl; apply Z.div_pos; lia|apply Hc].
    + intros _ rid' k j (Hk & Hj & Hge). rewrite Hblk in Hk. rewrite Hkn in Hge.
      assert (Hun : uncached m rid' k j) by (split_and!; [done|done|]; destruct (decide (rid' = rid)) as [E|]; [rewrite E; change (a ≤ Z.of_nat k); simpl in Hge; lia|done]).
      pose proof (Htr Hcache rid' k j Hun) as Hpr. apply Hkeep; [done|]. intros i (Hi & Hr & _).
      destruct (private_unique others m p free rid' k j Hinv Hk Hj (proj1 Hpr)) as (_ & _ & H0 & Hu). destruct (decide (rid' = rid)) as [E|Hne].
      * rewrite <-E in Hr. apply Hu in Hr. simpl in Hge. clear -Hr Hi Hge Ha0. lia.
      * specialize (H0 rid ltac:(congruence)). apply list_elem_of_lookup_2, mult_pos in Hr. lia.
  - intros _ j Hj Hh Hoth Hpr. apply Hkeep; [done|]. intros i (Hi & Hr & _).
    destruct (private_unique others m p free rid _ j Hinv Hr Hj (proj1 Hpr)) as (Hz & _). lia.
Qed.

Lemma cache_step others m p free retention req nt :
  group_inv others m p free → cacheable retention m p → enable_caching p = true → request_ready req → 0 ≤ nt →
  nt / block_size m ≤ py_len (blocks_of (request_id req) m) →
  nt / block_size m * block_size m ≤ py_len (block_hashes req) * hash_block_size p →
  ∃ req' m' p', cache_blocks req nt retention m p = Ok (req', m', p') ∧
    cached_step others m p free req (nt / block_size m) req' m' p'.
Proof.
  intros Hg Hcb Hcache Hready Hnt Hb Hhash.
  destruct (base_cache_step others m p free retention req nt Hg Hcb Hcache Hready Hnt Hb Hhash) as (req' & m' & p' & Hrun & Hst).
  exists req', m', p'. split; [|done]. pose proof (gl_spec _ _ (gi_ok _ _ _ _ Hg)) as Hsp. pose proof (cb_spec _ _ _ Hcb) as Hfull.
  pose proof (gs_config _ _ _ _ _ _ _ (cs_step _ _ _ _ _ _ _ _ _ Hst)) as (_ & E & _)%config_fields.
  pose proof (cf_hash_size _ _ (sh_config _ _ (ca_shape _ _ _ (gs_calm _ _ _ _ _ _ _ (cs_step _ _ _ _ _ _ _ _ _ Hst))))) as Eh.
  unfold cache_blocks. destruct (kv_cache_spec m) as [b0|b0 w0|b0 w0 e0|b0 c0|b0]; try done; rewrite Hrun; cbn [mbind result_bind];
    by rewrite (proj2 (Z.eqb_eq (block_size m') (hash_block_size p'))) by congruence.
Qed.
End Caching.
