(* ===== verification/Coordinator.v ===== *)
(** * The KV cache coordinator

    [vllm/vllm/v1/core/kv_cache_coordinator.py]: one manager per group of
    attention layers over one shared block pool.  The coordinator passes every
    call to all managers in the order of the groups, keeps the two phases of a
    prefix-cache hit apart, and finds the hit all groups agree on.

    The managers refer to the coordinator's pool, so a traversal threads the
    pool through the managers. Configurations with Mamba or cross-attention
    groups are not covered; without a Mamba group [enable_partial_hash_hits] is
    [False] and hits are aligned to [scheduler_block_size]. *)

From S2P Require Import Prelude FreeQueue Request BlockHash BlockMap BlockPool BlockPoolSpec CacheHit SingleTypeManager.
Local Open Scope Z_scope.

(** ** Configuration *)

(** [KVCacheGroupSpec]; [spec_layout] stands for the class of the specification
    and the fields the managers do not read (heads, head size, data type), which
    take part in the comparison of specifications. *)
Record KVCacheGroupSpec : Type := mkGroup {
  group_spec : KVCacheSpec;
  spec_layout : Z;
  is_eagle_group : bool;
}.

(** [KVCacheConfig]; [needs_kv_cache_zeroing] depends on the data types of the
    layers. *)
Record KVCacheConfig : Type := mkConfig {
  num_blocks : Z;
  kv_cache_groups : list KVCacheGroupSpec;
  prefix_cache_retention_interval : option Z;
  needs_kv_cache_zeroing : bool;
}.

#[export] Instance KVCacheSpec_eq_dec : EqDecision KVCacheSpec.
Proof. solve_decision. Defined.

(** [isinstance(spec, FullAttentionSpec)] *)
Definition is_full_attention (s : KVCacheSpec) : bool :=
  match s with FullAttentionSpec _ | RSWASpec _ _ => true | _ => false end.

Definition is_sliding_window (s : KVCacheSpec) : bool :=
  match s with SlidingWindowSpec _ _ _ => true | _ => false end.

Definition prefix_cacheable (s : KVCacheSpec) : bool := negb (is_ring s).

Definition dcp_world_size_for_kv_cache_spec (spec : KVCacheSpec) (dcp_world_size : Z) : Z :=
  if dcp_world_size <=? 1 then 1 else if is_full_attention spec then dcp_world_size else 1.

Definition _validate_prefix_cache_retention_interval (interval : option Z) (sched_block_size : Z)
    (groups : list KVCacheGroupSpec) : result unit :=
  match interval with
  | None => Ok tt
  | Some r =>
      if negb (existsb (λ g, is_sliding_window (group_spec g)) groups)
      then if r =? 0 then Ok tt else Err ValueError
      else if (r <? 0) || negb (r mod sched_block_size =? 0) then Err ValueError else Ok tt
  end.

(** ** State *)

(** [SpecGroup]; the manager class is determined by the specification. *)
Record SpecGroup : Type := mkSpecGroup {
  sg_spec : KVCacheSpec;
  sg_layout : Z;
  sg_group_ids : list Z;
  sg_use_eagle : bool;
}.

(** The subclass, with the attributes only it has. *)
Inductive CoordinatorClass : Type :=
  | NoPrefixCache
  | Unitary
  | Hybrid (attention_groups : list SpecGroup) (full_attention_group_id : option Z).

Record Coordinator : Type := mkCoordinator {
  coordinator_class : CoordinatorClass;
  co_groups : list KVCacheGroupSpec;
  co_enable_caching : bool;
  co_scheduler_block_size : Z;
  num_reprefillable_tokens : Z;
  eagle_group_ids : gset Z;
  retention_interval : option Z;
  co_dcp_world_size : Z;
  co_pcp_world_size : Z;
  single_type_managers : list Manager;
  block_pool : BlockPool;
}.

Definition set_class (v : CoordinatorClass) (c : Coordinator) : Coordinator :=
  mkCoordinator v (co_groups c) (co_enable_caching c) (co_scheduler_block_size c) (num_reprefillable_tokens c)
    (eagle_group_ids c) (retention_interval c) (co_dcp_world_size c) (co_pcp_world_size c)
    (single_type_managers c) (block_pool c).

Definition set_managers (v : list Manager) (p : BlockPool) (c : Coordinator) : Coordinator :=
  mkCoordinator (coordinator_class c) (co_groups c) (co_enable_caching c) (co_scheduler_block_size c)
    (num_reprefillable_tokens c) (eagle_group_ids c) (retention_interval c) (co_dcp_world_size c)
    (co_pcp_world_size c) v p.

Definition set_use_eagle (v : bool) (m : Manager) : Manager :=
  mkManager (kv_cache_spec m) (block_size m) (m_enable_caching m) (kv_cache_group_id m)
    (scheduler_block_size m) (cache_hit_alignment_tokens m) (max_admission_blocks m)
    (record_new_block_ids m) v (new_block_ids m) (req_to_blocks m) (num_cached_block m)
    (partial_hit_reqs m) (pending_cow_copies m).

(** ** Construction *)

(** [KVCacheCoordinator.__init__] *)
Definition new_coordinator (config : KVCacheConfig) (max_model_len max_in_flight_tokens : Z)
    (use_eagle caching events : bool) (dcp pcp sched_block_size hash_bs : Z) (metrics : option (list MetricsCall))
    (num_prefill_lookahead : Z) : result Coordinator :=
  let groups := kv_cache_groups config in
  _ ← py_assert ((sched_block_size mod hash_bs =? 0) &&
                 forallb (λ g, sched_block_size mod spec_block_size (group_spec g) =? 0) groups);
  p ← new_block_pool (num_blocks config) caching hash_bs events metrics;
  let flagged : gset Z := list_to_set ((λ ig : nat * KVCacheGroupSpec, Z.of_nat ig.1) <$> filter (λ ig : nat * KVCacheGroupSpec, is_eagle_group ig.2 = true) (imap pair groups)) in
  let eagle := if use_eagle && bool_decide (flagged = ∅) then list_to_set (py_range 0 (py_len groups)) else flagged in
  _ ← (if caching && bool_decide (eagle ≠ ∅) && (sched_block_size <? num_prefill_lookahead)
       then Err ValueError else Ok tt);
  let managers :=
    imap (λ i g, get_manager_for_kv_cache_spec (group_spec g) max_in_flight_tokens max_model_len caching
                   (Z.of_nat i) sched_block_size (dcp_world_size_for_kv_cache_spec (group_spec g) dcp)
                   (needs_kv_cache_zeroing config)) groups in
  _ ← _validate_prefix_cache_retention_interval (prefix_cache_retention_interval config) sched_block_size groups;
  Ok (mkCoordinator NoPrefixCache groups caching sched_block_size (Z.max 0 (num_prefill_lookahead - 1)) eagle
        (prefix_cache_retention_interval config) dcp pcp managers p).

(** [UnitaryKVCacheCoordinator.__init__] after the base class *)
Definition init_unitary (hash_bs : Z) (c : Coordinator) : result Coordinator :=
  m ← py_get (single_type_managers c) 0;
  _ ← py_assert (negb (co_enable_caching c) || (hash_bs =? block_size m));
  _ ← py_assert (py_len (co_groups c) =? 1);
  Ok (set_class Unitary
        (set_managers (set_use_eagle (bool_decide (0 ∈ eagle_group_ids c)) m :: tail (single_type_managers c))
           (block_pool c) c)).

(** The inner loop of [verify_and_split_kv_cache_groups]: the group joins the
    first spec group with an equal specification, or starts one. *)
Fixpoint join_group (spec : KVCacheSpec) (layout i : Z) (use_eagle : bool) (gs : list SpecGroup) : list SpecGroup :=
  match gs with
  | [] => [mkSpecGroup spec layout [i] use_eagle]
  | g :: gs' =>
      if bool_decide (sg_spec g = spec) && (sg_layout g =? layout)
      then mkSpecGroup spec layout (sg_group_ids g ++ [i]) (sg_use_eagle g || use_eagle) :: gs'
      else g :: join_group spec layout i use_eagle gs'
  end.

Definition split_groups (eagle : gset Z) (groups : list KVCacheGroupSpec) : list SpecGroup :=
  foldl (λ gs ig, if prefix_cacheable (group_spec ig.2)
                  then join_group (group_spec ig.2) (spec_layout ig.2) (Z.of_nat ig.1)
                         (bool_decide (Z.of_nat ig.1 ∈ eagle)) gs
                  else gs) [] (imap pair groups).

(** [self.attention_groups.sort(key=...)]: a stable sort on a boolean. *)
Definition full_first (gs : list SpecGroup) : list SpecGroup :=
  filter (λ g, is_full_attention (sg_spec g) = true) gs ++ filter (λ g, is_full_attention (sg_spec g) = false) gs.

Definition in_eagle_group (gs : list SpecGroup) (i : Z) : bool :=
  existsb (λ g, sg_use_eagle g && bool_decide (i ∈ sg_group_ids g)) gs.

Definition verify_and_split_kv_cache_groups (c : Coordinator) : result Coordinator :=
  let gs := split_groups (eagle_group_ids c) (co_groups c) in
  _ ← py_assert (negb (bool_decide (gs = [])));
  let gs := full_first gs in
  full_id ← match gs with
            | g :: _ => if is_full_attention (sg_spec g) then Some <$> py_get (sg_group_ids g) 0 else Ok None
            | [] => Err IndexError
            end;
  let managers := imap (λ i m, if in_eagle_group gs (Z.of_nat i) then set_use_eagle true m else m) (single_type_managers c) in
  Ok (set_class (Hybrid gs full_id) (set_managers managers (block_pool c) c)).

(** [HybridKVCacheCoordinator.__init__] after the base class *)
Definition init_hybrid (hash_bs : Z) (c : Coordinator) : result Coordinator :=
  _ ← py_assert (forallb (λ mg : Manager * KVCacheGroupSpec,
        negb (prefix_cacheable (group_spec mg.2)) || (block_size mg.1 mod hash_bs =? 0)) (zip (single_type_managers c) (co_groups c)));
  _ ← py_assert (co_pcp_world_size c =? 1);
  _ ← (if 1 <? co_dcp_world_size c
       then py_assert (forallb (λ g, is_full_attention (group_spec g)) (co_groups c)) else Ok tt);
  verify_and_split_kv_cache_groups c.

Definition get_kv_cache_coordinator (config : KVCacheConfig) (max_model_len max_in_flight_tokens : Z)
    (use_eagle caching events : bool) (dcp pcp sched_block_size hash_bs : Z) (metrics : option (list MetricsCall))
    (num_prefill_lookahead : Z) : result Coordinator :=
  c ← new_coordinator config max_model_len max_in_flight_tokens use_eagle caching events dcp pcp
        sched_block_size hash_bs metrics num_prefill_lookahead;
  if negb caching then Ok c
  else if py_len (kv_cache_groups config) =? 1 then init_unitary hash_bs c
  else init_hybrid hash_bs c.

(** ** Calls to all managers *)

(** [for i, manager in enumerate(self.single_type_managers): ...] *)
Fixpoint each_manager {A} (f : Z → Manager → BlockPool → result (A * Manager * BlockPool))
    (i : Z) (ms : list Manager) (p : BlockPool) : result (list A * list Manager * BlockPool) :=
  match ms with
  | [] => Ok ([], [], p)
  | m :: ms' =>
      '(a, m', p) ← f i m p;
      '(l, ms', p) ← each_manager f (i + 1) ms' p;
      Ok (a :: l, m' :: ms', p)
  end.

(** A call that returns [None]. *)
Definition proc (f : Manager → BlockPool → result (Manager * BlockPool)) (m : Manager) (p : BlockPool) :
    result (unit * Manager * BlockPool) :=
  '(m', p') ← f m p; Ok (tt, m', p').

Definition for_managers {A} (f : Z → Manager → BlockPool → result (A * Manager * BlockPool)) (c : Coordinator) :
    result (list A * Coordinator) :=
  '(l, ms, p) ← each_manager f 0 (single_type_managers c) (block_pool c);
  Ok (l, set_managers ms p c).

Definition coord_get_num_blocks_to_allocate (rid : string) (num_tokens : Z) (new_computed_blocks : list (list ref))
    (total_computed_tokens num_local_computed_tokens : Z) (apply_admission_cap : bool) (c : Coordinator) : result Z :=
  foldM (λ n im,
    bs ← py_get new_computed_blocks (Z.of_nat im.1);
    k ← get_num_blocks_to_allocate rid num_tokens bs total_computed_tokens num_local_computed_tokens
          apply_admission_cap im.2 (block_pool c);
    Ok (n + k)) 0 (imap pair (single_type_managers c)).

Section Operations.
Context `{PoolEnv}.

Definition coord_allocate_new_computed_blocks (rid : string) (new_computed_blocks : list (list ref))
    (num_local_computed_tokens num_external_computed_tokens : Z) (c : Coordinator) : result Coordinator :=
  if existsb (λ m, bool_decide (is_Some (num_cached_block m !! rid))) (single_type_managers c) then
    _ ← py_assert (forallb (λ bs, py_len bs =? 0) new_computed_blocks); Ok c
  else
    '(_, c) ← for_managers (λ i m p, bs ← py_get new_computed_blocks i;
                proc (add_local_computed_blocks rid bs num_local_computed_tokens num_external_computed_tokens) m p) c;
    if 0 <? num_external_computed_tokens then
      '(_, c) ← for_managers (λ _, proc (allocate_external_computed_blocks rid num_local_computed_tokens
                                            num_external_computed_tokens)) c;
      Ok c
    else Ok c.

Definition coord_allocate_new_blocks (rid : string) (num_tokens : Z) (c : Coordinator) :
    result (list (list ref) * Coordinator) :=
  for_managers (λ _, allocate_new_blocks rid num_tokens) c.

(** [_align_cacheable] without partial hits *)
Definition _align_cacheable (num_tokens : Z) (c : Coordinator) : Z :=
  num_tokens / co_scheduler_block_size c * co_scheduler_block_size c.

(** [num_tokens_to_cache] of a manager, in the base class and in the hybrid
    coordinator. *)
Definition num_tokens_to_cache (num_computed_tokens : Z) (m : Manager) (c : Coordinator) : Z :=
  match coordinator_class c with
  | Hybrid _ _ =>
      let cached_num_computed_tokens := _align_cacheable num_computed_tokens c in
      if use_eagle m && (0 <? cached_num_computed_tokens) then
        let num_finalized := Z.max 0 (num_computed_tokens - num_reprefillable_tokens c) in
        Z.min num_finalized (_align_cacheable num_finalized c + block_size m)
      else cached_num_computed_tokens
  | _ => Z.max 0 (num_computed_tokens - num_reprefillable_tokens c)
  end.

(** The managers in turn; the request carries its memoised embedding hashes
    along. *)
Fixpoint cache_each (num_computed_tokens : Z) (c : Coordinator) (req : Request) (ms : list Manager) (p : BlockPool) :
    result (Request * list Manager * BlockPool) :=
  match ms with
  | [] => Ok (req, [], p)
  | m :: ms' =>
      '(req, m', p) ← cache_blocks req (num_tokens_to_cache num_computed_tokens m c) (retention_interval c) m p;
      '(req, ms', p) ← cache_each num_computed_tokens c req ms' p;
      Ok (req, m' :: ms', p)
  end.

Definition coord_cache_blocks (req : Request) (num_computed_tokens : Z) (c : Coordinator) :
    result (Request * Coordinator) :=
  '(req, ms, p) ← cache_each num_computed_tokens c req (single_type_managers c) (block_pool c);
  Ok (req, set_managers ms p c).

Definition coord_free (rid : string) (c : Coordinator) : result Coordinator :=
  '(_, c) ← for_managers (λ _, proc (manager_free rid)) c; Ok c.

Definition coord_remove_skipped_blocks (rid : string) (processed_computed_tokens : Z) (num_prompt_tokens : option Z)
    (c : Coordinator) : result Coordinator :=
  '(_, c) ← for_managers (λ _, proc (remove_skipped_blocks rid processed_computed_tokens num_prompt_tokens)) c; Ok c.
End Operations.

Definition coord_pop_blocks_for_free (rid : string) (c : Coordinator) : list ref * Coordinator :=
  let popped := pop_blocks_for_free rid <$> single_type_managers c in
  (concat (popped.*1), set_managers (popped.*2) (block_pool c) c).

Definition coord_get_num_common_prefix_blocks (rid : string) (c : Coordinator) : list Z * Coordinator :=
  match coordinator_class c with
  | NoPrefixCache => (replicate (length (single_type_managers c)) 0, c)
  | _ =>
      let counted := (λ m, get_num_common_prefix_blocks rid m (block_pool c)) <$> single_type_managers c in
      (counted.*1, set_managers (counted.*2) (block_pool c) c)
  end.

(** [manager.req_to_blocks.get(request_id) or []] *)
Definition coord_get_blocks (rid : string) (c : Coordinator) : list (list ref) :=
  blocks_of rid <$> single_type_managers c.

(** ** The hit all groups agree on *)

(** [find_longest_cache_hit] of the manager class of a specification *)
Definition manager_find (hl : BlockHashList) (max_length : Z) (gids : list Z) (p : BlockPool) (spec : KVCacheSpec)
    (drop_eagle_block : bool) (alignment_tokens dcp pcp : Z) : result (list (list ref) * Z) :=
  match spec with
  | FullAttentionSpec _ | RSWASpec _ _ => full_find_longest_cache_hit hl max_length gids p spec drop_eagle_block alignment_tokens dcp
  | SlidingWindowSpec _ _ _ => swa_find_longest_cache_hit hl max_length gids p spec drop_eagle_block alignment_tokens dcp pcp
  | ChunkedLocalAttentionSpec _ _ =>
      chunked_find_longest_cache_hit hl max_length gids p spec drop_eagle_block alignment_tokens dcp pcp
  | CircularBufferSpec _ => Ok (ring_find_longest_cache_hit gids)
  end.

(** The local variables of the loop. *)
Record Search : Type := mkSearch {
  curr_hit_length : Z;
  longest_hit_length : Z;
  hit_blocks_by_group : list (option (list ref));
  hit_length_by_group : list Z;
  eagle_verified : gset nat;
}.

(** [for group_id, blocks in zip(group_ids, hit_blocks): ...] *)
Fixpoint record_hits (gids : list Z) (blocks : list (list ref)) (len : Z)
    (by_group : list (option (list ref)) * list Z) : list (option (list ref)) * list Z :=
  match gids, blocks with
  | g :: gids', bs :: blocks' =>
      record_hits gids' blocks' len
        (<[Z.to_nat g := Some bs]> by_group.1, <[Z.to_nat g := len]> by_group.2)
  | _, _ => by_group
  end.

(** The body of the [for] loop for the [idx]-th attention group. *)
Definition hybrid_step (hl : BlockHashList) (max_cache_hit_length : Z) (c : Coordinator)
    (s : Search) (ig : nat * SpecGroup) : result Search :=
  let '(idx, g) := ig in
  first_group_id ← py_get (sg_group_ids g) 0;
  m ← py_get (single_type_managers c) first_group_id;
  cached_blocks ← py_get (hit_blocks_by_group s) first_group_id;
  prev_length ← py_get (hit_length_by_group s) first_group_id;
  if is_full_attention (sg_spec g) && bool_decide (is_Some cached_blocks) then
    Ok (mkSearch (Z.min (curr_hit_length s) prev_length) (longest_hit_length s)
          (hit_blocks_by_group s) (hit_length_by_group s) (eagle_verified s))
  else
    let drop_eagle_block := sg_use_eagle g && bool_decide (idx ∉ eagle_verified s) in
    let max_length := if drop_eagle_block then Z.min (curr_hit_length s + block_size m) max_cache_hit_length
                      else curr_hit_length s in
    '(hit_blocks, new_hit_length) ←
      manager_find hl max_length (sg_group_ids g) (block_pool c) (sg_spec g) drop_eagle_block
        (co_scheduler_block_size c) (dcp_world_size_for_kv_cache_spec (sg_spec g) (co_dcp_world_size c))
        (co_pcp_world_size c);
    let verified := if drop_eagle_block then {[idx]} ∪ eagle_verified s
                    else if new_hit_length <? curr_hit_length s then ∅ else eagle_verified s in
    let '(blocks, lengths) := record_hits (sg_group_ids g) hit_blocks new_hit_length
                                (hit_blocks_by_group s, hit_length_by_group s) in
    Ok (mkSearch new_hit_length (Z.max (longest_hit_length s) new_hit_length) blocks lengths verified).

(** [while True: ...]; the second component is [hit_length]. *)
Fixpoint hybrid_loop (fuel : nat) (hl : BlockHashList) (max_cache_hit_length : Z) (simple : bool)
    (gs : list SpecGroup) (c : Coordinator) (hit_length : Z) (s : Search) : result (Search * Z) :=
  match fuel with
  | O => Err OutOfFuel
  | S fuel' =>
      s ← foldM (hybrid_step hl max_cache_hit_length c)
            (mkSearch hit_length (longest_hit_length s) (hit_blocks_by_group s) (hit_length_by_group s) (eagle_verified s))
            (imap pair gs);
      if hit_length <=? curr_hit_length s then Ok (s, hit_length)
      else if simple then Ok (s, curr_hit_length s)
      else hybrid_loop fuel' hl max_cache_hit_length simple gs c (curr_hit_length s) s
  end.

(** [blocks if blocks is not None else []] for every group *)
Definition found (by_group : list (option (list ref))) : list (list ref) := (λ b, default [] b) <$> by_group.

(** The final truncation of the full-attention groups: the blocks of one group
    and of all groups of one specification. *)
Definition truncate_one (n : Z) (blocks : list (option (list ref))) (g : Z) : list (option (list ref)) :=
  alter (fmap (λ bs, py_upto bs n)) (Z.to_nat g) blocks.

Definition truncate_group (c : Coordinator) (hit_length : Z) (blocks : list (option (list ref))) (g : SpecGroup) :
    result (list (option (list ref))) :=
  if is_full_attention (sg_spec g) then
    g0 ← py_get (sg_group_ids g) 0;
    m ← py_get (single_type_managers c) g0;
    Ok (foldl (truncate_one (cdiv hit_length (block_size m))) blocks (sg_group_ids g))
  else Ok blocks.

Definition hybrid_find_longest_cache_hit (gs : list SpecGroup) (hl : BlockHashList) (max_cache_hit_length : Z)
    (c : Coordinator) : result (list (list ref) * Z * Z) :=
  let num_groups := length (co_groups c) in
  let simple := match gs with [g; _] => is_full_attention (sg_spec g) | _ => false end in
  '(s, hit_length) ←
    hybrid_loop (S (Z.to_nat max_cache_hit_length)) hl max_cache_hit_length simple gs c max_cache_hit_length
      (mkSearch max_cache_hit_length 0 (replicate num_groups None) (replicate num_groups 0) ∅);
  blocks ← foldM (truncate_group c hit_length) (hit_blocks_by_group s) gs;
  Ok (found blocks, hit_length, longest_hit_length s - hit_length).

Definition coord_find_longest_cache_hit (hl : BlockHashList) (max_cache_hit_length : Z) (c : Coordinator) :
    result (list (list ref) * Z * Z) :=
  match coordinator_class c with
  | NoPrefixCache => Ok (replicate (length (single_type_managers c)) [], 0, 0)
  | Unitary =>
      m ← py_get (single_type_managers c) 0;
      '(hit_blocks, hit_length) ←
        manager_find hl max_cache_hit_length [0] (block_pool c) (kv_cache_spec m)
          (bool_decide (0 ∈ eagle_group_ids c)) (block_size m)
          (dcp_world_size_for_kv_cache_spec (kv_cache_spec m) (co_dcp_world_size c)) (co_pcp_world_size c);
      Ok (hit_blocks, hit_length, 0)
  | Hybrid gs _ => hybrid_find_longest_cache_hit gs hl max_cache_hit_length c
  end.

(** [find_longest_cache_hit_per_group] *)
Definition find_longest_cache_hit_per_group (gs : list SpecGroup) (hl : BlockHashList) (max_cache_hit_length : Z)
    (c : Coordinator) : result (list (list ref) * list Z) :=
  let num_groups := length (co_groups c) in
  '(blocks, lengths) ←
    foldM (λ acc g,
      '(blocks, group_hit) ←
        manager_find hl max_cache_hit_length (sg_group_ids g) (block_pool c) (sg_spec g) (sg_use_eagle g)
          (co_scheduler_block_size c) (dcp_world_size_for_kv_cache_spec (sg_spec g) (co_dcp_world_size c))
          (co_pcp_world_size c);
      Ok (record_hits (sg_group_ids g) blocks group_hit acc))
      (replicate num_groups None, replicate num_groups 0) gs;
  Ok (found blocks, lengths).
