(* ===== verification/CoordinatorHit.v ===== *)
(** * The hit all groups agree on: correctness

    The search of [HybridKVCacheCoordinator.find_longest_cache_hit]: the look-ups
    of the manager classes under one specification, the loop that lowers the
    candidate length until no group lowers it further, its termination, and the
    groups that the constructor forms. *)

From S2P Require Import Prelude FreeQueue Request BlockHash BlockMap BlockPool BlockPoolSpec CacheHit SingleTypeManager Coordinator.
Local Open Scope Z_scope.

(** ** One specification for all manager classes *)

(** The first block a hit of [n] blocks needs: everything for full attention,
    the window before the hit, or the chunk the hit ends in. *)
Definition first_needed (spec : KVCacheSpec) (B n : Z) : Z :=
  match spec with
  | SlidingWindowSpec _ window _ => Z.max 0 (n - _contiguous_blocks_for_hit window B false)
  | ChunkedLocalAttentionSpec _ chunk => n * B / chunk * chunk / B
  | _ => 0
  end.

Section Groups.
Context (p : BlockPool) (hs : list bytes) (al : Z).
Implicit Types (spec : KVCacheSpec) (gids : list Z) (B L : Z).

(** The hash of the [k]-th block of [B] tokens. *)
Definition hash_at B : Z → option bytes := level_hash hs (hash_block_size p) B.

(** A hit of [L] tokens can be used by the groups: all blocks it needs are
    cached. *)
Definition fits spec gids B L : Prop :=
  ∀ k, first_needed spec B (L / B) ≤ k < L / B → block_cached p gids (hash_at B) k.

(** Blocks for a hit: cached blocks, or null blocks where none is needed. *)
Definition group_table spec B L (g : Z) (bs : list ref) : Prop :=
  length bs = Z.to_nat (L / B) ∧
  ∀ k r, bs !! k = Some r → entry p (hash_at B) (first_needed spec B (L / B)) g k r.

(** What the coordinator relies on when it calls a look-up. *)
Record find_ok spec gids B (drop : bool) (max_length : Z) : Prop := {
  fo_call : full_call_ok p gids B al max_length;
  fo_align : al mod B = 0;
  fo_hashes : max_length / B ≤ py_len hs * hash_block_size p / B;
  fo_spec : match spec with
            | SlidingWindowSpec _ window _ => 2 ≤ window
            | ChunkedLocalAttentionSpec _ chunk => 0 < chunk ∧ chunk mod B = 0 ∧ B = al ∧ drop = false
            | CircularBufferSpec _ => False
            | _ => True
            end;
}.

(** A usable hit with its blocks. *)
Record hit_found spec gids B L (blocks : list (list ref)) : Prop := {
  hf_pos : 0 ≤ L;
  hf_align : L mod al = 0;
  hf_fits : fits spec gids B L;
  hf_table : Forall2 (group_table spec B L) gids blocks;
}.

(** No aligned hit up to [max_length] that fits is longer than [L]. *)
Definition longest_fit spec gids B (max_length L : Z) : Prop :=
  ∀ L', 0 ≤ L' ≤ max_length → L' mod al = 0 → fits spec gids B L' → L' ≤ L.

Lemma aligned_blocks B L : 0 < B → al mod B = 0 → 0 < al → L mod al = 0 → L = L / B * B.
Proof.
  intros HB HalB Hal HL. apply mod_mul_div; [done|]. apply Z.mod_divide; [lia|].
  etransitivity; apply Z.mod_divide; [lia|exact HalB|lia|exact HL].
Qed.

(** Full attention *)
Lemma full_find_spec spec gids dcp drop max_length :
  let B := group_block_size spec dcp in
  is_full_attention spec = true → find_ok spec gids B drop max_length →
  ∃ blocks L, full_find_longest_cache_hit (RawHashes hs) max_length gids p spec drop al dcp = Ok (blocks, L) ∧
    hit_found spec gids B L blocks ∧ L ≤ (if drop then Z.max 0 (max_length - B) else max_length) ∧
    (drop = false → longest_fit spec gids B max_length L).
Proof.
  intros B Hfull [Hok HalB Hlen _]. assert (Hspec : full_spec spec = true) by (by destruct spec).
  assert (Hfirst : ∀ n, first_needed spec B n = 0) by (by destruct spec).
  destruct (full_cache_hit_spec p gids hs spec al dcp max_length drop Hspec Hok) as (hit0 & blocks & L & Hrun & Hlp & HL & Hb & Hm & Ht).
  fold B in Hlp, HL, Ht. destruct Hok as [Hc Hg Hne Hh HB HBh Hmax Hal _]. pose proof (mod_zero_ge al B Hal HB HalB) as Hge.
  rewrite Z.min_r in Hlp by done. destruct Hlp as [Hu Hb0 [Hpc _] Hmaxi].
  pose proof (aligned_blocks B L HB HalB Hal Hm) as HLB. pose proof (mod_mul_div hit0 B HB Hu) as H0B.
  assert (HL0 : L ≤ hit0 ∧ (drop = true → L ≤ Z.max 0 (hit0 - B))).
  { unfold full_hit_length in HL. rewrite Z.min_r in HL by done.
    set (x := if drop && (0 <? hit0) then hit0 - B else hit0) in *. pose proof (Z.mod_pos_bound x al Hal).
    unfold x in *. destruct drop; simpl in *; [|lia]. destruct (Z.ltb_spec 0 hit0); lia. }
  exists blocks, L. split; [done|]. split_and!.
  - split; [lia|done| |].
    + intros k Hk. rewrite Hfirst in Hk. destruct (Hpc k) as (h & Hlev & Hch); [nia|]. by exists h.
    + eapply Forall2_impl; [exact Ht|]. simpl. intros g c [Hlc Hent]. split; [rewrite Hlc; f_equal; rewrite HLB at 1; by apply cdiv_mul|].
      intros k r Hk. left. pose proof (lookup_lt_Some _ _ _ Hk) as Hlt. rewrite Hlc, HLB, cdiv_mul in Hlt by done.
      destruct (Hent k r Hk) as (t & h & Ht1 & Ht2 & Ht3 & Hlev & Hr). exists h. split; [|done].
      unfold hash_at. rewrite level_hash_fine by done. assert (t = (Z.of_nat k + 1) * B) as <- by nia. done.
  - destruct drop; [|lia]. destruct HL0 as [_ HL0]. specialize (HL0 eq_refl). lia.
  - intros ->. intros L' HL' Hm' Hfit. pose proof (aligned_blocks B L' HB HalB Hal Hm') as HLB'.
    destruct (decide (L' ≤ hit0)) as [Hle|Hgt].
    + assert (L = hit0 - hit0 mod al) as -> by done. pose proof (Z.div_mod hit0 al ltac:(lia)). pose proof (Z.div_mod L' al ltac:(lia)).
      pose proof (Z.mod_pos_bound hit0 al Hal). assert (L' / al ≤ hit0 / al) by (apply Z.div_le_mono; lia). nia.
    + exfalso. apply (Hmaxi L'); [by rewrite HLB'; apply Z.mod_mul; lia|lia|]. split.
      * intros k Hk. destruct (Hfit k) as (h & Hlev & Hch); [rewrite Hfirst; lia|]. by exists h.
      * rewrite HLB', Z.mod_mul by lia. done.
Qed.

(** Sliding window *)
Lemma swa_find_spec B window extra gids drop max_length :
  let spec := SlidingWindowSpec B window extra in
  find_ok spec gids B drop max_length →
  ∃ blocks L, swa_find_longest_cache_hit (RawHashes hs) max_length gids p spec drop al 1 1 = Ok (blocks, L) ∧
    hit_found spec gids B L blocks ∧ L ≤ (if drop then Z.max 0 (max_length - B) else max_length) ∧
    (drop = false → longest_fit spec gids B max_length L).
Proof.
  intros spec [Hok HalB Hlen Hw]. destruct (swa_cache_hit_spec p gids hs B window extra al max_length drop) as (n & blocks & Hrun & Hhit); [by split|].
  destruct Hok as [Hc Hg Hne Hh HB HBh Hmax Hal _]. destruct Hhit as [[Hm Hu] Hb Ht Hmaxi].
  set (need := _contiguous_blocks_for_hit window B false).
  assert (Hneed : _contiguous_blocks_for_hit window B drop = need + if drop then 1 else 0).
  { unfold need, _contiguous_blocks_for_hit. destruct drop; lia. }
  rewrite Hneed in *. pose proof (contiguous_pos window B false HB Hw) as Hpos. fold need in Hpos.
  pose proof (Z.mul_div_le max_length B HB). assert (Hn : n * B / B = n) by (apply Z.div_mul; lia).
  exists blocks, (n * B). split; [done|]. split_and!.
  - split; [nia|done| |].
    + intros k. rewrite Hn. simpl. fold need. intros Hk. destruct Hu as [->|[Htr Hwin]]; [lia|]. apply Hwin. destruct drop; lia.
    + eapply Forall2_impl; [exact Ht|]. simpl. intros g c [Hlc Hent]. unfold group_table. rewrite Hn. split; [done|].
      intros k r Hk. destruct (Hent k r Hk) as [?|[-> Hlt]]; [by left|right]. split; [done|]. simpl. fold need. destruct drop; lia.
  - destruct drop; [|nia]. destruct Hu as [->|[Htr _]]; nia.
  - intros ->. intros L' HL' Hm' Hfit. pose proof (aligned_blocks B L' HB HalB Hal Hm') as HLB'.
    enough (L' / B ≤ n) by nia. apply Hmaxi; [|by left]. split; [by rewrite <-HLB'|].
    destruct (decide (L' / B = 0)) as [|Hnz]; [by left|right]. assert (0 ≤ L' / B) by (apply Z.div_pos; lia). split.
    + assert (L' / B ≤ max_length / B) by (apply Z.div_le_mono; lia). lia.
    + intros k Hk. apply Hfit. simpl. fold need. lia.
Qed.

(** Chunked local attention *)
Lemma chunked_find_spec B chunk gids max_length :
  let spec := ChunkedLocalAttentionSpec B chunk in
  find_ok spec gids B false max_length →
  ∃ blocks L, chunked_find_longest_cache_hit (RawHashes hs) max_length gids p spec false al 1 1 = Ok (blocks, L) ∧
    hit_found spec gids B L blocks ∧ L ≤ max_length ∧ longest_fit spec gids B max_length L.
Proof.
  intros spec [Hok HalB Hlen (Hch & Hcm & E & _)]. rewrite <-E in *.
  destruct (chunked_cache_hit_spec p gids hs B chunk max_length Hok Hch Hcm Hlen) as (n & blocks & Hrun & Hb & Hchunk & Ht & Hk & Hstop).
  destruct Hok as [Hc Hg Hne Hh HB HBh Hmax Hal _]. assert (Hn : n * B / B = n) by (apply Z.div_mul; lia).
  assert (0 ≤ max_length / chunk * chunk) by (pose proof (Z.div_pos max_length chunk Hmax Hch); nia).
  exists blocks, (n * B). split; [done|]. split_and!; [|lia|].
  - split; [lia|by rewrite <-E; apply Z.mod_mul; lia| |].
    + intros k. rewrite Hn. simpl. rewrite Hchunk. apply Hk.
    + eapply Forall2_impl; [exact Ht|]. simpl. intros g c [Hlc Hent]. unfold group_table. rewrite Hn. split; [done|]. simpl. by rewrite Hchunk.
  - intros L' HL' Hm' Hfit. rewrite <-E in Hm'. pose proof (mod_mul_div L' B HB Hm') as HLB'. destruct (decide (L' ≤ n * B)) as [|Hgt]; [done|exfalso].
    assert (Hsame : L' / chunk * chunk = max_length / chunk * chunk).
    { f_equal. pose proof (Z.div_mod max_length chunk ltac:(lia)). pose proof (Z.mod_pos_bound max_length chunk Hch).
      symmetry. apply (Z.div_unique L' chunk (max_length / chunk) (L' - max_length / chunk * chunk)); [left; lia|lia]. }
    assert (L' / B ≤ max_length / B) by (apply Z.div_le_mono; lia).
    apply Hstop; [nia|]. apply Hfit. simpl. rewrite <-HLB', Hsame. split; [|nia].
    rewrite <-Hn at 1. apply Z.div_le_mono; lia.
Qed.

(** Every manager class *)
Lemma manager_find_spec spec gids dcp drop max_length :
  let B := group_block_size spec (dcp_world_size_for_kv_cache_spec spec dcp) in
  find_ok spec gids B drop max_length →
  ∃ blocks L, manager_find (RawHashes hs) max_length gids p spec drop al (dcp_world_size_for_kv_cache_spec spec dcp) 1 = Ok (blocks, L) ∧
    hit_found spec gids B L blocks ∧ L ≤ (if drop then Z.max 0 (max_length - B) else max_length) ∧
    (drop = false → longest_fit spec gids B max_length L).
Proof.
  intros B Hok. assert (Hd : is_full_attention spec = false → dcp_world_size_for_kv_cache_spec spec dcp = 1 ∧ B = spec_block_size spec).
  { intros Hf. unfold B, dcp_world_size_for_kv_cache_spec. rewrite Hf. by destruct (dcp <=? 1). }
  unfold manager_find. destruct spec as [b|b w|b w e|b ch|b]; simpl in Hd; try (by apply full_find_spec).
  - destruct (Hd eq_refl) as [-> HB]. rewrite HB in *. by apply swa_find_spec.
  - destruct (Hd eq_refl) as [-> HB]. rewrite HB in *. pose proof (fo_spec _ _ _ _ _ Hok) as (_ & _ & _ & ->).
    destruct (chunked_find_spec b ch gids max_length Hok) as (blocks & L & ? & ? & ? & ?). eauto 10.
  - by destruct (fo_spec _ _ _ _ _ Hok).
Qed.
End Groups.

(** ** The loop *)

(** The block size of a group's managers. *)
Definition sg_block_size (c : Coordinator) (g : SpecGroup) : Z :=
  group_block_size (sg_spec g) (dcp_world_size_for_kv_cache_spec (sg_spec g) (co_dcp_world_size c)).

(** A group of the coordinator. *)
Record group_ok (c : Coordinator) (g : SpecGroup) : Prop := {
  go_ids : sg_group_ids g ≠ [];
  go_range : ∀ i, i ∈ sg_group_ids g → 0 ≤ i < py_len (co_groups c);
  go_manager : ∀ i, i ∈ sg_group_ids g → ∃ m, single_type_managers c !! Z.to_nat i = Some m ∧ block_size m = sg_block_size c g;
  go_size : 0 < sg_block_size c g;
  go_hash : sg_block_size c g mod hash_block_size (block_pool c) = 0;
  go_align : co_scheduler_block_size c mod sg_block_size c g = 0;
  go_spec : match sg_spec g with
            | SlidingWindowSpec _ window _ => 2 ≤ window
            | ChunkedLocalAttentionSpec _ chunk =>
                0 < chunk ∧ chunk mod sg_block_size c g = 0 ∧ sg_block_size c g = co_scheduler_block_size c ∧ sg_use_eagle g = false
            | CircularBufferSpec _ => False
            | _ => True
            end;
}.

(** The groups as the constructor forms them. *)
Record groups_ok (c : Coordinator) (gs : list SpecGroup) : Prop := {
  so_hash : 0 < hash_block_size (block_pool c);
  so_align : 0 < co_scheduler_block_size c;
  so_pcp : co_pcp_world_size c = 1;
  so_valid : py_len (co_groups c) ≤ 2 ^ 32;
  so_some : gs ≠ [];
  so_groups : ∀ g, g ∈ gs → group_ok c g;
  so_disjoint : NoDup (concat (sg_group_ids <$> gs));
}.

(** A search for a request whose first [M] tokens are hashed. *)
Record search_ok (c : Coordinator) (gs : list SpecGroup) (hs : list bytes) (M : Z) : Prop := {
  so_static : groups_ok c gs;
  so_cache : cache_inv (block_pool c);
  so_max : 0 ≤ M;
  so_hashes : M / hash_block_size (block_pool c) ≤ py_len hs;
}.

Lemma hashed_blocks M B hbs n : 0 < hbs → 0 < B → B mod hbs = 0 → M / hbs ≤ n → M / B ≤ n * hbs / B.
Proof.
  intros Hh HB Hm Hle. pose proof (mod_mul_div B hbs Hh Hm) as E. rewrite E. set (q := B / hbs) in *. assert (0 < q) by nia.
  rewrite Z.div_mul_cancel_r by lia. rewrite (Z.mul_comm q hbs), <-Z.div_div by lia. apply Z.div_le_mono; lia.
Qed.

Lemma group_find_ok c gs hs M g drop L :
  search_ok c gs hs M → g ∈ gs → 0 ≤ L ≤ M → (drop = true → sg_use_eagle g = true) →
  find_ok (block_pool c) hs (co_scheduler_block_size c) (sg_spec g) (sg_group_ids g) (sg_block_size c g) drop L.
Proof.
  intros [[Hh Ha Hp Hv _ Hgs _] Hc HM Hhs] Hin HL Hdrop. destruct (Hgs g Hin) as [Hne Hr _ HB Hbh Hal Hsp]. split.
  - split; try done; [|lia|by left]. apply Forall_forall. intros i Hi. specialize (Hr i Hi). unfold valid_group. lia.
  - done.
  - apply hashed_blocks; [done..|]. etransitivity; [|exact Hhs]. apply Z.div_le_mono; lia.
  - destruct (sg_spec g); try done. destruct Hsp as (? & ? & ? & E). split_and!; try done. destruct drop; [|done].
    rewrite Hdrop in E by done. done.
Qed.

(** Writing the hit of a group into the lists indexed by group. *)
Lemma record_hits_spec gids blocks L by_group :
  NoDup gids → Forall (λ i, 0 ≤ i ∧ (Z.to_nat i < length by_group.1)%nat ∧ (Z.to_nat i < length by_group.2)%nat) gids →
  length blocks = length gids →
  let res := record_hits gids blocks L by_group in
  length res.1 = length by_group.1 ∧ length res.2 = length by_group.2 ∧
  (∀ k i bs, gids !! k = Some i → blocks !! k = Some bs →
     res.1 !! Z.to_nat i = Some (Some bs) ∧ res.2 !! Z.to_nat i = Some L) ∧
  (∀ j, 0 ≤ j → j ∉ gids → res.1 !! Z.to_nat j = by_group.1 !! Z.to_nat j ∧ res.2 !! Z.to_nat j = by_group.2 !! Z.to_nat j).
Proof.
  intros Hnd. revert blocks by_group. induction Hnd as [|g gids Hg Hnd IH]; intros blocks [b1 b2] Hr Hlen; simpl in *.
  { destruct blocks; [|done]. simpl. split_and!; try done. }
  destruct blocks as [|bs blocks]; [done|]. injection Hlen as Hlen. apply Forall_cons in Hr as [(Hg0 & Hg1 & Hg2) Hr]. simpl in *.
  destruct (IH blocks (<[Z.to_nat g := Some bs]> b1, <[Z.to_nat g := L]> b2)) as (Hl1 & Hl2 & Hin & Hout); [|done|].
  { eapply Forall_impl; [exact Hr|]. simpl. intros i. by rewrite !length_insert. }
  simpl in *. rewrite !length_insert in *. split_and!; [done|done|..].
  - intros [|k] i bs' Hi Hb; simpl in *; [|by apply (Hin k)]. injection Hi as <-. injection Hb as <-.
    destruct (Hout g Hg0 Hg) as [-> ->]. by rewrite !list_lookup_insert_eq.
  - intros j Hj0 Hj. rewrite elem_of_cons in Hj. destruct (Hout j Hj0) as [-> ->]; [tauto|].
    rewrite !list_lookup_insert_ne; [done|..]; intros ?; apply Hj; left; lia.
Qed.

Section Loop.
Context (c : Coordinator) (gs : list SpecGroup) (hs : list bytes) (M : Z).
Context (Hok : search_ok c gs hs M).
Abbreviation p := (block_pool c).
Abbreviation al := (co_scheduler_block_size c).
Abbreviation B := (sg_block_size c).
Implicit Types (g : SpecGroup) (s : Search) (L : Z).

Definition group_fits g L : Prop := fits p hs (sg_spec g) (sg_group_ids g) (B g) L.

(** A length all groups can use. *)
Definition common L : Prop := 0 ≤ L ≤ M ∧ L mod al = 0 ∧ ∀ g, g ∈ gs → group_fits g L.

Definition eagle_free : Prop := ∀ g, g ∈ gs → sg_use_eagle g = false.

(** The hit of [L] tokens recorded for a group. *)
Record recorded s g L : Prop := {
  re_pos : 0 ≤ L;
  re_align : L mod al = 0;
  re_fits : group_fits g L;
  re_common : eagle_free → ∀ L', common L' → L' ≤ L;
  re_longest : L ≤ longest_hit_length s;
  re_lists : ∀ i, i ∈ sg_group_ids g → hit_length_by_group s !! Z.to_nat i = Some L ∧
    ∃ bs, hit_blocks_by_group s !! Z.to_nat i = Some (Some bs) ∧ group_table p hs (sg_spec g) (B g) L i bs;
}.

Definition unknown s g : Prop := ∀ i, i ∈ sg_group_ids g → hit_blocks_by_group s !! Z.to_nat i = Some None.

(** Between two groups of a pass that started at [h0]. *)
Record pass (h0 : Z) (visited : list SpecGroup) s : Prop := {
  pa_blocks : length (hit_blocks_by_group s) = length (co_groups c);
  pa_lengths : length (hit_length_by_group s) = length (co_groups c);
  pa_curr : 0 ≤ curr_hit_length s ≤ h0;
  pa_align : curr_hit_length s mod al = 0 ∨ visited = [] ∧ ∀ g, g ∈ gs → unknown s g;
  pa_longest : visited ≠ [] → curr_hit_length s ≤ longest_hit_length s;
  pa_common : eagle_free → ∀ L, common L → L ≤ curr_hit_length s;
  pa_known : ∀ g, g ∈ gs → unknown s g ∨ ∃ L, recorded s g L;
  pa_visited : ∀ g, g ∈ visited → ∃ L, recorded s g L ∧ curr_hit_length s ≤ L ∧ (is_full_attention (sg_spec g) = false → L ≤ h0);
  pa_last : ∀ g, last visited = Some g → is_full_attention (sg_spec g) = false → recorded s g (curr_hit_length s);
}.

Lemma recorded_length s g L L' : g ∈ gs → recorded s g L → recorded s g L' → L = L'.
Proof.
  intros Hin [_ _ _ _ _ H1] [_ _ _ _ _ H2]. pose proof (go_ids _ _ (so_groups _ _ (so_static _ _ _ _ Hok) g Hin)) as Hne.
  destruct (sg_group_ids g) as [|i ids] eqn:E; [done|]. destruct (H1 i) as [E1 _]; [left|]. destruct (H2 i) as [E2 _]; [left|]. congruence.
Qed.

(** The groups do not share ids. *)
Lemma ids_disjoint g g' i : g ∈ gs → g' ∈ gs → i ∈ sg_group_ids g → i ∈ sg_group_ids g' → g = g'.
Proof.
  pose proof (so_disjoint _ _ (so_static _ _ _ _ Hok)) as Hnd. clear Hok. revert Hnd. induction gs as [|x l IH]; simpl; [by intros _ ?%elem_of_nil|].
  intros (Hx & Hxl & Hl)%NoDup_app [->|Hg]%elem_of_cons [->|Hg']%elem_of_cons Hi Hi'; [done|..|by apply IH].
  - exfalso. apply (Hxl i Hi). apply list_elem_of_In, in_concat. exists (sg_group_ids g'). split; apply list_elem_of_In; [by apply list_elem_of_fmap_2|done].
  - exfalso. apply (Hxl i Hi'). apply list_elem_of_In, in_concat. exists (sg_group_ids g). split; apply list_elem_of_In; [by apply list_elem_of_fmap_2|done].
Qed.

Lemma ids_nodup g : g ∈ gs → NoDup (sg_group_ids g).
Proof.
  pose proof (so_disjoint _ _ (so_static _ _ _ _ Hok)) as Hnd. clear Hok. revert Hnd. induction gs as [|x l IH]; simpl; [by intros _ ?%elem_of_nil|].
  intros (Hx & _ & Hl)%NoDup_app [->|Hg]%elem_of_cons; [done|by apply IH].
Qed.

(** After a look-up the group's hit is recorded; what was known of the others stays. *)
Lemma recorded_after s g L blocks verified :
  g ∈ gs → length (hit_blocks_by_group s) = length (co_groups c) → length (hit_length_by_group s) = length (co_groups c) →
  hit_found p hs al (sg_spec g) (sg_group_ids g) (B g) L blocks →
  (eagle_free → ∀ L', common L' → L' ≤ L) →
  let by_group := record_hits (sg_group_ids g) blocks L (hit_blocks_by_group s, hit_length_by_group s) in
  let s' := mkSearch L (Z.max (longest_hit_length s) L) by_group.1 by_group.2 verified in
  length (hit_blocks_by_group s') = length (co_groups c) ∧ length (hit_length_by_group s') = length (co_groups c) ∧
  recorded s' g L ∧
  (∀ g' L', g' ∈ gs → g' ≠ g → recorded s g' L' → recorded s' g' L') ∧
  (∀ g', g' ∈ gs → g' ≠ g → unknown s g' → unknown s' g').
Proof.
  intros Hin Hb Hl [H1 H2 H3 H4] Hcom by_group s'. pose proof (so_groups _ _ (so_static _ _ _ _ Hok) g Hin) as Hg.
  destruct (record_hits_spec (sg_group_ids g) blocks L (hit_blocks_by_group s, hit_length_by_group s)) as (R1 & R2 & R3 & R4).
  { by apply ids_nodup. }
  { apply Forall_forall. intros i Hi. pose proof (go_range _ _ Hg i Hi). unfold py_len in *. simpl. lia. }
  { symmetry. by eapply Forall2_length. }
  fold by_group in R1, R2, R3, R4. simpl in R1, R2, R4. split_and!; [by rewrite <-Hb|by rewrite <-Hl|..].
  - split; [done|done|done|done|simpl; lia|]. intros i [k Hk]%list_elem_of_lookup.
    destruct (Forall2_lookup_l _ _ _ _ _ H4 Hk) as (bs & Hbs & Ht). destruct (R3 k i bs Hk Hbs). simpl. eauto.
  - intros g' L' Hin' Hne [E1 E2 E3 E4 E5 E6]. split; [done|done|done|done|simpl; lia|]. intros i Hi.
    pose proof (go_range _ _ (so_groups _ _ (so_static _ _ _ _ Hok) g' Hin') i Hi). unfold s'. cbn [hit_length_by_group hit_blocks_by_group]. destruct (R4 i) as [-> ->]; [lia| |by apply E6].
    intros Hi'. by apply Hne, (ids_disjoint g' g i).
  - intros g' Hin' Hne Hu i Hi. pose proof (go_range _ _ (so_groups _ _ (so_static _ _ _ _ Hok) g' Hin') i Hi). unfold s'. cbn [hit_length_by_group hit_blocks_by_group]. destruct (R4 i) as [-> _]; [lia| |by apply Hu].
    intros Hi'. by apply Hne, (ids_disjoint g' g i).
Qed.

Lemma visited_in visited g todo x : gs = visited ++ g :: todo → x ∈ visited → x ∈ gs ∧ x ≠ g.
Proof.
  intros E Hx. assert (Hg : g ∈ gs) by (rewrite E; apply elem_of_app; right; left).
  pose proof (go_ids _ _ (so_groups _ _ (so_static _ _ _ _ Hok) g Hg)) as Hne. pose proof (so_disjoint _ _ (so_static _ _ _ _ Hok)) as Hnd.
  split; [rewrite E; apply elem_of_app; by left|]. intros ->. rewrite E, fmap_app, concat_app in Hnd. apply NoDup_app in Hnd as (_ & Hno & _).
  destruct (sg_group_ids g) as [|i ids] eqn:Ei; [done|]. apply (Hno i).
  - apply list_elem_of_In, in_concat. exists (sg_group_ids g). split; apply list_elem_of_In; [by apply list_elem_of_fmap_2|]. rewrite Ei. left.
  - simpl. rewrite Ei. left.
Qed.

Lemma known_not_unknown s g L : g ∈ gs → recorded s g L → ¬ unknown s g.
Proof.
  intros Hin Hr Hu. pose proof (go_ids _ _ (so_groups _ _ (so_static _ _ _ _ Hok) g Hin)) as Hne.
  destruct (sg_group_ids g) as [|i ids] eqn:E; [done|]. assert (Hi : i ∈ sg_group_ids g) by (rewrite E; left).
  destruct (re_lists _ _ _ Hr i Hi) as [_ (bs & Hb & _)]. rewrite (Hu i Hi) in Hb. done.
Qed.

(** A full-attention group that is already known only lowers the candidate. *)
Lemma step_known h0 visited g todo s L :
  gs = visited ++ g :: todo → pass h0 visited s → recorded s g L → is_full_attention (sg_spec g) = true →
  pass h0 (visited ++ [g])
    (mkSearch (Z.min (curr_hit_length s) L) (longest_hit_length s) (hit_blocks_by_group s) (hit_length_by_group s) (eagle_verified s)).
Proof.
  intros E Hp Hr Hfull. destruct Hp as [P1 P2 P3 P4 P5 P6 P7 P8 P9]. pose proof Hr as [R1 R2 R3 R4 R5 R6].
  assert (Hin : g ∈ gs) by (rewrite E; apply elem_of_app; right; left).
  assert (Hmono : ∀ g' L' x, recorded s g' L' →
    recorded (mkSearch x (longest_hit_length s) (hit_blocks_by_group s) (hit_length_by_group s) (eagle_verified s)) g' L').
  { intros g' L' x []. by split. }
  split; simpl; try done.
  - lia.
  - left. destruct P4 as [Ha|[_ Hu]]; [|by destruct (known_not_unknown s g L Hin Hr (Hu g Hin))]. by destruct (Z.min_spec (curr_hit_length s) L) as [[_ -> ]|[_ -> ]].
  - intros _. lia.
  - intros He L' HL'. specialize (P6 He L' HL'). specialize (R4 He L' HL'). lia.
  - intros g' Hg'. destruct (P7 g' Hg') as [?|[L' ?]]; [by left|right; eauto].
  - intros g' [Hg'| ->%list_elem_of_singleton]%elem_of_app.
    + destruct (P8 g' Hg') as (L' & HL' & ? & ?). exists L'. split_and!; [by apply Hmono|lia|done].
    + exists L. split_and!; [by apply Hmono|lia|by rewrite Hfull].
  - intros g'. rewrite last_snoc. intros [= <-]. by rewrite Hfull.
Qed.

(** A look-up replaces the candidate by the hit it finds. *)
Lemma step_lookup h0 visited g todo s L blocks verified :
  gs = visited ++ g :: todo → pass h0 visited s →
  hit_found p hs al (sg_spec g) (sg_group_ids g) (B g) L blocks → L ≤ curr_hit_length s →
  (eagle_free → ∀ L', common L' → L' ≤ L) →
  let by_group := record_hits (sg_group_ids g) blocks L (hit_blocks_by_group s, hit_length_by_group s) in
  pass h0 (visited ++ [g]) (mkSearch L (Z.max (longest_hit_length s) L) by_group.1 by_group.2 verified).
Proof.
  intros E [P1 P2 P3 P4 P5 P6 P7 P8 P9] Hf HL Hcom by_group. assert (Hin : g ∈ gs) by (rewrite E; apply elem_of_app; right; left).
  destruct (recorded_after s g L blocks verified Hin P1 P2 Hf Hcom) as (A1 & A2 & A3 & A4 & A5). fold by_group in A1, A2, A3, A4, A5.
  pose proof (hf_pos _ _ _ _ _ _ _ _ Hf). split; simpl; try done.
  - lia.
  - left. apply Hf.
  - intros _. lia.
  - intros g' Hg'. destruct (decide (sg_group_ids g' = sg_group_ids g)) as [Ei|Hne].
    + assert (g' = g) as ->; [|right; eauto]. pose proof (go_ids _ _ (so_groups _ _ (so_static _ _ _ _ Hok) g Hin)) as Hn.
      destruct (sg_group_ids g) as [|i ids] eqn:Eg; [done|]. apply (ids_disjoint g' g i); [done|done|rewrite Ei; left|rewrite Eg; left].
    + assert (g' ≠ g) by congruence. destruct (P7 g' Hg') as [?|[L' ?]]; [left; by apply A5|right; eauto].
  - intros g' [Hg'| ->%list_elem_of_singleton]%elem_of_app.
    + destruct (P8 g' Hg') as (L' & HL' & ? & ?). destruct (visited_in visited g todo g' E Hg') as [? ?].
      exists L'. split_and!; [by apply A4|lia|done].
    + exists L. split_and!; [done|lia|lia].
  - intros g'. rewrite last_snoc. intros [= <-] _. done.
Qed.

Lemma hybrid_step_spec h0 visited idx g todo s :
  gs = visited ++ g :: todo → h0 ≤ M → pass h0 visited s →
  ∃ s', hybrid_step (RawHashes hs) M c s (idx, g) = Ok s' ∧ pass h0 (visited ++ [g]) s'.
Proof.
  intros E Hh0 Hp. assert (Hin : g ∈ gs) by (rewrite E; apply elem_of_app; right; left).
  pose proof (so_groups _ _ (so_static _ _ _ _ Hok) g Hin) as Hg. destruct (sg_group_ids g) as [|i ids] eqn:Ei; [by destruct (go_ids _ _ Hg)|].
  assert (Hi : i ∈ sg_group_ids g) by (rewrite Ei; left). pose proof (go_range _ _ Hg i Hi) as Hr. unfold py_len in Hr.
  destruct (go_manager _ _ Hg i Hi) as (m & Hm & HBm).
  destruct (lookup_lt_is_Some_2 (hit_blocks_by_group s) (Z.to_nat i)) as [cb Hcb]; [rewrite (pa_blocks _ _ _ Hp); lia|].
  destruct (lookup_lt_is_Some_2 (hit_length_by_group s) (Z.to_nat i)) as [pl Hpl]; [rewrite (pa_lengths _ _ _ Hp); lia|].
  unfold hybrid_step. rewrite Ei. change (py_get (i :: ids) 0) with (Ok i). cbn [mbind result_bind].
  rewrite !py_get_nonneg, Hm, Hcb, Hpl by lia. cbn [unwrap mbind result_bind]. rewrite <-Ei.
  destruct (is_full_attention (sg_spec g) && bool_decide (is_Some cb)) eqn:Eb.
  - apply andb_true_iff in Eb as [Hfull [bs ->]%bool_decide_eq_true].
    destruct (pa_known _ _ _ Hp g Hin) as [Hu|[L HL]]; [by rewrite (Hu i Hi) in Hcb|].
    destruct (re_lists _ _ _ HL i Hi) as [EL _]. rewrite EL in Hpl. injection Hpl as <-. eexists. split; [done|]. by eapply step_known.
  - set (drop := sg_use_eagle g && bool_decide (idx ∉ eagle_verified s)). pose proof (pa_curr _ _ _ Hp) as Hc.
    pose proof (go_size _ _ Hg) as HB.
    set (ml := if drop then Z.min (curr_hit_length s + block_size m) M else curr_hit_length s).
    assert (Hml : 0 ≤ ml ≤ M) by (unfold ml; rewrite HBm; destruct drop; lia).
    destruct (manager_find_spec p hs al (sg_spec g) (sg_group_ids g) (co_dcp_world_size c) drop ml) as (blocks & L & Hrun & Hf & HL & Hmax).
    { apply (group_find_ok c gs hs M g drop ml Hok Hin Hml). unfold drop. by destruct (sg_use_eagle g). }
    rewrite (so_pcp _ _ (so_static _ _ _ _ Hok)), Hrun. cbn [mbind result_bind].
    destruct (record_hits _ _ _ _) as [bl le] eqn:Erec. eexists. split; [done|].
    assert (HLc : L ≤ curr_hit_length s).
    { unfold ml in HL. rewrite HBm in HL. fold (B g) in HL. destruct drop; lia. }
    pose proof (step_lookup h0 visited g todo s L blocks) as Hst. simpl in Hst. rewrite Erec in Hst. apply Hst; try done.
    intros He L' HL'. assert (Hd : drop = false) by (unfold drop; by rewrite (He g Hin)). apply (Hmax Hd).
    + unfold ml. rewrite Hd. split; [apply HL'|]. by apply (pa_common _ _ _ Hp).
    + apply HL'.
    + by apply HL'.
Qed.

Lemma hybrid_pass_spec h0 s :
  h0 ≤ M → pass h0 [] s →
  ∃ s', foldM (hybrid_step (RawHashes hs) M c) s (imap pair gs) = Ok s' ∧ pass h0 gs s'.
Proof.
  intros Hh0 Hp. assert (E2 : (imap pair gs).*2 = gs) by (rewrite fmap_imap; clear; induction gs as [|x l IH]; [done|]; simpl; f_equal; exact IH).
  destruct (foldM_ind (hybrid_step (RawHashes hs) M c) (λ d s, pass h0 (d.*2) s) (imap pair gs) s Hp) as (s' & Hrun & Hp').
  - intros d [idx g] todo s1 El Hp1. destruct (hybrid_step_spec h0 (d.*2) idx g (todo.*2) s1) as (s2 & ? & ?); [|done..|].
    + rewrite <-E2, El, fmap_app. done.
    + exists s2. split; [done|]. by rewrite fmap_app.
  - rewrite E2 in Hp'. eauto.
Qed.

(** When the loop ends, every group can use [hit], and the groups other than
    full attention were looked up for exactly this length. *)
Record agreed s (hit : Z) : Prop := {
  ag_blocks : length (hit_blocks_by_group s) = length (co_groups c);
  ag_bound : 0 ≤ hit ≤ M;
  ag_align : hit mod al = 0;
  ag_longest : hit ≤ longest_hit_length s;
  ag_groups : ∀ g, g ∈ gs → ∃ L, recorded s g L ∧ hit ≤ L ∧ (is_full_attention (sg_spec g) = false → L = hit);
  ag_common : eagle_free → ∀ L, common L → L ≤ hit;
}.

Lemma pass_agreed h0 s hit :
  h0 ≤ M → pass h0 gs s → hit = curr_hit_length s →
  (∀ g, g ∈ gs → is_full_attention (sg_spec g) = false → hit = h0 ∨ last gs = Some g) → agreed s hit.
Proof.
  intros Hh0 [P1 P2 P3 P4 P5 P6 P7 P8 P9] -> Hwhy. pose proof (so_some _ _ (so_static _ _ _ _ Hok)) as Hne. split; try done.
  - lia.
  - destruct P4 as [?|[-> _]]; done.
  - by apply P5.
  - intros g Hg. destruct (P8 g Hg) as (L & HL & Hle & Hnf). exists L. split_and!; [done|done|]. intros Hf.
    destruct (Hwhy g Hg Hf) as [E|Hlast]; [specialize (Hnf Hf); lia|]. by eapply recorded_length; [..|by apply P9].
Qed.

Lemma hybrid_loop_spec fuel simple hit s :
  (Z.to_nat hit < fuel)%nat → hit ≤ M →
  pass hit [] (mkSearch hit (longest_hit_length s) (hit_blocks_by_group s) (hit_length_by_group s) (eagle_verified s)) →
  (simple = true → ∃ g1 g2, gs = [g1; g2] ∧ is_full_attention (sg_spec g1) = true) →
  ∃ s' hit', hybrid_loop fuel (RawHashes hs) M simple gs c hit s = Ok (s', hit') ∧ agreed s' hit'.
Proof.
  intros Hfuel. revert hit s Hfuel. induction fuel as [|fuel IH]; intros hit s Hfuel HM Hp Hsimple; [lia|]. simpl.
  destruct (hybrid_pass_spec hit _ HM Hp) as (s' & -> & Hp'). cbn [mbind result_bind]. pose proof (pa_curr _ _ _ Hp') as Hc.
  destruct (Z.leb_spec hit (curr_hit_length s')) as [Hle|Hlt].
  - exists s', hit. split; [done|]. apply (pass_agreed hit s'); [done|done|lia|]. intros; by left.
  - destruct simple.
    + exists s', (curr_hit_length s'). split; [done|]. apply (pass_agreed hit s'); [done|done|done|].
      destruct (Hsimple eq_refl) as (g1 & g2 & E & Hf). rewrite E. intros g [->|[->|?%elem_of_nil]%elem_of_cons]%elem_of_cons Hnf; [congruence|by right|done].
    + apply IH; [lia|lia| |done]. destruct Hp' as [P1 P2 P3 P4 P5 P6 P7 P8 P9]. split; simpl; try done; [lia| | |].
      * destruct P4 as [?|[E _]]; [by left|]. by destruct (so_some _ _ (so_static _ _ _ _ Hok)).
      * intros g Hg. destruct (P7 g Hg) as [?|[L []]]; [by left|right; exists L; by split].
      * by intros g ?%elem_of_nil.
Qed.

(** The blocks of one group are cut to the final length. *)
Lemma truncate_ids n ids blocks :
  NoDup ids → (∀ i, i ∈ ids → 0 ≤ i) →
  let res := foldl (truncate_one n) blocks ids in
  length res = length blocks ∧
  ∀ j, 0 ≤ j → res !! Z.to_nat j = if decide (j ∈ ids) then (fmap (λ bs, py_upto bs n)) <$> blocks !! Z.to_nat j else blocks !! Z.to_nat j.
Proof.
  intros Hnd. revert blocks. induction Hnd as [|i ids Hi Hnd IH]; intros blocks Hpos; simpl; [done|].
  destruct (IH (truncate_one n blocks i)) as [Hl Hj]; [intros; apply Hpos; by right|].
  assert (0 ≤ i) by (apply Hpos; left). split; [rewrite Hl; apply length_alter|]. intros j Hj0. rewrite Hj by done. unfold truncate_one.
  destruct (decide (j = i)) as [->|Hne].
  - rewrite decide_False by done. rewrite decide_True by left. by rewrite list_lookup_alter_eq.
  - rewrite list_lookup_alter_ne by lia. destruct (decide (j ∈ ids)); [by rewrite decide_True by (by right)|].
    rewrite decide_False; [done|]. rewrite elem_of_cons. tauto.
Qed.

Lemma table_cut g L hit i bs :
  g ∈ gs → is_full_attention (sg_spec g) = true → 0 ≤ hit ≤ L → hit mod al = 0 →
  group_table p hs (sg_spec g) (B g) L i bs → group_table p hs (sg_spec g) (B g) hit i (py_upto bs (cdiv hit (B g))).
Proof.
  intros Hin Hfull Hhit Ha [Hl Ht]. pose proof (so_groups _ _ (so_static _ _ _ _ Hok) g Hin) as Hg. pose proof (go_size _ _ Hg) as HB.
  pose proof (aligned_blocks al (B g) hit HB (go_align _ _ Hg) (so_align _ _ (so_static _ _ _ _ Hok)) Ha) as E.
  assert (Hc : cdiv hit (B g) = hit / B g) by (rewrite E at 1; by apply cdiv_mul). rewrite Hc.
  assert (hit / B g ≤ L / B g) by (apply Z.div_le_mono; lia). assert (0 ≤ hit / B g) by (apply Z.div_pos; lia).
  assert (Hu : py_upto bs (hit / B g) = take (Z.to_nat (hit / B g)) bs).
  { unfold py_upto, slice_bound, py_len. destruct (Z.ltb_spec (hit / B g) 0); [lia|]. f_equal. lia. }
  rewrite Hu. assert (Hf : ∀ n, first_needed (sg_spec g) (B g) n = 0) by (by destruct (sg_spec g)).
  split; [rewrite length_take; lia|]. intros k r [Hk _]%lookup_take_Some. rewrite Hf. rewrite <-(Hf (L / B g)). by apply Ht.
Qed.

(** The lists after the truncation hold the blocks of the agreed hit. *)
Lemma truncate_spec s hit :
  agreed s hit →
  ∃ blocks, foldM (truncate_group c hit) (hit_blocks_by_group s) gs = Ok blocks ∧ length blocks = length (co_groups c) ∧
    ∀ g i, g ∈ gs → i ∈ sg_group_ids g →
      ∃ bs, blocks !! Z.to_nat i = Some (Some bs) ∧ group_table p hs (sg_spec g) (B g) hit i bs.
Proof.
  intros Hag. pose proof (ag_bound _ _ Hag) as Hb. pose proof (ag_align _ _ Hag) as Ha.
  destruct (foldM_ind (truncate_group c hit) (λ d bl, length bl = length (co_groups c) ∧
    ∀ g i, g ∈ gs → i ∈ sg_group_ids g →
      (g ∉ d → bl !! Z.to_nat i = hit_blocks_by_group s !! Z.to_nat i) ∧
      (g ∈ d → ∃ bs, bl !! Z.to_nat i = Some (Some bs) ∧ group_table p hs (sg_spec g) (B g) hit i bs)) gs (hit_blocks_by_group s))
    as (bl & Hrun & Hl & Hall).
  - split; [apply Hag|]. intros g i _ _. split; [done|by intros ?%elem_of_nil].
  - intros d g todo bl E [Hl Hbl]. assert (Hin : g ∈ gs) by (rewrite E; apply elem_of_app; right; left).
    assert (Hnd : g ∉ d) by (intros Hd; by destruct (visited_in d g todo g E Hd)).
    destruct (ag_groups _ _ Hag g Hin) as (L & HL & Hle & Hnf). pose proof (so_groups _ _ (so_static _ _ _ _ Hok) g Hin) as Hg.
    unfold truncate_group. destruct (is_full_attention (sg_spec g)) eqn:Hfull.
    + destruct (sg_group_ids g) as [|i0 ids] eqn:Ei; [by destruct (go_ids _ _ Hg)|].
      assert (Hi0 : i0 ∈ sg_group_ids g) by (rewrite Ei; left). destruct (go_manager _ _ Hg i0 Hi0) as (m & Hm & HBm).
      pose proof (go_range _ _ Hg i0 Hi0). change (py_get (i0 :: ids) 0) with (Ok i0). cbn [mbind result_bind].
      rewrite py_get_nonneg, Hm by lia. cbn [unwrap mbind result_bind]. rewrite <-Ei, HBm.
      destruct (truncate_ids (cdiv hit (B g)) (sg_group_ids g) bl) as [Hl' Hbl']; [by apply ids_nodup|intros i Hi; by apply (go_range _ _ Hg)|].
      eexists. split; [done|]. split; [by rewrite Hl'|]. intros g' i Hg' Hi.
      pose proof (go_range _ _ (so_groups _ _ (so_static _ _ _ _ Hok) g' Hg') i Hi). rewrite Hbl' by lia. destruct (decide (i ∈ sg_group_ids g)) as [Hig|Hig].
      * assert (g' = g) as -> by (by apply (ids_disjoint g' g i)). split; [intros Hn; exfalso; apply Hn, elem_of_app; right; left|intros _].
        destruct (Hbl g i Hin Hig) as [Hsame _]. rewrite (Hsame Hnd). destruct (re_lists _ _ _ HL i Hig) as [_ (bs & -> & Ht)].
        eexists. split; [done|]. by apply (table_cut g L); [..|lia| |].
      * assert (g' ≠ g) by congruence. destruct (Hbl g' i Hg' Hi) as [Q1 Q2]. split; [intros Hn; apply Q1; intros ?; apply Hn, elem_of_app; by left|].
        intros [?| ->%list_elem_of_singleton]%elem_of_app; [by apply Q2|done].
    + exists bl. split; [done|]. split; [done|]. intros g' i Hg' Hi. destruct (Hbl g' i Hg' Hi) as [Q1 Q2]. split; [intros Hn; apply Q1; intros ?; apply Hn, elem_of_app; by left|].
      intros [?| ->%list_elem_of_singleton]%elem_of_app; [by apply Q2|]. rewrite (Q1 Hnd). destruct (re_lists _ _ _ HL i Hi) as [_ (bs & -> & Ht)].
      rewrite <-(Hnf eq_refl). eauto.
  - exists bl. split_and!; [done|done|]. intros g i Hg Hi. by apply Hall.
Qed.

Lemma fits_down g L hit :
  is_full_attention (sg_spec g) = true → 0 < B g → hit ≤ L → group_fits g L → group_fits g hit.
Proof.
  intros Hf HB Hle Hfit k. assert (E : ∀ n, first_needed (sg_spec g) (B g) n = 0) by (by destruct (sg_spec g)). rewrite E. intros Hk.
  apply Hfit. rewrite E. assert (hit / B g ≤ L / B g) by (apply Z.div_le_mono; lia). lia.
Qed.

Lemma hybrid_hit_spec :
  ∃ blocks hit longest,
    hybrid_find_longest_cache_hit gs (RawHashes hs) M c = Ok (blocks, hit, longest - hit) ∧
    0 ≤ hit ≤ M ∧ hit mod al = 0 ∧ hit ≤ longest ∧ length blocks = length (co_groups c) ∧
    (∀ g, g ∈ gs → group_fits g hit) ∧
    (∀ g i, g ∈ gs → i ∈ sg_group_ids g →
       ∃ bs, blocks !! Z.to_nat i = Some bs ∧ group_table p hs (sg_spec g) (B g) hit i bs) ∧
    (eagle_free → ∀ L, common L → L ≤ hit).
Proof.
  pose proof (so_max _ _ _ _ Hok) as HM. unfold hybrid_find_longest_cache_hit. set (simple := match gs with [g; _] => is_full_attention (sg_spec g) | _ => false end).
  set (n := length (co_groups c)). set (s0 := mkSearch M 0 (replicate n None) (replicate n 0) ∅).
  destruct (hybrid_loop_spec (S (Z.to_nat M)) simple M s0) as (s & hit & -> & Hag); [lia|lia| | |].
  - assert (Hu : ∀ g, g ∈ gs → ∀ l, unknown (mkSearch M l (replicate n None) (replicate n 0) ∅) g).
    { intros g Hg l i Hi. pose proof (go_range _ _ (so_groups _ _ (so_static _ _ _ _ Hok) g Hg) i Hi) as Hr. unfold py_len in Hr. simpl. apply lookup_replicate. split; [done|unfold n; lia]. }
    split; simpl; try done.
    + apply length_replicate.
    + apply length_replicate.
    + right. split; [done|]. intros g Hg. by apply Hu.
    + intros _ L [HL _]. lia.
    + intros g Hg. left. by apply Hu.
    + by intros g ?%elem_of_nil.
  - unfold simple. destruct gs as [|g1 [|g2 [|]]]; try done. intros Hf. eauto.
  - cbn [mbind result_bind]. destruct (truncate_spec s hit Hag) as (blocks & -> & Hlen & Hbl). cbn [mbind result_bind].
    exists (found blocks), hit, (longest_hit_length s). destruct Hag as [A1 A2 A3 A4 A5 A6]. split_and!; try done.
    + lia.
    + lia.
    + unfold found. by rewrite length_fmap.
    + intros g Hg. destruct (A5 g Hg) as (L & HL & Hle & Hnf). pose proof (re_fits _ _ _ HL) as Hfit. destruct (is_full_attention (sg_spec g)) eqn:Hf.
      * eapply fits_down; [done| |exact Hle|done]. apply (go_size _ _ (so_groups _ _ (so_static _ _ _ _ Hok) g Hg)).
      * by rewrite <-(Hnf eq_refl).
    + intros g i Hg Hi. destruct (Hbl g i Hg Hi) as (bs & Hbs & Ht). exists bs. split; [|done]. unfold found. by rewrite list_lookup_fmap, Hbs.
Qed.
End Loop.

(** C11: The search of the hybrid coordinator terminates and never raises.  The
    length it returns is aligned to the scheduler block size, not longer than
    allowed, and usable by every group: all blocks that a hit of this length
    needs are cached in all members of the group, and the returned lists hold
    exactly these blocks, null blocks where the window or chunk does not reach.
    The number of uncached common tokens is not negative.  Without EAGLE groups
    the hit is the longest one: every aligned length that all groups can use is
    at most the one returned. *)
Theorem hybrid_cache_hit_correct c gs hs M :
  search_ok c gs hs M →
  ∃ blocks hit longest,
    hybrid_find_longest_cache_hit gs (RawHashes hs) M c = Ok (blocks, hit, longest - hit) ∧
    0 ≤ hit ≤ M ∧ hit mod co_scheduler_block_size c = 0 ∧ hit ≤ longest ∧ length blocks = length (co_groups c) ∧
    (∀ g, g ∈ gs → group_fits c hs g hit) ∧
    (∀ g i, g ∈ gs → i ∈ sg_group_ids g →
       ∃ bs, blocks !! Z.to_nat i = Some bs ∧ group_table (block_pool c) hs (sg_spec g) (sg_block_size c g) hit i bs) ∧
    (eagle_free gs → ∀ L, common c gs hs M L → L ≤ hit).
Proof. intros Hok. by apply hybrid_hit_spec. Qed.

(** ** The groups the constructor forms *)

(** Every spec group names managers of its specification, no manager is named
    twice, and the EAGLE bit comes from a member. *)
Record split_ok (eagle : gset Z) (groups : list KVCacheGroupSpec) (gs : list SpecGroup) : Prop := {
  sp_disjoint : NoDup (concat (sg_group_ids <$> gs));
  sp_some : ∀ g, g ∈ gs → sg_group_ids g ≠ [];
  sp_member : ∀ g i, g ∈ gs → i ∈ sg_group_ids g →
    0 ≤ i ∧ ∃ gr, groups !! Z.to_nat i = Some gr ∧ group_spec gr = sg_spec g ∧ prefix_cacheable (group_spec gr) = true;
  sp_eagle : ∀ g, g ∈ gs → sg_use_eagle g = true → ∃ i, i ∈ sg_group_ids g ∧ i ∈ eagle;
}.

Lemma join_group_concat spec layout i e gs :
  concat (sg_group_ids <$> join_group spec layout i e gs) ≡ₚ i :: concat (sg_group_ids <$> gs).
Proof.
  induction gs as [|g gs IH]; simpl; [done|]. destruct (bool_decide _ && _); simpl.
  - rewrite <-app_assoc. simpl. by rewrite <-Permutation_middle.
  - rewrite IH. by rewrite <-Permutation_middle.
Qed.

Lemma join_group_elem spec layout i e gs g' :
  g' ∈ join_group spec layout i e gs →
  g' ∈ gs ∨ sg_spec g' = spec ∧ i ∈ sg_group_ids g' ∧
    ((sg_group_ids g' = [i] ∧ sg_use_eagle g' = e) ∨
     ∃ g, g ∈ gs ∧ sg_spec g = spec ∧ sg_group_ids g' = sg_group_ids g ++ [i] ∧ sg_use_eagle g' = sg_use_eagle g || e).
Proof.
  induction gs as [|g gs IH]; simpl.
  - intros ->%list_elem_of_singleton. right. simpl. split_and!; [done|left|by left].
  - destruct (bool_decide_reflect (sg_spec g = spec)) as [Hs|Hs]; simpl.
    + destruct (sg_layout g =? layout).
      * intros [->|?]%elem_of_cons; [right|left; by right]. simpl. split_and!; [done|apply elem_of_app; right; left|right].
        exists g. split_and!; [left|done|done|done].
      * intros [->|?]%elem_of_cons; [left; left|]. destruct (IH ltac:(done)) as [?|(? & ? & [?|(g0 & ? & ?)])]; [left; by right|right; tauto|right].
        split_and!; [done|done|right]. exists g0. split; [by right|done].
    + intros [->|?]%elem_of_cons; [left; left|]. destruct (IH ltac:(done)) as [?|(? & ? & [?|(g0 & ? & ?)])]; [left; by right|right; tauto|right].
      split_and!; [done|done|right]. exists g0. split; [by right|done].
Qed.

Lemma join_group_ok eagle groups gr gs (n : nat) :
  split_ok eagle (take n groups) gs → groups !! n = Some gr → prefix_cacheable (group_spec gr) = true →
  split_ok eagle (take (S n) groups) (join_group (group_spec gr) (spec_layout gr) (Z.of_nat n) (bool_decide (Z.of_nat n ∈ eagle)) gs).
Proof.
  intros [Hd Hs Hm He] Hn Hp. assert (Hlen : (n < length groups)%nat) by (by eapply lookup_lt_Some).
  assert (Hold : ∀ g i, g ∈ gs → i ∈ sg_group_ids g → 0 ≤ i ∧ i ≠ Z.of_nat n ∧
    ∃ gr, take (S n) groups !! Z.to_nat i = Some gr ∧ group_spec gr = sg_spec g ∧ prefix_cacheable (group_spec gr) = true).
  { intros g i Hg Hi. destruct (Hm g i Hg Hi) as (H0 & gr' & [Hl Hlt]%lookup_take_Some & E & Ep). split_and!; [done|lia|].
    exists gr'. split_and!; [|done|done]. apply lookup_take_Some. split; [done|lia]. }
  assert (Hnew : take (S n) groups !! Z.to_nat (Z.of_nat n) = Some gr) by (rewrite Nat2Z.id; apply lookup_take_Some; split; [done|lia]).
  split.
  - rewrite join_group_concat. apply NoDup_cons. split; [|done]. intros Hin. apply list_elem_of_In, in_concat in Hin as (ids & Hids & Hi).
    apply list_elem_of_In, list_elem_of_fmap in Hids as (g & -> & Hg). apply list_elem_of_In in Hi. by destruct (Hold g _ Hg Hi) as (_ & ? & _).
  - intros g [?|(_ & Hi & _)]%join_group_elem; [by apply Hs|]. intros E. rewrite E in Hi. by apply elem_of_nil in Hi.
  - intros g i Hg Hi. apply join_group_elem in Hg as [Hg|(Es & _ & [[Ei _]|(g0 & Hg0 & Es0 & Ei & _)])].
    + by destruct (Hold g i Hg Hi) as (? & _ & ?).
    + rewrite Ei in Hi. apply list_elem_of_singleton in Hi as ->. split; [lia|]. exists gr. by rewrite Es.
    + rewrite Ei in Hi. apply elem_of_app in Hi as [Hi| ->%list_elem_of_singleton].
      * destruct (Hold g0 i Hg0 Hi) as (? & _ & gr' & ? & Egr & ?). split; [done|]. exists gr'. split_and!; [done|congruence|done].
      * split; [lia|]. exists gr. by rewrite Es.
  - intros g Hg Hu. apply join_group_elem in Hg as [Hg|(Es & Hin & [[Ei Ee]|(g0 & Hg0 & Es0 & Ei & Ee)])].
    + by apply He.
    + rewrite Ee in Hu. apply bool_decide_eq_true in Hu. eauto.
    + rewrite Ee in Hu. apply orb_true_iff in Hu as [Hu|Hu%bool_decide_eq_true]; [|eauto].
      destruct (He g0 Hg0 Hu) as (i & ? & ?). exists i. split; [rewrite Ei; apply elem_of_app; by left|done].
Qed.

Lemma split_groups_ok eagle groups : split_ok eagle groups (split_groups eagle groups).
Proof.
  unfold split_groups. set (f := λ gs ig, _).
  assert (Hgen : ∀ n, (n ≤ length groups)%nat → split_ok eagle (take n groups) (foldl f [] (take n (imap pair groups)))).
  { induction n as [|n IH]; intros Hn.
    - rewrite !take_0. simpl. split; [apply NoDup_nil_2|by intros g ?%elem_of_nil|by intros g i ?%elem_of_nil|by intros g ?%elem_of_nil].
    - destruct (lookup_lt_is_Some_2 groups n) as [gr Hgr]; [lia|].
      assert (Him : imap pair groups !! n = Some (n, gr)) by (by rewrite list_lookup_imap, Hgr).
      rewrite (take_S_r (imap pair groups) n (n, gr)) by done. rewrite foldl_app. simpl. specialize (IH ltac:(lia)).
      unfold f at 1. simpl. destruct (prefix_cacheable (group_spec gr)) eqn:Ep; [by apply join_group_ok|].
      destruct IH as [Hd Hs Hm He]. split; [done|done| |done]. intros g i Hg Hi. destruct (Hm g i Hg Hi) as (? & gr' & Hl & ?).
      split; [done|]. exists gr'. split; [|done]. apply lookup_take_Some in Hl as [? ?]. apply lookup_take_Some. split; [done|lia]. }
  specialize (Hgen (length groups) ltac:(lia)). by rewrite !take_ge in Hgen by (rewrite ?length_imap; lia).
Qed.

Lemma full_first_perm gs : full_first gs ≡ₚ gs.
Proof.
  unfold full_first. induction gs as [|g gs IH]; [done|]. destruct (is_full_attention (sg_spec g)) eqn:E.
  - rewrite filter_cons_True, filter_cons_False by (rewrite E; done). simpl. by rewrite IH.
  - rewrite filter_cons_False, filter_cons_True by (rewrite E; done). by rewrite <-Permutation_middle, IH.
Qed.

Lemma split_ok_perm eagle groups gs gs' : gs ≡ₚ gs' → split_ok eagle groups gs → split_ok eagle groups gs'.
Proof.
  intros Hp [Hd Hs Hm He]. split.
  - assert (E : concat (sg_group_ids <$> gs) ≡ₚ concat (sg_group_ids <$> gs')); [|by rewrite <-E].
    clear -Hp. induction Hp as [|x l l' _ IH|x y l|l1 l2 l3 _ IH1 _ IH2]; simpl; [done|by rewrite IH| |by rewrite IH1].
    rewrite !app_assoc. by rewrite (Permutation_app_comm (sg_group_ids y)).
  - intros g. rewrite <-Hp. apply Hs.
  - intros g i. rewrite <-Hp. apply Hm.
  - intros g. rewrite <-Hp. apply He.
Qed.

(** A configuration the hybrid coordinator is built for. *)
Record config_ok (config : KVCacheConfig) (sched_bs hash_bs dcp : Z) (use_eagle : bool) : Prop := {
  cf_hash : 0 < hash_bs;
  cf_align : 0 < sched_bs;
  cf_count : py_len (kv_cache_groups config) ≤ 2 ^ 32;
  cf_group : ∀ g, g ∈ kv_cache_groups config →
    let spec := group_spec g in
    let B := group_block_size spec (dcp_world_size_for_kv_cache_spec spec dcp) in
    0 < B ∧ sched_bs mod B = 0 ∧
    match spec with
    | SlidingWindowSpec _ window _ => 2 ≤ window
    | ChunkedLocalAttentionSpec _ chunk => 0 < chunk ∧ chunk mod B = 0 ∧ B = sched_bs
    | _ => True
    end;
  cf_chunked : ∀ g b ch, g ∈ kv_cache_groups config → group_spec g = ChunkedLocalAttentionSpec b ch →
    use_eagle = false ∧ ∀ g', g' ∈ kv_cache_groups config → is_eagle_group g' = false;
}.

Lemma bind_tt_Ok {A} (m : result unit) (k : result A) a : (_ ← m; k) = Ok a → m = Ok tt ∧ k = Ok a.
Proof. destruct m as [[]|e]; [done|discriminate]. Qed.

Lemma flagged_empty (groups : list KVCacheGroupSpec) :
  (∀ g, g ∈ groups → is_eagle_group g = false) →
  filter (λ ig : nat * KVCacheGroupSpec, is_eagle_group ig.2 = true) (imap pair groups) = [].
Proof.
  intros Hno. destruct (filter _ _) as [|[i g] l] eqn:E; [done|exfalso].
  assert (Hin : (i, g) ∈ filter (λ ig : nat * KVCacheGroupSpec, is_eagle_group ig.2 = true) (imap pair groups)) by (rewrite E; left).
  apply list_elem_of_filter in Hin as [He [k Hk]%list_elem_of_lookup]. rewrite list_lookup_imap in Hk.
  destruct (groups !! k) as [g'|] eqn:Eg; [|done]. injection Hk as <- <-. simpl in He. rewrite (Hno g') in He; [done|]. by eapply list_elem_of_lookup_2.
Qed.

(** What the base constructor leaves. *)
Lemma new_coordinator_Ok config mml mif ue caching ev dcp pcp sbs hbs met la c :
  new_coordinator config mml mif ue caching ev dcp pcp sbs hbs met la = Ok c →
  (∃ p, new_block_pool (num_blocks config) caching hbs ev met = Ok p ∧ block_pool c = p) ∧
  co_groups c = kv_cache_groups config ∧ co_scheduler_block_size c = sbs ∧ co_dcp_world_size c = dcp ∧ co_pcp_world_size c = pcp ∧
  co_enable_caching c = caching ∧
  (ue = false → (∀ g, g ∈ kv_cache_groups config → is_eagle_group g = false) → eagle_group_ids c = ∅) ∧
  single_type_managers c =
    imap (λ i g, get_manager_for_kv_cache_spec (group_spec g) mif mml caching (Z.of_nat i) sbs
                   (dcp_world_size_for_kv_cache_spec (group_spec g) dcp) (needs_kv_cache_zeroing config)) (kv_cache_groups config).
Proof.
  unfold new_coordinator. intros [_ H]%bind_tt_Ok. apply bind_Ok in H as (p & Hp & H).
  apply bind_tt_Ok in H as [_ H]. apply bind_tt_Ok in H as [_ H]. injection H as <-. simpl. split_and!; try done; [by exists p|].
  intros -> Hno. simpl. by rewrite flagged_empty.
Qed.

(** The hybrid constructor forms groups the search can work with. *)
Lemma hybrid_groups_ok config mml mif ue ev dcp pcp sbs hbs met la c :
  get_kv_cache_coordinator config mml mif ue true ev dcp pcp sbs hbs met la = Ok c →
  py_len (kv_cache_groups config) ≠ 1 → config_ok config sbs hbs dcp ue →
  ∃ gs f, coordinator_class c = Hybrid gs f ∧ groups_ok c gs ∧ hash_block_size (block_pool c) = hbs ∧ co_scheduler_block_size c = sbs ∧
    new_block_pool (num_blocks config) true hbs ev met = Ok (block_pool c).
Proof.
  unfold get_kv_cache_coordinator. intros (c0 & Hc0 & H)%bind_Ok Hne [Hh Ha Hcount Hgrp Hchk].
  cbn [negb] in H. rewrite (proj2 (Z.eqb_neq _ _) Hne) in H.
  destruct (new_coordinator_Ok _ _ _ _ _ _ _ _ _ _ _ _ _ Hc0) as ((p & Hp & Ep) & Eg & Es & Ed & Epcp & _ & Eea & Em).
  unfold init_hybrid in H. apply bind_tt_Ok in H as [Hdiv H]. apply bind_tt_Ok in H as [Hpcp H]. apply bind_tt_Ok in H as [_ H].
  apply py_assert_Ok in Hdiv. rewrite forallb_forall in Hdiv. apply py_assert_Ok, Z.eqb_eq in Hpcp.
  unfold verify_and_split_kv_cache_groups in H. apply bind_tt_Ok in H as [Hsome H]. apply py_assert_Ok, negb_true_iff, bool_decide_eq_false in Hsome.
  apply bind_Ok in H as (f & _ & H). injection H as <-. set (gs := full_first (split_groups (eagle_group_ids c0) (co_groups c0))).
  pose proof (split_ok_perm _ _ _ gs ltac:(symmetry; apply full_first_perm) (split_groups_ok (eagle_group_ids c0) (co_groups c0))) as [Hd Hs Hm He].
  exists gs, f. simpl. rewrite Ep. assert (Hhb : hash_block_size p = hbs).
  { unfold new_block_pool in Hp. destruct (0 <? num_blocks config); [|done]. by inv_ok; simpl. }
  split_and!; [done| |done|done|done]. split; simpl; rewrite ?Ep, ?Hhb; try done.
  - by rewrite Es.
  - by rewrite Eg.
  - intros E. apply Hsome. apply (f_equal length) in E. unfold gs in E. rewrite full_first_perm in E. by apply length_zero_iff_nil in E.
  - intros g Hg. assert (Hmem : ∀ i, i ∈ sg_group_ids g → 0 ≤ i ∧ ∃ gr m, co_groups c0 !! Z.to_nat i = Some gr ∧ group_spec gr = sg_spec g ∧
      prefix_cacheable (group_spec gr) = true ∧ single_type_managers c0 !! Z.to_nat i = Some m ∧ block_size m = sg_block_size c0 g).
    { intros i Hi. destruct (Hm g i Hg Hi) as (? & gr & Hgr & Egr & Hpc). split; [done|]. eexists gr, _. split_and!; [done|done|done|..].
      - rewrite Em, list_lookup_imap, <-Eg, Hgr. done.
      - simpl. unfold sg_block_size. by rewrite Egr, Ed. }
    destruct (sg_group_ids g) as [|i ids] eqn:Ei; [by destruct (Hs g Hg)|]. assert (Hi : i ∈ i :: ids) by left.
    destruct (Hmem i Hi) as (Hi0 & gr & m & Hgr & Egr & Hpc & Hmi & HBm).
    assert (Hgin : gr ∈ kv_cache_groups config) by (rewrite <-Eg; by eapply list_elem_of_lookup_2).
    destruct (Hgrp gr Hgin) as (HB & Hal & Hspec). rewrite Egr in *. rewrite <-Ed in *. fold (sg_block_size c0 g) in *.
    split; simpl; rewrite ?Ep, ?Hhb, ?Es; try done.
    + by rewrite Ei.
    + rewrite Ei. intros j Hj. destruct (Hmem j Hj) as (? & gr' & _ & Hgr' & _). apply lookup_lt_Some in Hgr'. unfold py_len. lia.
    + rewrite Ei. intros j Hj. destruct (Hmem j Hj) as (? & gr' & m' & _ & _ & _ & Hm' & HB'). rewrite list_lookup_imap, Hm'. simpl.
      eexists. split; [done|]. by destruct (in_eagle_group _ _).
    + specialize (Hdiv (m, gr)). cbn [fst snd] in Hdiv. rewrite Egr, Hpc, HBm in Hdiv. apply Z.eqb_eq, Hdiv. apply list_elem_of_In, list_elem_of_lookup.
      exists (Z.to_nat i). by rewrite lookup_zip_with, Hmi; simpl; rewrite Hgr.
    + destruct (sg_spec g) as [| | |b ch|b] eqn:Esp; try done. destruct Hspec as (? & ? & ?). split_and!; try done.
      destruct (Hchk gr b ch Hgin Egr) as [Hue Hno]. destruct (sg_use_eagle g) eqn:Eu; [|done]. destruct (He g Hg Eu) as (j & _ & Hj).
      rewrite (Eea Hue Hno) in Hj. by apply elem_of_empty in Hj.
Qed.

(** ** A verification that is not repeated *)

(** Two sliding-window groups, both with the EAGLE drop, blocks of one token:
    group 0 has the blocks 3, 6 and 7 of the request cached, group 1 the blocks
    2, 3 and 4. *)
Definition stale_hashes : list bytes := (λ i, [i]) <$> py_range 10 20.

Definition stale_config : KVCacheConfig :=
  mkConfig 20 [mkGroup (SlidingWindowSpec 1 2 0) 0 false; mkGroup (SlidingWindowSpec 1 3 0) 0 false] None false.

Definition stale_mask (l : list Z) : option (list bool) := Some ((λ i, bool_decide (i ∈ l)) <$> py_range 0 9).

Definition stale_coordinator : result Coordinator :=
  c ← get_kv_cache_coordinator stale_config 16 16 true true false 1 1 1 1 None 0;
  let req := set_block_hashes stale_hashes (text_request (py_range 0 10)) in
  '(rs, p) ← @get_new_blocks demo_env 9 (block_pool c);
  '(p, _) ← @cache_full_blocks demo_env req rs 0 9 1 0 (stale_mask [3; 6; 7]) p;
  '(rs, p) ← @get_new_blocks demo_env 9 p;
  '(p, _) ← @cache_full_blocks demo_env req rs 0 9 1 1 (stale_mask [2; 3; 4]) p;
  Ok (set_managers (single_type_managers c) p c).

(** The EAGLE drop of a group is not verified at the length that is
    returned.  Group 0 verifies its drop at seven tokens; group 1 then lowers
    the candidate to four tokens while applying its own drop, and the set of
    verified groups is kept, so group 0 is looked up without the drop: the
    search returns four tokens although the look-up of group 0 with its drop
    finds no hit at all up to that length, and the block after the hit is not
    cached in group 0. *)
Theorem hybrid_eagle_stale_verification :
  (c ← stale_coordinator;
   match coordinator_class c with
   | Hybrid gs _ =>
       '(_, hit, _) ← hybrid_find_longest_cache_hit gs (RawHashes stale_hashes) 9 c;
       '(_, hit0) ← swa_find_longest_cache_hit (RawHashes stale_hashes) (hit + 1) [0] (block_pool c) (SlidingWindowSpec 1 2 0) true 1 1 1;
       next ← lookup_all [14] [0] (block_pool c);
       Ok (sg_use_eagle <$> gs, hit, hit0, next)
   | _ => Err TypeError
   end) = Ok ([true; true], 4, 0, None).
Proof. vm_compute. reflexivity. Qed.

(** ** Witnesses *)

Definition demo_config : KVCacheConfig :=
  mkConfig 6 [mkGroup (FullAttentionSpec 2) 0 false; mkGroup (SlidingWindowSpec 2 3 0) 0 false] None false.

Definition demo_coordinator : result Coordinator :=
  get_kv_cache_coordinator demo_config 16 16 false true false 1 1 2 2 None 0.

Lemma demo_config_ok : config_ok demo_config 2 2 1 false.
Proof.
  split; [lia|lia|vm_compute; discriminate|..].
  - intros g [->|[->|[]%elem_of_nil]%elem_of_cons]%elem_of_cons; vm_compute; split_and!; try done.
  - intros g b ch [->|[->|[]%elem_of_nil]%elem_of_cons]%elem_of_cons Hs; discriminate Hs.
Qed.

Lemma demo_coordinator_ok :
  ∃ c gs f, demo_coordinator = Ok c ∧ coordinator_class c = Hybrid gs f ∧ groups_ok c gs ∧
    hash_block_size (block_pool c) = 2 ∧ pool_inv (block_pool c) [Blk 1; Blk 2; Blk 3; Blk 4; Blk 5].
Proof.
  destruct demo_coordinator as [c|e] eqn:E; [|vm_compute in E; discriminate E]. exists c.
  destruct (hybrid_groups_ok demo_config 16 16 false false 1 1 2 2 None 0 c E) as (gs & f & Hcl & Hgs & Hh & _ & Hp); [vm_compute; discriminate|exact demo_config_ok|].
  exists gs, f. split_and!; [done|done|done|done|].
  destruct (new_block_pool_spec 6 true 2 false None ltac:(lia)) as (p & Hp' & Hinv & _). change (num_blocks demo_config) with 6 in Hp.
  rewrite Hp in Hp'. injection Hp' as <-. exact Hinv.
Qed.

Lemma hybrid_cache_hit_correct_witness :
  ∃ c gs f blocks hit longest, demo_coordinator = Ok c ∧ coordinator_class c = Hybrid gs f ∧
    hybrid_find_longest_cache_hit gs (RawHashes [[7]; [8]]) 5 c = Ok (blocks, hit, longest - hit) ∧ hit mod co_scheduler_block_size c = 0.
Proof.
  destruct demo_coordinator_ok as (c & gs & f & Hc & Hcl & Hgs & Hh & Hinv).
  destruct (hybrid_cache_hit_correct c gs [[7]; [8]] 5) as (blocks & hit & longest & Hrun & _ & Ha & _).
  { split; [exact Hgs|apply Hinv|lia|rewrite Hh; vm_compute; discriminate]. }
  exists c, gs, f, blocks, hit, longest. split; [exact Hc|]. split; [exact Hcl|]. split; [exact Hrun|exact Ha].
Defined.
