(* ===== verification/CoordinatorSpec.v ===== *)
(** * All groups over one pool

    The coordinator's calls on the managers of all groups: the invariant of the
    whole set of block tables, and the lifting of the steps of one group
    ([GroupSpec]) to the loops of [Coordinator].  The allocation estimate of the
    coordinator is the sum of those of its groups; it is shown to be enough for
    the two phases of a prefix-cache hit followed by the allocation of new
    blocks, although the groups take their blocks from the same free queue. *)

From S2P Require Import Prelude FreeQueue Request BlockHash BlockMap BlockPool BlockPoolSpec CacheHit SingleTypeManager.
From S2P Require Import SingleTypeManagerSpec GroupSpec Coordinator.
Local Open Scope Z_scope.

(** ** The invariant *)

Definition all_refs (ms : list Manager) (r : ref) : Z := foldr (λ m n, group_refs m r + n) 0 ms.

Lemma all_refs_app ms1 ms2 r : all_refs (ms1 ++ ms2) r = all_refs ms1 r + all_refs ms2 r.
Proof. induction ms1 as [|m ms1 IH]; simpl; lia. Qed.

Lemma all_refs_nonneg ms r : 0 ≤ all_refs ms r.
Proof. induction ms as [|m ms IH]; simpl; [lia|]. pose proof (group_refs_nonneg m r). lia. Qed.

Lemma all_refs_elem m ms r : m ∈ ms → group_refs m r ≤ all_refs ms r.
Proof.
  intros (ms1 & ms2 & ->)%list_elem_of_split. rewrite all_refs_app. simpl. pose proof (all_refs_nonneg ms1 r). pose proof (all_refs_nonneg ms2 r). lia.
Qed.

(** Every block is referenced as often as it occurs in the tables of all groups;
    [ext] counts references kept elsewhere (copies handed out). *)
Record coord_inv (ext : ref → Z) (ms : list Manager) (p : BlockPool) (free : list ref) : Prop := {
  cv_pool : pool_inv p free;
  cv_refs : ∀ j, j ≠ 0%nat → has (pool_store p) (Blk j) → ref_cnt (blk p (Blk j)) = all_refs ms (Blk j) + ext (Blk j);
  cv_ext : ∀ r, 0 ≤ ext r;
  cv_groups : ∀ m, m ∈ ms → group_local m p;
}.

(** The references of everybody but one group. *)
Definition others_of (ext : ref → Z) (ms1 ms2 : list Manager) (r : ref) : Z := all_refs ms1 r + all_refs ms2 r + ext r.

Section Lift.
Context `{PoolEnv}.
Implicit Types (p : BlockPool) (m : Manager) (ms : list Manager) (free : list ref) (ext : ref → Z).

Lemma coord_group ext ms1 m ms2 p free :
  coord_inv ext (ms1 ++ m :: ms2) p free → group_inv (others_of ext ms1 ms2) m p free.
Proof.
  intros [Hp Hr He Hg]. assert (Hm : group_local m p) by (apply Hg; set_solver). split; [|done]. split.
  - done.
  - intros j Hj Hh. rewrite (Hr j Hj Hh), all_refs_app. simpl. unfold others_of, group_refs. lia.
  - intros r. unfold others_of. pose proof (all_refs_nonneg ms1 r). pose proof (all_refs_nonneg ms2 r). specialize (He r). lia.
  - apply Hm.
  - intros rid idx src Hpart. by rewrite (gl_partial _ _ Hm) in Hpart.
  - apply Hm.
Qed.

Lemma coord_step ext ms1 m ms2 p free cost m' p' :
  coord_inv ext (ms1 ++ m :: ms2) p free → group_step (others_of ext ms1 ms2) m p free cost m' p' →
  ∃ free', coord_inv ext (ms1 ++ m' :: ms2) p' free' ∧ py_len free - cost ≤ py_len free'.
Proof.
  intros [Hp Hr He Hg] [(free' & [Hinv Hok] & Hlen) Hcalm _]. exists free'. split; [|done]. split; [apply Hinv| |done|].
  - intros j Hj Hh. rewrite (mi_refs _ _ _ _ Hinv j Hj Hh), all_refs_app. simpl. unfold others_of, group_refs. lia.
  - intros m2 Hm2. assert (m2 = m' ∨ m2 ∈ ms1 ++ ms2) as [->|Hin] by set_solver; [done|].
    apply (calm_group (others_of ext ms1 ms2) m2 p); [apply Hg; set_solver| |done].
    intros r. unfold others_of. specialize (He r). pose proof (all_refs_elem m2 (ms1 ++ ms2) r Hin) as Hle. rewrite all_refs_app in Hle. lia.
Qed.

Lemma coord_inv_free ext ms p free : coord_inv ext ms p free → get_num_free_blocks p = py_len free.
Proof. intros [[Hq _] _ _ _]. apply (qr_len _ _ (qi_rep _ _ Hq)). Qed.
End Lift.

(** ** A call to every manager *)

(** [cost i + cost (i + 1) + ...], [n] terms *)
Fixpoint total (cost : Z → Z) (i : Z) (n : nat) : Z :=
  match n with O => 0 | S n' => cost i + total cost (i + 1) n' end.

Lemma total_le f g n : ∀ i, (∀ k, i ≤ k < i + Z.of_nat n → f k ≤ g k) → total f i n ≤ total g i n.
Proof.
  induction n as [|n IH]; intros i Hle; simpl; [done|]. specialize (IH (i + 1)). pose proof (Hle i ltac:(lia)).
  assert (total f (i + 1) n ≤ total g (i + 1) n); [|lia]. apply IH. intros k Hk. apply Hle. lia.
Qed.

Lemma total_add f g n : ∀ i, total (λ k, f k + g k) i n = total f i n + total g i n.
Proof. induction n as [|n IH]; intros i; simpl; [done|]. rewrite IH. lia. Qed.

Lemma at_groups_nonneg f n : (∀ k, 0 ≤ f k) → ∀ i, 0 ≤ total f i n.
Proof. intros Hf. induction n as [|n IH]; intros i; simpl; [done|]. specialize (IH (i + 1)). specialize (Hf i). lia. Qed.

(** The results of a loop over the managers, one by one. *)
Record outcome {A} (post : Z → Manager → A → Manager → Prop) (i : Z) (ms : list Manager) (l : list A) (ms' : list Manager) : Prop := {
  oc_results : length l = length ms;
  oc_managers : length ms' = length ms;
  oc_post : ∀ (k : nat) m, ms !! k = Some m → ∃ a m', l !! k = Some a ∧ ms' !! k = Some m' ∧ post (i + Z.of_nat k) m a m';
}.

Lemma outcome_nil {A} (post : Z → Manager → A → Manager → Prop) i : outcome post i [] [] [].
Proof. by split. Qed.

Lemma outcome_cons {A} (post : Z → Manager → A → Manager → Prop) i m ms a l m' ms' :
  post i m a m' → outcome post (i + 1) ms l ms' → outcome post i (m :: ms) (a :: l) (m' :: ms').
Proof.
  intros Hp [H1 H2 H3]. split; [simpl; lia|simpl; lia|]. intros [|k] m0; simpl.
  - intros [= <-]. exists a, m'. by rewrite Z.add_0_r.
  - intros Hk. destruct (H3 k m0 Hk) as (b & m2 & ? & ? & ?). exists b, m2. split_and!; [done|done|].
    by replace (i + Z.of_nat (S k)) with (i + 1 + Z.of_nat k) by lia.
Qed.

Section Each.
Context `{PoolEnv} {A : Type} (f : Z → Manager → BlockPool → result (A * Manager * BlockPool)).
Context (cost : Z → Z) (pre : Z → Manager → BlockPool → Prop) (post : Z → Manager → A → Manager → Prop).
Context (X : BlockPool → BlockPool → Prop) `{!PreOrder X}.
Hypothesis cost_nonneg : ∀ i, 0 ≤ cost i.
Hypothesis pre_stable : ∀ i m p p', pre i m p → same_shape p p' → X p p' → pre i m p'.
Hypothesis f_step : ∀ others i m p free,
  group_inv others m p free → pre i m p → cost i ≤ py_len free →
  ∃ a m' p', f i m p = Ok (a, m', p') ∧ group_step others m p free (cost i) m' p' ∧ X p p' ∧ post i m a m'.

Lemma each_spec ext ms : ∀ dn i p free,
  coord_inv ext (dn ++ ms) p free → (∀ (k : nat) m, ms !! k = Some m → pre (i + Z.of_nat k) m p) →
  total cost i (length ms) ≤ py_len free →
  ∃ l ms' p' free', each_manager f i ms p = Ok (l, ms', p') ∧ coord_inv ext (dn ++ ms') p' free' ∧
    same_shape p p' ∧ X p p' ∧ py_len free - total cost i (length ms) ≤ py_len free' ∧ outcome post i ms l ms'.
Proof using cost_nonneg pre_stable f_step PreOrder0.
  induction ms as [|m ms IH]; intros dn i p free Hinv Hpre Hcost; simpl in *.
  { exists [], [], p, free. split_and!; [done|done|done|done|lia|apply outcome_nil]. }
  pose proof (at_groups_nonneg cost (length ms) cost_nonneg (i + 1)) as Ht.
  destruct (f_step _ i m p free (coord_group ext dn m ms p free Hinv)) as (a & m1 & p1 & Hf & Hst & HX & Hpost).
  { specialize (Hpre 0%nat m eq_refl). by rewrite Z.add_0_r in Hpre. }
  { lia. }
  destruct (coord_step ext dn m ms p free _ m1 p1 Hinv Hst) as (free1 & Hinv1 & Hlen1).
  pose proof (ca_shape _ _ _ (gs_calm _ _ _ _ _ _ _ Hst)) as Hsh.
  destruct (IH (dn ++ [m1]) (i + 1) p1 free1) as (l & ms' & p' & free' & Hrun & Hinv' & Hsh' & HX' & Hlen' & Hout).
  - by rewrite <-app_assoc.
  - intros k m2 Hk. apply (pre_stable _ _ p); [|done|done]. replace (i + 1 + Z.of_nat k) with (i + Z.of_nat (S k)) by lia. by apply Hpre.
  - lia.
  - rewrite Hf. cbn [mbind result_bind]. rewrite Hrun. cbn [mbind result_bind]. exists (a :: l), (m1 :: ms'), p', free'.
    split_and!; [done|by rewrite <-app_assoc in Hinv'|by etransitivity|by etransitivity|lia|by apply outcome_cons].
Qed.

(** The loop of the coordinator. *)
Lemma for_managers_spec ext c free :
  coord_inv ext (single_type_managers c) (block_pool c) free →
  (∀ (k : nat) m, single_type_managers c !! k = Some m → pre (Z.of_nat k) m (block_pool c)) →
  total cost 0 (length (single_type_managers c)) ≤ py_len free →
  ∃ l ms' p' free', for_managers f c = Ok (l, set_managers ms' p' c) ∧ coord_inv ext ms' p' free' ∧ same_shape (block_pool c) p' ∧
    X (block_pool c) p' ∧ py_len free - total cost 0 (length (single_type_managers c)) ≤ py_len free' ∧
    outcome post 0 (single_type_managers c) l ms'.
Proof using cost_nonneg pre_stable f_step PreOrder0.
  intros Hinv Hpre Hcost. destruct (each_spec ext (single_type_managers c) [] 0 (block_pool c) free Hinv) as (l & ms' & p' & free' & Hrun & H1 & H2 & H3 & H4 & H5).
  - intros k m Hk. by apply Hpre.
  - done.
  - exists l, ms', p', free'. split_and!; try done. unfold for_managers. by rewrite Hrun.
Qed.
End Each.

(** ** The calls of the coordinator *)

(** Only the table of the request changes. *)
Definition untouched (rid : string) (m m' : Manager) : Prop :=
  config m' = config m ∧ ∀ rid', rid' ≠ rid → blocks_of rid' m' = blocks_of rid' m.

Lemma total_snoc f n : ∀ i, total f i (S n) = total f i n + f (i + Z.of_nat n).
Proof.
  induction n as [|n IH]; intros i; [replace (i + Z.of_nat 0) with i by lia; simpl; lia|].
  change (total f i (S (S n))) with (f i + total f (i + 1) (S n)). rewrite IH. simpl total.
  replace (i + 1 + Z.of_nat n) with (i + Z.of_nat (S n)) by lia. lia.
Qed.

Lemma total_zero n i : total (λ _, 0) i n = 0.
Proof. revert i. induction n as [|n IH]; intros i; simpl; [done|by rewrite IH]. Qed.

(** The estimate is the sum of the estimates of the groups. *)
Lemma coord_estimate c rid nt bss tot nl cap (est : Z → Z) :
  (∀ (k : nat) m, single_type_managers c !! k = Some m → ∃ bs, bss !! k = Some bs ∧
     get_num_blocks_to_allocate rid nt bs tot nl cap m (block_pool c) = Ok (est (Z.of_nat k))) →
  coord_get_num_blocks_to_allocate rid nt bss tot nl cap c = Ok (total est 0 (length (single_type_managers c))).
Proof.
  unfold coord_get_num_blocks_to_allocate. induction (single_type_managers c) as [|m ms IH] using rev_ind; intros Hest; [done|].
  rewrite imap_app, foldM_app, IH.
  2: { intros k m0 Hk. apply Hest. by apply lookup_app_l_Some. }
  cbn [mbind result_bind imap]. simpl. destruct (Hest (length ms) m) as (bs & Hbs & Hg); [by rewrite lookup_app_r, Nat.sub_diag|].
  replace (length ms + 0)%nat with (length ms) by lia. rewrite py_get_nonneg, Nat2Z.id, Hbs by lia. cbn [unwrap mbind result_bind].
  rewrite Hg. cbn [mbind result_bind]. rewrite length_app. simpl. replace (length ms + 1)%nat with (S (length ms)) by lia. by rewrite total_snoc.
Qed.

(** The estimate is defined when hits are given to new requests only. *)
Lemma estimate_defined rid nt bs tot nl cap m p :
  num_cached_block m !! rid = None ∨ bs = [] → ∃ n, get_num_blocks_to_allocate rid nt bs tot nl cap m p = Ok n.
Proof.
  intros Hb. unfold get_num_blocks_to_allocate. destruct (is_ring (kv_cache_spec m)); [by eexists|].
  destruct (num_cached_block m !! rid); [|by eexists]. destruct Hb as [Hb| ->]; [done|]. by eexists.
Qed.

(** No hash changes. *)
Definition same_hash (p p' : BlockPool) : Prop := ∀ r, block_hash (blk p r) = block_hash (blk p' r).

#[export] Instance same_hash_preorder : PreOrder same_hash.
Proof. split; [by intros p r|]. intros p1 p2 p3 E1 E2 r. by rewrite E1. Qed.

(** No condition on the pool. *)
Definition anything (p p' : BlockPool) : Prop := True.

#[export] Instance anything_preorder : PreOrder anything.
Proof. by split. Qed.

(** A loop whose calls need no blocks. *)
Lemma for_managers_plain `{PoolEnv} {A} (f : Z → Manager → BlockPool → result (A * Manager * BlockPool))
    (post : Z → Manager → A → Manager → Prop) (X : BlockPool → BlockPool → Prop) `{!PreOrder X} ext c free :
  (∀ others i m p free, group_inv others m p free →
     ∃ a m' p', f i m p = Ok (a, m', p') ∧ group_step others m p free 0 m' p' ∧ X p p' ∧ post i m a m') →
  coord_inv ext (single_type_managers c) (block_pool c) free →
  ∃ l ms' p' free', for_managers f c = Ok (l, set_managers ms' p' c) ∧ coord_inv ext ms' p' free' ∧
    same_shape (block_pool c) p' ∧ X (block_pool c) p' ∧ py_len free ≤ py_len free' ∧ outcome post 0 (single_type_managers c) l ms'.
Proof.
  intros Hf Hinv. destruct (for_managers_spec f (λ _, 0) (λ _ _ _, True) post X) with (ext := ext) (c := c) (free := free)
    as (l & ms' & p' & free' & Hrun & Hinv' & Hsh & HX & Hlen & Hout); try done.
  - intros others i m p fr Hg _ _. destruct (Hf others i m p fr Hg) as (a & m' & p' & ? & ? & ? & ?). exists a, m', p'. by split_and!.
  - rewrite total_zero. apply py_len_nonneg.
  - rewrite total_zero in Hlen. exists l, ms', p', free'. split_and!; try done. lia.
Qed.

Section Calls.
Context `{PoolEnv}.
Implicit Types (ext : ref → Z) (c : Coordinator) (rid : string) (free : list ref).

(** What [remove_skipped_blocks] leaves in the table of the request. *)
Record trimmed rid (processed : Z) (np : option Z) (m m' : Manager) : Prop := {
  tm_only : untouched rid m m';
  tm_known : num_cached_block m' = num_cached_block m;
  tm_len : length (blocks_of rid m') = length (blocks_of rid m);
  tm_keep : let '(first, last) := skip_range m processed np in
    ∀ k, ¬ (first ≤ Z.of_nat k < last) → blocks_of rid m' !! k = blocks_of rid m !! k;
  tm_null : ∀ k, blocks_of rid m' !! k = blocks_of rid m !! k ∨ blocks_of rid m' !! k = Some (Blk 0);
}.

Lemma coord_remove_skipped_spec ext c free rid processed np :
  coord_inv ext (single_type_managers c) (block_pool c) free → 0 ≤ processed → (∀ n, np = Some n → 0 ≤ n) →
  ∃ l ms' p' free', coord_remove_skipped_blocks rid processed np c = Ok (set_managers ms' p' c) ∧ coord_inv ext ms' p' free' ∧
    same_shape (block_pool c) p' ∧ same_hash (block_pool c) p' ∧ py_len free ≤ py_len free' ∧
    outcome (λ _ m (_ : unit) m', trimmed rid processed np m m') 0 (single_type_managers c) l ms'.
Proof.
  intros Hinv Hp Hn.
  destruct (for_managers_plain (λ _, proc (remove_skipped_blocks rid processed np)) (λ _ m _ m', trimmed rid processed np m m') same_hash ext c free)
    as (l & ms' & p' & free' & Hrun & Hinv' & Hsh & HX & Hlen & Hout); [|done|].
  - intros others i m p fr Hg. destruct (remove_skipped_step others m p fr rid processed np Hg Hp Hn) as (m' & p' & Hr & Hst & HX & H1 & H2 & H3 & H4 & H5).
    exists tt, m', p'. split_and!; [unfold proc; by rewrite Hr|done|done|]. split; try done. split; [by eapply gs_config|done].
  - exists l, ms', p', free'. split_and!; [unfold coord_remove_skipped_blocks; by rewrite Hrun|done|done|done|lia|done].
Qed.

Lemma coord_free_spec ext c free rid :
  coord_inv ext (single_type_managers c) (block_pool c) free →
  ∃ l ms' p' free', coord_free rid c = Ok (set_managers ms' p' c) ∧ coord_inv ext ms' p' free' ∧
    same_shape (block_pool c) p' ∧ py_len free ≤ py_len free' ∧
    outcome (λ _ m (_ : unit) m', untouched rid m m' ∧ blocks_of rid m' = [] ∧ num_cached_block m' = delete rid (num_cached_block m))
      0 (single_type_managers c) l ms'.
Proof.
  intros Hinv.
  destruct (for_managers_plain (λ _, proc (manager_free rid))
    (λ _ m _ m', untouched rid m m' ∧ blocks_of rid m' = [] ∧ num_cached_block m' = delete rid (num_cached_block m)) anything ext c free)
    as (l & ms' & p' & free' & Hrun & Hinv' & Hsh & HX & Hlen & Hout); [|done|].
  - intros others i m p fr Hg. destruct (free_step_group others m p fr rid Hg) as (m' & p' & Hr & Hst & H1 & H2 & H3).
    exists tt, m', p'. split_and!; [unfold proc; by rewrite Hr|done|done| |done|done]. split; [by eapply gs_config|done].
  - exists l, ms', p', free'. split_and!; [unfold coord_free; by rewrite Hrun|done|done|lia|done].
Qed.
End Calls.

(** ** Allocation *)

Definition window_ok (m : Manager) : Prop :=
  match kv_cache_spec m with
  | SlidingWindowSpec _ w e => 1 ≤ w ∧ 0 ≤ e
  | ChunkedLocalAttentionSpec _ c => 0 < c ∧ c mod block_size m = 0
  | _ => True
  end.

(** A new request with its prefix-cache hit in one group: whole cached blocks
    for the [nl] local tokens. *)
Record admits (rid : string) (nl : Z) (m : Manager) (p : BlockPool) (bs : list ref) : Prop := {
  am_empty : blocks_of rid m = [];
  am_new : num_cached_block m !! rid = None;
  am_hit : hit_ok m p bs nl;
  am_whole : nl mod block_size m = 0;
  am_hashed : hashed p bs;
}.

Lemma admits_stable rid nl m p p' bs :
  same_shape p p' → (∀ r, block_hash (blk p r) = block_hash (blk p' r)) → admits rid nl m p bs → admits rid nl m p' bs.
Proof.
  intros Hsh Hh [H1 H2 [L V N T C] H4 H5]. split; [done|done| |done|].
  - split; try done. intros r Hr. destruct (V r Hr) as (j & -> & Hj). exists j. split; [done|]. by apply (sh_has _ _ Hsh).
  - intros j Hj Hin. rewrite <-Hh. by apply H5.
Qed.

Lemma group_step_weaken `{PoolEnv} others m p free c c' m' p' :
  group_step others m p free c m' p' → c ≤ c' → group_step others m p free c' m' p'.
Proof. intros [(free' & Hi & Hl) Hc Hcf] Hle. split; [|done|done]. exists free'. split; [done|lia]. Qed.

Lemma step_untouched `{PoolEnv} others m p free cost m' p' rid :
  group_step others m p free cost m' p' → (∀ rid', rid' ≠ rid → blocks_of rid' m' = blocks_of rid' m) → untouched rid m m'.
Proof. intros Hst Ho. split; [apply (gs_config _ _ _ _ _ _ _ Hst)|done]. Qed.

Section Allocation.
Context `{PoolEnv}.
Implicit Types (ext : ref → Z) (c : Coordinator) (rid : string) (free : list ref).

Lemma coord_allocate_new_spec ext c free rid nt (cost : Z → Z) :
  coord_inv ext (single_type_managers c) (block_pool c) free → (∀ i, 0 ≤ cost i) →
  (∀ (k : nat) m, single_type_managers c !! k = Some m →
     Z.max 0 (cdiv nt (block_size m) - py_len (blocks_of rid m)) ≤ cost (Z.of_nat k)) →
  total cost 0 (length (single_type_managers c)) ≤ py_len free →
  ∃ ret ms' p' free', coord_allocate_new_blocks rid nt c = Ok (ret, set_managers ms' p' c) ∧ coord_inv ext ms' p' free' ∧
    same_shape (block_pool c) p' ∧ py_len free - total cost 0 (length (single_type_managers c)) ≤ py_len free' ∧
    outcome (λ _ m a m', untouched rid m m' ∧ num_cached_block m' = num_cached_block m ∧
      blocks_of rid m' = blocks_of rid m ++ a ∧ py_len a = Z.max 0 (cdiv nt (block_size m) - py_len (blocks_of rid m)))
      0 (single_type_managers c) ret ms'.
Proof.
  intros Hinv Hcost Hpre Hfree.
  destruct (for_managers_spec (λ _, allocate_new_blocks rid nt) cost
    (λ i m _, Z.max 0 (cdiv nt (block_size m) - py_len (blocks_of rid m)) ≤ cost i)
    (λ _ m a m', untouched rid m m' ∧ num_cached_block m' = num_cached_block m ∧ blocks_of rid m' = blocks_of rid m ++ a ∧
       py_len a = Z.max 0 (cdiv nt (block_size m) - py_len (blocks_of rid m))) anything) with (ext := ext) (c := c) (free := free)
    as (ret & ms' & p' & free' & Hrun & Hinv' & Hsh & _ & Hlen & Hout); try done.
  - intros others i m p fr Hg Hn Hle.
    destruct (allocate_new_step others m p fr rid nt Hg) as (ret & m' & p' & Hr & Hst & Ht & Hl & Hk & Ho); [lia|].
    exists ret, m', p'. split_and!; try done; [by eapply group_step_weaken|by eapply step_untouched].
  - exists ret, ms', p', free'. by split_and!.
Qed.

(** Phase 1 of a prefix-cache hit: all groups take their hits. *)
Lemma coord_add_local_spec ext c free rid bss nl nx (cost : Z → Z) :
  coord_inv ext (single_type_managers c) (block_pool c) free → (∀ i, 0 ≤ cost i) → 0 ≤ nx →
  (∀ (k : nat) m, single_type_managers c !! k = Some m → ∃ bs, bss !! k = Some bs ∧ admits rid nl m (block_pool c) bs ∧
     _get_num_evictable_blocks (inside (skipped_blocks m (nl + nx)) bs) (block_pool c) ≤ cost (Z.of_nat k)) →
  total cost 0 (length (single_type_managers c)) ≤ py_len free →
  ∃ l ms' p' free', for_managers (λ i m p, bs ← py_get bss i; proc (add_local_computed_blocks rid bs nl nx) m p) c
      = Ok (l, set_managers ms' p' c) ∧ coord_inv ext ms' p' free' ∧ same_shape (block_pool c) p' ∧
    py_len free - total cost 0 (length (single_type_managers c)) ≤ py_len free' ∧
    outcome (λ i m (_ : unit) m', untouched rid m m' ∧ ∃ bs, bss !! Z.to_nat i = Some bs ∧
      blocks_of rid m' = replicate (Z.to_nat (skipped_blocks m (nl + nx))) (Blk 0) ++ inside (skipped_blocks m (nl + nx)) bs)
      0 (single_type_managers c) l ms'.
Proof.
  intros Hinv Hcost Hnx Hpre Hfree.
  destruct (for_managers_spec (λ i m p, bs ← py_get bss i; proc (add_local_computed_blocks rid bs nl nx) m p) cost
    (λ i m p, ∃ bs, bss !! Z.to_nat i = Some bs ∧ 0 ≤ i ∧ admits rid nl m p bs ∧ is_null (blk p (Blk 0)) = true ∧
       (∀ r, r ∈ bs → r ≠ Blk 0 → 0 ≤ ref_cnt (blk p r)) ∧ _get_num_evictable_blocks (inside (skipped_blocks m (nl + nx)) bs) p ≤ cost i)
    (λ i m (_ : unit) m', untouched rid m m' ∧ ∃ bs, bss !! Z.to_nat i = Some bs ∧
       blocks_of rid m' = replicate (Z.to_nat (skipped_blocks m (nl + nx))) (Blk 0) ++ inside (skipped_blocks m (nl + nx)) bs) held)
    with (ext := ext) (c := c) (free := free) as (l & ms' & p' & free' & Hrun & Hinv' & Hsh & _ & Hlen & Hout); try done.
  - intros i m p p' (bs & Hbs & Hi & Ha & Hnull & Href & Hev) Hsh Hh. exists bs.
    assert (Hin : ∀ r, r ∈ inside (skipped_blocks m (nl + nx)) bs → r ∈ bs).
    { intros r Hr. rewrite <-(take_drop (Z.to_nat (skipped_blocks m (nl + nx))) bs). apply elem_of_app. by right. }
    assert (Hval : ∀ r, r ∈ bs → has (pool_store p) r) by (intros r Hr; by destruct (ho_valid _ _ _ _ (am_hit _ _ _ _ _ Ha) r Hr) as (j & -> & ?)).
    split_and!; [done|done|eapply admits_stable; [done|apply Hh|done]|by rewrite <-(sh_is_null _ _ Hsh)| |].
    + intros r Hr Hr0. etransitivity; [by apply Href|]. apply Hh. by apply Hval.
    + etransitivity; [|exact Hev]. apply evictable_mono; [done|by intros r Hr; apply Hval, Hin|by intros r Hr; apply Href, Hin|done].
  - intros others i m p fr Hg (bs & Hbs & Hi & [E N Hh Hw Hs] & _ & _ & Hev) Hle.
    destruct (add_local_step others m p fr rid bs nl nx Hg E Hh Hw Hs Hnx) as (m' & p' & Hr & Hst & Hheld & Ht & _ & Ho).
    exists tt, m', p'. split_and!; [|by eapply group_step_weaken|done|by eapply step_untouched|by exists bs].
    rewrite py_get_nonneg, Hbs by done. cbn [unwrap mbind result_bind]. unfold proc. by rewrite Hr.
  - intros k m Hk. destruct (Hpre k m Hk) as (bs & Hbs & Ha & Hev). exists bs. rewrite Nat2Z.id. pose proof (cv_pool _ _ _ _ Hinv) as [Hq _].
    split_and!; [done|lia|done|by apply (qi_is_null _ _ Hq)| |done].
    intros r Hr Hr0. destruct (ho_valid _ _ _ _ (am_hit _ _ _ _ _ Ha) r Hr) as (j & -> & _). apply (qi_ref _ _ Hq). congruence.
  - exists l, ms', p', free'. by split_and!.
Qed.

(** Phase 2: all groups take blocks for the externally computed tokens. *)
Lemma coord_external_spec ext c free rid nl nx (cost : Z → Z) :
  coord_inv ext (single_type_managers c) (block_pool c) free → (∀ i, 0 ≤ cost i) →
  (∀ (k : nat) m, single_type_managers c !! k = Some m →
     external_blocks m nl nx (py_len (blocks_of rid m)) ≤ cost (Z.of_nat k)) →
  total cost 0 (length (single_type_managers c)) ≤ py_len free →
  ∃ l ms' p' free', for_managers (λ _, proc (allocate_external_computed_blocks rid nl nx)) c = Ok (l, set_managers ms' p' c) ∧
    coord_inv ext ms' p' free' ∧ same_shape (block_pool c) p' ∧
    py_len free - total cost 0 (length (single_type_managers c)) ≤ py_len free' ∧
    outcome (λ _ m (_ : unit) m', untouched rid m m' ∧ ∃ new, blocks_of rid m' = blocks_of rid m ++ new ∧
      py_len new = external_blocks m nl nx (py_len (blocks_of rid m))) 0 (single_type_managers c) l ms'.
Proof.
  intros Hinv Hcost Hpre Hfree.
  destruct (for_managers_spec (λ _, proc (allocate_external_computed_blocks rid nl nx)) cost
    (λ i m _, external_blocks m nl nx (py_len (blocks_of rid m)) ≤ cost i)
    (λ _ m (_ : unit) m', untouched rid m m' ∧ ∃ new, blocks_of rid m' = blocks_of rid m ++ new ∧
       py_len new = external_blocks m nl nx (py_len (blocks_of rid m))) anything) with (ext := ext) (c := c) (free := free)
    as (l & ms' & p' & free' & Hrun & Hinv' & Hsh & _ & Hlen & Hout); try done.
  - intros others i m p fr Hg Hn Hle. destruct (external_step others m p fr rid nl nx Hg) as (m' & p' & Hr & Hst & Ht & _ & Ho); [lia|].
    exists tt, m', p'. split_and!; [unfold proc; by rewrite Hr|by eapply group_step_weaken|done|by eapply step_untouched|done].
  - exists l, ms', p', free'. by split_and!.
Qed.
End Allocation.

(** ** The estimate is enough for all groups *)

(** A number computed from the manager and the hit of a group. *)
Definition at_group (g : Manager → list ref → Z) (ms : list Manager) (bss : list (list ref)) (k : Z) : Z :=
  match ms !! Z.to_nat k, bss !! Z.to_nat k with Some m, Some bs => g m bs | _, _ => 0 end.

Lemma at_group_nonneg g ms bss k : (∀ m bs, 0 ≤ g m bs) → 0 ≤ at_group g ms bss k.
Proof. intros Hg. unfold at_group. destruct (ms !! Z.to_nat k), (bss !! Z.to_nat k); auto; lia. Qed.

Lemma at_group_eq g ms bss (k : nat) m bs : ms !! k = Some m → bss !! k = Some bs → at_group g ms bss (Z.of_nat k) = g m bs.
Proof. intros Hm Hb. unfold at_group. by rewrite Nat2Z.id, Hm, Hb. Qed.

Section Sufficient.
Context `{PoolEnv} (rid : string) (nt nl nx : Z).
Implicit Types (ext : ref → Z) (c : Coordinator) (free : list ref).

(** The blocks of a table before new ones are added. *)
Definition cover (m : Manager) (bs : list ref) : Z := Z.max (skipped_blocks m (nl + nx)) (py_len bs).
Definition needed (m : Manager) (bs : list ref) : Z := Z.max 0 (cdiv nt (block_size m) - cover m bs).
Definition evicted (p : BlockPool) (m : Manager) (bs : list ref) : Z :=
  _get_num_evictable_blocks (inside (skipped_blocks m (nl + nx)) bs) p.
Definition external (m : Manager) (bs : list ref) : Z :=
  if 0 <? nx then external_blocks m nl nx (cover m bs) else 0.

Lemma external_needed m bs : 0 < block_size m → nl + nx ≤ nt → 0 ≤ external m bs ≤ needed m bs.
Proof.
  intros HB Hle. unfold external, needed, external_blocks. pose proof (cdiv_mono (nl + nx) nt (block_size m) HB Hle).
  destruct (0 <? nx); [|lia]. destruct (_ <=? 0); lia.
Qed.

Lemma hit_table_len s (bs : list ref) : 0 ≤ s → py_len (replicate (Z.to_nat s) (Blk 0) ++ inside s bs) = Z.max s (py_len bs).
Proof. intros Hs. unfold py_len, inside. rewrite length_app, length_replicate, length_drop. lia. Qed.

(** A new request in one group. *)
Definition admitted (ms : list Manager) (p : BlockPool) (bss : list (list ref)) : Prop :=
  ∀ (k : nat) m, ms !! k = Some m → window_ok m ∧ ∃ bs, bss !! k = Some bs ∧ admits rid nl m p bs.

(** The table after the three phases: null blocks, the hit and new blocks. *)
Definition admission_post (bss : list (list ref)) (i : Z) (m : Manager) (ret : list ref) (m' : Manager) : Prop :=
  untouched rid m m' ∧ cdiv nt (block_size m) ≤ py_len (blocks_of rid m') ∧
  ∃ bs ext_blocks, bss !! Z.to_nat i = Some bs ∧
    blocks_of rid m' = replicate (Z.to_nat (skipped_blocks m (nl + nx))) (Blk 0) ++
      inside (skipped_blocks m (nl + nx)) bs ++ ext_blocks ++ ret.

Lemma admission_estimate ext c free bss :
  coord_inv ext (single_type_managers c) (block_pool c) free → 0 ≤ nl + nx → admitted (single_type_managers c) (block_pool c) bss →
  coord_get_num_blocks_to_allocate rid nt bss (nl + nx) nl false c =
    Ok (total (at_group needed (single_type_managers c) bss) 0 (length (single_type_managers c)) +
        total (at_group (evicted (block_pool c)) (single_type_managers c) bss) 0 (length (single_type_managers c))).
Proof.
  intros Hinv Hn Had. rewrite <-total_add. apply coord_estimate. intros k m Hk. destruct (Had k m Hk) as (_ & bs & Hbs & [E N Hh Hw _]).
  exists bs. split; [done|]. assert (Hm : group_local m (block_pool c)) by (apply (cv_groups _ _ _ _ Hinv); by eapply list_elem_of_lookup_2).
  assert (Hf : fresh m rid) by (split; [done|by rewrite (gl_partial _ _ Hm)]).
  rewrite (estimate_fresh m (block_pool c) rid nt bs nl nx (gl_spec _ _ Hm) (gl_size _ _ Hm) Hn Hf N).
  rewrite !(at_group_eq _ _ _ k m bs) by done. unfold needed, evicted, cover. f_equal.
  unfold _has_partial_local_hit. rewrite Hw, andb_false_r. lia.
Qed.

(** Phases 1 and 2. *)
Lemma coord_computed_spec ext c free bss :
  coord_inv ext (single_type_managers c) (block_pool c) free → 0 ≤ nl → 0 ≤ nx → nl + nx ≤ nt →
  admitted (single_type_managers c) (block_pool c) bss →
  let ms := single_type_managers c in
  let n := total (at_group (evicted (block_pool c)) ms bss) 0 (length ms) + total (at_group external ms bss) 0 (length ms) in
  n ≤ py_len free →
  ∃ l ms' p' free', coord_allocate_new_computed_blocks rid bss nl nx c = Ok (set_managers ms' p' c) ∧ coord_inv ext ms' p' free' ∧
    same_shape (block_pool c) p' ∧ py_len free - n ≤ py_len free' ∧
    outcome (λ i m (_ : unit) m', untouched rid m m' ∧ ∃ bs ext_blocks, bss !! Z.to_nat i = Some bs ∧
      py_len (blocks_of rid m') = cover m bs + external m bs ∧
      blocks_of rid m' = replicate (Z.to_nat (skipped_blocks m (nl + nx))) (Blk 0) ++
        inside (skipped_blocks m (nl + nx)) bs ++ ext_blocks) 0 ms l ms'.
Proof.
  intros Hinv Hnl Hnx Hle Had ms n Hn.
  assert (Hs : ∀ (k : nat) m, ms !! k = Some m → 0 < block_size m ∧ 0 ≤ skipped_blocks m (nl + nx)).
  { intros k m Hk. assert (Hm : group_local m (block_pool c)) by (apply (cv_groups _ _ _ _ Hinv); by eapply list_elem_of_lookup_2).
    split; [apply Hm|]. apply skipped_blocks_nonneg; [apply Hm|apply Hm|lia]. }
  assert (Hev0 : ∀ i, 0 ≤ at_group (evicted (block_pool c)) ms bss i) by (intros i; apply at_group_nonneg; intros m bs; unfold evicted, _get_num_evictable_blocks; apply py_len_nonneg).
  assert (Hex0 : ∀ i, 0 ≤ at_group external ms bss i).
  { intros i. apply at_group_nonneg. intros m bs. unfold external. destruct (0 <? nx); [apply external_blocks_nonneg|lia]. }
  pose proof (at_groups_nonneg _ (length ms) Hev0 0). pose proof (at_groups_nonneg _ (length ms) Hex0 0).
  unfold coord_allocate_new_computed_blocks. replace (existsb _ _) with false.
  2: { symmetry. apply not_true_iff_false. intros (m & Hin & Hb)%existsb_exists. apply list_elem_of_In, list_elem_of_lookup in Hin as [k Hk].
       destruct (Had k m Hk) as (_ & bs & _ & [_ N _ _ _]). rewrite N in Hb. apply bool_decide_eq_true in Hb as [? ?]. done. }
  destruct (coord_add_local_spec ext c free rid bss nl nx (at_group (evicted (block_pool c)) ms bss) Hinv Hev0 Hnx)
    as (l1 & ms1 & p1 & free1 & -> & Hinv1 & Hsh1 & Hlen1 & [Hl1 Hm1 Hpost1]).
  { intros k m Hk. destruct (Had k m Hk) as (_ & bs & Hbs & Ha). exists bs. split_and!; [done|done|]. by rewrite (at_group_eq _ _ _ k m bs). }
  { fold ms. lia. }
  cbn [mbind result_bind]. fold ms in Hlen1, Hpost1, Hl1, Hm1.
  assert (Hp1 : ∀ (k : nat) m, ms !! k = Some m → ∃ m1 bs, ms1 !! k = Some m1 ∧ bss !! k = Some bs ∧ untouched rid m m1 ∧
    blocks_of rid m1 = replicate (Z.to_nat (skipped_blocks m (nl + nx))) (Blk 0) ++ inside (skipped_blocks m (nl + nx)) bs ∧
    py_len (blocks_of rid m1) = cover m bs).
  { intros k m Hk. destruct (Hpost1 k m Hk) as (a & m1 & _ & Hk1 & Hun & bs & Hbs & Ht). rewrite Z.add_0_l, Nat2Z.id in Hbs. exists m1, bs.
    split_and!; try done. rewrite Ht. apply hit_table_len. by apply (Hs k). }
  destruct (Z.ltb_spec 0 nx) as [Hpos|Hzero].
  2: { assert (Hz : ∀ m bs, external m bs = 0) by (intros; unfold external; by rewrite (proj2 (Z.ltb_ge 0 nx))).
       exists l1, ms1, p1, free1. split_and!; [done|done|done|lia|]. split; [done|done|]. intros k m Hk.
       destruct (Hp1 k m Hk) as (m1 & bs & Hk1 & Hbs & Hun & Ht & Hl). destruct (Hpost1 k m Hk) as (a & _ & Ha & _).
       exists a, m1. split; [done|]. split; [done|]. split; [done|]. exists bs, []. rewrite Z.add_0_l, Nat2Z.id, app_nil_r, Hz. split_and!; [done|lia|done]. }
  destruct (coord_external_spec ext (set_managers ms1 p1 c) free1 rid nl nx (at_group external ms bss) Hinv1 Hex0)
    as (l2 & ms2 & p2 & free2 & -> & Hinv2 & Hsh2 & Hlen2 & [Hl2 Hm2 Hpost2]).
  { intros k m1 Hk1. destruct (lookup_lt_is_Some_2 ms k) as [m Hk]; [rewrite <-Hm1; by eapply lookup_lt_Some|].
    destruct (Hp1 k m Hk) as (m1' & bs & Hk1' & Hbs & [Hcf _] & _ & Hl). simpl in Hk1. assert (m1' = m1) as -> by congruence.
    rewrite (at_group_eq _ _ _ k m bs) by done. rewrite Hl. unfold external. rewrite (proj2 (Z.ltb_lt 0 nx)) by done.
    apply config_fields in Hcf as (E1 & E2 & _). unfold external_blocks. by rewrite E1, E2. }
  { simpl. rewrite Hm1. lia. }
  cbn [mbind result_bind]. simpl in Hlen2, Hpost2, Hl2, Hm2. exists l2, ms2, p2, free2.
  split_and!; [done|done|by transitivity p1|rewrite Hm1 in Hlen2; lia|]. split; [lia|lia|]. intros k m Hk.
  destruct (Hp1 k m Hk) as (m1 & bs & Hk1 & Hbs & [Hcf Ho] & Ht & Hl). destruct (Hpost2 k m1 Hk1) as (a & m2 & Ha & Hk2 & [Hcf2 Ho2] & new & Ht2 & Hnew).
  exists a, m2. split; [done|]. split; [done|]. split; [split; [congruence|intros rid' Hne; by rewrite Ho2, Ho]|].
  exists bs, new. rewrite Z.add_0_l, Nat2Z.id. split_and!; [done| |by rewrite Ht2, Ht, <-app_assoc].
  rewrite Ht2, py_len_app, Hnew, Hl. unfold external. rewrite (proj2 (Z.ltb_lt 0 nx)) by done.
  apply config_fields in Hcf as (E1 & E2 & _). unfold external_blocks. by rewrite E1, E2.
Qed.

(** What is left for the last phase. *)
Definition remaining (use : bool) (ms : list Manager) (bss : list (list ref)) (k : Z) : Z :=
  Z.max 0 (at_group needed ms bss k - if use then at_group external ms bss k else 0).

Lemma needed_external ext c free bss k :
  coord_inv ext (single_type_managers c) (block_pool c) free → nl + nx ≤ nt →
  0 ≤ at_group external (single_type_managers c) bss k ≤ at_group needed (single_type_managers c) bss k.
Proof.
  intros Hinv Hle. unfold at_group. destruct (single_type_managers c !! Z.to_nat k) as [m|] eqn:Hm, (bss !! Z.to_nat k); try lia.
  assert (Hml : group_local m (block_pool c)) by (apply (cv_groups _ _ _ _ Hinv); by eapply list_elem_of_lookup_2).
  apply external_needed; [apply Hml|done].
Qed.

Lemma remaining_total ext c free bss use n :
  coord_inv ext (single_type_managers c) (block_pool c) free → nl + nx ≤ nt →
  total (remaining use (single_type_managers c) bss) 0 n + (if use then total (at_group external (single_type_managers c) bss) 0 n else 0) ≤
    total (at_group needed (single_type_managers c) bss) 0 n.
Proof.
  intros Hinv Hle. destruct use.
  - rewrite <-total_add. apply total_le. intros k _. pose proof (needed_external ext c free bss k Hinv Hle). unfold remaining. lia.
  - rewrite Z.add_0_r. apply total_le. intros k _. pose proof (needed_external ext c free bss k Hinv Hle). unfold remaining. lia.
Qed.

(** The first two phases, if there is something to add. *)
Lemma coord_phases12 ext c free bss (use : bool) n :
  coord_inv ext (single_type_managers c) (block_pool c) free → 0 ≤ nl → 0 ≤ nx → nl + nx ≤ nt →
  admitted (single_type_managers c) (block_pool c) bss → (use = false → nx = 0 ∧ ∀ bs, bs ∈ bss → bs = []) →
  let ms := single_type_managers c in
  let cost := remaining use ms bss in
  total (at_group needed ms bss) 0 (length ms) + total (at_group (evicted (block_pool c)) ms bss) 0 (length ms) = n → n ≤ py_len free →
  ∃ (l : list unit) ms1 p1 free1, (if use then coord_allocate_new_computed_blocks rid bss nl nx c else Ok c) = Ok (set_managers ms1 p1 c) ∧
    coord_inv ext ms1 p1 free1 ∧ same_shape (block_pool c) p1 ∧ py_len free - n + total cost 0 (length ms) ≤ py_len free1 ∧
    outcome (λ i m (_ : unit) m', untouched rid m m' ∧ ∃ bs ext_blocks, bss !! Z.to_nat i = Some bs ∧
      needed m bs - cost i ≤ py_len (blocks_of rid m') - cover m bs ∧ cover m bs ≤ py_len (blocks_of rid m') ∧
      blocks_of rid m' = replicate (Z.to_nat (skipped_blocks m (nl + nx))) (Blk 0) ++
        inside (skipped_blocks m (nl + nx)) bs ++ ext_blocks) 0 ms l ms1.
Proof.
  intros Hinv Hnl Hnx Hle Had Huse ms cost Hest Hn. pose proof (remaining_total ext c free bss use (length ms) Hinv Hle) as Hcost. fold ms cost in Hcost.
  assert (Hev0 : 0 ≤ total (at_group (evicted (block_pool c)) ms bss) 0 (length ms)).
  { apply at_groups_nonneg. intros i. apply at_group_nonneg. intros m bs. unfold evicted, _get_num_evictable_blocks. apply py_len_nonneg. }
  assert (Hc0 : 0 ≤ total cost 0 (length ms)) by (apply at_groups_nonneg; intros i; unfold cost, remaining; lia).
  destruct use.
  - destruct (coord_computed_spec ext c free bss Hinv Hnl Hnx Hle Had) as (l & ms1 & p1 & free1 & -> & Hi1 & Hs1 & Hl1 & [A1 A2 A3]); [fold ms; lia|].
    fold ms in Hl1, A1, A2, A3. exists l, ms1, p1, free1. split_and!; [done|done|done|lia|]. split; [done|done|]. intros k m Hk.
    destruct (A3 k m Hk) as (a & m1 & Ha & Hk1 & Hun & bs & eb & Hbs & Hl & Ht). exists a, m1. split; [done|]. split; [done|]. split; [done|].
    exists bs, eb. assert (Hbs' := Hbs). rewrite Z.add_0_l in Hbs' |- *. rewrite Nat2Z.id in Hbs'. split_and!; [done| |by destruct (external_needed m bs); [|done|lia];
      apply (gl_size _ _ (cv_groups _ _ _ _ Hinv m (list_elem_of_lookup_2 _ _ _ Hk)))|done].
    unfold cost, remaining. rewrite !(at_group_eq _ _ _ k m bs) by done. lia.
  - exists (replicate (length ms) tt), ms, (block_pool c), free. split_and!; [by destruct c|done|done|lia|]. split; [by rewrite length_replicate|done|].
    intros k m Hk. destruct (Had k m Hk) as (Hw & bs & Hbs & [E _ Hh _ _]). destruct (Huse eq_refl) as [Enx Enil].
    assert (Hm : group_local m (block_pool c)) by (apply (cv_groups _ _ _ _ Hinv); by eapply list_elem_of_lookup_2).
    assert (bs = []) as -> by (apply Enil; by eapply list_elem_of_lookup_2).
    assert (Enl : nl = 0) by (pose proof (ho_len _ _ _ _ Hh) as Hl; pose proof (cdiv_le_iff nl (block_size m) 0 (gl_size _ _ Hm)); unfold py_len in Hl; simpl in Hl; lia).
    assert (Hs : skipped_blocks m (nl + nx) = 0).
    { pose proof (skipped_blocks_nonneg m (nl + nx) (gl_size _ _ Hm) (gl_spec _ _ Hm) ltac:(lia)).
      pose proof (skipped_le_covered m (nl + nx) 0 (gl_size _ _ Hm) ltac:(lia) Hw (gl_spec _ _ Hm) ltac:(lia)). lia. }
    exists tt, m. split; [by apply lookup_replicate_2; eapply lookup_lt_Some|]. split; [done|]. split; [by split|]. exists [], [].
    unfold cost, remaining, cover. rewrite Z.add_0_l, !(at_group_eq _ _ _ k m []), Hs, E by done. rewrite Nat2Z.id. split_and!; [done|..|done]; unfold py_len; simpl; lia.
Qed.

(** All phases; [use] is [False] when there is nothing computed to add. *)
Lemma coord_admit ext c free bss (use : bool) n :
  coord_inv ext (single_type_managers c) (block_pool c) free → 0 ≤ nl → 0 ≤ nx → nl + nx ≤ nt →
  admitted (single_type_managers c) (block_pool c) bss → (use = false → nx = 0 ∧ ∀ bs, bs ∈ bss → bs = []) →
  coord_get_num_blocks_to_allocate rid nt bss (nl + nx) nl false c = Ok n → n ≤ py_len free →
  ∃ c1 ret ms' p' free', (if use then coord_allocate_new_computed_blocks rid bss nl nx c else Ok c) = Ok c1 ∧
    coord_allocate_new_blocks rid nt c1 = Ok (ret, set_managers ms' p' c) ∧ coord_inv ext ms' p' free' ∧
    same_shape (block_pool c) p' ∧ py_len free - n ≤ py_len free' ∧
    outcome (admission_post bss) 0 (single_type_managers c) ret ms'.
Proof.
  intros Hinv Hnl Hnx Hle Had Huse Hest Hn. set (ms := single_type_managers c) in *.
  rewrite (admission_estimate ext c free bss Hinv ltac:(lia) Had) in Hest. injection Hest as Hest. fold ms in Hest.
  set (cost := remaining use ms bss). assert (Hcost : ∀ i, 0 ≤ cost i) by (intros i; unfold cost, remaining; lia).
  destruct (coord_phases12 ext c free bss use n Hinv Hnl Hnx Hle Had Huse Hest Hn) as (l & ms1 & p1 & free1 & Hrun1 & Hi1 & Hs1 & Hl1 & [A1 A2 A3]).
  fold ms in Hl1, A1, A2, A3. fold cost in Hl1. pose proof (at_groups_nonneg cost (length ms) Hcost 0).
  destruct (coord_allocate_new_spec ext (set_managers ms1 p1 c) free1 rid nt cost Hi1) as (ret & ms2 & p2 & free2 & Hrun2 & Hi2 & Hs2 & Hl2 & [B1 B2 B3]).
  { done. }
  { intros k m1 Hk1. simpl in Hk1. destruct (lookup_lt_is_Some_2 ms k) as [m Hk]; [rewrite <-A2; by eapply lookup_lt_Some|].
    destruct (A3 k m Hk) as (a & m1' & _ & Hk1' & [Hcf _] & bs & eb & Hbs & Hd & _). assert (m1' = m1) as -> by congruence.
    apply config_fields in Hcf as (_ & -> & _). rewrite Z.add_0_l in Hd. unfold needed in Hd. fold ms cost in Hd. specialize (Hcost (Z.of_nat k)). lia. }
  { simpl. rewrite A2. lia. }
  simpl in Hl2, B1, B2, B3. rewrite A2 in Hl2. exists (set_managers ms1 p1 c), ret, ms2, p2, free2.
  split_and!; [done|done|done|by transitivity p1|lia|]. split; [lia|lia|]. intros k m Hk.
  destruct (A3 k m Hk) as (a & m1 & _ & Hk1 & [Hcf Ho] & bs & eb & Hbs & _ & _ & Ht). destruct (B3 k m1 Hk1) as (r & m2 & Hr & Hk2 & [Hcf2 Ho2] & _ & Ht2 & Hlr).
  exists r, m2. split; [done|]. split; [done|]. split; [split; [congruence|intros rid' Hne; by rewrite Ho2, Ho]|].
  apply config_fields in Hcf as (_ & Esz & _). rewrite Esz in Hlr. split; [rewrite Ht2, py_len_app; lia|].
  exists bs, eb. split; [done|]. by rewrite Ht2, Ht, <-!app_assoc.
Qed.
End Sufficient.

Section Continue.
Context `{PoolEnv}.
Implicit Types (ext : ref → Z) (c : Coordinator) (free : list ref).

(** A request with blocks already: its table covers the computed tokens. *)
Definition continues (rid : string) (computed : Z) (m : Manager) : Prop :=
  window_ok m ∧ computed ≤ py_len (blocks_of rid m) * block_size m.

Lemma estimate_running rid nt computed cap m p :
  group_local m p → continues rid computed m → 0 ≤ computed → cap = false →
  get_num_blocks_to_allocate rid nt [] computed computed cap m p =
    Ok (Z.max 0 (cdiv nt (block_size m) - py_len (blocks_of rid m))).
Proof.
  intros Hm [Hw Hc] Hn ->. pose proof (gl_size _ _ Hm) as HB. pose proof (gl_spec _ _ Hm) as Hsp. unfold get_num_blocks_to_allocate.
  replace (is_ring (kv_cache_spec m)) with false by (by destruct (kv_cache_spec m)).
  replace (match max_admission_blocks m with Some _ | _ => cdiv nt (block_size m) end) with (cdiv nt (block_size m))
    by (by destruct (max_admission_blocks m)).
  destruct (num_cached_block m !! rid); [by rewrite Z.max_comm|]. fold (skipped_blocks m computed).
  pose proof (skipped_le_covered m computed _ HB Hn Hw Hsp Hc). unfold _has_partial_local_hit, _get_num_evictable_blocks.
  rewrite py_from_nonneg, drop_nil, filter_nil by lia. change (py_len ([] : list ref)) with 0. cbn [Z.ltb Z.compare andb]. f_equal. lia.
Qed.

Lemma coord_continue ext c free rid nt computed n (bss : list (list ref)) :
  coord_inv ext (single_type_managers c) (block_pool c) free → 0 ≤ computed →
  (∀ m, m ∈ single_type_managers c → continues rid computed m) →
  (∀ (k : nat), (k < length (single_type_managers c))%nat → bss !! k = Some []) →
  coord_get_num_blocks_to_allocate rid nt bss computed computed false c = Ok n → n ≤ py_len free →
  ∃ ret ms' p' free', coord_allocate_new_blocks rid nt c = Ok (ret, set_managers ms' p' c) ∧ coord_inv ext ms' p' free' ∧
    same_shape (block_pool c) p' ∧ py_len free - n ≤ py_len free' ∧
    outcome (λ _ m a m', untouched rid m m' ∧ num_cached_block m' = num_cached_block m ∧
      cdiv nt (block_size m) ≤ py_len (blocks_of rid m') ∧ blocks_of rid m' = blocks_of rid m ++ a)
      0 (single_type_managers c) ret ms'.
Proof.
  intros Hinv Hn Hco Hbss Hest Hle. set (ms := single_type_managers c) in *.
  set (cost := at_group (λ m _, Z.max 0 (cdiv nt (block_size m) - py_len (blocks_of rid m))) ms (replicate (length ms) [])).
  assert (Hc : ∀ k m, ms !! k = Some m → cost (Z.of_nat k) = Z.max 0 (cdiv nt (block_size m) - py_len (blocks_of rid m))).
  { intros k m Hk. unfold cost. rewrite (at_group_eq _ _ _ k m []); [done|done|]. apply lookup_replicate_2. by eapply lookup_lt_Some. }
  rewrite (coord_estimate c rid nt bss computed computed false cost) in Hest.
  2: { intros k m Hk. exists []. split; [apply Hbss; by eapply lookup_lt_Some|]. rewrite (Hc k m Hk).
       apply list_elem_of_lookup_2 in Hk as Hin. apply estimate_running; [by apply (cv_groups _ _ _ _ Hinv)|by apply Hco|done|done]. }
  injection Hest as Hest. fold ms in Hest.
  destruct (coord_allocate_new_spec ext c free rid nt cost Hinv) as (ret & ms' & p' & free' & Hrun & Hi & Hs & Hl & [B1 B2 B3]).
  { intros i. apply at_group_nonneg. intros. lia. }
  { intros k m Hk. by rewrite (Hc k m Hk). }
  { fold ms. lia. }
  fold ms in Hl, B1, B2, B3. exists ret, ms', p', free'. split_and!; [done|done|done|lia|]. split; [done|done|]. intros k m Hk.
  destruct (B3 k m Hk) as (a & m' & Ha & Hk' & Hun & Hkn & Ht & Hla). exists a, m'. split; [done|]. split; [done|]. split; [done|].
  split_and!; [done|rewrite Ht, py_len_app; lia|done].
Qed.

(** ** Caching in all groups *)

(** The group can cache the first [n] tokens of the request. *)
Record can_cache (c : Coordinator) (req : Request) (n : Z) (m : Manager) (p : BlockPool) : Prop := {
  cc_group : cacheable (retention_interval c) m p;
  cc_cover : cdiv n (block_size m) ≤ py_len (blocks_of (request_id req) m);
}.

Lemma tokens_to_cache_bounds c n m :
  0 ≤ n → 0 < co_scheduler_block_size c → 0 ≤ num_reprefillable_tokens c → 0 ≤ block_size m →
  0 ≤ num_tokens_to_cache n m c ≤ n.
Proof.
  intros Hn HS Hr HB. unfold num_tokens_to_cache, _align_cacheable. set (S := co_scheduler_block_size c) in *.
  assert (Hal : ∀ x, 0 ≤ x → 0 ≤ x / S * S ≤ x) by (intros x Hx; pose proof (Z.div_pos x S Hx HS); pose proof (Z.mul_div_le x S HS); nia).
  destruct (coordinator_class c); [lia|lia|]. pose proof (Hal n Hn). destruct (_ && _); [|lia].
  pose proof (Hal (Z.max 0 (n - num_reprefillable_tokens c)) ltac:(lia)). lia.
Qed.

Lemma div_le_cdiv n n' B : 0 < B → n' ≤ n → n' / B ≤ cdiv n B.
Proof. intros HB Hle. pose proof (cdiv_spec n B HB). pose proof (Z.mul_div_le n' B HB). assert (n' / B * B ≤ cdiv n B * B) by lia. nia. Qed.

Lemma hash_cover n B hbs len tokens :
  0 < B → 0 < hbs → B mod hbs = 0 → n ≤ tokens → len = tokens / hbs → n / B * B ≤ len * hbs.
Proof.
  intros HB Hh Hm Hn ->. pose proof (mod_mul_div B hbs Hh Hm) as Hb. pose proof (Z.mul_div_le n B HB).
  assert (n / B * (B / hbs) ≤ tokens / hbs) by (apply Z.div_le_lower_bound; [done|nia]). nia.
Qed.

Lemma cache_each_spec ext c n ms : ∀ dn req p free,
  coord_inv ext (dn ++ ms) p free → enable_caching p = true → request_ready req → 0 ≤ n →
  0 < co_scheduler_block_size c → 0 ≤ num_reprefillable_tokens c →
  n ≤ num_tokens req → py_len (block_hashes req) = num_tokens req / hash_block_size p →
  (∀ m, m ∈ ms → can_cache c req n m p) →
  ∃ req' ms' p' free', cache_each n c req ms p = Ok (req', ms', p') ∧ coord_inv ext (dn ++ ms') p' free' ∧ same_shape p p' ∧
    py_len free ≤ py_len free' ∧ strip req' = strip req ∧ request_ready req' ∧
    Forall2 (λ m m', config m' = config m ∧ ∀ rid, blocks_of rid m' = blocks_of rid m) ms ms'.
Proof.
  induction ms as [|m ms IH]; intros dn req p free Hinv Hcache Hready Hn HS Hr Htok Hhash Hms; simpl.
  { exists req, [], p, free. by split_and!. }
  pose proof (coord_group ext dn m ms p free Hinv) as Hg. destruct (Hms m ltac:(left)) as [Hcb Hcov]. pose proof (gl_size _ _ (gi_ok _ _ _ _ Hg)) as HB.
  pose proof (tokens_to_cache_bounds c n m Hn HS Hr ltac:(lia)) as Hb.
  destruct (cache_step _ m p free (retention_interval c) req (num_tokens_to_cache n m c) Hg Hcb Hcache Hready) as (req1 & m1 & p1 & Hrun1 & [Hst Hbl _ Hstr Hrd]).
  { lia. }
  { etransitivity; [|exact Hcov]. apply div_le_cdiv; [done|lia]. }
  { eapply hash_cover; [done|apply Hcb|apply Hcb| |done]. lia. }
  destruct (coord_step ext dn m ms p free 0 m1 p1 Hinv Hst) as (free1 & Hinv1 & Hlen1). pose proof (ca_shape _ _ _ (gs_calm _ _ _ _ _ _ _ Hst)) as Hsh.
  pose proof (sh_config _ _ Hsh) as Hcf.
  assert (Hreq : request_id req1 = request_id req ∧ num_tokens req1 = num_tokens req ∧ block_hashes req1 = block_hashes req).
  { change (request_id (strip req1) = request_id (strip req) ∧ num_tokens (strip req1) = num_tokens (strip req) ∧ block_hashes (strip req1) = block_hashes (strip req)). by rewrite Hstr. }
  destruct Hreq as (Er & Et & Eh).
  destruct (IH (dn ++ [m1]) req1 p1 free1) as (req' & ms' & p' & free' & Hrun & Hinv' & Hsh' & Hlen' & Hstr' & Hrd' & Hf); try done.
  - by rewrite <-app_assoc.
  - by rewrite <-(cf_caching _ _ Hcf).
  - by rewrite Et.
  - by rewrite Et, Eh, <-(cf_hash_size _ _ Hcf).
  - intros m2 Hm2. destruct (Hms m2 ltac:(by right)) as [Hcb2 Hcov2]. split; [by eapply cacheable_same|by rewrite Er].
  - rewrite Hrun1. cbn [mbind result_bind]. rewrite Hrun. cbn [mbind result_bind]. exists req', (m1 :: ms'), p', free'.
    split_and!; [done|by rewrite <-app_assoc in Hinv'|by transitivity p1|lia|congruence|done|].
    constructor; [|done]. split; [apply (gs_config _ _ _ _ _ _ _ Hst)|done].
Qed.

Lemma coord_cache_spec ext c free req n :
  coord_inv ext (single_type_managers c) (block_pool c) free → enable_caching (block_pool c) = true → request_ready req → 0 ≤ n →
  0 < co_scheduler_block_size c → 0 ≤ num_reprefillable_tokens c →
  n ≤ num_tokens req → py_len (block_hashes req) = num_tokens req / hash_block_size (block_pool c) →
  (∀ m, m ∈ single_type_managers c → can_cache c req n m (block_pool c)) →
  ∃ req' ms' p' free', coord_cache_blocks req n c = Ok (req', set_managers ms' p' c) ∧ coord_inv ext ms' p' free' ∧
    same_shape (block_pool c) p' ∧ py_len free ≤ py_len free' ∧ strip req' = strip req ∧ request_ready req' ∧
    Forall2 (λ m m', config m' = config m ∧ ∀ rid, blocks_of rid m' = blocks_of rid m) (single_type_managers c) ms'.
Proof.
  intros Hinv Hcache Hready Hn HS Hr Htok Hhash Hms.
  destruct (cache_each_spec ext c n (single_type_managers c) [] req (block_pool c) free) as (req' & ms' & p' & free' & Hrun & H1 & H2 & H3 & H4 & H5 & H6); try done.
  exists req', ms', p', free'. split_and!; try done. unfold coord_cache_blocks. by rewrite Hrun.
Qed.
End Continue.
