(* ===== verification/KVCacheManager.v ===== *)
(** * The KV cache manager

    [vllm/vllm/v1/core/kv_cache_manager.py]: what the scheduler talks to.  It
    looks up the prefix-cache hit of a request, allocates slots for the tokens
    of a step or reports that they do not fit, and frees requests.  The
    coordinator and its pool are part of its state.

    The watermark is a fraction of the blocks in floating point; the number of
    blocks computed from it at start-up is a field.  The metadata that cache
    events are annotated with (kind and window of each group) is a field as
    well, since it depends on the class of a specification only. *)

From S2P Require Import Prelude FreeQueue Request BlockHash BlockMap BlockPool BlockPoolSpec CacheHit SingleTypeManager Coordinator.
Local Open Scope Z_scope.

(** ** Statistics *)

Record PrefixCacheStats : Type := mkStats {
  ps_reset : bool;
  ps_requests : Z;
  ps_queries : Z;
  ps_hits : Z;
  preempted_requests : Z;
  preempted_queries : Z;
  preempted_hits : Z;
}.

Definition new_stats : PrefixCacheStats := mkStats false 0 0 0 0 0 0.

(** [PrefixCacheStats.record] *)
Definition record_stats (num_tokens num_hits : Z) (preempted : bool) (s : PrefixCacheStats) : PrefixCacheStats :=
  if preempted then
    mkStats (ps_reset s) (ps_requests s) (ps_queries s) (ps_hits s)
      (preempted_requests s + 1) (preempted_queries s + num_tokens) (preempted_hits s + num_hits)
  else
    mkStats (ps_reset s) (ps_requests s + 1) (ps_queries s + num_tokens) (ps_hits s + num_hits)
      (preempted_requests s) (preempted_queries s) (preempted_hits s).

(** ** State *)

(** [KVCacheBlocks]: the shared empty object, or one built for a result. *)
Inductive ComputedBlocks : Type :=
  | EmptyBlocks
  | Blocks (blocks : list (list ref)).

Record KVCacheManager : Type := mkKV {
  max_model_len : Z;
  km_enable_caching : bool;
  km_enable_events : bool;
  log_stats : bool;
  prefix_cache_stats : option PrefixCacheStats;
  coordinator : Coordinator;
  watermark_blocks : Z;
  kv_cache_event_metadata : list (string * option Z);
}.

Definition set_coordinator (v : Coordinator) (k : KVCacheManager) : KVCacheManager :=
  mkKV (max_model_len k) (km_enable_caching k) (km_enable_events k) (log_stats k) (prefix_cache_stats k) v
    (watermark_blocks k) (kv_cache_event_metadata k).

Definition set_stats (v : option PrefixCacheStats) (k : KVCacheManager) : KVCacheManager :=
  mkKV (max_model_len k) (km_enable_caching k) (km_enable_events k) (log_stats k) v (coordinator k)
    (watermark_blocks k) (kv_cache_event_metadata k).

Definition set_pool (p : BlockPool) (k : KVCacheManager) : KVCacheManager :=
  set_coordinator (set_managers (single_type_managers (coordinator k)) p (coordinator k)) k.

Definition km_pool (k : KVCacheManager) : BlockPool := block_pool (coordinator k).

(** [KVCacheManager.__init__] *)
Definition new_kv_cache_manager (config : KVCacheConfig) (model_len sched_block_size hash_bs : Z)
    (max_in_flight_tokens : option Z) (caching use_eagle : bool) (num_prefill_lookahead : Z) (stats events : bool)
    (dcp pcp : Z) (metrics : option (list MetricsCall)) (watermark : Z) (metadata : list (string * option Z)) :
    result KVCacheManager :=
  let max_in_flight_tokens := default model_len max_in_flight_tokens in
  c ← get_kv_cache_coordinator config model_len max_in_flight_tokens use_eagle caching events dcp pcp
        sched_block_size hash_bs metrics num_prefill_lookahead;
  _ ← py_assert (0 <=? watermark);
  Ok (mkKV model_len caching events stats (if stats then Some new_stats else None) c watermark metadata).

(** ** Look-up *)

Definition empty_blocks (k : KVCacheManager) : list (list ref) := replicate (length (co_groups (coordinator k))) [].

(** The [blocks] of a [KVCacheBlocks] object. *)
Definition blocks_list (b : ComputedBlocks) (k : KVCacheManager) : list (list ref) :=
  match b with EmptyBlocks => empty_blocks k | Blocks l => l end.

Definition create_kv_cache_blocks (blocks : list (list ref)) : ComputedBlocks :=
  if existsb (λ bs, negb (py_len bs =? 0)) blocks then Blocks blocks else EmptyBlocks.

Definition make_prefix_cache_stats (k : KVCacheManager) : option PrefixCacheStats * KVCacheManager :=
  if log_stats k then (prefix_cache_stats k, set_stats (Some new_stats) k) else (None, k).

Definition prefix_cache_lookup_enabled (req : Request) (k : KVCacheManager) : bool :=
  km_enable_caching k && negb (skip_reading_prefix_cache req).

Definition record_prefix_cache_stats (req : Request) (num_hits : Z) (k : KVCacheManager) : result KVCacheManager :=
  if negb (log_stats k) || negb (prefix_cache_lookup_enabled req k) then Ok k
  else
    s ← unwrap AssertionError (prefix_cache_stats k);
    Ok (set_stats (Some (record_stats (num_tokens req) num_hits (0 <? num_preemptions req) s)) k).

Section Operations.
Context `{PoolEnv}.

(** The events for reused blocks, group by group. *)
Definition report_hit (groups : list KVCacheGroupSpec) (acc : BlockPool * Request) (ib : nat * list ref) :
    result (BlockPool * Request) :=
  let '(p, req) := acc in
  let '(i, bs) := ib in
  if py_len bs =? 0 then Ok (p, req)
  else
    g ← py_get groups (Z.of_nat i);
    emit_cached_block_events req (py_len bs) (spec_block_size (group_spec g)) (Z.of_nat i) p.

(** [report_full] is [request.kv_cache_report_mode == "full"]. *)
Definition get_computed_blocks (req : Request) (report_full : bool) (k : KVCacheManager) :
    result (ComputedBlocks * Z * Z * Request * KVCacheManager) :=
  if negb (prefix_cache_lookup_enabled req k) then Ok (EmptyBlocks, 0, 0, req, k)
  else
    let max_cache_hit_length := num_tokens req - 1 in
    '(computed_blocks, num_new_computed_tokens, num_uncached) ←
      coord_find_longest_cache_hit (RawHashes (block_hashes req)) max_cache_hit_length (coordinator k);
    '(p, req) ←
      (if (0 <? num_new_computed_tokens) && km_enable_events k && report_full
       then foldM (report_hit (co_groups (coordinator k))) (km_pool k, req) (imap pair computed_blocks)
       else Ok (km_pool k, req));
    let boundary := if num_uncached =? 0 then 0 else num_new_computed_tokens + num_uncached in
    Ok (create_kv_cache_blocks computed_blocks, num_new_computed_tokens, boundary, req, set_pool p k).

(** Without Mamba layers the connector uses the same look-up. *)
Definition get_computed_blocks_for_connector (req : Request) (report_full : bool) (k : KVCacheManager) :
    result (ComputedBlocks * Z * Z * bool * Request * KVCacheManager) :=
  '(blocks, n, boundary, req, k) ← get_computed_blocks req report_full k;
  Ok (blocks, n, boundary, false, req, k).

(** ** Allocation *)

(** [request.status in (RequestStatus.WAITING, RequestStatus.PREEMPTED)] *)
Definition is_waiting (req : Request) : bool :=
  bool_decide (status req = WAITING) || bool_decide (status req = PREEMPTED).

Definition allocate_slots (req : Request) (num_new_tokens num_new_computed_tokens : Z)
    (new_computed_blocks : option ComputedBlocks) (num_lookahead_tokens num_external_computed_tokens : Z)
    (delay_cache_blocks full_sequence_must_fit : bool) (reserved_blocks : Z) (has_scheduled_reqs : bool)
    (k : KVCacheManager) : result (option ComputedBlocks * Request * KVCacheManager) :=
  _ ← (if (num_new_tokens =? 0) && (num_external_computed_tokens =? 0) then Err ValueError else Ok tt);
  let computed := default EmptyBlocks new_computed_blocks in
  let new_computed_block_list := blocks_list computed k in
  let num_local_computed_tokens := num_computed_tokens req + num_new_computed_tokens in
  let total_computed_tokens :=
    Z.min (num_local_computed_tokens + num_external_computed_tokens) (max_model_len k) in
  let watermark := if has_scheduled_reqs && is_waiting req then watermark_blocks k else 0 in
  fits ← (if full_sequence_must_fit then
            let full_num_tokens := Z.min (num_tokens req) (max_model_len k) in
            n ← coord_get_num_blocks_to_allocate (request_id req) full_num_tokens new_computed_block_list
                  total_computed_tokens num_local_computed_tokens true (coordinator k);
            Ok (n + watermark <=? get_num_free_blocks (km_pool k))
          else Ok true);
  if negb fits then Ok (None, req, k)
  else
    let num_tokens_main_model := total_computed_tokens + num_new_tokens in
    let num_tokens_need_slot := Z.min (num_tokens_main_model + num_lookahead_tokens) (max_model_len k) in
    c ← coord_remove_skipped_blocks (request_id req)
          (Z.max 0 (total_computed_tokens - num_in_flight_tokens req)) (Some (num_prompt_tokens req)) (coordinator k);
    n ← coord_get_num_blocks_to_allocate (request_id req) num_tokens_need_slot new_computed_block_list
          (num_local_computed_tokens + num_external_computed_tokens) num_local_computed_tokens false c;
    if get_num_free_blocks (block_pool c) - reserved_blocks <? n + watermark
    then Ok (None, req, set_coordinator c k)
    else
      c ← (if match computed with EmptyBlocks => false | Blocks _ => true end || (0 <? num_external_computed_tokens)
           then coord_allocate_new_computed_blocks (request_id req) new_computed_block_list
                  num_local_computed_tokens num_external_computed_tokens c
           else Ok c);
      '(new_blocks, c) ← coord_allocate_new_blocks (request_id req) num_tokens_need_slot c;
      if negb (km_enable_caching k) || delay_cache_blocks
      then Ok (Some (create_kv_cache_blocks new_blocks), req, set_coordinator c k)
      else
        let to_cache := Z.min (total_computed_tokens + num_new_tokens) (num_tokens req) in
        '(req, c) ← coord_cache_blocks req to_cache c;
        Ok (Some (create_kv_cache_blocks new_blocks), req, set_coordinator c k).

(** ** Release and maintenance *)

Definition km_free (req : Request) (k : KVCacheManager) : result KVCacheManager :=
  c ← coord_free (request_id req) (coordinator k); Ok (set_coordinator c k).

Definition km_remove_skipped_blocks (rid : string) (processed_computed_tokens : Z) (num_prompt_tokens : option Z)
    (k : KVCacheManager) : result KVCacheManager :=
  c ← coord_remove_skipped_blocks rid processed_computed_tokens num_prompt_tokens (coordinator k);
  Ok (set_coordinator c k).

Definition km_cache_blocks (req : Request) (num_computed_tokens : Z) (k : KVCacheManager) : result (Request * KVCacheManager) :=
  if km_enable_caching k then
    '(req, c) ← coord_cache_blocks req num_computed_tokens (coordinator k); Ok (req, set_coordinator c k)
  else Ok (req, k).
Definition km_evict_blocks (block_ids : list Z) (k : KVCacheManager) : result KVCacheManager :=
  p ← evict_blocks block_ids (km_pool k); Ok (set_pool p k).

End Operations.

Definition km_pop_blocks_for_free (req : Request) (k : KVCacheManager) : list ref * KVCacheManager :=
  let '(blocks, c) := coord_pop_blocks_for_free (request_id req) (coordinator k) in
  (blocks, set_coordinator c k).

Definition km_reset_prefix_cache (k : KVCacheManager) : result (bool * KVCacheManager) :=
  let '(done, p) := reset_prefix_cache (km_pool k) in
  if negb done then Ok (false, set_pool p k)
  else if log_stats k then
    s ← unwrap AssertionError (prefix_cache_stats k);
    Ok (true, set_stats (Some (mkStats true (ps_requests s) (ps_queries s) (ps_hits s)
                                 (preempted_requests s) (preempted_queries s) (preempted_hits s))) (set_pool p k))
  else Ok (true, set_pool p k).

Definition km_get_num_common_prefix_blocks (rid : string) (k : KVCacheManager) : list Z * KVCacheManager :=
  let '(l, c) := coord_get_num_common_prefix_blocks rid (coordinator k) in (l, set_coordinator c k).

(** The annotation of an event with the kind and the window of its group. *)
Definition annotate (metadata : list (string * option Z)) (e : KVCacheEvent) : KVCacheEvent * option (string * option Z) :=
  match e with
  | BlockStored _ _ _ _ _ _ _ _ g =>
      (e, if (g <? 0) || (py_len metadata <=? g) then None else metadata !! Z.to_nat g)
  | _ => (e, None)
  end.

Definition km_take_events (k : KVCacheManager) : list (KVCacheEvent * option (string * option Z)) * KVCacheManager :=
  let '(events, p) := take_events (km_pool k) in
  (annotate (kv_cache_event_metadata k) <$> events, set_pool p k).

Definition km_get_blocks (rid : string) (k : KVCacheManager) : ComputedBlocks :=
  create_kv_cache_blocks (coord_get_blocks rid (coordinator k)).

(** [KVCacheBlocks.get_block_ids] *)
Definition km_get_block_ids (rid : string) (k : KVCacheManager) : list (list Z) :=
  (λ bs : list ref, block_id <$> bs) <$> blocks_list (km_get_blocks rid k) k.

Definition get_block_ids_for_computed_tokens (rid : string) (num_computed_tokens : Z) (k : KVCacheManager) :
    list (list Z) :=
  zip_with (λ g ids, py_upto ids (cdiv num_computed_tokens (spec_block_size (group_spec g))))
    (co_groups (coordinator k)) (km_get_block_ids rid k).

Definition estimate_cached_tokens (req : Request) (k : KVCacheManager) : Z :=
  let per_group := zip_with (λ _ bs,
        foldl (λ n r, Z.max n (default 0 (block_hash_num_tokens (blk (km_pool k) r)))) 0 bs)
      (co_groups (coordinator k)) (blocks_list (km_get_blocks (request_id req) k) k) in
  match per_group with [] => 0 | n :: ns => foldl Z.min n ns end.

(** The body of the loop of [truncate_computed_blocks]. *)
Definition truncate_one_group (num_computed_tokens : Z) (x : list ref * (Manager * KVCacheGroupSpec)) : result (list ref) :=
  let '(bs, (m, g)) := x in
  if negb (prefix_cacheable (group_spec g)) then _ ← py_assert (py_len bs =? 0); Ok []
  else
    _ ← py_assert (num_computed_tokens mod block_size m =? 0);
    let n := num_computed_tokens / block_size m in
    _ ← py_assert (n <=? py_len bs);
    Ok (py_upto bs n).

(** [zip(..., strict=True)] raises when the lengths differ. *)
Definition truncate_computed_blocks (blocks : ComputedBlocks) (num_computed_tokens : Z) (k : KVCacheManager) :
    result ComputedBlocks :=
  let l := blocks_list blocks k in
  let ms := single_type_managers (coordinator k) in
  let gs := co_groups (coordinator k) in
  truncated ← mapM_ok (truncate_one_group num_computed_tokens) (zip l (zip ms gs));
  _ ← (if (Nat.eqb (length l) (length ms)) && (Nat.eqb (length ms) (length gs)) then Ok tt else Err ValueError);
  Ok (create_kv_cache_blocks truncated).

(** The managers' drains, concatenated. *)
Definition km_take_new_block_ids (k : KVCacheManager) : list Z * KVCacheManager :=
  let c := coordinator k in
  let taken := take_new_block_ids <$> single_type_managers c in
  (concat (taken.*1), set_coordinator (set_managers (taken.*2) (block_pool c) c) k).

Definition get_zeroing_block_ids_in_range (rid : string) (start_token end_token : Z) (k : KVCacheManager) :
    list Z * KVCacheManager :=
  let c := coordinator k in
  let ms := single_type_managers c in
  (concat ((λ m, if record_new_block_ids m
                 then block_id <$> py_slice (blocks_of rid m) (start_token / block_size m) (cdiv end_token (block_size m))
                 else []) <$> ms),
   set_coordinator (set_managers ((λ m, if record_new_block_ids m then set_blocks rid (blocks_of rid m) m else m) <$> ms)
                      (block_pool c) c) k).

Definition record_for_zeroing (rid : string) (start_token : Z) (m : Manager) : result Manager :=
  if record_new_block_ids m then
    _ ← py_assert (start_token mod block_size m =? 0);
    let blocks := blocks_of rid m in
    Ok (set_new_block_ids (new_block_ids m ++ (block_id <$> py_from blocks (start_token / block_size m))) (set_blocks rid blocks m))
  else Ok m.

Definition record_blocks_for_zeroing (rid : string) (start_token : Z) (k : KVCacheManager) : result KVCacheManager :=
  let c := coordinator k in
  ms ← mapM_ok (record_for_zeroing rid start_token) (single_type_managers c);
  Ok (set_coordinator (set_managers ms (block_pool c) c) k).

(** The copies (source and destination id) and the blocks retained for them. *)
Definition take_kv_cache_block_copies (k : KVCacheManager) : list (Z * Z) * list ref * KVCacheManager :=
  let c := coordinator k in
  let taken := take_pending_cow_copies <$> single_type_managers c in
  let pending := concat (taken.*1) in
  ((λ sd, (block_id sd.1, block_id sd.2)) <$> pending,
   concat ((λ sd, [sd.1; sd.2]) <$> pending),
   set_coordinator (set_managers (taken.*2) (block_pool c) c) k).
