(* ===== verification/KVCacheManagerSpec.v ===== *)
(** * Correctness of the KV cache manager

    What the scheduler may rely on when it calls the KV cache manager
    ([KVCacheManager]): [allocate_slots] never raises on a well-formed call,
    refuses exactly when blocks are short, and otherwise gives the request room
    for its tokens in every group; whatever the scheduler does, the reference
    counts of the pool are exact, and nothing leaks. *)

From S2P Require Import Prelude FreeQueue Request BlockHash BlockMap BlockPool BlockPoolSpec CacheHit SingleTypeManager.
From S2P Require Import SingleTypeManagerSpec GroupSpec Coordinator CoordinatorHit CoordinatorSpec KVCacheManager.
Local Open Scope Z_scope.

Abbreviation managers k := (single_type_managers (coordinator k)).

(** ** The invariant *)

Record kv_inv (ext : ref → Z) (k : KVCacheManager) (free : list ref) : Prop := {
  kv_coord : coord_inv ext (managers k) (km_pool k) free;
  kv_groups : length (co_groups (coordinator k)) = length (managers k);
  kv_window : ∀ m, m ∈ managers k → window_ok m;
  kv_caching : km_enable_caching k = true → enable_caching (km_pool k) = true ∧
    ∀ m, m ∈ managers k → cacheable (retention_interval (coordinator k)) m (km_pool k);
  kv_sched : 0 < co_scheduler_block_size (coordinator k);
  kv_reprefill : 0 ≤ num_reprefillable_tokens (coordinator k);
  kv_watermark : 0 ≤ watermark_blocks k;
}.

(** The tables of one request in all groups are replaced. *)
Definition kept_config (ms ms' : list Manager) : Prop :=
  length ms' = length ms ∧ ∀ (i : nat) m', ms' !! i = Some m' → ∃ m, ms !! i = Some m ∧ config m' = config m.

Lemma window_ok_config m m' : config m' = config m → window_ok m → window_ok m'.
Proof. intros (E1 & E2 & _)%config_fields. unfold window_ok. by rewrite E1, E2. Qed.

Lemma kept_config_refl ms : kept_config ms ms.
Proof. split; [done|]. eauto. Qed.

Lemma kept_config_trans ms1 ms2 ms3 : kept_config ms1 ms2 → kept_config ms2 ms3 → kept_config ms1 ms3.
Proof.
  intros [L1 C1] [L2 C2]. split; [congruence|]. intros i m3 H3. destruct (C2 i m3 H3) as (m2 & H2 & E2). destruct (C1 i m2 H2) as (m1 & H1 & E1).
  exists m1. split; [done|congruence].
Qed.

Lemma outcome_config {A} (post : Z → Manager → A → Manager → Prop) ms l ms' :
  outcome post 0 ms l ms' → (∀ i m a m', post i m a m' → config m' = config m) → kept_config ms ms'.
Proof.
  intros [_ Hl Hp] Hc. split; [done|]. intros i m' Hi. destruct (lookup_lt_is_Some_2 ms i) as [m Hm]; [rewrite <-Hl; by eapply lookup_lt_Some|].
  destruct (Hp i m Hm) as (a & m2 & _ & Hi2 & Hpost). exists m. split; [done|]. assert (m2 = m') as <- by congruence. by eapply Hc.
Qed.

Lemma kv_inv_step ext k free ms p free' :
  kv_inv ext k free → coord_inv ext ms p free' → kept_config (managers k) ms → same_shape (km_pool k) p →
  kv_inv ext (set_coordinator (set_managers ms p (coordinator k)) k) free'.
Proof.
  intros [Hc Hg Hw Hcb Hs Hr Hwm] Hinv [Hl Hcf] Hsh. split; simpl; try done.
  - congruence.
  - intros m' [i Hi]%list_elem_of_lookup. destruct (Hcf i m' Hi) as (m & Hm & E). eapply window_ok_config; [done|]. apply Hw. by eapply list_elem_of_lookup_2.
  - intros He. destruct (Hcb He) as [Hen Hall]. unfold km_pool. simpl. split; [by rewrite <-(cf_caching _ _ (sh_config _ _ Hsh))|].
    intros m' [i Hi]%list_elem_of_lookup. destruct (Hcf i m' Hi) as (m & Hm & E). eapply cacheable_same; [done|done|]. apply Hall. by eapply list_elem_of_lookup_2.
Qed.

(** Nothing but the tables and the pool is replaced. *)
Definition moved (k k' : KVCacheManager) : Prop :=
  ∃ ms p, k' = set_coordinator (set_managers ms p (coordinator k)) k ∧ kept_config (managers k) ms ∧ same_shape (km_pool k) p.

Lemma set_coordinator_same k : set_coordinator (coordinator k) k = k.
Proof. by destruct k. Qed.

Lemma set_managers_same c : set_managers (single_type_managers c) (block_pool c) c = c.
Proof. by destruct c. Qed.

Lemma moved_refl k : moved k k.
Proof.
  exists (managers k), (km_pool k). split; [|split; [apply kept_config_refl|done]]. unfold km_pool. by rewrite set_managers_same, set_coordinator_same.
Qed.

Lemma moved_trans k1 k2 k3 : moved k1 k2 → moved k2 k3 → moved k1 k3.
Proof.
  intros (ms & p & -> & Hc & Hs) (ms' & p' & -> & Hc' & Hs'). exists ms', p'. split; [done|]. split; [by eapply kept_config_trans|by etransitivity].
Qed.

Lemma created_blocks l k : length l = length (co_groups (coordinator k)) → blocks_list (create_kv_cache_blocks l) k = l.
Proof.
  intros Hl. unfold create_kv_cache_blocks. destruct (existsb _ l) eqn:E; [done|]. unfold blocks_list, empty_blocks. rewrite <-Hl.
  clear Hl. induction l as [|x l IH]; [done|]. simpl in *. apply orb_false_iff in E as [E1 E2]. rewrite IH by done. f_equal.
  destruct x; [done|]. apply negb_false_iff, Z.eqb_eq in E1. unfold py_len in E1. simpl in E1. lia.
Qed.

(** ** A call of [allocate_slots] *)

(** The arguments. *)
Record SlotsCall : Type := mkSlots {
  sl_req : Request;
  sl_new : Z;
  sl_hit : Z;
  sl_blocks : option ComputedBlocks;
  sl_lookahead : Z;
  sl_external : Z;
  sl_delay : bool;
  sl_full : bool;
  sl_reserved : Z;
  sl_scheduled : bool;
}.

Section Slots.
Context `{PoolEnv}.
Implicit Types (s : SlotsCall) (k : KVCacheManager).

Definition run_slots s k : result (option ComputedBlocks * Request * KVCacheManager) :=
  allocate_slots (sl_req s) (sl_new s) (sl_hit s) (sl_blocks s) (sl_lookahead s) (sl_external s) (sl_delay s) (sl_full s)
    (sl_reserved s) (sl_scheduled s) k.

(** Local and all computed tokens, and the tokens that need slots. *)
Definition sl_local s : Z := num_computed_tokens (sl_req s) + sl_hit s.
Definition sl_total s k : Z := Z.min (sl_local s + sl_external s) (max_model_len k).
Definition sl_need s k : Z := Z.min (sl_total s k + sl_new s + sl_lookahead s) (max_model_len k).
Definition sl_computed s k : list (list ref) := blocks_list (default EmptyBlocks (sl_blocks s)) k.
Definition sl_watermark s k : Z := if sl_scheduled s && is_waiting (sl_req s) then watermark_blocks k else 0.

(** The two estimates and the coordinator the second is made with. *)
Definition full_estimate s k : result Z :=
  coord_get_num_blocks_to_allocate (request_id (sl_req s)) (Z.min (num_tokens (sl_req s)) (max_model_len k)) (sl_computed s k)
    (sl_total s k) (sl_local s) true (coordinator k).
Definition trim s k : result Coordinator :=
  coord_remove_skipped_blocks (request_id (sl_req s)) (Z.max 0 (sl_total s k - num_in_flight_tokens (sl_req s)))
    (Some (num_prompt_tokens (sl_req s))) (coordinator k).
Definition slot_estimate s k (c : Coordinator) : result Z :=
  coord_get_num_blocks_to_allocate (request_id (sl_req s)) (sl_need s k) (sl_computed s k) (sl_local s + sl_external s) (sl_local s) false c.

(** A request the scheduler admits, with whole cached blocks as its hit in every
    group, or one that already has blocks for its computed tokens. *)
Inductive slots_case s k : Prop :=
  | Admission :
      (∀ (i : nat) m, managers k !! i = Some m → ∃ bs, sl_computed s k !! i = Some bs ∧
         admits (request_id (sl_req s)) (sl_local s) m (km_pool k) bs) → slots_case s k
  | Continuation :
      default EmptyBlocks (sl_blocks s) = EmptyBlocks → sl_hit s = 0 → sl_external s = 0 →
      (∀ m, m ∈ managers k → sl_local s ≤ py_len (blocks_of (request_id (sl_req s)) m) * block_size m) → slots_case s k.

(** Its tokens and hashes are up to date. *)
Record slots_call s k : Prop := {
  lc_some : ¬ (sl_new s = 0 ∧ sl_external s = 0);
  lc_new : 0 ≤ sl_new s;
  lc_lookahead : 0 ≤ sl_lookahead s;
  lc_external : 0 ≤ sl_external s;
  lc_local : 0 ≤ sl_local s;
  lc_max : sl_local s + sl_external s ≤ max_model_len k;
  lc_reserved : 0 ≤ sl_reserved s;
  lc_prompt : 0 ≤ num_prompt_tokens (sl_req s);
  lc_tokens : num_tokens (sl_req s) ≤ max_model_len k;
  lc_ready : request_ready (sl_req s);
  lc_hashes : km_enable_caching k = true →
    py_len (block_hashes (sl_req s)) = num_tokens (sl_req s) / hash_block_size (km_pool k);
  lc_case : slots_case s k;
}.

(** Too few free blocks, for the whole sequence or for this step. *)
Definition short_of_blocks s k : Prop :=
  (sl_full s = true ∧ ∃ n, full_estimate s k = Ok n ∧ get_num_free_blocks (km_pool k) < n + sl_watermark s k) ∨
  (∃ c n, trim s k = Ok c ∧ slot_estimate s k c = Ok n ∧ get_num_free_blocks (block_pool c) - sl_reserved s < n + sl_watermark s k).

Definition enough_blocks s k : Prop :=
  (sl_full s = true → ∃ n, full_estimate s k = Ok n ∧ n + sl_watermark s k ≤ get_num_free_blocks (km_pool k)) ∧
  (∃ c n, trim s k = Ok c ∧ slot_estimate s k c = Ok n ∧ n + sl_watermark s k ≤ get_num_free_blocks (block_pool c) - sl_reserved s).

(** What the request has in one group after the call: its old table (an empty
    one for an admission: null blocks for skipped tokens, the hit, blocks for
    external tokens), some of it nulled, followed by the new blocks. *)
Definition slots_given s k (i : nat) (m m' : Manager) (new : list ref) : Prop :=
  let rid := request_id (sl_req s) in
  sl_need s k ≤ py_len (blocks_of rid m') * block_size m ∧
  ∃ kept, blocks_of rid m' = kept ++ new ∧
    ((length kept = length (blocks_of rid m) ∧ ∀ j, kept !! j = blocks_of rid m !! j ∨ kept !! j = Some (Blk 0)) ∨
     ∃ bs ext_blocks, sl_computed s k !! i = Some bs ∧
       let sk := skipped_blocks m (sl_local s + sl_external s) in
       kept = replicate (Z.to_nat sk) (Blk 0) ++ inside sk bs ++ ext_blocks).
End Slots.

(** ** The steps of the call *)

Section SlotSteps.
Context `{PoolEnv}.
Implicit Types (s : SlotsCall) (k : KVCacheManager) (ext : ref → Z) (free : list ref).

Lemma coord_estimate_defined c rid nt bss tot nl cap :
  (∀ (i : nat) m, single_type_managers c !! i = Some m → ∃ bs, bss !! i = Some bs ∧ (num_cached_block m !! rid = None ∨ bs = [])) →
  ∃ n, coord_get_num_blocks_to_allocate rid nt bss tot nl cap c = Ok n.
Proof.
  intros Hb. eexists. apply (coord_estimate c rid nt bss tot nl cap
    (at_group (λ m bs, match get_num_blocks_to_allocate rid nt bs tot nl cap m (block_pool c) with Ok n => n | Err _ => 0 end) (single_type_managers c) bss)).
  intros i m Hi. destruct (Hb i m Hi) as (bs & Hbs & Hor). exists bs. split; [done|]. rewrite (at_group_eq _ _ _ i m bs) by done.
  by destruct (estimate_defined rid nt bs tot nl cap m (block_pool c) Hor) as [n ->].
Qed.

Lemma empty_lookup k (i : nat) : (i < length (co_groups (coordinator k)))%nat → empty_blocks k !! i = Some [].
Proof. intros Hi. by apply lookup_replicate_2. Qed.

Lemma slots_hits s k ext free (i : nat) m :
  kv_inv ext k free → slots_case s k → managers k !! i = Some m →
  ∃ bs, sl_computed s k !! i = Some bs ∧ (num_cached_block m !! request_id (sl_req s) = None ∨ bs = []).
Proof.
  intros Hk [Had|Hb _ _ _] Hi.
  - destruct (Had i m Hi) as (bs & Hbs & Ha). exists bs. split; [done|]. left. apply Ha.
  - exists []. split; [|by right]. unfold sl_computed. rewrite Hb. apply empty_lookup. rewrite (kv_groups _ _ _ Hk). by eapply lookup_lt_Some.
Qed.

(** Blocks outside the attention window are given back first. *)
Lemma slots_trimmed s k ext free :
  kv_inv ext k free → slots_call s k →
  ∃ l ms p free', trim s k = Ok (set_managers ms p (coordinator k)) ∧
    let k' := set_coordinator (set_managers ms p (coordinator k)) k in
    kv_inv ext k' free' ∧ kept_config (managers k) ms ∧ slots_case s k' ∧ same_shape (km_pool k) p ∧ py_len free ≤ py_len free' ∧
    outcome (λ _ m (_ : unit) m', untouched (request_id (sl_req s)) m m' ∧
      length (blocks_of (request_id (sl_req s)) m') = length (blocks_of (request_id (sl_req s)) m) ∧
      ∀ j, blocks_of (request_id (sl_req s)) m' !! j = blocks_of (request_id (sl_req s)) m !! j ∨
           blocks_of (request_id (sl_req s)) m' !! j = Some (Blk 0)) 0 (managers k) l ms.
Proof.
  intros Hk Hc. set (rid := request_id (sl_req s)).
  destruct (coord_remove_skipped_spec ext (coordinator k) free rid (Z.max 0 (sl_total s k - num_in_flight_tokens (sl_req s)))
    (Some (num_prompt_tokens (sl_req s))) (kv_coord _ _ _ Hk)) as (l & ms & p & free' & Hrun & Hinv & Hsh & Hhash & Hlen & Hout).
  { lia. }
  { intros n [= <-]. apply Hc. }
  assert (Hcf : kept_config (managers k) ms) by (eapply outcome_config; [exact Hout|]; intros i m a m' [[? _] _ _ _ _]; done).
  exists l, ms, p, free'. split; [done|]. simpl. split; [by eapply kv_inv_step|]. split; [done|]. split; [|split; [done|split; [done|]]].
  - destruct Hout as [_ Hl Hp]. destruct (lc_case _ _ Hc) as [Had|E1 E2 E3 Hcov].
    + apply Admission. intros i m' Hi. simpl in Hi. destruct (lookup_lt_is_Some_2 (managers k) i) as [m Hm]; [rewrite <-Hl; by eapply lookup_lt_Some|].
      destruct (Hp i m Hm) as (a & m2 & _ & Hi2 & [[Hcfg _] Hkn Hln _ _]). assert (m2 = m') as -> by congruence.
      destruct (Had i m Hm) as (bs & Hbs & Ha). exists bs. split; [done|].
      apply (admits_stable _ _ m' (km_pool k) p); [done|done|]. apply config_fields in Hcfg as (_ & Esz & Een & _).
      destruct Ha as [A1 A2 [L V N T C] A4 A5]. split; [|by rewrite Hkn| |by rewrite Esz|done].
      * apply nil_length_inv. fold rid in A1 |- *. by rewrite Hln, A1.
      * split; rewrite ?Esz, ?Een; done.
    + apply Continuation; try done. intros m' Hin. simpl in Hin. apply list_elem_of_lookup in Hin as [i Hi].
      destruct (lookup_lt_is_Some_2 (managers k) i) as [m Hm]; [rewrite <-Hl; by eapply lookup_lt_Some|].
      destruct (Hp i m Hm) as (a & m2 & _ & Hi2 & [[Hcfg _] _ Hln _ _]). assert (m2 = m') as -> by congruence.
      apply config_fields in Hcfg as (_ & -> & _). unfold py_len. fold rid. rewrite Hln. apply (Hcov m). by eapply list_elem_of_lookup_2.
  - destruct Hout as [O1 O2 O3]. split; [done|done|]. intros i m Hi. destruct (O3 i m Hi) as (a & m' & Ha & Hm' & [? _ ? _ ?]).
    exists a, m'. split; [done|]. split; [done|]. done.
Qed.

(** The estimate suffices for the allocation. *)
Lemma slots_allocated s k ext free n :
  kv_inv ext k free → slots_call s k → slot_estimate s k (coordinator k) = Ok n → n ≤ py_len free →
  ∃ c1 ret ms p free',
    (if match default EmptyBlocks (sl_blocks s) with EmptyBlocks => false | Blocks _ => true end || (0 <? sl_external s)
     then coord_allocate_new_computed_blocks (request_id (sl_req s)) (sl_computed s k) (sl_local s) (sl_external s) (coordinator k)
     else Ok (coordinator k)) = Ok c1 ∧
    coord_allocate_new_blocks (request_id (sl_req s)) (sl_need s k) c1 = Ok (ret, set_managers ms p (coordinator k)) ∧
    kv_inv ext (set_coordinator (set_managers ms p (coordinator k)) k) free' ∧ kept_config (managers k) ms ∧ same_shape (km_pool k) p ∧
    outcome (λ i m r m', untouched (request_id (sl_req s)) m m' ∧ slots_given s k (Z.to_nat i) m m' r) 0 (managers k) ret ms.
Proof.
  intros Hk Hc Hest Hn. set (rid := request_id (sl_req s)). pose proof (kv_coord _ _ _ Hk) as Hinv.
  assert (HB : ∀ m, m ∈ managers k → 0 < block_size m) by (intros m Hm; apply (gl_size _ _ (cv_groups _ _ _ _ Hinv m Hm))).
  destruct Hc as [_ Hnew Hla Hex Hloc Hmax _ _ _ _ _ Hcase].
  assert (Htot : sl_local s + sl_external s ≤ sl_need s k) by (unfold sl_need, sl_total; lia).
  assert (Hcov : ∀ m (x : Z), 0 < block_size m → cdiv (sl_need s k) (block_size m) ≤ x → sl_need s k ≤ x * block_size m) by (intros m x Hm; by apply cdiv_le_iff).
  destruct Hcase as [Had|E1 E2 E3 Hco].
  - destruct (coord_admit rid (sl_need s k) (sl_local s) (sl_external s) ext (coordinator k) free (sl_computed s k)
      (match default EmptyBlocks (sl_blocks s) with EmptyBlocks => false | Blocks _ => true end || (0 <? sl_external s)) n Hinv)
      as (c1 & ret & ms & p & free' & Hr1 & Hr2 & Hi & Hsh & _ & Hout); try done.
    { intros i m Hi. split; [apply (kv_window _ _ _ Hk); by eapply list_elem_of_lookup_2|by apply Had]. }
    { intros [Hu1 Hu2%Z.ltb_ge]%orb_false_iff. split; [lia|]. intros bs. unfold sl_computed. destruct (default EmptyBlocks (sl_blocks s)); [|done].
      simpl. unfold empty_blocks. by intros [-> _]%elem_of_replicate. }
    assert (Hcf : kept_config (managers k) ms) by (eapply outcome_config; [exact Hout|]; intros i m a m' [[? _] _]; done).
    exists c1, ret, ms, p, free'. split; [done|]. split; [done|]. split; [by eapply kv_inv_step|]. split; [done|]. split; [done|].
    destruct Hout as [O1 O2 O3]. split; [done|done|]. intros i m Hm. destruct (O3 i m Hm) as (r & m' & Hr & Hm' & Hun & Hcd & bs & eb & Hbs & Ht).
    exists r, m'. split; [done|]. split; [done|]. split; [done|]. split; [apply Hcov; [apply HB; by eapply list_elem_of_lookup_2|done]|].
    eexists. split; [fold rid; by rewrite Ht, !app_assoc|]. right. exists bs, eb. split; [done|]. simpl. by rewrite <-app_assoc.
  - rewrite E1. replace (0 <? sl_external s) with false by (symmetry; apply Z.ltb_ge; lia). cbn [orb].
    unfold slot_estimate in Hest. fold rid in Hest. rewrite E3, Z.add_0_r in Hest.
    destruct (coord_continue ext (coordinator k) free rid (sl_need s k) (sl_local s) n (sl_computed s k) Hinv Hloc)
      as (ret & ms & p & free' & Hr & Hi & Hsh & _ & Hout); try done.
    { intros m Hm. split; [by apply (kv_window _ _ _ Hk)|by apply Hco]. }
    { intros i Hi. unfold sl_computed. rewrite E1. apply empty_lookup. by rewrite (kv_groups _ _ _ Hk). }
    assert (Hcf : kept_config (managers k) ms) by (eapply outcome_config; [exact Hout|]; intros i m a m' [[? _] _]; done).
    exists (coordinator k), ret, ms, p, free'. split; [done|]. split; [done|]. split; [by eapply kv_inv_step|]. split; [done|]. split; [done|].
    destruct Hout as [O1 O2 O3]. split; [done|done|]. intros i m Hm. destruct (O3 i m Hm) as (r & m' & Hr' & Hm' & Hun & _ & Hcd & Ht).
    exists r, m'. split; [done|]. split; [done|]. split; [done|]. split; [apply Hcov; [apply HB; by eapply list_elem_of_lookup_2|done]|].
    exists (blocks_of rid m). split; [done|]. left. split; [done|]. by left.
Qed.
End SlotSteps.

(** ** [allocate_slots] *)

Section Allocate.
Context `{PoolEnv}.
Implicit Types (s : SlotsCall) (k : KVCacheManager) (ext : ref → Z) (free : list ref).

(** The outcome, group by group. *)
Definition slots_result s k (res : option ComputedBlocks) k' : Prop :=
  let rid := request_id (sl_req s) in
  match res with
  | None => short_of_blocks s k ∧
      ∀ (i : nat) m, managers k !! i = Some m → ∃ m', managers k' !! i = Some m' ∧ untouched rid m m' ∧
        length (blocks_of rid m') = length (blocks_of rid m) ∧
        ∀ j, blocks_of rid m' !! j = blocks_of rid m !! j ∨ blocks_of rid m' !! j = Some (Blk 0)
  | Some blocks => enough_blocks s k ∧ length (blocks_list blocks k) = length (managers k) ∧
      ∀ (i : nat) m, managers k !! i = Some m → ∃ m' new, managers k' !! i = Some m' ∧ blocks_list blocks k !! i = Some new ∧
        untouched rid m m' ∧ slots_given s k i m m' new
  end.

Lemma slots_call_step s k ms p :
  slots_call s k → same_shape (km_pool k) p → slots_case s (set_coordinator (set_managers ms p (coordinator k)) k) →
  slots_call s (set_coordinator (set_managers ms p (coordinator k)) k).
Proof.
  intros [] Hsh Hcase. split; try done. intros He. unfold km_pool. simpl. rewrite <-(cf_hash_size _ _ (sh_config _ _ Hsh)). by apply lc_hashes0.
Qed.

(** Giving slots after trimming, seen from before it. *)
Lemma slots_given_trimmed s k ms p i m m1 m' new :
  untouched (request_id (sl_req s)) m m1 →
  length (blocks_of (request_id (sl_req s)) m1) = length (blocks_of (request_id (sl_req s)) m) →
  (∀ j, blocks_of (request_id (sl_req s)) m1 !! j = blocks_of (request_id (sl_req s)) m !! j ∨
        blocks_of (request_id (sl_req s)) m1 !! j = Some (Blk 0)) →
  slots_given s (set_coordinator (set_managers ms p (coordinator k)) k) i m1 m' new → slots_given s k i m m' new.
Proof.
  intros [(E1 & E2 & _)%config_fields _] Hl Hor (Hneed & kept & Ht & Hkept). split; [by rewrite <-E2|]. exists kept. split; [done|].
  destruct Hkept as [[Hlk Hork]|(bs & eb & Hbs & Hk)].
  - left. split; [congruence|]. intros j. destruct (Hork j) as [->|]; [apply Hor|by right].
  - right. exists bs, eb. split; [done|]. unfold skipped_blocks in *. by rewrite E1, E2 in Hk.
Qed.

(** Trimming and giving slots together. *)
Lemma slots_some s k ms1 p1 (l : list unit) ret k' :
  enough_blocks s k → length ret = length (co_groups (coordinator k)) → kept_config (managers k) ms1 →
  outcome (λ _ m (_ : unit) m', untouched (request_id (sl_req s)) m m' ∧
      length (blocks_of (request_id (sl_req s)) m') = length (blocks_of (request_id (sl_req s)) m) ∧
      ∀ j, blocks_of (request_id (sl_req s)) m' !! j = blocks_of (request_id (sl_req s)) m !! j ∨
           blocks_of (request_id (sl_req s)) m' !! j = Some (Blk 0)) 0 (managers k) l ms1 →
  outcome (λ i m r m', untouched (request_id (sl_req s)) m m' ∧
      slots_given s (set_coordinator (set_managers ms1 p1 (coordinator k)) k) (Z.to_nat i) m m' r) 0 ms1 ret (managers k') →
  slots_result s k (Some (create_kv_cache_blocks ret)) k'.
Proof.
  intros Hen Hlen Hcf Hout1 [O1 O2 O3]. split; [done|]. rewrite created_blocks by done. split; [by rewrite O1, (proj1 Hcf)|].
  intros i m Hi. destruct (oc_post _ _ _ _ _ Hout1 i m Hi) as (a & m1 & _ & Hm1 & Hun1 & Hl1 & Hor1).
  destruct (O3 i m1 Hm1) as (r & m2 & Hr & Hm2 & Hun2 & Hg2). rewrite Z.add_0_l, Nat2Z.id in Hg2. exists m2, r. split; [done|]. split; [done|]. split.
  - destruct Hun1 as [C1 T1], Hun2 as [C2 T2]. split; [congruence|]. intros rid' Hne. by rewrite T2, T1.
  - by eapply slots_given_trimmed.
Qed.

(** Caching the finished blocks at the end of the call. *)
Lemma slots_cached s k ext free ms p ret :
  kv_inv ext (set_coordinator (set_managers ms p (coordinator k)) k) free → slots_call s k → km_enable_caching k = true →
  same_shape (km_pool k) p → kept_config (managers k) ms →
  outcome (λ i m r m', untouched (request_id (sl_req s)) m m' ∧ slots_given s k (Z.to_nat i) m m' r) 0 (managers k) ret ms →
  ∃ req' ms' p' free',
    coord_cache_blocks (sl_req s) (Z.min (sl_total s k + sl_new s) (num_tokens (sl_req s))) (set_managers ms p (coordinator k))
      = Ok (req', set_managers ms' p' (coordinator k)) ∧ strip req' = strip (sl_req s) ∧
    kv_inv ext (set_coordinator (set_managers ms' p' (coordinator k)) k) free' ∧ kept_config (managers k) ms' ∧ same_shape (km_pool k) p' ∧
    outcome (λ i m r m', untouched (request_id (sl_req s)) m m' ∧ slots_given s k (Z.to_nat i) m m' r) 0 (managers k) ret ms'.
Proof.
  intros Hk Hc He Hsh Hcf Hout. set (c := set_managers ms p (coordinator k)). set (n := Z.min _ _).
  destruct (kv_caching _ _ _ Hk He) as [Hen Hcb].
  assert (Hn : 0 ≤ n ≤ sl_need s k ∧ n ≤ num_tokens (sl_req s)).
  { destruct Hc. unfold n, sl_need, sl_total in *. pose proof (py_len_nonneg (all_token_ids (sl_req s))). unfold num_tokens in *. lia. }
  destruct (coord_cache_spec ext c free (sl_req s) n (kv_coord _ _ _ Hk) Hen) as (req' & ms' & p' & free' & Hrun & Hinv & Hsh' & _ & Hs & _ & Hf).
  { apply Hc. } { lia. } { apply (kv_sched _ _ _ Hk). } { apply (kv_reprefill _ _ _ Hk). } { lia. }
  { rewrite (lc_hashes _ _ Hc He). f_equal. apply (cf_hash_size _ _ (sh_config _ _ Hsh)). }
  { intros m' Hin. pose proof (Hcb m' Hin) as Hm'. simpl in Hin. apply list_elem_of_lookup in Hin as [i Hi].
    destruct (proj2 Hcf i m' Hi) as (m & Hm & Ecf). destruct (oc_post _ _ _ _ _ Hout i m Hm) as (r & m2 & _ & Hi2 & _ & Hneed & _).
    assert (m2 = m') as -> by congruence. apply config_fields in Ecf as (_ & Esz & _).
    assert (HB : 0 < block_size m') by (apply (gl_size _ _ (cv_groups _ _ _ _ (kv_coord _ _ _ Hk) m' (list_elem_of_lookup_2 _ _ _ Hi)))).
    split; [done|]. apply cdiv_le_iff; [done|]. rewrite Esz. lia. }
  assert (Hcf' : kept_config ms ms').
  { split; [symmetry; apply (Forall2_length _ _ _ Hf)|]. intros i m' Hi. destruct (Forall2_lookup_r _ _ _ _ _ Hf Hi) as (m & Hm & E & _). eauto. }
  exists req', ms', p', free'. split; [done|]. split; [done|]. split; [|split; [by eapply kept_config_trans|split; [by etransitivity|]]].
  - apply (kv_inv_step ext _ free ms' p' free' Hk); done.
  - destruct Hout as [O1 O2 O3]. split; [done|rewrite <-O2; apply Hcf'|]. intros i m Hm. destruct (O3 i m Hm) as (r & m1 & Hr & Hm1 & [Ec Ho] & Hg).
    destruct (Forall2_lookup_l _ _ _ _ _ Hf Hm1) as (m2 & Hm2 & Ec2 & Eb). exists r, m2. split; [done|]. split; [done|].
    split; [split; [congruence|intros rid' Hne; by rewrite Eb, Ho]|]. unfold slots_given in *. by rewrite Eb.
Qed.

Lemma allocate_slots_spec s k ext free :
  kv_inv ext k free → slots_call s k →
  ∃ res req' k' free', run_slots s k = Ok (res, req', k') ∧ kv_inv ext k' free' ∧ moved k k' ∧ strip req' = strip (sl_req s) ∧ slots_result s k res k'.
Proof.
  intros Hk Hc. set (rid := request_id (sl_req s)). unfold run_slots, allocate_slots.
  replace ((sl_new s =? 0) && (sl_external s =? 0)) with false
    by (symmetry; apply andb_false_iff; destruct (Z.eqb_spec (sl_new s) 0), (Z.eqb_spec (sl_external s) 0); auto; by destruct (lc_some _ _ Hc)).
  cbn [mbind result_bind]. cbv zeta. fold rid. fold (sl_local s). fold (sl_total s k) (sl_computed s k) (sl_watermark s k). fold (sl_need s k).
  assert (Hwm : 0 ≤ sl_watermark s k) by (unfold sl_watermark; pose proof (kv_watermark _ _ _ Hk); destruct (_ && _); lia).
  destruct (coord_estimate_defined (coordinator k) rid (Z.min (num_tokens (sl_req s)) (max_model_len k)) (sl_computed s k) (sl_total s k) (sl_local s) true)
    as [nf Hnf]; [intros i m Hi; eapply slots_hits; [done|apply Hc|done]|].
  set (fits := if sl_full s then _ else _). assert (Hfits : fits = Ok (negb (sl_full s) || (nf + sl_watermark s k <=? get_num_free_blocks (km_pool k)))).
  { unfold fits. destruct (sl_full s); [|done]. by rewrite Hnf. }
  rewrite Hfits. cbn [mbind result_bind]. clear fits Hfits. destruct (negb (sl_full s) || _) eqn:Efit; cbn [negb].
  2: { apply orb_false_iff in Efit as [Ef%negb_false_iff Efit%Z.leb_gt]. exists None, (sl_req s), k, free. split; [done|]. split; [done|]. split; [apply moved_refl|]. split; [done|].
       split; [left; split; [done|by exists nf]|]. intros i m Hi. exists m. split; [done|]. split; [by split|]. split; [done|by left]. }
  destruct (slots_trimmed s k ext free Hk Hc) as (l & ms1 & p1 & free1 & Htrim & Hk1 & Hcf1 & Hcase1 & Hsh1 & _ & Hout1). simpl in Hk1.
  pose proof Htrim as Htrim'. unfold trim in Htrim'. fold rid in Htrim'. rewrite Htrim'. cbn [mbind result_bind].
  set (k1 := set_coordinator (set_managers ms1 p1 (coordinator k)) k) in *. pose proof (slots_call_step s k ms1 p1 Hc Hsh1 Hcase1) as Hc1. fold k1 in Hc1.
  destruct (coord_estimate_defined (coordinator k1) rid (sl_need s k) (sl_computed s k) (sl_local s + sl_external s) (sl_local s) false)
    as [n Hn]; [intros i m Hi; eapply (slots_hits s k1); [done|done|done]|].
  change (coordinator k1) with (set_managers ms1 p1 (coordinator k)) in Hn. rewrite Hn. cbn [mbind result_bind].
  assert (Hmv1 : moved k k1) by (by exists ms1, p1).
  destruct (Z.ltb_spec (get_num_free_blocks (block_pool (set_managers ms1 p1 (coordinator k))) - sl_reserved s) (n + sl_watermark s k)) as [Hlt|Hge].
  { exists None, (sl_req s), k1, free1. split; [done|]. split; [done|]. split; [done|]. split; [done|]. split; [right; by eexists _, n|].
    intros i m Hi. destruct (oc_post _ _ _ _ _ Hout1 i m Hi) as (a & m' & _ & Hm' & ?). by exists m'. }
  pose proof (coord_inv_free _ _ _ _ (kv_coord _ _ _ Hk1)) as Hfree1. pose proof (lc_reserved _ _ Hc).
  destruct (slots_allocated s k1 ext free1 n Hk1 Hc1) as (c2 & ret & ms2 & p2 & free2 & Hr1 & Hr2 & Hk2 & Hcf2 & Hsh2 & Hout2); [done| |].
  { change (get_num_free_blocks (block_pool (set_managers ms1 p1 (coordinator k)))) with (get_num_free_blocks (km_pool k1)) in Hge. lia. }
  unfold sl_computed in Hr1 |- *. fold rid in Hr1, Hr2.
  change (coordinator k1) with (set_managers ms1 p1 (coordinator k)) in Hr1. change (blocks_list ?b k1) with (blocks_list b k) in Hr1.
  rewrite Hr1. cbn [mbind result_bind]. change (sl_need s k1) with (sl_need s k) in Hr2. rewrite Hr2. cbn [mbind result_bind].
  assert (Henough : enough_blocks s k).
  { split; [|by eexists _, n]. intros Ef. rewrite Ef in Efit. apply Z.leb_le in Efit. by exists nf. }
  assert (Hlen : length ret = length (co_groups (coordinator k))).
  { rewrite (oc_results _ _ _ _ _ Hout2). rewrite (kv_groups _ _ _ Hk), <-(proj1 Hcf1). done. }
  assert (Hsome : ∀ k', outcome (λ i m r m', untouched rid m m' ∧ slots_given s k1 (Z.to_nat i) m m' r) 0 ms1 ret (managers k') →
    slots_result s k (Some (create_kv_cache_blocks ret)) k') by (intros k' Hout; by apply (slots_some s k ms1 p1 l)).
  destruct (negb (km_enable_caching k) || sl_delay s) eqn:Ecache.
  { exists (Some (create_kv_cache_blocks ret)), (sl_req s). eexists _, free2. split; [done|]. split; [exact Hk2|].
    split; [eapply moved_trans; [exact Hmv1|by exists ms2, p2]|]. split; [done|]. by apply Hsome. }
  apply orb_false_iff in Ecache as [Ecache%negb_false_iff _].
  destruct (slots_cached s k1 ext free2 ms2 p2 ret Hk2 Hc1 Ecache Hsh2 Hcf2 Hout2) as (req' & ms3 & p3 & free3 & Hr3 & Hst & Hk3 & Hcf3 & Hsh3 & Hout3).
  change (sl_total s k1) with (sl_total s k) in Hr3. rewrite Hr3. cbn [mbind result_bind].
  exists (Some (create_kv_cache_blocks ret)), req'. eexists _, free3. split; [done|]. split; [exact Hk3|].
  split; [eapply moved_trans; [exact Hmv1|by exists ms3, p3]|]. split; [done|]. by apply Hsome.
Qed.
End Allocate.

(** ** Construction *)

(** A configuration without ring buffers; with caching, block sizes are multiples
    of the hash block size, and equal to it for full attention. *)
Record kv_config_ok (config : KVCacheConfig) (sbs hbs dcp : Z) (caching : bool) : Prop := {
  kc_sched : 0 < sbs;
  kc_hash : 0 < hbs;
  kc_count : py_len (kv_cache_groups config) ≤ 2 ^ 32;
  kc_group : ∀ g, g ∈ kv_cache_groups config →
    let spec := group_spec g in
    let B := group_block_size spec (dcp_world_size_for_kv_cache_spec spec dcp) in
    0 < B ∧ (caching = true → B mod hbs = 0 ∧ (is_full_attention spec = true → B = hbs)) ∧
    match spec with
    | SlidingWindowSpec _ window extra => 2 ≤ window ∧ 0 ≤ extra
    | ChunkedLocalAttentionSpec _ chunk => 0 < chunk ∧ chunk mod B = 0
    | CircularBufferSpec _ => False
    | _ => True
    end;
}.

Section Construction.
Context (config : KVCacheConfig) (mml mif sbs hbs dcp pcp la : Z) (ue caching ev : bool) (met : option (list MetricsCall)).

(** The manager of a group as it is built. *)
Definition built (i : nat) (g : KVCacheGroupSpec) : Manager :=
  get_manager_for_kv_cache_spec (group_spec g) mif mml caching (Z.of_nat i) sbs
    (dcp_world_size_for_kv_cache_spec (group_spec g) dcp) (needs_kv_cache_zeroing config).

(** What every constructor leaves. *)
Record constructed (c : Coordinator) : Prop := {
  cn_pool : new_block_pool (num_blocks config) caching hbs ev met = Ok (block_pool c);
  cn_groups : co_groups c = kv_cache_groups config;
  cn_sched : co_scheduler_block_size c = sbs;
  cn_sizes : ∀ g, g ∈ kv_cache_groups config → sbs mod spec_block_size (group_spec g) = 0;
  cn_reprefill : 0 ≤ num_reprefillable_tokens c;
  cn_retention : _validate_prefix_cache_retention_interval (retention_interval c) sbs (kv_cache_groups config) = Ok tt;
  cn_length : length (single_type_managers c) = length (kv_cache_groups config);
  cn_managers : ∀ (i : nat) m, single_type_managers c !! i = Some m →
    ∃ g e, kv_cache_groups config !! i = Some g ∧ m = set_use_eagle e (built i g);
}.

Lemma new_coordinator_constructed c :
  new_coordinator config mml mif ue caching ev dcp pcp sbs hbs met la = Ok c → constructed c.
Proof.
  unfold new_coordinator. intros [Has H]%bind_tt_Ok. apply py_assert_Ok, andb_true_iff in Has as [_ Hall].
  apply bind_Ok in H as (p & Hp & H). apply bind_tt_Ok in H as [_ H]. apply bind_tt_Ok in H as [Hret H]. injection H as <-.
  split; simpl; try done; try lia.
  - intros g Hg. rewrite forallb_forall in Hall. apply Z.eqb_eq, Hall. by apply list_elem_of_In.
  - by rewrite length_imap.
  - intros i m Hi. rewrite list_lookup_imap in Hi. destruct (kv_cache_groups config !! i) as [g|] eqn:Hg; [|done]. injection Hi as <-.
    exists g, false. done.
Qed.

Lemma constructed_managers c ms cl :
  constructed c → length ms = length (single_type_managers c) →
  (∀ (i : nat) m, ms !! i = Some m → ∃ m0 e, single_type_managers c !! i = Some m0 ∧ m = set_use_eagle e m0) →
  constructed (set_class cl (set_managers ms (block_pool c) c)).
Proof.
  intros [] Hl Hms. split; simpl; try done; [congruence|]. intros i m Hi. destruct (Hms i m Hi) as (m0 & e & H0 & ->).
  destruct (cn_managers0 i m0 H0) as (g & e0 & Hg & ->). exists g, e. split; [done|]. by destruct (built i g).
Qed.

Lemma same_eagle m : m = set_use_eagle (use_eagle m) m.
Proof. by destruct m. Qed.

Lemma coordinator_constructed c :
  get_kv_cache_coordinator config mml mif ue caching ev dcp pcp sbs hbs met la = Ok c → constructed c.
Proof.
  unfold get_kv_cache_coordinator. intros (c0 & Hc0%new_coordinator_constructed & H)%bind_Ok. destruct caching; cbn [negb] in H; [|by injection H as <-].
  destruct (_ =? 1).
  - unfold init_unitary in H. apply bind_Ok in H as (m & Hm & H). apply bind_tt_Ok in H as [_ H]. apply bind_tt_Ok in H as [_ H]. injection H as <-.
    rewrite py_get_nonneg in Hm by lia. apply unwrap_Ok in Hm. change (Z.to_nat 0) with 0%nat in Hm.
    destruct (single_type_managers c0) as [|m0 ms] eqn:E; [done|]. injection Hm as ->. apply constructed_managers; [done|by rewrite E|].
    rewrite E. intros [|i] m'; simpl; [intros [= <-]; eauto|]. intros Hi. exists m', (use_eagle m'). split; [done|apply same_eagle].
  - unfold init_hybrid in H. apply bind_tt_Ok in H as [_ H]. apply bind_tt_Ok in H as [_ H]. apply bind_tt_Ok in H as [_ H].
    unfold verify_and_split_kv_cache_groups in H. apply bind_tt_Ok in H as [_ H]. apply bind_Ok in H as (f & _ & H). injection H as <-.
    apply constructed_managers; [done|by rewrite length_imap|]. intros i m Hi. rewrite list_lookup_imap in Hi.
    destruct (single_type_managers c0 !! i) as [m0|]; [|done]. injection Hi as <-. exists m0. destruct (in_eagle_group _ _); [by eexists|].
    exists (use_eagle m0). split; [done|apply same_eagle].
Qed.

Lemma retention_ok c g b w e r :
  constructed c → 0 < sbs → 0 < b → sbs mod b = 0 → g ∈ kv_cache_groups config → group_spec g = SlidingWindowSpec b w e →
  retention_interval c = Some r → 0 ≤ r ∧ r mod b = 0.
Proof.
  intros Hc Hs Hb Hm Hg Hspec Hr. pose proof (cn_retention _ Hc) as Hv. rewrite Hr in Hv. unfold _validate_prefix_cache_retention_interval in Hv.
  replace (existsb _ _) with true in Hv by (symmetry; apply existsb_exists; exists g; rewrite Hspec; split; [by apply list_elem_of_In|done]). cbn [negb] in Hv.
  destruct (Z.ltb_spec r 0); [done|]. simpl in Hv. destruct (Z.eqb_spec (r mod sbs) 0) as [Hz|]; [|done]. split; [lia|].
  apply Z.mod_divide; [lia|]. etransitivity; apply Z.mod_divide; [lia|exact Hm|lia|exact Hz].
Qed.

Lemma constructed_inv c :
  constructed c → kv_config_ok config sbs hbs dcp caching → 0 < num_blocks config →
  coord_inv (λ _, 0) (single_type_managers c) (block_pool c) (Blk <$> seq 1 (Z.to_nat (num_blocks config) - 1)) ∧
  (∀ m, m ∈ single_type_managers c → window_ok m ∧ (caching = true → cacheable (retention_interval c) m (block_pool c)) ∧ ∀ rid, blocks_of rid m = []).
Proof.
  intros Hc [Hs Hh Hn Hg] Hb. destruct (new_block_pool_spec (num_blocks config) caching hbs ev met Hb) as (p & Hp & Hinv & _ & Hca & Hhb & _ & _ & Hz).
  rewrite (cn_pool _ Hc) in Hp. injection Hp as <-.
  assert (Hgrp : ∀ (i : nat) m, single_type_managers c !! i = Some m → group_local m (block_pool c) ∧ window_ok m ∧
    (caching = true → cacheable (retention_interval c) m (block_pool c)) ∧ (∀ rid, blocks_of rid m = []) ∧ ∀ r, group_refs m r = 0).
  { intros i m Hi. destruct (cn_managers _ Hc i m Hi) as (g & e & Hi' & ->). assert (Hin : g ∈ kv_cache_groups config) by (by eapply list_elem_of_lookup_2).
    destruct (Hg g Hin) as (HB & Hca' & Hsp). set (B := group_block_size _ _) in *.
    assert (Hgid : valid_group (Z.of_nat i)) by (apply lookup_lt_Some in Hi'; unfold valid_group, py_len in *; lia).
    split_and!.
    - split; simpl; try done.
      + by intros rid r ?%elem_of_nil.
      + destruct (group_spec g); try done. apply Hsp.
      + intros _ rid k j (Hk & _). done.
    - unfold window_ok. simpl. fold B. destruct (group_spec g); try done. lia.
    - intros Hc1. destruct (Hca' Hc1) as [Hm1 Hf]. split; simpl; rewrite ?Hhb; try done. destruct (group_spec g) as [b|b w|b w ex|b ch|b] eqn:Es; try done; try (by apply Hf).
      assert (EB : b = B) by (unfold B, group_block_size, dcp_world_size_for_kv_cache_spec; simpl; by destruct (dcp <=? 1)).
      pose proof (cn_sizes _ Hc g Hin) as Hsz. rewrite Es in Hsz. simpl in Hsz. rewrite <-EB in HB.
      split_and!; [done|lia|done|done|]. intros r Hr. by eapply retention_ok.
    - done.
    - done. }
  split.
  - split; [done| |done|].
    + intros j _ _. destruct (Hz j) as [-> _]. assert (E : ∀ r, all_refs (single_type_managers c) r = 0); [|by rewrite E].
      intros r. assert (Hall : ∀ m, m ∈ single_type_managers c → group_refs m r = 0) by (intros m [i Hi]%list_elem_of_lookup; by apply (Hgrp i m Hi)).
      clear -Hall. induction (single_type_managers c) as [|m ms IH]; [done|]. simpl. rewrite Hall by left. rewrite IH; [done|]. intros m' Hm'. apply Hall. by right.
    + intros m [i Hi]%list_elem_of_lookup. by apply (Hgrp i m Hi).
  - intros m [i Hi]%list_elem_of_lookup. destruct (Hgrp i m Hi) as (_ & ? & ? & ? & _). done.
Qed.
End Construction.

(** The invariant holds initially. *)
Lemma new_kv_inv config mml sbs hbs mif caching ue la stats ev dcp pcp met wm meta k :
  new_kv_cache_manager config mml sbs hbs mif caching ue la stats ev dcp pcp met wm meta = Ok k →
  kv_config_ok config sbs hbs dcp caching →
  constructed config mml (default mml mif) sbs hbs dcp caching ev met (coordinator k) ∧
  kv_inv (λ _, 0) k (Blk <$> seq 1 (Z.to_nat (num_blocks config) - 1)) ∧
  (∀ m rid, m ∈ managers k → blocks_of rid m = [] ∧ num_cached_block m !! rid = None).
Proof.
  unfold new_kv_cache_manager. intros (c & Hc & H)%bind_Ok Hok. apply bind_tt_Ok in H as [Hwm H]. apply py_assert_Ok, Z.leb_le in Hwm. injection H as <-.
  apply coordinator_constructed in Hc. pose proof (cn_pool _ _ _ _ _ _ _ _ _ _ Hc) as Hp.
  assert (Hb : 0 < num_blocks config) by (unfold new_block_pool in Hp; destruct (Z.ltb_spec 0 (num_blocks config)); done).
  destruct (constructed_inv _ _ _ _ _ _ _ _ _ c Hc Hok Hb) as [Hinv Hms]. simpl. split; [done|]. split.
  - split; simpl; try done.
    + by rewrite (cn_groups _ _ _ _ _ _ _ _ _ _ Hc), (cn_length _ _ _ _ _ _ _ _ _ _ Hc).
    + intros m Hm. by apply Hms.
    + intros Hca. split; [|intros m Hm; by apply Hms]. destruct (new_block_pool_spec (num_blocks config) caching hbs ev met Hb) as (p & Hp' & _ & _ & Hen & _).
      unfold km_pool. simpl. congruence.
    + rewrite (cn_sched _ _ _ _ _ _ _ _ _ _ Hc). apply Hok.
    + apply (cn_reprefill _ _ _ _ _ _ _ _ _ _ Hc).
  - intros m rid Hm. split; [by apply Hms|]. apply list_elem_of_lookup in Hm as [i Hi].
    by destruct (cn_managers _ _ _ _ _ _ _ _ _ _ Hc i m Hi) as (g & e & _ & ->).
Qed.

(** C7: [allocate_slots] is correct.  Called for a new request with whole cached
    blocks in every group, or for a request whose blocks cover its computed
    tokens, it never raises.  It answers [None] exactly when the free blocks are
    short: when the whole sequence must fit and does not, or when this step's
    blocks together with the watermark do not fit into the free blocks that are
    not reserved; the table of the request then keeps its blocks, apart from
    those outside the attention window.  Otherwise every group's table covers
    all tokens that need slots and ends with the blocks returned for the group,
    behind the old table, or behind the hit with null blocks for skipped tokens
    and blocks for externally computed ones.  In both cases the tables of other
    requests are untouched, the reference counts of all groups stay exact and
    blocks not yet cached stay private to their request. *)
Theorem allocate_slots_correct `{PoolEnv} s k ext free :
  kv_inv ext k free → slots_call s k →
  ∃ res req' k' free', run_slots s k = Ok (res, req', k') ∧ kv_inv ext k' free' ∧ moved k k' ∧ strip req' = strip (sl_req s) ∧ slots_result s k res k'.
Proof. apply allocate_slots_spec. Qed.

(** ** A small configuration *)

(** A full-attention group and a sliding-window group over five usable blocks. *)
Definition demo_kv : result KVCacheManager :=
  new_kv_cache_manager demo_config 16 2 2 None true false 0 true false 1 1 None 0 [].

Lemma demo_kv_config_ok : kv_config_ok demo_config 2 2 1 true.
Proof.
  split; [lia|lia|vm_compute; discriminate|].
  intros g [->|[->|[]%elem_of_nil]%elem_of_cons]%elem_of_cons; vm_compute; split_and!; try done.
Qed.

Lemma demo_kv_ok :
  ∃ k, demo_kv = Ok k ∧ constructed demo_config 16 16 2 2 1 true false None (coordinator k) ∧
    kv_inv (λ _, 0) k [Blk 1; Blk 2; Blk 3; Blk 4; Blk 5] ∧ (∀ m rid, m ∈ managers k → blocks_of rid m = [] ∧ num_cached_block m !! rid = None) ∧
    max_model_len k = 16 ∧ km_enable_caching k = true ∧ hash_block_size (km_pool k) = 2 ∧ length (managers k) = 2%nat.
Proof.
  destruct demo_kv as [k|e] eqn:E; [|vm_compute in E; discriminate E]. exists k.
  destruct (new_kv_inv _ _ _ _ _ _ _ _ _ _ _ _ _ _ _ k E demo_kv_config_ok) as (Hc & Hinv & Ht).
  assert (Hk : max_model_len k = 16 ∧ km_enable_caching k = true ∧ hash_block_size (km_pool k) = 2 ∧ length (managers k) = 2%nat).
  { vm_compute in E. injection E as <-. vm_compute. done. }
  split_and!; try done; by apply Hk.
Qed.

(** A new request of four tokens. *)
Definition demo_call : SlotsCall :=
  mkSlots (set_block_hashes [[7]; [8]] (text_request (py_range 0 4))) 4 0 None 0 0 false true 0 false.

Lemma demo_call_ok k free :
  kv_inv (λ _, 0) k free → (∀ m rid, m ∈ managers k → blocks_of rid m = [] ∧ num_cached_block m !! rid = None) →
  max_model_len k = 16 → hash_block_size (km_pool k) = 2 → @slots_call demo_env demo_call k.
Proof.
  intros Hinv Ht Hmax Hh. split; unfold sl_local; simpl; rewrite ?Hmax, ?Hh; try done; try lia.
  - split; [constructor|]. intros s e h Hs. change ((∅ : gmap (Z * Z) bytes) !! (s, e) = Some h) in Hs. by rewrite lookup_empty in Hs.
  - apply Admission. intros i m Hi. apply list_elem_of_lookup_2 in Hi as Hin. destruct (Ht m (request_id (sl_req demo_call)) Hin) as [Hb Hn].
    exists []. split; [apply empty_lookup; rewrite (kv_groups _ _ _ Hinv); by eapply lookup_lt_Some|].
    split; [done|done| |by apply Z.mod_0_l; pose proof (gl_size _ _ (cv_groups _ _ _ _ (kv_coord _ _ _ Hinv) m Hin)); lia|by intros j _ ?%elem_of_nil].
    pose proof (gl_size _ _ (cv_groups _ _ _ _ (kv_coord _ _ _ Hinv) m Hin)) as HB.
    split; [done|by intros r ?%elem_of_nil| |intros Hm; by destruct Hm|done].
    symmetry. by apply (cdiv_mul 0).
Qed.

Lemma allocate_slots_correct_witness :
  ∃ k res req' k', demo_kv = Ok k ∧ @run_slots demo_env demo_call k = Ok (res, req', k') ∧ slots_result demo_call k res k' ∧
    match res with Some _ => True | None => False end.
Proof.
  destruct demo_kv_ok as (k & Ek & _ & Hinv & Ht & Hmax & _ & Hh & _).
  destruct (@allocate_slots_correct demo_env demo_call k (λ _, 0) _ Hinv) as (res & req' & k' & free' & Hrun & _ & _ & _ & Hres).
  { by apply (demo_call_ok k _ Hinv). }
  exists k, res, req', k'. split; [exact Ek|]. split; [exact Hrun|]. split; [exact Hres|].
  vm_compute in Ek. injection Ek as <-. vm_compute in Hrun. injection Hrun as <- _ _. exact I.
Defined.
