(* ===== verification/KVCacheManagerRun.v ===== *)
(** * Running the KV cache manager

    The look-up and the allocation together: what [get_computed_blocks] finds is
    what [allocate_slots] accepts.  And the manager as a state machine: from its
    construction on, whatever the scheduler calls, every block is referenced
    exactly as often as the tables of the groups name it, and the free queue
    holds the rest. *)

From S2P Require Import Prelude FreeQueue Request BlockHash BlockMap BlockPool BlockPoolSpec CacheHit SingleTypeManager.
From S2P Require Import SingleTypeManagerSpec GroupSpec Coordinator CoordinatorHit CoordinatorSpec KVCacheManager KVCacheManagerSpec.
Local Open Scope Z_scope.

(** ** The look-up *)

(** The coordinator's class is set up for the look-up: one group, or attention
    groups that cover all managers. *)
Definition lookup_ok (k : KVCacheManager) : Prop :=
  let c := coordinator k in
  0 < hash_block_size (block_pool c) ∧ co_pcp_world_size c = 1 ∧
  match coordinator_class c with
  | NoPrefixCache => km_enable_caching k = false
  | Unitary =>
      ∃ m, managers k = [m] ∧ block_size m = group_block_size (kv_cache_spec m) (dcp_world_size_for_kv_cache_spec (kv_cache_spec m) (co_dcp_world_size c)) ∧
        block_size m mod hash_block_size (block_pool c) = 0 ∧
        match kv_cache_spec m with
        | SlidingWindowSpec _ window _ => 2 ≤ window
        | ChunkedLocalAttentionSpec _ chunk => 0 < chunk ∧ chunk mod block_size m = 0 ∧ 0 ∉ eagle_group_ids c
        | CircularBufferSpec _ => False
        | _ => True
        end
  | Hybrid gs _ => groups_ok c gs ∧
      ∀ (i : nat) m, managers k !! i = Some m → ∃ g, g ∈ gs ∧ Z.of_nat i ∈ sg_group_ids g ∧ sg_spec g = kv_cache_spec m
  end.

(** The blocks found for one group. *)
Definition found_in (p : BlockPool) (hs : list bytes) (hit : Z) (i : nat) (m : Manager) (bs : list ref) : Prop :=
  hit mod block_size m = 0 ∧ group_table p hs (kv_cache_spec m) (block_size m) hit (Z.of_nat i) bs.

Lemma mod_trans a b c : 0 < b → 0 < c → a mod b = 0 → b mod c = 0 → a mod c = 0.
Proof. intros Hb Hc H1 H2. apply Z.mod_divide; [lia|]. etransitivity; apply Z.mod_divide; [lia|exact H2|lia|exact H1]. Qed.

Lemma lookup_spec k ext free hs M :
  kv_inv ext k free → lookup_ok k → km_enable_caching k = true → 0 ≤ M → M / hash_block_size (km_pool k) ≤ py_len hs →
  ∃ blocks hit un, coord_find_longest_cache_hit (RawHashes hs) M (coordinator k) = Ok (blocks, hit, un) ∧ 0 ≤ hit ≤ M ∧ 0 ≤ un ∧
    length blocks = length (managers k) ∧
    ∀ (i : nat) m, managers k !! i = Some m → ∃ bs, blocks !! i = Some bs ∧ found_in (km_pool k) hs hit i m bs.
Proof.
  intros Hk (Hh & Hpcp & Hcl) Hen HM Hhs. pose proof (cv_pool _ _ _ _ (kv_coord _ _ _ Hk)) as [_ Hci]. unfold coord_find_longest_cache_hit.
  destruct (coordinator_class (coordinator k)) as [| |gs f] eqn:Ecl; [congruence| |].
  - destruct Hcl as (m & Ems & HB & Hm & Hsp). rewrite Ems. cbn [py_get]. change (py_get [m] 0) with (Ok m). cbn [mbind result_bind].
    rewrite Hpcp. pose proof (gl_size _ _ (cv_groups _ _ _ _ (kv_coord _ _ _ Hk) m ltac:(rewrite Ems; left))) as HBm.
    destruct (manager_find_spec (km_pool k) hs (block_size m) (kv_cache_spec m) [0] (co_dcp_world_size (coordinator k))
      (bool_decide (0 ∈ eagle_group_ids (coordinator k))) M) as (blocks & L & Hrun & [Hpos Hal _ Ht] & HL & _).
    { rewrite <-HB. split; [split; try done; [by repeat constructor|by left; apply Z.mod_same; lia]|by apply Z.mod_same; lia| |].
      - by apply hashed_blocks.
      - destruct (kv_cache_spec m); try done. destruct Hsp as (? & ? & ?). split_and!; try done. by apply bool_decide_eq_false. }
    rewrite <-HB in Ht, HL. change (km_pool k) with (block_pool (coordinator k)) in Hrun. rewrite Hrun. cbn [mbind result_bind].
    exists blocks, L, 0. apply Forall2_length in Ht as Hlen. simpl in Hlen.
    split_and!; [done|done|destruct (bool_decide _); lia|done|done|]. intros [|i] m' Hi; [|done]. injection Hi as <-.
    destruct (Forall2_lookup_l _ _ _ 0%nat 0 Ht eq_refl) as (bs & Hbs & Hg). exists bs. split; [done|]. by split.
  - destruct Hcl as [Hgs Hcov]. destruct (hybrid_hit_spec (coordinator k) gs hs M) as (blocks & hit & longest & -> & Hb & Hal & Hle & Hlen & _ & Ht & _).
    { by split. }
    exists blocks, hit, (longest - hit). split_and!; [done|lia|lia|lia|by rewrite Hlen, (kv_groups _ _ _ Hk)|].
    intros i m Hi. destruct (Hcov i m Hi) as (g & Hg & Hig & Esp). destruct (Ht g _ Hg Hig) as (bs & Hbs & Hgt). rewrite Nat2Z.id in Hbs.
    pose proof (so_groups _ _ Hgs g Hg) as Hgo. destruct (go_manager _ _ Hgo _ Hig) as (m' & Hm' & HB). rewrite Nat2Z.id in Hm'.
    assert (m' = m) as -> by congruence. exists bs. split; [done|]. rewrite <-HB, Esp in Hgt. split; [|done].
    rewrite HB. eapply mod_trans; [| |exact Hal|apply Hgo]; [apply Hgs|apply Hgo].
Qed.

(** What is found can be given to a new request. *)
Lemma found_admits k ext free rid hs hit i m bs :
  kv_inv ext k free → km_enable_caching k = true → managers k !! i = Some m → 0 ≤ hit →
  blocks_of rid m = [] → num_cached_block m !! rid = None → found_in (km_pool k) hs hit i m bs →
  admits rid hit m (km_pool k) bs.
Proof.
  intros Hk Hen Hi Hhit Hb Hn [Hmod [Hlen Hent]]. pose proof (cv_pool _ _ _ _ (kv_coord _ _ _ Hk)) as [Hq Hci].
  pose proof (gl_size _ _ (cv_groups _ _ _ _ (kv_coord _ _ _ Hk) m (list_elem_of_lookup_2 _ _ _ Hi))) as HB.
  assert (Hin : ∀ r, r ∈ bs → r = Blk 0 ∨ ∃ j, r = Blk j ∧ block_hash (blk (km_pool k) (Blk j)) ≠ None).
  { intros r [n Hr]%list_elem_of_lookup. destruct (Hent n r Hr) as [(h & _ & j & -> & Ho)|[-> _]]; [right|left; by apply (qi_null _ _ Hq)].
    exists j. split; [done|]. by eapply owns_hashed. }
  split; [done|done| |done|].
  - split; [done| | |intros Hne; done|].
    + intros r Hr. destruct (Hin r Hr) as [->|(j & -> & Hj)]; [exists 0%nat; split; [done|by eapply null_valid; split]|].
      exists j. split; [done|]. by apply hashed_has.
    + unfold py_len. rewrite Hlen. pose proof (Z.div_mod hit (block_size m) ltac:(lia)) as Hd. rewrite Hmod in Hd.
      rewrite Z2Nat.id by (apply Z.div_pos; lia). symmetry. rewrite Hd at 1. rewrite Z.add_0_r, Z.mul_comm. by apply cdiv_mul.
    + rewrite (cb_enabled _ _ _ (proj2 (kv_caching _ _ _ Hk Hen) m (list_elem_of_lookup_2 _ _ _ Hi))). done.
  - intros j Hj Hr. by destruct (Hin _ Hr) as [[= ->]|(j' & [= <-] & ?)].
Qed.

Section Lookup.
Context `{PoolEnv}.
Implicit Types (k : KVCacheManager) (ext : ref → Z) (free : list ref) (req : Request).

(** The pool up to its queue of events. *)
Definition same_but_events (p p' : BlockPool) : Prop := ∃ q, p' = set_kv_event_queue q p.

Lemma same_but_events_refl p : same_but_events p p.
Proof. exists (kv_event_queue p). by destruct p. Qed.

Lemma events_coord ext ms p free p' : coord_inv ext ms p free → same_but_events p p' → coord_inv ext ms p' free.
Proof.
  intros [Hp Hr He Hg] [q ->]. pose proof (recached_events p q (proj2 Hp)) as Hrc. split; [by eapply recached_pool_inv|done|done|].
  intros m Hm. destruct (Hg m Hm). by split.
Qed.

Lemma events_kv ext k free p' : kv_inv ext k free → same_but_events (km_pool k) p' → kv_inv ext (set_pool p' k) free.
Proof.
  intros Hk Hp. apply kv_inv_step with (free := free); [done|by eapply events_coord; [apply Hk|]|apply kept_config_refl|].
  destruct Hp as [q ->]. by split.
Qed.

Lemma events_lookup k p' : lookup_ok k → same_but_events (km_pool k) p' → lookup_ok (set_pool p' k).
Proof.
  intros (Hh & Hpcp & Hcl) [q ->]. split; [done|]. split; [done|]. unfold set_pool. simpl. destruct (coordinator_class (coordinator k)); try done.
  destruct Hcl as [[G1 G2 G3 G4 G5 G6 G7] Hcov]. split; [|done]. split; try done. intros g Hg. destruct (G6 g Hg). by split.
Qed.

(** The blocks of a group and of its specification have the same size: no
    context parallelism. *)
Definition plain_sizes k : Prop :=
  ∀ (i : nat) m g, managers k !! i = Some m → co_groups (coordinator k) !! i = Some g → block_size m = spec_block_size (group_spec g).

(** The events for reused blocks. *)
Lemma report_spec k ext free req hit blocks :
  kv_inv ext k free → km_enable_caching k = true → plain_sizes k → request_ready req → 0 ≤ hit →
  hit ≤ num_tokens req → py_len (block_hashes req) = num_tokens req / hash_block_size (km_pool k) →
  length blocks = length (managers k) →
  (∀ (i : nat) m, managers k !! i = Some m → ∃ bs, blocks !! i = Some bs ∧ found_in (km_pool k) (block_hashes req) hit i m bs) →
  ∃ p' req', foldM (report_hit (co_groups (coordinator k))) (km_pool k, req) (imap pair blocks) = Ok (p', req') ∧
    same_but_events (km_pool k) p' ∧ strip req' = strip req ∧ request_ready req'.
Proof.
  intros Hk Hen Hpl Hready Hhit Hle Hhash Hlen Hfound.
  destruct (foldM_ind (report_hit (co_groups (coordinator k)))
    (λ _ st, same_but_events (km_pool k) st.1 ∧ strip st.2 = strip req ∧ request_ready st.2) (imap pair blocks) (km_pool k, req))
    as ([p' req'] & Hrun & Hpost); [split; [apply same_but_events_refl|done]| |by exists p', req'].
  intros dn [i bs] todo [p1 req1] Hsplit ([q Hp1] & Hs1 & Hr1). simpl in Hs1, Hr1, Hp1.
  assert (Hi : blocks !! i = Some bs).
  { assert (Hin : (i, bs) ∈ imap pair blocks) by (rewrite Hsplit; apply elem_of_app; right; left). apply elem_of_lookup_imap in Hin as (n & x & [= -> ->] & Hx). done. }
  unfold report_hit. destruct (py_len bs =? 0) eqn:E0; [eexists; split; [done|]; split; [by exists q|done]|].
  destruct (lookup_lt_is_Some_2 (managers k) i) as [m Hm]; [rewrite <-Hlen; by eapply lookup_lt_Some|].
  destruct (lookup_lt_is_Some_2 (co_groups (coordinator k)) i) as [g Hg]; [rewrite (kv_groups _ _ _ Hk), <-Hlen; by eapply lookup_lt_Some|].
  rewrite py_get_nonneg, Nat2Z.id, Hg by lia. cbn [unwrap mbind result_bind]. rewrite <-(Hpl i m g Hm Hg).
  destruct (Hfound i m Hm) as (bs' & Hbs' & Hmod & Hl & _). assert (bs' = bs) as -> by congruence.
  pose proof (gl_size _ _ (cv_groups _ _ _ _ (kv_coord _ _ _ Hk) m (list_elem_of_lookup_2 _ _ _ Hm))) as HB.
  pose proof (proj2 (kv_caching _ _ _ Hk Hen) m (list_elem_of_lookup_2 _ _ _ Hm)) as Hcb.
  assert (Hreq : block_hashes req1 = block_hashes req) by (change (block_hashes (strip req1) = block_hashes (strip req)); by rewrite Hs1).
  destruct (emit_cached_block_events_spec p1 req1 (py_len bs) (block_size m) (Z.of_nat i)) as (req2 & Hs2 & Hm2 & ->).
  { subst p1. split; simpl; try apply Hcb; try done; try apply Hr1; [apply py_len_nonneg|].
    rewrite Hreq. unfold py_len at 1. rewrite Hl, Z2Nat.id by (apply Z.div_pos; lia).
    eapply hash_cover; [done|apply Hcb|apply Hcb|exact Hle|done]. }
  eexists. split; [done|]. cbn [fst snd]. split; [|split; [congruence|by eapply request_ready_strip]].
  subst p1. destruct (_ && _); [by eexists|by exists q].
Qed.

Lemma create_list l k : length l = length (co_groups (coordinator k)) → ∀ (i : nat), blocks_list (create_kv_cache_blocks l) k !! i = l !! i.
Proof. intros Hl i. by rewrite created_blocks. Qed.

(** A look-up for a request that has no blocks yet. *)
Record lookup_call (report : bool) req k : Prop := {
  lk_tokens : 0 < num_tokens req;
  lk_ready : request_ready req;
  lk_hashes : km_enable_caching k = true → py_len (block_hashes req) = num_tokens req / hash_block_size (km_pool k);
  lk_new : ∀ m, m ∈ managers k → blocks_of (request_id req) m = [] ∧ num_cached_block m !! request_id req = None;
  lk_report : report = true → km_enable_events k = true → plain_sizes k;
}.

Lemma empty_admits k ext free req m :
  kv_inv ext k free → m ∈ managers k → blocks_of (request_id req) m = [] → num_cached_block m !! request_id req = None →
  admits (request_id req) 0 m (km_pool k) [].
Proof.
  intros Hk Hm Hb Hn. pose proof (gl_size _ _ (cv_groups _ _ _ _ (kv_coord _ _ _ Hk) m Hm)) as HB. split; [done|done| |by apply Z.mod_0_l; lia|by intros j _ ?%elem_of_nil].
  split; [done|by intros r ?%elem_of_nil|symmetry; by apply (cdiv_mul 0)|intros Hz; by destruct Hz|done].
Qed.

Lemma get_computed_blocks_spec report req k ext free :
  kv_inv ext k free → lookup_ok k → lookup_call report req k →
  ∃ blocks n boundary req' p', get_computed_blocks req report k = Ok (blocks, n, boundary, req', set_pool p' k) ∧
    same_but_events (km_pool k) p' ∧ strip req' = strip req ∧ request_ready req' ∧ 0 ≤ n < num_tokens req ∧ (boundary = 0 ∨ n ≤ boundary) ∧
    ∀ (i : nat) m, managers k !! i = Some m → ∃ bs, blocks_list blocks k !! i = Some bs ∧ admits (request_id req) n m (km_pool k) bs.
Proof.
  intros Hk Hlk [Ht Hr Hh Hnew Hrep]. unfold get_computed_blocks. destruct (prefix_cache_lookup_enabled req k) eqn:Een; cbn [negb].
  2: { exists EmptyBlocks, 0, 0, req, (km_pool k). split; [unfold set_pool, km_pool; by rewrite set_managers_same, set_coordinator_same|].
       split; [apply same_but_events_refl|]. split; [done|]. split; [done|]. split; [lia|]. split; [by left|]. intros i m Hi. exists [].
       split; [apply empty_lookup; rewrite (kv_groups _ _ _ Hk); by eapply lookup_lt_Some|].
       apply list_elem_of_lookup_2 in Hi. destruct (Hnew m Hi). by eapply empty_admits. }
  apply andb_true_iff in Een as [Hen _]. specialize (Hh Hen). pose proof (proj1 Hlk) as Hhb.
  destruct (lookup_spec k ext free (block_hashes req) (num_tokens req - 1) Hk Hlk Hen) as (blocks & hit & un & -> & Hhit & Hun & Hlen & Hfound).
  { lia. }
  { rewrite Hh. apply Z.div_le_mono; [done|lia]. }
  cbn [mbind result_bind].
  assert (Hgo : ∃ p' req', (if (0 <? hit) && km_enable_events k && report
      then foldM (report_hit (co_groups (coordinator k))) (km_pool k, req) (imap pair blocks) else Ok (km_pool k, req)) = Ok (p', req') ∧
    same_but_events (km_pool k) p' ∧ strip req' = strip req ∧ request_ready req').
  { destruct (_ && _ && _) eqn:E; [|exists (km_pool k), req; split; [done|split; [apply same_but_events_refl|done]]].
    apply andb_true_iff in E as [[_ Hev]%andb_true_iff ->]. apply (report_spec k ext free req hit blocks); [done|done|by apply Hrep|done|lia|lia|done|done|done]. }
  destruct Hgo as (p' & req' & -> & Hsame & Hs & Hr'). cbn [mbind result_bind].
  eexists _, _, _, req', p'. split; [done|]. split; [done|]. split; [done|]. split; [done|]. split; [lia|].
  split; [destruct (un =? 0); [by left|right; lia]|]. intros i m Hi. destruct (Hfound i m Hi) as (bs & Hbs & Hf). exists bs.
  split; [rewrite create_list; [done|by rewrite Hlen, (kv_groups _ _ _ Hk)]|].
  destruct (Hnew m (list_elem_of_lookup_2 _ _ _ Hi)). eapply found_admits; [done|done|done|lia|done|done|done].
Qed.
End Lookup.

(** ** The look-up is set up by the constructor *)

(** Every cacheable group is in a spec group. *)
Lemma split_groups_cover eagle groups (i : nat) gr :
  groups !! i = Some gr → prefix_cacheable (group_spec gr) = true →
  ∃ g, g ∈ split_groups eagle groups ∧ Z.of_nat i ∈ sg_group_ids g ∧ sg_spec g = group_spec gr.
Proof.
  intros Hi Hp. enough (Hin : Z.of_nat i ∈ concat (sg_group_ids <$> split_groups eagle groups)).
  { apply list_elem_of_In, in_concat in Hin as (ids & Hids & Hi'). apply list_elem_of_In, list_elem_of_fmap in Hids as (g & -> & Hg).
    apply list_elem_of_In in Hi'. exists g. split; [done|]. split; [done|].
    destruct (sp_member _ _ _ (split_groups_ok eagle groups) g _ Hg Hi') as (_ & gr' & Hgr' & E & _). rewrite Nat2Z.id in Hgr'. congruence. }
  unfold split_groups. set (f := λ gs ig, _).
  assert (Hgen : ∀ n, (n ≤ length groups)%nat → (i < n)%nat → Z.of_nat i ∈ concat (sg_group_ids <$> foldl f [] (take n (imap pair groups)))).
  { induction n as [|n IH]; intros Hn Hlt; [lia|]. destruct (lookup_lt_is_Some_2 groups n) as [gr' Hgr']; [lia|].
    assert (Him : imap pair groups !! n = Some (n, gr')) by (by rewrite list_lookup_imap, Hgr').
    rewrite (take_S_r (imap pair groups) n (n, gr')) by done. rewrite foldl_app. simpl. unfold f at 1. simpl.
    destruct (decide (i = n)) as [->|Hne].
    - assert (gr' = gr) as -> by congruence. rewrite Hp, join_group_concat. left.
    - specialize (IH ltac:(lia) ltac:(lia)). destruct (prefix_cacheable (group_spec gr')); [|done]. rewrite join_group_concat. by right. }
  specialize (Hgen (length groups) ltac:(lia)). rewrite take_ge in Hgen by (rewrite length_imap; lia). apply Hgen. by eapply lookup_lt_Some.
Qed.

Lemma new_pool_hash n caching hbs ev met p : new_block_pool n caching hbs ev met = Ok p → hash_block_size p = hbs.
Proof. unfold new_block_pool. intros Hp. destruct (0 <? n); [|done]. by inv_ok; simpl. Qed.

(** A configuration for a manager with prefix caching. *)
Record serve_config_ok (config : KVCacheConfig) (sbs hbs dcp pcp : Z) (ue caching : bool) : Prop := {
  se_kv : kv_config_ok config sbs hbs dcp caching;
  se_hybrid : config_ok config sbs hbs dcp ue;
  se_pcp : pcp = 1;
}.

Lemma new_lookup_ok config mml sbs hbs mif caching ue la stats ev dcp pcp met wm meta k :
  new_kv_cache_manager config mml sbs hbs mif caching ue la stats ev dcp pcp met wm meta = Ok k →
  serve_config_ok config sbs hbs dcp pcp ue caching → lookup_ok k.
Proof.
  intros Hk [Hkv Hhy ->]. destruct (new_kv_inv _ _ _ _ _ _ _ _ _ _ _ _ _ _ _ k Hk Hkv) as (Hcon & _ & _).
  unfold new_kv_cache_manager in Hk. apply bind_Ok in Hk as (c & Hc & Hk). apply bind_tt_Ok in Hk as [_ Hk]. injection Hk as <-. simpl in *.
  pose proof (cn_pool _ _ _ _ _ _ _ _ _ _ Hcon) as Hp.
  apply new_pool_hash in Hp as Hhb.
  unfold lookup_ok. simpl. rewrite Hhb. split; [apply Hkv|]. destruct caching.
  2: { unfold get_kv_cache_coordinator in Hc. apply bind_Ok in Hc as (c0 & Hc0 & Hc). injection Hc as <-.
       unfold new_coordinator in Hc0. apply bind_tt_Ok in Hc0 as [_ Hc0]. apply bind_Ok in Hc0 as (p & _ & Hc0).
       apply bind_tt_Ok in Hc0 as [_ Hc0]. apply bind_tt_Ok in Hc0 as [_ Hc0]. by injection Hc0 as <-. }
  destruct (decide (py_len (kv_cache_groups config) = 1)) as [Hone|Hne].
  - unfold get_kv_cache_coordinator in Hc. apply bind_Ok in Hc as (c0 & Hc0 & Hc). cbn [negb] in Hc. rewrite Hone in Hc. cbn [Z.eqb Pos.eqb] in Hc.
    destruct (new_coordinator_Ok _ _ _ _ _ _ _ _ _ _ _ _ _ Hc0) as (_ & Eg & _ & Ed & Epcp & _ & Eea & Em).
    unfold init_unitary in Hc. apply bind_Ok in Hc as (m & Hm & Hc). apply bind_tt_Ok in Hc as [Hbs Hc]. apply bind_tt_Ok in Hc as [_ Hc]. injection Hc as <-.
    apply py_assert_Ok in Hbs. destruct (kv_cache_groups config) as [|g [|]] eqn:Egr; [done| |unfold py_len in Hone; simpl in Hone; lia].
    rewrite py_get_nonneg in Hm by lia. apply unwrap_Ok in Hm. rewrite Em in Hm |- *. injection Hm as <-. simpl in *. split; [done|].
    rewrite Ed. eexists. split; [done|]. simpl.
    destruct (kc_group _ _ _ _ _ Hkv g ltac:(rewrite Egr; left)) as (HB & Hmod & Hsp). destruct (Hmod eq_refl) as [Hmod' _].
    split; [done|]. split; [done|]. destruct (group_spec g) as [b|b w|b w e|b ch|b] eqn:Es; try done; [lia|].
    destruct Hsp as [? ?]. split_and!; [done|done|].
    destruct (cf_chunked _ _ _ _ _ Hhy g b ch ltac:(rewrite Egr; left) Es) as [Hue Hno]. rewrite Egr in Hno. by rewrite (Eea Hue Hno).
  - assert (Hpcp : co_pcp_world_size c = 1 ∧ ∃ c0, new_coordinator config mml (default mml mif) ue true ev dcp 1 sbs hbs met la = Ok c0 ∧
      ∃ f, coordinator_class c = Hybrid (full_first (split_groups (eagle_group_ids c0) (kv_cache_groups config))) f).
    { unfold get_kv_cache_coordinator in Hc. apply bind_Ok in Hc as (c0 & Hc0 & Hc). cbn [negb] in Hc. rewrite (proj2 (Z.eqb_neq _ _) Hne) in Hc.
      destruct (new_coordinator_Ok _ _ _ _ _ _ _ _ _ _ _ _ _ Hc0) as (_ & Eg & _ & Ed & Epcp & _).
      unfold init_hybrid in Hc. apply bind_tt_Ok in Hc as [_ Hc]. apply bind_tt_Ok in Hc as [_ Hc]. apply bind_tt_Ok in Hc as [_ Hc].
      unfold verify_and_split_kv_cache_groups in Hc. apply bind_tt_Ok in Hc as [_ Hc]. apply bind_Ok in Hc as (f & _ & Hc). injection Hc as <-. simpl.
      split; [done|]. exists c0. split; [done|]. exists f. by rewrite Eg. }
    destruct Hpcp as (Hpcp & c0 & _ & f & Ecl). split; [done|].
    destruct (hybrid_groups_ok _ _ _ _ _ _ _ _ _ _ _ c Hc Hne Hhy) as (gs & f' & Ecl' & Hgs & _). rewrite Ecl'. split; [done|].
    assert (Egs : gs = full_first (split_groups (eagle_group_ids c0) (kv_cache_groups config))) by congruence.
    intros i m Hi. destruct (cn_managers _ _ _ _ _ _ _ _ _ _ Hcon i m Hi) as (gr & e & Hgr & ->).
    destruct (kc_group _ _ _ _ _ Hkv gr (list_elem_of_lookup_2 _ _ _ Hgr)) as (_ & _ & Hsp).
    destruct (split_groups_cover (eagle_group_ids c0) _ i gr Hgr) as (g & Hg & Hig & Es).
    { unfold prefix_cacheable, is_ring. by destruct (group_spec gr). }
    exists g. rewrite Egs, full_first_perm. done.
Qed.

(** ** The manager as a state machine *)

Lemma recached_coord ext ms p free p' :
  coord_inv ext ms p free → recached p p' → (∀ j, block_hash (blk p (Blk j)) = None → block_hash (blk p' (Blk j)) = None) →
  coord_inv ext ms p' free.
Proof.
  intros [Hp Hr He Hg] Hrc Hno. pose proof (rc_queue _ _ Hrc) as Hq. split; [by eapply recached_pool_inv| |done|].
  - intros j Hj Hh. rewrite <-(sq_ref _ _ Hq). apply Hr; [done|]. by apply (sq_has _ _ Hq).
  - intros m Hm. destruct (Hg m Hm) as [Hv Hs Hsp Hpa Hc Ht Hcw]. split; try done.
    + intros rid r Hin. destruct (Hv rid r Hin) as (j & -> & Hh). exists j. split; [done|]. by apply (sq_has _ _ Hq).
    + intros Hca rid n j Hun. rewrite <-(cf_caching _ _ (rc_config _ _ Hrc)) in Hca. destruct (Ht Hca rid n j Hun) as [H1 H2].
      split; [by rewrite <-(sq_ref _ _ Hq)|by apply Hno].
Qed.

(** Keys are only taken away. *)
Lemma owns_fewer p p' j : cache_inv p → (∀ key, owns p' j key → owns p j key) → block_hash (blk p (Blk j)) = None → block_hash (blk p' (Blk j)) = None.
Proof.
  intros Hc Ho Hn. destruct (block_hash (blk p' (Blk j))) as [key|] eqn:E; [|done]. exfalso. apply (owns_hashed p j key Hc); [|done].
  apply Ho. by left.
Qed.

Lemma lookup_ok_step k ms p :
  lookup_ok k → kept_config (managers k) ms → same_shape (km_pool k) p → lookup_ok (set_coordinator (set_managers ms p (coordinator k)) k).
Proof.
  intros (Hh & Hpcp & Hcl) [Hl Hcf] Hsh. pose proof (cf_hash_size _ _ (sh_config _ _ Hsh)) as Eh. unfold km_pool in Eh.
  unfold lookup_ok. simpl. rewrite <-Eh. split; [done|]. split; [done|]. destruct (coordinator_class (coordinator k)) as [| |gs f]; [done| |].
  - destruct Hcl as (m & Ems & HB & Hm & Hsp). rewrite Ems in Hl, Hcf. destruct ms as [|m' [|]]; try done. exists m'. split; [done|].
    destruct (Hcf 0%nat m' eq_refl) as (m0 & [= <-] & (E1 & E2 & _)%config_fields). rewrite E1, E2. done.
  - destruct Hcl as [[G1 G2 G3 G4 G5 G6 G7] Hcov]. split.
    + split; simpl; rewrite <-?Eh; try done. intros g Hg. destruct (G6 g Hg) as [A1 A2 A3 A4 A5 A6 A7]. split; simpl; rewrite <-?Eh; try done.
      intros i Hi. destruct (A3 i Hi) as (m & Hm & HB). destruct (lookup_lt_is_Some_2 ms (Z.to_nat i)) as [m' Hm']; [rewrite Hl; by eapply lookup_lt_Some|].
      exists m'. split; [done|]. destruct (Hcf _ m' Hm') as (m0 & Hm0 & (_ & E2 & _)%config_fields). assert (m0 = m) as -> by congruence. by rewrite E2.
    + intros i m' Hm'. destruct (Hcf i m' Hm') as (m & Hm & (E1 & _)%config_fields). destruct (Hcov i m Hm) as (g & ? & ? & ?). exists g. by rewrite E1.
Qed.

Lemma table_refs_empty t r : (∀ rid, default [] (t !! rid) = []) → table_refs t r = 0.
Proof.
  induction t as [|rid l t Hn IH] using map_ind; intros He; [done|]. rewrite table_refs_insert by done.
  pose proof (He rid) as Hl. rewrite lookup_insert_eq in Hl. simpl in Hl. subst l. rewrite IH; [done|]. intros rid'. specialize (He rid').
  destruct (decide (rid' = rid)) as [->|]; [by rewrite Hn|by rewrite lookup_insert_ne in He].
Qed.

Section Machine.
Context `{PoolEnv}.
Implicit Types (k : KVCacheManager) (free : list ref).

Inductive kv_op : Type :=
  | KLookup (req : Request) (report : bool)
  | KSlots (s : SlotsCall)
  | KSkip (rid : string) (processed : Z) (num_prompt : option Z)
  | KCache (req : Request) (n : Z)
  | KFree (req : Request)
  | KEvict (ids : list Z)
  | KReset
  | KTakeEvents.

Definition run_kv_op (op : kv_op) k : result KVCacheManager :=
  match op with
  | KLookup req report => '(_, _, _, _, k) ← get_computed_blocks req report k; Ok k
  | KSlots s => '(_, _, k) ← run_slots s k; Ok k
  | KSkip rid processed np => km_remove_skipped_blocks rid processed np k
  | KCache req n => '(_, k) ← km_cache_blocks req n k; Ok k
  | KFree req => km_free req k
  | KEvict ids => km_evict_blocks ids k
  | KReset => '(_, k) ← km_reset_prefix_cache k; Ok k
  | KTakeEvents => Ok (km_take_events k).2
  end.

(** What the scheduler ensures. *)
Definition kv_pre (op : kv_op) k : Prop :=
  match op with
  | KLookup req report => lookup_call report req k
  | KSlots s => slots_call s k
  | KSkip _ processed np => 0 ≤ processed ∧ ∀ n, np = Some n → 0 ≤ n
  | KCache req n => km_enable_caching k = true →
      request_ready req ∧ 0 ≤ n ≤ num_tokens req ∧ py_len (block_hashes req) = num_tokens req / hash_block_size (km_pool k) ∧
      ∀ m, m ∈ managers k → cdiv n (block_size m) ≤ py_len (blocks_of (request_id req) m)
  | KFree _ | KReset | KTakeEvents => True
  | KEvict ids => ∀ id, id ∈ ids → 0 ≤ id < num_gpu_blocks (km_pool k)
  end.

(** The manager is in order. *)
Record serving k free : Prop := {
  sv_inv : kv_inv (λ _, 0) k free;
  sv_lookup : lookup_ok k;
  sv_stats : log_stats k = true → is_Some (prefix_cache_stats k);
}.

Lemma serving_step k free ms p free' :
  serving k free → coord_inv (λ _, 0) ms p free' → kept_config (managers k) ms → same_shape (km_pool k) p →
  serving (set_coordinator (set_managers ms p (coordinator k)) k) free'.
Proof.
  intros [Hk Hlk Hst] Hinv Hcf Hsh. split; [by eapply kv_inv_step|by eapply lookup_ok_step|done].
Qed.

Lemma serving_pool k free p :
  serving k free → recached (km_pool k) p → (∀ j, block_hash (blk (km_pool k) (Blk j)) = None → block_hash (blk p (Blk j)) = None) →
  serving (set_pool p k) free.
Proof.
  intros Hs Hrc Hno. eapply serving_step; [done|eapply recached_coord; [apply Hs|done|done]|apply kept_config_refl|].
  apply same_queue_shape; apply Hrc.
Qed.

Lemma serving_events k free p : serving k free → same_but_events (km_pool k) p → serving (set_pool p k) free.
Proof. intros [Hk Hlk Hst] Hp. split; [by apply events_kv|by apply events_lookup|done]. Qed.

Lemma serving_moved k free k' free' : serving k free → kv_inv (λ _, 0) k' free' → moved k k' → serving k' free'.
Proof.
  intros [Hk Hlk Hst] Hk' (ms & p & -> & Hcf & Hsh). split; [done|by apply lookup_ok_step|done].
Qed.

(** [reset_prefix_cache] leaves the tables alone, and succeeds exactly when no
    block is in use. *)
Lemma reset_serving k free :
  serving k free → ∃ done k', km_reset_prefix_cache k = Ok (done, k') ∧ serving k' free ∧
    (∃ p, same_shape (km_pool k) p ∧ coordinator k' = coordinator (set_pool p k)) ∧
    (max_model_len k', km_enable_caching k', km_enable_events k') = (max_model_len k, km_enable_caching k, km_enable_events k) ∧
    (in_use (km_pool k) = [] → done = true).
Proof.
  intros Hs. pose proof Hs as [Hk Hlk Hst]. pose proof (kv_coord _ _ _ Hk) as Hc.
  destruct (reset_prefix_cache_spec (km_pool k) free (cv_pool _ _ _ _ Hc)) as (p & Hrun & _ & Hrc & Hno & Hsame).
  assert (Hs' : serving (set_pool p k) free).
  { apply serving_pool; [done|done|]. intros j. destruct (decide (in_use (km_pool k) = [])) as [Hu|Hu]; [|by rewrite (Hsame Hu)].
    apply owns_fewer; [apply (cv_pool _ _ _ _ Hc)|]. intros key Hkey. by destruct (Hno Hu j key). }
  assert (Hsh : same_shape (km_pool k) p) by (apply same_queue_shape; apply Hrc).
  unfold km_reset_prefix_cache. rewrite Hrun. case_bool_decide as Hu; cbn [negb].
  - destruct (log_stats k) eqn:Els.
    + destruct (Hst eq_refl) as [st ->]. cbn [unwrap mbind result_bind]. do 2 eexists. split; [done|].
      destruct Hs' as [H1 H2 H3]. split; [split; [by destruct H1|done|by eexists]|]. split; [by exists p|done].
    + do 2 eexists. split; [done|]. split; [done|]. split; [by exists p|done].
  - do 2 eexists. split; [done|]. split; [done|]. split; [by exists p|done].
Qed.

(** Every permitted operation succeeds and keeps the manager in order. *)
Lemma run_kv_op_serving op k free :
  serving k free → kv_pre op k → ∃ k' free', run_kv_op op k = Ok k' ∧ serving k' free'.
Proof.
  intros Hs Hpre. pose proof Hs as [Hk Hlk Hst]. pose proof (kv_coord _ _ _ Hk) as Hc. destruct op as [req report|s|rid n np|req n|req|ids| |]; simpl in *.
  - destruct (get_computed_blocks_spec report req k _ free Hk Hlk Hpre) as (b & n & bd & req' & p & -> & Hp & _). cbn [mbind result_bind].
    exists (set_pool p k), free. split; [done|]. by apply serving_events.
  - destruct (allocate_slots_spec s k _ free Hk Hpre) as (res & req' & k' & free' & -> & Hk' & Hmv & _). cbn [mbind result_bind].
    exists k', free'. split; [done|]. by eapply serving_moved.
  - destruct Hpre as [Hn Hnp]. destruct (coord_remove_skipped_spec _ (coordinator k) free rid n np Hc Hn Hnp) as (l & ms & p & free' & Hrun & Hinv & Hsh & _ & _ & Hout).
    unfold km_remove_skipped_blocks. rewrite Hrun. cbn [mbind result_bind]. do 2 eexists. split; [done|]. eapply serving_step; [done|done| |done].
    eapply outcome_config; [exact Hout|]. intros i m a m' [[? _] _ _ _ _]. done.
  - unfold km_cache_blocks. destruct (km_enable_caching k) eqn:He; [|by exists k, free]. destruct (Hpre eq_refl) as (Hr & Hn & Hh & Hcov).
    destruct (kv_caching _ _ _ Hk He) as [Hen Hcb].
    destruct (coord_cache_spec _ (coordinator k) free req n Hc Hen Hr) as (req' & ms & p & free' & Hrun & Hinv & Hsh & _ & _ & _ & Hf); try done; try lia.
    { apply (kv_sched _ _ _ Hk). } { apply (kv_reprefill _ _ _ Hk). } { intros m Hm. split; [by apply Hcb|by apply Hcov]. }
    rewrite Hrun. cbn [mbind result_bind]. do 2 eexists. split; [done|]. eapply serving_step; [done|done| |done].
    split; [symmetry; apply (Forall2_length _ _ _ Hf)|]. intros i m' Hi. destruct (Forall2_lookup_r _ _ _ _ _ Hf Hi) as (m & Hm & E & _). eauto.
  - destruct (coord_free_spec _ (coordinator k) free (request_id req) Hc) as (l & ms & p & free' & Hrun & Hinv & Hsh & _ & Hout).
    unfold km_free. rewrite Hrun. cbn [mbind result_bind]. do 2 eexists. split; [done|]. eapply serving_step; [done|done| |done].
    eapply outcome_config; [exact Hout|]. intros i m a m' [[? _] _]. done.
  - destruct (evict_blocks_spec (km_pool k) ids (proj2 (cv_pool _ _ _ _ Hc)) Hpre) as (p & Hrun & Hrc & Ho).
    unfold km_evict_blocks. rewrite Hrun. cbn [mbind result_bind]. do 2 eexists. split; [done|]. apply (serving_pool k free p Hs Hrc).
    intros j. apply owns_fewer; [apply (cv_pool _ _ _ _ Hc)|]. intros key. rewrite Ho. tauto.
  - destruct (reset_serving k free Hs) as (d & k' & -> & Hs' & _). cbn [mbind result_bind]. eauto.
  - unfold km_take_events. destruct (take_events (km_pool k)) as [evs p] eqn:Ht. exists (set_pool p k), free. split; [done|].
    apply serving_events; [done|]. unfold take_events in Ht. destruct (negb _); injection Ht as _ <-; [apply same_but_events_refl|by eexists].
Qed.

(** Runs from the construction on. *)
Inductive kv_reachable : KVCacheManager → Prop :=
  | kr_new config mml sbs hbs mif caching ue la stats ev dcp pcp met wm meta k :
      new_kv_cache_manager config mml sbs hbs mif caching ue la stats ev dcp pcp met wm meta = Ok k →
      serve_config_ok config sbs hbs dcp pcp ue caching → kv_reachable k
  | kr_step op k k' : kv_reachable k → kv_pre op k → run_kv_op op k = Ok k' → kv_reachable k'.

Lemma kv_reachable_serving k : kv_reachable k → ∃ free, serving k free.
Proof.
  induction 1 as [config mml sbs hbs mif caching ue la stats ev dcp pcp met wm meta k Hk Hok|op k k' _ [free IH] Hpre Hrun].
  - destruct (new_kv_inv _ _ _ _ _ _ _ _ _ _ _ _ _ _ _ k Hk (se_kv _ _ _ _ _ _ _ Hok)) as (_ & Hinv & _). eexists. split; [exact Hinv|by eapply new_lookup_ok|].
    unfold new_kv_cache_manager in Hk. apply bind_Ok in Hk as (c & _ & Hk). apply bind_tt_Ok in Hk as [_ Hk]. injection Hk as <-. simpl. intros ->. by eexists.
  - destruct (run_kv_op_serving op k free IH Hpre) as (k1 & free1 & Hrun1 & Hs). rewrite Hrun in Hrun1. injection Hrun1 as <-. eauto.
Qed.

(** The tables of all groups name a block as often as it is referenced. *)
Definition table_count k (r : ref) : Z := foldr (λ m n, table_refs (req_to_blocks m) r + n) 0 (managers k).

Lemma serving_refs k free : serving k free → ∀ r, all_refs (managers k) r = table_count k r.
Proof.
  intros [Hk _ _] r. pose proof (cv_groups _ _ _ _ (kv_coord _ _ _ Hk)) as Hg. unfold table_count.
  induction (managers k) as [|m ms IH]; [done|]. simpl. rewrite IH by (intros m' Hm'; apply Hg; by right).
  unfold group_refs. rewrite (gl_copies _ _ (Hg m ltac:(left))). change (cow_refs [] r) with 0. lia.
Qed.

(** Without blocks in any table none is in use. *)
Lemma empty_in_use k free : serving k free → (∀ m rid, m ∈ managers k → blocks_of rid m = []) → in_use (km_pool k) = [].
Proof.
  intros Hs Hempty. pose proof (kv_coord _ _ _ (sv_inv _ _ Hs)) as Hc. pose proof (cv_pool _ _ _ _ Hc) as Hp.
  assert (Hz : ∀ r, all_refs (managers k) r = 0).
  { intros r. rewrite (serving_refs k free Hs). unfold table_count. clear -Hempty. induction (managers k) as [|m ms IH]; [done|]. simpl.
    rewrite table_refs_empty by (intros rid; apply (Hempty m rid); left). rewrite IH; [done|]. intros m' rid Hm'. apply Hempty. by right. }
  destruct (in_use (km_pool k)) as [|r l] eqn:E; [done|]. assert (Hin : r ∈ in_use (km_pool k)) by (rewrite E; left).
  apply list_elem_of_filter in Hin as [[Hnull Hpos] Hpb]. apply list_elem_of_fmap in Hpb as (j & -> & Hj%elem_of_seq).
  assert (Hh : has (pool_store (km_pool k)) (Blk j)) by (apply (qi_dom _ _ (proj1 Hp)); lia).
  apply (is_null_false _ _ _ (proj1 Hp)) in Hnull. rewrite (cv_refs _ _ _ _ Hc j Hnull Hh), Hz in Hpos. lia.
Qed.
End Machine.

(** C9: Look-up and allocation fit together.  For a new request the look-up
    succeeds and finds fewer tokens than the request has, provided that, if the
    hits are to be reported in full as events, every group has blocks of the size
    its specification names (under decode context parallelism they are larger, and
    a full report raises: [full_report_raises_under_dcp]).  Giving the result to
    [allocate_slots], together with any number of new tokens that fit the model
    length, never raises either: the blocks found are accepted in every group,
    and the outcome is as described for [allocate_slots]. *)
Theorem lookup_then_allocate `{PoolEnv} k free req report :
  serving k free → lookup_call report req k → num_computed_tokens req = 0 → num_tokens req ≤ max_model_len k → 0 ≤ num_prompt_tokens req →
  ∃ blocks n boundary req1 k1,
    get_computed_blocks req report k = Ok (blocks, n, boundary, req1, k1) ∧ 0 ≤ n < num_tokens req ∧ serving k1 free ∧
    ∀ new lookahead reserved delay full scheduled, 0 < new → 0 ≤ lookahead → 0 ≤ reserved →
      let s := mkSlots req1 new n (Some blocks) lookahead 0 delay full reserved scheduled in
      ∃ res req2 k2 free2, run_slots s k1 = Ok (res, req2, k2) ∧ serving k2 free2 ∧ slots_result s k1 res k2.
Proof.
  intros Hs Hcall Hc0 Hmax Hp. pose proof Hs as [Hk Hlk _].
  destruct (get_computed_blocks_spec report req k _ free Hk Hlk Hcall) as (blocks & n & bd & req1 & p & Hrun & Hp1 & Hst & Hready & Hn & _ & Had).
  pose proof (serving_events k free p Hs Hp1) as Hs1. exists blocks, n, bd, req1, (set_pool p k). split; [done|]. split; [done|]. split; [done|].
  intros new lookahead reserved delay full scheduled Hnew Hla Hres s.
  assert (Hreq : request_id req1 = request_id req ∧ num_tokens req1 = num_tokens req ∧ block_hashes req1 = block_hashes req ∧
    num_computed_tokens req1 = num_computed_tokens req ∧ num_prompt_tokens req1 = num_prompt_tokens req).
  { change (request_id (strip req1) = request_id (strip req) ∧ num_tokens (strip req1) = num_tokens (strip req) ∧ block_hashes (strip req1) = block_hashes (strip req) ∧
      num_computed_tokens (strip req1) = num_computed_tokens (strip req) ∧ num_prompt_tokens (strip req1) = num_prompt_tokens (strip req)). by rewrite Hst. }
  destruct Hreq as (Er & Et & Eh & Ec & Ep).
  destruct (allocate_slots_spec s (set_pool p k) _ free (sv_inv _ _ Hs1)) as (res & req2 & k2 & free2 & Hr2 & Hk2 & Hmv & _ & Hres2).
  - split; unfold s, sl_local; simpl; rewrite ?Er, ?Et, ?Eh, ?Ec, ?Ep, ?Hc0; try done; try lia.
    + intros He. rewrite (lk_hashes _ _ _ Hcall He). by destruct Hp1 as [q ->].
    + apply Admission. unfold sl_local. simpl. rewrite Er, Ec, Hc0. intros i m Hi. destruct (Had i m Hi) as (bs & Hbs & Ha). exists bs. split; [done|].
      destruct Hp1 as [q ->]. eapply admits_stable; [| |exact Ha]; [by split|done].
  - exists res, req2, k2, free2. split; [done|]. split; [by eapply serving_moved|done].
Qed.

(** C8: However the scheduler uses the manager: in every state that permitted
    calls can reach, each block of the pool is referenced exactly as often as
    the block tables of all groups name it, the free queue consists of exactly
    the blocks that no table names, tables name only blocks of the pool, and
    every permitted call succeeds and leads to such a state again. *)
Theorem kv_manager_safe `{PoolEnv} k :
  kv_reachable k →
  (∀ j, j ≠ 0%nat → Z.of_nat j < num_gpu_blocks (km_pool k) → ref_cnt (blk (km_pool k) (Blk j)) = table_count k (Blk j)) ∧
  (∃ free, get_all_free_blocks (S (length free)) (free_block_queue (km_pool k)) = Ok free ∧
     ∀ j, j ≠ 0%nat → Z.of_nat j < num_gpu_blocks (km_pool k) → (Blk j ∈ free ↔ table_count k (Blk j) = 0)) ∧
  (∀ m rid r, m ∈ managers k → r ∈ blocks_of rid m → ∃ j, r = Blk j ∧ Z.of_nat j < num_gpu_blocks (km_pool k)) ∧
  (∀ op, kv_pre op k → ∃ k', run_kv_op op k = Ok k' ∧ kv_reachable k').
Proof.
  intros Hr. destruct (kv_reachable_serving k Hr) as [free Hs]. pose proof (kv_coord _ _ _ (sv_inv _ _ Hs)) as Hc. pose proof (cv_pool _ _ _ _ Hc) as [Hq _].
  assert (Hrefs : ∀ j, j ≠ 0%nat → Z.of_nat j < num_gpu_blocks (km_pool k) → ref_cnt (blk (km_pool k) (Blk j)) = table_count k (Blk j)).
  { intros j Hj Hlt. rewrite (cv_refs _ _ _ _ Hc j Hj) by (by apply (qi_dom _ _ Hq)). rewrite (serving_refs k free Hs). lia. }
  split_and!; [done|..].
  - exists free. split; [apply (get_all_free_blocks_spec _ _ _ (qi_rep _ _ Hq)); lia|]. intros j Hj Hlt.
    rewrite (qi_free _ _ Hq), <-(Hrefs j Hj Hlt), (qi_dom _ _ Hq). tauto.
  - intros m rid r Hm Hin. destruct (gl_valid _ _ (cv_groups _ _ _ _ Hc m Hm) rid r Hin) as (j & -> & Hh). exists j. split; [done|]. by apply (qi_dom _ _ Hq).
  - intros op Hpre. destruct (run_kv_op_serving op k free Hs Hpre) as (k' & free' & Hrun & _). exists k'. split; [done|]. by eapply kr_step.
Qed.

(** ** Nothing leaks *)

(** Finish requests one after the other. *)
Fixpoint free_all (reqs : list Request) (k : KVCacheManager) : result KVCacheManager :=
  match reqs with
  | [] => Ok k
  | req :: reqs' => k ← km_free req k; free_all reqs' k
  end.

Lemma free_all_spec `{PoolEnv} reqs : ∀ k free,
  serving k free →
  ∃ k' free', free_all reqs k = Ok k' ∧ serving k' free' ∧ num_gpu_blocks (km_pool k') = num_gpu_blocks (km_pool k) ∧
    ∀ m' rid, m' ∈ managers k' → blocks_of rid m' ≠ [] → (rid ∉ request_id <$> reqs) ∧ ∃ m, m ∈ managers k ∧ blocks_of rid m ≠ [].
Proof.
  induction reqs as [|req reqs IH]; intros k free Hs; simpl.
  { exists k, free. split; [done|]. split; [done|]. split; [done|]. intros m rid Hm Hb. split; [by apply not_elem_of_nil|eauto]. }
  destruct (coord_free_spec _ (coordinator k) free (request_id req) (kv_coord _ _ _ (sv_inv _ _ Hs))) as (l & ms & p & free1 & Hrun & Hinv & Hsh & _ & Hout).
  unfold km_free. rewrite Hrun. cbn [mbind result_bind].
  assert (Hcf : kept_config (managers k) ms) by (eapply outcome_config; [exact Hout|]; intros i m a m' [[? _] _]; done).
  destruct (IH _ free1 (serving_step k free ms p free1 Hs Hinv Hcf Hsh)) as (k' & free' & -> & Hs' & Hn & Hk'). exists k', free'.
  split; [done|]. split; [done|]. split; [rewrite Hn; symmetry; apply (cf_num _ _ (sh_config _ _ Hsh))|].
  intros m' rid Hm' Hb. destruct (Hk' m' rid Hm' Hb) as (Hnot & m1 & Hm1 & Hb1). simpl in Hm1. apply list_elem_of_lookup in Hm1 as [i Hi].
  destruct (lookup_lt_is_Some_2 (managers k) i) as [m Hm]; [rewrite <-(proj1 Hcf); by eapply lookup_lt_Some|].
  destruct (oc_post _ _ _ _ _ Hout i m Hm) as (a & m2 & _ & Hi2 & [_ Ho] & He & _). assert (m2 = m1) as -> by congruence.
  destruct (decide (rid = request_id req)) as [->|Hne]; [by rewrite He in Hb1|]. split; [by apply not_elem_of_cons|].
  exists m. split; [by eapply list_elem_of_lookup_2|]. by rewrite <-(Ho rid Hne).
Qed.

(** C10: when every request that holds blocks is finished, in whatever
    order, all blocks are free again and the prefix cache can be reset. *)
Theorem drain_returns_all_blocks `{PoolEnv} k reqs :
  kv_reachable k → (∀ m rid, m ∈ managers k → blocks_of rid m ≠ [] → rid ∈ (request_id <$> reqs)) →
  ∃ k', free_all reqs k = Ok k' ∧ num_gpu_blocks (km_pool k') = num_gpu_blocks (km_pool k) ∧
    get_num_free_blocks (km_pool k') = num_gpu_blocks (km_pool k) - 1 ∧
    ∃ k'', km_reset_prefix_cache k' = Ok (true, k'').
Proof.
  intros Hr Hall. destruct (kv_reachable_serving k Hr) as [free Hs]. destruct (free_all_spec reqs k free Hs) as (k' & free' & Hrun & Hs' & Hn & Hk').
  assert (Hempty : ∀ m rid, m ∈ managers k' → blocks_of rid m = []).
  { intros m rid Hm. destruct (decide (blocks_of rid m = [])) as [|Hb]; [done|]. destruct (Hk' m rid Hm Hb) as (Hnot & m0 & Hm0 & Hb0). destruct Hnot. by apply (Hall m0). }
  pose proof (empty_in_use k' free' Hs' Hempty) as Huse. pose proof (cv_pool _ _ _ _ (kv_coord _ _ _ (sv_inv _ _ Hs'))) as Hp.
  exists k'. split; [done|]. split; [done|]. split; [rewrite <-Hn; by apply (in_use_nil _ _ (proj1 Hp))|].
  destruct (reset_serving k' free' Hs') as (d & k'' & Hrun' & _ & _ & _ & Hd). rewrite (Hd Huse) in Hrun'. by exists k''.
Qed.

(** ** Reporting hits under context parallelism *)

(** One full-attention group with blocks of two tokens on two decode ranks: the
    manager's blocks and the hash blocks have four tokens. *)
Definition dcp_config : KVCacheConfig := mkConfig 6 [mkGroup (FullAttentionSpec 2) 0 false] None false.

Definition dcp_kv : result KVCacheManager :=
  new_kv_cache_manager dcp_config 16 4 4 None true false 0 false true 2 1 None 0 [].

Definition dcp_request : Request := set_block_hashes [[7]; [8]] (text_request (py_range 0 9)).

(** Nine tokens are given slots, so that two blocks are cached; then another
    request with the same tokens is looked up. *)
Definition dcp_lookup (report : bool) : result Z :=
  k ← dcp_kv;
  '(_, _, k) ← @run_slots demo_env (mkSlots dcp_request 9 0 None 0 0 false false 0 false) k;
  '(_, n, _, _, _) ← @get_computed_blocks demo_env dcp_request report k; Ok n.

(** with decode context parallelism a prefix-cache hit makes the
    look-up raise when the request asks for full reporting: the hit of eight
    tokens is reported with the block size of the specification instead of the
    manager's, and the hashes cannot be viewed at that size. *)
Theorem full_report_raises_under_dcp : dcp_lookup false = Ok 8 ∧ dcp_lookup true = Err AssertionError.
Proof. split; vm_compute; reflexivity. Qed.

(** ** Witnesses *)

Lemma demo_serve_config_ok : serve_config_ok demo_config 2 2 1 1 false true.
Proof. split; [exact demo_kv_config_ok|exact demo_config_ok|reflexivity]. Qed.

Lemma demo_kv_reachable : ∃ k, demo_kv = Ok k ∧ @kv_reachable demo_env k.
Proof.
  destruct demo_kv_ok as (k & Ek & _). exists k. split; [exact Ek|]. apply (@kr_new demo_env demo_config 16 2 2 None true false 0 true false 1 1 None 0 []); [exact Ek|].
  exact demo_serve_config_ok.
Qed.

Lemma kv_manager_safe_witness :
  ∃ k k', demo_kv = Ok k ∧ @kv_reachable demo_env k ∧ @run_kv_op demo_env (KSlots demo_call) k = Ok k' ∧ @kv_reachable demo_env k'.
Proof.
  destruct demo_kv_ok as (k & Ek & _ & Hinv & Ht & Hmax & _ & Hh & _). destruct demo_kv_reachable as (k0 & Ek0 & Hr).
  rewrite Ek in Ek0. injection Ek0 as <-. destruct (@kv_manager_safe demo_env k Hr) as (_ & _ & _ & Hops).
  destruct (Hops (KSlots demo_call)) as (k' & Hrun & Hr'); [exact (demo_call_ok k _ Hinv Ht Hmax Hh)|].
  exists k, k'. split; [exact Ek|]. split; [exact Hr|]. split; [exact Hrun|exact Hr'].
Defined.

Lemma lookup_then_allocate_witness :
  ∃ k blocks n boundary req1 k1 res req2 k2, demo_kv = Ok k ∧
    @get_computed_blocks demo_env (sl_req demo_call) false k = Ok (blocks, n, boundary, req1, k1) ∧ n < 4 ∧
    @run_slots demo_env (mkSlots req1 4 n (Some blocks) 0 0 false true 0 false) k1 = Ok (res, req2, k2).
Proof.
  destruct demo_kv_ok as (k & Ek & _ & Hinv & Ht & Hmax & _ & Hh & _). destruct demo_kv_reachable as (k0 & Ek0 & Hr).
  rewrite Ek in Ek0. injection Ek0 as <-. destruct (@kv_reachable_serving demo_env k Hr) as [free Hs].
  pose proof (demo_call_ok k _ Hinv Ht Hmax Hh) as Hcall.
  destruct (@lookup_then_allocate demo_env k free (sl_req demo_call) false Hs) as (blocks & n & bd & req1 & k1 & H1 & Hn & _ & H2).
  - split; [reflexivity|exact (lc_ready _ _ Hcall)|intros _; rewrite Hh; reflexivity|intros m Hm; exact (Ht m _ Hm)|discriminate].
  - reflexivity.
  - rewrite Hmax. vm_compute. discriminate.
  - vm_compute. discriminate.
  - destruct (H2 4 0 0 false true false) as (res & req2 & k2 & free2 & Hrun & _); [lia|lia|lia|].
    exists k, blocks, n, bd, req1, k1, res, req2, k2. split; [exact Ek|]. split; [exact H1|]. split; [exact (proj2 Hn)|exact Hrun].
Defined.

(** The manager after the request got its slots. *)
Lemma demo_allocated_kv :
  ∃ k1 res req1, (k ← demo_kv; @run_slots demo_env demo_call k) = Ok (Some res, req1, k1) ∧ @kv_reachable demo_env k1 ∧
    get_num_free_blocks (km_pool k1) = 1 ∧
    ∀ m rid, m ∈ managers k1 → blocks_of rid m ≠ [] → rid ∈ [request_id (sl_req demo_call)].
Proof.
  destruct demo_kv_ok as (k & Ek & _ & Hinv & Ht & Hmax & _ & Hh & _). destruct demo_kv_reachable as (k0 & Ek0 & Hr).
  rewrite Ek in Ek0. injection Ek0 as <-. pose proof (demo_call_ok k _ Hinv Ht Hmax Hh) as Hcall.
  destruct (@allocate_slots_spec demo_env demo_call k _ _ Hinv Hcall) as (res & req1 & k1 & free1 & Hrun & _ & (ms & p & Ek1 & Hcf & _) & _ & Hres).
  assert (Hsome : ∃ b, res = Some b ∧ get_num_free_blocks (km_pool k1) = 1).
  { clear -Ek Hrun. vm_compute in Ek. injection Ek as <-. vm_compute in Hrun. injection Hrun as <- _ <-. eexists. split; [reflexivity|]. vm_compute. reflexivity. }
  destruct Hsome as (b & -> & Hfree). exists k1, b, req1. rewrite Ek. split; [exact Hrun|]. split; [|split; [exact Hfree|]].
  - apply (@kr_step demo_env (KSlots demo_call) k k1 Hr Hcall). simpl. rewrite Hrun. reflexivity.
  - intros m1 rid Hm1 Hb. apply list_elem_of_lookup in Hm1 as [i Hi]. destruct Hres as (_ & _ & Hg).
    destruct (lookup_lt_is_Some_2 (managers k) i) as [m Hm].
    { subst k1. simpl in Hi. rewrite <-(proj1 Hcf). by eapply lookup_lt_Some. }
    destruct (Hg i m Hm) as (m2 & new & Hm2 & _ & [_ Ho] & _). assert (m2 = m1) as -> by congruence. apply list_elem_of_singleton.
    destruct (decide (rid = request_id (sl_req demo_call))) as [|Hne]; [done|]. destruct Hb. rewrite (Ho rid Hne). apply (Ht m rid). by eapply list_elem_of_lookup_2.
Qed.

Lemma drain_returns_all_blocks_witness :
  ∃ k1 k', get_num_free_blocks (km_pool k1) = 1 ∧ free_all [sl_req demo_call] k1 = Ok k' ∧
    get_num_free_blocks (km_pool k') = num_gpu_blocks (km_pool k1) - 1.
Proof.
  destruct demo_allocated_kv as (k1 & res & req1 & _ & Hr & Hfree & Hall).
  destruct (@drain_returns_all_blocks demo_env k1 [sl_req demo_call] Hr Hall) as (k' & Hrun & _ & Hf & _).
  exists k1, k'. split; [exact Hfree|]. split; [exact Hrun|exact Hf].
Defined.
