(* ===== verification/KVCacheFrame.v ===== *)
(** * The frame of the KV cache manager

    A call for one request leaves alone what the managers remember about the
    cached blocks of the others ([num_cached_block]): read off the code of each
    operation, whatever its arguments. *)

From S2P Require Import Prelude FreeQueue Request BlockHash BlockMap BlockPool BlockPoolSpec CacheHit SingleTypeManager.
From S2P Require Import SingleTypeManagerSpec GroupSpec Coordinator CoordinatorHit CoordinatorSpec KVCacheManager KVCacheManagerSpec.
Local Open Scope Z_scope.

(** ** One group *)

(** What a manager knows about the cached blocks of other requests. *)
Definition framed (rid : string) (m m' : Manager) : Prop :=
  ∀ rid', rid' ≠ rid → num_cached_block m' !! rid' = num_cached_block m !! rid'.

#[export] Instance framed_preorder rid : PreOrder (framed rid).
Proof. split; [by intros m rid' _|]. intros m1 m2 m3 H1 H2 rid' Hne. by rewrite H2, H1. Qed.

Lemma framed_same rid m m' : num_cached_block m' = num_cached_block m → framed rid m m'.
Proof. intros E rid' _. by rewrite E. Qed.

Section Frame.
Context `{PoolEnv}.

Lemma record_ids_cached bs m : num_cached_block (record_ids bs m) = num_cached_block m.
Proof. unfold record_ids. by destruct (record_new_block_ids m). Qed.

Lemma claim_ring_cached rid m p ret m' p' : _claim_ring_block rid m p = Ok (ret, m', p') → num_cached_block m' = num_cached_block m.
Proof. unfold _claim_ring_block. intros Hr. destruct (blocks_of rid m); inv_ok; [by rewrite record_ids_cached|done]. Qed.

Lemma add_local_framed rid bs l e m p m' p' : add_local_computed_blocks rid bs l e m p = Ok (m', p') → framed rid m m'.
Proof.
  unfold add_local_computed_blocks. intros Hr. repeat (inv_ok; cbv zeta in *; case_ok || idtac); intros rid' Hne; simpl;
    rewrite ?lookup_insert_ne by done; done.
Qed.

Lemma external_framed rid l e m p m' p' : allocate_external_computed_blocks rid l e m p = Ok (m', p') → framed rid m m'.
Proof.
  unfold allocate_external_computed_blocks. intros Hr. apply framed_same. destruct (is_ring _).
  - inv_ok. by eapply claim_ring_cached.
  - cbv zeta in Hr. destruct (_ <=? 0) in Hr; inv_ok; [done|by rewrite record_ids_cached].
Qed.

Lemma allocate_new_framed rid n m p ret m' p' : allocate_new_blocks rid n m p = Ok (ret, m', p') → framed rid m m'.
Proof.
  unfold allocate_new_blocks. intros Hr. apply framed_same. destruct (is_ring _); [by eapply claim_ring_cached|].
  apply bind_Ok in Hr as ([[cow m1] p1] & Hred & Hr). transitivity (num_cached_block m1).
  - destruct (_ <=? 0) in Hr; inv_ok; [done|by rewrite record_ids_cached].
  - clear Hr. unfold redirect_partial_hit in Hred. destruct (partial_hit_reqs m !! rid) as [[bi src]|]; [|by inv_ok].
    inv_ok. unfold _apply_cow in *. by inv_ok.
Qed.

Lemma remove_range_cached rid a b m p m' p' : _remove_blocks_in_range rid a b m p = Ok (m', p') → num_cached_block m' = num_cached_block m.
Proof.
  unfold _remove_blocks_in_range. intros Hr. destruct (req_to_blocks m !! rid); [|by inv_ok]. destruct (_ <=? _); [by inv_ok|]. cbv zeta in Hr.
  apply bind_Ok in Hr as ([fr bl] & _ & Hr). destruct fr; by inv_ok.
Qed.

Lemma remove_skipped_cached rid n np m p m' p' : remove_skipped_blocks rid n np m p = Ok (m', p') → num_cached_block m' = num_cached_block m.
Proof.
  assert (Hb : ∀ m' p', base_remove_skipped_blocks rid n m p = Ok (m', p') → num_cached_block m' = num_cached_block m).
  { unfold base_remove_skipped_blocks. intros m1 p1 Hr. destruct (_ <=? 0); [by inv_ok|]. by apply remove_range_cached in Hr. }
  unfold remove_skipped_blocks. intros Hr. destruct (kv_cache_spec m); try by eapply Hb.
  - destruct np; [by apply remove_range_cached in Hr|by eapply Hb].
  - by inv_ok.
Qed.

(** Computing extra keys fills the memo of the request, and changes nothing else. *)
Definition memoised (rows : list bytes → bytes) (r r' : Request) : Prop :=
  strip r' = strip r ∧ (memo_ok rows r → memo_ok rows r').

#[local] Instance memoised_preorder rows : PreOrder (memoised rows).
Proof. split; [by split|]. intros r1 r2 r3 [H1 M1] [H2 M2]. split; [congruence|auto]. Qed.

Lemma embeds_keys_memoised rows r s e ks r' : _gen_prompt_embeds_extra_hash_keys rows r s e = (ks, r') → memoised rows r r'.
Proof.
  unfold _gen_prompt_embeds_extra_hash_keys. intros Hg. destruct (prompt_embeds r) as [emb|] eqn:Eemb; [|by injection Hg as _ <-].
  destruct (prompt_embeds_per_block_hashes r !! (s, e)); [by injection Hg as _ <-|]. injection Hg as _ <-. split; [done|].
  intros Hm s' e' h. simpl. rewrite lookup_insert_Some. intros [[[= <- <-] <-]|[_ Hh]]; [by exists emb|by eapply Hm].
Qed.

Lemma extra_keys_memoised rows r s e c k n r' : generate_block_hash_extra_keys rows r s e c = Ok (k, n, r') → memoised rows r r'.
Proof.
  unfold generate_block_hash_extra_keys. intros Hr. apply bind_Ok in Hr as ([mk n1] & _ & Hr). cbv zeta in Hr.
  destruct (_gen_prompt_embeds_extra_hash_keys rows r s e) as [ks r1] eqn:E. apply embeds_keys_memoised in E.
  destruct (_gen_lora_extra_hash_keys r ++ mk ++ cache_salt_keys r s ++ ks). all: by injection Hr as _ _ <-.
Qed.

Lemma cache_full_memoised req bs a b size gid mask p p' req' :
  cache_full_blocks req bs a b size gid mask p = Ok (p', req') → memoised sha256_rows req req'.
Proof.
  unfold cache_full_blocks. intros Hr. destruct (_ <=? _); [by simplify_eq|]. cbv zeta in Hr. apply bind_Ok in Hr as (? & _ & Hr).
  apply bind_Ok in Hr as (? & _ & Hr). apply bind_Ok in Hr as (? & _ & Hr). apply bind_Ok in Hr as ([p1 hs] & _ & Hr).
  destruct (enable_kv_cache_events p1); [|by simplify_eq]. apply bind_Ok in Hr as (? & _ & Hr). apply bind_Ok in Hr as ([[ks n] r1] & Hf & Hr).
  simplify_eq. apply (foldM_inv _ (λ _ st, memoised sha256_rows req st.2)) in Hf; [done|done|].
  intros dn i todo [[ks0 n0] r0] s1 _ IH Hstep. simpl in IH |- *. unfold extra_keys_step in Hstep. apply bind_Ok in Hstep as (? & _ & Hstep).
  apply bind_Ok in Hstep as ([] & _ & Hstep); simpl in Hstep; [by injection Hstep as <-|]. apply bind_Ok in Hstep as ([[k1 n1] r1] & Hg & Hstep).
  injection Hstep as <-. apply extra_keys_memoised in Hg. simpl. by etransitivity.
Qed.

Lemma cache_partial_memoised req r n gid size p h p' req' : cache_partial_block req r n gid size p = Ok (h, p', req') → memoised sha256_rows req req'.
Proof.
  unfold cache_partial_block. intros Hr. destruct (is_null _); [by simplify_eq|]. do 4 apply bind_Ok in Hr as (? & _ & Hr). cbv zeta in Hr.
  apply bind_Ok in Hr as (? & _ & Hr). apply bind_Ok in Hr as (p2 & _ & Hr). destruct (_ && _); [|by simplify_eq].
  apply bind_Ok in Hr as ([pa st] & _ & Hr). apply bind_Ok in Hr as ([[k1 n1] r1] & Hg & Hr). simplify_eq. by apply extra_keys_memoised in Hg.
Qed.

(** The id of the request is among what caching leaves as it is. *)
Lemma memoised_id rows r r' : memoised rows r r' → request_id r' = request_id r.
Proof. by intros [E%(f_equal request_id) _]. Qed.

Lemma base_cache_framed req n ri m p req' m' p' :
  base_cache_blocks req n ri m p = Ok (req', m', p') → memoised sha256_rows req req' ∧ framed (request_id req) m m'.
Proof.
  unfold base_cache_blocks. intros Hr. destruct (_ <=? _); [by simplify_eq|]. cbv zeta in Hr. apply bind_Ok in Hr as (mask & _ & Hr).
  apply bind_Ok in Hr as ([p1 r1] & Hf & Hr). apply cache_full_memoised in Hf. injection Hr as <- <- <-. split; [done|].
  intros rid Hne. simpl. by rewrite (memoised_id _ _ _ Hf), lookup_insert_ne.
Qed.

Lemma partial_tail_framed req n m p req' m' p' :
  _cache_partial_tail_block req n m p = Ok (req', m', p') → memoised sha256_rows req req' ∧ num_cached_block m' = num_cached_block m.
Proof.
  unfold _cache_partial_tail_block. intros Hr. cbv zeta in Hr. destruct (_ || _); [by simplify_eq|]. destruct (_ =? 0); [by simplify_eq|].
  destruct (_ <=? _); [by simplify_eq|]. apply bind_Ok in Hr as (b & _ & Hr). apply bind_Ok in Hr as ([[h p1] r1] & Hf & Hr). injection Hr as <- <- <-.
  split; [by eapply cache_partial_memoised|done].
Qed.

Lemma cache_blocks_framed req n ri m p req' m' p' :
  cache_blocks req n ri m p = Ok (req', m', p') → memoised sha256_rows req req' ∧ framed (request_id req) m m'.
Proof.
  assert (Hb : ∀ c : bool, (('(req, m, p) ← base_cache_blocks req n ri m p; if c then Ok (req, m, p) else _cache_partial_tail_block req n m p)
    = Ok (req', m', p')) → memoised sha256_rows req req' ∧ framed (request_id req) m m').
  { intros c Hr. apply bind_Ok in Hr as ([[r1 m1] p1] & [H1 H2]%base_cache_framed & Hr). destruct c; [by injection Hr as <- <- <-|].
    apply partial_tail_framed in Hr as [H3 H4]. split; [by etransitivity|]. etransitivity; [done|by apply framed_same]. }
  unfold cache_blocks. intros Hr. destruct (kv_cache_spec m) as [b|b w|b w e|b ch|b]; try by eapply base_cache_framed.
  - apply bind_Ok in Hr as ([[r1 m1] p1] & H1 & Hr). apply (Hb (block_size m1 =? hash_block_size p1)). by rewrite H1.
  - apply bind_Ok in Hr as ([[r1 m1] p1] & H1 & Hr). apply (Hb (block_size m1 =? hash_block_size p1)). by rewrite H1.
  - by simplify_eq.
Qed.

(** ** All groups *)

Lemma each_framed {A} (R : Manager → Manager → Prop) (f : Z → Manager → BlockPool → result (A * Manager * BlockPool)) ms :
  (∀ i m p a m' p', f i m p = Ok (a, m', p') → R m m') →
  ∀ i p l ms' p', each_manager f i ms p = Ok (l, ms', p') → Forall2 R ms ms'.
Proof.
  intros Hf. induction ms as [|m ms IH]; intros i p l ms' p' Hr; simpl in Hr; [by simplify_eq|].
  apply bind_Ok in Hr as ([[a m1] p1] & H1 & Hr). apply bind_Ok in Hr as ([[l1 ms1] p2] & H2 & Hr). simplify_eq. constructor; [by eapply Hf|by eapply IH].
Qed.

Lemma for_framed {A} (R : Manager → Manager → Prop) (f : Z → Manager → BlockPool → result (A * Manager * BlockPool)) c l c' :
  (∀ i m p a m' p', f i m p = Ok (a, m', p') → R m m') →
  for_managers f c = Ok (l, c') → Forall2 R (single_type_managers c) (single_type_managers c').
Proof.
  intros Hf Hr. unfold for_managers in Hr. apply bind_Ok in Hr as ([[l1 ms] p] & H1 & Hr). simplify_eq. by eapply each_framed.
Qed.

Lemma proc_framed (R : Manager → Manager → Prop) f :
  (∀ m p m' p', f m p = Ok (m', p') → R m m') → ∀ m p a m' p', proc f m p = Ok (a, m', p') → R m m'.
Proof. unfold proc. intros Hf m p a m' p' Hr. apply bind_Ok in Hr as ([m1 p1] & H1 & Hr). simplify_eq. by eapply Hf. Qed.

Lemma skipped_framed rid n np c c' :
  coord_remove_skipped_blocks rid n np c = Ok c' →
  Forall2 (λ m m', num_cached_block m' = num_cached_block m) (single_type_managers c) (single_type_managers c').
Proof.
  unfold coord_remove_skipped_blocks. intros Hr. apply bind_Ok in Hr as ([l c1] & H1 & Hr). simplify_eq. eapply for_framed; [|exact H1].
  intros i. apply (proc_framed (λ m m', num_cached_block m' = num_cached_block m)). intros m p m' p'. apply remove_skipped_cached.
Qed.

Lemma new_framed rid n c l c' :
  coord_allocate_new_blocks rid n c = Ok (l, c') → Forall2 (framed rid) (single_type_managers c) (single_type_managers c').
Proof. apply for_framed. intros i m p a m' p'. apply allocate_new_framed. Qed.

Lemma computed_framed rid bs l e c c' :
  coord_allocate_new_computed_blocks rid bs l e c = Ok c' → Forall2 (framed rid) (single_type_managers c) (single_type_managers c').
Proof.
  unfold coord_allocate_new_computed_blocks. intros Hr. destruct (existsb _ _); [apply bind_Ok in Hr as (? & _ & Hr); by simplify_eq|].
  apply bind_Ok in Hr as ([l1 c1] & H1 & Hr). etransitivity.
  - eapply for_framed; [|exact H1]. intros i m p a m' p' H2. apply bind_Ok in H2 as (b & _ & H2). revert H2.
    apply (proc_framed (framed rid)). intros ????. apply add_local_framed.
  - destruct (0 <? e); [|by simplify_eq]. apply bind_Ok in Hr as ([l2 c2] & H2 & Hr). simplify_eq. eapply for_framed; [|exact H2].
    intros i. apply (proc_framed (framed rid)). intros ????. apply external_framed.
Qed.

Lemma cached_framed req n c req' c' :
  coord_cache_blocks req n c = Ok (req', c') → memoised sha256_rows req req' ∧ Forall2 (framed (request_id req)) (single_type_managers c) (single_type_managers c').
Proof.
  unfold coord_cache_blocks. intros Hr. apply bind_Ok in Hr as ([[r1 ms] p] & H1 & Hr). simplify_eq. simpl.
  revert req H1. generalize (block_pool c). revert req' ms p. induction (single_type_managers c) as [|m ms0 IH]; intros req' ms p p0 req Hr; simpl in Hr; [by simplify_eq|].
  apply bind_Ok in Hr as ([[r1 m1] p1] & H12 & Hr).
  apply bind_Ok in Hr as ([[r2 ms2] p2] & H34 & Hr). injection Hr as <- <- <-. apply cache_blocks_framed in H12 as [H1 H2]. apply IH in H34 as [H3 H4].
  split; [by etransitivity|]. constructor; [done|]. by rewrite <-(memoised_id _ _ _ H1).
Qed.

(** [allocate_slots] touches what is known of its own request only; when it
    refuses, not even that. *)
Lemma slots_framed s k res req' k' :
  run_slots s k = Ok (res, req', k') →
  Forall2 (framed (request_id (sl_req s))) (managers k) (managers k') ∧ memoised sha256_rows (sl_req s) req' ∧
  (res = None → req' = sl_req s ∧ Forall2 (λ m m', num_cached_block m' = num_cached_block m) (managers k) (managers k')).
Proof.
  set (rid := request_id (sl_req s)).
  assert (Hsame : ∀ ms ms', Forall2 (λ m m', num_cached_block m' = num_cached_block m) ms ms' → Forall2 (framed rid) ms ms').
  { intros ms ms' Hf. eapply Forall2_impl; [exact Hf|]. intros m m'. apply framed_same. }
  unfold run_slots, allocate_slots. intros Hr. apply bind_Ok in Hr as (? & _ & Hr). cbv zeta in Hr. apply bind_Ok in Hr as (fits & _ & Hr).
  destruct (negb fits); [injection Hr as <- <- <-; split; [|split; [done|]]; [|intros _; split; [done|]]; apply Forall_Forall2_diag, Forall_forall; done|].
  apply bind_Ok in Hr as (c1 & H1%skipped_framed & Hr). apply bind_Ok in Hr as (n & _ & Hr).
  destruct (_ <? _); [injection Hr as <- <- <-; split; [by apply Hsame|split; [done|by intros _]]|].
  apply bind_Ok in Hr as (c2 & H2 & Hr). apply bind_Ok in Hr as ([ret c3] & H3%new_framed & Hr).
  assert (H12 : Forall2 (framed rid) (managers k) (single_type_managers c2)).
  { etransitivity; [by apply Hsame|]. destruct (_ || _) in H2; [by eapply computed_framed|by injection H2 as <-]. }
  destruct (_ || _) in Hr.
  - injection Hr as <- <- <-. split; [by etransitivity|done].
  - apply bind_Ok in Hr as ([r4 c4] & [H4 H5]%cached_framed & Hr). injection Hr as <- <- <-. split; [|done]. etransitivity; [done|]. by etransitivity.
Qed.
End Frame.
