(* ===== verification/Scheduler.v ===== *)
(** * The scheduler

    [vllm/vllm/v1/core/sched/scheduler.py] and [async_scheduler.py]: each step
    chooses the requests to run and the number of tokens each of them computes,
    preempts requests when blocks are short, and folds the sampled tokens back
    into the requests.

    A request object is named by its request id, which is unique among the
    requests a scheduler holds; [requests] is the dictionary [self.requests]
    and at the same time the store of the objects.  The queues hold a request
    as it was when it was queued: they read only its identity and the fields
    that order requests, which do not change while it waits.

    The KV cache manager, the encoder cache manager and the queues are used
    through classes of operations.  The branches for connectors (of KV blocks
    and of encoder outputs), Mamba layers, streaming sessions, structured
    output during decoding, routed experts, log-probabilities and statistics
    are not modelled; a grammar that is still being compiled is. *)

From S2P Require Import Prelude FreeQueue Request EncoderCache RequestQueue SchedUtils KVCacheManager.
Local Open Scope Z_scope.

(** ** What the scheduler calls *)

(** The [KVCacheManager] as the scheduler sees it.  [kv_allocate_slots r n hit
    blocks lookahead full scheduled] is [allocate_slots] without the arguments
    for connectors and cross-attention; [kv_take_copies] also frees the blocks retained for the copies. *)
Class KVCache (K : Type) : Type := {
  kv_get_computed_blocks : Request → K → result (ComputedBlocks * Z * Z * Request * K);
  kv_record_prefix_cache_stats : Request → Z → K → result K;
  kv_allocate_slots : Request → Z → Z → option ComputedBlocks → Z → bool → bool → K →
    result (option ComputedBlocks * Request * K);
  kv_free : Request → K → result K;
  kv_cache_blocks : Request → Z → K → result (Request * K);
  kv_reset_prefix_cache : K → result (bool * K);
  kv_get_blocks : string → K → ComputedBlocks;
  kv_block_ids : ComputedBlocks → K → list (list Z);
  kv_get_num_common_prefix_blocks : string → K → list Z * K;
  kv_take_copies : K → result (list (Z * Z) * K);
  kv_take_new_block_ids : K → list Z * K;
  kv_take_events : K → K;
}.

(** The encoder cache manager. *)
Class EncoderCacheOps (E : Type) : Type := {
  ec_check_and_update_cache : Request → Z → E → result (bool * E);
  ec_can_allocate : Request → Z → Z → Z → E → result (bool * E);
  ec_allocate : Request → Z → E → result E;
  ec_free_encoder_input : Request → Z → E → result E;
  ec_free : Request → E → result E;
  ec_get_cached_input_ids : Request → E → list Z;
  ec_get_freed_mm_hashes : E → list mm_hash_t * E;
  ec_reset : E → E;
}.

#[export] Instance encoder_cache_ops `{IntSetOrder} : EncoderCacheOps EncoderCacheManager := {
  ec_check_and_update_cache := check_and_update_cache;
  ec_can_allocate := can_allocate;
  ec_allocate := allocate;
  ec_free_encoder_input := free_encoder_input;
  ec_free := free;
  ec_get_cached_input_ids r e := int_set_order (get_cached_input_ids r e);
  ec_get_freed_mm_hashes := get_freed_mm_hashes;
  ec_reset := reset;
}.

#[export] Instance encoder_decoder_cache_ops `{IntSetOrder} : EncoderCacheOps EncoderDecoderCacheManager := {
  ec_check_and_update_cache r i e := Ok (ed_check_and_update_cache r i e, e);
  ec_can_allocate r i budget n e := b ← ed_can_allocate r i budget n e; Ok (b, e);
  ec_allocate := ed_allocate;
  ec_free_encoder_input := ed_free_encoder_input;
  ec_free := ed_free;
  ec_get_cached_input_ids r e := int_set_order (ed_get_cached_input_ids r);
  ec_get_freed_mm_hashes := ed_get_freed_mm_hashes;
  ec_reset := ed_reset;
}.

(** ** Settings and state *)

Inductive PauseState : Type := UNPAUSED | PAUSED_NEW | PAUSED_ALL.

#[export] Instance pause_state_eq_dec : EqDecision PauseState.
Proof. solve_decision. Defined.

#[export] Instance policy_eq_dec : EqDecision SchedulingPolicy.
Proof. solve_decision. Defined.

(** What the constructor reads from the configuration. *)
Record Settings : Type := mkSettings {
  sched_policy : SchedulingPolicy;
  max_num_running_reqs : Z;
  max_num_scheduled_tokens : Z;
  sched_max_num_batched_tokens : Z;
  sched_max_model_len : Z;
  num_sampled_tokens_per_step : Z;
  max_num_new_slots_for_drafting : Z;
  long_prefill_token_threshold : Z;
  enable_chunked_prefill : bool;
  sched_disable_chunked_mm_input : bool;
  scheduler_reserve_full_isl : bool;
  max_loras : option Z;
  num_spec_tokens : Z;
  num_lookahead_tokens : Z;
  num_prefill_lookahead : Z;
  dynamic_sd_lookup : option (list Z);
  encoder_token_budget : Z;
  is_encoder_decoder : bool;
  is_mm_encoder_only : bool;
  use_pp : bool;
  pp_size : Z;
  async_scheduling : bool;
  use_v2_model_runner : bool;
  needs_kv_cache_zeroing : bool;
  num_kv_cache_groups : nat;
}.

(** Whether the grammar of a structured-output request has been compiled. *)
Inductive GrammarState : Type := GrammarPending | GrammarFailed | GrammarReady.

(** ** Positions of multimodal items *)

(** [bisect.bisect_left]: the loop on [lo] and [hi]. *)
Fixpoint bisect_loop (fuel : nat) (keys : list Z) (x lo hi : Z) : result Z :=
  match fuel with
  | O => Err OutOfFuel
  | S fuel' =>
      if lo <? hi then
        let mid := (lo + hi) / 2 in
        k ← py_get keys mid;
        if k <? x then bisect_loop fuel' keys x (mid + 1) hi else bisect_loop fuel' keys x lo mid
      else Ok lo
  end.

Definition bisect_left (keys : list Z) (x : Z) : result Z :=
  bisect_loop (S (length keys)) keys x 0 (py_len keys).

Definition get_mm_features_in_window (mm : list MultiModalFeatureSpec) (start end_ : Z) : result (Z * Z) :=
  lo ← bisect_left ((λ f, offset (mm_position f) + length_ (mm_position f)) <$> mm) (start + 1);
  hi ← bisect_left ((λ f, offset (mm_position f)) <$> mm) end_;
  Ok (lo, hi).

(** [embeds_cumsum]: how many of the first positions are embeddings. *)
Definition embeds_cumsum (mask : list bool) : list Z :=
  imap (λ i _, py_len (filter (λ b, b = true) (take (S i) mask))) mask.

Definition get_embeds_indices_in_range (p : PlaceholderRange) (start_idx end_idx : Z) : result (Z * Z) :=
  match is_embed p with
  | None => Ok (start_idx, end_idx)
  | Some mask =>
      let at_ i := if 0 <? i then py_get (embeds_cumsum mask) (i - 1) else Ok 0 in
      a ← at_ start_idx;
      b ← at_ end_idx;
      Ok (a, b)
  end.

(** ** State *)

(** The local variables of [schedule] that its loops change. *)
Record Step : Type := mkStep {
  scheduled_new_reqs : list string;
  scheduled_resumed_reqs : list string;
  scheduled_running_reqs : list string;
  preempted_reqs : list string;
  req_to_new_blocks : list (string * ComputedBlocks);
  num_scheduled_tokens : list (string * Z);
  token_budget : Z;
  input_budget : Z;
  encoder_compute_budget : Z;
  scheduled_encoder_inputs : list (string * list Z);
  scheduled_spec_decode_tokens : list (string * list Z);
  prefill_scheduled : bool;
  req_index : nat;
}.

Definition set_preempted_reqs (v : list string) (st : Step) : Step :=
  mkStep (scheduled_new_reqs st) (scheduled_resumed_reqs st) (scheduled_running_reqs st) v (req_to_new_blocks
    st) (num_scheduled_tokens st) (token_budget st) (input_budget st) (encoder_compute_budget st)
    (scheduled_encoder_inputs st) (scheduled_spec_decode_tokens st) (prefill_scheduled st) (req_index st).

Definition set_token_budget (v : Z) (st : Step) : Step :=
  mkStep (scheduled_new_reqs st) (scheduled_resumed_reqs st) (scheduled_running_reqs st) (preempted_reqs st)
    (req_to_new_blocks st) (num_scheduled_tokens st) v (input_budget st) (encoder_compute_budget st)
    (scheduled_encoder_inputs st) (scheduled_spec_decode_tokens st) (prefill_scheduled st) (req_index st).

Definition set_input_budget (v : Z) (st : Step) : Step :=
  mkStep (scheduled_new_reqs st) (scheduled_resumed_reqs st) (scheduled_running_reqs st) (preempted_reqs st)
    (req_to_new_blocks st) (num_scheduled_tokens st) (token_budget st) v (encoder_compute_budget st)
    (scheduled_encoder_inputs st) (scheduled_spec_decode_tokens st) (prefill_scheduled st) (req_index st).

Definition set_req_index (v : nat) (st : Step) : Step :=
  mkStep (scheduled_new_reqs st) (scheduled_resumed_reqs st) (scheduled_running_reqs st) (preempted_reqs st)
    (req_to_new_blocks st) (num_scheduled_tokens st) (token_budget st) (input_budget st)
    (encoder_compute_budget st) (scheduled_encoder_inputs st) (scheduled_spec_decode_tokens st)
    (prefill_scheduled st) v.

(** The fields of the object that the modelled code uses. *)
Record Scheduler (K : Type) (E : Type) (Q : Type) : Type := mkScheduler {
  requests : gmap string Request;
  waiting : Q;
  skipped_waiting : Q;
  running : list string;
  finished_req_ids : gset string;
  reset_preempted_req_ids : gset string;
  inflight_prefills : gset string;
  grammar_compile_error_reqs : gset string;
  prev_step_scheduled_req_ids : gset string;
  current_step : Z;
  prefill_capacity_bound : bool;
  pause_state : PauseState;
  kv : K;
  enc : E;
}.
Arguments mkScheduler {K E Q} _ _ _ _ _ _ _ _ _ _ _ _ _ _.
Arguments requests {K E Q} _.
Arguments waiting {K E Q} _.
Arguments skipped_waiting {K E Q} _.
Arguments running {K E Q} _.
Arguments finished_req_ids {K E Q} _.
Arguments reset_preempted_req_ids {K E Q} _.
Arguments inflight_prefills {K E Q} _.
Arguments grammar_compile_error_reqs {K E Q} _.
Arguments prev_step_scheduled_req_ids {K E Q} _.
Arguments current_step {K E Q} _.
Arguments prefill_capacity_bound {K E Q} _.
Arguments pause_state {K E Q} _.
Arguments kv {K E Q} _.
Arguments enc {K E Q} _.

(** ** Operations *)

Section Scheduler.
Context {K E Q : Type} `{KVCache K, EncoderCacheOps E, RequestQueue Q}.
Variable cfg : Settings.
(** An empty queue, as [create_request_queue(self.policy)] makes it. *)
Variable new_queue : Q.
Variable block_hasher : option BlockHasher.
Implicit Types (s : Scheduler K E Q) (st : Step) (r : Request) (rid : string).

Definition set_reqs (v : gmap string Request) (s : Scheduler K E Q) : Scheduler K E Q :=
  mkScheduler v (waiting s) (skipped_waiting s) (running s) (finished_req_ids s) (reset_preempted_req_ids s)
    (inflight_prefills s) (grammar_compile_error_reqs s) (prev_step_scheduled_req_ids s) (current_step s)
    (prefill_capacity_bound s) (pause_state s) (kv s) (enc s).

Definition set_waiting (v : Q) (s : Scheduler K E Q) : Scheduler K E Q :=
  mkScheduler (requests s) v (skipped_waiting s) (running s) (finished_req_ids s) (reset_preempted_req_ids s)
    (inflight_prefills s) (grammar_compile_error_reqs s) (prev_step_scheduled_req_ids s) (current_step s)
    (prefill_capacity_bound s) (pause_state s) (kv s) (enc s).

Definition set_skipped_waiting (v : Q) (s : Scheduler K E Q) : Scheduler K E Q :=
  mkScheduler (requests s) (waiting s) v (running s) (finished_req_ids s) (reset_preempted_req_ids s)
    (inflight_prefills s) (grammar_compile_error_reqs s) (prev_step_scheduled_req_ids s) (current_step s)
    (prefill_capacity_bound s) (pause_state s) (kv s) (enc s).

Definition set_running (v : list string) (s : Scheduler K E Q) : Scheduler K E Q :=
  mkScheduler (requests s) (waiting s) (skipped_waiting s) v (finished_req_ids s) (reset_preempted_req_ids s)
    (inflight_prefills s) (grammar_compile_error_reqs s) (prev_step_scheduled_req_ids s) (current_step s)
    (prefill_capacity_bound s) (pause_state s) (kv s) (enc s).

Definition set_finished_req_ids (v : gset string) (s : Scheduler K E Q) : Scheduler K E Q :=
  mkScheduler (requests s) (waiting s) (skipped_waiting s) (running s) v (reset_preempted_req_ids s)
    (inflight_prefills s) (grammar_compile_error_reqs s) (prev_step_scheduled_req_ids s) (current_step s)
    (prefill_capacity_bound s) (pause_state s) (kv s) (enc s).

Definition set_reset_preempted_req_ids (v : gset string) (s : Scheduler K E Q) : Scheduler K E Q :=
  mkScheduler (requests s) (waiting s) (skipped_waiting s) (running s) (finished_req_ids s) v
    (inflight_prefills s) (grammar_compile_error_reqs s) (prev_step_scheduled_req_ids s) (current_step s)
    (prefill_capacity_bound s) (pause_state s) (kv s) (enc s).

Definition set_inflight_prefills (v : gset string) (s : Scheduler K E Q) : Scheduler K E Q :=
  mkScheduler (requests s) (waiting s) (skipped_waiting s) (running s) (finished_req_ids s)
    (reset_preempted_req_ids s) v (grammar_compile_error_reqs s) (prev_step_scheduled_req_ids s) (current_step
    s) (prefill_capacity_bound s) (pause_state s) (kv s) (enc s).

Definition set_grammar_compile_error_reqs (v : gset string) (s : Scheduler K E Q) : Scheduler K E Q :=
  mkScheduler (requests s) (waiting s) (skipped_waiting s) (running s) (finished_req_ids s)
    (reset_preempted_req_ids s) (inflight_prefills s) v (prev_step_scheduled_req_ids s) (current_step s)
    (prefill_capacity_bound s) (pause_state s) (kv s) (enc s).

Definition set_prev_step_scheduled_req_ids (v : gset string) (s : Scheduler K E Q) : Scheduler K E Q :=
  mkScheduler (requests s) (waiting s) (skipped_waiting s) (running s) (finished_req_ids s)
    (reset_preempted_req_ids s) (inflight_prefills s) (grammar_compile_error_reqs s) v (current_step s)
    (prefill_capacity_bound s) (pause_state s) (kv s) (enc s).

Definition set_current_step (v : Z) (s : Scheduler K E Q) : Scheduler K E Q :=
  mkScheduler (requests s) (waiting s) (skipped_waiting s) (running s) (finished_req_ids s)
    (reset_preempted_req_ids s) (inflight_prefills s) (grammar_compile_error_reqs s)
    (prev_step_scheduled_req_ids s) v (prefill_capacity_bound s) (pause_state s) (kv s) (enc s).

Definition set_prefill_capacity_bound (v : bool) (s : Scheduler K E Q) : Scheduler K E Q :=
  mkScheduler (requests s) (waiting s) (skipped_waiting s) (running s) (finished_req_ids s)
    (reset_preempted_req_ids s) (inflight_prefills s) (grammar_compile_error_reqs s)
    (prev_step_scheduled_req_ids s) (current_step s) v (pause_state s) (kv s) (enc s).

Definition set_pause_state (v : PauseState) (s : Scheduler K E Q) : Scheduler K E Q :=
  mkScheduler (requests s) (waiting s) (skipped_waiting s) (running s) (finished_req_ids s)
    (reset_preempted_req_ids s) (inflight_prefills s) (grammar_compile_error_reqs s)
    (prev_step_scheduled_req_ids s) (current_step s) (prefill_capacity_bound s) v (kv s) (enc s).

Definition set_kv (v : K) (s : Scheduler K E Q) : Scheduler K E Q :=
  mkScheduler (requests s) (waiting s) (skipped_waiting s) (running s) (finished_req_ids s)
    (reset_preempted_req_ids s) (inflight_prefills s) (grammar_compile_error_reqs s)
    (prev_step_scheduled_req_ids s) (current_step s) (prefill_capacity_bound s) (pause_state s) v (enc s).

Definition set_enc (v : E) (s : Scheduler K E Q) : Scheduler K E Q :=
  mkScheduler (requests s) (waiting s) (skipped_waiting s) (running s) (finished_req_ids s)
    (reset_preempted_req_ids s) (inflight_prefills s) (grammar_compile_error_reqs s)
    (prev_step_scheduled_req_ids s) (current_step s) (prefill_capacity_bound s) (pause_state s) (kv s) v.

(** [Scheduler.__init__] *)
Definition new_scheduler (k : K) (e : E) : Scheduler K E Q :=
  {| requests := ∅; waiting := new_queue; skipped_waiting := new_queue; running := [];
     finished_req_ids := ∅; reset_preempted_req_ids := ∅; inflight_prefills := ∅;
     grammar_compile_error_reqs := ∅; prev_step_scheduled_req_ids := ∅; current_step := 0;
     prefill_capacity_bound := false; pause_state := UNPAUSED; kv := k; enc := e |}.

Definition the_request rid s : result Request := unwrap KeyError (requests s !! rid).
Definition put_request r s : Scheduler K E Q := set_reqs (<[request_id r := r]> (requests s)) s.

(** *** Encoder inputs *)

(** The variables of the loop over the items; [se_done] is its [break]. *)
Record EncoderStep : Type := mkEncoderStep {
  se_inputs : list Z;
  se_new_tokens : Z;
  se_budget : Z;
  se_hashes : gset mm_hash_t;
  se_embeds : Z;
  se_enc : E;
  se_done : bool;
}.

Definition schedule_encoder_input r (num_computed_tokens window_end shift : Z) (se : EncoderStep) (i : Z) :
    result EncoderStep :=
  if se_done se then Ok se
  else
    f ← py_get (mm_features r) i;
    let start_pos := offset (mm_position f) in
    let num_encoder_tokens := length_ (mm_position f) in
    let num_encoder_embeds := get_num_embeds (mm_position f) in
    let stop n e := Ok (mkEncoderStep (se_inputs se) n (se_budget se) (se_hashes se) (se_embeds se) e true) in
    let skip e := Ok (mkEncoderStep (se_inputs se) (se_new_tokens se) (se_budget se) (se_hashes se) (se_embeds se) e false) in
    if is_encoder_decoder cfg && (0 <? num_computed_tokens)
    then _ ← py_assert (start_pos =? 0); skip (se_enc se)
    else
      '(known, e) ←
        (if is_encoder_decoder cfg then Ok (false, se_enc se)
         else if bool_decide (identifier f ∈ se_hashes se) then Ok (true, se_enc se)
         else ec_check_and_update_cache r i (se_enc se));
      if known : bool then skip e
      else if sched_disable_chunked_mm_input cfg && (num_computed_tokens <? start_pos)
              && (num_computed_tokens + se_new_tokens se <? start_pos + num_encoder_tokens)
      then stop (Z.max 0 (start_pos - (num_computed_tokens + shift))) e
      else
        '(fits, e) ← ec_can_allocate r i (se_budget se) (se_embeds se) e;
        if negb fits then
          stop (if num_computed_tokens + shift <? start_pos then start_pos - (num_computed_tokens + shift) else 0) e
        else
          '(a, b) ← get_embeds_indices_in_range (mm_position f) (Z.max 0 (num_computed_tokens - start_pos))
                      (Z.min num_encoder_tokens (window_end - start_pos));
          if b - a =? 0 then skip e
          else Ok (mkEncoderStep (se_inputs se ++ [i]) (se_new_tokens se) (se_budget se - num_encoder_embeds)
                     ({[identifier f]} ∪ se_hashes se) (se_embeds se + num_encoder_embeds) e false).

(** Without a connector no input is loaded from elsewhere. *)
Definition _try_schedule_encoder_inputs r (num_computed_tokens num_new_tokens budget shift : Z) (e : E) :
    result (list Z * Z * Z * E) :=
  if (num_new_tokens =? 0) || (num_encoder_inputs r =? 0) then Ok ([], num_new_tokens, budget, e)
  else
    let window_end := num_computed_tokens + num_new_tokens + shift in
    '(lo, hi) ← get_mm_features_in_window (mm_features r) num_computed_tokens window_end;
    let lo := if is_encoder_decoder cfg then 0 else lo in
    se ← foldM (schedule_encoder_input r num_computed_tokens window_end shift)
           (mkEncoderStep [] num_new_tokens budget ∅ 0 e false) (py_range lo hi);
    Ok (se_inputs se, se_new_tokens se, se_budget se, se_enc se).

(** [for i in encoder_inputs_to_schedule: allocate(request, i)] *)
Definition allocate_encoder_inputs r (inputs : list Z) (e : E) : result E :=
  foldM (λ e i, ec_allocate r i e) e inputs.

(** *** Running requests *)

Definition _reserve_prefill_lookahead r (num_computed_tokens num_new_tokens : Z) : Z :=
  let remaining := num_tokens r - num_computed_tokens - num_new_tokens in
  Z.max (if (0 <? remaining) && (remaining <? num_prefill_lookahead cfg)
         then num_new_tokens - (num_prefill_lookahead cfg - remaining) else num_new_tokens) 0.

(** The three tests that pass over a running request. *)
Definition skip_running (defer_prefills : bool) r s : bool :=
  ((0 <? num_output_placeholders r) &&
   (num_prompt_tokens r + max_tokens r <=? num_computed_tokens r + 2 - num_output_placeholders r))
  || (current_step s <? next_decode_eligible_step r)
  || (defer_prefills && is_prefill_chunk r).

Definition cap_long_prefill (num_new_tokens : Z) : Z :=
  let threshold := long_prefill_token_threshold cfg in
  if (0 <? threshold) && (threshold <? num_new_tokens) then threshold else num_new_tokens.

Definition running_num_new_tokens r st : Z :=
  let num_new_tokens := num_tokens_with_spec r + num_output_placeholders r - num_computed_tokens r in
  let num_new_tokens :=
    Z.min (Z.min (cap_long_prefill num_new_tokens) (token_budget st))
      (input_budget st - max_num_new_slots_for_drafting cfg) in
  Z.min num_new_tokens (sched_max_model_len cfg - num_computed_tokens r - num_sampled_tokens_per_step cfg).

(** The fields [_preempt_request] resets. *)
Definition preempted (drop_stale : bool) r : Request :=
  set_num_preemptions (num_preemptions r + 1)
    (set_num_output_placeholders 0
      (set_num_stale_output_tokens (num_in_flight_tokens r)
        (set_drop_stale_output (drop_stale || (drop_stale_output r && (0 <? num_stale_output_tokens r)))
          (set_spec_token_ids [] (set_num_computed_tokens 0 (set_status PREEMPTED r)))))).

Definition _preempt_request rid (drop_stale : bool) s : result (Scheduler K E Q) :=
  r ← the_request rid s;
  _ ← py_assert (bool_decide (status r = RUNNING));
  k ← kv_free r (kv s);
  e ← ec_free r (enc s);
  let r := preempted drop_stale r in
  w ← prepend_request r (waiting s);
  Ok (set_reset_preempted_req_ids ({[rid]} ∪ reset_preempted_req_ids s)
       (set_inflight_prefills (inflight_prefills s ∖ {[rid]})
         (set_waiting w (set_kv k (set_enc e (put_request r s)))))).

(** [max(self.running, key=lambda r: (r.priority, r.arrival_time))]: the first
    of the largest. *)
Definition key_lt (a b : Request) : bool :=
  (priority a <? priority b) || ((priority a =? priority b) && (arrival_time a <? arrival_time b)).

Definition max_request (rs : list Request) : result Request :=
  match rs with
  | [] => Err ValueError
  | r :: rs => Ok (foldl (λ m x, if key_lt m x then x else m) r rs)
  end.

(** A victim that was scheduled in this step gives back what it was given. *)
Definition unschedule r st : result Step :=
  let rid := request_id r in
  restored ← unwrap KeyError (od_get (num_scheduled_tokens st) rid);
  _ ← unwrap KeyError (od_get (req_to_new_blocks st) rid);
  embeds ← mapM_ok (get_num_encoder_embeds r) (default [] (od_get (scheduled_encoder_inputs st) rid));
  Ok {| scheduled_new_reqs := scheduled_new_reqs st; scheduled_resumed_reqs := scheduled_resumed_reqs st;
        scheduled_running_reqs := filter (λ x, x ≠ rid) (scheduled_running_reqs st);
        preempted_reqs := preempted_reqs st;
        req_to_new_blocks := od_del (req_to_new_blocks st) rid;
        num_scheduled_tokens := od_del (num_scheduled_tokens st) rid;
        token_budget := token_budget st + restored;
        input_budget := input_budget st + (restored + max_num_new_slots_for_drafting cfg);
        encoder_compute_budget := encoder_compute_budget st + sumZ embeds;
        scheduled_encoder_inputs := od_del (scheduled_encoder_inputs st) rid;
        scheduled_spec_decode_tokens := od_del (scheduled_spec_decode_tokens st) rid;
        prefill_scheduled := prefill_scheduled st; req_index := req_index st |}.

(** Choose the request to preempt and take it out of [self.running]. *)
Definition take_victim st s : result (string * Step * Scheduler K E Q) :=
  match sched_policy cfg with
  | PRIORITY =>
      rs ← mapM_ok (λ rid, the_request rid s) (running s);
      v ← max_request rs;
      '(victim_index, _) ← unwrap ValueError (list_find (λ x, x = request_id v) (running s));
      let s := set_running (delete victim_index (running s)) s in
      let st := if Nat.ltb victim_index (req_index st) then set_req_index (Nat.pred (req_index st)) st else st in
      st ← (if bool_decide (request_id v ∈ scheduled_running_reqs st) then unschedule v st else Ok st);
      Ok (request_id v, st, s)
  | FCFS =>
      v ← unwrap IndexError (last (running s));
      Ok (v, st, set_running (removelast (running s)) s)
  end.

(** The [while True] around [allocate_slots]: preempt until there is room, or
    until the request itself has been preempted. *)
Fixpoint allocate_running (fuel : nat) rid (num_new_tokens : Z) st s :
    result (option ComputedBlocks * Step * Scheduler K E Q) :=
  match fuel with
  | O => Err OutOfFuel
  | S fuel' =>
      r ← the_request rid s;
      '(res, r, k) ← kv_allocate_slots r num_new_tokens 0 None (num_lookahead_tokens cfg) false true (kv s);
      let s := set_kv k (put_request r s) in
      match res with
      | Some new_blocks => Ok (Some new_blocks, st, s)
      | None =>
          '(victim, st, s) ← take_victim st s;
          s ← _preempt_request victim false s;
          let st := set_preempted_reqs (preempted_reqs st ++ [victim]) st in
          if bool_decide (victim = rid) then Ok (None, st, s)
          else allocate_running fuel' rid num_new_tokens st s
      end
  end.

(** The draft tokens of a request that fit in what was scheduled. *)
Definition spec_tokens_to_schedule r (num_new_tokens : Z) : list Z :=
  let n := num_new_tokens + num_computed_tokens r - num_tokens r - num_output_placeholders r in
  if 0 <? n then py_upto (spec_token_ids r) n else [].

Definition record_running r (new_blocks : ComputedBlocks) (num_new_tokens : Z) (inputs : list Z) (budget : Z) st : Step :=
  let rid := request_id r in
  let spec := spec_tokens_to_schedule r num_new_tokens in
  {| scheduled_new_reqs := scheduled_new_reqs st; scheduled_resumed_reqs := scheduled_resumed_reqs st;
     scheduled_running_reqs := scheduled_running_reqs st ++ [rid];
     preempted_reqs := preempted_reqs st;
     req_to_new_blocks := od_set (req_to_new_blocks st) rid new_blocks;
     num_scheduled_tokens := od_set (num_scheduled_tokens st) rid num_new_tokens;
     token_budget := token_budget st - num_new_tokens;
     input_budget := input_budget st - (num_new_tokens + max_num_new_slots_for_drafting cfg);
     encoder_compute_budget := if bool_decide (inputs = []) then encoder_compute_budget st else budget;
     scheduled_encoder_inputs :=
       if bool_decide (inputs = []) then scheduled_encoder_inputs st
       else od_set (scheduled_encoder_inputs st) rid inputs;
     scheduled_spec_decode_tokens :=
       if bool_decide (spec = []) then scheduled_spec_decode_tokens st
       else od_set (scheduled_spec_decode_tokens st) rid spec;
     prefill_scheduled := prefill_scheduled st || is_prefill_chunk r;
     req_index := S (req_index st) |}.

Definition schedule_running rid (new_blocks : ComputedBlocks) (num_new_tokens : Z) (inputs : list Z) (budget : Z) st s :
    result (Step * Scheduler K E Q) :=
  r ← the_request rid s;
  let st := record_running r new_blocks num_new_tokens inputs budget st in
  let r := set_spec_token_ids [] r in
  e ← allocate_encoder_inputs r inputs (enc s);
  Ok (st, set_enc e (put_request r s)).

(** [while req_index < len(self.running) and token_budget > 0] *)
Fixpoint running_loop (fuel : nat) (defer_prefills : bool) st s : result (Step * Scheduler K E Q) :=
  match fuel with
  | O => Err OutOfFuel
  | S fuel' =>
      if token_budget st <=? 0 then Ok (st, s)
      else match running s !! req_index st with
      | None => Ok (st, s)
      | Some rid =>
          if input_budget st <=? max_num_new_slots_for_drafting cfg then Ok (st, s)
          else
            r ← the_request rid s;
            let next := set_req_index (S (req_index st)) st in
            if skip_running defer_prefills r s then running_loop fuel' defer_prefills next s
            else
              '(inputs, num_new_tokens, budget, e) ←
                _try_schedule_encoder_inputs r (num_computed_tokens r) (running_num_new_tokens r st)
                  (encoder_compute_budget st) (num_prefill_lookahead cfg) (enc s);
              let s := set_enc e s in
              let num_new_tokens := _reserve_prefill_lookahead r (num_computed_tokens r) num_new_tokens in
              if num_new_tokens =? 0 then running_loop fuel' defer_prefills next s
              else
                '(new_blocks, st, s) ← allocate_running (S (length (running s))) rid num_new_tokens st s;
                match new_blocks with
                | None => Ok (st, s)
                | Some new_blocks =>
                    '(st, s) ← schedule_running rid new_blocks num_new_tokens inputs budget st s;
                    running_loop fuel' defer_prefills st s
                end
      end
  end.

(** *** Waiting requests *)

(** [req.lora_request.lora_int_id], if the request has an adapter. *)
Definition lora_id r : option Z := lora_int_id <$> lora_request r.

(** The adapters of the running requests scheduled in this step. *)
Definition running_loras st s : result (gset Z) :=
  match max_loras cfg with
  | None => Ok ∅
  | Some max =>
      rs ← mapM_ok (λ rid, the_request rid s) (scheduled_running_reqs st);
      let loras := list_to_set (filter (λ i, 0 < i) (omap lora_id rs)) : gset Z in
      _ ← py_assert (Z.of_nat (size loras) <=? max);
      Ok loras
  end.

(** The loop's state besides the scheduler: the locals, the adapters and
    [step_skipped_waiting]. *)
Record WaitStep : Type := mkWaitStep { w_step : Step; scheduled_loras : gset Z; step_skipped_waiting : Q }.

Definition set_w_skipped (q : Q) (w : WaitStep) : WaitStep := mkWaitStep (w_step w) (scheduled_loras w) q.

Definition _is_blocked_waiting_status (x : RequestStatus) : bool :=
  bool_decide (x = WAITING_FOR_STRUCTURED_OUTPUT_GRAMMAR) || bool_decide (x = WAITING_FOR_REMOTE_KVS)
  || bool_decide (x = WAITING_FOR_STREAMING_REQ).

(** [true] stands for [self.skipped_waiting], [false] for [self.waiting]. *)
Definition _select_waiting_queue_for_scheduling s : result (option bool) :=
  let other := if queue_bool (waiting s) then Some false else None in
  match sched_policy cfg with
  | FCFS => Ok (if queue_bool (skipped_waiting s) then Some true else other)
  | PRIORITY =>
      if queue_bool (waiting s) && queue_bool (skipped_waiting s) then
        waiting_req ← peek_request (waiting s);
        skipped_req ← peek_request (skipped_waiting s);
        Ok (Some (negb (request_lt waiting_req skipped_req)))
      else if queue_bool (waiting s) then Ok (Some false)
      else Ok (if queue_bool (skipped_waiting s) then Some true else None)
  end.

Definition queue_of (skipped : bool) s : Q := if skipped then skipped_waiting s else waiting s.

(** [request_queue.pop_request()] *)
Definition pop_waiting (skipped : bool) s : result (Request * Scheduler K E Q) :=
  '(r, q) ← pop_request (queue_of skipped s);
  Ok (r, if skipped then set_skipped_waiting q s else set_waiting q s).

(** The request stays out of this step: it goes to [step_skipped_waiting]. *)
Definition skip_waiting (skipped : bool) r (w : WaitStep) s : result (WaitStep * Scheduler K E Q) :=
  '(_, s) ← pop_waiting skipped s;
  q ← prepend_request r (step_skipped_waiting w);
  Ok (set_w_skipped q w, s).

(** Without a connector no KV load finishes, and streaming requests wait for
    [add_request]. *)
Definition _try_promote_blocked_waiting_request (grammar : GrammarState) r s : result (bool * Scheduler K E Q) :=
  match status r with
  | WAITING_FOR_REMOTE_KVS | WAITING_FOR_STREAMING_REQ => Ok (false, s)
  | WAITING_FOR_STRUCTURED_OUTPUT_GRAMMAR =>
      match grammar with
      | GrammarPending => Ok (false, s)
      | GrammarFailed => Ok (false, set_grammar_compile_error_reqs ({[request_id r]} ∪ grammar_compile_error_reqs s) s)
      | GrammarReady => Ok (true, put_request (set_status WAITING r) s)
      end
  | _ => Err AssertionError
  end.

(** Whether the request would need one adapter too many. *)
Definition lora_blocked r (loras : gset Z) : bool :=
  match max_loras cfg, lora_id r with
  | Some max, Some i => (Z.of_nat (size loras) =? max) && negb (bool_decide (i ∈ loras))
  | _, _ => false
  end.

(** The cached blocks of the request, the number of its cached tokens, whether
    they were looked up, and the number of its computed tokens. *)
Definition waiting_computed r s : result (ComputedBlocks * Z * bool * Z * Scheduler K E Q) :=
  if num_computed_tokens r =? 0 then
    '(blocks, n, boundary, r, k) ← kv_get_computed_blocks r (kv s);
    let r := set_shared_prefix_boundary boundary r in
    _ ← py_assert (n <=? num_tokens r);
    _ ← py_assert ((0 <? num_preemptions r) || (n <=? num_prompt_tokens r));
    Ok (blocks, n, true, n, set_kv k (put_request r s))
  else Ok (EmptyBlocks, 0, false, num_computed_tokens r, s).

(** The tokens to compute and whether they are padded with draft positions;
    [None] ends the loop. *)
Definition waiting_num_new_tokens r (num_computed : Z) st : result (option (Z * bool)) :=
  let request_token_budget := Z.min (token_budget st) (input_budget st - max_num_new_slots_for_drafting cfg) in
  let num_new_tokens := num_tokens r - num_computed in
  let padded := 1 + num_spec_tokens cfg in
  let pad := (0 <? num_spec_tokens cfg) && negb (bool_decide (is_Some (dynamic_sd_lookup cfg)))
             && (0 <? num_sampled_tokens_per_step cfg) && (num_new_tokens =? 1)
             && negb (bool_decide (scheduled_running_reqs st = [])) && negb (prefill_scheduled st)
             && (num_computed + padded + num_sampled_tokens_per_step cfg <=? sched_max_model_len cfg) in
  if pad && (request_token_budget <? padded) then Ok None
  else
    let num_new_tokens := cap_long_prefill (if pad then padded else num_new_tokens) in
    if negb (enable_chunked_prefill cfg) && (request_token_budget <? num_new_tokens) then Ok None
    else
      let num_new_tokens := Z.min num_new_tokens request_token_budget in
      _ ← py_assert (0 <? num_new_tokens);
      Ok (Some (num_new_tokens, pad)).

(** The bookkeeping of an admitted request. *)
Definition record_waiting r (blocks : ComputedBlocks) (num_new_tokens : Z) (pad : bool) (inputs : list Z) (budget : Z)
    st : result Step :=
  let rid := request_id r in
  '(new, resumed) ←
    match status r with
    | WAITING => Ok (scheduled_new_reqs st ++ [rid], scheduled_resumed_reqs st)
    | PREEMPTED => Ok (scheduled_new_reqs st, scheduled_resumed_reqs st ++ [rid])
    | _ => Err RuntimeError
    end;
  _ ← (if pad then py_assert (num_new_tokens =? 1 + num_spec_tokens cfg) else Ok tt);
  Ok {| scheduled_new_reqs := new; scheduled_resumed_reqs := resumed;
        scheduled_running_reqs := scheduled_running_reqs st; preempted_reqs := preempted_reqs st;
        req_to_new_blocks := od_set (req_to_new_blocks st) rid blocks;
        num_scheduled_tokens := od_set (num_scheduled_tokens st) rid num_new_tokens;
        token_budget := token_budget st - num_new_tokens;
        input_budget := input_budget st - (num_new_tokens + max_num_new_slots_for_drafting cfg);
        encoder_compute_budget := if bool_decide (inputs = []) then encoder_compute_budget st else budget;
        scheduled_encoder_inputs :=
          if bool_decide (inputs = []) then scheduled_encoder_inputs st
          else od_set (scheduled_encoder_inputs st) rid inputs;
        scheduled_spec_decode_tokens :=
          if pad then od_set (scheduled_spec_decode_tokens st) rid (replicate (Z.to_nat (num_spec_tokens cfg)) (-1))
          else scheduled_spec_decode_tokens st;
        prefill_scheduled := prefill_scheduled st; req_index := req_index st |}.

(** From [allocate_slots] on: [false] ends the loop. *)
Definition admit_waiting (skipped : bool) rid (blocks : ComputedBlocks) (num_local : Z) (lookup : bool) (num_computed : Z)
    (num_new_tokens : Z) (pad : bool) (inputs : list Z) (budget : Z) (w : WaitStep) s :
    result (bool * WaitStep * Scheduler K E Q) :=
  r ← the_request rid s;
  '(res, r, k) ← kv_allocate_slots r num_new_tokens num_local (Some blocks) (num_lookahead_tokens cfg)
                   (scheduler_reserve_full_isl cfg) (negb (bool_decide (running s = []))) (kv s);
  let s := set_kv k (put_request r s) in
  match res with
  | None =>
      e ← (if 0 <? num_encoder_inputs r then ec_free r (enc s) else Ok (enc s));
      Ok (false, w, set_enc e s)
  | Some _ =>
      k ← (if lookup then kv_record_prefix_cache_stats r num_local (kv s) else Ok (kv s));
      '(_, s) ← pop_waiting skipped (set_kv k s);
      let s := set_running (running s ++ [rid]) s in
      st ← record_waiting r (kv_get_blocks rid (kv s)) num_new_tokens pad inputs budget (w_step w);
      let loras := match max_loras cfg, lora_id r with
                   | Some _, Some i => {[i]} ∪ scheduled_loras w
                   | _, _ => scheduled_loras w
                   end in
      let r := set_num_computed_tokens num_computed (set_status RUNNING r) in
      let inflight := if num_computed + num_new_tokens <? num_tokens r
                      then {[rid]} ∪ inflight_prefills s else inflight_prefills s in
      e ← allocate_encoder_inputs r inputs (enc s);
      Ok (true, mkWaitStep st loras (step_skipped_waiting w),
          set_inflight_prefills inflight (set_enc e (put_request r s)))
  end.

(** The body of the loop once the request may be scheduled. *)
Definition schedule_waiting (skipped : bool) (defer_prefills : bool) rid (w : WaitStep) s :
    result (bool * WaitStep * Scheduler K E Q) :=
  r ← the_request rid s;
  '(blocks, num_local, lookup, num_computed, s) ← waiting_computed r s;
  r ← the_request rid s;
  if defer_prefills && (num_computed <? num_tokens r - 1) then Ok (false, w, s)
  else
    tokens ← waiting_num_new_tokens r num_computed (w_step w);
    match tokens with
    | None => Ok (false, w, s)
    | Some (num_new_tokens, pad) =>
        '(inputs, num_new_tokens, budget, e) ←
          _try_schedule_encoder_inputs r num_computed num_new_tokens (encoder_compute_budget (w_step w))
            (num_prefill_lookahead cfg) (enc s);
        let s := set_enc e s in
        let num_new_tokens := _reserve_prefill_lookahead r num_computed num_new_tokens in
        if num_new_tokens =? 0 then Ok (false, w, s)
        else admit_waiting skipped rid blocks num_local lookup num_computed num_new_tokens pad inputs budget w s
    end.

(** One round: [grammar] is the state of the request's grammar. *)
Definition waiting_step (grammar : string → GrammarState) (skipped defer_prefills : bool) (w : WaitStep) s :
    result (bool * WaitStep * Scheduler K E Q) :=
  queued ← peek_request (queue_of skipped s);
  let rid := request_id queued in
  r ← the_request rid s;
  '(ready, s) ← (if _is_blocked_waiting_status (status r)
                 then _try_promote_blocked_waiting_request (grammar rid) r s else Ok (true, s));
  r ← the_request rid s;
  if negb ready || ((0 <? num_stale_output_tokens r) && negb (drop_stale_output r)) || lora_blocked r (scheduled_loras w)
  then '(w, s) ← skip_waiting skipped r w s; Ok (true, w, s)
  else schedule_waiting skipped defer_prefills rid w s.

(** [while (self.waiting or self.skipped_waiting) and token_budget > 0];
    [num_waiting_for_streaming_input] is 0 without streaming sessions. *)
Fixpoint waiting_loop (fuel : nat) (grammar : string → GrammarState) (defer_prefills : bool) (w : WaitStep) s :
    result (WaitStep * Scheduler K E Q) :=
  match fuel with
  | O => Err OutOfFuel
  | S fuel' =>
      if negb (queue_bool (waiting s) || queue_bool (skipped_waiting s)) || (token_budget (w_step w) <=? 0)
         || (input_budget (w_step w) <=? max_num_new_slots_for_drafting cfg)
         || (max_num_running_reqs cfg <=? py_len (running s))
      then Ok (w, s)
      else
        which ← _select_waiting_queue_for_scheduling s;
        skipped ← unwrap AssertionError which;
        '(continue, w, s) ← waiting_step grammar skipped defer_prefills w s;
        if continue : bool then waiting_loop fuel' grammar defer_prefills w s else Ok (w, s)
  end.

(** The waiting phase of a step. *)
Definition schedule_waiting_requests (grammar : string → GrammarState) (defer_prefills : bool) st s :
    result (Step * Scheduler K E Q) :=
  loras ← running_loras st s;
  if bool_decide (preempted_reqs st = []) && bool_decide (pause_state s = UNPAUSED) then
    let fuel := S (Z.to_nat (queue_len (waiting s) + queue_len (skipped_waiting s))) in
    '(w, s) ← waiting_loop fuel grammar defer_prefills (mkWaitStep st loras new_queue) s;
    s ← (if queue_bool (step_skipped_waiting w) then
           rs ← queue_iter (step_skipped_waiting w);
           q ← prepend_requests rs (skipped_waiting s);
           Ok (set_skipped_waiting q s)
         else Ok s);
    Ok (w_step w, if defer_prefills then s else set_prefill_capacity_bound (queue_bool (waiting s)) s)
  else Ok (st, s).

(** *** The output of a step *)

(** [NewRequestData] without the payload copied from the request. *)
Record NewRequestData : Type := mkNewRequestData {
  new_req_id : string;
  new_req_block_ids : list (list Z);
  new_req_num_computed_tokens : Z;
  prefill_token_ids : option (list Z);
}.

Record CachedRequestData : Type := mkCachedRequestData {
  cached_req_ids : list string;
  resumed_req_ids : gset string;
  cached_new_token_ids : list (list Z);
  cached_all_token_ids : list (string * list Z);
  cached_new_block_ids : list (option (list (list Z)));
  cached_num_computed_tokens : list Z;
  cached_num_output_tokens : list Z;
}.

Record SchedulerOutput : Type := mkSchedulerOutput {
  so_scheduled_new_reqs : list NewRequestData;
  so_scheduled_cached_reqs : CachedRequestData;
  so_num_scheduled_tokens : list (string * Z);
  total_num_scheduled_tokens : Z;
  so_scheduled_spec_decode_tokens : list (string * list Z);
  so_scheduled_encoder_inputs : list (string * list Z);
  num_common_prefix_blocks : list Z;
  so_preempted_req_ids : gset string;
  so_finished_req_ids : gset string;
  free_encoder_mm_hashes : list mm_hash_t;
  new_block_ids_to_zero : option (list Z);
  kv_cache_block_copies : option (list (Z * Z));
  num_spec_tokens_to_schedule : Z;
}.

Definition new_request_data st s rid : result NewRequestData :=
  r ← the_request rid s;
  blocks ← unwrap KeyError (od_get (req_to_new_blocks st) rid);
  Ok (mkNewRequestData rid (kv_block_ids blocks (kv s)) (num_computed_tokens r)
        (if use_v2_model_runner cfg then Some (all_token_ids r) else None)).

(** [KVCacheBlocks.get_block_ids(allow_none=True)] *)
Definition block_ids_or_none (blocks : ComputedBlocks) s : option (list (list Z)) :=
  let ids := kv_block_ids blocks (kv s) in
  if forallb (λ l, bool_decide (l = [])) ids then None else Some ids.

(** One round of the loop of [_make_cached_request_data]. *)
Definition cached_request (resumed : bool) st s (d : CachedRequestData) rid : result CachedRequestData :=
  r ← the_request rid s;
  new_token_ids ←
    (if use_pp cfg && negb (async_scheduling cfg) then
       n ← unwrap KeyError (od_get (num_scheduled_tokens st) rid);
       let num_tokens := n - py_len (default [] (od_get (scheduled_spec_decode_tokens st) rid)) in
       Ok (cached_new_token_ids d ++ [py_slice (all_token_ids r) (num_computed_tokens r) (num_computed_tokens r + num_tokens)])
     else Ok (cached_new_token_ids d));
  blocks ← unwrap KeyError (od_get (req_to_new_blocks st) rid);
  Ok {| cached_req_ids := cached_req_ids d ++ [rid];
        resumed_req_ids := if resumed then {[rid]} ∪ resumed_req_ids d else resumed_req_ids d;
        cached_new_token_ids := new_token_ids;
        cached_all_token_ids :=
          if negb (use_v2_model_runner cfg) && negb (bool_decide (rid ∈ prev_step_scheduled_req_ids s))
          then od_set (cached_all_token_ids d) rid (all_token_ids r) else cached_all_token_ids d;
        cached_new_block_ids := cached_new_block_ids d ++ [block_ids_or_none blocks s];
        cached_num_computed_tokens := cached_num_computed_tokens d ++ [num_computed_tokens r];
        cached_num_output_tokens :=
          cached_num_output_tokens d ++ [num_output_tokens r + num_output_placeholders r] |}.

Definition _make_cached_request_data (running_reqs resumed_reqs : list string) st s : result CachedRequestData :=
  d ← foldM (cached_request false st s) (mkCachedRequestData [] ∅ [] [] [] [] []) running_reqs;
  foldM (cached_request true st s) d resumed_reqs.

(** The token counts of a request after it was scheduled. *)
Definition advance (num_scheduled : Z) r : Request :=
  let r := set_num_in_flight_tokens (num_in_flight_tokens r + num_scheduled)
             (set_num_computed_tokens (num_computed_tokens r + num_scheduled) r) in
  set_is_prefill_chunk (num_computed_tokens r <? num_tokens r + num_output_placeholders r) r.

Definition update_scheduled s (x : string * Z) : result (Scheduler K E Q) :=
  r ← the_request x.1 s;
  let r := advance x.2 r in
  Ok (set_inflight_prefills (if is_prefill_chunk r then inflight_prefills s else inflight_prefills s ∖ {[x.1]}) (put_request r s)).

(** [AsyncScheduler]'s addition: placeholders for the tokens of the step. *)
Definition add_placeholders (o : SchedulerOutput) s (rid : string) : result (Scheduler K E Q) :=
  r ← the_request rid s;
  if is_prefill_chunk r then Ok s
  else
    let n := py_len (default [] (od_get (so_scheduled_spec_decode_tokens o) rid)) in
    let r := set_spec_token_ids (replicate (Z.to_nat (num_spec_tokens_to_schedule o)) (-1))
               (set_num_output_placeholders (num_output_placeholders r + (num_sampled_tokens_per_step cfg + n)) r) in
    Ok (put_request (if use_v2_model_runner cfg
                     then set_next_decode_eligible_step (current_step s + pp_size cfg) r else r) s).

Definition _update_after_schedule (o : SchedulerOutput) s : result (Scheduler K E Q) :=
  s ← foldM update_scheduled s (so_num_scheduled_tokens o);
  let s := set_reset_preempted_req_ids ∅ (set_finished_req_ids ∅ s) in
  if async_scheduling cfg then foldM (add_placeholders o) s (od_keys (so_num_scheduled_tokens o)) else Ok s.

(** The assertions after the two phases. *)
Definition check_constraints st s : result unit :=
  _ ← py_assert (sumZ (num_scheduled_tokens st).*2 <=? max_num_scheduled_tokens cfg);
  _ ← py_assert (0 <=? token_budget st);
  _ ← py_assert (0 <=? input_budget st);
  _ ← py_assert (py_len (running s) <=? max_num_running_reqs cfg);
  py_assert (py_len (scheduled_new_reqs st) + py_len (scheduled_resumed_reqs st) + py_len (scheduled_running_reqs st)
             <=? py_len (running s)).

(** From the assertions to the output. *)
Definition build_output st s : result (SchedulerOutput * Scheduler K E Q) :=
  _ ← check_constraints st s;
  let '(common, k) := match running s with
                      | [] => (replicate (num_kv_cache_groups cfg) 0, kv s)
                      | rid :: _ => kv_get_num_common_prefix_blocks rid (kv s)
                      end in
  let s := set_kv k s in
  let '(new, resumed) :=
    if use_v2_model_runner cfg then (scheduled_new_reqs st ++ scheduled_resumed_reqs st, [])
    else (scheduled_new_reqs st, scheduled_resumed_reqs st) in
  new_reqs_data ← mapM_ok (new_request_data st s) new;
  cached ← _make_cached_request_data (scheduled_running_reqs st) resumed st s;
  let s := if use_v2_model_runner cfg then s
           else set_prev_step_scheduled_req_ids (list_to_set (od_keys (num_scheduled_tokens st))) s in
  '(copies, k) ← kv_take_copies (kv s);
  let s := set_kv k s in
  spec ← match dynamic_sd_lookup cfg with
         | Some l => if 0 <? py_len (num_scheduled_tokens st) then py_get l (py_len (num_scheduled_tokens st))
                     else Ok (num_spec_tokens cfg)
         | None => Ok (num_spec_tokens cfg)
         end;
  let '(hashes, e) := ec_get_freed_mm_hashes (enc s) in
  let '(ids, k) := kv_take_new_block_ids (kv s) in
  Ok (mkSchedulerOutput new_reqs_data cached (num_scheduled_tokens st) (sumZ (num_scheduled_tokens st).*2)
        (scheduled_spec_decode_tokens st) (scheduled_encoder_inputs st) common
        (reset_preempted_req_ids s) (finished_req_ids s) hashes
        (if negb (needs_kv_cache_zeroing cfg) || bool_decide (ids = []) then None else Some ids)
        (if bool_decide (copies = []) then None else Some copies) spec,
      set_kv k (set_enc e s)).

Definition new_step s : Step :=
  {| scheduled_new_reqs := []; scheduled_resumed_reqs := []; scheduled_running_reqs := []; preempted_reqs := [];
     req_to_new_blocks := []; num_scheduled_tokens := [];
     token_budget := if bool_decide (pause_state s = PAUSED_ALL) then 0 else max_num_scheduled_tokens cfg;
     input_budget := sched_max_num_batched_tokens cfg; encoder_compute_budget := encoder_token_budget cfg;
     scheduled_encoder_inputs := []; scheduled_spec_decode_tokens := []; prefill_scheduled := false; req_index := 0 |}.

(** [any(not r.is_prefill_chunk for r in self.running)], with the throttle. *)
Definition must_defer_prefills (throttle_prefills : bool) s : bool :=
  throttle_prefills && negb (prefill_capacity_bound s)
  && existsb (λ rid, match requests s !! rid with Some r => negb (is_prefill_chunk r) | None => false end) (running s).

Definition schedule (grammar : string → GrammarState) (throttle_prefills : bool) s :
    result (SchedulerOutput * Scheduler K E Q) :=
  let s := set_current_step (current_step s + 1) s in
  let defer_prefills := must_defer_prefills throttle_prefills s in
  '(st, s) ← running_loop (S (length (running s))) defer_prefills (new_step s) s;
  '(st, s) ← schedule_waiting_requests grammar defer_prefills st s;
  '(o, s) ← build_output st s;
  s ← _update_after_schedule o s;
  Ok (o, s).

(** *** Adding and finishing requests *)

(** A streaming session would extend the existing request. *)
Definition sched_add_request r s : result (Scheduler K E Q) :=
  match requests s !! request_id r with
  | Some _ => Err AssertionError
  | None =>
      s ← (if _is_blocked_waiting_status (status r)
           then q ← add_request r (skipped_waiting s); Ok (set_skipped_waiting q s)
           else q ← add_request r (waiting s); Ok (set_waiting q s));
      Ok (put_request r s)
  end.

Definition _free_request rid s : result (Scheduler K E Q) :=
  r ← the_request rid s;
  _ ← py_assert (is_finished (status r));
  e ← ec_free r (enc s);
  k ← kv_free r (kv s);
  Ok (set_kv k (set_enc e (set_reqs (delete rid (requests s))
       (set_finished_req_ids ({[rid]} ∪ finished_req_ids s)
         (set_inflight_prefills (inflight_prefills s ∖ {[rid]}) s))))).

(** The first pass of [finish_requests] over the ids. *)
Definition live_requests (request_ids : list string) s : list Request :=
  filter (λ r, is_finished (status r) = false) (omap (λ rid, requests s !! rid) request_ids).

Definition is_running r : bool := bool_decide (status r = RUNNING).

Definition finish_one (finished_status : RequestStatus) s r : result (Scheduler K E Q) :=
  _free_request (request_id r) (put_request (set_status finished_status r) s).

(** [finish_requests]; a set of ids is given in the order in which Python
    iterates over it. *)
Definition finish_requests (request_ids : list string) (finished_status : RequestStatus) s :
    result (list Request * Scheduler K E Q) :=
  _ ← py_assert (is_finished finished_status);
  let valid := live_requests request_ids s in
  let to_remove := filter (λ r, is_running r = true) valid in
  let waiting_to_remove := filter (λ r, is_running r = false) valid in
  let s := set_running (remove_all (running s) (list_to_set (request_id <$> to_remove))).2 s in
  s ← (if bool_decide (waiting_to_remove = []) then Ok s
       else
         w ← remove_requests waiting_to_remove (waiting s);
         k ← remove_requests waiting_to_remove (skipped_waiting s);
         Ok (set_skipped_waiting k (set_waiting w s)));
  s ← foldM (finish_one finished_status) s valid;
  Ok (valid, s).

(** *** The output of the model *)

(** The parts of [ModelRunnerOutput] that are read; an absent list is empty. *)
Record ModelRunnerOutput : Type := mkModelRunnerOutput {
  req_id_to_index : gmap string Z;
  sampled_token_ids : list (list Z);
  pooler_output : list (option Z);
}.

(** [EngineCoreOutput] *)
Record CoreOutput : Type := mkCoreOutput {
  out_req_id : string;
  out_new_token_ids : list Z;
  out_finish_reason : option FinishReason;
  out_stop_reason : option StopReason;
  out_pooling_output : option Z;
}.

(** The loop of [Scheduler._update_request_with_output]: the tokens that were
    kept and whether the request stopped. *)
Fixpoint append_until_stop (new_token_ids : list Z) r : result (list Z * bool * Request) :=
  match new_token_ids with
  | [] => Ok ([], false, r)
  | t :: ts =>
      r ← append_output_token_ids block_hasher [t] r;
      '(stopped, r) ← check_stop r (sched_max_model_len cfg);
      if stopped : bool then Ok ([t], true, r)
      else '(kept, stopped, r) ← append_until_stop ts r; Ok (t :: kept, stopped, r)
  end.

Definition _update_request_with_output r (new_token_ids : list Z) (is_stale : bool) (k : K) :
    result (list Z * bool * Request * K) :=
  let status_before_update := status r in
  '(kept, stopped, r) ← append_until_stop new_token_ids r;
  if async_scheduling cfg then
    let r := if is_stale then r
             else set_num_output_placeholders (num_output_placeholders r - py_len kept) r in
    _ ← py_assert (is_stale || (0 <=? num_output_placeholders r));
    '(r, k) ← (if bool_decide (status_before_update = RUNNING)
               then kv_cache_blocks r (num_computed_tokens r - num_output_placeholders r) k
               else Ok (r, k));
    Ok (kept, stopped, r, k)
  else Ok (kept, stopped, r, k).

(** Rejected draft tokens are taken back. *)
Definition roll_back (num_rejected : Z) r : Request :=
  let r := if 0 <? num_computed_tokens r then set_num_computed_tokens (num_computed_tokens r - num_rejected) r else r in
  if 0 <? num_output_placeholders r then set_num_output_placeholders (num_output_placeholders r - num_rejected) r else r.

Definition accept_drafts (o : SchedulerOutput) (generated : list Z) (is_stale : bool) r : Request :=
  match od_get (so_scheduled_spec_decode_tokens o) (request_id r) with
  | Some ((_ :: _) as drafts) =>
      if (negb (bool_decide (generated = [])) || (num_sampled_tokens_per_step cfg =? 0)) && negb is_stale
      then roll_back (py_len drafts - Z.max (py_len generated - num_sampled_tokens_per_step cfg) 0) r
      else r
  | _ => r
  end.

(** One input of [_free_encoder_inputs]. *)
Definition free_passed_input r (e : E) (input_id : Z) : result E :=
  f ← py_get (mm_features r) input_id;
  if (is_encoder_decoder cfg && (0 <? num_computed_tokens r))
     || (offset (mm_position f) + length_ (mm_position f) + num_prefill_lookahead cfg
         <=? num_computed_tokens r - num_output_placeholders r)
  then ec_free_encoder_input r input_id e else Ok e.

Definition _free_encoder_inputs r (e : E) : result E := foldM (free_passed_input r) e (ec_get_cached_input_ids r e).

(** The stop decision for the tokens, or the pooling result, of a request. *)
Definition apply_output r (generated : list Z) (pooling : option Z) (is_stale : bool) (k : K) :
    result (list Z * bool * Request * K) :=
  if negb (bool_decide (generated = [])) then _update_request_with_output r generated is_stale k
  else if bool_decide (is_Some (pooling_params r)) && bool_decide (is_Some pooling)
  then Ok ([], true, set_status FINISHED_STOPPED r, k)
  else if is_mm_encoder_only cfg && (num_prompt_tokens r <=? num_computed_tokens r)
  then Ok ([], true, set_status FINISHED_STOPPED r, k)
  else Ok ([], false, r, k).

(** What the loop over the scheduled requests accumulates: the outputs and the
    stopped requests, running and preempted. *)
Record OutputStep : Type := mkOutputStep {
  os_outputs : list CoreOutput;
  stopped_running_reqs : list string;
  stopped_preempted_reqs : list Request;
}.

(** The request as its output arrives, and whether that output is stale. *)
Definition arrive (num_scheduled : Z) r : result (bool * Request) :=
  let r := set_num_in_flight_tokens (num_in_flight_tokens r - num_scheduled) r in
  if 0 <? num_stale_output_tokens r then
    let r := set_num_stale_output_tokens (num_stale_output_tokens r - num_scheduled) r in
    _ ← py_assert (0 <=? num_stale_output_tokens r);
    Ok (true, r)
  else Ok (false, r).

(** The output of one live request. *)
Definition process_request (o : SchedulerOutput) (m : ModelRunnerOutput) (is_stale : bool) r (os : OutputStep) s :
    result (OutputStep * Scheduler K E Q) :=
  let rid := request_id r in
  i ← unwrap KeyError (req_id_to_index m !! rid);
  generated ← (if bool_decide (sampled_token_ids m = []) then Ok [] else py_get (sampled_token_ids m) i);
  pooling ← (if bool_decide (pooler_output m = []) then Ok None else py_get (pooler_output m) i);
  let r := accept_drafts o generated is_stale r in
  e ← (if 0 <? num_encoder_inputs r then _free_encoder_inputs r (enc s) else Ok (enc s));
  let was_running := is_running r in
  '(new_token_ids, stopped, r, k) ← apply_output r generated pooling is_stale (kv s);
  let s := set_kv k (set_enc e (put_request r s)) in
  let outs := if negb (bool_decide (new_token_ids = [])) || bool_decide (is_Some pooling) || stopped
              then os_outputs os ++ [mkCoreOutput rid new_token_ids
                                      (if stopped then get_finished_reason (status r) else None) (stop_reason r) pooling]
              else os_outputs os in
  if stopped : bool then
    s ← _free_request rid s;
    Ok (if was_running then mkOutputStep outs (stopped_running_reqs os ++ [rid]) (stopped_preempted_reqs os)
        else mkOutputStep outs (stopped_running_reqs os) (stopped_preempted_reqs os ++ [r]), s)
  else Ok (mkOutputStep outs (stopped_running_reqs os) (stopped_preempted_reqs os), s).

(** The body of the loop over the scheduled requests. *)
Definition process_scheduled (o : SchedulerOutput) (m : ModelRunnerOutput) (acc : OutputStep * Scheduler K E Q)
    (x : string * Z) : result (OutputStep * Scheduler K E Q) :=
  let '(os, s) := acc in
  _ ← py_assert (0 <? x.2);
  match requests s !! x.1 with
  | None => Ok (os, s)
  | Some r =>
      '(is_stale, r) ← arrive x.2 r;
      let s := put_request r s in
      if is_finished (status r) || (is_stale && drop_stale_output r) then Ok (os, s)
      else process_request o m is_stale r os s
  end.

(** [error_order] is the order in which the set of failed grammars is iterated. *)
Definition update_from_output (error_order : gset string → list string) (o : SchedulerOutput) (m : ModelRunnerOutput) s :
    result (list CoreOutput * Scheduler K E Q) :=
  '(os, s) ← foldM (process_scheduled o m) (mkOutputStep [] [] [], s) (so_num_scheduled_tokens o);
  let s := set_running (remove_all (running s) (list_to_set (stopped_running_reqs os))).2 s in
  s ← (if bool_decide (stopped_preempted_reqs os = []) then Ok s
       else
         w ← remove_requests (stopped_preempted_reqs os) (waiting s);
         k ← remove_requests (stopped_preempted_reqs os) (skipped_waiting s);
         Ok (set_skipped_waiting k (set_waiting w s)));
  let errors := error_order (grammar_compile_error_reqs s) in
  let s := set_grammar_compile_error_reqs ∅ s in
  '(failed, s) ← (if bool_decide (errors = []) then Ok ([], s) else finish_requests errors FINISHED_ERROR s);
  let outs := os_outputs os ++ ((λ r, mkCoreOutput (request_id r) [] (get_finished_reason FINISHED_ERROR) None None) <$> failed) in
  Ok (outs, set_kv (kv_take_events (kv s)) s).

(** *** Drafts, counters and resets *)

Definition update_draft_token_ids (drafts : list (string * list Z)) s : Scheduler K E Q :=
  foldl (λ s x, match requests s !! x.1 with
                | None => s
                | Some r =>
                    if is_finished (status r) then s
                    else put_request (set_spec_token_ids (if is_prefill_chunk r then [] else x.2) r) s
                end) s drafts.

(** [update_draft_token_ids_in_output] without grammars. *)
Definition update_draft_token_ids_in_output (drafts : list (string * list Z)) (o : SchedulerOutput) s :
    SchedulerOutput :=
  foldl (λ o x,
      match requests s !! x.1, od_get (so_scheduled_spec_decode_tokens o) x.1 with
      | Some r, Some ((_ :: _) as placeholders) =>
          if is_finished (status r) then o
          else
            let ids := take (length placeholders) x.2 in
            mkSchedulerOutput (so_scheduled_new_reqs o) (so_scheduled_cached_reqs o) (so_num_scheduled_tokens o)
              (total_num_scheduled_tokens o)
              (od_set (so_scheduled_spec_decode_tokens o) x.1 (ids ++ replicate (length placeholders - length ids) (-1)))
              (so_scheduled_encoder_inputs o) (num_common_prefix_blocks o) (so_preempted_req_ids o) (so_finished_req_ids o)
              (free_encoder_mm_hashes o) (new_block_ids_to_zero o) (kv_cache_block_copies o) (num_spec_tokens_to_schedule o)
      | _, _ => o
      end) o drafts.

Definition get_request_counts s : Z * Z :=
  (py_len (running s), queue_len (waiting s) + queue_len (skipped_waiting s)).

Definition sched_get_num_unfinished_requests s : Z :=
  match pause_state s with
  | PAUSED_ALL => 0
  | PAUSED_NEW => py_len (running s)
  | UNPAUSED => queue_len (waiting s) + queue_len (skipped_waiting s) + py_len (running s)
  end.

Definition has_finished_requests s : bool := negb (bool_decide (finished_req_ids s = ∅)).
Definition has_requests s : bool := (0 <? sched_get_num_unfinished_requests s) || has_finished_requests s.

(** The loop of [reset_prefix_cache] that preempts everything. *)
Fixpoint preempt_all (fuel : nat) s : result (Scheduler K E Q) :=
  match fuel with
  | O => Err OutOfFuel
  | S fuel' =>
      match last (running s) with
      | None => Ok s
      | Some rid => s ← _preempt_request rid true (set_running (removelast (running s)) s); preempt_all fuel' s
      end
  end.

Definition sched_reset_prefix_cache (reset_running_requests : bool) s : result (bool * Scheduler K E Q) :=
  s ← (if reset_running_requests
       then s ← preempt_all (S (length (running s))) s; Ok (set_prev_step_scheduled_req_ids ∅ s)
       else Ok s);
  '(successful, k) ← kv_reset_prefix_cache (kv s);
  if reset_running_requests && negb successful then Err RuntimeError else Ok (successful, set_kv k s).

Definition reset_encoder_cache s : Scheduler K E Q := set_enc (ec_reset (enc s)) s.
End Scheduler.
