(* ===== verification/SchedulerSpec.v ===== *)
(** * The scheduler: interfaces and invariant

    What the scheduler asks of the queues, of the KV cache manager and of the
    encoder cache, as classes of laws, and the invariant that its operations
    keep.  The steps are verified in [SchedulerStep] and [SchedulerUpdate],
    against these classes only. *)

From S2P Require Import Prelude FreeQueue Request BlockHash EncoderCache RequestQueue SchedUtils KVCacheManager Scheduler.
Local Open Scope Z_scope.

(** ** Queues *)

(** A policy adds the request it is given and nothing else. *)
Class PolicyPerm (P : policy) : Prop := {
  enqueue_perm r l : enqueue P r l ≡ₚ r :: l;
  requeue_perm r l : requeue P r l ≡ₚ r :: l;
}.

#[export] Instance fcfs_perm : PolicyPerm fcfs_policy.
Proof. split; intros r l; [symmetry; apply Permutation_cons_append|done]. Qed.

#[export] Instance priority_perm : PolicyPerm priority_policy.
Proof.
  assert (H : ∀ r l, insort r l ≡ₚ r :: l).
  { intros r l. induction l as [|x l IH]; simpl; [done|]. destruct (request_lt r x); [done|]. by rewrite IH, Permutation_swap. }
  split; apply H.
Qed.

Section Queues.
Context {Q : Type} `{QueueRefines Q P}.
Implicit Types (q : Q) (l : list Request) (r : Request).

(** The step of the reference queue, read off the queue's own operation. *)
Ltac queue_op op Hq Hok :=
  destruct (represents_step _ _ op Hq Hok) as (q' & Hstep & Hq'); simpl in Hstep, Hq'; unfold finish in Hstep.

Lemma rep_add q l r : represents q l → py_id r ∉ py_id <$> l → runs (add_request r q) (λ q', represents q' (enqueue P r l)).
Proof. intros Hq Hok. queue_op (OpAdd r) Hq Hok. destruct (add_request r q); [|done]. by injection Hstep as ->. Qed.

Lemma rep_pop q x l : represents q (x :: l) → runs (pop_request q) (λ '(y, q'), y = x ∧ represents q' l).
Proof. intros Hq. queue_op OpPop Hq I. destruct (pop_request q) as [[y q1]|]; [|done]. by injection Hstep as -> ->. Qed.

Lemma rep_peek q x l : represents q (x :: l) → peek_request q = Ok x.
Proof. intros Hq. queue_op OpPeek Hq I. destruct (peek_request q) as [y|]; [|done]. by injection Hstep as _ ->. Qed.

Lemma rep_prepend q l r : represents q l → py_id r ∉ py_id <$> l → runs (prepend_request r q) (λ q', represents q' (requeue P r l)).
Proof. intros Hq Hok. queue_op (OpPrepend r) Hq Hok. destruct (prepend_request r q); [|done]. by injection Hstep as ->. Qed.

Lemma rep_prepend_all q l rs :
  represents q l → NoDup (py_id <$> (rs ++ l)) →
  runs (prepend_requests rs q) (λ q', represents q' (foldl (λ l r, requeue P r l) l rs)).
Proof. intros Hq Hok. queue_op (OpPrependAll rs) Hq Hok. destruct (prepend_requests rs q); [|done]. by injection Hstep as ->. Qed.

Lemma rep_remove_all q l rs : represents q l → runs (remove_requests rs q) (λ q', represents q' (filter_requests rs l)).
Proof. intros Hq. queue_op (OpRemoveAll rs) Hq I. destruct (remove_requests rs q); [|done]. by injection Hstep as ->. Qed.

Lemma rep_bool q l : represents q l → queue_bool q = negb (bool_decide (l = [])).
Proof. intros Hq. queue_op OpBool Hq I. by injection Hstep as _ ->. Qed.

Lemma rep_len q l : represents q l → queue_len q = py_len l.
Proof. intros Hq. queue_op OpLen Hq I. by injection Hstep as _ ->. Qed.

Lemma rep_iter q l : represents q l → queue_iter q = Ok l.
Proof. intros Hq. queue_op OpIter Hq I. destruct (queue_iter q) as [y|]; [|done]. by injection Hstep as _ ->. Qed.

Lemma prepend_all_perm `{!PolicyPerm P} l rs : foldl (λ l r, requeue P r l) l rs ≡ₚ rs ++ l.
Proof.
  revert l. induction rs as [|r rs IH]; intros l; simpl; [done|]. rewrite IH, requeue_perm. by rewrite Permutation_middle.
Qed.
End Queues.

(** ** The KV cache *)

(** What the hashes and the cached blocks of a request are made from. *)
Definition content (r : Request) :=
  (all_token_ids r, block_hashes r, prompt_embeds r, prompt_embeds_per_block_hashes r, mm_features r, lora_request r, cache_salt r).

(** What a new token leaves as it is. *)
Definition sched_view (r : Request) : Request :=
  set_block_hashes [] (strip (set_all_token_ids [] (set_output_token_ids [] r))).

(** The promise of the manager.  [kv_ok v k]: it is in order, and the request
    [rid] has slots for [c] tokens when [v !! rid = Some c], and no blocks when
    [v !! rid = None].  [kv_ready r]: the hashes of the request are up to date.
    [kv_hit rid n b k]: the blocks [b] hold the first [n] tokens of a request
    without blocks. *)
Class KVLaws (K : Type) `{KVCache K} (mml : Z) (block_hasher : option BlockHasher) : Type := {
  kv_ok : gmap string Z → K → Prop;
  kv_ready : Request → Prop;
  kv_hit : string → Z → ComputedBlocks → K → Prop;
  kv_ready_content r r' : content r' = content r → kv_ready r → kv_ready r';
  kv_ready_append r t : kv_ready r →
    runs (append_output_token_ids block_hasher [t] r) (λ r', kv_ready r' ∧ sched_view r' = sched_view r ∧
      all_token_ids r' = all_token_ids r ++ [t] ∧ output_token_ids r' = output_token_ids r ++ [t]);
  kv_lookup_law v k r :
    kv_ok v k → v !! request_id r = None → kv_ready r → 0 < num_tokens r ≤ mml →
    runs (kv_get_computed_blocks r k) (λ '(b, n, boundary, r', k'),
      kv_ok v k' ∧ strip r' = strip r ∧ kv_ready r' ∧ 0 ≤ n < num_tokens r ∧ kv_hit (request_id r) n b k');
  kv_admit_law v k r b n new lookahead full scheduled :
    kv_ok v k → v !! request_id r = None → kv_ready r → num_computed_tokens r = 0 → num_tokens r ≤ mml →
    0 ≤ num_prompt_tokens r → kv_hit (request_id r) n b k → 0 ≤ n → 0 < new → 0 ≤ lookahead → n + new ≤ mml →
    runs (kv_allocate_slots r new n (Some b) lookahead full scheduled k) (λ '(res, r', k'),
      strip r' = strip r ∧ kv_ready r' ∧
      match res with
      | None => kv_ok v k'
      | Some _ => ∃ c, n + new ≤ c ∧ kv_ok (<[request_id r := c]> v) k'
      end);
  kv_extend_law v k r c new lookahead scheduled :
    kv_ok v k → v !! request_id r = Some c → kv_ready r → 0 ≤ num_computed_tokens r ≤ c → num_tokens r ≤ mml →
    0 ≤ num_prompt_tokens r → 0 < new → 0 ≤ lookahead → num_computed_tokens r + new ≤ mml →
    runs (kv_allocate_slots r new 0 None lookahead false scheduled k) (λ '(res, r', k'),
      strip r' = strip r ∧ kv_ready r' ∧
      match res with
      | None => kv_ok v k'
      | Some _ => ∃ c, num_computed_tokens r + new ≤ c ∧ kv_ok (<[request_id r := c]> v) k'
      end);
  kv_free_law v k r : kv_ok v k → runs (kv_free r k) (kv_ok (delete (request_id r) v));
  kv_cache_law v k r c n :
    kv_ok v k → v !! request_id r = Some c → kv_ready r → 0 ≤ n ≤ c → n ≤ num_tokens r →
    runs (kv_cache_blocks r n k) (λ '(r', k'), kv_ok v k' ∧ strip r' = strip r ∧ kv_ready r');
  kv_stats_law v k r n : kv_ok v k → runs (kv_record_prefix_cache_stats r n k) (kv_ok v);
  kv_common_law v k rid : kv_ok v k → kv_ok v (kv_get_num_common_prefix_blocks rid k).2;
  kv_copies_law v k : kv_ok v k → runs (kv_take_copies k) (λ '(_, k'), kv_ok v k');
  kv_ids_law v k : kv_ok v k → kv_ok v (kv_take_new_block_ids k).2;
  kv_events_law v k : kv_ok v k → kv_ok v (kv_take_events k);
  kv_reset_law v k : kv_ok v k → runs (kv_reset_prefix_cache k) (λ '(done, k'), kv_ok v k' ∧ (v = ∅ → done = true));
}.

(** The promise of the encoder cache towards requests without encoder inputs. *)
Class EncLaws (E : Type) `{EncoderCacheOps E} : Type := {
  enc_ok : E → Prop;
  enc_free_law e r : mm_features r = [] → enc_ok e → runs (ec_free r e) enc_ok;
  enc_freed_law e : enc_ok e → enc_ok (ec_get_freed_mm_hashes e).2;
  enc_reset_law e : enc_ok e → enc_ok (ec_reset e);
}.

(** ** Tokens in flight

    The outputs of the model come back in the order in which the steps were
    scheduled.  Of one request, what has not come back is a queue: for each
    step the scheduled tokens, how many of them are drafts, and by how much the
    step lets the computed tokens run ahead of the known ones: by the drafts,
    or, under asynchronous scheduling, by the placeholders it left, which stand
    for the tokens that will be sampled. *)

Record Sent : Type := mkSent { sent_tokens : Z; sent_drafts : Z; sent_credit : Z }.

Definition tokens_of (q : list Sent) : Z := sumZ (sent_tokens <$> q).
Definition credits_of (q : list Sent) : Z := sumZ (sent_credit <$> q).

Section InFlight.
Variable cfg : Settings.
Implicit Types (e : Sent) (q : list Sent).

(** A step schedules at least one token, and no more drafts than tokens. *)
Definition sent_ok e : Prop :=
  0 < sent_tokens e ∧ 0 ≤ sent_drafts e ≤ sent_credit e ∧ sent_credit e ≤ sent_tokens e ∧
  if async_scheduling cfg then sent_credit e = num_sampled_tokens_per_step cfg + sent_drafts e ∨ sent_credit e = 0
  else sent_credit e = sent_drafts e.
Definition inflight_ok q : Prop := ∀ e, e ∈ q → sent_ok e.

Lemma tokens_cons e q : tokens_of (e :: q) = sent_tokens e + tokens_of q.
Proof. done. Qed.
Lemma credits_cons e q : credits_of (e :: q) = sent_credit e + credits_of q.
Proof. done. Qed.
Lemma tokens_app q q' : tokens_of (q ++ q') = tokens_of q + tokens_of q'.
Proof. unfold tokens_of. by rewrite fmap_app, sumZ_app. Qed.
Lemma credits_app q q' : credits_of (q ++ q') = credits_of q + credits_of q'.
Proof. unfold credits_of. by rewrite fmap_app, sumZ_app. Qed.

Lemma inflight_ok_cons e q : inflight_ok (e :: q) ↔ sent_ok e ∧ inflight_ok q.
Proof. unfold inflight_ok. setoid_rewrite elem_of_cons. naive_solver. Qed.

Lemma inflight_ok_app q q' : inflight_ok (q ++ q') ↔ inflight_ok q ∧ inflight_ok q'.
Proof. unfold inflight_ok. setoid_rewrite elem_of_app. naive_solver. Qed.

Lemma inflight_ok_take j q : inflight_ok q → inflight_ok (take j q).
Proof. rewrite <-(take_drop j q) at 1. by intros [? ?]%inflight_ok_app. Qed.

Lemma inflight_ok_drop j q : inflight_ok q → inflight_ok (drop j q).
Proof. rewrite <-(take_drop j q) at 1. by intros [? ?]%inflight_ok_app. Qed.

Lemma tokens_nonneg q : inflight_ok q → 0 ≤ tokens_of q.
Proof. induction q as [|e q IH]; [done|]. rewrite inflight_ok_cons, tokens_cons. intros [[? _] Hq%IH]. lia. Qed.

Lemma credits_bounds q : inflight_ok q → 0 ≤ credits_of q ≤ tokens_of q.
Proof.
  induction q as [|e q IH]; [done|]. rewrite inflight_ok_cons, credits_cons, tokens_cons. intros [(? & ? & ? & _) Hq%IH]. lia.
Qed.

(** No tokens are the tokens of no step. *)
Lemma tokens_zero q : inflight_ok q → tokens_of q = 0 → q = [].
Proof.
  destruct q as [|e q]; [done|]. rewrite inflight_ok_cons, tokens_cons. intros [[? _] Hq%tokens_nonneg]. lia.
Qed.
End InFlight.

(** ** The invariant *)

Section Invariant.
Context {K E : Type} `{!KVCache K, !EncoderCacheOps E} {mml : Z} {block_hasher : option BlockHasher}.
Context `{!KVLaws K mml block_hasher, !EncLaws E}.
Variable cfg : Settings.
Implicit Types (q : string → list Sent) (p : string → Z * Z) (w : list Request) (v : gmap string Z).
Implicit Types (reqs : gmap string Request) (run : list string) (k : K) (e : E) (r x : Request) (rid id : string).

(** What holds of every request a scheduler holds: it has no encoder inputs and
    its tokens fit the model. *)
Record request_ok r : Prop := {
  rq_text : mm_features r = [];
  rq_ready : kv_ready r;
  rq_tokens : 0 < num_tokens r ≤ mml;
  rq_prompt : 0 ≤ num_prompt_tokens r;
  rq_preemptions : 0 ≤ num_preemptions r;
  rq_params : pooling_params r = None → is_Some (sampling_params r);
}.

(** A running request: [flight] has not come back, [pending] was scheduled in
    the current step and is not counted yet, [slots] are its slots.  The first
    [j] steps of [flight] were scheduled before it was preempted. *)
Record running_ok (flight : list Sent) (pending : Z * Z) (slots : option Z) r : Prop := {
  run_status : status r = RUNNING;
  run_pending : 0 ≤ pending.2 ≤ pending.1;
  run_drafts : 0 < pending.2 → num_tokens r + num_output_placeholders r + pending.2 ≤ num_computed_tokens r + pending.1;
  run_room : ∃ c, slots = Some c ∧ num_computed_tokens r + pending.1 ≤ c;
  run_len : num_computed_tokens r + pending.1 ≤ mml;
  run_flight : ∃ j, (j ≤ length flight)%nat ∧ num_stale_output_tokens r = tokens_of (take j flight) ∧
    tokens_of (drop j flight) ≤ num_computed_tokens r ∧
    num_computed_tokens r + pending.1 ≤ num_tokens r + credits_of (drop j flight) + pending.2 ∧
    num_output_placeholders r = if async_scheduling cfg then credits_of (drop j flight) else 0;
  run_ahead : async_scheduling cfg = true →
    num_computed_tokens r + num_sampled_tokens_per_step cfg ≤ num_tokens r + num_output_placeholders r;
  run_spec : spec_token_ids r ≠ [] → num_computed_tokens r + pending.1 ≤ num_tokens r + num_output_placeholders r;
}.

(** A request that waits: new, or preempted. *)
Record waiting_ok (flight : list Sent) r : Prop := {
  wait_computed : num_computed_tokens r = 0;
  wait_placeholders : num_output_placeholders r = 0;
  wait_spec : spec_token_ids r = [];
  wait_stale : num_stale_output_tokens r = tokens_of flight;
  wait_status : (status r = PREEMPTED ∧ 0 < num_preemptions r) ∨
    ((status r = WAITING ∨ status r = WAITING_FOR_STRUCTURED_OUTPUT_GRAMMAR) ∧ num_tokens r = num_prompt_tokens r ∧ flight = []);
}.

(** The requests [reqs] are those that run ([run]) and those that are queued
    ([w]), and the ones that run have slots in [k]. *)
Record core q p w v reqs run k e : Prop := {
  co_kv : kv_ok v k;
  co_enc : enc_ok e;
  co_nodup : NoDup (run ++ (request_id <$> w));
  co_dom id : is_Some (reqs !! id) ↔ id ∈ run ++ (request_id <$> w);
  co_inj id1 id2 r1 r2 : reqs !! id1 = Some r1 → reqs !! id2 = Some r2 → py_id r1 = py_id r2 → id1 = id2;
  co_req id r : reqs !! id = Some r →
    request_id r = id ∧ request_ok r ∧ num_in_flight_tokens r = tokens_of (q id) ∧ inflight_ok cfg (q id);
  co_run id r : id ∈ run → reqs !! id = Some r → running_ok (q id) (p id) (v !! id) r;
  co_wait x r : x ∈ w → reqs !! request_id x = Some r → py_id x = py_id r ∧ waiting_ok (q (request_id x)) r;
  co_slots id : id ∉ run → v !! id = None;
}.
Arguments co_kv {q p w v reqs run k e} _.
Arguments co_enc {q p w v reqs run k e} _.
Arguments co_nodup {q p w v reqs run k e} _.
Arguments co_dom {q p w v reqs run k e} _.
Arguments co_inj {q p w v reqs run k e} _.
Arguments co_req {q p w v reqs run k e} _.
Arguments co_run {q p w v reqs run k e} _.
Arguments co_wait {q p w v reqs run k e} _.
Arguments co_slots {q p w v reqs run k e} _.

Lemma core_queued q p w v reqs run k e x :
  core q p w v reqs run k e → x ∈ w → ∃ r, reqs !! request_id x = Some r ∧ request_id r = request_id x ∧ py_id r = py_id x ∧
    request_ok r ∧ waiting_ok (q (request_id x)) r ∧ (request_id x ∉ run) ∧ v !! request_id x = None.
Proof.
  intros Hc Hx. assert (Hid : request_id x ∈ request_id <$> w) by by apply list_elem_of_fmap_2.
  destruct (proj2 (co_dom Hc (request_id x))) as [r Hr]; [apply elem_of_app; by right|]. exists r.
  destruct (co_req Hc _ _ Hr) as (? & ? & _ & _). destruct (co_wait Hc _ _ Hx Hr) as [? ?].
  assert (Hn : request_id x ∉ run).
  { intros Hrun. pose proof (co_nodup Hc) as (_ & Hd & _)%NoDup_app. by apply (Hd _ Hrun). }
  split_and!; try done. by apply (co_slots Hc).
Qed.

Lemma core_running q p w v reqs run k e rid :
  core q p w v reqs run k e → rid ∈ run → ∃ r, reqs !! rid = Some r ∧ request_id r = rid ∧ request_ok r ∧
    running_ok (q rid) (p rid) (v !! rid) r ∧ (rid ∉ request_id <$> w).
Proof.
  intros Hc Hx. destruct (proj2 (co_dom Hc rid)) as [r Hr]; [apply elem_of_app; by left|]. exists r.
  destruct (co_req Hc _ _ Hr) as (? & ? & _ & _). pose proof (co_run Hc _ _ Hx Hr).
  pose proof (co_nodup Hc) as (_ & Hd & _)%NoDup_app. split_and!; auto.
Qed.

(** One request changes, and may move between the queues and [run]. *)
Lemma core_change q p w v reqs run k e q' p' w' v' run' k' e' rid r r' :
  core q p w v reqs run k e → kv_ok v' k' → enc_ok e' →
  reqs !! rid = Some r → request_id r' = rid → py_id r' = py_id r → request_ok r' →
  num_in_flight_tokens r' = tokens_of (q' rid) → inflight_ok cfg (q' rid) →
  (∀ id, id ≠ rid → q' id = q id ∧ p' id = p id ∧ v' !! id = v !! id) →
  run' ++ (request_id <$> w') ≡ₚ run ++ (request_id <$> w) →
  (∀ id, id ≠ rid → id ∈ run' → id ∈ run) →
  (∀ x, x ∈ w' → request_id x ≠ rid → x ∈ w) →
  (∀ x, x ∈ w' → request_id x = rid → py_id x = py_id r) →
  (rid ∈ run' → running_ok (q' rid) (p' rid) (v' !! rid) r') →
  (rid ∉ run' → waiting_ok (q' rid) r' ∧ v' !! rid = None) →
  core q' p' w' v' (<[rid:=r']> reqs) run' k' e'.
Proof.
  intros Hc Hk He Hr Hid Hpy Hok Hfl Hin Hoth Hperm Hrun Hw Hwr Hrr Hrw.
  assert (Hnd : NoDup (run' ++ (request_id <$> w'))) by (rewrite Hperm; apply Hc).
  split; [done|done|done| | | | | |].
  - intros id. rewrite Hperm, <-(co_dom Hc). destruct (decide (id = rid)) as [->|Hne];
      [rewrite lookup_insert_eq, Hr; split; by eexists|by rewrite lookup_insert_ne].
  - assert (Hget : ∀ id r1, <[rid:=r']> reqs !! id = Some r1 → ∃ r0, reqs !! id = Some r0 ∧ py_id r0 = py_id r1).
    { intros id r1. destruct (decide (id = rid)) as [->|Hne]; [rewrite lookup_insert_eq; intros [= <-]; by exists r|].
      rewrite lookup_insert_ne by done. by exists r1. }
    intros id1 id2 r1 r2 (s1 & H1 & E1)%Hget (s2 & H2 & E2)%Hget HE. eapply (co_inj Hc); [done|done|congruence].
  - intros id r0. destruct (decide (id = rid)) as [->|Hne]; [rewrite lookup_insert_eq; by intros [= <-]|].
    rewrite lookup_insert_ne by done. destruct (Hoth id Hne) as (-> & _ & _). apply Hc.
  - intros id r0 Hi. destruct (decide (id = rid)) as [->|Hne]; [rewrite lookup_insert_eq; intros [= <-]; by apply Hrr|].
    rewrite lookup_insert_ne by done. destruct (Hoth id Hne) as (-> & -> & ->). apply Hc. by apply Hrun.
  - intros x r0 Hi. destruct (decide (request_id x = rid)) as [Heq|Hne].
    + rewrite Heq, lookup_insert_eq. intros [= <-]. split; [rewrite Hpy; by apply Hwr|]. apply Hrw.
      intros Hx. apply NoDup_app in Hnd as (_ & Hd & _). apply (Hd _ Hx). rewrite <-Heq. by apply list_elem_of_fmap_2.
    + rewrite lookup_insert_ne by done. destruct (Hoth _ Hne) as (-> & _ & _). apply Hc. by apply Hw.
  - intros id Hi. destruct (decide (id = rid)) as [->|Hne]; [by apply Hrw|]. destruct (Hoth id Hne) as (_ & _ & ->).
    apply (co_slots Hc). intros Hrid. assert (Hin' : id ∈ run' ++ (request_id <$> w')) by (rewrite Hperm; apply elem_of_app; by left).
    apply elem_of_app in Hin' as [?|(x & -> & Hx)%list_elem_of_fmap]; [done|].
    destruct (core_queued _ _ _ _ _ _ _ _ x Hc (Hw x Hx Hne)) as (_ & _ & _ & _ & _ & _ & Hnot & _). done.
Qed.

(** The running list and the queues are reordered, and the caches change
    without serving anything new. *)
Lemma core_perm q p w v reqs run k e w' run' k' e' :
  core q p w v reqs run k e → w' ≡ₚ w → run' ≡ₚ run → kv_ok v k' → enc_ok e' → core q p w' v reqs run' k' e'.
Proof.
  intros Hc Hw Hrun Hk He. split; try done; try apply Hc.
  - rewrite Hw, Hrun. apply Hc.
  - intros id. rewrite Hw, Hrun. apply Hc.
  - intros id r. rewrite Hrun. apply Hc.
  - intros x r. rewrite Hw. apply Hc.
  - intros id. rewrite Hrun. apply Hc.
Qed.

Lemma core_ext q q' p p' w v reqs run k e :
  core q p w v reqs run k e → (∀ id, q' id = q id) → (∀ id, p' id = p id) → core q' p' w v reqs run k e.
Proof.
  intros Hc Hq Hp. split; try apply Hc.
  - intros id r. rewrite Hq. apply Hc.
  - intros id r. rewrite Hq, Hp. apply Hc.
  - intros x r. rewrite Hq. apply Hc.
Qed.

(** A queue is read only for the ids and the identities of its requests. *)
Definition entry x := (request_id x, py_id x).

Lemma core_requeue q p w v reqs run k e w' :
  core q p w v reqs run k e → entry <$> w' ≡ₚ entry <$> w → core q p w' v reqs run k e.
Proof.
  intros Hc Hw. assert (Hids : request_id <$> w' ≡ₚ request_id <$> w).
  { change request_id with (fst ∘ entry). rewrite !list_fmap_compose. by rewrite Hw. }
  split; try apply Hc.
  - rewrite Hids. apply Hc.
  - intros id. rewrite Hids. apply Hc.
  - intros x r Hx Hr. assert (Hx' : entry x ∈ entry <$> w) by (rewrite <-Hw; by apply list_elem_of_fmap_2).
    apply list_elem_of_fmap in Hx' as (y & [= E1 E2] & Hy). rewrite E1 in Hr |- *. rewrite E2. by apply Hc.
Qed.

Lemma core_pending q p p' w v reqs run k e : core q p w v reqs run k e → (∀ id, id ∈ run → p' id = p id) → core q p' w v reqs run k e.
Proof. intros Hc Hp. split; try apply Hc. intros id r Hi Hr. rewrite Hp by done. by apply Hc. Qed.

(** One request changes where it is. *)
Lemma core_update q p w v reqs run k e q' p' v' k' e' rid r r' :
  core q p w v reqs run k e → kv_ok v' k' → enc_ok e' →
  reqs !! rid = Some r → request_id r' = rid → py_id r' = py_id r → request_ok r' →
  num_in_flight_tokens r' = tokens_of (q' rid) → inflight_ok cfg (q' rid) →
  (∀ id, id ≠ rid → q' id = q id ∧ p' id = p id ∧ v' !! id = v !! id) →
  (rid ∈ run → running_ok (q' rid) (p' rid) (v' !! rid) r') →
  (rid ∉ run → waiting_ok (q' rid) r' ∧ v' !! rid = None) →
  core q' p' w v' (<[rid:=r']> reqs) run k' e'.
Proof.
  intros Hc Hk He Hr Hid Hpy Hok Hfl Hin Hoth Hrr Hrw.
  apply (core_change q p w v reqs run k e q' p' w v' run k' e' rid r r'); try done.
  intros x Hx Heq. rewrite <-Heq in Hr. by destruct (co_wait Hc _ _ Hx Hr).
Qed.

(** A running request is preempted. *)
Lemma core_preempt q p w v reqs run k e run' k' e' rid r r' :
  core q p w v reqs run k e → run ≡ₚ rid :: run' → kv_ok (delete rid v) k' → enc_ok e' →
  reqs !! rid = Some r → request_id r' = rid → py_id r' = py_id r → request_ok r' →
  num_in_flight_tokens r' = num_in_flight_tokens r → waiting_ok (q rid) r' →
  core q p (r' :: w) (delete rid v) (<[rid:=r']> reqs) run' k' e'.
Proof.
  intros Hc Hrun Hk He Hr Hid Hpy Hok Hfl Hwait.
  pose proof (co_nodup Hc) as Hnd. rewrite Hrun in Hnd. apply NoDup_cons in Hnd as [Hnot _].
  rewrite not_elem_of_app in Hnot. destruct Hnot as [Hnot1 Hnot2]. destruct (co_req Hc _ _ Hr) as (_ & _ & Hfl0 & Hin).
  apply (core_change q p w v reqs run k e q p (r' :: w) (delete rid v) run' k' e' rid r r'); try done.
  - by rewrite Hfl.
  - intros id Hne. split_and!; [done..|]. by rewrite lookup_delete_ne.
  - rewrite Hrun, fmap_cons, Hid. by rewrite <-Permutation_middle.
  - intros id _ Hi. rewrite Hrun. by right.
  - intros x [->|Hx]%elem_of_cons Hne; done.
  - intros x [->|Hx]%elem_of_cons Heq; [done|]. exfalso. apply Hnot2. rewrite <-Heq. by apply list_elem_of_fmap_2.
  - intros _. split; [done|]. apply lookup_delete_eq.
Qed.

(** A queued request is admitted. *)
Lemma core_admit q p w v reqs run k e p' w' v' k' e' x r r' :
  core q p w v reqs run k e → w ≡ₚ x :: w' → kv_ok v' k' → enc_ok e' →
  reqs !! request_id x = Some r → request_id r' = request_id x → py_id r' = py_id r → request_ok r' →
  num_in_flight_tokens r' = num_in_flight_tokens r →
  (∀ id, id ≠ request_id x → p' id = p id ∧ v' !! id = v !! id) →
  running_ok (q (request_id x)) (p' (request_id x)) (v' !! request_id x) r' →
  core q p' w' v' (<[request_id x:=r']> reqs) (run ++ [request_id x]) k' e'.
Proof.
  intros Hc Hw Hk He Hr Hid Hpy Hok Hfl Hoth Hrr. destruct (co_req Hc _ _ Hr) as (_ & _ & Hfl0 & Hin).
  pose proof (co_nodup Hc) as Hnd. rewrite Hw, fmap_cons, <-Permutation_middle in Hnd. apply NoDup_cons in Hnd as [Hnot _].
  rewrite not_elem_of_app in Hnot. destruct Hnot as [Hnot1 Hnot2].
  apply (core_change q p w v reqs run k e q p' w' v' (run ++ [request_id x]) k' e' (request_id x) r r'); try done.
  - by rewrite Hfl.
  - intros id Hne. split; [done|]. by apply Hoth.
  - rewrite Hw, fmap_cons, <-app_assoc. simpl. done.
  - intros id Hne. rewrite elem_of_app, list_elem_of_singleton. naive_solver.
  - intros y Hy _. rewrite Hw. by right.
  - intros y Hy Heq. exfalso. apply Hnot2. rewrite <-Heq. by apply list_elem_of_fmap_2.
  - intros Hn. exfalso. apply Hn, elem_of_app. right. by left.
Qed.

(** A request is dropped. *)
Lemma core_remove q p w v reqs run k e w' run' k' e' rid :
  core q p w v reqs run k e → (rid ∈ run ++ (request_id <$> w)) → run ++ (request_id <$> w) ≡ₚ rid :: (run' ++ (request_id <$> w')) →
  (∀ id, id ∈ run' → id ∈ run) → (∀ x, x ∈ w' → x ∈ w) →
  kv_ok (delete rid v) k' → enc_ok e' → core q p w' (delete rid v) (delete rid reqs) run' k' e'.
Proof.
  intros Hc Hin Hperm Hrun Hw Hk He.
  pose proof (co_nodup Hc) as Hnd. rewrite Hperm in Hnd. apply NoDup_cons in Hnd as [Hnot Hnd].
  split; try done.
  - intros id. destruct (decide (id = rid)) as [->|Hne]; [rewrite lookup_delete_eq; split; [by intros [? ?]|done]|].
    rewrite lookup_delete_ne, (co_dom Hc), Hperm, elem_of_cons by done. naive_solver.
  - intros id1 id2 r1 r2 [_ H1]%lookup_delete_Some [_ H2]%lookup_delete_Some. by apply (co_inj Hc).
  - intros id r [_ Hr]%lookup_delete_Some. by apply Hc.
  - intros id r Hi [Hne Hr]%lookup_delete_Some. rewrite lookup_delete_ne by done. apply Hc; auto.
  - intros x r Hx [_ Hr]%lookup_delete_Some. apply Hc; auto.
  - intros id Hi. destruct (decide (id = rid)) as [->|Hne]; [apply lookup_delete_eq|]. rewrite lookup_delete_ne by done.
    apply (co_slots Hc). intros Hrid. assert (Hin' : id ∈ rid :: (run' ++ (request_id <$> w'))) by (rewrite <-Hperm; apply elem_of_app; by left).
    apply elem_of_cons in Hin' as [?|[?|(x & -> & Hx)%list_elem_of_fmap]%elem_of_app]; [done..|].
    destruct (core_queued _ _ _ _ _ _ _ _ x Hc (Hw x Hx)) as (_ & _ & _ & _ & _ & _ & Hn & _). done.
Qed.

(** A new request is queued. *)
Lemma core_add q p w v reqs run k e r :
  core q p w v reqs run k e → reqs !! request_id r = None → q (request_id r) = [] →
  (∀ id r0, reqs !! id = Some r0 → py_id r0 ≠ py_id r) → request_ok r → num_in_flight_tokens r = 0 → waiting_ok [] r →
  core q p (r :: w) v (<[request_id r:=r]> reqs) run k e.
Proof.
  intros Hc Hnone Hq Hpy Hok Hfl Hwait.
  assert (Hnot : request_id r ∉ run ++ (request_id <$> w)) by (rewrite <-(co_dom Hc), Hnone; by intros [? ?]).
  split; try apply Hc.
  - rewrite fmap_cons, <-Permutation_middle. apply NoDup_cons. split; [done|apply Hc].
  - intros id. rewrite fmap_cons, <-Permutation_middle, elem_of_cons. destruct (decide (id = request_id r)) as [->|Hne].
    + rewrite lookup_insert_eq. split; [by left|by eexists].
    + rewrite lookup_insert_ne, (co_dom Hc) by done. naive_solver.
  - intros id1 id2 r1 r2 H1 H2 HE. apply lookup_insert_Some in H1 as [[<- <-]|[? H1]], H2 as [[<- <-]|[? H2]]; try done.
    + by destruct (Hpy _ _ H2).
    + by destruct (Hpy _ _ H1).
    + by apply (co_inj Hc _ _ _ _ H1 H2).
  - intros id r0 [[<- <-]|[? H1]]%lookup_insert_Some; [|by apply (co_req Hc)].
    rewrite Hq. split_and!; try done. by intros y ?%elem_of_nil.
  - intros id r0 Hid. rewrite lookup_insert_ne; [by apply Hc|]. intros <-. apply Hnot, elem_of_app. by left.
  - intros x r0 [->|Hx]%elem_of_cons; [rewrite lookup_insert_eq; intros [= <-]; by rewrite Hq|].
    rewrite lookup_insert_ne; [by apply Hc|]. intros Heq. apply Hnot, elem_of_app. right. rewrite Heq. by apply list_elem_of_fmap_2.
Qed.

(** All running requests that were scheduled change at once. *)
Lemma core_counted q p w v reqs run k e (X : list string) (f : string → Sent) (g : string → Request → Request) reqs' :
  core q p w v reqs run k e → X ⊆ run → (∀ id, id ∉ X → p id = (0, 0)) →
  (∀ id, reqs' !! id = if decide (id ∈ X) then g id <$> reqs !! id else reqs !! id) →
  (∀ id r, id ∈ X → reqs !! id = Some r → request_ok r → inflight_ok cfg (q id) → running_ok (q id) (p id) (v !! id) r →
    (request_id (g id r), py_id (g id r)) = (request_id r, py_id r) ∧ request_ok (g id r) ∧
    num_in_flight_tokens (g id r) = num_in_flight_tokens r + sent_tokens (f id) ∧ sent_ok cfg (f id) ∧
    running_ok (q id ++ [f id]) (0, 0) (v !! id) (g id r)) →
  core (λ id, if decide (id ∈ X) then q id ++ [f id] else q id) (λ _, (0, 0)) w v reqs' run k e.
Proof.
  intros Hc HX Hp Hreqs Hg.
  assert (Hget : ∀ id r', reqs' !! id = Some r' → ∃ r, reqs !! id = Some r ∧ r' = if decide (id ∈ X) then g id r else r).
  { intros id r'. rewrite Hreqs. case_decide; [|by exists r']. intros (r & Hr & ->)%fmap_Some. by exists r. }
  assert (Hgood : ∀ id r, id ∈ X → reqs !! id = Some r → (request_id (g id r), py_id (g id r)) = (request_id r, py_id r) ∧ request_ok (g id r) ∧
    num_in_flight_tokens (g id r) = num_in_flight_tokens r + sent_tokens (f id) ∧ sent_ok cfg (f id) ∧ running_ok (q id ++ [f id]) (0, 0) (v !! id) (g id r)).
  { intros id r Hid Hr. destruct (co_req Hc _ _ Hr) as (_ & ? & _ & ?). apply Hg; try done. apply Hc; auto. }
  assert (Hpy : ∀ id r, reqs !! id = Some r → py_id (if decide (id ∈ X) then g id r else r) = py_id r).
  { intros id r Hr. case_decide as Hid; [|done]. by destruct (Hgood id r Hid Hr) as ([= _ ?] & _). }
  split; try apply Hc.
  - intros id. rewrite Hreqs, <-(co_dom Hc). case_decide; [by rewrite fmap_is_Some|done].
  - intros id1 id2 r1 r2 (s1 & H1 & ->)%Hget (s2 & H2 & ->)%Hget. rewrite !Hpy by done. by apply Hc.
  - intros id r' (r & Hr & ->)%Hget. destruct (co_req Hc _ _ Hr) as (G1 & G2 & G3 & G4). case_decide as Hid; [|done].
    destruct (Hgood id r Hid Hr) as ([= E1 E2] & Hok & Hfl & Hs & _). rewrite tokens_app, Hfl, G3, E1. split_and!; [done|done|unfold tokens_of at 3; simpl; lia|].
    apply inflight_ok_app. split; [done|]. apply inflight_ok_cons. split; [done|by intros ? ?%elem_of_nil].
  - intros id r' Hi (r & Hr & ->)%Hget. case_decide as Hid; [by apply Hgood|]. rewrite <-(Hp id Hid). by apply Hc.
  - intros x r' Hx (r & Hr & ->)%Hget. destruct (core_queued _ _ _ _ _ _ _ _ x Hc Hx) as (_ & _ & _ & _ & _ & _ & Hn & _).
    assert (Hnx : request_id x ∉ X) by (intros ?; by apply Hn, HX). rewrite !decide_False by done. by apply Hc.
Qed.

(** A request that runs is not in a queue. *)
Lemma core_fresh q p w v reqs run k e rid r :
  core q p w v reqs run k e → rid ∈ run → reqs !! rid = Some r → py_id r ∉ py_id <$> w.
Proof.
  intros Hc Hrun Hr (x & Hpy & Hx)%list_elem_of_fmap. destruct (core_queued _ _ _ _ _ _ _ _ x Hc Hx) as (r' & Hr' & _ & Hpy' & _ & _ & Hn & _).
  apply Hn. by rewrite (co_inj Hc _ _ _ _ Hr' Hr) by congruence.
Qed.

Lemma core_identities q p w v reqs run k e : core q p w v reqs run k e → NoDup (py_id <$> w).
Proof.
  intros Hc. pose proof (co_nodup Hc) as (_ & _ & Hnd)%NoDup_app. apply NoDup_alt. pose proof (proj1 (NoDup_alt _) Hnd) as Hnd'. intros i j z Hi Hj.
  apply list_lookup_fmap_Some in Hi as (x & -> & Hx), Hj as (y & Hxy & Hy).
  destruct (core_queued _ _ _ _ _ _ _ _ x Hc (list_elem_of_lookup_2 _ _ _ Hx)) as (rx & Hrx & Hix & Hpx & _).
  destruct (core_queued _ _ _ _ _ _ _ _ y Hc (list_elem_of_lookup_2 _ _ _ Hy)) as (ry & Hry & Hiy & Hpy & _).
  pose proof (co_inj Hc _ _ _ _ Hrx Hry ltac:(congruence)) as Eid. apply (Hnd' i j (request_id x)); rewrite list_lookup_fmap.
  - by rewrite Hx.
  - rewrite Hy. simpl. by rewrite Eid.
Qed.

(** *** Requests up to the memo of their embeddings *)

Lemma strip_eq r r' : strip r' = strip r → ∃ m, r' = set_prompt_embeds_per_block_hashes m r.
Proof. intros H. exists (prompt_embeds_per_block_hashes r'). destruct r, r'. unfold strip in H. injection H. intros. by subst. Qed.

Lemma request_ok_memo r r' : strip r' = strip r → kv_ready r' → request_ok r → request_ok r'.
Proof. intros [m ->]%strip_eq Hr [H1 H2 H3 H4 H5 H6]. by split. Qed.

Lemma running_ok_memo fl pd c r r' : strip r' = strip r → running_ok fl pd c r → running_ok fl pd c r'.
Proof. intros [m ->]%strip_eq [H1 H2 H3 H4 H5 H6 H7 H8]. by split. Qed.

Lemma waiting_ok_memo fl r r' : strip r' = strip r → waiting_ok fl r → waiting_ok fl r'.
Proof. intros [m ->]%strip_eq [H1 H2 H3 H4 H5]. by split. Qed.

(** The fields a step changes leave the request as good. *)
Lemma request_ok_content r r' :
  content r' = content r → (num_prompt_tokens r', pooling_params r', sampling_params r') =
    (num_prompt_tokens r, pooling_params r, sampling_params r) → 0 ≤ num_preemptions r' → request_ok r → request_ok r'.
Proof.
  intros Hc [= H1 H2 H3] Hp [G1 G2 G3 G4 G5 G6]. pose proof Hc as [= E1 E2 E3 E4 E5 E6 E7].
  split; unfold num_tokens in *; rewrite ?E1, ?E5, ?H1, ?H2, ?H3; try done. by eapply kv_ready_content.
Qed.
End Invariant.
Arguments co_kv {K E _ _ _ _ _ _ cfg q p w v reqs run k e} _.
Arguments co_enc {K E _ _ _ _ _ _ cfg q p w v reqs run k e} _.
Arguments co_nodup {K E _ _ _ _ _ _ cfg q p w v reqs run k e} _.
Arguments co_dom {K E _ _ _ _ _ _ cfg q p w v reqs run k e} _.
Arguments co_inj {K E _ _ _ _ _ _ cfg q p w v reqs run k e} _.
Arguments co_req {K E _ _ _ _ _ _ cfg q p w v reqs run k e} _.
Arguments co_run {K E _ _ _ _ _ _ cfg q p w v reqs run k e} _.
Arguments co_wait {K E _ _ _ _ _ _ cfg q p w v reqs run k e} _.
Arguments co_slots {K E _ _ _ _ _ _ cfg q p w v reqs run k e} _.
Arguments core_queued {K E _ _ _ _ _ _ cfg q p w v reqs run k e} _.
Arguments core_running {K E _ _ _ _ _ _ cfg q p w v reqs run k e} _.
Arguments core_fresh {K E _ _ _ _ _ _ cfg q p w v reqs run k e} _.
Arguments core_identities {K E _ _ _ _ _ _ cfg q p w v reqs run k e} _.

(** ** The settings and a step *)

(** A scheduler without adapters, whose steps sample at most one token for a
    request besides the drafts.  Padded requests are not cut by the threshold for
    long prefills. *)
Record settings_ok (cfg : Settings) (mml : Z) : Prop := {
  st_mml : sched_max_model_len cfg = mml;
  st_sampled : 0 ≤ num_sampled_tokens_per_step cfg ≤ 1;
  st_drafting : 0 ≤ max_num_new_slots_for_drafting cfg;
  st_spec : 0 ≤ num_spec_tokens cfg;
  st_lookahead : 0 ≤ num_lookahead_tokens cfg;
  st_budget : 0 ≤ max_num_scheduled_tokens cfg ∧ 0 ≤ sched_max_num_batched_tokens cfg;
  st_running : 0 ≤ max_num_running_reqs cfg;
  st_loras : max_loras cfg = None;
  st_threshold : long_prefill_token_threshold cfg ≤ 0 ∨ 1 + num_spec_tokens cfg ≤ long_prefill_token_threshold cfg;
  st_dynamic : match dynamic_sd_lookup cfg with Some l => max_num_running_reqs cfg < py_len l | None => True end;
}.

(** What the step has given to a request: tokens, and the drafts among them. *)
Definition pend (st : Step) (id : string) : Z * Z :=
  (default 0 (od_get (num_scheduled_tokens st) id), py_len (default [] (od_get (scheduled_spec_decode_tokens st) id))).

Definition scheduled (st : Step) : list string := od_keys (num_scheduled_tokens st).

(** The local variables of [schedule] agree: each scheduled request is listed
    once and has tokens and blocks, and what was given out is gone from the
    budgets. *)
Record step_ok (cfg : Settings) (budget : Z) (st : Step) : Prop := {
  sp_lists : scheduled st ≡ₚ scheduled_running_reqs st ++ scheduled_new_reqs st ++ scheduled_resumed_reqs st;
  sp_blocks : od_keys (req_to_new_blocks st) ≡ₚ scheduled st;
  sp_nodup : NoDup (scheduled st);
  sp_pos x : x ∈ num_scheduled_tokens st → 0 < x.2;
  sp_drafts : od_keys (scheduled_spec_decode_tokens st) ⊆ scheduled st;
  sp_drafts_nodup : NoDup (od_keys (scheduled_spec_decode_tokens st));
  sp_inputs : scheduled_encoder_inputs st = [];
  sp_tokens : 0 ≤ token_budget st ∧ token_budget st + sumZ (num_scheduled_tokens st).*2 = budget;
  sp_slots : 0 ≤ input_budget st ∧
    input_budget st + sumZ (num_scheduled_tokens st).*2 + py_len (scheduled st) * max_num_new_slots_for_drafting cfg = sched_max_num_batched_tokens cfg;
}.
