(* ===== verification/SchedulerStep.v ===== *)
(** * The scheduler: a step

    [schedule] keeps the invariant of [SchedulerSpec], passes every assertion
    on its way, and hands out what its budgets allow.  First the running
    requests with preemption, then the waiting ones, then the output. *)

From S2P Require Import Prelude FreeQueue Request BlockHash EncoderCache RequestQueue SchedUtils KVCacheManager Scheduler SchedulerSpec.
Local Open Scope Z_scope.

Section Step.
Context {K E Q : Type} `{!KVCache K, !EncoderCacheOps E, !RequestQueue Q} {P : policy}.
Context `{!QueueRefines Q P, !PolicyPerm P} {mml : Z} {block_hasher : option BlockHasher}.
Context `{!KVLaws K mml block_hasher, !EncLaws E}.
Variable cfg : Settings.
Hypothesis Hcfg : settings_ok cfg mml.
(** What has not come back yet, for every request. *)
Variable q : string → list Sent.
Implicit Types (s : Scheduler K E Q) (st : Step) (r : Request) (rid id : string) (v : gmap string Z).

(** What scheduling leaves of a request. *)
Definition fixed r := (py_id r, request_id r, priority r, arrival_time r, max_tokens r, all_token_ids r, output_token_ids r).
Definition fixed_of s id := fixed <$> requests s !! id.

(** The fields that the two phases leave alone. *)
Definition kept_fields s := (finished_req_ids s, current_step s, pause_state s, prev_step_scheduled_req_ids s).

(** *** Preempting a request *)

Lemma preempted_ok drop fl r :
  request_ok r → num_in_flight_tokens r = tokens_of fl → request_ok (preempted drop r) ∧ waiting_ok fl (preempted drop r).
Proof.
  intros Hr Hfl. pose proof (rq_preemptions _ Hr). split.
  - apply (request_ok_content r); simpl; try done. lia.
  - split; try done. left. simpl. split; [done|lia].
Qed.

Lemma preempt_spec p w v s run run' rid drop lw ls :
  core cfg q p w v (requests s) run (kv s) (enc s) → w = lw ++ ls → represents (waiting s) lw → run ≡ₚ rid :: run' →
  runs (_preempt_request rid drop s) (λ s', ∃ lw', represents (waiting s') lw' ∧
    core cfg q p (lw' ++ ls) (delete rid v) (requests s') run' (kv s') (enc s') ∧
    running s' = running s ∧ skipped_waiting s' = skipped_waiting s ∧ kept_fields s' = kept_fields s ∧ (∀ id, fixed_of s' id = fixed_of s id) ∧
    ∀ id, id ≠ rid → requests s' !! id = requests s !! id).
Proof.
  intros Hc -> Hlw Hrun. assert (Hin : rid ∈ run) by (rewrite Hrun; left).
  destruct (core_running _ Hc Hin) as (r & Hr & Hid & Hok & Hro & Hnw).
  destruct (co_req Hc _ _ Hr) as (_ & _ & Hfl & _). destruct (preempted_ok drop (q rid) r Hok Hfl) as [Hok' Hw'].
  unfold _preempt_request, the_request. rewrite Hr. cbn [unwrap mbind result_bind].
  rewrite (bool_decide_true _ (run_status _ _ _ _ _ Hro)). cbn [py_assert mbind result_bind].
  eapply runs_bind; [by apply (kv_free_law v), Hc|]. intros k Hk. rewrite Hid in Hk.
  eapply runs_bind; [apply enc_free_law; [apply Hok|apply Hc]|]. intros e He.
  eapply runs_bind; [apply (rep_prepend (waiting s) lw (preempted drop r)); [done|]|].
  { intros Hx. apply (core_fresh _ _ Hc Hin Hr). rewrite fmap_app, elem_of_app. by left. }
  intros wq Hwq. cbn [runs]. exists (requeue P (preempted drop r) lw). split; [done|].
  assert (Hreqs : requests (put_request (preempted drop r) s) = <[rid:=preempted drop r]> (requests s)) by (rewrite <-Hid; done).
  cbn [requests set_reset_preempted_req_ids set_inflight_prefills set_waiting set_kv set_enc]. rewrite Hreqs.
  split_and!; [|done|done|done| |].
  - eapply (core_perm _ _ _ (preempted drop r :: (lw ++ ls))); [|by rewrite requeue_perm|done|done|done].
    by eapply core_preempt.
  - intros id. unfold fixed_of. cbn [requests set_reset_preempted_req_ids set_inflight_prefills set_waiting set_kv set_enc]. rewrite Hreqs. destruct (decide (id = rid)) as [->|Hne]; [by rewrite lookup_insert_eq, Hr|by rewrite lookup_insert_ne].
  - intros id Hne. by rewrite lookup_insert_ne.
Qed.

(** *** The victim *)

Lemma max_request_spec rs :
  rs ≠ [] → runs (max_request rs) (λ m, m ∈ rs ∧ ∀ x, x ∈ rs → key_lt m x = false).
Proof.
  destruct rs as [|r rs]; [done|]. intros _. simpl. revert r. induction rs as [|y rs IH]; intros r.
  - split; [left|]. intros x ->%list_elem_of_singleton. unfold key_lt. rewrite !Z.ltb_irrefl. by rewrite andb_false_r.
  - simpl. destruct (IH (if key_lt r y then y else r)) as [Hin Hmax]. split.
    + apply elem_of_cons in Hin as [Heq|?]; [|by right; right]. rewrite Heq. destruct (key_lt r y); [right; left|left].
    + intros x [->|[->|Hx]%elem_of_cons]%elem_of_cons; [| |by apply Hmax; right].
      all: specialize (Hmax _ (list_elem_of_here _ _)); destruct (key_lt r y) eqn:Elt; try done.
      all: unfold key_lt in *; repeat first [rewrite orb_false_iff in *|rewrite orb_true_iff in *|rewrite andb_false_iff in *|rewrite andb_true_iff in *|
        rewrite Z.ltb_lt in *|rewrite Z.ltb_ge in *|rewrite Z.eqb_eq in *|rewrite Z.eqb_neq in *]; lia.
Qed.

(** A step that takes back what it gave to [rid]. *)
Record unscheduled rid st st' : Prop := {
  us_running : scheduled_running_reqs st' = filter (λ x, x ≠ rid) (scheduled_running_reqs st);
  us_others : (scheduled_new_reqs st', scheduled_resumed_reqs st', preempted_reqs st') =
    (scheduled_new_reqs st, scheduled_resumed_reqs st, preempted_reqs st);
  us_pend id : id ≠ rid → pend st' id = pend st id;
  us_budget : token_budget st ≤ token_budget st' ∧ input_budget st ≤ input_budget st';
}.

Lemma unschedule_spec budget r st :
  step_ok cfg budget st → request_id r ∈ scheduled_running_reqs st →
  runs (unschedule cfg r st) (λ st', step_ok cfg budget st' ∧ unscheduled (request_id r) st st' ∧ req_index st' = req_index st).
Proof.
  intros Hst Hin. set (rid := request_id r) in *.
  assert (Hs : rid ∈ scheduled st) by (rewrite (sp_lists _ _ _ Hst); apply elem_of_app; by left).
  apply od_get_keys in Hs as Hn. destruct Hn as [n Hn]. apply od_del_perm in Hn as Hnp.
  assert (Hb : rid ∈ od_keys (req_to_new_blocks st)) by by rewrite (sp_blocks _ _ _ Hst).
  apply od_get_keys in Hb as [b Hb]. apply od_del_perm in Hb as Hbp.
  assert (Hk1 : scheduled st ≡ₚ rid :: od_keys (od_del (num_scheduled_tokens st) rid)) by (unfold scheduled, od_keys; by rewrite Hnp at 1).
  assert (Hk2 : od_keys (req_to_new_blocks st) ≡ₚ rid :: od_keys (od_del (req_to_new_blocks st) rid)) by (unfold od_keys; by rewrite Hbp at 1).
  pose proof (sp_nodup _ _ _ Hst) as Hnd. assert (Hpos : 0 < n) by by apply (sp_pos _ _ _ Hst (rid, n)), od_get_Some_in.
  unfold unschedule. fold rid. rewrite Hn, Hb, (sp_inputs _ _ _ Hst). cbn [unwrap mbind result_bind od_get default from_option id mapM_ok runs].
  split; [|split; [split; [done|done| |simpl; pose proof (st_drafting _ _ Hcfg); lia]|done]].
  - destruct (sp_tokens _ _ _ Hst) as [Ht1 Ht2]. destruct (sp_slots _ _ _ Hst) as [Hs1 Hs2].
    rewrite Hnp in Ht2, Hs2. cbn [fmap list_fmap snd sumZ foldr] in Ht2, Hs2. fold (sumZ (od_del (num_scheduled_tokens st) rid).*2) in Ht2, Hs2.
    assert (Hl : py_len (scheduled st) = 1 + py_len (od_keys (od_del (num_scheduled_tokens st) rid))).
    { unfold py_len at 1. rewrite Hk1. unfold py_len. simpl. lia. }
    rewrite Hl in Hs2. pose proof (st_drafting _ _ Hcfg).
    split; unfold scheduled; simpl; try done.
    + apply (Permutation_cons_inv (a := rid)). rewrite <-Hk1, (sp_lists _ _ _ Hst).
      rewrite (filter_ne_perm rid (scheduled_running_reqs st)) at 1; [done| |done].
      rewrite (sp_lists _ _ _ Hst) in Hnd. by apply NoDup_app in Hnd as (? & _).
    + apply (Permutation_cons_inv (a := rid)). by rewrite <-Hk1, <-Hk2, (sp_blocks _ _ _ Hst).
    + by apply od_del_NoDup.
    + intros x Hx. apply (sp_pos _ _ _ Hst). rewrite Hnp. by right.
    + intros id. rewrite !od_del_keys by (done || apply Hst). intros [Hi ?]. split; [|done]. by apply (sp_drafts _ _ _ Hst).
    + by apply od_del_NoDup, Hst.
    + lia.
    + lia.
  - intros id Hne. unfold pend. simpl. rewrite !od_get_del by (done || apply Hst). by rewrite !decide_False by done.
Qed.

Lemma pend_index i st : pend (set_req_index i st) = pend st.
Proof. done. Qed.

Lemma step_ok_index budget i st : step_ok cfg budget st → step_ok cfg budget (set_req_index i st).
Proof. intros [H1 H2 H3 H4 H5 H6 H7 H8 H9]. by split. Qed.

(** The request to preempt: the last one that runs, or the least urgent. *)
Definition more_urgent (a b : Z * Z) : bool := (a.1 <? b.1) || ((a.1 =? b.1) && (a.2 <? b.2)).
Definition key_of s id : option (Z * Z) := (λ r, (priority r, arrival_time r)) <$> requests s !! id.

Definition victim_choice (key : string → option (Z * Z)) (run : list string) (vi : nat) rid : Prop :=
  run !! vi = Some rid ∧
  match sched_policy cfg with
  | FCFS => S vi = length run
  | PRIORITY => ∀ y kx ky, y ∈ run → key rid = Some kx → key y = Some ky → more_urgent kx ky = false
  end.

(** The requests that were preempted in turn. *)
Inductive preempts (key : string → option (Z * Z)) : list string → list string → list string → Prop :=
  | preempts_nil run : preempts key run [] run
  | preempts_cons run vi rid vs run' :
      victim_choice key run vi rid → preempts key (delete vi run) vs run' → preempts key run (rid :: vs) run'.

Lemma preempts_app key run vs run1 vs' run2 :
  preempts key run vs run1 → preempts key run1 vs' run2 → preempts key run (vs ++ vs') run2.
Proof. induction 1; simpl; [done|]. intros. by econstructor; [|auto]. Qed.

Lemma preempts_ext key key' run vs run' : (∀ id, key id = key' id) → preempts key run vs run' → preempts key' run vs run'.
Proof.
  intros Hk. induction 1 as [|run vi rid vs run' [H1 H2] H3 IH]; [constructor|]. econstructor; [|done]. split; [done|].
  destruct (sched_policy cfg); [done|]. intros y kx ky. rewrite <-!Hk. apply H2.
Qed.

Lemma preempts_perm key run vs run' : preempts key run vs run' → run ≡ₚ run' ++ vs.
Proof.
  induction 1 as [run|run vi rid vs run' [H1 H2] H3 IH]; [by rewrite app_nil_r|].
  rewrite <-Permutation_middle, <-IH. by apply delete_Permutation.
Qed.

Lemma preempts_length key run vs run' : preempts key run vs run' → (length run' ≤ length run)%nat.
Proof. intros H. apply preempts_perm, Permutation_length in H. rewrite length_app in H. lia. Qed.

Lemma fixed_key s s' id : fixed_of s' id = fixed_of s id → key_of s' id = key_of s id.
Proof.
  unfold fixed_of, key_of. destruct (requests s' !! id) as [r'|], (requests s !! id) as [r|]; simpl; try done.
  intros [= _ _ -> -> _]. done.
Qed.

(** The phase of the running requests: the state of the loop. *)
Record run_inv (budget : Z) v st s : Prop := {
  ri_core : ∃ lw ls, represents (waiting s) lw ∧ represents (skipped_waiting s) ls ∧
    core cfg q (pend st) (lw ++ ls) v (requests s) (running s) (kv s) (enc s);
  ri_step : step_ok cfg budget st;
  ri_new : scheduled_new_reqs st = [] ∧ scheduled_resumed_reqs st = [];
  ri_before id : id ∈ scheduled_running_reqs st → id ∈ take (req_index st) (running s);
}.

Lemma run_inv_nodup budget v st s : run_inv budget v st s → NoDup (running s).
Proof. intros [(lw & ls & _ & _ & Hc) _ _ _]. by apply co_nodup, NoDup_app in Hc as (? & _). Qed.

Lemma run_inv_get budget v st s rid : run_inv budget v st s → rid ∈ running s → ∃ r, requests s !! rid = Some r ∧ request_id r = rid.
Proof. intros [(lw & ls & _ & _ & Hc) _ _ _] Hin. destruct (core_running _ Hc Hin) as (r & ? & ? & _). eauto. Qed.

Lemma take_victim_spec budget v st s :
  run_inv budget v st s → (req_index st < length (running s))%nat →
  runs (take_victim cfg st s) (λ '(rid, st', s'), ∃ vi, victim_choice (key_of s) (running s) vi rid ∧
    s' = set_running (delete vi (running s)) s ∧ step_ok cfg budget st' ∧ unscheduled rid st st' ∧
    req_index st' = (if Nat.ltb vi (req_index st) then Nat.pred (req_index st) else req_index st)).
Proof.
  intros Hri Hlt. pose proof (run_inv_nodup _ _ _ _ Hri) as Hnd. unfold take_victim, victim_choice. destruct (sched_policy cfg).
  - destruct (last (running s)) as [rid|] eqn:El; [|apply last_None in El; rewrite El in Hlt; simpl in Hlt; lia].
    cbn [unwrap mbind result_bind runs]. rewrite last_lookup in El. set (vi := Nat.pred (length (running s))) in *.
    exists vi. split; [split; [done|lia]|]. rewrite (proj2 (Nat.ltb_ge _ _)) by lia. split; [|split; [apply Hri|split; [|done]]].
    + f_equal. destruct (running s) as [|x l] using rev_ind; [done|]. clear IHl. subst vi. rewrite length_app. simpl.
      rewrite Nat.add_1_r. simpl. by rewrite removelast_last, delete_middle, app_nil_r.
    + split; [|done|done|done]. symmetry. apply filter_ne_absent. intros Hs. apply (ri_before _ _ _ _ Hri) in Hs.
      apply elem_of_take in Hs as (i & Hi & Hle). pose proof (NoDup_lookup _ _ _ _ Hnd Hi El). lia.
  - eapply runs_bind; [apply (runs_mapM _ (λ rid r, requests s !! rid = Some r ∧ request_id r = rid))|].
    { intros rid Hin. destruct (run_inv_get _ _ _ _ _ Hri Hin) as (r & Hr & Hid). unfold the_request. by rewrite Hr. }
    intros rs Hrs. eapply runs_bind; [apply max_request_spec|].
    { intros ->. apply Forall2_nil_inv_r in Hrs. rewrite Hrs in Hlt. simpl in Hlt. lia. }
    intros m [Hm Hmax]. apply list_elem_of_lookup in Hm as [i Hi].
    destruct (Forall2_lookup_r _ _ _ _ _ Hrs Hi) as (x & Hx & Hmr & Hmid). subst x.
    destruct (list_find_elem_of (λ x, x = request_id m) (running s) (request_id m)) as [[vi y] Hf]; [by eapply list_elem_of_lookup_2|done|].
    rewrite Hf. cbn [unwrap mbind result_bind]. apply list_find_Some in Hf as (Hvi & -> & _).
    assert (Hsub : ∀ k, step_ok cfg budget (set_req_index k st)) by (intros; apply step_ok_index, Hri).
    set (st0 := if Nat.ltb vi (req_index st) then _ else st).
    assert (Hst0 : step_ok cfg budget st0) by (subst st0; destruct (Nat.ltb _ _); [apply Hsub|apply Hri]).
    assert (Hsame : scheduled_running_reqs st0 = scheduled_running_reqs st ∧ pend st0 = pend st ∧
      (scheduled_new_reqs st0, scheduled_resumed_reqs st0, preempted_reqs st0) = (scheduled_new_reqs st, scheduled_resumed_reqs st, preempted_reqs st)
      ∧ (token_budget st0, input_budget st0) = (token_budget st, input_budget st) ∧ req_index st0 = if Nat.ltb vi (req_index st) then Nat.pred (req_index st) else req_index st).
    { subst st0. by destruct (Nat.ltb _ _). }
    destruct Hsame as (E1 & E2 & E3 & [= E5 E6] & E4).
    eapply (runs_bind _ _ (λ st', step_ok cfg budget st' ∧ unscheduled (request_id m) st st' ∧ req_index st' = req_index st0)).
    + case_bool_decide as Hin.
      * eapply runs_mono; [by apply unschedule_spec|]. intros st' (? & [U1 U2 U3 U4] & ?). split_and!; [done| |done].
        split; [by rewrite U1, E1|by rewrite U2|by intros id ?; rewrite U3, E2|by rewrite <-E5, <-E6].
      * simpl. split_and!; [done| |done]. split; [|done|by rewrite E2|by rewrite E5, E6]. by rewrite filter_ne_absent by (by rewrite <-E1).
    + intros st' (? & ? & Hidx). simpl. exists vi. split; [split; [done|]|by rewrite Hidx, E4].
      intros z kx ky Hz Hkx Hky. apply list_elem_of_lookup in Hz as [n Hn].
      destruct (Forall2_lookup_l _ _ _ _ _ Hrs Hn) as (z' & Hz' & Hzr & _). unfold key_of in *. rewrite Hmr in Hkx. injection Hkx as <-.
      rewrite Hzr in Hky. injection Hky as <-. apply (Hmax z'). by apply (list_elem_of_lookup_2 _ n).
Qed.

(** *** Allocating for a running request *)

Lemma scheduled_pend budget st id : step_ok cfg budget st → id ∉ scheduled st → pend st id = (0, 0).
Proof.
  intros Hst Hid. unfold pend. rewrite (proj2 (od_get_None (num_scheduled_tokens st) id) Hid).
  rewrite (proj2 (od_get_None (scheduled_spec_decode_tokens st) id)); [done|]. intros Hn. by apply Hid, (sp_drafts _ _ _ Hst).
Qed.

Lemma unscheduled_subset budget rid st st' id :
  step_ok cfg budget st → step_ok cfg budget st' → unscheduled rid st st' → id ∈ scheduled st' → id ∈ scheduled st.
Proof.
  intros Hst Hst' [U1 [= U2 U3 _] _ _]. rewrite (sp_lists _ _ _ Hst), (sp_lists _ _ _ Hst'), U1, U2, U3, !elem_of_app, list_elem_of_filter. naive_solver.
Qed.

(** Removing an element before or after a position. *)
Lemma take_delete {A} (l : list A) vi x i y :
  l !! vi = Some x → y ≠ x → y ∈ take i l → y ∈ take (if Nat.ltb vi i then Nat.pred i else i) (delete vi l).
Proof.
  intros Hx Hne (n & Hn & Hlt)%elem_of_take. apply elem_of_take.
  destruct (decide (n < vi)%nat) as [Hnv|Hnv].
  - exists n. rewrite list_lookup_delete_lt by done. split; [done|]. destruct (Nat.ltb_spec vi i); lia.
  - assert (n ≠ vi) by (intros ->; congruence). exists (Nat.pred n). rewrite list_lookup_delete_ge by lia.
    replace (S (Nat.pred n)) with n by lia. split; [done|]. destruct (Nat.ltb_spec vi i); lia.
Qed.

Lemma lookup_delete_shift {A} (l : list A) vi i : vi ≠ i → delete vi l !! (if Nat.ltb vi i then Nat.pred i else i) = l !! i.
Proof.
  intros Hne. destruct (Nat.ltb_spec vi i).
  - rewrite list_lookup_delete_ge by lia. f_equal. lia.
  - by rewrite list_lookup_delete_lt by lia.
Qed.

(** One round of preemption. *)
Lemma preempt_round budget v st s rid :
  run_inv budget v st s → running s !! req_index st = Some rid → rid ∉ scheduled st →
  runs ('(victim, st, s) ← take_victim cfg st s; s ← _preempt_request victim false s;
        Ok (victim, set_preempted_reqs (preempted_reqs st ++ [victim]) st, s))
    (λ '(victim, st', s'), ∃ vi, victim_choice (key_of s) (running s) vi victim ∧ running s' = delete vi (running s) ∧
      preempted_reqs st' = preempted_reqs st ++ [victim] ∧ run_inv budget (delete victim v) st' s' ∧
      kept_fields s' = kept_fields s ∧ (∀ id, fixed_of s' id = fixed_of s id) ∧
      token_budget st ≤ token_budget st' ∧ input_budget st ≤ input_budget st' ∧
      (length (running s') - req_index st' ≤ length (running s) - req_index st)%nat ∧
      (victim ≠ rid → running s' !! req_index st' = Some rid ∧ (rid ∉ scheduled st') ∧ requests s' !! rid = requests s !! rid)).
Proof.
  intros Hri Hidx Hns. eapply runs_bind; [apply (take_victim_spec budget v); [done|by eapply lookup_lt_Some]|].
  intros [[victim st1] s1] (vi & Hch & -> & Hst1 & Hun & Hi1). pose proof (proj1 Hch) as Hvi. destruct Hri as [(lw & ls & Hlw & Hls & Hc) Hst Hnew Hbef].
  apply delete_Permutation in Hvi as Hperm.
  eapply runs_bind; [apply (preempt_spec (pend st) (lw ++ ls) v _ (running s) (delete vi (running s)) victim false lw ls); done|].
  intros s2 (lw' & Hlw' & Hc' & Hrun & Hsk & Hkept & Hfix & Hoth). simpl in Hrun, Hsk. simpl. exists vi. split; [done|]. split; [done|].
  split; [destruct Hun as [_ [= _ _ ->] _ _]; done|]. assert (Hnd : NoDup (delete vi (running s))).
  { pose proof (co_nodup Hc') as (? & _)%NoDup_app. done. }
  assert (Hvn : victim ∉ delete vi (running s)).
  { pose proof (co_nodup Hc) as (Hnd0 & _)%NoDup_app. rewrite Hperm in Hnd0. by apply NoDup_cons in Hnd0 as [? _]. }
  split; [|split; [done|split; [done|split; [apply Hun|split; [apply Hun|split]]]]].
  - split.
    + exists lw', ls. split; [done|]. split; [by rewrite Hsk|]. rewrite Hrun. eapply core_pending; [done|]. intros id Hid.
      change (pend st1 id = pend st id). apply (us_pend _ _ _ Hun). by intros ->.
    + destruct Hst1 as [G1 G2 G3 G4 G5 G6 G7 G8 G9]. by split.
    + destruct Hun as [_ [= U2 U3 _] _ _]. simpl. by rewrite U2, U3.
    + intros id. simpl. rewrite (us_running _ _ _ Hun), list_elem_of_filter, Hi1, Hrun. intros [Hne Hin].
      eapply take_delete; [done|done|by apply Hbef].
  - rewrite Hrun, length_delete by (by eexists; apply Hch). simpl. rewrite Hi1. destruct (Nat.ltb_spec vi (req_index st)); lia.
  - intros Hne. rewrite Hrun, (Hoth rid) by done. simpl. rewrite Hi1. split; [|split; [|done]].
    + rewrite lookup_delete_shift; [done|]. intros ->. congruence.
    + intros Hs. by eapply Hns, unscheduled_subset.
Qed.

(** What a phase leaves alone: the tokens and the order of the requests, and
    the fields of [kept_fields]. *)
Definition same_requests s s' : Prop := kept_fields s' = kept_fields s ∧ ∀ id, fixed_of s' id = fixed_of s id.

#[export] Instance same_requests_preorder : PreOrder same_requests.
Proof. split; [by split|]. intros s1 s2 s3 [H1 H2] [H3 H4]. split; [congruence|]. intros id. by rewrite H4. Qed.

Lemma put_same s r r' rid k e :
  requests s !! rid = Some r → request_id r' = rid → fixed r' = fixed r → same_requests s (set_kv k (set_enc e (put_request r' s))).
Proof.
  intros Hr Hid Hf. split; [done|]. intros id. unfold fixed_of, put_request. cbn [requests set_kv set_enc set_reqs]. rewrite Hid.
  destruct (decide (id = rid)) as [->|Hne]; [by rewrite lookup_insert_eq, Hr; simpl; rewrite Hf|by rewrite lookup_insert_ne].
Qed.

Lemma strip_fixed r r' : strip r' = strip r → fixed r' = fixed r.
Proof. by intros [m ->]%strip_eq. Qed.

Lemma extend_slots_spec budget v st s rid r n :
  run_inv budget v st s → rid ∈ running s → rid ∉ scheduled st → requests s !! rid = Some r → 0 < n → num_computed_tokens r + n ≤ mml →
  runs (kv_allocate_slots r n 0 None (num_lookahead_tokens cfg) false true (kv s)) (λ '(res, r', k'),
    strip r' = strip r ∧ request_id r' = rid ∧ ∃ v', run_inv budget v' st (set_kv k' (put_request r' s)) ∧
      match res with Some _ => ∃ c, v' !! rid = Some c ∧ num_computed_tokens r + n ≤ c | None => True end).
Proof.
  intros [(lw & ls & Hlw & Hls & Hc) Hst Hnew Hbef] Hin Hns Hr Hn Hlen.
  destruct (core_running _ Hc Hin) as (r0 & Hr0 & Hid & Hok & Hro & Hnw). rewrite Hr in Hr0. injection Hr0 as <-.
  destruct (run_room _ _ _ _ _ Hro) as (c & Hv & Hle). rewrite (scheduled_pend _ _ _ Hst Hns) in Hle, Hro. simpl in Hle.
  destruct (run_flight _ _ _ _ _ Hro) as (j & _ & _ & Hcomp & _). destruct (co_req Hc _ _ Hr) as (_ & _ & Hfl & Hin0).
  pose proof (tokens_nonneg _ _ (inflight_ok_drop _ j _ Hin0)).
  eapply runs_mono.
  { apply (kv_extend_law v (kv s) r c n); [by apply Hc|by rewrite Hid|apply Hok|lia|pose proof (rq_tokens _ Hok); lia|apply Hok|done|apply Hcfg|done]. }
  intros [[res r'] k'] (Hs & Hready & Hres). pose proof (strip_eq _ _ Hs) as [m Hm]. split; [done|]. split; [by subst r'|].
  assert (Hgo : ∀ v', kv_ok v' k' → (∀ id, id ≠ rid → v' !! id = v !! id) → (∃ c', v' !! rid = Some c' ∧ num_computed_tokens r ≤ c') →
    run_inv budget v' st (set_kv k' (put_request r' s))).
  { intros v' Hk' Hoth (c' & Hc' & Hle'). split; try done. exists lw, ls. split; [done|]. split; [done|].
    unfold put_request. cbn [requests running kv enc set_kv set_reqs]. replace (request_id r') with rid by by subst r'.
    apply (core_update cfg q (pend st) (lw ++ ls) v (requests s) (running s) (kv s) (enc s) q (pend st) v' k' (enc s) rid r r'); try done; try (by subst r').
    - apply Hc.
    - by eapply request_ok_memo.
    - intros id Hne. split_and!; [done..|]. by apply Hoth.
    - intros _. rewrite (scheduled_pend _ _ _ Hst Hns). eapply running_ok_memo; [done|]. destruct Hro as [G1 G2 G3 G4 G5 G6 G7 G8].
      split; try done. exists c'. split; [done|]. simpl. lia. }
  destruct res as [b|].
  - destruct Hres as (c' & Hc' & Hk'). rewrite Hid in Hk'. exists (<[rid:=c']> v). split.
    + apply Hgo; [done|by intros; rewrite lookup_insert_ne|]. exists c'. rewrite lookup_insert_eq. split; [done|lia].
    + exists c'. by rewrite lookup_insert_eq.
  - exists v. split; [|done]. apply Hgo; [done|done|]. exists c. split; [done|lia].
Qed.

Lemma allocate_running_spec budget fuel v st s rid r n :
  run_inv budget v st s → running s !! req_index st = Some rid → rid ∉ scheduled st → requests s !! rid = Some r →
  0 < n → num_computed_tokens r + n ≤ mml → (length (running s) < fuel)%nat →
  runs (allocate_running cfg fuel rid n st s) (λ '(res, st', s'), ∃ v' vs, run_inv budget v' st' s' ∧ same_requests s s' ∧
    preempted_reqs st' = preempted_reqs st ++ vs ∧ preempts (key_of s) (running s) vs (running s') ∧
    token_budget st ≤ token_budget st' ∧ input_budget st ≤ input_budget st' ∧
    match res with
    | Some _ => running s' !! req_index st' = Some rid ∧ (rid ∉ scheduled st') ∧
        (length (running s') - req_index st' ≤ length (running s) - req_index st)%nat ∧ ∃ r' c, requests s' !! rid = Some r' ∧ strip r' = strip r ∧ v' !! rid = Some c ∧ num_computed_tokens r + n ≤ c
    | None => rid ∈ vs
    end).
Proof.
  revert v st s r. induction fuel as [|fuel IH]; intros v st s r Hri Hidx Hns Hr Hn Hlen Hfuel; [lia|].
  simpl. unfold the_request at 1. rewrite Hr. cbn [unwrap mbind result_bind].
  eapply runs_bind; [apply (extend_slots_spec budget v st s rid r n); try done; by eapply list_elem_of_lookup_2|].
  intros [[res r1] k1] (Hs1 & Hid1 & v1 & Hri1 & Hres). set (s1 := set_kv k1 (put_request r1 s)) in *.
  assert (Hsame1 : same_requests s s1) by (apply (put_same s r r1 rid k1 (enc s)); [done|done|by apply strip_fixed]).
  assert (Hr1 : requests s1 !! rid = Some r1) by (subst s1; unfold put_request; simpl; rewrite Hid1; apply lookup_insert_eq).
  destruct res as [b|].
  - destruct Hres as (c & Hc & Hle). simpl. exists v1, []. split_and!; [done|done|by rewrite app_nil_r|constructor|done|done|done|done|done|]. by exists r1, c.
  - pose proof (preempt_round budget v1 st s1 rid Hri1 Hidx Hns) as Hround.
    destruct (take_victim cfg st s1) as [[[victim st2] s2]|] eqn:Ev; [|done]. cbn [mbind result_bind] in Hround |- *.
    destruct (_preempt_request victim false s2) as [s3|] eqn:Ep; [|done]. cbn [mbind result_bind runs] in Hround |- *.
    destruct Hround as (vi & Hch & Hrun3 & Hpre3 & Hri3 & Hkept3 & Hfix3 & Hb3 & Hi3 & Hm3 & Hne). change (running s1) with (running s) in Hrun3.
    assert (Hkeys : ∀ id, key_of s1 id = key_of s id) by (intros id; apply fixed_key, Hsame1).
    assert (Hch' : victim_choice (key_of s) (running s) vi victim).
    { destruct Hch as [H1 H2]. split; [done|]. destruct (sched_policy cfg); [done|]. intros y kx ky. rewrite <-!Hkeys. apply H2. }
    assert (Hsame3 : same_requests s s3) by (etransitivity; [done|]; by split).
    case_bool_decide as Hv.
    + simpl. exists (delete victim v1), [victim]. split_and!; [done|done|done| |done|done|by rewrite Hv; left].
      econstructor; [done|]. rewrite <-Hrun3. constructor.
    + destruct (Hne Hv) as (Hidx3 & Hns3 & Hr3). rewrite Hr1 in Hr3. pose proof (strip_eq _ _ Hs1) as [m Hm].
      pose proof (proj1 Hch) as Hvi%lookup_lt_Some.
      eapply runs_mono.
      { apply (IH (delete victim v1) _ s3 r1 Hri3 Hidx3 Hns3 Hr3); [done|by subst r1|]. rewrite Hrun3, length_delete; [|by eexists; apply Hch].
        change (running s1) with (running s) in Hvi. lia. }
      intros [[res' st4] s4] (v4 & vs & Hri4 & Hsame4 & Hpre4 & Hps4 & Hb4 & Hi4 & Hres4). exists v4, (victim :: vs).
      split; [done|]. split; [by etransitivity|]. split; [rewrite Hpre4, Hpre3; by rewrite <-app_assoc|]. split; [|split; [by etransitivity|split; [by etransitivity|]]].
      * econstructor; [done|]. rewrite <-Hrun3. eapply preempts_ext; [|done]. intros id. apply fixed_key, Hsame3.
      * destruct res'; [|by right]. destruct Hres4 as (? & ? & Hmeas & r' & c' & ? & Hs' & ? & Hc'). split_and!; [done|done|by etransitivity|]. exists r', c'.
        split_and!; [done|by rewrite Hs'|done|by subst r1].
Qed.

(** *** Recording what a running request gets *)

Lemma py_upto_length {A} (l : list A) n : 0 ≤ n → py_len (py_upto l n) = Z.min n (py_len l).
Proof. intros Hn. unfold py_upto, slice_bound, py_len. destruct (Z.ltb_spec n 0); [lia|]. rewrite length_take. lia. Qed.

(** The drafts that are scheduled: exactly those among the [n] tokens. *)
Lemma spec_tokens_count r n :
  n ≤ num_tokens_with_spec r + num_output_placeholders r - num_computed_tokens r →
  py_len (spec_tokens_to_schedule r n) = Z.max 0 (n + num_computed_tokens r - num_tokens r - num_output_placeholders r).
Proof.
  intros Hn. unfold spec_tokens_to_schedule, num_tokens_with_spec in *. fold (num_tokens r) in Hn.
  destruct (Z.ltb_spec 0 (n + num_computed_tokens r - num_tokens r - num_output_placeholders r)); [|unfold py_len at 1; simpl; lia].
  rewrite py_upto_length by lia. lia.
Qed.

Lemma od_set_pend (d : list (string * Z)) (d' : list (string * list Z)) st rid n (l : list Z) id :
  (if bool_decide (l = []) then scheduled_spec_decode_tokens st else od_set (scheduled_spec_decode_tokens st) rid l) = d' →
  od_set (num_scheduled_tokens st) rid n = d → rid ∉ od_keys (scheduled_spec_decode_tokens st) →
  (default 0 (od_get d id), py_len (default [] (od_get d' id))) = if decide (id = rid) then (n, py_len l) else pend st id.
Proof.
  intros <- <- Hn. unfold pend. rewrite od_get_set. case_bool_decide as Hl.
  - case_decide as Hid; [|done]. subst. by rewrite (proj2 (od_get_None (scheduled_spec_decode_tokens st) rid) Hn).
  - rewrite od_get_set. by case_decide.
Qed.

(** One more request is scheduled. *)
Lemma step_ok_record budget st st' rid n blocks (drafts : list Z) :
  step_ok cfg budget st → rid ∉ scheduled st → 0 < n → n ≤ token_budget st → n ≤ input_budget st - max_num_new_slots_for_drafting cfg →
  num_scheduled_tokens st' = od_set (num_scheduled_tokens st) rid n →
  scheduled_spec_decode_tokens st' =
    (if bool_decide (drafts = []) then scheduled_spec_decode_tokens st else od_set (scheduled_spec_decode_tokens st) rid drafts) →
  req_to_new_blocks st' = od_set (req_to_new_blocks st) rid blocks →
  scheduled_running_reqs st' ++ scheduled_new_reqs st' ++ scheduled_resumed_reqs st' ≡ₚ
    rid :: scheduled_running_reqs st ++ scheduled_new_reqs st ++ scheduled_resumed_reqs st →
  scheduled_encoder_inputs st' = [] → token_budget st' = token_budget st - n →
  input_budget st' = input_budget st - (n + max_num_new_slots_for_drafting cfg) →
  step_ok cfg budget st' ∧ ∀ id, pend st' id = if decide (id = rid) then (n, py_len drafts) else pend st id.
Proof.
  intros Hst Hns Hn Ht Hi En Ed Eb El Ee Et Ei.
  assert (Hnd : rid ∉ od_keys (scheduled_spec_decode_tokens st)) by (intros Hin; by apply Hns, (sp_drafts _ _ _ Hst)).
  assert (Hs : scheduled st' = scheduled st ++ [rid]) by (unfold scheduled; rewrite En; by apply od_keys_set_new).
  assert (Hn' : num_scheduled_tokens st' = num_scheduled_tokens st ++ [(rid, n)]) by (rewrite En; by apply od_set_new).
  pose proof (st_drafting _ _ Hcfg). destruct (sp_tokens _ _ _ Hst). destruct (sp_slots _ _ _ Hst).
  split; [|intros id; unfold pend at 1; apply od_set_pend; [by rewrite Ed|by rewrite En|done]].
  split.
  - rewrite Hs, El, (sp_lists _ _ _ Hst). by rewrite <-Permutation_cons_append.
  - rewrite Hs, Eb. rewrite od_keys_set_new by by rewrite (sp_blocks _ _ _ Hst). by rewrite (sp_blocks _ _ _ Hst).
  - rewrite Hs. apply NoDup_app. split; [apply Hst|]. split; [|apply NoDup_singleton]. by intros x Hx ->%list_elem_of_singleton.
  - intros x. rewrite Hn', elem_of_app, list_elem_of_singleton. intros [?| ->]; [by apply (sp_pos _ _ _ Hst)|done].
  - intros id. rewrite Hs, Ed, elem_of_app, list_elem_of_singleton. case_bool_decide; [|rewrite od_set_keys; intros [->|Hk]; [by right|left]].
    + intros ?. left. by apply (sp_drafts _ _ _ Hst).
    + by apply (sp_drafts _ _ _ Hst).
  - rewrite Ed. case_bool_decide; [apply Hst|]. rewrite od_keys_set_new by done. apply NoDup_app. split; [apply Hst|].
    split; [|apply NoDup_singleton]. by intros x Hx ->%list_elem_of_singleton.
  - done.
  - rewrite Hn', fmap_app, sumZ_app, Et. simpl. lia.
  - rewrite Hn', fmap_app, sumZ_app, Ei, Hs, py_len_app. change (py_len [rid]) with 1. simpl. lia.
Qed.

Lemma schedule_running_spec budget v st s rid r c n blocks b :
  run_inv budget v st s → running s !! req_index st = Some rid → rid ∉ scheduled st → requests s !! rid = Some r →
  v !! rid = Some c → num_computed_tokens r + n ≤ c → num_computed_tokens r + n ≤ mml →
  0 < n → n ≤ num_tokens_with_spec r + num_output_placeholders r - num_computed_tokens r →
  n ≤ token_budget st → n ≤ input_budget st - max_num_new_slots_for_drafting cfg →
  runs (schedule_running cfg rid blocks n [] b st s) (λ '(st', s'), run_inv budget v st' s' ∧ same_requests s s' ∧
    running s' = running s ∧ req_index st' = S (req_index st) ∧ preempted_reqs st' = preempted_reqs st).
Proof.
  intros [(lw & ls & Hlw & Hls & Hc) Hst Hnew Hbef] Hidx Hns Hr Hv Hle Hlen Hn Hspec Ht Hi.
  assert (Hin : rid ∈ running s) by by eapply list_elem_of_lookup_2.
  destruct (core_running _ Hc Hin) as (r0 & Hr0 & Hid & Hok & Hro & _). rewrite Hr in Hr0. injection Hr0 as <-.
  rewrite (scheduled_pend _ _ _ Hst Hns) in Hro.
  unfold schedule_running, the_request. rewrite Hr. cbn [unwrap mbind result_bind allocate_encoder_inputs foldM runs].
  set (st' := record_running cfg r blocks n [] b st). pose proof (spec_tokens_count r n Hspec) as Hd.
  destruct (step_ok_record budget st st' rid n blocks (spec_tokens_to_schedule r n)) as [Hst' Hpend]; try done.
  { by subst st'; simpl; rewrite Hid. } { by subst st'; simpl; rewrite Hid. } { by subst st'; simpl; rewrite Hid. }
  { subst st'. simpl. rewrite Hid. rewrite <-app_assoc. symmetry. apply Permutation_middle. }
  { apply Hst. }
  assert (Hreqs : requests (put_request (set_spec_token_ids [] r) s) = <[rid:=set_spec_token_ids [] r]> (requests s)) by (by rewrite <-Hid).
  split; [|split; [|done]].
  - split; [|done|done|].
    + exists lw, ls. split; [done|]. split; [done|]. cbn [requests running kv enc set_enc]. rewrite Hreqs.
      destruct (co_req Hc _ _ Hr) as (_ & _ & Hfl & Hin0).
      apply (core_update cfg q (pend st) (lw ++ ls) v (requests s) (running s) (kv s) (enc s) q (pend st') v (kv s) (enc s) rid r); try done; try apply Hc.
      * apply (request_ok_content r); simpl; try done. apply Hok.
      * intros id Hne. split_and!; [done| |done]. by rewrite Hpend, decide_False.
      * intros _. rewrite Hpend, decide_True by done. destruct Hro as [G1 G2 G3 G4 G5 (j & Hj & G6 & G7 & G8 & G9) G10 G11].
        cbn [fst snd] in *. pose proof (credits_bounds _ _ (inflight_ok_drop _ j _ Hin0)) as Hcr.
        assert (E1 : num_computed_tokens (set_spec_token_ids [] r) = num_computed_tokens r) by done.
        assert (E2 : num_tokens (set_spec_token_ids [] r) = num_tokens r) by done.
        assert (E3 : num_output_placeholders (set_spec_token_ids [] r) = num_output_placeholders r) by done.
        split; cbn [fst snd]; rewrite ?E1, ?E2, ?E3; try done.
        -- rewrite Hd. split; [lia|]. destruct (decide (spec_token_ids r = [])) as [Hnil|Hne]; [|specialize (G11 Hne); lia].
           unfold num_tokens_with_spec in Hspec. rewrite Hnil in Hspec. fold (num_tokens r) in Hspec. unfold py_len in Hspec at 1. simpl in Hspec. lia.
        -- rewrite Hd. lia.
        -- by exists c.
        -- exists j. split_and!; try done. rewrite Hd. destruct (async_scheduling cfg); lia.
    + intros id. cbn [running set_enc put_request set_reqs]. subst st'. simpl. rewrite Hid. intros [Hi'|Hi']%elem_of_app.
      * apply Hbef, elem_of_take in Hi' as (i & ? & ?). apply elem_of_take. exists i. split; [done|lia].
      * apply list_elem_of_singleton in Hi' as ->. apply elem_of_take. exists (req_index st). split; [done|lia].
  - apply (put_same s r _ rid (kv s) (enc s)); done.
Qed.

(** *** The loop over the running requests *)

Lemma no_encoder_inputs r c n b shift (e : E) :
  mm_features r = [] → _try_schedule_encoder_inputs cfg r c n b shift e = Ok ([], n, b, e).
Proof. intros Hr. unfold _try_schedule_encoder_inputs, num_encoder_inputs. rewrite Hr. by rewrite orb_true_r. Qed.

Lemma reserve_bounds r c n : _reserve_prefill_lookahead cfg r c n ≠ 0 → 0 < _reserve_prefill_lookahead cfg r c n ≤ n.
Proof.
  unfold _reserve_prefill_lookahead. destruct (_ && _) eqn:Eb; intros; zbool; lia.
Qed.

Lemma running_tokens_bounds r st :
  ∀ n, n = running_num_new_tokens cfg r st →
  n ≤ token_budget st ∧ n ≤ input_budget st - max_num_new_slots_for_drafting cfg ∧ num_computed_tokens r + n ≤ mml ∧
  (0 < n → n ≤ num_tokens_with_spec r + num_output_placeholders r - num_computed_tokens r).
Proof.
  intros n ->. unfold running_num_new_tokens, cap_long_prefill. rewrite (st_mml _ _ Hcfg). pose proof (st_sampled _ _ Hcfg).
  destruct (_ && _) eqn:Eb; zbool; lia.
Qed.

Lemma run_inv_index budget v st s i : run_inv budget v st s → (req_index st ≤ i)%nat → run_inv budget v (set_req_index i st) s.
Proof.
  intros [H1 H2 H3 H4] Hi. split; [done|by apply step_ok_index|done|]. intros id Hin. apply H4, elem_of_take in Hin as (j & ? & ?).
  apply elem_of_take. exists j. simpl. split; [done|lia].
Qed.

Lemma run_inv_next budget v st s rid : run_inv budget v st s → running s !! req_index st = Some rid → rid ∉ scheduled st.
Proof.
  intros Hri Hidx Hs. rewrite (sp_lists _ _ _ (ri_step _ _ _ _ Hri)) in Hs. destruct (ri_new _ _ _ _ Hri) as [E1 E2].
  rewrite E1, E2, !app_nil_r in Hs. apply (ri_before _ _ _ _ Hri), elem_of_take in Hs as (i & Hi & Hlt).
  pose proof (NoDup_lookup _ _ _ _ (run_inv_nodup _ _ _ _ Hri) Hi Hidx). lia.
Qed.

Lemma run_inv_enc budget v st s : run_inv budget v st s → run_inv budget v st (set_enc (enc s) s).
Proof. by destruct s. Qed.

Lemma running_loop_spec budget defer fuel v st s :
  run_inv budget v st s → (length (running s) - req_index st < fuel)%nat →
  runs (running_loop cfg fuel defer st s) (λ '(st', s'), ∃ v' vs, run_inv budget v' st' s' ∧ same_requests s s' ∧
    preempted_reqs st' = preempted_reqs st ++ vs ∧ preempts (key_of s) (running s) vs (running s')).
Proof.
  revert v st s. induction fuel as [|fuel IH]; intros v st s Hri Hfuel; [lia|]. cbn [running_loop].
  assert (Hstop : ∃ v' vs, run_inv budget v' st s ∧ same_requests s s ∧ preempted_reqs st = preempted_reqs st ++ vs ∧
    preempts (key_of s) (running s) vs (running s)) by (exists v, []; split_and!; [done|done|by rewrite app_nil_r|constructor]).
  destruct (token_budget st <=? 0) eqn:Etb; [done|]. destruct (running s !! req_index st) as [rid|] eqn:Hidx; [|done].
  destruct (input_budget st <=? _) eqn:Eib; [done|]. zbool.
  assert (Hin : rid ∈ running s) by by eapply list_elem_of_lookup_2. apply lookup_lt_Some in Hidx as Hlt.
  pose proof (run_inv_next _ _ _ _ _ Hri Hidx) as Hns.
  destruct (ri_core _ _ _ _ Hri) as (lw & ls & _ & _ & Hc). destruct (core_running _ Hc Hin) as (r & Hr & Hid & Hok & Hro & _).
  unfold the_request. rewrite Hr. cbn [unwrap mbind result_bind].
  assert (Hnext : runs (running_loop cfg fuel defer (set_req_index (S (req_index st)) st) s) (λ '(st', s'), ∃ v' vs, run_inv budget v' st' s' ∧
    same_requests s s' ∧ preempted_reqs st' = preempted_reqs st ++ vs ∧ preempts (key_of s) (running s) vs (running s'))).
  { apply (IH v (set_req_index (S (req_index st)) st) s). - apply run_inv_index; [done|lia]. - simpl. lia. }
  destruct (skip_running defer r s); [done|]. rewrite no_encoder_inputs by apply Hok. cbn [mbind result_bind].
  destruct (running_tokens_bounds r st _ eq_refl) as (B1 & B2 & B3 & B4).
  pose proof (reserve_bounds r (num_computed_tokens r) (running_num_new_tokens cfg r st)) as Hres.
  set (n := _reserve_prefill_lookahead cfg r _ _) in *. replace (set_enc (enc s) s) with s by by destruct s.
  destruct (Z.eqb_spec n 0) as [_|Hn]; [done|]. specialize (Hres Hn). specialize (B4 ltac:(lia)).
  assert (Hlen : num_computed_tokens r + n ≤ mml) by lia. assert (Hspec : n ≤ num_tokens_with_spec r + num_output_placeholders r - num_computed_tokens r) by lia.
  eapply runs_bind; [apply (allocate_running_spec budget _ v st s rid r n); try done; lia|].
  intros [[blocks st1] s1] (v1 & vs & Hri1 & Hsame1 & Hpre1 & Hps1 & Ht1 & Hi1 & Hres1).
  destruct blocks as [blocks|]; [|simpl; by exists v1, vs].
  destruct Hres1 as (Hidx1 & Hns1 & Hmeas & r1 & c & Hr1 & Hs1 & Hc1 & Hle1). apply strip_eq in Hs1 as [m ->].
  eapply runs_bind; [eapply (schedule_running_spec budget v1 st1 s1 rid _ c n); try done; lia|].
  intros [st2 s2] (Hri2 & Hsame2 & Hrun2 & Hidx2 & Hpre2).
  eapply runs_mono; [apply (IH v1 st2 s2 Hri2)|].
  { rewrite Hrun2, Hidx2. apply lookup_lt_Some in Hidx1. lia. }
  intros [st3 s3] (v3 & vs3 & Hri3 & Hsame3 & Hpre3 & Hps3). exists v3, (vs ++ vs3). split; [done|].
  split; [by do 2 (etransitivity; [done|])|]. split; [by rewrite Hpre3, Hpre2, Hpre1, app_assoc|].
  eapply preempts_app; [done|]. rewrite <-Hrun2. eapply preempts_ext; [|done]. intros id.
  apply fixed_key. etransitivity; [apply Hsame2|apply Hsame1].
Qed.
End Step.
