(* ===== verification/SchedulerWaiting.v ===== *)
(** * The scheduler: waiting requests

    The second phase of [schedule]: requests are taken from the queues while
    the budgets last, their cached prefixes are looked up and they are given
    blocks. *)

From S2P Require Import Prelude FreeQueue Request BlockHash EncoderCache RequestQueue SchedUtils KVCacheManager Scheduler SchedulerSpec SchedulerStep.
Local Open Scope Z_scope.

Section Waiting.
Context {K E Q : Type} `{!KVCache K, !EncoderCacheOps E, !RequestQueue Q} {P : policy}.
Context `{!QueueRefines Q P, !PolicyPerm P} {mml : Z} {block_hasher : option BlockHasher}.
Context `{!KVLaws K mml block_hasher, !EncLaws E}.
Variable cfg : Settings.
Hypothesis Hcfg : settings_ok cfg mml.
Variable new_queue : Q.
Hypothesis Hnew : represents new_queue [].
Variable q : string → list Sent.
Implicit Types (s : Scheduler K E Q) (st : Step) (r x : Request) (rid id : string) (v : gmap string Z) (w : WaitStep (Q := Q)).

(** The state of the loop: the queues, the requests passed over in this step,
    and the requests that run. *)
Record wait_inv (budget : Z) v w s (lw ls lk : list Request) : Prop := {
  wi_waiting : represents (waiting s) lw;
  wi_skipped : represents (skipped_waiting s) ls;
  wi_passed : represents (step_skipped_waiting w) lk;
  wi_core : core cfg q (pend (w_step w)) (lw ++ ls ++ lk) v (requests s) (running s) (kv s) (enc s);
  wi_step : step_ok cfg budget (w_step w);
  wi_scheduled : scheduled (w_step w) ⊆ running s;
}.

(** The queue that was selected, and the other ones. *)
Definition pick {A} (skipped : bool) (lw ls : A) : A := if skipped then ls else lw.

(** *** Choosing a queue and taking from it *)

Lemma select_spec s lw ls :
  represents (waiting s) lw → represents (skipped_waiting s) ls →
  queue_bool (waiting s) || queue_bool (skipped_waiting s) = true →
  runs (_select_waiting_queue_for_scheduling cfg s) (λ which, ∃ skipped, which = Some skipped ∧ pick skipped lw ls ≠ []).
Proof.
  intros Hlw Hls. unfold _select_waiting_queue_for_scheduling. rewrite (rep_bool _ _ Hlw), (rep_bool _ _ Hls).
  destruct lw as [|x lw], ls as [|y ls], (sched_policy cfg); simpl; intros Hne; try done;
    try (by exists true); try (by exists false).
  rewrite (rep_peek _ _ _ Hlw), (rep_peek _ _ _ Hls). simpl. destruct (request_lt x y); simpl; [by exists false|by exists true].
Qed.

Lemma pop_waiting_spec s lw ls skipped x l :
  represents (waiting s) lw → represents (skipped_waiting s) ls → pick skipped lw ls = x :: l →
  runs (pop_waiting skipped s) (λ '(y, s'), y = x ∧ ∃ lw' ls', represents (waiting s') lw' ∧ represents (skipped_waiting s') ls' ∧
    lw ++ ls ≡ₚ x :: lw' ++ ls' ∧
    (requests s', running s', kv s', enc s') = (requests s, running s, kv s, enc s) ∧ kept_fields s' = kept_fields s).
Proof.
  intros Hlw Hls Hl. unfold pop_waiting, queue_of. destruct skipped; simpl in Hl; subst.
  - eapply runs_bind; [by apply rep_pop|]. intros [y q'] [-> Hq']. simpl. split; [done|]. exists lw, l. split_and!; try done.
    symmetry. apply Permutation_middle.
  - eapply runs_bind; [by apply rep_pop|]. intros [y q'] [-> Hq']. simpl. split; [done|]. by exists l, ls.
Qed.

(** *** Tokens for a waiting request *)

Lemma waiting_tokens_spec r nc st :
  0 ≤ nc < num_tokens r → num_tokens r ≤ mml → 0 < token_budget st → max_num_new_slots_for_drafting cfg < input_budget st →
  runs (waiting_num_new_tokens cfg r nc st) (λ res, ∀ n pad, res = Some (n, pad) →
    0 < n ≤ token_budget st ∧ n ≤ input_budget st - max_num_new_slots_for_drafting cfg ∧ nc + n ≤ mml ∧
    if pad : bool then n = 1 + num_spec_tokens cfg ∧ 0 < num_spec_tokens cfg ∧ num_tokens r = nc + 1 else nc + n ≤ num_tokens r).
Proof.
  intros Hnc Hlen Ht Hi. unfold waiting_num_new_tokens.
  pose proof (st_spec _ _ Hcfg). pose proof (st_sampled _ _ Hcfg). pose proof (st_threshold _ _ Hcfg) as Hth.
  rewrite (st_mml _ _ Hcfg). set (b := Z.min (token_budget st) _). assert (Hb : 0 < b) by (subst b; lia).
  set (pad := _ && (_ <=? mml)).
  assert (Hpad : pad = true → 0 < num_spec_tokens cfg ∧ num_tokens r - nc = 1 ∧ nc + (1 + num_spec_tokens cfg) ≤ mml).
  { subst pad. intros ?. zbool. lia. }
  destruct pad; simpl.
  - destruct (Hpad eq_refl) as (Hs0 & Hs1 & Hs2). destruct (Z.ltb_spec b (1 + num_spec_tokens cfg)); [done|].
    assert (Hcap : cap_long_prefill cfg (1 + num_spec_tokens cfg) = 1 + num_spec_tokens cfg).
    { unfold cap_long_prefill. destruct (_ && _) eqn:Ec; [zbool; lia|done]. }
    rewrite Hcap. destruct (Z.ltb_spec b (1 + num_spec_tokens cfg)); [lia|]. rewrite andb_false_r.
    rewrite (proj2 (Z.ltb_lt _ _)) by lia. simpl. intros n pad [= <- <-]. subst b. split_and!; lia.
  - assert (Hcap : 0 < cap_long_prefill cfg (num_tokens r - nc) ≤ num_tokens r - nc).
    { unfold cap_long_prefill. destruct (_ && _) eqn:Ec; zbool; lia. }
    destruct (_ && _); [done|]. rewrite (proj2 (Z.ltb_lt _ _)) by lia. simpl. intros n pad [= <- <-]. subst b. split_and!; lia.
Qed.

(** Lookahead never shortens a padded request. *)
Lemma reserve_padded r nc n : 0 < n → num_tokens r = nc + 1 → _reserve_prefill_lookahead cfg r nc n = n.
Proof. intros Hn Ht. unfold _reserve_prefill_lookahead. destruct (_ && _) eqn:Ec; zbool; lia. Qed.

(** *** Looking the request up *)

(** What a look-up changes of a request. *)
Definition looked_up r r' : Prop := ∃ m b, r' = set_shared_prefix_boundary b (set_prompt_embeds_per_block_hashes m r).

Lemma looked_up_ok fl r r' :
  looked_up r r' → kv_ready r' → request_ok r → waiting_ok fl r → request_ok r' ∧ waiting_ok fl r' ∧ fixed r' = fixed r.
Proof. intros (m & b & ->) Hr [H1 H2 H3 H4 H5 H6] [G1 G2 G3 G4 G5]. by split_and!. Qed.

Lemma core_put p l v reqs run k e v' k' e' rid r r' :
  core cfg q p l v reqs run k e → kv_ok v' k' → enc_ok e' → reqs !! rid = Some r → rid ∉ run → request_id r' = rid → py_id r' = py_id r →
  num_in_flight_tokens r' = num_in_flight_tokens r → request_ok r' → waiting_ok (q rid) r' → v' !! rid = None →
  (∀ id, id ≠ rid → v' !! id = v !! id) → core cfg q p l v' (<[rid:=r']> reqs) run k' e'.
Proof.
  intros Hc Hk He Hr Hn Hid Hpy Hfl Hok Hw Hv Hoth. destruct (co_req Hc _ _ Hr) as (_ & _ & Hfl0 & Hin).
  apply (core_update cfg q p l v reqs run k e q p v' k' e' rid r); try done; [congruence|auto].
Qed.

Lemma put_reqs r s : requests (put_request r s) = <[request_id r:=r]> (requests s).
Proof. done. Qed.

Lemma waiting_computed_spec budget v w s lw ls lk x r :
  wait_inv budget v w s lw ls lk → x ∈ lw ++ ls ++ lk → requests s !! request_id x = Some r →
  runs (waiting_computed r s) (λ '(b, nl, lookup, nc, s'), wait_inv budget v w s' lw ls lk ∧ same_requests s s' ∧ running s' = running s ∧
    nl = nc ∧ 0 ≤ nc < num_tokens r ∧ kv_hit (request_id x) nc b (kv s') ∧
    ∃ r', requests s' !! request_id x = Some r' ∧ looked_up r r').
Proof.
  intros [Hlw Hls Hlk Hc Hst Hsub] Hx Hr. destruct (core_queued _ Hc Hx) as (r0 & Hr0 & Hid & Hpy & Hok & Hwait & Hnr & Hv).
  rewrite Hr in Hr0. injection Hr0 as <-. unfold waiting_computed. rewrite (wait_computed _ _ Hwait). simpl.
  eapply runs_bind; [apply (kv_lookup_law v); [apply Hc|by rewrite Hid|apply Hok|apply Hok]|].
  intros [[[[b n] bd] r'] k'] (Hk' & Hs & Hready & Hn & Hhit). apply strip_eq in Hs as [m ->]. rewrite Hid in Hhit.
  remember (set_shared_prefix_boundary bd _) as r' eqn:Er'.
  assert (Hlk' : looked_up r r') by by exists m, bd.
  assert (Hready' : kv_ready r') by (eapply kv_ready_content; [|exact Hready]; by subst r').
  assert (Eqs : (num_tokens r', request_id r', py_id r', num_in_flight_tokens r') =
    (num_tokens r, request_id x, py_id r, num_in_flight_tokens r)) by by (rewrite <-Hid; subst r').
  injection Eqs as E1 E4 E5 E6.
  destruct (looked_up_ok (q (request_id x)) r r' Hlk' Hready' Hok Hwait) as (Hok' & Hwait' & Hfix).
  rewrite E1, (proj2 (Z.leb_le n (num_tokens r))) by lia.
  cbn [py_assert mbind result_bind num_preemptions num_prompt_tokens set_prompt_embeds_per_block_hashes].
  replace ((0 <? num_preemptions r) || (n <=? num_prompt_tokens r)) with true.
  2: { symmetry. apply orb_true_iff. destruct (wait_status _ _ Hwait) as [[_ ?]|[_ [? _]]]; [left; by apply Z.ltb_lt|right; apply Z.leb_le; lia]. }
  cbn [py_assert mbind result_bind runs].
  split; [|split; [|split; [done|split; [done|split; [lia|split; [done|]]]]]].
  - split; try done. cbn [requests running kv enc set_kv]. rewrite put_reqs, E4.
    eapply core_put; [exact Hc|done|apply Hc|done|done|done|done|done|done|done|done|done].
  - apply (put_same s r r' (request_id x) k' (enc s)); done.
  - exists r'. cbn [requests set_kv]. rewrite put_reqs, E4, lookup_insert_eq. done.
Qed.

(** *** Admitting a request *)

Definition unblocked r : Prop := status r = WAITING ∨ status r = PREEMPTED.

(** The drafts a padded request is scheduled with. *)
Definition padding (pad : bool) : list Z := if pad then replicate (Z.to_nat (num_spec_tokens cfg)) (-1) else [].

(** The part of the locals that the waiting phase leaves alone. *)
Definition running_part st := (scheduled_running_reqs st, preempted_reqs st).

Lemma record_waiting_spec budget st r blocks n pad b :
  step_ok cfg budget st → unblocked r → request_id r ∉ scheduled st → 0 < n → n ≤ token_budget st →
  n ≤ input_budget st - max_num_new_slots_for_drafting cfg → (pad = true → n = 1 + num_spec_tokens cfg ∧ 0 < num_spec_tokens cfg) →
  runs (record_waiting cfg r blocks n pad [] b st) (λ st', step_ok cfg budget st' ∧ running_part st' = running_part st ∧
    ∀ id, pend st' id = if decide (id = request_id r) then (n, py_len (padding pad)) else pend st id).
Proof.
  intros Hst Hub Hns Hn Ht Hi Hpad. unfold record_waiting.
  assert (Hassert : (if pad then py_assert (n =? 1 + num_spec_tokens cfg) else Ok ()) = Ok ()).
  { destruct pad; [|done]. destruct (Hpad eq_refl) as [-> _]. by rewrite Z.eqb_refl. }
  assert (Hif : (if pad then od_set (scheduled_spec_decode_tokens st) (request_id r) (padding true) else scheduled_spec_decode_tokens st) =
    (if bool_decide (padding pad = []) then scheduled_spec_decode_tokens st else od_set (scheduled_spec_decode_tokens st) (request_id r) (padding pad))).
  { destruct pad; [|done]. destruct (Hpad eq_refl) as [_ Hs]. rewrite bool_decide_false; [done|]. unfold padding.
    destruct (Z.to_nat (num_spec_tokens cfg)) eqn:En; [lia|done]. }
  pose proof (sp_inputs _ _ _ Hst) as Hin. destruct Hub as [-> | ->]; cbn [mbind result_bind]; rewrite Hassert; cbn [mbind result_bind runs].
  all: set (st' := {| scheduled_new_reqs := _ |}); assert (Hst' := step_ok_record cfg Hcfg budget st st' (request_id r) n blocks (padding pad) Hst Hns Hn Ht Hi eq_refl Hif eq_refl).
  all: destruct Hst' as [Hst' Hp]; [|by subst st'; simpl|done|done|by split_and!].
  - subst st'. simpl. rewrite <-!app_assoc. simpl. by rewrite <-!Permutation_middle.
  - subst st'. simpl. rewrite !app_assoc. symmetry. apply Permutation_cons_append.
Qed.

(** The request is admitted with the slots it was given. *)
Lemma admitted_running fl r n nc c pad :
  request_ok r → waiting_ok fl r → inflight_ok cfg fl → 0 ≤ nc → nc + n ≤ c → nc + n ≤ mml →
  (if pad : bool then n = 1 + num_spec_tokens cfg ∧ 0 < num_spec_tokens cfg ∧ num_tokens r = nc + 1 else 0 < n ∧ nc + n ≤ num_tokens r) →
  running_ok (mml := mml) cfg fl (n, py_len (padding pad)) (Some c) (set_num_computed_tokens nc (set_status RUNNING r)).
Proof.
  intros Hok Hw Hfl Hnc Hc Hlen Hpad.
  assert (Hd : py_len (padding pad) = if pad then num_spec_tokens cfg else 0).
  { unfold padding. destruct pad; [|done]. unfold py_len. rewrite length_replicate. lia. }
  pose proof (st_sampled _ _ Hcfg).
  assert (Ec : num_computed_tokens (set_num_computed_tokens nc (set_status RUNNING r)) = nc) by done.
  assert (Et : num_tokens (set_num_computed_tokens nc (set_status RUNNING r)) = num_tokens r) by done.
  assert (Ep : num_output_placeholders (set_num_computed_tokens nc (set_status RUNNING r)) = 0) by apply Hw.
  split; cbn [fst snd]; rewrite ?Ec, ?Et, ?Ep, ?Hd; try done.
  - destruct pad; lia.
  - destruct pad; lia.
  - by exists c.
  - exists (length fl). rewrite take_ge, drop_ge by lia. change (credits_of []) with 0. split; [lia|]. split; [apply Hw|]. split; [done|].
    split; [destruct pad; lia|by destruct (async_scheduling cfg)].
  - intros _. destruct pad; lia.
  - intros Hne. destruct Hne. apply Hw.
Qed.

Lemma running_request_ok r nc : request_ok r → request_ok (set_num_computed_tokens nc (set_status RUNNING r)).
Proof. intros Hr. apply (request_ok_content r); simpl; try done. apply Hr. Qed.

(** The outcome of a round of the loop. *)
Definition round_post budget w s (lw ls lk : list Request) (out : bool * WaitStep (Q := Q) * Scheduler K E Q) : Prop :=
  let '(continue, w', s') := out in
  ∃ v' lw' ls' lk', wait_inv budget v' w' s' lw' ls' lk' ∧ same_requests s s' ∧ running_part (w_step w') = running_part (w_step w) ∧
    ((continue : bool) = true → (length (lw' ++ ls') < length (lw ++ ls))%nat) ∧
    ∃ more, running s' = running s ++ more ∧ (length more ≤ 1)%nat.

Lemma admit_waiting_spec budget v w s lw ls lk skipped x l r b lookup nc n pad bud :
  wait_inv budget v w s lw ls lk → pick skipped lw ls = x :: l → requests s !! request_id x = Some r → unblocked r →
  kv_hit (request_id x) nc b (kv s) → 0 ≤ nc → 0 < n → n ≤ token_budget (w_step w) →
  n ≤ input_budget (w_step w) - max_num_new_slots_for_drafting cfg → nc + n ≤ mml →
  (if pad : bool then n = 1 + num_spec_tokens cfg ∧ 0 < num_spec_tokens cfg ∧ num_tokens r = nc + 1 else nc + n ≤ num_tokens r) →
  runs (admit_waiting cfg skipped (request_id x) b nc lookup nc n pad [] bud w s) (round_post budget w s lw ls lk).
Proof.
  intros [Hlw Hls Hlk Hc Hst Hsub] Hpick Hr Hub Hhit Hnc Hn Ht Hi Hlen Hpad.
  assert (Hx : x ∈ lw ++ ls ++ lk) by (destruct skipped; simpl in Hpick; subst; set_solver).
  destruct (core_queued _ Hc Hx) as (r0 & Hr0 & Hid & Hpy & Hok & Hwait & Hnr & Hv). rewrite Hr in Hr0. injection Hr0 as <-.
  unfold admit_waiting, the_request. rewrite Hr. cbn [unwrap mbind result_bind].
  eapply runs_bind.
  { apply (kv_admit_law v (kv s) r b nc n); try done; [apply Hc|by rewrite Hid|apply Hok|apply Hwait|apply Hok|apply Hok|by rewrite Hid|apply Hcfg]. }
  intros [[res r'] k'] (Hs & Hready & Hres). pose proof (strip_eq _ _ Hs) as [m Hm].
  assert (Hid' : request_id r' = request_id x) by by subst r'.
  assert (Hok' : request_ok r') by by eapply request_ok_memo. assert (Hw' : waiting_ok (q (request_id x)) r') by by eapply waiting_ok_memo.
  destruct res as [nb|].
  - destruct Hres as (c & Hc1 & Hk'). rewrite Hid in Hk'.
    eapply (runs_bind _ _ (kv_ok (<[request_id x:=c]> v))); [destruct lookup; [by apply kv_stats_law|done]|].
    intros k2 Hk2. eapply runs_bind; [apply (pop_waiting_spec _ lw ls skipped x l); done|].
    intros [y s2] (-> & lw' & ls' & Hlw' & Hls' & Hperm & [= Hreq2 Hrun2 Hkv2 Henc2] & Hkept2).
    assert (Hns : request_id r' ∉ scheduled (w_step w)) by (rewrite Hid'; intros Hin; by apply Hnr, Hsub).
    eapply runs_bind; [apply (record_waiting_spec budget); try done|].
    { by destruct Hub; [left|right]; subst r'. } { by destruct pad; intros; [naive_solver|]. }
    intros st' (Hst' & Hpart & Hpend). rewrite (st_loras _ _ Hcfg). simpl. rewrite Hid' in Hpend.
    set (rf := set_num_computed_tokens nc (set_status RUNNING r')).
    assert (Hreqs : requests (put_request rf (set_running (running s2 ++ [request_id x]) s2)) = <[request_id x:=rf]> (requests s)).
    { rewrite put_reqs. simpl. rewrite Hreq2, Hid'. by rewrite insert_insert_eq. }
    exists (<[request_id x:=c]> v), lw', ls', lk. split; [|split; [|split; [done|split]]].
    + split; try done.
      * cbn [requests running kv enc set_inflight_prefills set_enc w_step]. rewrite Hreqs, Hrun2.
        destruct (co_req Hc _ _ Hr) as (_ & _ & Hfl & Hin).
        eapply (core_admit _ _ _ (lw ++ ls ++ lk)); [exact Hc| |change (kv_ok (<[request_id x:=c]> v) (kv s2)); by rewrite Hkv2|change (enc_ok (enc s2)); rewrite Henc2; apply Hc|exact Hr|by subst rf|by subst rf r'| |by subst rf r'| |].
        -- rewrite app_assoc, Hperm. simpl. by rewrite <-app_assoc.
        -- by apply running_request_ok.
        -- intros id Hne. rewrite Hpend, decide_False, lookup_insert_ne by done. done.
        -- rewrite Hpend, decide_True, lookup_insert_eq by done. apply admitted_running; try done. subst r'.
           change (num_tokens (set_prompt_embeds_per_block_hashes m r)) with (num_tokens r). destruct pad; naive_solver.
      * cbn [running set_inflight_prefills set_enc]. change (scheduled st' ⊆ running s2 ++ [request_id x]). rewrite Hrun2.
        intros id Hid2. apply od_get_keys in Hid2 as [z Hz]. rewrite elem_of_app, list_elem_of_singleton.
        destruct (decide (id = request_id x)) as [->|Hne]; [by right|left]. apply Hsub, od_get_keys.
        pose proof (Hpend id) as Hp. rewrite decide_False in Hp by done. unfold pend in Hp. injection Hp as Hp _. rewrite Hz in Hp. simpl in Hp.
        apply od_get_Some_in, (sp_pos _ _ _ Hst') in Hz. simpl in Hz. destruct (od_get (num_scheduled_tokens (w_step w)) id); [done|simpl in Hp; lia].
    + split; [exact Hkept2|]. intros id. unfold fixed_of. cbn [requests set_inflight_prefills set_enc]. rewrite Hreqs.
      destruct (decide (id = request_id x)) as [->|Hne]; [rewrite lookup_insert_eq, Hr; by subst rf r'|by rewrite lookup_insert_ne].
    + intros _. apply Permutation_length in Hperm. simpl in Hperm. lia.
    + exists [request_id x]. cbn [running set_inflight_prefills set_enc]. by rewrite <-Hrun2.
  - assert (Henc : (if 0 <? num_encoder_inputs r' then ec_free r' (enc (set_kv k' (put_request r' s))) else Ok (enc (set_kv k' (put_request r' s)))) = Ok (enc s)).
    { unfold num_encoder_inputs. by rewrite (rq_text _ Hok'). }
    rewrite Henc. cbn [mbind result_bind runs]. exists v, lw, ls, lk. split; [|split; [|split; [done|split; [done|]]]].
    + split; try done. cbn [requests running kv enc set_enc set_kv]. rewrite put_reqs, Hid'.
      eapply core_put; [exact Hc|done|apply Hc|done|done|done|by subst r'|by subst r'|done|done|done|done].
    + apply (put_same s r r' (request_id x) k' (enc s)); [done|done|by subst r'].
    + exists []. rewrite app_nil_r. split; [done|simpl; lia].
Qed.

(** *** A round *)

Lemma round_stop budget v w s lw ls lk s' (w' := w) :
  wait_inv budget v w s' lw ls lk → same_requests s s' → running s' = running s → round_post budget w s lw ls lk (false, w, s').
Proof. intros Hwi Hs Hrun. exists v, lw, ls, lk. split_and!; try done. exists []. rewrite app_nil_r. split; [done|simpl; lia]. Qed.

Lemma skip_waiting_spec budget v w s0 s lw ls lk skipped x l r :
  wait_inv budget v w s lw ls lk → pick skipped lw ls = x :: l → requests s !! request_id x = Some r →
  same_requests s0 s → running s = running s0 →
  runs ('(w', s') ← skip_waiting skipped r w s; Ok (true, w', s')) (round_post budget w s0 lw ls lk).
Proof.
  intros [Hlw Hls Hlk Hc Hst Hsub] Hpick Hr Hsame Hrun.
  assert (Hx : x ∈ lw ++ ls ++ lk) by (destruct skipped; simpl in Hpick; subst; set_solver).
  destruct (core_queued _ Hc Hx) as (r0 & Hr0 & Hid & Hpy & _). rewrite Hr in Hr0. injection Hr0 as <-.
  unfold skip_waiting. pose proof (pop_waiting_spec s lw ls skipped x l Hlw Hls Hpick) as Hpop.
  destruct (pop_waiting skipped s) as [[y s1]|]; [|done]. destruct Hpop as (-> & lw' & ls' & Hlw' & Hls' & Hperm & [= E1 E2 E3 E4] & Hkept).
  cbn [mbind result_bind]. assert (Hfresh : py_id r ∉ py_id <$> lk).
  { rewrite Hpy. pose proof (core_identities Hc) as Hnd. rewrite app_assoc, Hperm in Hnd. simpl in Hnd. apply NoDup_cons in Hnd as [Hnd _].
    rewrite !fmap_app, !elem_of_app in Hnd. naive_solver. }
  pose proof (rep_prepend _ lk r Hlk Hfresh) as Hpre. destruct (prepend_request r (step_skipped_waiting w)) as [q'|]; [|done].
  cbn [mbind result_bind runs]. exists v, lw', ls', (requeue P r lk). split; [|split; [|split; [done|split]]].
  - split; try done; simpl; rewrite ?E1, ?E2, ?E3, ?E4; [|done]. eapply core_requeue; [exact Hc|].
    rewrite (app_assoc lw' ls'), (app_assoc lw ls), (fmap_app _ (lw' ++ ls')), (fmap_app _ (lw ++ ls)), requeue_perm, Hperm. simpl.
    assert (He : entry r = entry x) by (unfold entry; by rewrite Hid, Hpy). rewrite He. symmetry. apply Permutation_middle.
  - split; [by rewrite Hkept; apply Hsame|]. intros id. unfold fixed_of. rewrite E1. apply Hsame.
  - intros _. apply Permutation_length in Hperm. simpl in Hperm. lia.
  - exists []. rewrite app_nil_r, E2. split; [done|simpl; lia].
Qed.

Lemma schedule_waiting_spec budget v w s0 s lw ls lk skipped x l r defer :
  wait_inv budget v w s lw ls lk → pick skipped lw ls = x :: l → requests s !! request_id x = Some r → unblocked r →
  0 < token_budget (w_step w) → max_num_new_slots_for_drafting cfg < input_budget (w_step w) →
  same_requests s0 s → running s = running s0 →
  runs (schedule_waiting cfg skipped defer (request_id x) w s) (round_post budget w s0 lw ls lk).
Proof.
  intros Hwi Hpick Hr Hub Ht Hi Hsame Hrun.
  assert (Hx : x ∈ lw ++ ls ++ lk) by (destruct skipped; simpl in Hpick; subst; set_solver).
  unfold schedule_waiting, the_request. rewrite Hr. cbn [unwrap mbind result_bind].
  eapply runs_bind; [by apply (waiting_computed_spec budget v w s lw ls lk)|].
  intros [[[[b nl] lookup] nc] s1] (Hwi1 & Hsame1 & Hrun1 & -> & Hnc & Hhit & r1 & Hr1 & m & bd & Er1).
  assert (Hstop : round_post budget w s0 lw ls lk (false, w, s1)) by (apply (round_stop _ v); [done|by etransitivity|congruence]).
  rewrite Hr1. cbn [unwrap mbind result_bind]. destruct (defer && _); [done|].
  assert (Et : num_tokens r1 = num_tokens r) by by subst r1.
  destruct (core_queued _ (wi_core _ _ _ _ _ _ _ Hwi1) Hx) as (r2 & Hr2 & _ & _ & Hok1 & _). rewrite Hr1 in Hr2. injection Hr2 as <-.
  eapply runs_bind; [apply (waiting_tokens_spec r1 nc (w_step w)); [by rewrite Et|apply Hok1|done|done]|].
  intros [[n pad]|] Htok; [|done]. destruct (Htok n pad eq_refl) as (Hn & Hin & Hlen & Hpad). rewrite no_encoder_inputs by apply Hok1.
  cbn [mbind result_bind]. replace (set_enc (enc s1) s1) with s1 by by destruct s1.
  destruct (Z.eqb_spec (_reserve_prefill_lookahead cfg r1 nc n) 0) as [_|Hne]; [done|]. apply reserve_bounds in Hne.
  assert (Hp : pad = true → _reserve_prefill_lookahead cfg r1 nc n = n).
  { intros ->. destruct Hpad as (_ & _ & Heq). apply reserve_padded; [lia|done]. }
  eapply runs_mono; [apply (admit_waiting_spec budget v w s1 lw ls lk skipped x l r1); try done; try lia|].
  - destruct Hub; [left|right]; by subst r1.
  - destruct pad; [by rewrite Hp|lia].
  - intros [[c w'] s'] (v' & lw' & ls' & lk' & H1 & H2 & H3 & H4 & more & H5 & H6). exists v', lw', ls', lk'.
    split_and!; try done; [by do 2 (etransitivity; [done|])|]. exists more. by rewrite <-Hrun, <-Hrun1.
Qed.

(** A request whose grammar is being compiled, or any other. *)
Lemma promote_spec budget v w s lw ls lk x r g :
  wait_inv budget v w s lw ls lk → x ∈ lw ++ ls ++ lk → requests s !! request_id x = Some r →
  runs (if _is_blocked_waiting_status (status r) then _try_promote_blocked_waiting_request g r s else Ok (true, s))
    (λ '(ready, s'), wait_inv budget v w s' lw ls lk ∧ same_requests s s' ∧ running s' = running s ∧
      ∃ r', requests s' !! request_id x = Some r' ∧ ((ready : bool) = true → unblocked r')).
Proof.
  intros Hwi Hx Hr. destruct (core_queued _ (wi_core _ _ _ _ _ _ _ Hwi) Hx) as (r0 & Hr0 & Hid & Hpy & Hok & Hwait & Hnr & Hv).
  rewrite Hr in Hr0. injection Hr0 as <-.
  assert (Hself : wait_inv budget v w s lw ls lk ∧ same_requests s s ∧ running s = running s) by by split_and!.
  destruct (wait_status _ _ Hwait) as [[Hs _]|[[Hs|Hs] [Hnt Hfl]]]; rewrite Hs; simpl.
  1,2: destruct Hself as (? & ? & ?); split_and!; try done; exists r; split; [done|intros _; unfold unblocked; auto].
  unfold _try_promote_blocked_waiting_request. rewrite Hs. destruct g; simpl.
  - destruct Hself as (? & ? & ?). split_and!; try done. by exists r.
  - split_and!; [by destruct Hwi|done|done|]. by exists r.
  - destruct Hwi as [H1 H2 H3 H4 H5 H6]. split_and!; [|by apply (put_same s r _ (request_id x) (kv s) (enc s))|done|].
    + split; try done. cbn [requests running kv enc set_reqs put_request].
      assert (Hw' : waiting_ok (q (request_id x)) (set_status WAITING r)) by (destruct Hwait; split; try done; right; by split_and!; [left| |]).
      assert (Hok' : request_ok (set_status WAITING r)) by (apply (request_ok_content r); simpl; try done; apply Hok).
      change (request_id (set_status WAITING r)) with (request_id r). rewrite Hid. eapply core_put; [exact H4|apply H4|apply H4|done|done|done|done|done|done|done|done|done].
    + exists (set_status WAITING r). simpl. rewrite Hid, lookup_insert_eq. split; [done|]. intros _. by left.
Qed.

Lemma waiting_step_spec budget v w s lw ls lk skipped grammar defer :
  wait_inv budget v w s lw ls lk → pick skipped lw ls ≠ [] →
  0 < token_budget (w_step w) → max_num_new_slots_for_drafting cfg < input_budget (w_step w) →
  runs (waiting_step cfg grammar skipped defer w s) (round_post budget w s lw ls lk).
Proof.
  intros Hwi Hne Ht Hi. destruct (pick skipped lw ls) as [|x l] eqn:Hpick; [done|].
  assert (Hpeek : peek_request (queue_of skipped s) = Ok x).
  { destruct skipped; simpl in Hpick; subst; eapply rep_peek; apply Hwi. }
  assert (Hx : x ∈ lw ++ ls ++ lk) by (destruct skipped; simpl in Hpick; subst; set_solver).
  destruct (core_queued _ (wi_core _ _ _ _ _ _ _ Hwi) Hx) as (r & Hr & _).
  unfold waiting_step, the_request. rewrite Hpeek. cbn [mbind result_bind]. rewrite Hr. cbn [unwrap mbind result_bind].
  eapply runs_bind; [by apply (promote_spec budget v w s lw ls lk)|].
  intros [ready s1] (Hwi1 & Hsame1 & Hrun1 & r1 & Hr1 & Hub). rewrite Hr1. cbn [unwrap mbind result_bind].
  destruct (negb ready || _ || _) eqn:Eskip; [by eapply skip_waiting_spec|]. apply orb_false_iff in Eskip as [[Hready _]%orb_false_iff _].
  apply negb_false_iff in Hready. eapply schedule_waiting_spec; try done. by apply Hub.
Qed.

(** *** The loop *)

Lemma waiting_loop_spec budget fuel v w s lw ls lk grammar defer :
  wait_inv budget v w s lw ls lk → (length (lw ++ ls) < fuel)%nat → py_len (running s) ≤ max_num_running_reqs cfg →
  runs (waiting_loop cfg fuel grammar defer w s) (λ '(w', s'), ∃ v' lw' ls' lk', wait_inv budget v' w' s' lw' ls' lk' ∧ same_requests s s' ∧
    running_part (w_step w') = running_part (w_step w) ∧ py_len (running s') ≤ max_num_running_reqs cfg ∧ running s `prefix_of` running s').
Proof.
  revert v w s lw ls lk. induction fuel as [|fuel IH]; intros v w s lw ls lk Hwi Hfuel Hmax; [lia|]. cbn [waiting_loop].
  destruct (_ || _) eqn:Estop; [simpl; by exists v, lw, ls, lk|].
  apply orb_false_iff in Estop as [[[Hq Ht]%orb_false_iff Hi]%orb_false_iff Hrun]. zbool.
  eapply runs_bind; [eapply select_spec; [apply Hwi|apply Hwi|done]|]. intros which (skipped & -> & Hpick). cbn [unwrap mbind result_bind].
  eapply runs_bind; [by apply (waiting_step_spec budget v w s lw ls lk)|].
  intros [[continue w1] s1] (v1 & lw1 & ls1 & lk1 & Hwi1 & Hsame1 & Hpart1 & Hmeas & more & Hrun1 & Hmore).
  assert (Hmax1 : py_len (running s1) ≤ max_num_running_reqs cfg) by (rewrite Hrun1, py_len_app; unfold py_len in *; lia).
  assert (Hpre1 : running s `prefix_of` running s1) by by exists more.
  destruct continue; [|simpl; by exists v1, lw1, ls1, lk1]. specialize (Hmeas eq_refl).
  eapply runs_mono; [apply (IH v1 w1 s1 lw1 ls1 lk1 Hwi1); [lia|done]|].
  intros [w2 s2] (v2 & lw2 & ls2 & lk2 & Hwi2 & Hsame2 & Hpart2 & Hmax2 & Hpre2). exists v2, lw2, ls2, lk2.
  split_and!; [done|by etransitivity|congruence|done|by etransitivity].
Qed.

(** The state after the two phases. *)
Record phase_inv (budget : Z) v st s : Prop := {
  pi_core : ∃ lw ls, represents (waiting s) lw ∧ represents (skipped_waiting s) ls ∧
    core cfg q (pend st) (lw ++ ls) v (requests s) (running s) (kv s) (enc s);
  pi_step : step_ok cfg budget st;
  pi_scheduled : scheduled st ⊆ running s;
}.

Lemma run_phase budget v st s : run_inv cfg q budget v st s → phase_inv budget v st s.
Proof.
  intros [Hc Hst [E1 E2] Hbef]. split; [done|done|]. intros id. rewrite (sp_lists _ _ _ Hst), E1, E2, !app_nil_r.
  intros (i & Hi & _)%Hbef%elem_of_take. by eapply list_elem_of_lookup_2.
Qed.

(** The requests that were passed over go back to [skipped_waiting]. *)
Lemma restore_skipped budget v w s lw ls lk :
  wait_inv budget v w s lw ls lk →
  runs (if queue_bool (step_skipped_waiting w) then
          rs ← queue_iter (step_skipped_waiting w);
          q ← prepend_requests rs (skipped_waiting s);
          Ok (set_skipped_waiting q s)
        else Ok s) (λ s', phase_inv budget v (w_step w) s' ∧ same_requests s s' ∧ running s' = running s).
Proof.
  intros [Hlw Hls Hlk Hc Hst Hsub]. rewrite (rep_bool _ _ Hlk). case_bool_decide as Hnil; simpl.
  - split_and!; try done. split; try done. exists lw, ls. subst lk. by rewrite app_nil_r in Hc.
  - rewrite (rep_iter _ _ Hlk). cbn [mbind result_bind]. eapply runs_bind.
    { apply (rep_prepend_all _ ls lk Hls). pose proof (core_identities Hc) as Hnd. rewrite fmap_app in Hnd. apply NoDup_app in Hnd as (_ & _ & Hnd).
      by rewrite Permutation_app_comm. }
    intros q' Hq'. simpl. split; [|by split]. split; try done. exists lw, (foldl (λ l r, requeue P r l) ls lk).
    split; [done|]. split; [done|]. eapply core_perm; [exact Hc| |done|apply Hc|apply Hc]. simpl.
    by rewrite prepend_all_perm, (Permutation_app_comm lk ls).
Qed.

Lemma schedule_waiting_requests_spec budget v st s grammar defer :
  run_inv cfg q budget v st s → py_len (running s) ≤ max_num_running_reqs cfg →
  runs (schedule_waiting_requests cfg new_queue grammar defer st s) (λ '(st', s'), ∃ v', phase_inv budget v' st' s' ∧ same_requests s s' ∧
    running_part st' = running_part st ∧ py_len (running s') ≤ max_num_running_reqs cfg ∧ running s `prefix_of` running s' ∧
    (preempted_reqs st ≠ [] → running s' = running s)).
Proof.
  intros Hri Hmax. unfold schedule_waiting_requests, running_loras. rewrite (st_loras _ _ Hcfg). cbn [mbind result_bind].
  pose proof (run_phase _ _ _ _ Hri) as Hphase.
  destruct (bool_decide (preempted_reqs st = []) && _) eqn:Ego; [|simpl; by exists v].
  apply andb_true_iff in Ego as [Hpre _]. apply bool_decide_eq_true in Hpre.
  destruct Hphase as [(lw & ls & Hlw & Hls & Hc) Hst Hsub].
  assert (Hwi : wait_inv budget v (mkWaitStep st ∅ new_queue) s lw ls []) by (split; try done; by rewrite app_nil_r).
  eapply runs_bind; [apply (waiting_loop_spec budget _ v _ s lw ls [] grammar defer Hwi); [|done]|].
  { rewrite (rep_len _ _ Hlw), (rep_len _ _ Hls), length_app. unfold py_len. lia. }
  intros [w1 s1] (v1 & lw1 & ls1 & lk1 & Hwi1 & Hsame1 & Hpart1 & Hmax1 & Hpre1).
  eapply runs_bind; [by apply (restore_skipped budget v1 w1 s1 lw1 ls1 lk1)|].
  intros s2 (Hphase2 & Hsame2 & Hrun2). simpl. exists v1.
  assert (Hdone : ∀ s3, (waiting s3, skipped_waiting s3, requests s3, running s3, kv s3, enc s3, kept_fields s3) =
      (waiting s2, skipped_waiting s2, requests s2, running s2, kv s2, enc s2, kept_fields s2) →
    phase_inv budget v1 (w_step w1) s3 ∧ same_requests s s3 ∧ running_part (w_step w1) = running_part st ∧
    py_len (running s3) ≤ max_num_running_reqs cfg ∧ running s `prefix_of` running s3 ∧ (preempted_reqs st ≠ [] → running s3 = running s)).
  { intros s3 [= E1 E2 E3 E4 E5 E6 E7 E8 E9 E10]. destruct Hphase2 as [P1 P2 P3]. split_and!; try done.
    - split; [|done|by rewrite E4]. by rewrite E1, E2, E3, E4, E5, E6.
    - etransitivity; [exact Hsame1|]. etransitivity; [exact Hsame2|]. split; [unfold kept_fields; congruence|]. intros id. unfold fixed_of. by rewrite E3.
    - by rewrite E4, Hrun2.
    - by rewrite E4, Hrun2. }
  apply Hdone. by destruct defer.
Qed.
End Waiting.
