(* ===== verification/SchedulerRun.v ===== *)
(** * The scheduler: the step as a whole

    The assertions at the end of [schedule], the output for the model runner
    and the counters of the scheduled requests; and the theorem on
    [schedule]. *)

From S2P Require Import Prelude FreeQueue Request BlockHash EncoderCache RequestQueue SchedUtils KVCacheManager Scheduler SchedulerSpec SchedulerStep SchedulerWaiting.
Local Open Scope Z_scope.

(** ** Outputs in flight *)

Section Flights.
Variable cfg : Settings.
Implicit Types (o : SchedulerOutput) (X : gset string).

(** By how much the step of an output lets a request run ahead, when the runner
    samples for the requests [X]. *)
Definition credit X (id : string) (d : Z) : Z :=
  if async_scheduling cfg then if decide (id ∈ X) then num_sampled_tokens_per_step cfg + d else 0 else d.

(** What an output has sent of a request for which [n] tokens are scheduled. *)
Definition sent o X (id : string) (n : Z) : Sent :=
  let d := py_len (default [] (od_get (so_scheduled_spec_decode_tokens o) id)) in mkSent n d (credit X id d).

Definition entries o X (l : list (string * Z)) : list (string * Sent) := (λ x, (x.1, sent o X x.1 x.2)) <$> l.

(** What an output has sent of all its requests. *)
Definition flight_of o X : list (string * Sent) := entries o X (so_num_scheduled_tokens o).

Definition flight_ok (l : list (string * Sent)) : Prop := NoDup (od_keys l) ∧ ∀ x, x ∈ l → sent_ok cfg x.2.

(** What the outputs [fl], the oldest first, hold of a request. *)
Definition view (fl : list (list (string * Sent))) (id : string) : list Sent := omap (λ l, od_get l id) fl.

Lemma view_app fl fl' id : view (fl ++ fl') id = view fl id ++ view fl' id.
Proof. apply omap_app. Qed.

Lemma od_get_fmap {A B} (f : string → A → B) (d : list (string * A)) id :
  od_get ((λ x, (x.1, f x.1 x.2)) <$> d) id = f id <$> od_get d id.
Proof. induction d as [|[k a] d IH]; simpl; [done|]. case_decide as Hk; simpl; [by subst|done]. Qed.

Lemma entries_get o X l id : od_get (entries o X l) id = sent o X id <$> od_get l id.
Proof. apply (od_get_fmap (sent o X)). Qed.

Lemma flight_keys o X : od_keys (flight_of o X) = od_keys (so_num_scheduled_tokens o).
Proof. unfold flight_of, entries, od_keys. rewrite <-list_fmap_compose. done. Qed.
End Flights.

Section Run.
Context {K E Q : Type} `{!KVCache K, !EncoderCacheOps E, !RequestQueue Q} {P : policy}.
Context `{!QueueRefines Q P, !PolicyPerm P} {mml : Z} {block_hasher : option BlockHasher}.
Context `{!KVLaws K mml block_hasher, !EncLaws E}.
Variable cfg : Settings.
Implicit Types (s : Scheduler K E Q) (st : Step) (r : Request) (rid id : string) (v : gmap string Z) (o : SchedulerOutput).

(** ** The invariant of the scheduler *)

Record sched_inv (fl : list (list (string * Sent))) s : Prop := {
  si_core : ∃ v lw ls, represents (waiting s) lw ∧ represents (skipped_waiting s) ls ∧
    core cfg (view fl) (λ _, (0, 0)) (lw ++ ls) v (requests s) (running s) (kv s) (enc s);
  si_running : py_len (running s) ≤ max_num_running_reqs cfg;
  si_flight l : l ∈ fl → flight_ok cfg l;
}.

(** The requests of an output for which the runner samples: those whose tokens
    are all computed, once the step is counted. *)
Definition sampling o s : gset string :=
  list_to_set (filter (λ id, (is_prefill_chunk <$> requests s !! id) = Some false) (od_keys (so_num_scheduled_tokens o))).

(** ** The counters of the scheduled requests *)

(** What [AsyncScheduler] adds to a request whose step has [d] drafts. *)
Definition placed o (step d : Z) r : Request :=
  if is_prefill_chunk r then r
  else
    let r := set_spec_token_ids (replicate (Z.to_nat (num_spec_tokens_to_schedule o)) (-1))
               (set_num_output_placeholders (num_output_placeholders r + (num_sampled_tokens_per_step cfg + d)) r) in
    if use_v2_model_runner cfg then set_next_decode_eligible_step (step + pp_size cfg) r else r.

(** A request after a step that gave it [n] tokens, [d] of them drafts. *)
Definition counted_request o (step n d : Z) r : Request :=
  if async_scheduling cfg then placed o step d (advance n r) else advance n r.

Lemma counted_fields o step n d r (chunk := num_computed_tokens r + n <? num_tokens r + num_output_placeholders r) (r' := counted_request o step n d r) :
  is_prefill_chunk r' = chunk ∧
  (status r', num_in_flight_tokens r', num_computed_tokens r', num_stale_output_tokens r', num_tokens r') =
    (status r, num_in_flight_tokens r + n, num_computed_tokens r + n, num_stale_output_tokens r, num_tokens r) ∧
  num_output_placeholders r' = num_output_placeholders r + (if async_scheduling cfg && negb chunk then num_sampled_tokens_per_step cfg + d else 0) ∧
  (spec_token_ids r' = spec_token_ids r ∨ async_scheduling cfg = true ∧ chunk = false).
Proof.
  subst r'. unfold counted_request, placed. assert (Ea : is_prefill_chunk (advance n r) = chunk) by done.
  destruct (async_scheduling cfg); [rewrite Ea; destruct chunk; [|destruct (use_v2_model_runner cfg)]|]; split_and!;
    try done; try (by left); try (by right); cbn; lia.
Qed.

Lemma counted_ids o step n d r : (request_id (counted_request o step n d r), py_id (counted_request o step n d r)) = (request_id r, py_id r) ∧
  num_in_flight_tokens (counted_request o step n d r) = num_in_flight_tokens r + n.
Proof.
  unfold counted_request, placed. destruct (async_scheduling cfg); [|done]. by destruct (is_prefill_chunk (advance n r)), (use_v2_model_runner cfg).
Qed.

Lemma counted_ok o step n d r : request_ok r → request_ok (counted_request o step n d r).
Proof.
  intros Hr. apply (request_ok_content r); unfold counted_request, placed; try apply Hr; destruct (async_scheduling cfg); try done.
  all: destruct (is_prefill_chunk (advance n r)), (use_v2_model_runner cfg); try done; apply Hr.
Qed.

(** The step in flight, and the request with its new counters. *)
Lemma counted_running o step X fl n d c r id (chunk := num_computed_tokens r + n <? num_tokens r + num_output_placeholders r) :
  settings_ok cfg mml → running_ok (mml := mml) cfg fl (n, d) c r → inflight_ok cfg fl → 0 < n → (id ∈ X ↔ chunk = false) →
  let e := mkSent n d (credit cfg X id d) in
  sent_ok cfg e ∧ running_ok (mml := mml) cfg (fl ++ [e]) (0, 0) c (counted_request o step n d r).
Proof.
  intros Hcfg [G1 G2 G3 (c0 & G4 & G5) G6 (j & Hj & G7 & G8 & G9 & G10) G11 G12] Hfl Hn HX e.
  pose proof (st_sampled _ _ Hcfg). cbn [fst snd] in *.
  assert (Ecr : credit cfg X id d = if async_scheduling cfg then if chunk then 0 else num_sampled_tokens_per_step cfg + d else d).
  { unfold credit. destruct (async_scheduling cfg); [|done]. destruct chunk; [rewrite decide_False by naive_solver|rewrite decide_True by naive_solver]; done. }
  assert (Hchunk : if chunk then num_computed_tokens r + n < num_tokens r + num_output_placeholders r
    else num_tokens r + num_output_placeholders r ≤ num_computed_tokens r + n) by (subst chunk; destruct (Z.ltb_spec (num_computed_tokens r + n) (num_tokens r + num_output_placeholders r)); lia).
  destruct (counted_fields o step n d r) as (_ & [= F1 F2 F3 F4 F5] & F6 & F7). fold chunk in F6, F7.
  set (r' := counted_request o step n d r) in *.
  assert (Hcredit : 0 ≤ d ≤ credit cfg X id d ∧ credit cfg X id d ≤ n).
  { rewrite Ecr. destruct (async_scheduling cfg); [|lia]. specialize (G11 eq_refl). destruct chunk; lia. }
  subst e. split.
  - split_and!; cbn [sent_tokens sent_drafts sent_credit]; try lia. rewrite Ecr. destruct (async_scheduling cfg); [|done]. destruct chunk; [by right|by left].
  - assert (Hph : num_output_placeholders r' = if async_scheduling cfg then num_output_placeholders r + credit cfg X id d else 0).
    { rewrite F6, Ecr. destruct (async_scheduling cfg); simpl; [destruct chunk; simpl; lia|lia]. }
    split; cbn [fst snd]; rewrite ?F1, ?F3, ?F5; try done; try lia.
    + exists c0. split; [done|lia].
    + exists j. rewrite take_app_le, drop_app_le by done. rewrite length_app, tokens_app, credits_app.
      unfold tokens_of at 3, credits_of at 2 4. cbn [fmap list_fmap sumZ foldr sent_tokens sent_credit]. rewrite Hph, F4.
      split_and!; [simpl; lia|done|lia| |destruct (async_scheduling cfg); lia]. lia.
    + intros Ha. specialize (G11 Ha). rewrite Ha in *. rewrite Hph. destruct chunk; lia.
    + intros Hne. rewrite Hph. destruct F7 as [F7|[Ha Hch]].
      * rewrite F7 in Hne. specialize (G12 Hne). destruct (async_scheduling cfg); lia.
      * rewrite Ha in *. rewrite Hch in *. lia.
Qed.

(** *** The loops that count *)

(** What they leave alone. *)
Definition counting_frame s := (waiting s, skipped_waiting s, running s, kv s, enc s, current_step s, prev_step_scheduled_req_ids s, pause_state s, finished_req_ids s).

(** A loop that changes each of the requests [key x] by [g x]. *)
Lemma foldM_requests {A} (f : Scheduler K E Q → A → result (Scheduler K E Q)) (key : A → string) (g : A → Request → Request) l s :
  NoDup (key <$> l) → (∀ x, x ∈ l → is_Some (requests s !! key x)) →
  (∀ s1 x r, x ∈ l → requests s !! key x = Some r → requests s1 !! key x = Some r → counting_frame s1 = counting_frame s →
    runs (f s1 x) (λ s2, requests s2 = <[key x := g x r]> (requests s1) ∧ counting_frame s2 = counting_frame s1)) →
  runs (foldM f s l) (λ s', counting_frame s' = counting_frame s ∧ (∀ x, x ∈ l → requests s' !! key x = g x <$> requests s !! key x) ∧
    ∀ id, id ∉ key <$> l → requests s' !! id = requests s !! id).
Proof.
  intros Hnd Hsome Hf. eapply runs_mono; [apply (runs_foldM _ (λ dn todo s', l = dn ++ todo ∧ counting_frame s' = counting_frame s ∧
    (∀ x, x ∈ dn → requests s' !! key x = g x <$> requests s !! key x) ∧ ∀ id, id ∉ key <$> dn → requests s' !! id = requests s !! id))|].
  - split_and!; try done. by intros x ?%elem_of_nil.
  - intros dn x todo s1 (Hsplit & Hfr & Hdn & Hoth). rewrite Hsplit in Hnd. rewrite fmap_app, fmap_cons in Hnd. apply NoDup_app in Hnd as (_ & Hdis & _).
    assert (Hx : x ∈ l) by (rewrite Hsplit; apply elem_of_app; right; left). destruct (Hsome x Hx) as [r Hr].
    assert (Hnx : key x ∉ key <$> dn) by (intros Hin; apply (Hdis _ Hin); left).
    assert (Hr1 : requests s1 !! key x = Some r) by by rewrite Hoth.
    eapply runs_mono; [by apply (Hf s1 x r)|]. intros s2 [E1 E2]. split; [by rewrite <-app_assoc|]. split; [congruence|]. split.
    + intros y [Hy| ->%list_elem_of_singleton]%elem_of_app; [|by rewrite E1, lookup_insert_eq, Hr].
      rewrite E1, lookup_insert_ne; [by apply Hdn|]. intros Heq. apply Hnx. rewrite Heq. by apply list_elem_of_fmap_2.
    + intros id. rewrite fmap_app, elem_of_app, E1. intros Hn. rewrite lookup_insert_ne; [apply Hoth; tauto|]. intros <-. apply Hn. right. left.
  - by intros s' (_ & ? & ? & ?).
Qed.

(** The counters after the whole output. *)
Definition counted o s s' : Prop := ∀ id, requests s' !! id =
  match od_get (so_num_scheduled_tokens o) id with
  | Some n => counted_request o (current_step s) n (py_len (default [] (od_get (so_scheduled_spec_decode_tokens o) id))) <$> requests s !! id
  | None => requests s !! id
  end.

Lemma update_after_counts o s :
  NoDup (od_keys (so_num_scheduled_tokens o)) → (∀ id r, requests s !! id = Some r → request_id r = id) →
  (∀ id, id ∈ od_keys (so_num_scheduled_tokens o) → is_Some (requests s !! id)) →
  runs (_update_after_schedule cfg o s) (λ s', counting_frame s' = counting_frame (set_finished_req_ids ∅ s) ∧ counted o s s').
Proof.
  intros Hnd Hids Hsome. set (nums := so_num_scheduled_tokens o) in *. unfold _update_after_schedule. fold nums.
  eapply runs_bind.
  { apply (foldM_requests update_scheduled fst (λ x, advance x.2) nums s Hnd).
    - intros x Hx. apply Hsome. by apply list_elem_of_fmap_2.
    - intros s1 [id n] r _ Hr Hr1 _. unfold update_scheduled, the_request. cbn [fst snd] in *. rewrite Hr1. cbn [unwrap mbind result_bind runs].
      split; [|done]. cbn [requests set_inflight_prefills]. by rewrite <-(Hids id r Hr). }
  intros s1 (Hf1 & Hin1 & Hout1). set (s2 := set_reset_preempted_req_ids _ _).
  assert (Hreq2 : requests s2 = requests s1) by done.
  assert (Hf2 : counting_frame s2 = counting_frame (set_finished_req_ids ∅ s)) by (unfold counting_frame in *; injection Hf1; intros; cbn; congruence).
  assert (Hget : ∀ id n, od_get nums id = Some n → requests s2 !! id = advance n <$> requests s !! id).
  { intros id n Hn. rewrite Hreq2. apply (Hin1 (id, n)). by apply od_get_Some_in. }
  assert (Hnone : ∀ id, od_get nums id = None → requests s2 !! id = requests s !! id).
  { intros id Hn. rewrite Hreq2. apply Hout1. by apply od_get_None in Hn. }
  assert (Hstep : current_step s2 = current_step s) by (by injection Hf2).
  destruct (async_scheduling cfg) eqn:Ea.
  - eapply runs_mono.
    { apply (foldM_requests (add_placeholders cfg o) (λ id, id) (λ id, placed o (current_step s) (py_len (default [] (od_get (so_scheduled_spec_decode_tokens o) id)))) (od_keys nums) s2).
      - by rewrite list_fmap_id.
      - intros id [n Hn]%od_get_keys. rewrite (Hget id n Hn). rewrite fmap_is_Some. apply Hsome, od_get_keys. by rewrite Hn.
      - intros s3 id r [n Hn]%od_get_keys Hr Hr3 Hf3. unfold add_placeholders, the_request. rewrite Hr3. cbn [unwrap mbind result_bind].
        assert (Hid : request_id r = id). { rewrite (Hget id n Hn) in Hr. apply fmap_Some in Hr as (r0 & Hr0 & ->). by apply (Hids id r0). }
        assert (Hstep3 : current_step s3 = current_step s) by (rewrite <-Hstep; by injection Hf3).
        unfold placed. destruct (is_prefill_chunk r); cbn [runs]; [split; [by rewrite insert_id|done]|]. rewrite Hstep3.
        split; [|done]. rewrite put_reqs, <-Hid. by destruct (use_v2_model_runner cfg). }
    intros s3 (Hf3 & Hin3 & Hout3). split; [congruence|].
    intros id. fold nums. unfold counted_request. rewrite Ea. destruct (od_get nums id) as [n|] eqn:Hn.
    + rewrite Hin3 by (apply od_get_keys; by rewrite Hn). rewrite (Hget id n Hn). by destruct (requests s !! id).
    + rewrite Hout3; [by apply Hnone|]. rewrite list_fmap_id. by apply od_get_None.
  - cbn [runs]. split; [done|]. intros id. fold nums. unfold counted_request. rewrite Ea. destruct (od_get nums id) as [n|] eqn:Hn; [by apply Hget|by apply Hnone].
Qed.

(** ** The output *)

Definition computed_of s id : Z := default 0 (num_computed_tokens <$> requests s !! id).

(** Where the runner is told to go on, for each request of the output. *)
Definition positions o : list (string * Z) :=
  ((λ d, (new_req_id d, new_req_num_computed_tokens d)) <$> so_scheduled_new_reqs o) ++
  zip (cached_req_ids (so_scheduled_cached_reqs o)) (cached_num_computed_tokens (so_scheduled_cached_reqs o)).

Lemma new_data_spec st s rids :
  (∀ id, id ∈ rids → is_Some (requests s !! id) ∧ id ∈ od_keys (req_to_new_blocks st)) →
  runs (mapM_ok (new_request_data cfg st s) rids) (λ ds,
    ((λ d, (new_req_id d, new_req_num_computed_tokens d)) <$> ds) = (λ id, (id, computed_of s id)) <$> rids).
Proof.
  intros Hin. eapply runs_mono; [apply (runs_mapM _ (λ id d, (new_req_id d, new_req_num_computed_tokens d) = (id, computed_of s id)))|].
  - intros id Hid. destruct (Hin id Hid) as [[r Hr] [b Hb]%od_get_keys]. unfold new_request_data, the_request, computed_of.
    rewrite Hr, Hb. done.
  - intros ds Hds. symmetry. induction Hds as [|id d ids ds Hd Hds IH]; [done|]. rewrite !fmap_cons, IH, Hd; [done|].
    intros id' ?. apply Hin. by right.
Qed.

Lemma cached_spec resumed st s d rids :
  (∀ id, id ∈ rids → is_Some (requests s !! id) ∧ id ∈ scheduled st ∧ id ∈ od_keys (req_to_new_blocks st)) →
  runs (foldM (cached_request cfg resumed st s) d rids) (λ d',
    cached_req_ids d' = cached_req_ids d ++ rids ∧
    cached_num_computed_tokens d' = cached_num_computed_tokens d ++ (computed_of s <$> rids)).
Proof.
  intros Hin. eapply runs_mono; [apply (runs_foldM _ (λ dn todo d', rids = dn ++ todo ∧ cached_req_ids d' = cached_req_ids d ++ dn ∧
    cached_num_computed_tokens d' = cached_num_computed_tokens d ++ (computed_of s <$> dn)))|].
  - by rewrite !app_nil_r.
  - intros dn id todo d1 (Hsplit & H1 & H2). destruct (Hin id) as ([r Hr] & [n Hn]%od_get_keys & [b Hb]%od_get_keys).
    { rewrite Hsplit. apply elem_of_app. right. left. }
    assert (Hcomp : computed_of s id = num_computed_tokens r) by (unfold computed_of; by rewrite Hr).
    assert (Hnew : ∀ tokens, runs (Ok (mkCachedRequestData (cached_req_ids d1 ++ [id])
        (if resumed then {[id]} ∪ resumed_req_ids d1 else resumed_req_ids d1) tokens
        (if negb (use_v2_model_runner cfg) && negb (bool_decide (id ∈ prev_step_scheduled_req_ids s))
         then od_set (cached_all_token_ids d1) id (all_token_ids r) else cached_all_token_ids d1)
        (cached_new_block_ids d1 ++ [block_ids_or_none b s]) (cached_num_computed_tokens d1 ++ [num_computed_tokens r])
        (cached_num_output_tokens d1 ++ [num_output_tokens r + num_output_placeholders r]))) (λ d2,
      rids = (dn ++ [id]) ++ todo ∧ cached_req_ids d2 = cached_req_ids d ++ dn ++ [id] ∧
      cached_num_computed_tokens d2 = cached_num_computed_tokens d ++ (computed_of s <$> dn ++ [id]))).
    { intros tokens. cbn. split; [by rewrite <-app_assoc|]. rewrite H1, H2, fmap_app, !app_assoc. split; [done|]. cbn. by rewrite Hcomp. }
    unfold cached_request, the_request. rewrite Hr, Hn, Hb. destruct (use_pp cfg && negb (async_scheduling cfg)); apply Hnew.
  - by intros d' (_ & ? & ?).
Qed.

Lemma zip_fmap {A B} (f : A → B) l : zip l (f <$> l) = (λ x, (x, f x)) <$> l.
Proof. induction l as [|x l IH]; [done|]. cbn. by rewrite IH. Qed.

Lemma assert_le a b : a ≤ b → py_assert (a <=? b) = Ok tt.
Proof. intros H. by rewrite (proj2 (Z.leb_le _ _) H). Qed.

Lemma constraints_spec budget v q st s :
  phase_inv cfg q budget v st s → settings_ok cfg mml → budget ≤ max_num_scheduled_tokens cfg → py_len (running s) ≤ max_num_running_reqs cfg →
  check_constraints cfg st s = Ok tt ∧ py_len (scheduled st) ≤ max_num_running_reqs cfg.
Proof.
  intros [(lw & ls & _ & _ & Hc) Hst Hsub] Hcfg Hb Hmax.
  destruct (sp_tokens _ _ _ Hst) as [Ht1 Ht2]. destruct (sp_slots _ _ _ Hst) as [Hs1 _].
  assert (Hlen : py_len (scheduled st) ≤ py_len (running s)).
  { unfold py_len. apply inj_le, submseteq_length, NoDup_submseteq; [apply Hst|done]. }
  pose proof (Permutation_length (sp_lists _ _ _ Hst)) as Hl. rewrite !length_app in Hl.
  split; [|lia]. unfold check_constraints. by rewrite !assert_le by (done || lia || (unfold py_len in *; lia)).
Qed.

(** From the assertions to the output. *)
Record built st s s' o : Prop := {
  bu_counts : so_num_scheduled_tokens o = num_scheduled_tokens st;
  bu_drafts : so_scheduled_spec_decode_tokens o = scheduled_spec_decode_tokens st;
  bu_total : total_num_scheduled_tokens o = sumZ (num_scheduled_tokens st).*2;
  bu_finished : so_finished_req_ids o = finished_req_ids s ∧ finished_req_ids s' = finished_req_ids s;
  bu_positions : positions o ≡ₚ (λ id, (id, computed_of s id)) <$> scheduled st;
  bu_same : (requests s', waiting s', skipped_waiting s', running s') = (requests s, waiting s, skipped_waiting s, running s);
}.

Lemma build_output_spec budget v q st s :
  phase_inv cfg q budget v st s → settings_ok cfg mml → budget ≤ max_num_scheduled_tokens cfg → py_len (running s) ≤ max_num_running_reqs cfg →
  runs (build_output cfg st s) (λ '(o, s'), built st s s' o ∧ phase_inv cfg q budget v st s').
Proof.
  intros Hpi Hcfg Hb Hmax. destruct (constraints_spec _ _ _ _ _ Hpi Hcfg Hb Hmax) as [Hcheck Hlen].
  destruct Hpi as [(lw & ls & Hlw & Hls & Hc) Hst Hsub]. unfold build_output. rewrite Hcheck. cbn [mbind result_bind].
  set (ck := match running s with [] => _ | _ => _ end). assert (Hck : kv_ok v ck.2).
  { subst ck. destruct (running s); [apply Hc|apply kv_common_law, Hc]. }
  destruct ck as [common k1] eqn:Eck. clear Eck. simpl in Hck. set (s1 := set_kv k1 s).
  set (nr := if use_v2_model_runner cfg then _ else _).
  assert (Hnr : nr.1 ++ scheduled_running_reqs st ++ nr.2 ≡ₚ scheduled st).
  { rewrite (sp_lists _ _ _ Hst). subst nr. destruct (use_v2_model_runner cfg); simpl; [rewrite app_nil_r|].
    - by rewrite (Permutation_app_comm _ (scheduled_running_reqs st)).
    - rewrite !app_assoc. f_equiv. by rewrite Permutation_app_comm. }
  destruct nr as [new resumed] eqn:Enr. clear Enr. simpl in Hnr.
  assert (Hin : ∀ id, id ∈ scheduled st → is_Some (requests s1 !! id) ∧ id ∈ scheduled st ∧ id ∈ od_keys (req_to_new_blocks st)).
  { intros id Hid. split; [|split; [done|by rewrite (sp_blocks _ _ _ Hst)]]. apply (co_dom Hc), elem_of_app. left. by apply Hsub. }
  eapply runs_bind; [apply (new_data_spec st s1 new)|].
  { intros id Hid. destruct (Hin id) as (? & ? & ?); [|done]. rewrite <-Hnr. apply elem_of_app. by left. }
  intros ds Hds. unfold _make_cached_request_data. eapply runs_bind.
  { eapply runs_bind; [apply (cached_spec false st s1); intros id Hid; apply Hin; rewrite <-Hnr; set_solver|].
    intros d [Hd1 Hd2]. eapply runs_mono; [apply (cached_spec true st s1); intros id Hid; apply Hin; rewrite <-Hnr; set_solver|].
    intros d' [Hd1' Hd2']. rewrite Hd1 in Hd1'. rewrite Hd2 in Hd2'. simpl in Hd1', Hd2'. exact (conj Hd1' Hd2'). }
  intros d [Hd1 Hd2]. rewrite <-fmap_app in Hd2.
  set (s2 := if use_v2_model_runner cfg then s1 else _).
  assert (Hs2 : (requests s2, waiting s2, skipped_waiting s2, running s2, kv s2, enc s2, finished_req_ids s2) =
    (requests s, waiting s, skipped_waiting s, running s, k1, enc s, finished_req_ids s)) by (subst s2; by destruct (use_v2_model_runner cfg)).
  injection Hs2 as E1 E2 E3 E4 E5 E6 E7. rewrite <-E5 in Hck.
  eapply runs_bind; [by apply kv_copies_law|]. intros [copies k2] Hk2. cbn [mbind result_bind].
  eapply (runs_bind _ _ (λ _, True)).
  { pose proof (st_dynamic _ _ Hcfg) as Hdyn. destruct (dynamic_sd_lookup cfg) as [l|]; [|done]. destruct (0 <? _); [|done].
    rewrite py_get_nonneg by apply py_len_nonneg. destruct (lookup_lt_is_Some_2 l (Z.to_nat (py_len (num_scheduled_tokens st)))) as [z Hz]; [|by rewrite Hz].
    unfold scheduled, od_keys in Hlen. unfold py_len in *. rewrite length_fmap in Hlen. lia. }
  intros spec _. pose proof (enc_freed_law (enc (set_kv k2 s2))) as He. cbn [enc set_kv] in He. rewrite E6 in He. specialize (He (co_enc Hc)).
  cbn [enc set_kv]. rewrite E6. destruct (ec_get_freed_mm_hashes (enc s)) as [hashes e2]. simpl in He.
  pose proof (kv_ids_law v (kv (set_kv k2 s2)) Hk2) as Hk3. destruct (kv_take_new_block_ids (kv (set_kv k2 s2))) as [ids k3]. simpl in Hk3.
  cbn [runs]. split.
  - split; try done.
    + unfold positions. cbn [so_scheduled_new_reqs so_scheduled_cached_reqs]. rewrite Hds, Hd1, Hd2, zip_fmap, <-fmap_app. by rewrite Hnr.
    + cbn. by rewrite E1, E2, E3, E4.
  - split; [|done|cbn; by rewrite E4]. exists lw, ls. cbn. rewrite E1, E2, E3, E4. split; [done|]. split; [done|].
    eapply core_perm; [exact Hc|done|done|done|done].
Qed.

(** ** The step *)

(** What [schedule] promises about its output [o], from the state [s] to [s']:
    each scheduled request runs, is listed once with its position, and its
    counter moves on by what was scheduled; the budget is kept; the requests
    that finished are reported once; tokens and order of the requests are as
    they were; and requests are preempted in the order of the policy, in which
    case no waiting request is admitted. *)
Record output_ok s s' o : Prop := {
  oo_total : total_num_scheduled_tokens o = sumZ (so_num_scheduled_tokens o).*2 ∧ total_num_scheduled_tokens o ≤ max_num_scheduled_tokens cfg;
  oo_once : flight_ok cfg (flight_of cfg o (sampling o s'));
  oo_running : od_keys (so_num_scheduled_tokens o) ⊆ running s';
  oo_listed : (positions o).*1 ≡ₚ od_keys (so_num_scheduled_tokens o);
  oo_positions id c : (id, c) ∈ positions o → computed_of s' id = c + default 0 (od_get (so_num_scheduled_tokens o) id);
  oo_finished : so_finished_req_ids o = finished_req_ids s ∧ finished_req_ids s' = ∅;
  oo_requests id : fixed_of s' id = fixed_of s id;
  oo_order : ∃ vs run more, preempts cfg (key_of s) (running s) vs run ∧ running s' = run ++ more ∧ (vs ≠ [] → more = []);
}.

(** The new output is the last one in flight. *)
Lemma view_snoc fl st o X id :
  so_num_scheduled_tokens o = num_scheduled_tokens st →
  view (fl ++ [flight_of cfg o X]) id = if decide (id ∈ scheduled st) then view fl id ++ [sent cfg o X id (pend st id).1] else view fl id.
Proof.
  intros E1. rewrite view_app. cbn. unfold flight_of. rewrite entries_get, E1. case_decide as Hid.
  - apply od_get_keys in Hid as [n Hn]. unfold pend. by rewrite Hn.
  - apply od_get_None in Hid. by rewrite Hid, app_nil_r.
Qed.

Lemma step_start s fl :
  sched_inv fl s → settings_ok cfg mml → ∃ v budget, budget ≤ max_num_scheduled_tokens cfg ∧
    run_inv cfg (view fl) budget v (new_step cfg (set_current_step (current_step s + 1) s)) (set_current_step (current_step s + 1) s).
Proof.
  intros [(v & lw & ls & Hlw & Hls & Hc) _ _] Hcfg. exists v, (token_budget (new_step cfg s)). pose proof (st_budget _ _ Hcfg) as [Hb1 Hb2].
  split; [simpl; case_bool_decide; lia|]. split; [by exists lw, ls| |done|by intros id ?%elem_of_nil].
  split; try done; try constructor; simpl; try (case_bool_decide; lia); try lia; try by intros x ?%elem_of_nil.
  unfold py_len. simpl. lia.
Qed.

(** The counters after the step. *)
Lemma counted_computed o s s' id : counted o s s' → is_Some (requests s !! id) →
  computed_of s' id = computed_of s id + default 0 (od_get (so_num_scheduled_tokens o) id).
Proof.
  intros Hc [r Hr]. unfold computed_of. rewrite Hc. destruct (od_get (so_num_scheduled_tokens o) id) as [n|]; rewrite Hr; cbn; [|lia].
  set (d := py_len _). by destruct (counted_fields o (current_step s) n d r) as (_ & [= _ _ -> _ _] & _).
Qed.

Lemma counted_fixed o s s' id : counted o s s' → fixed_of s' id = fixed_of s id.
Proof.
  intros Hc. unfold fixed_of. rewrite Hc. destruct (od_get (so_num_scheduled_tokens o) id) as [n|]; [|done]. destruct (requests s !! id) as [r|]; [|done].
  cbn. f_equal. unfold counted_request, placed. destruct (async_scheduling cfg), (is_prefill_chunk (advance n r)), (use_v2_model_runner cfg); done.
Qed.

Lemma update_after_spec fl budget v st s o :
  phase_inv cfg (view fl) budget v st s → settings_ok cfg mml → py_len (running s) ≤ max_num_running_reqs cfg →
  (∀ l, l ∈ fl → flight_ok cfg l) →
  so_num_scheduled_tokens o = num_scheduled_tokens st → so_scheduled_spec_decode_tokens o = scheduled_spec_decode_tokens st →
  runs (_update_after_schedule cfg o s) (λ s', sched_inv (fl ++ [flight_of cfg o (sampling o s')]) s' ∧ counted o s s' ∧ running s' = running s ∧
    finished_req_ids s' = ∅).
Proof.
  intros [(lw & ls & Hlw & Hls & Hc) Hst Hsub] Hcfg Hmax Hfl E1 E2.
  eapply runs_mono; [apply update_after_counts|].
  { rewrite E1. apply Hst. } { intros id r Hr. by destruct (co_req Hc _ _ Hr). }
  { rewrite E1. intros id Hid. apply (co_dom Hc), elem_of_app. left. by apply Hsub. }
  intros s' (Hfr & Hcnt). assert (Hreqs := Hcnt). unfold counted in Hreqs. rewrite E1, E2 in Hreqs. injection Hfr as F1 F2 F3 F4 F5 F6 F7 F8 F9. set (X := sampling o s').
  set (g id := counted_request o (current_step s) (pend st id).1 (pend st id).2). set (f id := sent cfg o X id (pend st id).1).
  assert (Hg : ∀ id, requests s' !! id = if decide (id ∈ scheduled st) then g id <$> requests s !! id else requests s !! id).
  { intros id. rewrite Hreqs. unfold g, pend. case_decide as Hid.
    - apply od_get_keys in Hid as [n ->]. done.
    - apply od_get_None in Hid. by rewrite Hid. }
  assert (Hf : ∀ id r, id ∈ scheduled st → requests s !! id = Some r → inflight_ok cfg (view fl id) → running_ok (mml := mml) cfg (view fl id) (pend st id) (v !! id) r →
    sent_ok cfg (f id) ∧ running_ok (mml := mml) cfg (view fl id ++ [f id]) (0, 0) (v !! id) (g id r)).
  { intros id r Hid Hr Hin Hro. assert (Hd : f id = mkSent (pend st id).1 (pend st id).2 (credit cfg X id (pend st id).2)) by (unfold f, sent; by rewrite E2).
    rewrite Hd. apply (counted_running o (current_step s) X (view fl id) (pend st id).1 (pend st id).2); [done|by destruct (pend st id)|done| |].
    - apply od_get_keys in Hid as [n Hn]. unfold pend. rewrite Hn. apply (sp_pos _ _ _ Hst (id, n)). by apply od_get_Some_in.
    - unfold X, sampling. rewrite elem_of_list_to_set, list_elem_of_filter, E1, Hg, decide_True, Hr by done. cbn [fmap option_fmap option_map].
      destruct (counted_fields o (current_step s) (pend st id).1 (pend st id).2 r) as (Hch & _). unfold g. rewrite Hch.
      split; [by intros [[= Hn] _]|intros Hn; split; [by f_equal|exact Hid]]. }
  split; [|by split_and!]. split.
  - exists v, lw, ls. rewrite F1, F2, F3, F4, F5. split; [done|]. split; [done|].
    eapply core_ext; [apply (core_counted cfg _ _ _ _ _ _ _ _ (scheduled st) f g _ Hc Hsub)| |done].
    + intros id. by eapply scheduled_pend.
    + exact Hg.
    + intros id r Hid Hr Hok Hin Hro. destruct (Hf id r Hid Hr Hin Hro) as [Hs Hro'].
      destruct (counted_ids o (current_step s) (pend st id).1 (pend st id).2 r) as [I1 I2].
      split; [done|]. split; [by apply counted_ok|]. by split.
    + intros id. by apply view_snoc.
  - by rewrite F3.
  - intros l [?| ->%list_elem_of_singleton]%elem_of_app; [by apply Hfl|]. split; [rewrite flight_keys, E1; apply Hst|].
    intros [id e] (y & [= -> ->] & Hy)%list_elem_of_fmap. rewrite E1 in Hy. destruct y as [id n]. cbn [fst snd].
    assert (Hget : od_get (num_scheduled_tokens st) id = Some n) by (apply od_get_In; [apply Hst|done]).
    assert (Hid : id ∈ scheduled st) by (apply od_get_keys; by rewrite Hget).
    destruct (core_running id Hc) as (r & Hr & _ & _ & Hro & _); [by apply Hsub|]. destruct (co_req Hc _ _ Hr) as (_ & _ & _ & Hin).
    destruct (Hf id r Hid Hr Hin Hro) as [Hs _]. unfold f, pend in Hs. rewrite Hget in Hs. exact Hs.
Qed.

Lemma schedule_ok fl s new_queue grammar throttle_prefills :
  settings_ok cfg mml → represents new_queue [] → sched_inv fl s →
  runs (schedule cfg new_queue grammar throttle_prefills s) (λ '(o, s'), sched_inv (fl ++ [flight_of cfg o (sampling o s')]) s' ∧ output_ok s s' o).
Proof.
  intros Hcfg Hnew Hs. unfold schedule. set (s0 := set_current_step _ s).
  destruct (step_start s fl Hs Hcfg) as (v & budget & Hb & Hri).
  eapply runs_bind; [by apply (running_loop_spec cfg Hcfg (view fl) budget _ _ v); [exact Hri|simpl; lia]|].
  intros [st1 s1] (v1 & vs & Hri1 & Hsame1 & Hpre1 & Hps). change (running s0) with (running s) in Hps.
  assert (Hmax1 : py_len (running s1) ≤ max_num_running_reqs cfg).
  { pose proof (si_running _ _ Hs). apply preempts_length in Hps. unfold py_len in *. lia. }
  eapply runs_bind; [by apply (schedule_waiting_requests_spec cfg Hcfg new_queue Hnew (view fl) budget v1)|].
  intros [st2 s2] (v2 & Hpi2 & Hsame2 & Hpart2 & Hmax2 & [more Hmore] & Hstay).
  eapply runs_bind; [by apply (build_output_spec budget v2 (view fl))|].
  intros [o s3] ([B1 B2 B3 [B4 B5] B6 [= B7 B8 B9 B10]] & Hpi3).
  eapply runs_bind; [by apply (update_after_spec fl budget v2 st2); [|done|by rewrite B10|apply Hs| |]|].
  intros s4 (Hs4 & Hcnt & Hrun4 & Hfin4). split; [done|].
  assert (Hsame : same_requests s0 s2) by by etransitivity. pose proof Hsame as [[= K1 _ _ _] Hfix].
  destruct Hpi3 as [(lw & ls & _ & _ & Hc3) Hst Hsub]. split.
  - split; [by rewrite B3, B1|]. rewrite B3. pose proof (sp_tokens _ _ _ Hst). lia.
  - apply (si_flight _ _ Hs4), elem_of_app. right. by left.
  - rewrite B1, Hrun4. exact Hsub.
  - rewrite B1, B6, <-list_fmap_compose. by rewrite list_fmap_id.
  - intros id c Hin. rewrite B6 in Hin. apply list_elem_of_fmap in Hin as (y & [= -> ->] & Hin).
    rewrite (counted_computed o s3 s4) by (done || (apply (co_dom Hc3), elem_of_app; left; by apply Hsub)).
    unfold computed_of. by rewrite B7.
  - by rewrite B4.
  - intros id. rewrite (counted_fixed o s3 s4 id Hcnt). unfold fixed_of at 1. rewrite B7. apply Hfix.
  - exists vs, (running s1), more. rewrite Hrun4, B10. split; [done|]. split; [done|]. intros Hne.
    assert (Hr : running s2 = running s1) by (apply Hstay; rewrite Hpre1; by destruct vs).
    rewrite Hr in Hmore. by apply (app_inv_head (running s1)); rewrite app_nil_r.
Qed.

(** C3: A scheduling step always succeeds.  In every state that keeps the
    invariant, whatever the queues, the grammars and the policy: [schedule]
    raises nothing, so every assertion on its way holds; the invariant holds
    afterwards, with the new output in flight; and the output is what
    [output_ok] promises. *)
Theorem schedule_correct fl s new_queue grammar throttle_prefills :
  settings_ok cfg mml → represents new_queue [] → sched_inv fl s →
  runs (schedule cfg new_queue grammar throttle_prefills s) (λ '(o, s'), sched_inv (fl ++ [flight_of cfg o (sampling o s')]) s' ∧ output_ok s s' o).
Proof. apply schedule_ok. Qed.
End Run.
