(* ===== verification/SchedulerPolicy.v ===== *)
(** * Who is preempted

    When the blocks run out, [schedule] preempts one running request after the
    other.  Which ones it takes is read off [preempts]: the order in which
    [SchedulerStep] shows the victims to be chosen. *)

From S2P Require Import Prelude FreeQueue Request BlockHash EncoderCache RequestQueue SchedUtils KVCacheManager Scheduler SchedulerSpec SchedulerStep SchedulerWaiting SchedulerRun.
Local Open Scope Z_scope.

Section Policy.
Context {K E Q : Type} `{!KVCache K, !EncoderCacheOps E, !RequestQueue Q} {P : policy}.
Context `{!QueueRefines Q P, !PolicyPerm P} {mml : Z} {block_hasher : option BlockHasher}.
Context `{!KVLaws K mml block_hasher, !EncLaws E}.
Variable cfg : Settings.
Implicit Types (key : string → option (Z * Z)) (run vs : list string).

(** First come, first served: the requests that started last are preempted, the
    very last one first. *)
Lemma preempts_fcfs key run vs run' :
  sched_policy cfg = FCFS → preempts cfg key run vs run' → run = run' ++ reverse vs.
Proof.
  intros Hp. induction 1 as [run|run vi rid vs run' [Hvi Hlast] _ IH]; [by rewrite app_nil_r|]. rewrite Hp in Hlast.
  rewrite reverse_cons, app_assoc, <-IH. rewrite <-(take_drop_middle run vi rid Hvi) at 1. rewrite delete_take_drop.
  rewrite drop_ge by lia. by rewrite app_nil_r.
Qed.

(** By priority: nobody who keeps running is less urgent than a victim. *)
Lemma preempts_priority key run vs run' :
  sched_policy cfg = PRIORITY → preempts cfg key run vs run' →
  ∀ x y kx ky, x ∈ vs → y ∈ run' → key x = Some kx → key y = Some ky → more_urgent kx ky = false.
Proof.
  intros Hp. induction 1 as [run|run vi rid vs run' [Hvi Hmost] Hps IH]; intros x y kx ky; [by intros ?%elem_of_nil|].
  rewrite Hp in Hmost. intros [->|Hx]%elem_of_cons Hy; [|by apply IH]. apply Hmost.
  rewrite (delete_Permutation _ _ _ Hvi), (preempts_perm cfg _ _ _ _ Hps). right. apply elem_of_app. by left.
Qed.

(** The others stay in their order. *)
Lemma preempts_sublist key run vs run' : preempts cfg key run vs run' → run' `sublist_of` run.
Proof. induction 1 as [|run vi rid vs run' _ _ IH]; [done|]. etransitivity; [exact IH|apply sublist_delete]. Qed.

(** What [schedule] does to the running list. *)
Definition preempted_by_policy (s s' : Scheduler K E Q) : Prop :=
  ∃ vs kept more, running s ≡ₚ kept ++ vs ∧ kept `sublist_of` running s ∧ running s' = kept ++ more ∧ (vs ≠ [] → more = []) ∧
    match sched_policy cfg with
    | FCFS => running s = kept ++ reverse vs
    | PRIORITY => ∀ x y rx ry, x ∈ vs → y ∈ kept → requests s !! x = Some rx → requests s !! y = Some ry →
        priority ry < priority rx ∨ (priority ry = priority rx ∧ arrival_time ry ≤ arrival_time rx)
    end.

(** C5: Preemption follows the policy.  A step takes the running requests apart
    into those it keeps, in their order, and those it preempts, and admits
    requests from the queues only when it preempts none.  First come, first
    served: the preempted are the last ones of the running list, preempted from
    its end.  With priorities: no request that keeps running is less urgent, by
    priority and then arrival time, than one that is preempted. *)
Theorem preemption_follows_policy fl s new_queue grammar throttle_prefills :
  settings_ok cfg mml → represents new_queue [] → sched_inv cfg fl s →
  runs (schedule cfg new_queue grammar throttle_prefills s) (λ '(_, s'), preempted_by_policy s s').
Proof.
  intros Hcfg Hnew Hs. eapply runs_mono; [by apply (schedule_ok cfg fl)|]. intros [o s'] [_ Ho].
  destruct (oo_order _ _ _ _ Ho) as (vs & kept & more & Hps & Hrun & Hmore). exists vs, kept, more.
  split; [by eapply preempts_perm|]. split; [by eapply preempts_sublist|]. split; [done|]. split; [done|].
  destruct (sched_policy cfg) eqn:Hp; [by eapply preempts_fcfs|]. intros x y rx ry Hx Hy Hrx Hry.
  assert (Hu : more_urgent (priority rx, arrival_time rx) (priority ry, arrival_time ry) = false).
  { eapply preempts_priority; [done|done|exact Hx|exact Hy| |]; unfold key_of; by rewrite ?Hrx, ?Hry. }
  unfold more_urgent in Hu. cbn [fst snd] in Hu. apply orb_false_iff in Hu as [Hu1 Hu2]. zbool.
  destruct (Z.eqb_spec (priority rx) (priority ry)); cbn [andb] in Hu2; zbool; lia.
Qed.
End Policy.
