(* ===== verification/SchedulerUpdate.v ===== *)
(** * The scheduler: outputs, arrivals and ends

    [update_from_output] folds the tokens of a step back into the requests,
    [add_request] and [finish_requests] bring requests in and take them out;
    all of them keep the invariant of the scheduler. *)

From S2P Require Import Prelude FreeQueue Request BlockHash EncoderCache RequestQueue SchedUtils KVCacheManager Scheduler SchedulerSpec SchedulerStep SchedulerWaiting SchedulerRun.
Local Open Scope Z_scope.

(** ** Taking requests out *)

Definition drop_ids (X : gset string) (l : list string) : list string := filter (λ id, id ∉ X) l.
Definition drop_requests (X : gset string) (l : list Request) : list Request := filter (λ x, request_id x ∉ X) l.

Lemma drop_request_ids X l : request_id <$> drop_requests X l = drop_ids X (request_id <$> l).
Proof.
  unfold drop_ids, drop_requests. induction l as [|x l IH]; [done|]. rewrite fmap_cons. destruct (decide (request_id x ∈ X)).
  - rewrite !filter_cons_False by (intros Hn; by apply Hn). done.
  - rewrite !filter_cons_True by done. by rewrite fmap_cons, IH.
Qed.

Lemma drop_ids_app X l l' : drop_ids X (l ++ l') = drop_ids X l ++ drop_ids X l'.
Proof. apply filter_app. Qed.

Lemma drop_ids_more X rid l : drop_ids ({[rid]} ∪ X) l = filter (λ id, id ≠ rid) (drop_ids X l).
Proof.
  unfold drop_ids. induction l as [|x l IH]; [done|]. destruct (decide (x ∈ X)).
  - rewrite !(filter_cons_False (λ id, id ∉ _)) by set_solver. done.
  - rewrite (filter_cons_True (λ id, id ∉ X)) by done. destruct (decide (x = rid)).
    + rewrite !filter_cons_False by set_solver. done.
    + rewrite !filter_cons_True by set_solver. by rewrite IH.
Qed.

Lemma drop_requests_subset X rid l x : x ∈ drop_requests ({[rid]} ∪ X) l → x ∈ drop_requests X l.
Proof. unfold drop_requests. rewrite !list_elem_of_filter. set_solver. Qed.

Lemma drop_ids_nil l : drop_ids ∅ l = l.
Proof. unfold drop_ids. induction l as [|x l IH]; [done|]. rewrite filter_cons_True by set_solver. by rewrite IH. Qed.

Lemma drop_requests_nil l : drop_requests ∅ l = l.
Proof. unfold drop_requests. induction l as [|x l IH]; [done|]. rewrite filter_cons_True by set_solver. by rewrite IH. Qed.

(** A queue removes by identity what it should remove by id. *)
Lemma filter_requests_ids (rs l w : list Request) X :
  NoDup (py_id <$> w) → NoDup (request_id <$> w) → (∀ x, x ∈ l → x ∈ w) →
  (∀ r, r ∈ rs → ∃ x, x ∈ w ∧ entry x = entry r) →
  (∀ x, x ∈ w → request_id x ∈ X ↔ request_id x ∈ request_id <$> rs) → filter_requests rs l = drop_requests X l.
Proof.
  intros Hpy Hid Hl Hrs HX. unfold filter_requests, drop_requests.
  induction l as [|x l IH]; [done|]. assert (Hx : x ∈ w) by (apply Hl; left). specialize (IH ltac:(intros; apply Hl; by right)).
  assert (Hiff : py_id x ∈ py_id <$> rs ↔ request_id x ∈ X).
  { rewrite HX by done. split; intros (r & Hr & Hin)%list_elem_of_fmap; destruct (Hrs r Hin) as (y & Hy & [= E1 E2]).
    all: apply list_elem_of_lookup in Hx as [i Hi], Hy as [j Hj].
    - assert (i = j) as ->; [|rewrite Hi in Hj; injection Hj as ->; rewrite E1; by apply list_elem_of_fmap_2].
      apply (NoDup_lookup _ _ _ (py_id x) Hpy); rewrite list_lookup_fmap; [by rewrite Hi|rewrite Hj; simpl; congruence].
    - assert (i = j) as ->; [|rewrite Hi in Hj; injection Hj as ->; rewrite E2; by apply list_elem_of_fmap_2].
      apply (NoDup_lookup _ _ _ (request_id x) Hid); rewrite list_lookup_fmap; [by rewrite Hi|rewrite Hj; simpl; congruence]. }
  destruct (decide (py_id x ∈ py_id <$> rs)) as [Hin|Hout].
  - rewrite !filter_cons_False by tauto. done.
  - rewrite !filter_cons_True by tauto. by rewrite IH.
Qed.

Section Update.
Context {K E Q : Type} `{!KVCache K, !EncoderCacheOps E, !RequestQueue Q} {P : policy}.
Context `{!QueueRefines Q P, !PolicyPerm P} {mml : Z} {block_hasher : option BlockHasher}.
Context `{!KVLaws K mml block_hasher, !EncLaws E}.
Variable cfg : Settings.
Hypothesis Hcfg : settings_ok cfg mml.
Implicit Types (s : Scheduler K E Q) (r x : Request) (rid id : string) (v : gmap string Z) (o : SchedulerOutput) (X : gset string).

(** *** Freeing *)

Lemma free_request_spec v s rid r :
  requests s !! rid = Some r → request_id r = rid → is_finished (status r) = true → mm_features r = [] → kv_ok v (kv s) → enc_ok (enc s) →
  runs (_free_request rid s) (λ s', requests s' = delete rid (requests s) ∧ kv_ok (delete rid v) (kv s') ∧ enc_ok (enc s') ∧
    (waiting s', skipped_waiting s', running s', grammar_compile_error_reqs s') =
      (waiting s, skipped_waiting s, running s, grammar_compile_error_reqs s)).
Proof.
  intros Hr Hid Hfin Hmm Hk He. unfold _free_request, the_request. rewrite Hr. cbn [unwrap mbind result_bind]. rewrite Hfin. cbn [py_assert mbind result_bind].
  eapply runs_bind; [by apply enc_free_law|]. intros e He'. eapply runs_bind; [by apply (kv_free_law v)|]. intros k Hk'. rewrite Hid in Hk'. by split_and!.
Qed.

Lemma core_finish q p w v reqs run k e X rid k' e' :
  core cfg q p (drop_requests X w) v reqs (drop_ids X run) k e → is_Some (reqs !! rid) → kv_ok (delete rid v) k' → enc_ok e' →
  core cfg q p (drop_requests ({[rid]} ∪ X) w) (delete rid v) (delete rid reqs) (drop_ids ({[rid]} ∪ X) run) k' e'.
Proof.
  intros Hc Hrid Hk He. apply (co_dom Hc) in Hrid. pose proof (co_nodup Hc) as Hnd.
  eapply core_remove; [exact Hc|exact Hrid| | |by apply drop_requests_subset|done|done].
  - rewrite (filter_ne_perm rid) at 1 by done. by rewrite filter_app, !drop_request_ids, <-!drop_ids_more.
  - intros id. rewrite drop_ids_more, list_elem_of_filter. by intros [_ ?].
Qed.

(** *** New tokens *)

(** A request that got the tokens [g] and goes on. *)
Record grown (g : list Z) r r' : Prop := {
  gr_view : sched_view r' = sched_view r;
  gr_tokens : all_token_ids r' = all_token_ids r ++ g;
  gr_output : output_token_ids r' = output_token_ids r ++ g;
  gr_ready : kv_ready r';
  gr_len : num_tokens r ≤ mml → num_tokens r' ≤ mml;
}.

Lemma sched_view_eq r r' : sched_view r' = sched_view r → ∃ h m t g,
  r' = set_block_hashes h (set_prompt_embeds_per_block_hashes m (set_all_token_ids t (set_output_token_ids g r))).
Proof.
  intros H. exists (block_hashes r'), (prompt_embeds_per_block_hashes r'), (all_token_ids r'), (output_token_ids r').
  destruct r, r'. unfold sched_view, strip in H. injection H. intros. by subst.
Qed.

Lemma grown_refl r : kv_ready r → grown [] r r.
Proof. intros Hr. by split; rewrite ?app_nil_r. Qed.

Lemma grown_ok g r r' : grown g r r' → request_ok r → request_ok r'.
Proof.
  intros [Hv Ht _ Hr Hl] [G1 G2 G3 G4 G5 G6]. specialize (Hl ltac:(lia)). unfold num_tokens in *. rewrite Ht, py_len_app in Hl.
  apply sched_view_eq in Hv as (h & m & t & o & ->). split; try done. cbn in Ht. unfold num_tokens. cbn. rewrite Ht, py_len_app.
  pose proof (py_len_nonneg g). lia.
Qed.

(** What identifies a request, and what is needed to free it. *)
Definition same_id r r' : Prop := (request_id r', py_id r', mm_features r') = (request_id r, py_id r, mm_features r).

(** A request that stopped after the first [kept] of the tokens [g]. *)
Record stopped_with (g kept : list Z) r r' : Prop := {
  sw_finished : is_finished (status r') = true;
  sw_kept : py_len kept ≤ py_len g;
  sw_ready : kv_ready r';
  sw_tokens : num_tokens r' = num_tokens r + py_len kept;
  sw_counts : (num_computed_tokens r', num_output_placeholders r') = (num_computed_tokens r, num_output_placeholders r);
}.

Lemma append_until_stop_spec g r :
  kv_ready r → (g ≠ [] → pooling_params r = None ∧ is_Some (sampling_params r)) →
  runs (append_until_stop cfg block_hasher g r) (λ '(kept, stopped, r'), same_id r r' ∧
    if stopped : bool then stopped_with g kept r r' else kept = g ∧ grown g r r').
Proof.
  revert r. induction g as [|t g IH]; intros r Hready Hg; cbn [append_until_stop]; [split; [done|]; split; [done|by apply grown_refl]|].
  destruct Hg as [Hp Hs]; [done|]. eapply runs_bind; [by apply (kv_ready_append (mml := mml) r t)|].
  intros r1 (Hready1 & Hv1 & Ht1 & Ho1). pose proof (sched_view_eq _ _ Hv1) as (h & m & t' & o' & Er1).
  assert (Hn1 : num_tokens r1 = num_tokens r + 1) by (unfold num_tokens; by rewrite Ht1, py_len_app).
  assert (Hc1 : (num_computed_tokens r1, num_output_placeholders r1) = (num_computed_tokens r, num_output_placeholders r)) by by subst r1.
  assert (Hg1 : py_len (t :: g) = 1 + py_len g) by (unfold py_len; simpl; lia). pose proof (py_len_nonneg g).
  eapply runs_bind; [apply check_stop_outcome; [by subst r1|by subst r1|rewrite Ho1; by destruct (output_token_ids r)]|].
  intros [stopped r2] Hout. destruct stopped.
  { destruct Hout as [Hfin Hst]. assert (Hcont : content r2 = content r1) by by rewrite Hst. split; [rewrite Hst; by subst r1|].
    split; [done|rewrite Hg1; change (py_len [t]) with 1; lia|by eapply kv_ready_content|trans (num_tokens r1); [by rewrite Hst|exact Hn1]|by rewrite <-Hc1, Hst]. }
  destruct Hout as [-> Hlt]. rewrite (st_mml _ _ Hcfg) in Hlt.
  eapply runs_bind; [apply (IH r1 Hready1); intros _; by subst r1|]. intros [[kept stopped] r3] [Hid3 H3].
  assert (Hid : same_id r r3) by (unfold same_id in *; rewrite Hid3; by subst r1).
  cbn [runs]. split; [done|]. destruct stopped.
  - destruct H3 as [S1 S2 S3 S4 S5]. assert (Hk1 : py_len (t :: kept) = 1 + py_len kept) by (unfold py_len; simpl; lia).
    split; [done|lia|done|lia|congruence].
  - destruct H3 as [-> [V3 T3 O3 R3 L3]]. split; [done|].
    split; [by rewrite V3|by rewrite T3, Ht1, <-app_assoc|by rewrite O3, Ho1, <-app_assoc|done|]. intros _. apply L3. lia.
Qed.

(** The cached part of a running request reaches up to its known tokens. *)
Record cacheable v r : Prop := {
  ca_slots : ∃ c, v !! request_id r = Some c ∧ num_computed_tokens r ≤ c;
  ca_placeholders : 0 ≤ num_output_placeholders r ≤ num_computed_tokens r;
  ca_tokens : num_computed_tokens r ≤ num_tokens r + num_output_placeholders r;
}.

(** The placeholders of a request that got the tokens [g]. *)
Definition filled (g : list Z) (stale : bool) r : Z :=
  num_output_placeholders r - if async_scheduling cfg && negb stale then py_len g else 0.

Lemma update_request_spec v r g stale k :
  kv_ok v k → kv_ready r → (g ≠ [] → pooling_params r = None ∧ is_Some (sampling_params r)) →
  (async_scheduling cfg = true → status r = RUNNING → cacheable v r) →
  (async_scheduling cfg = true → stale = false → py_len g ≤ num_output_placeholders r) →
  runs (_update_request_with_output cfg block_hasher r g stale k) (λ '(kept, stopped, r', k'), kv_ok v k' ∧ same_id r r' ∧
    if stopped : bool then is_finished (status r') = true
    else kept = g ∧ grown g (set_num_output_placeholders (filled g stale r) r) r').
Proof.
  intros Hk Hready Hg Hca Hph. unfold _update_request_with_output. eapply runs_bind; [by apply append_until_stop_spec|].
  intros [[kept stopped] r1] [Hid1 Hout]. unfold filled.
  assert (Hself : set_num_output_placeholders (num_output_placeholders r) r = r) by by destruct r.
  destruct (async_scheduling cfg); cbn [andb].
  2: { cbn [runs]. rewrite Z.sub_0_r, Hself. split; [done|]. split; [done|]. destruct stopped; [apply Hout|done]. }
  specialize (Hca eq_refl). specialize (Hph eq_refl).
  assert (H1 : py_len kept ≤ py_len g ∧ kv_ready r1 ∧ num_tokens r1 = num_tokens r + py_len kept ∧
    (num_computed_tokens r1, num_output_placeholders r1) = (num_computed_tokens r, num_output_placeholders r)).
  { destruct stopped; [destruct Hout; by split_and!|]. destruct Hout as [-> [V T O R _]]. split_and!; [done|done|unfold num_tokens; by rewrite T, py_len_app|].
    by apply sched_view_eq in V as (h & m & t & o & ->). }
  destruct H1 as (Hkept & Hready1 & Hn1 & [= Hc1 Hp1]). pose proof (py_len_nonneg kept).
  set (r2 := if stale then r1 else set_num_output_placeholders (num_output_placeholders r1 - py_len kept) r1).
  assert (H2 : num_output_placeholders r2 = (if stale then num_output_placeholders r else num_output_placeholders r - py_len kept) ∧
    num_tokens r2 = num_tokens r1 ∧ num_computed_tokens r2 = num_computed_tokens r1 ∧ content r2 = content r1 ∧ status r2 = status r1 ∧ same_id r r2).
  { subst r2. destruct stale; [by split_and!|]. split_and!; try done. cbn. lia. }
  destruct H2 as (Hp2 & Hn2 & Hc2 & Hcont2 & Hst2 & Hid2).
  assert (Hready2 : kv_ready r2) by by eapply kv_ready_content.
  assert (Has : py_assert (stale || (0 <=? num_output_placeholders r2)) = Ok ()).
  { destruct stale; [done|]. specialize (Hph eq_refl). rewrite Hp2. cbn [orb]. by rewrite (proj2 (Z.leb_le _ _)) by lia. }
  rewrite Has. cbn [mbind result_bind].
  eapply (runs_bind _ _ (λ '(r3, k'), kv_ok v k' ∧ strip r3 = strip r2 ∧ kv_ready r3)).
  { case_bool_decide as Hrun; [|by cbn [runs]]. destruct (Hca Hrun) as [(c & Hc & Hcc) Hpc Htc].
    apply (kv_cache_law v k r2 c); [done|injection Hid2 as -> _ _; done|done| |]; rewrite Hp2, Hc2, Hc1, ?Hn2, ?Hn1;
      destruct stale; try specialize (Hph eq_refl); lia. }
  intros [r3 k'] (Hk' & Hs3 & Hready3). apply strip_eq in Hs3 as [m ->]. cbn [runs]. split; [done|]. split; [done|].
  destruct stopped; [destruct Hout as [Hfin _ _ _ _]; by rewrite <-Hst2 in Hfin|]. destruct Hout as [-> [V T O R L]]. split; [done|].
  assert (Hr2 : set_num_output_placeholders (num_output_placeholders r - (if negb stale then py_len g else 0)) r1 = r2).
  { subst r2. destruct stale; cbn [negb]; [rewrite Z.sub_0_r, <-Hp1; by destruct r1|by rewrite Hp1]. }
  assert (Hfields : (all_token_ids r2, output_token_ids r2) = (all_token_ids r1, output_token_ids r1)) by (subst r2; by destruct stale).
  injection Hfields as Hf1 Hf2. split.
  - change (sched_view (set_prompt_embeds_per_block_hashes m r2)) with (sched_view r2). rewrite <-Hr2.
    by apply sched_view_eq in V as (h & m' & t & o & ->).
  - trans (all_token_ids r1); [exact Hf1|exact T].
  - trans (output_token_ids r1); [exact Hf2|exact O].
  - done.
  - intros Hl. change (num_tokens (set_prompt_embeds_per_block_hashes m r2)) with (num_tokens r2). rewrite Hn2. by apply L.
Qed.

Lemma apply_output_spec v r g pooling stale k :
  kv_ok v k → kv_ready r → (g ≠ [] → pooling_params r = None ∧ is_Some (sampling_params r)) →
  (async_scheduling cfg = true → status r = RUNNING → cacheable v r) →
  (async_scheduling cfg = true → stale = false → py_len g ≤ num_output_placeholders r) →
  runs (apply_output cfg block_hasher r g pooling stale k) (λ '(kept, stopped, r', k'), kv_ok v k' ∧ same_id r r' ∧
    if stopped : bool then is_finished (status r') = true
    else kept = g ∧ grown g (set_num_output_placeholders (filled g stale r) r) r' ∧ ¬ (g = [] ∧ is_Some (pooling_params r) ∧ is_Some pooling)).
Proof.
  intros Hk Hready Hg Hca Hph. unfold apply_output. destruct (bool_decide_reflect (g = [])) as [->|Hne]; cbn [negb].
  - destruct (bool_decide (is_Some (pooling_params r)) && _) eqn:Ep; [done|].
    destruct (is_mm_encoder_only cfg && (num_prompt_tokens r <=? num_computed_tokens r)); [done|]. cbn [runs].
    assert (Hself : set_num_output_placeholders (filled [] stale r) r = r).
    { replace (filled [] stale r) with (num_output_placeholders r); [by destruct r|].
      unfold filled. change (py_len []) with 0. destruct (async_scheduling cfg && negb stale); lia. }
    rewrite Hself. split; [done|]. split; [done|]. split; [done|]. split; [by apply grown_refl|]. intros (_ & H1 & H2).
    rewrite !bool_decide_true in Ep by done. done.
  - eapply runs_mono; [by apply (update_request_spec v)|]. intros [[[kept stopped] r'] k'] (H1 & H2 & H3). split; [done|]. split; [done|].
    destruct stopped; [done|]. destruct H3 as [-> H3]. split; [done|]. split; [done|]. by intros (-> & _).
Qed.

(** *** An output that arrives *)

Definition arrived (stale : bool) (n : Z) r : Request :=
  let r := set_num_in_flight_tokens (num_in_flight_tokens r - n) r in
  if stale then set_num_stale_output_tokens (num_stale_output_tokens r - n) r else r.

Lemma arrive_spec n r : (0 < num_stale_output_tokens r → n ≤ num_stale_output_tokens r) →
  arrive n r = Ok (0 <? num_stale_output_tokens r, arrived (0 <? num_stale_output_tokens r) n r).
Proof.
  intros Hn. unfold arrive, arrived. cbn [num_stale_output_tokens set_num_in_flight_tokens]. destruct (Z.ltb_spec 0 (num_stale_output_tokens r)); [|done].
  cbn [num_stale_output_tokens set_num_stale_output_tokens]. by rewrite assert_le by lia.
Qed.

(** The tokens a runner may return for [d] drafts. *)
Definition generated_ok (g : list Z) (d : Z) : Prop :=
  py_len g ≤ d + num_sampled_tokens_per_step cfg ∧ (0 < d → 0 < num_sampled_tokens_per_step cfg → g ≠ []).

(** How many of [d] drafts the tokens [g] reject. *)
Definition rejected (g : list Z) (d : Z) : Z := Z.max 0 (d - Z.max (py_len g - num_sampled_tokens_per_step cfg) 0).

(** The answer [g] to what was sent: under asynchronous scheduling it uses up
    the placeholders of the step. *)
Definition answers (g : list Z) (e : Sent) : Prop :=
  generated_ok g (sent_drafts e) ∧ (async_scheduling cfg = true → rejected g (sent_drafts e) + py_len g = sent_credit e).

Lemma answers_sampled g o X id n :
  sent_ok cfg (sent cfg o X id n) → generated_ok g (sent_drafts (sent cfg o X id n)) →
  (async_scheduling cfg = true → if decide (id ∈ X) then num_sampled_tokens_per_step cfg ≤ py_len g else g = []) →
  answers g (sent cfg o X id n).
Proof.
  intros (_ & Hd & _ & _) [Hg Hne] Hs. split; [by split|]. intros Ha. specialize (Hs Ha). pose proof (st_sampled _ _ Hcfg).
  unfold sent, credit, rejected in *. rewrite Ha in *. cbn [sent_drafts sent_credit] in *. case_decide; [lia|]. subst g. change (py_len []) with 0 in *. lia.
Qed.

(** *** Drafts that were rejected *)

(** The first entry of [flight] is stale, or it is not. *)
Lemma running_stale e fl c r :
  running_ok (mml := mml) cfg (e :: fl) (0, 0) c r → inflight_ok cfg (e :: fl) →
  (0 < num_stale_output_tokens r → sent_tokens e ≤ num_stale_output_tokens r) ∧
  ∃ j, (j ≤ length fl)%nat ∧
    if 0 <? num_stale_output_tokens r
    then num_stale_output_tokens r = sent_tokens e + tokens_of (take j fl) ∧ tokens_of (drop j fl) ≤ num_computed_tokens r ∧
         num_computed_tokens r ≤ num_tokens r + credits_of (drop j fl) ∧
         num_output_placeholders r = if async_scheduling cfg then credits_of (drop j fl) else 0
    else j = 0%nat ∧ num_stale_output_tokens r = 0 ∧ sent_tokens e + tokens_of fl ≤ num_computed_tokens r ∧
         num_computed_tokens r ≤ num_tokens r + sent_credit e + credits_of fl ∧
         num_output_placeholders r = if async_scheduling cfg then sent_credit e + credits_of fl else 0.
Proof.
  intros Hr [He Hfl]%inflight_ok_cons. destruct (run_flight _ _ _ _ _ Hr) as (j & Hj & H1 & H2 & H3 & H4). cbn [fst snd] in H3.
  destruct j as [|j].
  - cbn [take drop] in *. change (tokens_of []) with 0 in H1. rewrite H1. cbn. rewrite tokens_cons in H2. rewrite credits_cons in H3, H4.
    split; [lia|]. exists 0%nat. split_and!; [lia|done|done|lia|lia|done].
  - cbn [take drop] in *. rewrite tokens_cons in H1. simpl in Hj. pose proof (tokens_nonneg _ _ (inflight_ok_take _ j _ Hfl)). destruct He as [He _].
    rewrite (proj2 (Z.ltb_lt _ _)) by lia. split; [lia|]. exists j. split_and!; [lia|lia|done|lia|done].
Qed.

(** The drafts of an answer that are taken back: none when it is stale. *)
Definition taken_back (g : list Z) (d : Z) (stale : bool) : Z := if stale then 0 else rejected g d.

Definition accepted (g : list Z) (d : Z) stale r : Request :=
  set_num_output_placeholders (num_output_placeholders r - if async_scheduling cfg then taken_back g d stale else 0)
    (set_num_computed_tokens (num_computed_tokens r - taken_back g d stale) r).

Lemma taken_bounds g d stale : 0 ≤ d → 0 ≤ taken_back g d stale ≤ d.
Proof. unfold taken_back, rejected. destruct stale; lia. Qed.

Lemma accepted_none g d stale r : taken_back g d stale = 0 → accepted g d stale r = r.
Proof.
  unfold accepted. intros ->. replace (num_output_placeholders r - _) with (num_output_placeholders r) by (destruct (async_scheduling cfg); lia).
  rewrite Z.sub_0_r. by destruct r.
Qed.

Lemma accept_drafts_spec o g stale r d :
  py_len (default [] (od_get (so_scheduled_spec_decode_tokens o) (request_id r))) = d → (stale = false → generated_ok g d) →
  (stale = false → d ≤ num_computed_tokens r) →
  (if async_scheduling cfg then stale = false → d ≤ num_output_placeholders r else num_output_placeholders r = 0) →
  accept_drafts cfg o g stale r = accepted g d stale r.
Proof.
  intros Hd Hg Hc Hp. unfold accept_drafts.
  destruct stale; [rewrite accepted_none by done; rewrite andb_false_r; by destruct (od_get _ _) as [[|]|]|].
  destruct (Hg eq_refl) as [Hg1 Hg2]. specialize (Hc eq_refl). pose proof (st_sampled _ _ Hcfg) as Hs.
  destruct (od_get (so_scheduled_spec_decode_tokens o) (request_id r)) as [[|t l]|] eqn:Edr; simpl in Hd.
  1,3: change (py_len []) with 0 in Hd; subst d; rewrite accepted_none; [done|]; pose proof (taken_bounds g 0 false); lia.
  assert (Hpos : 0 < d) by (rewrite <-Hd; unfold py_len; simpl; lia).
  replace ((negb (bool_decide (g = [])) || (num_sampled_tokens_per_step cfg =? 0)) && negb false) with true.
  2: { symmetry. rewrite andb_true_r. destruct (Z.eqb_spec (num_sampled_tokens_per_step cfg) 0); [by rewrite orb_true_r|].
       rewrite bool_decide_false; [done|]. apply Hg2; lia. }
  assert (Hrej : rejected g d = d - Z.max (py_len g - num_sampled_tokens_per_step cfg) 0) by (unfold rejected; lia).
  unfold roll_back, accepted, taken_back. rewrite (proj2 (Z.ltb_lt 0 (num_computed_tokens r))), Hd, <-Hrej by lia.
  change (num_output_placeholders (set_num_computed_tokens ?n r)) with (num_output_placeholders r).
  destruct (async_scheduling cfg); [specialize (Hp eq_refl); by rewrite (proj2 (Z.ltb_lt 0 (num_output_placeholders r))) by lia|].
  rewrite Hp. by destruct r; cbn in *; subst.
Qed.

(** *** The request when an answer has been taken in *)

(** The request that is left when the answer [g] to [e] arrives. *)
Definition answered (g : list Z) (e : Sent) stale r : Request :=
  accepted g (sent_drafts e) stale (arrived stale (sent_tokens e) r).

Definition settled (g : list Z) (e : Sent) stale r : Request :=
  set_num_output_placeholders (filled g stale (answered g e stale r)) (answered g e stale r).

Lemma settled_fields g e stale r (r' := settled g e stale r) :
  status r' = status r ∧ spec_token_ids r' = spec_token_ids r ∧ all_token_ids r' = all_token_ids r ∧ num_preemptions r' = num_preemptions r ∧
  num_stale_output_tokens r' = num_stale_output_tokens r - (if stale then sent_tokens e else 0) ∧
  num_computed_tokens r' = num_computed_tokens r - taken_back g (sent_drafts e) stale ∧
  num_output_placeholders r' = num_output_placeholders r -
    (if async_scheduling cfg then taken_back g (sent_drafts e) stale + (if stale then 0 else py_len g) else 0).
Proof.
  subst r'. unfold settled, filled, answered, accepted, arrived. destruct stale; do 4 (split; [done|]); cbn;
    (split; [lia|]); (split; [done|]); destruct (async_scheduling cfg); cbn; lia.
Qed.

Lemma running_after flight e c g r r3 (stale := 0 <? num_stale_output_tokens r) :
  running_ok (mml := mml) cfg (e :: flight) (0, 0) c r → inflight_ok cfg (e :: flight) → (stale = false → answers g e) →
  grown g (settled g e stale r) r3 → running_ok (mml := mml) cfg flight (0, 0) c r3.
Proof.
  intros Hr Hin Hans [Hv Ht _ _ _]. destruct (running_stale _ _ _ _ Hr Hin) as (_ & j & Hj & Hcase). fold stale in Hcase.
  apply inflight_ok_cons in Hin as [(He1 & He2 & He3 & He4) Hfl].
  pose proof (py_len_nonneg g) as Hg0. pose proof (st_sampled _ _ Hcfg) as Hs. pose proof (taken_bounds g (sent_drafts e) stale (proj1 He2)) as Htb.
  destruct (settled_fields g e stale r) as (S1 & S2 & S3 & S4 & S5 & S6 & S7). set (r2 := settled g e stale r) in *.
  assert (Hnt : num_tokens r3 = num_tokens r + py_len g) by (unfold num_tokens; by rewrite Ht, S3, py_len_app).
  assert (Hsame3 : status r3 = status r2 ∧ spec_token_ids r3 = spec_token_ids r2 ∧ num_stale_output_tokens r3 = num_stale_output_tokens r2 ∧
    num_computed_tokens r3 = num_computed_tokens r2 ∧ num_output_placeholders r3 = num_output_placeholders r2).
  { clearbody r2. by apply sched_view_eq in Hv as (h & m & t & u & ->). }
  destruct Hsame3 as (F1 & F2 & F3 & F4 & F5). destruct Hr as [G1 G2 _ (c0 & G4 & G5) G6 _ G7 G8]. cbn [fst snd] in *.
  (* The tokens that remain ahead are covered by the answer. *)
  assert (Hcov : stale = false → sent_credit e ≤ taken_back g (sent_drafts e) stale + py_len g ∧
    (async_scheduling cfg = true → sent_credit e = taken_back g (sent_drafts e) stale + py_len g)).
  { intros Est. destruct (Hans Est) as [_ Hcr]. rewrite Est. unfold taken_back. split; [|intros Ha; by rewrite (Hcr Ha)].
    destruct (async_scheduling cfg); [by rewrite (Hcr eq_refl)|]. rewrite He4. unfold rejected. lia. }
  split; cbn [fst snd]; rewrite ?F1, ?F2, ?F4, ?F5, ?S6, ?S7, ?Hnt; try done.
  - by rewrite S1.
  - exists c0. split; [done|]. lia.
  - lia.
  - exists j. rewrite F3, S5. destruct stale.
    + destruct Hcase as (H1 & H2 & H3 & H4). unfold taken_back in *. rewrite H4. split_and!; try lia. destruct (async_scheduling cfg); lia.
    + destruct Hcase as (-> & H1 & H2 & H3 & H4). destruct (Hcov eq_refl) as [Hc1 Hc2]. rewrite take_0, drop_0, H4. change (tokens_of []) with 0.
      split_and!; try lia. destruct (async_scheduling cfg); [rewrite <-(Hc2 eq_refl); lia|lia].
  - intros Ha. specialize (G7 Ha). rewrite Ha. destruct stale; [unfold taken_back in *; lia|]. destruct (Hcov eq_refl) as [_ Hc2]. specialize (Hc2 Ha). lia.
  - rewrite S2. intros Hne. specialize (G8 Hne). destruct stale; [unfold taken_back in *; destruct (async_scheduling cfg); lia|].
    destruct (Hcov eq_refl) as [_ Hc2]. destruct (async_scheduling cfg); [specialize (Hc2 eq_refl)|]; lia.
Qed.

Lemma waiting_after flight e g r r3 :
  waiting_ok (e :: flight) r → grown g (settled g e true r) r3 → waiting_ok flight r3.
Proof.
  intros [H1 H2 H3 H4 H5] [Hv _ _ _ _]. rewrite tokens_cons in H4.
  destruct (settled_fields g e true r) as (S1 & S2 & S3 & S4 & S5 & S6 & S7). set (r2 := settled g e true r) in *. clearbody r2.
  apply sched_view_eq in Hv as (h & m & t & u & ->). destruct H5 as [[H5 H6]|(_ & _ & ?)]; [|done]. unfold taken_back in *.
  split; cbn; [lia|destruct (async_scheduling cfg); lia|congruence|lia|].
  left. by rewrite S1, S4.
Qed.

(** What the answer [g] to [e] finds: the drafts it rejects are taken back, and
    what remains can be cached and has room for its tokens. *)
Record answered_ok v e (g : list Z) stale r : Prop := {
  an_accept o : py_len (default [] (od_get (so_scheduled_spec_decode_tokens o) (request_id r))) = sent_drafts e →
    accept_drafts cfg o g stale (arrived stale (sent_tokens e) r) = answered g e stale r;
  an_cacheable : async_scheduling cfg = true → status r = RUNNING → cacheable v (answered g e stale r);
  an_placeholders : async_scheduling cfg = true → stale = false → g = [] ∨ answers g e → py_len g ≤ num_output_placeholders (answered g e stale r);
}.

Lemma answered_fields g e stale r (r' := answered g e stale r) :
  request_id r' = request_id r ∧ status r' = status r ∧ num_tokens r' = num_tokens r ∧
  num_computed_tokens r' = num_computed_tokens r - taken_back g (sent_drafts e) stale ∧
  num_output_placeholders r' = num_output_placeholders r - if async_scheduling cfg then taken_back g (sent_drafts e) stale else 0.
Proof. subst r'. unfold answered, accepted, arrived. by destruct stale. Qed.

Lemma arrived_fields stale n r (r' := arrived stale n r) :
  request_id r' = request_id r ∧ num_computed_tokens r' = num_computed_tokens r ∧ num_output_placeholders r' = num_output_placeholders r.
Proof. subst r'. unfold arrived. by destruct stale. Qed.

Lemma running_answered v e fl g r (stale := 0 <? num_stale_output_tokens r) :
  running_ok (mml := mml) cfg (e :: fl) (0, 0) (v !! request_id r) r → inflight_ok cfg (e :: fl) →
  (stale = false → generated_ok g (sent_drafts e)) → answered_ok v e g stale r.
Proof.
  intros Hr Hin Hg. destruct (running_stale _ _ _ _ Hr Hin) as (_ & j & _ & Hcase). fold stale in Hcase.
  apply inflight_ok_cons in Hin as [(He1 & He2 & He3 & He4) Hfl]. pose proof (credits_bounds _ _ Hfl) as Hcb. pose proof (credits_bounds _ _ (inflight_ok_drop _ j _ Hfl)) as Hcj.
  pose proof (st_sampled _ _ Hcfg) as Hs. pose proof (taken_bounds g (sent_drafts e) stale (proj1 He2)) as Htb.
  destruct (answered_fields g e stale r) as (A1 & A2 & A3 & A4 & A5). destruct (arrived_fields stale (sent_tokens e) r) as (B1 & B2 & B3). split.
  - intros o Hd. apply accept_drafts_spec; rewrite ?B1, ?B2, ?B3; [done|done| |].
    + intros Est. rewrite Est in Hcase. lia.
    + destruct (async_scheduling cfg); [intros Est; rewrite Est in Hcase; lia|]. destruct stale; tauto.
  - intros Ha _. pose proof (run_ahead _ _ _ _ _ Hr Ha) as Hahead. destruct (run_room _ _ _ _ _ Hr) as (c & Hc & Hcc). cbn [fst] in Hcc. rewrite Ha in *.
    split; rewrite ?A1, ?A3, ?A4, ?A5.
    + exists c. split; [done|lia].
    + destruct stale; [|lia]. unfold taken_back. lia.
    + lia.
  - intros Ha Est Hor. rewrite Est in *. rewrite Ha in *. rewrite A5. destruct Hor as [-> |[_ Hcr]]; [change (py_len []) with 0|specialize (Hcr Ha)]; unfold taken_back in *; lia.
Qed.

Lemma waiting_answered v e fl g r : waiting_ok (e :: fl) r → answered_ok v e g true r.
Proof.
  intros Hw. destruct (arrived_fields true (sent_tokens e) r) as (B1 & B2 & B3). split; [|intros _ Hs; exfalso|done].
  - intros o Hd. apply accept_drafts_spec; rewrite ?B1, ?B2, ?B3; try done. rewrite (wait_placeholders _ _ Hw). by destruct (async_scheduling cfg).
  - destruct (wait_status _ _ Hw) as [[? _]|[[?|?] _]]; congruence.
Qed.

(** *** One entry of an output *)

(** Under asynchronous scheduling, the requests for which a step samples get at
    least one token (a pooling request gets its result), the others get none. *)
Definition sampled_ok X id (g : list Z) (p : option Z) s : Prop := async_scheduling cfg = true →
  if decide (id ∈ X)
  then num_sampled_tokens_per_step cfg ≤ py_len g ∨ (is_Some p ∧ ∀ r, requests s !! id = Some r → is_Some (pooling_params r))
  else g = [].

(** What the runner answers for a request with [d] drafts: tokens or a pooling
    result, found through the index; a pooling request gets no tokens. *)
Definition answer_ok (m : ModelRunnerOutput) X id (d : Z) s : Prop := ∃ i g p,
  req_id_to_index m !! id = Some i ∧
  (if bool_decide (sampled_token_ids m = []) then Ok [] else py_get (sampled_token_ids m) i) = Ok g ∧
  (if bool_decide (pooler_output m = []) then Ok None else py_get (pooler_output m) i) = Ok p ∧
  generated_ok g d ∧ (∀ r, requests s !! id = Some r → is_Some (pooling_params r) → g = []) ∧ sampled_ok X id g p s.

Lemma core_gone q q' p w v reqs run k e rid :
  core cfg q p w v reqs run k e → reqs !! rid = None → (∀ id, id ≠ rid → q' id = q id) → core cfg q' p w v reqs run k e.
Proof.
  intros Hc Hn Hq. assert (Hne : ∀ id r, reqs !! id = Some r → q' id = q id) by (intros id r Hr; apply Hq; intros ->; congruence).
  split; try apply Hc.
  - intros id r Hr. rewrite (Hne id r Hr). by apply Hc.
  - intros id r Hi Hr. rewrite (Hne id r Hr). by apply Hc.
  - intros x r Hx Hr. rewrite (Hne _ r Hr). by apply Hc.
Qed.

(** The request of an entry, when its output has arrived. *)
Lemma arrival_spec q w v s run rid e fl r (stale := 0 <? num_stale_output_tokens r) :
  core cfg q (λ _, (0, 0)) w v (requests s) run (kv s) (enc s) → requests s !! rid = Some r → q rid = e :: fl →
  arrive (sent_tokens e) r = Ok (stale, arrived stale (sent_tokens e) r) ∧ is_finished (status r) = false ∧
  (∀ g, (stale = false → generated_ok g (sent_drafts e)) → answered_ok v e g stale r) ∧
  ∀ g r3, (stale = false → answers g e) → grown g (settled g e stale r) r3 →
    (rid ∈ run → running_ok (mml := mml) cfg fl (0, 0) (v !! rid) r3) ∧ (rid ∉ run → waiting_ok fl r3 ∧ v !! rid = None).
Proof.
  intros Hc Hr Hq. destruct (co_req Hc _ _ Hr) as (Hid & Hok & _ & Hin). rewrite Hq in Hin.
  destruct (decide (rid ∈ run)) as [Hrun|Hrun].
  - destruct (core_running _ Hc Hrun) as (r0 & Hr0 & _ & _ & Hro & _). rewrite Hr in Hr0. injection Hr0 as <-. rewrite Hq in Hro.
    destruct (running_stale _ _ _ _ Hro Hin) as (Hst & _). split; [by apply arrive_spec|].
    split; [by rewrite (run_status _ _ _ _ _ Hro)|]. split; [intros g Hg; rewrite <-Hid in Hro; by eapply running_answered|].
    intros g r3 Hans Hgr. split; [|done]. intros _. by eapply running_after.
  - assert (Hw : ∃ x, x ∈ w ∧ request_id x = rid).
    { assert (Hdom : rid ∈ run ++ (request_id <$> w)) by (apply (co_dom Hc); by eexists). apply elem_of_app in Hdom as [?|(x & -> & Hx)%list_elem_of_fmap]; [done|].
      by exists x. }
    destruct Hw as (x & Hx & <-). destruct (core_queued x Hc Hx) as (r0 & Hr0 & _ & _ & _ & Hwait & _ & Hv). rewrite Hr in Hr0. injection Hr0 as <-.
    rewrite Hq in Hwait. pose proof (wait_stale _ _ Hwait) as Hs. rewrite tokens_cons in Hs.
    pose proof (proj1 (inflight_ok_cons _ _ _) Hin) as [[He1 _] Hfl%tokens_nonneg].
    assert (Hstale : stale = true) by (apply Z.ltb_lt; lia). split; [apply arrive_spec; lia|].
    split; [destruct (wait_status _ _ Hwait) as [[-> _]|[[-> | ->] _]]; done|].
    rewrite Hstale. split; [intros g _; by eapply waiting_answered|].
    intros g r3 _ Hgr. split; [done|]. intros _. split; [|done]. by eapply waiting_after.
Qed.

(** The requests that have stopped are out of the lists the invariant is about,
    although they are still in [running] and in the queues. *)
Definition stopped_set (os : OutputStep) : gset string :=
  list_to_set (stopped_running_reqs os) ∪ list_to_set (request_id <$> stopped_preempted_reqs os).

Record outputs_inv q (w0 : list Request) (run0 : list string) (os : OutputStep) s : Prop := {
  oi_core : ∃ v, core cfg q (λ _, (0, 0)) (drop_requests (stopped_set os) w0) v (requests s) (drop_ids (stopped_set os) run0) (kv s) (enc s);
  oi_running id : id ∈ stopped_running_reqs os → id ∈ run0;
  oi_preempted r : r ∈ stopped_preempted_reqs os → ∃ x, x ∈ w0 ∧ entry x = entry r;
}.

Definition other_fields s := (waiting s, skipped_waiting s, running s, grammar_compile_error_reqs s).

Lemma live_is_running q p w v reqs run k (e : E) rid r :
  core cfg q p w v reqs run k e → reqs !! rid = Some r → is_running r = bool_decide (rid ∈ run).
Proof.
  intros Hc Hr. unfold is_running. apply bool_decide_ext. split; intros H.
  - assert (Hdom : rid ∈ run ++ (request_id <$> w)) by (apply (co_dom Hc); by eexists).
    apply elem_of_app in Hdom as [?|(x & -> & Hx)%list_elem_of_fmap]; [done|].
    destruct (co_wait Hc _ _ Hx Hr) as [_ [_ _ _ _ [[Hs _]|[[Hs|Hs] _]]]]; congruence.
  - apply (run_status (mml := mml) cfg (q rid) (p rid) (v !! rid)). by apply (co_run Hc).
Qed.

(** Where the stopped request goes. *)
Lemma outputs_stop q w0 run0 os s v rid r r' outs s' (w := drop_requests (stopped_set os) w0) (run := drop_ids (stopped_set os) run0) :
  outputs_inv q w0 run0 os s → requests s !! rid = Some r → entry r' = entry r → request_id r = rid →
  requests s' = delete rid (requests s) →
  core cfg q (λ _, (0, 0)) w v (requests s) run (kv s) (enc s) → kv_ok (delete rid v) (kv s') → enc_ok (enc s') →
  outputs_inv q w0 run0 (if is_running r then mkOutputStep outs (stopped_running_reqs os ++ [rid]) (stopped_preempted_reqs os)
                         else mkOutputStep outs (stopped_running_reqs os) (stopped_preempted_reqs os ++ [r'])) s'.
Proof.
  intros [_ Hi1 Hi2] Hr He Hid Hreqs Hc Hkv Henc.
  rewrite (live_is_running _ _ _ _ _ _ _ _ _ _ Hc Hr). destruct (co_req Hc _ _ Hr) as (_ & _ & _ & _). pose proof He as [= He1 He2].
  set (os' := if bool_decide (rid ∈ _) then _ else _).
  assert (HX : stopped_set os' = {[rid]} ∪ stopped_set os).
  { subst os'. unfold stopped_set. case_bool_decide; cbn [stopped_running_reqs stopped_preempted_reqs]; rewrite ?fmap_app, !list_to_set_app_L; simpl; rewrite ?He1, ?Hid; set_solver. }
  split.
  - exists (delete rid v). rewrite HX, Hreqs. by apply (core_finish _ _ _ _ _ _ (kv s) (enc s)); [|by eexists| |].
  - subst os'. case_bool_decide as Hrun; cbn [stopped_running_reqs]; [|done]. intros id [?| ->%list_elem_of_singleton]%elem_of_app; [by apply Hi1|].
    by apply list_elem_of_filter in Hrun as [_ ?].
  - subst os'. case_bool_decide as Hrun; cbn [stopped_preempted_reqs]; [done|]. intros r0 [?| ->%list_elem_of_singleton]%elem_of_app; [by apply Hi2|].
    assert (Hdom : rid ∈ run ++ (request_id <$> w)) by (apply (co_dom Hc); by eexists).
    apply elem_of_app in Hdom as [?|(x & Hx1 & Hx)%list_elem_of_fmap]; [done|].
    destruct (core_queued x Hc Hx) as (r1 & Hr1 & E1 & E2 & _). rewrite <-Hx1, Hr in Hr1. injection Hr1 as <-. exists x.
    apply list_elem_of_filter in Hx as [_ Hx]. split; [done|]. unfold entry in *. congruence.
Qed.

Lemma outputs_gone q q' w0 run0 os s rid :
  outputs_inv q w0 run0 os s → requests s !! rid = None → (∀ id, id ≠ rid → q' id = q id) → outputs_inv q' w0 run0 os s.
Proof. intros [(v & Hc) H1 H2] Hn Hq. split; [|done|done]. exists v. by eapply core_gone. Qed.

(** The request goes on with its new fields. *)
Lemma outputs_update q q' w0 run0 os os' s s' rid r r3 v (w := drop_requests (stopped_set os) w0) (run := drop_ids (stopped_set os) run0) :
  outputs_inv q w0 run0 os s → core cfg q (λ _, (0, 0)) w v (requests s) run (kv s) (enc s) → kv_ok v (kv s') →
  (∀ id, id ≠ rid → q' id = q id) → requests s !! rid = Some r →
  same_id r r3 → request_ok r3 → num_in_flight_tokens r3 = tokens_of (q' rid) → inflight_ok cfg (q' rid) →
  (rid ∈ run → running_ok (mml := mml) cfg (q' rid) (0, 0) (v !! rid) r3) → (rid ∉ run → waiting_ok (q' rid) r3 ∧ v !! rid = None) →
  requests s' = <[rid:=r3]> (requests s) → enc s' = enc s →
  (stopped_running_reqs os', stopped_preempted_reqs os') = (stopped_running_reqs os, stopped_preempted_reqs os) →
  outputs_inv q' w0 run0 os' s'.
Proof.
  intros [_ H1 H2] Hc Hkv Hoth Hr [= Eid Epy _] Hok Hfl Hin Hrun Hwait Hreqs Henc [= E1 E2].
  destruct (co_req Hc _ _ Hr) as (Hid & _).
  assert (HX : stopped_set os' = stopped_set os) by (unfold stopped_set; by rewrite E1, E2).
  split; [|by rewrite E1|by rewrite E2]. exists v. rewrite HX, Hreqs, Henc.
  apply (core_update cfg q (λ _, (0, 0)) w v (requests s) run (kv s) (enc s) q' (λ _, (0, 0)) v (kv s') (enc s) rid r); try done; [apply Hc|congruence|].
  intros id Hne. by rewrite Hoth.
Qed.

(** What an answer leaves of the request. *)
Lemma answered_request g e stale r (r' := answered g e stale r) :
  request_ok r → request_ok r' ∧ same_id r r' ∧ num_in_flight_tokens r' = num_in_flight_tokens r - sent_tokens e ∧
  pooling_params r' = pooling_params r ∧ sampling_params r' = sampling_params r ∧ output_token_ids r' = output_token_ids r.
Proof.
  intros Hok. subst r'. split; [|by unfold answered, accepted, arrived; destruct stale].
  apply (request_ok_content r); try done; unfold answered, accepted, arrived; destruct stale; try done; apply Hok.
Qed.

Lemma settled_nothing e r : settled [] e true r = arrived true (sent_tokens e) r.
Proof.
  assert (Hself : ∀ r' n, n = num_output_placeholders r' → set_num_output_placeholders n r' = r') by (intros [] n ->; done).
  unfold settled, answered. rewrite accepted_none by done. apply Hself. unfold filled. rewrite andb_false_r. lia.
Qed.

Lemma grown_kept g r r' : grown g r r' → same_id r r' ∧ num_in_flight_tokens r' = num_in_flight_tokens r.
Proof. intros [Hv _ _ _ _]. apply sched_view_eq in Hv as (h & m & t & u & ->). done. Qed.

(** *** An entry, from the arrival on *)

(** What the outputs [l] for [rid] say: the tokens it got, or that it is gone. *)
Definition entry_outcome (before : option Request) rid s' (l : list CoreOutput) : Prop :=
  (∀ c, c ∈ l → out_req_id c = rid) ∧
  match before, requests s' !! rid with
  | Some r, Some r' => output_token_ids r' = output_token_ids r ++ concat (out_new_token_ids <$> l) ∧ ∀ c, c ∈ l → out_finish_reason c = None
  | Some _, None => ∃ c, c ∈ l ∧ is_Some (out_finish_reason c)
  | None, after => after = None ∧ l = []
  end.

Lemma recorded (outs : list CoreOutput) (new_token_ids : list Z) (pool : option Z) (stopped : bool) c :
  ∃ l, (if negb (bool_decide (new_token_ids = [])) || bool_decide (is_Some pool) || stopped then outs ++ [c] else outs) = outs ++ l ∧
    (l = [c] ∨ l = [] ∧ new_token_ids = [] ∧ stopped = false).
Proof.
  destruct (_ || _ || _) eqn:Er; [exists [c]; by split; [|left]|]. exists []. rewrite app_nil_r. split; [done|]. right. zbool.
  by apply bool_decide_eq_true in H.
Qed.

Lemma finished_reason st : is_finished st = true → is_Some (get_finished_reason st).
Proof. by destruct st; cbn; try done; intros _; eexists. Qed.

(** An answer uses up what was sent, or it is a pooling result. *)
Lemma answer_cases o X id n g p s r (e := sent cfg o X id n) :
  sent_ok cfg e → generated_ok g (sent_drafts e) → requests s !! id = Some r → (is_Some (pooling_params r) → g = []) → sampled_ok X id g p s →
  answers g e ∨ (g = [] ∧ is_Some (pooling_params r) ∧ is_Some p).
Proof.
  intros He Hg Hr Hpp Hs. destruct (async_scheduling cfg) eqn:Ea; [|left; apply answers_sampled; [done|done|congruence]].
  specialize (Hs Ea). destruct (decide (id ∈ X)) as [HX|HX]; [destruct Hs as [Hs|[Hp Hall]]; [left|right; by auto 6]|left].
  all: apply answers_sampled; [done|done|intros _]; by destruct (decide (id ∈ X)).
Qed.

Lemma process_request_spec q q' w0 run0 os s o X m rid n r (stale := 0 <? num_stale_output_tokens r) (e := sent cfg o X rid n) :
  outputs_inv q w0 run0 os s → (∀ id, id ≠ rid → q' id = q id) → q rid = e :: q' rid → requests s !! rid = Some r →
  answer_ok m X rid (sent_drafts e) s →
  runs (process_request cfg block_hasher o m stale (arrived stale n r) os (put_request (arrived stale n r) s)) (λ '(os', s'),
    outputs_inv q' w0 run0 os' s' ∧ other_fields s' = other_fields s ∧ (∀ id, id ≠ rid → requests s' !! id = requests s !! id) ∧
    ∃ l, os_outputs os' = os_outputs os ++ l ∧ entry_outcome (Some r) rid s' l).
Proof.
  intros Hoi Hoth Hq Hr (i & g & pool & Hi & Hg & Hpool & Hgen & Hpp & Hsam).
  pose proof Hoi as [(v & Hc) _ _]. destruct (co_req Hc _ _ Hr) as (Hid & Hok & Hfl & Hin).
  destruct (arrival_spec _ _ _ _ _ rid e (q' rid) r Hc Hr Hq) as (_ & _ & Hans & Hafter). fold stale in Hans, Hafter.
  rewrite Hq in Hfl, Hin. rewrite tokens_cons in Hfl. apply inflight_ok_cons in Hin as [He Hin].
  specialize (Hpp r Hr). destruct (Hans g (λ _, Hgen)) as [Hacc Hca Hph].
  pose proof (answer_cases o X rid n g pool s r He Hgen Hr Hpp Hsam) as Hcases.
  change n with (sent_tokens e). set (r1 := arrived stale (sent_tokens e) r) in *.
  assert (Hid1 : request_id r1 = rid) by (rewrite <-Hid; apply arrived_fields).
  unfold process_request. rewrite Hid1, Hi. cbn [unwrap mbind result_bind]. rewrite Hg, Hpool. cbn [mbind result_bind].
  rewrite Hacc by (by rewrite Hid). destruct (answered_request g e stale r Hok) as (Hok2 & Hid2 & Hfl2 & Hp2 & Hs2 & Hout2).
  destruct (answered_fields g e stale r) as (_ & Hst2 & _). set (r2 := answered g e stale r) in *.
  assert (Henc : (if 0 <? num_encoder_inputs r2 then _free_encoder_inputs cfg r2 (enc (put_request r1 s)) else Ok (enc (put_request r1 s))) = Ok (enc s)).
  { unfold num_encoder_inputs. by rewrite (rq_text _ Hok2). }
  rewrite Henc. cbn [mbind result_bind].
  eapply runs_bind; [apply (apply_output_spec v r2 g pool stale (kv (put_request r1 s))); [apply (co_kv Hc)|apply Hok2| | |]|].
  { intros Hne. assert (Hnp : pooling_params r = None) by (destruct (pooling_params r); [by destruct Hne; apply Hpp|done]).
    rewrite Hp2. split; [done|]. rewrite Hs2. by apply (rq_params _ Hok). }
  { intros Ha Hst. apply Hca; [done|congruence]. }
  { intros Ha Hst. apply Hph; [done|done|]. destruct Hcases as [?|[? _]]; auto. }
  intros [[[kept stopped] r3] k'] (Hk' & Hid3 & Hout). set (s3 := set_kv _ (set_enc (enc s) (put_request r3 (put_request r1 s)))).
  assert (Hsame : same_id r r3) by (unfold same_id in *; congruence). pose proof Hsame as [= Eid Epy Emm].
  assert (Hreqs : requests s3 = <[rid:=r3]> (requests s)).
  { subst s3. cbn [requests set_kv set_enc]. rewrite !put_reqs, Eid, Hid1, Hid. apply insert_insert_eq. }
  assert (Hoth3 : ∀ id, id ≠ rid → requests s3 !! id = requests s !! id) by (intros id Hne; by rewrite Hreqs, lookup_insert_ne).
  cbn zeta. match goal with |- context [if _ then os_outputs os ++ [?c] else os_outputs os] => set (out := c) end.
  destruct (recorded (os_outputs os) kept pool stopped out) as (l & El & Hl). rewrite El.
  assert (Hids : ∀ c, c ∈ l → out_req_id c = rid) by (destruct Hl as [-> |(-> & _ & _)]; [by intros c ->%list_elem_of_singleton|by intros c ?%elem_of_nil]).
  destruct stopped.
  - destruct Hl as [-> |(_ & _ & ?)]; [|done]. eapply runs_bind.
    { apply (free_request_spec v s3 rid r3); [rewrite Hreqs; apply lookup_insert_eq|congruence|done| |done|apply (co_enc Hc)].
      rewrite Emm. apply Hok. }
    intros s4 (Hreqs4 & Hkv4 & Henc4 & Hf4). rewrite Hreqs, delete_insert_eq in Hreqs4.
    assert (Hrun : is_running r2 = is_running r) by (unfold is_running; by rewrite Hst2).
    cbn [runs]. rewrite Hrun. split; [|split; [|split]].
    + eapply outputs_gone; [|by rewrite Hreqs4, lookup_delete_eq|done].
      apply (outputs_stop q w0 run0 os s v rid r r3); try done. unfold entry. by rewrite Eid, Epy.
    + unfold other_fields. injection Hf4 as F1 F2 F3 F4. by rewrite F1, F2, F3, F4.
    + intros id Hne. by rewrite Hreqs4, lookup_delete_ne.
    + exists [out]. split; [by destruct (is_running r)|]. split; [done|]. rewrite Hreqs4, lookup_delete_eq. exists out. split; [left|]. by apply finished_reason.
  - cbn [runs]. destruct Hout as (-> & Hout & Hnp). destruct (grown_kept _ _ _ Hout) as [_ Hfl3]. change (num_in_flight_tokens (set_num_output_placeholders _ r2)) with (num_in_flight_tokens r2) in Hfl3.
    assert (Hansw : answers g e) by (rewrite Hp2 in Hnp; by destruct Hcases).
    destruct (Hafter g r3 (λ _, Hansw) Hout) as [Hrun3 Hwait3]. split; [|split; [done|split; [done|]]].
    + apply (outputs_update q q' w0 run0 os _ s s3 rid r r3 v); try done; [|lia]. eapply grown_ok; [exact Hout|].
      apply (request_ok_content r2); try done. apply Hok2.
    + exists l. split; [done|]. split; [done|]. rewrite Hreqs, lookup_insert_eq.
      rewrite (gr_output _ _ _ Hout). change (output_token_ids (set_num_output_placeholders _ r2)) with (output_token_ids r2). rewrite Hout2.
      destruct Hl as [-> |(-> & -> & _)]; cbn; rewrite ?app_nil_r.
      * split; [done|]. by intros c ->%list_elem_of_singleton.
      * split; [done|]. by intros c ?%elem_of_nil.
Qed.

Lemma process_scheduled_spec q q' w0 run0 os s o X m rid n (e := sent cfg o X rid n) :
  outputs_inv q w0 run0 os s → (∀ id, id ≠ rid → q' id = q id) → q rid = e :: q' rid → 0 < n → answer_ok m X rid (sent_drafts e) s →
  runs (process_scheduled cfg block_hasher o m (os, s) (rid, n)) (λ '(os', s'), outputs_inv q' w0 run0 os' s' ∧
    other_fields s' = other_fields s ∧ (∀ id, id ≠ rid → requests s' !! id = requests s !! id) ∧
    ∃ l, os_outputs os' = os_outputs os ++ l ∧ entry_outcome (requests s !! rid) rid s' l).
Proof.
  intros Hoi Hoth Hq Hn Hans. unfold process_scheduled. cbn [fst snd].
  rewrite (proj2 (Z.ltb_lt 0 n) Hn). cbn [py_assert mbind result_bind].
  destruct (requests s !! rid) as [r|] eqn:Hr.
  2: { cbn [runs]. split; [by eapply outputs_gone|]. split_and!; try done. exists []. rewrite app_nil_r. split; [done|]. split; [by intros c ?%elem_of_nil|done]. }
  pose proof Hoi as [(v & Hc) _ _]. destruct (co_req Hc _ _ Hr) as (Hid & Hok & Hfl & Hin).
  destruct (arrival_spec _ _ _ _ _ rid e (q' rid) r Hc Hr Hq) as (Harr & Hfin & _ & Hafter). change (sent_tokens e) with n in Harr.
  rewrite Harr. cbn [mbind result_bind]. set (stale := 0 <? num_stale_output_tokens r) in *.
  assert (Hfin1 : is_finished (status (arrived stale n r)) = false) by (unfold arrived; by destruct stale).
  rewrite Hfin1. cbn [orb]. destruct (stale && _) eqn:Edrop; [|by eapply process_request_spec].
  apply andb_true_iff in Edrop as [Est _]. cbn [runs]. rewrite Est in *.
  pose proof (answered_request [] e true r Hok) as (Hok1 & Hid1 & Hfl1 & _). unfold answered in Hok1, Hid1, Hfl1. rewrite accepted_none in Hok1, Hid1, Hfl1 by done.
  change (sent_tokens e) with n in Hok1, Hid1, Hfl1.
  rewrite Hq in Hfl, Hin. rewrite tokens_cons in Hfl. apply inflight_ok_cons in Hin as [_ Hin]. change (sent_tokens e) with n in Hfl.
  assert (Hid2 : request_id (arrived true n r) = rid) by exact Hid.
  destruct (Hafter [] (arrived true n r)) as [Hrun Hwait]; [done|rewrite settled_nothing; apply grown_refl, Hok1|].
  split; [|split; [done|split]].
  - apply (outputs_update q q' w0 run0 os os s _ rid r (arrived true n r) v); try done; [apply (co_kv Hc)|lia|by rewrite put_reqs, Hid2].
  - intros id Hne. by rewrite put_reqs, Hid2, lookup_insert_ne.
  - exists []. rewrite app_nil_r. split; [done|]. split; [by intros c ?%elem_of_nil|]. rewrite put_reqs, Hid2, lookup_insert_eq, app_nil_r.
    split; [done|by intros c ?%elem_of_nil].
Qed.

(** *** The loop over the output *)

(** The tokens reported for a request. *)
Definition reported (outs : list CoreOutput) id : list Z := concat (out_new_token_ids <$> filter (λ c, out_req_id c = id) outs).

(** The reports [outs] say what became of the requests of [s0]: one that is
    still there has exactly the reported tokens more, one that is gone was
    reported with a finish reason, and a finish reason means that it is gone. *)
Record report_ok s0 (outs : list CoreOutput) s : Prop := {
  ro_kept id r' : requests s !! id = Some r' →
    ∃ r, requests s0 !! id = Some r ∧ output_token_ids r' = output_token_ids r ++ reported outs id;
  ro_gone id : is_Some (requests s0 !! id) → requests s !! id = None →
    ∃ c, c ∈ outs ∧ out_req_id c = id ∧ is_Some (out_finish_reason c);
  ro_finish c : c ∈ outs → is_Some (out_finish_reason c) → requests s !! out_req_id c = None;
}.

Lemma reported_app outs l id : reported (outs ++ l) id = reported outs id ++ reported l id.
Proof. unfold reported. by rewrite filter_app, fmap_app, concat_app. Qed.

Lemma reported_all (l : list CoreOutput) id : (∀ c, c ∈ l → out_req_id c = id) → reported l id = concat (out_new_token_ids <$> l).
Proof.
  unfold reported. induction l as [|c l IH]; intros Hl; [done|]. rewrite filter_cons_True by (apply Hl; left). cbn. f_equal.
  apply IH. intros c' ?. apply Hl. by right.
Qed.

Lemma reported_none (l : list CoreOutput) id : (∀ c, c ∈ l → out_req_id c ≠ id) → reported l id = [].
Proof.
  unfold reported. induction l as [|c l IH]; intros Hl; [done|]. rewrite filter_cons_False by (apply Hl; left).
  apply IH. intros c' ?. apply Hl. by right.
Qed.

Lemma report_refl s : report_ok s [] s.
Proof. split; [intros id r Hr; exists r; by rewrite app_nil_r|intros id [r Hr] Hn; congruence|by intros c ?%elem_of_nil]. Qed.

Lemma report_step s0 outs s s' rid l :
  report_ok s0 outs s → (∀ id, id ≠ rid → requests s' !! id = requests s !! id) → entry_outcome (requests s !! rid) rid s' l →
  report_ok s0 (outs ++ l) s'.
Proof.
  intros [H1 H2 H3] Hoth [Hids Hout]. split.
  - intros id r' Hr'. rewrite reported_app. destruct (decide (id = rid)) as [->|Hne].
    + rewrite Hr' in Hout. destruct (requests s !! rid) as [r|] eqn:Hr; [|by destruct Hout].
      destruct (H1 rid r Hr) as (r0 & Hr0 & E0). exists r0. destruct Hout as [E1 _]. rewrite (reported_all l rid Hids). by rewrite E1, E0, app_assoc.
    + rewrite Hoth in Hr' by done. rewrite (reported_none l id) by (intros c Hc E1; rewrite (Hids c Hc) in E1; by apply Hne). rewrite app_nil_r. by apply H1.
  - intros id Hs Hn. setoid_rewrite elem_of_app. destruct (decide (id = rid)) as [->|Hne].
    + rewrite Hn in Hout. destruct (requests s !! rid) as [r|] eqn:Hr.
      * destruct Hout as (c & Hc & Hf). exists c. split; [by right|]. split; [by apply Hids|done].
      * destruct (H2 rid Hs Hr) as (c & ? & ? & ?). exists c. split_and!; auto.
    + rewrite Hoth in Hn by done. destruct (H2 id Hs Hn) as (c & ? & ? & ?). exists c. split_and!; auto.
  - intros c [Hc|Hc]%elem_of_app Hf.
    + specialize (H3 c Hc Hf). destruct (decide (out_req_id c = rid)) as [Heq|Hne]; [|by rewrite Hoth].
      rewrite Heq in H3 |- *. rewrite H3 in Hout. by destruct Hout as [-> _].
    + rewrite (Hids c Hc). destruct (requests s !! rid) as [r|]; [|by destruct Hout as [-> _]].
      destruct (requests s' !! rid); [|done]. destruct Hout as [_ Hno]. rewrite (Hno c Hc) in Hf. by destruct Hf.
Qed.

(** What the runner answers to an output, for whose requests [X] it samples. *)
Definition runner_ok o X m s : Prop := ∀ id n, od_get (so_num_scheduled_tokens o) id = Some n →
  answer_ok m X id (py_len (default [] (od_get (so_scheduled_spec_decode_tokens o) id))) s.

Lemma answer_ok_frame m X id d s s' : requests s' !! id = requests s !! id → answer_ok m X id d s → answer_ok m X id d s'.
Proof.
  intros Hr (i & g & p & G1 & G2 & G3 & G4 & G5 & G6). exists i, g, p. unfold sampled_ok in *. rewrite Hr. by split_and!.
Qed.

Lemma update_loop_spec o X m fl w0 s :
  outputs_inv (view (flight_of cfg o X :: fl)) w0 (running s) (mkOutputStep [] [] []) s → flight_ok cfg (flight_of cfg o X) → runner_ok o X m s →
  runs (foldM (process_scheduled cfg block_hasher o m) (mkOutputStep [] [] [], s) (so_num_scheduled_tokens o)) (λ '(os', s'),
    outputs_inv (view fl) w0 (running s) os' s' ∧ other_fields s' = other_fields s ∧ report_ok s (os_outputs os') s').
Proof.
  intros Hoi [Hnd Hpos] Hrun. rewrite flight_keys in Hnd. set (nums := so_num_scheduled_tokens o) in *.
  eapply runs_mono; [apply (runs_foldM _ (λ dn todo '(os', s'), nums = dn ++ todo ∧ outputs_inv (view (entries cfg o X todo :: fl)) w0 (running s) os' s' ∧
    other_fields s' = other_fields s ∧ report_ok s (os_outputs os') s' ∧ ∀ id, id ∈ od_keys todo → requests s' !! id = requests s !! id))|].
  - split_and!; try done. apply report_refl.
  - intros dn [rid n] todo [os1 s1] (Hsplit & Hoi1 & Hf1 & Hrep1 & Hr1).
    assert (Hnot : rid ∉ od_keys todo).
    { rewrite Hsplit in Hnd. unfold od_keys in Hnd. rewrite fmap_app in Hnd. apply NoDup_app in Hnd as (_ & _ & Hnd). cbn in Hnd.
      by apply NoDup_cons in Hnd as [? _]. }
    assert (Hin : (rid, n) ∈ nums) by (rewrite Hsplit; apply elem_of_app; right; left).
    assert (Hget : od_get nums rid = Some n) by by apply od_get_In.
    eapply runs_mono; [apply (process_scheduled_spec (view (entries cfg o X ((rid, n) :: todo) :: fl)) (view (entries cfg o X todo :: fl)) w0 (running s) os1 s1 o X m rid n Hoi1)|].
    + intros id Hne. unfold view. cbn. by rewrite decide_False by done.
    + unfold view. cbn. rewrite decide_True by done. rewrite entries_get. apply od_get_None in Hnot. by rewrite Hnot.
    + destruct (Hpos (rid, sent cfg o X rid n)) as [? _]; [|done]. apply list_elem_of_fmap. by exists (rid, n).
    + eapply answer_ok_frame; [|by apply (Hrun rid n)]. apply Hr1. by left.
    + intros [os2 s2] (Hoi2 & Hf2 & Hr2 & l & El & Hl). split; [by rewrite <-app_assoc|]. split; [done|]. split; [congruence|].
      split; [rewrite El; by eapply report_step|].
      intros id Hid. rewrite Hr2 by (by intros ->). apply Hr1. by right.
  - intros [os' s'] (_ & Hoi' & Hf' & Hrep' & _). done.
Qed.

(** *** Out of the lists *)

Lemma drop_ids_ext X Y l : (∀ id, id ∈ l → id ∈ X ↔ id ∈ Y) → drop_ids X l = drop_ids Y l.
Proof.
  unfold drop_ids. induction l as [|x l IH]; intros Hl; [done|]. specialize (IH ltac:(intros id ?; apply Hl; by right)).
  pose proof (Hl x ltac:(left)) as Hx. destruct (decide (x ∈ X)); [rewrite !filter_cons_False by tauto; done|].
  rewrite !filter_cons_True by tauto. by rewrite IH.
Qed.

Lemma drop_requests_app X l l' : drop_requests X (l ++ l') = drop_requests X l ++ drop_requests X l'.
Proof. apply filter_app. Qed.

Lemma filter_requests_nil l : filter_requests [] l = l.
Proof. unfold filter_requests. induction l as [|x l IH]; [done|]. rewrite filter_cons_True by apply not_elem_of_nil. by rewrite IH. Qed.

(** The running list and the queues, when the requests [out_run] and [out_wait]
    are taken out of them. *)
Lemma take_out s lw ls (out_run : list string) (out_wait : list Request) X :
  represents (waiting s) lw → represents (skipped_waiting s) ls → NoDup (running s ++ (request_id <$> (lw ++ ls))) →
  NoDup (py_id <$> (lw ++ ls)) → (∀ r, r ∈ out_wait → ∃ x, x ∈ lw ++ ls ∧ entry x = entry r) →
  (∀ id, id ∈ running s → id ∈ X ↔ id ∈ out_run) → (∀ x, x ∈ lw ++ ls → request_id x ∈ X ↔ request_id x ∈ request_id <$> out_wait) →
  runs (let s := set_running (remove_all (running s) (list_to_set out_run)).2 s in
        if bool_decide (out_wait = []) then Ok s
        else w ← remove_requests out_wait (waiting s);
             k ← remove_requests out_wait (skipped_waiting s);
             Ok (set_skipped_waiting k (set_waiting w s)))
    (λ s', represents (waiting s') (drop_requests X lw) ∧ represents (skipped_waiting s') (drop_requests X ls) ∧
      running s' = drop_ids X (running s) ∧ (requests s', kv s', enc s', grammar_compile_error_reqs s') = (requests s, kv s, enc s, grammar_compile_error_reqs s)).
Proof.
  intros Hlw Hls Hnd Hpy Hout Hrun Hwait. apply NoDup_app in Hnd as (Hnd1 & _ & Hnd2).
  assert (Hr : (remove_all (running s) (list_to_set out_run)).2 = drop_ids X (running s)).
  { rewrite (proj1 (remove_all_correct (running s) (list_to_set out_run) Hnd1)). apply drop_ids_ext. intros id Hid. rewrite (Hrun id Hid). apply elem_of_list_to_set. }
  assert (Hf : ∀ l, (∀ x, x ∈ l → x ∈ lw ++ ls) → filter_requests out_wait l = drop_requests X l).
  { intros l Hl. by apply (filter_requests_ids out_wait l (lw ++ ls)). }
  rewrite <-!Hf by (intros x ?; apply elem_of_app; auto). cbv zeta. rewrite Hr. case_bool_decide as Hnil.
  - rewrite Hnil, !filter_requests_nil. by cbn [runs].
  - eapply runs_bind; [by apply (rep_remove_all _ lw)|]. intros w' Hw'. eapply runs_bind; [by apply (rep_remove_all _ ls)|]. intros k' Hk'. by cbn [runs].
Qed.

(** *** Finishing *)

Lemma finish_one_spec q w0 run0 X s fs r v :
  core cfg q (λ _, (0, 0)) (drop_requests X w0) v (requests s) (drop_ids X run0) (kv s) (enc s) →
  requests s !! request_id r = Some r → is_finished fs = true →
  runs (finish_one fs s r) (λ s', core cfg q (λ _, (0, 0)) (drop_requests ({[request_id r]} ∪ X) w0) (delete (request_id r) v) (requests s')
      (drop_ids ({[request_id r]} ∪ X) run0) (kv s') (enc s') ∧ requests s' = delete (request_id r) (requests s) ∧ other_fields s' = other_fields s).
Proof.
  intros Hc Hr Hfs. destruct (co_req Hc _ _ Hr) as (_ & Hok & _). unfold finish_one. eapply runs_mono.
  { apply (free_request_spec v _ (request_id r) (set_status fs r)); [rewrite put_reqs; apply lookup_insert_eq|done|done|apply Hok|apply (co_kv Hc)|apply (co_enc Hc)]. }
  intros s' (Hreqs & Hk & He & Hf). rewrite put_reqs in Hreqs. change (request_id (set_status fs r)) with (request_id r) in Hreqs. rewrite delete_insert_eq in Hreqs.
  split; [|done]. rewrite Hreqs. apply (core_finish _ _ _ _ _ _ (kv s) (enc s)); [done|by eexists|done|done].
Qed.

Lemma finish_all_spec q w0 run0 s fs rs v :
  core cfg q (λ _, (0, 0)) w0 v (requests s) run0 (kv s) (enc s) → NoDup (request_id <$> rs) →
  (∀ r, r ∈ rs → requests s !! request_id r = Some r) → is_finished fs = true →
  runs (foldM (finish_one fs) s rs) (λ s', (∃ v', core cfg q (λ _, (0, 0)) (drop_requests (list_to_set (request_id <$> rs)) w0) v' (requests s')
      (drop_ids (list_to_set (request_id <$> rs)) run0) (kv s') (enc s')) ∧
    other_fields s' = other_fields s ∧ ∀ id, requests s' !! id = if decide (id ∈ request_id <$> rs) then None else requests s !! id).
Proof.
  intros Hc Hnd Hin Hfs.
  eapply runs_mono; [apply (runs_foldM _ (λ dn todo s', rs = dn ++ todo ∧ (∃ v', core cfg q (λ _, (0, 0)) (drop_requests (list_to_set (request_id <$> dn)) w0) v'
      (requests s') (drop_ids (list_to_set (request_id <$> dn)) run0) (kv s') (enc s')) ∧
    other_fields s' = other_fields s ∧ ∀ id, requests s' !! id = if decide (id ∈ request_id <$> dn) then None else requests s !! id))|by intros s' (_ & ?)].
  - split; [done|]. split; [exists v; cbn; by rewrite drop_requests_nil, drop_ids_nil|]. split; [done|]. intros id.
    by rewrite decide_False by apply not_elem_of_nil.
  - intros dn r todo s1 (Hsplit & (v1 & Hc1) & Hf1 & Hr1).
    assert (Hnot : request_id r ∉ request_id <$> dn).
    { rewrite Hsplit, fmap_app in Hnd. apply NoDup_app in Hnd as (_ & Hd & _). intros H. apply (Hd _ H). rewrite fmap_cons. left. }
    assert (Hget : requests s1 !! request_id r = Some r) by (rewrite Hr1, decide_False by done; apply Hin; rewrite Hsplit; apply elem_of_app; right; left).
    eapply runs_mono; [by apply (finish_one_spec q w0 run0 _ s1 fs r v1 Hc1)|]. intros s2 (Hc2 & Hreqs2 & Hf2).
    split; [by rewrite <-app_assoc|].
    assert (HX : (list_to_set (request_id <$> (dn ++ [r])) : gset string) = {[request_id r]} ∪ list_to_set (request_id <$> dn))
      by (rewrite fmap_app, list_to_set_app_L; simpl; set_solver).
    rewrite HX. split; [by eexists|]. split; [congruence|]. intros id. rewrite Hreqs2, fmap_app. destruct (decide (id = request_id r)) as [->|Hne].
    + rewrite lookup_delete_eq, decide_True; [done|]. apply elem_of_app. right. left.
    + rewrite lookup_delete_ne, Hr1 by done. destruct (decide (id ∈ request_id <$> dn)); [by rewrite decide_True by (apply elem_of_app; by left)|].
      rewrite decide_False; [done|]. intros [?|?%list_elem_of_singleton]%elem_of_app; done.
Qed.

(** The requests that the first pass of [finish_requests] selects. *)
Lemma live_requests_spec q p w v run s ids :
  core cfg q p w v (requests s) run (kv s) (enc s) → NoDup ids →
  (∀ r, r ∈ live_requests ids s ↔ ∃ id, id ∈ ids ∧ requests s !! id = Some r) ∧
  (∀ r, r ∈ live_requests ids s → requests s !! request_id r = Some r) ∧
  NoDup (request_id <$> live_requests ids s).
Proof.
  intros Hc Hnd. assert (Hlive : ∀ id r, requests s !! id = Some r → request_id r = id ∧ is_finished (status r) = false).
  { intros id r Hr. split; [by destruct (co_req Hc _ _ Hr)|]. assert (Hdom : id ∈ run ++ (request_id <$> w)) by (apply (co_dom Hc); by eexists).
    apply elem_of_app in Hdom as [Hin|(x & -> & Hx)%list_elem_of_fmap].
    - by rewrite (run_status _ _ _ _ _ (co_run Hc _ _ Hin Hr)).
    - destruct (co_wait Hc _ _ Hx Hr) as [_ [_ _ _ _ [[-> _]|[[-> | ->] _]]]]; done. }
  assert (Hin : ∀ r, r ∈ live_requests ids s ↔ ∃ id, id ∈ ids ∧ requests s !! id = Some r).
  { intros r. unfold live_requests. rewrite list_elem_of_filter, list_elem_of_omap. split; [by intros [_ ?]|].
    intros (id & Hid & Hr). split; [by apply (Hlive id)|]. by exists id. }
  split; [done|]. split; [intros r (id & _ & Hr)%Hin; by destruct (Hlive _ _ Hr) as [-> _]|].
  unfold live_requests. clear Hin. induction Hnd as [|id ids Hid Hnd IH]; [constructor|]. cbn. destruct (requests s !! id) as [r|] eqn:Hr; [|done].
  destruct (Hlive id r Hr) as [Hrid Hst]. rewrite filter_cons_True by done. rewrite fmap_cons. apply NoDup_cons. split; [|done].
  intros (r' & E1 & Hr')%list_elem_of_fmap. apply list_elem_of_filter in Hr' as [_ (id' & Hid' & Hr')%list_elem_of_omap].
  apply Hid. destruct (Hlive _ _ Hr') as [E2 _]. congruence.
Qed.

Lemma finish_requests_spec fl ids fs s :
  sched_inv cfg fl s → NoDup ids → is_finished fs = true →
  runs (finish_requests ids fs s) (λ '(valid, s'), sched_inv cfg fl s' ∧ grammar_compile_error_reqs s' = grammar_compile_error_reqs s ∧
    (∀ r, r ∈ valid ↔ ∃ id, id ∈ ids ∧ requests s !! id = Some r) ∧
    ∀ id, requests s' !! id = if decide (id ∈ ids) then None else requests s !! id).
Proof.
  intros [(v & lw & ls & Hlw & Hls & Hc) Hmax Hfl] Hnd Hfs. unfold finish_requests. rewrite Hfs. cbn [py_assert mbind result_bind].
  destruct (live_requests_spec _ _ _ _ _ _ ids Hc Hnd) as (Hin & Hget & Hndv). set (valid := live_requests ids s) in *.
  set (out_run := filter (λ r, is_running r = true) valid). set (out_wait := filter (λ r, is_running r = false) valid).
  set (X := list_to_set (request_id <$> valid) : gset string). pose proof (co_nodup Hc) as Hnd0.
  assert (HX : ∀ id, id ∈ X ↔ ∃ r, r ∈ valid ∧ request_id r = id ∧ requests s !! id = Some r).
  { intros id. subst X. rewrite elem_of_list_to_set, list_elem_of_fmap. split; [intros (r & -> & Hr); exists r; split_and!; auto|intros (r & ? & <- & _); by exists r]. }
  assert (Hrn : ∀ r, r ∈ valid → is_running r = bool_decide (request_id r ∈ running s)) by (intros r Hr; eapply live_is_running; [exact Hc|by apply Hget]).
  eapply (runs_bind _ _ (λ s', represents (waiting s') (drop_requests X lw) ∧ represents (skipped_waiting s') (drop_requests X ls) ∧
      running s' = drop_ids X (running s) ∧ (requests s', kv s', enc s', grammar_compile_error_reqs s') = (requests s, kv s, enc s, grammar_compile_error_reqs s))).
  { apply (take_out s lw ls (request_id <$> out_run) out_wait X Hlw Hls Hnd0 (core_identities Hc)).
    - intros r [Hnr Hr]%list_elem_of_filter. rewrite (Hrn r Hr), bool_decide_eq_false in Hnr.
      assert (Hdom : request_id r ∈ running s ++ (request_id <$> (lw ++ ls))) by (apply (co_dom Hc); eexists; by apply Hget).
      apply elem_of_app in Hdom as [?|(x & Ex & Hx)%list_elem_of_fmap]; [done|]. exists x. split; [done|].
      pose proof (Hget r Hr) as Hgr. rewrite Ex in Hgr. destruct (co_wait Hc _ _ Hx Hgr) as [Epy _]. unfold entry. by rewrite Ex, Epy.
    - intros id Hid. unfold out_run. rewrite HX, list_elem_of_fmap. setoid_rewrite list_elem_of_filter. split.
      + intros (r & Hr & <- & _). exists r. rewrite (Hrn r Hr), bool_decide_eq_true. done.
      + intros (r & -> & _ & Hr). exists r. split_and!; auto.
    - intros x Hx. assert (Hnx : request_id x ∉ running s) by (intros ?; apply NoDup_app in Hnd0 as (_ & Hd & _); by eapply Hd, list_elem_of_fmap_2).
      unfold out_wait. rewrite HX, list_elem_of_fmap. setoid_rewrite list_elem_of_filter. split.
      + intros (r & Hr & Exr & _). exists r. rewrite (Hrn r Hr), bool_decide_eq_false, Exr. done.
      + intros (r & E1 & _ & Hr). exists r. rewrite E1. split_and!; auto. }
  intros s1 (Hlw1 & Hls1 & Hrun1 & [= E1 E2 E3 E4]).
  eapply runs_bind; [apply (finish_all_spec (view fl) (lw ++ ls) (running s) s1 fs valid v); [by rewrite E1, E2, E3|done|by rewrite E1|done]|].
  intros s2 ((v2 & Hc2) & [= F1 F2 F3 F4] & Hr2). cbn [runs]. split; [|split; [congruence|split; [done|]]].
  - split; [|rewrite F3, Hrun1; unfold drop_ids, py_len in *; pose proof (length_filter (λ id, id ∉ X) (running s)); lia|done].
    exists v2, (drop_requests X lw), (drop_requests X ls). rewrite F1, F2, F3, Hrun1, <-drop_requests_app. done.
  - intros id. rewrite Hr2, E1. destruct (decide (id ∈ ids)) as [Hid|Hid].
    + destruct (requests s !! id) as [r|] eqn:Hr; [|by case_decide]. rewrite decide_True; [done|]. apply list_elem_of_fmap. exists r.
      destruct (co_req Hc _ _ Hr) as (-> & _). split; [done|]. apply Hin. by exists id.
    + rewrite decide_False; [done|]. intros (r & -> & (id' & Hid' & Hr)%Hin)%list_elem_of_fmap. destruct (co_req Hc _ _ Hr) as (Eid & _). by rewrite Eid in Hid.
Qed.

(** *** The whole update *)

Lemma outputs_start fl s v lw ls :
  core cfg (view fl) (λ _, (0, 0)) (lw ++ ls) v (requests s) (running s) (kv s) (enc s) →
  outputs_inv (view fl) (lw ++ ls) (running s) (mkOutputStep [] [] []) s.
Proof.
  intros Hc. split; [|by intros id ?%elem_of_nil|by intros r ?%elem_of_nil]. exists v. unfold stopped_set. cbn.
  rewrite union_empty_l_L. by rewrite drop_requests_nil, drop_ids_nil.
Qed.

(** The stopped requests leave the running list and the queues. *)
Lemma remove_stopped fl s os s1 lw ls :
  NoDup (running s ++ (request_id <$> (lw ++ ls))) → NoDup (py_id <$> (lw ++ ls)) →
  represents (waiting s) lw → represents (skipped_waiting s) ls → py_len (running s) ≤ max_num_running_reqs cfg → (∀ l, l ∈ fl → flight_ok cfg l) →
  outputs_inv (view fl) (lw ++ ls) (running s) os s1 → other_fields s1 = other_fields s →
  runs (let s := set_running (remove_all (running s1) (list_to_set (stopped_running_reqs os))).2 s1 in
        if bool_decide (stopped_preempted_reqs os = []) then Ok s
        else w ← remove_requests (stopped_preempted_reqs os) (waiting s1);
             k ← remove_requests (stopped_preempted_reqs os) (skipped_waiting s1);
             Ok (set_skipped_waiting k (set_waiting w s)))
    (λ s2, sched_inv cfg fl s2 ∧ requests s2 = requests s1 ∧ grammar_compile_error_reqs s2 = grammar_compile_error_reqs s).
Proof.
  intros Hnd Hpy Hlw Hls Hmax Hfl [(v & Hc) Hi1 Hi2] [= F1 F2 F3 F4]. rewrite <-F3 in Hnd, Hi1. rewrite <-F1 in Hlw. rewrite <-F2 in Hls.
  pose proof Hnd as (_ & Hd & _)%NoDup_app. assert (Hsp : ∀ id, id ∈ request_id <$> stopped_preempted_reqs os → id ∈ request_id <$> (lw ++ ls)).
  { intros id (r & -> & Hr)%list_elem_of_fmap. destruct (Hi2 r Hr) as (x & Hx & [= <- _]). by apply list_elem_of_fmap_2. }
  eapply runs_mono; [apply (take_out s1 lw ls (stopped_running_reqs os) (stopped_preempted_reqs os) (stopped_set os) Hlw Hls Hnd Hpy Hi2)|].
  - intros id Hid. unfold stopped_set. rewrite elem_of_union, !elem_of_list_to_set. split; [|by left].
    intros [?|?%Hsp]; [done|]. by destruct (Hd id Hid).
  - intros x Hx. unfold stopped_set. rewrite elem_of_union, !elem_of_list_to_set. split; [|by right].
    intros [Hr%Hi1|?]; [|done]. destruct (Hd _ Hr). by apply list_elem_of_fmap_2.
  - intros s2 (Hlw2 & Hls2 & Hrun2 & [= E1 E2 E3 E4]). split; [|by rewrite E4]. split.
    + exists v, (drop_requests (stopped_set os) lw), (drop_requests (stopped_set os) ls).
      rewrite E1, E2, E3, Hrun2, F3, <-drop_requests_app. done.
    + rewrite Hrun2, F3. unfold drop_ids, py_len in *. pose proof (length_filter (λ id, id ∉ stopped_set os) (running s)). lia.
    + done.
Qed.

(** The grammars that failed: an order of the set. *)
Definition error_order_ok (error_order : gset string → list string) : Prop :=
  ∀ X, NoDup (error_order X) ∧ ∀ id, id ∈ error_order X ↔ id ∈ X.

Lemma errors_spec fl s0 outs s errors :
  sched_inv cfg fl s → report_ok s0 outs s → NoDup errors →
  runs ('(failed, s) ← (if bool_decide (errors = []) then Ok ([], s) else finish_requests errors FINISHED_ERROR s);
        let outs := outs ++ ((λ r, mkCoreOutput (request_id r) [] (get_finished_reason FINISHED_ERROR) None None) <$> failed) in
        Ok (outs, set_kv (kv_take_events (kv s)) s))
    (λ '(outs', s'), sched_inv cfg fl s' ∧ report_ok s0 outs' s').
Proof.
  intros Hs Hrep Hnd.
  assert (Hfin : ∀ s' outs', sched_inv cfg fl s' → report_ok s0 outs' s' →
    sched_inv cfg fl (set_kv (kv_take_events (kv s')) s') ∧ report_ok s0 outs' (set_kv (kv_take_events (kv s')) s')).
  { intros s' outs' [(v & lw & ls & Hlw & Hls & Hc) Hmax Hfl] Hr. split; [|by destruct Hr]. split; [|done|done]. exists v, lw, ls. split; [done|]. split; [done|].
    eapply core_perm; [exact Hc|done|done|apply kv_events_law, (co_kv Hc)|apply (co_enc Hc)]. }
  case_bool_decide as He.
  - cbn [mbind result_bind runs fmap list_fmap]. rewrite app_nil_r. by apply Hfin.
  - eapply runs_bind; [by apply (finish_requests_spec fl errors FINISHED_ERROR)|]. intros [valid s'] (Hs' & _ & Hvalid & Hreqs). cbn [runs].
    apply Hfin; [done|]. destruct Hrep as [H1 H2 H3]. pose proof (si_core _ _ _ Hs) as (v & lw & ls & _ & _ & Hc).
    assert (Hrid : ∀ r, r ∈ valid → request_id r ∈ errors ∧ requests s !! request_id r = Some r).
    { intros r (id & Hid & Hr)%Hvalid. destruct (co_req Hc _ _ Hr) as (-> & _). done. }
    split.
    + intros id r'. rewrite Hreqs. case_decide as Hid; [done|]. intros Hr'. destruct (H1 id r' Hr') as (r & ? & E1). exists r. split; [done|].
      rewrite reported_app, (reported_none (_ <$> valid)), app_nil_r; [done|]. intros c (r0 & -> & Hr0)%list_elem_of_fmap. cbn.
      destruct (Hrid r0 Hr0) as [? _]. congruence.
    + intros id Hs0. rewrite Hreqs. setoid_rewrite elem_of_app. destruct (requests s !! id) as [r|] eqn:Hr.
      * case_decide as Hid; [|done]. intros _. exists (mkCoreOutput (request_id r) [] (get_finished_reason FINISHED_ERROR) None None).
        split; [right; apply (list_elem_of_fmap_2 (λ r, mkCoreOutput (request_id r) [] (get_finished_reason FINISHED_ERROR) None None)), Hvalid; by exists id|].
        split; [by destruct (co_req Hc _ _ Hr)|by eexists].
      * intros _. destruct (H2 id Hs0 Hr) as (c & ? & ? & ?). exists c. split_and!; auto.
    + intros c [Hc'|(r & -> & Hr)%list_elem_of_fmap]%elem_of_app Hf; rewrite Hreqs.
      * case_decide; [done|]. by apply H3.
      * cbn. rewrite decide_True; [done|]. by apply Hrid.
Qed.

Lemma update_ok o X fl s m error_order :
  sched_inv cfg (flight_of cfg o X :: fl) s → runner_ok o X m s → error_order_ok error_order →
  runs (update_from_output cfg block_hasher error_order o m s) (λ '(outs, s'), sched_inv cfg fl s' ∧ report_ok s outs s').
Proof.
  intros [(v & lw & ls & Hlw & Hls & Hc) Hmax Hfl] Hrun Hord. unfold update_from_output.
  eapply runs_bind; [apply (update_loop_spec o X m fl (lw ++ ls) s); [by eapply outputs_start|apply Hfl; left|done]|].
  intros [os s1] (Hoi & Hf & Hrep).
  eapply runs_bind; [apply (remove_stopped fl s os s1 lw ls); try done; [apply (co_nodup Hc)|apply (core_identities Hc)|intros l ?; apply Hfl; by right]|].
  intros s2 (Hs2 & Hreqs2 & _). apply errors_spec; [|by destruct Hrep; split; cbn; rewrite ?Hreqs2|apply Hord].
  destruct Hs2 as [(v2 & lw2 & ls2 & ? & ? & ?) ? ?]. split; [by exists v2, lw2, ls2|done|done].
Qed.

(** C4: Folding an output back always succeeds.  When the oldest output in
    flight comes back with an answer of the runner to each of its requests,
    [update_from_output] raises nothing, keeps the invariant with the remaining
    outputs in flight, and its reports are right ([report_ok]): a request that
    is still there has exactly the reported tokens more; one that is gone was
    reported with a finish reason, and no other was. *)
Theorem update_from_output_correct o X fl s m error_order :
  sched_inv cfg (flight_of cfg o X :: fl) s → runner_ok o X m s → error_order_ok error_order →
  runs (update_from_output cfg block_hasher error_order o m s) (λ '(outs, s'), sched_inv cfg fl s' ∧ report_ok s outs s').
Proof. apply update_ok. Qed.
End Update.
