(* ===== verification/SchedulerMachine.v ===== *)
(** * The scheduler as a state machine

    The scheduler and the outputs that are still with the runner: requests are
    added and finished, steps are scheduled, the oldest output comes back,
    drafts are proposed, caches are reset.  From its construction on nothing
    raises, whatever the order of these calls. *)

From S2P Require Import Prelude FreeQueue Request BlockHash EncoderCache RequestQueue SchedUtils KVCacheManager Scheduler SchedulerSpec SchedulerStep SchedulerWaiting SchedulerRun SchedulerUpdate.
Local Open Scope Z_scope.

Section Machine.
Context {K E Q : Type} `{!KVCache K, !EncoderCacheOps E, !RequestQueue Q} {P : policy}.
Context `{!QueueRefines Q P, !PolicyPerm P} {mml : Z} {block_hasher : option BlockHasher}.
Context `{!KVLaws K mml block_hasher, !EncLaws E}.
Variable cfg : Settings.
Hypothesis Hcfg : settings_ok cfg mml.
Variable new_queue : Q.
Hypothesis Hnew : represents new_queue [].
Implicit Types (s : Scheduler K E Q) (r : Request) (rid id : string) (v : gmap string Z) (o : SchedulerOutput).

(** ** Requests that arrive *)

(** A request as it was made, whose id is not in use: neither held nor in an
    output that is still out. *)
Record arrival_ok (fl : list (list (string * Sent))) s r : Prop := {
  ar_ok : request_ok r;
  ar_new : waiting_ok [] r;
  ar_in_flight : num_in_flight_tokens r = 0;
  ar_id : requests s !! request_id r = None;
  ar_out : view fl (request_id r) = [];
  ar_object id r' : requests s !! id = Some r' → py_id r' ≠ py_id r;
}.

Lemma add_request_spec fl s r :
  sched_inv cfg fl s → arrival_ok fl s r →
  runs (sched_add_request r s) (λ s', sched_inv cfg fl s' ∧ requests s' = <[request_id r := r]> (requests s)).
Proof.
  intros [(v & lw & ls & Hlw & Hls & Hc) Hmax Hfl] [A1 A2 A3 A4 A5 A6]. unfold sched_add_request. rewrite A4.
  pose proof (core_add _ _ _ _ _ _ _ _ _ r Hc A4 A5 A6 A1 A3 A2) as Hc'.
  assert (Hpy : py_id r ∉ py_id <$> (lw ++ ls)).
  { intros (x & E1 & Hx)%list_elem_of_fmap. destruct (core_queued _ Hc Hx) as (r' & Hr' & _ & E2 & _). apply (A6 _ _ Hr'). congruence. }
  rewrite fmap_app, not_elem_of_app in Hpy. destruct Hpy as [Hpy1 Hpy2].
  eapply (runs_bind _ _ (λ s1, (∃ lw' ls', represents (waiting s1) lw' ∧ represents (skipped_waiting s1) ls' ∧ lw' ++ ls' ≡ₚ r :: lw ++ ls) ∧
    (requests s1, running s1, kv s1, enc s1) = (requests s, running s, kv s, enc s))).
  - destruct (_is_blocked_waiting_status (status r)).
    + eapply runs_bind; [by apply (rep_add _ ls r)|]. intros q' Hq'. split; [|done]. exists lw, (enqueue P r ls).
      split_and!; [done|done|]. rewrite enqueue_perm. symmetry. apply Permutation_middle.
    + eapply runs_bind; [by apply (rep_add _ lw r)|]. intros q' Hq'. split; [|done]. exists (enqueue P r lw), ls.
      split_and!; [done|done|]. by rewrite enqueue_perm.
  - intros s1 ((lw' & ls' & Hlw' & Hls' & Hperm) & [= E1 E2 E3 E4]). cbn [runs]. split; [|by rewrite put_reqs, E1].
    split; [|cbn; by rewrite E2|done]. exists v, lw', ls'. cbn [waiting skipped_waiting requests running kv enc put_request set_reqs].
    rewrite E1, E2, E3, E4. split; [done|]. split; [done|]. eapply core_perm; [exact Hc'|done|done|apply (co_kv Hc)|apply (co_enc Hc)].
Qed.

(** ** Drafts *)

(** Drafts come for running requests of which nothing is in flight: the tokens
    they follow are known. *)
Definition drafts_ok (fl : list (list (string * Sent))) (drafts : list (string * list Z)) s : Prop :=
  ∀ id, id ∈ od_keys drafts → is_Some (requests s !! id) → id ∈ running s ∧ view fl id = [].

Lemma draft_spec fl s id l :
  sched_inv cfg fl s → (is_Some (requests s !! id) → id ∈ running s ∧ view fl id = []) →
  let s' := update_draft_token_ids [(id, l)] s in
  sched_inv cfg fl s' ∧ running s' = running s ∧ ∀ id', is_Some (requests s' !! id') ↔ is_Some (requests s !! id').
Proof.
  intros Hs Hd s'. subst s'. cbn. destruct (requests s !! id) as [r|] eqn:Hr; [|done]. destruct (is_finished (status r)); [done|].
  destruct Hs as [(v & lw & ls & Hlw & Hls & Hc) Hmax Hfl]. destruct Hd as [Hrun Hq]; [by eexists|].
  destruct (core_running _ Hc Hrun) as (r0 & Hr0 & Hid & Hok & Hro & _). rewrite Hr in Hr0. injection Hr0 as <-.
  destruct (co_req Hc _ _ Hr) as (_ & _ & Hfl0 & Hin). set (r' := set_spec_token_ids _ r). split; [|split; [done|]].
  - split; [|done|done]. exists v, lw, ls. split; [done|]. split; [done|]. cbn [requests running kv enc put_request set_reqs].
    change (request_id r') with (request_id r). rewrite Hid.
    apply (core_update cfg _ _ _ _ _ _ _ _ (view fl) (λ _, (0, 0)) v (kv s) (enc s) id r r' Hc); try done; [apply (co_kv Hc)|apply (co_enc Hc)| |].
    + apply (request_ok_content r); simpl; try done. apply Hok.
    + intros _. destruct Hro as [G1 G2 G3 G4 G5 G6 G7 G8]. split; try done. intros _. destruct G6 as (j & _ & _ & _ & H3 & H4). rewrite Hq, drop_nil in H3, H4.
      cbn in *. unfold num_tokens in *. cbn. destruct (async_scheduling cfg); lia.
  - intros id'. cbn. change (request_id r') with (request_id r). rewrite Hid. destruct (decide (id' = id)) as [->|Hne].
    + rewrite lookup_insert_eq, Hr. split; by eexists.
    + by rewrite lookup_insert_ne.
Qed.

Lemma drafts_spec fl drafts s :
  sched_inv cfg fl s → drafts_ok fl drafts s → sched_inv cfg fl (update_draft_token_ids drafts s).
Proof.
  revert s. induction drafts as [|[id l] drafts IH]; intros s Hs Hd; [done|].
  destruct (draft_spec fl s id l Hs) as (Hs' & Hrun & Hdom); [apply Hd; left|]. apply (IH (update_draft_token_ids [(id, l)] s) Hs').
  intros id' Hid' Hsome. rewrite Hrun. apply Hd; [by right|by apply Hdom].
Qed.

(** Drafts that fill the placeholders of an output change no counter of it. *)
Lemma drafts_in_output_flight drafts o X s : flight_of cfg (update_draft_token_ids_in_output drafts o s) X = flight_of cfg o X.
Proof.
  unfold update_draft_token_ids_in_output. revert o. induction drafts as [|[id l] drafts IH]; intros o; [done|]. cbn [foldl]. rewrite IH. clear IH.
  cbn [fst snd]. destruct (requests s !! id) as [r|]; [|done].
  destruct (od_get (so_scheduled_spec_decode_tokens o) id) as [[|t ts]|] eqn:Hp; [done| |done]. destruct (is_finished (status r)); [done|].
  unfold flight_of, entries. cbn [so_num_scheduled_tokens]. apply list_fmap_ext. intros _ [id' n] _. cbn [fst snd]. f_equal.
  unfold sent. cbn [so_scheduled_spec_decode_tokens]. rewrite od_get_set. case_decide as Hid; [subst id'|done]. rewrite Hp. cbn [default]. set (ids := take (length (t :: ts)) l).
  assert (Hl : py_len (ids ++ replicate (length (t :: ts) - length ids) (-1)) = py_len (t :: ts)).
  { unfold py_len. rewrite length_app, length_replicate. assert (length ids ≤ length (t :: ts))%nat by (subst ids; rewrite length_take; lia). lia. }
  f_equal; [|f_equal]; exact Hl.
Qed.

(** ** Resets *)

Lemma preempt_all_spec fl fuel s :
  sched_inv cfg fl s → (length (running s) < fuel)%nat →
  runs (preempt_all fuel s) (λ s', sched_inv cfg fl s' ∧ running s' = [] ∧ ∀ id, fixed_of s' id = fixed_of s id).
Proof.
  revert s. induction fuel as [|fuel IH]; intros s Hs Hlt; [lia|]. cbn [preempt_all].
  destruct (last (running s)) as [rid|] eqn:El; [|cbn [runs]; apply last_None in El; done].
  apply last_Some in El as [run Hrun]. destruct Hs as [(v & lw & ls & Hlw & Hls & Hc) Hmax Hfl]. rewrite Hrun, removelast_last.
  eapply runs_bind.
  { apply (preempt_spec cfg (view fl) (λ _, (0, 0)) (lw ++ ls) v (set_running run s) (running s) run rid true lw ls Hc eq_refl Hlw).
    rewrite Hrun. symmetry. apply Permutation_cons_append. }
  intros s1 (lw1 & Hlw1 & Hc1 & Hrun1 & Hsk1 & _ & Hfix1 & _). cbn in Hrun1, Hsk1.
  assert (Hl : length (running s) = S (length run)) by (rewrite Hrun, length_app; simpl; lia).
  eapply runs_mono; [apply (IH s1)|].
  - split; [|rewrite Hrun1; unfold py_len in *; lia|done]. exists (delete rid v), lw1, ls. by rewrite Hrun1, Hsk1.
  - rewrite Hrun1. lia.
  - intros s2 (Hs2 & Hrun2 & Hfix2). split_and!; try done. intros id. rewrite Hfix2. apply Hfix1.
Qed.

Lemma sched_reset_spec fl s reset_running :
  sched_inv cfg fl s →
  runs (sched_reset_prefix_cache reset_running s) (λ '(done, s'), sched_inv cfg fl s' ∧
    (reset_running = true → running s' = []) ∧ (reset_running = false → running s' = running s) ∧ (running s' = [] → done = true) ∧
    ∀ id, fixed_of s' id = fixed_of s id).
Proof.
  intros Hs. unfold sched_reset_prefix_cache. eapply (runs_bind _ _ (λ s1, sched_inv cfg fl s1 ∧ (reset_running = true → running s1 = []) ∧
    (reset_running = false → running s1 = running s) ∧ ∀ id, fixed_of s1 id = fixed_of s id)).
  - destruct reset_running; [|done]. eapply runs_bind; [by apply (preempt_all_spec fl); [|lia]|]. intros s1 (Hs1 & Hrun1 & Hfix1). cbn [runs].
    split; [|done]. destruct Hs1 as [(v & lw & ls & ?) ? ?]. split; [by exists v, lw, ls|done|done].
  - intros s1 ([(v & lw & ls & Hlw & Hls & Hc) Hmax Hfl] & Hrun1 & Hrun0 & Hfix1).
    eapply runs_bind; [apply (kv_reset_law v), (co_kv Hc)|]. intros [successful k] [Hk Hdone].
    assert (Hall : running s1 = [] → successful = true).
    { intros Hr. apply Hdone, map_empty. intros id. apply (co_slots Hc). rewrite Hr. apply not_elem_of_nil. }
    replace (reset_running && negb successful) with false by (destruct reset_running; [by rewrite Hall by auto|done]). cbn [runs].
    split; [|by split_and!]. split; [|done|done]. exists v, lw, ls. split; [done|]. split; [done|].
    eapply core_perm; [exact Hc|done|done|done|apply (co_enc Hc)].
Qed.

(** ** The machine *)

(** The calls of the engine.  [SUpdate] brings the oldest output back,
    [SDraftsInOutput] fills the placeholders of the newest. *)
Inductive sched_op : Type :=
  | SAdd (r : Request)
  | SSchedule (grammar : string → GrammarState) (throttle_prefills : bool)
  | SUpdate (m : ModelRunnerOutput) (error_order : gset string → list string)
  | SFinish (ids : list string) (finished_status : RequestStatus)
  | SDrafts (drafts : list (string * list Z))
  | SDraftsInOutput (drafts : list (string * list Z))
  | SResetPrefixCache (reset_running : bool)
  | SResetEncoderCache
  | SPause (p : PauseState).

(** The scheduler, and the outputs that are still out, the oldest first, each
    with the requests for which the runner samples. *)
Definition system : Type := Scheduler K E Q * list (SchedulerOutput * gset string).

Definition flights (outs : list (SchedulerOutput * gset string)) : list (list (string * Sent)) := (λ x, flight_of cfg x.1 x.2) <$> outs.

Definition run_sched_op (op : sched_op) (x : system) : result system :=
  let '(s, outs) := x in
  match op with
  | SAdd r => s ← sched_add_request r s; Ok (s, outs)
  | SSchedule grammar throttle => '(o, s) ← schedule cfg new_queue grammar throttle s; Ok (s, outs ++ [(o, sampling o s)])
  | SUpdate m error_order =>
      match outs with
      | [] => Ok (s, outs)
      | (o, _) :: outs => '(_, s) ← update_from_output cfg block_hasher error_order o m s; Ok (s, outs)
      end
  | SFinish ids st => '(_, s) ← finish_requests ids st s; Ok (s, outs)
  | SDrafts drafts => Ok (update_draft_token_ids drafts s, outs)
  | SDraftsInOutput drafts =>
      match last outs with
      | None => Ok (s, outs)
      | Some (o, X) => Ok (s, removelast outs ++ [(update_draft_token_ids_in_output drafts o s, X)])
      end
  | SResetPrefixCache b => '(_, s) ← sched_reset_prefix_cache b s; Ok (s, outs)
  | SResetEncoderCache => Ok (reset_encoder_cache s, outs)
  | SPause p => Ok (set_pause_state p s, outs)
  end.

(** What the callers guarantee: a new request is not known yet, the runner
    answers every request of an output, the ids to finish are a set. *)
Definition permitted (op : sched_op) (x : system) : Prop :=
  let '(s, outs) := x in
  match op with
  | SAdd r => arrival_ok (flights outs) s r
  | SUpdate m error_order => error_order_ok error_order ∧ ∀ o X, head outs = Some (o, X) → runner_ok cfg o X m s
  | SFinish ids st => NoDup ids ∧ is_finished st = true
  | SDrafts drafts => drafts_ok (flights outs) drafts s
  | _ => True
  end.

Inductive sched_reachable (k : K) (e : E) : system → Prop :=
  | reach_new : sched_reachable k e (new_scheduler new_queue k e, [])
  | reach_op op x x' : sched_reachable k e x → permitted op x → run_sched_op op x = Ok x' → sched_reachable k e x'.

Lemma new_scheduler_inv k e : kv_ok ∅ k → enc_ok e → sched_inv cfg [] (new_scheduler new_queue k e).
Proof.
  intros Hk He. pose proof (st_running _ _ Hcfg). split; [|cbn; done|by intros l ?%elem_of_nil]. exists ∅, [], []. split; [done|]. split; [done|].
  split; cbn; try done; [constructor|].
  intros id. rewrite lookup_empty. split; [by intros [? ?]|by intros ?%elem_of_nil].
Qed.

Lemma run_op_inv op s outs :
  sched_inv cfg (flights outs) s → permitted op (s, outs) →
  runs (run_sched_op op (s, outs)) (λ '(s', outs'), sched_inv cfg (flights outs') s').
Proof.
  intros Hs Hp. destruct op as [r|g t|m eo|ids st|drafts|drafts|b| |p]; cbn [run_sched_op permitted] in *.
  - eapply runs_bind; [by apply add_request_spec|]. by intros s' [? _].
  - eapply runs_bind; [by apply schedule_ok|]. intros [o s'] [? _]. cbn [runs]. unfold flights. by rewrite fmap_app.
  - destruct outs as [|[o X] outs]; [done|]. destruct Hp as [Ho Hr].
    eapply runs_bind; [by apply (update_ok cfg Hcfg o X (flights outs)); [|apply Hr|]|]. by intros [outs' s'] [? _].
  - destruct Hp. eapply runs_bind; [by apply (finish_requests_spec cfg)|]. by intros [valid s'] [? _].
  - by apply drafts_spec.
  - destruct (last outs) as [[o X]|] eqn:El; [|done]. apply last_Some in El as [outs' ->]. cbn [runs]. rewrite removelast_last.
    unfold flights in *. rewrite fmap_app in *. cbn [fmap list_fmap fst snd] in *. by rewrite drafts_in_output_flight.
  - eapply runs_bind; [by apply (sched_reset_spec (flights outs))|]. by intros [d s'] [? _].
  - destruct Hs as [(v & lw & ls & Hlw & Hls & Hc) ? ?]. split; [|done|done]. exists v, lw, ls. split; [done|]. split; [done|].
    eapply core_perm; [exact Hc|done|done|apply (co_kv Hc)|apply enc_reset_law, (co_enc Hc)].
  - destruct Hs as [(v & lw & ls & ?) ? ?]. split; [by exists v, lw, ls|done|done].
Qed.

Lemma sched_reachable_inv k e x : kv_ok ∅ k → enc_ok e → sched_reachable k e x → sched_inv cfg (flights x.2) x.1.
Proof.
  intros Hk He. induction 1 as [|op [s outs] x' Hx IH Hp Hrun]; [by apply new_scheduler_inv|].
  pose proof (run_op_inv op s outs IH Hp) as H. rewrite Hrun in H. by destruct x'.
Qed.

(** C2: From its construction on, whatever the engine calls in whatever order,
    the scheduler raises nothing: every call that is permitted completes, and
    the invariant holds in every reachable state: each request is running or in
    exactly one queue, the running ones have slots for all the tokens they are
    counted to have computed, and what is in flight of each request is counted. *)
Theorem scheduler_safe k e x op :
  kv_ok ∅ k → enc_ok e → sched_reachable k e x → permitted op x →
  sched_inv cfg (flights x.2) x.1 ∧ ∃ x', run_sched_op op x = Ok x'.
Proof.
  intros Hk He Hx Hp. pose proof (sched_reachable_inv k e x Hk He Hx) as Hs. split; [done|]. destruct x as [s outs].
  pose proof (run_op_inv op s outs Hs Hp) as H. destruct (run_sched_op op (s, outs)) as [x'|]; [by exists x'|done].
Qed.

(** ** Draining *)

(** Finish requests, then reset the prefix cache. *)
Definition finish_and_reset (ids : list string) (finished_status : RequestStatus) s : result (bool * Scheduler K E Q) :=
  '(_, s) ← finish_requests ids finished_status s; sched_reset_prefix_cache false s.

Lemma no_requests_idle fl s : sched_inv cfg fl s → requests s = ∅ → running s = [] ∧ sched_get_num_unfinished_requests s = 0.
Proof.
  intros [(v & lw & ls & Hlw & Hls & Hc) _ _] He.
  assert (Hnil : running s ++ (request_id <$> lw ++ ls) = []).
  { destruct (running s ++ (request_id <$> lw ++ ls)) as [|id l] eqn:El; [done|]. assert (Hid : id ∈ running s ++ (request_id <$> lw ++ ls)) by (rewrite El; left).
    apply (co_dom Hc) in Hid as [r Hr]. by rewrite He, lookup_empty in Hr. }
  apply app_eq_nil in Hnil as [Hr [-> ->]%fmap_nil_inv%app_eq_nil]. split; [done|].
  unfold sched_get_num_unfinished_requests. rewrite (rep_len _ _ Hlw), (rep_len _ _ Hls), Hr. by destruct (pause_state s).
Qed.

(** C6: Nothing is left behind.  When all requests the scheduler holds are
    finished, wherever they are, running or queued, and whatever is still in
    flight, nothing is unfinished and no cache slots are held: the prefix cache
    can be reset. *)
Theorem finish_all_drains fl s ids fs :
  sched_inv cfg fl s → NoDup ids → is_finished fs = true → (∀ id, is_Some (requests s !! id) → id ∈ ids) →
  runs (finish_and_reset ids fs s) (λ '(done, s'), done = true ∧ requests s' = ∅ ∧ sched_get_num_unfinished_requests s' = 0 ∧ sched_inv cfg fl s').
Proof.
  intros Hs Hnd Hfs Hall. unfold finish_and_reset. eapply runs_bind; [by apply (finish_requests_spec cfg Hcfg fl)|].
  intros [valid s1] (Hs1 & _ & _ & Hreqs). assert (He : requests s1 = ∅).
  { apply map_empty. intros id. rewrite Hreqs. case_decide as Hid; [done|]. destruct (requests s !! id) eqn:Er; [|done]. destruct Hid. apply Hall. by eexists. }
  eapply runs_mono; [by apply (sched_reset_spec fl)|]. intros [d s2] (Hs2 & _ & Hrun & Hd & Hfix).
  assert (He2 : requests s2 = ∅).
  { apply map_empty. intros id. specialize (Hfix id). unfold fixed_of in Hfix. rewrite He, lookup_empty in Hfix. by destruct (requests s2 !! id). }
  destruct (no_requests_idle fl s2 Hs2 He2) as [Hr2 Hn2]. split; [by apply Hd|done].
Qed.
End Machine.
