(* ===== verification/SchedulerKV.v ===== *)
(** * The scheduler on the KV cache manager

    The [KVCacheManager] as an instance of the interface of [Scheduler], and the
    proof that it keeps the promise the scheduler is verified against
    ([KVLaws]): a request with [c] slots has, in every group, a table that
    covers [c] tokens, and a request without slots has no blocks and nothing
    cached.  The encoder caches keep theirs ([EncLaws]). *)

From S2P Require Import Prelude FreeQueue Request BlockHash BlockMap BlockPool BlockPoolSpec EncoderCache RequestQueue SchedUtils CacheHit SingleTypeManager.
From S2P Require Import SingleTypeManagerSpec GroupSpec Coordinator CoordinatorHit CoordinatorSpec KVCacheManager KVCacheManagerSpec KVCacheManagerRun KVCacheFrame.
From S2P Require Import Scheduler SchedulerSpec.
Local Open Scope Z_scope.

(** ** The interface *)

Section Instance_.
Context `{PoolEnv}.
(** Which requests ask for reports of reused blocks
    ([request.kv_cache_report_mode]). *)
Variable report_full : Request → bool.

(** [take_kv_cache_block_copies] and [_free_cow_retained_blocks]. *)
Definition take_and_free_copies (k : KVCacheManager) : result (list (Z * Z) * KVCacheManager) :=
  let '(copies, blocks, k) := take_kv_cache_block_copies k in
  if bool_decide (copies = []) then Ok (copies, k)
  else p ← free_blocks blocks (km_pool k); Ok (copies, set_pool p k).

Definition kv_manager : KVCache KVCacheManager := {|
  kv_get_computed_blocks r := get_computed_blocks r (report_full r);
  kv_record_prefix_cache_stats := record_prefix_cache_stats;
  kv_allocate_slots r n hit blocks lookahead full scheduled :=
    allocate_slots r n hit blocks lookahead 0 false full 0 scheduled;
  kv_free := km_free;
  kv_cache_blocks := km_cache_blocks;
  kv_reset_prefix_cache := km_reset_prefix_cache;
  kv_get_blocks := km_get_blocks;
  kv_block_ids b k := (λ bs : list ref, block_id <$> bs) <$> blocks_list b k;
  kv_get_num_common_prefix_blocks := km_get_num_common_prefix_blocks;
  kv_take_copies := take_and_free_copies;
  kv_take_new_block_ids := km_take_new_block_ids;
  kv_take_events k := (km_take_events k).2;
|}.
End Instance_.

(** ** Tables that are only looked at *)

(** Reading a table can make an empty entry for it; nothing else changes. *)
Record same_tables (m m' : Manager) : Prop := {
  st_config : config m' = config m;
  st_cached : num_cached_block m' = num_cached_block m;
  st_partial : partial_hit_reqs m' = partial_hit_reqs m;
  st_blocks : ∀ rid, blocks_of rid m' = blocks_of rid m;
  st_refs : ∀ r, table_refs (req_to_blocks m') r = table_refs (req_to_blocks m) r;
}.

#[export] Instance same_tables_refl : Reflexive same_tables.
Proof. by split. Qed.

Lemma same_tables_read rid m : same_tables m (set_blocks rid (blocks_of rid m) m).
Proof.
  split; try done.
  - intros rid'. rewrite blocks_of_set. by case_decide; [subst|].
  - intros r. simpl. rewrite (table_refs_delete (<[rid:=_]> _) rid), lookup_insert_eq, delete_insert_eq. symmetry. apply table_refs_delete.
Qed.

Lemma same_tables_ids l m : same_tables m (set_new_block_ids l m).
Proof. by split. Qed.

Lemma same_tables_coord ext ms ms' p free : Forall2 same_tables ms ms' → coord_inv ext ms p free → coord_inv ext ms' p free.
Proof.
  intros Hf [Hp Hr He Hg]. split; [done| |done|].
  - intros j Hj Hh. rewrite (Hr j Hj Hh). f_equal. clear -Hf. induction Hf as [|m m' ms ms' Hm _ IH]; [done|]. simpl. rewrite IH. f_equal.
    unfold group_refs. rewrite (st_refs _ _ Hm). destruct (config_fields _ _ (st_config _ _ Hm)) as (_ & _ & _ & _ & _ & _ & ->). done.
  - intros m' (m & Hm & Hst)%(Forall2_elem_r _ _ _ _ Hf). destruct (Hg m Hm) as [G1 G2 G3 G4 G5 G6 G7].
    destruct Hst as [S1 S2 S3 S4 S5]. destruct (config_fields _ _ S1) as (C1 & C2 & _ & _ & _ & _ & C7).
    split; rewrite ?C1, ?C2, ?C7, ?S2, ?S3; try done.
    + intros rid r. rewrite S4. apply G1.
    + intros Hc rid i j. unfold uncached. rewrite S4, S2. by apply (G6 Hc).
Qed.

Section Read.
Context `{PoolEnv}.

Lemma serving_read k free ms :
  serving k free → Forall2 same_tables (managers k) ms → serving (set_coordinator (set_managers ms (km_pool k) (coordinator k)) k) free.
Proof.
  intros Hs Hf. eapply serving_step; [done|by eapply same_tables_coord; [|apply Hs]| |done].
  split; [symmetry; by eapply Forall2_length|]. intros i m' Hm'. destruct (Forall2_lookup_r _ _ _ _ _ Hf Hm') as (m & Hm & Hst).
  exists m. split; [done|apply Hst].
Qed.
End Read.

(** ** Hashes *)

Section Hashes.
Context (hash_fn : HashInput → bytes) (sha256_rows : list bytes → bytes) (seed : string) (hbs : Z).

Lemma block_hash_loop_strip fuel : ∀ r s c prev hs r',
  block_hash_loop hash_fn sha256_rows seed fuel hbs r s c prev = Ok (hs, r') → strip r' = strip r.
Proof.
  induction fuel as [|fuel IH]; intros r s c prev hs r' Hr; [done|]. cbn [block_hash_loop] in Hr. cbv zeta in Hr.
  destruct (_ <? _); [by injection Hr as _ <-|]. apply bind_Ok in Hr as ([[ks n] r1] & [H1 _]%extra_keys_memoised & Hr).
  apply bind_Ok in Hr as ([hs2 r2] & H2%IH & Hr). injection Hr as _ <-. congruence.
Qed.

(** A token is appended to both lists, and nothing else the scheduler reads changes. *)
Lemma append_view h toks r r' :
  (∀ r hs r', h r = Ok (hs, r') → strip r' = strip r) → append_output_token_ids (Some h) toks r = Ok r' →
  sched_view r' = sched_view r ∧ all_token_ids r' = all_token_ids r ++ toks ∧ output_token_ids r' = output_token_ids r ++ toks.
Proof.
  intros Hh. unfold append_output_token_ids, update_block_hashes. intros Hr. apply bind_Ok in Hr as ([hs r1] & H1%Hh & Hr). injection Hr as <-.
  split; [|split].
  - unfold sched_view. assert (E : ∀ x, set_block_hashes [] (strip (set_all_token_ids [] (set_output_token_ids [] x))) =
      set_block_hashes [] (set_all_token_ids [] (set_output_token_ids [] (strip x)))) by done.
    rewrite !E. change (strip (set_block_hashes ?l r1)) with (set_block_hashes l (strip r1)). by rewrite H1.
  - change (all_token_ids (strip r1) = all_token_ids r ++ toks). by rewrite H1.
  - change (output_token_ids (strip r1) = output_token_ids r ++ toks). by rewrite H1.
Qed.

Lemma request_block_hasher_strip r hs r' : request_block_hasher hash_fn sha256_rows seed hbs r = Ok (hs, r') → strip r' = strip r.
Proof. unfold request_block_hasher. cbv zeta. destruct (_ <? _); [by intros [= _ <-]|]. apply block_hash_loop_strip. Qed.

(** Hashes read the content of a request only. *)
Lemma blocks_from_content r r' i n : content r' = content r → blocks_from sha256_rows hbs r' i n = blocks_from sha256_rows hbs r i n.
Proof.
  intros [= E1 E2 E3 E4 E5 E6 E7]. apply list_fmap_ext. intros j k _. simpl. unfold block_at, extra_keys_ref, _gen_lora_extra_hash_keys, cache_salt_keys, embeds_keys_ref.
  by rewrite E1, E3, E5, E6, E7.
Qed.

Definition hashes_ready r : Prop := mm_before_tail hbs r ∧ up_to_date hash_fn sha256_rows seed hbs r.

Lemma hashes_ready_content r r' : content r' = content r → hashes_ready r → hashes_ready r'.
Proof.
  intros Hc [[H1 H2] [H3 H4]]. pose proof Hc as [= E1 E2 E3 E4 E5 E6 E7]. assert (En : num_tokens r' = num_tokens r) by (unfold num_tokens; by rewrite E1).
  split; split.
  - by rewrite E5.
  - by rewrite E5, En.
  - intros s e h. rewrite E3, E4. apply H3.
  - unfold hashed_to in *. unfold num_full in *. rewrite E2, En, (blocks_from_content r r') by done. done.
Qed.

Lemma hashes_length r : 0 < hbs → hashes_ready r → py_len (block_hashes r) = num_tokens r / hbs.
Proof.
  intros Hb [_ [_ ->]]. unfold py_len. rewrite chain_length. unfold blocks_from. rewrite length_fmap, length_seq. unfold num_full.
  rewrite Z2Nat.id; [done|]. apply Z.div_pos; [|done]. unfold num_tokens. apply py_len_nonneg.
Qed.
End Hashes.

(** [strip] forgets the memo, which [content] reads. *)
Lemma strip_hashes_ready hash_fn sha seed hbs r r' :
  strip r' = strip r → memo_ok sha r' → hashes_ready hash_fn sha seed hbs r → hashes_ready hash_fn sha seed hbs r'.
Proof.
  intros Hs Hm [[H1 H2] [_ H4]]. destruct (strip_fields _ _ Hs) as (E1 & E2 & E3 & E4).
  assert (En : num_tokens r' = num_tokens r) by (unfold num_tokens; by rewrite E1).
  split; split; [by rewrite E2|by rewrite E2, En|done|]. unfold hashed_to, num_full in *. rewrite E3, En, H4. f_equal.
  apply list_fmap_ext. intros j k _. symmetry. by apply strip_block_at.
Qed.

(** ** The manager keeps the promise *)

Section Laws.
Context `{PoolEnv}.
Context (hash_fn : HashInput → bytes) (seed : string) (hbs mml : Z) (caching : bool) (report_full : Request → bool).
Hypothesis Hhbs : 0 < hbs.

(** The hasher of the engine: there is one when blocks are cached. *)
Definition engine_hasher : option BlockHasher :=
  if caching then Some (request_block_hasher hash_fn sha256_rows seed hbs) else None.

(** The settings of a manager. *)
Record km_settings (k : KVCacheManager) : Prop := {
  ks_len : max_model_len k = mml;
  ks_caching : km_enable_caching k = caching;
  ks_hash : caching = true → hash_block_size (km_pool k) = hbs;
  ks_report : ∀ r, report_full r = true → km_enable_events k = true → plain_sizes k;
}.

(** The tables of the requests with slots cover them; the others have none. *)
Definition km_holds (v : gmap string Z) (ms : list Manager) : Prop :=
  ∀ m rid, m ∈ ms → match v !! rid with
    | None => blocks_of rid m = [] ∧ num_cached_block m !! rid = None
    | Some c => c ≤ py_len (blocks_of rid m) * block_size m
    end.

Record km_ok (v : gmap string Z) (k : KVCacheManager) : Prop := {
  ko_serving : ∃ free, serving k free;
  ko_settings : km_settings k;
  ko_holds : km_holds v (managers k);
}.

Definition km_ready (r : Request) : Prop :=
  request_ready r ∧ (caching = true → hashes_ready hash_fn sha256_rows seed hbs r).

Definition km_hit (rid : string) (n : Z) (b : ComputedBlocks) (k : KVCacheManager) : Prop :=
  ∀ (i : nat) m, managers k !! i = Some m → ∃ bs, blocks_list b k !! i = Some bs ∧ admits rid n m (km_pool k) bs.

Lemma km_settings_step k ms p :
  km_settings k → kept_config (managers k) ms → same_shape (km_pool k) p → km_settings (set_coordinator (set_managers ms p (coordinator k)) k).
Proof.
  intros [H1 H2 H3 H4] [Hl Hcf] Hsh. split; try done.
  - intros Hc. unfold km_pool. simpl. rewrite <-(cf_hash_size _ _ (sh_config _ _ Hsh)). by apply H3.
  - intros r Hr He i m' g Hm' Hg. destruct (Hcf i m' Hm') as (m & Hm & E). destruct (config_fields _ _ E) as (_ & -> & _). by apply (H4 r Hr He i m g).
Qed.

Lemma km_settings_moved k k' : km_settings k → moved k k' → km_settings k'.
Proof. intros Hs (ms & p & -> & Hcf & Hsh). by apply km_settings_step. Qed.

Lemma km_settings_coordinator k k' :
  km_settings k → coordinator k' = coordinator k →
  (max_model_len k', km_enable_caching k', km_enable_events k') = (max_model_len k, km_enable_caching k, km_enable_events k) → km_settings k'.
Proof.
  intros [H1 H2 H3 H4] E [= E1 E2 E3]. split; [congruence|congruence| |]; unfold km_pool, plain_sizes in *; rewrite E; [done|]. rewrite E3. done.
Qed.

(** Tables and the memory of cached blocks as they were. *)
Lemma km_holds_same v ms ms' : Forall2 same_tables ms ms' → km_holds v ms → km_holds v ms'.
Proof.
  intros Hf Hv m' rid (m & Hm & Hst)%(Forall2_elem_r _ _ _ _ Hf). specialize (Hv m rid Hm).
  destruct (config_fields _ _ (st_config _ _ Hst)) as (_ & E2 & _). by rewrite (st_blocks _ _ Hst), (st_cached _ _ Hst), E2.
Qed.

(** One request is served: the others keep what they have. *)
Lemma km_holds_step v v' rid ms ms' :
  length ms' = length ms → km_holds v ms →
  (∀ (i : nat) m, ms !! i = Some m → ∃ m', ms' !! i = Some m' ∧ untouched rid m m' ∧ framed rid m m' ∧
     match v' !! rid with
     | None => blocks_of rid m' = [] ∧ num_cached_block m' !! rid = None
     | Some c => c ≤ py_len (blocks_of rid m') * block_size m'
     end) →
  (∀ rid', rid' ≠ rid → v' !! rid' = v !! rid') → km_holds v' ms'.
Proof.
  intros Hl Hv Hstep Hoth m' rid' [i Hi]%list_elem_of_lookup. destruct (lookup_lt_is_Some_2 ms i) as [m Hm]; [rewrite <-Hl; by eapply lookup_lt_Some|].
  destruct (Hstep i m Hm) as (m2 & Hi2 & [Hcf Hun] & Hfr & Hrid). assert (m2 = m') as -> by congruence.
  destruct (decide (rid' = rid)) as [->|Hne]; [done|]. rewrite Hoth by done. specialize (Hv m rid' (list_elem_of_lookup_2 _ _ _ Hm)).
  destruct (config_fields _ _ Hcf) as (_ & -> & _). by rewrite Hun, Hfr.
Qed.

Lemma km_read v k ms :
  km_ok v k → Forall2 same_tables (managers k) ms → km_ok v (set_coordinator (set_managers ms (km_pool k) (coordinator k)) k).
Proof.
  intros [[free Hs] Hset Hv] Hf. pose proof (serving_read k free ms Hs Hf) as Hs'. split; [by exists free| |by eapply km_holds_same].
  apply km_settings_step; [done| |done]. split; [symmetry; by eapply Forall2_length|]. intros i m' Hm'.
  destruct (Forall2_lookup_r _ _ _ _ _ Hf Hm') as (m & Hm & Hst). exists m. split; [done|apply Hst].
Qed.

(** ** The laws, one by one *)

Lemma km_ready_content r r' : content r' = content r → km_ready r → km_ready r'.
Proof.
  intros Hc [[H1 H2] H3]. pose proof Hc as [= _ _ E3 E4 E5 _ _]. split; [split|].
  - by rewrite E5.
  - intros s e h. rewrite E3, E4. apply H2.
  - intros Hca. eapply hashes_ready_content; [done|by apply H3].
Qed.

Lemma km_ready_strip r r' : strip r' = strip r → request_ready r' → km_ready r → km_ready r'.
Proof. intros Hs [H1 H2] [_ H3]. split; [done|]. intros Hca. eapply strip_hashes_ready; [done|done|by apply H3]. Qed.

Lemma km_ready_append r t :
  km_ready r → runs (append_output_token_ids engine_hasher [t] r) (λ r', km_ready r' ∧ sched_view r' = sched_view r ∧
    all_token_ids r' = all_token_ids r ++ [t] ∧ output_token_ids r' = output_token_ids r ++ [t]).
Proof.
  intros [Hr Hh]. unfold engine_hasher. destruct caching eqn:Ec; [|split; [split; [exact Hr|intros; congruence]|done]].
  destruct (Hh eq_refl) as [Hmm Hup]. destruct (append_up_to_date hash_fn sha256_rows seed hbs Hhbs r [t] Hmm Hup) as (r' & Hrun & _ & Hmm' & Hup').
  rewrite Hrun. cbn [runs]. apply append_view in Hrun as (Hv & Ha & Ho); [|intros; by eapply request_block_hasher_strip].
  split; [|done]. split; [|by intros _]. split; [apply Hmm'|apply Hup'].
Qed.

Lemma km_hashes k r : km_settings k → km_ready r → km_enable_caching k = true → py_len (block_hashes r) = num_tokens r / hash_block_size (km_pool k).
Proof. intros Hk [_ Hh] Hca. rewrite (ks_caching _ Hk) in Hca. rewrite (ks_hash _ Hk Hca). apply (hashes_length hash_fn sha256_rows seed hbs r Hhbs). by apply Hh. Qed.

Lemma km_lookup v k r :
  km_ok v k → v !! request_id r = None → km_ready r → 0 < num_tokens r ≤ mml →
  runs (get_computed_blocks r (report_full r) k) (λ '(b, n, boundary, r', k'),
    km_ok v k' ∧ strip r' = strip r ∧ km_ready r' ∧ 0 ≤ n < num_tokens r ∧ km_hit (request_id r) n b k').
Proof.
  intros [[free Hs] Hset Hv] Hno Hr Hn.
  destruct (get_computed_blocks_spec (report_full r) r k _ free (sv_inv _ _ Hs) (sv_lookup _ _ Hs)) as (b & n & bd & r' & p & -> & Hp & Hst & Hrd & Hn' & _ & Hhit).
  { split; [lia|apply Hr|by apply km_hashes| |].
    - intros m Hm. specialize (Hv m (request_id r) Hm). by rewrite Hno in Hv.
    - by apply (ks_report _ Hset). }
  cbn [runs]. destruct Hp as [q ->]. split; [|split; [done|split; [by eapply km_ready_strip|split; [done|]]]].
  - split; [exists free; apply serving_events; [done|by exists q]| |done].
    apply km_settings_step; [done|apply kept_config_refl|by split].
  - intros i m Hm. destruct (Hhit i m Hm) as (bs & Hbs & Ha). exists bs. split; [done|]. eapply admits_stable; [| |exact Ha]; [by split|done].
Qed.

(** A call of [allocate_slots] in a state in order: on success the request has
    room for what it asked for, otherwise it has what it had. *)
Lemma km_slots v k s :
  km_ok v k → slots_call s k → km_ready (sl_req s) →
  runs (run_slots s k) (λ '(res, r', k'), strip r' = strip (sl_req s) ∧ km_ready r' ∧
    match res with
    | None => km_ok v k'
    | Some _ => km_ok (<[request_id (sl_req s) := sl_need s k]> v) k'
    end).
Proof.
  intros [[free Hs] Hset Hv] Hcall Hr. set (rid := request_id (sl_req s)).
  destruct (allocate_slots_spec s k _ free (sv_inv _ _ Hs) Hcall) as (res & r' & k' & free' & Hrun & Hk' & Hmv & Hst & Hres).
  pose proof (slots_framed s k res r' k' Hrun) as (Hfr & [_ Hmemo] & Hnone). rewrite Hrun. cbn [runs]. split; [done|].
  assert (Hl : length (managers k') = length (managers k)) by (symmetry; by eapply Forall2_length).
  pose proof (serving_moved k free k' free' Hs Hk' Hmv) as Hs'. pose proof (km_settings_moved k k' Hset Hmv) as Hset'.
  split; [|destruct res as [b|]].
  - eapply km_ready_strip; [done| |done]. split; [rewrite (proj1 (proj2 (strip_fields _ _ Hst))); apply (proj1 Hr)|].
    apply Hmemo, (proj1 Hr).
  - split; [by exists free'|done|]. destruct Hres as (_ & _ & Hg). eapply (km_holds_step v _ rid); [done|done| |].
    + intros i m Hm. destruct (Hg i m Hm) as (m' & new & Hm' & _ & Hun & Hneed & _). exists m'. split; [done|]. split; [done|].
      split; [by eapply (Forall2_lookup_lr _ _ _ _ _ _ Hfr)|]. rewrite lookup_insert_eq. destruct Hun as [(_ & -> & _)%config_fields _]. done.
    + intros rid' Hne. by rewrite lookup_insert_ne.
  - split; [by exists free'|done|]. destruct Hres as (_ & Hg). destruct (Hnone eq_refl) as [_ Heq]. eapply (km_holds_step v _ rid); [done|done| |done].
    intros i m Hm. destruct (Hg i m Hm) as (m' & Hm' & Hun & Hlen & _). exists m'. split; [done|]. split; [done|].
    split; [by eapply (Forall2_lookup_lr _ _ _ _ _ _ Hfr)|]. specialize (Hv m rid (list_elem_of_lookup_2 _ _ _ Hm)). fold rid in Hlen.
    destruct Hun as [(_ & -> & _)%config_fields _]. destruct (v !! rid) as [c|].
    + unfold py_len in *. by rewrite Hlen.
    + destruct Hv as [Hb Hc]. split; [apply nil_length_inv; by rewrite Hlen, Hb|]. by rewrite (Forall2_lookup_lr _ _ _ _ _ _ Heq Hm Hm').
Qed.

Lemma km_admit v k r b n new lookahead full scheduled :
  km_ok v k → v !! request_id r = None → km_ready r → num_computed_tokens r = 0 → num_tokens r ≤ mml →
  0 ≤ num_prompt_tokens r → km_hit (request_id r) n b k → 0 ≤ n → 0 < new → 0 ≤ lookahead → n + new ≤ mml →
  runs (allocate_slots r new n (Some b) lookahead 0 false full 0 scheduled k) (λ '(res, r', k'),
    strip r' = strip r ∧ km_ready r' ∧
    match res with
    | None => km_ok v k'
    | Some _ => ∃ c, n + new ≤ c ∧ km_ok (<[request_id r := c]> v) k'
    end).
Proof.
  intros Hk Hno Hr Hc0 Hmax Hp Hhit Hn Hnew Hla Hle. set (s := mkSlots r new n (Some b) lookahead 0 false full 0 scheduled).
  pose proof (ks_len _ (ko_settings _ _ Hk)) as El.
  eapply runs_mono; [apply (km_slots v k s Hk); [|done]|].
  - split; unfold s, sl_local; simpl; rewrite ?Hc0, ?El; try done; try lia; [apply Hr|by apply km_hashes; [apply Hk|]|].
    apply Admission. unfold sl_local. simpl. rewrite Hc0. done.
  - intros [[res r'] k'] (H1 & H2 & H3). split; [done|]. split; [done|]. destruct res; [|done]. eexists. split; [|exact H3].
    unfold sl_need, sl_total, sl_local. simpl. rewrite Hc0, El. lia.
Qed.

Lemma km_extend v k r c new lookahead scheduled :
  km_ok v k → v !! request_id r = Some c → km_ready r → 0 ≤ num_computed_tokens r ≤ c → num_tokens r ≤ mml →
  0 ≤ num_prompt_tokens r → 0 < new → 0 ≤ lookahead → num_computed_tokens r + new ≤ mml →
  runs (allocate_slots r new 0 None lookahead 0 false false 0 scheduled k) (λ '(res, r', k'),
    strip r' = strip r ∧ km_ready r' ∧
    match res with
    | None => km_ok v k'
    | Some _ => ∃ c, num_computed_tokens r + new ≤ c ∧ km_ok (<[request_id r := c]> v) k'
    end).
Proof.
  intros Hk Hc Hr Hn Hmax Hp Hnew Hla Hle. set (s := mkSlots r new 0 None lookahead 0 false false 0 scheduled).
  pose proof (ks_len _ (ko_settings _ _ Hk)) as El.
  eapply runs_mono; [apply (km_slots v k s Hk); [|done]|].
  - split; unfold s, sl_local; simpl; rewrite ?El; try done; try lia; [apply Hr|by apply km_hashes; [apply Hk|]|].
    apply Continuation; try done. intros m Hm. unfold sl_local. simpl. pose proof (ko_holds _ _ Hk m (request_id r) Hm) as Hh. rewrite Hc in Hh. lia.
  - intros [[res r'] k'] (H1 & H2 & H3). split; [done|]. split; [done|]. destruct res; [|done]. eexists. split; [|exact H3].
    unfold sl_need, sl_total, sl_local. simpl. rewrite El. lia.
Qed.

Lemma km_free_ok v k r : km_ok v k → runs (km_free r k) (km_ok (delete (request_id r) v)).
Proof.
  intros [[free Hs] Hset Hv]. set (rid := request_id r).
  destruct (coord_free_spec _ (coordinator k) free rid (kv_coord _ _ _ (sv_inv _ _ Hs))) as (l & ms & p & free' & Hrun & Hinv & Hsh & _ & Hout).
  unfold km_free. fold rid. rewrite Hrun. cbn [mbind result_bind runs].
  assert (Hcf : kept_config (managers k) ms) by (eapply outcome_config; [exact Hout|]; intros i m a m' [[? _] _]; done).
  split; [exists free'; by eapply serving_step|by apply km_settings_step|]. eapply (km_holds_step v _ rid); [apply Hcf|done| |].
  - intros i m Hm. destruct (oc_post _ _ _ _ _ Hout i m Hm) as (a & m' & _ & Hm' & Hun & Hb & Hc). exists m'. split; [done|]. split; [done|].
    split; [intros rid' Hne; by rewrite Hc, lookup_delete_ne|]. rewrite lookup_delete_eq. by rewrite Hc, lookup_delete_eq.
  - intros rid' Hne. by rewrite lookup_delete_ne.
Qed.

(** A running request may cache its full blocks. *)
Lemma km_cache v k r c n :
  km_ok v k → v !! request_id r = Some c → km_ready r → 0 ≤ n ≤ c → n ≤ num_tokens r →
  runs (km_cache_blocks r n k) (λ '(r', k'), km_ok v k' ∧ strip r' = strip r ∧ km_ready r').
Proof.
  intros [[free Hs] Hset Hv] Hc Hr Hn Hle. unfold km_cache_blocks. destruct (km_enable_caching k) eqn:He; [|by split; [split; [exists free| |]|]].
  pose proof (sv_inv _ _ Hs) as Hk. destruct (kv_caching _ _ _ Hk He) as [Hen Hcb].
  assert (Hcov : ∀ m, m ∈ managers k → cdiv n (block_size m) ≤ py_len (blocks_of (request_id r) m)).
  { intros m Hm. apply cdiv_le_iff; [apply (gl_size _ _ (cv_groups _ _ _ _ (kv_coord _ _ _ Hk) m Hm))|].
    specialize (Hv m (request_id r) Hm). rewrite Hc in Hv. lia. }
  destruct (coord_cache_spec _ (coordinator k) free r n (kv_coord _ _ _ Hk) Hen) as (r' & ms & p & free' & Hrun & Hinv & Hsh & _ & Hst & Hrd & Hf);
    [apply Hr|lia|apply (kv_sched _ _ _ Hk)|apply (kv_reprefill _ _ _ Hk)|done|by apply (km_hashes k r Hset Hr)|intros m Hm; split; [by apply Hcb|by apply Hcov]|].
  pose proof (cached_framed r n (coordinator k) _ _ Hrun) as [_ Hfr]. rewrite Hrun. cbn [mbind result_bind runs].
  assert (Hcf : kept_config (managers k) ms).
  { split; [symmetry; apply (Forall2_length _ _ _ Hf)|]. intros i m' Hi. destruct (Forall2_lookup_r _ _ _ _ _ Hf Hi) as (m & Hm & E & _). eauto. }
  split; [|split; [done|by eapply km_ready_strip]].
  split; [exists free'; by eapply serving_step|by apply km_settings_step|]. eapply (km_holds_step v _ (request_id r)); [apply Hcf|done| |done].
  intros i m Hm. destruct (Forall2_lookup_l _ _ _ _ _ Hf Hm) as (m' & Hm' & Ecf & Hb). exists m'. split; [done|]. split; [by split|].
  split; [by eapply (Forall2_lookup_lr _ _ _ _ _ _ Hfr)|]. rewrite Hc. specialize (Hv m (request_id r) (list_elem_of_lookup_2 _ _ _ Hm)). rewrite Hc in Hv.
  destruct (config_fields _ _ Ecf) as (_ & -> & _). by rewrite Hb.
Qed.

Lemma km_stats v k r n : km_ok v k → runs (record_prefix_cache_stats r n k) (km_ok v).
Proof.
  intros Hk. unfold record_prefix_cache_stats. destruct (_ || _) eqn:E; [done|]. apply orb_false_iff in E as [El%negb_false_iff _].
  destruct Hk as [[free Hs] Hset Hv]. destruct (sv_stats _ _ Hs El) as [st ->]. cbn [unwrap mbind result_bind runs].
  split; [|by eapply km_settings_coordinator|done]. exists free. destruct Hs as [[] H2 H3]. split; [by split|done|by eexists].
Qed.

Lemma km_common v k rid : km_ok v k → km_ok v (km_get_num_common_prefix_blocks rid k).2.
Proof.
  intros Hk. unfold km_get_num_common_prefix_blocks, coord_get_num_common_prefix_blocks.
  destruct (coordinator_class (coordinator k)); [by destruct k| |]; cbn [fst snd]; apply (km_read v k); [done| |done| ];
    rewrite <-list_fmap_compose; apply Forall2_fmap_r, Forall_Forall2_diag, Forall_forall; intros m _; simpl; unfold get_num_common_prefix_blocks;
    destruct (kv_cache_spec m); try done; apply same_tables_read.
Qed.

Lemma km_ids v k : km_ok v k → km_ok v (km_take_new_block_ids k).2.
Proof.
  intros Hk. unfold km_take_new_block_ids. cbn [fst snd]. apply (km_read v k); [done|].
  rewrite <-list_fmap_compose. apply Forall2_fmap_r, Forall_Forall2_diag, Forall_forall. intros m _. apply same_tables_ids.
Qed.

Lemma km_copies v k : km_ok v k → runs (take_and_free_copies k) (λ '(_, k'), km_ok v k').
Proof.
  intros Hk. pose proof Hk as [[free Hs] _ _]. pose proof (cv_groups _ _ _ _ (kv_coord _ _ _ (sv_inv _ _ Hs))) as Hg.
  unfold take_and_free_copies, take_kv_cache_block_copies. cbv zeta.
  assert (Hnil : concat ((take_pending_cow_copies <$> managers k).*1) = []).
  { clear -Hg. induction (managers k) as [|m ms IH]; [done|]. cbn [fmap list_fmap concat fst take_pending_cow_copies].
    rewrite (gl_copies _ _ (Hg m ltac:(left))). apply IH. intros m' Hm'. apply Hg. by right. }
  rewrite Hnil. cbn [fmap list_fmap runs]. apply (km_read v k); [done|]. rewrite <-list_fmap_compose.
  apply Forall2_fmap_r, Forall_Forall2_diag, Forall_forall. intros m Hm. split; try done. unfold config. simpl. by rewrite (gl_copies _ _ (Hg m Hm)).
Qed.

Lemma km_events v k : km_ok v k → km_ok v (km_take_events k).2.
Proof.
  intros [[free Hs] Hset Hv]. unfold km_take_events. destruct (take_events (km_pool k)) as [evs p] eqn:Ht.
  assert (Hp : same_but_events (km_pool k) p) by (unfold take_events in Ht; destruct (negb _); injection Ht as _ <-; [apply same_but_events_refl|by eexists]).
  split; [exists free; by apply serving_events| |done]. apply km_settings_step; [done|apply kept_config_refl|]. destruct Hp as [q ->]. by split.
Qed.

Lemma km_reset v k : km_ok v k → runs (km_reset_prefix_cache k) (λ '(done, k'), km_ok v k' ∧ (v = ∅ → done = true)).
Proof.
  intros [[free Hs] Hset Hv]. destruct (reset_serving k free Hs) as (d & k' & -> & Hs' & (p & Hsh & Ec) & Ef & Hd). cbn [runs]. split.
  - split; [by exists free| |by rewrite Ec]. eapply km_settings_coordinator; [|exact Ec|done]. apply km_settings_step; [done|apply kept_config_refl|done].
  - intros ->. apply Hd. eapply empty_in_use; [done|]. intros m rid Hm. by destruct (Hv m rid Hm).
Qed.

#[export] Instance km_laws : @KVLaws KVCacheManager (kv_manager report_full) mml engine_hasher := {
  kv_ok := km_ok; kv_ready := km_ready; kv_hit := km_hit;
  kv_ready_content := km_ready_content; kv_ready_append := km_ready_append; kv_lookup_law := km_lookup;
  kv_admit_law := km_admit; kv_extend_law := km_extend; kv_free_law := km_free_ok; kv_cache_law := km_cache; kv_stats_law := km_stats;
  kv_common_law := km_common; kv_copies_law := km_copies; kv_ids_law := km_ids; kv_events_law := km_events; kv_reset_law := km_reset;
}.
End Laws.

(** ** The encoder caches *)

Section Encoder.
Context `{IntSetOrder}.

Lemma no_input_ids : int_set_order ∅ = [].
Proof. apply Permutation_nil. by rewrite int_set_order_perm, elements_empty. Qed.

(** No request has cached encoder inputs. *)
#[export] Instance encoder_cache_laws : EncLaws EncoderCacheManager.
Proof.
  refine {| enc_ok e := request_cached_ids e = ∅ |}.
  - intros e r _ He. cbn [ec_free encoder_cache_ops]. unfold free, get_cached_input_ids. rewrite He, lookup_empty. cbn [default].
    by rewrite no_input_ids.
  - done.
  - done.
Defined.

#[export] Instance encoder_decoder_cache_laws : EncLaws EncoderDecoderCacheManager.
Proof.
  refine {| enc_ok _ := True |}; try done. intros e r Hr _. cbn [ec_free encoder_decoder_cache_ops]. unfold ed_free. by rewrite Hr.
Defined.
End Encoder.
