(* ===== verification/SchedulerEngine.v ===== *)
(** * The scheduler with its managers

    The scheduler, its queues, the [KVCacheManager] and the encoder cache put
    together: what the machine of [SchedulerMachine] guarantees about the block
    tables, and runs of a small engine on which the theorems are instantiated. *)

From S2P Require Import Prelude FreeQueue Request BlockHash BlockMap BlockPool BlockPoolSpec EncoderCache RequestQueue SchedUtils CacheHit SingleTypeManager.
From S2P Require Import SingleTypeManagerSpec GroupSpec Coordinator CoordinatorHit CoordinatorSpec KVCacheManager KVCacheManagerSpec KVCacheManagerRun.
From S2P Require Import Scheduler SchedulerSpec SchedulerStep SchedulerWaiting SchedulerRun SchedulerPolicy SchedulerUpdate SchedulerMachine SchedulerKV.
Local Open Scope Z_scope.

(** ** A new manager *)

(** Without context parallelism the blocks of a group have the size its
    specification says. *)
Lemma built_plain config mml mif sbs hbs dcp caching ev met c k :
  constructed config mml mif sbs hbs dcp caching ev met c → coordinator k = c → dcp ≤ 1 → plain_sizes k.
Proof.
  intros Hc Ek Hd i m g Hm Hg. rewrite Ek in Hm, Hg. destruct (cn_managers _ _ _ _ _ _ _ _ _ _ Hc i m Hm) as (g' & e & Hg' & ->).
  rewrite (cn_groups _ _ _ _ _ _ _ _ _ _ Hc) in Hg. assert (g' = g) as -> by congruence. simpl.
  unfold group_block_size, dcp_world_size_for_kv_cache_spec. rewrite (proj2 (Z.leb_le dcp 1)) by done. by destruct (group_spec g).
Qed.

Lemma new_km_ok `{PoolEnv} config mml sbs hbs mif caching ue la stats ev dcp pcp met wm meta k report_full :
  new_kv_cache_manager config mml sbs hbs mif caching ue la stats ev dcp pcp met wm meta = Ok k →
  serve_config_ok config sbs hbs dcp pcp ue caching → (∀ r, report_full r = true → ev = true → dcp ≤ 1) →
  km_ok hbs mml caching report_full ∅ k.
Proof.
  intros Hk Hok Hrep. destruct (new_kv_inv _ _ _ _ _ _ _ _ _ _ _ _ _ _ _ k Hk (se_kv _ _ _ _ _ _ _ Hok)) as (Hc & _ & Ht).
  destruct (kv_reachable_serving k) as [free Hs]; [by eapply kr_new|]. split; [by exists free| |].
  - assert (E : (max_model_len k, km_enable_caching k, km_enable_events k) = (mml, caching, ev)).
    { unfold new_kv_cache_manager in Hk. apply bind_Ok in Hk as (c & _ & Hk). apply bind_tt_Ok in Hk as [_ Hk]. by injection Hk as <-. }
    injection E as E1 E2 E3. split; [done|done| |].
    + intros _. by eapply new_pool_hash, (cn_pool _ _ _ _ _ _ _ _ _ _ Hc).
    + intros r Hr He. eapply built_plain; [exact Hc|done|]. apply (Hrep r); congruence.
  - intros m rid Hm. rewrite lookup_empty. by apply Ht.
Qed.

(** ** The whole *)

Section Engine.
Context `{PoolEnv} {E Q : Type} `{!EncoderCacheOps E, !RequestQueue Q} {P : policy}.
Context `{!QueueRefines Q P, !PolicyPerm P, !EncLaws E}.
Context (hash_fn : HashInput → bytes) (seed : string) (hbs mml : Z) (caching : bool) (report_full : Request → bool).
Hypothesis Hhbs : 0 < hbs.
Variable cfg : Settings.
Hypothesis Hcfg : settings_ok cfg mml.
Variable new_queue : Q.
Hypothesis Hnew : represents new_queue [].

#[local] Instance engine_kv : KVCache KVCacheManager := kv_manager report_full.
#[local] Instance engine_laws : KVLaws KVCacheManager mml (engine_hasher hash_fn seed hbs caching) :=
  km_laws hash_fn seed hbs mml caching report_full Hhbs.

Definition engine_reachable := sched_reachable (block_hasher := engine_hasher hash_fn seed hbs caching) (mml := mml) cfg new_queue.
Definition engine_permitted := permitted (K := KVCacheManager) (E := E) (Q := Q) (block_hasher := engine_hasher hash_fn seed hbs caching) (mml := mml) cfg.
Definition engine_step := run_sched_op (K := KVCacheManager) (E := E) (Q := Q) (block_hasher := engine_hasher hash_fn seed hbs caching) cfg new_queue.

(** C1: The engine's bookkeeping is sound.  Take a scheduler on a new
    [KVCacheManager], for any valid cache configuration, with any queue policy.
    In every state that the engine's calls can reach, the tables of a running
    request cover, in every group, all tokens the request is counted to have
    computed; a request that does not run holds no block; each block of the
    pool is referenced exactly as often as tables name it; and every permitted
    call completes. *)
Theorem engine_safe config sbs mif ue la stats ev dcp pcp met wm meta k e x op :
  new_kv_cache_manager config mml sbs hbs mif caching ue la stats ev dcp pcp met wm meta = Ok k →
  serve_config_ok config sbs hbs dcp pcp ue caching → (∀ r, report_full r = true → ev = true → dcp ≤ 1) →
  enc_ok e → engine_reachable k e x → engine_permitted op x →
  let s := x.1 in
  (∀ id r m, id ∈ running s → requests s !! id = Some r → m ∈ managers (kv s) →
     num_computed_tokens r ≤ py_len (blocks_of id m) * block_size m) ∧
  (∀ id m, id ∉ running s → m ∈ managers (kv s) → blocks_of id m = []) ∧
  (∀ j, j ≠ 0%nat → Z.of_nat j < num_gpu_blocks (km_pool (kv s)) →
     ref_cnt (blk (km_pool (kv s)) (Blk j)) = table_count (kv s) (Blk j)) ∧
  ∃ x', engine_step op x = Ok x'.
Proof.
  intros Hk Hok Hrep He Hx Hop s. assert (Hk0 : kv_ok ∅ k) by by eapply new_km_ok.
  pose proof (sched_reachable_inv cfg Hcfg new_queue Hnew k e x Hk0 He Hx) as Hs. destruct x as [s0 outs]. simpl in s, Hs. subst s.
  pose proof (run_op_inv cfg Hcfg new_queue Hnew op s0 outs Hs Hop) as Hrun. destruct Hs as [(v & lw & ls & _ & _ & Hc) _ _].
  pose proof (co_kv Hc) as [[free Hsv] _ Hholds]. split_and!.
  - intros id r m Hid Hr Hm. pose proof (co_run Hc id r Hid Hr) as Hro.
    destruct (run_room _ _ _ _ _ Hro) as (c & Hv & Hle). pose proof (Hholds m id Hm) as Hcov. rewrite Hv in Hcov. simpl in Hle. lia.
  - intros id m Hid Hm. pose proof (Hholds m id Hm) as Hcov. rewrite (co_slots Hc id Hid) in Hcov. apply Hcov.
  - intros j Hj Hlt. pose proof (kv_coord _ _ _ (sv_inv _ _ Hsv)) as Hco.
    rewrite (cv_refs _ _ _ _ Hco j Hj) by (by apply (qi_dom _ _ (proj1 (cv_pool _ _ _ _ Hco)))). rewrite (serving_refs _ free Hsv). lia.
  - unfold engine_step. destruct (run_sched_op _ _ _ _) as [x'|]; [by exists x'|done].
Qed.
End Engine.
