(* ===== verification/SchedulerDemo.v ===== *)
(** * A small engine

    A scheduler over the two-group manager of [KVCacheManagerSpec] with five
    usable blocks: runs on which the theorems about the scheduler are
    instantiated, and runs that show where the code does not do what its
    assertions expect. *)

From S2P Require Import Prelude FreeQueue Request BlockHash BlockMap BlockPool BlockPoolSpec EncoderCache RequestQueue SchedUtils CacheHit SingleTypeManager.
From S2P Require Import SingleTypeManagerSpec GroupSpec Coordinator CoordinatorHit CoordinatorSpec KVCacheManager KVCacheManagerSpec KVCacheManagerRun.
From S2P Require Import Scheduler SchedulerSpec SchedulerStep SchedulerWaiting SchedulerRun SchedulerPolicy SchedulerUpdate SchedulerMachine SchedulerKV SchedulerEngine.
Local Open Scope Z_scope.

(** ** The engine *)

#[local] Instance demo_pool_env : PoolEnv := demo_env.

Definition no_report (_ : Request) : bool := false.
#[local] Instance demo_kv_ops : KVCache KVCacheManager := kv_manager no_report.

Lemma two_positive : 0 < 2.
Proof. lia. Qed.

Definition demo_hasher : option BlockHasher := engine_hasher ideal_hash "seed" 2 true.
#[local] Instance demo_kv_laws : KVLaws KVCacheManager 16 demo_hasher := km_laws ideal_hash "seed" 2 16 true no_report two_positive.

(** Two requests may run, eight tokens may be scheduled; everything optional is
    off, but for asynchronous scheduling, which is the parameter [b]. *)
Definition demo_settings (b : bool) : Settings :=
  mkSettings FCFS 2 8 8 16 1 0 0 true false true None 0 0 0 None 0 false false false 1 b false false 2.

Lemma demo_settings_ok b : settings_ok (demo_settings b) 16.
Proof. split; simpl; try done; try lia. Qed.

Definition engine_request (py : Z) (rid : string) (toks : list Z) : result Request :=
  new_request py rid (Some toks) (Some demo_sp) None 0 None None [] None None 0 false demo_hasher.

Definition Engine : Type := Scheduler KVCacheManager EncoderCacheManager FCFSRequestQueue * list (SchedulerOutput * gset string).

Definition grammar_ready (_ : string) : GrammarState := GrammarReady.

Definition demo_start : result Engine :=
  k ← demo_kv; Ok (new_scheduler (mkFCFS []) k (new_encoder_cache_manager 0), []).

Definition demo_op (b : bool) (op : sched_op) (x : Engine) : result Engine :=
  run_sched_op (block_hasher := demo_hasher) (demo_settings b) (mkFCFS []) op x.

(** The answer of the runner: one token. *)
Definition demo_answer : ModelRunnerOutput := mkModelRunnerOutput {["a" := 0]} [[7]] [].

(** A request of four tokens is added, and scheduled. *)
Definition demo_added (b : bool) : result Engine := x ← demo_start; r ← engine_request 0 "a" (py_range 0 4); demo_op b (SAdd r) x.
Definition demo_scheduled (b : bool) : result Engine := x ← demo_added b; demo_op b (SSchedule grammar_ready false) x.

(** *** It is reachable *)

Abbreviation demo_reachable b := (sched_reachable (block_hasher := demo_hasher) (mml := 16) (demo_settings b) (mkFCFS [])).
Abbreviation demo_inv b := (sched_inv (mml := 16) (block_hasher := demo_hasher) (demo_settings b)).

Lemma empty_queue : represents (mkFCFS []) [].
Proof. split; [done|constructor]. Qed.

Lemma demo_start_ok : ∃ k, demo_kv = Ok k ∧ demo_start = Ok (new_scheduler (mkFCFS []) k (new_encoder_cache_manager 0), []) ∧ kv_ok ∅ k.
Proof.
  destruct demo_kv_ok as (k & Ek & _). exists k. split; [done|]. split; [unfold demo_start; by rewrite Ek|].
  apply (new_km_ok demo_config 16 2 2 None true false 0 true false 1 1 None 0 [] k no_report Ek demo_serve_config_ok). discriminate.
Qed.

Lemma engine_request_ready py rid toks r : engine_request py rid toks = Ok r → km_ready ideal_hash "seed" 2 true r.
Proof.
  unfold engine_request, demo_hasher, engine_hasher. cbv iota. intros Hr.
  apply (new_request_up_to_date ideal_hash sha256_rows "seed" 2 two_positive) in Hr as [Hup Hmm]; [|constructor].
  split; [split; [by rewrite Hmm; constructor|apply Hup]|]. intros _. split; [|done]. unfold mm_before_tail. rewrite Hmm. by split; constructor.
Qed.

Lemma demo_arrival k r :
  engine_request 0 "a" (py_range 0 4) = Ok r → arrival_ok (mml := 16) (block_hasher := demo_hasher) [] (new_scheduler (E := EncoderCacheManager) (mkFCFS []) k (new_encoder_cache_manager 0)) r.
Proof.
  intros Hr. pose proof (engine_request_ready _ _ _ _ Hr) as Hready. vm_compute in Hr. injection Hr as <-.
  split; [split; try done; by vm_compute|split; try done; right; by split_and!; [left|..]|done|done|done|]. intros id r'. cbn. by rewrite lookup_empty.
Qed.

Lemma demo_added_ok b : ∃ k x, demo_kv = Ok k ∧ demo_added b = Ok x ∧ kv_ok ∅ k ∧ demo_reachable b k (new_encoder_cache_manager 0) x.
Proof.
  destruct demo_start_ok as (k & Ek & Hk & Hok). unfold demo_added. rewrite Hk. cbn [mbind result_bind].
  destruct (engine_request 0 "a" (py_range 0 4)) as [r|] eqn:Hr; [|by vm_compute in Hr]. cbn [mbind result_bind].
  pose proof (demo_arrival k r Hr) as Harr. exists k.
  assert (Hinv : demo_inv b [] (new_scheduler (mkFCFS []) k (new_encoder_cache_manager 0))) by by apply (new_scheduler_inv _ (demo_settings_ok b) (mkFCFS []) empty_queue).
  pose proof (run_op_inv _ (demo_settings_ok b) (mkFCFS []) empty_queue (SAdd r) _ [] Hinv Harr) as Hrun.
  unfold demo_op. destruct (run_sched_op _ _ (SAdd r) _) as [x|] eqn:Hx; [|done]. exists x. split; [done|]. split; [done|]. split; [done|].
  by apply (reach_op (demo_settings b) (mkFCFS []) k _ (SAdd r) _ x (reach_new _ _ _ _) Harr).
Qed.

(** What the runs compute. *)
Lemma demo_added_shape b : match demo_added b with Ok (s, outs) => outs = [] | Err _ => False end.
Proof. destruct b; vm_compute; reflexivity. Qed.

(** What the first step leaves: the output and the requests it samples for. *)
Record first_step (s : Scheduler KVCacheManager EncoderCacheManager FCFSRequestQueue) (o : SchedulerOutput) (X : gset string) : Prop := {
  fs_tokens : so_num_scheduled_tokens o = [("a", 4)];
  fs_drafts : so_scheduled_spec_decode_tokens o = [];
  fs_sampled : elements X = ["a"];
  fs_generates : pooling_params <$> requests s !! "a" = Some None;
  fs_requests : elements (dom (requests s)) = ["a"];
}.

Lemma demo_scheduled_facts b : match demo_scheduled b with
  | Ok (s, [(o, X)]) => (so_num_scheduled_tokens o, so_scheduled_spec_decode_tokens o, elements X, pooling_params <$> requests s !! "a",
      elements (dom (requests s))) = ([("a", 4)], [], ["a"], Some None, ["a"])
  | _ => False end.
Proof. destruct b; vm_compute; reflexivity. Qed.

Lemma demo_scheduled_shape b : match demo_scheduled b with Ok (s, [(o, X)]) => first_step s o X | _ => False end.
Proof.
  pose proof (demo_scheduled_facts b) as H. destruct (demo_scheduled b) as [[s [|[o X] [|]]]|]; try done. by injection H as H1 H2 H3 H4 H5.
Qed.

(** The state after the request was scheduled. *)
Lemma demo_scheduled_ok b : ∃ k x s o X, demo_added b = Ok x ∧ demo_scheduled b = Ok (s, [(o, X)]) ∧ kv_ok ∅ k ∧
  demo_reachable b k (new_encoder_cache_manager 0) x ∧ x.2 = [] ∧ demo_op b (SSchedule grammar_ready false) x = Ok (s, [(o, X)]) ∧
  demo_reachable b k (new_encoder_cache_manager 0) (s, [(o, X)]) ∧ first_step s o X.
Proof.
  destruct (demo_added_ok b) as (k & x & _ & Hx & Hok & Hreach). pose proof (demo_added_shape b) as Hout. rewrite Hx in Hout.
  pose proof (demo_scheduled_shape b) as Hshape. unfold demo_scheduled in *. rewrite Hx in Hshape |- *. cbn [mbind result_bind] in *.
  destruct (demo_op b (SSchedule grammar_ready false) x) as [[s [|[o X] [|]]]|] eqn:Hs; try done.
  exists k, x, s, o, X. split_and!; try done.
  - by destruct x.
  - apply (reach_op (demo_settings b) (mkFCFS []) k _ (SSchedule grammar_ready false) x (s, [(o, X)]) Hreach); [by destruct x|exact Hs].
Qed.

Lemma demo_reachable_inv b k x : kv_ok ∅ k → demo_reachable b k (new_encoder_cache_manager 0) x → demo_inv b (flights (demo_settings b) x.2) x.1.
Proof. intros Hk. by apply (sched_reachable_inv _ (demo_settings_ok b) (mkFCFS []) empty_queue). Qed.

Lemma demo_answers b s o X : first_step s o X → runner_ok (demo_settings b) o X demo_answer s.
Proof.
  intros [H1 H2 HX H3 _] id n Hn. rewrite H1 in Hn. cbn in Hn. case_decide as Hid; [|done]. subst id. unfold answer_ok. rewrite H2.
  exists 0, [7], None. split; [done|]. split; [done|]. split; [done|]. split; [split; [done|]; by intros|]. split.
  - intros r Hr [pp Hp]. rewrite Hr in H3. cbn in H3. congruence.
  - intros _. rewrite decide_True; [by left|]. apply elem_of_elements. rewrite HX. left.
Qed.

Lemma elements_order_ok : error_order_ok elements.
Proof. intros X. split; [apply NoDup_elements|intros id; apply elem_of_elements]. Qed.

(** ** Witnesses

    The steps and the update under asynchronous scheduling. *)

(** Four tokens are scheduled. *)
Lemma schedule_correct_witness :
  ∃ x o X s', demo_added true = Ok x ∧ demo_scheduled true = Ok (s', [(o, X)]) ∧ output_ok (demo_settings true) x.1 s' o ∧ so_num_scheduled_tokens o = [("a", 4)].
Proof.
  destruct (demo_scheduled_ok true) as (k & x & s & o & X & Hx & Hs & Hok & Hreach & Hout & Hop & _ & Hfirst).
  pose proof (demo_reachable_inv true k x Hok Hreach) as Hinv. rewrite Hout in Hinv.
  pose proof (schedule_correct (demo_settings true) [] x.1 (mkFCFS []) grammar_ready false (demo_settings_ok true) empty_queue Hinv) as Hrun.
  exists x, o, X, s. split; [exact Hx|]. split; [exact Hs|]. split; [|exact (fs_tokens _ _ _ Hfirst)].
  destruct x as [s0 outs]. simpl in Hout. subst outs. unfold demo_op in Hop. cbn [run_sched_op fst] in Hop, Hrun |- *.
  destruct (schedule (demo_settings true) (mkFCFS []) grammar_ready false s0) as [[o' s']|]; [|discriminate Hop].
  cbn [mbind result_bind app] in Hop. injection Hop as -> -> _. apply Hrun.
Defined.

(** The token comes back and is stored. *)
Lemma update_from_output_correct_witness :
  ∃ s o X outs s', demo_scheduled true = Ok (s, [(o, X)]) ∧
    update_from_output (demo_settings true) demo_hasher elements o demo_answer s = Ok (outs, s') ∧ report_ok s outs s'.
Proof.
  destruct (demo_scheduled_ok true) as (k & _ & s & o & X & _ & Hs & Hok & _ & _ & _ & Hreach & Hfirst). pose proof (demo_reachable_inv true k _ Hok Hreach) as Hinv.
  pose proof (update_from_output_correct (demo_settings true) (demo_settings_ok true) o X [] s demo_answer elements Hinv (demo_answers true s o X Hfirst) elements_order_ok) as Hrun.
  exists s, o, X. destruct (update_from_output _ _ _ o demo_answer s) as [[outs s']|]; [|destruct Hrun]. exists outs, s'.
  split; [exact Hs|]. split; [reflexivity|apply Hrun].
Defined.

Lemma scheduler_safe_witness :
  ∃ x x', demo_added true = Ok x ∧ demo_inv true (flights (demo_settings true) x.2) x.1 ∧ demo_op true (SSchedule grammar_ready false) x = Ok x'.
Proof.
  destruct (demo_added_ok true) as (k & x & _ & Hx & Hok & Hreach).
  destruct (scheduler_safe (demo_settings true) (demo_settings_ok true) (mkFCFS []) empty_queue k (new_encoder_cache_manager 0) x (SSchedule grammar_ready false) Hok)
    as [Hinv [x' Hx']]; [reflexivity|exact Hreach|destruct x; exact I|]. exists x, x'. split; [exact Hx|]. split; [exact Hinv|exact Hx'].
Defined.

Lemma preemption_follows_policy_witness :
  ∃ x, demo_added false = Ok x ∧ runs (schedule (demo_settings false) (mkFCFS []) grammar_ready false x.1) (λ '(_, s'), preempted_by_policy (demo_settings false) x.1 s').
Proof.
  destruct (demo_added_ok false) as (k & x & _ & Hx & Hok & Hreach). pose proof (demo_reachable_inv false k x Hok Hreach) as Hinv.
  exists x. split; [exact Hx|]. apply (preemption_follows_policy (demo_settings false) (flights (demo_settings false) x.2)); [exact (demo_settings_ok false)|exact empty_queue|exact Hinv].
Defined.

(** The request is finished while its output is still out. *)
Lemma finish_all_drains_witness :
  ∃ s o X s', demo_scheduled false = Ok (s, [(o, X)]) ∧ finish_and_reset ["a"] FINISHED_ABORTED s = Ok (true, s') ∧ requests s' = ∅.
Proof.
  destruct (demo_scheduled_ok false) as (k & _ & s & o & X & _ & Hs & Hok & _ & _ & _ & Hreach & Hfirst). pose proof (demo_reachable_inv false k _ Hok Hreach) as Hinv.
  assert (Hall : ∀ id, is_Some (requests s !! id) → id ∈ ["a"]) by (intros id Hid%elem_of_dom; by rewrite <-(fs_requests _ _ _ Hfirst), elem_of_elements).
  pose proof (finish_all_drains (demo_settings false) (demo_settings_ok false) (flights (demo_settings false) [(o, X)]) s ["a"] FINISHED_ABORTED Hinv
    (NoDup_singleton "a") eq_refl Hall) as Hrun.
  exists s, o, X. destruct (finish_and_reset ["a"] FINISHED_ABORTED s) as [[d s']|]; [|destruct Hrun].
  exists s'. destruct Hrun as (-> & He & _ & _). split; [exact Hs|]. split; [reflexivity|exact He].
Defined.

(** The same step, on the manager. *)
Lemma engine_safe_witness :
  ∃ k x x', demo_kv = Ok k ∧ demo_added true = Ok x ∧ (∀ id m, id ∉ running x.1 → m ∈ managers (kv x.1) → blocks_of id m = []) ∧
    demo_op true (SSchedule grammar_ready false) x = Ok x'.
Proof.
  destruct (demo_added_ok true) as (k & x & Ek & Hx & _ & Hreach).
  destruct (@engine_safe demo_env EncoderCacheManager FCFSRequestQueue _ _ _ _ _ _ ideal_hash "seed" 2 16 true no_report two_positive (demo_settings true)
    (demo_settings_ok true) (mkFCFS []) empty_queue demo_config 2 None false 0 true false 1 1 None 0 [] k (new_encoder_cache_manager 0) x (SSchedule grammar_ready false)
    Ek demo_serve_config_ok) as (_ & Hfree & _ & x' & Hx'); [discriminate|reflexivity|exact Hreach|destruct x; exact I|].
  exists k, x, x'. split; [exact Ek|]. split; [exact Hx|]. split; [exact Hfree|exact Hx'].
Defined.

(** ** Running ahead *)

(** A request of one token, with or without an adapter. *)
Definition small_request (py : Z) (rid : string) (lora : option LoRARequest) : result Request :=
  new_request py rid (Some [py]) (Some demo_sp) None 0 None None [] lora None 0 false demo_hasher.

Definition with_settings (cfg : Settings) (ops : list sched_op) (x : Engine) : result Engine :=
  foldM (λ x op, run_sched_op (block_hasher := demo_hasher) cfg (mkFCFS []) op x) x ops.

Definition step : sched_op := SSchedule grammar_ready false.
Definition answer_one (id : string) : sched_op := SUpdate (mkModelRunnerOutput {[id := 0]} [[7]] []) elements.

(** Asynchronous scheduling: two steps are scheduled before the first token is
    back; then both tokens come back.  In between the request is ahead of its
    tokens by two placeholders. *)
Definition answer_token (id : string) (t : Z) : sched_op := SUpdate (mkModelRunnerOutput {[id := 0]} [[t]] []) elements.

Definition position (id : string) (x : Engine) : option (list Z * Z * Z) :=
  (λ r, (all_token_ids r, num_computed_tokens r, num_output_placeholders r)) <$> requests x.1 !! id.

Definition ahead : result Engine :=
  x ← demo_start; a ← small_request 1 "a" None; with_settings (demo_settings true) [SAdd a; step; step] x.

Lemma asynchronous_run :
  position "a" <$> ahead = Ok (Some ([1], 2, 2)) ∧
  (x ← ahead; position "a" <$> with_settings (demo_settings true) [answer_token "a" 7; answer_token "a" 8] x) = Ok (Some ([1; 7; 8], 2, 0)).
Proof. split; vm_compute; reflexivity. Qed.

(** ** Assertions that do not hold *)

(** One adapter per step. *)
Definition lora_settings : Settings :=
  mkSettings FCFS 2 8 8 16 1 0 0 true false true (Some 1) 0 0 0 None 0 false false true 2 false false false 2.

Definition two_adapters : result Engine :=
  x ← demo_start; a ← small_request 1 "a" (Some (mkLoRARequest "one" 1)); b ← small_request 2 "b" (Some (mkLoRARequest "two" 2));
  with_settings lora_settings [SAdd a; step; SAdd b; step; answer_one "a"; answer_one "b"] x.

Lemma adapters_exceed_the_limit :
  match two_adapters with
  | Ok x => running x.1 = ["a"; "b"] ∧ with_settings lora_settings [step] x = Err AssertionError
  | Err _ => False
  end.
Proof. vm_compute. split; reflexivity. Qed.

(** Two draft tokens, and a threshold for long prefills below a padded decode. *)
Definition padded_settings : Settings :=
  mkSettings FCFS 2 8 8 16 1 0 2 true false true None 2 0 0 None 0 false false false 1 false false false 2.

Definition one_decoding : result Engine :=
  x ← demo_start; a ← small_request 1 "a" None; b ← small_request 2 "b" None;
  with_settings padded_settings [SAdd a; step; answer_one "a"; SAdd b] x.

Lemma padded_decode_is_cut :
  match one_decoding with
  | Ok x => running x.1 = ["a"] ∧ with_settings padded_settings [step] x = Err AssertionError
  | Err _ => False
  end.
Proof. vm_compute. split; reflexivity. Qed.
