(* ===== verification/OffloadPolicy.v ===== *)
(** * Offloading: cache policies

    [vllm/vllm/v1/kv_offload/cpu/policies]: which offloaded blocks the CPU holds
    and which of them make room for others.  [LRUCachePolicy] keeps the idle
    blocks in the order of their last use; [ARCCachePolicy] has a list of blocks
    seen once, one of blocks seen again, and ghosts of evicted blocks that move
    the balance between the two.

    [CachePolicy] is the class of their operations and [CachePolicyLaws] what
    the offloading manager may rely on; both policies obey it. *)

From S2P Require Import Prelude BlockHash.
From Stdlib Require Import QArith Qround Qreduction.
Local Open Scope Z_scope.

(** ** Python floats

    A finite double is its exact value.  An operation rounds the exact result to
    53 significant bits, ties to even; the values that occur here are far from
    the largest double. *)

Definition py_float : Type := Q.

Definition pow2 (e : Z) : Q := if 0 <=? e then inject_Z (2 ^ e) else 1 # Z.to_pos (2 ^ (- e)).

Definition round_half_even (q : Q) : Z :=
  let f := Qfloor q in
  match (q - inject_Z f ?= 1 # 2)%Q with
  | Lt => f
  | Gt => f + 1
  | Eq => if Z.even f then f else f + 1
  end.

(** The exponent of the last of 53 bits. *)
Definition last_bit (q : Q) : Z :=
  let n := Z.abs (Qnum q) in
  let e := Z.log2 n - Z.log2 (QDen q) in
  Z.max (-1074) ((if (pow2 e ?= n # Qden q)%Q is Gt then e - 1 else e) - 52).

Definition round_double (q : Q) : py_float :=
  if Qnum q =? 0 then 0%Q
  else let e := last_bit q in Qred (inject_Z (round_half_even (q / pow2 e)) * pow2 e).

Definition float_of_int (n : Z) : py_float := round_double (inject_Z n).
Definition float_add (x y : py_float) : py_float := round_double (x + y).
Definition float_sub (x y : py_float) : py_float := round_double (x - y).
Definition float_lt (x y : py_float) : bool := if (x ?= y)%Q is Lt then true else false.

(** [int / int] *)
Definition true_div (a b : Z) : result py_float :=
  if b =? 0 then Err ZeroDivisionError else Ok (round_double (inject_Z a / inject_Z b)).

(** [min(x, y)] and [max(x, y)] return the first argument unless the second is
    smaller, or larger. *)
Definition float_min (x y : py_float) : py_float := if float_lt y x then y else x.
Definition float_max (x y : py_float) : py_float := if float_lt x y then y else x.

(** [int(x)] *)
Definition int_of_float (x : py_float) : Z := Z.quot (Qnum x) (QDen x).

(** ** Keys and blocks *)

(** Assignment to a signed field of [bits] bits. *)
Definition wrap_signed (bits x : Z) : Z := (x + 2 ^ (bits - 1)) mod 2 ^ bits - 2 ^ (bits - 1).

Abbreviation OffloadKey := (list Z).

Definition make_offload_key (block_hash : list Z) (group_idx : Z) : result OffloadKey :=
  t ← to_bytes4 group_idx; Ok (block_hash ++ t).
Definition get_offload_block_hash (key : OffloadKey) : list Z := py_upto key (-4).
Definition get_offload_group_idx (key : OffloadKey) : Z := from_bytes (py_from key (-4)).

(** [ref_cnt] and [block_id] of [BlockStatus]. *)
Record BlockStatus : Type := mkBlockStatus { bs_ref_cnt : Z; bs_block_id : Z }.

Definition new_block_status (block_id : Z) : BlockStatus := mkBlockStatus (wrap_signed 32 (-1)) (wrap_signed 64 block_id).
Definition set_ref_cnt (n : Z) (b : BlockStatus) : BlockStatus := mkBlockStatus (wrap_signed 32 n) (bs_block_id b).
Definition is_ready (b : BlockStatus) : bool := 0 <=? bs_ref_cnt b.

(** ** The operations of a policy *)

(** [cp_update key b] is a change of the fields of the block object that [get]
    returns; no other key has the same object. *)
Class CachePolicy (C : Type) : Type := {
  cp_new : Z → C;
  cp_get : OffloadKey → C → option BlockStatus;
  cp_update : OffloadKey → BlockStatus → C → C;
  cp_insert : OffloadKey → BlockStatus → C → C;
  cp_remove : OffloadKey → C → result C;
  cp_touch : list OffloadKey → C → result C;
  cp_evict : Z → gset OffloadKey → C → result (option (list (OffloadKey * BlockStatus)) * C);
  cp_clear : C → C;
  cp_mark_evictable : OffloadKey → C → C;
  cp_mark_non_evictable : OffloadKey → C → result C;
}.

(** [del d[k]] *)
Definition od_delitem {V} (d : list (OffloadKey * V)) (k : OffloadKey) : result (list (OffloadKey * V)) :=
  match od_get d k with None => Err KeyError | Some _ => Ok (od_del d k) end.

(** [d.move_to_end(k)] *)
Definition od_move_to_end {V} (d : list (OffloadKey * V)) (k : OffloadKey) : result (list (OffloadKey * V)) :=
  match od_get d k with None => Err KeyError | Some v => Ok (od_del d k ++ [(k, v)]) end.

(** ** LRU *)

Record LRUCachePolicy : Type := mkLRU {
  lru_cache_capacity : Z;
  evictable_blocks : list (OffloadKey * unit);
  lru_blocks : gmap OffloadKey BlockStatus;
}.

Definition new_lru (cache_capacity : Z) : LRUCachePolicy := mkLRU cache_capacity [] ∅.
Definition set_evictable_blocks (v : list (OffloadKey * unit)) (c : LRUCachePolicy) : LRUCachePolicy := mkLRU (lru_cache_capacity c) v (lru_blocks c).
Definition set_lru_blocks (v : gmap OffloadKey BlockStatus) (c : LRUCachePolicy) : LRUCachePolicy := mkLRU (lru_cache_capacity c) (evictable_blocks c) v.

Definition lru_get (key : OffloadKey) (c : LRUCachePolicy) : option BlockStatus := lru_blocks c !! key.
Definition lru_update (key : OffloadKey) (b : BlockStatus) (c : LRUCachePolicy) : LRUCachePolicy := set_lru_blocks (<[key := b]> (lru_blocks c)) c.

Definition lru_insert (key : OffloadKey) (b : BlockStatus) (c : LRUCachePolicy) : LRUCachePolicy :=
  let c := set_lru_blocks (<[key := b]> (lru_blocks c)) c in
  if bs_ref_cnt b =? 0 then set_evictable_blocks (od_set (evictable_blocks c) key tt) c else c.

Definition lru_remove (key : OffloadKey) (c : LRUCachePolicy) : result LRUCachePolicy :=
  match lru_blocks c !! key with
  | None => Err KeyError
  | Some _ => Ok (set_evictable_blocks (od_del (evictable_blocks c) key) (set_lru_blocks (delete key (lru_blocks c)) c))
  end.

Definition lru_touch_one (c : LRUCachePolicy) (key : OffloadKey) : result LRUCachePolicy :=
  match od_get (evictable_blocks c) key with
  | None => Ok c
  | Some _ => l ← od_move_to_end (evictable_blocks c) key; Ok (set_evictable_blocks l c)
  end.

Definition lru_touch (keys : list OffloadKey) (c : LRUCachePolicy) : result LRUCachePolicy := foldM lru_touch_one c (rev keys).

Definition lru_clear (c : LRUCachePolicy) : LRUCachePolicy := set_lru_blocks ∅ (set_evictable_blocks [] c).

(** The scan of [evict] over the evictable keys. *)
Fixpoint lru_candidates (blocks : gmap OffloadKey BlockStatus) (protected : gset OffloadKey) (n : Z)
    (candidates : list (OffloadKey * BlockStatus)) (keys : list OffloadKey) : result (list (OffloadKey * BlockStatus)) :=
  match keys with
  | [] => Ok candidates
  | key :: keys =>
      if decide (key ∈ protected) then lru_candidates blocks protected n candidates keys
      else
        block ← unwrap KeyError (blocks !! key);
        _ ← py_assert (bs_ref_cnt block =? 0);
        let candidates := candidates ++ [(key, block)] in
        if py_len candidates =? n then Ok candidates else lru_candidates blocks protected n candidates keys
  end.

Definition lru_evict_one (c : LRUCachePolicy) (x : OffloadKey * BlockStatus) : result LRUCachePolicy :=
  l ← od_delitem (evictable_blocks c) x.1;
  match lru_blocks c !! x.1 with
  | None => Err KeyError
  | Some _ => Ok (set_lru_blocks (delete x.1 (lru_blocks c)) (set_evictable_blocks l c))
  end.

Definition lru_evict (n : Z) (protected : gset OffloadKey) (c : LRUCachePolicy) :
    result (option (list (OffloadKey * BlockStatus)) * LRUCachePolicy) :=
  if n =? 0 then Ok (Some [], c)
  else
    candidates ← lru_candidates (lru_blocks c) protected n [] (od_keys (evictable_blocks c));
    if py_len candidates <? n then Ok (None, c)
    else c ← foldM lru_evict_one c candidates; Ok (Some candidates, c).

Definition lru_mark_evictable (key : OffloadKey) (c : LRUCachePolicy) : LRUCachePolicy :=
  set_evictable_blocks (od_set (evictable_blocks c) key tt) c.

Definition lru_mark_non_evictable (key : OffloadKey) (c : LRUCachePolicy) : result LRUCachePolicy :=
  l ← od_delitem (evictable_blocks c) key; Ok (set_evictable_blocks l c).

#[export] Instance lru_policy : CachePolicy LRUCachePolicy := {
  cp_new := new_lru; cp_get := lru_get; cp_update := lru_update; cp_insert := lru_insert; cp_remove := lru_remove;
  cp_touch := lru_touch; cp_evict := lru_evict; cp_clear := lru_clear;
  cp_mark_evictable := lru_mark_evictable; cp_mark_non_evictable := lru_mark_non_evictable;
}.

(** ** ARC *)

Record ARCCachePolicy : Type := mkARC {
  arc_cache_capacity : Z;
  target_t1_size : py_float;
  arc_t1 : list (OffloadKey * BlockStatus);
  arc_t2 : list (OffloadKey * BlockStatus);
  arc_b1 : list (OffloadKey * unit);
  arc_b2 : list (OffloadKey * unit);
}.

Definition new_arc (cache_capacity : Z) : ARCCachePolicy := mkARC cache_capacity 0%Q [] [] [] [].
Definition set_target (v : py_float) (c : ARCCachePolicy) : ARCCachePolicy := mkARC (arc_cache_capacity c) v (arc_t1 c) (arc_t2 c) (arc_b1 c) (arc_b2 c).
Definition set_t1 (v : list (OffloadKey * BlockStatus)) (c : ARCCachePolicy) : ARCCachePolicy := mkARC (arc_cache_capacity c) (target_t1_size c) v (arc_t2 c) (arc_b1 c) (arc_b2 c).
Definition set_t2 (v : list (OffloadKey * BlockStatus)) (c : ARCCachePolicy) : ARCCachePolicy := mkARC (arc_cache_capacity c) (target_t1_size c) (arc_t1 c) v (arc_b1 c) (arc_b2 c).
Definition set_b1 (v : list (OffloadKey * unit)) (c : ARCCachePolicy) : ARCCachePolicy := mkARC (arc_cache_capacity c) (target_t1_size c) (arc_t1 c) (arc_t2 c) v (arc_b2 c).
Definition set_b2 (v : list (OffloadKey * unit)) (c : ARCCachePolicy) : ARCCachePolicy := mkARC (arc_cache_capacity c) (target_t1_size c) (arc_t1 c) (arc_t2 c) (arc_b1 c) v.

Definition arc_get (key : OffloadKey) (c : ARCCachePolicy) : option BlockStatus :=
  match od_get (arc_t1 c) key with Some b => Some b | None => od_get (arc_t2 c) key end.

Definition arc_update (key : OffloadKey) (b : BlockStatus) (c : ARCCachePolicy) : ARCCachePolicy :=
  match od_get (arc_t1 c) key, od_get (arc_t2 c) key with
  | Some _, _ => set_t1 (od_set (arc_t1 c) key b) c
  | None, Some _ => set_t2 (od_set (arc_t2 c) key b) c
  | None, None => c
  end.

Definition arc_insert (key : OffloadKey) (b : BlockStatus) (c : ARCCachePolicy) : ARCCachePolicy :=
  set_b2 (od_del (arc_b2 c) key) (set_b1 (od_del (arc_b1 c) key) (set_t1 (od_set (arc_t1 c) key b) c)).

Definition arc_remove (key : OffloadKey) (c : ARCCachePolicy) : ARCCachePolicy :=
  match od_get (arc_t1 c) key with
  | Some _ => set_t1 (od_del (arc_t1 c) key) c
  | None => set_t2 (od_del (arc_t2 c) key) c
  end.

Definition arc_touch_one (c : ARCCachePolicy) (key : OffloadKey) : result ARCCachePolicy :=
  match od_get (arc_t1 c) key, od_get (arc_t2 c) key, od_get (arc_b1 c) key, od_get (arc_b2 c) key with
  | Some block, _, _, _ =>
      let c := set_t1 (od_del (arc_t1 c) key) c in
      if negb (is_ready block) then Ok (set_t1 (od_set (arc_t1 c) key block) c)
      else Ok (set_t2 (od_set (arc_t2 c) key block) c)
  | None, Some _, _, _ => l ← od_move_to_end (arc_t2 c) key; Ok (set_t2 l c)
  | None, None, Some _, _ =>
      q ← true_div (py_len (arc_b2 c)) (py_len (arc_b1 c));
      let delta := float_max (float_of_int 1) q in
      let c := set_target (float_min (float_add (target_t1_size c) delta) (float_of_int (arc_cache_capacity c))) c in
      l ← od_move_to_end (arc_b1 c) key; Ok (set_b1 l c)
  | None, None, None, Some _ =>
      q ← true_div (py_len (arc_b1 c)) (py_len (arc_b2 c));
      let delta := float_max (float_of_int 1) q in
      let c := set_target (float_max (float_sub (target_t1_size c) delta) (float_of_int 0)) c in
      l ← od_move_to_end (arc_b2 c) key; Ok (set_b2 l c)
  | None, None, None, None => Ok c
  end.

Definition arc_touch (keys : list OffloadKey) (c : ARCCachePolicy) : result ARCCachePolicy := foldM arc_touch_one c (rev keys).

Definition arc_clear (c : ARCCachePolicy) : ARCCachePolicy := mkARC (arc_cache_capacity c) 0%Q [] [] [] [].

(** [next_candidate]: the entry, and what the iterator has left. *)
Fixpoint next_candidate (protected : gset OffloadKey) (entries : list (OffloadKey * BlockStatus)) :
    option (OffloadKey * BlockStatus) * list (OffloadKey * BlockStatus) :=
  match entries with
  | [] => (None, [])
  | (key, block) :: entries =>
      if (bs_ref_cnt block =? 0) && bool_decide (key ∉ protected) then (Some (key, block), entries)
      else next_candidate protected entries
  end.

(** The selection loop of [evict]. *)
Fixpoint arc_select (n : nat) (target : Z) (protected : gset OffloadKey) (virtual_t1_size : Z)
    (t1_iter t2_iter : list (OffloadKey * BlockStatus)) (candidates : list (OffloadKey * BlockStatus * bool)) :
    option (list (OffloadKey * BlockStatus * bool)) :=
  match n with
  | O => Some candidates
  | S n =>
      let from_t1 := if target <=? virtual_t1_size then next_candidate protected t1_iter else (None, t1_iter) in
      match from_t1 with
      | (Some entry, t1_iter) => arc_select n target protected (virtual_t1_size - 1) t1_iter t2_iter (candidates ++ [(entry, true)])
      | (None, t1_iter) =>
          match next_candidate protected t2_iter with
          | (None, _) => None
          | (Some entry, t2_iter) => arc_select n target protected virtual_t1_size t1_iter t2_iter (candidates ++ [(entry, false)])
          end
      end
  end.

Definition arc_evict_one (c : ARCCachePolicy) (x : OffloadKey * BlockStatus * bool) : result ARCCachePolicy :=
  let '(key, _, from_t1) := x in
  if from_t1 : bool
  then l ← od_delitem (arc_t1 c) key; Ok (set_b1 (od_set (arc_b1 c) key tt) (set_t1 l c))
  else l ← od_delitem (arc_t2 c) key; Ok (set_b2 (od_set (arc_b2 c) key tt) (set_t2 l c)).

(** [popitem(last=False)], as often as the list is longer than the capacity. *)
Definition trim_ghost (cache_capacity : Z) (ghost : list (OffloadKey * unit)) : result (list (OffloadKey * unit)) :=
  if py_len ghost <? py_len ghost - cache_capacity then Err KeyError
  else Ok (drop (Z.to_nat (py_len ghost - cache_capacity)) ghost).

Definition arc_evict (n : Z) (protected : gset OffloadKey) (c : ARCCachePolicy) :
    result (option (list (OffloadKey * BlockStatus)) * ARCCachePolicy) :=
  if n =? 0 then Ok (Some [], c)
  else
    match arc_select (Z.to_nat n) (int_of_float (target_t1_size c)) protected (py_len (arc_t1 c)) (arc_t1 c) (arc_t2 c) [] with
    | None => Ok (None, c)
    | Some candidates =>
        c ← foldM arc_evict_one c candidates;
        g1 ← trim_ghost (arc_cache_capacity c) (arc_b1 c);
        g2 ← trim_ghost (arc_cache_capacity c) (arc_b2 c);
        Ok (Some (fst <$> candidates), set_b2 g2 (set_b1 g1 c))
    end.

#[export] Instance arc_policy : CachePolicy ARCCachePolicy := {
  cp_new := new_arc; cp_get := arc_get; cp_update := arc_update; cp_insert := arc_insert; cp_remove key c := Ok (arc_remove key c);
  cp_touch := arc_touch; cp_evict := arc_evict; cp_clear := arc_clear;
  cp_mark_evictable _ c := c; cp_mark_non_evictable _ c := Ok c;
}.

(** ** The promise of a policy *)

(** [cp_rep m e c]: the policy [c] holds the blocks [m], of which [e] are marked
    as evictable.  [evict] takes idle blocks that are not protected, or changes
    nothing. *)
Class CachePolicyLaws (C : Type) `{CachePolicy C} : Type := {
  cp_rep : gmap OffloadKey BlockStatus → gset OffloadKey → C → Prop;
  rep_new n : 0 ≤ n → cp_rep ∅ ∅ (cp_new n);
  rep_get m e c key : cp_rep m e c → cp_get key c = m !! key;
  rep_update m e c key b : cp_rep m e c → is_Some (m !! key) → cp_rep (<[key := b]> m) e (cp_update key b c);
  rep_insert m e c key b : cp_rep m e c → m !! key = None → bs_ref_cnt b ≠ 0 → cp_rep (<[key := b]> m) e (cp_insert key b c);
  rep_remove m e c key : cp_rep m e c → is_Some (m !! key) → runs (cp_remove key c) (cp_rep (delete key m) (e ∖ {[key]}));
  rep_touch m e c keys : cp_rep m e c → runs (cp_touch keys c) (cp_rep m e);
  rep_clear m e c : cp_rep m e c → cp_rep ∅ ∅ (cp_clear c);
  rep_mark m e c key : cp_rep m e c → is_Some (m !! key) → key ∉ e → cp_rep m ({[key]} ∪ e) (cp_mark_evictable key c);
  rep_unmark m e c key : cp_rep m e c → key ∈ e → runs (cp_mark_non_evictable key c) (cp_rep m (e ∖ {[key]}));
  rep_evict m e c n protected :
    cp_rep m e c → (∀ key b, m !! key = Some b → key ∈ e ↔ bs_ref_cnt b = 0) → 0 < n →
    runs (cp_evict n protected c) (λ '(res, c'),
      match res with
      | None => c' = c
      | Some l => py_len l = n ∧ NoDup l.*1 ∧
          (∀ key b, (key, b) ∈ l → m !! key = Some b ∧ key ∈ e ∧ key ∉ protected) ∧
          cp_rep (foldr delete m l.*1) (e ∖ list_to_set l.*1) c'
      end);
}.

(** ** Lemmas on ordered dictionaries *)

Section Ordered.
Context {V : Type}.
Implicit Types (d : list (OffloadKey * V)) (k : OffloadKey).

Lemma od_keys_app d d' : od_keys (d ++ d') = od_keys d ++ od_keys d'.
Proof. apply fmap_app. Qed.

Lemma od_keys_del d k : NoDup (od_keys d) → od_keys (od_del d k) = filter (λ k', k' ≠ k) (od_keys d).
Proof.
  induction d as [|[k' v] d IH]; simpl; [done|]. intros [Hk Hd]%NoDup_cons. case_decide as Hkk; subst.
  - rewrite filter_cons_False by (intros Hn; by apply Hn). by rewrite filter_ne_absent.
  - rewrite filter_cons_True by congruence. simpl. f_equal. by apply IH.
Qed.

Lemma od_keys_del_perm d k : NoDup (od_keys d) → k ∈ od_keys d → od_keys d ≡ₚ k :: od_keys (od_del d k).
Proof. intros Hd Hk. rewrite od_keys_del by done. by apply filter_ne_perm. Qed.

Lemma od_del_absent d k : k ∉ od_keys d → od_del d k = d.
Proof. induction d as [|[k' v] d IH]; simpl; [done|]. intros [Hk Hd]%not_elem_of_cons. rewrite decide_False by done. f_equal. by apply IH. Qed.

Lemma od_keys_set_old d k v : k ∈ od_keys d → od_keys (od_set d k v) = od_keys d.
Proof.
  induction d as [|[k' v'] d IH]; simpl; [by intros ?%elem_of_nil|]. intros [->|Hk]%elem_of_cons; [by rewrite decide_True|].
  case_decide; simpl; [by subst|]. f_equal. by apply IH.
Qed.

Lemma od_set_nodup d k v : NoDup (od_keys d) → NoDup (od_keys (od_set d k v)).
Proof.
  intros Hd. destruct (decide (k ∈ od_keys d)); [by rewrite od_keys_set_old|]. rewrite od_keys_set_new by done.
  apply NoDup_app. split_and!; [done| |apply NoDup_singleton]. intros x Hx ->%list_elem_of_singleton. done.
Qed.

Lemma od_length_del d k : (length (od_del d k) ≤ length d)%nat.
Proof. induction d as [|[k' v] d IH]; simpl; [done|]. case_decide; simpl; lia. Qed.

Lemma move_to_end_spec d k : NoDup (od_keys d) → k ∈ od_keys d → runs (od_move_to_end d k) (λ d', d' ≡ₚ d ∧ length d' = length d).
Proof.
  intros Hd [v Hv]%od_get_keys. unfold od_move_to_end. rewrite Hv. cbn [runs].
  assert (Hp : od_del d k ++ [(k, v)] ≡ₚ d) by (rewrite (od_del_perm d k v Hv) at 2; symmetry; apply Permutation_cons_append).
  split; [done|]. by apply Permutation_length.
Qed.
End Ordered.

Lemma od_get_perm {V} (d d' : list (OffloadKey * V)) k : NoDup (od_keys d) → d' ≡ₚ d → od_get d' k = od_get d k.
Proof.
  intros Hd Hp. assert (Hd' : NoDup (od_keys d')) by (unfold od_keys in *; by rewrite Hp).
  destruct (od_get d k) as [v|] eqn:Hv.
  - apply od_get_In; [done|]. rewrite Hp. by apply od_get_Some_in.
  - apply od_get_None. apply od_get_None in Hv. unfold od_keys in *. by rewrite Hp.
Qed.

Lemma delitem_spec {V} (d : list (OffloadKey * V)) k : k ∈ od_keys d → od_delitem d k = Ok (od_del d k).
Proof. intros [v Hv]%od_get_keys. unfold od_delitem. by rewrite Hv. Qed.

Lemma lookup_remove_keys {V} (m : gmap OffloadKey V) ks k : foldr delete m ks !! k = if decide (k ∈ ks) then None else m !! k.
Proof.
  induction ks as [|k' ks IH]; cbn [foldr]; [case_decide as H; [by apply elem_of_nil in H|done]|].
  destruct (decide (k = k')) as [->|Hne]; [rewrite lookup_delete_eq, decide_True; [done|left]|].
  rewrite lookup_delete_ne, IH by done. apply decide_ext. rewrite elem_of_cons. naive_solver.
Qed.

(** ** LRU keeps the promise *)

Section LRU.
Implicit Types (c : LRUCachePolicy) (m : gmap OffloadKey BlockStatus) (e : gset OffloadKey) (key : OffloadKey).

Record lru_rep m e c : Prop := {
  lr_blocks : lru_blocks c = m;
  lr_nodup : NoDup (od_keys (evictable_blocks c));
  lr_keys key : key ∈ od_keys (evictable_blocks c) ↔ key ∈ e;
  lr_dom key : key ∈ e → is_Some (m !! key);
}.

Lemma lru_rep_update m e c key b : lru_rep m e c → lru_rep (<[key := b]> m) e (lru_update key b c).
Proof.
  intros [H1 H2 H3 H4]. split; cbn -[od_keys od_del od_set]; [by rewrite H1|done|done|]. intros k Hk. destruct (decide (k = key)) as [->|Hne]; [rewrite lookup_insert_eq; by eexists|].
  rewrite lookup_insert_ne by done. auto.
Qed.

Lemma lru_rep_insert m e c key b : lru_rep m e c → bs_ref_cnt b ≠ 0 → lru_rep (<[key := b]> m) e (lru_insert key b c).
Proof. intros Hr Hb. unfold lru_insert. rewrite (proj2 (Z.eqb_neq _ _) Hb). by apply (lru_rep_update m e c key b). Qed.

Lemma lru_rep_remove m e c key : lru_rep m e c → is_Some (m !! key) → runs (lru_remove key c) (lru_rep (delete key m) (e ∖ {[key]})).
Proof.
  intros [H1 H2 H3 H4] [b Hb]. unfold lru_remove. rewrite H1, Hb. cbn [runs]. split; cbn -[od_keys od_del od_set]; [by rewrite ?H1|by apply od_del_NoDup| |].
  - intros k. rewrite od_del_keys, H3 by done. set_solver.
  - intros k Hk. rewrite lookup_delete_ne by set_solver. apply H4. set_solver.
Qed.

Lemma lru_rep_touch m e c keys : lru_rep m e c → runs (lru_touch keys c) (lru_rep m e).
Proof.
  intros Hr. unfold lru_touch. generalize (rev keys). clear keys. intros keys. revert c Hr.
  induction keys as [|key keys IH]; intros c Hr; [done|]. cbn [foldM]. eapply runs_bind; [|intros c' Hc'; by apply IH].
  unfold lru_touch_one. destruct (od_get (evictable_blocks c) key) eqn:Hk; [|done]. destruct Hr as [H1 H2 H3 H4].
  eapply runs_bind; [apply move_to_end_spec; [done|apply od_get_keys; by rewrite Hk]|]. intros l [Hp _]. cbn [runs].
  split; cbn -[od_keys od_del od_set]; [done| | |done]; unfold od_keys in *; [by rewrite Hp|]. intros k. by rewrite Hp.
Qed.

Lemma lru_rep_mark m e c key : lru_rep m e c → is_Some (m !! key) → lru_rep m ({[key]} ∪ e) (lru_mark_evictable key c).
Proof.
  intros [H1 H2 H3 H4] Hk. split; cbn -[od_keys od_del od_set]; [done|by apply od_set_nodup| |].
  - intros k. rewrite od_set_keys, H3. set_solver.
  - intros k [->%elem_of_singleton|?]%elem_of_union; auto.
Qed.

Lemma lru_rep_unmark m e c key : lru_rep m e c → key ∈ e → runs (lru_mark_non_evictable key c) (lru_rep m (e ∖ {[key]})).
Proof.
  intros [H1 H2 H3 H4] Hk. unfold lru_mark_non_evictable. rewrite delitem_spec by by apply H3. cbn [mbind result_bind runs].
  split; cbn -[od_keys od_del od_set]; [done|by apply od_del_NoDup| |].
  - intros k. rewrite od_del_keys, H3 by done. set_solver.
  - intros k Hkk. apply H4. set_solver.
Qed.

(** The candidates are the least recently used keys that are not protected. *)
Lemma lru_candidates_spec m protected n keys : ∀ candidates,
  (∀ key, key ∈ keys → ∃ b, m !! key = Some b ∧ bs_ref_cnt b = 0) → py_len candidates < n →
  lru_candidates m protected n candidates keys =
    Ok (candidates ++ omap (λ key, pair key <$> m !! key) (take (Z.to_nat (n - py_len candidates)) (filter (λ key, key ∉ protected) keys))).
Proof.
  induction keys as [|key keys IH]; intros cs Hkeys Hn; cbn [lru_candidates].
  { change (filter _ []) with (@nil OffloadKey). by rewrite take_nil, app_nil_r. }
  specialize (IH) as IH'. destruct (decide (key ∈ protected)) as [Hp|Hp].
  - rewrite filter_cons_False by (intros Hn'; by apply Hn'). apply IH; [|done]. intros k Hk. apply Hkeys. by right.
  - rewrite filter_cons_True by done. destruct (Hkeys key) as (b & Hb & Hz); [left|]. rewrite Hb. cbn [unwrap mbind result_bind].
    rewrite Hz. cbn [py_assert Z.eqb mbind result_bind].
    assert (Hl : py_len (cs ++ [(key, b)]) = py_len cs + 1) by (rewrite py_len_app; done).
    destruct (Z.eqb_spec (py_len (cs ++ [(key, b)])) n) as [He|Hne].
    + replace (Z.to_nat (n - py_len cs)) with 1%nat by lia. cbn [take]. cbn. by rewrite Hb.
    + rewrite IH; [|intros k Hk; apply Hkeys; by right|lia]. rewrite Hl, <-app_assoc. do 2 f_equal.
      replace (Z.to_nat (n - py_len cs)) with (S (Z.to_nat (n - (py_len cs + 1)))) by lia. cbn. by rewrite Hb.
Qed.

Lemma omap_known m keys : (∀ key, key ∈ keys → is_Some (m !! key)) →
  let l := omap (λ key, pair key <$> m !! key) keys in l.*1 = keys ∧ ∀ key b, (key, b) ∈ l → m !! key = Some b.
Proof.
  induction keys as [|key keys IH]; intros Hk l; subst l; [split; [done|by intros ? ? ?%elem_of_nil]|].
  destruct (Hk key) as [b Hb]; [left|]. destruct IH as [IH1 IH2]; [intros k ?; apply Hk; by right|]. cbn. rewrite Hb. cbn. split; [by f_equal|].
  intros k b' [[= -> ->]|Hin]%elem_of_cons; [done|]. by apply IH2.
Qed.

Lemma lru_evict_all m e c l :
  lru_rep m e c → NoDup l.*1 → (∀ key, key ∈ l.*1 → key ∈ e) →
  runs (foldM lru_evict_one c l) (lru_rep (foldr delete m l.*1) (e ∖ list_to_set l.*1)).
Proof.
  revert m e c. induction l as [|[key b] l IH]; intros m e c Hr Hnd He; cbn [foldM].
  { cbn. by rewrite difference_empty_L. }
  cbn in Hnd. apply NoDup_cons in Hnd as [Hk Hnd]. assert (Hke : key ∈ e) by (apply He; left).
  destruct Hr as [H1 H2 H3 H4]. destruct (H4 key Hke) as [b' Hb'].
  eapply (runs_bind _ _ (lru_rep (delete key m) (e ∖ {[key]}))).
  - unfold lru_evict_one. cbn [fst]. rewrite delitem_spec by by apply H3. cbn [mbind result_bind]. rewrite H1, Hb'. cbn [runs].
    split; cbn -[od_keys od_del od_set]; [by rewrite ?H1|by apply od_del_NoDup| |].
    + intros k. rewrite od_del_keys, H3 by done. set_solver.
    + intros k Hkk. rewrite lookup_delete_ne by set_solver. apply H4. set_solver.
  - intros c' Hc'. eapply runs_mono; [apply (IH _ _ c' Hc' Hnd)|].
    { intros k Hkl. apply elem_of_difference. split; [apply He; by right|]. rewrite elem_of_singleton. by intros ->. }
    intros c'' Hc''. replace (foldr delete m ((key, b) :: l).*1) with (foldr delete (delete key m) l.*1).
    + replace (e ∖ list_to_set ((key, b) :: l).*1) with (e ∖ {[key]} ∖ list_to_set l.*1) by set_solver. done.
    + apply map_eq. intros k. rewrite !lookup_remove_keys, fmap_cons. cbn [fst]. destruct (decide (k = key)) as [->|Hne].
      * rewrite lookup_delete_eq. destruct (decide (key ∈ key :: l.*1)) as [_|[]]; [by destruct (decide _)|left].
      * rewrite lookup_delete_ne by done. apply decide_ext. rewrite elem_of_cons. naive_solver.
Qed.

(** What [evict] takes: the [n] idle keys that were used least recently. *)
Definition lru_victims (n : Z) (protected : gset OffloadKey) c : list OffloadKey :=
  take (Z.to_nat n) (filter (λ key, key ∉ protected) (od_keys (evictable_blocks c))).

Lemma lru_evict_spec m e c n protected :
  lru_rep m e c → (∀ key b, m !! key = Some b → key ∈ e ↔ bs_ref_cnt b = 0) → 0 < n →
  runs (lru_evict n protected c) (λ '(res, c'),
    match res with
    | None => c' = c ∧ py_len (filter (λ key, key ∉ protected) (od_keys (evictable_blocks c))) < n
    | Some l => py_len l = n ∧ l.*1 = lru_victims n protected c ∧ (∀ key b, (key, b) ∈ l → m !! key = Some b) ∧
        lru_rep (foldr delete m l.*1) (e ∖ list_to_set l.*1) c'
    end).
Proof.
  intros Hr Hidle Hn. pose proof Hr as [H1 H2 H3 H4]. unfold lru_evict. rewrite (proj2 (Z.eqb_neq n 0)) by lia. rewrite H1.
  rewrite lru_candidates_spec; [|intros key Hk; apply H3 in Hk; destruct (H4 key Hk) as [b Hb]; exists b; split; [done|by apply (Hidle key)]|done].
  cbn [app mbind result_bind]. change (py_len []) with 0. rewrite Z.sub_0_r. fold (lru_victims n protected c).
  assert (Hv : ∀ key, key ∈ lru_victims n protected c → key ∈ e).
  { intros key Hk. apply (subseteq_take) in Hk. apply list_elem_of_filter in Hk as [_ Hk]. by apply H3. }
  destruct (omap_known m (lru_victims n protected c)) as [Hl Hlb]; [intros key Hk; by apply H4, Hv|].
  set (l := omap _ _) in *. assert (Hlen : py_len l = py_len (lru_victims n protected c)) by (unfold py_len; by rewrite <-Hl, length_fmap).
  destruct (Z.ltb_spec (py_len l) n) as [Hlt|Hge].
  - cbn [runs]. split; [done|]. rewrite Hlen in Hlt. unfold lru_victims, py_len in Hlt. rewrite length_take in Hlt. unfold py_len. lia.
  - assert (Hnd : NoDup l.*1) by (rewrite Hl; unfold lru_victims; eapply sublist_NoDup; [|apply sublist_take]; by apply NoDup_filter).
    eapply runs_bind; [apply (lru_evict_all m e c l Hr Hnd); intros key Hk; rewrite Hl in Hk; by apply Hv|].
    intros c' Hc'. cbn [runs]. split; [|done]. rewrite Hlen in *. unfold lru_victims, py_len in *. rewrite length_take in *. lia.
Qed.

#[export] Instance lru_laws : CachePolicyLaws LRUCachePolicy.
Proof.
  refine {| cp_rep := lru_rep |}.
  - intros n _. split; [done|constructor|intros k; split; [by intros ?%elem_of_nil|set_solver]|set_solver].
  - intros m e c key [<- _ _ _]. done.
  - intros m e c key b Hr _. by apply lru_rep_update.
  - intros m e c key b Hr _. by apply lru_rep_insert.
  - intros m e c key. apply lru_rep_remove.
  - intros m e c keys. apply lru_rep_touch.
  - intros m e c _. split; [done|constructor|intros k; split; [by intros ?%elem_of_nil|set_solver]|set_solver].
  - intros m e c key Hr Hk _. by apply lru_rep_mark.
  - intros m e c key. apply lru_rep_unmark.
  - intros m e c n protected Hr Hidle Hn. pose proof Hr as [H1 H2 H3 H4]. eapply runs_mono; [by apply (lru_evict_spec m e)|]. intros [[l|] c'].
    + intros (G1 & G2 & G3 & G4). split; [done|]. split; [|split; [|done]].
      * rewrite G2. unfold lru_victims. eapply sublist_NoDup; [|apply sublist_take]. by apply NoDup_filter.
      * intros key b Hin. split; [by apply G3|]. assert (Hk : key ∈ l.*1) by (change key with (key, b).1; by apply list_elem_of_fmap_2).
        rewrite G2 in Hk. apply subseteq_take, list_elem_of_filter in Hk as [Hp Hk]. split; [by apply H3|done].
    + by intros [? _].
Defined.
End LRU.

(** ** ARC keeps the promise *)

Lemma od_get_app {V} (d d' : list (OffloadKey * V)) k :
  od_get (d ++ d') k = match od_get d k with Some v => Some v | None => od_get d' k end.
Proof. induction d as [|[k' v] d IH]; simpl; [done|]. by case_decide. Qed.

Section ARC.
Implicit Types (c : ARCCachePolicy) (m : gmap OffloadKey BlockStatus) (key : OffloadKey) (protected : gset OffloadKey).

Definition arc_contents c : list (OffloadKey * BlockStatus) := arc_t1 c ++ arc_t2 c.
Definition arc_ghosts c : list (OffloadKey * unit) := arc_b1 c ++ arc_b2 c.

(** The four lists have no key in common. *)
Record arc_lists m c : Prop := {
  al_blocks key : od_get (arc_contents c) key = m !! key;
  al_nodup : NoDup (od_keys (arc_contents c) ++ od_keys (arc_ghosts c));
}.

(** Outside of an eviction, neither list of ghosts is longer than the capacity. *)
Record arc_rep m c : Prop := {
  ar_lists : arc_lists m c;
  ar_b1 : py_len (arc_b1 c) ≤ arc_cache_capacity c;
  ar_b2 : py_len (arc_b2 c) ≤ arc_cache_capacity c;
}.

Lemma arc_get_contents key c : arc_get key c = od_get (arc_contents c) key.
Proof. unfold arc_get, arc_contents. by rewrite od_get_app. Qed.

Lemma arc_nodup_parts m c : arc_lists m c →
  NoDup (od_keys (arc_t1 c)) ∧ NoDup (od_keys (arc_t2 c)) ∧ NoDup (od_keys (arc_b1 c)) ∧ NoDup (od_keys (arc_b2 c)) ∧ NoDup (od_keys (arc_contents c)).
Proof.
  intros [_ H]. apply NoDup_app in H as (H1 & _ & H2). pose proof H1 as H1'. unfold arc_contents, arc_ghosts in *.
  rewrite od_keys_app in H1'. rewrite od_keys_app in H2. apply NoDup_app in H1' as (? & _ & ?), H2 as (? & _ & ?). done.
Qed.

(** The same blocks and ghosts in another arrangement. *)
Lemma arc_lists_perm m c c' :
  arc_lists m c → arc_contents c' ≡ₚ arc_contents c → arc_ghosts c' ≡ₚ arc_ghosts c → arc_lists m c'.
Proof.
  intros Hr H1 H2. pose proof (arc_nodup_parts _ _ Hr) as (_ & _ & _ & _ & Hn). split.
  - intros key. rewrite (od_get_perm _ _ key Hn H1). apply Hr.
  - unfold od_keys in *. rewrite H1, H2. apply Hr.
Qed.

Lemma arc_block_not_ghost m c key : arc_lists m c → key ∈ od_keys (arc_contents c) → key ∉ od_keys (arc_ghosts c).
Proof. intros [_ H] Hk Hg. apply NoDup_app in H as (_ & H & _). by apply (H key). Qed.

Lemma arc_t1_not_t2 m c key : arc_lists m c → key ∈ od_keys (arc_t1 c) → key ∉ od_keys (arc_t2 c).
Proof.
  intros Hr Hk Hk2. pose proof (arc_nodup_parts _ _ Hr) as (_ & _ & _ & _ & Hn). unfold arc_contents in Hn. rewrite od_keys_app in Hn.
  apply NoDup_app in Hn as (_ & Hn & _). by apply (Hn key).
Qed.

Lemma arc_rep_update m c key b : arc_rep m c → is_Some (m !! key) → arc_rep (<[key := b]> m) (arc_update key b c).
Proof.
  intros [Hl H1 H2] Hk. rewrite <-(al_blocks _ _ Hl) in Hk. unfold arc_contents in Hk. rewrite od_get_app in Hk.
  pose proof (arc_t1_not_t2 m c key Hl) as Hdis. destruct Hl as [Hb Hn].
  assert (Hkeys : ∀ (d : list (OffloadKey * BlockStatus)), is_Some (od_get d key) → od_keys (od_set d key b) = od_keys d).
  { intros d Hd. by apply od_keys_set_old, od_get_keys. }
  unfold arc_update. destruct (od_get (arc_t1 c) key) as [b1|] eqn:E1; [|destruct (od_get (arc_t2 c) key) as [b2|] eqn:E2; [|by destruct Hk]].
  - split; [|done|done]. split; unfold arc_contents, arc_ghosts in *; cbn -[od_keys].
    + intros k. rewrite od_get_app, od_get_set. specialize (Hb k). rewrite od_get_app in Hb. case_decide; [subst; by rewrite lookup_insert_eq|by rewrite lookup_insert_ne].
    + rewrite !od_keys_app in *. by rewrite Hkeys by by eexists.
  - split; [|done|done]. split; unfold arc_contents, arc_ghosts in *; cbn -[od_keys].
    + intros k. rewrite od_get_app, od_get_set. specialize (Hb k). rewrite od_get_app in Hb. case_decide; [subst; by rewrite E1, lookup_insert_eq|by rewrite lookup_insert_ne].
    + rewrite !od_keys_app in *. by rewrite Hkeys by by eexists.
Qed.

Lemma arc_rep_insert m c key b : arc_rep m c → m !! key = None → arc_rep (<[key := b]> m) (arc_insert key b c).
Proof.
  intros [Hl H1 H2] Hk. rewrite <-(al_blocks _ _ Hl) in Hk. pose proof Hk as Hnot. apply od_get_None in Hnot. unfold arc_contents in Hnot, Hk. rewrite od_keys_app, not_elem_of_app in Hnot.
  rewrite od_get_app in Hk. destruct (od_get (arc_t1 c) key) eqn:E1; [done|]. destruct Hnot as [Hn1 Hn2].
  destruct (arc_nodup_parts _ _ Hl) as (N1 & N2 & N3 & N4 & _). destruct Hl as [Hb Hn]. split.
  - split; unfold arc_contents, arc_ghosts in *; cbn -[od_keys].
    + intros k. rewrite od_get_app, od_get_set. specialize (Hb k). rewrite od_get_app in Hb. case_decide; [subst; by rewrite lookup_insert_eq|by rewrite lookup_insert_ne].
    + rewrite !od_keys_app in *. rewrite od_keys_set_new, !od_keys_del by done.
      rewrite <-(filter_ne_absent key (od_keys (arc_t1 c))), <-(filter_ne_absent key (od_keys (arc_t2 c))) by done.
      assert (Hp : ∀ l1 l2 l3 : list OffloadKey, (l1 ++ [key]) ++ l2 ++ l3 ≡ₚ key :: (l1 ++ l2) ++ l3).
      { intros l1 l2 l3. rewrite <-!app_assoc. cbn. symmetry. apply Permutation_middle. }
      rewrite <-app_assoc, Hp, <-!filter_app. apply NoDup_cons. split; [|by apply NoDup_filter].
      by intros [? _]%list_elem_of_filter.
  - cbn. unfold py_len in *. pose proof (od_length_del (arc_b1 c) key). lia.
  - cbn. unfold py_len in *. pose proof (od_length_del (arc_b2 c) key). lia.
Qed.

Lemma arc_rep_remove m c key : arc_rep m c → arc_rep (delete key m) (arc_remove key c).
Proof.
  intros [Hl H1 H2]. pose proof (arc_t1_not_t2 m c key Hl) as Hdis. destruct (arc_nodup_parts _ _ Hl) as (N1 & N2 & _ & _ & _). destruct Hl as [Hb Hn].
  unfold arc_contents, arc_ghosts in *. unfold arc_remove. destruct (od_get (arc_t1 c) key) as [b|] eqn:E1; (split; [|done|done]; split; unfold arc_contents, arc_ghosts; cbn -[od_keys]).
  - intros k. specialize (Hb k). rewrite od_get_app in *. rewrite od_get_del by done. case_decide; [subst|by rewrite lookup_delete_ne].
    rewrite lookup_delete_eq. apply od_get_None, Hdis, od_get_keys. by rewrite E1.
  - rewrite !od_keys_app, od_keys_del in * by done. eapply sublist_NoDup; [exact Hn|]. do 2 (apply sublist_app; [|done]). apply sublist_filter.
  - intros k. specialize (Hb k). rewrite od_get_app in *. rewrite od_get_del by done. case_decide; [subst; by rewrite E1, lookup_delete_eq|by rewrite lookup_delete_ne].
  - rewrite !od_keys_app, od_keys_del in * by done. eapply sublist_NoDup; [exact Hn|]. apply sublist_app; [|done]. apply sublist_app; [done|]. apply sublist_filter.
Qed.

Lemma true_div_runs a b : b ≠ 0 → runs (true_div a b) (λ _, True).
Proof. intros Hb. unfold true_div. by rewrite (proj2 (Z.eqb_neq b 0) Hb). Qed.

Lemma od_get_pos {V} (d : list (OffloadKey * V)) k : is_Some (od_get d k) → py_len d ≠ 0.
Proof. intros [v Hv]. destruct d; [done|]. unfold py_len. simpl. lia. Qed.

Lemma arc_rep_touch_one m c key : arc_rep m c → runs (arc_touch_one c key) (arc_rep m).
Proof.
  intros [Hl H1 H2]. pose proof (arc_t1_not_t2 m c key Hl) as Hdis. destruct (arc_nodup_parts _ _ Hl) as (N1 & N2 & N3 & N4 & _).
  unfold arc_touch_one. destruct (od_get (arc_t1 c) key) as [b|] eqn:E1; [|destruct (od_get (arc_t2 c) key) eqn:E2; [|destruct (od_get (arc_b1 c) key) eqn:E3; [|destruct (od_get (arc_b2 c) key) eqn:E4; [|done]]]].
  - assert (Hk : key ∈ od_keys (arc_t1 c)) by (apply od_get_keys; by rewrite E1). pose proof (od_del_perm _ _ _ E1) as Hp.
    assert (Hd : key ∉ od_keys (od_del (arc_t1 c) key)) by (rewrite od_del_keys by done; tauto).
    destruct (negb (is_ready b)); cbn [runs]; (split; [|done|done]); apply (arc_lists_perm m c); try done; unfold arc_contents; cbn -[od_keys];
      rewrite od_set_new by auto; rewrite Hp at 2; [|by rewrite app_assoc, <-Permutation_cons_append].
    by rewrite <-Permutation_cons_append.
  - eapply runs_bind; [apply move_to_end_spec; [done|apply od_get_keys; by rewrite E2]|]. intros l [Hp _]. cbn [runs]. split; [|done|done].
    apply (arc_lists_perm m c); [done| |done]. unfold arc_contents. cbn. by rewrite Hp.
  - eapply runs_bind; [apply true_div_runs, (od_get_pos _ key); by rewrite E3|]. intros q _. cbn zeta.
    eapply runs_bind; [apply move_to_end_spec; [done|apply od_get_keys; cbn; by rewrite E3]|]. intros l [Hp Hlen]. cbn [runs].
    split; [|unfold py_len in *; cbn in *; lia|done]. apply (arc_lists_perm m c); [done..|]. unfold arc_ghosts. cbn in *. by rewrite Hp.
  - eapply runs_bind; [apply true_div_runs, (od_get_pos _ key); by rewrite E4|]. intros q _. cbn zeta.
    eapply runs_bind; [apply move_to_end_spec; [done|apply od_get_keys; cbn; by rewrite E4]|]. intros l [Hp Hlen]. cbn [runs].
    split; [|done|unfold py_len in *; cbn in *; lia]. apply (arc_lists_perm m c); [done..|]. unfold arc_ghosts. cbn in *. by rewrite Hp.
Qed.

Lemma arc_rep_touch m c keys : arc_rep m c → runs (arc_touch keys c) (arc_rep m).
Proof.
  intros Hr. unfold arc_touch. generalize (rev keys). clear keys. intros keys. revert c Hr.
  induction keys as [|key keys IH]; intros c Hr; [done|]. cbn [foldM]. eapply runs_bind; [by apply arc_rep_touch_one|done].
Qed.

Lemma arc_rep_empty n (q : py_float) : 0 ≤ n → arc_rep ∅ (mkARC n q [] [] [] []).
Proof. intros Hn. split; [split; [done|constructor]|done|done]. Qed.

(** *** Eviction *)

Definition evictable protected (x : OffloadKey * BlockStatus) : Prop := bs_ref_cnt x.2 = 0 ∧ x.1 ∉ protected.

Lemma next_candidate_spec protected entries :
  match next_candidate protected entries with
  | (Some x, rest) => evictable protected x ∧ ∃ skipped, entries = skipped ++ x :: rest
  | (None, rest) => rest = []
  end.
Proof.
  induction entries as [|[key b] entries IH]; [done|]. cbn [next_candidate]. destruct ((bs_ref_cnt b =? 0) && _) eqn:E.
  - apply andb_true_iff in E as [E1%Z.eqb_eq E2%bool_decide_eq_true]. split; [done|]. by exists [].
  - destruct (next_candidate protected entries) as [[x|] rest]; [|done]. destruct IH as (? & skipped & ->). split; [done|]. by exists ((key, b) :: skipped).
Qed.

(** What was selected from the two lists, in their order. *)
Record selected protected (it1 it2 : list (OffloadKey * BlockStatus)) (l : list (OffloadKey * BlockStatus * bool)) : Prop := {
  sl_all x : x ∈ l → evictable protected x.1;
  sl_t1 : fst <$> filter (λ x, x.2 = true) l `sublist_of` it1;
  sl_t2 : fst <$> filter (λ x, x.2 = false) l `sublist_of` it2;
}.

Lemma sublist_next {A} (x : A) skipped rest l : l `sublist_of` rest → x :: l `sublist_of` skipped ++ x :: rest.
Proof. intros H. apply sublist_inserts_l. by constructor. Qed.

Lemma arc_select_spec protected n : ∀ target virtual it1 it2 candidates cs,
  arc_select n target protected virtual it1 it2 candidates = Some cs →
  ∃ l, cs = candidates ++ l ∧ length l = n ∧ selected protected it1 it2 l.
Proof.
  induction n as [|n IH]; intros target virtual it1 it2 candidates cs Hs; cbn [arc_select] in Hs.
  { injection Hs as <-. exists []. rewrite app_nil_r. split_and!; [done|done|]. split; [by intros x ?%elem_of_nil|apply sublist_nil_l|apply sublist_nil_l]. }
  cbv zeta in Hs. pose proof (next_candidate_spec protected it1) as H1. pose proof (next_candidate_spec protected it2) as H2.
  assert (Hfrom2 : ∀ it1', (∀ l, l `sublist_of` it1' → l `sublist_of` it1) →
    match next_candidate protected it2 with (None, _) => None | (Some entry, t2_iter) => arc_select n target protected virtual it1' t2_iter (candidates ++ [(entry, false)]) end = Some cs →
    ∃ l, cs = candidates ++ l ∧ length l = S n ∧ selected protected it1 it2 l).
  { intros it1' Hsub Hs'. destruct (next_candidate protected it2) as [[x|] rest]; [|done]. destruct H2 as (Hx & sk & ->).
    apply IH in Hs' as (l & -> & Hl & [S1 S2 S3]). exists ((x, false) :: l). rewrite <-app_assoc. split_and!; [done|simpl; lia|]. split.
    - intros y [->|Hy]%elem_of_cons; [done|by apply S1].
    - rewrite filter_cons_False by done. by apply Hsub.
    - rewrite filter_cons_True by done. by apply sublist_next. }
  destruct (target <=? virtual); [|by apply (Hfrom2 it1)].
  destruct (next_candidate protected it1) as [[x|] rest]; [|subst rest; apply (Hfrom2 []); [|done]; intros l ->%sublist_nil_r; apply sublist_nil_l].
  destruct H1 as (Hx & sk & ->). apply IH in Hs as (l & -> & Hl & [S1 S2 S3]). exists ((x, true) :: l). rewrite <-app_assoc. split_and!; [done|simpl; lia|]. split.
  - intros y [->|Hy]%elem_of_cons; [done|by apply S1].
  - rewrite filter_cons_True by done. by apply sublist_next.
  - by rewrite filter_cons_False by done.
Qed.

Lemma selected_keys protected it1 it2 l :
  selected protected it1 it2 l → NoDup (od_keys (it1 ++ it2)) →
  NoDup l.*1.*1 ∧ ∀ x, x ∈ l → x.1 ∈ if x.2 : bool then it1 else it2.
Proof.
  intros [_ S1 S2] Hn. assert (Hp : l ≡ₚ filter (λ x, x.2 = true) l ++ filter (λ x, x.2 = false) l).
  { clear. induction l as [|[x []] l IH]; [done| |].
    - rewrite filter_cons_True, filter_cons_False by done. cbn. by rewrite <-IH.
    - rewrite filter_cons_False, filter_cons_True by done. rewrite <-Permutation_middle. by rewrite <-IH. }
  split.
  - rewrite Hp, !fmap_app. eapply sublist_NoDup; [exact Hn|]. unfold od_keys. rewrite fmap_app. by apply sublist_app; apply fmap_sublist.
  - intros [x flag] Hx. cbn. destruct flag; [eapply sublist_subseteq; [exact S1|]|eapply sublist_subseteq; [exact S2|]];
      apply list_elem_of_fmap; by eexists; split; [|apply list_elem_of_filter; split; [|exact Hx]].
Qed.

Lemma to_ghost_1 {A} (k : A) a b g g' : (a ++ b) ++ (g ++ [k]) ++ g' ≡ₚ ((k :: a) ++ b) ++ g ++ g'.
Proof. rewrite <-(Permutation_cons_append g). cbn. symmetry. apply (Permutation_middle (a ++ b) (g ++ g')). Qed.

Lemma to_ghost_2 {A} (k : A) a b g g' : (a ++ b) ++ g ++ g' ++ [k] ≡ₚ (a ++ k :: b) ++ g ++ g'.
Proof.
  rewrite <-(Permutation_middle a b), <-(Permutation_cons_append g'), <-(Permutation_middle g g').
  cbn. symmetry. apply (Permutation_middle (a ++ b) (g ++ g')).
Qed.

Lemma arc_evict_one_spec m c key b (flag : bool) :
  arc_lists m c → (key, b) ∈ (if flag then arc_t1 c else arc_t2 c) →
  runs (arc_evict_one c (key, b, flag)) (λ c', arc_lists (delete key m) c' ∧ arc_cache_capacity c' = arc_cache_capacity c ∧
    ∀ x f, x.1 ≠ key → x ∈ (if f : bool then arc_t1 c else arc_t2 c) → x ∈ (if f then arc_t1 c' else arc_t2 c')).
Proof.
  intros Hl Hin. pose proof (arc_t1_not_t2 m c key Hl) as Hdis. pose proof (arc_block_not_ghost m c key Hl) as Hg.
  destruct (arc_nodup_parts _ _ Hl) as (N1 & N2 & _ & _ & Nc). destruct Hl as [Hb Hn].
  assert (Hk : key ∈ od_keys (if flag then arc_t1 c else arc_t2 c)) by (change key with (key, b).1; by apply list_elem_of_fmap_2).
  assert (Hkeep : ∀ (d : list (OffloadKey * BlockStatus)) x, x.1 ≠ key → NoDup (od_keys d) → x ∈ d → x ∈ od_del d key).
  { intros d [k v] Hne Nd Hx. apply od_get_Some_in. rewrite od_get_del, decide_False by done. by apply od_get_In. }
  unfold arc_contents, arc_ghosts in *. rewrite !od_keys_app in *. rewrite !not_elem_of_app, elem_of_app in Hg.
  unfold arc_evict_one. destruct flag; rewrite delitem_spec by done; cbn [mbind result_bind runs]; (split; [|split; [done|]]).
  - destruct Hg as [Hg1 Hg2]; [by left|]. split; unfold arc_contents, arc_ghosts; cbn -[od_keys].
    + intros k. specialize (Hb k). rewrite od_get_app in *. rewrite od_get_del by done. case_decide; [subst|by rewrite lookup_delete_ne].
      rewrite lookup_delete_eq. apply od_get_None. by apply Hdis.
    + rewrite !od_keys_app, od_keys_set_new by done. rewrite (od_keys_del_perm (arc_t1 c) key) in Hn by done. by rewrite to_ghost_1.
  - intros x [] Hne Hx; cbn; [by apply Hkeep|done].
  - destruct Hg as [Hg1 Hg2]; [by right|]. split; unfold arc_contents, arc_ghosts; cbn -[od_keys].
    + intros k. specialize (Hb k). rewrite od_get_app in *. rewrite od_get_del by done. case_decide; [subst|by rewrite lookup_delete_ne].
      rewrite lookup_delete_eq. destruct (od_get (arc_t1 c) key) eqn:E; [|done]. exfalso. apply Hdis; [apply od_get_keys; by rewrite E|done].
    + rewrite !od_keys_app, od_keys_set_new by done. rewrite (od_keys_del_perm (arc_t2 c) key) in Hn by done. by rewrite to_ghost_2.
  - intros x [] Hne Hx; cbn; [done|by apply Hkeep].
Qed.

Lemma arc_evict_all m c (l : list (OffloadKey * BlockStatus * bool)) :
  arc_lists m c → NoDup l.*1.*1 → (∀ x, x ∈ l → x.1 ∈ if x.2 : bool then arc_t1 c else arc_t2 c) →
  runs (foldM arc_evict_one c l) (λ c', arc_lists (foldr delete m l.*1.*1) c' ∧ arc_cache_capacity c' = arc_cache_capacity c).
Proof.
  revert m c. induction l as [|[[key b] flag] l IH]; intros m c Hl Hn Hin; [done|]. cbn [foldM]. rewrite !fmap_cons in *. cbn [fst] in *.
  apply NoDup_cons in Hn as [Hk Hn]. eapply runs_bind; [apply (arc_evict_one_spec m c key b flag Hl), (Hin (key, b, flag)); left|].
  intros c1 (Hl1 & Hcap & Hkeep). eapply runs_mono; [apply (IH (delete key m) c1 Hl1 Hn)|].
  - intros x Hx. apply Hkeep; [|apply Hin; by right]. intros Heq. apply Hk. rewrite <-Heq. by do 2 apply list_elem_of_fmap_2.
  - intros c' [H1 H2]. split; [|congruence]. replace (foldr delete m (key :: l.*1.*1)) with (foldr delete (delete key m) l.*1.*1); [done|].
    apply map_eq. intros k. rewrite !lookup_remove_keys. destruct (decide (k = key)) as [->|Hne].
    + rewrite lookup_delete_eq. destruct (decide (key ∈ key :: l.*1.*1)) as [_|[]]; [by destruct (decide _)|left].
    + rewrite lookup_delete_ne by done. apply decide_ext. rewrite elem_of_cons. naive_solver.
Qed.

Lemma trim_ghost_spec cap (g : list (OffloadKey * unit)) :
  0 ≤ cap → runs (trim_ghost cap g) (λ g', g' `suffix_of` g ∧ py_len g' ≤ cap).
Proof.
  intros Hc. unfold trim_ghost. destruct (Z.ltb_spec (py_len g) (py_len g - cap)); [lia|]. cbn [runs]. split.
  - exists (take (Z.to_nat (py_len g - cap)) g). symmetry. apply take_drop.
  - unfold py_len in *. rewrite length_drop. lia.
Qed.

Lemma arc_evict_spec m c n protected :
  arc_rep m c → 0 ≤ arc_cache_capacity c → 0 < n →
  runs (arc_evict n protected c) (λ '(res, c'),
    match res with
    | None => c' = c
    | Some l => py_len l = n ∧ NoDup l.*1 ∧ (∀ key b, (key, b) ∈ l → m !! key = Some b ∧ bs_ref_cnt b = 0 ∧ key ∉ protected) ∧
        arc_rep (foldr delete m l.*1) c' ∧ arc_cache_capacity c' = arc_cache_capacity c
    end).
Proof.
  intros [Hl _ _] Hcap Hn. unfold arc_evict. rewrite (proj2 (Z.eqb_neq n 0)) by lia.
  destruct (arc_select _ _ _ _ _ _ _) as [cs|] eqn:Hs; [|done]. apply arc_select_spec in Hs as (l & -> & Hlen & Hsel). cbn [app] in *.
  destruct (arc_nodup_parts _ _ Hl) as (_ & _ & _ & _ & Nc). destruct (selected_keys _ _ _ _ Hsel Nc) as [Hnd Hin].
  eapply runs_bind; [by apply (arc_evict_all m c l)|]. intros c1 [Hl1 Hc1].
  eapply runs_bind; [by apply trim_ghost_spec; rewrite Hc1|]. intros g1 [[k1 Hg1] Hb1].
  eapply runs_bind; [by apply trim_ghost_spec; rewrite Hc1|]. intros g2 [[k2 Hg2] Hb2]. cbn [runs].
  split; [unfold py_len in *; rewrite length_fmap; lia|]. split; [done|]. split; [|split; [|done]].
  - intros key b ([[k b'] flag] & [= -> ->] & Hx)%list_elem_of_fmap. pose proof (sl_all _ _ _ _ Hsel _ Hx) as [Hz Hp]. split; [|done].
    rewrite <-(al_blocks _ _ Hl). apply od_get_In; [done|]. specialize (Hin _ Hx). cbn in Hin. unfold arc_contents. apply elem_of_app. destruct flag; auto.
  - destruct Hl1 as [B1 B2]. split; [split; [done|]|done|done]. unfold arc_contents, arc_ghosts in *. cbn -[od_keys]. rewrite Hg1, Hg2 in B2.
    rewrite !od_keys_app in *. eapply sublist_NoDup; [exact B2|]. apply sublist_app; [done|].
    apply sublist_app; apply sublist_inserts_l; done.
Qed.

End ARC.

#[export] Instance arc_laws : CachePolicyLaws ARCCachePolicy.
Proof.
  refine {| cp_rep m _ c := arc_rep m c |}.
  - intros n Hn. by apply arc_rep_empty.
  - intros m _ c key Hr. change (arc_get key c = m !! key). rewrite arc_get_contents. apply Hr.
  - intros m _ c key b. apply arc_rep_update.
  - intros m _ c key b Hr Hk _. by apply arc_rep_insert.
  - intros m _ c key Hr _. by apply arc_rep_remove.
  - intros m _ c keys. apply arc_rep_touch.
  - intros m _ c [_ H _]. apply arc_rep_empty. pose proof (py_len_nonneg (arc_b1 c)). lia.
  - done.
  - done.
  - intros m e c n protected Hr Hidle Hn. pose proof (ar_b1 _ _ Hr). pose proof (py_len_nonneg (arc_b1 c)).
    eapply runs_mono; [apply (arc_evict_spec m c n protected Hr); lia|]. intros [[l|] c']; [|done]. intros (H1 & H2 & H3 & H4 & _).
    split; [done|]. split; [done|]. split; [|done]. intros key b Hkb. destruct (H3 key b Hkb) as (? & ? & ?). split; [done|]. split; [|done]. by apply (Hidle key b).
Defined.
