(* ===== verification/Offload.v ===== *)
(** * Offloading: the manager of the CPU blocks

    [vllm/vllm/v1/kv_offload/cpu/manager.py]: [CPUOffloadingManager] gives out
    the block slots of the CPU cache for KV blocks that are stored there, counts
    the transfers that read a block, and evicts idle blocks through a cache
    policy. *)

From S2P Require Import Prelude BlockHash OffloadPolicy.
From Stdlib Require Import QArith.
Local Open Scope Z_scope.

(** ** Data *)

Inductive LookupResult : Type := MISS | HIT | HIT_PENDING | RETRY.

(** The medium is always the CPU. *)
Record OffloadingEvent : Type := mkOffloadingEvent { oe_keys : list OffloadKey; oe_removed : bool }.

(** [store_spec] is the list of its block ids. *)
Record PrepareStoreOutput : Type := mkPrepareStoreOutput {
  keys_to_store : list OffloadKey;
  store_spec : list Z;
  evicted_keys : list OffloadKey;
}.

(** The entries that [get_stats] puts into [OffloadingConnectorStats]. *)
Record OffloadingStats : Type := mkOffloadingStats {
  CPU_CACHE_USAGE_PERC : py_float;
  CPU_ALLOCATION_SIZE : list Z;
  CPU_CACHE_WRITE_USAGE_PERC : py_float;
  CPU_CACHE_READ_USAGE_PERC : py_float;
  STORES_SKIPPED : option Z;
}.

(** The fields that count, beside the policy and the list of events. *)
Record Counters : Type := mkCounters {
  num_allocated_blocks : Z;
  om_free_list : list Z;
  num_evictable_cache_blocks : Z;
  num_write_pending_blocks : Z;
  stores_skipped_in_current_batch : Z;
  allocation_sizes_in_current_batch : list Z;
  access_counts : option (list (OffloadKey * Z));
}.

Definition set_num_allocated_blocks (v : Z) (c : Counters) : Counters :=
  mkCounters v (om_free_list c) (num_evictable_cache_blocks c) (num_write_pending_blocks c) (stores_skipped_in_current_batch c) (allocation_sizes_in_current_batch c) (access_counts c).
Definition set_om_free_list (v : list Z) (c : Counters) : Counters :=
  mkCounters (num_allocated_blocks c) v (num_evictable_cache_blocks c) (num_write_pending_blocks c) (stores_skipped_in_current_batch c) (allocation_sizes_in_current_batch c) (access_counts c).
Definition add_evictable (v : Z) (c : Counters) : Counters :=
  mkCounters (num_allocated_blocks c) (om_free_list c) (num_evictable_cache_blocks c + v) (num_write_pending_blocks c) (stores_skipped_in_current_batch c) (allocation_sizes_in_current_batch c) (access_counts c).
Definition add_write_pending (v : Z) (c : Counters) : Counters :=
  mkCounters (num_allocated_blocks c) (om_free_list c) (num_evictable_cache_blocks c) (num_write_pending_blocks c + v) (stores_skipped_in_current_batch c) (allocation_sizes_in_current_batch c) (access_counts c).
Definition set_stores_skipped (v : Z) (c : Counters) : Counters :=
  mkCounters (num_allocated_blocks c) (om_free_list c) (num_evictable_cache_blocks c) (num_write_pending_blocks c) v (allocation_sizes_in_current_batch c) (access_counts c).
Definition set_allocation_sizes (v : list Z) (c : Counters) : Counters :=
  mkCounters (num_allocated_blocks c) (om_free_list c) (num_evictable_cache_blocks c) (num_write_pending_blocks c) (stores_skipped_in_current_batch c) v (access_counts c).
Definition set_access_counts (v : option (list (OffloadKey * Z))) (c : Counters) : Counters :=
  mkCounters (num_allocated_blocks c) (om_free_list c) (num_evictable_cache_blocks c) (num_write_pending_blocks c) (stores_skipped_in_current_batch c) (allocation_sizes_in_current_batch c) v.

Record CPUOffloadingManager (C : Type) : Type := mkCPUOffloadingManager {
  om_num_blocks : Z;
  store_threshold : Z;
  max_tracker_size : Z;
  om_events : option (list OffloadingEvent);
  om_policy : C;
  om_counters : Counters;
}.
Arguments mkCPUOffloadingManager {C} _ _ _ _ _ _.
Arguments om_num_blocks {C} _.
Arguments store_threshold {C} _.
Arguments max_tracker_size {C} _.
Arguments om_events {C} _.
Arguments om_policy {C} _.
Arguments om_counters {C} _.

Section Manager.
Context {C : Type} `{CachePolicy C}.
Implicit Types (o : CPUOffloadingManager C) (keys : list OffloadKey) (key : OffloadKey).

Definition set_om_events (v : option (list OffloadingEvent)) o : CPUOffloadingManager C :=
  mkCPUOffloadingManager (om_num_blocks o) (store_threshold o) (max_tracker_size o) v (om_policy o) (om_counters o).
Definition set_om_policy (v : C) o : CPUOffloadingManager C :=
  mkCPUOffloadingManager (om_num_blocks o) (store_threshold o) (max_tracker_size o) (om_events o) v (om_counters o).
Definition set_om_counters (v : Counters) o : CPUOffloadingManager C :=
  mkCPUOffloadingManager (om_num_blocks o) (store_threshold o) (max_tracker_size o) (om_events o) (om_policy o) v.
Definition map_counters (f : Counters → Counters) o : CPUOffloadingManager C := set_om_counters (f (om_counters o)) o.

Definition new_offloading_manager (num_blocks : Z) (enable_events : bool) (threshold tracker_size : Z) : CPUOffloadingManager C :=
  mkCPUOffloadingManager num_blocks threshold tracker_size (if enable_events then Some [] else None) (cp_new num_blocks)
    (mkCounters 0 [] 0 0 0 [] (if 2 <=? threshold then Some [] else None)).

(** ** The pool of block slots *)

Definition _get_num_free_blocks o : Z := py_len (om_free_list (om_counters o)) + om_num_blocks o - num_allocated_blocks (om_counters o).

(** The slots for [n] blocks: fresh ones first, then the ones freed last. *)
Definition _allocate_blocks (n : Z) o : result (list BlockStatus * CPUOffloadingManager C) :=
  let c := om_counters o in
  let num_fresh := Z.min n (om_num_blocks o - num_allocated_blocks c) in
  let num_reused := n - num_fresh in
  _ ← py_assert (num_reused <=? py_len (om_free_list c));
  let fresh := py_range (num_allocated_blocks c) (num_allocated_blocks c + num_fresh) in
  let kept := take (length (om_free_list c) - Z.to_nat num_reused) (om_free_list c) in
  let reused := rev (drop (length (om_free_list c) - Z.to_nat num_reused) (om_free_list c)) in
  Ok (new_block_status <$> (fresh ++ reused),
      map_counters (λ c, set_om_free_list kept (set_num_allocated_blocks (num_allocated_blocks c + Z.max 0 num_fresh) c)) o).

Definition _free_block (block : BlockStatus) o : CPUOffloadingManager C :=
  map_counters (λ c, set_om_free_list (om_free_list c ++ [bs_block_id block]) c) o.

Definition _get_load_store_spec (blocks : list BlockStatus) : list Z := bs_block_id <$> blocks.

(** ** Counting accesses *)

(** The ordered dictionary after [_record_access]. *)
Definition record_access (tracker_size : Z) (counts : list (OffloadKey * Z)) key : result (list (OffloadKey * Z)) :=
  match od_get counts key with
  | Some n => l ← od_move_to_end counts key; Ok (od_set l key (n + 1))
  | None =>
      l ← (if tracker_size <=? py_len counts
           then match counts with [] => Err KeyError | _ :: l => Ok l end
           else Ok counts);
      Ok (od_set l key 1)
  end.

Definition _record_access o key : result (CPUOffloadingManager C) :=
  match access_counts (om_counters o) with
  | None => Err AssertionError
  | Some counts => l ← record_access (max_tracker_size o) counts key; Ok (map_counters (set_access_counts (Some l)) o)
  end.

(** ** Loads *)

Definition om_lookup key o : LookupResult :=
  match cp_get key (om_policy o) with
  | None => MISS
  | Some block => if negb (is_ready block) then HIT_PENDING else HIT
  end.

Definition prepare_load_one (acc : list BlockStatus * CPUOffloadingManager C) key : result (list BlockStatus * CPUOffloadingManager C) :=
  let '(blocks, o) := acc in
  match cp_get key (om_policy o) with
  | None => Err AssertionError
  | Some block =>
      _ ← py_assert (is_ready block);
      o ← (if bs_ref_cnt block =? 0 then
             p ← cp_mark_non_evictable key (om_policy o);
             let o := map_counters (add_evictable (-1)) (set_om_policy p o) in
             _ ← py_assert (0 <=? num_evictable_cache_blocks (om_counters o));
             Ok o
           else Ok o);
      let block := set_ref_cnt (bs_ref_cnt block + 1) block in
      Ok (blocks ++ [block], set_om_policy (cp_update key block (om_policy o)) o)
  end.

Definition prepare_load keys o : result (list Z * CPUOffloadingManager C) :=
  '(blocks, o) ← foldM prepare_load_one ([], o) keys; Ok (_get_load_store_spec blocks, o).

Definition om_touch keys o : result (CPUOffloadingManager C) := p ← cp_touch keys (om_policy o); Ok (set_om_policy p o).

Definition complete_load_one o key : result (CPUOffloadingManager C) :=
  match cp_get key (om_policy o) with
  | None => Err AssertionError
  | Some block =>
      _ ← py_assert (0 <? bs_ref_cnt block);
      let block := set_ref_cnt (bs_ref_cnt block - 1) block in
      let o := set_om_policy (cp_update key block (om_policy o)) o in
      if bs_ref_cnt block =? 0
      then let o := map_counters (add_evictable 1) o in Ok (set_om_policy (cp_mark_evictable key (om_policy o)) o)
      else Ok o
  end.

Definition complete_load keys o : result (CPUOffloadingManager C) := foldM complete_load_one o keys.

(** ** Stores *)

(** The keys that were seen often enough; without a threshold, all. *)
Definition admitted_keys keys o : result (list OffloadKey * CPUOffloadingManager C) :=
  match access_counts (om_counters o) with
  | None => Ok (keys, o)
  | Some _ =>
      o ← foldM _record_access o keys;
      let counts := default [] (access_counts (om_counters o)) in
      let kept := filter (λ k, store_threshold o ≤ default 0 (od_get counts k)) keys in
      Ok (kept, map_counters (λ c, set_stores_skipped (stores_skipped_in_current_batch c + (py_len keys - py_len kept)) c) o)
  end.

Definition om_event (keys : list OffloadKey) (removed : bool) o : CPUOffloadingManager C :=
  match keys, om_events o with
  | _ :: _, Some evs => set_om_events (Some (evs ++ [mkOffloadingEvent keys removed])) o
  | _, _ => o
  end.

(** Eviction of as many blocks as are missing; [None] when it fails. *)
Definition make_room (missing : Z) keys o : result (option (list OffloadKey) * CPUOffloadingManager C) :=
  if missing <=? 0 then Ok (Some [], o)
  else if num_evictable_cache_blocks (om_counters o) <? missing then Ok (None, o)
  else
    '(evicted, p) ← cp_evict missing (list_to_set keys) (om_policy o);
    let o := set_om_policy p o in
    match evicted with
    | None => Ok (None, o)
    | Some evicted =>
        let o := map_counters (add_evictable (- py_len evicted)) o in
        _ ← py_assert (0 <=? num_evictable_cache_blocks (om_counters o));
        Ok (Some evicted.*1, foldl (λ o x, _free_block x.2 o) o evicted)
    end.

(** Slots for the keys, which are inserted as not ready. *)
Definition store_keys keys o : result (list Z * CPUOffloadingManager C) :=
  '(blocks, o) ← _allocate_blocks (py_len keys) o;
  _ ← py_assert (py_len blocks =? py_len keys);
  let o := foldl (λ o x, set_om_policy (cp_insert x.1 x.2 (om_policy o)) o) o (zip keys blocks) in
  Ok (_get_load_store_spec blocks, map_counters (add_write_pending (py_len keys)) o).

Definition prepare_store keys o : result (option PrepareStoreOutput * CPUOffloadingManager C) :=
  '(keys, o) ← admitted_keys keys o;
  let to_store := filter (λ k, cp_get k (om_policy o) = None) keys in
  match to_store with
  | [] => Ok (Some (mkPrepareStoreOutput [] [] []), o)
  | _ =>
      let o := map_counters (λ c, set_allocation_sizes (allocation_sizes_in_current_batch c ++ [py_len to_store]) c) o in
      '(evicted, o) ← make_room (py_len to_store - _get_num_free_blocks o) keys o;
      match evicted with
      | None => Ok (None, o)
      | Some evicted =>
          let o := om_event evicted true o in
          '(spec, o) ← store_keys to_store o;
          Ok (Some (mkPrepareStoreOutput to_store spec evicted), o)
      end
  end.

Definition complete_store_one (acc : list OffloadKey * CPUOffloadingManager C) key : list OffloadKey * CPUOffloadingManager C :=
  let '(stored, o) := acc in
  match cp_get key (om_policy o) with
  | Some block =>
      if is_ready block then acc
      else
        let o := set_om_policy (cp_update key (set_ref_cnt 0 block) (om_policy o)) o in
        let o := map_counters (λ c, add_evictable 1 (add_write_pending (-1) c)) o in
        (stored ++ [key], set_om_policy (cp_mark_evictable key (om_policy o)) o)
  | None => acc
  end.

Definition fail_store_one o key : result (CPUOffloadingManager C) :=
  match cp_get key (om_policy o) with
  | Some block =>
      if is_ready block then Ok o
      else
        let o := map_counters (add_write_pending (-1)) o in
        p ← cp_remove key (om_policy o);
        Ok (_free_block block (set_om_policy p o))
  | None => Ok o
  end.

Definition complete_store keys (success : bool) o : result (CPUOffloadingManager C) :=
  if success then let '(stored, o) := foldl complete_store_one ([], o) keys in Ok (om_event stored false o)
  else foldM fail_store_one o keys.

(** ** Reset, events and statistics *)

Definition om_reset_cache o : CPUOffloadingManager C :=
  set_om_policy (cp_clear (om_policy o))
    (map_counters (λ c, set_num_allocated_blocks 0 (set_om_free_list []
      (add_write_pending (- num_write_pending_blocks c) (add_evictable (- num_evictable_cache_blocks c) c)))) o).

Definition om_take_events o : list OffloadingEvent * CPUOffloadingManager C :=
  match om_events o with
  | None => ([], o)
  | Some evs => (evs, set_om_events (Some []) o)
  end.

(** A share of all blocks. *)
Definition usage_of (n : Z) o : result py_float := if 0 <? om_num_blocks o then true_div n (om_num_blocks o) else Ok 0%Q.

Definition get_stats o : result (OffloadingStats * CPUOffloadingManager C) :=
  let c := om_counters o in
  usage ← usage_of (num_allocated_blocks c - py_len (om_free_list c) - num_evictable_cache_blocks c) o;
  write_usage ← usage_of (num_write_pending_blocks c) o;
  let skips := 2 <=? store_threshold o in
  Ok (mkOffloadingStats usage (allocation_sizes_in_current_batch c) write_usage
        (float_max (float_sub usage write_usage) 0%Q)
        (if skips then Some (stores_skipped_in_current_batch c) else None),
      map_counters (λ c, (if skips then set_stores_skipped 0 else id) (set_allocation_sizes [] c)) o).
End Manager.
