(* ===== verification/OffloadSpec.v ===== *)
(** * Offloading: the manager is safe

    The slots of the CPU cache are given out once each, the counts of idle and
    of unfinished blocks are right, the reference count of a block is the number
    of its loads in flight, and no transfer loses its block.  The proofs use the
    policy through [CachePolicyLaws] only. *)

From S2P Require Import Prelude BlockHash OffloadPolicy Offload.
From Stdlib Require Import QArith.
Local Open Scope Z_scope.

Implicit Types (m : gmap OffloadKey BlockStatus) (key : OffloadKey) (b : BlockStatus) (L : list OffloadKey).

(** ** Widths *)

Lemma wrap_signed_id bits x : 0 < bits → - 2 ^ (bits - 1) ≤ x < 2 ^ (bits - 1) → wrap_signed bits x = x.
Proof.
  intros Hb Hx. unfold wrap_signed. assert (H2 : 2 ^ bits = 2 * 2 ^ (bits - 1)) by (rewrite <-Z.pow_succ_r by lia; f_equal; lia).
  rewrite Z.mod_small; lia.
Qed.

Lemma ref_cnt_set n b : -1 ≤ n < 2 ^ 31 → bs_ref_cnt (set_ref_cnt n b) = n.
Proof. intros Hn. apply wrap_signed_id; lia. Qed.

Lemma new_block_id id : 0 ≤ id < 2 ^ 63 → new_block_status id = mkBlockStatus (-1) id.
Proof. intros Hid. unfold new_block_status. f_equal. apply wrap_signed_id; lia. Qed.

(** ** Blocks by their reference count *)

Definition with_ref (n : Z) m : gset OffloadKey := dom (filter (λ x, bs_ref_cnt x.2 = n) m).

Lemma elem_of_with_ref n m key : key ∈ with_ref n m ↔ ∃ b, m !! key = Some b ∧ bs_ref_cnt b = n.
Proof. unfold with_ref. rewrite elem_of_dom. unfold is_Some. setoid_rewrite map_lookup_filter_Some. done. Qed.

Lemma with_ref_empty n : with_ref n ∅ = ∅.
Proof. apply set_eq. intros key. rewrite elem_of_with_ref, elem_of_empty. setoid_rewrite lookup_empty. naive_solver. Qed.

Lemma with_ref_insert n m key b : with_ref n (<[key := b]> m) = if decide (bs_ref_cnt b = n) then {[key]} ∪ with_ref n m else with_ref n m ∖ {[key]}.
Proof.
  apply set_eq. intros k. rewrite elem_of_with_ref. destruct (decide (k = key)) as [->|Hne].
  - setoid_rewrite lookup_insert_eq. case_decide; [|set_solver]. split; [set_solver|]. intros _. by exists b.
  - setoid_rewrite lookup_insert_ne; [|done]. rewrite <-elem_of_with_ref. case_decide; set_solver.
Qed.

Lemma with_ref_delete n m key : with_ref n (delete key m) = with_ref n m ∖ {[key]}.
Proof.
  apply set_eq. intros k. rewrite elem_of_difference, !elem_of_with_ref, elem_of_singleton. setoid_rewrite lookup_delete_Some. naive_solver.
Qed.

Definition num_with_ref (n : Z) m : Z := Z.of_nat (size (with_ref n m)).

Lemma num_with_ref_insert n m key b : num_with_ref n (<[key := b]> m) =
  num_with_ref n m + (if decide (bs_ref_cnt b = n) then 1 else 0) - (if decide (key ∈ with_ref n m) then 1 else 0).
Proof.
  unfold num_with_ref. rewrite with_ref_insert. destruct (decide (key ∈ with_ref n m)) as [Hin|Hout].
  - assert (Hs : size (with_ref n m) = S (size (with_ref n m ∖ {[key]}))).
    { rewrite size_difference by set_solver. rewrite size_singleton. assert (size (with_ref n m) ≠ 0%nat); [|lia]. intros H0. apply size_empty_inv in H0. set_solver. }
    case_decide; [replace ({[key]} ∪ with_ref n m) with (with_ref n m) by set_solver; lia|lia].
  - case_decide.
    + rewrite size_union, size_singleton by set_solver. lia.
    + replace (with_ref n m ∖ {[key]}) with (with_ref n m) by set_solver. lia.
Qed.

Lemma num_with_ref_delete n m key : num_with_ref n (delete key m) = num_with_ref n m - if decide (key ∈ with_ref n m) then 1 else 0.
Proof.
  unfold num_with_ref. rewrite with_ref_delete. case_decide as Hin.
  - rewrite size_difference by set_solver. rewrite size_singleton.
    assert (size (with_ref n m) ≠ 0%nat); [|lia]. intros H0. apply size_empty_inv in H0. set_solver.
  - replace (with_ref n m ∖ {[key]}) with (with_ref n m) by set_solver. lia.
Qed.

Lemma num_with_ref_known n m key b : m !! key = Some b → (if decide (key ∈ with_ref n m) then 1 else 0) = if decide (bs_ref_cnt b = n) then 1 else 0 :> Z.
Proof. intros Hb. repeat case_decide; try done; exfalso; rewrite elem_of_with_ref in *; naive_solver. Qed.

(** ** Slots *)

Definition slots m : list Z := bs_block_id <$> (map_to_list m).*2.

Lemma slots_insert m key b : m !! key = None → slots (<[key := b]> m) ≡ₚ bs_block_id b :: slots m.
Proof. intros Hk. unfold slots. by rewrite map_to_list_insert. Qed.

Lemma slots_delete m key b : m !! key = Some b → slots m ≡ₚ bs_block_id b :: slots (delete key m).
Proof. intros Hk. rewrite <-(insert_delete_id m key b Hk) at 1. apply slots_insert, lookup_delete_eq. Qed.

Lemma slots_update m key b b' : m !! key = Some b → bs_block_id b' = bs_block_id b → slots (<[key := b']> m) ≡ₚ slots m.
Proof.
  intros Hk Hid. rewrite (slots_delete m key b Hk), <-Hid, <-insert_delete_eq. apply slots_insert, lookup_delete_eq.
Qed.

Lemma slots_inj m : NoDup (slots m) → ∀ key1 key2 b1 b2, m !! key1 = Some b1 → m !! key2 = Some b2 → bs_block_id b1 = bs_block_id b2 → key1 = key2.
Proof.
  intros Hnd key1 key2 b1 b2 H1 H2 Hid. destruct (decide (key1 = key2)) as [|Hne]; [done|]. exfalso. rewrite (slots_delete m key1 b1 H1) in Hnd.
  apply NoDup_cons in Hnd as [Hn _]. apply Hn. rewrite Hid. assert (H2' : delete key1 m !! key2 = Some b2) by by rewrite lookup_delete_ne.
  rewrite (slots_delete _ key2 b2 H2'). left.
Qed.

(** ** Loads in flight *)

Definition loads key L : Z := Z.of_nat (length (filter (λ k, k = key) L)).

Lemma loads_nonneg key L : 0 ≤ loads key L.
Proof. unfold loads. lia. Qed.

Lemma loads_cons key k L : loads key (k :: L) = loads key L + if decide (k = key) then 1 else 0.
Proof. unfold loads. rewrite filter_cons. case_decide; simpl; lia. Qed.

Lemma loads_app key L L' : loads key (L ++ L') = loads key L + loads key L'.
Proof. unfold loads. rewrite filter_app, length_app. lia. Qed.

Lemma loads_in key L : key ∈ L ↔ 0 < loads key L.
Proof.
  induction L as [|k L IH]; [split; [by intros ?%elem_of_nil|unfold loads; simpl; lia]|].
  rewrite elem_of_cons, loads_cons, IH. pose proof (loads_nonneg key L). case_decide; [|naive_solver lia]. split; [lia|]. by left.
Qed.

Lemma loads_perm key L L' : L ≡ₚ L' → loads key L = loads key L'.
Proof. intros Hp. unfold loads. by rewrite Hp. Qed.

(** ** The invariant *)

Section Spec.
Context {C : Type} `{!CachePolicy C, !CachePolicyLaws C}.
Implicit Types (o : CPUOffloadingManager C) (keys : list OffloadKey).

(** The manager holds the blocks [m], and [L] are the loads that have been
    prepared and not completed. *)
Record offload_inv L m o : Prop := {
  of_rep : cp_rep m (with_ref 0 m) (om_policy o);
  of_refs key b : m !! key = Some b → bs_ref_cnt b = -1 ∧ key ∉ L ∨ bs_ref_cnt b = loads key L;
  of_loads key : key ∈ L → is_Some (m !! key);
  of_small key : loads key L < 2 ^ 31;
  of_slots : om_free_list (om_counters o) ++ slots m ≡ₚ py_range 0 (num_allocated_blocks (om_counters o));
  of_allocated : 0 ≤ num_allocated_blocks (om_counters o) ≤ om_num_blocks o;
  of_width : om_num_blocks o < 2 ^ 63;
  of_evictable : num_evictable_cache_blocks (om_counters o) = num_with_ref 0 m;
  of_pending : num_write_pending_blocks (om_counters o) = num_with_ref (-1) m;
  of_counts l : access_counts (om_counters o) = Some l → NoDup (od_keys l);
  of_tracker : 1 ≤ max_tracker_size o;
}.

(** What no call changes: the settings, and whether accesses are counted. *)
Definition counts_accesses o : bool := match access_counts (om_counters o) with None => false | Some _ => true end.
Definition om_settings o := (om_num_blocks o, store_threshold o, max_tracker_size o, counts_accesses o).

Lemma get_block L m o key : offload_inv L m o → cp_get key (om_policy o) = m !! key.
Proof. intros Hi. eapply rep_get, Hi. Qed.

(** The counters that a transfer leaves alone. *)
Definition fixed_counters o := (om_settings o, num_allocated_blocks (om_counters o), om_free_list (om_counters o), access_counts (om_counters o)).

(** A block changes its reference count, and its loads change as much. *)
Lemma change_ref L L' m o o' key b n :
  offload_inv L m o → m !! key = Some b → -1 ≤ n < 2 ^ 31 →
  (∀ k, k ≠ key → loads k L' = loads k L) → loads key L' = Z.max 0 n →
  cp_rep (<[key := set_ref_cnt n b]> m) (with_ref 0 (<[key := set_ref_cnt n b]> m)) (om_policy o') →
  fixed_counters o' = fixed_counters o →
  num_evictable_cache_blocks (om_counters o') = num_evictable_cache_blocks (om_counters o) +
    ((if decide (n = 0) then 1 else 0) - (if decide (bs_ref_cnt b = 0) then 1 else 0)) →
  num_write_pending_blocks (om_counters o') = num_write_pending_blocks (om_counters o) +
    ((if decide (n = -1) then 1 else 0) - (if decide (bs_ref_cnt b = -1) then 1 else 0)) →
  offload_inv L' (<[key := set_ref_cnt n b]> m) o'.
Proof.
  intros [I1 I2 I3 I4 I5 I6 I7 I8 I9 I10 I11] Hb Hn Hoth Hkey Hp [= E1 E2 E3 _ E4 E5 E6] Hev Hwp.
  assert (Href : bs_ref_cnt (set_ref_cnt n b) = n) by by apply ref_cnt_set.
  assert (Hmem : ∀ k, k ≠ key → k ∈ L' ↔ k ∈ L) by (intros k Hk; by rewrite !loads_in, Hoth).
  split; rewrite ?E1, ?E3, ?E4, ?E5, ?E6; try done.
  - intros k b'. destruct (decide (k = key)) as [->|Hne].
    + rewrite lookup_insert_eq. intros [= <-]. rewrite Href, loads_in, Hkey. destruct (decide (n = -1)); [left|right]; lia.
    + rewrite lookup_insert_ne, Hoth, Hmem by done. apply I2.
  - intros k Hk. destruct (decide (k = key)) as [->|Hne]; [rewrite lookup_insert_eq; by eexists|]. rewrite lookup_insert_ne by done. apply I3. by apply Hmem.
  - intros k. destruct (decide (k = key)) as [->|Hne]; [lia|]. by rewrite Hoth.
  - by rewrite (slots_update m key b) by done.
  - rewrite Hev, I8, num_with_ref_insert, Href, (num_with_ref_known 0 m key b Hb). lia.
  - rewrite Hwp, I9, num_with_ref_insert, Href, (num_with_ref_known (-1) m key b Hb). lia.
Qed.

(** ** Loads *)

Definition load_block key m : gmap OffloadKey BlockStatus := alter (λ b, set_ref_cnt (bs_ref_cnt b + 1) b) key m.
Definition unload_block key m : gmap OffloadKey BlockStatus := alter (λ b, set_ref_cnt (bs_ref_cnt b - 1) b) key m.

Lemma alter_known (f : BlockStatus → BlockStatus) key m b : m !! key = Some b → alter f key m = <[key := f b]> m.
Proof.
  intros Hb. apply map_eq. intros k. destruct (decide (k = key)) as [->|Hne].
  - by rewrite lookup_alter_eq, Hb, lookup_insert_eq.
  - by rewrite lookup_alter_ne, lookup_insert_ne by done.
Qed.

Lemma ready_ref L m o key b : offload_inv L m o → m !! key = Some b → is_ready b = true ↔ bs_ref_cnt b = loads key L.
Proof.
  intros Hi Hb. unfold is_ready. rewrite Z.leb_le. pose proof (loads_nonneg key L). destruct (of_refs _ _ _ Hi key b Hb) as [[H1 _]|H1]; lia.
Qed.

Lemma prepare_load_one_spec L m o key b blocks :
  offload_inv L m o → m !! key = Some b → is_ready b = true → loads key L + 1 < 2 ^ 31 →
  runs (prepare_load_one (blocks, o) key) (λ '(blocks', o'), offload_inv (key :: L) (load_block key m) o' ∧ om_settings o' = om_settings o ∧
    bs_block_id <$> blocks' = (bs_block_id <$> blocks) ++ [bs_block_id b]).
Proof.
  intros Hi Hb Hready Hsmall. unfold prepare_load_one. rewrite (get_block _ _ _ key Hi), Hb, Hready. cbn [py_assert mbind result_bind].
  apply (ready_ref _ _ _ _ _ Hi Hb) in Hready as Href. pose proof (loads_nonneg key L) as Hn.
  unfold load_block. rewrite (alter_known _ key m b Hb). set (n := bs_ref_cnt b + 1).
  assert (Hbn : bs_ref_cnt (set_ref_cnt n b) = n) by (apply ref_cnt_set; lia).
  assert (Hw : with_ref 0 (<[key := set_ref_cnt n b]> m) = with_ref 0 m ∖ {[key]}) by (rewrite with_ref_insert, Hbn, decide_False by lia; done).
  assert (Hstep : ∀ o', fixed_counters o' = fixed_counters o → cp_rep (<[key := set_ref_cnt n b]> m) (with_ref 0 m ∖ {[key]}) (om_policy o') →
    num_evictable_cache_blocks (om_counters o') = num_evictable_cache_blocks (om_counters o) - (if decide (bs_ref_cnt b = 0) then 1 else 0) →
    num_write_pending_blocks (om_counters o') = num_write_pending_blocks (om_counters o) → offload_inv (key :: L) (<[key := set_ref_cnt n b]> m) o').
  { intros o' Hf Hp Hev Hwp. apply (change_ref L (key :: L) m o o' key b n Hi Hb); try done; [lia| | |by rewrite Hw| |].
    - intros k Hne. rewrite loads_cons, decide_False by done. lia.
    - rewrite loads_cons, decide_True by done. lia.
    - rewrite Hev. rewrite (decide_False (P := n = 0)) by lia. lia.
    - rewrite Hwp. rewrite !decide_False by lia. lia. }
  eapply (runs_bind _ _ (λ o1, cp_rep m (with_ref 0 m ∖ {[key]}) (om_policy o1) ∧ fixed_counters o1 = fixed_counters o ∧
    num_evictable_cache_blocks (om_counters o1) = num_evictable_cache_blocks (om_counters o) - (if decide (bs_ref_cnt b = 0) then 1 else 0) ∧
    num_write_pending_blocks (om_counters o1) = num_write_pending_blocks (om_counters o))).
  - destruct (Z.eqb_spec (bs_ref_cnt b) 0) as [Hz|Hz].
    + assert (Hin : key ∈ with_ref 0 m) by (apply elem_of_with_ref; by exists b).
      eapply runs_bind; [by apply (rep_unmark m (with_ref 0 m) (om_policy o) key (of_rep _ _ _ Hi))|].
      intros p Hp. cbn zeta. assert (Hpos : 0 < num_with_ref 0 m).
      { unfold num_with_ref. assert (size (with_ref 0 m) ≠ 0%nat); [|lia]. intros H0. apply size_empty_inv in H0. set_solver. }
      rewrite (proj2 (Z.leb_le 0 _)) by (cbn; rewrite (of_evictable _ _ _ Hi); lia).
      cbn [py_assert mbind result_bind runs]. rewrite decide_True by done. split_and!; [done|done|cbn; lia|done].
    + cbn [runs]. rewrite decide_False by done. split_and!; [|done|lia|done].
      replace (with_ref 0 m ∖ {[key]}) with (with_ref 0 m); [apply Hi|]. apply set_eq. intros k. rewrite elem_of_difference, elem_of_singleton.
      split; [|tauto]. intros Hk. split; [done|]. intros ->. apply elem_of_with_ref in Hk as (b' & ? & ?). naive_solver.
  - intros o1 (Hp & Hf & Hev & Hwp). cbn [runs]. fold n. split; [|split; [exact (f_equal (λ z, z.1.1.1) Hf)|]].
    + apply Hstep; [done| |done|done]. cbn. apply rep_update; [done|by eexists].
    + by rewrite fmap_app.
Qed.

(** The loads of [keys] are added to the blocks one by one. *)
Definition load_blocks keys m : gmap OffloadKey BlockStatus := foldl (λ m key, load_block key m) m keys.
Definition unload_blocks keys m : gmap OffloadKey BlockStatus := foldl (λ m key, unload_block key m) m keys.

Lemma load_block_lookup key m k : load_block key m !! k = if decide (k = key) then (λ b, set_ref_cnt (bs_ref_cnt b + 1) b) <$> m !! k else m !! k.
Proof. unfold load_block. case_decide; [subst; by rewrite lookup_alter_eq|by rewrite lookup_alter_ne]. Qed.

Lemma load_block_slot key m k : bs_block_id <$> load_block key m !! k = bs_block_id <$> m !! k.
Proof. rewrite load_block_lookup. case_decide; [|done]. by destruct (m !! k). Qed.

Lemma offload_inv_perm L L' m o : L ≡ₚ L' → offload_inv L m o → offload_inv L' m o.
Proof.
  intros HL [I1 I2 I3 I4 I5 I6 I7 I8 I9 I10 I11]. split; try done.
  - intros key b. rewrite <-(loads_perm key _ _ HL), <-HL. apply I2.
  - intros key. rewrite <-HL. apply I3.
  - intros key. by rewrite <-(loads_perm key _ _ HL).
Qed.

Lemma prepare_load_loop keys : ∀ L m o blocks,
  offload_inv L m o → (∀ key, key ∈ keys → ∃ b, m !! key = Some b ∧ is_ready b = true) → (∀ key, loads key (keys ++ L) < 2 ^ 31) →
  runs (foldM prepare_load_one (blocks, o) keys) (λ '(blocks', o'), offload_inv (keys ++ L) (load_blocks keys m) o' ∧ om_settings o' = om_settings o ∧
    ∃ ids, bs_block_id <$> blocks' = (bs_block_id <$> blocks) ++ ids ∧ Forall2 (λ key id, bs_block_id <$> m !! key = Some id) keys ids).
Proof.
  induction keys as [|key keys IH]; intros L m o blocks Hi Hk Hsmall; cbn [foldM].
  { cbn [runs]. split; [done|]. split; [done|]. exists []. by rewrite app_nil_r. }
  assert (Hperm : keys ++ key :: L ≡ₚ key :: keys ++ L) by by rewrite Permutation_middle.
  destruct (Hk key) as (b & Hb & Hr); [left|]. eapply runs_bind; [apply (prepare_load_one_spec L m o key b blocks Hi Hb Hr)|].
  { specialize (Hsmall key). cbn in Hsmall. rewrite loads_cons, decide_True, loads_app in Hsmall by done. pose proof (loads_nonneg key keys). lia. }
  intros [blocks1 o1] (Hi1 & Hs1 & Hb1). pose proof (ready_ref _ _ _ _ _ Hi Hb) as Href. pose proof (loads_nonneg key L) as Hn. pose proof (of_small _ _ _ Hi1 key) as Hsm.
  eapply runs_mono; [apply (IH (key :: L) (load_block key m) o1 blocks1 Hi1)|].
  - intros k Hkk. rewrite load_block_lookup. destruct (Hk k) as (b' & Hb' & Hr'); [by right|]. rewrite Hb'. case_decide as Hd; [|by exists b'].
    subst k. assert (b' = b) as -> by congruence. eexists. split; [done|]. unfold is_ready. rewrite loads_cons, decide_True in Hsm by done.
    rewrite ref_cnt_set by (apply Href in Hr; lia). apply Z.leb_le. apply Href in Hr. lia.
  - intros k. rewrite (loads_perm k _ _ Hperm). apply Hsmall.
  - intros [blocks' o'] (Hi' & Hs' & ids & Hids & Hf). split; [by eapply offload_inv_perm|]. split; [congruence|]. exists (bs_block_id b :: ids). split.
    + by rewrite Hids, Hb1, <-app_assoc.
    + constructor; [by rewrite Hb|]. eapply Forall2_impl; [exact Hf|]. intros k id. cbn beta. by rewrite load_block_slot.
Qed.

(** Blocks that were looked up can be loaded: the caller gets their slots. *)
Lemma prepare_load_spec L m o keys :
  offload_inv L m o → (∀ key, key ∈ keys → om_lookup key o = HIT) → (∀ key, loads key (keys ++ L) < 2 ^ 31) →
  runs (prepare_load keys o) (λ '(spec, o'), offload_inv (keys ++ L) (load_blocks keys m) o' ∧ om_settings o' = om_settings o ∧
    Forall2 (λ key id, bs_block_id <$> m !! key = Some id) keys spec).
Proof.
  intros Hi Hhit Hsmall. unfold prepare_load. eapply runs_bind; [apply (prepare_load_loop keys L m o [] Hi); [|done]|].
  { intros key Hk. specialize (Hhit key Hk). unfold om_lookup in Hhit. rewrite (get_block _ _ _ _ Hi) in Hhit.
    destruct (m !! key) as [b|]; [|done]. exists b. split; [done|]. by destruct (is_ready b). }
  intros [blocks o'] (Hi' & Hs' & ids & Hids & Hf). cbn [runs]. split; [done|]. split; [done|]. unfold _get_load_store_spec. by rewrite Hids.
Qed.

Lemma complete_load_one_spec L m o key :
  offload_inv (key :: L) m o → runs (complete_load_one o key) (λ o', offload_inv L (unload_block key m) o' ∧ om_settings o' = om_settings o).
Proof.
  intros Hi. destruct (of_loads _ _ _ Hi key) as [b Hb]; [left|]. unfold complete_load_one. rewrite (get_block _ _ _ _ Hi), Hb.
  assert (Href : bs_ref_cnt b = loads key L + 1).
  { destruct (of_refs _ _ _ Hi key b Hb) as [[_ Hn]|Hr]; [destruct Hn; left|]. by rewrite loads_cons, decide_True in Hr by done. }
  pose proof (loads_nonneg key L) as Hn. pose proof (of_small _ _ _ Hi key) as Hsm. rewrite loads_cons, decide_True in Hsm by done.
  rewrite (proj2 (Z.ltb_lt 0 _)) by lia. cbn [py_assert mbind result_bind]. cbv zeta. unfold unload_block. rewrite (alter_known _ key m b Hb). set (n := bs_ref_cnt b - 1).
  assert (Hbn : bs_ref_cnt (set_ref_cnt n b) = n) by (apply ref_cnt_set; lia). rewrite Hbn.
  assert (Hin : key ∉ with_ref 0 m) by (rewrite elem_of_with_ref; intros (b' & ? & ?); assert (b' = b) as -> by congruence; lia).
  pose proof (rep_update m (with_ref 0 m) (om_policy o) key (set_ref_cnt n b) (of_rep _ _ _ Hi) ltac:(by eexists)) as Hp.
  assert (Hstep : ∀ o', fixed_counters o' = fixed_counters o → cp_rep (<[key := set_ref_cnt n b]> m) (with_ref 0 (<[key := set_ref_cnt n b]> m)) (om_policy o') →
    num_evictable_cache_blocks (om_counters o') = num_evictable_cache_blocks (om_counters o) + (if decide (n = 0) then 1 else 0) →
    num_write_pending_blocks (om_counters o') = num_write_pending_blocks (om_counters o) → offload_inv L (<[key := set_ref_cnt n b]> m) o').
  { intros o' Hf Hr Hev Hwp. apply (change_ref (key :: L) L m o o' key b n Hi Hb); try done; [lia| |lia| |].
    - intros k Hne. rewrite loads_cons, decide_False by done. lia.
    - rewrite Hev. rewrite (decide_False (P := bs_ref_cnt b = 0)) by lia. lia.
    - rewrite Hwp. rewrite !decide_False by lia. lia. }
  rewrite with_ref_insert, Hbn in Hstep. destruct (Z.eqb_spec n 0) as [Hz|Hz]; cbn [runs]; (split; [|done]); apply Hstep; try done.
  - rewrite decide_True by done. cbn. apply rep_mark; [done|rewrite lookup_insert_eq; by eexists|done].
  - by rewrite decide_True.
  - rewrite decide_False by done. cbn. replace (with_ref 0 m ∖ {[key]}) with (with_ref 0 m) by set_solver. done.
  - rewrite decide_False by done. cbn. lia.
Qed.

Lemma complete_load_spec keys : ∀ L m o,
  offload_inv (keys ++ L) m o → runs (complete_load keys o) (λ o', offload_inv L (unload_blocks keys m) o' ∧ om_settings o' = om_settings o).
Proof.
  unfold complete_load. induction keys as [|key keys IH]; intros L m o Hi; cbn [foldM]; [done|].
  eapply runs_bind; [by apply (complete_load_one_spec (keys ++ L))|]. intros o1 [Hi1 Hs1]. eapply runs_mono; [by apply IH|].
  intros o' [? ?]. split; [done|congruence].
Qed.

Lemma om_touch_spec L m o keys : offload_inv L m o → runs (om_touch keys o) (λ o', offload_inv L m o' ∧ om_settings o' = om_settings o).
Proof.
  intros Hi. unfold om_touch. eapply runs_bind; [apply (rep_touch _ _ _ keys (of_rep _ _ _ Hi))|]. intros p Hp. cbn [runs]. split; [|done].
  destruct Hi. by split.
Qed.

(** ** Counting accesses *)

(** What the tracker of accesses promises: the key is counted once more and becomes
    the one seen last; a key that is not tracked takes the place of the one seen
    longest ago when [size] keys are tracked. *)
Definition note_access (size : Z) (counts : list (OffloadKey * Z)) key : list (OffloadKey * Z) :=
  let others := filter (λ e, e.1 ≠ key) counts in
  (if decide (key ∈ od_keys counts ∨ py_len counts < size) then others else tail others) ++ [(key, default 0 (od_get counts key) + 1)].

Lemma od_del_filter (d : list (OffloadKey * Z)) k : NoDup (od_keys d) → od_del d k = filter (λ e, e.1 ≠ k) d.
Proof.
  induction d as [|[k' v] d IH]; cbn [od_del]; [done|]. rewrite filter_cons. cbn. intros [Hk Hd]%NoDup_cons. case_decide as E.
  - subst k'. rewrite decide_False by tauto. rewrite <-(IH Hd). symmetry. by apply od_del_absent.
  - rewrite decide_True by done. by rewrite IH.
Qed.

Lemma record_access_spec size counts key : 1 ≤ size → NoDup (od_keys counts) →
  record_access size counts key = Ok (note_access size counts key) ∧ NoDup (od_keys (note_access size counts key)).
Proof.
  intros Hs Hn. assert (Hin : key ∉ od_keys (od_del counts key)) by (rewrite od_keys_del by done; rewrite list_elem_of_filter; tauto).
  cut (∃ l, record_access size counts key = Ok l ∧ l = note_access size counts key ∧ NoDup (od_keys l)).
  { by intros (l & H1 & <- & H2). }
  unfold record_access, note_access, od_move_to_end. rewrite <-od_del_filter by done. destruct (od_get counts key) as [n|] eqn:Hk.
  - rewrite decide_True by (left; apply od_get_keys; by rewrite Hk). cbn [mbind result_bind default]. eexists. split; [done|].
    assert (E : od_set (od_del counts key ++ [(key, n)]) key (n + 1) = od_del counts key ++ [(key, n + 1)]).
    { clear -Hin. induction (od_del counts key) as [|[k v] d IH]; cbn; [by rewrite decide_True|]. cbn in Hin. apply not_elem_of_cons in Hin as [? Hin].
      by rewrite decide_False, IH. }
    split; [done|]. rewrite E, od_keys_app. cbn. apply NoDup_app. split; [by apply od_del_NoDup|]. split; [|apply NoDup_singleton].
    intros x Hx ->%list_elem_of_singleton. done.
  - apply od_get_None in Hk. rewrite od_del_absent by done. destruct (Z.leb_spec size (py_len counts)) as [Hl|Hl].
    + rewrite decide_False by (intros [?|?]; [done|lia]). destruct counts as [|x counts]; [unfold py_len in *; simpl in *; lia|].
      cbn [mbind result_bind]. cbn in Hk, Hn. apply not_elem_of_cons in Hk as [_ Hk]. apply NoDup_cons in Hn as [_ Hn]. eexists. split; [done|].
      split; [by rewrite od_set_new|by apply od_set_nodup].
    + rewrite decide_True by (right; done). cbn [mbind result_bind]. eexists. split; [done|]. split; [by rewrite od_set_new|by apply od_set_nodup].
Qed.

(** As long as there is room no count is lost. *)
Lemma note_access_get size counts key k : NoDup (od_keys counts) → py_len counts < size →
  default 0 (od_get (note_access size counts key) k) = default 0 (od_get counts k) + (if decide (k = key) then 1 else 0) ∧
  py_len (note_access size counts key) ≤ py_len counts + 1.
Proof.
  intros Hn Hl. unfold note_access. rewrite decide_True by tauto. rewrite <-od_del_filter by done. split.
  - rewrite od_get_app, od_get_del by done. cbn. destruct (decide (k = key)) as [->|E]; [done|]. rewrite Z.add_0_r. by destruct (od_get counts k).
  - rewrite py_len_app. pose proof (od_length_del counts key). unfold py_len. simpl. lia.
Qed.

Lemma note_all_get size keys counts k : 1 ≤ size → NoDup (od_keys counts) → NoDup keys → py_len counts + py_len keys ≤ size →
  default 0 (od_get (foldl (note_access size) counts keys) k) = default 0 (od_get counts k) + (if decide (k ∈ keys) then 1 else 0).
Proof.
  intros Hs. revert counts. induction keys as [|key keys IH]; intros counts Hn Hnd Hl; cbn [foldl]; [rewrite decide_False by apply not_elem_of_nil; lia|].
  apply NoDup_cons in Hnd as [Hk Hnd]. change (py_len (key :: keys)) with (Z.of_nat (S (length keys))) in Hl.
  destruct (note_access_get size counts key k Hn) as [Hg Hlen]; [lia|].
  rewrite IH; [|by apply record_access_spec|done|unfold py_len in *; lia]. rewrite Hg.
  destruct (decide (k = key)) as [->|?]; [rewrite decide_False, (decide_True (P := key ∈ key :: keys)) by (done || set_solver); lia|].
  rewrite (decide_ext (k ∈ key :: keys) (k ∈ keys)) by set_solver. lia.
Qed.

Lemma set_counts_inv L m o f :
  offload_inv L m o → (∀ c, (num_allocated_blocks (f c), om_free_list (f c), num_evictable_cache_blocks (f c), num_write_pending_blocks (f c)) =
    (num_allocated_blocks c, om_free_list c, num_evictable_cache_blocks c, num_write_pending_blocks c)) →
  (∀ l, access_counts (f (om_counters o)) = Some l → NoDup (od_keys l)) → offload_inv L m (map_counters f o).
Proof.
  intros [I1 I2 I3 I4 I5 I6 I7 I8 I9 I10 I11] Hf Hl. specialize (Hf (om_counters o)). injection Hf as E1 E2 E3 E4.
  split; cbn; rewrite ?E1, ?E2, ?E3, ?E4; done.
Qed.

(** How often a key was seen, as far as the tracker remembers. *)
Definition times_seen o key : Z := default 0 (od_get (default [] (access_counts (om_counters o))) key).

(** The tracker after the accesses [keys]. *)
Definition tracked keys o : option (list (OffloadKey * Z)) := (λ l, foldl (note_access (max_tracker_size o)) l keys) <$> access_counts (om_counters o).

Lemma record_all_spec L m keys : ∀ o, offload_inv L m o → is_Some (access_counts (om_counters o)) →
  runs (foldM _record_access o keys) (λ o', offload_inv L m o' ∧ om_settings o' = om_settings o ∧ access_counts (om_counters o') = tracked keys o).
Proof.
  induction keys as [|key keys IH]; intros o Hi [counts Hc]; cbn [foldM].
  { cbn [runs]. split; [done|]. split; [done|]. unfold tracked. by rewrite Hc. }
  assert (E : _record_access o key = (l ← record_access (max_tracker_size o) counts key; Ok (map_counters (set_access_counts (Some l)) o))) by (unfold _record_access; by rewrite Hc).
  rewrite E. clear E. destruct (record_access_spec (max_tracker_size o) counts key) as [-> Hn]; [apply (of_tracker _ _ _ Hi)|by apply (of_counts _ _ _ Hi)|].
  cbn [mbind result_bind]. eapply runs_mono; [apply IH; [|by eexists]|].
  - apply set_counts_inv; [done|done|]. cbn. by intros l' [= <-].
  - intros o' (? & Hs & Ha). split; [done|]. split; [rewrite Hs; unfold om_settings, counts_accesses; cbn; by rewrite Hc|]. rewrite Ha. unfold tracked. cbn. by rewrite Hc.
Qed.

Lemma admitted_spec L m o keys :
  offload_inv L m o → runs (admitted_keys keys o) (λ '(kept, o'), offload_inv L m o' ∧ om_settings o' = om_settings o ∧
    access_counts (om_counters o') = tracked keys o ∧
    kept = filter (λ key, counts_accesses o = false ∨ store_threshold o ≤ times_seen o' key) keys).
Proof.
  intros Hi. unfold admitted_keys. destruct (access_counts (om_counters o)) as [l0|] eqn:Ec.
  - eapply runs_bind; [apply (record_all_spec L m keys o Hi); rewrite Ec; by eexists|]. intros o1 (Hi1 & Hs1 & Ha1). cbv zeta. cbn [runs].
    split; [|split; [done|split; [done|]]]; [apply set_counts_inv; [done|done|]; cbn; apply (of_counts _ _ _ Hi1)|].
    apply list_filter_iff. intros k. unfold times_seen, counts_accesses. rewrite Ec. cbn. injection Hs1 as _ E _ _. rewrite E. naive_solver.
  - cbn [runs]. split; [done|]. split; [done|]. split; [unfold tracked; by rewrite Ec|]. symmetry.
    assert (Hc : counts_accesses o = false) by (unfold counts_accesses; by rewrite Ec). clear -Hc. induction keys as [|k keys IH]; [done|].
    rewrite filter_cons, decide_True by (by left). by rewrite IH.
Qed.

(** ** Making room *)

Lemma with_ref_remove n m ks : with_ref n (foldr delete m ks) = with_ref n m ∖ list_to_set ks.
Proof.
  induction ks as [|k ks IH]; cbn [foldr]; [set_solver|]. rewrite with_ref_delete, IH. set_solver.
Qed.

Lemma slots_remove m (l : list (OffloadKey * BlockStatus)) :
  NoDup l.*1 → (∀ key b, (key, b) ∈ l → m !! key = Some b) → slots m ≡ₚ (bs_block_id <$> l.*2) ++ slots (foldr delete m l.*1).
Proof.
  intros Hnd Hl. induction l as [|[key b] l IH]; [done|]. cbn in Hnd. apply NoDup_cons in Hnd as [Hk Hnd]. rewrite !fmap_cons. cbn [foldr fst snd].
  rewrite (IH Hnd) by (intros k b' ?; apply Hl; by right). rewrite (slots_delete (foldr delete m l.*1) key b).
  - cbn. symmetry. apply Permutation_middle.
  - rewrite lookup_remove_keys, decide_False by done. apply Hl. left.
Qed.

(** The blocks that are evicted go to the free list, in the same order. *)
Lemma free_blocks_fields o (l : list (OffloadKey * BlockStatus)) (o' := foldl (λ o x, _free_block x.2 o) o l) :
  om_free_list (om_counters o') = om_free_list (om_counters o) ++ (bs_block_id <$> l.*2) ∧
  (om_settings o', om_policy o', num_allocated_blocks (om_counters o'), access_counts (om_counters o'), num_evictable_cache_blocks (om_counters o'),
    num_write_pending_blocks (om_counters o')) =
  (om_settings o, om_policy o, num_allocated_blocks (om_counters o), access_counts (om_counters o), num_evictable_cache_blocks (om_counters o),
    num_write_pending_blocks (om_counters o)).
Proof.
  subst o'. revert o. induction l as [|x l IH]; intros o; cbn [foldl]; [by rewrite app_nil_r|].
  destruct (IH (_free_block x.2 o)) as [H1 H2]. split; [|exact H2]. rewrite H1. cbn. by rewrite <-app_assoc.
Qed.

Lemma evicted_inv L m o p (l : list (OffloadKey * BlockStatus)) :
  offload_inv L m o → NoDup l.*1 → (∀ key b, (key, b) ∈ l → m !! key = Some b ∧ key ∈ with_ref 0 m) →
  cp_rep (foldr delete m l.*1) (with_ref 0 m ∖ list_to_set l.*1) p →
  offload_inv L (foldr delete m l.*1) (foldl (λ o x, _free_block x.2 o) (map_counters (add_evictable (- py_len l)) (set_om_policy p o)) l) ∧
  py_len l ≤ num_evictable_cache_blocks (om_counters o).
Proof.
  intros Hi Hnd Hl Hp. destruct Hi as [I1 I2 I3 I4 I5 I6 I7 I8 I9 I10 I11].
  set (o1 := map_counters _ _). destruct (free_blocks_fields o1 l) as [F1 F2]. set (o' := foldl _ o1 l) in *. injection F2 as G1 G2 G3 Gc G4 G5 G6 G7 G8.
  assert (Hsub : list_to_set l.*1 ⊆ with_ref 0 m).
  { intros key Hk%elem_of_list_to_set. apply list_elem_of_fmap in Hk as ([k b] & -> & Hin). by destruct (Hl k b Hin). }
  assert (Hlen : size (list_to_set l.*1 : gset OffloadKey) = length l) by (rewrite size_list_to_set, length_fmap by done; done).
  assert (Hle : (length l ≤ size (with_ref 0 m))%nat) by (rewrite <-Hlen; by apply subseteq_size).
  split; [|rewrite I8; unfold py_len, num_with_ref; lia].
  assert (Hidle : ∀ key, key ∈ l.*1 → loads key L = 0 ∧ key ∉ with_ref (-1) m).
  { intros key Hk. apply list_elem_of_fmap in Hk as ([k b] & -> & Hin). destruct (Hl k b Hin) as [Hb (b' & Hb' & Hz)%elem_of_with_ref]. cbn.
    assert (b' = b) as -> by congruence. split; [|intros (b' & ? & ?)%elem_of_with_ref; assert (b' = b) as -> by congruence; lia].
    destruct (I2 k b Hb) as [[? _]|?]; lia. }
  split; rewrite ?G1, ?G3, ?G4, ?G5, ?G6, ?G7, ?G8; try done.
  - rewrite with_ref_remove. done.
  - intros key b. rewrite lookup_remove_keys. case_decide; [done|]. apply I2.
  - intros key Hk. rewrite lookup_remove_keys, decide_False; [by apply I3|]. intros Hin. destruct (Hidle key Hin) as [H0 _]. apply loads_in in Hk. lia.
  - rewrite F1. cbn. rewrite <-app_assoc. rewrite <-slots_remove by (done || (intros key b ?; by apply (Hl key b))). done.
  - cbn. rewrite I8. unfold num_with_ref, py_len. rewrite with_ref_remove, size_difference by done. rewrite Hlen. lia.
  - cbn. rewrite I9. unfold num_with_ref. rewrite with_ref_remove. do 2 f_equal. apply set_eq. intros key. rewrite elem_of_difference, elem_of_list_to_set.
    split; [|tauto]. intros Hk. split; [done|]. intros Hin. by apply (Hidle key Hin).
Qed.

Lemma make_room_spec L m o missing keys :
  offload_inv L m o → runs (make_room missing keys o) (λ '(res, o'), om_settings o' = om_settings o ∧ num_allocated_blocks (om_counters o') = num_allocated_blocks (om_counters o) ∧
    access_counts (om_counters o') = access_counts (om_counters o) ∧
    match res with
    | None => offload_inv L m o' ∧ 0 < missing
    | Some ev => offload_inv L (foldr delete m ev) o' ∧ py_len ev = Z.max 0 missing ∧ NoDup ev ∧ (∀ key, key ∈ ev → key ∈ with_ref 0 m ∧ key ∉ keys) ∧
        py_len (om_free_list (om_counters o')) = py_len (om_free_list (om_counters o)) + py_len ev
    end).
Proof.
  intros Hi. unfold make_room. destruct (Z.leb_spec missing 0) as [Hm|Hm].
  { cbn [runs]. split; [done|]. split; [done|]. split; [done|]. split_and!; [done|unfold py_len; simpl; lia|constructor|by intros ? ?%elem_of_nil|unfold py_len; simpl; lia]. }
  destruct (_ <? missing); [by cbn [runs]|].
  eapply runs_bind; [apply (rep_evict m (with_ref 0 m) (om_policy o) missing (list_to_set keys)); [apply (of_rep _ _ _ Hi)| |done]|].
  { intros key b Hb. rewrite elem_of_with_ref. split; [|intros ?; by exists b]. intros (b' & ? & ?). by assert (b' = b) as <- by congruence. }
  intros [[l|] p].
  - intros (Hlen & Hnd & Hl & Hp). cbv zeta.
    destruct (evicted_inv L m o p l Hi Hnd) as [Hi' Hle]; [intros key b Hkb; destruct (Hl key b Hkb) as (? & ? & _); done|done|].
    rewrite (proj2 (Z.leb_le 0 _)) by (cbn; lia). cbn [py_assert mbind result_bind runs].
    destruct (free_blocks_fields (map_counters (add_evictable (- py_len l)) (set_om_policy p o)) l) as [F1 F2]. injection F2 as G1 G2 G3 Gc G4 G5 G6 G7 G8.
    split; [unfold om_settings; rewrite G1, G2, G3, Gc; done|]. split; [by rewrite G5|]. split; [done|]. split_and!; [done|unfold py_len in *; rewrite length_fmap; lia|done| |].
    + intros key ([k b] & -> & Hin)%list_elem_of_fmap. destruct (Hl k b Hin) as (_ & ? & Hk). split; [done|]. by rewrite elem_of_list_to_set in Hk.
    + rewrite F1. cbn. rewrite py_len_app. unfold py_len. by rewrite !length_fmap.
  - intros ->. cbn [runs]. split; [done|]. split; [done|]. split; [done|]. split; [|done]. destruct Hi. by split.
Qed.

(** ** Storing *)

Lemma py_range_app (x y z : Z) : x ≤ y → y ≤ z → py_range x y ++ py_range y z = py_range x z.
Proof.
  intros H1 H2. unfold py_range. replace (Z.to_nat (z - x)) with (Z.to_nat (y - x) + Z.to_nat (z - y))%nat by lia.
  rewrite seq_app, fmap_app. f_equal. replace (0 + Z.to_nat (y - x))%nat with (Z.to_nat (y - x) + 0)%nat by lia. rewrite <-fmap_add_seq, <-list_fmap_compose.
  apply list_fmap_ext. intros i n _. cbn. lia.
Qed.

Lemma length_py_range (x y : Z) : py_len (py_range x y) = Z.max 0 (y - x).
Proof. unfold py_len, py_range. rewrite length_fmap, length_seq. lia. Qed.

(** The slots that are given out are fresh or were free. *)
Lemma om_allocate_spec L m o n :
  offload_inv L m o → 0 ≤ n ≤ _get_num_free_blocks o →
  runs (_allocate_blocks n o) (λ '(blocks, o'), ∃ ids, blocks = mkBlockStatus (-1) <$> ids ∧ py_len ids = n ∧
    om_free_list (om_counters o') ++ ids ++ slots m ≡ₚ py_range 0 (num_allocated_blocks (om_counters o')) ∧
    0 ≤ num_allocated_blocks (om_counters o') ≤ om_num_blocks o ∧ om_settings o' = om_settings o ∧ om_policy o' = om_policy o ∧
    (num_evictable_cache_blocks (om_counters o'), num_write_pending_blocks (om_counters o'), access_counts (om_counters o')) =
      (num_evictable_cache_blocks (om_counters o), num_write_pending_blocks (om_counters o), access_counts (om_counters o))).
Proof.
  intros Hi Hn. unfold _get_num_free_blocks in Hn. unfold _allocate_blocks. cbv zeta.
  pose proof (of_allocated _ _ _ Hi) as Ha. pose proof (of_slots _ _ _ Hi) as Hsl. pose proof (of_width _ _ _ Hi) as Hw.
  set (c := om_counters o) in *. set (alloc := num_allocated_blocks c) in *. set (free := om_free_list c) in *.
  set (fresh := Z.min n (om_num_blocks o - alloc)). assert (Hf : 0 ≤ fresh) by lia.
  pose proof (py_len_nonneg free) as Hfree. assert (Hreused : n - fresh ≤ py_len free) by lia. rewrite (proj2 (Z.leb_le _ _)) by done. cbn [py_assert mbind result_bind runs].
  set (j := (length free - Z.to_nat (n - fresh))%nat). set (ids := py_range alloc (alloc + fresh) ++ rev (drop j free)).
  assert (Hperm : take j free ++ ids ++ slots m ≡ₚ py_range 0 (alloc + fresh)).
  { rewrite <-(py_range_app 0 alloc) by lia. rewrite <-Hsl. subst ids. rewrite <-app_assoc, (Permutation_app_comm (py_range _ _)), <-!app_assoc.
    rewrite <-Permutation_rev. by rewrite app_assoc, take_drop. }
  exists ids. split_and!; try done.
  - apply list_fmap_ext. intros i x Hx. apply list_elem_of_lookup_2 in Hx. apply new_block_id.
    assert (Hin : x ∈ py_range 0 (alloc + fresh)) by (rewrite <-Hperm; set_solver). apply elem_of_py_range in Hin. lia.
  - subst ids. rewrite py_len_app, length_py_range. unfold py_len in *. rewrite length_rev, length_drop.
    assert (Hj : (length free - j = Z.to_nat (n - fresh))%nat) by (subst j; lia). rewrite Hj. lia.
  - cbn. replace (num_allocated_blocks (om_counters o) + Z.max 0 fresh) with (alloc + fresh) by (subst alloc c; lia). done.
  - cbn. subst alloc c. lia.
  - cbn. subst alloc c. lia.
Qed.

(** Blocks that are being written. *)
Definition insert_blocks (l : list (OffloadKey * BlockStatus)) m : gmap OffloadKey BlockStatus := foldl (λ m x, <[x.1 := x.2]> m) m l.

Lemma insert_blocks_lookup l : ∀ m k, NoDup l.*1 → insert_blocks l m !! k = match od_get l k with Some b => Some b | None => m !! k end.
Proof.
  induction l as [|[key b] l IH]; intros m k Hnd; [done|]. cbn in Hnd. apply NoDup_cons in Hnd as [Hk Hnd]. cbn [insert_blocks foldl fst snd].
  fold (insert_blocks l (<[key := b]> m)). rewrite IH by done. cbn [od_get]. destruct (decide (k = key)) as [->|Hne].
  - rewrite (proj2 (od_get_None l key) Hk). apply lookup_insert_eq.
  - destruct (od_get l k); [done|]. by rewrite lookup_insert_ne.
Qed.

Lemma insert_blocks_spec (l : list (OffloadKey * BlockStatus)) : ∀ m o,
  NoDup l.*1 → (∀ key b, (key, b) ∈ l → m !! key = None ∧ bs_ref_cnt b = -1) → cp_rep m (with_ref 0 m) (om_policy o) →
  let o' := foldl (λ o x, set_om_policy (cp_insert x.1 x.2 (om_policy o)) o) o l in
  cp_rep (insert_blocks l m) (with_ref 0 (insert_blocks l m)) (om_policy o') ∧
  (om_settings o', om_counters o', om_events o') = (om_settings o, om_counters o, om_events o) ∧
  num_with_ref 0 (insert_blocks l m) = num_with_ref 0 m ∧ num_with_ref (-1) (insert_blocks l m) = num_with_ref (-1) m + py_len l ∧
  slots (insert_blocks l m) ≡ₚ (bs_block_id <$> l.*2) ++ slots m.
Proof.
  induction l as [|[key b] l IH]; intros m o Hnd Hl Hr.
  { cbn. split; [done|]. split; [done|]. split; [done|]. split; [unfold py_len; simpl; lia|done]. }
  cbn in Hnd. apply NoDup_cons in Hnd as [Hk Hnd]. destruct (Hl key b) as [Hb Hz]; [left|]. cbn [foldl fst snd].
  assert (Hnot : ∀ n, key ∉ with_ref n m) by (intros n (b' & ? & ?)%elem_of_with_ref; congruence).
  assert (Hw : with_ref 0 (<[key := b]> m) = with_ref 0 m) by (rewrite with_ref_insert, decide_False by lia; specialize (Hnot 0); set_solver).
  destruct (IH (<[key := b]> m) (set_om_policy (cp_insert key b (om_policy o)) o) Hnd) as (G1 & G2 & G3 & G4 & G5).
  - intros k b' Hin. destruct (Hl k b') as [? ?]; [by right|]. split; [|done]. rewrite lookup_insert_ne; [done|]. intros <-. apply Hk.
    change key with (key, b').1. by apply list_elem_of_fmap_2.
  - cbn. rewrite Hw. apply rep_insert; [done|done|lia].
  - cbn [insert_blocks foldl fst snd]. split; [exact G1|]. split; [exact G2|]. split; [|split].
    + change (num_with_ref 0 (insert_blocks l (<[key := b]> m)) = num_with_ref 0 m). rewrite G3, num_with_ref_insert, !decide_False by (done || lia). lia.
    + change (num_with_ref (-1) (insert_blocks l (<[key := b]> m)) = num_with_ref (-1) m + py_len ((key, b) :: l)).
      rewrite G4, num_with_ref_insert, decide_True, decide_False by done. unfold py_len. simpl. lia.
    + change (slots (insert_blocks l (<[key := b]> m)) ≡ₚ (bs_block_id <$> ((key, b) :: l).*2) ++ slots m). rewrite G5, slots_insert by done. cbn. symmetry. apply Permutation_middle.
Qed.

(** The blocks [keys] with the slots [ids], not ready. *)
Definition writing keys (ids : list Z) : list (OffloadKey * BlockStatus) := zip keys (mkBlockStatus (-1) <$> ids).

Lemma store_keys_spec L m o keys :
  offload_inv L m o → NoDup keys → (∀ key, key ∈ keys → m !! key = None) → py_len keys ≤ _get_num_free_blocks o →
  runs (store_keys keys o) (λ '(spec, o'), offload_inv L (insert_blocks (writing keys spec) m) o' ∧ om_settings o' = om_settings o ∧
    access_counts (om_counters o') = access_counts (om_counters o) ∧ length spec = length keys).
Proof.
  intros Hi Hnd Hk Hfree. unfold store_keys. eapply runs_bind; [apply (om_allocate_spec L m o (py_len keys) Hi); split; [apply py_len_nonneg|done]|].
  intros [blocks o1] (ids & -> & Hlen & Hperm & Halloc & Hset & Hpol & Hcnt).
  assert (Hl : py_len (mkBlockStatus (-1) <$> ids) = py_len keys) by (unfold py_len in *; by rewrite length_fmap).
  rewrite Hl, Z.eqb_refl. cbn [py_assert mbind result_bind]. fold (writing keys ids).
  assert (Hlen' : length ids = length keys) by (unfold py_len in Hlen; lia).
  assert (Hf1 : (writing keys ids).*1 = keys) by (unfold writing; apply fst_zip; rewrite length_fmap; lia).
  assert (Hf2 : (writing keys ids).*2 = mkBlockStatus (-1) <$> ids) by (unfold writing; apply snd_zip; rewrite length_fmap; lia).
  destruct (insert_blocks_spec (writing keys ids) m o1) as (G1 & G2 & G3 & G4 & G5).
  { by rewrite Hf1. } { intros key b Hin. split; [apply Hk; rewrite <-Hf1; change key with (key, b).1; by apply list_elem_of_fmap_2|].
    assert (Hb : b ∈ (writing keys ids).*2) by (change b with (key, b).2; by apply list_elem_of_fmap_2). rewrite Hf2 in Hb. by apply list_elem_of_fmap in Hb as (i & -> & _). }
  { rewrite Hpol. apply Hi. }
  cbv zeta in G1, G2. set (o2 := foldl _ o1 _) in *. cbn [runs]. unfold _get_load_store_spec. rewrite <-list_fmap_compose. change (bs_block_id ∘ mkBlockStatus (-1)) with (λ x : Z, x).
  rewrite list_fmap_id. injection G2 as E1 E2 E3 Ec E4 E5. injection Hset as F1 F2 F3 Fc. injection Hcnt as C1 C2 C3.
  split; [|split; [transitivity (om_settings o2); [done|unfold om_settings; congruence]|split; [cbn; congruence|done]]]. destruct Hi as [I1 I2 I3 I4 I5 I6 I7 I8 I9 I10 I11].
  assert (Hlook : ∀ k, insert_blocks (writing keys ids) m !! k = match od_get (writing keys ids) k with Some b => Some b | None => m !! k end).
  { intros k. apply insert_blocks_lookup. by rewrite Hf1. }
  assert (Hnew : ∀ k b, od_get (writing keys ids) k = Some b → bs_ref_cnt b = -1 ∧ k ∈ keys).
  { intros k b Hb. apply od_get_Some_in in Hb. split; [|rewrite <-Hf1; change k with (k, b).1; by apply list_elem_of_fmap_2].
    assert (Hin : b ∈ (writing keys ids).*2) by (change b with (k, b).2; by apply list_elem_of_fmap_2). rewrite Hf2 in Hin. by apply list_elem_of_fmap in Hin as (i & -> & _). }
  split; cbn; rewrite ?E1, ?E3, ?E4, ?F1, ?F3, ?C1, ?C2, ?C3; try done.
  - intros k b. rewrite Hlook. destruct (od_get _ k) as [b'|] eqn:Hg; [|apply I2]. intros [= <-]. destruct (Hnew k b' Hg) as [Hz Hin]. left. split; [done|].
    intros HL. destruct (I3 k HL) as [b0 Hb0]. rewrite (Hk k Hin) in Hb0. done.
  - intros k HL. rewrite Hlook. destruct (od_get _ k); [by eexists|]. by apply I3.
  - rewrite G5, Hf2, <-list_fmap_compose. change (bs_block_id ∘ mkBlockStatus (-1)) with (λ x : Z, x). by rewrite list_fmap_id.
  - rewrite I8. by rewrite G3.
  - rewrite I9, G4. unfold writing, py_len. rewrite length_zip_with, length_fmap. lia.
Qed.

(** ** Stores *)

Definition store_blocks (out : PrepareStoreOutput) m : gmap OffloadKey BlockStatus :=
  insert_blocks (writing (keys_to_store out) (store_spec out)) (foldr delete m (evicted_keys out)).

Lemma event_inv L m o evs removed : offload_inv L m o → offload_inv L m (om_event evs removed o).
Proof. intros Hi. unfold om_event. destruct evs; [done|]. destruct (om_events o); [|done]. destruct Hi. by split. Qed.

Lemma event_settings o evs removed : om_settings (om_event evs removed o) = om_settings o ∧ om_counters (om_event evs removed o) = om_counters o.
Proof. unfold om_event. destruct evs; [done|]. by destruct (om_events o). Qed.

(** The blocks that are evicted were idle and not among the keys that count; the
    keys that get a slot are those of them that have none. *)
Lemma prepare_store_spec L m o keys :
  offload_inv L m o → NoDup keys →
  runs (prepare_store keys o) (λ '(res, o'), om_settings o' = om_settings o ∧ access_counts (om_counters o') = tracked keys o ∧
    match res with
    | None => offload_inv L m o'
    | Some out => offload_inv L (store_blocks out m) o' ∧ length (store_spec out) = length (keys_to_store out) ∧
        let kept := filter (λ key, counts_accesses o = false ∨ store_threshold o ≤ times_seen o' key) keys in
        keys_to_store out = filter (λ k, m !! k = None) kept ∧ (∀ key, key ∈ evicted_keys out → key ∈ with_ref 0 m ∧ key ∉ kept)
    end).
Proof.
  intros Hi Hnd. unfold prepare_store. eapply runs_bind; [by apply (admitted_spec L m o keys)|]. intros [kept o1] (Hi1 & Hs1 & Hc1 & Hkept).
  assert (Hsub : kept `sublist_of` keys) by (rewrite Hkept; apply sublist_filter).
  assert (Hcounts : ∀ o', access_counts (om_counters o') = access_counts (om_counters o1) →
    filter (λ key, counts_accesses o = false ∨ store_threshold o ≤ times_seen o' key) keys = kept).
  { intros o' E. rewrite Hkept. apply list_filter_iff. intros k. unfold times_seen. by rewrite E. }
  rewrite <-Hc1. clear Hc1 Hkept.
  cbv zeta. assert (Hf : filter (λ k, cp_get k (om_policy o1) = None) kept = filter (λ k, m !! k = None) kept).
  { apply list_filter_iff. intros k. by rewrite (get_block _ _ _ k Hi1). }
  rewrite Hf. clear Hf. set (to_store := filter (λ k, m !! k = None) kept).
  assert (Hnew : ∀ key, key ∈ to_store → m !! key = None) by (intros key Hk; by apply list_elem_of_filter in Hk as [? _]).
  assert (Hnd' : NoDup to_store) by (apply NoDup_filter; by eapply sublist_NoDup).
  destruct to_store as [|key0 keys0] eqn:Hto.
  { cbn [runs]. split; [done|]. split; [done|]. split; [done|]. split; [done|]. rewrite Hcounts by done. split; [done|]. by intros ? ?%elem_of_nil. }
  set (o2 := map_counters _ o1). assert (Hi2 : offload_inv L m o2) by (apply set_counts_inv; [done|done|cbn; apply (of_counts _ _ _ Hi1)]).
  assert (Hs2 : om_settings o2 = om_settings o1) by done. assert (Hc2 : access_counts (om_counters o2) = access_counts (om_counters o1)) by done.
  clearbody o2. rewrite <-Hto in Hnew, Hnd' |- *. set (missing := py_len to_store - _get_num_free_blocks o2).
  eapply runs_bind; [by apply (make_room_spec L m o2 missing kept)|]. intros [[ev|] o3] (Hs3 & Ha3 & Hc3 & Hrest).
  - destruct Hrest as (Hi3 & Hlen & Hnde & Hidle & Hfree). destruct (event_settings o3 ev true) as [E1 E2]. eapply runs_bind.
    + apply (store_keys_spec L (foldr delete m ev) (om_event ev true o3) to_store); [by apply event_inv|done| |].
      * intros key Hk. rewrite lookup_remove_keys. destruct (decide (key ∈ ev)); [done|]. by apply Hnew.
      * injection E1 as E3 _ _ _. injection Hs3 as S3 _ _ _.
        unfold _get_num_free_blocks. rewrite E2, E3, Hfree, Ha3, S3. subst missing. unfold _get_num_free_blocks in Hlen. lia.
    + intros [spec o4] (Hi4 & Hs4 & Hc4 & Hl4). cbn [runs]. rewrite E2 in Hc4. assert (Hc5 : access_counts (om_counters o4) = access_counts (om_counters o1)) by congruence.
      split; [congruence|]. split; [done|]. split; [done|]. split; [done|]. rewrite Hcounts by done. by split.
  - cbn [runs]. destruct Hrest as [Hi3 _]. split; [congruence|]. split; [congruence|done].
Qed.

Definition finish_block key m : gmap OffloadKey BlockStatus :=
  match m !! key with Some b => if is_ready b then m else <[key := set_ref_cnt 0 b]> m | None => m end.
Definition abort_block key m : gmap OffloadKey BlockStatus :=
  match m !! key with Some b => if is_ready b then m else delete key m | None => m end.
Definition finish_store keys (success : bool) m : gmap OffloadKey BlockStatus :=
  foldl (λ m key, (if success then finish_block else abort_block) key m) m keys.

Lemma not_ready_ref L m o key b : offload_inv L m o → m !! key = Some b → is_ready b = false → bs_ref_cnt b = -1 ∧ loads key L = 0.
Proof.
  intros Hi Hb. unfold is_ready. rewrite Z.leb_gt. pose proof (loads_nonneg key L). destruct (of_refs _ _ _ Hi key b Hb) as [[H1 Hn]|H1]; [|lia].
  rewrite loads_in in Hn. lia.
Qed.

Lemma complete_store_one_spec L m o key stored :
  offload_inv L m o → let o' := (complete_store_one (stored, o) key).2 in offload_inv L (finish_block key m) o' ∧ om_settings o' = om_settings o.
Proof.
  intros Hi. unfold complete_store_one, finish_block. rewrite (get_block _ _ _ _ Hi). destruct (m !! key) as [b|] eqn:Hb; [|done].
  destruct (is_ready b) eqn:Hr; [done|]. destruct (not_ready_ref _ _ _ _ _ Hi Hb Hr) as [Hz Hn]. cbv zeta. cbn [snd]. split; [|done].
  assert (Hbn : bs_ref_cnt (set_ref_cnt 0 b) = 0) by (apply ref_cnt_set; lia).
  apply (change_ref L L m o _ key b 0 Hi Hb); [lia|done|lia| |done| |].
  - rewrite with_ref_insert, Hbn, decide_True by done. cbn. apply rep_mark; [|rewrite lookup_insert_eq; by eexists|].
    + apply rep_update; [apply Hi|by eexists].
    + rewrite elem_of_with_ref. intros (b' & ? & ?). assert (b' = b) as -> by congruence. lia.
  - cbn. rewrite Hz. done.
  - cbn. rewrite Hz. done.
Qed.

Lemma fail_store_one_spec L m o key :
  offload_inv L m o → runs (fail_store_one o key) (λ o', offload_inv L (abort_block key m) o' ∧ om_settings o' = om_settings o).
Proof.
  intros Hi. unfold fail_store_one, abort_block. rewrite (get_block _ _ _ _ Hi). destruct (m !! key) as [b|] eqn:Hb; [|done].
  destruct (is_ready b) eqn:Hr; [done|]. destruct (not_ready_ref _ _ _ _ _ Hi Hb Hr) as [Hz Hn]. cbv zeta.
  eapply runs_bind; [by apply (rep_remove m (with_ref 0 m) (om_policy o) key (of_rep _ _ _ Hi)); eexists|]. intros p Hp. cbn [runs]. split; [|done].
  assert (Hin : ∀ n, key ∈ with_ref n m ↔ n = -1).
  { intros n. rewrite elem_of_with_ref. split; [intros (b' & ? & <-); by assert (b' = b) as -> by congruence|]. intros ->. by exists b. }
  destruct Hi as [I1 I2 I3 I4 I5 I6 I7 I8 I9 I10 I11]. split; cbn; try done.
  - by rewrite with_ref_delete.
  - intros k b'. rewrite lookup_delete_Some. intros [_ ?]. by apply I2.
  - intros k Hk. rewrite lookup_delete_ne; [by apply I3|]. intros <-. apply loads_in in Hk. lia.
  - rewrite <-I5, (slots_delete m key b Hb), <-app_assoc. done.
  - rewrite I8, num_with_ref_delete, decide_False; [lia|]. rewrite Hin. lia.
  - rewrite I9, num_with_ref_delete, decide_True; [lia|]. by rewrite Hin.
Qed.

Lemma complete_store_spec L m o keys success :
  offload_inv L m o → runs (complete_store keys success o) (λ o', offload_inv L (finish_store keys success m) o' ∧ om_settings o' = om_settings o).
Proof.
  intros Hi. unfold complete_store. destruct success.
  - generalize ([] : list OffloadKey) as stored. revert m o Hi. induction keys as [|key keys IH]; intros m o Hi stored; cbn [foldl finish_store].
    + cbn [runs]. split; [by apply event_inv|]. apply event_settings.
    + destruct (complete_store_one_spec L m o key stored Hi) as [Hi1 Hs1]. destruct (complete_store_one (stored, o) key) as [stored1 o1]. cbn [snd] in *.
      eapply runs_mono; [by apply (IH (finish_block key m) o1)|]. intros o' [? ?]. split; [done|congruence].
  - revert m o Hi. induction keys as [|key keys IH]; intros m o Hi; cbn [foldM]; [done|].
    eapply runs_bind; [by apply (fail_store_one_spec L m o key)|]. intros o1 [Hi1 Hs1]. eapply runs_mono; [by apply (IH (abort_block key m) o1)|].
    intros o' [? ?]. split; [done|congruence].
Qed.

(** ** The other operations *)

Lemma reset_spec L m o : offload_inv L m o → offload_inv [] ∅ (om_reset_cache o) ∧ om_settings (om_reset_cache o) = om_settings o.
Proof.
  intros [I1 I2 I3 I4 I5 I6 I7 I8 I9 I10 I11]. split; [|done]. split; cbn; try done.
  - rewrite with_ref_empty. by eapply rep_clear.
  - intros key. by rewrite elem_of_nil.
  - lia.
  - unfold num_with_ref. rewrite with_ref_empty, size_empty. lia.
  - unfold num_with_ref. rewrite with_ref_empty, size_empty. lia.
Qed.

Lemma take_events_spec L m o : offload_inv L m o → offload_inv L m (om_take_events o).2 ∧ om_settings (om_take_events o).2 = om_settings o.
Proof. intros Hi. unfold om_take_events. destruct (om_events o); [|done]. destruct Hi. split; [by split|done]. Qed.

Lemma usage_runs n o : runs (usage_of n o) (λ q, q = if 0 <? om_num_blocks o then round_double (inject_Z n / inject_Z (om_num_blocks o)) else 0%Q).
Proof.
  unfold usage_of. destruct (Z.ltb_spec 0 (om_num_blocks o)) as [Hp|Hp]; [|done]. unfold true_div. by rewrite (proj2 (Z.eqb_neq _ 0)) by lia.
Qed.

(** The share of blocks in use, and of those that are being written. *)
Definition share (n : Z) o : py_float := if 0 <? om_num_blocks o then round_double (inject_Z n / inject_Z (om_num_blocks o)) else 0%Q.
Definition busy_blocks m : Z := Z.of_nat (size m) - num_with_ref 0 m.

Lemma slots_length m : length (slots m) = size m.
Proof. unfold slots. rewrite !length_fmap. apply length_map_to_list. Qed.

Lemma used_blocks L m o : offload_inv L m o → num_allocated_blocks (om_counters o) - py_len (om_free_list (om_counters o)) = Z.of_nat (size m).
Proof.
  intros Hi. pose proof (f_equal Z.of_nat (Permutation_length (of_slots _ _ _ Hi))) as Hl. pose proof (of_allocated _ _ _ Hi).
  rewrite length_app, slots_length in Hl. pose proof (length_py_range 0 (num_allocated_blocks (om_counters o))). unfold py_len in *. lia.
Qed.

Lemma get_stats_spec L m o : offload_inv L m o → runs (get_stats o) (λ '(stats, o'), offload_inv L m o' ∧ om_settings o' = om_settings o ∧
  CPU_CACHE_USAGE_PERC stats = share (busy_blocks m) o ∧ CPU_CACHE_WRITE_USAGE_PERC stats = share (num_with_ref (-1) m) o).
Proof.
  intros Hi. unfold get_stats. cbv zeta. eapply runs_bind; [apply usage_runs|]. intros usage Hu. eapply runs_bind; [apply usage_runs|]. intros w Hw. cbn [runs].
  split; [|split; [by destruct (_ <=? _)|]].
  - apply set_counts_inv; [done| |]; [intros c|]; destruct (_ <=? _); try done; cbn; apply (of_counts _ _ _ Hi).
  - cbn. rewrite (used_blocks _ _ _ Hi), (of_evictable _ _ _ Hi) in Hu. rewrite (of_pending _ _ _ Hi) in Hw. by subst.
Qed.

Lemma new_manager_inv n events threshold size : 0 ≤ n < 2 ^ 63 → 1 ≤ size → offload_inv [] ∅ (new_offloading_manager n events threshold size).
Proof.
  intros Hn Hs. split; cbn; try done.
  - rewrite with_ref_empty. apply rep_new. lia.
  - by intros key ?%elem_of_nil.
  - lia.
  - lia.
  - intros l. destruct (_ <=? _); [|done]. intros [= <-]. constructor.
Qed.
End Spec.
