(* ===== verification/OffloadRun.v ===== *)
(** * Offloading: sequences of calls

    The calls of the offloading scheduler as the steps of a machine, the theorems
    that hold in every reachable state under every cache policy that keeps
    [CachePolicyLaws], what LRU adds, and runs of both policies. *)

From S2P Require Import Prelude BlockHash OffloadPolicy Offload OffloadSpec.
From Stdlib Require Import QArith.
Local Open Scope Z_scope.

(** ** The machine *)

Inductive offload_op : Type :=
  | OTouch (keys : list OffloadKey)
  | OPrepareLoad (keys : list OffloadKey)
  | OCompleteLoad (keys : list OffloadKey)
  | OPrepareStore (keys : list OffloadKey)
  | OCompleteStore (keys : list OffloadKey) (success : bool)
  | OResetCache
  | OTakeEvents
  | OGetStats.

#[export] Instance lookup_result_eq_dec : EqDecision LookupResult.
Proof. solve_decision. Defined.
#[export] Instance offload_op_eq_dec : EqDecision offload_op.
Proof. solve_decision. Defined.

(** The loads of [L] without those of [keys]. *)
Fixpoint end_load (key : OffloadKey) (L : list OffloadKey) : list OffloadKey :=
  match L with [] => [] | k :: L => if decide (k = key) then L else k :: end_load key L end.
Definition end_loads (keys L : list OffloadKey) : list OffloadKey := foldl (λ L key, end_load key L) L keys.

Lemma end_load_perm key L : key ∈ L → L ≡ₚ key :: end_load key L.
Proof.
  induction L as [|k L IH]; [by intros ?%elem_of_nil|]. cbn [end_load]. intros Hk. case_decide as Hd; [by subst|].
  rewrite (IH ltac:(apply elem_of_cons in Hk as [?|?]; [congruence|done])) at 1. apply Permutation_swap.
Qed.

Lemma end_loads_perm keys : ∀ L, keys ⊆+ L → L ≡ₚ keys ++ end_loads keys L.
Proof.
  induction keys as [|key keys IH]; intros L Hs; [done|]. apply submseteq_cons_l in Hs as (L' & Hp & Hs).
  assert (Hk : key ∈ L) by (rewrite Hp; left). pose proof (end_load_perm key L Hk) as He. rewrite He at 1. cbn. constructor. apply IH.
  rewrite He in Hp. apply Permutation_cons_inv in Hp. by rewrite Hp.
Qed.

(** The loads in flight are those the caller was given and has not completed. *)
Record OffloadState (C : Type) : Type := mkOffloadState { os_loads : list OffloadKey; os_manager : CPUOffloadingManager C }.
Arguments mkOffloadState {C} _ _.
Arguments os_loads {C} _.
Arguments os_manager {C} _.

Section Machine.
Context {C : Type} `{!CachePolicy C}.
Implicit Types (o : CPUOffloadingManager C) (s : OffloadState C) (keys : list OffloadKey) (key : OffloadKey).

Definition offload_call (op : offload_op) o : result (CPUOffloadingManager C) :=
  match op with
  | OTouch keys => om_touch keys o
  | OPrepareLoad keys => '(_, o) ← prepare_load keys o; Ok o
  | OCompleteLoad keys => complete_load keys o
  | OPrepareStore keys => '(_, o) ← prepare_store keys o; Ok o
  | OCompleteStore keys success => complete_store keys success o
  | OResetCache => Ok (om_reset_cache o)
  | OTakeEvents => Ok (om_take_events o).2
  | OGetStats => '(_, o) ← get_stats o; Ok o
  end.

Definition loads_after (op : offload_op) (L : list OffloadKey) : list OffloadKey :=
  match op with
  | OPrepareLoad keys => keys ++ L
  | OCompleteLoad keys => end_loads keys L
  | OResetCache => []
  | _ => L
  end.

Definition offload_step (op : offload_op) s : result (OffloadState C) :=
  o ← offload_call op (os_manager s); Ok (mkOffloadState (loads_after op (os_loads s)) o).

(** Loads are prepared for keys that were looked up, at most 2^31 at a time of
    one block, and completed once; the keys of a store differ. *)
Definition offload_permitted (op : offload_op) s : bool :=
  match op with
  | OPrepareLoad keys => bool_decide (Forall (λ key, om_lookup key (os_manager s) = HIT ∧ loads key (keys ++ os_loads s) < 2 ^ 31) keys)
  | OCompleteLoad keys => bool_decide (keys ⊆+ os_loads s)
  | OPrepareStore keys => bool_decide (NoDup keys)
  | _ => true
  end.

Definition new_offload_state (num_blocks : Z) (events : bool) (threshold tracker_size : Z) : OffloadState C :=
  mkOffloadState [] (new_offloading_manager num_blocks events threshold tracker_size).

Inductive offload_reachable (s0 : OffloadState C) : OffloadState C → Prop :=
  | offload_start : offload_reachable s0 s0
  | offload_next s op s' : offload_reachable s0 s → offload_permitted op s = true → offload_step op s = Ok s' → offload_reachable s0 s'.

(** A sequence of permitted calls. *)
Definition offload_run (ops : list offload_op) s : result (OffloadState C) :=
  foldM (λ s op, if offload_permitted op s then offload_step op s else Err ValueError) s ops.

Lemma offload_run_reachable s0 ops s : offload_run ops s0 = Ok s → offload_reachable s0 s.
Proof.
  unfold offload_run. assert (Hg : ∀ s1, offload_reachable s0 s1 → foldM (λ s op, if offload_permitted op s then offload_step op s else Err ValueError) s1 ops = Ok s → offload_reachable s0 s).
  { induction ops as [|op ops IH]; intros s1 H1; cbn [foldM]; [by intros [= <-]|]. destruct (offload_permitted op s1) eqn:Hp; [|done].
    destruct (offload_step op s1) as [s2|] eqn:Hs; [|done]. cbn. apply IH. by eapply offload_next. }
  apply Hg. apply offload_start.
Qed.

(** A load of the block is in flight, or it is still being written. *)
Definition busy key s : Prop := key ∈ os_loads s ∨ om_lookup key (os_manager s) = HIT_PENDING.
Definition slot_of key o : option Z := bs_block_id <$> cp_get key (om_policy o).

(** The calls that give up blocks which are in use: a reset, and the end of a
    store that failed. *)
Definition gives_up (op : offload_op) key s : Prop :=
  match op with
  | OResetCache => True
  | OCompleteStore keys false => key ∈ keys ∧ key ∉ os_loads s
  | _ => False
  end.
End Machine.

(** ** What one call does to the slots *)

Section Safe.
Context {C : Type} `{!CachePolicy C, !CachePolicyLaws C}.
Implicit Types (o : CPUOffloadingManager C) (s : OffloadState C) (m : gmap OffloadKey BlockStatus) (keys : list OffloadKey) (key : OffloadKey).

Definition slot_in key m : option Z := bs_block_id <$> m !! key.

Lemma load_blocks_slot keys key : ∀ m, slot_in key (load_blocks keys m) = slot_in key m.
Proof. induction keys as [|k keys IH]; intros m; [done|]. cbn [load_blocks foldl]. fold (load_blocks keys (load_block k m)). rewrite IH. apply load_block_slot. Qed.

Lemma unload_blocks_slot keys key : ∀ m, slot_in key (unload_blocks keys m) = slot_in key m.
Proof.
  induction keys as [|k keys IH]; intros m; [done|]. cbn [unload_blocks foldl]. fold (unload_blocks keys (unload_block k m)). rewrite IH.
  unfold slot_in, unload_block. destruct (decide (key = k)) as [->|Hne]; [rewrite lookup_alter_eq|by rewrite lookup_alter_ne]. by destruct (m !! k).
Qed.

Lemma writing_lookup keys ids key b : od_get (writing keys ids) key = Some b → key ∈ keys ∧ bs_ref_cnt b = -1.
Proof.
  intros Hg%od_get_Some_in. unfold writing in Hg. apply list_elem_of_lookup in Hg as [i Hi]. apply lookup_zip_with_Some in Hi as (k & b' & [= -> ->] & Hk & Hb).
  split; [by eapply list_elem_of_lookup_2|]. apply list_lookup_fmap_Some in Hb as (id & -> & _). done.
Qed.

Lemma writing_keys keys (ids : list Z) : length ids = length keys → (writing keys ids).*1 = keys.
Proof. intros Hl. unfold writing. apply fst_zip. rewrite length_fmap. lia. Qed.

Lemma writing_get keys (ids : list Z) i key id : NoDup keys → length ids = length keys → keys !! i = Some key → ids !! i = Some id →
  od_get (writing keys ids) key = Some (mkBlockStatus (-1) id).
Proof.
  intros Hnd Hl Hk Hid. apply od_get_In; [unfold od_keys; by rewrite writing_keys|]. apply list_elem_of_lookup. exists i. unfold writing.
  apply lookup_zip_with_Some. exists key, (mkBlockStatus (-1) id). split_and!; [done|done|]. by rewrite list_lookup_fmap, Hid.
Qed.

(** A store changes the keys it evicts and those it stores. *)
Lemma store_blocks_lookup m out key :
  NoDup (keys_to_store out) → length (store_spec out) = length (keys_to_store out) →
  store_blocks out m !! key = match od_get (writing (keys_to_store out) (store_spec out)) key with
                              | Some b => Some b
                              | None => if decide (key ∈ evicted_keys out) then None else m !! key
                              end.
Proof. intros Hnd Hl. unfold store_blocks. rewrite insert_blocks_lookup by by rewrite writing_keys. by rewrite lookup_remove_keys. Qed.

Lemma finish_store_slot keys key (success : bool) : ∀ m, success = true ∨ key ∉ keys ∨ (∃ b, m !! key = Some b ∧ is_ready b = true) →
  slot_in key (finish_store keys success m) = slot_in key m.
Proof.
  induction keys as [|k keys IH]; intros m Hc; [done|]. cbn [finish_store foldl]. set (m1 := (if success then finish_block else abort_block) k m).
  assert (Hs : slot_in key m1 = slot_in key m ∧ (∀ b, m !! key = Some b → is_ready b = true → m1 !! key = Some b)).
  { subst m1. unfold finish_block, abort_block, slot_in. destruct (decide (key = k)) as [->|Hne].
    - destruct success; (destruct (m !! k) as [b|] eqn:Hb; [|by rewrite Hb]); (destruct (is_ready b) eqn:Hr; [by rewrite Hb|]).
      + rewrite lookup_insert_eq. split; [done|]. intros b' [= <-] ?. congruence.
      + exfalso. destruct Hc as [Hc|[Hc|(b' & ? & ?)]]; [done|by destruct Hc; left|congruence].
    - destruct success; (destruct (m !! k) as [b|]; [|done]); (destruct (is_ready b); [done|]); by rewrite ?lookup_insert_ne, ?lookup_delete_ne by done. }
  destruct Hs as [Hs Hr]. rewrite <-Hs. apply IH. destruct Hc as [Hc|[Hc|(b & Hb & Hc)]]; [by left|right; left|right; right; exists b; auto].
  by apply not_elem_of_cons in Hc as [_ ?].
Qed.

(** *** A permitted call *)

Lemma offload_step_spec m op s :
  offload_inv (os_loads s) m (os_manager s) → offload_permitted op s = true →
  runs (offload_step op s) (λ s', ∃ m', offload_inv (os_loads s') m' (os_manager s') ∧ om_settings (os_manager s') = om_settings (os_manager s) ∧
    ∀ key, busy key s → ¬ gives_up op key s → slot_in key m' = slot_in key m).
Proof.
  destruct s as [L o]. intros Hi Hp. unfold offload_step. cbn [os_loads os_manager] in *.
  cut (runs (offload_call op o) (λ o', ∃ m', offload_inv (loads_after op L) m' o' ∧ om_settings o' = om_settings o ∧
    ∀ key, busy key (mkOffloadState L o) → ¬ gives_up op key (mkOffloadState L o) → slot_in key m' = slot_in key m)).
  { intros Hr. eapply runs_bind; [exact Hr|]. by intros o' Ho'. }
  destruct op as [keys|keys|keys|keys|keys success| | |]; cbn [offload_call loads_after offload_permitted os_loads os_manager] in *.
  - eapply runs_mono; [by apply (om_touch_spec L m)|]. intros o' [? ?]. by exists m.
  - apply bool_decide_eq_true in Hp. rewrite Forall_forall in Hp. eapply runs_bind; [apply (prepare_load_spec L m o keys Hi)|].
    + intros key Hk. by apply Hp.
    + intros key. destruct (decide (key ∈ keys)) as [Hk|Hk]; [by apply Hp|]. rewrite loads_app. pose proof (of_small _ _ _ Hi key).
      rewrite loads_in in Hk. pose proof (loads_nonneg key keys). lia.
    + intros [spec o'] (Hi' & Hs' & _). cbn [runs]. exists (load_blocks keys m). split_and!; [done|done|]. intros. apply load_blocks_slot.
  - apply bool_decide_eq_true in Hp. apply end_loads_perm in Hp.
    eapply runs_mono; [apply (complete_load_spec keys (end_loads keys L) m); by eapply offload_inv_perm|]. intros o' [? ?]. exists (unload_blocks keys m).
    split_and!; [done|done|]. intros. apply unload_blocks_slot.
  - apply bool_decide_eq_true in Hp. eapply runs_bind; [by apply (prepare_store_spec L m o keys)|]. intros [[out|] o'] (Hs' & _ & Hrest); cbn [runs]; [|by exists m].
    destruct Hrest as (Hi' & Hlen & Hto & Hev). exists (store_blocks out m). split_and!; [done|done|]. intros key Hbusy _.
    assert (Hb : ∃ b, m !! key = Some b ∧ bs_ref_cnt b ≠ 0).
    { destruct Hbusy as [HL|HL]; cbn in HL.
      - destruct (of_loads _ _ _ Hi key HL) as [b Hb]. exists b. split; [done|]. pose proof HL as HL'. rewrite loads_in in HL'.
        destruct (of_refs _ _ _ Hi key b Hb) as [[_ ?]|?]; [done|lia].
      - unfold om_lookup in HL. rewrite (get_block _ _ _ _ Hi) in HL. destruct (m !! key) as [b|] eqn:Hb; [|done]. exists b. split; [done|].
        destruct (is_ready b) eqn:Hr; [done|]. destruct (not_ready_ref _ _ _ _ _ Hi Hb Hr). lia. }
    destruct Hb as (b & Hb & Hz). unfold slot_in. rewrite store_blocks_lookup by (done || (rewrite Hto; by do 2 apply NoDup_filter)).
    destruct (od_get _ key) as [b'|] eqn:Hg.
    { apply writing_lookup in Hg as [Hg _]. rewrite Hto in Hg. apply list_elem_of_filter in Hg as [Hg _]. congruence. }
    rewrite decide_False; [done|]. intros Hk. destruct (Hev key Hk) as [(b' & ? & ?)%elem_of_with_ref _]. congruence.
  - eapply runs_mono; [by apply (complete_store_spec L m)|]. intros o' [? ?]. exists (finish_store keys success m). split_and!; [done|done|].
    intros key Hbusy Hg. apply finish_store_slot. destruct success; [by left|]. right. cbn in Hg.
    destruct (decide (key ∈ keys)) as [Hk|Hk]; [right|by left]. assert (HL : key ∈ L) by (destruct (decide (key ∈ L)); [done|]; by destruct Hg).
    destruct (of_loads _ _ _ Hi key HL) as [b Hb]. exists b. split; [done|]. apply (ready_ref _ _ _ _ _ Hi Hb).
    destruct (of_refs _ _ _ Hi key b Hb) as [[_ ?]|?]; [done|done].
  - cbn [runs]. exists ∅. destruct (reset_spec L m o Hi). split_and!; [done|done|]. intros key _ []. done.
  - cbn [runs]. exists m. destruct (take_events_spec L m o Hi). by split_and!.
  - eapply runs_bind; [by apply (get_stats_spec L m)|]. intros [st o'] (? & ? & _). cbn [runs]. by exists m.
Qed.

Lemma offload_reachable_inv n events threshold size s :
  0 ≤ n < 2 ^ 63 → 1 ≤ size → offload_reachable (new_offload_state n events threshold size) s →
  (∃ m, offload_inv (os_loads s) m (os_manager s)) ∧ om_settings (os_manager s) = (n, threshold, size, 2 <=? threshold).
Proof.
  intros Hn Hs Hr. induction Hr as [|s op s' Hr [[m IH] IHs] Hp Hop]; [split; [exists ∅; by apply new_manager_inv|]|].
  { unfold om_settings, counts_accesses. cbn. by destruct (2 <=? threshold). }
  pose proof (offload_step_spec m op s IH Hp) as Hrun. rewrite Hop in Hrun. destruct Hrun as (m' & ? & ? & _). split; [by exists m'|congruence].
Qed.

(** *** The properties *)

(** A manager that serves [num_blocks] slots, after any permitted calls. *)
Definition offload_serving (num_blocks threshold : Z) s : Prop :=
  0 ≤ num_blocks < 2 ^ 63 ∧ ∃ events size, 1 ≤ size ∧ offload_reachable (new_offload_state num_blocks events threshold size) s.

Lemma serving_inv n threshold s : offload_serving n threshold s →
  (∃ m, offload_inv (os_loads s) m (os_manager s)) ∧ om_num_blocks (os_manager s) = n ∧ counts_accesses (os_manager s) = (2 <=? threshold) ∧ store_threshold (os_manager s) = threshold.
Proof. intros (Hn & events & size & Hs & Hr). destruct (offload_reachable_inv n events threshold size s Hn Hs Hr) as [? [= -> -> _ ->]]. done. Qed.

(** C27: no permitted call of the offloading manager fails, whatever policy it uses
    and whatever was called before: no assertion, no missing key, no empty
    list. *)
Theorem offload_calls_succeed n threshold s op :
  offload_serving n threshold s → offload_permitted op s = true → ∃ s', offload_step op s = Ok s' ∧ offload_serving n threshold s'.
Proof.
  intros Hs Hp. destruct (serving_inv _ _ _ Hs) as [[m Hi] _]. pose proof (offload_step_spec m op s Hi Hp) as Hr.
  apply runs_Ok in Hr as (s' & Hop & _). exists s'. split; [done|]. destruct Hs as (Hn & events & size & Hsize & Hr). split; [done|].
  exists events, size. split; [done|]. by eapply offload_next.
Qed.

(** C29: in every reachable state the fields of the blocks are within the widths of
    the ctypes structure, different blocks have different slots of the cache,
    none of them free, the free slots add up, the reference count of a block
    is -1 or the number of its loads in flight, and both counters are right. *)
Theorem offload_blocks_typed n threshold s :
  offload_serving n threshold s →
  let o := os_manager s in let c := om_counters o in
  ∃ m, (∀ key, cp_get key (om_policy o) = m !! key) ∧
    (∀ key b, m !! key = Some b → 0 ≤ bs_block_id b < n ∧ -1 ≤ bs_ref_cnt b < 2 ^ 31 ∧ (bs_block_id b ∉ om_free_list c) ∧
      ((bs_ref_cnt b = -1 ∧ key ∉ os_loads s) ∨ bs_ref_cnt b = loads key (os_loads s))) ∧
    (∀ key1 key2 b1 b2, m !! key1 = Some b1 → m !! key2 = Some b2 → bs_block_id b1 = bs_block_id b2 → key1 = key2) ∧
    (∀ key, key ∈ os_loads s → om_lookup key o = HIT) ∧
    _get_num_free_blocks o = n - Z.of_nat (size m) ∧
    num_evictable_cache_blocks c = num_with_ref 0 m ∧ num_write_pending_blocks c = num_with_ref (-1) m.
Proof.
  intros Hs o c. destruct (serving_inv _ _ _ Hs) as ([m Hi] & Hnb & _). fold o in Hi, Hnb. exists m.
  assert (Hnd : NoDup (om_free_list c ++ slots m)) by (subst c; rewrite (of_slots _ _ _ Hi); unfold py_range; apply NoDup_fmap_2; [intros x y ?; lia|apply NoDup_seq]).
  apply NoDup_app in Hnd as (_ & Hfree & Hslots). pose proof (of_allocated _ _ _ Hi) as Halloc.
  assert (Hin : ∀ key b, m !! key = Some b → bs_block_id b ∈ slots m).
  { intros key b Hb. unfold slots. apply list_elem_of_fmap. exists b. split; [done|]. apply list_elem_of_fmap. exists (key, b). split; [done|]. by apply elem_of_map_to_list. }
  split; [intros key; by eapply get_block|]. split; [|split; [|split; [|split; [|split; apply Hi]]]].
  - intros key b Hb. pose proof (of_refs _ _ _ Hi key b Hb) as Href. pose proof (of_small _ _ _ Hi key). pose proof (loads_nonneg key (os_loads s)).
    assert (Hr : bs_block_id b ∈ py_range 0 (num_allocated_blocks c)).
    { subst c. rewrite <-(of_slots _ _ _ Hi). apply elem_of_app. right. by eapply Hin. }
    apply elem_of_py_range in Hr. subst c. split_and!; try lia; [|done]. intros Hf. by apply (Hfree _ Hf), (Hin key).
  - apply slots_inj. done.
  - intros key Hk. unfold om_lookup. rewrite (get_block _ _ _ key Hi). destruct (of_loads _ _ _ Hi key Hk) as [b Hb]. rewrite Hb.
    destruct (of_refs _ _ _ Hi key b Hb) as [[_ ?]|Href]; [done|]. apply (ready_ref _ _ _ _ _ Hi Hb) in Href. by rewrite Href.
  - unfold _get_num_free_blocks. pose proof (used_blocks _ _ _ Hi). lia.
Qed.

(** C28: no transfer loses its block: while a load of a block is in flight or the
    block is being written, it keeps its slot whatever is called, unless that
    store is reported to have failed or the cache is reset. *)
Theorem busy_block_keeps_slot n threshold s op s' key :
  offload_serving n threshold s → offload_permitted op s = true → offload_step op s = Ok s' →
  busy key s → ¬ gives_up op key s →
  is_Some (slot_of key (os_manager s)) ∧ slot_of key (os_manager s') = slot_of key (os_manager s).
Proof.
  intros Hs Hp Hop Hbusy Hg. destruct (serving_inv _ _ _ Hs) as [[m Hi] _]. pose proof (offload_step_spec m op s Hi Hp) as Hr. rewrite Hop in Hr.
  destruct Hr as (m' & Hi' & _ & Hslot). unfold slot_of. rewrite (get_block _ _ _ key Hi), (get_block _ _ _ key Hi'). split; [|by apply Hslot].
  rewrite fmap_is_Some. destruct Hbusy as [HL|HL]; [by apply (of_loads _ _ _ Hi)|]. unfold om_lookup in HL. rewrite (get_block _ _ _ key Hi) in HL.
  destruct (m !! key); [by eexists|done].
Qed.

(** C30: [prepare_store] counts an access to each of the keys, and no other, as far
    as the tracker has room.  The keys that count are those whose recorded count
    reaches the threshold, all of them without a threshold: each that is not
    stored is given a slot, not ready yet; what is evicted was idle and is no key
    that counts; every other block stays as it is, all of them when the answer is
    [None]. *)
Theorem prepare_store_correct n threshold s keys :
  offload_serving n threshold s → NoDup keys →
  let o := os_manager s in
  runs (prepare_store keys o) (λ '(res, o'), access_counts (om_counters o') = tracked keys o ∧
    (∀ counts key, access_counts (om_counters o) = Some counts → py_len counts + py_len keys ≤ max_tracker_size o →
       times_seen o' key = times_seen o key + (if decide (key ∈ keys) then 1 else 0)) ∧
    match res with
    | None => ∀ key, cp_get key (om_policy o') = cp_get key (om_policy o)
    | Some out =>
        let kept := filter (λ key, threshold < 2 ∨ threshold ≤ times_seen o' key) keys in
        keys_to_store out = filter (λ key, cp_get key (om_policy o) = None) kept ∧
        Forall2 (λ key id, cp_get key (om_policy o') = Some (mkBlockStatus (-1) id)) (keys_to_store out) (store_spec out) ∧
        (∀ key, key ∈ evicted_keys out → om_lookup key o = HIT ∧ (key ∉ os_loads s) ∧ (key ∉ kept) ∧ om_lookup key o' = MISS) ∧
        (∀ key, key ∉ keys_to_store out → key ∉ evicted_keys out → cp_get key (om_policy o') = cp_get key (om_policy o))
    end).
Proof.
  intros Hs Hnd o. destruct (serving_inv _ _ _ Hs) as ([m Hi] & _ & Hcount & Hthr). fold o in Hi, Hcount, Hthr.
  eapply runs_mono; [by apply (prepare_store_spec (os_loads s) m o keys Hi)|]. intros [res o'] (Hset & Htracked & Hrest).
  split; [done|]. split.
  { intros counts key Hc Hroom. unfold times_seen. rewrite Htracked. unfold tracked. rewrite Hc.
    apply note_all_get; [apply (of_tracker _ _ _ Hi)|by apply (of_counts _ _ _ Hi)|done|done]. }
  destruct res as [out|].
  - destruct Hrest as (Hi' & Hlen & Hto & Hev). cbv zeta in Hto, Hev |- *.
    assert (E : filter (λ key, counts_accesses o = false ∨ store_threshold o ≤ times_seen o' key) keys =
      filter (λ key, threshold < 2 ∨ threshold ≤ times_seen o' key) keys).
    { apply list_filter_iff. intros key. rewrite Hcount, Hthr, Z.leb_gt. done. }
    rewrite E in Hto, Hev. clear E. set (kept := filter (λ key, threshold < 2 ∨ _) keys) in *.
    assert (Hndt : NoDup (keys_to_store out)) by (rewrite Hto; by do 2 apply NoDup_filter).
    pose proof (λ key, store_blocks_lookup m out key Hndt Hlen) as Hlook.
    split; [|split; [|split]].
    + rewrite Hto. apply list_filter_iff. intros key. by rewrite (get_block _ _ _ key Hi).
    + apply Forall2_same_length_lookup_2; [done|]. intros i key id Hk Hid. rewrite (get_block _ _ _ key Hi'), Hlook. by rewrite (writing_get _ _ i key id).
    + intros key Hk. destruct (Hev key Hk) as [(b & Hb & Hz)%elem_of_with_ref Hkept]. unfold om_lookup.
      rewrite (get_block _ _ _ key Hi), (get_block _ _ _ key Hi'), Hb, Hlook. unfold is_ready. rewrite Hz. split; [done|].
      assert (Hload : key ∉ os_loads s) by (rewrite loads_in; destruct (of_refs _ _ _ Hi key b Hb) as [[? _]|?]; lia).
      split; [done|]. split; [done|]. rewrite (decide_True (P := key ∈ evicted_keys out)) by done.
      destruct (od_get _ key) as [b'|] eqn:Hg; [|done]. apply writing_lookup in Hg as [Hg _]. rewrite Hto in Hg. apply list_elem_of_filter in Hg as [_ Hg]. done.
    + intros key Hk He. rewrite (get_block _ _ _ key Hi), (get_block _ _ _ key Hi'), Hlook, decide_False by done.
      destruct (od_get _ key) as [b'|] eqn:Hg; [|done]. by apply writing_lookup in Hg as [Hg _].
  - intros key. by rewrite (get_block _ _ _ key Hi), (get_block _ _ _ key Hrest).
Qed.
End Safe.

(** ** LRU *)

(** The idle blocks that are not among [keys], the one used longest ago first. *)
Definition lru_idle (keys : list OffloadKey) (o : CPUOffloadingManager LRUCachePolicy) : list OffloadKey :=
  filter (λ key, key ∉ keys) (od_keys (evictable_blocks (om_policy o))).

Lemma lru_make_room L m (o : CPUOffloadingManager LRUCachePolicy) missing keys :
  offload_inv L m o → runs (make_room missing keys o) (λ '(res, _),
    match res with
    | None => py_len (lru_idle keys o) < missing
    | Some ev => ev = take (Z.to_nat missing) (lru_idle keys o) ∧ missing ≤ py_len (lru_idle keys o)
    end).
Proof.
  intros Hi. assert (Hr : lru_rep m (with_ref 0 m) (om_policy o)) by exact (of_rep _ _ _ Hi).
  assert (Hidle : lru_idle keys o = filter (λ key, key ∉ (list_to_set keys : gset OffloadKey)) (od_keys (evictable_blocks (om_policy o)))).
  { apply list_filter_iff. intros key. by rewrite elem_of_list_to_set. }
  unfold make_room. destruct (Z.leb_spec missing 0) as [Hm|Hm]; cbn [runs].
  { replace (Z.to_nat missing) with 0%nat by lia. split; [done|]. pose proof (py_len_nonneg (lru_idle keys o)). lia. }
  destruct (Z.ltb_spec (num_evictable_cache_blocks (om_counters o)) missing) as [Hlt|Hge]; cbn [runs].
  { eapply Z.le_lt_trans; [|exact Hlt]. rewrite (of_evictable _ _ _ Hi). unfold num_with_ref, py_len, lru_idle. apply Nat2Z.inj_le.
    etransitivity; [apply length_filter|]. rewrite <-(size_list_to_set (C := gset OffloadKey)) by apply Hr. apply subseteq_size.
    intros key Hk%elem_of_list_to_set. by apply (lr_keys _ _ _ Hr). }
  eapply runs_bind; [apply (lru_evict_spec m (with_ref 0 m) (om_policy o) missing (list_to_set keys) Hr); [|done]|].
  { intros key b Hb. rewrite elem_of_with_ref. split; [|intros ?; by exists b]. intros (b' & ? & ?). by assert (b' = b) as <- by congruence. }
  intros [[l|] p]; [|intros [_ Hlt]; cbn [runs]; by rewrite Hidle]. intros (Hlen & Hl & Hin & Hp). cbv zeta.
  assert (Hnd : NoDup l.*1) by (rewrite Hl; unfold lru_victims; eapply sublist_NoDup; [|apply sublist_take]; apply NoDup_filter, (lr_nodup _ _ _ Hr)).
  destruct (evicted_inv L m o p l Hi Hnd) as [_ Hle]; [|done|].
  { intros key b Hkb. split; [by apply Hin|]. assert (Hk : key ∈ l.*1) by (change key with (key, b).1; by apply list_elem_of_fmap_2).
    rewrite Hl in Hk. apply subseteq_take, list_elem_of_filter in Hk as [_ Hk]. by apply (lr_keys _ _ _ Hr). }
  rewrite (proj2 (Z.leb_le 0 _)) by (cbn; lia). cbn [py_assert mbind result_bind runs]. split; [by rewrite Hidle|].
  assert (Hlen' : py_len l.*1 = missing) by (unfold py_len in *; by rewrite length_fmap). rewrite Hl in Hlen'. unfold lru_victims, py_len in *.
  rewrite length_take in Hlen'. rewrite Hidle. lia.
Qed.

(** with LRU, [prepare_store] refuses exactly when the free slots and the idle
    blocks outside the keys are fewer than the keys that are not stored, and
    otherwise evicts as few blocks as it can, those used longest ago. *)
Theorem lru_prepare_store_exact n threshold (s : OffloadState LRUCachePolicy) keys :
  offload_serving n threshold s → threshold < 2 → NoDup keys →
  let o := os_manager s in
  let missing := py_len (filter (λ key, cp_get key (om_policy o) = None) keys) - _get_num_free_blocks o in
  runs (prepare_store keys o) (λ '(res, _),
    match res with
    | None => py_len (lru_idle keys o) < missing
    | Some out => evicted_keys out = take (Z.to_nat missing) (lru_idle keys o) ∧ missing ≤ py_len (lru_idle keys o)
    end).
Proof.
  intros Hs Ht Hnd o. cbv zeta. destruct (serving_inv _ _ _ Hs) as ([m Hi] & _ & Hcount & _). fold o in Hi, Hcount.
  pose proof (prepare_store_spec (os_loads s) m o keys Hi Hnd) as Hr. apply runs_Ok in Hr as ([res o'] & Hr & _). rewrite Hr. cbn [runs].
  unfold prepare_store, admitted_keys in Hr. unfold counts_accesses in Hcount. destruct (access_counts (om_counters o)); [symmetry in Hcount; apply Z.leb_le in Hcount; lia|].
  cbn [mbind result_bind] in Hr. cbv zeta in Hr. set (to_store := filter _ keys) in *. pose proof (py_len_nonneg (lru_idle keys o)) as Hidle.
  destruct to_store as [|key0 keys0] eqn:Hto.
  { injection Hr as <- <-. cbn [evicted_keys]. pose proof (used_blocks _ _ _ Hi) as Hu. pose proof (of_allocated _ _ _ Hi).
    assert (0 ≤ _get_num_free_blocks o) by (unfold _get_num_free_blocks; pose proof (py_len_nonneg (om_free_list (om_counters o))); lia).
    change (py_len (@nil OffloadKey)) with 0. replace (Z.to_nat _) with 0%nat by lia. split; [done|lia]. }
  rewrite <-Hto in *. set (o2 := map_counters _ o) in *.
  assert (Hi2 : offload_inv (os_loads s) m o2) by (apply set_counts_inv; [done|done|cbn; apply (of_counts _ _ _ Hi)]).
  change (_get_num_free_blocks o2) with (_get_num_free_blocks o) in Hr. change (lru_idle keys o) with (lru_idle keys o2).
  pose proof (lru_make_room _ _ o2 (py_len to_store - _get_num_free_blocks o) keys Hi2) as Hroom.
  destruct (make_room _ keys o2) as [[[ev|] o3]|]; cbn [runs] in Hroom; [|by injection Hr as <- _|done].
  cbn [mbind result_bind] in Hr. destruct (store_keys _ _) as [[spec o4]|]; [|done]. injection Hr as <- _. done.
Qed.

(** ** Runs *)

(** A cache of [slots] blocks after the calls. *)
Definition offload_demo {C} `{CachePolicy C} (slots threshold size : Z) (ops : list offload_op) : OffloadState C :=
  let s := new_offload_state slots true threshold size in
  match offload_run ops s with Ok s' => s' | Err _ => s end.

Lemma offload_demo_serving {C} `{CachePolicy C} slots threshold size ops :
  0 ≤ slots < 2 ^ 63 → 1 ≤ size → offload_serving slots threshold (offload_demo (C := C) slots threshold size ops).
Proof.
  intros Hn Hs. split; [done|]. exists true, size. split; [done|]. unfold offload_demo. cbv zeta.
  destruct (offload_run _ _) as [s'|] eqn:E; [by eapply offload_run_reachable|apply offload_start].
Qed.

(** Two blocks are stored, one of them is being read. *)
Definition reading : list offload_op := [OPrepareStore [[1]; [2]]; OCompleteStore [[1]; [2]] true; OPrepareLoad [[1]]].
Definition lru_reading : OffloadState LRUCachePolicy := offload_demo 2 1 64000 reading.
Definition arc_reading : OffloadState ARCCachePolicy := offload_demo 2 1 64000 reading.

Lemma lru_reading_serving : offload_serving 2 1 lru_reading.
Proof. by apply offload_demo_serving. Qed.
Lemma arc_reading_serving : offload_serving 2 1 arc_reading.
Proof. by apply offload_demo_serving. Qed.

Lemma offload_calls_succeed_witness :
  (∃ s', offload_step (OPrepareStore [[3]]) lru_reading = Ok s' ∧ offload_serving 2 1 s') ∧
  (∃ s', offload_step (OCompleteLoad [[1]]) arc_reading = Ok s' ∧ offload_serving 2 1 s').
Proof.
  split; apply (offload_calls_succeed 2 1); [apply lru_reading_serving|vm_compute; reflexivity|apply arc_reading_serving|vm_compute; reflexivity].
Defined.

Lemma offload_blocks_typed_witness :
  om_lookup [1] (os_manager arc_reading) = HIT ∧ _get_num_free_blocks (os_manager arc_reading) = 0 ∧
  ∃ m : gmap OffloadKey BlockStatus, (∀ key, cp_get key (om_policy (os_manager arc_reading)) = m !! key) ∧
    _get_num_free_blocks (os_manager arc_reading) = 2 - Z.of_nat (size m).
Proof.
  destruct (offload_blocks_typed 2 1 arc_reading arc_reading_serving) as (m & H1 & _ & _ & H4 & H5 & _).
  split; [apply H4; vm_compute; left|]. split; [vm_compute; reflexivity|]. exists m. split; [exact H1|exact H5].
Defined.

(** The block that is not being read makes room. *)
Definition lru_replaced : OffloadState LRUCachePolicy := offload_demo 2 1 64000 (reading ++ [OPrepareStore [[3]]]).

Lemma busy_block_keeps_slot_witness :
  offload_step (OPrepareStore [[3]]) lru_reading = Ok lru_replaced ∧ om_lookup [2] (os_manager lru_replaced) = MISS ∧
  slot_of [1] (os_manager lru_replaced) = Some 0 ∧ slot_of [1] (os_manager lru_replaced) = slot_of [1] (os_manager lru_reading).
Proof.
  split; [vm_compute; reflexivity|]. split; [vm_compute; reflexivity|]. split; [vm_compute; reflexivity|].
  refine (proj2 (busy_block_keeps_slot 2 1 lru_reading (OPrepareStore [[3]]) lru_replaced [1] lru_reading_serving _ _ _ _)); [vm_compute; reflexivity..| |].
  - left. vm_compute. left.
  - intros [].
Defined.

(** With a threshold of two, blocks are stored when they are seen again. *)
Definition lru_counting : OffloadState LRUCachePolicy :=
  offload_demo 1 2 3 [OPrepareStore [[1]]; OPrepareStore [[1]]; OCompleteStore [[1]] true; OPrepareStore [[2]]].

Lemma lru_counting_serving : offload_serving 1 2 lru_counting.
Proof. by apply offload_demo_serving. Qed.

Lemma prepare_store_correct_witness :
  match prepare_store [[2]; [3]] (os_manager lru_counting) with
  | Ok (Some out, o') => keys_to_store out = [[2]] ∧ store_spec out = [0] ∧ evicted_keys out = [[1]] ∧ om_lookup [1] o' = MISS ∧
      times_seen o' [2] = 2 ∧ times_seen o' [3] = 1
  | _ => False
  end.
Proof.
  pose proof (prepare_store_correct 1 2 lru_counting [[2]; [3]] lru_counting_serving ltac:(apply (bool_decide_unpack _); by vm_compute)) as H. cbv zeta in H.
  destruct (prepare_store [[2]; [3]] (os_manager lru_counting)) as [[res o']|e] eqn:E; [|exact H].
  vm_compute in E. injection E as <- <-. cbn [runs] in H. destruct H as (_ & _ & _ & _ & Hev & _).
  split; [reflexivity|]. split; [reflexivity|]. split; [reflexivity|]. split; [apply Hev; cbn [evicted_keys]; left|]. split; reflexivity.
Defined.

Lemma lru_prepare_store_exact_witness :
  lru_idle [[3]] (os_manager lru_reading) = [[2]] ∧
  runs (prepare_store [[3]] (os_manager lru_reading)) (λ '(res, _), ∃ out, res = Some out ∧ evicted_keys out = [[2]]).
Proof.
  split; [vm_compute; reflexivity|]. eapply runs_mono; [apply (lru_prepare_store_exact 2 1 lru_reading [[3]] lru_reading_serving); [lia|apply NoDup_singleton]|].
  intros [[out|] o']; cbv zeta beta; [intros [H _]; exists out; split; [reflexivity|rewrite H; vm_compute; reflexivity]|].
  intros H. exfalso. vm_compute in H. discriminate H.
Defined.

(** ** What the comments do not say *)

(** ARC refuses a store although four blocks are idle and none of them is
    protected: every block is in T1, the target size of T1 has grown to the
    capacity, and after one candidate the rest of T1 is out of bounds. *)
Definition arc_stuck : OffloadState ARCCachePolicy :=
  offload_demo 4 1 64000 [OPrepareStore [[1]; [2]; [3]; [4]]; OCompleteStore [[1]; [2]; [3]; [4]] true;
    OPrepareStore [[5]]; OCompleteStore [[5]] true; OTouch [[1]]; OTouch [[1]]; OTouch [[1]]; OTouch [[1]]].

Lemma arc_refuses_idle_blocks :
  fst <$> prepare_store [[6]; [7]] (os_manager arc_stuck) = Ok None ∧
  num_evictable_cache_blocks (om_counters (os_manager arc_stuck)) = 4 ∧ os_loads arc_stuck = [] ∧
  od_keys (arc_t1 (om_policy (os_manager arc_stuck))) = [[2]; [3]; [4]; [5]].
Proof. vm_compute. split_and!; reflexivity. Qed.

(** With a store threshold, a block of the call's own keys can be evicted: its
    count was dropped by the tracker, so it is not among the protected keys. *)
Definition counted_run : OffloadState LRUCachePolicy :=
  offload_demo 2 2 3 [OPrepareStore [[1]]; OPrepareStore [[1]]; OCompleteStore [[1]] true; OPrepareStore [[2]; [3]; [4]]].

Lemma own_key_is_evicted :
  om_lookup [1] (os_manager counted_run) = HIT ∧
  match prepare_store [[2]; [3]; [1]] (os_manager counted_run) with
  | Ok (Some out, o') => keys_to_store out = [[2]; [3]] ∧ evicted_keys out = [[1]] ∧ om_lookup [1] o' = MISS
  | _ => False
  end.
Proof. vm_compute. split_and!; reflexivity. Qed.
