(* ===== verification/KVSpec.v ===== *)
(** * Specifications of the KV cache of a layer

    [vllm/vllm/v1/kv_cache_interface.py]: what each kind of layer stores per
    block of tokens, how many bytes a page has, how much a request of the longest
    length can need, which specifications can share one group, and
    [UniformTypeKVCacheSpecs], which keeps one specification per layer. *)

From S2P Require Import Prelude.
Local Open Scope Z_scope.


(** ** Data *)

(** [torch.dtype]: [get_dtype_size] is the size of one element. *)
Record DType : Type := mkDType { dtype_name : string; itemsize : Z }.

(** [int | Fraction], in lowest terms with a positive denominator. *)
Record Fraction : Type := mkFraction { numerator : Z; denominator : Z }.

Inductive KVQuantMode : Type :=
  | QUANT_NONE | FP8_PER_TENSOR | INT8_PER_TOKEN_HEAD | FP8_PER_TOKEN_HEAD | INT4_PER_TOKEN_HEAD | NVFP4
  | TURBOQUANT_K8V4 | TURBOQUANT_4BIT_NC | TURBOQUANT_K3V4_NC | TURBOQUANT_3BIT_NC.

(** The fields of [AttentionSpec]. *)
Record AttentionFields : Type := mkAttention {
  at_block_size : Z;
  num_kv_heads : Z;
  head_size : Z;
  dtype : DType;
  head_size_v : Z;
  kv_quant_mode : KVQuantMode;
  page_size_padded : option Z;
  num_head_slots : option Z;
  state_content_bytes : option Z;
  tokens_per_state : Fraction;
}.

Definition set_block_size (v : Z) (a : AttentionFields) : AttentionFields :=
  mkAttention v (num_kv_heads a) (head_size a) (dtype a) (head_size_v a) (kv_quant_mode a) (page_size_padded a) (num_head_slots a) (state_content_bytes a) (tokens_per_state a).
Definition set_head_size_v (v : Z) (a : AttentionFields) : AttentionFields :=
  mkAttention (at_block_size a) (num_kv_heads a) (head_size a) (dtype a) v (kv_quant_mode a) (page_size_padded a) (num_head_slots a) (state_content_bytes a) (tokens_per_state a).
Definition set_kv_quant_mode (v : KVQuantMode) (a : AttentionFields) : AttentionFields :=
  mkAttention (at_block_size a) (num_kv_heads a) (head_size a) (dtype a) (head_size_v a) v (page_size_padded a) (num_head_slots a) (state_content_bytes a) (tokens_per_state a).
Definition set_page_size_padded (v : option Z) (a : AttentionFields) : AttentionFields :=
  mkAttention (at_block_size a) (num_kv_heads a) (head_size a) (dtype a) (head_size_v a) (kv_quant_mode a) v (num_head_slots a) (state_content_bytes a) (tokens_per_state a).
Definition set_tokens_per_state (v : Fraction) (a : AttentionFields) : AttentionFields :=
  mkAttention (at_block_size a) (num_kv_heads a) (head_size a) (dtype a) (head_size_v a) (kv_quant_mode a) (page_size_padded a) (num_head_slots a) (state_content_bytes a) v.

(** What [FullAttentionSpec] adds. *)
Record FullFields : Type := mkFull { full_sliding_window : option Z; full_attention_chunk_size : option Z; non_causal : bool }.

(** What [MLAAttentionSpec] adds; [SlidingWindowMLASpec] adds the first three. *)
Record MLAFields : Type := mkMLA { cache_dtype_str : option string; alignment : option Z; model_version : option string }.

(** What [SlidingWindowSpec] adds. *)
Record WindowFields : Type := mkWindow { sliding_window : Z; extra_retained_tokens : Z }.

(** [MambaSpec]; the backend is named by a string. *)
Record MambaFields : Type := mkMamba {
  ma_block_size : Z;
  shapes : list (list Z);
  dtypes : list DType;
  ma_page_size_padded : option Z;
  mamba_type : string;
  ma_cache_mode : string;
  num_speculative_blocks : Z;
  num_prefill_checkpoint_blocks : Z;
  ma_num_heads : Z;
  ma_tokens_per_state : Z;
  tp_replicated : bool;
}.

Definition set_ma_page_size_padded (v : option Z) (x : MambaFields) : MambaFields :=
  mkMamba (ma_block_size x) (shapes x) (dtypes x) v (mamba_type x) (ma_cache_mode x) (num_speculative_blocks x) (num_prefill_checkpoint_blocks x) (ma_num_heads x) (ma_tokens_per_state x) (tp_replicated x).

(** The classes of a layer's specification; [MLAAttentionSpec] has
    [non_causal_multi_token_decode] as its last field. *)
Inductive LayerSpec : Type :=
  | FullAttentionSpec (a : AttentionFields) (f : FullFields)
  | MLAAttentionSpec (a : AttentionFields) (f : FullFields) (x : MLAFields) (non_causal_multi_token_decode : bool)
  | HiddenStateCacheSpec (a : AttentionFields) (f : FullFields) (x : MLAFields) (non_causal_multi_token_decode : bool)
  | RSWASpec (a : AttentionFields) (f : FullFields) (rswa_window : Z)
  | SinkFullAttentionSpec (a : AttentionFields) (f : FullFields) (sink_len : option Z)
  | ChunkedLocalAttentionSpec (a : AttentionFields) (attention_chunk_size : Z)
  | SlidingWindowSpec (a : AttentionFields) (w : WindowFields)
  | SlidingWindowMLASpec (a : AttentionFields) (w : WindowFields) (x : MLAFields)
  | CircularBufferSpec (a : AttentionFields)
  | MambaSpec (m : MambaFields)
  | EncoderOnlyAttentionSpec (a : AttentionFields)
  | CrossAttentionSpec (a : AttentionFields).

#[export] Instance dtype_eq_dec : EqDecision DType. Proof. solve_decision. Defined.
#[export] Instance fraction_eq_dec : EqDecision Fraction. Proof. solve_decision. Defined.
#[export] Instance quant_eq_dec : EqDecision KVQuantMode. Proof. solve_decision. Defined.
#[export] Instance attention_eq_dec : EqDecision AttentionFields. Proof. solve_decision. Defined.
#[export] Instance full_eq_dec : EqDecision FullFields. Proof. solve_decision. Defined.
#[export] Instance mla_eq_dec : EqDecision MLAFields. Proof. solve_decision. Defined.
#[export] Instance window_eq_dec : EqDecision WindowFields. Proof. solve_decision. Defined.
#[export] Instance mamba_eq_dec : EqDecision MambaFields. Proof. solve_decision. Defined.
#[export] Instance layer_spec_eq_dec : EqDecision LayerSpec. Proof. solve_decision. Defined.

(** What the sizing reads of [VllmConfig].  [use_eagle] and
    [use_multi_module_mtp] are [False] without a [speculative_config];
    [layout_resolved] is the member named by [cache_config.kv_cache_layout]. *)
Inductive KVCacheLayout : Type := LBHNC | LBNHC | LHBNC | BLHNC | BLNHC | BHLNC.

Record VllmConfig : Type := mkVllmConfig {
  max_model_len : Z;
  original_max_model_len : Z;
  decode_context_parallel_size : Z;
  max_in_flight_tokens : Z;
  mamba_cache_mode : string;
  max_num_encoder_input_tokens : Z;
  num_gpu_blocks_override : option Z;
  layout_resolved : option KVCacheLayout;
  disable_hybrid_kv_cache_manager : bool;
  retention_interval : option Z;
  use_eagle : bool;
  use_multi_module_mtp : bool;
  num_speculative_tokens : Z;
  is_deepseek_v4 : bool;
}.

Definition set_max_model_len (v : Z) (c : VllmConfig) : VllmConfig :=
  mkVllmConfig v (original_max_model_len c) (decode_context_parallel_size c) (max_in_flight_tokens c) (mamba_cache_mode c) (max_num_encoder_input_tokens c)
    (num_gpu_blocks_override c) (layout_resolved c) (disable_hybrid_kv_cache_manager c) (retention_interval c) (use_eagle c) (use_multi_module_mtp c)
    (num_speculative_tokens c) (is_deepseek_v4 c).

(** ** Classes *)

(** The attributes that [AttentionSpec] declares. *)
Definition attention_of (s : LayerSpec) : option AttentionFields :=
  match s with
  | FullAttentionSpec a _ | MLAAttentionSpec a _ _ _ | HiddenStateCacheSpec a _ _ _ | RSWASpec a _ _ | SinkFullAttentionSpec a _ _
  | ChunkedLocalAttentionSpec a _ | SlidingWindowSpec a _ | SlidingWindowMLASpec a _ _ | CircularBufferSpec a | EncoderOnlyAttentionSpec a
  | CrossAttentionSpec a => Some a
  | MambaSpec _ => None
  end.

(** The attributes that [FullAttentionSpec] declares: [isinstance] is that they
    exist. *)
Definition full_of (s : LayerSpec) : option FullFields :=
  match s with
  | FullAttentionSpec _ f | MLAAttentionSpec _ f _ _ | HiddenStateCacheSpec _ f _ _ | RSWASpec _ f _ | SinkFullAttentionSpec _ f _ => Some f
  | _ => None
  end.
Definition is_full_spec (s : LayerSpec) : bool := bool_decide (is_Some (full_of s)).

(** The attributes that [MLAAttentionSpec] declares. *)
Definition mla_of (s : LayerSpec) : option (MLAFields * bool) :=
  match s with MLAAttentionSpec _ _ x n | HiddenStateCacheSpec _ _ x n => Some (x, n) | _ => None end.
Definition is_mla (s : LayerSpec) : bool := bool_decide (is_Some (mla_of s)).
Definition is_hidden_state (s : LayerSpec) : bool := match s with HiddenStateCacheSpec _ _ _ _ => true | _ => false end.

(** The attributes that [SlidingWindowSpec] declares. *)
Definition window_of (s : LayerSpec) : option WindowFields :=
  match s with SlidingWindowSpec _ w | SlidingWindowMLASpec _ w _ => Some w | _ => None end.
Definition is_window_spec (s : LayerSpec) : bool := bool_decide (is_Some (window_of s)).
Definition is_sliding_window_mla (s : LayerSpec) : bool := match s with SlidingWindowMLASpec _ _ _ => true | _ => false end.
Definition is_chunked_local (s : LayerSpec) : bool := match s with ChunkedLocalAttentionSpec _ _ => true | _ => false end.
Definition is_circular (s : LayerSpec) : bool := match s with CircularBufferSpec _ => true | _ => false end.
Definition is_mamba (s : LayerSpec) : bool := match s with MambaSpec _ => true | _ => false end.
Definition is_cross (s : LayerSpec) : bool := match s with CrossAttentionSpec _ => true | _ => false end.

Definition block_size (s : LayerSpec) : Z :=
  match s with MambaSpec m => ma_block_size m | _ => default 0 (at_block_size <$> attention_of s) end.

(** ** Sizes *)

(** [cdiv], which divides. *)
Definition py_cdiv (a b : Z) : result Z := if b =? 0 then Err ZeroDivisionError else Ok (cdiv a b).

Definition prod_Z (l : list Z) : Z := foldr Z.mul 1 l.

Definition get_num_kernel_states (t : Fraction) (kernel_block_size : Z) : Z :=
  if 0 <? numerator t then kernel_block_size * denominator t / numerator t else 1.

Definition num_head_groups (a : AttentionFields) : Z := default (num_kv_heads a) (num_head_slots a).
Definition content_size_bytes (a : AttentionFields) : Z := default ((head_size a + head_size_v a) * itemsize (dtype a)) (state_content_bytes a).
Definition attention_num_states (a : AttentionFields) : Z := get_num_kernel_states (tokens_per_state a) (at_block_size a).
Definition unpadded_page_size_bytes (a : AttentionFields) : Z := num_head_groups a * attention_num_states a * content_size_bytes a.

Definition padded_to (unpadded : Z) (padded : option Z) : result Z :=
  match padded with None => Ok unpadded | Some p => _ ← py_assert (unpadded <=? p); Ok p end.

Definition mamba_content_size_bytes (m : MambaFields) : Z := sumZ (zip_with (λ shape d, prod_Z shape * itemsize d) (shapes m) (dtypes m)).

(** [num_heads], [num_states] and [state_content_size_bytes]: the shape of a
    page. *)
Definition num_heads (s : LayerSpec) : Z :=
  match s with MambaSpec m => ma_num_heads m | _ => default 0 (num_head_groups <$> attention_of s) end.
Definition num_kernel_states (s : LayerSpec) (kernel_block_size : Z) : Z :=
  match s with
  | MambaSpec m => get_num_kernel_states (mkFraction (ma_tokens_per_state m) 1) kernel_block_size
  | _ => default 0 ((λ a, get_num_kernel_states (tokens_per_state a) kernel_block_size) <$> attention_of s)
  end.
Definition num_states (s : LayerSpec) : Z := num_kernel_states s (block_size s).
Definition state_content_size_bytes (s : LayerSpec) : Z :=
  match s with MambaSpec m => mamba_content_size_bytes m | _ => default 0 (content_size_bytes <$> attention_of s) end.
Definition spec_page_size_padded (s : LayerSpec) : option Z :=
  match s with MambaSpec m => ma_page_size_padded m | _ => attention_of s ≫= page_size_padded end.

Definition mamba_page_size_bytes (m : MambaFields) : result Z := padded_to (mamba_content_size_bytes m) (ma_page_size_padded m).

Definition page_size_bytes (s : LayerSpec) : result Z :=
  match s with
  | MambaSpec m => mamba_page_size_bytes m
  | _ => match attention_of s with Some a => padded_to (unpadded_page_size_bytes a) (page_size_padded a) | None => Err NotImplementedError end
  end.

(** ** The most memory a request can need *)

Definition chunked_admission_blocks (chunk block_size max_in_flight_tokens max_model_len : Z) : result Z :=
  py_cdiv (Z.min (chunk + max_in_flight_tokens) max_model_len) block_size.
Definition window_admission_blocks (w : WindowFields) (block_size max_in_flight_tokens max_model_len : Z) : result Z :=
  n ← py_cdiv (Z.min (sliding_window w - 1 + extra_retained_tokens w + max_in_flight_tokens) max_model_len) block_size; Ok (n + 1).

Definition times_page (blocks : result Z) (s : LayerSpec) : result Z := n ← blocks; p ← page_size_bytes s; Ok (n * p).

Definition full_memory_usage_bytes (cfg : VllmConfig) (s : LayerSpec) : result Z :=
  let len := if 1 <? decode_context_parallel_size cfg then cdiv (max_model_len cfg) (decode_context_parallel_size cfg) else max_model_len cfg in
  times_page (py_cdiv len (block_size s)) s.

Definition chunked_memory_usage_bytes (cfg : VllmConfig) (chunk : Z) (s : LayerSpec) : result Z :=
  times_page (chunked_admission_blocks chunk (block_size s) (max_in_flight_tokens cfg) (max_model_len cfg)) s.

Definition window_memory_usage_bytes (cfg : VllmConfig) (w : WindowFields) (s : LayerSpec) : result Z :=
  _ ← py_assert (decode_context_parallel_size cfg =? 1);
  times_page (window_admission_blocks w (block_size s) (max_in_flight_tokens cfg) (max_model_len cfg)) s.

Definition mamba_memory_usage_bytes (cfg : VllmConfig) (m : MambaFields) : result Z :=
  if decide (mamba_cache_mode cfg = "all"%string) then n ← py_cdiv (max_model_len cfg) (ma_block_size m); times_page (Ok (n + num_speculative_blocks m)) (MambaSpec m)
  else if decide (mamba_cache_mode cfg = "align"%string) then times_page (Ok (2 + num_speculative_blocks m + num_prefill_checkpoint_blocks m)) (MambaSpec m)
  else times_page (Ok (1 + num_speculative_blocks m)) (MambaSpec m).

Definition cross_memory_usage_bytes (cfg : VllmConfig) (s : LayerSpec) : result Z := times_page (py_cdiv (max_num_encoder_input_tokens cfg) (block_size s)) s.

Definition max_memory_usage_bytes (cfg : VllmConfig) (s : LayerSpec) : result Z :=
  match s with
  | FullAttentionSpec _ _ | MLAAttentionSpec _ _ _ _ | HiddenStateCacheSpec _ _ _ _ | RSWASpec _ _ _ | SinkFullAttentionSpec _ _ _ => full_memory_usage_bytes cfg s
  | ChunkedLocalAttentionSpec _ chunk => chunked_memory_usage_bytes cfg chunk s
  | SlidingWindowSpec _ w | SlidingWindowMLASpec _ w _ => window_memory_usage_bytes cfg w s
  | CircularBufferSpec _ => page_size_bytes s
  | MambaSpec m => mamba_memory_usage_bytes cfg m
  | EncoderOnlyAttentionSpec _ => Ok 0
  | CrossAttentionSpec _ => cross_memory_usage_bytes cfg s
  end.

(** The number of pages that memory has. *)
Definition max_memory_pages (cfg : VllmConfig) (s : LayerSpec) : result Z :=
  bytes ← max_memory_usage_bytes cfg s; p ← page_size_bytes s; py_cdiv bytes p.

(** [max_num_blocks_per_req]: the row length of the block table. *)
Definition mamba_num_blocks_per_req (cfg : VllmConfig) (max_len : Z) (m : MambaFields) : result Z :=
  if decide (mamba_cache_mode cfg = "align"%string) then n ← py_cdiv max_len (ma_block_size m); Ok (n + num_speculative_blocks m)
  else max_memory_pages cfg (MambaSpec m).

Definition max_num_blocks_per_req (cfg : VllmConfig) (max_len : Z) (s : LayerSpec) : result Z :=
  match s with
  | CircularBufferSpec _ => Ok 1
  | MambaSpec m => mamba_num_blocks_per_req cfg max_len m
  | _ => py_cdiv max_len (block_size s * decode_context_parallel_size cfg)
  end.

(** ** Changing fields *)

Definition round_up (x y : Z) : result Z := if y =? 0 then Err ZeroDivisionError else Ok ((x + y - 1) / y * y).

Definition _apply_alignment_padding (align : option Z) (a : AttentionFields) : result AttentionFields :=
  match align with
  | None => Ok a
  | Some al =>
      let actual := unpadded_page_size_bytes a in
      padded ← round_up actual al;
      Ok (if padded =? actual then a else set_page_size_padded (Some padded) a)
  end.

(** [__post_init__], which [replace] runs again. *)
Definition post_init (s : LayerSpec) : result LayerSpec :=
  match s with
  | MLAAttentionSpec a f x n => a ← _apply_alignment_padding (alignment x) a; Ok (MLAAttentionSpec a f x n)
  | HiddenStateCacheSpec a f x n => a ← _apply_alignment_padding (alignment x) a; Ok (HiddenStateCacheSpec a f x n)
  | SlidingWindowMLASpec a w x =>
      _ ← py_assert (bool_decide (model_version x = None ∨ model_version x = Some "deepseek_v4"%string));
      a ← _apply_alignment_padding (alignment x) a; Ok (SlidingWindowMLASpec a w x)
  | _ => Ok s
  end.

Definition map_attention (g : AttentionFields → AttentionFields) (s : LayerSpec) : LayerSpec :=
  match s with
  | FullAttentionSpec a f => FullAttentionSpec (g a) f
  | MLAAttentionSpec a f x n => MLAAttentionSpec (g a) f x n
  | HiddenStateCacheSpec a f x n => HiddenStateCacheSpec (g a) f x n
  | RSWASpec a f w => RSWASpec (g a) f w
  | SinkFullAttentionSpec a f l => SinkFullAttentionSpec (g a) f l
  | ChunkedLocalAttentionSpec a c => ChunkedLocalAttentionSpec (g a) c
  | SlidingWindowSpec a w => SlidingWindowSpec (g a) w
  | SlidingWindowMLASpec a w x => SlidingWindowMLASpec (g a) w x
  | CircularBufferSpec a => CircularBufferSpec (g a)
  | MambaSpec m => MambaSpec m
  | EncoderOnlyAttentionSpec a => EncoderOnlyAttentionSpec (g a)
  | CrossAttentionSpec a => CrossAttentionSpec (g a)
  end.

(** [replace(spec, **changes)] for fields of [AttentionSpec]. *)
Definition replace_attention (g : AttentionFields → AttentionFields) (s : LayerSpec) : result LayerSpec := post_init (map_attention g s).

(** [replace(spec, extra_retained_tokens=n)] of a sliding window. *)
Definition replace_extra_retained (n : Z) (s : LayerSpec) : result LayerSpec :=
  match s with
  | SlidingWindowSpec a w => Ok (SlidingWindowSpec a (mkWindow (sliding_window w) n))
  | SlidingWindowMLASpec a w x => post_init (SlidingWindowMLASpec a (mkWindow (sliding_window w) n) x)
  | _ => Ok s
  end.

(** ** Merging *)

Definition merge_window_sizes (window_sizes : list Z) : result (option Z) :=
  match remove_dups window_sizes with
  | [] => Ok None
  | [w] => Ok (Some w)
  | _ => Err ValueError
  end.

(** The one element of the set of the values, which must be a singleton. *)
Definition same_value {A} `{EqDecision A} (l : list A) : bool :=
  match remove_dups l with [_] => true | _ => false end.

(** The checks and the fields that [FullAttentionSpec.merge] and
    [SinkFullAttentionSpec.merge] share; [a] are the attention fields of the
    merged specification. *)
Definition merge_full_fields (a : AttentionFields) (specs : list LayerSpec) : result FullFields :=
  _ ← py_assert (forallb is_full_spec specs);
  let fs := omap full_of specs in
  _ ← py_assert (negb (existsb is_mla specs));
  window ← merge_window_sizes (omap full_sliding_window fs);
  chunk ← merge_window_sizes (omap full_attention_chunk_size fs);
  _ ← py_assert (forallb (λ s, bool_decide (attention_of s = Some a)) specs);
  _ ← py_assert (negb (bool_decide (is_Some window) && bool_decide (is_Some chunk)));
  Ok (mkFull window chunk (existsb non_causal fs)).

Definition merge_mla_fields (a : AttentionFields) (specs : list LayerSpec) : result (MLAFields * bool) :=
  _ ← py_assert (forallb is_mla specs);
  let xs := omap mla_of specs in
  _ ← py_assert (same_value ((λ x, cache_dtype_str x.1) <$> xs) && same_value (omap (λ s, tokens_per_state <$> attention_of s) specs)
                 && same_value ((λ x, model_version x.1) <$> xs));
  _ ← py_assert (same_value (snd <$> xs));
  match xs with
  | [] => Err IndexError
  | (x, n) :: _ =>
      _ ← py_assert (forallb (λ s, bool_decide (attention_of s = Some (set_head_size_v 0 a))) specs);
      Ok (mkMLA (cache_dtype_str x) None (model_version x), n)
  end.

(** [KVCacheSpec.merge] *)
Definition merge_equal (s : LayerSpec) (specs : list LayerSpec) : result LayerSpec :=
  _ ← py_assert (forallb (λ s', bool_decide (s' = s)) specs); Ok s.

Definition no_window : FullFields := mkFull None None false.

Definition merge_full (a : AttentionFields) (specs : list LayerSpec) : result LayerSpec := f ← merge_full_fields a specs; Ok (FullAttentionSpec a f).

(** The merged specification has the default [tokens_per_state]. *)
Definition merge_sink (a : AttentionFields) (sink_len : option Z) (specs : list LayerSpec) : result LayerSpec :=
  let a := set_tokens_per_state (mkFraction 1 1) a in f ← merge_full_fields a specs; Ok (SinkFullAttentionSpec a f sink_len).

Definition merge_rswa (a : AttentionFields) (w : Z) (specs : list LayerSpec) : result LayerSpec :=
  _ ← py_assert (forallb (λ s', match s' with RSWASpec _ _ _ => true | _ => false end) specs);
  _ ← py_assert (forallb (λ s', match s' with RSWASpec _ _ w' => w' =? w | _ => false end) specs);
  f ← merge_full_fields a specs; Ok (RSWASpec a f w).

Definition merge_window_mla (a : AttentionFields) (w : WindowFields) (x : MLAFields) (specs : list LayerSpec) : result LayerSpec :=
  _ ← py_assert (forallb is_sliding_window_mla specs);
  let ms := omap (λ s', match s' with SlidingWindowMLASpec a' w' x' => Some (a', w', x') | _ => None end) specs in
  _ ← py_assert (same_value ((λ m, cache_dtype_str m.2) <$> ms) && same_value ((λ m, tokens_per_state m.1.1) <$> ms)
                 && same_value ((λ m, model_version m.2) <$> ms) && same_value ((λ m, sliding_window m.1.2) <$> ms)
                 && same_value ((λ m, extra_retained_tokens m.1.2) <$> ms));
  post_init (SlidingWindowMLASpec (set_kv_quant_mode QUANT_NONE (set_head_size_v 0 a)) w (mkMLA (cache_dtype_str x) None (model_version x))).

(** [specs[0].merge(specs)] *)
Definition merge (specs : list LayerSpec) : result LayerSpec :=
  match specs with
  | [] => Err IndexError
  | s :: _ =>
      match s with
      | FullAttentionSpec a _ => merge_full a specs
      | SinkFullAttentionSpec a _ l => merge_sink a l specs
      | RSWASpec a _ w => merge_rswa a w specs
      | MLAAttentionSpec a _ _ _ => '(x, n) ← merge_mla_fields a specs; Ok (MLAAttentionSpec (set_head_size_v 0 a) no_window x n)
      | HiddenStateCacheSpec a _ _ _ => '(x, n) ← merge_mla_fields a specs; Ok (HiddenStateCacheSpec (set_head_size_v 0 a) no_window x n)
      | SlidingWindowMLASpec a w x => merge_window_mla a w x specs
      | _ => merge_equal s specs
      end
  end.

(** ** Layers of one type *)

(** [KVCacheSpecRegistry.get_uniform_type_base_spec]: the test whether a
    specification is an instance of the registered base. *)
Definition uniform_type_base_spec (s : LayerSpec) : option (LayerSpec → bool) :=
  match s with
  | FullAttentionSpec _ _ | MLAAttentionSpec _ _ _ _ | HiddenStateCacheSpec _ _ _ _ | RSWASpec _ _ _ | SinkFullAttentionSpec _ _ _ => Some is_full_spec
  | SlidingWindowSpec _ _ => Some is_window_spec
  | SlidingWindowMLASpec _ _ _ => Some is_sliding_window_mla
  | CircularBufferSpec _ => Some is_circular
  | MambaSpec _ => Some is_mamba
  | ChunkedLocalAttentionSpec _ _ => Some is_chunked_local
  | CrossAttentionSpec _ => Some is_cross
  | EncoderOnlyAttentionSpec _ => None
  end.

(** [all(...)] whose body may raise. *)
Fixpoint allM_ok {A} (f : A → result bool) (l : list A) : result bool :=
  match l with
  | [] => Ok true
  | x :: l => b ← f x; if b : bool then allM_ok f l else Ok false
  end.

Definition chunked_uniform (chunk : Z) (specs : list LayerSpec) : bool :=
  forallb (λ s', match s' with ChunkedLocalAttentionSpec _ c' => c' =? chunk | _ => false end) specs.
Definition window_uniform (w : WindowFields) (specs : list LayerSpec) : bool :=
  forallb (λ s', match window_of s' with Some w' => sliding_window w' =? sliding_window w | None => false end) specs.
Definition window_mla_uniform (w : WindowFields) (specs : list LayerSpec) : bool :=
  forallb (λ s', is_sliding_window_mla s' && match window_of s' with Some w' => sliding_window w' =? sliding_window w | None => false end) specs.
Definition mamba_uniform (m : MambaFields) (specs : list LayerSpec) : result bool :=
  allM_ok (λ s', match s' with
                 | MambaSpec m' =>
                     if (num_speculative_blocks m' =? num_speculative_blocks m) && (num_prefill_checkpoint_blocks m' =? num_prefill_checkpoint_blocks m)
                     then p' ← page_size_bytes s'; p ← page_size_bytes (MambaSpec m);
                          Ok ((p' =? p) && eqb (tp_replicated m') (tp_replicated m))
                     else Ok false
                 | _ => Ok false
                 end) specs.

Definition is_uniform_with_collection (s : LayerSpec) (specs : list LayerSpec) : result bool :=
  match s with
  | ChunkedLocalAttentionSpec _ c => Ok (chunked_uniform c specs)
  | SlidingWindowSpec _ w => Ok (window_uniform w specs)
  | SlidingWindowMLASpec _ w _ => Ok (window_mla_uniform w specs)
  | CircularBufferSpec _ => Ok (forallb is_circular specs)
  | MambaSpec m => mamba_uniform m specs
  | _ => match uniform_type_base_spec s with
         | None => Err AssertionError
         | Some base => Ok (forallb base specs)
         end
  end.

(** A dictionary from layer names. *)
Abbreviation LayerDict := (list (string * LayerSpec)).

(** [UniformTypeKVCacheSpecs.is_uniform_type] *)
Definition is_uniform_type (specs : LayerDict) : result bool :=
  if 2 <=? py_len (remove_dups (block_size <$> specs.*2)) then Ok false
  else match specs with
       | [] => Err StopIteration
       | (_, s) :: _ => is_uniform_with_collection s specs.*2
       end.

(** A specification of a group: of one layer, or [UniformTypeKVCacheSpecs]. *)
Inductive GroupSpec : Type :=
  | OneSpec (s : LayerSpec)
  | UniformTypeKVCacheSpecs (block_size : Z) (kv_cache_specs : LayerDict).

(** [UniformTypeKVCacheSpecs.from_specs] *)
Definition from_specs (specs : LayerDict) : result (option GroupSpec) :=
  b ← is_uniform_type specs;
  if b : bool then match specs with [] => Err StopIteration | (_, s) :: _ => Ok (Some (UniformTypeKVCacheSpecs (block_size s) specs)) end
  else Ok None.

(** [max(l)] of a non-empty list. *)
Definition py_max_list (l : list Z) : result Z :=
  match l with [] => Err ValueError | x :: l => Ok (foldl Z.max x l) end.

(** [iter_layer_specs] *)
Definition iter_layer_specs (g : GroupSpec) : list LayerSpec :=
  match g with OneSpec s => [s] | UniformTypeKVCacheSpecs _ specs => specs.*2 end.

Definition group_spec_block_size (g : GroupSpec) : Z := match g with OneSpec s => block_size s | UniformTypeKVCacheSpecs b _ => b end.

Definition group_page_size_bytes (g : GroupSpec) : result Z :=
  match g with OneSpec s => page_size_bytes s | UniformTypeKVCacheSpecs _ specs => sumZ <$> mapM_ok page_size_bytes specs.*2 end.

(** [max_memory_usage_pages] *)
Definition uniform_memory_pages (cfg : VllmConfig) (specs : LayerDict) : result Z :=
  pages ← mapM_ok (max_memory_pages cfg) specs.*2; py_max_list pages.

Definition group_max_memory_usage_bytes (cfg : VllmConfig) (g : GroupSpec) : result Z :=
  match g with
  | OneSpec s => max_memory_usage_bytes cfg s
  | UniformTypeKVCacheSpecs _ specs => n ← uniform_memory_pages cfg specs; p ← group_page_size_bytes g; Ok (n * p)
  end.

(** [Counter(...).most_common(1)[0][1]] of the page sizes. *)
Definition get_max_layers_per_page_size (specs : LayerDict) : result Z :=
  pages ← mapM_ok page_size_bytes specs.*2;
  match pages with
  | [] => Err IndexError
  | _ => py_max_list ((λ p, py_len (filter (λ q, q = p) pages)) <$> remove_dups pages)
  end.

(** [is_full_attention_spec] *)
Definition is_full_attention_spec (g : GroupSpec) : bool :=
  (1 <=? py_len (iter_layer_specs g)) && forallb is_full_spec (iter_layer_specs g).
