(* ===== verification/KVLayout.v ===== *)
(** * Placement of the KV cache in memory

    [vllm/vllm/v1/kv_cache_layout.py], the strides of
    [vllm/vllm/v1/kv_cache_interface.py], the choice of a layout in
    [vllm/vllm/v1/attention/backends/utils.py] and
    [get_kv_cache_config_from_groups] of [vllm/vllm/v1/core/kv_cache_utils.py]:
    where the page of a block of a layer lies in the one allocation that all
    groups share. *)

From S2P Require Import Prelude KVSpec.
Local Open Scope Z_scope.

(** ** Layouts

    Logical dimensions: layer, block, head, state, content. *)

Definition DIM_L : nat := 0.
Definition DIM_B : nat := 1.

Definition stride_order (l : KVCacheLayout) : list nat :=
  match l with
  | LBHNC => [0; 1; 2; 3; 4]
  | LBNHC => [0; 1; 3; 2; 4]
  | LHBNC => [0; 2; 1; 3; 4]
  | BLHNC => [1; 0; 2; 3; 4]
  | BLNHC => [1; 0; 3; 2; 4]
  | BHLNC => [1; 2; 0; 3; 4]
  end%nat.

(** [order.index(dim)] *)
Fixpoint index_of (dim : nat) (order : list nat) : nat :=
  match order with
  | [] => 0
  | d :: order => if (d =? dim)%nat then 0 else S (index_of dim order)
  end.

Definition is_layer_compact (l : KVCacheLayout) : bool := bool_decide (stride_order l !! DIM_L = Some 0%nat).
Definition is_block_compact (l : KVCacheLayout) : bool :=
  bool_decide (list_to_set (take 2 (stride_order l)) = ({[DIM_L; DIM_B]} : gset nat)).
Definition is_block_outermost (l : KVCacheLayout) : bool := bool_decide (head (stride_order l) = Some DIM_B).

#[export] Instance layout_eq_dec : EqDecision KVCacheLayout. Proof. solve_decision. Defined.

(** [resolve_kv_cache_layout], after the workers agreed on [supported]:
    specifications with different pages narrow the choice; a request of the user
    is obeyed or refused, one of a connector obeyed if possible. *)
Definition hnc_shape (s : LayerSpec) : result (Z * Z * Z) := p ← page_size_bytes s; Ok (num_heads s, num_states s, p).

Definition layout_candidates (supported : list KVCacheLayout) (specs : list LayerSpec) : result (list KVCacheLayout) :=
  hnc_shapes ← mapM_ok hnc_shape specs;
  if 2 <=? py_len (remove_dups hnc_shapes)
  then match filter (λ l, is_block_compact l = true) supported with [] => Err ValueError | ls => Ok ls end
  else Ok supported.

Definition resolve_kv_cache_layout (resolved : option KVCacheLayout) (supported : list (list KVCacheLayout)) (specs : list LayerSpec)
    (requested connector : option KVCacheLayout) : result KVCacheLayout :=
  match resolved, supported with
  | Some l, _ => Ok l
  | None, [] => Err AssertionError
  | None, first :: rest =>
      _ ← py_assert (forallb (λ ls : list KVCacheLayout, match ls with [] => false | _ => true end) supported);
      _ ← py_assert (forallb (λ ls, bool_decide (ls = first)) rest);
      candidates ← layout_candidates first specs;
      match requested, connector with
      | Some l, _ => if bool_decide (l ∈ candidates) then Ok l else Err ValueError
      | None, Some l => if bool_decide (l ∈ candidates) then Ok l else unwrap IndexError (head candidates)
      | None, None => unwrap IndexError (head candidates)
      end
  end.

(** ** Shapes and strides *)

(** [(B, H, N, C)], the content in bytes. *)
Definition compute_layer_kv_cache_shape_bytes (s : LayerSpec) (num_blocks : Z) (kernel_block_size : option Z) : result (list Z) :=
  let bs := default (block_size s) kernel_block_size in
  if bs =? 0 then Err ZeroDivisionError
  else
    _ ← py_assert (block_size s mod bs =? 0);
    Ok [num_blocks * (block_size s / bs); num_heads s; num_kernel_states s bs; state_content_size_bytes s].

(** One round of the loop over the physical dimensions, from the last. *)
Definition stride_step (shape : list Z) (fixed_strides : list (option Z)) (padded : option Z) (page_grid_end : nat)
    (acc : list Z * Z) (x : nat * nat) : result (list Z * Z) :=
  let '(strides, current_stride) := acc in
  let '(physical_idx, dim) := x in
  current_stride ← match padded with
                   | Some p =>
                       if (S physical_idx =? page_grid_end)%nat
                       then let current_stride := Z.max current_stride p in
                            _ ← (if p =? 0 then Err ZeroDivisionError else py_assert (current_stride mod p =? 0)); Ok current_stride
                       else Ok current_stride
                   | None => Ok current_stride
                   end;
  let stride := default current_stride (default None (fixed_strides !! dim)) in
  size ← unwrap IndexError (shape !! dim);
  Ok (<[dim := stride]> strides, stride * size).

(** Byte strides in the order of the logical dimensions. *)
Definition compute_layout_strides (s : LayerSpec) (num_blocks num_layers : Z) (layout : KVCacheLayout) (kernel_block_size : option Z)
    (fixed_strides : list (option Z)) : result (list Z) :=
  _ ← py_assert (length fixed_strides =? 5)%nat;
  _ ← py_assert (forallb (λ x : option Z, match x with Some v => 0 <? v | None => true end) fixed_strides);
  tail ← compute_layer_kv_cache_shape_bytes s num_blocks kernel_block_size;
  let shape := num_layers :: tail in
  let order := stride_order layout in
  let padded := spec_page_size_padded s in
  let page_grid_end := S (index_of DIM_L order `max` index_of DIM_B order) in
  _ ← match padded with
      | Some _ =>
          _ ← py_assert (bool_decide (kernel_block_size = None ∨ kernel_block_size = Some (block_size s)));
          page_grid_shape ← mapM_ok (λ dim, unwrap IndexError (shape !! dim)) (take page_grid_end order);
          py_assert (prod_Z page_grid_shape =? num_layers * num_blocks)
      | None => Ok tt
      end;
  '(strides, _) ← foldM (stride_step shape fixed_strides padded page_grid_end) ([0; 0; 0; 0; 0], 1) (rev (imap pair order));
  Ok strides.

(** ** The configuration *)

(** [KVCacheTensor]: layers of the same shape. *)
Record KVCacheTensor : Type := mkTensor {
  tensor_size : Z;
  tensor_layers : list string;
  layer_stride : Z;
  block_stride : Z;
  tensor_offset : Z;
}.

(** [KVCacheGroupSpec]; [enable_kv_transfer], which connectors read, is left out. *)
Record LayerGroup : Type := mkLayerGroup {
  layer_names : list string;
  kv_cache_spec : GroupSpec;
  is_eagle_group : bool;
}.

(** [KVCacheConfig]; the name of the layout is set later. *)
Record MemoryConfig : Type := mkMemoryConfig {
  cfg_num_blocks : Z;
  kv_cache_tensors : list KVCacheTensor;
  cfg_groups : list LayerGroup;
  cfg_retention_interval : option Z;
}.

Definition _get_per_layer_spec (g : LayerGroup) (name : string) : result LayerSpec :=
  match kv_cache_spec g with
  | OneSpec s => Ok s
  | UniformTypeKVCacheSpecs _ specs => unwrap KeyError (od_get specs name)
  end.

(** The pages of the layers of a group. *)
Definition layer_pages (g : LayerGroup) : result (list Z) :=
  mapM_ok (λ name, s ← _get_per_layer_spec g name; page_size_bytes s) (layer_names g).

(** [_get_kv_cache_bytes_per_block] and [_pool_bytes_per_block] *)
Definition _pool_bytes_per_block (groups : list LayerGroup) : result Z :=
  sizes ← mapM_ok (λ g, sumZ <$> layer_pages g) groups;
  n ← py_max_list sizes; _ ← py_assert (0 <? n); Ok n.

Definition validate_kv_cache_layout (layout : KVCacheLayout) (groups : list LayerGroup) : result unit :=
  pages ← mapM_ok layer_pages groups;
  if py_len (remove_dups (mjoin pages)) =? 1 then Ok tt
  else if negb (is_block_compact layout) || ((1 <? py_len groups) && is_layer_compact layout) then Err ValueError else Ok tt.

Definition may_override_num_blocks (cfg : VllmConfig) (num_blocks : Z) : Z := default num_blocks (num_gpu_blocks_override cfg).

(** [layers_by_spec] of a group. *)
Definition add_layer (acc : list (LayerSpec * list string)) (x : string * LayerSpec) : list (LayerSpec * list string) :=
  od_set acc x.2 (default [] (od_get acc x.2) ++ [x.1]).

Definition layers_by_spec (g : LayerGroup) : list (LayerSpec * list string) :=
  match kv_cache_spec g with
  | UniformTypeKVCacheSpecs _ specs => foldl add_layer [] specs
  | OneSpec s => match layer_names g with [] => [] | names => [(s, names)] end
  end.

(** The tensor of the layers of one specification, and the bytes of a block that
    come before the next. *)
Definition place_layers (layout : KVCacheLayout) (size num_blocks : Z) (interleaved : option Z) (acc : list KVCacheTensor * Z)
    (x : LayerSpec * list string) : result (list KVCacheTensor * Z) :=
  let '(tensors, byte_offset) := acc in
  let '(s, names) := x in
  strides ← compute_layout_strides s num_blocks (py_len names) layout None [None; interleaved; None; None; None];
  ls ← unwrap IndexError (strides !! DIM_L);
  bs ← unwrap IndexError (strides !! DIM_B);
  page ← page_size_bytes s;
  if page =? 0 then Err ZeroDivisionError
  else
    let offset := byte_offset * Z.max ls page / page in
    Ok (tensors ++ [mkTensor size names ls bs offset], byte_offset + py_len names * page).

Definition place_group (layout : KVCacheLayout) (size num_blocks : Z) (interleaved : option Z) (tensors : list KVCacheTensor) (g : LayerGroup) :
    result (list KVCacheTensor) :=
  '(tensors, _) ← foldM (place_layers layout size num_blocks interleaved) (tensors, 0) (layers_by_spec g); Ok tensors.

Definition get_kv_cache_config_from_groups (cfg : VllmConfig) (groups : list LayerGroup) (available_memory : Z) : result MemoryConfig :=
  match groups with
  | [] => Ok (mkMemoryConfig 1 [] [] (retention_interval cfg))
  | _ =>
      layout ← unwrap ValueError (layout_resolved cfg);
      _ ← validate_kv_cache_layout layout groups;
      bytes_per_block ← _pool_bytes_per_block groups;
      let interleaved := if is_block_outermost layout then Some bytes_per_block else None in
      let num_blocks := may_override_num_blocks cfg (available_memory / bytes_per_block) in
      tensors ← foldM (place_group layout (bytes_per_block * num_blocks) num_blocks interleaved) [] groups;
      Ok (mkMemoryConfig num_blocks tensors groups (retention_interval cfg))
  end.

(** ** The views of the workers

    [create_kv_cache_views]: byte [x] of state [n] of head [h] of block [b] of the
    [l]-th layer of a tensor. *)
Definition view_strides (s : LayerSpec) (num_blocks : Z) (layout : KVCacheLayout) (t : KVCacheTensor) : result (list Z) :=
  compute_layout_strides s num_blocks (py_len (tensor_layers t)) layout None [Some (layer_stride t); Some (block_stride t); None; None; None].

Definition address (t : KVCacheTensor) (strides index : list Z) : Z := tensor_offset t + sumZ (zip_with Z.mul strides index).

(** The group whose specification a tensor is viewed with in [allocate_kv_cache]
    of [vllm/vllm/v1/worker/utils.py]. *)
Definition group_of_tensor (c : MemoryConfig) (t : KVCacheTensor) : result LayerGroup :=
  name ← unwrap IndexError (head (tensor_layers t));
  unwrap StopIteration (head (filter (λ g, name ∈ layer_names g) (cfg_groups c))).
