(* ===== verification/KVLayoutSpec.v ===== *)
(** * The pages of the KV cache do not overlap

    A byte of the allocation belongs to the page of one block only, whatever
    groups share the allocation, and within a group to one layer. *)

From S2P Require Import Prelude KVSpec KVLayout.
Local Open Scope Z_scope.

(** ** Pages *)

(** The page of [s] has [p] bytes, of which its heads, states and contents fill
    all, or the first ones when it is padded. *)
Record page_ok (s : LayerSpec) (p : Z) : Prop := {
  po_block : 0 < block_size s;
  po_heads : 0 < num_heads s;
  po_states : 0 < num_states s;
  po_content : 0 < state_content_size_bytes s;
  po_size : match spec_page_size_padded s with
            | None => p = num_heads s * num_states s * state_content_size_bytes s
            | Some q => p = q ∧ num_heads s * num_states s * state_content_size_bytes s ≤ q
            end;
  po_page : page_size_bytes s = Ok p;
}.

Lemma page_ok_pos s p : page_ok s p → 0 < p ∧ num_heads s * num_states s * state_content_size_bytes s ≤ p.
Proof. intros [H1 H2 H3 H4 H5 _]. destruct (spec_page_size_padded s); nia. Qed.

Lemma shape_None s nb p : page_ok s p →
  compute_layer_kv_cache_shape_bytes s nb None = Ok [nb; num_heads s; num_states s; state_content_size_bytes s].
Proof.
  intros [H1 _ _ _ _]. unfold compute_layer_kv_cache_shape_bytes, num_states. cbn [default]. rewrite (proj2 (Z.eqb_neq _ _)) by lia.
  rewrite Z_mod_same_full, Z_div_same_full by lia. cbn. do 2 f_equal. lia.
Qed.

(** The strides in a layout: what the loop computes. *)
Definition closed_strides (layout : KVCacheLayout) (H N C nb nl : Z) (padded fl fb : option Z) : list Z :=
  let page x := match padded with Some q => Z.max x q | None => x end in
  match layout with
  | LBHNC => let B := default (page (H * N * C)) fb in [default (B * nb) fl; B; N * C; C; 1]
  | LBNHC => let B := default (page (H * N * C)) fb in [default (B * nb) fl; B; C; H * C; 1]
  | LHBNC => let B := default (page (N * C)) fb in [default (B * nb * H) fl; B; B * nb; C; 1]
  | BLHNC => let L := default (page (H * N * C)) fl in [L; default (L * nl) fb; N * C; C; 1]
  | BLNHC => let L := default (page (H * N * C)) fl in [L; default (L * nl) fb; C; H * C; 1]
  | BHLNC => let L := default (page (N * C)) fl in [L; default (L * nl * H) fb; L * nl; C; 1]
  end.

(** The heads that lie outside the pages. *)
Definition outer_heads (layout : KVCacheLayout) (H : Z) : Z := match layout with LHBNC | BHLNC => H | _ => 1 end.

Lemma strides_closed s p nb nl layout fl fb :
  page_ok s p → 0 < nb → 0 < nl → (∀ v, fl = Some v → 0 < v) → (∀ v, fb = Some v → 0 < v) →
  compute_layout_strides s nb nl layout None [fl; fb; None; None; None] =
    if bool_decide (is_Some (spec_page_size_padded s)) && negb (outer_heads layout (num_heads s) =? 1) then Err AssertionError
    else Ok (closed_strides layout (num_heads s) (num_states s) (state_content_size_bytes s) nb nl (spec_page_size_padded s) fl fb).
Proof.
  intros Hp Hnb Hnl Hfl Hfb. pose proof Hp as [P1 P2 P3 P4 P5 _]. unfold compute_layout_strides.
  assert (Hfix : forallb (λ x : option Z, match x with Some v => 0 <? v | None => true end) [fl; fb; None; None; None] = true).
  { cbn. destruct fl as [v|], fb as [w|]; rewrite ?(proj2 (Z.ltb_lt 0 _)) by auto; done. }
  rewrite Hfix. rewrite (shape_None s nb p Hp). cbn [length Nat.eqb py_assert mbind result_bind].
  set (H := num_heads s) in *. set (N := num_states s) in *. set (C := state_content_size_bytes s) in *.
  destruct (spec_page_size_padded s) as [q|] eqn:Hq.
  - destruct P5 as [-> P5]. assert (Hq0 : 0 < q) by nia. rewrite (bool_decide_eq_true_2 (None = None ∨ _)) by by left.
    cbn [py_assert mbind result_bind]. rewrite (bool_decide_eq_true_2 (is_Some (Some q))) by by eexists.
    assert (Hne : (q =? 0) = false) by (apply Z.eqb_neq; lia).
    assert (Hmax : ∀ x, x ≤ q → Z.max x q = q) by lia. assert (Hmod : q mod q = 0) by (apply Z_mod_same_full).
    assert (Hg : ∀ a b, 0 < a → 0 < b → (a * (H * b) =? a * b) = (H =? 1) ∧ (b * (H * a) =? a * b) = (H =? 1)).
    { intros a b Ha Hb. split; apply eq_true_iff_eq; rewrite !Z.eqb_eq; nia. }
    destruct (Hg nl nb Hnl Hnb) as [Hg1 Hg2]. assert (Hc1 : C * N * H = H * N * C) by lia. assert (Hc2 : C * H * N = H * N * C) by lia.
    assert (Hc3 : C * N = N * C) by lia. assert (Hc4 : C * H = H * C) by lia. assert (Hm3 : Z.max (N * C) q = q) by nia.
    destruct layout; cbn -[Z.mul Z.max Z.eqb Z.modulo]; rewrite ?Z.mul_1_r, ?Z.mul_1_l, ?Hg1, ?Hg2, ?(Z.mul_comm nb nl), ?Z.eqb_refl;
      try (destruct (H =? 1); [|done]); cbn -[Z.mul Z.max Z.eqb Z.modulo];
      rewrite ?Hc1, ?Hc2, ?Hc3, ?Hc4, ?Hm3, ?(Hmax _ P5), Hne, Hmod; cbn -[Z.mul Z.max Z.eqb Z.modulo]; do 2 f_equal; lia.
  - rewrite (bool_decide_eq_false_2 (is_Some None)) by by intros [? ?].
    assert (Hc1 : C * N * H = H * N * C) by lia. assert (Hc2 : C * H * N = H * N * C) by lia.
    assert (Hc3 : C * N = N * C) by lia. assert (Hc4 : C * H = H * C) by lia.
    destruct layout; cbn -[Z.mul Z.max Z.eqb Z.modulo]; rewrite ?Z.mul_1_l, ?Hc1, ?Hc2, ?Hc3, ?Hc4; done.
Qed.

(** ** One tensor *)

(** A page is [outer_heads] runs of [page_unit] bytes. *)
Definition page_unit (layout : KVCacheLayout) (s : LayerSpec) (p : Z) : Z := p / outer_heads layout (num_heads s).

(** Padded pages keep their heads inside. *)
Definition padding_fits (layout : KVCacheLayout) (s : LayerSpec) : Prop := is_Some (spec_page_size_padded s) → outer_heads layout (num_heads s) = 1.

Lemma strides_fit s p nb nl layout fl fb :
  page_ok s p → padding_fits layout s → 0 < nb → 0 < nl → (∀ v, fl = Some v → 0 < v) → (∀ v, fb = Some v → 0 < v) →
  compute_layout_strides s nb nl layout None [fl; fb; None; None; None] =
    Ok (closed_strides layout (num_heads s) (num_states s) (state_content_size_bytes s) nb nl (spec_page_size_padded s) fl fb).
Proof.
  intros Hp Hfit Hnb Hnl Hfl Hfb. rewrite (strides_closed s p) by done.
  destruct (bool_decide _ && _) eqn:E; [|done]. apply andb_true_iff in E as [Hs%bool_decide_eq_true Ho]. rewrite (Hfit Hs) in Ho. done.
Qed.

Lemma unit_spec layout s p : page_ok s p → padding_fits layout s →
  0 < outer_heads layout (num_heads s) ∧ 0 < page_unit layout s p ∧ p = page_unit layout s p * outer_heads layout (num_heads s) ∧
  (outer_heads layout (num_heads s) = num_heads s ∨ outer_heads layout (num_heads s) = 1) ∧
  match layout with
  | LHBNC | BHLNC => page_unit layout s p = match spec_page_size_padded s with Some q => q | None => num_states s * state_content_size_bytes s end ∧
      num_states s * state_content_size_bytes s ≤ page_unit layout s p
  | _ => page_unit layout s p = p ∧ num_heads s * num_states s * state_content_size_bytes s ≤ p
  end.
Proof.
  intros Hp Hfit. destruct (page_ok_pos _ _ Hp) as [Hp0 Hle]. destruct Hp as [P1 P2 P3 P4 P5 _]. unfold page_unit, padding_fits, outer_heads in *.
  assert (Hdiv : ∀ a b, 0 < b → a * b / b = a) by (intros; by apply Z.div_mul; lia).
  destruct layout; rewrite ?Z.div_1_r; try (split_and!; try lia; by right);
    (destruct (spec_page_size_padded s) as [q|]; [specialize (Hfit ltac:(by eexists)); destruct P5 as [-> P5]; rewrite Hfit, Z.div_1_r in *; split_and!; try nia; by right|]);
    (subst p; replace (num_heads s * num_states s * state_content_size_bytes s) with (num_states s * state_content_size_bytes s * num_heads s) by lia; rewrite Hdiv by lia;
     split_and!; try nia; by left).
Qed.

(** The tensor of [nl] layers that come after [off] bytes of their group's block. *)
Definition tensor_for (layout : KVCacheLayout) (size nb bpb : Z) (x : Z * (LayerSpec * list string)) : KVCacheTensor :=
  let '(off, (s, names)) := x in
  let p := match page_size_bytes s with Ok p => p | Err _ => 0 end in
  if is_block_outermost layout then mkTensor size names (page_unit layout s p) bpb off
  else mkTensor size names (p * nb) (page_unit layout s p) (off * nb).

Lemma outermost_cases layout : is_block_outermost layout = match layout with BLHNC | BLNHC | BHLNC => true | _ => false end.
Proof. by destruct layout. Qed.

Lemma strides_placed s p nb nl layout bpb : page_ok s p → padding_fits layout s → 0 < nb → 0 < nl → 0 < bpb →
  let fb := if is_block_outermost layout then Some bpb else None in
  let t := tensor_for layout 0 nb bpb (0, (s, [])) in
  ∃ hs ns xs, compute_layout_strides s nb nl layout None [None; fb; None; None; None] = Ok [layer_stride t; block_stride t; hs; ns; xs].
Proof.
  intros Hp Hfit Hnb Hnl Hbpb fb t. destruct (unit_spec layout s p Hp Hfit) as (Ho & Hu & Hpu & _ & Hcase).
  rewrite (strides_fit s p nb nl layout None fb Hp Hfit Hnb Hnl); [|done|by subst fb; destruct (is_block_outermost layout); intros v [= <-]].
  subst fb t. unfold tensor_for. rewrite (po_page _ _ Hp), outermost_cases. destruct (page_ok_pos _ _ Hp) as [Hp0 Hle].
  pose proof (po_size _ _ Hp) as Hsz. destruct layout; unfold closed_strides, outer_heads in *; cbn [default layer_stride block_stride tensor_layers];
    (destruct (spec_page_size_padded s) as [q|]; [destruct Hsz as [-> Hsz]|]); repeat eexists; destruct Hcase as [Hc1 Hc2]; rewrite ?Hc1;
    f_equal; f_equal; try nia; try (f_equal; nia).
Qed.

Lemma place_layers_spec layout size nb bpb tensors off s names p :
  page_ok s p → padding_fits layout s → 0 < nb → 0 < bpb → names ≠ [] →
  place_layers layout size nb (if is_block_outermost layout then Some bpb else None) (tensors, off) (s, names) =
    Ok (tensors ++ [tensor_for layout size nb bpb (off, (s, names))], off + py_len names * p).
Proof.
  intros Hp Hfit Hnb Hbpb Hnames. unfold place_layers.
  assert (Hnl : 0 < py_len names) by (destruct names; [done|unfold py_len; simpl; lia]).
  destruct (strides_placed s p nb (py_len names) layout bpb Hp Hfit Hnb Hnl Hbpb) as (hs & ns & xs & ->). cbn [mbind result_bind lookup list_lookup DIM_L DIM_B unwrap].
  rewrite (po_page _ _ Hp). cbn [mbind result_bind]. destruct (page_ok_pos _ _ Hp) as [Hp0 _]. rewrite (proj2 (Z.eqb_neq p 0)) by lia.
  do 4 f_equal. unfold tensor_for. rewrite (po_page _ _ Hp). destruct (unit_spec layout s p Hp Hfit) as (Ho & Hu & Hpu & _).
  destruct (is_block_outermost layout); cbn [layer_stride block_stride]; f_equal.
  - rewrite Z.max_r by nia. by apply Z.div_mul; lia.
  - rewrite Z.max_l by nia. replace (off * (p * nb)) with (off * nb * p) by lia. by apply Z.div_mul; lia.
Qed.

(** ** Addresses *)

(** An index into the page of a layer. *)
Record in_page (s : LayerSpec) (h n x : Z) : Prop := {
  ip_head : 0 ≤ h < num_heads s;
  ip_state : 0 ≤ n < num_states s;
  ip_content : 0 ≤ x < state_content_size_bytes s;
}.

(** The run of the page and the byte of the run. *)
Definition run_of (layout : KVCacheLayout) (s : LayerSpec) (h n x : Z) : Z * Z :=
  let N := num_states s in let C := state_content_size_bytes s in
  match layout with
  | LHBNC | BHLNC => (h, n * C + x)
  | LBHNC | BLHNC => (0, h * (N * C) + n * C + x)
  | LBNHC | BLNHC => (0, n * (num_heads s * C) + h * C + x)
  end.

Lemma radix_inj u q r q' r' : 0 ≤ r < u → 0 ≤ r' < u → q * u + r = q' * u + r' → q = q' ∧ r = r'.
Proof. intros Hr Hr' E. apply (Z.div_mod_unique u q q' r r'); [by left|by left|lia]. Qed.

Lemma radix_lt u k q r : 0 ≤ r < u → 0 ≤ q < k → 0 ≤ q * u + r < k * u.
Proof. nia. Qed.

Lemma run_of_spec layout s p h n x : page_ok s p → padding_fits layout s → in_page s h n x →
  0 ≤ (run_of layout s h n x).1 < outer_heads layout (num_heads s) ∧ 0 ≤ (run_of layout s h n x).2 < page_unit layout s p.
Proof.
  intros Hp Hfit [I1 I2 I3]. destruct (unit_spec layout s p Hp Hfit) as (Ho & Hu & Hpu & _ & Hcase).
  pose proof (radix_lt _ _ n x I3 I2) as H1. pose proof (radix_lt _ _ h x I3 I1) as H2. pose proof (radix_lt _ _ h _ H1 I1) as H3. pose proof (radix_lt _ _ n _ H2 I2) as H4.
  destruct layout; cbn [run_of fst snd outer_heads] in *; destruct Hcase as [_ Hc]; split; lia.
Qed.

Lemma run_of_inj layout s h n x h' n' x' : in_page s h n x → in_page s h' n' x' →
  run_of layout s h n x = run_of layout s h' n' x' → h = h' ∧ n = n' ∧ x = x'.
Proof.
  intros [I1 I2 I3] [I1' I2' I3'] E.
  pose proof (radix_lt _ _ n x I3 I2) as B1. pose proof (radix_lt _ _ h x I3 I1) as B2. pose proof (radix_lt _ _ n' x' I3' I2') as B3. pose proof (radix_lt _ _ h' x' I3' I1') as B4.
  assert (HN : ∀ m m', m * state_content_size_bytes s + x = m' * state_content_size_bytes s + x' → m = m' ∧ x = x') by (intros m m'; by apply radix_inj).
  destruct layout; cbn [run_of] in E; injection E as E.
  - destruct (radix_inj (num_states s * state_content_size_bytes s) h (n * state_content_size_bytes s + x) h' (n' * state_content_size_bytes s + x')) as [-> E']; try lia.
    destruct (HN n n' E'); done.
  - destruct (radix_inj (num_heads s * state_content_size_bytes s) n (h * state_content_size_bytes s + x) n' (h' * state_content_size_bytes s + x')) as [-> E']; try lia.
    destruct (HN h h' E'); done.
  - subst h'. by destruct (HN n n').
  - destruct (radix_inj (num_states s * state_content_size_bytes s) h (n * state_content_size_bytes s + x) h' (n' * state_content_size_bytes s + x')) as [-> E']; try lia.
    destruct (HN n n' E'); done.
  - destruct (radix_inj (num_heads s * state_content_size_bytes s) n (h * state_content_size_bytes s + x) n' (h' * state_content_size_bytes s + x')) as [-> E']; try lia.
    destruct (HN h h' E'); done.
  - subst h'. by destruct (HN n n').
Qed.

(** The address of a byte: which run of which layer of which block. *)
Lemma address_form layout size nb bpb off s names p st l b h n x :
  page_ok s p → padding_fits layout s → 0 < nb → 0 < bpb → names ≠ [] → in_page s h n x →
  let t := tensor_for layout size nb bpb (off, (s, names)) in
  view_strides s nb layout t = Ok st →
  let '(j, r) := run_of layout s h n x in
  address t st [l; b; h; n; x] =
    if is_block_outermost layout then b * bpb + (off + (j * py_len names + l) * page_unit layout s p + r)
    else (off + (l * outer_heads layout (num_heads s) + j) * page_unit layout s p) * nb + b * page_unit layout s p + r.
Proof.
  intros Hp Hfit Hnb Hbpb Hnames Hin t Hst. destruct (unit_spec layout s p Hp Hfit) as (Ho & Hu & Hpu & _ & Hcase).
  assert (Hnl : 0 < py_len names) by (destruct names; [done|unfold py_len; simpl; lia]).
  destruct (page_ok_pos _ _ Hp) as [Hp0 _].
  unfold view_strides in Hst. rewrite (strides_fit s p) in Hst; try done.
  - subst t. unfold tensor_for in *. rewrite (po_page _ _ Hp) in *. rewrite outermost_cases in *. injection Hst as <-. unfold address.
    clear Hcase Hu. destruct layout; cbn [closed_strides default run_of tensor_layers layer_stride block_stride tensor_offset zip_with sumZ foldr outer_heads] in *;
      match type of Hpu with p = ?u * _ => generalize dependent u; intros v Hv; rewrite ?Hv; unfold id; ring end.
  - subst t. unfold tensor_for. by destruct (is_block_outermost layout).
  - intros v [= <-]. subst t. unfold tensor_for. rewrite (po_page _ _ Hp). destruct (is_block_outermost layout); cbn; [done|nia].
  - intros v [= <-]. subst t. unfold tensor_for. rewrite (po_page _ _ Hp). by destruct (is_block_outermost layout).
Qed.

(** ** The tensors of a group *)

Definition page_of (s : LayerSpec) : Z := match page_size_bytes s with Ok p => p | Err _ => 0 end.
Definition layer_page (g : LayerGroup) (name : string) : Z := match _get_per_layer_spec g name with Ok s => page_of s | Err _ => 0 end.

(** A group as the grouping makes it: every layer has a specification with a
    page, and a dictionary has exactly the layers of the group. *)
Record group_ok (g : LayerGroup) : Prop := {
  go_names : NoDup (layer_names g);
  go_dict : match kv_cache_spec g with UniformTypeKVCacheSpecs _ specs => specs.*1 = layer_names g | OneSpec _ => True end;
  go_pages name : name ∈ layer_names g → ∃ s p, _get_per_layer_spec g name = Ok s ∧ page_ok s p;
}.

Record entries_ok (g : LayerGroup) (names : list string) (es : list (LayerSpec * list string)) : Prop := {
  eo_names : mjoin es.*2 ≡ₚ names;
  eo_entry s ns : (s, ns) ∈ es → ns ≠ [] ∧ ∀ name, name ∈ ns → _get_per_layer_spec g name = Ok s;
}.

Lemma od_set_join `{EqDecision K} (acc : list (K * list string)) s name :
  mjoin (od_set acc s (default [] (od_get acc s) ++ [name])).*2 ≡ₚ mjoin acc.*2 ++ [name].
Proof.
  induction acc as [|[s' ns] acc IH]; [done|]. cbn [od_get od_set]. case_decide; cbn [fmap list_fmap mjoin list_join snd].
  - cbn [default]. rewrite <-!app_assoc. by rewrite (Permutation_app_comm [name]).
  - rewrite IH. by rewrite app_assoc.
Qed.

Lemma od_set_entry {V} (acc : list (LayerSpec * V)) s v s' v' : (s', v') ∈ od_set acc s v → (s', v') = (s, v) ∨ (s', v') ∈ acc.
Proof.
  induction acc as [|[s1 v1] acc IH]; cbn [od_set]; [intros Hin; left; by apply list_elem_of_singleton in Hin|].
  case_decide; intros [Hin|Hin]%elem_of_cons; [by left|by right; right|right; rewrite Hin; left|]. destruct (IH Hin); [by left|right; by right].
Qed.

Lemma layers_by_spec_ok g : group_ok g → entries_ok g (layer_names g) (layers_by_spec g).
Proof.
  intros [G1 G2 G3]. unfold layers_by_spec. destruct (kv_cache_spec g) as [s|b specs] eqn:Hs.
  - destruct (layer_names g) as [|n ns] eqn:Hn; split; cbn; [done|by intros ? ? ?%elem_of_nil|by rewrite app_nil_r|].
    intros s' ns' [= -> ->]%list_elem_of_singleton. split; [done|]. intros name _. unfold _get_per_layer_spec. by rewrite Hs.
  - rewrite <-G2. assert (Hg : ∀ name s, (name, s) ∈ specs → _get_per_layer_spec g name = Ok s).
    { intros name s Hin. unfold _get_per_layer_spec. rewrite Hs, (od_get_In specs name s); [done| |done]. unfold od_keys. by rewrite G2. }
    clear G1 G2 G3 Hs. cut (∀ todo dn acc, specs = dn ++ todo → entries_ok g dn.*1 acc → entries_ok g specs.*1 (foldl add_layer acc todo)).
    { intros Hc. apply (Hc specs []); [done|]. split; [done|]. by intros ? ? ?%elem_of_nil. }
    induction todo as [|[name s] todo IH]; intros dn acc Hd He; cbn [foldl]; [by rewrite Hd, app_nil_r|].
    apply (IH (dn ++ [(name, s)])); [by rewrite <-app_assoc|]. destruct He as [E1 E2]. unfold add_layer. cbn [fst snd]. split.
    + rewrite od_set_join, E1, fmap_app. done.
    + intros s' ns Hin. apply od_set_entry in Hin as [[= -> ->]|Hin]; [|by apply E2]. split; [by destruct (default _ _)|].
      intros name' [Hin| ->%list_elem_of_singleton]%elem_of_app; [|apply Hg; rewrite Hd; set_solver].
      destruct (od_get acc s) as [ns0|] eqn:Hg0; [|by apply elem_of_nil in Hin]. apply od_get_Some_in in Hg0. by apply (E2 s ns0).
Qed.

(** Where each entry of the group starts. *)
Fixpoint offsets (off : Z) (es : list (LayerSpec * list string)) : list (Z * (LayerSpec * list string)) :=
  match es with [] => [] | e :: es => (off, e) :: offsets (off + py_len e.2 * page_of e.1) es end.

Definition entry_bytes (es : list (LayerSpec * list string)) : Z := sumZ ((λ e, py_len e.2 * page_of e.1) <$> es).
Definition group_bytes (g : LayerGroup) : Z := sumZ (layer_page g <$> layer_names g).

Lemma entry_bytes_group g : group_ok g → entry_bytes (layers_by_spec g) = group_bytes g.
Proof.
  intros Hg. destruct (layers_by_spec_ok g Hg) as [E1 E2]. unfold group_bytes. rewrite <-E1. clear E1 Hg.
  induction (layers_by_spec g) as [|[s ns] es IH]; [done|]. cbn [fmap list_fmap mjoin list_join snd]. rewrite fmap_app, sumZ_app.
  unfold entry_bytes in *. cbn [fmap list_fmap fst snd sumZ foldr]. fold (sumZ ((λ e, py_len e.2 * page_of e.1) <$> es)).
  rewrite IH by (intros s' ns' ?; apply E2; by right). f_equal. destruct (E2 s ns) as [_ Hn]; [left|]. clear E2 IH.
  induction ns as [|n ns IH]; [done|]. cbn [fmap list_fmap sumZ foldr]. fold (sumZ (layer_page g <$> ns)). rewrite <-IH by (intros ? ?; apply Hn; by right).
  unfold layer_page at 1. rewrite (Hn n) by left. unfold py_len. simpl. lia.
Qed.

Section Offsets.
Context (es : list (LayerSpec * list string)) (Hpos : ∀ s ns, (s, ns) ∈ es → 0 ≤ page_of s).

Lemma offsets_in : ∀ o off e, (off, e) ∈ offsets o es → e ∈ es ∧ o ≤ off ∧ off + py_len e.2 * page_of e.1 ≤ o + entry_bytes es.
Proof.
  induction es as [|e0 l IH]; intros o off e; cbn [offsets]; [by intros ?%elem_of_nil|].
  assert (H0 : 0 ≤ page_of e0.1) by (destruct e0; eapply Hpos; left). pose proof (py_len_nonneg e0.2).
  assert (Htl : ∀ s ns, (s, ns) ∈ l → 0 ≤ page_of s) by (intros; eapply Hpos; by right).
  assert (Hb : 0 ≤ entry_bytes l).
  { unfold entry_bytes. apply sumZ_nonneg. intros x ([s ns] & -> & Hin)%list_elem_of_fmap. cbn. pose proof (Htl s ns Hin). pose proof (py_len_nonneg ns). nia. }
  unfold entry_bytes in *. cbn [fmap list_fmap sumZ foldr]. fold (sumZ ((λ e, py_len e.2 * page_of e.1) <$> l)).
  intros [[= -> ->]|Hin]%elem_of_cons; [split; [left|]; split; nia|].
  destruct (IH Htl _ _ _ Hin) as (H1 & H2 & H3). split; [by right|]. split; nia.
Qed.

(** A byte of the block lies in one entry only. *)
Lemma offsets_disjoint : ∀ o off1 e1 off2 e2 z, (off1, e1) ∈ offsets o es → (off2, e2) ∈ offsets o es →
  off1 ≤ z < off1 + py_len e1.2 * page_of e1.1 → off2 ≤ z < off2 + py_len e2.2 * page_of e2.1 → (off1, e1) = (off2, e2).
Proof.
  induction es as [|e0 l IH]; intros o off1 e1 off2 e2 z; cbn [offsets]; [by intros ?%elem_of_nil|].
  assert (Htl : ∀ s ns, (s, ns) ∈ l → 0 ≤ page_of s) by (intros; eapply Hpos; by right).
  assert (Hge : ∀ off e, (off, e) ∈ offsets (o + py_len e0.2 * page_of e0.1) l → o + py_len e0.2 * page_of e0.1 ≤ off).
  { clear - Htl. generalize (o + py_len e0.2 * page_of e0.1). induction l as [|e1 l IH]; intros o' off e; cbn [offsets]; [by intros ?%elem_of_nil|].
    intros [[= -> ->]|Hin]%elem_of_cons; [lia|]. assert (0 ≤ page_of e1.1) by (destruct e1; eapply Htl; left). pose proof (py_len_nonneg e1.2).
    specialize (IH ltac:(intros; eapply Htl; by right) _ _ _ Hin). nia. }
  intros [E1|H1]%elem_of_cons [E2|H2]%elem_of_cons Hz1 Hz2.
  - congruence.
  - injection E1 as -> ->. apply Hge in H2. lia.
  - injection E2 as -> ->. apply Hge in H1. lia.
  - by apply (IH Htl _ _ _ _ _ z H1 H2).
Qed.

Lemma offsets_multiple p : (∀ s ns, (s, ns) ∈ es → page_of s = p) → ∀ o off e, (off, e) ∈ offsets o es → ∃ k, off = o + k * p.
Proof.
  induction es as [|e0 l IH]; intros Hp o off e; cbn [offsets]; [by intros ?%elem_of_nil|].
  intros [[= -> ->]|Hin]%elem_of_cons; [exists 0; lia|]. destruct (IH ltac:(intros; eapply Hpos; by right) ltac:(intros; eapply Hp; by right) _ _ _ Hin) as [k ->].
  assert (page_of e0.1 = p) as -> by (destruct e0; eapply Hp; left). exists (k + py_len e0.2). lia.
Qed.
End Offsets.

Lemma offsets_lookup es e : e ∈ es → ∀ o, ∃ off, (off, e) ∈ offsets o es.
Proof.
  induction es as [|e0 es IH]; [by intros ?%elem_of_nil|]. intros [->|Hin]%elem_of_cons o; cbn [offsets]; [exists o; left|].
  destruct (IH Hin (o + py_len e0.2 * page_of e0.1)) as [off Hoff]. exists off. by right.
Qed.

Lemma place_layers_fits layout nb tensors off s names bpb x p :
  page_ok s p → 0 < nb → 0 < bpb → names ≠ [] → ∀ size,
  place_layers layout size nb (if is_block_outermost layout then Some bpb else None) (tensors, off) (s, names) = Ok x → padding_fits layout s.
Proof.
  intros Hp Hnb Hbpb Hnames size. unfold place_layers. assert (Hnl : 0 < py_len names) by (destruct names; [done|unfold py_len; simpl; lia]).
  rewrite (strides_closed s p); [|done|done|done|done|destruct (is_block_outermost layout); by intros v [= <-]].
  destruct (bool_decide _ && _) eqn:E; [done|]. intros _ Hs. rewrite (bool_decide_eq_true_2 _ Hs) in E. cbn in E. apply negb_false_iff, Z.eqb_eq in E. done.
Qed.

(** The tensors of one group, one after the other. *)
Lemma place_entries layout size nb bpb es : ∀ tensors off x,
  (∀ s ns, (s, ns) ∈ es → ns ≠ [] ∧ ∃ p, page_ok s p) → 0 < nb → 0 < bpb →
  foldM (place_layers layout size nb (if is_block_outermost layout then Some bpb else None)) (tensors, off) es = Ok x →
  x.1 = tensors ++ (tensor_for layout size nb bpb <$> offsets off es) ∧ (∀ s ns, (s, ns) ∈ es → padding_fits layout s).
Proof.
  induction es as [|[s ns] es IH]; intros tensors off x Hes Hnb Hbpb Hx; cbn [foldM] in Hx.
  { injection Hx as <-. cbn. rewrite app_nil_r. split; [done|]. by intros ? ? ?%elem_of_nil. }
  destruct (Hes s ns) as [Hns [p Hp]]; [left|].
  destruct (place_layers _ _ _ _ (tensors, off) (s, ns)) as [y|] eqn:Hy; [|done].
  pose proof (place_layers_fits layout nb tensors off s ns bpb y p Hp Hnb Hbpb Hns size Hy) as Hfit.
  rewrite (place_layers_spec layout size nb bpb tensors off s ns p Hp Hfit Hnb Hbpb Hns) in Hy. apply (f_equal (λ m, match m with Ok z => z | Err _ => y end)) in Hy.
  cbn beta iota in Hy. subst y. cbn [mbind result_bind] in Hx.
  apply IH in Hx as [H1 H2]; [|intros; apply Hes; by right|done|done]. rewrite H1. split.
  - assert (Hpage : page_of s = p) by (unfold page_of; by rewrite (po_page _ _ Hp)). rewrite <-app_assoc. cbn [offsets fmap list_fmap app fst snd]. by rewrite Hpage.
  - intros s' ns' [[= -> ->]|Hin]%elem_of_cons; [done|by eapply H2].
Qed.

(** ** The whole configuration *)

Definition groups_ok (groups : list LayerGroup) : Prop := (∀ g, g ∈ groups → group_ok g) ∧ NoDup (mjoin (layer_names <$> groups)).

Definition group_tensors (layout : KVCacheLayout) (size nb bpb : Z) (g : LayerGroup) : list KVCacheTensor :=
  tensor_for layout size nb bpb <$> offsets 0 (layers_by_spec g).

Lemma entry_page g s ns : group_ok g → (s, ns) ∈ layers_by_spec g → ns ≠ [] ∧ ∃ p, page_ok s p ∧ page_of s = p.
Proof.
  intros Hg Hin. destruct (layers_by_spec_ok g Hg) as [E1 E2]. destruct (E2 s ns Hin) as [Hns Hspec]. split; [done|].
  destruct ns as [|n ns]; [done|]. destruct (go_pages g Hg n) as (s' & p & Hs' & Hp).
  - rewrite <-E1. apply list_elem_of_join. exists (n :: ns). split; [left|]. change (n :: ns) with (s, n :: ns).2. by apply list_elem_of_fmap_2.
  - rewrite (Hspec n) in Hs' by left. injection Hs' as <-. exists p. split; [done|]. unfold page_of. by rewrite (po_page _ _ Hp).
Qed.

Lemma place_groups layout size nb bpb groups : ∀ tensors x,
  (∀ g, g ∈ groups → group_ok g) → 0 < nb → 0 < bpb →
  foldM (place_group layout size nb (if is_block_outermost layout then Some bpb else None)) tensors groups = Ok x →
  x = tensors ++ mjoin (group_tensors layout size nb bpb <$> groups) ∧
  ∀ g s ns, g ∈ groups → (s, ns) ∈ layers_by_spec g → padding_fits layout s.
Proof.
  induction groups as [|g groups IH]; intros tensors x Hg Hnb Hbpb Hx; cbn [foldM] in Hx.
  { injection Hx as <-. cbn. rewrite app_nil_r. split; [done|]. by intros ? ? ? ?%elem_of_nil. }
  destruct (place_group _ _ _ _ tensors g) as [ts1|] eqn:Hp; [|done]. unfold place_group in Hp. apply bind_Ok in Hp as (y & Hy & Hts).
  apply place_entries in Hy as [H1 H2]; [|intros s ns Hin; destruct (entry_page g s ns) as (? & p & ? & _); [apply Hg; left|done|by eauto]|done|done].
  destruct y as [ts off]. injection Hts as <-. cbn [mbind result_bind fst] in *. apply IH in Hx as [H3 H4]; [|intros; apply Hg; by right|done|done].
  subst. split; [cbn [fmap list_fmap mjoin list_join]; by rewrite <-app_assoc|].
  intros g' s ns [->|Hin]%elem_of_cons Hs; [by eapply H2|by eapply H4].
Qed.

Lemma layer_pages_bytes g : group_ok g → layer_pages g = Ok (layer_page g <$> layer_names g).
Proof.
  intros Hg. unfold layer_pages. assert (Hn : ∀ name, name ∈ layer_names g → (s ← _get_per_layer_spec g name; page_size_bytes s) = Ok (layer_page g name)).
  { intros name Hin. destruct (go_pages g Hg name Hin) as (s & p & Hs & Hp). unfold layer_page. rewrite Hs. cbn. unfold page_of. by rewrite (po_page _ _ Hp). }
  clear Hg. induction (layer_names g) as [|n ns IH]; [done|]. cbn [mapM_ok]. rewrite (Hn n) by left. cbn [mbind result_bind].
  by rewrite IH by (intros; apply Hn; by right).
Qed.

Lemma foldl_max_ge (l : list Z) : ∀ y x, x = y ∨ x ∈ l → x ≤ foldl Z.max y l.
Proof.
  induction l as [|z l IH]; intros y x; cbn; [intros [->|?%elem_of_nil]; [lia|done]|].
  assert (Hz : Z.max y z ≤ foldl Z.max (Z.max y z) l) by (apply IH; by left). intros [->|[->|Hin]%elem_of_cons]; [lia|lia|]. apply IH. by right.
Qed.

Lemma py_max_list_ge l m x : py_max_list l = Ok m → x ∈ l → x ≤ m.
Proof. destruct l as [|y l]; [done|]. cbn. intros [= <-] Hx%elem_of_cons. by apply foldl_max_ge. Qed.

Lemma py_max_list_in l m : py_max_list l = Ok m → m ∈ l.
Proof.
  destruct l as [|y l]; [done|]. cbn. intros [= <-]. revert y. induction l as [|z l IH]; intros y; cbn; [left|].
  specialize (IH (Z.max y z)). apply elem_of_cons in IH as [->|H]; [|by do 2 right].
  destruct (Z.max_spec y z) as [[_ ->]|[_ ->]]; [right; left|left].
Qed.

Lemma pool_bytes_spec groups bpb : (∀ g, g ∈ groups → group_ok g) → _pool_bytes_per_block groups = Ok bpb →
  0 < bpb ∧ (∀ g, g ∈ groups → group_bytes g ≤ bpb) ∧ ∃ g, g ∈ groups ∧ bpb = group_bytes g.
Proof.
  intros Hg. unfold _pool_bytes_per_block.
  assert (Hsizes : mapM_ok (λ g, sumZ <$> layer_pages g) groups = Ok (group_bytes <$> groups)).
  { induction groups as [|g groups IH]; [done|]. cbn [mapM_ok]. rewrite layer_pages_bytes by (apply Hg; left). cbn [fmap result_fmap mbind result_bind].
    by rewrite IH by (intros; apply Hg; by right). }
  rewrite Hsizes. cbn [mbind result_bind]. destruct (py_max_list _) as [m|] eqn:Hm; [|done]. cbn. destruct (0 <? m) eqn:H0; [|done]. intros [= <-].
  split; [by apply Z.ltb_lt|]. split.
  - intros g Hin. eapply py_max_list_ge; [exact Hm|]. by apply list_elem_of_fmap_2.
  - apply py_max_list_in in Hm. apply list_elem_of_fmap in Hm as (g & -> & Hin). by exists g.
Qed.

(** What a configuration of at least one group consists of. *)
Record built (cfg : VllmConfig) (layout : KVCacheLayout) (groups : list LayerGroup) (memory bpb : Z) (c : MemoryConfig) : Prop := {
  bu_bytes : _pool_bytes_per_block groups = Ok bpb;
  bu_blocks : cfg_num_blocks c = may_override_num_blocks cfg (memory / bpb);
  bu_valid : validate_kv_cache_layout layout groups = Ok tt;
  bu_groups : cfg_groups c = groups;
  bu_tensors : 0 < cfg_num_blocks c → kv_cache_tensors c = mjoin (group_tensors layout (bpb * cfg_num_blocks c) (cfg_num_blocks c) bpb <$> groups);
  bu_padding g s ns : 0 < cfg_num_blocks c → g ∈ groups → (s, ns) ∈ layers_by_spec g → padding_fits layout s;
}.

Lemma config_built cfg layout groups memory c :
  groups ≠ [] → (∀ g, g ∈ groups → group_ok g) → layout_resolved cfg = Some layout →
  get_kv_cache_config_from_groups cfg groups memory = Ok c → ∃ bpb, built cfg layout groups memory bpb c.
Proof.
  intros Hne Hg Hl. unfold get_kv_cache_config_from_groups. destruct groups as [|g0 gs] eqn:Hgs; [done|]. rewrite <-Hgs in *. clear Hne.
  rewrite Hl. cbn [unwrap mbind result_bind]. destruct (validate_kv_cache_layout layout groups) as [[]|] eqn:Hv; [|done]. cbn [mbind result_bind].
  destruct (_pool_bytes_per_block groups) as [bpb|] eqn:Hb; [|done]. cbn [mbind result_bind]. cbv zeta.
  destruct (foldM _ _ _) as [ts|] eqn:Ht; [|done]. intros [= <-]. exists bpb. destruct (pool_bytes_spec groups bpb Hg Hb) as (Hpos & _).
  assert (Hn : 0 < may_override_num_blocks cfg (memory / bpb) → ts = mjoin (group_tensors layout (bpb * may_override_num_blocks cfg (memory / bpb)) (may_override_num_blocks cfg (memory / bpb)) bpb <$> groups) ∧
    ∀ g s ns, g ∈ groups → (s, ns) ∈ layers_by_spec g → padding_fits layout s) by (intros Hnb; by apply place_groups in Ht).
  split; cbn [cfg_num_blocks kv_cache_tensors cfg_groups]; try done.
  - intros Hnb. by apply Hn.
  - intros g s ns Hnb. by apply Hn.
Qed.

(** ** Pages of layers *)

(** Layer [name] of group [g], of specification [s], is the [l]-th of the tensor
    [t]. *)
Record layer_at (c : MemoryConfig) (g : LayerGroup) (name : string) (s : LayerSpec) (t : KVCacheTensor) (l : nat) : Prop := {
  la_group : g ∈ cfg_groups c;
  la_name : name ∈ layer_names g;
  la_tensor : t ∈ kv_cache_tensors c;
  la_index : tensor_layers t !! l = Some name;
  la_spec : _get_per_layer_spec g name = Ok s;
}.

(** A byte of the page of block [b] of that layer, as the views address it. *)
Definition byte_at (layout : KVCacheLayout) (c : MemoryConfig) (s : LayerSpec) (t : KVCacheTensor) (l : nat) (b h n x addr : Z) : Prop :=
  0 ≤ b < cfg_num_blocks c ∧ in_page s h n x ∧
  ∃ st, view_strides s (cfg_num_blocks c) layout t = Ok st ∧ address t st [Z.of_nat l; b; h; n; x] = addr.

Lemma NoDup_join_same {A B} (f : A → list B) l x y b : NoDup (mjoin (f <$> l)) → x ∈ l → y ∈ l → b ∈ f x → b ∈ f y → x = y.
Proof.
  assert (Hout : ∀ l z, z ∈ l → b ∈ f z → b ∈ mjoin (f <$> l)).
  { intros l0 z Hz Hb. apply list_elem_of_join. exists (f z). split; [done|]. by apply list_elem_of_fmap_2. }
  induction l as [|z l IH]; [by intros _ ?%elem_of_nil|]. cbn [fmap list_fmap mjoin list_join]. intros (Hz & Hdis & Hl)%NoDup_app.
  intros [->|Hx]%elem_of_cons [->|Hy]%elem_of_cons Hbx Hby; [done| | |by apply IH].
  - destruct (Hdis b Hbx). by eapply Hout.
  - destruct (Hdis b Hby). by eapply Hout.
Qed.

(** Where a byte lies: run [j] of layer [l] of an entry of its group. *)
Record spot (layout : KVCacheLayout) (g : LayerGroup) (bpb nb : Z) (name : string) (s : LayerSpec) (b h n x addr : Z)
    (off l j r u p : Z) (ns : list string) : Prop := {
  sp_entry : (off, (s, ns)) ∈ offsets 0 (layers_by_spec g);
  sp_name : 0 ≤ l ∧ ns !! Z.to_nat l = Some name;
  sp_page : page_ok s p ∧ page_of s = p;
  sp_unit : 0 < u ∧ p = u * outer_heads layout (num_heads s);
  sp_run : run_of layout s h n x = (j, r) ∧ 0 ≤ j < outer_heads layout (num_heads s) ∧ 0 ≤ r < u;
  sp_block : 0 ≤ b < nb;
  sp_addr : addr = if is_block_outermost layout then b * bpb + (off + (j * py_len ns + l) * u + r)
                   else (off + (l * outer_heads layout (num_heads s) + j) * u) * nb + b * u + r;
  sp_off : 0 ≤ off ∧ off + py_len ns * p ≤ group_bytes g;
  sp_len : l < py_len ns;
}.

Lemma byte_spot cfg layout groups memory bpb c g name s t l b h n x addr :
  built cfg layout groups memory bpb c → groups_ok groups → layer_at c g name s t l → byte_at layout c s t l b h n x addr →
  g ∈ groups ∧ tensor_size t = bpb * cfg_num_blocks c ∧ ∃ off j r u p ns, spot layout g bpb (cfg_num_blocks c) name s b h n x addr off (Z.of_nat l) j r u p ns.
Proof.
  intros Hbu [Hg Hnd] [L1 L2 L3 L4 L5] (Hb & Hin & st & Hst & Ha). assert (Hnb : 0 < cfg_num_blocks c) by lia.
  destruct (pool_bytes_spec groups bpb Hg (bu_bytes _ _ _ _ _ _ Hbu)) as (Hbpb & Hle & _).
  rewrite (bu_groups _ _ _ _ _ _ Hbu) in L1. split; [done|]. rewrite (bu_tensors _ _ _ _ _ _ Hbu Hnb) in L3.
  apply list_elem_of_join in L3 as (ts & L3 & Hts). apply list_elem_of_fmap in Hts as (g' & -> & Hg'). unfold group_tensors in L3.
  apply list_elem_of_fmap in L3 as ([off [s' ns]] & -> & Hoff). set (nb := cfg_num_blocks c) in *.
  assert (Hidx : ns !! l = Some name) by (unfold tensor_for in L4; by destruct (is_block_outermost layout)).
  assert (Hpos : ∀ s ns, (s, ns) ∈ layers_by_spec g' → 0 ≤ page_of s).
  { intros s0 ns0 H0. destruct (entry_page g' s0 ns0 (Hg g' Hg') H0) as (_ & p & Hp & ->). destruct (page_ok_pos _ _ Hp). lia. }
  destruct (offsets_in _ Hpos _ _ _ Hoff) as (He & Ho1 & Ho2). cbn [fst snd] in Ho2.
  destruct (layers_by_spec_ok g' (Hg g' Hg')) as [E1 E2]. destruct (E2 s' ns He) as [Hns Hspec].
  assert (Hname : name ∈ ns) by by eapply list_elem_of_lookup_2.
  assert (g' = g) as ->.
  { eapply (NoDup_join_same layer_names groups g' g name); try done. rewrite <-E1. apply list_elem_of_join. exists ns. split; [done|].
    change ns with (s', ns).2. by apply list_elem_of_fmap_2. }
  rewrite (Hspec name Hname) in L5. injection L5 as ->. destruct (entry_page g s ns (Hg g Hg') He) as (_ & p & Hp & Hpp).
  pose proof (bu_padding _ _ _ _ _ _ Hbu g s ns Hnb Hg' He) as Hfit. destruct (unit_spec layout s p Hp Hfit) as (Hoh & Hu & Hpu & _).
  destruct (run_of_spec layout s p h n x Hp Hfit Hin) as [Hj Hr].
  pose proof (address_form layout (bpb * nb) nb bpb off s ns p st (Z.of_nat l) b h n x Hp Hfit Hnb Hbpb Hns Hin Hst) as Hform.
  split; [unfold tensor_for; by destruct (is_block_outermost layout)|].
  destruct (run_of layout s h n x) as [j r] eqn:Hrun. cbn [fst snd] in *. exists off, j, r, (page_unit layout s p), p, ns.
  assert (Hlen : (l < length ns)%nat) by by eapply lookup_lt_Some.
  split; try done.
  - split; [lia|]. by rewrite Nat2Z.id.
  - by rewrite <-Ha, Hform.
  - rewrite <-Hpp. rewrite entry_bytes_group in Ho2 by by apply Hg. lia.
  - unfold py_len. lia.
Qed.

(** Only under LHBNC do runs of different groups interleave: there all layers
    must have the same heads. *)
Definition heads_agree (layout : KVCacheLayout) (groups : list LayerGroup) : Prop :=
  layout = LHBNC → ∀ g1 g2 name1 name2 s1 s2, g1 ∈ groups → g2 ∈ groups → name1 ∈ layer_names g1 → name2 ∈ layer_names g2 →
    _get_per_layer_spec g1 name1 = Ok s1 → _get_per_layer_spec g2 name2 = Ok s2 → num_heads s1 = num_heads s2.

(** Two bytes at one address, in the same group, are one byte. *)
Definition same_byte (off1 l1 j1 r1 off2 l2 j2 r2 : Z) (e1 e2 : LayerSpec * list string) : Prop :=
  (off1, e1) = (off2, e2) ∧ l1 = l2 ∧ j1 = j2 ∧ r1 = r2.

Lemma inner_bounds layout g bpb nb name s b h n x addr off l j r u p ns :
  spot layout g bpb nb name s b h n x addr off l j r u p ns →
  let oh := outer_heads layout (num_heads s) in
  0 ≤ j * py_len ns + l < oh * py_len ns ∧ off ≤ off + (j * py_len ns + l) * u + r < off + py_len ns * p ∧
  off ≤ off + (l * oh + j) * u ∧ off + (l * oh + j) * u + u ≤ off + (l + 1) * p ∧ (l + 1) * p ≤ py_len ns * p ∧ 0 ≤ l * p.
Proof.
  intros [_ [Hl _] [Hp _] [Hu Hpu] (_ & Hj & Hr) _ _ _ Hlen] oh. subst oh. set (oh := outer_heads layout (num_heads s)) in *. clearbody oh.
  assert (Hp0 : 0 < p) by (destruct (page_ok_pos _ _ Hp); lia). clear Hp.
  assert (H1 : 0 ≤ j * py_len ns + l < oh * py_len ns) by nia. split; [done|].
  assert (H2 : 0 ≤ l * oh + j < py_len ns * oh) by nia. assert (H3 : l * oh + j + 1 ≤ (l + 1) * oh) by nia.
  assert (H4 : (j * py_len ns + l + 1) * u ≤ oh * py_len ns * u) by (apply Z.mul_le_mono_nonneg_r; lia).
  assert (H5 : (l * oh + j + 1) * u ≤ (l + 1) * oh * u) by (apply Z.mul_le_mono_nonneg_r; lia).
  assert (H6 : 0 ≤ (j * py_len ns + l) * u) by (apply Z.mul_nonneg_nonneg; lia). assert (H7 : 0 ≤ (l * oh + j) * u) by (apply Z.mul_nonneg_nonneg; lia).
  assert (H8 : (l + 1) * p ≤ py_len ns * p) by (apply Z.mul_le_mono_nonneg_r; lia). assert (H9 : 0 ≤ l * p) by (apply Z.mul_nonneg_nonneg; lia).
  subst p. split_and!; lia.
Qed.
