(* ===== verification/KVPages.v ===== *)
(** * The pages of the KV cache: separation and bounds

    Theorems on the configurations of [KVLayout]: what the views of the workers
    address. *)

From S2P Require Import Prelude KVSpec KVLayout KVLayoutSpec.
Local Open Scope Z_scope.

(** ** What validation leaves *)

Lemma one_page (l : list Z) : py_len (remove_dups l) = 1 → ∃ p, ∀ x, x ∈ l → x = p.
Proof.
  intros H. destruct (remove_dups l) as [|p [|q r]] eqn:E; try (unfold py_len in H; simpl in H; lia).
  exists p. intros x Hx%elem_of_remove_dups. rewrite E in Hx. by apply list_elem_of_singleton in Hx.
Qed.

Lemma all_layer_pages groups : (∀ g, g ∈ groups → group_ok g) → mapM_ok layer_pages groups = Ok ((λ g, layer_page g <$> layer_names g) <$> groups).
Proof.
  intros Hg. induction groups as [|g groups IH]; [done|]. cbn [mapM_ok]. rewrite layer_pages_bytes by (apply Hg; left). cbn [mbind result_bind].
  by rewrite IH by (intros; apply Hg; by right).
Qed.

Lemma valid_cases layout groups : (∀ g, g ∈ groups → group_ok g) → validate_kv_cache_layout layout groups = Ok tt →
  (∃ p, ∀ g name, g ∈ groups → name ∈ layer_names g → layer_page g name = p) ∨
  is_block_compact layout = true ∧ (is_layer_compact layout = true → ∀ g1 g2, g1 ∈ groups → g2 ∈ groups → g1 = g2).
Proof.
  intros Hg. unfold validate_kv_cache_layout. rewrite all_layer_pages by done. cbn [mbind result_bind].
  destruct (_ =? 1) eqn:H1.
  - intros _. left. apply Z.eqb_eq in H1. destruct (one_page _ H1) as [p Hp]. exists p. intros g name Hin Hn. apply Hp.
    apply list_elem_of_join. exists (layer_page g <$> layer_names g). split; [by apply list_elem_of_fmap_2|].
    by apply (list_elem_of_fmap_2 (λ g, layer_page g <$> layer_names g)).
  - destruct (is_block_compact layout); [|done]. cbn. destruct (is_layer_compact layout); [|by right]. rewrite andb_true_r.
    destruct (1 <? py_len groups) eqn:Hlen; [done|]. intros _. right. split; [done|]. intros _ g1 g2 H G.
    apply Z.ltb_ge in Hlen. destruct groups as [|g [|g' gs]]; [by apply elem_of_nil in H| |unfold py_len in Hlen; simpl in Hlen; lia].
    apply list_elem_of_singleton in H, G. congruence.
Qed.

(** ** Two bytes at one address *)

Lemma spot_name layout g bpb nb name s b h n x addr off l j r u p ns :
  spot layout g bpb nb name s b h n x addr off l j r u p ns → group_ok g → name ∈ layer_names g ∧ _get_per_layer_spec g name = Ok s.
Proof.
  intros S1 Hg. pose proof S1 as [E [_ N] _ _ _ _ _ _ _]. apply list_elem_of_lookup_2 in N.
  assert (Hpos : ∀ s ns, (s, ns) ∈ layers_by_spec g → 0 ≤ page_of s).
  { intros s0 ns0 H0. destruct (entry_page g s0 ns0 Hg H0) as (_ & q & Hq & ->). destruct (page_ok_pos _ _ Hq). lia. }
  destruct (offsets_in _ Hpos _ _ _ E) as (I & _). destruct (layers_by_spec_ok g Hg) as [E1 E2]. split; [|by eapply E2].
  rewrite <-E1. apply list_elem_of_join. exists ns. split; [done|]. by apply (list_elem_of_fmap_2 snd _ (s, ns)).
Qed.

Section Separation.
Context (layout : KVCacheLayout) (groups : list LayerGroup) (bpb nb : Z).
Context (Hgroups : ∀ g, g ∈ groups → group_ok g) (Hvalid : validate_kv_cache_layout layout groups = Ok tt).
Context (Hbpb : ∀ g, g ∈ groups → group_bytes g ≤ bpb) (Hheads : heads_agree layout groups).
Context {g1 g2 : LayerGroup} {name1 name2 : string} {s1 s2 : LayerSpec} {b1 h1 n1 x1 b2 h2 n2 x2 addr : Z}.
Context {off1 l1 j1 r1 u1 p1 off2 l2 j2 r2 u2 p2 : Z} {ns1 ns2 : list string}.
Context (Hg1 : g1 ∈ groups) (Hg2 : g2 ∈ groups).
Context (S1 : spot layout g1 bpb nb name1 s1 b1 h1 n1 x1 addr off1 l1 j1 r1 u1 p1 ns1).
Context (S2 : spot layout g2 bpb nb name2 s2 b2 h2 n2 x2 addr off2 l2 j2 r2 u2 p2 ns2).

Lemma pages_nonneg g : g ∈ groups → ∀ s ns, (s, ns) ∈ layers_by_spec g → 0 ≤ page_of s.
Proof. intros Hg s ns Hin. destruct (entry_page g s ns (Hgroups g Hg) Hin) as (_ & p & Hp & ->). destruct (page_ok_pos _ _ Hp). lia. Qed.

(** With the blocks outermost a block is a stretch of [bpb] bytes. *)
Lemma outermost_block : is_block_outermost layout = true → b1 = b2 ∧
  off1 + (j1 * py_len ns1 + l1) * u1 + r1 = off2 + (j2 * py_len ns2 + l2) * u2 + r2.
Proof.
  intros Hout. pose proof (inner_bounds _ _ _ _ _ _ _ _ _ _ _ _ _ _ _ _ _ _ S1) as (_ & I1 & _). pose proof (inner_bounds _ _ _ _ _ _ _ _ _ _ _ _ _ _ _ _ _ _ S2) as (_ & I2 & _).
  pose proof (sp_off _ _ _ _ _ _ _ _ _ _ _ _ _ _ _ _ _ _ S1). pose proof (sp_off _ _ _ _ _ _ _ _ _ _ _ _ _ _ _ _ _ _ S2).
  pose proof (Hbpb g1 Hg1). pose proof (Hbpb g2 Hg2). pose proof (sp_addr _ _ _ _ _ _ _ _ _ _ _ _ _ _ _ _ _ _ S1) as A1.
  pose proof (sp_addr _ _ _ _ _ _ _ _ _ _ _ _ _ _ _ _ _ _ S2) as A2. rewrite Hout in A1, A2. apply (radix_inj bpb); lia.
Qed.

Lemma same_entry z : g1 = g2 → off1 ≤ z < off1 + py_len ns1 * p1 → off2 ≤ z < off2 + py_len ns2 * p2 →
  off1 = off2 ∧ s1 = s2 ∧ ns1 = ns2 ∧ p1 = p2 ∧ u1 = u2.
Proof.
  intros Hg Hz1 Hz2. pose proof S1 as [E1 _ [_ P1] [U1 V1] _ _ _ _ _]. pose proof S2 as [E2 _ [_ P2] [U2 V2] _ _ _ _ _]. rewrite <-Hg in E2.
  pose proof (offsets_disjoint _ (pages_nonneg g1 Hg1) 0 off1 (s1, ns1) off2 (s2, ns2) z E1 E2) as D. cbn [fst snd] in D. rewrite P1, P2 in D.
  specialize (D Hz1 Hz2). assert (Ho : off1 = off2) by congruence. assert (Hs : s1 = s2) by congruence. assert (Hn : ns1 = ns2) by congruence.
  assert (Hp : p1 = p2) by congruence. split_and!; try done. rewrite V1, V2, Hs in Hp. rewrite Hs in V1. destruct (page_ok_pos s1 p1); [apply S1|]. nia.
Qed.

Lemma outermost_same : is_block_outermost layout = true → b1 = b2 ∧ (g1 = g2 → same_byte off1 l1 j1 r1 off2 l2 j2 r2 (s1, ns1) (s2, ns2)).
Proof.
  intros Hout. destruct (outermost_block Hout) as [Hb Hz]. split; [done|]. intros Hg.
  pose proof (inner_bounds _ _ _ _ _ _ _ _ _ _ _ _ _ _ _ _ _ _ S1) as (K1 & I1 & _). pose proof (inner_bounds _ _ _ _ _ _ _ _ _ _ _ _ _ _ _ _ _ _ S2) as (K2 & I2 & _).
  destruct (same_entry _ Hg I1) as (-> & -> & -> & -> & ->); [by rewrite Hz|].
  pose proof (sp_run _ _ _ _ _ _ _ _ _ _ _ _ _ _ _ _ _ _ S1) as (_ & _ & R1). pose proof (sp_run _ _ _ _ _ _ _ _ _ _ _ _ _ _ _ _ _ _ S2) as (_ & _ & R2).
  destruct (radix_inj u2 (j1 * py_len ns2 + l1) r1 (j2 * py_len ns2 + l2) r2 R1 R2) as [Hq Hr]; [lia|].
  destruct (radix_inj (py_len ns2) j1 l1 j2 l2) as [Hj Hl]; [split; [apply (sp_name _ _ _ _ _ _ _ _ _ _ _ _ _ _ _ _ _ _ S1)|apply (sp_len _ _ _ _ _ _ _ _ _ _ _ _ _ _ _ _ _ _ S1)]|
    split; [apply (sp_name _ _ _ _ _ _ _ _ _ _ _ _ _ _ _ _ _ _ S2)|apply (sp_len _ _ _ _ _ _ _ _ _ _ _ _ _ _ _ _ _ _ S2)]|lia|]. done.
Qed.

Lemma run_index : 0 ≤ l1 ∧ 0 ≤ l2 ∧ l1 < py_len ns1 ∧ l2 < py_len ns2 ∧ 0 ≤ r1 < u1 ∧ 0 ≤ r2 < u2 ∧ 0 ≤ b1 < nb ∧ 0 ≤ b2 < nb.
Proof. pose proof S1 as [_ [? _] _ _ (_ & _ & ?) ? _ _ ?]. pose proof S2 as [_ [? _] _ _ (_ & _ & ?) ? _ _ ?]. lia. Qed.

(** With layers outside and pages of one size the runs are numbered through. *)
Lemma uniform_same p : is_block_outermost layout = false → (∀ g name, g ∈ groups → name ∈ layer_names g → layer_page g name = p) →
  b1 = b2 ∧ (g1 = g2 → same_byte off1 l1 j1 r1 off2 l2 j2 r2 (s1, ns1) (s2, ns2)).
Proof.
  intros Hout Hone. destruct run_index as (L1 & L2 & M1 & M2 & R1 & R2 & B1 & B2).
  assert (Hentry : ∀ g s ns, g ∈ groups → (s, ns) ∈ layers_by_spec g → page_of s = p).
  { intros g s ns Hg Hin. destruct (layers_by_spec_ok g (Hgroups g Hg)) as [E1 E2]. destruct (E2 s ns Hin) as [Hns Hs]. destruct ns as [|n ns]; [done|].
    rewrite <-(Hone g n Hg); [unfold layer_page; by rewrite Hs by left|]. rewrite <-E1. apply list_elem_of_join. exists (n :: ns). split; [left|].
    by apply (list_elem_of_fmap_2 snd _ (s, n :: ns)). }
  pose proof S1 as [E1 _ [_ P1] [U1 V1] (_ & J1 & _) _ A1 _ _]. pose proof S2 as [E2 _ [_ P2] [U2 V2] (_ & J2 & _) _ A2 _ _]. rewrite Hout in A1, A2.
  destruct (offsets_in _ (pages_nonneg g1 Hg1) _ _ _ E1) as (I1 & _). destruct (offsets_in _ (pages_nonneg g2 Hg2) _ _ _ E2) as (I2 & _).
  assert (p1 = p) as Q1 by (rewrite <-P1; exact (Hentry g1 s1 ns1 Hg1 I1)). assert (p2 = p) as Q2 by (rewrite <-P2; exact (Hentry g2 s2 ns2 Hg2 I2)).
  destruct (offsets_multiple _ (pages_nonneg g1 Hg1) p (λ s ns H, Hentry g1 s ns Hg1 H) _ _ _ E1) as [k1 K1].
  destruct (offsets_multiple _ (pages_nonneg g2 Hg2) p (λ s ns H, Hentry g2 s ns Hg2 H) _ _ _ E2) as [k2 K2].
  assert (Hoh : outer_heads layout (num_heads s1) = outer_heads layout (num_heads s2)).
  { destruct layout eqn:Hl; try done. cbn. destruct (layers_by_spec_ok g1 (Hgroups g1 Hg1)) as [F1 G1]. destruct (layers_by_spec_ok g2 (Hgroups g2 Hg2)) as [F2 G2].
    destruct (spot_name _ _ _ _ _ _ _ _ _ _ _ _ _ _ _ _ _ _ S1) as [N1 N1']; [by apply Hgroups|]. destruct (spot_name _ _ _ _ _ _ _ _ _ _ _ _ _ _ _ _ _ _ S2) as [N2 N2']; [by apply Hgroups|].
    by eapply (Hheads eq_refl g1 g2 name1 name2). }
  rewrite <-Hoh in V2, J2, A2. set (oh := outer_heads layout (num_heads s1)) in V1, J1, A1, V2, J2, A2. clearbody oh.
  assert (u1 = u2) as Hu by nia. rewrite <-Hu in V2, A2, R2.
  destruct (radix_inj u1 (((k1 + l1) * oh + j1) * nb + b1) r1 (((k2 + l2) * oh + j2) * nb + b2) r2 R1 R2) as [Hq Hr]; [nia|].
  destruct (radix_inj nb ((k1 + l1) * oh + j1) b1 ((k2 + l2) * oh + j2) b2 B1 B2 Hq) as [Hk Hb].
  destruct (radix_inj oh (k1 + l1) j1 (k2 + l2) j2 J1 J2 Hk) as [Hl Hj]. split; [done|]. intros Hg.
  assert (Hp0 : 0 < p) by nia. destruct (same_entry ((k1 + l1) * p) Hg) as (Ho & Hs & Hn & _); [split; nia|rewrite Hl; split; nia|].
  assert (k1 = k2) as Hkk by nia. unfold same_byte. split_and!; [congruence|lia|done|done].
Qed.

(** With layers outside and pages of several sizes there is one group, and a page
    is one run. *)
Lemma mixed_same : is_block_outermost layout = false → is_block_compact layout = true → (is_layer_compact layout = true → g1 = g2) →
  b1 = b2 ∧ (g1 = g2 → same_byte off1 l1 j1 r1 off2 l2 j2 r2 (s1, ns1) (s2, ns2)).
Proof.
  intros Hout Hbc Hlc. destruct run_index as (L1 & L2 & M1 & M2 & R1 & R2 & B1 & B2).
  pose proof S1 as [_ _ _ [U1 V1] (_ & J1 & _) _ A1 _ _]. pose proof S2 as [_ _ _ [U2 V2] (_ & J2 & _) _ A2 _ _]. rewrite Hout in A1, A2.
  assert (Hoh : ∀ H, outer_heads layout H = 1) by by destruct layout. assert (Hg : g1 = g2) by (apply Hlc; by destruct layout).
  rewrite Hoh in V1, J1, A1. rewrite Hoh in V2, J2, A2. assert (Hnb : 0 < nb) by lia.
  assert (Z1 : ∀ off l u b r, 0 ≤ b < nb → 0 ≤ r < u → 0 ≤ l → let z := ((off + (l * 1 + 0) * u) * nb + b * u + r) / nb in off + l * u ≤ z < off + (l + 1) * u).
  { intros off l u b r Hb Hr Hl z. pose proof (radix_lt u nb b r Hr Hb). split; [apply Z.div_le_lower_bound|apply Z.div_lt_upper_bound]; nia. }
  assert (j1 = 0) as J1' by lia. assert (j2 = 0) as J2' by lia. rewrite J1' in A1. rewrite J2' in A2.
  pose proof (Z1 off1 l1 u1 b1 r1 B1 R1 L1) as Q1. pose proof (Z1 off2 l2 u2 b2 r2 B2 R2 L2) as Q2. cbv zeta in Q1, Q2. rewrite <-A1 in Q1. rewrite <-A2 in Q2.
  destruct (same_entry (addr / nb) Hg) as (Ho & Hs & Hn & Hp & Hu); [split; nia|split; nia|].
  rewrite <-Ho, <-Hu in A2. rewrite <-Hu in R2. pose proof (radix_lt u1 nb b1 r1 R1 B1) as W1. pose proof (radix_lt u1 nb b2 r2 R2 B2) as W2.
  destruct (radix_inj (nb * u1) l1 (b1 * u1 + r1) l2 (b2 * u1 + r2) W1 W2) as [Hl Hw]; [lia|].
  destruct (radix_inj u1 b1 r1 b2 r2 R1 R2 Hw) as [Hb Hr]. split; [done|]. intros _. unfold same_byte. split_and!; [congruence|done|congruence|done].
Qed.
End Separation.

(** ** The layout that was resolved *)

(** Layers of different shapes leave only the layouts whose pages are whole. *)
Lemma resolved_shapes supported specs requested connector layout :
  resolve_kv_cache_layout None supported specs requested connector = Ok layout →
  is_block_compact layout = true ∨ ∀ s s', s ∈ specs → s' ∈ specs → num_heads s = num_heads s'.
Proof.
  unfold resolve_kv_cache_layout. destruct supported as [|first rest]; [done|].
  intros ([] & _ & ([] & _ & (cands & Hc & Hr)%bind_Ok)%bind_Ok)%bind_Ok.
  assert (Hin : layout ∈ cands).
  { assert (Hh : unwrap IndexError (head cands) = Ok layout → layout ∈ cands) by (intros [l1 ->]%unwrap_Ok%head_Some; left).
    destruct requested as [l|]; [case_bool_decide; [by injection Hr as <-|done]|]. destruct connector as [l|]; [|by apply Hh].
    case_bool_decide; [by injection Hr as <-|by apply Hh]. }
  clear Hr. unfold layout_candidates in Hc. destruct (mapM_ok hnc_shape specs) as [shapes|] eqn:Hs; [|done]. cbn [mbind result_bind] in Hc.
  destruct (2 <=? _) eqn:H2; [left|right].
  - destruct (filter _ first) as [|l ls] eqn:Hf; [done|]. injection Hc as <-. rewrite <-Hf in Hin. by apply list_elem_of_filter in Hin as [? _].
  - apply Z.leb_gt in H2. assert (Hone : ∀ x y, x ∈ shapes → y ∈ shapes → x = y).
    { intros x y Hx%elem_of_remove_dups Hy%elem_of_remove_dups. destruct (remove_dups shapes) as [|a [|b r]]; [by apply elem_of_nil in Hx| |unfold py_len in H2; simpl in H2; lia].
      apply list_elem_of_singleton in Hx, Hy. congruence. }
    clear Hc H2 Hin. assert (Hsh : ∀ s, s ∈ specs → ∃ sh, hnc_shape s = Ok sh ∧ sh ∈ shapes) .
    { intros s [i Hi]%list_elem_of_lookup. apply mapM_ok_Forall2 in Hs. destruct (Forall2_lookup_l _ _ _ _ _ Hs Hi) as (y & Hy & Hsy). exists y.
      split; [done|by eapply list_elem_of_lookup_2]. }
    intros s s' Hin Hin'. destruct (Hsh s Hin) as (x & Hx & Hxs). destruct (Hsh s' Hin') as (y & Hy & Hys). pose proof (Hone x y Hxs Hys) as ->.
    unfold hnc_shape in Hx, Hy. destruct (page_size_bytes s); [|done]. destruct (page_size_bytes s'); [|done]. cbn in *. congruence.
Qed.

(** The layers of the groups have the heads of the specifications the layout was
    resolved for: grouping changes block sizes and padding only. *)
Definition heads_from (specs : list LayerSpec) (groups : list LayerGroup) : Prop :=
  ∀ g name s, g ∈ groups → name ∈ layer_names g → _get_per_layer_spec g name = Ok s → ∃ s0, s0 ∈ specs ∧ num_heads s0 = num_heads s.

Lemma resolved_heads_agree supported specs requested connector layout groups :
  resolve_kv_cache_layout None supported specs requested connector = Ok layout → heads_from specs groups → heads_agree layout groups.
Proof.
  intros Hr Hf Hl g1 g2 n1 n2 s1 s2 G1 G2 N1 N2 Q1 Q2. destruct (resolved_shapes _ _ _ _ _ Hr) as [Hc|Hsame]; [by subst|].
  destruct (Hf g1 n1 s1 G1 N1 Q1) as (s & Hs & <-). destruct (Hf g2 n2 s2 G2 N2 Q2) as (s' & Hs' & <-). by apply Hsame.
Qed.

(** ** Bounds and coverage *)

Lemma spot_bounds layout g bpb nb name s b h n x addr off l j r u p ns :
  spot layout g bpb nb name s b h n x addr off l j r u p ns → group_bytes g ≤ bpb → 0 ≤ addr < bpb * nb.
Proof.
  intros S Hle. pose proof (inner_bounds _ _ _ _ _ _ _ _ _ _ _ _ _ _ _ _ _ _ S) as (_ & I1 & I2 & I3 & I4 & I5).
  pose proof S as [_ _ _ _ (_ & _ & R) B A O _]. pose proof (radix_lt _ _ b r R B) as W. destruct (is_block_outermost layout).
  - subst addr. rewrite (Z.mul_comm bpb nb). apply radix_lt; [lia|done].
  - revert A I2 I3. generalize ((l * outer_heads layout (num_heads s) + j) * u). intros i -> I2 I3. split; [nia|].
    assert ((off + i + u) * nb ≤ bpb * nb) by (apply Z.mul_le_mono_nonneg_r; lia). nia.
Qed.

(** Every layer of every group is a layer of a tensor, and all of its pages can be
    viewed. *)
Lemma layer_viewed cfg layout groups memory bpb c g name :
  built cfg layout groups memory bpb c → groups_ok groups → 0 < cfg_num_blocks c → g ∈ groups → name ∈ layer_names g →
  ∃ s t l, layer_at c g name s t l ∧ ∃ st, view_strides s (cfg_num_blocks c) layout t = Ok st.
Proof.
  intros Hbu [Hg _] Hnb Hin Hname. destruct (layers_by_spec_ok g (Hg g Hin)) as [E1 E2]. pose proof Hname as Hn. rewrite <-E1 in Hn.
  apply list_elem_of_join in Hn as (ns & Hn & Hns). apply list_elem_of_fmap in Hns as ([s ns'] & -> & He). cbn [snd] in *.
  destruct (E2 s ns' He) as [Hne Hspec]. destruct (offsets_lookup _ _ He 0) as [off Hoff]. apply list_elem_of_lookup in Hn as [l Hl].
  set (t := tensor_for layout (bpb * cfg_num_blocks c) (cfg_num_blocks c) bpb (off, (s, ns'))).
  destruct (entry_page g s ns' (Hg g Hin) He) as (_ & p & Hp & Hpp). destruct (page_ok_pos _ _ Hp) as [Hp0 _].
  pose proof (bu_padding _ _ _ _ _ _ Hbu g s ns' Hnb Hin He) as Hfit. destruct (unit_spec layout s p Hp Hfit) as (_ & Hu & _).
  destruct (pool_bytes_spec groups bpb Hg (bu_bytes _ _ _ _ _ _ Hbu)) as (Hbpb & _).
  assert (Hlayers : tensor_layers t = ns') by (subst t; unfold tensor_for; by destruct (is_block_outermost layout)).
  exists s, t, l. split; [split|].
  - by rewrite (bu_groups _ _ _ _ _ _ Hbu).
  - done.
  - rewrite (bu_tensors _ _ _ _ _ _ Hbu Hnb). apply list_elem_of_join. eexists. split; [|by apply list_elem_of_fmap_2, Hin].
    by apply (list_elem_of_fmap_2 (tensor_for layout (bpb * cfg_num_blocks c) (cfg_num_blocks c) bpb)).
  - by rewrite Hlayers.
  - apply Hspec. by eapply list_elem_of_lookup_2.
  - unfold view_strides. rewrite Hlayers. eexists. apply (strides_fit s p); try done; [destruct ns'; [done|unfold py_len; simpl; lia]| |].
    + intros v [= <-]. subst t. unfold tensor_for. rewrite (po_page _ _ Hp). destruct (is_block_outermost layout); cbn; [done|nia].
    + intros v [= <-]. subst t. unfold tensor_for. rewrite (po_page _ _ Hp). by destruct (is_block_outermost layout).
Qed.

(** The pages of attention layers are as the placement needs them; those of a
    Mamba layer are one state of one head. *)
Lemma page_sized s p : 0 < block_size s → 0 < num_heads s → 0 < num_states s → 0 < state_content_size_bytes s →
  (is_mamba s = true → num_heads s * num_states s = 1) → page_size_bytes s = Ok p → page_ok s p.
Proof.
  intros H1 H2 H3 H4 Hm Hp. split; try done. unfold page_size_bytes in Hp.
  assert (Hpad : ∀ u o, padded_to u o = Ok p → match o with None => p = u | Some q => p = q ∧ u ≤ q end).
  { intros u [q|]; cbn; [destruct (u <=? q) eqn:E; [|done]; intros [= <-]; split; [done|by apply Z.leb_le]|by intros [= <-]]. }
  destruct s; try (apply Hpad in Hp; exact Hp). apply Hpad in Hp. specialize (Hm eq_refl). cbn in *.
  destruct (ma_page_size_padded m); nia.
Qed.

(** ** Theorems *)

(** C21: one address of the allocation is one block for all groups, and within a
    group one layer, head, state and byte of that block: the pages of different
    blocks, and those of different layers of a group, never overlap, in any of
    the six layouts, when the layout is one that was resolved for the layers. *)
Theorem kv_pages_disjoint cfg supported specs requested connector layout groups memory c g1 g2 name1 name2 s1 s2 t1 t2 l1 l2 b1 b2 h1 h2 n1 n2 x1 x2 addr :
  resolve_kv_cache_layout None supported specs requested connector = Ok layout → layout_resolved cfg = Some layout →
  groups_ok groups → heads_from specs groups → get_kv_cache_config_from_groups cfg groups memory = Ok c →
  layer_at c g1 name1 s1 t1 l1 → byte_at layout c s1 t1 l1 b1 h1 n1 x1 addr →
  layer_at c g2 name2 s2 t2 l2 → byte_at layout c s2 t2 l2 b2 h2 n2 x2 addr →
  b1 = b2 ∧ (g1 = g2 → name1 = name2 ∧ h1 = h2 ∧ n1 = n2 ∧ x1 = x2).
Proof.
  intros Hres Hlay Hok Hhd Hc A1 B1 A2 B2. pose proof (resolved_heads_agree _ _ _ _ _ _ Hres Hhd) as Hheads. pose proof Hok as [Hg _].
  destruct (groups) as [|g0 gs] eqn:Hgs; [injection Hc as <-; by destruct (not_elem_of_nil _ (la_group _ _ _ _ _ _ A1))|]. rewrite <-Hgs in *.
  destruct (config_built cfg layout groups memory c) as [bpb Hbu]; [by rewrite Hgs|done|done|done|].
  destruct (byte_spot _ _ _ _ _ _ _ _ _ _ _ _ _ _ _ _ Hbu Hok A1 B1) as (G1 & _ & off1 & j1 & r1 & u1 & p1 & ns1 & S1).
  destruct (byte_spot _ _ _ _ _ _ _ _ _ _ _ _ _ _ _ _ Hbu Hok A2 B2) as (G2 & _ & off2 & j2 & r2 & u2 & p2 & ns2 & S2).
  destruct (pool_bytes_spec groups bpb Hg (bu_bytes _ _ _ _ _ _ Hbu)) as (_ & Hle & _). pose proof (bu_valid _ _ _ _ _ _ Hbu) as Hv.
  assert (Hsame : b1 = b2 ∧ (g1 = g2 → same_byte off1 (Z.of_nat l1) j1 r1 off2 (Z.of_nat l2) j2 r2 (s1, ns1) (s2, ns2))).
  { destruct (is_block_outermost layout) eqn:Hout; [by eapply outermost_same|].
    destruct (valid_cases layout groups Hg Hv) as [[p Hp]|[Hbc Hlc]]; [by eapply uniform_same|].
    eapply mixed_same; try done. intros H. by apply Hlc. }
  destruct Hsame as [Hb Hs]. split; [done|]. intros E. specialize (Hs E) as ([= <- <- <-] & Hl & <- & <-).
  pose proof (sp_name _ _ _ _ _ _ _ _ _ _ _ _ _ _ _ _ _ _ S1) as [_ N1]. pose proof (sp_name _ _ _ _ _ _ _ _ _ _ _ _ _ _ _ _ _ _ S2) as [_ N2].
  split; [rewrite Hl in N1; congruence|]. destruct B1 as (_ & P1 & _), B2 as (_ & P2 & _). apply (run_of_inj layout s1); [done|done|].
  destruct (sp_run _ _ _ _ _ _ _ _ _ _ _ _ _ _ _ _ _ _ S1) as (-> & _). by destruct (sp_run _ _ _ _ _ _ _ _ _ _ _ _ _ _ _ _ _ _ S2) as (-> & _).
Qed.

(** C26: every byte of every page of every layer has an address inside the
    allocation of its tensor, all tensors share one allocation of
    [bytes per block * num_blocks] bytes, and without an override of the number
    of blocks that is at most the memory that is available. *)
Theorem kv_pages_in_bounds cfg layout groups memory c g name :
  layout_resolved cfg = Some layout → groups_ok groups → get_kv_cache_config_from_groups cfg groups memory = Ok c →
  0 < cfg_num_blocks c → g ∈ groups → name ∈ layer_names g →
  ∃ s t l bpb, layer_at c g name s t l ∧ _pool_bytes_per_block groups = Ok bpb ∧ tensor_size t = bpb * cfg_num_blocks c ∧
    (num_gpu_blocks_override cfg = None → tensor_size t ≤ memory) ∧
    ∀ b h n x, 0 ≤ b < cfg_num_blocks c → in_page s h n x → ∃ addr, byte_at layout c s t l b h n x addr ∧ 0 ≤ addr < tensor_size t.
Proof.
  intros Hlay Hok Hc Hnb Hin Hname. pose proof Hok as [Hg _]. destruct (config_built cfg layout groups memory c) as [bpb Hbu]; [by intros ->; apply elem_of_nil in Hin|done|done|done|].
  destruct (layer_viewed _ _ _ _ _ _ g name Hbu Hok Hnb Hin Hname) as (s & t & l & Ha & st & Hst). exists s, t, l, bpb.
  destruct (pool_bytes_spec groups bpb Hg (bu_bytes _ _ _ _ _ _ Hbu)) as (Hbpb & Hle & _).
  assert (Hbyte : ∀ b h n x, 0 ≤ b < cfg_num_blocks c → in_page s h n x → ∃ addr, byte_at layout c s t l b h n x addr ∧ tensor_size t = bpb * cfg_num_blocks c ∧ 0 ≤ addr < bpb * cfg_num_blocks c).
  { intros b h n x Hb Hp. assert (Hba : byte_at layout c s t l b h n x (address t st [Z.of_nat l; b; h; n; x])) by (split; [done|]; split; [done|]; by exists st).
    eexists. split; [exact Hba|]. destruct (byte_spot _ _ _ _ _ _ _ _ _ _ _ _ _ _ _ _ Hbu Hok Ha Hba) as (_ & Hsz & off & j & r & u & p & ns & S1).
    split; [done|]. by apply (spot_bounds _ _ _ _ _ _ _ _ _ _ _ _ _ _ _ _ _ _ S1), Hle. }
  destruct (go_pages g (Hg g Hin) name Hname) as (s' & p & Hs' & Hp). pose proof (la_spec _ _ _ _ _ _ Ha) as Hs. rewrite Hs in Hs'. injection Hs' as <-.
  destruct (Hbyte 0 0 0 0) as (_ & _ & Hsz & _); [lia|destruct Hp; split; lia|]. split_and!; [done|apply Hbu|done| |].
  - intros Hno. rewrite Hsz. rewrite (bu_blocks _ _ _ _ _ _ Hbu). unfold may_override_num_blocks. rewrite Hno. cbn [default]. by apply Z.mul_div_le.
  - intros b h n x Hb Hx. destruct (Hbyte b h n x Hb Hx) as (addr & H1 & _ & H2). exists addr. by rewrite Hsz.
Qed.

(** ** An example: full attention and a sliding window, two layers each *)

Module PagesDemo.
Definition attention : AttentionFields := mkAttention 4 2 2 (mkDType "float16" 2) 2 QUANT_NONE None None None (mkFraction 1 1).
Definition full : LayerSpec := FullAttentionSpec attention (mkFull None None false).
Definition window : LayerSpec := SlidingWindowSpec attention (mkWindow 8 0).
Definition fulls : LayerGroup := mkLayerGroup ["f0"; "f1"] (OneSpec full) false.
Definition windows : LayerGroup := mkLayerGroup ["s0"; "s1"] (OneSpec window) false.
Definition groups : list LayerGroup := [fulls; windows].
Definition config (layout : KVCacheLayout) : VllmConfig := mkVllmConfig 32 32 1 8 "none" 0 None (Some layout) false None false false 0 false.
Definition placed (layout : KVCacheLayout) : MemoryConfig :=
  match get_kv_cache_config_from_groups (config layout) groups 1300 with Ok c => c | Err _ => mkMemoryConfig 0 [] [] None end.

Lemma page_full : page_ok full 64. Proof. by split; vm_compute. Qed.
Lemma page_window : page_ok window 64. Proof. by split; vm_compute. Qed.

Lemma demo_groups_ok : groups_ok groups.
Proof.
  split; [|apply (bool_decide_unpack _); by vm_compute].
  intros g [->|[->|[]%elem_of_nil]%elem_of_cons]%elem_of_cons; split; try done; try (apply (bool_decide_unpack _); by vm_compute); intros name _; eexists _, 64;
    (split; [reflexivity|]); [apply page_full|apply page_window].
Qed.

Lemma demo_heads : heads_from [full; window] groups.
Proof. intros g name s [->|[->|[]%elem_of_nil]%elem_of_cons]%elem_of_cons _ [= <-]; exists full; (split; [left|done]). Qed.

(** Where byte (1, 2, 5) of block 7 of the second layer of each group lies. *)
Definition tensor (i : nat) : KVCacheTensor := default (mkTensor 0 [] 0 0 0) (kv_cache_tensors (placed LHBNC) !! i).
Definition address_of (i : nat) (s : LayerSpec) : Z :=
  match view_strides s 10 LHBNC (tensor i) with Ok st => address (tensor i) st [1; 7; 1; 2; 5] | Err _ => 0 end.

Lemma demo_byte i s : s ∈ [full; window] → (i < 2)%nat → byte_at LHBNC (placed LHBNC) s (tensor i) 1 7 1 2 5 1205.
Proof.
  intros [->|[->|[]%elem_of_nil]%elem_of_cons]%elem_of_cons Hi; (destruct i as [|[|i]]; [| |lia]);
    (split; [by vm_compute|]; split; [by split; vm_compute|]; eexists; split; [by vm_compute|by vm_compute]).
Qed.
End PagesDemo.

Lemma kv_pages_disjoint_witness :
  resolve_kv_cache_layout None [[BLHNC; LHBNC]] [PagesDemo.full; PagesDemo.window] (Some LHBNC) None = Ok LHBNC ∧
  ((7 : Z) = 7 ∧ (PagesDemo.fulls = PagesDemo.windows → "f1" = "s1")).
Proof.
  split; [by vm_compute|].
  assert (Hf : layer_at (PagesDemo.placed LHBNC) PagesDemo.fulls "f1" PagesDemo.full (PagesDemo.tensor 0) 1).
  { split; [left|right; left|left|done|done]. }
  assert (Hs : layer_at (PagesDemo.placed LHBNC) PagesDemo.windows "s1" PagesDemo.window (PagesDemo.tensor 1) 1).
  { split; [right; left|right; left|right; left|done|done]. }
  destruct (kv_pages_disjoint (PagesDemo.config LHBNC) [[BLHNC; LHBNC]] [PagesDemo.full; PagesDemo.window] (Some LHBNC) None LHBNC PagesDemo.groups 1300 (PagesDemo.placed LHBNC)
    PagesDemo.fulls PagesDemo.windows "f1" "s1" PagesDemo.full PagesDemo.window (PagesDemo.tensor 0) (PagesDemo.tensor 1) 1 1 7 7 1 1 2 2 5 5 1205) as [Hb Hg].
  - by vm_compute.
  - done.
  - exact PagesDemo.demo_groups_ok.
  - exact PagesDemo.demo_heads.
  - by vm_compute.
  - exact Hf.
  - apply PagesDemo.demo_byte; [left|lia].
  - exact Hs.
  - apply PagesDemo.demo_byte; [right; left|lia].
  - split; [exact Hb|intros E; by apply Hg].
Defined.

Lemma kv_pages_in_bounds_witness :
  get_kv_cache_config_from_groups (PagesDemo.config BLHNC) PagesDemo.groups 1300 = Ok (PagesDemo.placed BLHNC) ∧
  ∃ t, t ∈ kv_cache_tensors (PagesDemo.placed BLHNC) ∧ tensor_size t ≤ 1300.
Proof.
  split; [by vm_compute|].
  destruct (kv_pages_in_bounds (PagesDemo.config BLHNC) BLHNC PagesDemo.groups 1300 (PagesDemo.placed BLHNC)
    PagesDemo.windows "s1") as (s & t & l & bpb & Hl & _ & _ & Hm & _).
  - done.
  - exact PagesDemo.demo_groups_ok.
  - by vm_compute.
  - by vm_compute.
  - right; left.
  - right; left.
  - exists t. split; [apply Hl|by apply Hm].
Defined.
