(* ===== verification/KVGroups.v ===== *)
(** * Groups of layers

    [get_kv_cache_groups] of [vllm/vllm/v1/core/kv_cache_utils.py] and the
    functions it calls: which layers share a block table.  Dictionaries from
    layer names are lists in insertion order. *)

From S2P Require Import Prelude KVSpec KVLayout.
Local Open Scope Z_scope.

(** ** Python *)

(** [l[i::n]] *)
Definition slice_step {A} (i n : nat) (l : list A) : list A :=
  omap (λ x, if decide (i ≤ x.1 ∧ (x.1 - i) mod n = 0)%nat then Some x.2 else None) (imap pair l).

(** [zip( *ls)] *)
Definition zip_star {A} (ls : list (list A)) : list (list A) :=
  match ls with
  | [] => []
  | l :: ls' => (λ i, omap (.!! i) ls) <$> seq 0 (foldl Nat.min (length l) (length <$> ls'))
  end.

Definition py_min (l : list Z) : result Z := match l with [] => Err ValueError | x :: l => Ok (foldl Z.min x l) end.

(** [max(l, default=0)] *)
Definition py_max_default (l : list Z) : Z := match l with [] => 0 | x :: l => foldl Z.max x l end.

(** ** One specification *)

Definition create_kv_cache_group_specs (specs : LayerDict) (grouped : list (list string)) : result (list LayerGroup) :=
  mapM_ok (λ names, layer_specs ← mapM_ok (λ n, unwrap KeyError (od_get specs n)) names;
                    merged ← merge layer_specs; Ok (mkLayerGroup names (OneSpec merged) false)) grouped.

Definition is_kv_cache_spec_uniform (specs : LayerDict) : result bool :=
  match specs with
  | [] => Ok true
  | _ => match merge specs.*2 with Ok _ => Ok true | Err AssertionError => Ok false | Err e => Err e end
  end.

Definition get_uniform_page_size (specs : list GroupSpec) : result Z :=
  pages ← mapM_ok group_page_size_bytes specs;
  match remove_dups pages with [p] => Ok p | _ => Err AssertionError end.

Definition _get_kv_cache_groups_uniform_spec (specs : LayerDict) : result (list LayerGroup) := create_kv_cache_group_specs specs [specs.*1].

Definition _get_kv_cache_groups_uniform_type (spec : GroupSpec) : list LayerGroup :=
  match spec with UniformTypeKVCacheSpecs _ specs => [mkLayerGroup specs.*1 spec false] | OneSpec _ => [] end.

(** ** Pages of one size *)

Definition pad_mamba (p : Z) (s : LayerSpec) : LayerSpec := match s with MambaSpec m => MambaSpec (set_ma_page_size_padded (Some p) m) | _ => s end.

Definition unify_layer (max_page_size : Z) (x : string * LayerSpec) : result (string * LayerSpec) :=
  let '(name, s) := x in
  page ← page_size_bytes s;
  if page =? max_page_size then Ok (name, s)
  else
    new_spec ← (if is_mamba s then Ok (pad_mamba max_page_size s)
                else if page =? 0 then Err ZeroDivisionError
                else if max_page_size mod page =? 0 then replace_attention (set_block_size (block_size s * (max_page_size / page))) s
                else if negb (is_mla s) then replace_attention (set_page_size_padded (Some max_page_size)) s
                else Err NotImplementedError);
    p ← page_size_bytes new_spec; _ ← py_assert (p =? max_page_size); Ok (name, new_spec).

Definition unify_kv_cache_spec_page_size (specs : LayerDict) : result LayerDict :=
  pages ← mapM_ok page_size_bytes specs.*2;
  if py_len (remove_dups pages) <=? 1 then Ok specs
  else max_page_size ← py_max_list pages; mapM_ok (unify_layer max_page_size) specs.

(** ** Grouping by specification *)

(** [layer_buckets] and [spec_buckets]: the first bucket that the specification
    can be merged into. *)
Fixpoint join_bucket (buckets : list (list string * list LayerSpec)) (x : LayerSpec * list string) : result (list (list string * list LayerSpec)) :=
  match buckets with
  | [] => Ok [(x.2, [x.1])]
  | (names, specs) :: rest =>
      match merge (specs ++ [x.1]) with
      | Ok _ => Ok ((names ++ x.2, specs ++ [x.1]) :: rest)
      | Err AssertionError | Err ValueError => rest ← join_bucket rest x; Ok ((names, specs) :: rest)
      | Err e => Err e
      end
  end.

(** [same_type_layers]: [add_layer] of [KVLayout], from the empty dictionary. *)
Definition layer_buckets (specs : LayerDict) : result (list (list string)) :=
  buckets ← foldM join_bucket [] (foldl add_layer [] specs); Ok buckets.*1.

(** The number of layers per group; the comparison with [min_num_layers * 1.5] is
    exact in floats for numbers of layers. *)
Definition choose_group_size (buckets : list (list string)) : result Z :=
  min_num_layers ← py_min (py_len <$> buckets);
  max_num_layers ← py_max_list (py_len <$> buckets);
  Ok (if 2 * max_num_layers <? 3 * min_num_layers then max_num_layers else min_num_layers).

Definition split_layers (group_size : Z) (layers : list string) : list (list string) :=
  let num_groups := Z.to_nat (cdiv (py_len layers) group_size) in
  (λ i, slice_step i num_groups layers) <$> seq 0 num_groups.

Definition _get_kv_cache_groups_uniform_page_size (specs : LayerDict) : result (list LayerGroup) :=
  buckets ← layer_buckets specs;
  group_size ← choose_group_size buckets;
  if group_size =? 0 then Err ZeroDivisionError
  else create_kv_cache_group_specs specs (mjoin (split_layers group_size <$> buckets)).

(** ** Full-attention allocation for local attention *)

(** [replace_as(spec, promotions[...], drop=("extra_retained_tokens",), ...)] *)
Definition promote (block_size : Z) (padded : option Z) (s : LayerSpec) : result LayerSpec :=
  let g a := set_page_size_padded padded (set_block_size block_size a) in
  match s with
  | SlidingWindowMLASpec a w x => post_init (MLAAttentionSpec (g a) (mkFull (Some (sliding_window w)) None false) x false)
  | SlidingWindowSpec a w => Ok (FullAttentionSpec (g a) (mkFull (Some (sliding_window w)) None false))
  | ChunkedLocalAttentionSpec a c => Ok (FullAttentionSpec (g a) (mkFull None (Some c) false))
  | _ => Ok s
  end.

Definition promoted_page_size_padded (a : AttentionFields) (block_size : Z) : result (option Z) :=
  match page_size_padded a with
  | None => Ok None
  | Some p => if at_block_size a =? 0 then Err ZeroDivisionError else Ok (Some (Z.max p (unpadded_page_size_bytes a * block_size / at_block_size a)))
  end.

Definition promote_layer (full_attention_block_size : option Z) (x : string * LayerSpec) : result (string * LayerSpec) :=
  let '(name, s) := x in
  match s with
  | SlidingWindowMLASpec a _ _ | SlidingWindowSpec a _ | ChunkedLocalAttentionSpec a _ =>
      let bs := match full_attention_block_size with Some b => if b =? 0 then at_block_size a else b | None => at_block_size a end in
      padded ← promoted_page_size_padded a bs; s ← promote bs padded s; Ok (name, s)
  | _ => Ok (name, s)
  end.

(** [is_kv_cache_spec_uniform(specs) or UniformTypeKVCacheSpecs.is_uniform_type(specs)] *)
Definition one_type (specs : LayerDict) : result bool :=
  u ← is_kv_cache_spec_uniform specs; if u : bool then Ok true else is_uniform_type specs.

Definition _promote_local_kv_cache_specs (specs : LayerDict) : result LayerDict :=
  uniform ← one_type specs;
  if uniform : bool then Ok specs
  else
    let full_block_sizes := remove_dups (block_size <$> filter (λ s, is_full_spec s = true) specs.*2) in
    let full_attention_block_size := match full_block_sizes with [b] => Some b | _ => None end in
    promoted ← (if existsb is_full_spec specs.*2 && (existsb is_window_spec specs.*2 || existsb is_chunked_local specs.*2)
                then mapM_ok (promote_layer full_attention_block_size) specs else Ok specs);
    ok ← one_type promoted;
    if ok : bool then Ok promoted else Err ValueError.

Definition _try_get_full_allocation_fallback_groups (specs : LayerDict) : result (option (list LayerGroup)) :=
  if existsb is_hidden_state specs.*2 then Ok None
  else if existsb (λ s, is_sliding_window_mla s || is_chunked_local s) specs.*2 then Ok None
  else if negb (existsb is_mla specs.*2 && existsb is_window_spec specs.*2) then Ok None
  else
    match _promote_local_kv_cache_specs specs with
    | Err ValueError => Ok None
    | Err e => Err e
    | Ok promoted => mbind (M:=result) (λ u, Ok (fmap (M:=option) _get_kv_cache_groups_uniform_type u)) (from_specs promoted)
    end.

(** The dictionary that the caller's becomes. *)
Definition unify_hybrid_kv_cache_specs (specs : LayerDict) : result LayerDict :=
  uniform ← one_type specs; if uniform : bool then Ok specs else _promote_local_kv_cache_specs specs.

(** ** Packing pages of several sizes *)

Definition pad_to (values : list Z) (d : Z) : Z := sumZ ((λ x, (d - x mod d) mod d) <$> values).

Definition gcd_step (values : list Z) (acc : Z * option Z) (d : Z) : Z * option Z :=
  let '(best_d, best_pad) := acc in
  let pad := pad_to values d in
  match best_pad with
  | None => (d, Some pad)
  | Some bp => if (pad <? bp) || ((pad =? bp) && (best_d <? d)) then (d, Some pad) else acc
  end.

Definition _approximate_gcd (values : list Z) (lower_bound : option Z) : result Z :=
  match values with
  | [] => Err ValueError
  | _ =>
      if existsb (λ x, x <=? 0) values then Err ValueError
      else
        let min_d := Z.max 1 (default 1 lower_bound) in
        max_d ← py_max_list values;
        if max_d <? min_d then Ok min_d
        else Ok (foldl (gcd_step values) (min_d, None) (seqZ min_d (max_d + 1 - min_d))).1
  end.

(** The first bucket that stays of one type with the layer. *)
Fixpoint add_to_bucket (buckets : list LayerDict) (x : string * LayerSpec) : result (list LayerDict) :=
  match buckets with
  | [] => Ok [[x]]
  | bucket :: rest =>
      let candidate := od_set bucket x.1 x.2 in
      b ← is_uniform_type candidate;
      if b : bool then Ok (candidate :: rest) else rest ← add_to_bucket rest x; Ok (bucket :: rest)
  end.

Definition page_size_layers (bucket : LayerDict) : result (list (Z * list string)) :=
  foldM (λ acc x, p ← page_size_bytes x.2; Ok (od_set acc p (default [] (od_get acc p) ++ [x.1]))) [] bucket.

(** An element of [bucketed]: the specifications, [page_size_layers] and
    [balanced]. *)
Record Bucket : Type := mkBucket { bk_specs : LayerDict; bk_pages : list (Z * list string); balanced : bool }.

Definition make_bucket (specs : LayerDict) : result Bucket :=
  u ← from_specs specs;
  _ ← py_assert (bool_decide (is_Some u));
  pages ← page_size_layers specs;
  Ok (mkBucket specs pages (py_len (remove_dups (py_len <$> pages.*2)) =? 1)).

Definition num_groups_for (repeats_per_group : option Z) (b : Bucket) : result Z :=
  match repeats_per_group with
  | Some r => if balanced b then n ← get_max_layers_per_page_size (bk_specs b); py_cdiv n r else Ok 1
  | None => Ok 1
  end.

Definition widest_group_bytes (pages : list (Z * list string)) (n : Z) : result Z :=
  sizes ← mapM_ok (λ x, c ← py_cdiv (py_len x.2) n; Ok (c * x.1)) pages; Ok (sumZ sizes).

Definition first_is_mamba (b : Bucket) : bool := match bk_specs b with (_, s) :: _ => is_mamba s | [] => false end.

Definition choose_repeats (bucketed : list Bucket) : result (option Z) :=
  floors ← mapM_ok (λ b, get_max_layers_per_page_size (bk_specs b)) (filter (λ b, balanced b = true ∧ (1 < length (bk_pages b))%nat) bucketed);
  let min_repeats_per_group := py_max_default floors in
  if min_repeats_per_group =? 0 then Ok None
  else
    counts ← mapM_ok (λ b, get_max_layers_per_page_size (bk_specs b)) (filter (λ b, balanced b = true) bucketed);
    Some <$> _approximate_gcd counts (Some min_repeats_per_group).

Definition anchor_bytes_of (repeats_per_group : option Z) (bucketed : list Bucket) : result Z :=
  sizes ← mapM_ok (λ b, n ← (if first_is_mamba b then Ok (py_len (bk_specs b)) else num_groups_for repeats_per_group b);
                        widest_group_bytes (bk_pages b) n) bucketed;
  Ok (py_max_default sizes).

(** The number of groups a bucket is split into. *)
Definition bucket_groups (repeats_per_group : option Z) (anchor_bytes : Z) (b : Bucket) : result Z :=
  num_groups ← num_groups_for repeats_per_group b;
  match bk_specs b with
  | (_, s) :: _ =>
      if negb (anchor_bytes =? 0) && is_mamba s then
        p ← page_size_bytes s;
        if p =? 0 then Err ZeroDivisionError
        else n ← py_cdiv (py_len (bk_specs b)) (Z.max (anchor_bytes / p) 1); Ok (Z.max num_groups n)
      else Ok num_groups
  | [] => Ok num_groups
  end.

Definition pattern_group (b : Bucket) (num_groups : nat) (pattern_repeats : list (list string)) (i : nat) : result LayerGroup :=
  let names := mjoin (slice_step i num_groups pattern_repeats) in
  specs ← mapM_ok (λ n, s ← unwrap KeyError (od_get (bk_specs b) n); Ok (n, s)) names;
  u ← from_specs specs;
  spec ← unwrap AssertionError u; Ok (mkLayerGroup names spec false).

Definition split_bucket (repeats_per_group : option Z) (anchor_bytes : Z) (b : Bucket) : result (list LayerGroup) :=
  num_groups ← bucket_groups repeats_per_group anchor_bytes b;
  if num_groups =? 1 then
    match bk_specs b with
    | [] => Err StopIteration
    | (_, s) :: _ => Ok [mkLayerGroup (bk_specs b).*1 (UniformTypeKVCacheSpecs (block_size s) (bk_specs b)) false]
    end
  else mapM_ok (pattern_group b (Z.to_nat num_groups) (zip_star (bk_pages b).*2)) (seq 0 (Z.to_nat num_groups)).

Definition set_eagle (v : bool) (g : LayerGroup) : LayerGroup := mkLayerGroup (layer_names g) (kv_cache_spec g) v.

(** The first group that holds the layer. *)
Fixpoint flag_holder (name : string) (groups : list LayerGroup) : list LayerGroup :=
  match groups with
  | [] => []
  | g :: groups => if decide (name ∈ layer_names g) then set_eagle true g :: groups else g :: flag_holder name groups
  end.

Definition non_causal_multi_token_decode (s : LayerSpec) : bool := default false (snd <$> mla_of s).

Definition _annotate_eagle_groups (cfg : VllmConfig) (specs : LayerDict) (groups : list LayerGroup) (use_deepseek_v4_fallback : bool) : result (list LayerGroup) :=
  if negb (use_eagle cfg) then Ok groups
  else
    let groups := (λ g, if existsb non_causal_multi_token_decode (iter_layer_specs (kv_cache_spec g)) then set_eagle true g else g) <$> groups in
    if negb use_deepseek_v4_fallback then Ok groups
    else '(last_layer, _) ← unwrap StopIteration (last specs); Ok (flag_holder last_layer groups).

Definition _is_deepseek_v4_eagle (cfg : VllmConfig) : bool := use_eagle cfg && is_deepseek_v4 cfg.

Definition _get_packed_kv_cache_groups (cfg : VllmConfig) (specs : LayerDict) : result (option (list LayerGroup)) :=
  layout ← unwrap ValueError (layout_resolved cfg);
  pages ← mapM_ok page_size_bytes specs.*2;
  if negb (is_block_outermost layout) || (py_len (remove_dups pages) <=? 1) then Ok None
  else
    buckets ← foldM add_to_bucket [] specs;
    bucketed ← mapM_ok make_bucket buckets;
    repeats_per_group ← choose_repeats bucketed;
    anchor_bytes ← anchor_bytes_of repeats_per_group bucketed;
    groups ← mapM_ok (split_bucket repeats_per_group anchor_bytes) bucketed;
    groups ← _annotate_eagle_groups cfg specs (mjoin groups) (_is_deepseek_v4_eagle cfg);
    Ok (Some groups).

(** ** All layers *)

Definition _largest_divisor_at_most (value limit : Z) : Z :=
  default 1 (head (filter (λ c, value mod c = 0) (reverse (seqZ 1 (Z.min value limit))))).

Definition replace_block_and_padding (bs : Z) (padded : Z) (s : LayerSpec) : result LayerSpec :=
  replace_attention (λ a, set_page_size_padded (Some padded) (set_block_size bs a)) s.

(** A hidden-state layer, with the page of the other groups. *)
Definition align_hidden (common_page group_block_size : Z) (x : string * LayerSpec) : result LayerGroup :=
  let '(name, s) := x in
  a ← unwrap AttributeError (attention_of s);
  let per_token := num_kv_heads a * head_size a * itemsize (dtype a) in
  if (per_token =? 0) || (common_page =? 0) then Err ZeroDivisionError
  else
    let max_block_size := Z.max (common_page / per_token) 1 in
    s ← replace_block_and_padding (_largest_divisor_at_most group_block_size max_block_size) common_page s;
    Ok (mkLayerGroup [name] (OneSpec s) false).

Definition add_hidden (hidden : LayerDict) (groups : list LayerGroup) : result (list LayerGroup) :=
  match hidden with
  | [] => Ok groups
  | _ =>
      common_page ← get_uniform_page_size (kv_cache_spec <$> groups);
      let group_block_size := foldr Z.gcd 0 ((λ g, group_spec_block_size (kv_cache_spec g)) <$> groups) in
      aligned ← mapM_ok (align_hidden common_page group_block_size) hidden;
      Ok (groups ++ aligned)
  end.

Definition get_kv_cache_groups (cfg : VllmConfig) (specs : LayerDict) : result (list LayerGroup) :=
  specs ← (if disable_hybrid_kv_cache_manager cfg then unify_hybrid_kv_cache_specs specs else Ok specs);
  match specs with
  | [] => Ok []
  | _ =>
      uniform ← is_kv_cache_spec_uniform specs;
      if uniform : bool then _get_kv_cache_groups_uniform_spec specs
      else
        uniform_spec ← from_specs specs;
        match uniform_spec with
        | Some u => Ok (_get_kv_cache_groups_uniform_type u)
        | None =>
            let hidden_specs := filter (λ x, is_hidden_state x.2 = true) specs in
            let filtered_spec := filter (λ x, is_hidden_state x.2 = false) specs in
            packed_groups ← _get_packed_kv_cache_groups cfg filtered_spec;
            match packed_groups with
            | Some ((_ :: _) as groups) => Ok (groups ++ ((λ x, mkLayerGroup [x.1] (OneSpec x.2) false) <$> hidden_specs))
            | _ =>
                match unify_kv_cache_spec_page_size filtered_spec with
                | Err NotImplementedError =>
                    fallback_groups ← _try_get_full_allocation_fallback_groups specs;
                    unwrap NotImplementedError fallback_groups
                | Err e => Err e
                | Ok filtered_spec =>
                    groups ← _get_kv_cache_groups_uniform_page_size filtered_spec;
                    groups ← add_hidden hidden_specs groups;
                    _annotate_eagle_groups cfg specs groups false
                end
            end
        end
  end.
