(* ===== verification/KVGroupsSpec.v ===== *)
(** * Every layer is in one group

    Whatever way [get_kv_cache_groups] groups the layers, and the groups are ones
    that can be placed. *)

From S2P Require Import Prelude KVSpec KVLayout KVLayoutSpec KVPages KVGroups.
Local Open Scope Z_scope.

(** ** Slices *)

Lemma join_app_perm {A B} (f g : A → list B) l : mjoin ((λ i, f i ++ g i) <$> l) ≡ₚ mjoin (f <$> l) ++ mjoin (g <$> l).
Proof.
  induction l as [|x l IH]; [done|]. cbn [fmap list_fmap mjoin list_join]. rewrite IH. solve_Permutation.
Qed.

Lemma join_perm {A} (l l' : list (list A)) : l ≡ₚ l' → mjoin l ≡ₚ mjoin l'.
Proof. induction 1; cbn [mjoin list_join]; [done|by f_equiv|solve_Permutation|by etrans]. Qed.

Lemma join_nils {A B} (l : list A) : mjoin ((λ _, []) <$> l) = ([] : list B).
Proof. by induction l. Qed.

(** One [i] takes the element. *)
Lemma join_once {B} (x : B) (P : nat → Prop) `{∀ i, Decision (P i)} j l :
  NoDup l → j ∈ l → (∀ i, i ∈ l → P i ↔ i = j) → mjoin ((λ i, if decide (P i) then [x] else []) <$> l) = [x].
Proof.
  intros Hnd Hj HP. induction l as [|i l IH]; [by apply elem_of_nil in Hj|]. apply NoDup_cons in Hnd as [Hi Hnd]. cbn [fmap list_fmap mjoin list_join].
  case_decide as Hd.
  - apply HP in Hd as ->; [|left]. cbn. f_equal. rewrite (list_fmap_ext _ (λ _, ([] : list B))); [apply join_nils|].
    intros k i Hk. apply list_elem_of_lookup_2 in Hk. case_decide as Hd; [|done]. apply HP in Hd as ->; [done|by right].
  - cbn. apply elem_of_cons in Hj as [->|Hj]; [destruct Hd; apply HP; [left|done]|]. apply IH; [done|done|]. intros i' Hi'. apply HP. by right.
Qed.

Lemma slice_residue (i k n : nat) : (i < n)%nat → (i ≤ k ∧ (k - i) mod n = 0)%nat ↔ i = (k mod n)%nat.
Proof.
  intros Hi. split.
  - intros [Hle Hm]. apply Nat.Div0.mod_divides in Hm as [c Hc]. replace k with (i + c * n)%nat by lia. by rewrite Nat.Div0.mod_add, Nat.mod_small.
  - intros ->. pose proof (Nat.Div0.div_mod k n). split; [apply Nat.Div0.mod_le|]. replace (k - k mod n)%nat with (k / n * n)%nat by lia. apply Nat.Div0.mod_mul.
Qed.

(** The [n] slices of a list are a partition of it. *)
Lemma slices_perm {A} (n : nat) (l : list A) : (0 < n)%nat → mjoin ((λ i, slice_step i n l) <$> seq 0 n) ≡ₚ l.
Proof.
  intros Hn. unfold slice_step. assert (Hl : l = (imap pair l).*2).
  { apply list_eq. intros i. rewrite list_lookup_fmap, list_lookup_imap. by destruct (l !! i). }
  transitivity (imap pair l).*2; [|by rewrite <-Hl]. generalize (imap pair l). clear Hl l. intros L. induction L as [|[k x] L IH]; [cbn; by rewrite join_nils|].
  rewrite (list_fmap_ext _ (λ i, (if decide (i ≤ k ∧ (k - i) mod n = 0)%nat then [x] else []) ++
    omap (λ x : nat * A, if decide (i ≤ x.1 ∧ (x.1 - i) mod n = 0)%nat then Some x.2 else None) L)).
  - rewrite join_app_perm, IH. rewrite (join_once x _ (k mod n)%nat); [done|apply NoDup_seq|apply elem_of_seq; split; [lia|apply Nat.mod_upper_bound; lia]|].
    intros i Hi%elem_of_seq. apply slice_residue. lia.
  - intros i j _. cbn. by case_decide.
Qed.

(** Rows of lists of one length have all their elements. *)
Lemma rows_perm {A} (ls : list (list A)) m : (∀ l, l ∈ ls → length l = m) → mjoin ((λ i, omap (.!! i) ls) <$> seq 0 m) ≡ₚ mjoin ls.
Proof.
  induction ls as [|l ls IH]; intros Hm; [cbn; by rewrite join_nils|].
  rewrite (list_fmap_ext _ (λ i, match l !! i with Some x => [x] | None => [] end ++ omap (.!! i) ls)) by (intros i j _; cbn; by destruct (l !! j)).
  rewrite join_app_perm, IH by (intros; apply Hm; by right). cbn [mjoin list_join]. apply Permutation_app; [|done]. rewrite <-(Hm l) by left. clear.
  induction l as [|x l IH]; [done|]. cbn [length seq fmap list_fmap mjoin list_join lookup list_lookup app]. apply perm_skip.
  etrans; [|exact IH]. rewrite <-(fmap_S_seq 0). rewrite <-list_fmap_compose. done.
Qed.

Lemma foldl_min_same (l : list nat) m : (∀ x, x ∈ l → x = m) → foldl Nat.min m l = m.
Proof. induction l as [|x l IH]; intros H; cbn; [done|]. rewrite (H x) by left. rewrite Nat.min_id. apply IH. intros; apply H; by right. Qed.

Lemma zip_star_perm {A} (ls : list (list A)) m : (∀ l, l ∈ ls → length l = m) → mjoin (zip_star ls) ≡ₚ mjoin ls.
Proof.
  destruct ls as [|l ls]; [done|]. intros Hm. unfold zip_star. rewrite (Hm l) by left. rewrite foldl_min_same; [by apply rows_perm|].
  intros x (l' & -> & Hl')%list_elem_of_fmap. apply Hm. by right.
Qed.

(** ** Names *)

Definition group_names (groups : list LayerGroup) : list string := mjoin (layer_names <$> groups).

Lemma mapM_ok_fmap {A B C} (f : A → result B) (g : B → C) (h : A → C) l k :
  mapM_ok f l = Ok k → (∀ x y, x ∈ l → f x = Ok y → g y = h x) → g <$> k = h <$> l.
Proof.
  intros H%mapM_ok_Forall2 Hf. induction H as [|x y l k Hxy H IH]; [done|]. cbn. f_equal; [apply Hf; [left|done]|]. apply IH. intros; eapply Hf; [by right|done].
Qed.

Lemma create_names specs grouped groups : create_kv_cache_group_specs specs grouped = Ok groups → layer_names <$> groups = grouped.
Proof.
  intros H. unfold create_kv_cache_group_specs in H. rewrite (mapM_ok_fmap _ layer_names id _ _ H); [apply list_fmap_id|].
  intros names g _ (ls & _ & (m & _ & [= <-])%bind_Ok)%bind_Ok. done.
Qed.

Lemma unify_names specs specs' : unify_kv_cache_spec_page_size specs = Ok specs' → specs'.*1 = specs.*1.
Proof.
  unfold unify_kv_cache_spec_page_size. intros (pages & _ & H)%bind_Ok. destruct (_ <=? 1); [by injection H as <-|]. apply bind_Ok in H as (p & _ & H).
  apply (mapM_ok_fmap _ fst fst _ _ H). intros [n s] y _ (q & _ & Hy)%bind_Ok. destruct (q =? p); [by injection Hy as <-|].
  apply bind_Ok in Hy as (s' & _ & (r & _ & (u & _ & [= <-])%bind_Ok)%bind_Ok). done.
Qed.

Lemma promote_names specs specs' : _promote_local_kv_cache_specs specs = Ok specs' → specs'.*1 = specs.*1.
Proof.
  unfold _promote_local_kv_cache_specs. intros (u & _ & H)%bind_Ok. destruct u; [by injection H as <-|].
  apply bind_Ok in H as (pr & Hpr & (ok & _ & Hok)%bind_Ok). destruct ok; [|done]. injection Hok as <-. destruct (_ && _); [|by injection Hpr as <-].
  apply (mapM_ok_fmap _ fst fst _ _ Hpr). intros [n s] y _ Hy.
  destruct s; cbn [promote_layer] in Hy; try (by injection Hy as <-); cbv zeta in Hy; by apply bind_Ok in Hy as (? & _ & (? & _ & [= <-])%bind_Ok).
Qed.

Lemma hybrid_names specs specs' : unify_hybrid_kv_cache_specs specs = Ok specs' → specs'.*1 = specs.*1.
Proof. unfold unify_hybrid_kv_cache_specs. intros (u & _ & H)%bind_Ok. destruct u; [by injection H as <-|by apply promote_names]. Qed.

Lemma from_specs_Some specs u : from_specs specs = Ok (Some u) → is_uniform_type specs = Ok true ∧ ∃ b, u = UniformTypeKVCacheSpecs b specs.
Proof. unfold from_specs. intros (b & Hb & H)%bind_Ok. destruct b; [|done]. destruct specs as [|[n s] specs]; [done|]. injection H as <-. split; [done|]. by eexists. Qed.

Lemma fallback_names specs groups : _try_get_full_allocation_fallback_groups specs = Ok (Some groups) →
  ∃ b promoted, promoted.*1 = specs.*1 ∧ groups = [mkLayerGroup promoted.*1 (UniformTypeKVCacheSpecs b promoted) false] ∧ _promote_local_kv_cache_specs specs = Ok promoted ∧
    is_uniform_type promoted = Ok true.
Proof.
  unfold _try_get_full_allocation_fallback_groups. do 3 (case_match; [done|]). destruct (_promote_local_kv_cache_specs specs) as [pr|[]] eqn:Hp; try done.
  intros (u & Hu & Hg)%bind_Ok. destruct u as [u|]; [|done]. apply from_specs_Some in Hu as [Hu [b ->]]. injection Hg as <-. exists b, pr. split; [by apply promote_names|done].
Qed.

Lemma annotate_names cfg specs groups v groups' : _annotate_eagle_groups cfg specs groups v = Ok groups' →
  layer_names <$> groups' = layer_names <$> groups ∧ kv_cache_spec <$> groups' = kv_cache_spec <$> groups.
Proof.
  unfold _annotate_eagle_groups. destruct (negb (use_eagle cfg)); [by intros [= <-]|].
  set (gs := (λ g, _) <$> groups). assert (Hgs : layer_names <$> gs = layer_names <$> groups ∧ kv_cache_spec <$> gs = kv_cache_spec <$> groups).
  { subst gs. rewrite <-!list_fmap_compose. split; apply list_fmap_ext; intros i g _; unfold compose; by case_match. }
  clearbody gs. destruct Hgs as [<- <-]. destruct (negb v); [by intros [= <-]|]. intros ([n s] & _ & [= <-])%bind_Ok.
  induction gs as [|g gs IH]; [done|]. cbn [flag_holder]. case_decide; [done|]. destruct IH as [IH1 IH2]. cbn. by rewrite IH1, IH2.
Qed.

(** ** Buckets of mergeable specifications *)

Lemma add_layer_names specs : ∀ acc, mjoin (foldl add_layer acc specs).*2 ≡ₚ mjoin acc.*2 ++ specs.*1.
Proof.
  induction specs as [|[n s] specs IH]; intros acc; cbn [foldl]; [cbn; by rewrite app_nil_r|].
  rewrite IH. unfold add_layer. rewrite od_set_join, <-app_assoc. done.
Qed.

Lemma join_bucket_names buckets x buckets' : join_bucket buckets x = Ok buckets' → mjoin buckets'.*1 ≡ₚ mjoin buckets.*1 ++ x.2.
Proof.
  revert buckets'. induction buckets as [|[names specs] rest IH]; intros buckets' H; cbn [join_bucket] in H.
  { injection H as <-. cbn. by rewrite app_nil_r. }
  assert (Hrest : (rest ← join_bucket rest x; Ok ((names, specs) :: rest)) = Ok buckets' → mjoin buckets'.*1 ≡ₚ mjoin ((names, specs) :: rest).*1 ++ x.2).
  { intros (r & Hr & [= <-])%bind_Ok. cbn. rewrite (IH _ Hr). by rewrite app_assoc. }
  destruct (merge (specs ++ [x.1])) as [m|[]]; try done; [|by apply Hrest|by apply Hrest]. injection H as <-. cbn. solve_Permutation.
Qed.

Lemma layer_buckets_names specs buckets : layer_buckets specs = Ok buckets → mjoin buckets ≡ₚ specs.*1.
Proof.
  unfold layer_buckets. intros (b & Hb & [= <-])%bind_Ok.
  assert (Hgen : ∀ es acc b, foldM join_bucket acc es = Ok b → mjoin b.*1 ≡ₚ mjoin acc.*1 ++ mjoin es.*2).
  { clear. induction es as [|e es IH]; intros acc b H; cbn [foldM] in H; [injection H as <-; cbn; by rewrite app_nil_r|].
    apply bind_Ok in H as (acc' & H1 & H2). rewrite (IH _ _ H2), (join_bucket_names _ _ _ H1). cbn. by rewrite <-app_assoc. }
  rewrite (Hgen _ _ _ Hb), add_layer_names. done.
Qed.

Lemma split_layers_names size layers : 0 < size → mjoin (split_layers size layers) ≡ₚ layers.
Proof.
  intros Hs. unfold split_layers. destruct layers as [|l ls]; [by rewrite (join_nils (B := string))|]. apply slices_perm.
  assert (0 < cdiv (py_len (l :: ls)) size); [|lia]. pose proof (cdiv_spec (py_len (l :: ls)) size Hs). assert (0 < py_len (l :: ls)) by (unfold py_len; simpl; lia). nia.
Qed.

Lemma uniform_page_names specs groups : _get_kv_cache_groups_uniform_page_size specs = Ok groups → group_names groups ≡ₚ specs.*1.
Proof.
  unfold _get_kv_cache_groups_uniform_page_size. intros (buckets & Hb & (size & Hsz & H)%bind_Ok)%bind_Ok. destruct (size =? 0) eqn:H0; [done|].
  unfold group_names. rewrite (create_names _ _ _ H). rewrite <-(layer_buckets_names _ _ Hb). clear H Hb.
  assert (Hpos : 0 < size).
  { unfold choose_group_size in Hsz. apply bind_Ok in Hsz as (mn & Hmn & (mx & Hmx & [= <-])%bind_Ok).
    assert (Hn : ∀ l (r : Z), (∀ x, x ∈ l → 0 ≤ x) → py_min l = Ok r → 0 ≤ r).
    { clear. intros [|x l] r Hl; [done|]. cbn. intros [= <-]. revert x Hl. induction l as [|y l IH]; intros x Hl; cbn; [apply Hl; left|].
      apply IH. intros z [->|Hz]%elem_of_cons; [|apply Hl; by do 2 right]. assert (0 ≤ x) by (apply Hl; left). assert (0 ≤ y) by (apply Hl; right; left). lia. }
    assert (Hl : ∀ x, x ∈ py_len <$> buckets → 0 ≤ x) by (intros x (b & -> & _)%list_elem_of_fmap; apply py_len_nonneg).
    specialize (Hn _ _ Hl Hmn). apply py_max_list_in in Hmx. apply Hl in Hmx. apply Z.eqb_neq in H0. destruct (_ <? _); lia. }
  clear Hsz. induction buckets as [|b bs IH]; [done|]. cbn [fmap list_fmap mjoin list_join]. rewrite join_app. apply Permutation_app; [by apply split_layers_names|exact IH].
Qed.

(** ** Packed groups *)

Lemma add_to_bucket_perm buckets x buckets' : add_to_bucket buckets x = Ok buckets' → x.1 ∉ (mjoin buckets).*1 → mjoin buckets' ≡ₚ mjoin buckets ++ [x].
Proof.
  revert buckets'. induction buckets as [|b rest IH]; intros buckets' H Hx; cbn [add_to_bucket] in H; [by injection H as <-|].
  cbn [mjoin list_join] in Hx. rewrite fmap_app, not_elem_of_app in Hx. destruct Hx as [Hb Hr]. apply bind_Ok in H as (u & _ & H). destruct u.
  - injection H as <-. cbn [mjoin list_join]. rewrite od_set_new by done. destruct x. cbn. solve_Permutation.
  - apply bind_Ok in H as (r & Hr' & [= <-]). cbn [mjoin list_join]. rewrite (IH _ Hr' Hr). by rewrite app_assoc.
Qed.

Lemma buckets_perm specs buckets : foldM add_to_bucket [] specs = Ok buckets → NoDup specs.*1 → mjoin buckets ≡ₚ specs.
Proof.
  intros H Hnd. change specs with (mjoin ([] : list LayerDict) ++ specs) in Hnd |- *. revert H Hnd.
  generalize ([] : list LayerDict). induction specs as [|x specs IH]; intros acc H Hnd; cbn [foldM] in H; [injection H as <-; by rewrite app_nil_r|].
  apply bind_Ok in H as (acc' & H1 & H2). assert (Hx : x.1 ∉ (mjoin acc).*1).
  { rewrite fmap_app in Hnd. apply NoDup_app in Hnd as (_ & Hd & _). intros Hin. destruct (Hd _ Hin). left. }
  pose proof (add_to_bucket_perm _ _ _ H1 Hx) as Hp. rewrite (IH _ H2); [|by rewrite Hp, <-app_assoc]. by rewrite Hp, <-app_assoc.
Qed.

(** Buckets are dictionaries of one type. *)
Lemma page_layers_names (specs : LayerDict) : ∀ acc pages : list (Z * list string),
  foldM (λ acc x, p ← page_size_bytes x.2; Ok (od_set acc p (default [] (od_get acc p) ++ [x.1]))) acc specs = Ok pages → mjoin pages.*2 ≡ₚ mjoin acc.*2 ++ specs.*1.
Proof.
  induction specs as [|x specs IH]; intros acc pages H; cbn [foldM] in H; [injection H as <-; cbn; by rewrite app_nil_r|].
  apply bind_Ok in H as (acc' & (p & _ & [= <-])%bind_Ok & H2). rewrite (IH _ _ H2), od_set_join, <-app_assoc. done.
Qed.

Lemma page_layers_single p (specs : LayerDict) : (∀ x q, x ∈ specs → page_size_bytes x.2 = Ok q → q = p) → ∀ acc pages : list (Z * list string), (acc = [] ∨ ∃ ns, acc = [(p, ns)]) →
  foldM (λ acc x, p ← page_size_bytes x.2; Ok (od_set acc p (default [] (od_get acc p) ++ [x.1]))) acc specs = Ok pages → pages = [] ∨ ∃ ns, pages = [(p, ns)].
Proof.
  intros Hp. induction specs as [|x specs IH]; intros acc pages Hacc H; cbn [foldM] in H; [by injection H as <-|].
  apply bind_Ok in H as (acc' & (q & Hq & [= <-])%bind_Ok & H2). apply Hp in Hq as ->; [|left]. apply IH in H2; [done|intros; eapply Hp; [by right|done]|].
  right. destruct Hacc as [->|[ns ->]]; cbn; [by eexists|]. rewrite decide_True by done. by eexists.
Qed.

Lemma same_lengths (ls : list (list string)) : py_len (remove_dups (py_len <$> ls)) = 1 → ∃ m, ∀ l, l ∈ ls → length l = m.
Proof.
  intros [p Hp]%one_page. exists (Z.to_nat p). intros l Hl. assert (py_len l = p) as <- by (apply Hp; by apply list_elem_of_fmap_2). unfold py_len. lia.
Qed.

(** What [make_bucket] makes. *)
Lemma make_bucket_spec specs b : make_bucket specs = Ok b →
  bk_specs b = specs ∧ is_uniform_type specs = Ok true ∧ mjoin (bk_pages b).*2 ≡ₚ specs.*1 ∧ page_size_layers specs = Ok (bk_pages b) ∧
  balanced b = (py_len (remove_dups (py_len <$> (bk_pages b).*2)) =? 1).
Proof.
  unfold make_bucket. intros (u & Hu & (t & Ht & (pages & Hp & [= <-])%bind_Ok)%bind_Ok)%bind_Ok. cbn. apply py_assert_Ok, bool_decide_eq_true in Ht as [u' ->].
  pose proof Hu as Hu'. unfold from_specs in Hu. apply bind_Ok in Hu as (t' & Ht & H'). destruct t'; [|done]. split_and!; try done. by rewrite (page_layers_names _ [] pages Hp).
Qed.

Lemma allM_ok_all {A} (f : A → result bool) l : allM_ok f l = Ok true → ∀ x, x ∈ l → f x = Ok true.
Proof.
  induction l as [|y l IH]; cbn [allM_ok]; [by intros _ x ?%elem_of_nil|]. intros (b & Hb & H)%bind_Ok. destruct b; [|done].
  intros x [->|Hx]%elem_of_cons; [done|by apply IH].
Qed.

(** Mamba layers of one type have pages of one size. *)
Lemma mamba_balanced specs b : make_bucket specs = Ok b → first_is_mamba b = true → balanced b = true.
Proof.
  intros Hb. destruct (make_bucket_spec _ _ Hb) as (Hs & Hu & Hn & Hp & ->). unfold first_is_mamba. rewrite Hs. clear Hb Hs.
  destruct specs as [|[n s] specs]; [done|]. destruct s; try done. intros _. unfold is_uniform_type in Hu. destruct (2 <=? _); [done|].
  cbn [is_uniform_with_collection] in Hu. unfold mamba_uniform in Hu. assert (Hall : ∃ p, ∀ x q, x ∈ (n, MambaSpec m) :: specs → page_size_bytes x.2 = Ok q → q = p).
  { destruct (page_size_bytes (MambaSpec m)) as [p|e] eqn:Hpm; [exists p|].
    - intros [n' s'] q Hx Hq. apply (list_elem_of_fmap_2 snd) in Hx. apply (allM_ok_all _ _ Hu) in Hx. cbn [snd] in *. destruct s' as [| | | | | | | | | m' | |]; try done.
      destruct (_ && _); [|done]. rewrite Hq in Hx. cbn [mbind result_bind] in Hx. injection Hx as Hx. apply andb_true_iff in Hx as [?%Z.eqb_eq _]. done.
    - exists 0. pose proof (allM_ok_all _ _ Hu (MambaSpec m) ltac:(left)) as Hx. cbn beta iota in Hx. rewrite Z.eqb_refl, Z.eqb_refl in Hx. cbn [andb] in Hx.
      destruct (page_size_bytes (MambaSpec m)); [done|]. done. }
  destruct Hall as [p Hall]. destruct (page_layers_single p _ Hall [] (bk_pages b) ltac:(by left) Hp) as [E|[ns E]]; rewrite E in *; [|done].
  cbn in Hn. by apply Permutation_nil_cons in Hn.
Qed.

(** ** The number of repeats per group *)

(** [d] pads the values the least among [ds], and is the largest that does. *)
Record least_padding (values ds : list Z) (d : Z) : Prop := {
  lp_in : d ∈ ds;
  lp_least d' : d' ∈ ds → pad_to values d ≤ pad_to values d';
  lp_largest d' : d' ∈ ds → pad_to values d' = pad_to values d → d' ≤ d;
}.

Lemma gcd_fold values ds : ∀ dn d p, (match p with None => dn = [] | Some p => p = pad_to values d ∧ least_padding values dn d end) → dn ++ ds ≠ [] →
  least_padding values (dn ++ ds) (foldl (gcd_step values) (d, p) ds).1.
Proof.
  induction ds as [|d' ds IH]; intros dn d p Hinv Hne; cbn [foldl].
  { rewrite app_nil_r in *. destruct p as [p|]; [apply Hinv|done]. }
  replace (dn ++ d' :: ds) with ((dn ++ [d']) ++ ds) by by rewrite <-app_assoc.
  assert (Hnew : (p = None ∨ ∃ q, p = Some q ∧ (pad_to values d' < q ∨ pad_to values d' = q ∧ d < d')) → least_padding values (dn ++ [d']) d').
  { intros Hc. split; [set_solver| |]; intros e [He| ->%list_elem_of_singleton]%elem_of_app; try done.
    - destruct Hc as [->|(q & -> & Hq)]; [subst dn; by apply elem_of_nil in He|]. destruct Hinv as [-> [_ H2 _]]. specialize (H2 e He). lia.
    - intros Heq. destruct Hc as [->|(q & -> & Hq)]; [subst dn; by apply elem_of_nil in He|]. destruct Hinv as [-> [_ H2 H3]]. specialize (H2 e He).
      destruct Hq as [Hq|[Hq Hlt]]; [lia|]. specialize (H3 e He). lia. }
  unfold gcd_step at 2. destruct p as [q|].
  - destruct (_ || _) eqn:E.
    + apply IH; [|by destruct dn]. split; [done|]. apply Hnew. right. exists q. split; [done|].
      apply orb_true_iff in E as [E|E]; [left; by apply Z.ltb_lt|right]. apply andb_true_iff in E as [E1%Z.eqb_eq E2%Z.ltb_lt]. done.
    + apply IH; [|by destruct dn]. destruct Hinv as [-> [H1 H2 H3]]. split; [done|]. apply orb_false_iff in E as [E1%Z.ltb_ge E2%andb_false_iff].
      rewrite Z.eqb_neq, Z.ltb_ge in E2. split; [set_solver| |]; intros e [He| ->%list_elem_of_singleton]%elem_of_app; auto; lia.
  - apply IH; [|by destruct dn]. split; [done|]. apply Hnew. by left.
Qed.

(** The chunk size of the least padding from the lower bound to the largest
    value. *)
Lemma approximate_gcd_spec values lower d : _approximate_gcd values lower = Ok d →
  1 ≤ d ∧ ∃ m, py_max_list values = Ok m ∧
    (m < Z.max 1 (default 1 lower) ∧ d = Z.max 1 (default 1 lower) ∨
     least_padding values (seqZ (Z.max 1 (default 1 lower)) (m + 1 - Z.max 1 (default 1 lower))) d).
Proof.
  unfold _approximate_gcd. destruct values as [|v vs] eqn:Hv; [done|]. rewrite <-Hv. destruct (existsb _ values); [done|]. cbv zeta.
  set (lo := Z.max 1 (default 1 lower)). intros (m & Hm & H)%bind_Ok. destruct (m <? lo) eqn:Hlt.
  { injection H as <-. split; [lia|]. exists m. split; [done|]. left. apply Z.ltb_lt in Hlt. done. }
  apply Z.ltb_ge in Hlt. injection H as <-. assert (Hl : least_padding values (seqZ lo (m + 1 - lo)) (foldl (gcd_step values) (lo, None) (seqZ lo (m + 1 - lo))).1).
  { apply (gcd_fold values (seqZ lo (m + 1 - lo)) [] lo None); [done|]. cbn [app]. intros E. apply (f_equal length) in E. rewrite length_seqZ in E. simpl in E. lia. }
  split; [pose proof (lp_in _ _ _ Hl) as Hin%elem_of_seqZ; lia|]. exists m. split; [done|by right].
Qed.

Lemma max_layers_pos specs n : get_max_layers_per_page_size specs = Ok n → 1 ≤ n.
Proof.
  unfold get_max_layers_per_page_size. intros (pages & _ & H)%bind_Ok. destruct pages as [|p ps] eqn:Hp; [done|]. rewrite <-Hp in H. apply py_max_list_in in H.
  apply list_elem_of_fmap in H as (q & -> & Hq). rewrite elem_of_remove_dups in Hq. assert (Hf : q ∈ filter (λ r, r = q) pages).
  { apply list_elem_of_filter. split; [done|]. subst pages. exact Hq. }
  destruct (filter _ pages); [by apply elem_of_nil in Hf|]. unfold py_len. simpl. lia.
Qed.

Lemma repeats_pos bucketed r : choose_repeats bucketed = Ok (Some r) → 1 ≤ r.
Proof.
  unfold choose_repeats. intros (floors & _ & H)%bind_Ok. destruct (_ =? 0); [done|]. apply bind_Ok in H as (counts & _ & H).
  destruct (_approximate_gcd counts _) as [d|] eqn:Hd; [|done]. injection H as <-. by apply approximate_gcd_spec in Hd as [? _].
Qed.

(** ** The groups of a bucket *)

Lemma groups_for_cases r b n : (∀ x, r = Some x → 1 ≤ x) → num_groups_for r b = Ok n → 1 ≤ n ∧ (n = 1 ∨ balanced b = true).
Proof.
  intros Hr. unfold num_groups_for. destruct r as [x|]; [|intros [= <-]; split; [lia|by left]]. specialize (Hr x eq_refl).
  destruct (balanced b); [|intros [= <-]; split; [lia|by left]]. intros (m & Hm & H)%bind_Ok. apply max_layers_pos in Hm. unfold py_cdiv in H.
  destruct (x =? 0); [done|]. injection H as <-. split; [|by right]. pose proof (cdiv_spec m x ltac:(lia)). nia.
Qed.

Lemma bucket_groups_cases specs r a b n : make_bucket specs = Ok b → (∀ x, r = Some x → 1 ≤ x) → bucket_groups r a b = Ok n → 1 ≤ n ∧ (n = 1 ∨ balanced b = true).
Proof.
  intros Hb Hr. unfold bucket_groups. intros (m & Hm & H)%bind_Ok. destruct (groups_for_cases r b m Hr Hm) as [Hm1 Hm2].
  destruct (bk_specs b) as [|[nm s] sp] eqn:Hsp; [by injection H as <-|]. destruct (negb (a =? 0) && is_mamba s) eqn:Hc; [|by injection H as <-].
  apply bind_Ok in H as (p & _ & H). destruct (p =? 0); [done|]. apply bind_Ok in H as (k & _ & [= <-]). split; [lia|]. right.
  apply (mamba_balanced _ _ Hb). unfold first_is_mamba. rewrite Hsp. by apply andb_true_iff in Hc as [_ ?].
Qed.

Lemma slice_rows_perm (rows : list (list string)) n : (0 < n)%nat → mjoin ((λ i, mjoin (slice_step i n rows)) <$> seq 0 n) ≡ₚ mjoin rows.
Proof.
  intros Hn. rewrite <-(join_perm _ _ (slices_perm n rows Hn)). generalize (seq 0 n). induction l as [|i l IH]; [done|].
  cbn [fmap list_fmap mjoin list_join]. rewrite join_app. apply Permutation_app; [done|exact IH].
Qed.

Lemma split_bucket_names specs r a b groups : make_bucket specs = Ok b → (∀ x, r = Some x → 1 ≤ x) → split_bucket r a b = Ok groups → group_names groups ≡ₚ specs.*1.
Proof.
  intros Hb Hr. unfold split_bucket. intros (n & Hn & H)%bind_Ok. destruct (bucket_groups_cases specs r a b n Hb Hr Hn) as [Hn1 Hn2].
  destruct (make_bucket_spec _ _ Hb) as (Hs & _ & Hnames & _ & Hbal). destruct (n =? 1) eqn:E.
  { rewrite Hs in H. destruct specs as [|[nm s] sp]; [done|]. injection H as <-. unfold group_names. cbn. by rewrite app_nil_r. }
  apply Z.eqb_neq in E. destruct Hn2 as [->|Hn2]; [done|]. rewrite Hn2 in Hbal. symmetry in Hbal. apply Z.eqb_eq, same_lengths in Hbal as [m Hm].
  unfold group_names. rewrite (mapM_ok_fmap _ layer_names (λ i, mjoin (slice_step i (Z.to_nat n) (zip_star (bk_pages b).*2))) _ _ H).
  - rewrite slice_rows_perm by lia. by rewrite (zip_star_perm _ m Hm).
  - intros i g _. unfold pattern_group. by intros (? & _ & (? & _ & (? & _ & [= <-])%bind_Ok)%bind_Ok)%bind_Ok.
Qed.

Lemma packed_names cfg specs groups : NoDup specs.*1 → _get_packed_kv_cache_groups cfg specs = Ok (Some groups) → group_names groups ≡ₚ specs.*1.
Proof.
  intros Hnd. unfold _get_packed_kv_cache_groups. intros (layout & _ & (pages & _ & H)%bind_Ok)%bind_Ok. destruct (_ || _); [done|].
  apply bind_Ok in H as (buckets & Hbk & (bucketed & Hbd & (r & Hr & (a & _ & (gs & Hgs & (gs' & Hgs' & [= <-])%bind_Ok)%bind_Ok)%bind_Ok)%bind_Ok)%bind_Ok).
  apply annotate_names in Hgs' as [Hn _]. unfold group_names. rewrite Hn. clear Hn. rewrite <-(buckets_perm _ _ Hbk Hnd) at 1. clear Hbk Hnd.
  assert (Hpos : ∀ x, r = Some x → 1 ≤ x) by (intros x ->; by eapply repeats_pos). clear Hr. apply mapM_ok_Forall2 in Hbd, Hgs. revert gs Hgs.
  induction Hbd as [|specs0 b bks bds Hb Hbds IH]; intros gs Hgs; [by apply Forall2_nil_inv_l in Hgs as ->|].
  apply Forall2_cons_inv_l in Hgs as (g & gs0 & Hg & Hgs & ->). cbn [mjoin list_join]. rewrite !fmap_app, join_app. apply Permutation_app; [|by apply IH].
  by apply (split_bucket_names _ _ _ _ _ Hb Hpos Hg).
Qed.

(** ** All groups *)

Lemma hidden_split (specs : LayerDict) : filter (λ x, is_hidden_state x.2 = false) specs ++ filter (λ x, is_hidden_state x.2 = true) specs ≡ₚ specs.
Proof.
  induction specs as [|[n s] specs IH]; [done|]. rewrite !filter_cons. cbn [snd]. destruct (is_hidden_state s).
  - rewrite decide_False, decide_True by done. rewrite <-Permutation_middle. by apply perm_skip.
  - rewrite decide_True, decide_False by done. by apply perm_skip.
Qed.

Lemma hidden_names hidden groups groups' : add_hidden hidden groups = Ok groups' → group_names groups' ≡ₚ group_names groups ++ hidden.*1.
Proof.
  unfold add_hidden, group_names. destruct hidden as [|h hs] eqn:Hh; [intros [= <-]; by rewrite app_nil_r|]. rewrite <-Hh. clear Hh.
  intros (p & _ & (al & Hal & [= <-])%bind_Ok)%bind_Ok. rewrite fmap_app, join_app. apply Permutation_app; [done|].
  rewrite (mapM_ok_fmap _ layer_names (λ x, [x.1]) _ _ Hal).
  - generalize hidden. intros l. induction l as [|x l IH]; [done|]. cbn. by apply perm_skip.
  - intros [n s] g _. unfold align_hidden. intros (a & _ & H)%bind_Ok. cbv zeta in H. destruct (_ || _); [done|]. by apply bind_Ok in H as (s' & _ & [= <-]).
Qed.

(** What the groups are made of: one specification for all layers, a dictionary
    of one type, packed groups, or groups of one page size. *)
Inductive grouping (cfg : VllmConfig) (specs : LayerDict) (groups : list LayerGroup) : Prop :=
  | grouping_none : specs = [] → groups = [] → grouping cfg specs groups
  | grouping_spec : create_kv_cache_group_specs specs [specs.*1] = Ok groups → grouping cfg specs groups
  | grouping_type b : is_uniform_type specs = Ok true → groups = [mkLayerGroup specs.*1 (UniformTypeKVCacheSpecs b specs) false] → grouping cfg specs groups
  | grouping_packed gs hidden : _get_packed_kv_cache_groups cfg (filter (λ x, is_hidden_state x.2 = false) specs) = Ok (Some gs) →
      hidden = filter (λ x, is_hidden_state x.2 = true) specs → groups = gs ++ ((λ x, mkLayerGroup [x.1] (OneSpec x.2) false) <$> hidden) → grouping cfg specs groups
  | grouping_full promoted b : _promote_local_kv_cache_specs specs = Ok promoted → is_uniform_type promoted = Ok true →
      groups = [mkLayerGroup promoted.*1 (UniformTypeKVCacheSpecs b promoted) false] → grouping cfg specs groups
  | grouping_page unified gs gs' hidden : unify_kv_cache_spec_page_size (filter (λ x, is_hidden_state x.2 = false) specs) = Ok unified →
      _get_kv_cache_groups_uniform_page_size unified = Ok gs → hidden = filter (λ x, is_hidden_state x.2 = true) specs →
      add_hidden hidden gs = Ok gs' → _annotate_eagle_groups cfg specs gs' false = Ok groups → grouping cfg specs groups.

Lemma get_groups_grouping cfg specs groups : get_kv_cache_groups cfg specs = Ok groups →
  ∃ specs', (if disable_hybrid_kv_cache_manager cfg then unify_hybrid_kv_cache_specs specs else Ok specs) = Ok specs' ∧ grouping cfg specs' groups.
Proof.
  unfold get_kv_cache_groups. intros (specs' & Hs & H)%bind_Ok. exists specs'. split; [done|]. destruct specs' as [|x sp] eqn:E.
  { injection H as <-. by apply grouping_none. }
  rewrite <-E in *. clear E. apply bind_Ok in H as (u & _ & H). destruct u; [by apply grouping_spec|].
  apply bind_Ok in H as (o & Ho & H). destruct o as [u|].
  { apply from_specs_Some in Ho as [Hu [b ->]]. injection H as <-. by apply (grouping_type _ _ _ b). }
  clear Ho. cbv zeta in H. apply bind_Ok in H as (pk & Hpk & H).
  assert (Hrest : pk = Some [] ∨ pk = None → match unify_kv_cache_spec_page_size (filter (λ x, is_hidden_state x.2 = false) specs') with
      | Ok filtered => groups ← _get_kv_cache_groups_uniform_page_size filtered; groups ← add_hidden (filter (λ x, is_hidden_state x.2 = true) specs') groups;
          _annotate_eagle_groups cfg specs' groups false
      | Err NotImplementedError => fallback ← _try_get_full_allocation_fallback_groups specs'; unwrap NotImplementedError fallback
      | Err e => Err e end = Ok groups → grouping cfg specs' groups).
  { clear H. intros _. destruct (unify_kv_cache_spec_page_size _) as [un|[]] eqn:Hun; try done.
    - intros (gs & Hgs & (gs' & Hgs' & H)%bind_Ok)%bind_Ok. by eapply grouping_page.
    - intros (fb & Hfb & H)%bind_Ok. apply unwrap_Ok in H as ->. apply fallback_names in Hfb as (b & pr & _ & -> & Hpr & Hu). by eapply grouping_full. }
  destruct pk as [[|g gs]|]; [apply Hrest; [by left|done]| |apply Hrest; [by right|done]]. injection H as <-. by eapply grouping_packed.
Qed.

Lemma grouping_names cfg specs groups : NoDup specs.*1 → grouping cfg specs groups → group_names groups ≡ₚ specs.*1.
Proof.
  intros Hnd. pose proof (hidden_split specs) as Hsplit. apply (Permutation_map fst) in Hsplit as Hfst. change (map fst) with (fmap (M := list) (@fst string LayerSpec)) in Hfst.
  rewrite fmap_app in Hfst.
  intros [-> ->|H|b _ ->|gs hidden H -> ->|pr b H _ ->|un gs gs' hidden Hun Hgs -> Hgs' Ha].
  - done.
  - unfold group_names. rewrite (create_names _ _ _ H). cbn. by rewrite app_nil_r.
  - unfold group_names. cbn. by rewrite app_nil_r.
  - unfold group_names. rewrite fmap_app, join_app. rewrite <-Hfst. apply Permutation_app.
    + apply packed_names in H; [done|]. rewrite <-Hfst in Hnd. by apply NoDup_app in Hnd as [? _].
    + generalize (filter (λ x : string * LayerSpec, is_hidden_state x.2 = true) specs). intros l. induction l as [|x l IH]; [done|]. cbn. by apply perm_skip.
  - unfold group_names. cbn. rewrite app_nil_r. by rewrite (promote_names _ _ H).
  - unfold group_names in *. destruct (annotate_names _ _ _ _ _ Ha) as [-> _]. rewrite (hidden_names _ _ _ Hgs'). rewrite <-Hfst. apply Permutation_app; [|done].
    unfold group_names. rewrite (uniform_page_names _ _ Hgs). by rewrite (unify_names _ _ Hun).
Qed.

(** C23: whatever way the layers are grouped, every layer is in exactly one group
    of [get_kv_cache_groups], and no group has another layer. *)
Theorem kv_layers_partitioned cfg specs groups :
  NoDup specs.*1 → get_kv_cache_groups cfg specs = Ok groups → mjoin (layer_names <$> groups) ≡ₚ specs.*1.
Proof.
  intros Hnd H. destruct (get_groups_grouping _ _ _ H) as (specs' & Hs & Hg). destruct (disable_hybrid_kv_cache_manager cfg).
  - rewrite <-(hybrid_names _ _ Hs) in *. by eapply grouping_names.
  - injection Hs as <-. by eapply grouping_names.
Qed.
