(* ===== verification/KVGroupsPlace.v ===== *)
(** * The groups can be placed

    What grouping does to the specifications of layers keeps their pages
    non-empty and their heads, so the groups of [get_kv_cache_groups] are as the
    placement needs them. *)

From S2P Require Import Prelude KVSpec KVLayout KVLayoutSpec KVPages KVGroups KVGroupsSpec.
Local Open Scope Z_scope.

(** ** Specifications with a page *)

(** A state per token, at least. *)
Definition dense (s : LayerSpec) : Prop :=
  match attention_of s with Some a => 0 < denominator (tokens_per_state a) ∧ numerator (tokens_per_state a) ≤ denominator (tokens_per_state a) | None => True end.

Definition local_or_hidden (s : LayerSpec) : bool := is_hidden_state s || is_window_spec s || is_chunked_local s.

(** What the layers of a model declare: sizes are positive, a Mamba page is one
    state of one head, layers whose block size grouping may shrink keep a state
    per token, and sliding-window MLA has one latent vector per token. *)
Record spec_pos (s : LayerSpec) : Prop := {
  ps_block : 0 < block_size s;
  ps_heads : 0 < num_heads s;
  ps_states : 0 < num_states s;
  ps_content : 0 < state_content_size_bytes s;
  ps_mamba : is_mamba s = true → num_heads s * num_states s = 1;
  ps_dense : local_or_hidden s = true → dense s;
  ps_latent : is_sliding_window_mla s = true → head_size_v <$> attention_of s = Some 0;
}.

(** [s'] is [s] with other tokens per block or padding; a window that is kept
    keeps its extra tokens. *)
Definition window_kept (s s' : LayerSpec) : Prop :=
  ∀ w', window_of s' = Some w' → ∃ w, window_of s = Some w ∧ extra_retained_tokens w = extra_retained_tokens w'.

Definition reshapes (s s' : LayerSpec) : Prop := (num_heads s' = num_heads s ∧ window_kept s s') ∧ (spec_pos s → spec_pos s').

Lemma window_kept_same s s' : window_of s' = window_of s → window_kept s s'.
Proof. intros E w Hw. exists w. by rewrite <-E. Qed.
#[export] Hint Resolve window_kept_same : core.

Lemma reshapes_refl s : reshapes s s. Proof. by split; [split; [|apply window_kept_same]|]. Qed.

(** What [spec_pos] says about attention. *)
Record attention_pos (a : AttentionFields) : Prop := {
  ap_block : 0 < at_block_size a;
  ap_heads : 0 < num_head_groups a;
  ap_states : 0 < attention_num_states a;
  ap_content : 0 < content_size_bytes a;
}.

Lemma pos_attention s a : attention_of s = Some a → spec_pos s → attention_pos a.
Proof. intros Ha [H1 H2 H3 H4 _ _ _]. destruct s; try done; cbn in Ha; injection Ha as ->; by split. Qed.

Lemma attention_pos_spec s a : attention_of s = Some a → attention_pos a → (local_or_hidden s = true → dense s) →
  (is_sliding_window_mla s = true → head_size_v a = 0) → spec_pos s.
Proof. intros Ha [H1 H2 H3 H4] Hd Hl. destruct s; try done; cbn in Ha; injection Ha as ->; split; try done; intros H; cbn in *; by rewrite Hl. Qed.

Lemma heads_attention s a : attention_of s = Some a → num_heads s = num_head_groups a.
Proof. intros Ha. destruct s; try done; cbn in *; congruence. Qed.

(** The alignment of a page changes its padding only. *)
Lemma alignment_fields al a a' : _apply_alignment_padding al a = Ok a' → ∃ o, a' = set_page_size_padded o a.
Proof.
  unfold _apply_alignment_padding. destruct al as [al|]; [|intros [= <-]; exists (page_size_padded a); by destruct a].
  cbv zeta. intros (p & _ & [= <-])%bind_Ok. destruct (_ =? _); [exists (page_size_padded a); by destruct a|by exists (Some p)].
Qed.

Lemma post_init_fields s s' a : attention_of s = Some a → post_init s = Ok s' →
  ∃ o, attention_of s' = Some (set_page_size_padded o a) ∧ local_or_hidden s' = local_or_hidden s ∧ is_sliding_window_mla s' = is_sliding_window_mla s ∧ window_of s' = window_of s.
Proof.
  intros Ha. assert (Hid : s' = s → ∃ o, attention_of s' = Some (set_page_size_padded o a) ∧ local_or_hidden s' = local_or_hidden s ∧
    is_sliding_window_mla s' = is_sliding_window_mla s ∧ window_of s' = window_of s).
  { intros ->. exists (page_size_padded a). rewrite Ha. by destruct a. }
  destruct s; cbn [post_init]; try (intros [= <-]; by apply Hid); cbn in Ha; injection Ha as ->.
  - intros (a' & [o ->]%alignment_fields & [= <-])%bind_Ok. by exists o.
  - intros (a' & [o ->]%alignment_fields & [= <-])%bind_Ok. by exists o.
  - intros (u & _ & (a' & [o ->]%alignment_fields & [= <-])%bind_Ok)%bind_Ok. by exists o.
Qed.

(** [replace] of fields that leave heads, states and contents positive. *)
Lemma replace_reshapes g s a s' : attention_of s = Some a → replace_attention g s = Ok s' →
  num_head_groups (g a) = num_head_groups a → head_size_v (g a) = head_size_v a → tokens_per_state (g a) = tokens_per_state a →
  (spec_pos s → attention_pos (g a)) → reshapes s s'.
Proof.
  intros Ha Hr Hh Hv Ht Hp. unfold replace_attention in Hr.
  assert (Hm : attention_of (map_attention g s) = Some (g a) ∧ local_or_hidden (map_attention g s) = local_or_hidden s ∧ is_sliding_window_mla (map_attention g s) = is_sliding_window_mla s ∧
    window_of (map_attention g s) = window_of s).
  { destruct s; try done; cbn in Ha; by injection Ha as ->. }
  destruct Hm as (Hm & Hlm & Hwm & Hom). destruct (post_init_fields _ _ _ Hm Hr) as (o & Ho & Hl & Hw & How). split; [split|].
  - by rewrite (heads_attention _ _ Ho), (heads_attention _ _ Ha).
  - apply window_kept_same. congruence.
  - intros Hs. pose proof (Hp Hs) as [P1 P2 P3 P4]. apply (attention_pos_spec _ _ Ho); [by split| |].
    + rewrite Hl, Hlm. intros Hloc. pose proof (ps_dense _ Hs Hloc) as Hd. unfold dense in *. rewrite Ha in Hd. rewrite Ho. cbn. by rewrite Ht.
    + rewrite Hw, Hwm. intros Hlat. pose proof (ps_latent _ Hs Hlat) as Hz. rewrite Ha in Hz. injection Hz as Hz. cbn. by rewrite Hv.
Qed.

(** ** Merging *)

Lemma same_attention_reshapes s m a : attention_of s = Some a → attention_of m = Some a → (local_or_hidden m = true → local_or_hidden s = true) →
  window_of m = None → reshapes s m.
Proof.
  intros Hs Hm Hl Hw'. assert (Hw : is_sliding_window_mla m = false) by by destruct m.
  split; [split; [by rewrite (heads_attention _ _ Hs), (heads_attention _ _ Hm)|intros w; by rewrite Hw']|]. intros Hp.
  apply (attention_pos_spec _ _ Hm); [exact (pos_attention s a Hs Hp)| |by rewrite Hw]. intros H. pose proof (ps_dense _ Hp (Hl H)) as Hd. unfold dense in *. rewrite Hs in Hd. by rewrite Hm.
Qed.

Lemma full_fields_attention a specs f s : merge_full_fields a specs = Ok f → s ∈ specs → attention_of s = Some a.
Proof.
  unfold merge_full_fields. cbv zeta. intros (? & _ & (? & _ & (w & _ & (c & _ & (u & Hu & _)%bind_Ok)%bind_Ok)%bind_Ok)%bind_Ok)%bind_Ok Hin.
  apply py_assert_Ok in Hu. rewrite forallb_forall in Hu. apply list_elem_of_In in Hin. by apply Hu, bool_decide_eq_true in Hin.
Qed.

Lemma mla_fields_attention a specs r s : merge_mla_fields a specs = Ok r → s ∈ specs → attention_of s = Some (set_head_size_v 0 a).
Proof.
  unfold merge_mla_fields. cbv zeta. intros (? & _ & (? & _ & (? & _ & H)%bind_Ok)%bind_Ok)%bind_Ok Hin. destruct (omap mla_of specs) as [|[y0 n0] xs]; [done|].
  apply bind_Ok in H as (u & Hu & _). apply py_assert_Ok in Hu. rewrite forallb_forall in Hu. apply list_elem_of_In in Hin. by apply Hu, bool_decide_eq_true in Hin.
Qed.

Lemma swmla_reshapes a w x m : post_init (SlidingWindowMLASpec (set_kv_quant_mode QUANT_NONE (set_head_size_v 0 a)) w (mkMLA (cache_dtype_str x) None (model_version x))) = Ok m →
  reshapes (SlidingWindowMLASpec a w x) m.
Proof.
  intros H. pose proof H as H'. eapply (post_init_fields _ _ (set_kv_quant_mode QUANT_NONE (set_head_size_v 0 a))) in H' as (o & Ho & Hl & Hw & How); [|done]. split; [split; [by rewrite (heads_attention _ _ Ho)|by apply window_kept_same]|]. intros Hp.
  pose proof (pos_attention (SlidingWindowMLASpec a w x) a eq_refl Hp) as [P1 P2 P3 P4]. pose proof (ps_latent _ Hp eq_refl) as Hz. injection Hz as Hz.
  apply (attention_pos_spec _ _ Ho).
  - split; try done. unfold content_size_bytes in *. cbn. by rewrite Hz in P4.
  - intros _. pose proof (ps_dense _ Hp eq_refl) as Hd. unfold dense in *. by rewrite Ho.
  - done.
Qed.

Lemma merge_reshapes specs m : merge specs = Ok m → ∃ s, head specs = Some s ∧ reshapes s m.
Proof.
  destruct specs as [|s rest]; [done|]. intros H. exists s. split; [done|]. unfold merge in H.
  assert (Heq : merge_equal s (s :: rest) = Ok m → reshapes s m) by (unfold merge_equal; intros (? & _ & [= <-])%bind_Ok; apply reshapes_refl).
  assert (Hin : s ∈ s :: rest) by left. destruct s; try (by apply Heq); clear Heq; unfold merge_full, merge_rswa, merge_sink, merge_window_mla in H.
  - apply bind_Ok in H as (f' & Hf & [= <-]). by apply (same_attention_reshapes _ _ a).
  - apply bind_Ok in H as ([x' n'] & Hf & [= <-]). apply (mla_fields_attention _ _ _ _ Hf) in Hin. by apply (same_attention_reshapes _ _ (set_head_size_v 0 a)).
  - apply bind_Ok in H as ([x' n'] & Hf & [= <-]). apply (mla_fields_attention _ _ _ _ Hf) in Hin. by apply (same_attention_reshapes _ _ (set_head_size_v 0 a)).
  - apply bind_Ok in H as (? & _ & (? & _ & (f' & Hf & [= <-])%bind_Ok)%bind_Ok). by apply (same_attention_reshapes _ _ a).
  - cbv zeta in H. apply bind_Ok in H as (f' & Hf & [= <-]). apply (full_fields_attention _ _ _ _ Hf) in Hin. by eapply same_attention_reshapes.
  - apply bind_Ok in H as (? & _ & (? & _ & H)%bind_Ok). by apply swmla_reshapes.
Qed.

(** ** Pages of one size *)

Lemma scaled_states a k : attention_pos a → 1 ≤ k → attention_pos (set_block_size (at_block_size a * k) a).
Proof.
  intros [H1 H2 H3 H4] Hk. split; try done; cbn; [nia|]. unfold attention_num_states, get_num_kernel_states in *. cbn.
  destruct (0 <? numerator (tokens_per_state a)) eqn:E; [|lia]. apply Z.ltb_lt in E.
  assert (Hd : numerator (tokens_per_state a) ≤ at_block_size a * denominator (tokens_per_state a)).
  { apply Z.nlt_ge. intros Hlt. assert (at_block_size a * denominator (tokens_per_state a) / numerator (tokens_per_state a) < 1); [|lia]. apply Z.div_lt_upper_bound; lia. }
  apply Z.div_str_pos. split; [done|]. nia.
Qed.

Lemma unify_reshapes p x y : unify_layer p x = Ok y → page_size_bytes x.2 = Err NotImplementedError ∨ (∀ q, page_size_bytes x.2 = Ok q → q ≤ p) → reshapes x.2 y.2.
Proof.
  destruct x as [n s]. unfold unify_layer. intros (q & Hq & H)%bind_Ok Hle. cbn [snd] in *. destruct Hle as [Hle|Hle]; [by rewrite Hle in Hq|]. specialize (Hle q Hq).
  destruct (q =? p) eqn:E; [injection H as <-; apply reshapes_refl|]. apply bind_Ok in H as (s' & Hs' & (r & _ & (u & _ & [= <-])%bind_Ok)%bind_Ok). cbn [snd].
  destruct (is_mamba s) eqn:Hm.
  { injection Hs' as <-. destruct s; try done. split; [split; [done|by apply window_kept_same]|]. intros [P1 P2 P3 P4 P5 _ _]. by split. }
  destruct (attention_of s) as [a|] eqn:Ha; [|by destruct s]. destruct (q =? 0) eqn:Hq0; [done|]. destruct (p mod q =? 0) eqn:Hdiv.
  - apply (replace_reshapes _ _ _ _ Ha Hs'); [done|done|done|]. intros Hp. pose proof (pos_attention _ _ Ha Hp) as Hap.
    replace (block_size s) with (at_block_size a) by (destruct s; cbn in *; congruence).
    apply scaled_states; [done|]. apply Z.eqb_eq in Hdiv. apply Z.eqb_neq in Hq0, E. assert (0 ≤ q); [|apply Z.div_le_lower_bound; nia].
    assert (Hpq : page_size_bytes s = padded_to (unpadded_page_size_bytes a) (page_size_padded a)) by (destruct s; cbn in *; congruence).
    rewrite Hpq in Hq. destruct Hap as [A1 A2 A3 A4]. assert (0 ≤ unpadded_page_size_bytes a) by (unfold unpadded_page_size_bytes; nia). unfold padded_to in Hq.
    destruct (page_size_padded a) as [z|]; [|injection Hq as <-; done]. apply bind_Ok in Hq as (v & Hv%py_assert_Ok%Z.leb_le & [= <-]). lia.
  - destruct (negb (is_mla s)); [|done]. apply (replace_reshapes _ _ _ _ Ha Hs'); [done|done|done|]. intros Hp. destruct (pos_attention _ _ Ha Hp). by split.
Qed.

(** ** Other block sizes *)

Lemma dense_states a b : 0 < b → 0 < denominator (tokens_per_state a) → numerator (tokens_per_state a) ≤ denominator (tokens_per_state a) →
  0 < attention_num_states (set_block_size b a).
Proof.
  intros Hb Hd Hn. unfold attention_num_states, get_num_kernel_states. cbn. destruct (0 <? numerator (tokens_per_state a)) eqn:E; [|lia].
  apply Z.ltb_lt in E. apply Z.div_str_pos. nia.
Qed.

Lemma resized_pos s a b o : attention_of s = Some a → spec_pos s → local_or_hidden s = true → 0 < b → attention_pos (set_page_size_padded o (set_block_size b a)).
Proof.
  intros Ha Hp Hl Hb. destruct (pos_attention _ _ Ha Hp) as [P1 P2 P3 P4]. pose proof (ps_dense _ Hp Hl) as Hd. unfold dense in Hd. rewrite Ha in Hd.
  destruct Hd as [Hd1 Hd2]. split; try done. by apply (dense_states a b).
Qed.

Lemma promote_reshapes b o s s' a : attention_of s = Some a → 0 < b → promote b o s = Ok s' → is_hidden_state s = false → reshapes s s'.
Proof.
  intros Ha Hb H Hh. assert (Hgen : ∀ m a', attention_of m = Some a' → local_or_hidden m = false → window_of m = None →
    local_or_hidden s = true → (∃ o', a' = set_page_size_padded o' (set_block_size b a)) → reshapes s m).
  { intros m a' Hm Hlm Hom Hls [o' ->]. assert (Hwm : is_sliding_window_mla m = false) by by destruct m.
    split; [split; [by rewrite (heads_attention _ _ Hm), (heads_attention _ _ Ha)|intros w; by rewrite Hom]|]. intros Hp.
    apply (attention_pos_spec _ _ Hm); [by apply (resized_pos s)|by rewrite Hlm|by rewrite Hwm]. }
  destruct s; cbn [promote] in H; try (injection H as <-; apply reshapes_refl); cbn in Ha; injection Ha as ->; cbv zeta in H.
  - injection H as <-. eapply Hgen; try done. by eexists.
  - injection H as <-. eapply Hgen; try done. by eexists.
  - pose proof H as H'. eapply (post_init_fields _ _ (set_page_size_padded o (set_block_size b a))) in H' as (o' & Ho & Hl & Hw & How); [|done]. eapply (Hgen _ _ Ho); try done. by exists o'.
Qed.

(** ** Groups *)

Definition good (S : list LayerSpec) (s : LayerSpec) : Prop := spec_pos s ∧ ∃ s0, s0 ∈ S ∧ num_heads s = num_heads s0 ∧ window_kept s0 s.
Definition good_dict (S : list LayerSpec) (specs : LayerDict) : Prop := ∀ x, x ∈ specs → good S x.2.

Definition group_good (S : list LayerSpec) (names : list string) (spec : GroupSpec) : Prop :=
  match spec with
  | OneSpec s => good S s
  | UniformTypeKVCacheSpecs _ specs => specs.*1 = names ∧ good_dict S specs ∧ is_uniform_type specs = Ok true
  end.
Definition groups_good (S : list LayerSpec) (groups : list LayerGroup) : Prop := ∀ g, g ∈ groups → group_good S (layer_names g) (kv_cache_spec g).

Section Good.
Context (S : list LayerSpec).

Lemma good_reshapes s s' : good S s → reshapes s s' → good S s'.
Proof.
  intros [Hp (s0 & H0 & Hh & Hw)] [[R1 Rw] R2]. split; [by apply R2|]. exists s0. split_and!; [done|congruence|].
  intros w' H'. destruct (Rw w' H') as (w & H & <-). by apply Hw.
Qed.

Lemma groups_good_app gs gs' : groups_good S gs → groups_good S gs' → groups_good S (gs ++ gs').
Proof. intros H H' g [Hg|Hg]%elem_of_app; [by apply H|by apply H']. Qed.

Lemma mapM_ok_in {A B} (f : A → result B) l k y : mapM_ok f l = Ok k → y ∈ k → ∃ x, x ∈ l ∧ f x = Ok y.
Proof. intros H%mapM_ok_Forall2 Hy. by apply (Forall2_elem_r _ _ _ _ H). Qed.

Lemma create_good specs grouped groups : good_dict S specs → create_kv_cache_group_specs specs grouped = Ok groups → groups_good S groups.
Proof.
  intros Hs H g Hg. destruct (mapM_ok_in _ _ _ _ H Hg) as (names & _ & (ls & Hls & (m & Hm & [= <-])%bind_Ok)%bind_Ok). cbn.
  destruct (merge_reshapes _ _ Hm) as (s & Hhd & Hr). apply head_Some_elem_of in Hhd. destruct (mapM_ok_in _ _ _ _ Hls Hhd) as (n & _ & Hn%unwrap_Ok).
  apply od_get_Some_in, Hs in Hn. by eapply good_reshapes.
Qed.

Lemma annotate_good cfg specs groups v groups' : groups_good S groups → _annotate_eagle_groups cfg specs groups v = Ok groups' → groups_good S groups'.
Proof.
  intros Hs H g' [i Hi]%list_elem_of_lookup. destruct (annotate_names _ _ _ _ _ H) as [Hn Hk].
  apply (f_equal (λ l, l !! i)) in Hn. apply (f_equal (λ l, l !! i)) in Hk. rewrite !list_lookup_fmap, Hi in Hn. rewrite !list_lookup_fmap, Hi in Hk. destruct (groups !! i) as [g|] eqn:Hg; [|done].
  injection Hn as ->. injection Hk as ->. apply Hs. by eapply list_elem_of_lookup_2.
Qed.

Lemma unify_good specs specs' : good_dict S specs → unify_kv_cache_spec_page_size specs = Ok specs' → good_dict S specs'.
Proof.
  intros Hs. unfold unify_kv_cache_spec_page_size. intros (pages & Hp & H)%bind_Ok. destruct (_ <=? 1); [by injection H as <-|].
  apply bind_Ok in H as (p & Hmax & H). intros y Hy. destruct (mapM_ok_in _ _ _ _ H Hy) as (x & Hx & Hu). apply (good_reshapes x.2); [by apply Hs|].
  apply (unify_reshapes p x y Hu). right. intros q Hq. apply (py_max_list_ge pages p q Hmax). apply mapM_ok_Forall2 in Hp.
  apply (list_elem_of_fmap_2 snd), list_elem_of_lookup in Hx as [i Hi]. destruct (Forall2_lookup_l _ _ _ _ _ Hp Hi) as (r & Hr & Hxr).
  rewrite Hq in Hxr. injection Hxr as <-. by eapply list_elem_of_lookup_2.
Qed.

Lemma promote_good specs specs' : good_dict S specs → _promote_local_kv_cache_specs specs = Ok specs' → good_dict S specs'.
Proof.
  intros Hs. unfold _promote_local_kv_cache_specs. intros (u & _ & H)%bind_Ok. destruct u; [by injection H as <-|]. cbv zeta in H.
  set (full := match remove_dups _ with [b] => Some b | _ => None end) in H.
  assert (Hfull : ∀ b, full = Some b → 0 < b).
  { intros b Hb. subst full. destruct (remove_dups _) as [|b' [|? ?]] eqn:Hr; try done. injection Hb as ->.
    assert (Hin : b ∈ remove_dups (block_size <$> filter (λ s, is_full_spec s = true) specs.*2)) by (rewrite Hr; left).
    rewrite elem_of_remove_dups in Hin. apply list_elem_of_fmap in Hin as (s & -> & Hin). apply list_elem_of_filter in Hin as [_ Hin].
    apply list_elem_of_fmap in Hin as (x & -> & Hx). apply (ps_block _ (proj1 (Hs x Hx))). }
  clearbody full. apply bind_Ok in H as (pr & Hpr & (ok & _ & H)%bind_Ok). destruct ok; [|done]. injection H as <-. destruct (_ && _); [|by injection Hpr as <-].
  intros y Hy. destruct (mapM_ok_in _ _ _ _ Hpr Hy) as ([n s] & Hx & H). pose proof (Hs _ Hx) as Hg. cbn [snd] in Hg.
  assert (Hb : ∀ b, 0 < b → 0 < match full with Some b' => if b' =? 0 then b else b' | None => b end).
  { intros b Hb. destruct full as [b'|]; [|done]. specialize (Hfull b' eq_refl). by destruct (b' =? 0). }
  destruct s; cbn [promote_layer] in H; try (by injection H as <-); cbv zeta in H; apply bind_Ok in H as (o & _ & (s' & Hs' & [= <-])%bind_Ok); cbn [snd];
    (eapply good_reshapes; [exact Hg|]; eapply (promote_reshapes _ o _ s' a); [done| |exact Hs'|done]; apply Hb, (ps_block _ (proj1 Hg))).
Qed.

Lemma lookup_good specs names specs' : good_dict S specs → mapM_ok (λ n, s ← unwrap KeyError (od_get specs n); Ok (n, s)) names = Ok specs' →
  specs'.*1 = names ∧ good_dict S specs'.
Proof.
  intros Hs H. split.
  - rewrite (mapM_ok_fmap _ fst id _ _ H); [apply list_fmap_id|]. by intros n y _ (s & _ & [= <-])%bind_Ok.
  - intros y Hy. destruct (mapM_ok_in _ _ _ _ H Hy) as (n & _ & (s & Hn%unwrap_Ok & [= <-])%bind_Ok). by apply od_get_Some_in, Hs in Hn.
Qed.

Lemma bucket_good specs r a b groups : good_dict S specs → make_bucket specs = Ok b → split_bucket r a b = Ok groups → groups_good S groups.
Proof.
  intros Hs Hb H. destruct (make_bucket_spec _ _ Hb) as (Hbs & Hun & _). unfold split_bucket in H. apply bind_Ok in H as (n & _ & H). destruct (n =? 1).
  - rewrite Hbs in H. destruct specs as [|[nm s] sp] eqn:Hsp; [done|]. rewrite <-Hsp in *. injection H as <-. intros g Hg. apply list_elem_of_singleton in Hg as ->. done.
  - intros g Hg. destruct (mapM_ok_in _ _ _ _ H Hg) as (i & _ & Hi). unfold pattern_group in Hi. cbv zeta in Hi. rewrite Hbs in Hi.
    apply bind_Ok in Hi as (specs' & Hl & (u & Hu & (sp & Hsp & [= <-])%bind_Ok)%bind_Ok). apply unwrap_Ok in Hsp as ->. apply from_specs_Some in Hu as [Hu [bs ->]].
    destruct (lookup_good specs _ _ Hs Hl) as [L1 L2]. by split.
Qed.

Lemma packed_good cfg specs groups : NoDup specs.*1 → good_dict S specs → _get_packed_kv_cache_groups cfg specs = Ok (Some groups) → groups_good S groups.
Proof.
  intros Hnd Hs. unfold _get_packed_kv_cache_groups. intros (layout & _ & (pages & _ & H)%bind_Ok)%bind_Ok. destruct (_ || _); [done|].
  apply bind_Ok in H as (buckets & Hbk & (bucketed & Hbd & (r & Hr & (a & _ & (gs & Hgs & (gs' & Hgs' & [= <-])%bind_Ok)%bind_Ok)%bind_Ok)%bind_Ok)%bind_Ok).
  apply (annotate_good _ _ _ _ _) in Hgs'; [done|]. intros g (grp & Hg & Hgrp)%list_elem_of_join.
  destruct (mapM_ok_in _ _ _ _ Hgs Hgrp) as (b & Hb & Hsplit). destruct (mapM_ok_in _ _ _ _ Hbd Hb) as (bucket & Hbucket & Hmk).
  apply (bucket_good bucket r a b grp); [|done|done|done]. intros x Hx. apply Hs. rewrite <-(buckets_perm _ _ Hbk Hnd). apply list_elem_of_join. by exists bucket.
Qed.

Lemma largest_divisor_pos v l : 0 < _largest_divisor_at_most v l.
Proof.
  unfold _largest_divisor_at_most. destruct (head _) as [c|] eqn:Hc; [|done]. apply head_Some_elem_of, list_elem_of_filter in Hc as [_ Hc].
  apply elem_of_reverse, elem_of_seqZ in Hc. cbn. lia.
Qed.

Lemma hidden_good hidden groups groups' : good_dict S hidden → (∀ x, x ∈ hidden → is_hidden_state x.2 = true) → groups_good S groups →
  add_hidden hidden groups = Ok groups' → groups_good S groups'.
Proof.
  intros Hs Hh Hg. unfold add_hidden. destruct hidden as [|h hs] eqn:E; [by intros [= <-]|]. rewrite <-E in *. clear E.
  intros (p & _ & (al & Hal & [= <-])%bind_Ok)%bind_Ok. apply groups_good_app; [done|]. intros g Hin. destruct (mapM_ok_in _ _ _ _ Hal Hin) as ([n s] & Hx & H).
  unfold align_hidden in H. apply bind_Ok in H as (a & Ha%unwrap_Ok & H). cbv zeta in H. destruct (_ || _); [done|]. apply bind_Ok in H as (s' & Hs' & [= <-]). cbn.
  apply (good_reshapes s); [apply (Hs _ Hx)|]. unfold replace_block_and_padding in Hs'. apply (replace_reshapes _ _ _ _ Ha Hs'); [done|done|done|].
  intros Hp. apply (resized_pos s); [done|done| |apply largest_divisor_pos]. pose proof (Hh _ Hx) as E. cbn in E. unfold local_or_hidden. by rewrite E.
Qed.

Lemma grouping_good cfg specs groups : NoDup specs.*1 → good_dict S specs → grouping cfg specs groups → groups_good S groups.
Proof.
  intros Hnd Hs. assert (Hf : ∀ v, good_dict S (filter (λ x, is_hidden_state x.2 = v) specs)) by (intros v x Hx; apply list_elem_of_filter in Hx as [_ Hx]; by apply Hs).
  assert (Hone : ∀ g, groups_good S [g] ↔ group_good S (layer_names g) (kv_cache_spec g)).
  { intros g. split; [intros H; apply H; left|]. by intros H g' ->%list_elem_of_singleton. }
  intros [_ ->|H|b Hu ->|gs hidden H -> ->|pr b H Hu ->|un gs gs' hidden Hun Hgs -> Hgs' Ha].
  - by intros g ?%elem_of_nil.
  - by eapply create_good.
  - by apply Hone.
  - apply groups_good_app.
    + eapply packed_good; [|apply Hf|exact H]. rewrite <-(hidden_split specs), fmap_app in Hnd. by apply NoDup_app in Hnd as [? _].
    + intros g Hg. apply list_elem_of_fmap in Hg as (x & -> & Hx). by apply (Hf true).
  - apply Hone. split_and!; [done|by eapply promote_good|done].
  - eapply annotate_good; [|exact Ha]. eapply hidden_good; [apply (Hf true)| | |exact Hgs'].
    + by intros x [? _]%list_elem_of_filter.
    + unfold _get_kv_cache_groups_uniform_page_size in Hgs. apply bind_Ok in Hgs as (bk & _ & (sz & _ & H)%bind_Ok). destruct (sz =? 0); [done|].
      eapply create_good; [|exact H]. exact (unify_good _ _ (Hf false) Hun).
Qed.
End Good.

(** ** The layers of the model *)

Definition layers_pos (specs : LayerDict) : Prop := NoDup specs.*1 ∧ ∀ x, x ∈ specs → spec_pos x.2.

Lemma get_groups_good cfg specs groups : layers_pos specs → get_kv_cache_groups cfg specs = Ok groups → groups_good specs.*2 groups.
Proof.
  intros [Hnd Hpos] H. destruct (get_groups_grouping _ _ _ H) as (specs' & Hs & Hg).
  assert (Hgd : good_dict specs.*2 specs) by (intros x Hx; split; [by apply Hpos|]; exists x.2; split_and!; [by apply list_elem_of_fmap_2|done|by apply window_kept_same]).
  assert (Hsp : good_dict specs.*2 specs' ∧ specs'.*1 = specs.*1).
  { destruct (disable_hybrid_kv_cache_manager cfg); [|by injection Hs as <-]. split; [|by apply hybrid_names].
    unfold unify_hybrid_kv_cache_specs in Hs. apply bind_Ok in Hs as (u & _ & Hs). destruct u; [by injection Hs as <-|]. by eapply promote_good. }
  destruct Hsp as [Hsp Hn]. eapply grouping_good; [|exact Hsp|exact Hg]. by rewrite Hn.
Qed.

(** C24: the groups that [get_kv_cache_groups] makes of the layers of a model are
    as the placement needs them, when every page that validation computes exists:
    each group's layers are distinct, a dictionary has exactly them, every layer
    has a page of positive size, groups share no layer, and no layer has other
    heads than the model's. *)
Theorem kv_groups_placeable cfg specs groups layout :
  layers_pos specs → get_kv_cache_groups cfg specs = Ok groups → validate_kv_cache_layout layout groups = Ok tt →
  groups_ok groups ∧ heads_from specs.*2 groups.
Proof.
  intros Hpos H Hv. pose proof (get_groups_good _ _ _ Hpos H) as Hg. destruct Hpos as [Hnd _].
  assert (Hp : NoDup (mjoin (layer_names <$> groups))).
  { destruct (get_groups_grouping _ _ _ H) as (specs' & Hs & Hgr).
    assert (Hn : specs'.*1 = specs.*1) by (destruct (disable_hybrid_kv_cache_manager cfg); [by apply hybrid_names|by injection Hs as <-]).
    fold (group_names groups). rewrite <-Hn in Hnd. by rewrite (grouping_names _ _ _ Hnd Hgr). }
  assert (Hspec : ∀ g name s, g ∈ groups → name ∈ layer_names g → _get_per_layer_spec g name = Ok s → good specs.*2 s).
  { intros g name s Hin Hname Hs. specialize (Hg g Hin). unfold _get_per_layer_spec, group_good in *. destruct (kv_cache_spec g) as [s0|b sp]; [by injection Hs as <-|].
    apply unwrap_Ok, od_get_Some_in in Hs. destruct Hg as (_ & Hg & _). exact (Hg _ Hs). }
  split; [split; [|done]|].
  - intros g Hin. unfold validate_kv_cache_layout in Hv. apply bind_Ok in Hv as (pages & Hpages & _). apply mapM_ok_Forall2 in Hpages.
    apply list_elem_of_lookup in Hin as Hi. destruct Hi as [i Hi]. destruct (Forall2_lookup_l _ _ _ _ _ Hpages Hi) as (ps & _ & Hps). split.
    + clear - Hp Hin. induction groups as [|g' gs IH]; [by apply elem_of_nil in Hin|]. cbn in Hp. apply NoDup_app in Hp as (H1 & _ & H2).
      apply elem_of_cons in Hin as [->|Hin]; [done|by apply IH].
    + specialize (Hg g Hin). destruct (kv_cache_spec g); [done|by apply Hg].
    + intros name Hname. apply mapM_ok_Forall2 in Hps. apply list_elem_of_lookup in Hname as Hj. destruct Hj as [j Hj].
      destruct (Forall2_lookup_l _ _ _ _ _ Hps Hj) as (p & _ & (s & Hs & Hpg)%bind_Ok). exists s, p. split; [done|].
      destruct (Hspec g name s Hin Hname Hs) as [[P1 P2 P3 P4 P5 _ _] _]. by apply page_sized.
  - intros g name s Hin Hname Hs. destruct (Hspec g name s Hin Hname Hs) as [_ (s0 & H0 & Hh & _)]. by exists s0.
Qed.

(** ** An example: two layers of full attention, four of sliding window *)

Module GroupsDemo.
Definition specs : LayerDict :=
  [("f0", PagesDemo.full); ("s0", PagesDemo.window); ("s1", PagesDemo.window); ("f1", PagesDemo.full); ("s2", PagesDemo.window); ("s3", PagesDemo.window)].
Definition groups : list LayerGroup :=
  match get_kv_cache_groups (PagesDemo.config BLHNC) specs with Ok groups => groups | Err _ => [] end.

Example demo_groups : layer_names <$> groups = [["f0"; "f1"]; ["s0"; "s2"]; ["s1"; "s3"]].
Proof. by vm_compute. Qed.

Lemma demo_pos : layers_pos specs.
Proof.
  split; [apply (bool_decide_unpack _); by vm_compute|]. intros x Hx.
  assert (Hs : x.2 = PagesDemo.full ∨ x.2 = PagesDemo.window).
  { unfold specs in Hx. repeat (apply elem_of_cons in Hx as [->|Hx]; [by (left + right)|]). by apply elem_of_nil in Hx. }
  destruct Hs as [-> | ->]; split; try (by vm_compute); by intros _; vm_compute.
Qed.
End GroupsDemo.

Lemma kv_layers_partitioned_witness : mjoin (layer_names <$> GroupsDemo.groups) ≡ₚ GroupsDemo.specs.*1.
Proof.
  apply (kv_layers_partitioned (PagesDemo.config BLHNC)); [apply (bool_decide_unpack _); by vm_compute|by vm_compute].
Defined.

Lemma kv_groups_placeable_witness : groups_ok GroupsDemo.groups ∧ heads_from GroupsDemo.specs.*2 GroupsDemo.groups.
Proof. apply (kv_groups_placeable (PagesDemo.config BLHNC) _ _ BLHNC); [exact GroupsDemo.demo_pos|by vm_compute|by vm_compute]. Defined.
