(* ===== verification/KVSizing.v ===== *)
(** * The size of the KV cache

    [vllm/vllm/v1/core/kv_cache_utils.py]: how much memory a request of the
    longest length needs, the check that it fits, the longest length that fits,
    and [get_kv_cache_configs], which plans the memory of all workers.  A
    function that sets [max_model_len] while it computes and restores it takes a
    configuration with the length in its place. *)

From S2P Require Import Prelude KVSpec KVLayout KVGroups.
Local Open Scope Z_scope.

(** ** What a request needs *)

Definition max_memory_usage_bytes_of (cfg : VllmConfig) (specs : list LayerSpec) : result Z := sumZ <$> mapM_ok (max_memory_usage_bytes cfg) specs.

(** The blocks of one group. *)
Definition group_request_blocks (cfg : VllmConfig) (g : LayerGroup) : result Z :=
  match kv_cache_spec g with
  | UniformTypeKVCacheSpecs _ specs => uniform_memory_pages cfg specs
  | OneSpec s => max_memory_pages cfg s
  end.

Definition total_request_blocks (cfg : VllmConfig) (groups : list LayerGroup) : result Z := sumZ <$> mapM_ok (group_request_blocks cfg) groups.

Definition _max_memory_usage_bytes_from_groups (cfg : VllmConfig) (groups : list LayerGroup) : result Z :=
  match groups with
  | [] => Ok 0
  | _ => bytes_per_block ← _pool_bytes_per_block groups; total_blocks ← total_request_blocks cfg groups; Ok (bytes_per_block * total_blocks)
  end.

(** [num_blocks_per_request] of [get_max_concurrency_for_kv_cache_config]; the
    quotient is a float. *)
Definition num_blocks_per_request (cfg : VllmConfig) (groups : list LayerGroup) : result Z :=
  sumZ <$> mapM_ok (λ g, bytes ← group_max_memory_usage_bytes cfg (kv_cache_spec g); p ← group_page_size_bytes (kv_cache_spec g); py_cdiv bytes p) groups.

(** ** The longest length that fits *)

(** The loop of the binary search; [fits] may raise. *)
Fixpoint search_loop (fuel : nat) (fits : Z → result bool) (left right best : Z) : result Z :=
  if left <=? right then
    match fuel with
    | O => Err OutOfFuel
    | S fuel =>
        let mid := (left + right) / 2 in
        ok ← fits mid;
        if ok : bool then search_loop fuel fits (mid + 1) right mid else search_loop fuel fits left (mid - 1) best
    end
  else Ok best.

Definition longest_fitting (fits : Z → result bool) (original_max : Z) : result Z :=
  ok ← fits 1;
  if ok : bool then search_loop (Z.to_nat original_max) fits 1 original_max 1 else Ok 0.

Definition estimate_max_model_len (cfg : VllmConfig) (specs : LayerDict) (available_memory : Z) : result Z :=
  longest_fitting (λ len, n ← max_memory_usage_bytes_of (set_max_model_len len cfg) specs.*2; Ok (n <=? available_memory)) (max_model_len cfg).

Definition fits_groups (cfg : VllmConfig) (groups : list LayerGroup) (available_memory len : Z) : result bool :=
  n ← _max_memory_usage_bytes_from_groups (set_max_model_len len cfg) groups; Ok (n <=? available_memory).

Definition _estimate_max_model_len_from_groups (cfg : VllmConfig) (groups : list LayerGroup) (available_memory : Z) : result Z :=
  longest_fitting (fits_groups cfg groups available_memory) (max_model_len cfg).

(** ** Admission *)

Definition _check_enough_kv_cache_memory (available_memory : Z) (get_needed_memory : result Z) (estimate : Z → result Z) : result unit :=
  if available_memory <=? 0 then Err ValueError
  else
    needed_memory ← get_needed_memory;
    if available_memory <? needed_memory then _ ← estimate available_memory; Err ValueError else Ok tt.

Definition reserve_null_block (groups : list LayerGroup) (memory : Z) : result Z :=
  match groups with [] => Ok memory | _ => b ← _pool_bytes_per_block groups; Ok (memory - b) end.

Definition check_enough_kv_cache_memory (cfg : VllmConfig) (specs : LayerDict) (available_memory : Z) : result unit :=
  match specs with
  | [] => Ok tt
  | _ =>
      groups ← get_kv_cache_groups cfg specs;
      check_memory ← reserve_null_block groups available_memory;
      _check_enough_kv_cache_memory check_memory (max_memory_usage_bytes_of cfg specs.*2) (estimate_max_model_len cfg specs)
  end.

(** ** The workers *)

Definition project_group (worker_spec : LayerDict) (g : LayerGroup) : result LayerGroup :=
  let names := filter (λ n, is_Some (od_get worker_spec n)) (layer_names g) in
  spec ← match names, kv_cache_spec g with
         | _ :: _, UniformTypeKVCacheSpecs b specs =>
             specs ← mapM_ok (λ n, s ← unwrap KeyError (od_get specs n); Ok (n, s)) names; Ok (UniformTypeKVCacheSpecs b specs)
         | _, spec => Ok spec
         end;
  Ok (mkLayerGroup names spec (is_eagle_group g && negb (bool_decide (names = [])))).

Definition _project_kv_cache_groups_to_worker (groups : list LayerGroup) (worker_spec : LayerDict) : result (list LayerGroup) :=
  mapM_ok (project_group worker_spec) groups.

(** The smallest estimate of the workers, from the length of the model. *)
Definition fit_worker (cfg : VllmConfig) (auto_fit_max : Z) (x : list LayerGroup * Z) : result Z :=
  match x.1 with
  | [] => Ok auto_fit_max
  | groups => worker_max ← _estimate_max_model_len_from_groups cfg groups x.2; Ok (if worker_max <? auto_fit_max then worker_max else auto_fit_max)
  end.

Definition _auto_fit_max_model_len (cfg : VllmConfig) (projected : list (list LayerGroup)) (available_memory : list Z) : result VllmConfig :=
  if forallb (λ gs : list LayerGroup, match gs with [] => true | _ => false end) projected then Ok cfg
  else
    _ ← unwrap IndexError (head available_memory);
    auto_fit_max ← foldM (fit_worker cfg) (max_model_len cfg) (zip projected available_memory);
    if auto_fit_max <=? 0 then Err ValueError
    else if max_model_len cfg <=? auto_fit_max then Ok cfg else Ok (set_max_model_len auto_fit_max cfg).

(** The specifications of all workers; the same layer has the same one. *)
Definition merge_layer (merged : LayerDict) (x : string * LayerSpec) : result LayerDict :=
  match od_get merged x.1 with
  | None => Ok (od_set merged x.1 x.2)
  | Some s => _ ← py_assert (bool_decide (s = x.2)); Ok merged
  end.

Definition merge_workers (kv_cache_specs : list LayerDict) : result LayerDict := foldM (foldM merge_layer) [] kv_cache_specs.

(** [KVCacheSpecRegistry.check_kv_cache_spec_registry]: every registered class has
    a manager. *)
Definition check_kv_cache_spec_registry (specs : LayerDict) : result unit :=
  if forallb (λ s, bool_decide (is_Some (uniform_type_base_spec s))) specs.*2 then Ok tt else Err ValueError.

Definition extra_retained_tokens_of (cfg : VllmConfig) : Z := if use_multi_module_mtp cfg then num_speculative_tokens cfg - 1 else 0.

Definition tag_window (cfg : VllmConfig) (x : string * LayerSpec) : result (string * LayerSpec) :=
  if is_window_spec x.2 then s ← replace_extra_retained (extra_retained_tokens_of cfg) x.2; Ok (x.1, s) else Ok x.

(** The memory of a worker when the number of blocks is given. *)
Definition override_memory (cfg : VllmConfig) (x : list LayerGroup * Z) : result Z :=
  match num_gpu_blocks_override cfg, x.1 with
  | None, _ | _, [] => Ok x.2
  | Some n, groups =>
      bytes_per_block ← _pool_bytes_per_block groups;
      if bytes_per_block =? 0 then Err ZeroDivisionError else Ok (n * bytes_per_block)
  end.

Definition check_worker (cfg : VllmConfig) (x : list LayerGroup * Z) : result unit :=
  match x.1 with
  | [] => Ok tt
  | groups => _check_enough_kv_cache_memory x.2 (_max_memory_usage_bytes_from_groups cfg groups) (_estimate_max_model_len_from_groups cfg groups)
  end.

Definition plan_worker (cfg : VllmConfig) (x : list LayerGroup * LayerDict * Z) : result MemoryConfig :=
  let '(groups, worker_spec, memory) := x in
  _ ← py_assert (sumZ ((λ g, py_len (layer_names g)) <$> groups) =? py_len worker_spec);
  get_kv_cache_config_from_groups cfg groups memory.

(** A worker with more blocks than the smallest plans again. *)
Definition shrink_worker (cfg : VllmConfig) (min_num_blocks : Z) (c : MemoryConfig) : result MemoryConfig :=
  if cfg_num_blocks c =? min_num_blocks then Ok c
  else bytes_per_block ← _pool_bytes_per_block (cfg_groups c); get_kv_cache_config_from_groups cfg (cfg_groups c) (min_num_blocks * bytes_per_block).

(** The configuration of every worker, and [vllm_config] with the length that was
    chosen. *)
Definition get_kv_cache_configs (cfg : VllmConfig) (kv_cache_specs : list LayerDict) (available_memory : list Z) : result (VllmConfig * list MemoryConfig) :=
  merged ← merge_workers kv_cache_specs;
  _ ← check_kv_cache_spec_registry merged;
  merged ← mapM_ok (tag_window cfg) merged;
  global_groups ← get_kv_cache_groups cfg merged;
  projected ← mapM_ok (_project_kv_cache_groups_to_worker global_groups) kv_cache_specs;
  available_memory ← (match num_gpu_blocks_override cfg with
                      | Some _ => mapM_ok (override_memory cfg) (zip projected available_memory)
                      | None => Ok available_memory
                      end);
  check_memory ← mapM_ok (λ x, reserve_null_block x.1 x.2) (zip projected available_memory);
  cfg ← (if original_max_model_len cfg =? -1 then _auto_fit_max_model_len cfg projected check_memory else Ok cfg);
  _ ← mapM_ok (check_worker cfg) (zip projected check_memory);
  configs ← mapM_ok (plan_worker cfg) (zip (zip projected kv_cache_specs) available_memory);
  min_num_blocks ← py_min (cfg_num_blocks <$> configs);
  configs ← mapM_ok (shrink_worker cfg min_num_blocks) configs;
  Ok (cfg, configs).

(** ** The scheduler *)

Definition scheduler_group (g : LayerGroup) : result LayerGroup :=
  match kv_cache_spec g with
  | OneSpec _ => Ok g
  | UniformTypeKVCacheSpecs _ specs => '(_, s) ← unwrap StopIteration (head specs); Ok (mkLayerGroup (layer_names g) (OneSpec s) (is_eagle_group g))
  end.

Definition generate_scheduler_kv_cache_config (configs : list MemoryConfig) : result MemoryConfig :=
  match configs with
  | [] => Err IndexError
  | c :: _ =>
      _ ← py_assert (forallb (λ c', cfg_num_blocks c' =? cfg_num_blocks c) configs);
      groups ← mapM_ok scheduler_group (cfg_groups c);
      Ok (mkMemoryConfig (cfg_num_blocks c) (kv_cache_tensors c) groups (cfg_retention_interval c))
  end.
