(* ===== verification/KVSizingSpec.v ===== *)
(** * The longest length that fits

    The binary search finds the greatest length that fits, because the need of a
    request grows with its length; auto-fitting takes the greatest length that
    fits on every worker. *)

From S2P Require Import Prelude KVSpec KVLayout KVLayoutSpec KVGroups KVSizing.
Local Open Scope Z_scope.

(** ** Binary search *)

Section Search.
Context (fits : Z → result bool) (max : Z).
Context (Htotal : ∀ len, 1 ≤ len ≤ max → ∃ b, fits len = Ok b).
Context (Hmono : ∀ len len', 1 ≤ len ≤ len' → len' ≤ max → fits len' = Ok true → fits len = Ok true).

(** [r] is the greatest length up to [max] that fits. *)
Definition greatest_fit (r : Z) : Prop := 1 ≤ r ≤ max ∧ fits r = Ok true ∧ ∀ len, r < len ≤ max → fits len = Ok false.

Lemma not_fit_above mid : 1 ≤ mid ≤ max → fits mid = Ok false → ∀ len, mid ≤ len ≤ max → fits len = Ok false.
Proof.
  intros Hm Hf len Hlen. destruct (Htotal len ltac:(lia)) as [[] Hb]; [|done]. rewrite (Hmono mid len) in Hf; [done|lia|lia|done].
Qed.

(** The loop: [best] fits, nothing above [right] does, and between them only
    what is left to search is unknown. *)
Lemma search_loop_spec fuel : ∀ left right best, (Z.to_nat (right + 1 - left) ≤ fuel)%nat → 1 ≤ left ≤ right + 1 → right ≤ max → 1 ≤ max →
  1 ≤ best → best = left - 1 ∨ left = 1 ∧ best = 1 → fits best = Ok true → (∀ len, right < len ≤ max → fits len = Ok false) →
  ∃ r, search_loop fuel fits left right best = Ok r ∧ greatest_fit r.
Proof.
  assert (Hend : ∀ left right best, left = right + 1 → 1 ≤ max → right ≤ max → 1 ≤ best → best = left - 1 ∨ left = 1 ∧ best = 1 → fits best = Ok true →
    (∀ len, right < len ≤ max → fits len = Ok false) → greatest_fit best).
  { intros left right best -> Hmax Hr Hb1 Hb Hfit Hout. assert (best = right) as ->; [|by split].
    destruct Hb as [?|[? ->]]; [lia|]. rewrite (Hout 1) in Hfit by lia. done. }
  induction fuel as [|fuel IH]; intros left right best Hfuel Hl Hr Hmax Hb1 Hb Hfit Hout; cbn [search_loop];
    (destruct (left <=? right) eqn:E; [apply Z.leb_le in E|apply Z.leb_gt in E; exists best; split; [done|by apply (Hend left right); [lia|..]]]); [lia|].
  set (mid := (left + right) / 2). assert (Hmid : left ≤ mid ≤ right).
  { subst mid. split; [apply Z.div_le_lower_bound; lia|]. apply Z.div_le_upper_bound; lia. }
  clearbody mid. destruct (Htotal mid ltac:(lia)) as [ok Hok]. rewrite Hok. cbn [mbind result_bind]. destruct ok.
  - apply IH; [lia|lia|lia|lia|lia|left; lia|done|done].
  - apply IH; [lia|lia|lia|lia|lia|done|done|]. intros len Hlen. apply (not_fit_above mid); [lia|done|lia].
Qed.

(** The search is exact: it always answers, 0 exactly when not even one token
    fits. *)
Lemma longest_fitting_spec : 1 ≤ max → ∃ r, longest_fitting fits max = Ok r ∧
  (r = 0 ∧ (∀ len, 1 ≤ len ≤ max → fits len = Ok false) ∨ greatest_fit r).
Proof.
  intros Hmax. unfold longest_fitting. destruct (Htotal 1 ltac:(lia)) as [ok Hok]. rewrite Hok. cbn [mbind result_bind]. destruct ok.
  - destruct (search_loop_spec (Z.to_nat max) 1 max 1) as (r & Hr & Hg); try lia; try done. exists r. split; [done|by right].
  - exists 0. split; [done|]. left. split; [done|]. intros len Hlen. by apply (not_fit_above 1); [lia|..].
Qed.
End Search.

(** ** What a request needs, in closed form *)

(** The pages of a request of the longest length. *)
Definition request_pages (cfg : VllmConfig) (s : LayerSpec) : Z :=
  let len := max_model_len cfg in
  match s with
  | FullAttentionSpec _ _ | MLAAttentionSpec _ _ _ _ | HiddenStateCacheSpec _ _ _ _ | RSWASpec _ _ _ | SinkFullAttentionSpec _ _ _ =>
      cdiv (if 1 <? decode_context_parallel_size cfg then cdiv len (decode_context_parallel_size cfg) else len) (block_size s)
  | ChunkedLocalAttentionSpec _ chunk => cdiv (Z.min (chunk + max_in_flight_tokens cfg) len) (block_size s)
  | SlidingWindowSpec _ w | SlidingWindowMLASpec _ w _ => cdiv (Z.min (sliding_window w - 1 + extra_retained_tokens w + max_in_flight_tokens cfg) len) (block_size s) + 1
  | CircularBufferSpec _ => 1
  | MambaSpec m =>
      if decide (mamba_cache_mode cfg = "all"%string) then cdiv len (ma_block_size m) + num_speculative_blocks m
      else if decide (mamba_cache_mode cfg = "align"%string) then 2 + num_speculative_blocks m + num_prefill_checkpoint_blocks m
      else 1 + num_speculative_blocks m
  | EncoderOnlyAttentionSpec _ => 0
  | CrossAttentionSpec _ => cdiv (max_num_encoder_input_tokens cfg) (block_size s)
  end.

(** Sliding windows are not sharded over contexts. *)
Definition shardable (cfg : VllmConfig) (s : LayerSpec) : Prop := is_window_spec s = true → decode_context_parallel_size cfg = 1.

(** A page of positive size and a positive number of tokens per block. *)
Definition paged (s : LayerSpec) : Prop := 0 < block_size s ∧ ∃ p, 0 < p ∧ page_size_bytes s = Ok p.

Lemma py_cdiv_pos a b : 0 < b → py_cdiv a b = Ok (cdiv a b).
Proof. intros Hb. unfold py_cdiv. by rewrite (proj2 (Z.eqb_neq b 0)) by lia. Qed.

Lemma memory_bytes_closed cfg s p : 0 < block_size s → page_size_bytes s = Ok p → shardable cfg s → max_memory_usage_bytes cfg s = Ok (request_pages cfg s * p).
Proof.
  intros Hb Hpage Hs. unfold shardable in Hs. destruct s; unfold max_memory_usage_bytes, full_memory_usage_bytes, chunked_memory_usage_bytes, window_memory_usage_bytes, mamba_memory_usage_bytes, cross_memory_usage_bytes, request_pages, times_page, chunked_admission_blocks, window_admission_blocks;
    rewrite ?Hpage; try (rewrite Hs by done); rewrite ?(py_cdiv_pos _ (block_size _)) by done; cbn [py_assert Z.eqb Pos.eqb mbind result_bind]; try done.
  - cbn. by rewrite Z.mul_1_l.
  - cbn [block_size] in Hb. rewrite py_cdiv_pos by done. by repeat case_decide.
Qed.

Lemma memory_pages_closed cfg s : paged s → shardable cfg s → max_memory_pages cfg s = Ok (request_pages cfg s).
Proof.
  intros (Hb & p & Hp & Hpage) Hs. unfold max_memory_pages. rewrite (memory_bytes_closed cfg s p), Hpage by done.
  cbn [mbind result_bind]. rewrite py_cdiv_pos by done. by rewrite cdiv_mul.
Qed.

(** The longer the request, the more pages. *)
Lemma request_pages_mono cfg s len len' : 0 < block_size s → len ≤ len' → request_pages (set_max_model_len len cfg) s ≤ request_pages (set_max_model_len len' cfg) s.
Proof.
  intros Hb Hle. assert (Hd : ∀ a a', a ≤ a' → cdiv a (block_size s) ≤ cdiv a' (block_size s)) by (intros; by apply cdiv_mono).
  destruct s; unfold request_pages; cbn [max_model_len decode_context_parallel_size set_max_model_len max_in_flight_tokens mamba_cache_mode max_num_encoder_input_tokens] in *; try lia;
    try (apply Hd; lia); try (apply Z.add_le_mono_r, Hd; lia);
    try (apply Hd; destruct (1 <? decode_context_parallel_size cfg) eqn:E; [apply Z.ltb_lt in E; by apply cdiv_mono; [lia|]|done]).
  repeat case_decide; [|lia|lia]. apply Z.add_le_mono_r. by apply Hd.
Qed.

(** ** Groups *)

Definition group_pages (cfg : VllmConfig) (g : LayerGroup) : Z :=
  match kv_cache_spec g with
  | OneSpec s => request_pages cfg s
  | UniformTypeKVCacheSpecs _ specs => py_max_default (request_pages cfg <$> specs.*2)
  end.

Definition total_pages (cfg : VllmConfig) (groups : list LayerGroup) : Z := sumZ (group_pages cfg <$> groups).

Definition pool_bytes (groups : list LayerGroup) : Z := match _pool_bytes_per_block groups with Ok b => b | Err _ => 0 end.

(** What a request of the longest length needs. *)
Definition needed_memory (cfg : VllmConfig) (groups : list LayerGroup) : Z := pool_bytes groups * total_pages cfg groups.

Record group_paged (cfg : VllmConfig) (g : LayerGroup) : Prop := {
  gp_some : iter_layer_specs (kv_cache_spec g) ≠ [];
  gp_specs s : s ∈ iter_layer_specs (kv_cache_spec g) → paged s ∧ shardable cfg s;
}.

(** The groups of a worker. *)
Record worker_paged (cfg : VllmConfig) (groups : list LayerGroup) : Prop := {
  wp_groups g : g ∈ groups → group_paged cfg g;
  wp_pool : groups ≠ [] → ∃ b, _pool_bytes_per_block groups = Ok b;
}.

Lemma mapM_ok_all {A B} (f : A → result B) (g : A → B) l : (∀ x, x ∈ l → f x = Ok (g x)) → mapM_ok f l = Ok (g <$> l).
Proof. induction l as [|x l IH]; intros H; [done|]. cbn [mapM_ok]. rewrite (H x) by left. cbn [mbind result_bind]. by rewrite IH by (intros; apply H; by right). Qed.

Lemma group_blocks_closed cfg g : group_paged cfg g → group_request_blocks cfg g = Ok (group_pages cfg g).
Proof.
  intros [Hne Hs]. unfold group_request_blocks, group_pages. destruct (kv_cache_spec g) as [s|b specs]; cbn [iter_layer_specs] in *.
  - destruct (Hs s) as [Hp Hd]; [left|]. by apply memory_pages_closed.
  - unfold uniform_memory_pages. rewrite (mapM_ok_all _ (request_pages cfg)); [|intros s [Hp Hd]%Hs; by apply memory_pages_closed].
    cbn [mbind result_bind]. by destruct specs.*2.
Qed.

Lemma total_blocks_closed cfg groups : (∀ g, g ∈ groups → group_paged cfg g) → total_request_blocks cfg groups = Ok (total_pages cfg groups).
Proof. intros H. unfold total_request_blocks, total_pages. rewrite (mapM_ok_all _ (group_pages cfg)); [done|]. intros g Hg. by apply group_blocks_closed, H. Qed.

Lemma usage_closed cfg groups : worker_paged cfg groups → groups ≠ [] → _max_memory_usage_bytes_from_groups cfg groups = Ok (needed_memory cfg groups).
Proof.
  intros [Hg Hp] Hne. unfold _max_memory_usage_bytes_from_groups, needed_memory, pool_bytes. destruct (Hp Hne) as [b Hb]. destruct groups as [|g gs] eqn:E; [done|]. rewrite <-E in *.
  rewrite Hb. cbn [mbind result_bind]. by rewrite total_blocks_closed.
Qed.

Lemma paged_len cfg len groups : worker_paged cfg groups → worker_paged (set_max_model_len len cfg) groups.
Proof. intros [Hg Hp]. split; [|done]. intros g H. destruct (Hg g H) as [H1 H2]. by split. Qed.

Lemma max_default_mono (f f' : LayerSpec → Z) l : (∀ s, s ∈ l → f s ≤ f' s) → py_max_default (f <$> l) ≤ py_max_default (f' <$> l).
Proof.
  destruct l as [|s l]; [done|]. cbn [fmap list_fmap py_max_default]. intros H. assert (Hs : f s ≤ f' s) by (apply H; left).
  assert (Hl : ∀ x, x ∈ l → f x ≤ f' x) by (intros; apply H; by right). clear H. revert Hs. generalize (f s) (f' s). induction l as [|x l IH]; intros a a' Ha; [done|].
  cbn [fmap list_fmap foldl]. apply IH; [intros; apply Hl; by right|]. assert (f x ≤ f' x) by (apply Hl; left). lia.
Qed.

Lemma total_pages_mono cfg groups len len' : (∀ g, g ∈ groups → group_paged cfg g) → len ≤ len' →
  total_pages (set_max_model_len len cfg) groups ≤ total_pages (set_max_model_len len' cfg) groups.
Proof.
  intros Hg Hle. unfold total_pages. induction groups as [|g gs IH]; [done|]. cbn [fmap list_fmap sumZ foldr].
  apply Z.add_le_mono; [|apply IH; intros; apply Hg; by right]. destruct (Hg g) as [_ Hs]; [left|]. unfold group_pages.
  assert (Hm : ∀ s, s ∈ iter_layer_specs (kv_cache_spec g) → request_pages (set_max_model_len len cfg) s ≤ request_pages (set_max_model_len len' cfg) s).
  { intros s [[Hb _] _]%Hs. by apply request_pages_mono. }
  destruct (kv_cache_spec g) as [s|b specs]; [apply Hm; left|]. by apply max_default_mono.
Qed.

Lemma pool_bytes_nonneg groups : 0 ≤ pool_bytes groups.
Proof.
  unfold pool_bytes. destruct (_pool_bytes_per_block groups) as [b|] eqn:E; [|done]. unfold _pool_bytes_per_block in E.
  apply bind_Ok in E as (l & _ & (n & _ & (u & Hu%py_assert_Ok%Z.ltb_lt & [= <-])%bind_Ok)%bind_Ok). lia.
Qed.

Lemma needed_mono cfg groups len len' : worker_paged cfg groups → len ≤ len' → needed_memory (set_max_model_len len cfg) groups ≤ needed_memory (set_max_model_len len' cfg) groups.
Proof. intros [Hg _] Hle. unfold needed_memory. apply Z.mul_le_mono_nonneg_l; [apply pool_bytes_nonneg|by apply total_pages_mono]. Qed.

Lemma fits_closed cfg groups memory len : worker_paged cfg groups → groups ≠ [] →
  fits_groups cfg groups memory len = Ok (needed_memory (set_max_model_len len cfg) groups <=? memory).
Proof. intros Hw Hne. unfold fits_groups. rewrite usage_closed; [done|by apply paged_len|done]. Qed.

(** [r] is the longest length, up to that of the model, that fits. *)
Definition longest (cfg : VllmConfig) (groups : list LayerGroup) (memory r : Z) : Prop :=
  (r = 0 ∨ 1 ≤ r ∧ needed_memory (set_max_model_len r cfg) groups ≤ memory) ∧ 0 ≤ r ≤ max_model_len cfg ∧
  ∀ len, r < len ≤ max_model_len cfg → memory < needed_memory (set_max_model_len len cfg) groups.

Lemma estimate_longest cfg groups memory : worker_paged cfg groups → groups ≠ [] → 1 ≤ max_model_len cfg →
  ∃ r, _estimate_max_model_len_from_groups cfg groups memory = Ok r ∧ longest cfg groups memory r.
Proof.
  intros Hw Hne Hmax. unfold _estimate_max_model_len_from_groups.
  assert (Hf : ∀ len b, fits_groups cfg groups memory len = Ok b ↔ (needed_memory (set_max_model_len len cfg) groups <=? memory) = b).
  { intros len b. rewrite fits_closed by done. split; [by intros [= ->]|by intros ->]. }
  destruct (longest_fitting_spec (fits_groups cfg groups memory) (max_model_len cfg)) as (r & Hr & Hspec); [| |done|].
  - intros len _. eexists. by apply Hf.
  - intros len len' Hl Hl' H. apply Hf in H. apply Hf. apply Z.leb_le in H. apply Z.leb_le. etrans; [apply needed_mono; [done|apply Hl]|done].
  - exists r. split; [done|]. destruct Hspec as [[-> Hno]|(Hr1 & Hfit & Hno)]; (split_and!; [|lia|lia|intros len Hlen]).
    + by left.
    + apply Z.leb_gt, Hf, Hno. lia.
    + right. split; [lia|]. by apply Z.leb_le, Hf.
    + by apply Z.leb_gt, Hf, Hno.
Qed.

(** ** Auto-fitting *)

Definition workers_paged (cfg : VllmConfig) (projected : list (list LayerGroup)) : Prop := ∀ groups, groups ∈ projected → worker_paged cfg groups.

(** [r] fits on all workers, and is [bound] or the longest on one. *)
Record fits_all (cfg : VllmConfig) (workers : list (list LayerGroup * Z)) (bound r : Z) : Prop := {
  fa_le : 0 ≤ r ≤ bound;
  fa_fits x : x ∈ workers → x.1 ≠ [] → r = 0 ∨ needed_memory (set_max_model_len r cfg) x.1 ≤ x.2;
  fa_longest : r = bound ∨ ∃ x, x ∈ workers ∧ x.1 ≠ [] ∧ longest cfg x.1 x.2 r;
}.

Lemma fit_workers cfg workers : 1 ≤ max_model_len cfg → (∀ x, x ∈ workers → worker_paged cfg x.1) →
  ∀ bound, 0 ≤ bound ≤ max_model_len cfg → ∃ r, foldM (fit_worker cfg) bound workers = Ok r ∧ fits_all cfg workers bound r.
Proof.
  intros Hmax. induction workers as [|[groups memory] workers IH]; intros Hw bound Hb; cbn [foldM].
  { exists bound. split; [done|]. split; [lia| |by left]. by intros x ?%elem_of_nil. }
  assert (Hrest : ∀ x, x ∈ workers → worker_paged cfg x.1) by (intros; apply Hw; by right). assert (Hg : worker_paged cfg groups) by (apply (Hw (groups, memory)); left).
  destruct (decide (groups = [])) as [->|Hne].
  { destruct (IH Hrest bound Hb) as (r & Hr & [H1 H2 H3]). exists r. split; [exact Hr|]. split; [done| |].
    - intros x [->|Hx]%elem_of_cons; [done|by apply H2].
    - destruct H3 as [->|(x & Hx & H3)]; [by left|]. right. exists x. split; [by right|done]. }
  destruct (estimate_longest cfg groups memory Hg Hne Hmax) as (m & Hm & Hlong). pose proof Hlong as (Hl1 & Hl2 & Hl3).
  assert (Hstep : fit_worker cfg bound (groups, memory) = Ok (if m <? bound then m else bound)).
  { unfold fit_worker. cbn [fst snd]. destruct groups; [done|]. by rewrite Hm. }
  rewrite Hstep. cbn [mbind result_bind].
  set (bound' := if m <? bound then m else bound). assert (Hb' : 0 ≤ bound' ≤ bound ∧ bound' ≤ m ∧ (bound' = m ∨ bound' = bound)).
  { subst bound'. destruct (Z.ltb_spec m bound); lia. }
  destruct (IH Hrest bound' ltac:(lia)) as (r & Hr & [H1 H2 H3]). exists r. split; [exact Hr|]. split; [lia| |].
  - intros x [->|Hx]%elem_of_cons; [|by apply H2]. intros _. cbn [fst snd]. destruct (decide (r = 0)) as [|Hr0]; [by left|right].
    destruct Hl1 as [->|[_ Hl1]]; [lia|]. etrans; [apply needed_mono; [done|]|exact Hl1]. lia.
  - destruct H3 as [->|(x & Hx & H3)]; [|right; exists x; split; [by right|done]]. destruct Hb' as (_ & _ & [->| ->]); [|by left].
    right. exists (groups, memory). split; [left|done].
Qed.

(** C25: with [max_model_len] to be chosen, the length that is chosen is the longest
    one that is not longer than the model's and fits on every worker: a request
    of that length fits everywhere, and one token more would not fit on some
    worker or is more than the model's length; an error means that not even one
    token fits on some worker. *)
Theorem auto_fit_longest cfg projected memory :
  1 ≤ max_model_len cfg → workers_paged cfg projected → length memory = length projected →
  match _auto_fit_max_model_len cfg projected memory with
  | Ok cfg' => ∃ len, cfg' = set_max_model_len len cfg ∧ 1 ≤ len ≤ max_model_len cfg ∧
      (∀ x, x ∈ zip projected memory → x.1 ≠ [] → needed_memory cfg' x.1 ≤ x.2) ∧
      (len = max_model_len cfg ∨ ∃ x, x ∈ zip projected memory ∧ x.1 ≠ [] ∧ x.2 < needed_memory (set_max_model_len (len + 1) cfg) x.1)
  | Err e => e = ValueError ∧ ∃ x, x ∈ zip projected memory ∧ x.1 ≠ [] ∧ x.2 < needed_memory (set_max_model_len 1 cfg) x.1
  end.
Proof.
  intros Hmax Hw Hlen. assert (Hself : set_max_model_len (max_model_len cfg) cfg = cfg) by by destruct cfg.
  assert (Hx : ∀ x, x ∈ zip projected memory → worker_paged cfg x.1) by (intros [gs m] Hin; by apply Hw, (elem_of_zip_l gs m projected memory)).
  unfold _auto_fit_max_model_len. destruct (forallb _ projected) eqn:Hall.
  - rewrite forallb_forall in Hall. exists (max_model_len cfg). rewrite Hself. split_and!; [done|lia|lia| |by left]. intros [gs m] Hin Hne.
    apply elem_of_zip_l, list_elem_of_In, Hall in Hin. cbn in Hne. by destruct gs.
  - destruct memory as [|m0 ms] eqn:Hm; [destruct projected; [|done]; done|]. rewrite <-Hm in *. replace (head memory) with (Some m0) by by rewrite Hm. clear Hm.
    cbn [unwrap mbind result_bind]. destruct (fit_workers cfg (zip projected memory) Hmax Hx (max_model_len cfg) ltac:(lia)) as (r & Hr & [H1 H2 H3]).
    rewrite Hr. cbn [mbind result_bind]. destruct (r <=? 0) eqn:Hr0.
    + apply Z.leb_le in Hr0. assert (r = 0) as -> by lia. split; [done|]. destruct H3 as [?|(x & Hin & Hne & _ & _ & Hno)]; [lia|]. exists x. split_and!; [done|done|]. apply Hno. lia.
    + apply Z.leb_gt in Hr0. assert (Hfit : ∀ x, x ∈ zip projected memory → x.1 ≠ [] → needed_memory (set_max_model_len r cfg) x.1 ≤ x.2).
      { intros x Hin Hne. destruct (H2 x Hin Hne); [lia|done]. }
      destruct (max_model_len cfg <=? r) eqn:Hmr.
      * apply Z.leb_le in Hmr. exists r. assert (r = max_model_len cfg) as -> by lia. rewrite Hself in *. split_and!; [done|lia|lia|done|by left].
      * apply Z.leb_gt in Hmr. exists r. split_and!; [done|lia|lia|done|]. right. destruct H3 as [?|(x & Hin & Hne & _ & _ & Hno)]; [lia|]. exists x. split_and!; [done|done|]. apply Hno. lia.
Qed.

(** ** The estimate from the layers *)

Definition layers_need (cfg : VllmConfig) (specs : LayerDict) : Z := sumZ ((λ s, request_pages cfg s * page_of s) <$> specs.*2).

Lemma layers_need_closed cfg specs : (∀ s, s ∈ specs.*2 → paged s ∧ shardable cfg s) → max_memory_usage_bytes_of cfg specs.*2 = Ok (layers_need cfg specs).
Proof.
  intros H. unfold max_memory_usage_bytes_of. rewrite (mapM_ok_all _ (λ s, request_pages cfg s * page_of s)); [done|].
  intros s Hs. destruct (H s Hs) as [(Hb & p & _ & Hpage) Hd]. rewrite (memory_bytes_closed cfg s p) by done. unfold page_of. by rewrite Hpage.
Qed.

Lemma layers_need_mono cfg specs len len' : (∀ s, s ∈ specs.*2 → paged s) → len ≤ len' →
  layers_need (set_max_model_len len cfg) specs ≤ layers_need (set_max_model_len len' cfg) specs.
Proof.
  intros H Hle. unfold layers_need. induction specs.*2 as [|s l IH]; [done|]. cbn [fmap list_fmap sumZ foldr]. apply Z.add_le_mono; [|apply IH; intros; apply H; by right].
  destruct (H s) as (Hb & p & Hp & Hpage); [left|]. unfold page_of. rewrite Hpage. apply Z.mul_le_mono_nonneg_r; [lia|]. by apply request_pages_mono.
Qed.

(** The estimate of [check_enough_kv_cache_memory] is exact too. *)
Lemma estimate_layers_longest cfg specs memory : (∀ s, s ∈ specs.*2 → paged s ∧ shardable cfg s) → 1 ≤ max_model_len cfg →
  ∃ r, estimate_max_model_len cfg specs memory = Ok r ∧ 0 ≤ r ≤ max_model_len cfg ∧ (1 ≤ r → layers_need (set_max_model_len r cfg) specs ≤ memory) ∧
    ∀ len, r < len ≤ max_model_len cfg → memory < layers_need (set_max_model_len len cfg) specs.
Proof.
  intros H Hmax. unfold estimate_max_model_len.
  set (fits := λ len, n ← max_memory_usage_bytes_of (set_max_model_len len cfg) specs.*2; Ok (n <=? memory)).
  assert (Hf : ∀ len, fits len = Ok (layers_need (set_max_model_len len cfg) specs <=? memory)) by (intros len; unfold fits; by rewrite layers_need_closed).
  destruct (longest_fitting_spec fits (max_model_len cfg)) as (r & Hr & Hspec); [| |done|].
  - intros len _. rewrite Hf. by eexists.
  - intros len len' Hl _. rewrite !Hf. intros [= E%Z.leb_le]. f_equal. apply Z.leb_le. etrans; [|exact E]. apply layers_need_mono; [|lia]. intros s Hs. by apply H.
  - exists r. split; [done|]. assert (Hno : ∀ len, fits len = Ok false → memory < layers_need (set_max_model_len len cfg) specs).
    { intros len. rewrite Hf. intros [= E]. by apply Z.leb_gt. }
    destruct Hspec as [[-> Hn]|(Hr1 & Hfit & Hn)]; (split_and!; [lia|lia| |intros len Hlen; apply Hno, Hn; lia]); [lia|].
    intros _. rewrite Hf in Hfit. injection Hfit as E. by apply Z.leb_le.
Qed.

(** ** Concurrency *)

Definition one_page_each (g : LayerGroup) : Prop := ∃ p, 0 < p ∧ group_page_size_bytes (kv_cache_spec g) = Ok p.

Lemma concurrency_closed cfg groups : (∀ g, g ∈ groups → group_paged cfg g ∧ one_page_each g) → num_blocks_per_request cfg groups = Ok (total_pages cfg groups).
Proof.
  intros H. unfold num_blocks_per_request, total_pages. rewrite (mapM_ok_all _ (group_pages cfg)); [done|]. intros g Hg. destruct (H g Hg) as [Hp (p & Hp0 & Hpage)].
  pose proof (group_blocks_closed cfg g Hp) as Hb. rewrite Hpage. unfold group_request_blocks in Hb. unfold group_max_memory_usage_bytes.
  destruct (kv_cache_spec g) as [s|b specs] eqn:Hk.
  - cbn in Hpage. unfold max_memory_pages in Hb. rewrite Hpage in Hb. exact Hb.
  - rewrite Hb, Hpage. cbn [mbind result_bind]. rewrite py_cdiv_pos by done. by rewrite cdiv_mul.
Qed.
