(* ===== verification/KVSizingRun.v ===== *)
(** * What the plan of all workers guarantees

    The blocks that [get_kv_cache_configs] gives to every worker hold a request
    of the longest length, besides the null block. *)

From S2P Require Import Prelude KVSpec KVLayout KVLayoutSpec KVPages KVGroups KVGroupsSpec KVGroupsPlace KVSizing KVSizingSpec.
Local Open Scope Z_scope.

(** ** The same need on every worker *)

Lemma page_positive s p : spec_pos s → page_size_bytes s = Ok p → 0 < p.
Proof. intros [P1 P2 P3 P4 P5 _ _] Hp. by destruct (page_ok_pos s p); [apply page_sized|]. Qed.

(** Pages that could be computed are those of the closed form. *)
Lemma memory_pages_Ok cfg s n : spec_pos s → max_memory_pages cfg s = Ok n → n = request_pages cfg s.
Proof.
  intros Hp Hn. pose proof Hn as H. unfold max_memory_pages in H. apply bind_Ok in H as (bytes & Hb & (p & Hpage & _)%bind_Ok).
  rewrite (memory_pages_closed cfg s) in Hn; [by injection Hn| |].
  - split; [apply Hp|]. exists p. split; [by apply (page_positive s)|done].
  - intros Hw. destruct s; try done; cbn in Hb; apply bind_Ok in Hb as (u & Hu%py_assert_Ok%Z.eqb_eq & _); done.
Qed.

(** All windows keep [extra] tokens. *)
Definition windows_keep (extra : Z) (s : LayerSpec) : Prop := ∀ w, window_of s = Some w → extra_retained_tokens w = extra.

(** Layers of one type need the same number of pages. *)
Lemma uniform_pages cfg extra specs s s' : is_uniform_type specs = Ok true → (∀ s, s ∈ specs.*2 → windows_keep extra s) →
  s ∈ specs.*2 → s' ∈ specs.*2 → request_pages cfg s = request_pages cfg s'.
Proof.
  unfold is_uniform_type. intros H Hx Hs Hs'. destruct (2 <=? py_len (remove_dups (block_size <$> specs.*2))) eqn:H2; [done|].
  assert (Hb : ∀ s, s ∈ specs.*2 → ∀ s', s' ∈ specs.*2 → block_size s = block_size s').
  { assert (Hone : ∃ b, ∀ x, x ∈ block_size <$> specs.*2 → x = b).
    { destruct (remove_dups (block_size <$> specs.*2)) as [|b [|b' r]] eqn:E; [| |apply Z.leb_gt in H2; unfold py_len in H2; simpl in H2; lia].
      - exists 0. intros x Hin. rewrite <-elem_of_remove_dups, E in Hin. by apply elem_of_nil in Hin.
      - exists b. intros x Hin. rewrite <-elem_of_remove_dups, E in Hin. by apply list_elem_of_singleton in Hin. }
    destruct Hone as [b Hone]. intros t Ht t' Ht'. by rewrite (Hone (block_size t)), (Hone (block_size t')) by by apply list_elem_of_fmap_2. }
  destruct specs as [|[n0 s0] specs]; [done|]. set (l := ((n0, s0) :: specs).*2) in *. clearbody l. clear H2 specs n0.
  assert (Hbase : ∀ f : LayerSpec → bool, forallb f l = true → ∀ t, t ∈ l → f t = true) by (intros f Hf t Ht; rewrite forallb_forall in Hf; by apply Hf, list_elem_of_In).
  assert (Hfull : forallb is_full_spec l = true → request_pages cfg s = request_pages cfg s').
  { intros Hf. pose proof (Hbase _ Hf s Hs) as F. pose proof (Hbase _ Hf s' Hs') as F'. pose proof (Hb s Hs s' Hs') as E. clear - F F' E.
    destruct s; try done; destruct s'; try done; unfold request_pages; by rewrite E. }
  assert (Hwin : ∀ w, (∀ t, t ∈ l → ∃ w', window_of t = Some w' ∧ sliding_window w' = w) → request_pages cfg s = request_pages cfg s').
  { intros w Hw. destruct (Hw s Hs) as (ws & E1 & E2). destruct (Hw s' Hs') as (ws' & E1' & E2'). pose proof (Hx s Hs ws E1) as E3. pose proof (Hx s' Hs' ws' E1') as E3'.
    pose proof (Hb s Hs s' Hs') as E. clear - E1 E2 E1' E2' E3 E3' E.
    destruct s; try done; destruct s'; try done; injection E1 as ->; injection E1' as ->; unfold request_pages; by rewrite E, E2, E2', E3, E3'. }
  destruct s0; cbn [is_uniform_with_collection uniform_type_base_spec] in H; unfold chunked_uniform, window_uniform, window_mla_uniform, mamba_uniform in H; try (injection H as H); try done; try (by apply Hfull).
  - pose proof (Hbase _ H s Hs) as F. pose proof (Hbase _ H s' Hs') as F'. pose proof (Hb s Hs s' Hs') as E. cbn beta in F, F'.
    destruct s; try done; destruct s'; try done; unfold request_pages. apply Z.eqb_eq in F, F'. by rewrite E, F, F'.
  - apply (Hwin (sliding_window w)). intros t Ht. pose proof (Hbase _ H t Ht) as F. cbn beta in F. destruct (window_of t) as [w'|]; [|done]. exists w'. split; [done|by apply Z.eqb_eq].
  - apply (Hwin (sliding_window w)). intros t Ht. pose proof (Hbase _ H t Ht) as F. cbn beta in F. apply andb_true_iff in F as [_ F].
    destruct (window_of t) as [w'|]; [|done]. exists w'. split; [done|by apply Z.eqb_eq].
  - pose proof (Hbase _ H s Hs) as F. pose proof (Hbase _ H s' Hs') as F'. by destruct s, s'.
  - pose proof (allM_ok_all _ _ H s Hs) as F. pose proof (allM_ok_all _ _ H s' Hs') as F'. pose proof (Hb s Hs s' Hs') as E. cbn beta in F, F'.
    destruct s; try done; destruct s'; try done. destruct (_ && _) eqn:A; [|done]. clear F. destruct (_ && _) eqn:A' in F'; [|done].
    apply andb_true_iff in A as [A1%Z.eqb_eq A2%Z.eqb_eq]. apply andb_true_iff in A' as [A1'%Z.eqb_eq A2'%Z.eqb_eq]. cbn [block_size] in E.
    unfold request_pages. by rewrite E, A1, A1', A2, A2'.
  - pose proof (Hbase _ H s Hs) as F. pose proof (Hbase _ H s' Hs') as F'. pose proof (Hb s Hs s' Hs') as E. destruct s; try done; destruct s'; try done. unfold request_pages. by rewrite E.
Qed.

(** The need of a group of the whole model. *)
Definition model_pages (cfg : VllmConfig) (g : LayerGroup) : Z := match iter_layer_specs (kv_cache_spec g) with s :: _ => request_pages cfg s | [] => 0 end.

Lemma same_max {A} (f : A → Z) v l n : (∀ x, x ∈ l → f x = v) → py_max_list (f <$> l) = Ok n → n = v.
Proof. intros H Hm%py_max_list_in. apply list_elem_of_fmap in Hm as (x & -> & Hx). by apply H. Qed.

Section Need.
Context (S : list LayerSpec) (extra : Z) (HS : ∀ s, s ∈ S → windows_keep extra s).

Lemma good_windows s : good S s → windows_keep extra s.
Proof. intros [_ (s0 & H0 & _ & Hw)] w' H'. destruct (Hw w' H') as (w & H & <-). by apply (HS s0 H0). Qed.

(** Whatever layers of the group a worker has. *)
Lemma project_pages cfg ws g g' n : group_good S (layer_names g) (kv_cache_spec g) → project_group ws g = Ok g' →
  group_request_blocks cfg g' = Ok n → n = model_pages cfg g.
Proof.
  intros Hg H Hn. unfold project_group in H. cbv zeta in H. apply bind_Ok in H as (sp & Hsp & [= <-]). unfold group_request_blocks in Hn. cbn [kv_cache_spec] in Hn.
  unfold model_pages, group_good in *. destruct (kv_cache_spec g) as [s|b specs] eqn:Hk.
  { assert (sp = OneSpec s) as -> by (destruct (filter _ _); by injection Hsp). cbn. destruct Hg as [Hp _]. by apply memory_pages_Ok. }
  destruct Hg as (_ & Hgd & Hu).
  assert (Hsub : ∃ specs', sp = UniformTypeKVCacheSpecs b specs' ∧ ∀ x, x ∈ specs' → x ∈ specs).
  { destruct (filter _ _) as [|nm nms]; [injection Hsp as <-; by exists specs|]. apply bind_Ok in Hsp as (specs' & Hl & [= <-]). exists specs'. split; [done|].
    intros x Hx. destruct (mapM_ok_in _ _ _ _ Hl Hx) as (nm' & _ & (s & Hs%unwrap_Ok & [= <-])%bind_Ok). by apply od_get_Some_in. }
  destruct Hsub as (specs' & -> & Hsub). unfold uniform_memory_pages in Hn. apply bind_Ok in Hn as (pages & Hpages & Hmax).
  cbn [iter_layer_specs]. destruct specs as [|[n0 s0] sp] eqn:Hspecs; [unfold is_uniform_type in Hu; done|]. rewrite <-Hspecs in *. replace specs.*2 with (s0 :: sp.*2) by by rewrite Hspecs.
  assert (Hs0 : s0 ∈ specs.*2) by (rewrite Hspecs; left). clear Hspecs sp.
  assert (Hwk : ∀ s, s ∈ specs.*2 → windows_keep extra s) by (intros s (x & -> & Hx)%list_elem_of_fmap; by apply good_windows, Hgd).
  assert (Hval : ∀ v, v ∈ pages → v = request_pages cfg s0).
  { intros v Hv. destruct (mapM_ok_in _ _ _ _ Hpages Hv) as (s & Hs & Hv'). apply list_elem_of_fmap in Hs as (x & -> & Hx). apply Hsub in Hx.
    rewrite (memory_pages_Ok cfg x.2 v); [|by apply Hgd|done]. apply (uniform_pages cfg extra specs); [done|done|by apply list_elem_of_fmap_2|done]. }
  apply (same_max id (request_pages cfg s0) pages); [done|]. by rewrite list_fmap_id.
Qed.

Lemma project_total cfg ws groups projected n : groups_good S groups → _project_kv_cache_groups_to_worker groups ws = Ok projected →
  total_request_blocks cfg projected = Ok n → n = sumZ (model_pages cfg <$> groups).
Proof.
  unfold _project_kv_cache_groups_to_worker, total_request_blocks. intros Hg Hp%mapM_ok_Forall2. revert n.
  induction Hp as [|g g' groups projected Hpg Hp IH]; intros n H; [by injection H as <-|]. cbn [mapM_ok] in H.
  destruct (group_request_blocks cfg g') as [m|] eqn:Hm; [|done]. cbn [mbind result_bind] in H. destruct (mapM_ok (group_request_blocks cfg) projected) as [ms|] eqn:Hms; [|done].
  injection H as <-. cbn [sumZ foldr fmap list_fmap]. f_equal; [|apply IH; [intros x Hx; apply Hg; by right|done]].
  apply (project_pages cfg ws g g' m); [apply Hg; left|done|done].
Qed.
End Need.

(** ** The scheduler's configuration *)

Lemma same_max_default {A} (f : A → Z) v l : l ≠ [] → (∀ x, x ∈ l → f x = v) → py_max_default (f <$> l) = v.
Proof.
  destruct l as [|x l]; [done|]. intros _ H. change (py_max_default (f <$> x :: l)) with (match py_max_list (f <$> x :: l) with Ok n => n | Err _ => 0 end).
  destruct (py_max_list (f <$> x :: l)) as [n|] eqn:E; [|done]. by apply (same_max f v (x :: l)).
Qed.

Section Scheduler.
Context (S : list LayerSpec) (extra : Z) (HS : ∀ s, s ∈ S → windows_keep extra s).

(** The representative layer of a dictionary needs what the dictionary needs. *)
Lemma scheduler_pages cfg g g' : group_good S (layer_names g) (kv_cache_spec g) → scheduler_group g = Ok g' →
  group_pages cfg g' = group_pages cfg g ∧ (group_paged cfg g → group_paged cfg g').
Proof.
  unfold scheduler_group. destruct (kv_cache_spec g) as [s|b specs] eqn:Hk; [by intros _ [= <-]|]. intros (_ & Hgd & Hu) ([n s] & Hs%unwrap_Ok & [= <-])%bind_Ok.
  apply head_Some_elem_of in Hs. assert (Hin : s ∈ specs.*2) by exact (list_elem_of_fmap_2 snd _ _ Hs). split.
  - unfold group_pages. rewrite Hk. cbn [kv_cache_spec]. symmetry. apply same_max_default; [by intros E; rewrite E in Hin; apply elem_of_nil in Hin|].
    intros x Hx. apply (uniform_pages cfg extra specs); [done| |done|done]. intros t (y & -> & Hy)%list_elem_of_fmap. by apply (good_windows S extra HS), Hgd.
  - intros [_ Hp]. rewrite Hk in Hp. split; [done|]. intros t ->%list_elem_of_singleton. by apply Hp.
Qed.

(** The two call sites of the capacity agree. *)
Lemma scheduler_capacity_agrees cfg c c' : groups_good S (cfg_groups c) → (∀ g, g ∈ cfg_groups c → group_paged cfg g) →
  generate_scheduler_kv_cache_config [c] = Ok c' → total_request_blocks cfg (cfg_groups c') = total_request_blocks cfg (cfg_groups c).
Proof.
  intros Hg Hp. unfold generate_scheduler_kv_cache_config. intros (u & _ & (gs & Hgs & [= <-])%bind_Ok)%bind_Ok. cbn [cfg_groups].
  assert (Hall : ∀ g', g' ∈ gs → ∃ g, g ∈ cfg_groups c ∧ scheduler_group g = Ok g') by (intros g' Hg'; by apply (mapM_ok_in _ _ _ _ Hgs)).
  rewrite !total_blocks_closed; [|done|].
  - f_equal. unfold total_pages. f_equal. apply (mapM_ok_fmap _ _ _ _ _ Hgs). intros g g' Hin Hs. by apply (scheduler_pages cfg g g' (Hg g Hin)).
  - intros g' (g & Hin & Hs)%Hall. by apply (scheduler_pages cfg g g' (Hg g Hin) Hs), Hp.
Qed.
End Scheduler.

(** ** One worker *)

Lemma config_of cfg groups memory c : get_kv_cache_config_from_groups cfg groups memory = Ok c → cfg_groups c = groups ∧
  match groups with [] => cfg_num_blocks c = 1
  | _ => ∃ b, _pool_bytes_per_block groups = Ok b ∧ cfg_num_blocks c = may_override_num_blocks cfg (memory / b) end.
Proof.
  unfold get_kv_cache_config_from_groups. destruct groups as [|g gs]; [by intros [= <-]|].
  intros (layout & _ & (u & _ & (b & Hb & (ts & _ & [= <-])%bind_Ok)%bind_Ok)%bind_Ok)%bind_Ok. split; [done|]. by exists b.
Qed.

Lemma pool_pos groups b : _pool_bytes_per_block groups = Ok b → 0 < b.
Proof. unfold _pool_bytes_per_block. by intros (l & _ & (n & _ & (u & Hu%py_assert_Ok%Z.ltb_lt & [= <-])%bind_Ok)%bind_Ok)%bind_Ok. Qed.

(** A worker that was checked and planned has a block more than a request
    needs. *)
Lemma worker_fits cfg cfg' groups ws memory memory' check c :
  num_gpu_blocks_override cfg' = num_gpu_blocks_override cfg →
  match num_gpu_blocks_override cfg with Some _ => override_memory cfg (groups, memory) | None => Ok memory end = Ok memory' →
  reserve_null_block groups memory' = Ok check → check_worker cfg' (groups, check) = Ok tt → plan_worker cfg' (groups, ws, memory') = Ok c →
  cfg_groups c = groups ∧ (∃ n, total_request_blocks cfg' groups = Ok n ∧ n + 1 ≤ cfg_num_blocks c) ∧
  (groups = [] → cfg_num_blocks c = 1) ∧ (∀ v, num_gpu_blocks_override cfg = Some v → groups ≠ [] → cfg_num_blocks c = v).
Proof.
  intros Hov Hmem Hres Hchk Hplan. unfold plan_worker in Hplan. apply bind_Ok in Hplan as (u & _ & Hplan). destruct (config_of _ _ _ _ Hplan) as [Hcg Hc].
  split; [done|]. destruct (decide (groups = [])) as [->|Hne].
  { split; [|by split]. exists 0. split; [done|]. cbn in Hc. rewrite Hc. lia. }
  assert (Hc' : ∃ b, _pool_bytes_per_block groups = Ok b ∧ cfg_num_blocks c = may_override_num_blocks cfg' (memory' / b)) by by destruct groups.
  destruct Hc' as (b & Hb & Hnb). pose proof (pool_pos _ _ Hb) as Hb0. clear Hc.
  assert (Hr : check = memory' - b) by (unfold reserve_null_block in Hres; destruct groups; [done|]; rewrite Hb in Hres; by injection Hres).
  assert (Hk : ∃ n, total_request_blocks cfg' groups = Ok n ∧ b * n ≤ check).
  { unfold check_worker, _check_enough_kv_cache_memory in Hchk. cbn [fst snd] in Hchk. destruct groups as [|g gs] eqn:E; [done|]. rewrite <-E in *.
    destruct (check <=? 0); [done|]. apply bind_Ok in Hchk as (nd & Hnd & Hchk). unfold _max_memory_usage_bytes_from_groups in Hnd. rewrite E in Hnd. rewrite <-E in Hnd.
    rewrite Hb in Hnd. cbn [mbind result_bind] in Hnd. destruct (total_request_blocks cfg' groups) as [n|]; [|done]. injection Hnd as <-. exists n. split; [done|].
    destruct (check <? b * n) eqn:Hlt; [by apply bind_Ok in Hchk as (? & _ & ?)|]. by apply Z.ltb_ge. }
  destruct Hk as (n & Hn & Hle). unfold may_override_num_blocks in Hnb. rewrite Hov in Hnb. split; [|split; [done|]].
  - exists n. split; [done|]. rewrite Hnb. destruct (num_gpu_blocks_override cfg) as [v|] eqn:Hv.
    + cbn. unfold override_memory in Hmem. rewrite Hv in Hmem. cbn [fst snd] in Hmem. destruct groups; [done|]. rewrite Hb in Hmem. cbn [mbind result_bind] in Hmem.
      destruct (b =? 0); [done|]. injection Hmem as <-. nia.
    + cbn. apply Z.div_le_lower_bound; lia.
  - intros v Hv _. by rewrite Hnb, Hv.
Qed.

(** ** All workers *)

Lemma merge_layers_ok specs : ∀ acc merged, foldM merge_layer acc specs = Ok merged → NoDup acc.*1 → NoDup merged.*1 ∧ ∀ x, x ∈ merged → x ∈ acc ∨ x ∈ specs.
Proof.
  induction specs as [|[n s] specs IH]; intros acc merged H Hnd; cbn [foldM] in H; [injection H as <-; split; [done|]; intros; by left|].
  apply bind_Ok in H as (acc' & H1 & H2). unfold merge_layer in H1. cbn [fst snd] in H1. destruct (od_get acc n) as [s'|] eqn:Hg.
  - apply bind_Ok in H1 as (u & _ & [= <-]). destruct (IH _ _ H2 Hnd) as [H3 H4]. split; [done|]. intros x [Hx|Hx]%H4; [by left|right; by right].
  - injection H1 as <-. apply od_get_None in Hg. rewrite od_set_new in H2 by done. destruct (IH _ _ H2) as [H3 H4].
    + rewrite fmap_app. apply NoDup_app. split_and!; [done| |apply NoDup_singleton]. intros m Hm ->%list_elem_of_singleton. done.
    + split; [done|]. intros x [[Hx| ->%list_elem_of_singleton]%elem_of_app|Hx]%H4; [by left|right; left|right; by right].
Qed.

Lemma merge_workers_ok workers merged : merge_workers workers = Ok merged → NoDup merged.*1 ∧ ∀ x, x ∈ merged → ∃ ws, ws ∈ workers ∧ x ∈ ws.
Proof.
  unfold merge_workers. assert (Hgen : ∀ acc merged, foldM (foldM merge_layer) acc workers = Ok merged → NoDup acc.*1 →
    NoDup merged.*1 ∧ ∀ x, x ∈ merged → x ∈ acc ∨ ∃ ws, ws ∈ workers ∧ x ∈ ws).
  { clear merged. induction workers as [|ws workers IH]; intros acc merged H Hnd; cbn [foldM] in H; [injection H as <-; split; [done|]; intros; by left|].
    apply bind_Ok in H as (acc' & H1 & H2). destruct (merge_layers_ok _ _ _ H1 Hnd) as [H3 H4]. destruct (IH _ _ H2 H3) as [H5 H6]. split; [done|].
    intros x [[Hx|Hx]%H4|(ws' & Hw & Hx)]%H6; [by left|right; exists ws; split; [left|done]|right; exists ws'; split; [by right|done]]. }
  intros H. destruct (Hgen [] merged H) as [H1 H2]; [constructor|]. split; [done|]. intros x [?%elem_of_nil|Hx]%H2; done.
Qed.

Lemma tag_ok cfg x y : tag_window cfg x = Ok y → y.1 = x.1 ∧ (spec_pos x.2 → spec_pos y.2) ∧ windows_keep (extra_retained_tokens_of cfg) y.2.
Proof.
  destruct x as [n s]. unfold tag_window. cbn [fst snd]. destruct (is_window_spec s) eqn:Hw.
  - intros (s' & Hs' & [= <-])%bind_Ok. cbn [fst snd]. split; [done|]. destruct s; try done; cbn [replace_extra_retained] in Hs'.
    + injection Hs' as <-. split; [|by intros w' [= <-]]. intros [P1 P2 P3 P4 P5 P6 P7]. by split.
    + pose proof Hs' as H. eapply (post_init_fields _ _ a) in H as (o & Ho & Hl & Hm & How); [|done]. split; [|intros w'; rewrite How; by intros [= <-]].
      intros Hp. apply (attention_pos_spec _ _ Ho).
      * by destruct (pos_attention (SlidingWindowMLASpec a w x) a eq_refl Hp).
      * intros _. pose proof (ps_dense _ Hp eq_refl) as Hd. unfold dense in *. by rewrite Ho.
      * intros _. pose proof (ps_latent _ Hp eq_refl) as Hz. by injection Hz.
  - intros [= <-]. split_and!; [done|done|]. intros w Hsome. unfold is_window_spec in Hw. apply bool_decide_eq_false in Hw. cbn in Hsome. by rewrite Hsome in Hw; destruct Hw; eexists.
Qed.

Lemma py_min_spec l m : py_min l = Ok m → m ∈ l ∧ ∀ x, x ∈ l → m ≤ x.
Proof.
  destruct l as [|y l]; [done|]. cbn. intros [= <-]. revert y. induction l as [|z l IH]; intros y; cbn.
  - split; [left|]. by intros x ->%list_elem_of_singleton.
  - destruct (IH (Z.min y z)) as [H1 H2]. split.
    + apply elem_of_cons in H1 as [H1|H1]; [|by do 2 right]. rewrite H1. destruct (Z.min_spec y z) as [[_ ->]|[_ ->]]; [left|right; left].
    + assert (Hm : foldl Z.min (Z.min y z) l ≤ Z.min y z) by (apply H2; left). intros x [->|[->|Hx]%elem_of_cons]%elem_of_cons; [lia|lia|]. apply H2. by right.
Qed.

Lemma auto_fit_override cfg projected memory cfg' : _auto_fit_max_model_len cfg projected memory = Ok cfg' → num_gpu_blocks_override cfg' = num_gpu_blocks_override cfg.
Proof.
  unfold _auto_fit_max_model_len. destruct (forallb _ _); [by intros [= <-]|]. intros (? & _ & (n & _ & H)%bind_Ok)%bind_Ok.
  destruct (n <=? 0); [done|]. destruct (_ <=? n); by injection H as <-.
Qed.


Lemma mapM_ok_lookup {A B} (f : A → result B) l k i x : mapM_ok f l = Ok k → l !! i = Some x → ∃ y, k !! i = Some y ∧ f x = Ok y.
Proof. intros H%mapM_ok_Forall2 Hi. destruct (Forall2_lookup_l _ _ _ _ _ H Hi) as (y & Hy & Hxy). by exists y. Qed.

Lemma mapM_ok_lookup_r {A B} (f : A → result B) l k i y : mapM_ok f l = Ok k → k !! i = Some y → ∃ x, l !! i = Some x ∧ f x = Ok y.
Proof. intros H%mapM_ok_Forall2 Hi. destruct (Forall2_lookup_r _ _ _ _ _ H Hi) as (x & Hx & Hxy). by exists x. Qed.

Lemma zip_lookup_inv {A B} (l : list A) (k : list B) i x y : zip l k !! i = Some (x, y) → l !! i = Some x ∧ k !! i = Some y.
Proof. intros H. by apply lookup_zip_Some in H. Qed.

(** Every planned configuration has a block more than the model needs. *)
Definition plan_holds (cfg cfg' : VllmConfig) (global : list LayerGroup) (c : MemoryConfig) : Prop :=
  (∃ ws, _project_kv_cache_groups_to_worker global ws = Ok (cfg_groups c)) ∧ (∃ n, total_request_blocks cfg' (cfg_groups c) = Ok n ∧ n + 1 ≤ cfg_num_blocks c) ∧
  (cfg_groups c = [] → cfg_num_blocks c = 1) ∧ (∀ v, num_gpu_blocks_override cfg = Some v → cfg_groups c ≠ [] → cfg_num_blocks c = v).

Lemma plans_hold cfg cfg' global workers projected memory memory' check configs :
  num_gpu_blocks_override cfg' = num_gpu_blocks_override cfg →
  mapM_ok (_project_kv_cache_groups_to_worker global) workers = Ok projected →
  match num_gpu_blocks_override cfg with Some _ => mapM_ok (override_memory cfg) (zip projected memory) | None => Ok memory end = Ok memory' →
  mapM_ok (λ x, reserve_null_block x.1 x.2) (zip projected memory') = Ok check →
  mapM_ok (check_worker cfg') (zip projected check) = Ok (replicate (length (zip projected check)) tt) →
  mapM_ok (plan_worker cfg') (zip (zip projected workers) memory') = Ok configs →
  ∀ c, c ∈ configs → plan_holds cfg cfg' global c.
Proof.
  intros Hov Hproj Hmem Hres Hchk Hplan c [i Hi]%list_elem_of_lookup.
  destruct (mapM_ok_lookup_r _ _ _ _ _ Hplan Hi) as ([[groups ws] m'] & Hx & Hp). apply zip_lookup_inv in Hx as [[Hg Hws]%zip_lookup_inv Hm'].
  destruct (mapM_ok_lookup _ _ _ _ _ Hproj Hws) as (groups' & Hg' & Hpr). rewrite Hg in Hg'. injection Hg' as <-.
  assert (Hz' : zip projected memory' !! i = Some (groups, m')) by (apply lookup_zip_Some; by split).
  destruct (mapM_ok_lookup _ _ _ _ _ Hres Hz') as (ck & Hck & Hr). cbn [fst snd] in Hr.
  assert (Hzc : zip projected check !! i = Some (groups, ck)) by (apply lookup_zip_Some; by split).
  destruct (mapM_ok_lookup _ _ _ _ _ Hchk Hzc) as ([] & _ & Hc).
  assert (Hm : ∃ m, match num_gpu_blocks_override cfg with Some _ => override_memory cfg (groups, m) | None => Ok m end = Ok m').
  { destruct (num_gpu_blocks_override cfg) as [v|]; [|by exists m'; injection Hmem as ->].
    destruct (mapM_ok_lookup_r _ _ _ _ _ Hmem Hm') as ([gs m] & Hx & Ho). apply zip_lookup_inv in Hx as [Hx _]. rewrite Hg in Hx. injection Hx as <-. by exists m. }
  destruct Hm as [m Hm]. destruct (worker_fits cfg cfg' groups ws m m' ck c Hov Hm Hr Hc Hp) as (H1 & H2 & H3 & H4). unfold plan_holds. rewrite H1.
  split_and!; [by exists ws|done|done|done].
Qed.

Lemma projected_length global ws groups : _project_kv_cache_groups_to_worker global ws = Ok groups → groups = [] ↔ global = [].
Proof. intros H%mapM_ok_Forall2. apply Forall2_length in H. by destruct global, groups. Qed.

(** A worker that has more blocks plans again for the smallest number. *)
Lemma shrink_holds cfg cfg' global configs minimum c c' :
  num_gpu_blocks_override cfg' = num_gpu_blocks_override cfg → (∀ c, c ∈ configs → plan_holds cfg cfg' global c) →
  py_min (cfg_num_blocks <$> configs) = Ok minimum → c ∈ configs → shrink_worker cfg' minimum c = Ok c' →
  cfg_groups c' = cfg_groups c ∧ cfg_num_blocks c' = minimum.
Proof.
  intros Hov Hp Hmin Hc H. unfold shrink_worker in H. destruct (cfg_num_blocks c =? minimum) eqn:E; [injection H as <-; split; [done|by apply Z.eqb_eq]|].
  apply Z.eqb_neq in E. apply bind_Ok in H as (b & Hb & H). destruct (config_of _ _ _ _ H) as [Hg Hn]. split; [done|].
  destruct (py_min_spec _ _ Hmin) as [Hin _]. apply list_elem_of_fmap in Hin as (c0 & Hmin0 & Hc0). destruct (Hp c Hc) as ((ws & Hws) & _ & H1 & H2).
  destruct (Hp c0 Hc0) as ((ws0 & Hws0) & _ & H10 & H20). pose proof (projected_length _ _ _ Hws) as L. pose proof (projected_length _ _ _ Hws0) as L0.
  destruct (decide (cfg_groups c = [])) as [He|Hne].
  { rewrite H1 in E by done. rewrite H10 in Hmin0 by (apply L0, L, He). lia. }
  destruct (cfg_groups c) as [|g gs] eqn:Hgs; [done|]. rewrite <-Hgs in *. destruct Hn as (b' & Hb' & ->). rewrite Hb in Hb'. injection Hb' as <-.
  unfold may_override_num_blocks. rewrite Hov. destruct (num_gpu_blocks_override cfg) as [v|] eqn:Hv; cbn [default].
  - rewrite (H2 v) in E by done. rewrite (H20 v eq_refl) in Hmin0; [lia|]. intros He. apply Hne, L, L0, He.
  - apply Z.div_mul. apply pool_pos in Hb. lia.
Qed.

(** C22: when the plan of all workers succeeds, all workers have the same number of
    blocks, and on each of them, besides the null block, they hold every block
    that a request of the longest length needs in all groups: for profiled
    memory and for a given number of blocks, with workers of different memory and
    different layers. *)
Theorem admitted_request_fits cfg workers memory cfg' configs :
  (∀ ws x, ws ∈ workers → x ∈ ws → spec_pos x.2) → get_kv_cache_configs cfg workers memory = Ok (cfg', configs) →
  ∃ blocks, ∀ c, c ∈ configs → cfg_num_blocks c = blocks ∧ ∃ n, total_request_blocks cfg' (cfg_groups c) = Ok n ∧ n + 1 ≤ blocks.
Proof.
  intros Hpos. unfold get_kv_cache_configs. intros (merged & Hmerged & (u & _ & (tagged & Htag & (global & Hglobal & H)%bind_Ok)%bind_Ok)%bind_Ok)%bind_Ok.
  apply bind_Ok in H as (projected & Hproj & (memory' & Hmem & (check & Hres & (cfg1 & Hfit & (us & Hchk & H)%bind_Ok)%bind_Ok)%bind_Ok)%bind_Ok).
  apply bind_Ok in H as (configs0 & Hplan & (minimum & Hmin & (configs' & Hshrink & [= -> ->])%bind_Ok)%bind_Ok).
  destruct (merge_workers_ok _ _ Hmerged) as [Hnd Hin].
  assert (Hlayers : layers_pos tagged).
  { split; [rewrite (mapM_ok_fmap _ fst fst _ _ Htag); [done|]; intros x y _ Hy; by destruct (tag_ok _ _ _ Hy)|].
    intros y Hy. destruct (mapM_ok_in _ _ _ _ Htag Hy) as (x & Hx & Hxy). destruct (Hin x Hx) as (ws & Hws & Hxw). apply tag_ok in Hxy as (_ & Hk & _). apply Hk. exact (Hpos ws x Hws Hxw). }
  assert (Hwin : ∀ s, s ∈ tagged.*2 → windows_keep (extra_retained_tokens_of cfg) s).
  { intros s (y & -> & Hy)%list_elem_of_fmap. destruct (mapM_ok_in _ _ _ _ Htag Hy) as (x & _ & Hxy). by apply tag_ok in Hxy as (_ & _ & ?). }
  pose proof (get_groups_good _ _ _ Hlayers Hglobal) as Hgood.
  assert (Hov : num_gpu_blocks_override cfg' = num_gpu_blocks_override cfg) by (destruct (_ =? -1); [by apply auto_fit_override in Hfit|by injection Hfit as <-]).
  assert (Hus : us = replicate (length (zip projected check)) tt).
  { apply mapM_ok_Forall2, Forall2_length in Hchk. rewrite Hchk. clear. induction us as [|[] us IH]; [done|]. cbn. by rewrite <-IH. }
  rewrite Hus in Hchk. pose proof (plans_hold cfg cfg' global workers projected memory memory' check configs0 Hov Hproj Hmem Hres Hchk Hplan) as Hplans.
  exists minimum. intros c' Hc'. destruct (mapM_ok_in _ _ _ _ Hshrink Hc') as (c & Hc & Hsh). destruct (shrink_holds _ _ _ _ _ _ _ Hov Hplans Hmin Hc Hsh) as [-> ->].
  split; [done|]. destruct (Hplans c Hc) as ((ws & Hws) & (n & Hn & _) & _). exists n. split; [done|].
  destruct (py_min_spec _ _ Hmin) as [Hm _]. apply list_elem_of_fmap in Hm as (c0 & -> & Hc0). destruct (Hplans c0 Hc0) as ((ws0 & Hws0) & (n0 & Hn0 & Hle) & _).
  rewrite (project_total _ _ Hwin cfg' ws global _ n Hgood Hws Hn). by rewrite (project_total _ _ Hwin cfg' ws0 global _ n0 Hgood Hws0 Hn0) in Hle.
Qed.
