(* ===== verification/KVPlanDemo.v ===== *)
(** * Plans of small models

    Workers of a pipeline to which the theorems on sizing apply, and what the
    code does on some others. *)

From S2P Require Import Prelude KVSpec KVLayout KVLayoutSpec KVPages KVGroups KVGroupsPlace KVSizing KVSizingSpec KVSizingRun.
Local Open Scope Z_scope.

(** ** A pipeline of two stages *)

Module PlanDemo.
Import PagesDemo.

Definition stage0 : LayerDict := [("f0", full); ("s0", window); ("s1", window)].
Definition stage1 : LayerDict := [("f1", full); ("s2", window); ("s3", window)].

(** The length of the model is 32 or to be chosen. *)
Definition auto : VllmConfig := mkVllmConfig 32 (-1) 1 8 "none" 0 None (Some BLHNC) false None false false 0 false.

Definition plan (cfg : VllmConfig) (memory : list Z) : option (Z * list Z) :=
  match get_kv_cache_configs cfg [stage0; stage1] memory with Ok (cfg', cs) => Some (max_model_len cfg', cfg_num_blocks <$> cs) | Err _ => None end.

Example demo_plan : plan (config BLHNC) [1500; 1300] = Some (32, [20; 20]).
Proof. by vm_compute. Qed.
Example demo_auto : plan auto [1500; 1000] = Some (16, [15; 15]).
Proof. by vm_compute. Qed.
Example demo_refused : plan (config BLHNC) [1500; 1000] = None.
Proof. by vm_compute. Qed.
End PlanDemo.

Lemma admitted_request_fits_witness : ∃ cfg' configs blocks,
  get_kv_cache_configs PlanDemo.auto [PlanDemo.stage0; PlanDemo.stage1] [1500; 1000] = Ok (cfg', configs) ∧ length configs = 2%nat ∧
  ∀ c, c ∈ configs → cfg_num_blocks c = blocks ∧ ∃ n, total_request_blocks cfg' (cfg_groups c) = Ok n ∧ n + 1 ≤ blocks.
Proof.
  destruct (get_kv_cache_configs PlanDemo.auto [PlanDemo.stage0; PlanDemo.stage1] [1500; 1000]) as [[cfg' configs]|] eqn:E; [|by vm_compute in E].
  assert (Hlen : length configs = 2%nat).
  { apply (f_equal (λ r, match r with Ok (_, cs) => length cs | Err _ => 0%nat end)) in E. rewrite <-E. by vm_compute. }
  destruct (admitted_request_fits PlanDemo.auto [PlanDemo.stage0; PlanDemo.stage1] [1500; 1000] cfg' configs) as [blocks H].
  - intros ws x Hws Hx. destruct GroupsDemo.demo_pos as [_ Hpos]. apply Hpos.
    assert (Hall : Forall (λ ws, Forall (λ x, x ∈ GroupsDemo.specs) ws) [PlanDemo.stage0; PlanDemo.stage1]) by (apply (bool_decide_unpack _); by vm_compute).
    rewrite Forall_forall in Hall. specialize (Hall ws Hws). cbn in Hall. rewrite Forall_forall in Hall. by apply Hall.
  - exact E.
  - exists cfg', configs, blocks. split; [reflexivity|]. split; [exact Hlen|exact H].
Defined.

Lemma demo_paged cfg s : decode_context_parallel_size cfg = 1 → s = PagesDemo.full ∨ s = PagesDemo.window → paged s ∧ shardable cfg s.
Proof. intros Hd [-> | ->]; (split; [split; [done|]; exists 64; by vm_compute|by intros _]). Qed.

Lemma auto_fit_longest_witness : ∃ len, _auto_fit_max_model_len PlanDemo.auto [PagesDemo.groups] [1000] = Ok (set_max_model_len len PlanDemo.auto) ∧
  1 ≤ len ≤ 32 ∧ needed_memory (set_max_model_len len PlanDemo.auto) PagesDemo.groups ≤ 1000.
Proof.
  pose proof (auto_fit_longest PlanDemo.auto [PagesDemo.groups] [1000]) as H.
  destruct (_auto_fit_max_model_len PlanDemo.auto [PagesDemo.groups] [1000]) as [cfg'|] eqn:E; [|by vm_compute in E].
  destruct H as (len & -> & Hlen & Hfit & _).
  - done.
  - intros groups ->%list_elem_of_singleton. split; [|intros _; by eexists].
    intros g [->|[->|[]%elem_of_nil]%elem_of_cons]%elem_of_cons; (split; [done|]); intros s ->%list_elem_of_singleton; apply demo_paged; [done|by left|done|by right].
  - done.
  - exists len. split; [done|]. split; [done|]. apply (Hfit (PagesDemo.groups, 1000)); [left|done].
Defined.

(** ** What the code does on other models *)

Module PlanFindings.
Import PagesDemo.

(** A worker without layers of a packed group is given tensors for the layers of
    other workers: the group keeps its whole dictionary.  [allocate_kv_cache] then
    finds no group for them. *)
Definition narrow : LayerSpec := SlidingWindowSpec (mkAttention 4 1 2 (mkDType "float16" 2) 2 QUANT_NONE None None None (mkFraction 1 1)) (mkWindow 8 0).
Definition first_stage : LayerDict := [("f0", full); ("s0", narrow)].
Definition last_stage : LayerDict := [("s1", narrow)].

Definition foreign_tensor (c : MemoryConfig) (t : KVCacheTensor) : bool :=
  bool_decide (tensor_layers t = ["f0"]) && match group_of_tensor c t with Err StopIteration => true | _ => false end.

Theorem foreign_layers_placed : od_get last_stage "f0" = None ∧
  match get_kv_cache_configs (config BLHNC) [first_stage; last_stage] [4000; 4000] with
  | Ok (_, [_; c1]) => existsb (foreign_tensor c1) (kv_cache_tensors c1) = true
  | _ => False
  end.
Proof. by vm_compute. Qed.

(** Sliding-window MLA specifications with different pages merge. *)
Definition latent (head_size : Z) : LayerSpec :=
  SlidingWindowMLASpec (mkAttention 4 1 head_size (mkDType "bfloat16" 2) 0 QUANT_NONE None None None (mkFraction 1 1)) (mkWindow 8 0) (mkMLA None None None).

Theorem merge_ignores_pages : (m ← merge [latent 8; latent 64]; page_size_bytes m) = Ok 64 ∧ page_size_bytes (latent 64) = Ok 512.
Proof. by vm_compute. Qed.

(** A padded page that divides the largest one raises [AssertionError]: the padding
    stays as it is when the block size grows, so the fallback for
    [NotImplementedError] is not tried. *)
Definition padded : LayerSpec := FullAttentionSpec (set_page_size_padded (Some 128) attention) (mkFull None None false).
Definition wide : LayerSpec := SlidingWindowSpec (mkAttention 4 8 2 (mkDType "float16" 2) 2 QUANT_NONE None None None (mkFraction 1 1)) (mkWindow 8 0).

Theorem padded_page_not_unified : page_size_bytes padded = Ok 128 ∧ page_size_bytes wide = Ok 256 ∧
  unify_kv_cache_spec_page_size [("f0", padded); ("s0", wide)] = Err AssertionError.
Proof. by vm_compute. Qed.

(** Whether a window of [RSWASpec] survives depends on the order of the layers. *)
Definition rswa : LayerSpec := RSWASpec attention (mkFull None None false) 16.

Theorem merge_depends_on_order : merge [full; rswa] = Ok full ∧ merge [rswa; full] = Err AssertionError.
Proof. by vm_compute. Qed.
End PlanFindings.
