(* ===== verification/NumPy.v ===== *)
(** * Arrays of fixed size

    What the workers use of NumPy and PyTorch buffers: a one-dimensional array is
    a list whose length never changes, a two-dimensional one a list of rows.
    Indices and lengths, which the code never makes negative, are [nat]. *)

From S2P Require Import Prelude.
Local Open Scope nat_scope.

Section Arrays.
Context {A : Type}.
Implicit Types (l row : list A) (rows : list (list A)).

(** [a[i]] and [a[i] = v] for an index that is not negative. *)
Definition np_get l (i : nat) : result A := unwrap IndexError (l !! i).
Definition np_set (i : nat) (v : A) l : result (list A) :=
  if decide (i < length l) then Ok (<[i := v]> l) else Err IndexError.

(** [a[lo:hi] = v] for a scalar [v]: the slice is cut at the end of the array. *)
Definition np_fill (lo hi : nat) (v : A) l : list A :=
  let lo := lo `min` length l in
  let k := hi `min` length l - lo in
  take lo l ++ replicate k v ++ drop (lo + k) l.

(** [a[lo:hi] = vals]: the shapes must agree after the slice is cut, or [vals] has
    one element, which is broadcast. *)
Definition np_assign (lo hi : nat) (vals : list A) l : result (list A) :=
  let lo' := lo `min` length l in
  let k := hi `min` length l - lo' in
  if decide (length vals = k) then Ok (take lo' l ++ vals ++ drop (lo' + k) l)
  else match vals with
       | [v] => Ok (np_fill lo hi v l)
       | _ => Err ValueError
       end.

(** [a[i], a[j] = a[j], a[i]], and the same with index lists on rows. *)
Definition np_swap (i j : nat) l : list A :=
  match l !! i, l !! j with
  | Some x, Some y => <[j := x]> (<[i := y]> l)
  | _, _ => l
  end.

(** [a[tgt] = a[src]] *)
Definition np_copy (src tgt : nat) l : list A :=
  match l !! src with Some x => <[tgt := x]> l | None => l end.

(** ** Laws *)

Lemma np_get_Some l i x : l !! i = Some x → np_get l i = Ok x.
Proof. unfold np_get. by intros ->. Qed.

Lemma np_get_Ok l i x : np_get l i = Ok x ↔ l !! i = Some x.
Proof. apply unwrap_Ok. Qed.

Lemma np_set_ok i v l : i < length l → np_set i v l = Ok (<[i := v]> l).
Proof. intros Hi. unfold np_set. by rewrite decide_True. Qed.

Lemma np_fill_length lo hi v l : length (np_fill lo hi v l) = length l.
Proof. unfold np_fill. rewrite !length_app, length_take, length_replicate, length_drop. lia. Qed.

Lemma np_assign_length lo hi vals l l' : np_assign lo hi vals l = Ok l' → length l' = length l.
Proof.
  unfold np_assign. case_decide as Hk.
  - intros [= <-]. rewrite !length_app, length_take, length_drop. lia.
  - destruct vals as [|v [|? ?]]; [done| |done]. intros [= <-]. apply np_fill_length.
Qed.

(** An assignment that fits. *)
Lemma np_assign_fits lo vals l : lo + length vals ≤ length l →
  np_assign lo (lo + length vals) vals l = Ok (take lo l ++ vals ++ drop (lo + length vals) l).
Proof.
  intros Hl. unfold np_assign. rewrite !Nat.min_l by lia.
  replace (lo + length vals - lo) with (length vals) by lia. by rewrite decide_True.
Qed.

(** One that does not, of more than one element. *)
Lemma np_assign_overflow lo vals l : length l < lo + length vals → 1 < length vals →
  np_assign lo (lo + length vals) vals l = Err ValueError.
Proof. intros Hl Hv. unfold np_assign. case_decide; [lia|]. by destruct vals as [|? [|? ?]]; simpl in *; [lia|lia|]. Qed.

Lemma np_fill_fits lo k v l : lo + k ≤ length l → np_fill lo (lo + k) v l = take lo l ++ replicate k v ++ drop (lo + k) l.
Proof. intros Hl. unfold np_fill. rewrite !Nat.min_l by lia. by replace (lo + k - lo) with k by lia. Qed.

(** Writing behind a prefix extends it. *)
Lemma take_written lo vals l : lo ≤ length l →
  take (lo + length vals) (take lo l ++ vals ++ drop (lo + length vals) l) = take lo l ++ vals.
Proof. intros Hl. rewrite app_assoc, take_app_length'; [done|]. rewrite length_app, length_take. lia. Qed.

Lemma drop_written lo vals l : lo ≤ length l →
  drop (lo + length vals) (take lo l ++ vals ++ drop (lo + length vals) l) = drop (lo + length vals) l.
Proof. intros Hl. rewrite app_assoc, drop_app_length'; [done|]. rewrite length_app, length_take. lia. Qed.

Lemma np_swap_length i j l : length (np_swap i j l) = length l.
Proof. unfold np_swap. destruct (l !! i), (l !! j); rewrite ?length_insert; done. Qed.

Lemma np_copy_length i j l : length (np_copy i j l) = length l.
Proof. unfold np_copy. destruct (l !! i); rewrite ?length_insert; done. Qed.

(** The exchange seen from every index. *)
Definition swap_ix (i j k : nat) : nat := if decide (k = i) then j else if decide (k = j) then i else k.

Lemma swap_ix_lt i j k n : i < n → j < n → swap_ix i j k < n ↔ k < n.
Proof. unfold swap_ix. intros. repeat case_decide; lia. Qed.

Lemma swap_ix_involutive i j k : swap_ix i j (swap_ix i j k) = k.
Proof. unfold swap_ix. repeat (case_decide; subst; try done). Qed.

Lemma swap_ix_r i j : swap_ix i j j = i.
Proof. unfold swap_ix. repeat case_decide; congruence. Qed.

Lemma swap_ix_l i j : swap_ix i j i = j.
Proof. unfold swap_ix. by rewrite decide_True. Qed.

Lemma np_swap_lookup i j k l : i < length l → j < length l → np_swap i j l !! k = l !! swap_ix i j k.
Proof.
  intros Hi Hj. unfold np_swap, swap_ix. destruct (lookup_lt_is_Some_2 l i Hi) as [x Hx]. destruct (lookup_lt_is_Some_2 l j Hj) as [y Hy].
  rewrite Hx, Hy. destruct (decide (k = j)) as [->|Hkj].
  - rewrite list_lookup_insert_eq by by rewrite length_insert. case_decide; congruence.
  - rewrite list_lookup_insert_ne by done. case_decide as Hki.
    + subst. by rewrite list_lookup_insert_eq.
    + by rewrite list_lookup_insert_ne.
Qed.

Lemma np_copy_lookup src tgt k l : src < length l → tgt < length l →
  np_copy src tgt l !! k = l !! (if decide (k = tgt) then src else k).
Proof.
  intros Hs Ht. unfold np_copy. destruct (lookup_lt_is_Some_2 l src Hs) as [x Hx]. rewrite Hx. case_decide as Hk.
  - subst. by rewrite list_lookup_insert_eq.
  - by rewrite list_lookup_insert_ne.
Qed.
End Arrays.

(** [map] is [fmap]. *)
Lemma map_lookup {A B} (f : A → B) (l : list A) i : map f l !! i = f <$> l !! i.
Proof. exact (list_lookup_fmap f l i). Qed.

Lemma map_insert {A B} (f : A → B) (l : list A) i x : map f (<[i := x]> l) = <[i := f x]> (map f l).
Proof. exact (list_fmap_insert f l i x). Qed.

Lemma map_np_swap {A B} (f : A → B) i j l : map f (np_swap i j l) = np_swap i j (map f l).
Proof. unfold np_swap. rewrite !map_lookup. destruct (l !! i) as [x|], (l !! j) as [y|]; simpl; by rewrite ?map_insert. Qed.

Lemma map_replicate {A B} (f : A → B) n x : map f (replicate n x) = replicate n (f x).
Proof. exact (fmap_replicate f n x). Qed.
