(* ===== verification/BlockTable.v ===== *)
(** * Block tables of the workers

    [v1/worker/block_table.py]: a table has a row per place in the batch; a row
    names the blocks of a request, in the blocks that the attention kernel uses,
    which may be parts of the blocks of the KV cache manager.  The kernel that
    maps token positions to cache slots reads the table on the device. *)

From S2P Require Import Prelude NumPy.
Local Open Scope Z_scope.

(** [get_block_table_width] *)
Definition get_block_table_width (max_num_blocks block_size : Z) (kernel_block_size token_alignment : option Z) : result Z :=
  let kernel_block_size := default block_size kernel_block_size in
  if kernel_block_size =? 0 then Err ZeroDivisionError
  else if negb (block_size mod kernel_block_size =? 0) then Err ValueError
  else
    max_num_blocks ← match token_alignment with
      | None => Ok max_num_blocks
      | Some token_alignment =>
          if token_alignment <=? 0 then Err ValueError
          else let block_alignment := token_alignment / Z.gcd token_alignment block_size in
               Ok (cdiv max_num_blocks block_alignment * block_alignment)
      end;
    Ok (max_num_blocks * block_size / kernel_block_size).

(** [SlotMappingMode] *)
Inductive SlotMappingMode : Type := TOKEN_TO_KV_SLOT | NONE.
#[export] Instance slot_mapping_mode_eq_dec : EqDecision SlotMappingMode.
Proof. solve_decision. Defined.

(** The attributes of a table that do not change; the sizes of the context
    parallel groups are those of [BlockTable.__init__]. *)
Record TableConfig : Type := mkTableConfig {
  kv_cache_block_size : Z;
  tb_block_size : Z;
  blocks_per_kv_block : Z;
  use_hybrid_blocks : bool;
  max_num_blocks_per_row : nat;
  max_num_batched_tokens : nat;
  dcp_world_size : Z;
  dcp_rank : Z;
  cp_kv_cache_interleave_size : Z;
  slot_mapping_mode : SlotMappingMode;
}.

(** A [CpuGpuBuffer] has a copy on either side. *)
Record BlockTable : Type := mkBlockTable {
  tb_config : TableConfig;
  tb_np : list (list Z);
  tb_gpu : list (list Z);
  num_blocks_per_row : list nat;
  slot_mapping : list Z;
}.

Definition PAD_SLOT_ID : Z := -1.

(** [BlockTable.__init__]; [dcp] is the size of the group and the rank in it. *)
Definition BlockTable_init (block_size : Z) (max_num_reqs max_num_blocks_per_req batched : nat) (kernel_block_size : Z)
    (dcp : Z * Z) (interleave : Z) (mode : SlotMappingMode) : result BlockTable :=
  '(size, per, hybrid) ←
    (if kernel_block_size =? block_size then Ok (block_size, 1, false)
     else if kernel_block_size =? 0 then Err ZeroDivisionError
     else if negb (block_size mod kernel_block_size =? 0) then Err ValueError
     else Ok (kernel_block_size, block_size / kernel_block_size, true));
  let width := (max_num_blocks_per_req * Z.to_nat per)%nat in
  let zeros := replicate max_num_reqs (replicate width 0) in
  Ok (mkBlockTable (mkTableConfig block_size size per hybrid width batched dcp.1 dcp.2 interleave mode)
        zeros zeros (replicate max_num_reqs 0%nat) (replicate batched 0)).

Definition set_rows (np : list (list Z)) (nums : list nat) (t : BlockTable) : BlockTable :=
  mkBlockTable (tb_config t) np (tb_gpu t) nums (slot_mapping t).

(** [BlockTable.map_to_kernel_blocks] with [kernel_block_arange = np.arange(0, blocks_per_kv_block)] *)
Definition map_to_kernel_blocks (kv_manager_block_ids : list Z) (blocks_per_kv_block : Z) : list Z :=
  if blocks_per_kv_block =? 1 then kv_manager_block_ids
  else concat (map (λ id, map (λ k, id * blocks_per_kv_block + k) (py_range 0 blocks_per_kv_block)) kv_manager_block_ids).

(** [BlockTable.append_row] *)
Definition append_row (block_ids : list Z) (row_idx : nat) (t : BlockTable) : result BlockTable :=
  match block_ids with
  | [] => Ok t
  | _ =>
      let block_ids := if use_hybrid_blocks (tb_config t) then map_to_kernel_blocks block_ids (blocks_per_kv_block (tb_config t))
                       else block_ids in
      let num_blocks := length block_ids in
      start ← np_get (num_blocks_per_row t) row_idx;
      nums ← np_set row_idx (start + num_blocks)%nat (num_blocks_per_row t);
      row ← np_get (tb_np t) row_idx;
      row ← np_assign start (start + num_blocks) block_ids row;
      Ok (set_rows (<[row_idx := row]> (tb_np t)) nums t)
  end.

(** [BlockTable.add_row] *)
Definition add_row (block_ids : list Z) (row_idx : nat) (t : BlockTable) : result BlockTable :=
  nums ← np_set row_idx 0%nat (num_blocks_per_row t);
  append_row block_ids row_idx (set_rows (tb_np t) nums t).

(** [BlockTable.clear_row] *)
Definition clear_row (row_idx : nat) (t : BlockTable) : result BlockTable :=
  num_blocks ← np_get (num_blocks_per_row t) row_idx;
  np ← (if (0 <? num_blocks)%nat then row ← np_get (tb_np t) row_idx; Ok (<[row_idx := np_fill 0 num_blocks 0 row]> (tb_np t))
        else Ok (tb_np t));
  Ok (set_rows np (<[row_idx := 0%nat]> (num_blocks_per_row t)) t).

(** [BlockTable.move_row] *)
Definition move_row (src tgt : nat) (t : BlockTable) : result BlockTable :=
  num_blocks ← np_get (num_blocks_per_row t) src;
  from ← np_get (tb_np t) src;
  to ← np_get (tb_np t) tgt;
  to ← np_assign 0 num_blocks (take num_blocks from) to;
  nums ← np_set tgt num_blocks (num_blocks_per_row t);
  let np := <[tgt := to]> (tb_np t) in
  from ← np_get np src;
  Ok (set_rows (<[src := np_fill 0 num_blocks 0 from]> np) (<[src := 0%nat]> nums) t).

(** [BlockTable.swap_row] *)
Definition swap_row (src tgt : nat) (t : BlockTable) : result BlockTable :=
  _ ← np_get (num_blocks_per_row t) src;
  _ ← np_get (num_blocks_per_row t) tgt;
  Ok (set_rows (np_swap src tgt (tb_np t)) (np_swap src tgt (num_blocks_per_row t)) t).

(** [BlockTable.commit_block_table], which is [CpuGpuBuffer.copy_to_gpu(n)] *)
Definition commit_block_table (num_reqs : nat) (t : BlockTable) : BlockTable :=
  mkBlockTable (tb_config t) (tb_np t) (take num_reqs (tb_np t) ++ drop num_reqs (tb_gpu t)) (num_blocks_per_row t) (slot_mapping t).

(** [BlockTable.clear] *)
Definition tb_clear (t : BlockTable) : BlockTable :=
  let zero := map (map (λ _ : Z, 0)) in
  mkBlockTable (tb_config t) (zero (tb_np t)) (zero (tb_gpu t)) (num_blocks_per_row t) (slot_mapping t).

(** ** The slot mapping kernel *)

Section Kernel.
Context (c : TableConfig) (table : list (list Z)).

Definition virtual_block_size : Z := kv_cache_block_size c * dcp_world_size c.

(** Whether this rank keeps the token at [pos], and where in its block. *)
Definition is_local (pos : Z) : bool :=
  let virtual_block_offset := pos - pos / virtual_block_size * virtual_block_size in
  (virtual_block_offset / cp_kv_cache_interleave_size c) mod dcp_world_size c =? dcp_rank c.

Definition local_block_offset (pos : Z) : Z :=
  let virtual_block_offset := pos - pos / virtual_block_size * virtual_block_size in
  virtual_block_offset / (dcp_world_size c * cp_kv_cache_interleave_size c) * cp_kv_cache_interleave_size c
  + virtual_block_offset mod cp_kv_cache_interleave_size c.

(** One lane: a masked load reads 0; the table is flat in memory. *)
Definition slot_of (req_idx : nat) (pos : Z) : result Z :=
  let stride := max_num_blocks_per_row c in
  let block_index := pos / virtual_block_size * blocks_per_kv_block c + local_block_offset pos / tb_block_size c in
  block_number ← (if is_local pos then py_get (concat table) (Z.of_nat (req_idx * stride) + block_index) else Ok 0);
  Ok (if is_local pos then block_number * tb_block_size c + local_block_offset pos mod tb_block_size c else PAD_SLOT_ID).

(** [range(start, stop, BLOCK_SIZE)], each step an [arange] of lanes under the mask. *)
Fixpoint lanes (fuel start stop BLOCK_SIZE : nat) : list nat :=
  match fuel with
  | O => []
  | S fuel =>
      if decide (start < stop)%nat
      then filter (λ o, o < stop)%nat (seq start BLOCK_SIZE) ++ lanes fuel (start + BLOCK_SIZE) stop BLOCK_SIZE
      else []
  end.

Definition store_lane (req_idx : nat) (positions : list Z) (slots : list Z) (offset : nat) : result (list Z) :=
  pos ← np_get positions offset;
  slot ← slot_of req_idx pos;
  np_set offset slot slots.

(** One program of the grid: the last one pads. *)
Definition slot_program (BLOCK_SIZE num_reqs : nat) (query_start_loc : list nat) (positions slots : list Z) (req_idx : nat) :
    result (list Z) :=
  if decide (req_idx = num_reqs) then
    Ok (foldl (λ slots o, <[o := PAD_SLOT_ID]> slots) slots
          (lanes (max_num_batched_tokens c) (length positions) (max_num_batched_tokens c) BLOCK_SIZE))
  else
    start_idx ← np_get query_start_loc req_idx;
    end_idx ← np_get query_start_loc (S req_idx);
    foldM (store_lane req_idx positions) slots (lanes end_idx start_idx end_idx BLOCK_SIZE).
End Kernel.

(** [BlockTable.compute_slot_mapping]: [num_reqs + 1] programs, each run to its
    end in turn. *)
Definition compute_slot_mapping (BLOCK_SIZE num_reqs : nat) (query_start_loc : list nat) (positions : list Z) (t : BlockTable) :
    result BlockTable :=
  match slot_mapping_mode (tb_config t) with
  | NONE => Ok t
  | TOKEN_TO_KV_SLOT =>
      slots ← foldM (slot_program (tb_config t) (tb_gpu t) BLOCK_SIZE num_reqs query_start_loc positions) (slot_mapping t)
                (seq 0 (S num_reqs));
      Ok (mkBlockTable (tb_config t) (tb_np t) (tb_gpu t) (num_blocks_per_row t) slots)
  end.

(** ** All groups *)

Definition on_tables (f : BlockTable → result BlockTable) (ts : list BlockTable) : result (list BlockTable) := mapM_ok f ts.

(** [block_ids[i]] of the [i]-th table; more tables than lists raise. *)
Fixpoint on_tables_with (f : list Z → BlockTable → result BlockTable) (block_ids : list (list Z)) (ts : list BlockTable) {struct ts} :
    result (list BlockTable) :=
  match ts with
  | [] => Ok []
  | t :: ts =>
      match block_ids with
      | [] => Err IndexError
      | ids :: block_ids => t ← f ids t; ts ← on_tables_with f block_ids ts; Ok (t :: ts)
      end
  end.

(** [MultiGroupBlockTable] *)
Definition mg_append_row (block_ids : list (list Z)) (row_idx : nat) (ts : list BlockTable) : result (list BlockTable) :=
  on_tables_with (λ ids, append_row ids row_idx) block_ids ts.
Definition mg_add_row (block_ids : list (list Z)) (row_idx : nat) (ts : list BlockTable) : result (list BlockTable) :=
  on_tables_with (λ ids, add_row ids row_idx) block_ids ts.
Definition mg_clear_row (row_idx : nat) (ts : list BlockTable) : result (list BlockTable) := on_tables (clear_row row_idx) ts.
Definition mg_move_row (src tgt : nat) (ts : list BlockTable) : result (list BlockTable) := on_tables (move_row src tgt) ts.
Definition mg_swap_row (src tgt : nat) (ts : list BlockTable) : result (list BlockTable) := on_tables (swap_row src tgt) ts.
Definition mg_commit (num_reqs : nat) (ts : list BlockTable) : list BlockTable := map (commit_block_table num_reqs) ts.
Definition mg_clear (ts : list BlockTable) : list BlockTable := map tb_clear ts.
Definition mg_compute_slot_mapping (BLOCK_SIZE num_reqs : nat) (query_start_loc : list nat) (positions : list Z) (ts : list BlockTable) :
    result (list BlockTable) :=
  on_tables (compute_slot_mapping BLOCK_SIZE num_reqs query_start_loc positions) ts.

(** [MultiGroupBlockTable.__init__]; the default modes map tokens to slots. *)
Definition MultiGroupBlockTable_init (max_num_reqs batched : nat) (block_sizes kernel_block_sizes max_num_blocks : list Z)
    (dcp : Z * Z) (interleave : Z) (slot_mapping_modes : option (list SlotMappingMode)) : result (list BlockTable) :=
  if decide (length kernel_block_sizes ≠ length block_sizes) then Err ValueError
  else
    let modes := default (replicate (length block_sizes) TOKEN_TO_KV_SLOT) slot_mapping_modes in
    if decide (length modes ≠ length block_sizes) then Err ValueError
    else if decide (length max_num_blocks ≠ length block_sizes) then Err ValueError
    else
      widths ← mapM_ok (λ '(n, block_size, mode), get_block_table_width n block_size None (if decide (mode = NONE) then None else Some 128))
                 (zip (zip max_num_blocks block_sizes) modes);
      mapM_ok (λ '(block_size, kernel_block_size, width, mode),
                 BlockTable_init block_size max_num_reqs (Z.to_nat width) batched kernel_block_size dcp interleave mode)
        (zip (zip (zip block_sizes kernel_block_sizes) widths) modes).
