(* ===== verification/BlockTableSpec.v ===== *)
(** * Block tables of the workers: correctness

    A table refines a list with one list of manager blocks per place of the
    batch; the slot mapping kernel finds the slot of every token in it, and
    different cells of the cache have different slots. *)

From S2P Require Import Prelude NumPy BlockTable.
Local Open Scope Z_scope.

(** ** Lists of equally long rows *)

Lemma concat_lookup {A} (rows : list (list A)) (w i j : nat) row :
  (∀ r, r ∈ rows → length r = w) → rows !! i = Some row → (j < w)%nat → concat rows !! (i * w + j)%nat = row !! j.
Proof.
  revert i. induction rows as [|r rows IH]; intros i Hw Hi Hj; [done|]. cbn [concat].
  assert (Hr : length r = w) by (apply Hw; left). destruct i as [|i]; simpl in Hi.
  - simplify_eq. cbn. by rewrite lookup_app_l by lia.
  - rewrite lookup_app_r by lia. replace (S i * w + j - length r)%nat with (i * w + j)%nat by lia.
    apply IH; [|done..]. intros r' Hr'. apply Hw. by right.
Qed.

Lemma concat_length_uniform {A} (rows : list (list A)) (w : nat) : (∀ r, r ∈ rows → length r = w) → length (concat rows) = (length rows * w)%nat.
Proof.
  induction rows as [|r rows IH]; intros Hw; [done|]. cbn [concat]. rewrite length_app, IH by (intros r' Hr'; apply Hw; by right).
  rewrite (Hw r) by left. simpl. lia.
Qed.

(** ** What a table stands for *)

(** How the constructor sets the attributes. *)
Record config_ok (c : TableConfig) : Prop := {
  cfg_size : 0 < tb_block_size c;
  cfg_per : 0 < blocks_per_kv_block c;
  cfg_split : kv_cache_block_size c = tb_block_size c * blocks_per_kv_block c;
  cfg_hybrid : use_hybrid_blocks c = false → blocks_per_kv_block c = 1;
  cfg_rank : 0 ≤ dcp_rank c < dcp_world_size c;
  cfg_interleave : 0 < cp_kv_cache_interleave_size c;
  cfg_interleave_fits : kv_cache_block_size c mod cp_kv_cache_interleave_size c = 0;
}.

Section Refinement.
Context (c : TableConfig) (Hc : config_ok c).
Implicit Types (t : BlockTable) (m : list (list Z)) (ids : list Z).

(** The kernel blocks of a list of blocks. *)
Definition kernel_ids ids : list Z := map_to_kernel_blocks ids (blocks_per_kv_block c).
Definition padded (w : nat) (l : list Z) : list Z := l ++ replicate (w - length l) 0.
Definition row_fits ids : Prop := (length ids * Z.to_nat (blocks_per_kv_block c) ≤ max_num_blocks_per_row c)%nat.

(** The host side of a table that holds the block lists [m]: behind the blocks of
    a row there are zeros. *)
Record holds t m : Prop := {
  holds_config : tb_config t = c;
  holds_np : tb_np t = map (λ ids, padded (max_num_blocks_per_row c) (kernel_ids ids)) m;
  holds_nums : num_blocks_per_row t = map (λ ids, length (kernel_ids ids)) m;
  holds_fit : Forall row_fits m;
}.

Lemma kernel_ids_row ids : kernel_ids ids = concat (map (λ id, map (λ k, id * blocks_per_kv_block c + k) (py_range 0 (blocks_per_kv_block c))) ids).
Proof.
  unfold kernel_ids, map_to_kernel_blocks. destruct (Z.eqb_spec (blocks_per_kv_block c) 1) as [->|]; [|done].
  induction ids as [|id ids IH]; [done|]. cbn [map concat]. rewrite <-IH. simpl. f_equal. lia.
Qed.

Lemma py_range_length a b : length (py_range a b) = Z.to_nat (b - a).
Proof. unfold py_range. by rewrite length_map, length_seq. Qed.

Lemma kernel_part_length ids r :
  r ∈ map (λ id, map (λ k, id * blocks_per_kv_block c + k) (py_range 0 (blocks_per_kv_block c))) ids →
  length r = Z.to_nat (blocks_per_kv_block c).
Proof. intros (id & -> & _)%list_elem_of_fmap. by rewrite length_map, py_range_length, Z.sub_0_r. Qed.

Lemma kernel_ids_length ids : length (kernel_ids ids) = (length ids * Z.to_nat (blocks_per_kv_block c))%nat.
Proof. rewrite kernel_ids_row, (concat_length_uniform _ _ (kernel_part_length ids)). by rewrite length_map. Qed.

Lemma kernel_ids_lookup ids (q : nat) r id : ids !! q = Some id → 0 ≤ r < blocks_per_kv_block c →
  kernel_ids ids !! (q * Z.to_nat (blocks_per_kv_block c) + Z.to_nat r)%nat = Some (id * blocks_per_kv_block c + r).
Proof.
  intros Hq Hr. rewrite kernel_ids_row.
  rewrite (concat_lookup _ (Z.to_nat (blocks_per_kv_block c)) q (Z.to_nat r)
             (map (λ k, id * blocks_per_kv_block c + k) (py_range 0 (blocks_per_kv_block c)))); [|apply kernel_part_length| |lia].
  - rewrite map_lookup. unfold py_range. rewrite map_lookup, lookup_seq_lt by lia. simpl. f_equal. lia.
  - by rewrite map_lookup, Hq.
Qed.

Lemma kernel_ids_app ids1 ids2 : kernel_ids (ids1 ++ ids2) = kernel_ids ids1 ++ kernel_ids ids2.
Proof. by rewrite !kernel_ids_row, map_app, concat_app. Qed.

Lemma padded_length w l : (length l ≤ w)%nat → length (padded w l) = w.
Proof. intros. unfold padded. rewrite length_app, length_replicate. lia. Qed.

Lemma padded_take w l : take (length l) (padded w l) = l.
Proof. unfold padded. by rewrite take_app_length. Qed.

Lemma append_assign w l k : (length l + length k ≤ w)%nat →
  np_assign (length l) (length l + length k) k (padded w l) = Ok (padded w (l ++ k)).
Proof.
  intros Hw. rewrite np_assign_fits by (rewrite padded_length; lia). f_equal. unfold padded.
  rewrite take_app_length, drop_app_ge by lia. rewrite drop_replicate, <-app_assoc, length_app. do 3 f_equal. lia.
Qed.

Lemma fill_padded w l : (length l ≤ w)%nat → np_fill 0 (length l) 0 (padded w l) = padded w [].
Proof.
  intros Hw. rewrite (np_fill_fits 0 (length l)) by (rewrite padded_length; lia). unfold padded. simpl.
  rewrite drop_app_length, <-replicate_add. f_equal. lia.
Qed.

Lemma holds_row t m i ids : holds t m → m !! i = Some ids →
  tb_np t !! i = Some (padded (max_num_blocks_per_row c) (kernel_ids ids)) ∧
  num_blocks_per_row t !! i = Some (length (kernel_ids ids)) ∧ (length (kernel_ids ids) ≤ max_num_blocks_per_row c)%nat.
Proof.
  intros [_ Hn Hs Hf] Hi. rewrite Hn, Hs, !map_lookup, Hi.
  split_and!; [done..|]. rewrite kernel_ids_length. exact (Forall_lookup_1 _ _ _ _ Hf Hi).
Qed.

Lemma holds_update t m i ids : holds t m → row_fits ids →
  holds (set_rows (<[i := padded (max_num_blocks_per_row c) (kernel_ids ids)]> (tb_np t)) (<[i := length (kernel_ids ids)]> (num_blocks_per_row t)) t)
        (<[i := ids]> m).
Proof.
  intros [Hcf Hn Hs Hf] Hids. split; simpl; [done|..].
  - by rewrite Hn, map_insert.
  - by rewrite Hs, map_insert.
  - by apply Forall_insert.
Qed.

Lemma holds_lt t m i : holds t m → (i < length m)%nat → (i < length (num_blocks_per_row t))%nat.
Proof. intros [_ _ Hs _] Hi. by rewrite Hs, length_map. Qed.

(** ** The operations refine operations on lists of blocks *)

Lemma kernel_blocks_of t m new : holds t m →
  (if use_hybrid_blocks (tb_config t) then map_to_kernel_blocks new (blocks_per_kv_block (tb_config t)) else new) = kernel_ids new.
Proof.
  intros Ht. rewrite (holds_config _ _ Ht). unfold kernel_ids. destruct (use_hybrid_blocks c) eqn:Hh; [done|].
  unfold map_to_kernel_blocks. by rewrite (cfg_hybrid _ Hc Hh).
Qed.

Lemma append_row_holds t m i ids new : holds t m → m !! i = Some ids → row_fits (ids ++ new) →
  ∃ t', append_row new i t = Ok t' ∧ holds t' (<[i := ids ++ new]> m) ∧ tb_gpu t' = tb_gpu t ∧ slot_mapping t' = slot_mapping t.
Proof.
  intros Ht Hi Hfit. unfold append_row. destruct new as [|n new].
  { exists t. rewrite app_nil_r, list_insert_id by done. done. }
  rewrite (kernel_blocks_of t m (n :: new) Ht). destruct (holds_row _ _ _ _ Ht Hi) as (Hr & Hn & _).
  rewrite (np_get_Some _ _ _ Hn). simpl. rewrite np_set_ok by (eapply holds_lt, lookup_lt_Some; done). simpl.
  rewrite (np_get_Some _ _ _ Hr). simpl.
  assert (Hlen : (length (kernel_ids ids) + length (kernel_ids (n :: new)) ≤ max_num_blocks_per_row c)%nat).
  { rewrite <-length_app, <-kernel_ids_app, kernel_ids_length. apply Hfit. }
  rewrite append_assign by done. simpl. eexists. split; [done|]. rewrite <-length_app, <-kernel_ids_app. split; [|done].
  by apply holds_update.
Qed.

Lemma append_row_overflow t m i ids new : holds t m → m !! i = Some ids → ¬ row_fits (ids ++ new) → (1 < length (kernel_ids new))%nat →
  append_row new i t = Err ValueError.
Proof.
  intros Ht Hi Hfit Hl. unfold append_row. destruct new as [|n new]; [rewrite kernel_ids_length in Hl; simpl in Hl; lia|]. rewrite (kernel_blocks_of t m (n :: new) Ht).
  destruct (holds_row _ _ _ _ Ht Hi) as (Hr & Hn & Hle). rewrite (np_get_Some _ _ _ Hn). simpl.
  rewrite np_set_ok by (eapply holds_lt, lookup_lt_Some; done). simpl. rewrite (np_get_Some _ _ _ Hr). simpl.
  rewrite np_assign_overflow; [done| |done]. rewrite padded_length by done. unfold row_fits in Hfit.
  rewrite length_app in Hfit. rewrite !kernel_ids_length. lia.
Qed.

Lemma set_num_empty t m i : holds t m → m !! i = Some [] → np_set i 0%nat (num_blocks_per_row t) = Ok (num_blocks_per_row t).
Proof.
  intros Ht Hi. rewrite np_set_ok by (eapply holds_lt, lookup_lt_Some; done). f_equal. apply list_insert_id.
  destruct (holds_row _ _ _ _ Ht Hi) as (_ & -> & _). by rewrite kernel_ids_length.
Qed.

Lemma add_row_holds t m i new : holds t m → m !! i = Some [] → row_fits new →
  ∃ t', add_row new i t = Ok t' ∧ holds t' (<[i := new]> m) ∧ tb_gpu t' = tb_gpu t ∧ slot_mapping t' = slot_mapping t.
Proof.
  intros Ht Hi Hfit. unfold add_row. rewrite (set_num_empty t m i Ht Hi). simpl.
  replace (set_rows (tb_np t) (num_blocks_per_row t) t) with t by by destruct t. by apply (append_row_holds t m i []).
Qed.

Lemma clear_row_holds t m i ids : holds t m → m !! i = Some ids →
  ∃ t', clear_row i t = Ok t' ∧ holds t' (<[i := []]> m) ∧ tb_gpu t' = tb_gpu t ∧ slot_mapping t' = slot_mapping t.
Proof.
  intros Ht Hi. unfold clear_row. destruct (holds_row _ _ _ _ Ht Hi) as (Hr & Hn & Hle). rewrite (np_get_Some _ _ _ Hn). simpl.
  assert (He : kernel_ids [] = []) by by rewrite kernel_ids_row.
  pose proof (holds_update t m i [] Ht ltac:(unfold row_fits; simpl; lia)) as Hu. rewrite He in Hu. simpl in Hu.
  destruct (Nat.ltb_spec 0 (length (kernel_ids ids))) as [Hlt|Hge]; simpl.
  - rewrite (np_get_Some _ _ _ Hr). simpl. rewrite fill_padded by done. by eexists.
  - eexists. split; [done|]. split; [|done]. assert (Hz : kernel_ids ids = []) by (apply length_zero_iff_nil; lia).
    rewrite Hz in Hr. by rewrite (list_insert_id _ _ _ Hr) in Hu.
Qed.

(** The place the row moves to is another one, and empty. *)
Lemma move_row_holds t m src tgt ids : holds t m → src ≠ tgt → m !! src = Some ids → m !! tgt = Some [] →
  ∃ t', move_row src tgt t = Ok t' ∧ holds t' (<[src := []]> (<[tgt := ids]> m)) ∧ tb_gpu t' = tb_gpu t ∧ slot_mapping t' = slot_mapping t.
Proof.
  intros Ht Hne Hs Hg. unfold move_row. destruct (holds_row _ _ _ _ Ht Hs) as (Hr & Hn & Hle).
  destruct (holds_row _ _ _ _ Ht Hg) as (Hr' & Hn' & _). assert (He : kernel_ids [] = []) by by rewrite kernel_ids_row. rewrite He in Hr'.
  rewrite (np_get_Some _ _ _ Hn), (np_get_Some _ _ _ Hr), (np_get_Some _ _ _ Hr'). simpl. rewrite padded_take.
  pose proof (append_assign _ [] (kernel_ids ids) Hle) as Ha. simpl in Ha. rewrite Ha. simpl. rewrite np_set_ok by (eapply holds_lt, lookup_lt_Some; done). simpl.
  rewrite (np_get_Some _ _ (padded (max_num_blocks_per_row c) (kernel_ids ids))) by by rewrite list_lookup_insert_ne.
  simpl. rewrite fill_padded by done. eexists. split; [done|]. split; [|done].
  assert (Hfit : row_fits ids) by (eapply Forall_lookup_1; [apply (holds_fit _ _ Ht)|done]).
  pose proof (holds_update _ _ src [] (holds_update t m tgt ids Ht Hfit) ltac:(unfold row_fits; simpl; lia)) as Hu.
  rewrite He in Hu. exact Hu.
Qed.

Lemma swap_row_holds t m i j : holds t m → (i < length m)%nat → (j < length m)%nat →
  ∃ t', swap_row i j t = Ok t' ∧ holds t' (np_swap i j m) ∧ tb_gpu t' = tb_gpu t ∧ slot_mapping t' = slot_mapping t.
Proof.
  intros Ht Hi Hj. destruct (lookup_lt_is_Some_2 m i Hi) as [x Hx]. destruct (lookup_lt_is_Some_2 m j Hj) as [y Hy].
  unfold swap_row. destruct (holds_row _ _ _ _ Ht Hx) as (_ & Hn & _). destruct (holds_row _ _ _ _ Ht Hy) as (_ & Hn' & _).
  rewrite (np_get_Some _ _ _ Hn), (np_get_Some _ _ _ Hn'). simpl. eexists. split; [done|]. split; [|done]. destruct Ht as [Hcf Hnp Hs Hf].
  split; simpl; [done|..].
  - by rewrite Hnp, map_np_swap.
  - by rewrite Hs, map_np_swap.
  - unfold np_swap. rewrite Hx, Hy. apply Forall_insert; [by apply Forall_insert, (Forall_lookup_1 _ _ _ _ Hf Hy)|by apply (Forall_lookup_1 _ _ _ _ Hf Hx)].
Qed.
End Refinement.

(** The constructor makes empty rows. *)
Lemma init_holds block_size max_num_reqs max_blocks batched kernel_block_size dcp interleave mode t :
  0 < block_size → 0 < kernel_block_size → 0 ≤ dcp.2 < dcp.1 → 0 < interleave → block_size mod interleave = 0 →
  BlockTable_init block_size max_num_reqs max_blocks batched kernel_block_size dcp interleave mode = Ok t →
  config_ok (tb_config t) ∧ holds (tb_config t) t (replicate max_num_reqs []) ∧ kv_cache_block_size (tb_config t) = block_size ∧
  ∀ ids, (length ids ≤ max_blocks)%nat → row_fits (tb_config t) ids.
Proof.
  intros HB Hk Hr Hi Hm. unfold BlockTable_init. intros H.
  assert (Hgoal : ∀ size per hybrid, 0 < size → 0 < per → block_size = size * per → (hybrid = false → per = 1) →
    let c := mkTableConfig block_size size per hybrid (max_blocks * Z.to_nat per) batched dcp.1 dcp.2 interleave mode in
    let zeros := replicate max_num_reqs (replicate (max_blocks * Z.to_nat per) 0) in
    config_ok c ∧ holds c (mkBlockTable c zeros zeros (replicate max_num_reqs 0%nat) (replicate batched 0)) (replicate max_num_reqs []) ∧
    kv_cache_block_size c = block_size ∧ ∀ ids, (length ids ≤ max_blocks)%nat → row_fits c ids).
  { intros size per hybrid Hs Hp Hsp Hh c zeros. split_and!; [by split|split; [done| | |]|done|].
    - simpl. rewrite map_replicate. unfold kernel_ids, map_to_kernel_blocks, padded. simpl.
      destruct (per =? 1); simpl; by rewrite Nat.sub_0_r.
    - simpl. rewrite map_replicate, kernel_ids_length. done.
    - apply Forall_replicate. unfold row_fits. simpl. lia.
    - intros ids Hl. unfold row_fits. simpl. by apply Nat.mul_le_mono_r. }
  destruct (Z.eqb_spec kernel_block_size block_size) as [Heq|_]; [injection H as <-; apply Hgoal; (done || lia)|].
  destruct (Z.eqb_spec kernel_block_size 0); [done|]. destruct (Z.eqb_spec (block_size mod kernel_block_size) 0) as [Hd|]; [|done].
  pose proof (Z.div_mod block_size kernel_block_size ltac:(lia)) as Hdm. injection H as <-.
  apply Hgoal; [lia| |lia|done]. assert (0 ≤ block_size / kernel_block_size) by (apply Z.div_pos; lia). nia.
Qed.

