(* ===== verification/SlotMapping.v ===== *)
(** * The slot of every token

    The slot mapping kernel finds, in a table split into kernel blocks, the slot
    that the manager's block and the position in it give, on every rank of a
    context parallel group; two tokens have the same slot only if they are the
    same place of the same block. *)

From S2P Require Import Prelude NumPy BlockTable BlockTableSpec.
Local Open Scope Z_scope.

(** ** The lanes of a chunked loop *)

Lemma filter_seq_lt start n stop : filter (λ o, o < stop)%nat (seq start n) = seq start (n `min` (stop - start)).
Proof.
  revert start. induction n as [|n IH]; intros start; [done|]. cbn [seq]. destruct (decide (start < stop)%nat) as [Hs|Hs].
  - rewrite filter_cons_True by done. rewrite IH. replace (S n `min` (stop - start))%nat with (S (n `min` (stop - S start)))%nat by lia. done.
  - rewrite filter_cons_False by done. rewrite IH. replace (stop - start)%nat with 0%nat by lia. replace (stop - S start)%nat with 0%nat by lia. by rewrite !Nat.min_0_r.
Qed.

Lemma lanes_all fuel start stop BLOCK_SIZE : (0 < BLOCK_SIZE)%nat → (stop - start ≤ fuel)%nat →
  lanes fuel start stop BLOCK_SIZE = seq start (stop - start).
Proof.
  intros HB. revert start. induction fuel as [|fuel IH]; intros start Hf; simpl; [by replace (stop - start)%nat with 0%nat by lia|].
  case_decide as Hs; [|by replace (stop - start)%nat with 0%nat by lia]. rewrite filter_seq_lt, IH by lia.
  destruct (decide (BLOCK_SIZE ≤ stop - start)%nat) as [Hle|Hle].
  - rewrite Nat.min_l by done. rewrite <-seq_app. f_equal. lia.
  - rewrite Nat.min_r by lia. replace (stop - (start + BLOCK_SIZE))%nat with 0%nat by lia. simpl. by rewrite app_nil_r.
Qed.

(** ** Interleaved blocks *)

Section Local.
Context (c : TableConfig) (Hc : config_ok c).
Implicit Types (pos : Z).

Lemma config_positive : 0 < kv_cache_block_size c ∧ 0 < dcp_world_size c ∧ 0 < virtual_block_size c.
Proof.
  pose proof (cfg_size _ Hc). pose proof (cfg_per _ Hc). pose proof (cfg_split _ Hc). pose proof (cfg_rank _ Hc).
  assert (0 < kv_cache_block_size c) by nia. unfold virtual_block_size. split_and!; nia.
Qed.

Lemma virtual_offset pos : pos - pos / virtual_block_size c * virtual_block_size c = pos mod virtual_block_size c.
Proof. pose proof config_positive as (_ & _ & HV). rewrite (Z.mod_eq pos (virtual_block_size c)) by lia. ring. Qed.

(** The place of a local token in its virtual block. *)
Lemma local_offset_place pos : is_local c pos = true →
  pos mod virtual_block_size c
  = cp_kv_cache_interleave_size c * (dcp_world_size c * (local_block_offset c pos / cp_kv_cache_interleave_size c) + dcp_rank c)
    + local_block_offset c pos mod cp_kv_cache_interleave_size c.
Proof.
  pose proof config_positive as (_ & HW & HV). pose proof (cfg_interleave _ Hc) as HI. unfold is_local, local_block_offset. rewrite !virtual_offset. intros Hl%Z.eqb_eq.
  set (v := pos mod virtual_block_size c) in *. set (I := cp_kv_cache_interleave_size c) in *. set (W := dcp_world_size c) in *.
  pose proof (Z.mod_pos_bound v I HI) as He. rewrite Z.div_add_l, (Z.div_small (v mod I)), Z.add_0_r by lia.
  rewrite Z.add_comm with (n := v / (W * I) * I), Z.mod_add, (Z.mod_small (v mod I)) by lia.
  rewrite (Z.mul_comm W I), <-Z.div_div by lia. pose proof (Z.div_mod v I ltac:(lia)). pose proof (Z.div_mod (v / I) W ltac:(lia)). nia.
Qed.

Lemma local_offset_bounds pos : 0 ≤ local_block_offset c pos < kv_cache_block_size c.
Proof.
  pose proof config_positive as (HB & HW & HV). pose proof (cfg_interleave _ Hc) as HI. pose proof (cfg_interleave_fits _ Hc) as Hb.
  unfold local_block_offset. rewrite virtual_offset. pose proof (Z.mod_pos_bound pos _ HV) as Hv. unfold virtual_block_size in *.
  set (v := pos mod (kv_cache_block_size c * dcp_world_size c)) in *.
  pose proof (Z.mod_pos_bound v _ HI). apply Z.mod_divide in Hb as [b Hb]; [|lia].
  assert (Hq : v / (dcp_world_size c * cp_kv_cache_interleave_size c) < b) by (apply Z.div_lt_upper_bound; [nia|]; rewrite Hb in Hv; nia).
  assert (0 ≤ v / (dcp_world_size c * cp_kv_cache_interleave_size c)) by (apply Z.div_pos; nia). nia.
Qed.

(** On one rank a place in the block is one position. *)
Lemma local_offset_inj pos1 pos2 : is_local c pos1 = true → is_local c pos2 = true →
  local_block_offset c pos1 = local_block_offset c pos2 ↔ pos1 mod virtual_block_size c = pos2 mod virtual_block_size c.
Proof.
  intros H1 H2. split; intros He.
  - by rewrite (local_offset_place _ H1), (local_offset_place _ H2), He.
  - unfold local_block_offset. by rewrite !virtual_offset, He.
Qed.

(** Without context parallelism every token is local. *)
Lemma local_offset_single pos : dcp_world_size c = 1 → is_local c pos = true ∧ local_block_offset c pos = pos mod kv_cache_block_size c.
Proof.
  intros HW. assert (Hl : is_local c pos = true).
  { unfold is_local. rewrite HW, Z.mod_1_r. pose proof (cfg_rank _ Hc). apply Z.eqb_eq. lia. }
  split; [done|]. pose proof (local_offset_place pos Hl) as Hp. pose proof (cfg_rank _ Hc) as Hr. pose proof (cfg_interleave _ Hc) as HI.
  unfold virtual_block_size in Hp. rewrite HW, Z.mul_1_r in Hp. rewrite Hp.
  rewrite (Z.div_mod (local_block_offset c pos) (cp_kv_cache_interleave_size c)) at 1 by lia. lia.
Qed.

(** The slot of a token of a request with these blocks. *)
Definition token_slot (block_ids : list Z) pos : option Z :=
  id ← block_ids !! Z.to_nat (pos / virtual_block_size c);
  Some (if is_local c pos then id * kv_cache_block_size c + local_block_offset c pos else PAD_SLOT_ID).

End Local.

(** ** The whole launch *)

(** What the launch is given: a committed table with the block lists [m], the
    tokens of request [i] between [query_start_loc[i]] and the next entry, each
    within the blocks of its request. *)
Record launch_ok (c : TableConfig) (num_reqs : nat) (query_start_loc : list nat) (positions : list Z) (t : BlockTable)
    (m : list (list Z)) : Prop := {
  launch_holds : holds c t m;
  launch_mode : slot_mapping_mode c = TOKEN_TO_KV_SLOT;
  launch_gpu : ∀ i ids, (i < num_reqs)%nat → m !! i = Some ids →
    tb_gpu t !! i = Some (padded (max_num_blocks_per_row c) (kernel_ids c ids));
  launch_rows : ∀ row, row ∈ tb_gpu t → length row = max_num_blocks_per_row c;
  launch_slots : length (slot_mapping t) = max_num_batched_tokens c;
  launch_start : query_start_loc !! 0%nat = Some 0%nat;
  launch_stop : query_start_loc !! num_reqs = Some (length positions);
  launch_room : (length positions ≤ max_num_batched_tokens c)%nat;
  launch_tokens : ∀ i, (i < num_reqs)%nat → ∃ lo hi ids, query_start_loc !! i = Some lo ∧ query_start_loc !! S i = Some hi ∧
    m !! i = Some ids ∧ (lo ≤ hi ≤ length positions)%nat ∧
    ∀ o pos, (lo ≤ o < hi)%nat → positions !! o = Some pos → 0 ≤ pos < Z.of_nat (length ids) * virtual_block_size c;
}.

Section Launch.
Context (c : TableConfig) (Hc : config_ok c).
Implicit Types (t : BlockTable) (m : list (list Z)).

Lemma slot_of_flat (table : list (list Z)) (i : nat) ids pos s :
  (∀ row, row ∈ table → length row = max_num_blocks_per_row c) → table !! i = Some (padded (max_num_blocks_per_row c) (kernel_ids c ids)) →
  row_fits c ids → 0 ≤ pos → token_slot c ids pos = Some s → slot_of c table i pos = Ok s.
Proof.
  intros Hw Hi Hrow Hpos Hs. unfold slot_of. unfold token_slot in Hs. apply bind_Some in Hs as (id & Hid & [= <-]).
  destruct (is_local c pos) eqn:Hl; [|done]. pose proof (local_offset_bounds c Hc pos) as Hb. pose proof (config_positive c Hc) as (_ & _ & HV).
  pose proof (cfg_size _ Hc) as Hsz. pose proof (cfg_per _ Hc) as Hper. pose proof (cfg_split _ Hc) as Hsp.
  rewrite Hsp in Hb. set (lo := local_block_offset c pos) in *. rewrite Hsp.
  assert (Hr : 0 ≤ lo / tb_block_size c < blocks_per_kv_block c) by (split; [apply Z.div_pos|apply Z.div_lt_upper_bound]; lia).
  assert (Hq : 0 ≤ pos / virtual_block_size c) by (apply Z.div_pos; lia).
  pose proof (kernel_ids_lookup c ids _ _ _ Hid Hr) as Hk. pose proof (lookup_lt_Some _ _ _ Hk) as Hlt. rewrite kernel_ids_length in Hlt.
  unfold row_fits in Hrow. rewrite py_get_nonneg by nia.
  replace (Z.to_nat (Z.of_nat (i * max_num_blocks_per_row c) + (pos / virtual_block_size c * blocks_per_kv_block c + lo / tb_block_size c)))
    with (i * max_num_blocks_per_row c + (Z.to_nat (pos / virtual_block_size c) * Z.to_nat (blocks_per_kv_block c) + Z.to_nat (lo / tb_block_size c)))%nat
    by (rewrite <-Z2Nat.inj_mul, <-Z2Nat.inj_add by nia; lia).
  rewrite (concat_lookup _ (max_num_blocks_per_row c) i _ _ Hw Hi) by lia.
  unfold padded. rewrite lookup_app_l, Hk by (rewrite kernel_ids_length; lia). simpl. f_equal.
  pose proof (Z.div_mod lo (tb_block_size c) ltac:(lia)). lia.
Qed.

Lemma token_slot_in (ids : list Z) pos : 0 ≤ pos < Z.of_nat (length ids) * virtual_block_size c → is_Some (token_slot c ids pos).
Proof.
  intros Hp. pose proof (config_positive c Hc) as (_ & _ & HV). unfold token_slot.
  destruct (lookup_lt_is_Some_2 ids (Z.to_nat (pos / virtual_block_size c))) as [id Hid].
  { assert (pos / virtual_block_size c < Z.of_nat (length ids)) by (apply Z.div_lt_upper_bound; lia).
    assert (0 ≤ pos / virtual_block_size c) by (apply Z.div_pos; lia). lia. }
  rewrite Hid. by eexists.
Qed.

(** One program stores the slots of its request and nothing else. *)
Lemma store_lanes (table : list (list Z)) (i : nat) ids positions n : ∀ lo slots,
  (∀ row, row ∈ table → length row = max_num_blocks_per_row c) → table !! i = Some (padded (max_num_blocks_per_row c) (kernel_ids c ids)) →
  row_fits c ids → (lo + n ≤ length positions)%nat → (lo + n ≤ length slots)%nat →
  (∀ o pos, (lo ≤ o < lo + n)%nat → positions !! o = Some pos → 0 ≤ pos < Z.of_nat (length ids) * virtual_block_size c) →
  runs (foldM (store_lane c table i positions) slots (seq lo n)) (λ slots', length slots' = length slots ∧
    ∀ o, slots' !! o = if decide (lo ≤ o < lo + n)%nat then (positions !! o ≫= token_slot c ids) else slots !! o).
Proof.
  induction n as [|n IH]; intros lo slots Hw Hi Hrow Hp Hs Hin; simpl.
  { split; [done|]. intros o. rewrite decide_False by lia. done. }
  destruct (lookup_lt_is_Some_2 positions lo ltac:(lia)) as [pos Hpos].
  pose proof (Hin lo pos ltac:(lia) Hpos) as Hr. destruct (token_slot_in ids pos Hr) as [s Hts].
  assert (Hstep : store_lane c table i positions slots lo = Ok (<[lo := s]> slots)).
  { unfold store_lane. rewrite (np_get_Some _ _ _ Hpos). simpl. rewrite (slot_of_flat table i ids pos s) by (done || lia). simpl. by apply np_set_ok; lia. }
  rewrite Hstep. simpl.
  eapply runs_mono; [apply (IH (S lo) (<[lo := s]> slots)); [done|done|done|lia|rewrite length_insert; lia|]|].
  { intros o p Ho. apply Hin. lia. }
  intros slots' [Hl Hv]. rewrite length_insert in Hl. split; [done|]. intros o. rewrite Hv. destruct (decide (o = lo)) as [->|Hne].
  - rewrite decide_False, decide_True by lia. rewrite list_lookup_insert_eq by lia. by rewrite Hpos.
  - rewrite list_lookup_insert_ne by done. repeat case_decide; (done || lia).
Qed.

(** The programs of the requests so far. *)
Lemma slot_programs BLOCK_SIZE num_reqs query_start_loc positions t m k : (0 < BLOCK_SIZE)%nat → (k ≤ num_reqs)%nat →
  launch_ok c num_reqs query_start_loc positions t m →
  runs (foldM (slot_program c (tb_gpu t) BLOCK_SIZE num_reqs query_start_loc positions) (slot_mapping t) (seq 0 k)) (λ slots,
    length slots = max_num_batched_tokens c ∧
    ∀ i lo hi ids o pos, (i < k)%nat → query_start_loc !! i = Some lo → query_start_loc !! S i = Some hi → m !! i = Some ids →
      (lo ≤ o < hi)%nat → positions !! o = Some pos → slots !! o = token_slot c ids pos).
Proof.
  intros HB Hk [Ht Hm Hg Hw Hsl H0 Hstop Hroom Htok]. revert Hk. induction k as [|k IH]; intros Hk.
  { simpl. split; [done|]. intros. lia. }
  rewrite seq_S, foldM_app. eapply runs_bind; [apply IH; lia|]. intros slots [Hlen Hv]. simpl. unfold slot_program. rewrite decide_False by lia.
  destruct (Htok k ltac:(lia)) as (lo & hi & ids & Hlo & Hhi & Hids & Hle & Hpos).
  rewrite (np_get_Some _ _ _ Hlo), (np_get_Some _ _ _ Hhi). simpl. rewrite lanes_all by lia.
  eapply runs_bind; [apply (store_lanes (tb_gpu t) k ids positions (hi - lo) lo slots); [done|by apply Hg| | |lia|]|].
  { exact (Forall_lookup_1 _ _ _ _ (holds_fit _ _ _ Ht) Hids). }
  { lia. }
  { intros o p Ho. apply Hpos. lia. }
  intros slots' [Hl' Hv']. split; [lia|]. intros i lo' hi' ids' o pos Hi Hlo' Hhi' Hids' Ho Hp. rewrite Hv'. case_decide as Hd.
  - assert (i = k ∨ i < k)%nat as [->|Hik] by lia; [simplify_eq; by rewrite Hp|]. exfalso.
    assert (hi' ≤ lo)%nat; [|lia]. clear -Hik Hhi' Hlo Htok Hk.
    assert (∀ j a b, (S i + j ≤ k)%nat → query_start_loc !! S i = Some a → query_start_loc !! (S i + j)%nat = Some b → (a ≤ b)%nat) as Hmono.
    { induction j as [|j IHj]; intros a b Hj Ha Hb; [rewrite Nat.add_0_r in Hb; simplify_eq; lia|].
      destruct (Htok (S i + j)%nat ltac:(lia)) as (x & y & ? & Hx & Hy & _ & Hxy & _). rewrite <-Nat.add_succ_r, Hb in Hy. injection Hy as <-.
      specialize (IHj a x ltac:(lia) Ha Hx). lia. }
    apply (Hmono (k - S i)%nat); [lia|done|]. by replace (S i + (k - S i))%nat with k by lia.
  - assert (i ≠ k) as Hne by (intros ->; rewrite Hlo in Hlo'; rewrite Hhi in Hhi'; injection Hlo' as <-; injection Hhi' as <-; lia). apply (Hv i lo' hi'); (done || lia).
Qed.

Lemma store_pads n lo (slots : list Z) : (lo + n ≤ length slots)%nat →
  length (foldl (λ slots o, <[o := PAD_SLOT_ID]> slots) slots (seq lo n)) = length slots ∧
  ∀ o, foldl (λ slots o, <[o := PAD_SLOT_ID]> slots) slots (seq lo n) !! o
       = if decide (lo ≤ o < lo + n)%nat then Some PAD_SLOT_ID else slots !! o.
Proof.
  revert lo slots. induction n as [|n IH]; intros lo slots Hn; simpl.
  { split; [done|]. intros o. by rewrite decide_False by lia. }
  destruct (IH (S lo) (<[lo := PAD_SLOT_ID]> slots)) as [Hl Hv]; [rewrite length_insert; lia|]. rewrite length_insert in Hl.
  split; [done|]. intros o. rewrite Hv. destruct (decide (o = lo)) as [->|Hne].
  - rewrite decide_False, decide_True by lia. rewrite list_lookup_insert_eq by lia. done.
  - rewrite list_lookup_insert_ne by done. repeat case_decide; (done || lia).
Qed.

(** After a launch every token has the slot that its block gives, and the slots
    behind the last token are padding. *)
Lemma launch_result BLOCK_SIZE num_reqs query_start_loc positions t m : (0 < BLOCK_SIZE)%nat →
  launch_ok c num_reqs query_start_loc positions t m →
  ∃ t', compute_slot_mapping BLOCK_SIZE num_reqs query_start_loc positions t = Ok t' ∧ holds c t' m ∧
    (∀ i lo hi ids o pos, (i < num_reqs)%nat → query_start_loc !! i = Some lo → query_start_loc !! S i = Some hi → m !! i = Some ids →
       (lo ≤ o < hi)%nat → positions !! o = Some pos → ∃ s, slot_mapping t' !! o = Some s ∧ token_slot c ids pos = Some s) ∧
    ∀ o, (length positions ≤ o < max_num_batched_tokens c)%nat → slot_mapping t' !! o = Some PAD_SLOT_ID.
Proof.
  intros HB Hl. pose proof Hl as [Ht Hm Hg Hw Hsl H0 Hstop Hroom Htok]. unfold compute_slot_mapping. rewrite (holds_config _ _ _ Ht), Hm.
  rewrite seq_S, foldM_app. pose proof (slot_programs BLOCK_SIZE num_reqs query_start_loc positions t m num_reqs HB ltac:(lia) Hl) as Hp.
  apply runs_Ok in Hp as (slots & -> & Hlen & Hv). simpl. unfold slot_program. rewrite decide_True by done. simpl. rewrite lanes_all by lia.
  destruct (store_pads (max_num_batched_tokens c - length positions) (length positions) slots ltac:(lia)) as [Hl' Hv'].
  eexists. split; [done|]. split; [by destruct Ht; split|]. split; simpl.
  - intros i lo hi ids o pos Hi Hlo Hhi Hids Ho Hp. destruct (Htok i Hi) as (lo2 & hi2 & ids2 & ? & ? & ? & Hle & Hin). simplify_eq.
    destruct (token_slot_in ids pos) as [s Hs]; [by eapply Hin|]. exists s. split; [|done]. rewrite Hv', decide_False by lia.
    rewrite <-Hs. by eapply Hv.
  - intros o Ho. rewrite Hv', decide_True by lia. done.
Qed.
End Launch.

(** Committing the rows of the batch makes them visible to the kernel. *)
Lemma commit_visible c t m num_reqs i ids : holds c t m → (i < num_reqs)%nat → m !! i = Some ids →
  tb_gpu (commit_block_table num_reqs t) !! i = Some (padded (max_num_blocks_per_row c) (kernel_ids c ids)).
Proof.
  intros Ht Hi Hids. destruct (holds_row _ _ _ _ _ Ht Hids) as (Hr & _ & _). unfold commit_block_table. simpl.
  rewrite lookup_app_l; [by rewrite lookup_take_lt|]. rewrite length_take. pose proof (lookup_lt_Some _ _ _ Hr). lia.
Qed.


(** C0: Two tokens that this rank keeps share a slot only if they are the same place
    of the same block. *)
Theorem slots_separate c BLOCK_SIZE num_reqs query_start_loc positions t m t' :
  config_ok c → (0 < BLOCK_SIZE)%nat → launch_ok c num_reqs query_start_loc positions t m →
  compute_slot_mapping BLOCK_SIZE num_reqs query_start_loc positions t = Ok t' →
  ∀ i1 lo1 hi1 ids1 o1 pos1 i2 lo2 hi2 ids2 o2 pos2,
    (i1 < num_reqs)%nat → query_start_loc !! i1 = Some lo1 → query_start_loc !! S i1 = Some hi1 → m !! i1 = Some ids1 →
    (lo1 ≤ o1 < hi1)%nat → positions !! o1 = Some pos1 → is_local c pos1 = true →
    (i2 < num_reqs)%nat → query_start_loc !! i2 = Some lo2 → query_start_loc !! S i2 = Some hi2 → m !! i2 = Some ids2 →
    (lo2 ≤ o2 < hi2)%nat → positions !! o2 = Some pos2 → is_local c pos2 = true →
    slot_mapping t' !! o1 = slot_mapping t' !! o2 ↔
    ids1 !! Z.to_nat (pos1 / virtual_block_size c) = ids2 !! Z.to_nat (pos2 / virtual_block_size c) ∧
    pos1 mod virtual_block_size c = pos2 mod virtual_block_size c.
Proof.
  intros Hc HB Hl Hrun. destruct (launch_result c Hc BLOCK_SIZE num_reqs query_start_loc positions t m HB Hl) as (t2 & Hrun2 & _ & Hv & _).
  rewrite Hrun in Hrun2. injection Hrun2 as <-. intros i1 lo1 hi1 ids1 o1 pos1 i2 lo2 hi2 ids2 o2 pos2 Hi1 Hlo1 Hhi1 Hids1 Ho1 Hp1 Hloc1 Hi2 Hlo2 Hhi2 Hids2 Ho2 Hp2 Hloc2.
  destruct (Hv i1 lo1 hi1 ids1 o1 pos1 Hi1 Hlo1 Hhi1 Hids1 Ho1 Hp1) as (s1 & Hs1 & Ht1). destruct (Hv i2 lo2 hi2 ids2 o2 pos2 Hi2 Hlo2 Hhi2 Hids2 Ho2 Hp2) as (s2 & Hs2 & Ht2).
  unfold token_slot in Ht1, Ht2. apply bind_Some in Ht1 as (id1 & Hid1 & Ht1). apply bind_Some in Ht2 as (id2 & Hid2 & Ht2).
  rewrite Hloc1 in Ht1. rewrite Hloc2 in Ht2. simplify_eq. rewrite Hs1, Hs2, Hid1, Hid2, <-(local_offset_inj c Hc pos1 pos2 Hloc1 Hloc2).
  pose proof (local_offset_bounds c Hc pos1) as Hb1. pose proof (local_offset_bounds c Hc pos2) as Hb2. split.
  - intros [= He]. assert (id1 = id2) as -> by nia. split; [done|lia].
  - intros [[= ->] ->]. done.
Qed.

(** ** A launch *)

Module LaunchDemo.

(** Blocks of four tokens on two ranks, split into kernel blocks of two; two
    requests, three and two tokens. *)
Definition demo_table : result BlockTable :=
  t ← BlockTable_init 4 3 2 8 2 (2, 1) 2 TOKEN_TO_KV_SLOT;
  t ← add_row [3] 0 t;
  t ← append_row [5] 0 t;
  t ← add_row [4] 1 t;
  Ok (commit_block_table 2 t).

Definition demo_config : TableConfig := mkTableConfig 4 2 2 true 4 8 2 1 2 TOKEN_TO_KV_SLOT.
Definition demo_launch : BlockTable :=
  mkBlockTable demo_config [[6; 7; 10; 11]; [8; 9; 0; 0]; [0; 0; 0; 0]] [[6; 7; 10; 11]; [8; 9; 0; 0]; [0; 0; 0; 0]]
    [4; 2; 0]%nat (replicate 8 0).

Example demo_built : demo_table = Ok demo_launch.
Proof. reflexivity. Qed.

Lemma demo_table_config_ok : config_ok demo_config.
Proof. by split. Defined.

Lemma demo_launch_ok : launch_ok demo_config 2 [0; 3; 5]%nat [6; 7; 10; 2; 3] demo_launch [[3; 5]; [4]; []].
Proof.
  split; try done; try (simpl; lia).
  - split; [reflexivity..|]. repeat constructor; unfold row_fits; simpl; lia.
  - intros [|[|i]] ids Hi Hids; simplify_eq/=; [done|done|lia].
  - intros row. cbn [tb_gpu demo_launch]. rewrite !elem_of_cons, elem_of_nil. by intros [->|[->|[->|[]]]].
  - intros [|[|i]] Hi; [exists 0%nat, 3%nat, [3; 5]|exists 3%nat, 5%nat, [4]|lia]; split_and!; try (done || (simpl; lia)).
    + intros o pos Ho. destruct o as [|[|[|o]]]; simpl; [intros [= <-]; unfold virtual_block_size; simpl; lia..|lia].
    + intros o pos Ho. destruct o as [|[|[|[|[|o]]]]]; simpl; [lia..|intros [= <-]; unfold virtual_block_size; simpl; lia|intros [= <-]; unfold virtual_block_size; simpl; lia|lia].
Defined.

Example demo_slots :
  (t ← compute_slot_mapping 2 2 [0; 3; 5]%nat [6; 7; 10; 2; 3] demo_launch; Ok (slot_mapping t)) = Ok [14; 15; 20; 16; 17; -1; -1; -1].
Proof. reflexivity. Qed.
End LaunchDemo.



Lemma slots_separate_witness : ∀ t',
  compute_slot_mapping 2 2 [0; 3; 5]%nat [6; 7; 10; 2; 3] LaunchDemo.demo_launch = Ok t' →
  slot_mapping t' !! 0%nat = slot_mapping t' !! 3%nat ↔ [3; 5] !! 0%nat = [4] !! 0%nat ∧ 6 mod 8 = 2 mod 8.
Proof.
  intros t' H.
  apply (slots_separate LaunchDemo.demo_config 2 2 [0; 3; 5]%nat [6; 7; 10; 2; 3] LaunchDemo.demo_launch [[3; 5]; [4]; []] t'
    LaunchDemo.demo_table_config_ok ltac:(lia) LaunchDemo.demo_launch_ok H 0%nat 0%nat 3%nat [3; 5] 0%nat 6 1%nat 3%nat 5%nat [4] 3%nat 2);
    (reflexivity || lia).
Defined.
