(* ===== verification/InputBatch.v ===== *)
(** * The persistent batch of a worker

    [v1/worker/gpu_input_batch.py] and [v1/sample/logits_processor/state.py].  A
    worker keeps the requests of a step in the places of a batch: parallel arrays
    of [max_num_reqs] entries, of which the first [num_reqs] are in use between
    steps.  The arrays are grouped by what they are for; an operation does the
    same with each array as the code does.

    A list that several objects share, the output tokens of a request, is known by
    its reference ([output_ref]); the lists are in a store of the model runner.
    Numbers that are floats in the code are rationals, and [f32] is the rounding
    of a store into an array of 32-bit floats.  Tensors on the device and the
    holder of thinking budgets are left out. *)

From S2P Require Import Prelude NumPy BlockTable.
From Stdlib Require Import QArith.
Local Open Scope nat_scope.

(** ** Requests as the model runner caches them *)

(** The fields of [SamplingParams] that a batch looks at. *)
Record BatchParams : Type := mkBatchParams {
  temperature : Q;
  seed : option Z;
  top_p : Q;
  top_k : Z;
  frequency_penalty : Q;
  presence_penalty : Q;
  repetition_penalty : Q;
  logprobs : option Z;
  prompt_logprobs : option Z;
  logprob_token_ids : option (list Z);
  allowed_token_ids : option (list nat);
  bad_words_token_ids : option (list (list Z));
  min_p : Q;
  min_tokens : Z;
  all_stop_token_ids : list Z;
}.

Inductive SamplingType : Type := GREEDY | RANDOM | RANDOM_SEED.
#[export] Instance sampling_type_eq_dec : EqDecision SamplingType.
Proof. solve_decision. Defined.

Definition Qlt_bool (x y : Q) : bool := negb (Qle_bool y x).

(** [SamplingParams.sampling_type]; [_SAMPLING_EPS] is [1e-5]. *)
Definition sampling_type (p : BatchParams) : SamplingType :=
  if Qlt_bool (temperature p) (1 # 100000) then GREEDY
  else match seed p with Some _ => RANDOM_SEED | None => RANDOM end.

(** A tensor of prompt embeddings: its identity and its number of rows. *)
Record Embeds : Type := mkEmbeds { embeds_id : Z; embeds_len : nat }.
Record Adapter : Type := mkAdapter { lora_int_id : Z; lora_path : string }.

Definition output_ref := nat.

(** [CachedRequestState]; of the pooling parameters and of the generator only the
    identity matters here. *)
Record CachedRequestState : Type := mkCachedRequestState {
  cr_req_id : string;
  cr_prompt_token_ids : option (list Z);
  cr_sampling_params : option BatchParams;
  cr_generator : option Z;
  cr_block_ids : list (list Z);
  cr_num_computed_tokens : nat;
  cr_output_token_ids : output_ref;
  cr_lora_request : option Adapter;
  cr_prompt_embeds : option Embeds;
  cr_prompt_is_token_ids : option (list bool);
  cr_prev_num_draft_len : nat;
  cr_pooling_params : option Z;
  cr_num_prompt_tokens : nat;
}.

(** [length_from_prompt_token_ids_or_embeds] *)
Definition length_from_prompt_token_ids_or_embeds (prompt_token_ids : option (list Z)) (prompt_embeds : option Embeds) : result nat :=
  match prompt_token_ids, prompt_embeds with
  | None, None => Err ValueError
  | None, Some e => Ok (embeds_len e)
  | Some ids, None => Ok (length ids)
  | Some ids, Some e => if decide (embeds_len e = length ids) then Ok (length ids) else Err ValueError
  end.

(** ** Changes of a step *)

Inductive MoveDirectionality : Type := UNIDIRECTIONAL | SWAP.
#[export] Instance move_directionality_eq_dec : EqDecision MoveDirectionality.
Proof. solve_decision. Defined.

Record AddedRequest : Type := mkAdded {
  added_index : nat;
  added_params : BatchParams;
  added_prompt_tok_ids : option (list Z);
  added_output_tok_ids : output_ref;
}.
Definition MovedRequest : Type := nat * nat * MoveDirectionality.

Record BatchUpdate : Type := mkBatchUpdate {
  batch_size : nat;
  bu_removed : list nat;
  bu_added : list AddedRequest;
  bu_moved : list MovedRequest;
}.

Record BatchUpdateBuilder : Type := mkBuilder {
  removed_list : list nat;
  is_removed_sorted : bool;
  added : list AddedRequest;
  moved : list MovedRequest;
  batch_changed : bool;
}.

Definition empty_builder : BatchUpdateBuilder := mkBuilder [] false [] [] false.

(** [list.sort(reverse=True)] *)
Fixpoint insert_desc (x : nat) (l : list nat) : list nat :=
  match l with [] => [x] | y :: l' => if decide (y ≤ x) then x :: l else y :: insert_desc x l' end.
Definition sort_desc (l : list nat) : list nat := foldr insert_desc [] l.

(** [_ensure_removed_sorted] *)
Definition ensure_removed_sorted (u : BatchUpdateBuilder) : BatchUpdateBuilder :=
  if is_removed_sorted u then u else mkBuilder (sort_desc (removed_list u)) true (added u) (moved u) (batch_changed u).

(** The property [removed]. *)
Definition removed (u : BatchUpdateBuilder) : list nat * BatchUpdateBuilder :=
  let u := ensure_removed_sorted u in (removed_list u, u).

Definition removed_append (index : nat) (u : BatchUpdateBuilder) : result BatchUpdateBuilder :=
  if is_removed_sorted u then Err RuntimeError
  else Ok (mkBuilder (removed_list u ++ [index]) false (added u) (moved u) true).

Definition peek_removed (u : BatchUpdateBuilder) : option nat * BatchUpdateBuilder :=
  match removed_list u with
  | [] => (None, u)
  | _ => let u := ensure_removed_sorted u in (last (removed_list u), u)
  end.

Definition pop_removed (u : BatchUpdateBuilder) : option nat * BatchUpdateBuilder :=
  match removed_list u with
  | [] => (None, u)
  | _ => let u := ensure_removed_sorted u in
         (last (removed_list u), mkBuilder (removelast (removed_list u)) (is_removed_sorted u) (added u) (moved u) (batch_changed u))
  end.

(** [reset] *)
Definition builder_reset (u : BatchUpdateBuilder) : bool * BatchUpdateBuilder := (batch_changed u, empty_builder).

Definition get_and_reset (size : nat) (u : BatchUpdateBuilder) : option BatchUpdate * BatchUpdateBuilder :=
  match removed_list u, moved u, added u with
  | [], [], [] => (None, mkBuilder [] false [] [] false)
  | _, _, _ => (Some (mkBatchUpdate size (removed_list u) (added u) (moved u)), empty_builder)
  end.

Definition push_added (a : option AddedRequest) (u : BatchUpdateBuilder) : BatchUpdateBuilder :=
  mkBuilder (removed_list u) (is_removed_sorted u) (added u ++ option_list a) (moved u) true.
Definition push_moved (m : MovedRequest) (u : BatchUpdateBuilder) : BatchUpdateBuilder :=
  mkBuilder (removed_list u) (is_removed_sorted u) (added u) (moved u ++ [m]) (batch_changed u).

(** ** The arrays *)

(** Tokens and counts. *)
Record TokenCols : Type := mkTokenCols {
  token_ids_cpu : list (list Z);
  is_token_ids : list (list bool);
  req_prompt_embeds : gmap nat Embeds;
  num_tokens_no_spec : list nat;
  num_prompt_tokens : list nat;
  num_computed_tokens_cpu : list nat;
  replayssm_decode_base : list nat;
  spec_token_ids : list (list Z);
}.

(** What sampling needs of each place. *)
Record SamplingCols : Type := mkSamplingCols {
  temperature_cpu : list Q;
  top_p_cpu : list Q;
  top_k_cpu : list Z;
  frequency_penalties_cpu : list Q;
  presence_penalties_cpu : list Q;
  repetition_penalties_cpu : list Q;
  num_accepted_tokens_cpu : list Z;
  generators : gmap nat Z;
  bad_words : gmap nat (list (list Z));
  allowed_token_ids_mask : option (list (list bool));
}.

(** What the batch knows by request id. *)
Record RequestSets : Type := mkRequestSets {
  greedy_reqs : gset string;
  random_reqs : gset string;
  top_p_reqs : gset string;
  top_k_reqs : gset string;
  frequency_penalties_reqs : gset string;
  presence_penalties_reqs : gset string;
  repetition_penalties_reqs : gset string;
  num_logprobs : gmap string Z;
  logprob_tokens : gmap string (list Z);
  has_allowed_token_ids : gset string;
  pooling_params_of : gmap string Z;
}.

Record LoraState : Type := mkLoraState {
  request_lora_mapping : list Z;
  lora_id_to_request_ids : gmap Z (gset string);
  lora_id_to_lora_request : gmap Z Adapter;
}.

Record BatchConfig : Type := mkBatchConfig {
  max_num_reqs : nat;
  max_model_len : nat;
  vocab_size : Z;
  is_pooling_model : bool;
  use_replayssm : bool;
}.

(** [InputBatch] *)
Record InputBatch : Type := mkInputBatch {
  ib_config : BatchConfig;
  ib_req_ids : list (option string);
  ib_req_id_to_index : gmap string nat;
  ib_req_output_token_ids : list (option output_ref);
  ib_tokens : TokenCols;
  ib_block_table : list BlockTable;
  ib_sampling : SamplingCols;
  ib_sets : RequestSets;
  ib_lora : LoraState;
  ib_builder : BatchUpdateBuilder;
  ib_prev_req_id_to_index : option (gmap string nat);
}.

Definition num_reqs (b : InputBatch) : nat := size (ib_req_id_to_index b).

Definition set_builder (u : BatchUpdateBuilder) (b : InputBatch) : InputBatch :=
  mkInputBatch (ib_config b) (ib_req_ids b) (ib_req_id_to_index b) (ib_req_output_token_ids b) (ib_tokens b) (ib_block_table b)
    (ib_sampling b) (ib_sets b) (ib_lora b) u (ib_prev_req_id_to_index b).
Definition set_tokens (t : TokenCols) (b : InputBatch) : InputBatch :=
  mkInputBatch (ib_config b) (ib_req_ids b) (ib_req_id_to_index b) (ib_req_output_token_ids b) t (ib_block_table b)
    (ib_sampling b) (ib_sets b) (ib_lora b) (ib_builder b) (ib_prev_req_id_to_index b).
Definition set_block_table (t : list BlockTable) (b : InputBatch) : InputBatch :=
  mkInputBatch (ib_config b) (ib_req_ids b) (ib_req_id_to_index b) (ib_req_output_token_ids b) (ib_tokens b) t
    (ib_sampling b) (ib_sets b) (ib_lora b) (ib_builder b) (ib_prev_req_id_to_index b).

(** [InputBatch.__init__], the allocations; [torch.zeros] and [torch.ones], and
    what [torch.empty] leaves is zero here. *)
Definition InputBatch_init (c : BatchConfig) (tables : list BlockTable) : InputBatch :=
  let n := max_num_reqs c in
  mkInputBatch c [] ∅ []
    (mkTokenCols (replicate n (replicate (max_model_len c) 0%Z)) (replicate n (replicate (max_model_len c) false)) ∅
       (replicate n 0) (replicate n 0) (replicate n 0) (replicate n 0) (replicate n []))
    tables
    (mkSamplingCols (replicate n 0%Q) (replicate n 0%Q) (replicate n 0%Z) (replicate n 0%Q) (replicate n 0%Q) (replicate n 0%Q)
       (replicate n 1%Z) ∅ ∅ None)
    (mkRequestSets ∅ ∅ ∅ ∅ ∅ ∅ ∅ ∅ ∅ ∅ ∅)
    (mkLoraState (replicate n 0%Z) ∅ ∅) empty_builder None.

(** ** Adding *)

Section Operations.
Context (f32 : Q → Q).
Implicit Types (b : InputBatch) (r : CachedRequestState) (outs : gmap output_ref (list Z)).

Definition set_row {A} (i : nat) (f : A → result A) (l : list A) : result (list A) := x ← np_get l i; x ← f x; np_set i x l.

(** [_register_add_request] *)
Definition _register_add_request r b : result (nat * InputBatch) :=
  let '(popped, u) := pop_removed (ib_builder b) in
  let new_req_index := default (num_reqs b) popped in
  _ ← py_assert (bool_decide (new_req_index < max_num_reqs (ib_config b)));
  let entry := p ← cr_sampling_params r; Some (mkAdded new_req_index p (cr_prompt_token_ids r) (cr_output_token_ids r)) in
  Ok (new_req_index, set_builder (push_added entry u) b).

(** The tokens of [add_request]: a new place is appended to the lists or an old
    one is taken over; the prompt, then the output. *)
Definition put_tokens (c : BatchConfig) (append : bool) (req_index : nat) r (output : list Z) (t : TokenCols) : result TokenCols :=
  spec ← (if append then Ok (spec_token_ids t ++ [[]]) else np_set req_index [] (spec_token_ids t));
  num_prompt_tokens' ← length_from_prompt_token_ids_or_embeds (cr_prompt_token_ids r) (cr_prompt_embeds r);
  nums ← np_set req_index num_prompt_tokens' (num_prompt_tokens t);
  let start_idx := num_prompt_tokens' in
  let end_idx := start_idx + length output in
  tokens ← match cr_prompt_token_ids r with
    | Some ids => set_row req_index (np_assign 0 num_prompt_tokens' ids) (token_ids_cpu t)
    | None => Ok (token_ids_cpu t)
    end;
  is_tokens ← match cr_prompt_token_ids r, cr_prompt_is_token_ids r with
    | Some _, Some flags => set_row req_index (np_assign 0 num_prompt_tokens' flags) (is_token_ids t)
    | Some _, None => set_row req_index (λ row, Ok (np_fill 0 num_prompt_tokens' true row)) (is_token_ids t)
    | None, _ => set_row req_index (λ row, Ok (np_fill 0 num_prompt_tokens' false row)) (is_token_ids t)
    end;
  let embeds := match cr_prompt_embeds r with Some e => <[req_index := e]> (req_prompt_embeds t) | None => req_prompt_embeds t end in
  tokens ← set_row req_index (np_assign start_idx end_idx output) tokens;
  is_tokens ← set_row req_index (λ row, Ok (np_fill start_idx end_idx true row)) is_tokens;
  let num_tokens := cr_num_prompt_tokens r + length output in
  no_spec ← np_set req_index num_tokens (num_tokens_no_spec t);
  base ← (if use_replayssm c then np_set req_index num_tokens (replayssm_decode_base t) else Ok (replayssm_decode_base t));
  computed ← np_set req_index (cr_num_computed_tokens r) (num_computed_tokens_cpu t);
  Ok (mkTokenCols tokens is_tokens embeds no_spec nums computed base spec).

(** The row of the mask of a request with allowed tokens: [row[...] = True], then
    [row[allowed] = False]. *)
Fixpoint clear_bits (ids : list nat) (row : list bool) : result (list bool) :=
  match ids with [] => Ok row | i :: ids => row ← np_set i false row; clear_bits ids row end.

Definition truthy {A} (l : option (list A)) : option (list A) := match l with Some [] | None => None | Some l => Some l end.

(** The arrays of the sampling parameters. *)
Definition put_sampling (c : BatchConfig) (req_index : nat) r (p : BatchParams) (s : SamplingCols) : result SamplingCols :=
  let top_k' := if (0 <? top_k p)%Z && (top_k p <? vocab_size c)%Z then top_k p else vocab_size c in
  mask ← match truthy (allowed_token_ids p) with
    | Some ids =>
        let mask := default (replicate (max_num_reqs c) (replicate (Z.to_nat (vocab_size c)) false)) (allowed_token_ids_mask s) in
        mask ← set_row req_index (λ row, clear_bits ids (map (λ _, true) row)) mask;
        Ok (Some mask)
    | None => Ok (allowed_token_ids_mask s)
    end;
  Ok (mkSamplingCols
    (<[req_index := if decide (sampling_type p = GREEDY) then 0%Q else f32 (temperature p)]> (temperature_cpu s))
    (<[req_index := f32 (top_p p)]> (top_p_cpu s)) (<[req_index := top_k']> (top_k_cpu s))
    (<[req_index := f32 (frequency_penalty p)]> (frequency_penalties_cpu s)) (<[req_index := f32 (presence_penalty p)]> (presence_penalties_cpu s))
    (<[req_index := f32 (repetition_penalty p)]> (repetition_penalties_cpu s))
    (num_accepted_tokens_cpu s)
    (match cr_generator r with Some g => <[req_index := g]> (generators s) | None => generators s end)
    (match truthy (bad_words_token_ids p) with Some w => <[req_index := w]> (bad_words s) | None => bad_words s end)
    mask).

Definition set_accepted (req_index : nat) (s : SamplingCols) : SamplingCols :=
  mkSamplingCols (temperature_cpu s) (top_p_cpu s) (top_k_cpu s) (frequency_penalties_cpu s) (presence_penalties_cpu s)
    (repetition_penalties_cpu s) (<[req_index := 1%Z]> (num_accepted_tokens_cpu s)) (generators s) (bad_words s) (allowed_token_ids_mask s).

Definition add_if (t : bool) (x : string) (X : gset string) : gset string := if t then {[x]} ∪ X else X.

(** The sets and dictionaries of [add_request]. *)
Definition put_sets (c : BatchConfig) (p : BatchParams) (req_id : string) (s : RequestSets) : RequestSets :=
  let greedy := bool_decide (sampling_type p = GREEDY) in
  mkRequestSets (add_if greedy req_id (greedy_reqs s)) (add_if (negb greedy) req_id (random_reqs s))
    (add_if (Qlt_bool (top_p p) 1) req_id (top_p_reqs s))
    (add_if ((0 <? top_k p)%Z && (top_k p <? vocab_size c)%Z) req_id (top_k_reqs s))
    (add_if (negb (Qeq_bool (frequency_penalty p) 0)) req_id (frequency_penalties_reqs s))
    (add_if (negb (Qeq_bool (presence_penalty p) 0)) req_id (presence_penalties_reqs s))
    (add_if (negb (Qeq_bool (repetition_penalty p) 1)) req_id (repetition_penalties_reqs s))
    (match logprobs p with Some n => <[req_id := if (n =? -1)%Z then vocab_size c else n]> (num_logprobs s) | None => num_logprobs s end)
    (match logprob_token_ids p with Some ids => <[req_id := ids]> (logprob_tokens s) | None => logprob_tokens s end)
    (add_if (match truthy (allowed_token_ids p) with Some _ => true | None => false end) req_id (has_allowed_token_ids s))
    (pooling_params_of s).

Definition put_pooling (p : Z) (req_id : string) (s : RequestSets) : RequestSets :=
  mkRequestSets (greedy_reqs s) (random_reqs s) (top_p_reqs s) (top_k_reqs s) (frequency_penalties_reqs s) (presence_penalties_reqs s)
    (repetition_penalties_reqs s) (num_logprobs s) (logprob_tokens s) (has_allowed_token_ids s) (<[req_id := p]> (pooling_params_of s)).

Definition put_lora (req_index : nat) r (l : LoraState) : LoraState :=
  match cr_lora_request r with
  | Some a =>
      let id := lora_int_id a in
      mkLoraState (<[req_index := id]> (request_lora_mapping l))
        (<[id := {[cr_req_id r]} ∪ default ∅ (lora_id_to_request_ids l !! id)]> (lora_id_to_request_ids l))
        (<[id := a]> (lora_id_to_lora_request l))
  | None => mkLoraState (<[req_index := 0%Z]> (request_lora_mapping l)) (lora_id_to_request_ids l) (lora_id_to_lora_request l)
  end.

(** [add_request] *)
Definition add_request outs r b : result (nat * InputBatch) :=
  '(req_index, b) ← _register_add_request r b;
  let c := ib_config b in
  let req_id := cr_req_id r in
  let append := bool_decide (req_index = length (ib_req_ids b)) in
  req_ids ← (if append then Ok (ib_req_ids b ++ [Some req_id]) else np_set req_index (Some req_id) (ib_req_ids b));
  refs ← (if append then Ok (ib_req_output_token_ids b ++ [Some (cr_output_token_ids r)])
          else np_set req_index (Some (cr_output_token_ids r)) (ib_req_output_token_ids b));
  tokens ← put_tokens c append req_index r (default [] (outs !! cr_output_token_ids r)) (ib_tokens b);
  tables ← mg_add_row (cr_block_ids r) req_index (ib_block_table b);
  '(sampling, sets) ← match cr_sampling_params r, cr_pooling_params r with
    | Some p, _ => s ← put_sampling c req_index r p (ib_sampling b); Ok (s, put_sets c p req_id (ib_sets b))
    | None, Some p => Ok (ib_sampling b, put_pooling p req_id (ib_sets b))
    | None, None => Err NotImplementedError
    end;
  Ok (req_index, mkInputBatch c req_ids (<[req_id := req_index]> (ib_req_id_to_index b)) refs tokens tables
        (set_accepted req_index sampling) sets (put_lora req_index r (ib_lora b)) (ib_builder b) (ib_prev_req_id_to_index b)).

(** The tokens of [update_req_spec_token_ids]. *)
Definition put_spec (req_index : nat) (spec : list Z) (t : TokenCols) : result TokenCols :=
  specs ← np_set req_index spec (spec_token_ids t);
  match spec with
  | [] => Ok (mkTokenCols (token_ids_cpu t) (is_token_ids t) (req_prompt_embeds t) (num_tokens_no_spec t) (num_prompt_tokens t)
                (num_computed_tokens_cpu t) (replayssm_decode_base t) specs)
  | _ =>
      start_index ← np_get (num_tokens_no_spec t) req_index;
      let end_token_index := start_index + length spec in
      tokens ← set_row req_index (np_assign start_index end_token_index spec) (token_ids_cpu t);
      is_tokens ← set_row req_index (λ row, Ok (np_fill start_index end_token_index true row)) (is_token_ids t);
      Ok (mkTokenCols tokens is_tokens (req_prompt_embeds t) (num_tokens_no_spec t) (num_prompt_tokens t)
            (num_computed_tokens_cpu t) (replayssm_decode_base t) specs)
  end.

(** [update_req_spec_token_ids]; the request remembers the number of drafts. *)
Definition update_req_spec_token_ids r (scheduled_spec_tokens : list (string * list Z)) b : result (CachedRequestState * InputBatch) :=
  req_index ← unwrap KeyError (ib_req_id_to_index b !! cr_req_id r);
  let spec := default [] (od_get scheduled_spec_tokens (cr_req_id r)) in
  tokens ← put_spec req_index spec (ib_tokens b);
  Ok (mkCachedRequestState (cr_req_id r) (cr_prompt_token_ids r) (cr_sampling_params r) (cr_generator r) (cr_block_ids r)
        (cr_num_computed_tokens r) (cr_output_token_ids r) (cr_lora_request r) (cr_prompt_embeds r) (cr_prompt_is_token_ids r)
        (length spec) (cr_pooling_params r) (cr_num_prompt_tokens r), set_tokens tokens b).

(** ** Removing *)

Definition clear_tokens (req_index : nat) (t : TokenCols) : result TokenCols :=
  spec ← np_set req_index [] (spec_token_ids t);
  Ok (mkTokenCols (token_ids_cpu t) (is_token_ids t) (req_prompt_embeds t) (num_tokens_no_spec t) (num_prompt_tokens t)
        (num_computed_tokens_cpu t) (replayssm_decode_base t) spec).

Definition clear_lora (req_index : nat) (req_id : string) (l : LoraState) : result LoraState :=
  lora_id ← np_get (request_lora_mapping l) req_index;
  if (lora_id =? 0)%Z then Ok l
  else
    ids ← unwrap (A:=gset string) KeyError (lora_id_to_request_ids l !! lora_id);
    let ids : gset string := ids ∖ {[req_id]} in
    if decide (ids = ∅) then
      _ ← unwrap KeyError (lora_id_to_lora_request l !! lora_id);
      Ok (mkLoraState (<[req_index := 0%Z]> (request_lora_mapping l)) (delete lora_id (lora_id_to_request_ids l))
            (delete lora_id (lora_id_to_lora_request l)))
    else Ok (mkLoraState (<[req_index := 0%Z]> (request_lora_mapping l)) (<[lora_id := ids]> (lora_id_to_request_ids l))
               (lora_id_to_lora_request l)).

Definition clear_sets (req_id : string) (s : RequestSets) : RequestSets :=
  let drop (X : gset string) := X ∖ {[req_id]} in
  mkRequestSets (drop (greedy_reqs s)) (drop (random_reqs s)) (drop (top_p_reqs s)) (drop (top_k_reqs s)) (drop (frequency_penalties_reqs s))
    (drop (presence_penalties_reqs s)) (drop (repetition_penalties_reqs s)) (delete req_id (num_logprobs s)) (delete req_id (logprob_tokens s))
    (drop (has_allowed_token_ids s)) (pooling_params_of s).

Definition clear_pooling (req_id : string) (s : RequestSets) : RequestSets :=
  mkRequestSets (greedy_reqs s) (random_reqs s) (top_p_reqs s) (top_k_reqs s) (frequency_penalties_reqs s) (presence_penalties_reqs s)
    (repetition_penalties_reqs s) (num_logprobs s) (logprob_tokens s) (has_allowed_token_ids s) (delete req_id (pooling_params_of s)).

Definition clear_sampling (req_index : nat) (s : SamplingCols) : SamplingCols :=
  mkSamplingCols (temperature_cpu s) (top_p_cpu s) (top_k_cpu s) (frequency_penalties_cpu s) (presence_penalties_cpu s)
    (repetition_penalties_cpu s) (num_accepted_tokens_cpu s) (delete req_index (generators s)) (delete req_index (bad_words s))
    (alter (map (λ _, false)) req_index <$> allowed_token_ids_mask s).

(** [remove_request] *)
Definition remove_request (req_id : string) b : result (option nat * InputBatch) :=
  match ib_req_id_to_index b !! req_id with
  | None => Ok (None, b)
  | Some req_index =>
      u ← removed_append req_index (ib_builder b);
      req_ids ← np_set req_index None (ib_req_ids b);
      refs ← np_set req_index None (ib_req_output_token_ids b);
      tokens ← clear_tokens req_index (ib_tokens b);
      tables ← mg_clear_row req_index (ib_block_table b);
      lora ← clear_lora req_index req_id (ib_lora b);
      let ix := delete req_id (ib_req_id_to_index b) in
      if is_pooling_model (ib_config b) then
        Ok (Some req_index, mkInputBatch (ib_config b) req_ids ix refs tokens tables (ib_sampling b) (clear_pooling req_id (ib_sets b)) lora u
                              (ib_prev_req_id_to_index b))
      else
        Ok (Some req_index, mkInputBatch (ib_config b) req_ids ix refs tokens tables (clear_sampling req_index (ib_sampling b))
                              (clear_sets req_id (ib_sets b)) lora u (delete req_id <$> ib_prev_req_id_to_index b))
  end.

(** ** Exchanging two places *)

(** [_get_active_token_count] *)
Definition _get_active_token_count (req_index : nat) (t : TokenCols) : result nat :=
  n ← np_get (num_tokens_no_spec t) req_index;
  spec ← np_get (spec_token_ids t) req_index;
  Ok (n + length spec).

(** [vllm.utils.collection_utils.swap_dict_values] *)
Definition swap_dict_values {A} (k1 k2 : nat) (d : gmap nat A) : gmap nat A :=
  let v1 := d !! k1 in
  let v2 := d !! k2 in
  let d := match v1 with Some v => <[k2 := v]> d | None => delete k2 d end in
  match v2 with Some v => <[k1 := v]> d | None => delete k1 d end.

(** Exchange the first [n] entries of two rows. *)
Definition swap_prefix {A} (i1 i2 n : nat) (rows : list (list A)) : result (list (list A)) :=
  row1 ← np_get rows i1;
  row2 ← np_get rows i2;
  let tmp := take n row1 in
  row1 ← np_assign 0 n (take n row2) row1;
  rows ← np_set i1 row1 rows;
  set_row i2 (np_assign 0 n tmp) rows.

Definition swap_tokens (c : BatchConfig) (i1 i2 : nat) (t : TokenCols) : result TokenCols :=
  n1 ← _get_active_token_count i1 t;
  n2 ← _get_active_token_count i2 t;
  tokens ← swap_prefix i1 i2 (n1 `max` n2) (token_ids_cpu t);
  is_tokens ← swap_prefix i1 i2 (n1 `max` n2) (is_token_ids t);
  Ok (mkTokenCols tokens is_tokens (swap_dict_values i1 i2 (req_prompt_embeds t)) (np_swap i1 i2 (num_tokens_no_spec t))
        (np_swap i1 i2 (num_prompt_tokens t)) (np_swap i1 i2 (num_computed_tokens_cpu t))
        (if use_replayssm c then np_swap i1 i2 (replayssm_decode_base t) else replayssm_decode_base t)
        (np_swap i1 i2 (spec_token_ids t))).

Definition swap_sampling (i1 i2 : nat) (s : SamplingCols) : SamplingCols :=
  mkSamplingCols (np_swap i1 i2 (temperature_cpu s)) (np_swap i1 i2 (top_p_cpu s)) (np_swap i1 i2 (top_k_cpu s))
    (np_swap i1 i2 (frequency_penalties_cpu s)) (np_swap i1 i2 (presence_penalties_cpu s)) (np_swap i1 i2 (repetition_penalties_cpu s))
    (np_swap i1 i2 (num_accepted_tokens_cpu s)) (swap_dict_values i1 i2 (generators s)) (swap_dict_values i1 i2 (bad_words s))
    (np_swap i1 i2 <$> allowed_token_ids_mask s).

(** [swap_states] *)
Definition swap_states (i1 i2 : nat) b : result InputBatch :=
  old_id_i1 ← np_get (ib_req_ids b) i1;
  old_id_i2 ← np_get (ib_req_ids b) i2;
  tokens ← swap_tokens (ib_config b) i1 i2 (ib_tokens b);
  match old_id_i1, old_id_i2 with
  | Some id1, Some id2 =>
      x1 ← unwrap KeyError (ib_req_id_to_index b !! id1);
      x2 ← unwrap KeyError (ib_req_id_to_index b !! id2);
      tables ← mg_swap_row i1 i2 (ib_block_table b);
      let lora := mkLoraState (np_swap i1 i2 (request_lora_mapping (ib_lora b))) (lora_id_to_request_ids (ib_lora b))
                    (lora_id_to_lora_request (ib_lora b)) in
      let pooling := is_pooling_model (ib_config b) in
      Ok (mkInputBatch (ib_config b) (np_swap i1 i2 (ib_req_ids b)) (<[id2 := x1]> (<[id1 := x2]> (ib_req_id_to_index b)))
            (np_swap i1 i2 (ib_req_output_token_ids b)) tokens tables
            (if pooling then ib_sampling b else swap_sampling i1 i2 (ib_sampling b)) (ib_sets b) lora
            (if pooling then ib_builder b else push_moved (i1, i2, SWAP) (ib_builder b)) (ib_prev_req_id_to_index b))
  | _, _ => Err AssertionError
  end.

(** ** Condensing *)

(** The largest index up to [i] that is not removed; [None] is [-1]. *)
Fixpoint last_live (removed : list nat) (i : nat) : option nat :=
  if decide (i ∈ removed) then match i with O => None | S i => last_live removed i end else Some i.

(** [a[tgt, :n] = a[src, :n]] *)
Definition copy_prefix {A} (src tgt n : nat) (rows : list (list A)) : result (list (list A)) :=
  row ← np_get rows src;
  set_row tgt (np_assign 0 n (take n row)) rows.

(** [d[tgt] = d.pop(src)] if there is such an entry. *)
Definition move_key {A} (src tgt : nat) (d : gmap nat A) : gmap nat A :=
  match d !! src with Some v => <[tgt := v]> (delete src d) | None => d end.

Definition move_tokens (c : BatchConfig) (src tgt : nat) (t : TokenCols) : result TokenCols :=
  num_tokens ← _get_active_token_count src t;
  specs ← np_set src [] (np_swap src tgt (spec_token_ids t));
  tokens ← copy_prefix src tgt num_tokens (token_ids_cpu t);
  is_tokens ← copy_prefix src tgt num_tokens (is_token_ids t);
  Ok (mkTokenCols tokens is_tokens (move_key src tgt (req_prompt_embeds t)) (np_copy src tgt (num_tokens_no_spec t))
        (np_copy src tgt (num_prompt_tokens t)) (np_copy src tgt (num_computed_tokens_cpu t))
        (if use_replayssm c then np_copy src tgt (replayssm_decode_base t) else replayssm_decode_base t) specs).

Definition move_sampling (src tgt : nat) (s : SamplingCols) : SamplingCols :=
  mkSamplingCols (np_copy src tgt (temperature_cpu s)) (np_copy src tgt (top_p_cpu s)) (np_copy src tgt (top_k_cpu s))
    (np_copy src tgt (frequency_penalties_cpu s)) (np_copy src tgt (presence_penalties_cpu s)) (np_copy src tgt (repetition_penalties_cpu s))
    (np_copy src tgt (num_accepted_tokens_cpu s)) (move_key src tgt (generators s)) (move_key src tgt (bad_words s))
    (np_copy src tgt <$> allowed_token_ids_mask s).

(** One round of [condense]: the request at [last_req_index] moves to [empty_index]. *)
Definition move_slot (last_req_index empty_index : nat) b : result InputBatch :=
  req_id ← np_get (ib_req_ids b) last_req_index;
  ref ← np_get (ib_req_output_token_ids b) last_req_index;
  req_id ← unwrap AssertionError req_id;
  req_ids ← np_set empty_index (Some req_id) (ib_req_ids b);
  req_ids ← np_set last_req_index None req_ids;
  refs ← np_set empty_index ref (ib_req_output_token_ids b);
  refs ← np_set last_req_index None refs;
  tokens ← move_tokens (ib_config b) last_req_index empty_index (ib_tokens b);
  tables ← mg_move_row last_req_index empty_index (ib_block_table b);
  let lora := mkLoraState (np_copy last_req_index empty_index (request_lora_mapping (ib_lora b))) (lora_id_to_request_ids (ib_lora b))
                (lora_id_to_lora_request (ib_lora b)) in
  let pooling := is_pooling_model (ib_config b) in
  Ok (mkInputBatch (ib_config b) req_ids (<[req_id := empty_index]> (ib_req_id_to_index b)) refs tokens tables
        (if pooling then ib_sampling b else move_sampling last_req_index empty_index (ib_sampling b)) (ib_sets b) lora
        (if pooling then ib_builder b else push_moved (last_req_index, empty_index, UNIDIRECTIONAL) (ib_builder b))
        (ib_prev_req_id_to_index b)).

(** The loop of [condense]; each round takes one index off the removed ones. *)
Fixpoint condense_loop (fuel last_req_index : nat) b : result InputBatch :=
  match removed_list (ib_builder b) with
  | [] => Ok b
  | _ =>
      match fuel with
      | O => Err OutOfFuel
      | S fuel =>
          match last_live (removed_list (ib_builder b)) last_req_index with
          | None => Ok b
          | Some last_req_index =>
              let '(empty_index, u) := peek_removed (ib_builder b) in
              empty_index ← unwrap AssertionError empty_index;
              if last_req_index <=? empty_index then Ok (set_builder u b)
              else
                b ← move_slot last_req_index empty_index (set_builder (pop_removed u).2 b);
                condense_loop fuel (last_req_index - 1) b
          end
      end
  end.

(** [del l[n:]] on the three lists. *)
Definition trim (n : nat) b : InputBatch :=
  let t := ib_tokens b in
  mkInputBatch (ib_config b) (take n (ib_req_ids b)) (ib_req_id_to_index b) (take n (ib_req_output_token_ids b))
    (mkTokenCols (token_ids_cpu t) (is_token_ids t) (req_prompt_embeds t) (num_tokens_no_spec t) (num_prompt_tokens t)
       (num_computed_tokens_cpu t) (replayssm_decode_base t) (take n (spec_token_ids t)))
    (ib_block_table b) (ib_sampling b) (ib_sets b) (ib_lora b) (ib_builder b) (ib_prev_req_id_to_index b).

(** [condense] *)
Definition condense b : result InputBatch :=
  let n := num_reqs b in
  let '(empty_req_indices, u) := removed (ib_builder b) in
  let b := set_builder u b in
  match empty_req_indices with
  | [] => Ok b
  | _ =>
      if decide (n = 0) then Ok (trim 0 b)
      else
        b ← condense_loop (length empty_req_indices) (n + length empty_req_indices - 1) b;
        Ok (trim n b)
  end.
End Operations.
