(* ===== verification/InputBatchSpec.v ===== *)
(** * The persistent batch: what its arrays stand for

    A batch stands for a list of places, each of which holds a request or nothing.
    The arrays of a batch are related to the places group by group, and every
    operation of a group is an operation on places. *)

From S2P Require Import Prelude NumPy BlockTable BlockTableSpec InputBatch.
From Stdlib Require Import QArith.
Local Open Scope nat_scope.

(** ** Places *)

(** A request in the batch.  A token that the prompt gives as an embedding has no
    known id.  [pl_fresh] says that the drafts follow the tokens in the row; once
    sampled tokens have been written over them they are only a list. *)
Record Place : Type := mkPlace {
  pl_id : string;
  pl_ref : output_ref;
  pl_params : option BatchParams;
  pl_pooling : option Z;
  pl_generator : option Z;
  pl_lora : option Adapter;
  pl_embeds : option Embeds;
  pl_tokens : list (option Z);
  pl_is_tokens : list bool;
  pl_prompt : nat;
  pl_computed : nat;
  pl_base : nat;
  pl_spec : list Z;
  pl_fresh : bool;
  pl_blocks : list (list Z);
}.
Abbreviation places := (list (option Place)).

Definition place_at (ps : places) (i : nat) : option Place := mjoin (ps !! i).
Definition spec_at (ps : places) (i : nat) : list Z := default [] (pl_spec <$> place_at ps i).

Definition row_drafts (p : Place) : list Z := if pl_fresh p then pl_spec p else [].

Lemma place_at_Some ps i p : place_at ps i = Some p ↔ ps !! i = Some (Some p).
Proof. unfold place_at. destruct (ps !! i) as [[q|]|]; simpl; naive_solver. Qed.

Lemma place_at_insert ps i o k : i < length ps → place_at (<[i := o]> ps) k = if decide (k = i) then o else place_at ps k.
Proof.
  intros Hi. unfold place_at. case_decide as Hk; [subst; by rewrite list_lookup_insert_eq|by rewrite list_lookup_insert_ne].
Qed.

Lemma place_at_ge ps i : length ps ≤ i → place_at ps i = None.
Proof. intros Hi. unfold place_at. by rewrite lookup_ge_None_2. Qed.

Lemma place_at_lt ps i p : place_at ps i = Some p → i < length ps.
Proof. intros H. apply place_at_Some in H. by eapply lookup_lt_Some. Qed.

Lemma place_at_swap ps i j k : i < length ps → j < length ps → place_at (np_swap i j ps) k = place_at ps (swap_ix i j k).
Proof. intros Hi Hj. unfold place_at. by rewrite np_swap_lookup. Qed.

(** Moving a request to another place. *)
Definition move_place (src tgt : nat) (ps : places) : places := <[src := None]> (<[tgt := place_at ps src]> ps).

Lemma move_place_length src tgt ps : length (move_place src tgt ps) = length ps.
Proof. unfold move_place. by rewrite !length_insert. Qed.

Lemma place_at_move ps src tgt k : src < length ps → tgt < length ps → src ≠ tgt →
  place_at (move_place src tgt ps) k = if decide (k = src) then None else if decide (k = tgt) then place_at ps src else place_at ps k.
Proof. intros Hs Ht Hne. unfold move_place. rewrite place_at_insert by by rewrite length_insert. case_decide; [done|]. by apply place_at_insert. Qed.

(** ** Rows *)

Lemma set_row_ok {A} i (f : A → result A) l x y : l !! i = Some x → f x = Ok y → set_row i f l = Ok (<[i := y]> l).
Proof.
  intros Hi Hf. unfold set_row. rewrite (np_get_Some _ _ _ Hi). simpl. rewrite Hf. simpl. by apply np_set_ok, (lookup_lt_Some _ _ x).
Qed.

(** What is known of a row. *)
Definition row_known {A} (xs : list (option A)) (row : list A) : Prop := ∀ j x, xs !! j = Some (Some x) → row !! j = Some x.

Lemma row_known_prefix {A} (xs : list (option A)) row n : length xs ≤ n → row_known xs row → row_known xs (take n row).
Proof. intros Hn H j x Hj. rewrite lookup_take_lt; [by apply H|]. apply lookup_lt_Some in Hj. lia. Qed.

Lemma row_known_app {A} (xs : list (option A)) row tail : row_known xs row → row_known xs (row ++ tail).
Proof. intros H j x Hj. apply lookup_app_l_Some. by apply H. Qed.

(** Writing known values behind the known part. *)
Lemma row_known_write {A} (xs : list (option A)) (ys : list A) row : length xs ≤ length row → row_known xs row →
  row_known (xs ++ map Some ys) (take (length xs) row ++ ys ++ drop (length xs + length ys) row).
Proof.
  intros Hl H j x Hj. apply lookup_app_Some in Hj as [Hj|[Hle Hj]].
  - apply lookup_app_l_Some. rewrite lookup_take_lt; [by apply H|]. by eapply lookup_lt_Some.
  - rewrite map_lookup in Hj. apply fmap_Some in Hj as (y & Hy & [= ->]).
    rewrite lookup_app_r by (rewrite length_take; lia). rewrite length_take, Nat.min_l by lia. apply lookup_app_l_Some. done.
Qed.

Lemma row_known_replicate {A} n (row : list A) : row_known (replicate n None) row.
Proof. intros j x Hj. apply lookup_replicate in Hj as [? _]. done. Qed.

Lemma row_known_map_Some {A} (ys : list A) row : row_known (map Some ys) row ↔ ys `prefix_of` row.
Proof.
  split.
  - revert row. induction ys as [|y ys IH]; intros row H; [apply prefix_nil|].
    destruct row as [|z row]; [by specialize (H 0 y eq_refl)|]. pose proof (H 0 y eq_refl) as [= ->]. apply prefix_cons, IH.
    intros j x Hj. by apply (H (S j) x).
  - intros [tail ->] j x Hj. rewrite map_lookup in Hj. apply fmap_Some in Hj as (y & Hy & [= ->]). by apply lookup_app_l_Some.
Qed.

Lemma row_known_agree {A} (xs : list (option A)) row row' n : length xs ≤ n → take n row' = take n row → row_known xs row → row_known xs row'.
Proof.
  intros Hn Ht H j x Hj. pose proof (lookup_lt_Some _ _ _ Hj) as Hlt. rewrite <-(lookup_take_lt row' n j) by lia. rewrite Ht, lookup_take_lt by lia.
  by apply H.
Qed.

(** Assigning the first [n] entries of another row. *)
Lemma assign_prefix {A} (row src : list A) n : length row = length src →
  ∃ row', np_assign 0 n (take n src) row = Ok row' ∧ length row' = length row ∧ take n row' = take n src.
Proof.
  intros Hl. assert (Hlen : length (take n src) = n `min` length row) by (rewrite length_take; lia).
  assert (Ha : np_assign 0 n (take n src) row = Ok (take n src ++ drop (n `min` length row) row)).
  { unfold np_assign. rewrite Nat.min_0_l, Nat.sub_0_r. by rewrite decide_True. }
  eexists. split; [exact Ha|]. split; [by eapply np_assign_length|]. destruct (decide (n ≤ length row)).
  - rewrite take_app_length'; [done|lia].
  - rewrite drop_ge by lia. by rewrite app_nil_r, take_take, Nat.min_id.
Qed.

(** How a row after an operation comes from the rows before: as it was, or with
    the first [n] entries of the row it was taken from. *)
Definition row_from {A} (n : nat) (row row' : list A) : Prop := row' = row ∨ take n row' = take n row.

Lemma row_from_known {A} (xs : list (option A)) n row row' : length xs ≤ n → row_from n row row' → row_known xs row → row_known xs row'.
Proof. intros Hn [->|Ht] H; [done|]. by eapply row_known_agree. Qed.

Lemma copy_prefix_ok {A} src tgt n w (rows : list (list A)) : (∀ i row, rows !! i = Some row → length row = w) →
  src < length rows → tgt < length rows → ∃ rows', copy_prefix src tgt n rows = Ok rows' ∧ length rows' = length rows ∧
    (∀ i row, rows' !! i = Some row → length row = w) ∧
    ∀ k row', rows' !! k = Some row' → ∃ row, rows !! (if decide (k = tgt) then src else k) = Some row ∧
      if decide (k = tgt) then take n row' = take n row else row' = row.
Proof.
  intros Hw Hs Ht. unfold copy_prefix. destruct (lookup_lt_is_Some_2 rows src Hs) as [rs Hrs]. destruct (lookup_lt_is_Some_2 rows tgt Ht) as [rt Hrt].
  pose proof (Hw _ _ Hrs) as Hls. pose proof (Hw _ _ Hrt) as Hlt. rewrite (np_get_Some _ _ _ Hrs). cbn [mbind result_bind].
  destruct (assign_prefix rt rs n ltac:(lia)) as (row' & Ha & Hl & Htk).
  rewrite (set_row_ok tgt _ _ rt row' Hrt Ha). eexists. split; [done|]. rewrite length_insert. split_and!; [done| |].
  - intros i row Hi. destruct (decide (i = tgt)) as [->|Hne].
    + rewrite list_lookup_insert_eq in Hi by done. injection Hi as <-. lia.
    + rewrite list_lookup_insert_ne in Hi by done. by eapply Hw.
  - intros k r Hk. case_decide as Hd.
    + subst. rewrite list_lookup_insert_eq in Hk by done. injection Hk as <-. by exists rs.
    + rewrite list_lookup_insert_ne in Hk by done. by exists r.
Qed.

Lemma swap_prefix_ok {A} i1 i2 n w (rows : list (list A)) : (∀ i row, rows !! i = Some row → length row = w) →
  i1 < length rows → i2 < length rows → ∃ rows', swap_prefix i1 i2 n rows = Ok rows' ∧ length rows' = length rows ∧
    (∀ i row, rows' !! i = Some row → length row = w) ∧
    ∀ k row', rows' !! k = Some row' → ∃ row, rows !! swap_ix i1 i2 k = Some row ∧
      if decide (k = i1 ∨ k = i2) then take n row' = take n row else row' = row.
Proof.
  intros Hw H1 H2. unfold swap_prefix. destruct (lookup_lt_is_Some_2 rows i1 H1) as [r1 Hr1]. destruct (lookup_lt_is_Some_2 rows i2 H2) as [r2 Hr2].
  pose proof (Hw _ _ Hr1) as Hl1. pose proof (Hw _ _ Hr2) as Hl2. rewrite (np_get_Some _ _ _ Hr1), (np_get_Some _ _ _ Hr2). cbn [mbind result_bind].
  destruct (assign_prefix r1 r2 n ltac:(lia)) as (r1' & Ha1 & Hl1' & Ht1). rewrite Ha1. cbn [mbind result_bind].
  rewrite np_set_ok by done. cbn [mbind result_bind].
  assert (∃ r2x, <[i1 := r1']> rows !! i2 = Some r2x ∧ length r2x = w) as (r2x & Hr2x & Hl2x).
  { destruct (decide (i2 = i1)) as [->|Hne]; [exists r1'; rewrite list_lookup_insert_eq by done; split; [done|lia]|exists r2; by rewrite list_lookup_insert_ne]. }
  destruct (assign_prefix r2x r1 n ltac:(lia)) as (r2' & Ha2 & Hl2' & Ht2).
  rewrite (set_row_ok i2 _ _ r2x r2' Hr2x Ha2). eexists. split; [done|]. rewrite !length_insert. split_and!; [done| |].
  - intros i row Hi. destruct (decide (i = i2)) as [->|Hne].
    + rewrite list_lookup_insert_eq in Hi by by rewrite length_insert. injection Hi as <-. lia.
    + rewrite list_lookup_insert_ne in Hi by done. destruct (decide (i = i1)) as [->|Hne1].
      * rewrite list_lookup_insert_eq in Hi by done. injection Hi as <-. lia.
      * rewrite list_lookup_insert_ne in Hi by done. by eapply Hw.
  - intros k r Hk. unfold swap_ix. destruct (decide (k = i2)) as [->|Hne].
    + rewrite list_lookup_insert_eq in Hk by by rewrite length_insert. injection Hk as <-.
      exists r1. split; [case_decide; congruence|]. destruct (decide (i2 = i1 ∨ i2 = i2)) as [_|Hx]; [done|by destruct Hx; right].
    + rewrite list_lookup_insert_ne in Hk by done. destruct (decide (k = i1)) as [->|Hne1].
      * rewrite list_lookup_insert_eq in Hk by done. injection Hk as <-. exists r2. split; [by destruct (decide (i1 = i1))|]. destruct (decide (i1 = i1 ∨ i1 = i2)) as [_|Hx]; [done|by destruct Hx; left].
      * rewrite list_lookup_insert_ne in Hk by done. exists r. split; [by destruct (decide (k = i1)), (decide (k = i2))|].
        by destruct (decide (k = i1 ∨ k = i2)) as [[?|?]|_].
Qed.

(** ** Tokens *)

Section Batch.
Context (c : BatchConfig).
Implicit Types (t : TokenCols) (ps : places) (p : Place) (i : nat) (r : CachedRequestState).

Record token_dims t : Prop := {
  dim_tokens : length (token_ids_cpu t) = max_num_reqs c;
  dim_flags : length (is_token_ids t) = max_num_reqs c;
  dim_rows : ∀ i row, token_ids_cpu t !! i = Some row → length row = max_model_len c;
  dim_flag_rows : ∀ i row, is_token_ids t !! i = Some row → length row = max_model_len c;
  dim_no_spec : length (num_tokens_no_spec t) = max_num_reqs c;
  dim_prompt : length (num_prompt_tokens t) = max_num_reqs c;
  dim_computed : length (num_computed_tokens_cpu t) = max_num_reqs c;
  dim_base : length (replayssm_decode_base t) = max_num_reqs c;
}.

(** The arrays at place [i] hold the request [p]. *)
Record tokens_at t i p : Prop := {
  at_row : ∀ row, token_ids_cpu t !! i = Some row → row_known (pl_tokens p ++ map Some (row_drafts p)) row;
  at_flags : ∀ row, is_token_ids t !! i = Some row → row_known (map Some (pl_is_tokens p ++ replicate (length (row_drafts p)) true)) row;
  at_no_spec : num_tokens_no_spec t !! i = Some (length (pl_tokens p));
  at_flag_count : length (pl_is_tokens p) = length (pl_tokens p);
  at_prompt : num_prompt_tokens t !! i = Some (pl_prompt p);
  at_computed : num_computed_tokens_cpu t !! i = Some (pl_computed p);
  at_base : use_replayssm c = true → replayssm_decode_base t !! i = Some (pl_base p);
  at_embeds : ∀ e, pl_embeds p = Some e → req_prompt_embeds t !! i = Some e;
  at_room : length (pl_tokens p) + length (row_drafts p) ≤ max_model_len c;
}.

(** The first [n] entries of the lists are in use; a list of drafts that belongs to
    no request is empty. *)
Record tokens_hold (n : nat) ps t : Prop := {
  hold_dims : token_dims t;
  hold_spec_count : n ≤ length (spec_token_ids t);
  hold_spec : ∀ i s, spec_token_ids t !! i = Some s → s = spec_at ps i;
  hold_at : ∀ i p, place_at ps i = Some p → tokens_at t i p;
}.

(** *** Frames: a column that changes at one index *)

Lemma insert_other {A} (l : list A) i k x : k ≠ i → <[i := x]> l !! k = l !! k.
Proof. intros. by rewrite list_lookup_insert_ne. Qed.

Lemma insert_rows_dim {A} (rows : list (list A)) w i row : (∀ i row, rows !! i = Some row → length row = w) → length row = w →
  ∀ k row', <[i := row]> rows !! k = Some row' → length row' = w.
Proof.
  intros Hr Hw k row' Hk. destruct (decide (k = i)) as [->|Hne].
  - apply list_lookup_insert_Some in Hk as [(_ & <- & _)|(? & _)]; done.
  - rewrite insert_other in Hk by done. by eapply Hr.
Qed.

(** A place stays as it is when all arrays agree on it. *)
Lemma tokens_at_frame t t' i i' p :
  token_ids_cpu t' !! i' = token_ids_cpu t !! i → is_token_ids t' !! i' = is_token_ids t !! i →
  num_tokens_no_spec t' !! i' = num_tokens_no_spec t !! i → num_prompt_tokens t' !! i' = num_prompt_tokens t !! i →
  num_computed_tokens_cpu t' !! i' = num_computed_tokens_cpu t !! i → replayssm_decode_base t' !! i' = replayssm_decode_base t !! i →
  (∀ e, pl_embeds p = Some e → req_prompt_embeds t !! i = Some e → req_prompt_embeds t' !! i' = Some e) →
  tokens_at t i p → tokens_at t' i' p.
Proof.
  intros E1 E2 E3 E4 E5 E6 E7 [H1 H2 H3 H4 H5 H6 H7 H8 H9]. split.
  - by rewrite E1.
  - by rewrite E2.
  - by rewrite E3.
  - done.
  - by rewrite E4.
  - by rewrite E5.
  - by rewrite E6.
  - intros e He. by apply E7, H8.
  - done.
Qed.

(** *** Removing a request *)

Lemma clear_tokens_hold n ps t i : tokens_hold n ps t → i < n → n ≤ length ps →
  ∃ t', clear_tokens i t = Ok t' ∧ tokens_hold n (<[i := None]> ps) t'.
Proof.
  intros [Hd Hc Hs Ha] Hi Hn. unfold clear_tokens. rewrite np_set_ok by lia. simpl. eexists. split; [done|]. split; simpl.
  - by destruct Hd; split.
  - by rewrite length_insert.
  - intros k s Hk. unfold spec_at. rewrite place_at_insert by lia. destruct (decide (k = i)) as [->|Hne].
    + rewrite list_lookup_insert_eq in Hk by lia. by injection Hk as <-.
    + rewrite insert_other in Hk by done. by apply Hs.
  - intros k p Hk. rewrite place_at_insert in Hk by lia. case_decide; [done|]. by eapply (tokens_at_frame t), Ha.
Qed.

(** *** Draft tokens *)

Definition with_spec (spec : list Z) (p : Place) : Place :=
  mkPlace (pl_id p) (pl_ref p) (pl_params p) (pl_pooling p) (pl_generator p) (pl_lora p) (pl_embeds p) (pl_tokens p) (pl_is_tokens p)
    (pl_prompt p) (pl_computed p) (pl_base p) spec true (pl_blocks p).

Lemma prefix_known {A} (xs ys : list (option A)) row : row_known (xs ++ ys) row → row_known xs row.
Proof. intros H j x Hj. apply H. by apply lookup_app_l_Some. Qed.

Lemma np_fill_true lo k (row : list bool) : lo + k ≤ length row →
  np_fill lo (lo + k) true row = take lo row ++ replicate k true ++ drop (lo + length (replicate k true)) row.
Proof. intros Hl. by rewrite np_fill_fits, length_replicate by done. Qed.

Lemma spec_insert (ps : places) (l : list (list Z)) i p spec : i < length l → i < length ps →
  (∀ k s, l !! k = Some s → s = spec_at ps k) →
  ∀ k s, <[i := spec]> l !! k = Some s → s = spec_at (<[i := Some (with_spec spec p)]> ps) k.
Proof.
  intros Hl Hp Hs k s Hk. unfold spec_at. rewrite place_at_insert by done. destruct (decide (k = i)) as [->|Hne].
  - rewrite list_lookup_insert_eq in Hk by done. by injection Hk as <-.
  - rewrite insert_other in Hk by done. by apply Hs.
Qed.

Lemma put_spec_hold n ps t i p spec : tokens_hold n ps t → place_at ps i = Some p → i < n → length (pl_tokens p) + length spec ≤ max_model_len c →
  ∃ t', put_spec i spec t = Ok t' ∧ tokens_hold n (<[i := Some (with_spec spec p)]> ps) t'.
Proof.
  intros [Hd Hc Hs Ha] Hp Hi Hroom. pose proof (place_at_lt _ _ _ Hp) as Hlt. pose proof (Ha i p Hp) as Hat. unfold put_spec.
  rewrite np_set_ok by lia. cbn [mbind result_bind]. destruct spec as [|x spec'].
  { eexists. split; [done|]. split; simpl; [by destruct Hd; split|by rewrite length_insert|by apply spec_insert; [lia|..]|].
    intros k q Hk. rewrite place_at_insert in Hk by done. case_decide as He.
    - subst. injection Hk as <-. destruct Hat. split; simpl; try done.
      + intros row Hr. simpl. rewrite app_nil_r. by eapply prefix_known, at_row0.
      + intros row Hr. simpl. rewrite app_nil_r. specialize (at_flags0 row Hr). rewrite map_app in at_flags0. by eapply prefix_known.
    - by eapply (tokens_at_frame t), Ha. }
  rewrite (np_get_Some _ _ _ (at_no_spec _ _ _ Hat)). cbn [mbind result_bind]. remember (x :: spec') as spec eqn:Hx. clear Hx x spec'. cbv zeta.
  destruct Hd as [Hd1 Hd2 Hd3 Hd4 Hd5 Hd6 Hd7 Hd8]. assert (Hib : i < max_num_reqs c) by (pose proof (lookup_lt_Some _ _ _ (at_no_spec _ _ _ Hat)); lia).
  destruct (lookup_lt_is_Some_2 (token_ids_cpu t) i ltac:(lia)) as [row Hrow]. destruct (lookup_lt_is_Some_2 (is_token_ids t) i ltac:(lia)) as [flags Hflags].
  pose proof (Hd3 _ _ Hrow) as Hlr. pose proof (Hd4 _ _ Hflags) as Hlf.
  rewrite (set_row_ok i _ (token_ids_cpu t) row _ Hrow (np_assign_fits (length (pl_tokens p)) spec row ltac:(lia))). cbn [mbind result_bind].
  rewrite (set_row_ok i (λ row, Ok (np_fill (length (pl_tokens p)) (length (pl_tokens p) + length spec) true row)) (is_token_ids t) flags _ Hflags eq_refl). cbn [mbind result_bind]. eexists. split; [done|]. split; simpl.
  - split; simpl; rewrite ?length_insert; try done.
    + apply insert_rows_dim; [done|]. rewrite <-Hlr. eapply np_assign_length, (np_assign_fits _ spec). lia.
    + apply insert_rows_dim; [done|]. by rewrite np_fill_length.
  - by rewrite length_insert.
  - apply spec_insert; [lia|done..].
  - intros k q Hk. rewrite place_at_insert in Hk by done. case_decide as He.
    + subst. injection Hk as <-. destruct Hat. split; simpl; try done.
      * intros r Hr. rewrite list_lookup_insert_eq in Hr by lia. injection Hr as <-. apply (row_known_write (pl_tokens p) spec row); [lia|].
        by eapply prefix_known, at_row0.
      * intros r Hr. rewrite list_lookup_insert_eq in Hr by lia. injection Hr as <-. rewrite np_fill_true by lia.
        rewrite map_app, <-at_flag_count0, <-(length_map Some (pl_is_tokens p)). apply row_known_write; [rewrite length_map; lia|].
        specialize (at_flags0 flags Hflags). rewrite map_app in at_flags0. by eapply prefix_known.
    + eapply (tokens_at_frame t); [..|by apply Ha]; simpl; rewrite ?insert_other; done.
Qed.

(** *** Exchanging and moving requests *)

Definition active_count p : nat := length (pl_tokens p) + length (pl_spec p).

Lemma active_count_ok n ps t i p : tokens_hold n ps t → place_at ps i = Some p → i < n → _get_active_token_count i t = Ok (active_count p).
Proof.
  intros [Hd Hc Hs Ha] Hp Hi. unfold _get_active_token_count. rewrite (np_get_Some _ _ _ (at_no_spec _ _ _ (Ha i p Hp))). simpl.
  destruct (lookup_lt_is_Some_2 (spec_token_ids t) i ltac:(lia)) as [s Hsp]. rewrite (np_get_Some _ _ _ Hsp). simpl.
  rewrite (Hs _ _ Hsp). unfold spec_at, active_count. by rewrite Hp.
Qed.

Lemma drafts_count p : length (row_drafts p) ≤ length (pl_spec p).
Proof. unfold row_drafts. destruct (pl_fresh p); simpl; lia. Qed.

Lemma known_tokens p row row' n : active_count p ≤ n → (row' = row ∨ take n row' = take n row) →
  row_known (pl_tokens p ++ map Some (row_drafts p)) row → row_known (pl_tokens p ++ map Some (row_drafts p)) row'.
Proof. intros Hn. apply row_from_known. rewrite length_app, length_map. pose proof (drafts_count p). unfold active_count in Hn. lia. Qed.

Lemma known_flags p row row' n : active_count p ≤ n → length (pl_is_tokens p) = length (pl_tokens p) → (row' = row ∨ take n row' = take n row) →
  row_known (map Some (pl_is_tokens p ++ replicate (length (row_drafts p)) true)) row →
  row_known (map Some (pl_is_tokens p ++ replicate (length (row_drafts p)) true)) row'.
Proof. intros Hn Hl. apply row_from_known. rewrite length_map, length_app, length_replicate, Hl. pose proof (drafts_count p). unfold active_count in Hn. lia. Qed.

(** The arrays at [i'] come from those at [i]. *)
Lemma tokens_at_from t t' i i' p n row0 flags0 :
  tokens_at t i p → token_ids_cpu t !! i = Some row0 → is_token_ids t !! i = Some flags0 →
  (∀ row, token_ids_cpu t' !! i' = Some row → row = row0 ∨ active_count p ≤ n ∧ take n row = take n row0) →
  (∀ row, is_token_ids t' !! i' = Some row → row = flags0 ∨ active_count p ≤ n ∧ take n row = take n flags0) →
  num_tokens_no_spec t' !! i' = num_tokens_no_spec t !! i → num_prompt_tokens t' !! i' = num_prompt_tokens t !! i →
  num_computed_tokens_cpu t' !! i' = num_computed_tokens_cpu t !! i →
  (use_replayssm c = true → replayssm_decode_base t' !! i' = replayssm_decode_base t !! i) →
  (∀ e, pl_embeds p = Some e → req_prompt_embeds t !! i = Some e → req_prompt_embeds t' !! i' = Some e) →
  tokens_at t' i' p.
Proof.
  intros [H1 H2 H3 H4 H5 H6 H7 H8 H9] Hrow Hflags E1 E2 E3 E4 E5 E6 E7. split.
  - intros row Hr. destruct (E1 row Hr) as [->|[Hn Ht]]; [by apply H1|]. eapply known_tokens; [done|by right|by apply H1].
  - intros row Hr. destruct (E2 row Hr) as [->|[Hn Ht]]; [by apply H2|]. eapply known_flags; [done|done|by right|by apply H2].
  - by rewrite E3.
  - done.
  - by rewrite E4.
  - by rewrite E5.
  - intros Hb. by rewrite E6, H7.
  - intros e He. by apply E7, H8.
  - done.
Qed.

Lemma swap_dict_lookup {A} i1 i2 (d : gmap nat A) k : swap_dict_values i1 i2 d !! k = d !! swap_ix i1 i2 k.
Proof.
  unfold swap_dict_values, swap_ix. repeat case_decide; subst; destruct (d !! i1) eqn:E1, (d !! i2) eqn:E2; simplify_map_eq; try done.
Qed.

Lemma swap_tokens_hold n ps t i1 i2 p1 p2 : tokens_hold n ps t → n ≤ length ps → length ps = max_num_reqs c →
  place_at ps i1 = Some p1 → place_at ps i2 = Some p2 → i1 < n → i2 < n →
  ∃ t', swap_tokens c i1 i2 t = Ok t' ∧ tokens_hold n (np_swap i1 i2 ps) t'.
Proof.
  intros Hh Hn Hps Hp1 Hp2 Hi1 Hi2. unfold swap_tokens. rewrite (active_count_ok n ps t i1 p1 Hh Hp1 Hi1), (active_count_ok n ps t i2 p2 Hh Hp2 Hi2).
  cbn [mbind result_bind]. destruct Hh as [[D1 D2 D3 D4 D5 D6 D7 D8] Hc Hs Ha]. set (m := active_count p1 `max` active_count p2).
  destruct (swap_prefix_ok i1 i2 m (max_model_len c) (token_ids_cpu t) D3 ltac:(lia) ltac:(lia)) as (rows & -> & L1 & W1 & F1).
  destruct (swap_prefix_ok i1 i2 m (max_model_len c) (is_token_ids t) D4 ltac:(lia) ltac:(lia)) as (flags & -> & L2 & W2 & F2).
  cbn [mbind result_bind]. eexists. split; [done|]. split; simpl.
  - split; simpl; try done; try (rewrite np_swap_length; done); try lia. destruct (use_replayssm c); by rewrite ?np_swap_length.
  - by rewrite np_swap_length.
  - intros k s Hk. rewrite np_swap_lookup in Hk by lia. unfold spec_at. rewrite place_at_swap by lia. by apply Hs.
  - intros k p Hk. rewrite place_at_swap in Hk by lia. pose proof (place_at_lt _ _ _ Hk) as Hlt.
    destruct (lookup_lt_is_Some_2 (token_ids_cpu t) (swap_ix i1 i2 k) ltac:(lia)) as [row0 Hrow0].
    destruct (lookup_lt_is_Some_2 (is_token_ids t) (swap_ix i1 i2 k) ltac:(lia)) as [flags0 Hflags0].
    assert (Hm : k = i1 ∨ k = i2 → active_count p ≤ m).
    { intros [->| ->]; [rewrite swap_ix_l in Hk|rewrite swap_ix_r in Hk]; simplify_eq; unfold m; lia. }
    apply (tokens_at_from t _ (swap_ix i1 i2 k) k p m row0 flags0); simpl; rewrite ?np_swap_lookup by lia; auto.
    + intros row Hr. destruct (F1 _ _ Hr) as (row1 & Hrow1 & Hcase). simplify_eq. case_decide; [right; auto|by left].
    + intros row Hr. destruct (F2 _ _ Hr) as (row1 & Hrow1 & Hcase). simplify_eq. case_decide; [right; auto|by left].
    + intros Hb. rewrite Hb. by rewrite np_swap_lookup by lia.
    + intros e He Hd. by rewrite swap_dict_lookup.
Qed.

Lemma move_key_lookup {A} src tgt (d : gmap nat A) k : src ≠ tgt →
  move_key src tgt d !! k = match d !! src with
                            | Some v => if decide (k = tgt) then Some v else if decide (k = src) then None else d !! k
                            | None => d !! k
                            end.
Proof.
  intros Hne. unfold move_key. destruct (d !! src) eqn:E; [|done]. repeat case_decide; subst; by simplify_map_eq.
Qed.

Lemma move_tokens_hold n ps t src tgt p : tokens_hold n ps t → n ≤ length ps → length ps = max_num_reqs c →
  place_at ps src = Some p → place_at ps tgt = None → src < n → tgt < n →
  ∃ t', move_tokens c src tgt t = Ok t' ∧ tokens_hold n (move_place src tgt ps) t'.
Proof.
  intros Hh Hn Hps Hp Hq Hi1 Hi2. assert (Hne : src ≠ tgt) by congruence. unfold move_tokens. rewrite (active_count_ok n ps t src p Hh Hp Hi1).
  cbn [mbind result_bind]. destruct Hh as [[D1 D2 D3 D4 D5 D6 D7 D8] Hc Hs Ha].
  rewrite np_set_ok by (rewrite np_swap_length; lia). cbn [mbind result_bind].
  destruct (copy_prefix_ok src tgt (active_count p) (max_model_len c) (token_ids_cpu t) D3 ltac:(lia) ltac:(lia)) as (rows & -> & L1 & W1 & F1).
  destruct (copy_prefix_ok src tgt (active_count p) (max_model_len c) (is_token_ids t) D4 ltac:(lia) ltac:(lia)) as (flags & -> & L2 & W2 & F2).
  cbn [mbind result_bind]. eexists. split; [done|]. split; simpl.
  - split; simpl; try done; try (rewrite np_copy_length; done); try lia. destruct (use_replayssm c); by rewrite ?np_copy_length.
  - by rewrite length_insert, np_swap_length.
  - intros k s Hk. unfold spec_at. rewrite place_at_move by (done || lia). destruct (decide (k = src)) as [->|Hks].
    { rewrite list_lookup_insert_eq in Hk by (rewrite np_swap_length; lia). by injection Hk as <-. }
    rewrite list_lookup_insert_ne, np_swap_lookup in Hk by (done || lia). unfold swap_ix in Hk. rewrite decide_False in Hk by done.
    case_decide; by apply Hs.
  - intros k q Hk. rewrite place_at_move in Hk by (done || lia). destruct (decide (k = src)) as [->|Hks]; [done|].
    set (from := if decide (k = tgt) then src else k). assert (Hfrom : place_at ps from = Some q) by (unfold from; case_decide; congruence).
    pose proof (place_at_lt _ _ _ Hfrom) as Hlt.
    destruct (lookup_lt_is_Some_2 (token_ids_cpu t) from ltac:(lia)) as [row0 Hrow0].
    destruct (lookup_lt_is_Some_2 (is_token_ids t) from ltac:(lia)) as [flags0 Hflags0].
    assert (Hm : k = tgt → active_count q ≤ active_count p) by (intros ->; unfold from in Hfrom; rewrite decide_True in Hfrom by done; by simplify_eq).
    apply (tokens_at_from t _ from k q (active_count p) row0 flags0); simpl; rewrite ?np_copy_lookup by lia; auto.
    + intros row Hr. destruct (F1 _ _ Hr) as (row1 & Hrow1 & Hcase). fold from in Hrow1. simplify_eq. case_decide; [right; auto|by left].
    + intros row Hr. destruct (F2 _ _ Hr) as (row1 & Hrow1 & Hcase). fold from in Hrow1. simplify_eq. case_decide; [right; auto|by left].
    + intros Hb. rewrite Hb. by rewrite np_copy_lookup by lia.
    + intros e He Hd. rewrite move_key_lookup by done. unfold from in Hd. case_decide; [by rewrite Hd|].
      rewrite decide_False by done. by destruct (req_prompt_embeds t !! src).
Qed.

(** *** Adding a request *)

Definition prompt_tokens r : list (option Z) :=
  match cr_prompt_token_ids r with Some ids => map Some ids | None => replicate (cr_num_prompt_tokens r) None end.
Definition prompt_flags r : list bool :=
  match cr_prompt_token_ids r, cr_prompt_is_token_ids r with
  | Some _, Some flags => flags
  | Some _, None => replicate (cr_num_prompt_tokens r) true
  | None, _ => replicate (cr_num_prompt_tokens r) false
  end.

(** The place of a cached request whose output so far is [output]. *)
Definition place_of r (output : list Z) : Place :=
  mkPlace (cr_req_id r) (cr_output_token_ids r) (cr_sampling_params r) (cr_pooling_params r) (cr_generator r) (cr_lora_request r)
    (cr_prompt_embeds r) (prompt_tokens r ++ map Some output) (prompt_flags r ++ replicate (length output) true) (cr_num_prompt_tokens r)
    (cr_num_computed_tokens r) (cr_num_prompt_tokens r + length output) [] true (cr_block_ids r).

Record request_tokens_ok r (output : list Z) : Prop := {
  rt_prompt : length_from_prompt_token_ids_or_embeds (cr_prompt_token_ids r) (cr_prompt_embeds r) = Ok (cr_num_prompt_tokens r);
  rt_flags : ∀ flags, cr_prompt_is_token_ids r = Some flags → length flags = cr_num_prompt_tokens r;
  rt_room : cr_num_prompt_tokens r + length output ≤ max_model_len c;
}.

Lemma prompt_length r ids e : length_from_prompt_token_ids_or_embeds (Some ids) e = Ok (cr_num_prompt_tokens r) → length ids = cr_num_prompt_tokens r.
Proof. unfold length_from_prompt_token_ids_or_embeds. destruct e; [case_decide|]; by intros [=]. Qed.

Lemma prompt_tokens_length r output : request_tokens_ok r output → length (prompt_tokens r) = cr_num_prompt_tokens r.
Proof.
  intros [Hp _ _]. unfold prompt_tokens. destruct (cr_prompt_token_ids r) as [ids|]; [|by rewrite length_replicate].
  rewrite length_map. by eapply prompt_length.
Qed.

Lemma prompt_flags_length r output : request_tokens_ok r output → length (prompt_flags r) = cr_num_prompt_tokens r.
Proof.
  intros [_ Hf _]. unfold prompt_flags. destruct (cr_prompt_token_ids r) as [ids|]; [|by rewrite length_replicate].
  destruct (cr_prompt_is_token_ids r) as [flags|] eqn:E; [by apply Hf|by rewrite length_replicate].
Qed.

(** What the two steps of the token row leave in it. *)
Lemma put_prompt_row r output i (rows : list (list Z)) row : request_tokens_ok r output → rows !! i = Some row → length row = max_model_len c →
  ∃ row', match cr_prompt_token_ids r with
          | Some ids => set_row i (np_assign 0 (cr_num_prompt_tokens r) ids) rows
          | None => Ok rows
          end = Ok (<[i := row']> rows) ∧ length row' = max_model_len c ∧ row_known (prompt_tokens r) row'.
Proof.
  intros [Hp _ Hroom] Hi Hl. unfold prompt_tokens. destruct (cr_prompt_token_ids r) as [ids|] eqn:E.
  - apply prompt_length in Hp as Hlen. pose proof (np_assign_fits 0 ids row ltac:(lia)) as Ha. rewrite Nat.add_0_l, Hlen in Ha.
    rewrite (set_row_ok i _ _ row _ Hi Ha). eexists. split; [done|]. split; [rewrite <-Hl; by eapply np_assign_length|].
    simpl. apply row_known_app. by apply row_known_map_Some.
  - exists row. rewrite list_insert_id by done. split; [done|]. split; [done|]. apply row_known_replicate.
Qed.

Lemma put_flag_row r output i (rows : list (list bool)) row : request_tokens_ok r output → rows !! i = Some row → length row = max_model_len c →
  ∃ row', match cr_prompt_token_ids r, cr_prompt_is_token_ids r with
          | Some _, Some flags => set_row i (np_assign 0 (cr_num_prompt_tokens r) flags) rows
          | Some _, None => set_row i (λ row, Ok (np_fill 0 (cr_num_prompt_tokens r) true row)) rows
          | None, _ => set_row i (λ row, Ok (np_fill 0 (cr_num_prompt_tokens r) false row)) rows
          end = Ok (<[i := row']> rows) ∧ length row' = max_model_len c ∧ row_known (map Some (prompt_flags r)) row'.
Proof.
  intros [_ Hf Hroom] Hi Hl. unfold prompt_flags.
  assert (Hfill : ∀ v, ∃ row', set_row i (λ row, Ok (np_fill 0 (cr_num_prompt_tokens r) v row)) rows = Ok (<[i := row']> rows) ∧
    length row' = max_model_len c ∧ row_known (map Some (replicate (cr_num_prompt_tokens r) v)) row').
  { intros v. rewrite (set_row_ok i (λ row, Ok (np_fill 0 (cr_num_prompt_tokens r) v row)) _ row _ Hi eq_refl). eexists. split; [done|].
    split; [by rewrite np_fill_length|]. rewrite (np_fill_fits 0 (cr_num_prompt_tokens r)) by lia. simpl. apply row_known_app. by apply row_known_map_Some. }
  destruct (cr_prompt_token_ids r) as [ids|]; [|apply Hfill]. destruct (cr_prompt_is_token_ids r) as [flags|] eqn:E; [|apply Hfill].
  pose proof (Hf _ eq_refl) as Hlen. pose proof (np_assign_fits 0 flags row ltac:(lia)) as Ha. rewrite Nat.add_0_l, Hlen in Ha.
  rewrite (set_row_ok i _ _ row _ Hi Ha). eexists. split; [done|]. split; [rewrite <-Hl; by eapply np_assign_length|].
  simpl. apply row_known_app. by apply row_known_map_Some.
Qed.

Lemma put_tokens_hold n ps t i r output : tokens_hold n ps t → n ≤ length ps → length ps = max_num_reqs c → i ≤ n → i < max_num_reqs c →
  (∀ k, n ≤ k → place_at ps k = None) → place_at ps i = None → request_tokens_ok r output →
  ∃ t', put_tokens c (bool_decide (i = n)) i r output t = Ok t' ∧ tokens_hold (n `max` S i) (<[i := Some (place_of r output)]> ps) t'.
Proof.
  intros [[D1 D2 D3 D4 D5 D6 D7 D8] Hc Hs Ha] Hn Hps Hi Hi' Hfree Hnone Hr. pose proof (rt_prompt _ _ Hr) as Hp. pose proof (rt_room _ _ Hr) as Hroom.
  assert (Hspec : ∃ spec, (if bool_decide (i = n) then Ok (spec_token_ids t ++ [[]]) else np_set i [] (spec_token_ids t)) = Ok spec ∧
    n `max` S i ≤ length spec ∧ ∀ k s, spec !! k = Some s → s = if decide (k = i) then [] else spec_at ps k).
  { case_bool_decide as Hd.
    - eexists. split; [done|]. split; [rewrite length_app; simpl; lia|]. intros k s Hk. apply lookup_app_Some in Hk as [Hk|[Hge Hk]].
      + apply Hs in Hk as ->. case_decide; [|done]. subst. unfold spec_at. by rewrite Hnone.
      + apply list_lookup_singleton_Some in Hk as [Hz <-]. case_decide; [done|]. unfold spec_at. by rewrite Hfree by lia.
    - rewrite np_set_ok by lia. eexists. split; [done|]. split; [rewrite length_insert; lia|]. intros k s Hk. case_decide as Hki.
      + subst. rewrite list_lookup_insert_eq in Hk by lia. by injection Hk as <-.
      + rewrite list_lookup_insert_ne in Hk by done. by apply Hs. }
  destruct Hspec as (spec & Hspec & Hslen & Hsv). unfold put_tokens. rewrite Hspec, Hp. cbn [mbind result_bind]. rewrite !np_set_ok by lia. cbn [mbind result_bind].
  destruct (lookup_lt_is_Some_2 (token_ids_cpu t) i ltac:(lia)) as [row Hrow]. destruct (lookup_lt_is_Some_2 (is_token_ids t) i ltac:(lia)) as [flags Hflags].
  destruct (put_prompt_row r output i (token_ids_cpu t) row Hr Hrow (D3 _ _ Hrow)) as (row1 & -> & Hl1 & Hk1).
  destruct (put_flag_row r output i (is_token_ids t) flags Hr Hflags (D4 _ _ Hflags)) as (flags1 & -> & Hl2 & Hk2). cbn [mbind result_bind].
  assert (Hrow1 : <[i:=row1]> (token_ids_cpu t) !! i = Some row1) by (rewrite list_lookup_insert_eq by lia; done).
  assert (Hflags1 : <[i:=flags1]> (is_token_ids t) !! i = Some flags1) by (rewrite list_lookup_insert_eq by lia; done).
  set (lo := cr_num_prompt_tokens r) in *. pose proof (prompt_tokens_length r output Hr) as Hlt. pose proof (prompt_flags_length r output Hr) as Hlf. fold lo in Hlt, Hlf.
  rewrite (set_row_ok i _ _ row1 _ Hrow1 (np_assign_fits lo output row1 ltac:(lia))). cbn [mbind result_bind].
  rewrite (set_row_ok i (λ row, Ok (np_fill lo (lo + length output) true row)) _ flags1 _ Hflags1 eq_refl). cbn [mbind result_bind].
  assert (Hbase : ∃ base, (if use_replayssm c then Ok (<[i := lo + length output]> (replayssm_decode_base t)) else Ok (replayssm_decode_base t)) = Ok base ∧
    length base = max_num_reqs c ∧ (use_replayssm c = true → base = <[i := lo + length output]> (replayssm_decode_base t))).
  { destruct (use_replayssm c); [eexists; split; [done|]; by rewrite length_insert|by eexists]. }
  destruct Hbase as (base & -> & Hbl & Hbv). cbn [mbind result_bind]. eexists. split; [done|].
  rewrite !list_insert_insert_eq. split; simpl.
  - split; simpl; rewrite ?length_insert; try done.
    + apply insert_rows_dim; [done|]. rewrite <-Hl1. eapply np_assign_length, (np_assign_fits lo output). lia.
    + apply insert_rows_dim; [done|]. by rewrite np_fill_length.
  - done.
  - intros k s Hk. rewrite (Hsv _ _ Hk). unfold spec_at. rewrite place_at_insert by lia. by destruct (decide (k = i)).
  - intros k p Hk. rewrite place_at_insert in Hk by lia. destruct (decide (k = i)) as [->|Hne].
    + injection Hk as <-. split; simpl; rewrite ?app_nil_r; try (rewrite list_lookup_insert_eq by lia; done).
      * intros r' Hr'. rewrite list_lookup_insert_eq in Hr' by lia. injection Hr' as <-. rewrite <-Hlt. apply row_known_write; [lia|done].
      * intros r' Hr'. rewrite list_lookup_insert_eq in Hr' by lia. injection Hr' as <-. rewrite np_fill_true by lia.
        rewrite map_app, <-Hlf, <-(length_map Some (prompt_flags r)). apply row_known_write; [rewrite length_map; lia|done].
      * rewrite list_lookup_insert_eq by lia. by rewrite length_app, length_map, Hlt.
      * rewrite !length_app, length_map, length_replicate. lia.
      * intros Hb. rewrite (Hbv Hb). by rewrite list_lookup_insert_eq by lia.
      * intros e He. rewrite He. by simplify_map_eq.
      * rewrite length_app, length_map. lia.
    + assert (Hbase : use_replayssm c = true → base !! k = replayssm_decode_base t !! k).
      { intros Hb. rewrite (Hbv Hb). by apply insert_other. }
      destruct (lookup_lt_is_Some_2 (token_ids_cpu t) k ltac:(apply place_at_lt in Hk; lia)) as [row0 Hrow0].
      destruct (lookup_lt_is_Some_2 (is_token_ids t) k ltac:(apply place_at_lt in Hk; lia)) as [flags0 Hflags0].
      apply (tokens_at_from t _ k k p 0 row0 flags0); simpl; rewrite ?insert_other by done; auto.
      * intros r' Hr'. left. congruence.
      * intros r' Hr'. left. congruence.
      * intros e _ He. destruct (cr_prompt_embeds r); [by rewrite lookup_insert_ne|done].
Qed.
End Batch.
