(* ===== verification/InputBatchParts.v ===== *)
(** * The persistent batch: tables, sampling, adapters and sets

    The arrays and dictionaries of a batch other than the tokens, and what each
    operation does to the places they stand for. *)

From S2P Require Import Prelude NumPy BlockTable BlockTableSpec InputBatch InputBatchSpec.
From Stdlib Require Import QArith.
Local Open Scope nat_scope.

(** ** Block tables *)

Definition blocks_of (k : nat) (o : option Place) : list Z := default [] (p ← o; pl_blocks p !! k).

(** Table [k] holds the [k]-th block list of every place. *)
Definition tables_hold (ps : places) (ts : list BlockTable) : Prop :=
  ∀ k t, ts !! k = Some t → config_ok (tb_config t) ∧ holds (tb_config t) t (map (blocks_of k) ps).

Lemma on_tables_all (f : BlockTable → result BlockTable) ts (P : nat → BlockTable → Prop) :
  (∀ k t, ts !! k = Some t → ∃ t', f t = Ok t' ∧ tb_config t' = tb_config t ∧ P k t') →
  ∃ ts', on_tables f ts = Ok ts' ∧ map tb_config ts' = map tb_config ts ∧ ∀ k t', ts' !! k = Some t' → P k t'.
Proof.
  revert P. induction ts as [|t ts IH]; intros P H; [by exists []|]. destruct (H 0 t eq_refl) as (t' & Hf & Hc & HP).
  destruct (IH (λ k, P (S k))) as (ts' & Hts & Hl & HP'); [intros k u Hk; by apply (H (S k))|]. unfold on_tables in *. simpl.
  rewrite Hf, Hts. simpl. eexists. split; [done|]. split; [simpl; congruence|]. intros [|k] u Hk; [by simplify_eq/=|by apply HP'].
Qed.

Lemma on_tables_with_all (f : list Z → BlockTable → result BlockTable) ids ts (P : nat → BlockTable → Prop) :
  length ids = length ts →
  (∀ k t l, ts !! k = Some t → ids !! k = Some l → ∃ t', f l t = Ok t' ∧ tb_config t' = tb_config t ∧ P k t') →
  ∃ ts', on_tables_with f ids ts = Ok ts' ∧ map tb_config ts' = map tb_config ts ∧ ∀ k t', ts' !! k = Some t' → P k t'.
Proof.
  revert ids P. induction ts as [|t ts IH]; intros ids P Hlen H; [by exists []|]. destruct ids as [|l ids]; [done|].
  destruct (H 0 t l eq_refl eq_refl) as (t' & Hf & Hc & HP).
  destruct (IH ids (λ k, P (S k))) as (ts' & Hts & Hl & HP'); [simpl in Hlen; lia|intros k u m Hk; by apply (H (S k))|]. simpl.
  rewrite Hf. simpl. rewrite Hts. simpl. eexists. split; [done|]. split; [simpl; congruence|]. intros [|k] u Hk; [by simplify_eq/=|by apply HP'].
Qed.

Lemma blocks_lookup ps k i : i < length ps → map (blocks_of k) ps !! i = Some (blocks_of k (place_at ps i)).
Proof. intros Hi. rewrite map_lookup. unfold place_at. destruct (lookup_lt_is_Some_2 ps i Hi) as [o ->]. by destruct o. Qed.

Lemma clear_row_tables ps ts i : tables_hold ps ts → i < length ps →
  ∃ ts', mg_clear_row i ts = Ok ts' ∧ map tb_config ts' = map tb_config ts ∧ tables_hold (<[i := None]> ps) ts'.
Proof.
  intros Ht Hi. apply on_tables_all. intros k t Hk. destruct (Ht k t Hk) as [Hc Hh].
  destruct (clear_row_holds (tb_config t) t _ i _ Hh (blocks_lookup ps k i Hi)) as (t' & Hr & Hh' & _).
  exists t'. split; [done|]. rewrite (holds_config _ _ _ Hh'). split_and!; [done..|]. by rewrite map_insert.
Qed.

Lemma move_row_tables ps ts src tgt : tables_hold ps ts → src < length ps → tgt < length ps → src ≠ tgt → place_at ps tgt = None →
  ∃ ts', mg_move_row src tgt ts = Ok ts' ∧ map tb_config ts' = map tb_config ts ∧ tables_hold (move_place src tgt ps) ts'.
Proof.
  intros Ht Hs Hg Hne Hn. apply on_tables_all. intros k t Hk. destruct (Ht k t Hk) as [Hc Hh].
  pose proof (blocks_lookup ps k tgt Hg) as Hb. rewrite Hn in Hb.
  destruct (move_row_holds (tb_config t) t _ src tgt _ Hh Hne (blocks_lookup ps k src Hs) Hb) as (t' & Hr & Hh' & _).
  exists t'. split; [done|]. rewrite (holds_config _ _ _ Hh'). split_and!; [done..|]. unfold move_place. by rewrite !map_insert.
Qed.

Lemma swap_row_tables ps ts i j : tables_hold ps ts → i < length ps → j < length ps →
  ∃ ts', mg_swap_row i j ts = Ok ts' ∧ map tb_config ts' = map tb_config ts ∧ tables_hold (np_swap i j ps) ts'.
Proof.
  intros Ht Hi Hj. apply on_tables_all. intros k t Hk. destruct (Ht k t Hk) as [Hc Hh].
  destruct (swap_row_holds (tb_config t) t _ i j Hh) as (t' & Hr & Hh' & _); [by rewrite length_map..|].
  exists t'. split; [done|]. rewrite (holds_config _ _ _ Hh'). split_and!; [done..|]. by rewrite map_np_swap.
Qed.

Definition blocks_fit (cs : list TableConfig) (ids : list (list Z)) : Prop :=
  length ids = length cs ∧ ∀ k c l, cs !! k = Some c → ids !! k = Some l → row_fits c l.

Lemma add_row_tables ps ts i p : tables_hold ps ts → i < length ps → place_at ps i = None → blocks_fit (map tb_config ts) (pl_blocks p) →
  ∃ ts', mg_add_row (pl_blocks p) i ts = Ok ts' ∧ map tb_config ts' = map tb_config ts ∧ tables_hold (<[i := Some p]> ps) ts'.
Proof.
  intros Ht Hi Hn [Hlen Hfit]. rewrite length_map in Hlen. apply on_tables_with_all; [done|]. intros k t l Hk Hl. destruct (Ht k t Hk) as [Hc Hh].
  pose proof (blocks_lookup ps k i Hi) as Hb. rewrite Hn in Hb.
  destruct (add_row_holds (tb_config t) Hc t _ i l Hh Hb (Hfit k _ l ltac:(by rewrite map_lookup, Hk) Hl)) as (t' & Hr & Hh' & _).
  exists t'. split; [done|]. rewrite (holds_config _ _ _ Hh'). split_and!; [done..|]. rewrite map_insert. unfold blocks_of at 1. simpl. by rewrite Hl.
Qed.

(** What does not touch the blocks. *)
Lemma tables_same ps ps' ts : tables_hold ps ts → (∀ k, map (blocks_of k) ps' = map (blocks_of k) ps) → tables_hold ps' ts.
Proof. intros Ht He k t Hk. rewrite He. by apply Ht. Qed.

(** ** Who is in the batch *)

Definition pl_key (p : Place) : string * option BatchParams * option Adapter * option Z := (pl_id p, pl_params p, pl_lora p, pl_pooling p).
Definition present (ps : places) k : Prop := ∃ i p, place_at ps i = Some p ∧ pl_key p = k.
Definition distinct (ps : places) : Prop :=
  ∀ i j p q, place_at ps i = Some p → place_at ps j = Some q → pl_id p = pl_id q → i = j.

Lemma present_swap ps i j k : i < length ps → j < length ps → present (np_swap i j ps) k ↔ present ps k.
Proof.
  intros Hi Hj. split; intros (x & p & Hx & Hk).
  - rewrite place_at_swap in Hx by done. by eexists _, p.
  - exists (swap_ix i j x), p. by rewrite place_at_swap, swap_ix_involutive by done.
Qed.

Lemma distinct_swap ps i j : i < length ps → j < length ps → distinct ps → distinct (np_swap i j ps).
Proof.
  intros Hi Hj Hd x y p q Hx Hy Hid. rewrite place_at_swap in Hx, Hy by done. specialize (Hd _ _ _ _ Hx Hy Hid).
  by rewrite <-(swap_ix_involutive i j x), Hd, swap_ix_involutive.
Qed.

Lemma present_move ps src tgt k : src < length ps → tgt < length ps → src ≠ tgt → place_at ps tgt = None →
  present (move_place src tgt ps) k ↔ present ps k.
Proof.
  intros Hs Ht Hne Hn. split; intros (x & p & Hx & Hk).
  - rewrite place_at_move in Hx by done. repeat case_decide; [done|by eexists _, p..].
  - destruct (decide (x = src)) as [->|Hxs].
    + exists tgt, p. rewrite place_at_move by done. by rewrite decide_False, decide_True by done.
    + exists x, p. rewrite place_at_move by done. rewrite !decide_False by (done || by intros ->; congruence). done.
Qed.

Lemma distinct_move ps src tgt : src < length ps → tgt < length ps → src ≠ tgt → distinct ps → distinct (move_place src tgt ps).
Proof.
  intros Hs Ht Hne Hd x y p q Hx Hy Hid. rewrite place_at_move in Hx, Hy by done.
  repeat case_decide; subst; try done; pose proof (Hd _ _ _ _ Hx Hy Hid); congruence.
Qed.

Lemma present_remove ps i p k : distinct ps → place_at ps i = Some p →
  present (<[i := None]> ps) k ↔ present ps k ∧ k.1.1.1 ≠ pl_id p.
Proof.
  intros Hd Hp. pose proof (place_at_lt _ _ _ Hp) as Hi. split.
  - intros (x & q & Hx & <-). rewrite place_at_insert in Hx by done. case_decide; [done|]. split; [by exists x, q|]. simpl. intros Hid.
    by pose proof (Hd _ _ _ _ Hx Hp Hid).
  - intros [(x & q & Hx & <-) Hne]. exists x, q. rewrite place_at_insert by done. rewrite decide_False; [done|]. intros ->. by simplify_eq/=.
Qed.

Lemma distinct_remove ps i : i < length ps → distinct ps → distinct (<[i := None]> ps).
Proof.
  intros Hi Hd x y p q Hx Hy Hid. rewrite place_at_insert in Hx, Hy by done. repeat case_decide; try done. by eapply Hd.
Qed.

Lemma present_add ps i p k : i < length ps → place_at ps i = None → present (<[i := Some p]> ps) k ↔ k = pl_key p ∨ present ps k.
Proof.
  intros Hi Hn. split.
  - intros (x & q & Hx & <-). rewrite place_at_insert in Hx by done. case_decide; [left; congruence|right; by exists x, q].
  - intros [->|(x & q & Hx & <-)].
    + exists i, p. by rewrite place_at_insert, decide_True by done.
    + exists x, q. rewrite place_at_insert, decide_False by (done || by intros ->; congruence). done.
Qed.

Lemma distinct_add ps i p : i < length ps → (∀ x q, place_at ps x = Some q → pl_id q ≠ pl_id p) → distinct ps → distinct (<[i := Some p]> ps).
Proof.
  intros Hi Hnew Hd x y q r Hx Hy Hid. rewrite place_at_insert in Hx, Hy by done.
  destruct (decide (x = i)) as [->|], (decide (y = i)) as [->|]; simplify_eq; [done|exfalso; apply (Hnew _ _ Hy); congruence|exfalso; apply (Hnew _ _ Hx); congruence|by eapply Hd].
Qed.

(** A request that changes but stays the same request. *)
Lemma present_update ps i p p' k : place_at ps i = Some p → pl_key p' = pl_key p → present (<[i := Some p']> ps) k ↔ present ps k.
Proof.
  intros Hp Hkey. pose proof (place_at_lt _ _ _ Hp) as Hi. split; intros (x & q & Hx & <-).
  - rewrite place_at_insert in Hx by done. destruct (decide (x = i)); [injection Hx as <-; by exists i, p|by exists x, q].
  - destruct (decide (x = i)) as [->|Hne]; [exists i, p'|exists x, q]; rewrite place_at_insert by done.
    + rewrite decide_True by done. split; [done|]. rewrite Hp in Hx. by injection Hx as <-.
    + by rewrite decide_False by done.
Qed.

Lemma distinct_update ps i p p' : place_at ps i = Some p → pl_id p' = pl_id p → distinct ps → distinct (<[i := Some p']> ps).
Proof.
  intros Hp Hid Hd x y q r Hx Hy Hq. pose proof (place_at_lt _ _ _ Hp) as Hi. rewrite place_at_insert in Hx, Hy by done.
  destruct (decide (x = i)) as [->|], (decide (y = i)) as [->|]; simplify_eq; [done| | |by eapply Hd].
  - apply (Hd _ _ _ _ Hp Hy). congruence.
  - apply (Hd _ _ _ _ Hx Hp). congruence.
Qed.

(** ** Sets and dictionaries keyed by request *)

(** [X] has the requests whose parameters pass [P]. *)
Definition set_holds (ps : places) (P : BatchParams → bool) (X : gset string) : Prop :=
  ∀ rid, rid ∈ X ↔ ∃ k q, present ps k ∧ k.1.1.1 = rid ∧ k.1.1.2 = Some q ∧ P q = true.

(** [d] has what [f] gives of the parameters of each request. *)
Definition map_holds {A} (ps : places) (f : BatchParams → option A) (d : gmap string A) : Prop :=
  ∀ rid v, d !! rid = Some v ↔ ∃ k q, present ps k ∧ k.1.1.1 = rid ∧ k.1.1.2 = Some q ∧ f q = Some v.

Definition is_greedy (q : BatchParams) : bool := bool_decide (sampling_type q = GREEDY).
Definition uses_top_k (c : BatchConfig) (q : BatchParams) : bool := (0 <? top_k q)%Z && (top_k q <? vocab_size c)%Z.
Definition logprobs_of (c : BatchConfig) (q : BatchParams) : option Z := (λ n, if (n =? -1)%Z then vocab_size c else n) <$> logprobs q.
Definition has_allowed (q : BatchParams) : bool := match truthy (allowed_token_ids q) with Some _ => true | None => false end.

Record sets_hold (c : BatchConfig) (ps : places) (s : RequestSets) : Prop := {
  sh_greedy : set_holds ps is_greedy (greedy_reqs s);
  sh_random : set_holds ps (λ q, negb (is_greedy q)) (random_reqs s);
  sh_top_p : set_holds ps (λ q, Qlt_bool (top_p q) 1) (top_p_reqs s);
  sh_top_k : set_holds ps (uses_top_k c) (top_k_reqs s);
  sh_frequency : set_holds ps (λ q, negb (Qeq_bool (frequency_penalty q) 0)) (frequency_penalties_reqs s);
  sh_presence : set_holds ps (λ q, negb (Qeq_bool (presence_penalty q) 0)) (presence_penalties_reqs s);
  sh_repetition : set_holds ps (λ q, negb (Qeq_bool (repetition_penalty q) 1)) (repetition_penalties_reqs s);
  sh_logprobs : map_holds ps (logprobs_of c) (num_logprobs s);
  sh_logprob_tokens : map_holds ps logprob_token_ids (logprob_tokens s);
  sh_allowed : set_holds ps has_allowed (has_allowed_token_ids s);
}.

Lemma sets_same c ps ps' s : (∀ k, present ps' k ↔ present ps k) → sets_hold c ps s → sets_hold c ps' s.
Proof.
  intros He H. assert (∀ P X, set_holds ps P X → set_holds ps' P X) as Hset.
  { intros P X HX rid. rewrite (HX rid). by setoid_rewrite He. }
  assert (∀ A (f : BatchParams → option A) d, map_holds ps f d → map_holds ps' f d) as Hmap.
  { intros A f d Hd rid v. rewrite (Hd rid v). by setoid_rewrite He. }
  destruct H. split; auto.
Qed.

Lemma set_add ps i p q P X : i < length ps → place_at ps i = None → pl_params p = Some q → set_holds ps P X →
  set_holds (<[i := Some p]> ps) P (add_if (P q) (pl_id p) X).
Proof.
  intros Hi Hn Hq HX rid. trans (rid = pl_id p ∧ P q = true ∨ rid ∈ X).
  { unfold add_if. destruct (P q); [set_solver|]. naive_solver. }
  rewrite (HX rid). setoid_rewrite (present_add ps i p); [|done..]. split.
  - intros [[-> HP]|(k & r & Hk & ?)]; [|exists k, r; by split; [right|]]. exists (pl_key p), q. by split; [left|].
  - intros (k & r & [->|Hk] & Hid & Hr & HP); [left; simpl in *; simplify_eq; done|right; by exists k, r].
Qed.

Lemma map_add {A} ps i p q (f : BatchParams → option A) d : i < length ps → place_at ps i = None → pl_params p = Some q →
  (∀ x r, place_at ps x = Some r → pl_id r ≠ pl_id p) → map_holds ps f d →
  map_holds (<[i := Some p]> ps) f (match f q with Some v => <[pl_id p := v]> d | None => d end).
Proof.
  intros Hi Hn Hq Hnew Hd rid v. trans (rid = pl_id p ∧ f q = Some v ∨ d !! rid = Some v).
  { assert (d !! pl_id p = None) as Hd0.
    { destruct (d !! pl_id p) as [v'|] eqn:E; [|done]. apply Hd in E as (k & r & (x & r' & Hx & <-) & Hid & _). by destruct (Hnew x r' Hx). }
    destruct (f q) as [w|]; [|naive_solver]. destruct (decide (rid = pl_id p)) as [->|Hne].
    - rewrite lookup_insert_eq, Hd0. naive_solver.
    - rewrite lookup_insert_ne by done. naive_solver. }
  rewrite (Hd rid v). setoid_rewrite (present_add ps i p); [|done..]. split.
  - intros [[-> HP]|(k & r & Hk & ?)]; [|exists k, r; by split; [right|]]. exists (pl_key p), q. by split; [left|].
  - intros (k & r & [->|Hk] & Hid & Hr & HP); [left; simpl in *; simplify_eq; done|right; by exists k, r].
Qed.

Lemma set_remove ps i p P X : distinct ps → place_at ps i = Some p → set_holds ps P X → set_holds (<[i := None]> ps) P (X ∖ {[pl_id p]}).
Proof.
  intros Hd Hp HX rid. rewrite elem_of_difference, elem_of_singleton, (HX rid). setoid_rewrite (present_remove ps i p); [|done..]. naive_solver.
Qed.

Lemma map_remove {A} ps i p (f : BatchParams → option A) d : distinct ps → place_at ps i = Some p → map_holds ps f d →
  map_holds (<[i := None]> ps) f (delete (pl_id p) d).
Proof.
  intros Hd Hp HX rid v. rewrite lookup_delete_Some, (HX rid v). setoid_rewrite (present_remove ps i p); [|done..]. naive_solver.
Qed.

Lemma put_sets_hold c ps s i p q : i < length ps → place_at ps i = None → pl_params p = Some q →
  (∀ x r, place_at ps x = Some r → pl_id r ≠ pl_id p) → sets_hold c ps s → sets_hold c (<[i := Some p]> ps) (put_sets c q (pl_id p) s).
Proof.
  intros Hi Hn Hq Hnew [H1 H2 H3 H4 H5 H6 H7 H8 H9 H10]. split; simpl.
  - by apply (set_add ps i p q is_greedy).
  - by apply (set_add ps i p q (λ q, negb (is_greedy q))).
  - by apply (set_add ps i p q (λ q, Qlt_bool (top_p q) 1)).
  - by apply (set_add ps i p q (uses_top_k c)).
  - by apply (set_add ps i p q (λ q, negb (Qeq_bool (frequency_penalty q) 0))).
  - by apply (set_add ps i p q (λ q, negb (Qeq_bool (presence_penalty q) 0))).
  - by apply (set_add ps i p q (λ q, negb (Qeq_bool (repetition_penalty q) 1))).
  - pose proof (map_add ps i p q (logprobs_of c) _ Hi Hn Hq Hnew H8) as Hm. unfold logprobs_of at 2 in Hm. by destruct (logprobs q).
  - by apply (map_add ps i p q logprob_token_ids).
  - by apply (set_add ps i p q has_allowed).
Qed.

Lemma clear_sets_hold c ps s i p : distinct ps → place_at ps i = Some p → sets_hold c ps s → sets_hold c (<[i := None]> ps) (clear_sets (pl_id p) s).
Proof.
  intros Hd Hp [H1 H2 H3 H4 H5 H6 H7 H8 H9 H10]. split; simpl; by (eapply set_remove || eapply map_remove).
Qed.

(** ** Sampling *)

Section Sampling.
Context (f32 : Q → Q) (c : BatchConfig).
Implicit Types (s : SamplingCols) (ps : places) (p : Place) (q : BatchParams).

Definition pl_bad p : option (list (list Z)) := q ← pl_params p; truthy (bad_words_token_ids q).
Definition top_k_of q : Z := if uses_top_k c q then top_k q else vocab_size c.
Definition temperature_of q : Q := if decide (sampling_type q = GREEDY) then 0%Q else f32 (temperature q).

Record sampling_dims s : Prop := {
  sd_temperature : length (temperature_cpu s) = max_num_reqs c;
  sd_top_p : length (top_p_cpu s) = max_num_reqs c;
  sd_top_k : length (top_k_cpu s) = max_num_reqs c;
  sd_frequency : length (frequency_penalties_cpu s) = max_num_reqs c;
  sd_presence : length (presence_penalties_cpu s) = max_num_reqs c;
  sd_repetition : length (repetition_penalties_cpu s) = max_num_reqs c;
  sd_accepted : length (num_accepted_tokens_cpu s) = max_num_reqs c;
  sd_mask : ∀ mask, allowed_token_ids_mask s = Some mask → length mask = max_num_reqs c ∧
              ∀ i row, mask !! i = Some row → length row = Z.to_nat (vocab_size c);
}.

(** The arrays at place [i] hold the parameters [q].  A row of the mask is read if
    the request restricts its tokens: [true] forbids. *)
Record sampling_at s i q : Prop := {
  sa_temperature : temperature_cpu s !! i = Some (temperature_of q);
  sa_top_p : top_p_cpu s !! i = Some (f32 (top_p q));
  sa_top_k : top_k_cpu s !! i = Some (top_k_of q);
  sa_frequency : frequency_penalties_cpu s !! i = Some (f32 (frequency_penalty q));
  sa_presence : presence_penalties_cpu s !! i = Some (f32 (presence_penalty q));
  sa_repetition : repetition_penalties_cpu s !! i = Some (f32 (repetition_penalty q));
  sa_mask : ∀ ids, truthy (allowed_token_ids q) = Some ids → ∃ mask row, allowed_token_ids_mask s = Some mask ∧ mask !! i = Some row ∧
              ∀ v : nat, v < Z.to_nat (vocab_size c) → row !! v = Some (bool_decide (v ∉ ids));
}.

Record sampling_holds ps s : Prop := {
  sm_dims : sampling_dims s;
  sm_at : ∀ i p q, place_at ps i = Some p → pl_params p = Some q → sampling_at s i q;
  sm_generators : ∀ i, generators s !! i = place_at ps i ≫= pl_generator;
  sm_bad : ∀ i, bad_words s !! i = place_at ps i ≫= pl_bad;
}.

Lemma sampling_at_from s s' i i' q :
  temperature_cpu s' !! i' = temperature_cpu s !! i → top_p_cpu s' !! i' = top_p_cpu s !! i → top_k_cpu s' !! i' = top_k_cpu s !! i →
  frequency_penalties_cpu s' !! i' = frequency_penalties_cpu s !! i → presence_penalties_cpu s' !! i' = presence_penalties_cpu s !! i →
  repetition_penalties_cpu s' !! i' = repetition_penalties_cpu s !! i →
  (∀ mask row, allowed_token_ids_mask s = Some mask → mask !! i = Some row → ∃ mask', allowed_token_ids_mask s' = Some mask' ∧ mask' !! i' = Some row) →
  sampling_at s i q → sampling_at s' i' q.
Proof.
  intros E1 E2 E3 E4 E5 E6 E7 [H1 H2 H3 H4 H5 H6 H7]. split; try congruence.
  intros ids Hids. destruct (H7 ids Hids) as (mask & row & Hm & Hr & Hv). destruct (E7 mask row Hm Hr) as (mask' & ? & ?). by exists mask', row.
Qed.

Lemma swap_sampling_hold ps s i1 i2 : sampling_holds ps s → length ps = max_num_reqs c → i1 < length ps → i2 < length ps →
  sampling_holds (np_swap i1 i2 ps) (swap_sampling i1 i2 s).
Proof.
  intros [[D1 D2 D3 D4 D5 D6 D7 D8] Ha Hg Hb] Hps H1 H2. split; simpl.
  - split; simpl; rewrite ?np_swap_length; try done. intros mask (m & Hm & ->)%fmap_Some. destruct (D8 m Hm) as [Hl Hr]. rewrite np_swap_length. split; [done|].
    intros i row Hi. rewrite np_swap_lookup in Hi by lia. by eapply Hr.
  - intros i p q Hp Hq. rewrite place_at_swap in Hp by done. eapply (sampling_at_from s _ (swap_ix i1 i2 i)); simpl; rewrite ?np_swap_lookup by lia; try done.
    + intros mask row Hm Hr. rewrite Hm. simpl. eexists. split; [done|]. destruct (D8 mask Hm). by rewrite np_swap_lookup by lia.
    + by eapply Ha.
  - intros i. by rewrite swap_dict_lookup, place_at_swap, Hg.
  - intros i. by rewrite swap_dict_lookup, place_at_swap, Hb.
Qed.

Lemma move_sampling_hold ps s src tgt : sampling_holds ps s → length ps = max_num_reqs c → src < length ps → tgt < length ps → src ≠ tgt →
  place_at ps tgt = None → sampling_holds (move_place src tgt ps) (move_sampling src tgt s).
Proof.
  intros [[D1 D2 D3 D4 D5 D6 D7 D8] Ha Hg Hb] Hps H1 H2 Hne Hn. split; simpl.
  - split; simpl; rewrite ?np_copy_length; try done. intros mask (m & Hm & ->)%fmap_Some. destruct (D8 m Hm) as [Hl Hr]. rewrite np_copy_length. split; [done|].
    intros i row Hi. rewrite np_copy_lookup in Hi by lia. by eapply Hr.
  - intros i p q Hp Hq. rewrite place_at_move in Hp by done. destruct (decide (i = src)); [done|].
    apply (sampling_at_from s _ (if decide (i = tgt) then src else i)); simpl; rewrite ?np_copy_lookup by lia; try done.
    + intros mask row Hm Hr. rewrite Hm. simpl. eexists. split; [done|]. destruct (D8 mask Hm). by rewrite np_copy_lookup by lia.
    + eapply Ha; [|done]. by case_decide.
  - intros i. rewrite move_key_lookup, place_at_move, !Hg by done. destruct (place_at ps src ≫= pl_generator) as [g|] eqn:E.
    + destruct (decide (i = tgt)) as [->|]; [rewrite decide_False by done; done|]. by case_decide.
    + destruct (decide (i = src)) as [->|]; [done|]. destruct (decide (i = tgt)) as [->|]; [by rewrite Hn, E|done].
  - intros i. rewrite move_key_lookup, place_at_move, !Hb by done. destruct (place_at ps src ≫= pl_bad) as [g|] eqn:E.
    + destruct (decide (i = tgt)) as [->|]; [rewrite decide_False by done; done|]. by case_decide.
    + destruct (decide (i = src)) as [->|]; [done|]. destruct (decide (i = tgt)) as [->|]; [by rewrite Hn, E|done].
Qed.

Lemma clear_sampling_hold ps s i : sampling_holds ps s → i < length ps → sampling_holds (<[i := None]> ps) (clear_sampling i s).
Proof.
  intros [[D1 D2 D3 D4 D5 D6 D7 D8] Ha Hg Hb] Hi. split; simpl.
  - split; simpl; try done. intros mask (m & Hm & ->)%fmap_Some. destruct (D8 m Hm) as [Hl Hr]. rewrite length_alter. split; [done|].
    intros k row Hk. rewrite list_lookup_alter in Hk. case_decide; [apply fmap_Some in Hk as (row' & Hk & ->); rewrite length_map|]; by eapply Hr.
  - intros k p q Hp Hq. rewrite place_at_insert in Hp by done. case_decide as Hne; [done|].
    apply (sampling_at_from s _ k); simpl; try done; [|by eapply Ha]. intros mask row Hm Hr. rewrite Hm. simpl. eexists. split; [done|].
    by rewrite list_lookup_alter_ne.
  - intros k. rewrite place_at_insert by done. case_decide; [subst; by rewrite lookup_delete_eq|by rewrite lookup_delete_ne].
  - intros k. rewrite place_at_insert by done. case_decide; [subst; by rewrite lookup_delete_eq|by rewrite lookup_delete_ne].
Qed.

Lemma clear_bits_ok ids row : Forall (λ v, v < length row) ids → ∃ row', clear_bits ids row = Ok row' ∧ length row' = length row ∧
  ∀ v x, row !! v = Some x → row' !! v = Some (x && bool_decide (v ∉ ids)).
Proof.
  revert row. induction ids as [|i ids IH]; intros row Hids; simpl.
  { exists row. split; [done|]. split; [done|]. intros v x ->. by destruct x. }
  apply Forall_cons in Hids as [Hi Hids]. rewrite np_set_ok by done. simpl.
  destruct (IH (<[i := false]> row)) as (row' & Hr & Hl & Hv); [by rewrite length_insert|]. rewrite length_insert in Hl.
  exists row'. split; [done|]. split; [done|]. intros v x Hx. destruct (decide (v = i)) as [->|Hne].
  - rewrite (Hv i false) by by rewrite list_lookup_insert_eq. simpl. rewrite bool_decide_false by (intros Hn; apply Hn; left). by rewrite andb_false_r.
  - rewrite (Hv v x) by by rewrite list_lookup_insert_ne. do 2 f_equal. apply bool_decide_ext. rewrite not_elem_of_cons. tauto.
Qed.

Definition params_ok (q : BatchParams) : Prop := ∀ ids, truthy (allowed_token_ids q) = Some ids → Forall (λ v, v < Z.to_nat (vocab_size c)) ids.

Lemma put_mask ps s i q : sampling_holds ps s → i < max_num_reqs c → params_ok q →
  ∃ mask', (match truthy (allowed_token_ids q) with
            | Some ids =>
                mask ← set_row i (λ row, clear_bits ids (map (λ _, true) row))
                         (default (replicate (max_num_reqs c) (replicate (Z.to_nat (vocab_size c)) false)) (allowed_token_ids_mask s));
                Ok (Some mask)
            | None => Ok (allowed_token_ids_mask s)
            end) = Ok mask' ∧
    (∀ mask, mask' = Some mask → length mask = max_num_reqs c ∧ ∀ k row, mask !! k = Some row → length row = Z.to_nat (vocab_size c)) ∧
    (∀ k mask row, k ≠ i → allowed_token_ids_mask s = Some mask → mask !! k = Some row → ∃ m, mask' = Some m ∧ m !! k = Some row) ∧
    ∀ ids, truthy (allowed_token_ids q) = Some ids → ∃ mask row, mask' = Some mask ∧ mask !! i = Some row ∧
      ∀ v : nat, v < Z.to_nat (vocab_size c) → row !! v = Some (bool_decide (v ∉ ids)).
Proof.
  intros [Hd _ _ _] Hi Hq. pose proof (sd_mask _ Hd) as Hm. unfold params_ok in Hq. destruct (truthy (allowed_token_ids q)) as [ids|].
  2: { exists (allowed_token_ids_mask s). split_and!; [done..| |done]. intros k mask row _ ? ?. by exists mask. }
  specialize (Hq ids eq_refl). set (mask0 := default _ _).
  assert (Hm0 : length mask0 = max_num_reqs c ∧ ∀ k row, mask0 !! k = Some row → length row = Z.to_nat (vocab_size c)).
  { unfold mask0. destruct (allowed_token_ids_mask s) as [m|]; simpl; [by apply Hm|]. rewrite length_replicate. split; [done|].
    intros k row [-> _]%lookup_replicate. by rewrite length_replicate. }
  destruct Hm0 as [Hl0 Hr0]. destruct (lookup_lt_is_Some_2 mask0 i ltac:(lia)) as [row Hrow]. pose proof (Hr0 _ _ Hrow) as Hlr.
  destruct (clear_bits_ok ids (map (λ _, true) row)) as (row' & Hb & Hl & Hv); [by rewrite length_map, Hlr|]. rewrite length_map in Hl.
  rewrite (set_row_ok i (λ row, clear_bits ids (map (λ _, true) row)) mask0 row row' Hrow Hb). simpl. eexists. split; [done|]. split_and!.
  - intros mask [= <-]. rewrite length_insert. split; [done|]. apply insert_rows_dim; [done|lia].
  - intros k mask r Hne Hs Hk. eexists. split; [done|]. rewrite list_lookup_insert_ne by done. unfold mask0. by rewrite Hs.
  - intros ids' [= <-]. eexists _, row'. split; [done|]. rewrite list_lookup_insert_eq by lia. split; [done|]. intros v Hvv.
    rewrite (Hv v true); [done|]. destruct (lookup_lt_is_Some_2 row v ltac:(lia)) as [x Hx]. by rewrite map_lookup, Hx.
Qed.

Lemma put_sampling_hold ps s i r q p : sampling_holds ps s → length ps = max_num_reqs c → i < length ps → place_at ps i = None → params_ok q →
  pl_params p = Some q → pl_generator p = cr_generator r →
  ∃ s', put_sampling f32 c i r q s = Ok s' ∧ sampling_holds (<[i := Some p]> ps) (set_accepted i s').
Proof.
  intros Hs Hps Hi Hn Hq Hp Hg. destruct (put_mask ps s i q Hs ltac:(lia) Hq) as (mask' & Hrun & Hdm & Hold & Hnew).
  destruct Hs as [[D1 D2 D3 D4 D5 D6 D7 D8] Ha Hgen Hb]. unfold put_sampling. rewrite Hrun. simpl. eexists. split; [done|]. split; simpl.
  - split; simpl; rewrite ?length_insert; done.
  - intros k p' q' Hp' Hq'. rewrite place_at_insert in Hp' by done. destruct (decide (k = i)) as [->|Hne].
    + simplify_eq. split; simpl; try (rewrite list_lookup_insert_eq by lia; done). done.
    + apply (sampling_at_from s _ k); simpl; rewrite ?insert_other by done; try done; [|by eapply Ha]. intros mask row. by apply Hold.
  - intros k. rewrite place_at_insert by done. destruct (decide (k = i)) as [->|Hne]; simpl.
    + rewrite Hg. destruct (cr_generator r); [by rewrite lookup_insert_eq|]. by rewrite Hgen, Hn.
    + destruct (cr_generator r); [by rewrite lookup_insert_ne|]. by rewrite Hgen.
  - intros k. rewrite place_at_insert by done. destruct (decide (k = i)) as [->|Hne]; simpl.
    + unfold pl_bad. rewrite Hp. simpl. destruct (truthy (bad_words_token_ids q)); [by rewrite lookup_insert_eq|]. by rewrite Hb, Hn.
    + destruct (truthy (bad_words_token_ids q)); [by rewrite lookup_insert_ne|]. by rewrite Hb.
Qed.

(** What sampling sees of a place. *)
Lemma sampling_same ps ps' s : sampling_holds ps s →
  (∀ i, (λ p, (pl_params p, pl_generator p)) <$> place_at ps' i = (λ p, (pl_params p, pl_generator p)) <$> place_at ps i) → sampling_holds ps' s.
Proof.
  intros [Hd Ha Hg Hb] He. split; [done| | |].
  - intros i p q Hp Hq. specialize (He i). rewrite Hp in He. simpl in He. destruct (place_at ps i) as [p0|] eqn:E; [|done]. simplify_eq/=.
    eapply Ha; [done|congruence].
  - intros i. rewrite Hg. specialize (He i). destruct (place_at ps i), (place_at ps' i); by simplify_eq/=.
  - intros i. rewrite Hb. specialize (He i). unfold pl_bad. destruct (place_at ps i), (place_at ps' i); simplify_eq/=; congruence.
Qed.
End Sampling.

(** ** Adapters *)

Lemma some_set (Y : gset string) x : (∃ X, Some Y = Some X ∧ x ∈ X) ↔ x ∈ Y.
Proof. split; [by intros (X & [= <-] & ?)|by exists Y]. Qed.

Lemma none_set x : (∃ X : gset string, None = Some X ∧ x ∈ X) ↔ False.
Proof. split; [by intros (X & ? & _)|done]. Qed.

Definition lora_id_of (p : Place) : Z := from_option lora_int_id 0%Z (pl_lora p).

Record lora_holds (n : nat) (ps : places) (l : LoraState) : Prop := {
  lh_dim : length (request_lora_mapping l) = n;
  lh_mapping : ∀ i p, place_at ps i = Some p → request_lora_mapping l !! i = Some (lora_id_of p);
  lh_ids : ∀ id rid, (∃ X, lora_id_to_request_ids l !! id = Some X ∧ rid ∈ X) ↔
             ∃ k a, present ps k ∧ k.1.1.1 = rid ∧ k.1.2 = Some a ∧ lora_int_id a = id;
  lh_nonempty : ∀ id X, lora_id_to_request_ids l !! id = Some X → X ≠ ∅;
  lh_requests : ∀ id, is_Some (lora_id_to_lora_request l !! id) ↔ is_Some (lora_id_to_request_ids l !! id);
  lh_positive : ∀ i p a, place_at ps i = Some p → pl_lora p = Some a → lora_int_id a ≠ 0%Z;
}.

Lemma put_lora_hold n ps l i r p : lora_holds n ps l → i < length ps → length ps = n → place_at ps i = None → pl_id p = cr_req_id r →
  pl_lora p = cr_lora_request r → (∀ a, pl_lora p = Some a → lora_int_id a ≠ 0%Z) → lora_holds n (<[i := Some p]> ps) (put_lora i r l).
Proof.
  intros [D M I N R Pz] Hi Hps Hn Hid Hl Hpos.
  assert (HM : ∀ k q v, v = lora_id_of p → place_at (<[i := Some p]> ps) k = Some q → <[i := v]> (request_lora_mapping l) !! k = Some (lora_id_of q)).
  { intros k q v -> Hk. rewrite place_at_insert in Hk by done. case_decide; [subst; rewrite list_lookup_insert_eq by lia; congruence|].
    rewrite list_lookup_insert_ne by done. by apply M. }
  assert (HP : ∀ k q a, place_at (<[i := Some p]> ps) k = Some q → pl_lora q = Some a → lora_int_id a ≠ 0%Z).
  { intros k q a Hk. rewrite place_at_insert in Hk by done. case_decide; [injection Hk as <-; apply Hpos|by eapply Pz]. }
  unfold put_lora. destruct (cr_lora_request r) as [a|] eqn:Ha; split; simpl; rewrite ?length_insert; try done.
  - intros k q. apply HM. unfold lora_id_of. by rewrite Hl.
  - intros id rid. setoid_rewrite (present_add ps i p); [|done..].
    trans ((lora_int_id a = id ∧ rid = cr_req_id r) ∨ ∃ X, lora_id_to_request_ids l !! id = Some X ∧ rid ∈ X).
    { destruct (decide (id = lora_int_id a)) as [->|Hne].
      - rewrite lookup_insert_eq, some_set, elem_of_union, elem_of_singleton.
        destruct (lora_id_to_request_ids l !! lora_int_id a) as [X|]; simpl; rewrite ?some_set, ?none_set, ?elem_of_empty; tauto.
      - rewrite lookup_insert_ne by done. naive_solver. }
    rewrite (I id rid). split.
    + intros [[<- ->]|(k & b & Hk & ?)]; [exists (pl_key p), a; by split; [left|]|exists k, b; by split; [right|]].
    + intros (k & b & [->|Hk] & Hr & Hb & Hbid); [left; simpl in *; rewrite Hl in Hb; by simplify_eq|right; by exists k, b].
  - intros id X HX. destruct (decide (id = lora_int_id a)) as [->|Hne].
    + rewrite lookup_insert_eq in HX. injection HX as <-. intros He%non_empty_union_L; [done|]. left. by apply non_empty_singleton_L.
    + rewrite lookup_insert_ne in HX by done. by eapply N.
  - intros id. destruct (decide (id = lora_int_id a)) as [->|Hne]; [by rewrite !lookup_insert_eq|by rewrite !lookup_insert_ne].
  - intros k q. apply HM. unfold lora_id_of. by rewrite Hl.
  - intros id rid. setoid_rewrite (present_add ps i p); [|done..]. rewrite (I id rid). split.
    + intros (k & b & Hk & ?). exists k, b. by split; [right|].
    + intros (k & b & [->|Hk] & Hr & Hb & Hbid); [simpl in Hb; congruence|by exists k, b].
Qed.

Lemma clear_lora_hold n ps l i p : lora_holds n ps l → length ps = n → distinct ps → place_at ps i = Some p →
  ∃ l', clear_lora i (pl_id p) l = Ok l' ∧ lora_holds n (<[i := None]> ps) l'.
Proof.
  intros [D M I N R Pz] Hps Hd Hp. pose proof (place_at_lt _ _ _ Hp) as Hi. unfold clear_lora. rewrite (np_get_Some _ _ _ (M i p Hp)). simpl.
  assert (HM : ∀ k q, place_at (<[i := None]> ps) k = Some q → k ≠ i ∧ place_at ps k = Some q).
  { intros k q Hk. rewrite place_at_insert in Hk by done. by case_decide. }
  assert (HI : ∀ id rid (Y : option (gset string)), (∀ x, (∃ X, Y = Some X ∧ x ∈ X) ↔ (∃ X, lora_id_to_request_ids l !! id = Some X ∧ x ∈ X) ∧ x ≠ pl_id p) →
    (∃ X, Y = Some X ∧ rid ∈ X) ↔ ∃ k a, present (<[i := None]> ps) k ∧ k.1.1.1 = rid ∧ k.1.2 = Some a ∧ lora_int_id a = id).
  { intros id rid Y HY. rewrite (HY rid), (I id rid). setoid_rewrite (present_remove ps i p); [|done..]. naive_solver. }
  assert (Hother : ∀ id x, lora_id_of p ≠ id ∨ pl_lora p = None → (∃ X, lora_id_to_request_ids l !! id = Some X ∧ x ∈ X) → x ≠ pl_id p).
  { intros id x Hne (k & a & (j & q & Hj & <-) & Hr & Ha & Hid)%I ->. simpl in *. pose proof (Hd _ _ _ _ Hj Hp Hr) as ->. simplify_eq.
    unfold lora_id_of in Hne. rewrite Ha in Hne. naive_solver. }
  destruct (Z.eqb_spec (lora_id_of p) 0) as [Hz|Hnz].
  { assert (Hnone : pl_lora p = None).
    { destruct (pl_lora p) as [a|] eqn:E; [|done]. exfalso. apply (Pz i p a Hp E). unfold lora_id_of in Hz. by rewrite E in Hz. }
    eexists. split; [done|]. split; [done| | |done|done|].
    - intros k q [_ Hk]%HM. by apply M.
    - intros id rid. apply HI. intros x. split; [|tauto]. intros Hx. split; [done|]. eapply Hother; [by right|done].
    - intros k q a [_ Hk]%HM. by eapply Pz. }
  assert (∃ a, pl_lora p = Some a) as [a Ha] by (unfold lora_id_of in Hnz; destruct (pl_lora p) as [a|]; [by eexists|done]).
  assert (Hida : lora_id_of p = lora_int_id a) by (unfold lora_id_of; by rewrite Ha).
  destruct (proj2 (I (lora_int_id a) (pl_id p))) as (X & HX & HpX).
  { exists (pl_key p), a. split_and!; [by exists i, p|done|done|done]. }
  rewrite Hida, HX. simpl. case_decide as Hemp.
  - destruct (proj2 (R (lora_int_id a)) (ex_intro _ X HX)) as [b Hb]. rewrite Hb. simpl. eexists. split; [done|]. split; simpl.
    + by rewrite length_insert.
    + intros k q [Hne Hk]%HM. rewrite list_lookup_insert_ne by done. by apply M.
    + intros id rid. apply HI. intros x. destruct (decide (id = lora_int_id a)) as [->|Hne].
      * rewrite lookup_delete_eq, HX. split; [by intros (? & ? & _)|]. intros [(X' & [= <-] & Hx) Hxn]. exfalso. set_solver.
      * rewrite lookup_delete_ne by done. split; [|tauto]. intros Hx. split; [done|]. eapply Hother; [left|done]. congruence.
    + intros id Y [_ HY]%lookup_delete_Some. by eapply N.
    + intros id. destruct (decide (id = lora_int_id a)) as [->|Hne]; [by rewrite !lookup_delete_eq|by rewrite !lookup_delete_ne].
    + intros k q b' [_ Hk]%HM. by eapply Pz.
  - eexists. split; [done|]. split; simpl.
    + by rewrite length_insert.
    + intros k q [Hne Hk]%HM. rewrite list_lookup_insert_ne by done. by apply M.
    + intros id rid. apply HI. intros x. destruct (decide (id = lora_int_id a)) as [->|Hne].
      * rewrite lookup_insert_eq, HX, !some_set, elem_of_difference, elem_of_singleton. done.
      * rewrite lookup_insert_ne by done. split; [|tauto]. intros Hx. split; [done|]. eapply Hother; [left|done]. congruence.
    + intros id Y HY. destruct (decide (id = lora_int_id a)) as [->|Hne].
      * rewrite lookup_insert_eq in HY. by injection HY as <-.
      * rewrite lookup_insert_ne in HY by done. by eapply N.
    + intros id. rewrite R. destruct (decide (id = lora_int_id a)) as [->|Hne]; [by rewrite lookup_insert_eq, HX|by rewrite lookup_insert_ne].
    + intros k q b' [_ Hk]%HM. by eapply Pz.
Qed.

(** Exchanging, moving and updating requests. *)
Lemma lora_same n ps ps' l m : lora_holds n ps l → length m = n → (∀ k, present ps' k ↔ present ps k) →
  (∀ i p, place_at ps' i = Some p → m !! i = Some (lora_id_of p)) →
  lora_holds n ps' (mkLoraState m (lora_id_to_request_ids l) (lora_id_to_lora_request l)).
Proof.
  intros [D M I N R Pz] Hm He Hp. split; simpl; try done.
  - intros id rid. rewrite (I id rid). by setoid_rewrite He.
  - intros i p a Hi Ha. destruct (proj1 (He (pl_key p)) (ex_intro _ i (ex_intro _ p (conj Hi eq_refl)))) as (j & q & Hj & Hk).
    eapply Pz; [exact Hj|]. injection Hk. congruence.
Qed.
