(* ===== verification/InputBatchRun.v ===== *)
(** * The persistent batch: its operations and condensing

    The relation between a whole batch and its places; adding, removing,
    exchanging and condensing keep it, and condensing leaves the requests in the
    first places. *)

From S2P Require Import Prelude NumPy BlockTable BlockTableSpec InputBatch InputBatchSpec InputBatchParts.
From Stdlib Require Import QArith.
From Stdlib Require Import Sorting.Sorted.
Local Open Scope nat_scope.

(** ** Lists with an entry per place in use *)

Section Entries.
Context {A : Type} (f : Place → A).
Implicit Types (l : list (option A)) (ps : places).

Record entries (n : nat) ps l : Prop := {
  en_length : length l = n;
  en_lookup : ∀ i, i < n → l !! i = Some (f <$> place_at ps i);
}.

Lemma entries_set n ps l i o : entries n ps l → i < n → n ≤ length ps →
  np_set i (f <$> o) l = Ok (<[i := f <$> o]> l) ∧ entries n (<[i := o]> ps) (<[i := f <$> o]> l).
Proof.
  intros [Hl He] Hi Hn. split; [apply np_set_ok; lia|]. split; [by rewrite length_insert|]. intros k Hk. rewrite place_at_insert by lia.
  case_decide; [subst; by rewrite list_lookup_insert_eq by lia|]. rewrite list_lookup_insert_ne by done. by apply He.
Qed.

Lemma entries_append n ps l p : entries n ps l → n < length ps → entries (S n) (<[n := Some p]> ps) (l ++ [Some (f p)]).
Proof.
  intros [Hl He] Hn. split; [rewrite length_app; simpl; lia|]. intros k Hk. rewrite place_at_insert by lia. case_decide as Hd.
  - subst. rewrite lookup_app_r by lia. by rewrite Nat.sub_diag.
  - rewrite lookup_app_l by lia. apply He. lia.
Qed.

Lemma entries_swap n ps l i j : entries n ps l → i < n → j < n → n ≤ length ps → entries n (np_swap i j ps) (np_swap i j l).
Proof.
  intros [Hl He] Hi Hj Hn. split; [by rewrite np_swap_length|]. intros k Hk. rewrite np_swap_lookup, place_at_swap by lia.
  apply He. by apply swap_ix_lt.
Qed.

Lemma entries_take n ps l m : entries n ps l → m ≤ n → entries m ps (take m l).
Proof. intros [Hl He] Hm. split; [rewrite length_take; lia|]. intros k Hk. rewrite lookup_take_lt by lia. apply He. lia. Qed.

Lemma entries_same n ps ps' l : entries n ps l → (∀ i, f <$> place_at ps' i = f <$> place_at ps i) → entries n ps' l.
Proof. intros [Hl He] Hs. split; [done|]. intros i Hi. rewrite Hs. by apply He. Qed.

Lemma entries_np_get n ps l i p : entries n ps l → place_at ps i = Some p → i < n → np_get l i = Ok (Some (f p)).
Proof. intros [Hl He] Hp Hi. apply np_get_Some. by rewrite He, Hp. Qed.
End Entries.

(** ** The batch *)

Section Run.
Context (f32 : Q → Q).
Implicit Types (b : InputBatch) (r : CachedRequestState) (ps : places) (p : Place) (u : BatchUpdateBuilder).

(** Batch [b] stands for the places [ps], of which the first [n] are in use. *)
Record batch_holds (n : nat) ps b : Prop := {
  bh_count : length ps = max_num_reqs (ib_config b);
  bh_in_use : n ≤ length ps;
  bh_free : ∀ i, n ≤ i → place_at ps i = None;
  bh_ids : entries pl_id n ps (ib_req_ids b);
  bh_refs : entries pl_ref n ps (ib_req_output_token_ids b);
  bh_index : ∀ rid i, ib_req_id_to_index b !! rid = Some i ↔ ∃ p, place_at ps i = Some p ∧ pl_id p = rid;
  bh_tokens : tokens_hold (ib_config b) n ps (ib_tokens b);
  bh_tables : tables_hold ps (ib_block_table b);
  bh_sampling : is_pooling_model (ib_config b) = false → sampling_holds f32 (ib_config b) ps (ib_sampling b) ∧ sets_hold (ib_config b) ps (ib_sets b);
  bh_kind : ∀ i p, place_at ps i = Some p → if is_pooling_model (ib_config b) then pl_params p = None else is_Some (pl_params p);
  bh_pooling : is_pooling_model (ib_config b) = true →
    ∀ rid v, pooling_params_of (ib_sets b) !! rid = Some v ↔ ∃ k, present ps k ∧ k.1.1.1 = rid ∧ k.2 = Some v;
  bh_lora : lora_holds (max_num_reqs (ib_config b)) ps (ib_lora b);
}.

Lemma batch_distinct n ps b : batch_holds n ps b → distinct ps.
Proof.
  intros H i j p q Hp Hq Hid. assert (ib_req_id_to_index b !! pl_id p = Some i) as E1 by (apply (bh_index _ _ _ H); by exists p).
  assert (ib_req_id_to_index b !! pl_id p = Some j) as E2 by (apply (bh_index _ _ _ H); by exists q). congruence.
Qed.

Lemma batch_lt n ps b i p : batch_holds n ps b → place_at ps i = Some p → i < n.
Proof. intros H Hp. destruct (decide (i < n)); [done|]. rewrite (bh_free _ _ _ H) in Hp; [done|lia]. Qed.

(** The places that hold a request. *)
Definition live ps : list nat := filter (λ i, is_Some (place_at ps i)) (seq 0 (length ps)).

Lemma elem_of_live ps i : i ∈ live ps ↔ ∃ p, place_at ps i = Some p.
Proof.
  unfold live. rewrite list_elem_of_filter, elem_of_seq. split; [by intros [[p ?] _]; exists p|]. intros [p Hp]. split; [by exists p|].
  apply place_at_lt in Hp. lia.
Qed.

Lemma NoDup_live ps : NoDup (live ps).
Proof. apply NoDup_filter, NoDup_seq. Qed.

(** [num_reqs] counts them. *)
Lemma num_reqs_live n ps b : batch_holds n ps b → num_reqs b = length (live ps).
Proof.
  intros H. unfold num_reqs. set (m := ib_req_id_to_index b).
  assert (Hp : (map_to_list m).*2 ≡ₚ live ps).
  { apply NoDup_Permutation; [|apply NoDup_live|].
    - apply NoDup_fmap_2_strong; [|apply NoDup_map_to_list]. intros [x i] [y j] Hx%elem_of_map_to_list Hy%elem_of_map_to_list. simpl. intros <-.
      apply (bh_index _ _ _ H) in Hx as (p & Hp & <-). apply (bh_index _ _ _ H) in Hy as (q & Hq & <-). congruence.
    - intros i. rewrite elem_of_live, list_elem_of_fmap. split.
      + intros ([x j] & -> & Hx%elem_of_map_to_list). apply (bh_index _ _ _ H) in Hx as (p & Hp & _). by exists p.
      + intros [p Hp]. exists (pl_id p, i). split; [done|]. apply elem_of_map_to_list, (bh_index _ _ _ H). by exists p. }
  rewrite <-Hp, length_fmap. by rewrite length_map_to_list.
Qed.

(** ** The removed indices *)

Lemma insert_desc_perm x l : insert_desc x l ≡ₚ x :: l.
Proof. induction l as [|y l IH]; simpl; [done|]. case_decide; [done|]. rewrite IH. apply Permutation_swap. Qed.

Lemma sort_desc_perm l : sort_desc l ≡ₚ l.
Proof. induction l as [|x l IH]; simpl; [done|]. by rewrite insert_desc_perm, IH. Qed.

Lemma insert_desc_sorted x l : StronglySorted ge l → StronglySorted ge (insert_desc x l).
Proof.
  induction 1 as [|y l Hl IH Hy]; simpl; [by repeat constructor|]. case_decide.
  - constructor; [by constructor|]. constructor; [lia|]. eapply Forall_impl; [exact Hy|]. simpl. lia.
  - constructor; [done|]. rewrite insert_desc_perm. constructor; [lia|done].
Qed.

Lemma sort_desc_sorted l : StronglySorted ge (sort_desc l).
Proof. induction l; simpl; [constructor|by apply insert_desc_sorted]. Qed.

(** The holes among the first [n] places are the removed indices. *)
Record holes (n : nat) ps (R : list nat) : Prop := {
  ho_nodup : NoDup R;
  ho_elem : ∀ i, i ∈ R ↔ i < n ∧ place_at ps i = None;
}.
Definition sorted_if u : Prop := is_removed_sorted u = true → StronglySorted ge (removed_list u).

Lemma holes_count n ps R : holes n ps R → n ≤ length ps → (∀ i, n ≤ i → place_at ps i = None) → length (live ps) + length R = n.
Proof.
  intros [Hd He] Hn Hfree. assert (live ps ++ R ≡ₚ seq 0 n) as Hp.
  { apply NoDup_Permutation; [|apply NoDup_seq|].
    - apply NoDup_app. split_and!; [apply NoDup_live| |done]. intros i [p Hp]%elem_of_live [_ Hi]%He. congruence.
    - intros i. rewrite elem_of_app, elem_of_live, He, elem_of_seq. split.
      + intros [[p Hp]|[? _]]; [|lia]. destruct (decide (i < n)); [lia|]. rewrite Hfree in Hp; [done|lia].
      + intros Hi. destruct (place_at ps i) as [p|]; [left; by exists p|right; split; [lia|done]]. }
  apply Permutation_length in Hp. by rewrite length_app, length_seq in Hp.
Qed.

Lemma holes_perm n ps R R' : R' ≡ₚ R → holes n ps R → holes n ps R'.
Proof. intros Hp [Hd He]. split; [by rewrite Hp|]. intros i. by rewrite Hp. Qed.

Lemma ensure_sorted u : removed_list (ensure_removed_sorted u) ≡ₚ removed_list u ∧ (sorted_if u → StronglySorted ge (removed_list (ensure_removed_sorted u))) ∧
  is_removed_sorted (ensure_removed_sorted u) = true ∧ added (ensure_removed_sorted u) = added u ∧ moved (ensure_removed_sorted u) = moved u.
Proof.
  unfold ensure_removed_sorted, sorted_if. destruct (is_removed_sorted u) eqn:E; simpl; [auto|].
  split_and!; [apply sort_desc_perm|intros _; apply sort_desc_sorted|done..].
Qed.

Lemma ensure_idem u : ensure_removed_sorted (ensure_removed_sorted u) = ensure_removed_sorted u.
Proof. unfold ensure_removed_sorted. destruct (is_removed_sorted u) eqn:E; simpl; [by rewrite E|done]. Qed.

Lemma sorted_snoc_min l x : StronglySorted ge (l ++ [x]) → StronglySorted ge l ∧ ∀ y, y ∈ l → x ≤ y.
Proof.
  induction l as [|z l IH]; simpl; [by split; [constructor|intros y ?%elem_of_nil]|]. intros H.
  inversion H as [|? ? Hs Hf]; subst. destruct (IH Hs) as [Hs' Hm]. rewrite Forall_app in Hf. destruct Hf as [Hf1 Hf2]. split; [by constructor|].
  intros y [->|Hy]%elem_of_cons; [|by apply Hm]. inversion Hf2; subst. lia.
Qed.

(** [pop_removed] takes the smallest removed index. *)
Lemma pop_removed_none u : removed_list u = [] → pop_removed u = (None, u).
Proof. unfold pop_removed. by intros ->. Qed.

Lemma pop_removed_some u : sorted_if u → removed_list u ≠ [] → ∃ i u', pop_removed u = (Some i, u') ∧
  (peek_removed u = (Some i, ensure_removed_sorted u) ∧ (pop_removed (ensure_removed_sorted u)).2 = u') ∧
  removed_list u' ++ [i] ≡ₚ removed_list u ∧ (∀ j, j ∈ removed_list u → i ≤ j) ∧ sorted_if u' ∧
  added u' = added u ∧ moved u' = moved u.
Proof.
  intros Hs Hne. destruct (ensure_sorted u) as (Hp & Hss & Hf & Ha & Hm). specialize (Hss Hs).
  destruct (exists_last (l := removed_list (ensure_removed_sorted u))) as (R & i & E).
  { intros E. rewrite E in Hp. apply Hne. by apply Permutation_nil_l in Hp. }
  assert (Hpop : pop_removed u = (Some i, mkBuilder R true (added u) (moved u) (batch_changed (ensure_removed_sorted u)))).
  { unfold pop_removed. destruct (removed_list u) as [|x R0]; [done|]. by rewrite E, last_snoc, removelast_last, Hf, Ha, Hm. }
  exists i, (mkBuilder R true (added u) (moved u) (batch_changed (ensure_removed_sorted u))).
  rewrite E in Hss. apply sorted_snoc_min in Hss as [Hss Hmin]. split_and!; simpl; try done.
  - unfold peek_removed. destruct (removed_list u); [done|]. by rewrite E, last_snoc.
  - unfold pop_removed. rewrite ensure_idem, E, last_snoc, removelast_last, Hf, Ha, Hm. by destruct R.
  - by rewrite <-E, Hp.
  - intros j. rewrite <-Hp, E, elem_of_app, list_elem_of_singleton. intros [?| ->]; [by apply Hmin|lia].
  - by intros _.
Qed.

(** ** Single operations *)

(** What no operation changes. *)
Definition same_config b b' : Prop :=
  ib_config b' = ib_config b ∧ map tb_config (ib_block_table b') = map tb_config (ib_block_table b).

Lemma remove_request_absent rid b : ib_req_id_to_index b !! rid = None → remove_request rid b = Ok (None, b).
Proof. intros H. unfold remove_request. by rewrite H. Qed.

Lemma present_pooling_remove ps i p rid v : distinct ps → place_at ps i = Some p →
  (∃ k, present (<[i := None]> ps) k ∧ k.1.1.1 = rid ∧ k.2 = Some v) ↔ rid ≠ pl_id p ∧ ∃ k, present ps k ∧ k.1.1.1 = rid ∧ k.2 = Some v.
Proof. intros Hd Hp. setoid_rewrite (present_remove ps i p); [|done..]. naive_solver. Qed.

(** Removing a request empties its place. *)
Lemma remove_request_holds n ps b i p : batch_holds n ps b → holes n ps (removed_list (ib_builder b)) →
  is_removed_sorted (ib_builder b) = false → place_at ps i = Some p →
  ∃ b', remove_request (pl_id p) b = Ok (Some i, b') ∧ batch_holds n (<[i := None]> ps) b' ∧ same_config b b' ∧
    removed_list (ib_builder b') = removed_list (ib_builder b) ++ [i] ∧ holes n (<[i := None]> ps) (removed_list (ib_builder b')) ∧
    is_removed_sorted (ib_builder b') = false ∧ added (ib_builder b') = added (ib_builder b) ∧ moved (ib_builder b') = moved (ib_builder b).
Proof.
  intros H Hh Hf Hp. pose proof (batch_lt _ _ _ _ _ H Hp) as Hin. pose proof (place_at_lt _ _ _ Hp) as Hi. pose proof (batch_distinct _ _ _ H) as Hd.
  pose proof (bh_in_use _ _ _ H) as Hn. pose proof (bh_count _ _ _ H) as Hcount. unfold remove_request.
  rewrite (proj2 (bh_index _ _ _ H (pl_id p) i)) by by exists p. unfold removed_append. rewrite Hf. cbn [mbind result_bind].
  destruct (entries_set pl_id n ps _ i None (bh_ids _ _ _ H) Hin Hn) as [E1 En1]. destruct (entries_set pl_ref n ps _ i None (bh_refs _ _ _ H) Hin Hn) as [E2 En2].
  simpl in E1, E2. rewrite E1, E2. cbn [mbind result_bind].
  destruct (clear_tokens_hold _ n ps _ i (bh_tokens _ _ _ H) Hin Hn) as (tok & -> & Htok). cbn [mbind result_bind].
  destruct (clear_row_tables ps _ i (bh_tables _ _ _ H) Hi) as (ts & -> & Htc & Hts). cbn [mbind result_bind].
  destruct (clear_lora_hold _ ps _ i p (bh_lora _ _ _ H) Hcount Hd Hp) as (l & -> & Hl). cbn [mbind result_bind].
  assert (Hix : ∀ rid k, delete (pl_id p) (ib_req_id_to_index b) !! rid = Some k ↔ ∃ q, place_at (<[i := None]> ps) k = Some q ∧ pl_id q = rid).
  { intros rid k. rewrite lookup_delete_Some, (bh_index _ _ _ H). split.
    - intros (Hne & q & Hq & <-). exists q. rewrite place_at_insert, decide_False by (done || by intros ->; congruence). done.
    - intros (q & Hq & <-). rewrite place_at_insert in Hq by done. case_decide as Hne; [done|]. split; [|by exists q]. intros Hid.
      apply Hne. by apply (Hd _ _ _ _ Hq Hp). }
  assert (Hfree : ∀ k, n ≤ k → place_at (<[i := None]> ps) k = None).
  { intros k Hk. rewrite place_at_insert by done. case_decide; [done|]. by apply (bh_free _ _ _ H). }
  assert (Hkind : ∀ k q, place_at (<[i := None]> ps) k = Some q → if is_pooling_model (ib_config b) then pl_params q = None else is_Some (pl_params q)).
  { intros k q Hq. rewrite place_at_insert in Hq by done. case_decide; [done|]. by eapply (bh_kind _ _ _ H). }
  assert (Hholes : holes n (<[i := None]> ps) (removed_list (ib_builder b) ++ [i])).
  { destruct Hh as [Hnd He]. split.
    - apply NoDup_app. split_and!; [done| |apply NoDup_singleton]. intros k [_ Hk]%He ->%list_elem_of_singleton. congruence.
    - intros k. rewrite elem_of_app, list_elem_of_singleton, He, place_at_insert by done. case_decide; subst; [|tauto]. split; [by split|by right]. }
  destruct (is_pooling_model (ib_config b)) eqn:Epool.
  - eexists. split; [done|]. split; [|done]. split; simpl; rewrite ?length_insert, ?Epool; try done.
    + intros _ rid v. rewrite lookup_delete_Some, (present_pooling_remove ps i p) by done. rewrite <-(bh_pooling _ _ _ H Epool rid v). naive_solver.
  - destruct (bh_sampling _ _ _ H Epool) as [Hs1 Hs2]. eexists. split; [done|]. split; [|done].
    split; simpl; rewrite ?length_insert, ?Epool; try done. intros _. split; [by apply clear_sampling_hold|by apply clear_sets_hold].
Qed.

(** A request that fits the batch. *)
Record request_ok b r (output : list Z) : Prop := {
  ro_tokens : request_tokens_ok (ib_config b) r output;
  ro_blocks : blocks_fit (map tb_config (ib_block_table b)) (cr_block_ids r);
  ro_kind : if is_pooling_model (ib_config b) then cr_sampling_params r = None ∧ is_Some (cr_pooling_params r)
            else ∃ q, cr_sampling_params r = Some q ∧ params_ok (ib_config b) q;
  ro_lora : ∀ a, cr_lora_request r = Some a → lora_int_id a ≠ 0%Z;
}.

Lemma request_ok_same b b' r output : same_config b b' → request_ok b r output → request_ok b' r output.
Proof. intros [E1 E2] [H1 H2 H3 H4]. split; rewrite ?E1, ?E2; done. Qed.

Definition added_entry (i : nat) r : list AddedRequest :=
  option_list (q ← cr_sampling_params r; Some (mkAdded i q (cr_prompt_token_ids r) (cr_output_token_ids r))).

(** The index of a new request: the smallest removed one, or else the next. *)
Lemma register_holds n ps b r : batch_holds n ps b → holes n ps (removed_list (ib_builder b)) → sorted_if (ib_builder b) →
  length (live ps) < max_num_reqs (ib_config b) →
  ∃ i u, _register_add_request r b = Ok (i, set_builder u b) ∧ i ≤ n ∧ i < length ps ∧ place_at ps i = None ∧
    (∀ p, holes (n `max` S i) (<[i := Some p]> ps) (removed_list u)) ∧ sorted_if u ∧ added u = added (ib_builder b) ++ added_entry i r ∧
    moved u = moved (ib_builder b) ∧
    ((removed_list (ib_builder b) = [] ∧ removed_list u = [] ∧ i = n) ∨ removed_list u ++ [i] ≡ₚ removed_list (ib_builder b)).
Proof.
  intros H Hh Hs Hlive. pose proof (bh_count _ _ _ H) as Hps. pose proof (bh_in_use _ _ _ H) as Hn. unfold _register_add_request.
  destruct (decide (removed_list (ib_builder b) = [])) as [He|Hne].
  - rewrite (pop_removed_none _ He). simpl. rewrite (num_reqs_live _ _ _ H). pose proof (holes_count _ _ _ Hh Hn (bh_free _ _ _ H)) as Hcount.
    rewrite He in Hcount. simpl in Hcount. rewrite Nat.add_0_r in Hcount. rewrite Hcount in *. rewrite bool_decide_true by lia. simpl.
    eexists _, _. split; [done|]. simpl. split_and!; try done; [lia|by apply (bh_free _ _ _ H)| |by left].
    intros p. rewrite He in *. destruct Hh as [Hd Hel]. split; [done|]. intros k. rewrite Hel, place_at_insert by lia. case_decide; subst.
    + split; [lia|by intros [_ ?]].
    + split; [intros [? ?]; split; [lia|done]|intros [? ?]; split; [lia|done]].
  - destruct (pop_removed_some _ Hs Hne) as (i & u & -> & _ & Hperm & Hmin & Hs' & Ha & Hm). simpl.
    assert (Hi : i < n ∧ place_at ps i = None) by (apply (ho_elem _ _ _ Hh); rewrite <-Hperm; set_solver). destruct Hi as [Hi Hnone].
    rewrite bool_decide_true by lia. simpl. eexists _, _. split; [done|]. simpl. split_and!; try done; [lia|lia| |by rewrite Ha|by right].
    intros p. pose proof (holes_perm _ _ _ _ Hperm Hh) as [Hd Hel]. apply NoDup_app in Hd as (Hd & Hdis & _). split; [done|].
    intros k. rewrite place_at_insert by lia. specialize (Hel k). rewrite elem_of_app, list_elem_of_singleton in Hel. rewrite Nat.max_l by lia.
    case_decide; subst.
    + split; [intros Hk; exfalso; apply (Hdis i Hk); by left|by intros [_ ?]].
    + rewrite <-Hel. split; [by left|by intros [?|?]].
Qed.

Lemma place_at_mono ps i p k : i < length ps → place_at ps i = None →
  place_at (<[i := Some p]> ps) k = (if decide (k = i) then Some p else place_at ps k).
Proof. intros. by apply place_at_insert. Qed.

(** Adding a request puts it there. *)
Lemma add_request_holds outs n ps b r : batch_holds n ps b → holes n ps (removed_list (ib_builder b)) → sorted_if (ib_builder b) →
  length (live ps) < max_num_reqs (ib_config b) → ib_req_id_to_index b !! cr_req_id r = None →
  request_ok b r (default [] (outs !! cr_output_token_ids r)) →
  ∃ i b', add_request f32 outs r b = Ok (i, b') ∧ place_at ps i = None ∧ i < length ps ∧
    batch_holds (n `max` S i) (<[i := Some (place_of r (default [] (outs !! cr_output_token_ids r)))]> ps) b' ∧ same_config b b' ∧
    holes (n `max` S i) (<[i := Some (place_of r (default [] (outs !! cr_output_token_ids r)))]> ps) (removed_list (ib_builder b')) ∧
    sorted_if (ib_builder b') ∧ added (ib_builder b') = added (ib_builder b) ++ added_entry i r ∧ moved (ib_builder b') = moved (ib_builder b) ∧
    ((removed_list (ib_builder b) = [] ∧ removed_list (ib_builder b') = [] ∧ i = n) ∨
     removed_list (ib_builder b') ++ [i] ≡ₚ removed_list (ib_builder b)).
Proof.
  intros H Hh Hs Hlive Hnew Hr. set (output := default [] (outs !! cr_output_token_ids r)) in *. set (p := place_of r output).
  destruct (register_holds n ps b r H Hh Hs Hlive) as (i & u & Hreg & Hin & Hi & Hnone & Hholes & Hs' & Ha & Hm & Hcase).
  pose proof (bh_count _ _ _ H) as Hps. pose proof (bh_in_use _ _ _ H) as Hn. pose proof (batch_distinct _ _ _ H) as Hd.
  assert (Hfresh : ∀ x q, place_at ps x = Some q → pl_id q ≠ pl_id p).
  { intros x q Hx Hid. assert (ib_req_id_to_index b !! cr_req_id r = Some x) as E; [|congruence]. apply (bh_index _ _ _ H). by exists q. }
  unfold add_request. fold output. rewrite Hreg. cbn [mbind result_bind ib_config ib_req_ids ib_req_output_token_ids ib_tokens ib_block_table ib_sampling ib_sets ib_lora ib_builder
    ib_req_id_to_index ib_prev_req_id_to_index set_builder].
  rewrite (en_length _ _ _ _ (bh_ids _ _ _ H)).
  assert (Hids : ∀ {A} (f : Place → A) l, entries f n ps l →
    ∃ l', (if bool_decide (i = n) then Ok (l ++ [Some (f p)]) else np_set i (Some (f p)) l) = Ok l' ∧ entries f (n `max` S i) (<[i := Some p]> ps) l').
  { intros A f l Hl. case_bool_decide as Hd'.
    - subst. eexists. split; [done|]. rewrite Nat.max_r by lia. apply entries_append; [done|lia].
    - destruct (entries_set f n ps l i (Some p) Hl ltac:(lia) Hn) as [E En]. simpl in E. rewrite E. eexists. split; [done|]. by rewrite Nat.max_l by lia. }
  destruct (Hids _ pl_id _ (bh_ids _ _ _ H)) as (ids & E1 & Hids'). destruct (Hids _ pl_ref _ (bh_refs _ _ _ H)) as (refs & E2 & Hrefs'). clear Hids.
  change (pl_id p) with (cr_req_id r) in E1. change (pl_ref p) with (cr_output_token_ids r) in E2. rewrite E1, E2. cbn [mbind result_bind].
  destruct (put_tokens_hold _ n ps _ i r output (bh_tokens _ _ _ H) Hn Hps Hin ltac:(lia) (bh_free _ _ _ H) Hnone (ro_tokens _ _ _ Hr)) as (tok & -> & Htok).
  cbn [mbind result_bind].
  destruct (add_row_tables ps _ i p (bh_tables _ _ _ H) Hi Hnone (ro_blocks _ _ _ Hr)) as (ts & Hts & Htc & Htabs). change (pl_blocks p) with (cr_block_ids r) in Hts.
  rewrite Hts. cbn [mbind result_bind]. pose proof (ro_kind _ _ _ Hr) as Hkind.
  assert (Hlora : lora_holds (max_num_reqs (ib_config b)) (<[i := Some p]> ps) (put_lora i r (ib_lora b))).
  { apply put_lora_hold; try done; [apply (bh_lora _ _ _ H)|]. intros a. apply (ro_lora _ _ _ Hr). }
  assert (Hix : ∀ rid k, <[cr_req_id r := i]> (ib_req_id_to_index b) !! rid = Some k ↔ ∃ q, place_at (<[i := Some p]> ps) k = Some q ∧ pl_id q = rid).
  { intros rid k. rewrite lookup_insert_Some, (bh_index _ _ _ H). setoid_rewrite (place_at_insert ps i); [|done]. split.
    - intros [[<- <-]|(Hne & q & Hq & <-)]; [exists p; by rewrite decide_True|]. exists q. rewrite decide_False; [done|]. intros ->. congruence.
    - intros (q & Hq & <-). case_decide; [left; by simplify_eq|]. right. split; [|by exists q]. intros Hid. by destruct (Hfresh _ _ Hq). }
  assert (Hfree : ∀ k, n `max` S i ≤ k → place_at (<[i := Some p]> ps) k = None).
  { intros k Hk. rewrite place_at_insert by done. destruct (decide (k = i)) as [->|Hne]; [exfalso; clear -Hk; lia|]. apply (bh_free _ _ _ H). clear -Hk. lia. }
  destruct (is_pooling_model (ib_config b)) eqn:Epool.
  - destruct Hkind as [Hq [v Hv]]. rewrite Hq, Hv. cbn [mbind result_bind]. eexists i, _. split; [done|]. split; [done|]. split; [done|].
    split; [|by rewrite <-Ha, <-Hm]. split; simpl; rewrite ?length_insert, ?Epool; try done; [lia| |].
    + intros k q Hk. rewrite place_at_insert in Hk by done. case_decide; [by injection Hk as <-|]. pose proof (bh_kind _ _ _ H _ _ Hk) as Hkk. by rewrite Epool in Hkk.
    + intros _ rid w. rewrite lookup_insert_Some, (bh_pooling _ _ _ H Epool). setoid_rewrite (present_add ps i p); [|done..]. split.
      * intros [[<- <-]|(Hne & k & Hk & ?)]; [exists (pl_key p); split; [by left|done]|exists k; split; [by right|done]].
      * intros (k & [->|Hk] & Hid & Hw); [left; simpl in *; split; [done|congruence]|]. right. split; [|by exists k].
        destruct Hk as (x & q & Hx & <-). intros Hid'. apply (Hfresh _ _ Hx). simpl in *. congruence.
  - destruct Hkind as (q & Hq & Hqok). rewrite Hq. destruct (bh_sampling _ _ _ H Epool) as [Hs1 Hs2].
    destruct (put_sampling_hold f32 (ib_config b) ps _ i r q p Hs1 Hps Hi Hnone Hqok Hq eq_refl) as (s' & -> & Hsamp). cbn [mbind result_bind].
    assert (Hset : sets_hold (ib_config b) (<[i := Some p]> ps) (put_sets (ib_config b) q (cr_req_id r) (ib_sets b))).
    { change (cr_req_id r) with (pl_id p). by apply put_sets_hold. }
    destruct (cr_pooling_params r); eexists i, _; (split; [done|]; split; [done|]; split; [done|]; split; [|by rewrite <-Ha, <-Hm]);
      (split; simpl; rewrite ?length_insert, ?Epool; try done; [lia|]; intros k q' Hk; rewrite place_at_insert in Hk by done;
       case_decide; [injection Hk as <-; by eexists|]; pose proof (bh_kind _ _ _ H _ _ Hk) as Hkk; by rewrite Epool in Hkk).
Qed.

Lemma batch_holds_builder n ps b u : batch_holds n ps b → batch_holds n ps (set_builder u b).
Proof. intros []. by split. Qed.

Lemma blocks_of_update ps i p p' k : place_at ps i = Some p → pl_blocks p' = pl_blocks p →
  map (blocks_of k) (<[i := Some p']> ps) = map (blocks_of k) ps.
Proof.
  intros Hp Hb. rewrite map_insert. apply list_insert_id. rewrite map_lookup. apply place_at_Some in Hp. rewrite Hp. unfold blocks_of. simpl. by rewrite Hb.
Qed.

(** A request whose tokens and blocks change stays the same request. *)
Lemma batch_replace n ps b i p p' tok ts : batch_holds n ps b → place_at ps i = Some p → pl_key p' = pl_key p → pl_ref p' = pl_ref p →
  pl_generator p' = pl_generator p → tokens_hold (ib_config b) n (<[i := Some p']> ps) tok → tables_hold (<[i := Some p']> ps) ts →
  batch_holds n (<[i := Some p']> ps) (set_block_table ts (set_tokens tok b)).
Proof.
  intros H Hp Hkey Href Hgen Htok Hts. pose proof (place_at_lt _ _ _ Hp) as Hi. pose proof (batch_lt _ _ _ _ _ H Hp) as Hin.
  injection Hkey as Hid Hpar Hlo Hpool.
  assert (Hk : ∀ k, present (<[i := Some p']> ps) k ↔ present ps k) by (intros k; apply (present_update ps i p); [done|unfold pl_key; congruence]).
  assert (Hat : ∀ j q', place_at (<[i := Some p']> ps) j = Some q' → ∃ q, place_at ps j = Some q ∧ pl_key q' = pl_key q ∧ pl_id q' = pl_id q ∧
    pl_params q' = pl_params q ∧ pl_lora q' = pl_lora q).
  { intros j q'. rewrite place_at_insert by done. destruct (decide (j = i)) as [->|Hne]; [intros [= <-]; exists p|intros Hq; exists q']; split_and!; try done. unfold pl_key; congruence. }
  assert (Hsame : ∀ {A} (f : Place → A) j, f p' = f p → f <$> place_at (<[i := Some p']> ps) j = f <$> place_at ps j).
  { intros A f j Hf. rewrite place_at_insert by done. case_decide; [subst; rewrite Hp; simpl; by rewrite Hf|done]. }
  destruct H. split; simpl; rewrite ?length_insert; try done.
  - intros k Hnk. rewrite place_at_insert by done. case_decide; [lia|auto].
  - eapply entries_same; [done|]. intros j. by apply Hsame.
  - eapply entries_same; [done|]. intros j. by apply Hsame.
  - intros rid k. rewrite bh_index0. split.
    + intros (q & Hq & <-). specialize (Hsame _ pl_id k Hid). rewrite Hq in Hsame. apply fmap_Some in Hsame as (q' & Hq' & E). by exists q'.
    + intros (q' & Hq' & <-). destruct (Hat _ _ Hq') as (q & Hq & _ & E & _). by exists q.
  - intros Hpo. destruct (bh_sampling0 Hpo) as [Hs1 Hs2]. split; [|by eapply sets_same].
    eapply sampling_same; [done|]. intros j. apply Hsame. congruence.
  - intros j q' Hq'. destruct (Hat _ _ Hq') as (q & Hq & _ & _ & E & _). specialize (bh_kind0 _ _ Hq). by rewrite E.
  - intros Hpo rid v. rewrite (bh_pooling0 Hpo). by setoid_rewrite Hk.
  - pose proof (lora_same _ ps (<[i := Some p']> ps) (ib_lora b) (request_lora_mapping (ib_lora b)) bh_lora0 (lh_dim _ _ _ bh_lora0) Hk) as Hl.
    destruct (ib_lora b). apply Hl. intros j q' Hq'. destruct (Hat _ _ Hq') as (q & Hq & _ & _ & _ & E). unfold lora_id_of. rewrite E. by apply (lh_mapping _ _ _ bh_lora0).
Qed.

Lemma batch_update n ps b i p p' tok : batch_holds n ps b → place_at ps i = Some p → pl_key p' = pl_key p → pl_ref p' = pl_ref p →
  pl_blocks p' = pl_blocks p → pl_generator p' = pl_generator p → tokens_hold (ib_config b) n (<[i := Some p']> ps) tok →
  batch_holds n (<[i := Some p']> ps) (set_tokens tok b).
Proof.
  intros H Hp Hkey Href Hbl Hgen Htok. apply (batch_replace n ps b i p p' tok (ib_block_table b)); try done.
  eapply tables_same; [apply (bh_tables _ _ _ H)|]. intros k. by apply (blocks_of_update ps i p).
Qed.

Definition with_drafts r (n : nat) : CachedRequestState :=
  mkCachedRequestState (cr_req_id r) (cr_prompt_token_ids r) (cr_sampling_params r) (cr_generator r) (cr_block_ids r)
    (cr_num_computed_tokens r) (cr_output_token_ids r) (cr_lora_request r) (cr_prompt_embeds r) (cr_prompt_is_token_ids r)
    n (cr_pooling_params r) (cr_num_prompt_tokens r).

(** The scheduled draft tokens follow the tokens of the request. *)
Lemma update_spec_holds n ps b r i p scheduled : batch_holds n ps b → place_at ps i = Some p → pl_id p = cr_req_id r →
  length (pl_tokens p) + length (default [] (od_get scheduled (cr_req_id r))) ≤ max_model_len (ib_config b) →
  ∃ tok, update_req_spec_token_ids r scheduled b = Ok (with_drafts r (length (default [] (od_get scheduled (cr_req_id r)))), set_tokens tok b) ∧
    batch_holds n (<[i := Some (with_spec (default [] (od_get scheduled (cr_req_id r))) p)]> ps) (set_tokens tok b).
Proof.
  intros H Hp Hid Hroom. unfold update_req_spec_token_ids. rewrite (proj2 (bh_index _ _ _ H (cr_req_id r) i)) by by exists p. simpl.
  destruct (put_spec_hold _ n ps _ i p _ (bh_tokens _ _ _ H) Hp (batch_lt _ _ _ _ _ H Hp) Hroom) as (tok & -> & Htok). simpl.
  exists tok. split; [done|]. by apply (batch_update n ps b i p).
Qed.

(** Exchanging two requests. *)
Lemma swap_states_holds n ps b i1 i2 p1 p2 : batch_holds n ps b → place_at ps i1 = Some p1 → place_at ps i2 = Some p2 →
  ∃ b', swap_states i1 i2 b = Ok b' ∧ batch_holds n (np_swap i1 i2 ps) b' ∧ same_config b b' ∧
    ib_builder b' = if is_pooling_model (ib_config b) then ib_builder b else push_moved (i1, i2, SWAP) (ib_builder b).
Proof.
  intros H Hp1 Hp2. pose proof (batch_lt _ _ _ _ _ H Hp1) as H1. pose proof (batch_lt _ _ _ _ _ H Hp2) as H2. pose proof (bh_in_use _ _ _ H) as Hn.
  pose proof (bh_count _ _ _ H) as Hps. unfold swap_states.
  rewrite (entries_np_get _ _ _ _ _ _ (bh_ids _ _ _ H) Hp1 H1), (entries_np_get _ _ _ _ _ _ (bh_ids _ _ _ H) Hp2 H2). cbn [mbind result_bind].
  destruct (swap_tokens_hold _ n ps _ i1 i2 p1 p2 (bh_tokens _ _ _ H) Hn Hps Hp1 Hp2 H1 H2) as (tok & -> & Htok). cbn [mbind result_bind].
  rewrite (proj2 (bh_index _ _ _ H (pl_id p1) i1)) by by exists p1. rewrite (proj2 (bh_index _ _ _ H (pl_id p2) i2)) by by exists p2. cbn [mbind result_bind unwrap].
  destruct (swap_row_tables ps _ i1 i2 (bh_tables _ _ _ H)) as (ts & -> & Htc & Hts); [lia..|]. cbn [mbind result_bind]. eexists. split; [done|]. split; [|done].
  pose proof (batch_distinct _ _ _ H) as Hd. assert (Hk : ∀ k, present (np_swap i1 i2 ps) k ↔ present ps k) by (intros k; apply present_swap; lia).
  destruct H. split; simpl; rewrite ?np_swap_length; try done.
  - intros k Hnk. rewrite place_at_swap by lia. apply bh_free0. unfold swap_ix. repeat case_decide; lia.
  - by apply entries_swap.
  - by apply entries_swap.
  - intros rid k. rewrite place_at_swap by lia. rewrite lookup_insert_Some, lookup_insert_Some, bh_index0. split.
    + intros [[<- <-]|(Hne2 & [[<- <-]|(Hne1 & q & Hq & <-)])].
      * exists p2. by rewrite swap_ix_l.
      * exists p1. by rewrite swap_ix_r.
      * exists q. split; [|done]. unfold swap_ix. rewrite !decide_False; [done|intros ->; congruence..].
    + intros (q & Hq & <-). unfold swap_ix in Hq. repeat case_decide; simplify_eq.
      * left. done.
      * destruct (decide (pl_id p2 = pl_id p1)) as [E|Hne].
        -- left. split; [done|]. by apply (Hd _ _ _ _ Hp1 Hp2).
        -- right. split; [done|]. by left.
      * right. split; [intros E; by pose proof (Hd _ _ _ _ Hq Hp2 (eq_sym E))|]. right. split; [intros E; by pose proof (Hd _ _ _ _ Hq Hp1 (eq_sym E))|]. by exists q.
  - intros Hpo. rewrite Hpo. destruct (bh_sampling0 Hpo) as [Hs1 Hs2]. split; [apply swap_sampling_hold; (done || lia)|by eapply sets_same].
  - intros k q. rewrite place_at_swap by lia. apply bh_kind0.
  - intros Hpo rid v. rewrite (bh_pooling0 Hpo). by setoid_rewrite Hk.
  - apply lora_same with ps; [done|rewrite np_swap_length; apply (lh_dim _ _ _ bh_lora0)|done|]. intros k q. rewrite place_at_swap by lia. intros Hq.
    rewrite np_swap_lookup by (rewrite (lh_dim _ _ _ bh_lora0); lia). by apply (lh_mapping _ _ _ bh_lora0).
Qed.

(** Sliding a request into an empty place. *)
Lemma move_slot_holds n ps b src tgt p : batch_holds n ps b → place_at ps src = Some p → place_at ps tgt = None → tgt < n →
  ∃ b', move_slot src tgt b = Ok b' ∧ batch_holds n (move_place src tgt ps) b' ∧ same_config b b' ∧
    ib_builder b' = if is_pooling_model (ib_config b) then ib_builder b else push_moved (src, tgt, UNIDIRECTIONAL) (ib_builder b).
Proof.
  intros H Hp Hnone Ht. pose proof (batch_lt _ _ _ _ _ H Hp) as Hs. pose proof (bh_in_use _ _ _ H) as Hn. pose proof (bh_count _ _ _ H) as Hps.
  assert (Hne : src ≠ tgt) by congruence. unfold move_slot.
  rewrite (entries_np_get _ _ _ _ _ _ (bh_ids _ _ _ H) Hp Hs), (entries_np_get _ _ _ _ _ _ (bh_refs _ _ _ H) Hp Hs). cbn [mbind result_bind unwrap].
  assert (Hent : ∀ {A} (f : Place → A) l, entries f n ps l → ∃ l', np_set tgt (Some (f p)) l = Ok l' ∧ ∃ l2, np_set src None l' = Ok l2 ∧ entries f n (move_place src tgt ps) l2).
  { intros A f l Hl. destruct (entries_set f n ps l tgt (Some p) Hl Ht Hn) as [E1 En1]. simpl in E1. eexists. split; [exact E1|].
    destruct (entries_set f n _ _ src None En1 Hs) as [E2 En2]; [by rewrite length_insert|]. simpl in E2, En2. eexists. split; [exact E2|].
    unfold move_place. by rewrite Hp. }
  destruct (Hent _ pl_id _ (bh_ids _ _ _ H)) as (ids1 & -> & ids2 & E1 & Hids). destruct (Hent _ pl_ref _ (bh_refs _ _ _ H)) as (refs1 & E0 & refs2 & E2 & Hrefs).
  clear Hent. cbn [mbind result_bind]. rewrite E1. cbn [mbind result_bind]. rewrite E0. cbn [mbind result_bind]. rewrite E2. cbn [mbind result_bind].
  destruct (move_tokens_hold _ n ps _ src tgt p (bh_tokens _ _ _ H) Hn Hps Hp Hnone Hs Ht) as (tok & -> & Htok). cbn [mbind result_bind].
  destruct (move_row_tables ps _ src tgt (bh_tables _ _ _ H)) as (ts & -> & Htc & Hts); [lia|lia|done..|]. cbn [mbind result_bind]. eexists. split; [done|]. split; [|done].
  pose proof (batch_distinct _ _ _ H) as Hd. assert (Hk : ∀ k, present (move_place src tgt ps) k ↔ present ps k) by (intros k; apply present_move; (done || lia)).
  destruct H. split; simpl; rewrite ?move_place_length; try done.
  - intros k Hnk. rewrite place_at_move by (done || lia). repeat case_decide; [done|lia|auto].
  - intros rid k. rewrite place_at_move by (done || lia). rewrite lookup_insert_Some, bh_index0. split.
    + intros [[<- <-]|(Hne1 & q & Hq & <-)]; [exists p; by rewrite decide_False, decide_True by done|]. exists q.
      rewrite !decide_False; [done|intros ->; congruence..].
    + intros (q & Hq & <-). repeat case_decide; simplify_eq; [by left|]. right. split; [|by exists q]. intros E. by pose proof (Hd _ _ _ _ Hq Hp (eq_sym E)).
  - intros Hpo. rewrite Hpo. destruct (bh_sampling0 Hpo) as [Hs1 Hs2]. split; [apply move_sampling_hold; (done || lia)|by eapply sets_same].
  - intros k q. rewrite place_at_move by (done || lia). intros Hq. repeat case_decide; [done|by eapply bh_kind0..].
  - intros Hpo rid v. rewrite (bh_pooling0 Hpo). by setoid_rewrite Hk.
  - apply lora_same with ps; [done|rewrite np_copy_length; apply (lh_dim _ _ _ bh_lora0)|done|]. intros k q. rewrite place_at_move by (done || lia). intros Hq.
    rewrite np_copy_lookup by (rewrite (lh_dim _ _ _ bh_lora0); lia). case_decide; [done|]. case_decide; by apply (lh_mapping _ _ _ bh_lora0).
Qed.
End Run.
