(* ===== verification/Condense.v ===== *)
(** * Condensing the persistent batch

    [condense] slides requests from the end of the batch into the holes that
    removed requests left.  It terminates, leaves the requests in the first
    [num_reqs] places, and each of them keeps everything it had. *)

From S2P Require Import Prelude NumPy BlockTable BlockTableSpec InputBatch InputBatchSpec InputBatchParts InputBatchRun.
From Stdlib Require Import QArith.
Local Open Scope nat_scope.

(** ** What the loop does to the places *)

(** [slides R ps ms R' ps']: the moves [ms], each of a request into the first hole
    of [R] that is left, lead from the places [ps] to [ps']. *)
Inductive slides : list nat → places → list (nat * nat) → list nat → places → Prop :=
  | slides_nil R R' ps : R' ≡ₚ R → slides R ps [] R' ps
  | slides_cons R R1 R' ps ps' src tgt ms p :
      R1 ++ [tgt] ≡ₚ R → (∀ j, j ∈ R → tgt ≤ j) → tgt < src → src ∉ R → place_at ps src = Some p → place_at ps tgt = None →
      slides R1 (move_place src tgt ps) ms R' ps' → slides R ps ((src, tgt) :: ms) R' ps'.

Lemma slides_length R ps ms R' ps' : slides R ps ms R' ps' → length ps' = length ps.
Proof. induction 1 as [|R R1 R' ps ps' src tgt ms p _ _ _ _ _ _ _ IH]; [done|]. by rewrite IH, move_place_length. Qed.

Definition requests (ps : places) : list Place := omap id ps.

Lemma requests_perm_live ps : requests ps ≡ₚ omap (place_at ps) (seq 0 (length ps)).
Proof.
  unfold requests. apply reflexive_eq. induction ps as [|o ps IH]; [done|]. cbn [length seq]. simpl. change (place_at (o :: ps) 0) with o.
  assert (Hshift : ∀ l : list nat, omap (place_at (o :: ps)) (map S l) = omap (place_at ps) l).
  { intros l. induction l as [|i l IHl]; [done|]. simpl. change (place_at (o :: ps) (S i)) with (place_at ps i). unfold omap in IHl. by rewrite IHl. }
  unfold omap in *. rewrite <-seq_shift, Hshift, <-IH. by destruct o.
Qed.

Lemma requests_move ps src tgt p : place_at ps src = Some p → place_at ps tgt = None → tgt < length ps →
  requests (move_place src tgt ps) ≡ₚ requests ps.
Proof.
  intros Hp Hn Ht. pose proof (place_at_lt _ _ _ Hp) as Hs. unfold move_place, requests. rewrite Hp.
  assert (Hins : ∀ (l : places) i (q : Place), l !! i = Some None → omap id (<[i := Some q]> l) ≡ₚ q :: omap id l).
  { intros l. induction l as [|o l IH]; intros i q Hi; [done|]. destruct i as [|i]; simpl in *; [by simplify_eq|].
    destruct o as [o|]; simpl; rewrite (IH i q Hi); [apply Permutation_swap|done]. }
  assert (Hdel : ∀ (l : places) i (q : Place), l !! i = Some (Some q) → omap id l ≡ₚ q :: omap id (<[i := None]> l)).
  { intros l. induction l as [|o l IH]; intros i q Hi; [done|]. destruct i as [|i]; simpl in *; [by simplify_eq|].
    destruct o as [o|]; simpl; rewrite (IH i q Hi); [apply Permutation_swap|done]. }
  assert (Hne : tgt ≠ src) by congruence.
  assert (Hnt : ps !! tgt = Some None). { destruct (lookup_lt_is_Some_2 ps tgt Ht) as [o Ho]. rewrite Ho. unfold place_at in Hn. rewrite Ho in Hn. simpl in Hn. by subst. }
  apply place_at_Some in Hp. apply (Permutation_cons_inv (a := p)). rewrite <-(Hdel (<[tgt := Some p]> ps) src p) by by rewrite list_lookup_insert_ne.
  by apply Hins.
Qed.

Lemma slides_requests R ps ms R' ps' : (∀ j, j ∈ R → j < length ps) → slides R ps ms R' ps' → requests ps' ≡ₚ requests ps.
Proof.
  intros Hlt H. induction H as [|R R1 R' ps ps' src tgt ms p Hperm _ _ _ Hp Hn _ IH]; [done|]. rewrite IH.
  - apply (requests_move ps src tgt p); [done|done|]. apply Hlt. rewrite <-Hperm. set_solver.
  - intros j Hj. rewrite move_place_length. apply Hlt. rewrite <-Hperm. set_solver.
Qed.

Lemma slides_removed R ps ms R' ps' : slides R ps ms R' ps' → R ≡ₚ R' ++ ms.*2.
Proof.
  induction 1 as [|R R1 R' ps ps' src tgt ms p Hperm _ _ _ _ _ _ IH]; simpl; [by rewrite app_nil_r|].
  rewrite <-Hperm, IH, <-app_assoc. f_equiv. symmetry. apply Permutation_cons_append.
Qed.

Lemma live_perm ps ps' : requests ps' ≡ₚ requests ps → length (live ps') = length (live ps).
Proof.
  assert (H : ∀ ps, length (requests ps) = length (live ps)).
  { intros qs. rewrite requests_perm_live. unfold live. induction (seq 0 (length qs)) as [|i l IH]; [done|]. simpl.
    destruct (place_at qs i) eqn:E; [rewrite filter_cons_True by (by eexists)|rewrite filter_cons_False by (rewrite E; by intros [? ?])]; simpl; unfold omap in IH; by rewrite IH. }
  intros Hp. by rewrite <-!H, Hp.
Qed.

(** A batch without holes. *)
Definition dense ps : Prop := ∀ i, place_at ps i = None ↔ length (live ps) ≤ i.

Section Condense.
Context (f32 : Q → Q).
Implicit Types (b : InputBatch) (ps : places) (p : Place).

(** Places up to [last] that are not removed hold requests, those behind do not. *)
Record sliding (n last : nat) ps (R : list nat) : Prop := {
  sl_nodup : NoDup R;
  sl_lt : ∀ i, i ∈ R → i < n;
  sl_hole : ∀ i, i < n → place_at ps i = None ↔ i ∈ R ∨ last < i;
  sl_last : last < n;
}.

Lemma last_live_spec R i : match last_live R i with
                           | Some k => (k ≤ i) ∧ (k ∉ R) ∧ (∀ j, (k < j ≤ i) → j ∈ R)
                           | None => ∀ j, j ≤ i → j ∈ R
                           end.
Proof.
  induction i as [|i IH]; simpl.
  - case_decide; [intros j Hj; by replace j with 0 by lia|]. split_and!; [done|done|lia].
  - case_decide as Hi; [|split_and!; [done|done|lia]]. destruct (last_live R i) as [k|].
    + destruct IH as (Hk & Hn & Hj). split_and!; [lia|done|]. intros j Hjk. destruct (decide (j = S i)) as [->|]; [done|]. apply Hj. lia.
    + intros j Hj. destruct (decide (j = S i)) as [->|]; [done|]. apply IH. lia.
Qed.

(** When nothing is left to fill below [last], the requests are in front. *)
Lemma sliding_dense n last ps R : sliding n last ps R → n ≤ length ps → (∀ i, n ≤ i → place_at ps i = None) →
  (∀ i, i ≤ last → i ∉ R) → dense ps.
Proof.
  intros [Hd Hlt Hh Hl] Hn Hfree Hnone.
  assert (Hlive : ∀ i, place_at ps i = None ↔ last < i).
  { intros i. destruct (decide (i < n)) as [Hi|Hi]; [|split; [lia|intros _; apply Hfree; lia]]. rewrite (Hh i Hi). split; [|by right].
    intros [Hr|?]; [|done]. destruct (decide (i ≤ last)); [by destruct (Hnone i)|lia]. }
  assert (Hp : live ps ≡ₚ seq 0 (S last)).
  { apply NoDup_Permutation; [apply NoDup_live|apply NoDup_seq|]. intros i. rewrite elem_of_live, elem_of_seq. specialize (Hlive i).
    destruct (place_at ps i) as [p|]; [|naive_solver lia]. split; [intros _|intros _; by exists p].
    destruct (decide (last < i)) as [Hgt|]; [by apply Hlive in Hgt|lia]. }
  intros i. rewrite Hp, length_seq, Hlive. lia.
Qed.

(** The loop: it ends, with the requests in front. *)
Lemma condense_loop_holds fuel : ∀ n last ps b, length (removed_list (ib_builder b)) ≤ fuel →
  batch_holds f32 n ps b → sliding n last ps (removed_list (ib_builder b)) → sorted_if (ib_builder b) → is_Some (head (live ps)) →
  ∃ b' ps' ms, condense_loop fuel last b = Ok b' ∧ batch_holds f32 n ps' b' ∧ same_config b b' ∧ dense ps' ∧
    slides (removed_list (ib_builder b)) ps ms (removed_list (ib_builder b')) ps' ∧ added (ib_builder b') = added (ib_builder b) ∧
    moved (ib_builder b') = moved (ib_builder b) ++ (if is_pooling_model (ib_config b) then [] else map (λ '(s, t), (s, t, UNIDIRECTIONAL)) ms).
Proof.
  assert (Hdone : ∀ b (l : list MovedRequest), l ++ (if is_pooling_model (ib_config b) then [] else map (λ '(s, t), (s, t, UNIDIRECTIONAL)) []) = l).
  { intros b l. destruct (is_pooling_model (ib_config b)); by rewrite app_nil_r. }
  induction fuel as [|fuel IH]; intros n last ps b Hfuel H Hsl Hs Hne; pose proof (bh_in_use _ _ _ _ H) as Hn; pose proof (bh_free _ _ _ _ H) as Hfree.
  - assert (E : removed_list (ib_builder b) = []) by (apply length_zero_iff_nil; lia). cbn [condense_loop]. rewrite E.
    exists b, ps, []. rewrite Hdone, E. split_and!; try done; [|by constructor]. rewrite E in Hsl. eapply sliding_dense; [done..|]. by intros i _ ?%elem_of_nil.
  - cbn [condense_loop]. destruct (removed_list (ib_builder b)) as [|x R0] eqn:E.
    { exists b, ps, []. rewrite Hdone, E. split_and!; try done; [|by constructor]. eapply sliding_dense; [done..|]. by intros i _ ?%elem_of_nil. }
    rewrite <-E in *. pose proof (last_live_spec (removed_list (ib_builder b)) last) as Hll. destruct (last_live _ last) as [k|].
    2: { exfalso. destruct Hne as [i Hi]. assert (Hin : i ∈ live ps) by (destruct (live ps); simplify_eq/=; by left).
         apply elem_of_live in Hin as [p Hp]. pose proof (batch_lt _ _ _ _ _ _ H Hp) as Hlt.
         assert (place_at ps i = None) as E'; [|congruence]. apply (sl_hole _ _ _ _ Hsl i Hlt).
         destruct (decide (i ≤ last)); [left; by apply Hll|right; lia]. }
    destruct Hll as (Hkl & Hkn & Hbetween). destruct (pop_removed_some (ib_builder b) Hs ltac:(by rewrite E)) as (t & u & _ & [Hpeek Hpop] & Hperm & Hmin & Hsu & Ha & Hm).
    rewrite Hpeek. cbn [mbind result_bind unwrap]. assert (Htin : t ∈ removed_list (ib_builder b)) by (rewrite <-Hperm; set_solver).
    destruct (Nat.leb_spec k t) as [Hle|Hgt].
    + exists (set_builder (ensure_removed_sorted (ib_builder b)) b), ps, []. destruct (ensure_sorted (ib_builder b)) as (Hpe & _ & _ & Hea & Hem). simpl.
      rewrite Hdone. split_and!; [done|by apply batch_holds_builder|done| | |done|done].
      * eapply (sliding_dense n k ps (removed_list (ib_builder b))); [|done..|].
        -- destruct Hsl as [S1 S2 S3 S4]. split; [done|done| |lia]. intros i Hi. rewrite (S3 i Hi). split; intros [?|?]; [by left|right; lia|by left|].
           destruct (decide (i ≤ last)); [left; apply Hbetween; lia|right; lia].
        -- intros i Hi Hr. pose proof (Hmin i Hr). assert (i = k) as -> by lia. done.
      * by constructor.
    + assert (Hkp : ∃ p, place_at ps k = Some p).
      { destruct (place_at ps k) as [p|] eqn:Ek; [by exists p|]. apply (sl_hole _ _ _ _ Hsl) in Ek as [?|?]; [done|lia|]. pose proof (sl_last _ _ _ _ Hsl). lia. }
      destruct Hkp as [p Hp]. pose proof (place_at_lt _ _ _ Hp) as Hklt. pose proof (sl_lt _ _ _ _ Hsl t Htin) as Htn.
      assert (Hnt : place_at ps t = None) by (apply (sl_hole _ _ _ _ Hsl t Htn); by left). rewrite Hpop.
      destruct (move_slot_holds f32 n ps (set_builder u b) k t p (batch_holds_builder _ _ _ _ _ H) Hp Hnt Htn) as (b1 & -> & H1 & [Hc1 Hc2] & Hu1).
      cbn [mbind result_bind]. simpl in Hc1, Hc2, Hu1.
      assert (Hr1 : removed_list (ib_builder b1) = removed_list u ∧ sorted_if (ib_builder b1) ∧ added (ib_builder b1) = added u ∧
        moved (ib_builder b1) = moved u ++ (if is_pooling_model (ib_config b) then [] else [(k, t, UNIDIRECTIONAL)])).
      { rewrite Hu1. destruct (is_pooling_model (ib_config b)); split_and!; try done. by rewrite app_nil_r. }
      destruct Hr1 as (Hr1 & Hs1 & Ha1 & Hm1). pose proof Hperm as Hlen. apply Permutation_length in Hlen. rewrite length_app in Hlen. simpl in Hlen.
      assert (Hnd : NoDup (removed_list u ++ [t])) by (rewrite Hperm; apply (sl_nodup _ _ _ _ Hsl)). apply NoDup_app in Hnd as (Hnd & Hdis & _).
      assert (Hsl1 : sliding n (k - 1) (move_place k t ps) (removed_list (ib_builder b1))).
      { rewrite Hr1. destruct Hsl as [S1 S2 S3 S4]. split; [done| | |lia].
        - intros i Hi. apply S2. rewrite <-Hperm. set_solver.
        - intros i Hi. rewrite place_at_move by lia. specialize (S3 i Hi). rewrite <-Hperm, elem_of_app, list_elem_of_singleton in S3.
          destruct (decide (i = k)) as [->|Hik]; [split; [intros _; right; lia|done]|]. destruct (decide (i = t)) as [->|Hit].
          + rewrite Hp. split; [done|]. intros [Hr|?]; [|lia]. destruct (Hdis t Hr). by left.
          + rewrite S3. split; [|intros [?|?]; [by left; left|]].
            * intros [[?|?]|?]; [by left|done|right; lia].
            * destruct (decide (i ≤ last)) as [Hil|]; [|right; lia]. assert (i ∈ removed_list (ib_builder b)) as Hin by (apply Hbetween; lia).
              rewrite <-Hperm in Hin. apply elem_of_app in Hin as [?|?%list_elem_of_singleton]; [by left; left|done]. }
      assert (Hne1 : is_Some (head (live (move_place k t ps)))).
      { assert (t ∈ live (move_place k t ps)) as Hin; [|destruct (live (move_place k t ps)); [by apply elem_of_nil in Hin|by eexists]].
        apply elem_of_live. exists p. rewrite place_at_move by lia. by rewrite decide_False, decide_True by lia. }
      destruct (IH n (k - 1) (move_place k t ps) b1 ltac:(rewrite Hr1; lia) H1 Hsl1 Hs1 Hne1) as (b' & ps' & ms & Hrun & Hb' & [Hd1 Hd2] & Hdense & Hslides & Ha' & Hm').
      exists b', ps', ((k, t) :: ms). split_and!; [done|done|split; congruence|done| | |].
      * rewrite Hr1 in Hslides. by eapply slides_cons.
      * congruence.
      * rewrite Hm', Hm1, Hm, Hc1, <-app_assoc. by destruct (is_pooling_model (ib_config b)).
Qed.

Lemma trim_holds n m ps b : batch_holds f32 n ps b → m ≤ n → (∀ i, m ≤ i → place_at ps i = None) → batch_holds f32 m ps (trim m b).
Proof.
  intros [] Hm Hfree. split; simpl; try done; try lia.
  - by eapply entries_take.
  - by eapply entries_take.
  - destruct bh_tokens as [[] Hc Hs Ha]. split; simpl; [by split|rewrite length_take; lia| |].
    + intros i s. rewrite lookup_take_Some. intros [Hi _]. by apply Hs.
    + intros i p Hp. by eapply (tokens_at_frame _ (ib_tokens b)), Ha.
Qed.

(** The whole method. *)
Lemma condense_holds n ps b : batch_holds f32 n ps b → holes n ps (removed_list (ib_builder b)) → sorted_if (ib_builder b) →
  ∃ b' ps' ms, condense b = Ok b' ∧ batch_holds f32 (num_reqs b) ps' b' ∧ same_config b b' ∧ dense ps' ∧
    slides (removed_list (ib_builder b)) ps ms (removed_list (ib_builder b')) ps' ∧ added (ib_builder b') = added (ib_builder b) ∧
    moved (ib_builder b') = moved (ib_builder b) ++ (if is_pooling_model (ib_config b) then [] else map (λ '(s, t), (s, t, UNIDIRECTIONAL)) ms).
Proof.
  intros H Hh Hs. pose proof (bh_in_use _ _ _ _ H) as Hn. pose proof (bh_free _ _ _ _ H) as Hfree. pose proof (num_reqs_live _ _ _ _ H) as Hlive.
  pose proof (holes_count _ _ _ Hh Hn Hfree) as Hcount. destruct (ensure_sorted (ib_builder b)) as (Hpe & Hss & Hfl & Hea & Hem). specialize (Hss Hs).
  unfold condense, removed. set (u := ensure_removed_sorted (ib_builder b)) in *.
  assert (Hnil : ∀ l : list MovedRequest, l ++ (if is_pooling_model (ib_config b) then [] else map (λ '(s, t), (s, t, UNIDIRECTIONAL)) []) = l).
  { intros l. destruct (is_pooling_model (ib_config b)); by rewrite app_nil_r. }
  assert (Hdense : ∀ m, removed_list (ib_builder b) = [] ∨ m = 0 → m = length (live ps) → dense ps).
  { intros m Hm -> i. split; [|intros Hi].
    - intros Hi. destruct (decide (length (live ps) ≤ i)); [done|]. exfalso. assert (Hin : i ∈ removed_list (ib_builder b)) by (apply (ho_elem _ _ _ Hh); split; [lia|done]).
      destruct Hm as [Hm|Hm]; [rewrite Hm in Hin; by apply elem_of_nil in Hin|lia].
    - destruct Hm as [Hm|Hm]; [apply Hfree; rewrite Hm in Hcount; simpl in Hcount; lia|].
      destruct (place_at ps i) as [p|] eqn:E; [|done]. assert (i ∈ live ps) as Hin by (apply elem_of_live; by exists p).
      rewrite (proj1 (length_zero_iff_nil _) Hm) in Hin. by apply elem_of_nil in Hin. }
  destruct (removed_list u) as [|x R] eqn:E.
  - symmetry in Hpe. apply Permutation_nil_r in Hpe. exists (set_builder u b), ps, []. simpl. rewrite Hnil, E, Hpe. split_and!; try done.
    + rewrite Hlive. rewrite Hpe in Hcount. simpl in Hcount. rewrite Nat.add_0_r in Hcount. rewrite Hcount. by apply batch_holds_builder.
    + eapply Hdense; [by left|done].
    + by constructor.
  - pose proof (Permutation_length Hpe) as Hpl. destruct (decide (num_reqs b = 0)) as [Hz|Hnz].
    + exists (trim 0 (set_builder u b)), ps, []. simpl. rewrite Hnil, Hz, E. split_and!; try done.
      * apply (trim_holds n); [by apply batch_holds_builder|lia|]. intros i _. assert (dense ps) as Hd by (eapply Hdense; [by right|lia]). apply Hd. lia.
      * eapply Hdense; [by right|lia].
      * by constructor.
    + rewrite <-E in *. assert (Hsl : sliding n (n - 1) ps (removed_list u)).
      { destruct (holes_perm _ _ _ _ Hpe Hh) as [Hd He]. split; [done|intros i Hi; by apply He| |].
        - intros i Hi. rewrite He. split; [by left|]. intros [[_ ?]|?]; [done|lia].
        - rewrite E in Hpl. simpl in Hpl. lia. }
      destruct (condense_loop_holds (length (removed_list u)) n (n - 1) ps (set_builder u b)) as (b' & ps' & ms & Hrun & Hb' & Hsame & Hdense' & Hslides & Ha' & Hm').
      { done. }
      { by apply batch_holds_builder. }
      { done. }
      { intros _. exact Hss. }
      { rewrite Hlive in Hnz. destruct (live ps); [done|by eexists]. }
      assert (Hreq : requests ps' ≡ₚ requests ps).
      { eapply slides_requests; [|exact Hslides]. intros j Hj. simpl in Hj. apply (sl_lt _ _ _ _ Hsl) in Hj. lia. }
      replace (num_reqs b + length (removed_list u) - 1) with (n - 1) by lia. rewrite Hrun. cbn [mbind result_bind].
      exists (trim (num_reqs b) b'), ps', ms. split_and!; try done.
      * apply (trim_holds n); [done|lia|]. intros i Hi. apply Hdense'. rewrite (live_perm _ _ Hreq). lia.
      * simpl. simpl in Hslides. clear -Hslides Hpe. destruct Hslides as [R R' ps Hp|R R1 R' ps ps' src tgt ms p Hp Hmin Hlt Hn Hsp Htp Hr].
        -- constructor. by rewrite Hp, Hpe.
        -- eapply slides_cons; [by rewrite Hp, Hpe| |done| |done|done|done]; setoid_rewrite <-Hpe; done.
      * simpl in *. congruence.
      * simpl in *. congruence.
Qed.
(** A request that was not moved is where it was. *)
Lemma slides_stay R ps ms R' ps' : slides R ps ms R' ps' → (∀ j, j ∈ R → j < length ps) → ∀ i, i ∉ R → place_at ps' i = place_at ps i ∨ place_at ps' i = None.
Proof.
  induction 1 as [R R' ps _|R R1 R' ps ps' src tgt ms p Hp _ Hlt Hsrc Hps _ _ IH]; intros Hin i Hi; [by left|].
  assert (Htin : tgt ∈ R) by (rewrite <-Hp; set_solver). pose proof (place_at_lt _ _ _ Hps) as Hs. pose proof (Hin tgt Htin) as Ht.
  assert (Hm : place_at (move_place src tgt ps) i = place_at ps i ∨ place_at (move_place src tgt ps) i = None).
  { rewrite place_at_move by (done || lia). destruct (decide (i = src)); [by right|]. rewrite decide_False by congruence. by left. }
  destruct (IH ltac:(intros j Hj; rewrite move_place_length; apply Hin; rewrite <-Hp; set_solver) i ltac:(intros Hi'; apply Hi; rewrite <-Hp; set_solver)) as [->|?]; [done|by right].
Qed.

(** C0: Condensing a batch with holes terminates with the same requests in the first
    [num_reqs] places and none behind them; each keeps everything the arrays,
    the tables and the dictionaries have of it, and a request that was in front
    already has not moved. *)
Theorem condense_correct n ps b : batch_holds f32 n ps b → holes n ps (removed_list (ib_builder b)) → sorted_if (ib_builder b) →
  ∃ b' ps', condense b = Ok b' ∧ batch_holds f32 (num_reqs b) ps' b' ∧ requests ps' ≡ₚ requests ps ∧
    (∀ i, is_Some (place_at ps' i) ↔ i < num_reqs b) ∧ (∀ i p, i < num_reqs b → place_at ps i = Some p → place_at ps' i = Some p).
Proof.
  intros H Hh Hs. destruct (condense_holds n ps b H Hh Hs) as (b' & ps' & ms & Hrun & Hb' & _ & Hdense & Hsl & _ & _).
  assert (Hlt : ∀ j, j ∈ removed_list (ib_builder b) → j < length ps) by (intros j [Hj _]%(ho_elem _ _ _ Hh); pose proof (bh_in_use _ _ _ _ H); lia).
  pose proof (slides_requests _ _ _ _ _ Hlt Hsl) as Hreq. pose proof (live_perm _ _ Hreq) as Hl. pose proof (num_reqs_live _ _ _ _ H) as Hn.
  assert (Hd : ∀ i, is_Some (place_at ps' i) ↔ i < num_reqs b).
  { intros i. rewrite <-not_eq_None_Some, (Hdense i), Hl, <-Hn. lia. }
  exists b', ps'. split_and!; try done. intros i p Hi Hp. destruct (slides_stay _ _ _ _ _ Hsl Hlt i) as [E|E].
  - intros [_ Hin]%(ho_elem _ _ _ Hh). congruence.
  - by rewrite E.
  - apply Hd in Hi as [q Hq]. congruence.
Qed.
End Condense.
