(* ===== verification/LogitsUpdates.v ===== *)
(** * Logits processors follow the batch

    A logits processor keeps a dictionary from batch index to the state of the
    request there ([process_dict_updates] of
    [v1/sample/logits_processor/builtin.py]).  It is told of a step's removals,
    additions and moves at once, in another order than they happened; the
    dictionary it ends with is the one that following each change at once gives. *)

From S2P Require Import Prelude NumPy InputBatch InputBatchSpec.
Local Open Scope nat_scope.

Section Updates.
Context {T : Type} (truthy_entry : T → bool) (new_state : BatchParams → option (list Z) → output_ref → option T).
Implicit Types (d : gmap nat T).

(** One added request. *)
Definition add_entry (a : AddedRequest) (s : bool * gmap nat T) : bool * gmap nat T :=
  let '(updated, d) := s in
  match new_state (added_params a) (added_prompt_tok_ids a) (added_output_tok_ids a) with
  | Some state => (true, <[added_index a := state]> d)
  | None => match d !! added_index a with Some _ => (true, delete (added_index a) d) | None => (updated, d) end
  end.

Definition remove_entry (index : nat) (s : bool * gmap nat T) : bool * gmap nat T :=
  let '(updated, d) := s in
  (match d !! index with Some e => if truthy_entry e then true else updated | None => updated end, delete index d).

Definition move_entry (m : MovedRequest) (s : bool * gmap nat T) : bool * gmap nat T :=
  let '(a_index, b_index, direct) := m in
  let '(updated, d) := s in
  let a_entry := d !! a_index in
  let d := delete a_index d in
  let b_entry := d !! b_index in
  let d := delete b_index d in
  let '(updated, d) := match a_entry with Some e => (true, <[b_index := e]> d) | None => (updated, d) end in
  match b_entry with
  | Some e => (true, if decide (direct = SWAP) then <[a_index := e]> d else d)
  | None => (updated, d)
  end.

(** [process_dict_updates] *)
Definition process_dict_updates d (batch_update : option BatchUpdate) : bool * gmap nat T :=
  match batch_update with
  | None => (false, d)
  | Some u =>
      let s := foldl (λ s a, add_entry a s) (false, d) (bu_added u) in
      if decide (s.2 = ∅) then s
      else foldl (λ s m, move_entry m s) (foldl (λ s i, remove_entry i s) s (bu_removed u)) (bu_moved u)
  end.

(** ** The dictionaries, without the flag *)

Definition add1 (a : AddedRequest) d : gmap nat T :=
  match new_state (added_params a) (added_prompt_tok_ids a) (added_output_tok_ids a) with
  | Some state => <[added_index a := state]> d
  | None => delete (added_index a) d
  end.
Definition move1 (m : MovedRequest) d : gmap nat T := (move_entry m (false, d)).2.
Definition add_all (l : list AddedRequest) d := foldl (λ d a, add1 a d) d l.
Definition remove_all (l : list nat) d := foldl (λ d i, delete i d) d l.
Definition move_all (l : list MovedRequest) d := foldl (λ d m, move1 m d) d l.

Lemma add_entry_snd a s : (add_entry a s).2 = add1 a s.2.
Proof.
  destruct s as [updated d]. unfold add_entry, add1. simpl. destruct (new_state _ _ _); [done|].
  destruct (d !! added_index a) eqn:E; [done|]. simpl. by rewrite delete_id.
Qed.

Lemma move_entry_snd m s : (move_entry m s).2 = move1 m s.2.
Proof. destruct s as [updated d], m as [[a b] direct]. unfold move1, move_entry. simpl. by destruct (d !! a), (delete a d !! b). Qed.

Lemma fold_snd {A} (f : A → bool * gmap nat T → bool * gmap nat T) (g : A → gmap nat T → gmap nat T) l s :
  (∀ a s, (f a s).2 = g a s.2) → (foldl (λ s a, f a s) s l).2 = foldl (λ d a, g a d) s.2 l.
Proof. intros H. revert s. induction l as [|a l IH]; intros s; simpl; [done|]. by rewrite IH, H. Qed.

Lemma move1_empty m : move1 m ∅ = ∅.
Proof. destruct m as [[a b] direct]. unfold move1. simpl. by rewrite lookup_empty, !delete_empty, lookup_empty. Qed.

(** The processed dictionary; the shortcut for an empty one makes no difference. *)
Lemma process_snd d u : (process_dict_updates d (Some u)).2 = move_all (bu_moved u) (remove_all (bu_removed u) (add_all (bu_added u) d)).
Proof.
  unfold process_dict_updates. set (s := foldl (λ s a, add_entry a s) (false, d) (bu_added u)).
  assert (Hs : s.2 = add_all (bu_added u) d) by (unfold s; by rewrite (fold_snd add_entry add1 _ _ add_entry_snd)).
  cbn zeta. destruct (decide (s.2 = ∅)) as [He|He].
  - rewrite Hs in *. rewrite He. assert (remove_all (bu_removed u) ∅ = ∅) as ->.
    { unfold remove_all. induction (bu_removed u) as [|i l IH]; simpl; [done|]. by rewrite delete_empty. }
    unfold move_all. induction (bu_moved u) as [|m l IH]; simpl; [done|]. by rewrite move1_empty.
  - rewrite (fold_snd move_entry move1 _ _ move_entry_snd), (fold_snd remove_entry (λ i, delete i)); [by rewrite Hs|]. by intros i [? ?].
Qed.

(** ** The changes at once *)

Lemma add1_delete a d i : i ≠ added_index a → add1 a (delete i d) = delete i (add1 a d).
Proof. intros Hi. unfold add1. destruct (new_state _ _ _); [by rewrite delete_insert_ne|apply delete_delete]. Qed.

Lemma add1_own a d : add1 a (delete (added_index a) d) = add1 a d.
Proof. unfold add1. destruct (new_state _ _ _); [by rewrite insert_delete_eq|by rewrite delete_delete_eq]. Qed.

Lemma remove_all_lookup l d i : remove_all l d !! i = if decide (i ∈ l) then None else d !! i.
Proof.
  unfold remove_all. revert d. induction l as [|x l IH]; intros d; simpl; [done|]. rewrite IH. destruct (decide (i = x)) as [->|Hne].
  - rewrite lookup_delete_eq. rewrite (decide_True (P := x ∈ x :: l)) by left. by destruct (decide (x ∈ l)).
  - rewrite lookup_delete_ne by done. destruct (decide (i ∈ l)) as [Hi|Hi], (decide (i ∈ x :: l)) as [H2|H2]; try done.
    + destruct H2. by right.
    + by apply elem_of_cons in H2 as [?|?].
Qed.

Lemma remove_all_perm l l' d : l ≡ₚ l' → remove_all l d = remove_all l' d.
Proof. intros Hp. apply map_eq. intros i. rewrite !remove_all_lookup.
  destruct (decide (i ∈ l)) as [Hi|Hi], (decide (i ∈ l')) as [H2|H2]; try done; [destruct H2; by rewrite <-Hp|destruct Hi; by rewrite Hp].
Qed.

Lemma remove_all_snoc l i d : remove_all (l ++ [i]) d = delete i (remove_all l d).
Proof. unfold remove_all. by rewrite foldl_app. Qed.

Lemma remove_all_insert l i v d : i ∉ l → remove_all l (<[i := v]> d) = <[i := v]> (remove_all l d).
Proof.
  intros Hi. apply map_eq. intros k. rewrite remove_all_lookup. destruct (decide (k = i)) as [->|Hne].
  - rewrite decide_False by done. by rewrite !lookup_insert_eq.
  - by rewrite !lookup_insert_ne, remove_all_lookup.
Qed.

Lemma remove_all_delete l i d : remove_all l (delete i d) = delete i (remove_all l d).
Proof.
  apply map_eq. intros k. rewrite remove_all_lookup. destruct (decide (k = i)) as [->|Hne].
  - rewrite !lookup_delete_eq. by destruct (decide (i ∈ l)).
  - by rewrite !lookup_delete_ne, remove_all_lookup.
Qed.

Lemma add1_remove_all a l d : added_index a ∉ l → remove_all l (add1 a d) = add1 a (remove_all l d).
Proof. intros Ha. unfold add1. destruct (new_state _ _ _); [by apply remove_all_insert|apply remove_all_delete]. Qed.

Lemma move1_delete a b direct d i : i ≠ a → i ≠ b → move1 (a, b, direct) (delete i d) = delete i (move1 (a, b, direct) d).
Proof.
  intros Ha Hb. unfold move1. simpl. rewrite lookup_delete_ne by done. rewrite (delete_delete d a i). rewrite (lookup_delete_ne (delete a d) i b) by done.
  rewrite (delete_delete (delete a d) b i).
  destruct (d !! a), (delete a d !! b); simpl; rewrite ?delete_insert_ne by done; try done; case_decide; by rewrite ?delete_insert_ne.
Qed.

(** The target of a move may hold an entry that is on its way out. *)
Lemma move1_target a b d : a ≠ b → move1 (a, b, UNIDIRECTIONAL) (delete b d) = move1 (a, b, UNIDIRECTIONAL) d.
Proof.
  intros Hab. unfold move1. simpl. rewrite lookup_delete_ne by done. rewrite (delete_delete d a b), delete_delete_eq, lookup_delete_eq.
  destruct (d !! a); simpl; destruct (delete a d !! b); done.
Qed.

Lemma move_all_snoc l m d : move_all (l ++ [m]) d = move1 m (move_all l d).
Proof. unfold move_all. by rewrite foldl_app. Qed.

Definition touched (m : MovedRequest) (i : nat) : Prop := i = m.1.1 ∨ i = m.1.2.

Lemma move_all_delete l d i : (∀ m, m ∈ l → ¬ touched m i) → move_all l (delete i d) = delete i (move_all l d).
Proof.
  unfold move_all. revert d. induction l as [|[[a b] direct] l IH]; intros d H; simpl; [done|].
  assert (Hm : ¬ touched (a, b, direct) i) by (apply H; left). unfold touched in Hm. simpl in Hm. rewrite move1_delete by naive_solver.
  apply IH. intros m Hml. apply H. by right.
Qed.

(** [u] tells what leads from [d0] to [d]: the indices that are still removed are
    not used by an addition or a move. *)
Record tells d0 (u : BatchUpdateBuilder) d : Prop := {
  te_result : move_all (moved u) (remove_all (removed_list u) (add_all (added u) d0)) = d;
  te_nodup : NoDup (removed_list u);
  te_added : ∀ a, a ∈ added u → added_index a ∉ removed_list u;
  te_moved : ∀ m i, m ∈ moved u → i ∈ removed_list u → ¬ touched m i;
}.

Lemma tells_start d : tells d empty_builder d.
Proof. split; simpl; [done|constructor|by intros a ?%elem_of_nil|by intros m i ?%elem_of_nil]. Qed.

Lemma tells_perm d0 u u' d : tells d0 u d → removed_list u' ≡ₚ removed_list u → added u' = added u → moved u' = moved u → tells d0 u' d.
Proof.
  intros [H1 H2 H3 H4] Hp Ha Hm. split; rewrite ?Ha, ?Hm.
  - by rewrite (remove_all_perm _ _ _ Hp).
  - by rewrite Hp.
  - intros a. rewrite Hp. apply H3.
  - intros m i Hi. rewrite Hp. by apply H4.
Qed.

(** What a processor ends with. *)
Lemma tells_process d0 u d size : tells d0 u d → (process_dict_updates d0 (get_and_reset size u).1).2 = d.
Proof.
  intros [H _ _ _]. unfold get_and_reset. destruct (removed_list u) eqn:E1, (moved u) eqn:E2, (added u) eqn:E3; cbn [fst];
    first [rewrite process_snd; by rewrite <-H, ?E1, ?E2, ?E3|by rewrite <-H].
Qed.

Lemma tells_remove d0 u d i u' : tells d0 u d → added u = [] → moved u = [] → i ∉ removed_list u → removed_list u' = removed_list u ++ [i] →
  added u' = [] → moved u' = [] → tells d0 u' (delete i d).
Proof.
  intros [H1 H2 H3 H4] Ha Hm Hi Hr Ha' Hm'. rewrite Ha, Hm in H1. split; rewrite ?Ha', ?Hm', ?Hr.
  - simpl in *. rewrite remove_all_snoc. by rewrite <-H1.
  - apply NoDup_app. split_and!; [done| |apply NoDup_singleton]. by intros k Hk ->%list_elem_of_singleton.
  - by intros a ?%elem_of_nil.
  - by intros m k ?%elem_of_nil.
Qed.

Lemma tells_add d0 u d a u' : tells d0 u d → moved u = [] → added u' = added u ++ [a] → moved u' = [] →
  ((removed_list u = [] ∧ removed_list u' = []) ∨ (removed_list u' ++ [added_index a] ≡ₚ removed_list u)) → tells d0 u' (add1 a d).
Proof.
  intros [H1 H2 H3 H4] Hm Ha' Hm' Hr. rewrite Hm in H1. simpl in H1.
  assert (Hfacts : NoDup (removed_list u') ∧ (added_index a ∉ removed_list u') ∧ (∀ i, i ∈ removed_list u' → i ∈ removed_list u) ∧
    remove_all (removed_list u') (add1 a (add_all (added u) d0)) = add1 a d).
  { destruct Hr as [[E1 E2]|Hp].
    - rewrite E2. rewrite E1 in *. split_and!; [constructor|apply not_elem_of_nil|done|]. simpl in *. by rewrite <-H1.
    - rewrite <-Hp in H2. apply NoDup_app in H2 as (Hd & Hdis & _). assert (Hn : added_index a ∉ removed_list u') by (intros Hn; apply (Hdis _ Hn); left).
      split_and!; [done|done|intros i Hi; rewrite <-Hp; set_solver|]. rewrite add1_remove_all by done.
      rewrite <-H1, <-(remove_all_perm _ _ _ Hp), remove_all_snoc. by rewrite add1_own. }
  destruct Hfacts as (Hd & Hn & Hsub & Hres). split; rewrite ?Ha', ?Hm'.
  - unfold add_all. rewrite foldl_app. exact Hres.
  - done.
  - intros a' [Hin| ->%list_elem_of_singleton]%elem_of_app; [|done]. intros Hi. by apply (H3 a'), Hsub.
  - by intros m k ?%elem_of_nil.
Qed.

Lemma tells_slide d0 u d src tgt u' : tells d0 u d → removed_list u' ++ [tgt] ≡ₚ removed_list u → src ∉ removed_list u → src ≠ tgt →
  added u' = added u → moved u' = moved u ++ [(src, tgt, UNIDIRECTIONAL)] → tells d0 u' (move1 (src, tgt, UNIDIRECTIONAL) d).
Proof.
  intros [H1 H2 H3 H4] Hp Hs Hne Ha Hm. pose proof H2 as Hd. rewrite <-Hp in Hd. apply NoDup_app in Hd as (Hd & Hdis & _).
  assert (Hsub : ∀ i, i ∈ removed_list u' → i ∈ removed_list u) by (intros i Hi; rewrite <-Hp; set_solver). split; rewrite ?Ha, ?Hm.
  - rewrite move_all_snoc, <-H1, <-(remove_all_perm _ _ _ Hp), remove_all_snoc.
    rewrite move_all_delete; [by rewrite move1_target|]. intros m Hml. apply H4; [done|]. rewrite <-Hp. set_solver.
  - done.
  - intros a Hal Hi. by apply (H3 a Hal), Hsub.
  - intros m i [Hml| ->%list_elem_of_singleton]%elem_of_app Hi; [by apply H4, Hsub|]. intros [->| ->]; simpl in *; [by apply Hs, Hsub|].
    apply (Hdis tgt Hi). left.
Qed.

Lemma tells_swap d0 u d i1 i2 : tells d0 u d → i1 ∉ removed_list u → i2 ∉ removed_list u →
  tells d0 (push_moved (i1, i2, SWAP) u) (move1 (i1, i2, SWAP) d).
Proof.
  intros [H1 H2 H3 H4] Hi1 Hi2. split; simpl; [|done|done|].
  - by rewrite move_all_snoc, H1.
  - intros m i [Hm| ->%list_elem_of_singleton]%elem_of_app Hi; [by apply H4|]. intros [->| ->]; simpl in *; by auto.
Qed.
End Updates.
