(* ===== verification/ReorderBatch.v ===== *)
(** * Reordering the persistent batch

    [reorder_batch_to_split_decodes_and_prefills] of
    [v1/attention/backends/utils.py] brings decodes to the front of the batch,
    then short and long extends, then prefills, by exchanging requests along the
    cycles of a permutation. *)

From S2P Require Import Prelude NumPy BlockTable InputBatch InputBatchSpec InputBatchParts InputBatchRun Condense.
From Stdlib Require Import QArith.
From Stdlib Require Import Sorting.Sorted.
Local Open Scope nat_scope.

(** ** The code *)

(** The four masks for one request, and its region: 0 unless a mask says otherwise. *)
Definition req_region (decode_threshold num_scheduled num_computed num_prompt : nat) : nat :=
  let has_context := 0 <? num_computed in
  let is_below_threshold := num_scheduled <=? decode_threshold in
  let done_prefilling := num_prompt <=? num_computed in
  let is_pure_prefill := negb has_context in
  let is_long_extend := has_context && negb is_below_threshold in
  let is_short_extend := has_context && is_below_threshold && negb done_prefilling in
  if is_pure_prefill then 3 else if is_long_extend then 2 else if is_short_extend then 1 else 0.

Definition count_region (r : nat) (regions : list nat) : nat := length (filter (λ x, x = r) regions).

(** [np.repeat([0, 1, 2, 3], counts)] *)
Definition target_regions_of (regions : list nat) : list nat :=
  concat (map (λ r, replicate (count_region r regions) r) [0; 1; 2; 3]).

(** [np.argsort(keys, kind="stable")] *)
Fixpoint insert_key (keys : list nat) (i : nat) (l : list nat) : list nat :=
  match l with
  | [] => [i]
  | j :: l' => if decide (keys !!! i ≤ keys !!! j) then i :: l else j :: insert_key keys i l'
  end.
Definition argsort (keys : list nat) : list nat := foldr (insert_key keys) [] (seq 0 (length keys)).

(** The [while] loop: [dst] goes along a cycle of the map. *)
Fixpoint swap_cycle (fuel src dst : nat) (src_dest_map : list (nat * nat)) (b : InputBatch) : result (list (nat * nat) * InputBatch) :=
  if decide (src = dst) then Ok (src_dest_map, b)
  else match fuel with
       | O => Err OutOfFuel
       | S fuel =>
           b ← swap_states src dst b;
           let next_dst := default dst (od_get src_dest_map dst) in
           swap_cycle fuel src next_dst (od_set src_dest_map dst dst) b
       end.

Definition swap_from (s : list (nat * nat) * InputBatch) (src : nat) : result (list (nat * nat) * InputBatch) :=
  let '(src_dest_map, b) := s in
  dst ← unwrap KeyError (od_get src_dest_map src);
  swap_cycle (length src_dest_map) src dst src_dest_map b.

Definition reorder_batch_to_split_decodes_and_prefills (num_scheduled_tokens : gmap string nat) (decode_threshold : nat) (b : InputBatch) :
    result (bool * InputBatch) :=
  let n := length (ib_req_ids b) in
  scheduled ← mapM_ok (λ id, id ← unwrap KeyError id; unwrap KeyError (num_scheduled_tokens !! id)) (ib_req_ids b);
  let computed := take n (num_computed_tokens_cpu (ib_tokens b)) in
  let prompt := take n (num_prompt_tokens (ib_tokens b)) in
  let req_regions := zip_with (λ s '(c, p), req_region decode_threshold s c p) scheduled (zip computed prompt) in
  let target_regions := target_regions_of req_regions in
  let orig_indices := filter (λ i, req_regions !! i ≠ target_regions !! i) (seq 0 n) in
  match orig_indices with
  | [] => Ok (false, b)
  | _ =>
      let sorted_order := argsort (map (λ i, req_regions !!! i) orig_indices) in
      let src_indices := map (λ k, orig_indices !!! k) sorted_order in
      let src_dest_map := zip src_indices orig_indices in
      '(_, b) ← foldM swap_from (src_dest_map, b) (od_keys src_dest_map);
      Ok (true, b)
  end.

(** ** Sorting *)

Lemma insert_key_perm keys i l : insert_key keys i l ≡ₚ i :: l.
Proof. induction l as [|j l IH]; simpl; [done|]. case_decide; [done|]. rewrite IH. apply Permutation_swap. Qed.

Lemma argsort_perm keys : argsort keys ≡ₚ seq 0 (length keys).
Proof. unfold argsort. induction (seq 0 (length keys)) as [|i l IH]; simpl; [done|]. by rewrite insert_key_perm, IH. Qed.

Lemma insert_key_sorted keys i l : StronglySorted (λ a b, keys !!! a ≤ keys !!! b) l → StronglySorted (λ a b, keys !!! a ≤ keys !!! b) (insert_key keys i l).
Proof.
  induction 1 as [|j l Hl IH Hj]; simpl; [by repeat constructor|]. case_decide.
  - constructor; [by constructor|]. constructor; [done|]. eapply Forall_impl; [exact Hj|]. simpl. lia.
  - constructor; [done|]. rewrite insert_key_perm. constructor; [lia|done].
Qed.

Lemma argsort_sorted keys : StronglySorted (λ a b, keys !!! a ≤ keys !!! b) (argsort keys).
Proof. unfold argsort. induction (seq 0 (length keys)); simpl; [constructor|by apply insert_key_sorted]. Qed.

Lemma map_total_seq (l : list nat) : map (λ k, l !!! k) (seq 0 (length l)) = l.
Proof.
  apply list_eq. intros i. rewrite map_lookup. destruct (decide (i < length l)) as [Hi|Hi].
  - rewrite lookup_seq_lt by done. simpl. by rewrite <-list_lookup_lookup_total_lt.
  - by rewrite !lookup_ge_None_2 by (rewrite ?length_seq; lia).
Qed.

Lemma sorted_perm_eq (l l' : list nat) : StronglySorted le l → StronglySorted le l' → l ≡ₚ l' → l = l'.
Proof.
  intros H. revert l'. induction H as [|x l Hl IH Hx]; intros l' H' Hp; [by apply Permutation_nil_l in Hp|].
  destruct H' as [|y l' Hl' Hy]; [by apply Permutation_nil_r in Hp|]. assert (x = y) as ->.
  { rewrite Forall_forall in Hx, Hy. assert (x ∈ y :: l') as [->|H1]%elem_of_cons by (rewrite <-Hp; left); [done|].
    assert (y ∈ x :: l) as [->|H2]%elem_of_cons by (rewrite Hp; left); [done|]. specialize (Hx _ H2). specialize (Hy _ H1). simpl in *. lia. }
  f_equal. apply IH; [done|]. by apply Permutation_cons_inv in Hp.
Qed.

Lemma sorted_map {A} (f : A → nat) l : StronglySorted (λ a b, f a ≤ f b) l → StronglySorted le (map f l).
Proof. induction 1 as [|x l Hl IH Hx]; simpl; constructor; [done|]. by apply Forall_map. Qed.

Lemma replicate_sorted n (r : nat) : StronglySorted le (replicate n r).
Proof. induction n; simpl; constructor; [done|]. apply Forall_forall. intros x [-> _]%elem_of_replicate. done. Qed.

Lemma sorted_app (l l' : list nat) : StronglySorted le l → StronglySorted le l' → (∀ x y, x ∈ l → y ∈ l' → x ≤ y) → StronglySorted le (l ++ l').
Proof.
  intros H H'. induction H as [|x l Hl IH Hx]; intros Hle; simpl; [done|]. constructor.
  - apply IH. intros a c Ha Hc. apply Hle; [by right|done].
  - apply Forall_app. split; [done|]. apply Forall_forall. intros c Hc. apply Hle; [left|done].
Qed.

Lemma target_sorted l : StronglySorted le (target_regions_of l).
Proof.
  unfold target_regions_of. simpl. rewrite app_nil_r.
  repeat first [apply sorted_app; [apply replicate_sorted| |]|apply replicate_sorted];
    intros x y [-> _]%elem_of_replicate; rewrite ?elem_of_app, !elem_of_replicate; intros; naive_solver lia.
Qed.

Lemma target_perm l : (∀ r, r ∈ l → r ≤ 3) → target_regions_of l ≡ₚ l.
Proof.
  unfold target_regions_of, count_region. simpl. rewrite app_nil_r. induction l as [|x l IH]; intros Hl; [done|].
  specialize (IH (λ r H, Hl r (list_elem_of_further _ _ _ H))). assert (Hx : x ≤ 3) by (apply Hl; left).
  pose (c := λ r, length (filter (λ x, x = r) l)).
  change (replicate (c 0) 0 ++ replicate (c 1) 1 ++ replicate (c 2) 2 ++ replicate (c 3) 3 ≡ₚ l) in IH.
  assert (Hc : ∀ r, length (filter (λ x, x = r) (x :: l)) = if decide (x = r) then S (c r) else c r).
  { intros r. rewrite filter_cons. by destruct (decide (x = r)). }
  rewrite !Hc. trans (x :: replicate (c 0) 0 ++ replicate (c 1) 1 ++ replicate (c 2) 2 ++ replicate (c 3) 3); [|by rewrite IH].
  destruct x as [|[|[|[|x]]]]; [..|lia]; simpl; [done| | |].
  - by rewrite <-Permutation_middle.
  - by rewrite <-!Permutation_middle.
  - by rewrite <-!Permutation_middle.
Qed.

Lemma target_length l : (∀ r, r ∈ l → r ≤ 3) → length (target_regions_of l) = length l.
Proof. intros Hl. by rewrite (target_perm l Hl). Qed.

(** A sublist of a sorted list, taken at increasing positions, is sorted. *)
Lemma sorted_lookup_le (l : list nat) i j x y : StronglySorted le l → i ≤ j → l !! i = Some x → l !! j = Some y → x ≤ y.
Proof.
  intros H. revert i j. induction H as [|z l Hl IH Hz]; intros i j Hij Hi Hj; [done|].
  destruct i as [|i], j as [|j]; simpl in *; simplify_eq; [lia| |lia|eapply (IH i j); [lia|done|done]].
  rewrite Forall_forall in Hz. by apply Hz, list_elem_of_lookup_2 with j.
Qed.

Lemma filter_seq_sorted (P : nat → Prop) `{∀ x, Decision (P x)} a n : StronglySorted le (filter P (seq a n)).
Proof.
  revert a. induction n as [|n IH]; intros a; simpl; [constructor|]. rewrite filter_cons. case_decide; [|done]. constructor; [done|].
  apply Forall_forall. intros x [_ Hx%elem_of_seq]%list_elem_of_filter. lia.
Qed.

Lemma sorted_at (l : list nat) (ixs : list nat) : StronglySorted le l → StronglySorted le ixs → (∀ i, i ∈ ixs → i < length l) →
  StronglySorted le (map (λ i, l !!! i) ixs).
Proof.
  intros Hl H. induction H as [|i ixs Hi IH Hle]; intros Hlt; simpl; constructor.
  - apply IH. intros j Hj. apply Hlt. by right.
  - apply Forall_forall. intros x (j & -> & Hj)%list_elem_of_fmap. rewrite Forall_forall in Hle. specialize (Hle j Hj).
    eapply (sorted_lookup_le l i j); [done|done|apply list_lookup_lookup_total_lt, Hlt; by left|apply list_lookup_lookup_total_lt, Hlt; by right].
Qed.

(** Where two permuted lists differ, they hold the same elements. *)
Lemma differ_perm (l l' : list nat) : l ≡ₚ l' →
  let ixs := filter (λ i, l !! i ≠ l' !! i) (seq 0 (length l)) in
  map (λ i, l !!! i) ixs ≡ₚ map (λ i, l' !!! i) ixs.
Proof.
  intros Hp ixs. set (same := filter (λ i, ¬ (l !! i ≠ l' !! i)) (seq 0 (length l))).
  assert (Hall : ixs ++ same ≡ₚ seq 0 (length l)) by apply filter_app_complement.
  assert (Hsame : map (λ i, l !!! i) same = map (λ i, l' !!! i) same).
  { apply map_ext_in. intros i Hi. apply list_elem_of_In, list_elem_of_filter in Hi as [Hi _]. apply dec_stable in Hi.
    by rewrite !list_lookup_total_alt, Hi. }
  assert (H1 : map (λ i, l !!! i) ixs ++ map (λ i, l !!! i) same ≡ₚ l).
  { rewrite <-map_app, (Permutation_map _ Hall). by rewrite map_total_seq. }
  assert (H2 : map (λ i, l' !!! i) ixs ++ map (λ i, l' !!! i) same ≡ₚ l').
  { rewrite <-map_app, (Permutation_map _ Hall), (Permutation_length Hp). by rewrite map_total_seq. }
  apply (Permutation_app_inv_r (map (λ i, l !!! i) same)). rewrite H1. rewrite Hsame, H2. done.
Qed.

(** The regions of the sources are those that the targets want. *)
Lemma src_regions regions : (∀ r, r ∈ regions → r ≤ 3) →
  let target := target_regions_of regions in
  let orig := filter (λ i, regions !! i ≠ target !! i) (seq 0 (length regions)) in
  let src := map (λ k, orig !!! k) (argsort (map (λ i, regions !!! i) orig)) in
  src ≡ₚ orig ∧ map (λ i, regions !!! i) src = map (λ i, target !!! i) orig.
Proof.
  intros Hr target orig src. set (keys := map (λ i, regions !!! i) orig).
  assert (Hsrc : src ≡ₚ orig).
  { unfold src. fold keys. rewrite (Permutation_map _ (argsort_perm keys)). unfold keys. rewrite length_map. by rewrite map_total_seq. }
  split; [done|]. apply sorted_perm_eq.
  - assert (map (λ i, regions !!! i) src = map (λ k, keys !!! k) (argsort keys)) as ->.
    { unfold src. fold keys. rewrite map_map. apply map_ext_in. intros k Hk. apply list_elem_of_In in Hk. rewrite (argsort_perm keys), elem_of_seq in Hk.
      unfold keys in *. rewrite length_map in Hk. symmetry. apply list_lookup_total_correct. rewrite map_lookup.
      by rewrite (list_lookup_lookup_total_lt orig k) by lia. }
    apply sorted_map, argsort_sorted.
  - apply sorted_at; [apply target_sorted|apply filter_seq_sorted|]. intros i [_ Hi%elem_of_seq]%list_elem_of_filter.
    unfold target. rewrite target_length by done. lia.
  - rewrite (Permutation_map _ Hsrc). apply (differ_perm regions target). symmetry. by apply target_perm.
Qed.

(** ** The cycles *)

Definition swap_all (l : list (nat * nat)) (ps : places) : places := foldl (λ ps '(i, j), np_swap i j ps) ps l.

Lemma swap_all_length l ps : length (swap_all l ps) = length ps.
Proof. unfold swap_all. revert ps. induction l as [|[i j] l IH]; intros ps; simpl; [done|]. by rewrite IH, np_swap_length. Qed.

Section Cycles.
Context (f32 : Q → Q) (n : nat) (T : nat → option Place) (K : list nat) (HK : NoDup K).
Implicit Types (b : InputBatch) (ps : places) (m : list (nat * nat)) (g : nat → nat).

Definition mget m (k : nat) : nat := default k (od_get m k).

(** [g] says where the request at each place still has to go; [m] says the same
    but for the places that are finished and the one in work. *)
Record to_go m g ps (finished : list nat) (src : option nat) : Prop := {
  tg_target : ∀ k, T (g k) = place_at ps k;
  tg_inj : ∀ k k', g k = g k' → k = k';
  tg_moving : ∀ k, g k ≠ k → k ∈ K;
  tg_keys : od_keys m = K;
  tg_live : ∀ k, k ∈ K → is_Some (place_at ps k);
  tg_map : ∀ k, k ∉ finished → src ≠ Some k → mget m k = g k;
  tg_finished : ∀ k, k ∈ finished → g k = k;
}.

Definition moving g : list nat := filter (λ k, g k ≠ k) K.

Definition step_goal g (src dst k : nat) : nat := if decide (k = dst) then dst else if decide (k = src) then g dst else g k.

Lemma moving_step g src dst : (∀ k k', g k = g k' → k = k') → g src = dst → src ≠ dst → dst ∈ K →
  length (moving (step_goal g src dst)) < length (moving g).
Proof.
  intros Hinj Hsrc Hne Hdst. assert (Hd : dst ∈ moving g).
  { apply list_elem_of_filter. split; [|done]. intros E. apply Hne. apply Hinj. congruence. }
  assert (Hnd : NoDup (moving g)) by by apply NoDup_filter. rewrite (Permutation_length (filter_ne_perm dst _ Hnd Hd)). simpl.
  apply le_n_S. apply submseteq_length, NoDup_submseteq; [by apply NoDup_filter|].
  intros k [Hk Hin]%list_elem_of_filter. unfold step_goal in Hk. case_decide as Hkd; [done|]. apply list_elem_of_filter. split; [done|].
  apply list_elem_of_filter. split; [|done]. case_decide as Hks; [|done]. subst k. congruence.
Qed.

Lemma to_go_step m g ps finished src dst : to_go m g ps finished (Some src) → g src = dst → src ≠ dst → src ∉ finished →
  src < length ps → dst < length ps → dst ∈ K ∧ mget m dst = g dst ∧
  to_go (od_set m dst dst) (step_goal g src dst) (np_swap src dst ps) finished (Some src).
Proof.
  intros [T1 T2 T3 T4 T5 T6 T7] Hg Hne Hfin Hs Hd. assert (Hgd : g dst ≠ dst) by (intros E; apply Hne, T2; congruence).
  assert (HdK : dst ∈ K) by by apply T3. assert (Hdf : dst ∉ finished) by (intros Hf; by apply Hgd, T7). split; [done|]. split; [apply T6; congruence|]. split.
  - intros k. rewrite place_at_swap by done. unfold step_goal, swap_ix. destruct (decide (k = dst)) as [->|Hkd].
    + rewrite decide_False by done. rewrite <-T1. by rewrite Hg.
    + destruct (decide (k = src)); apply T1.
  - assert (Hother : ∀ k, k ≠ dst → (if decide (k = src) then g dst else g k) ≠ dst).
    { intros k Hk. case_decide as Hks; [done|]. intros E. apply Hks. symmetry. apply T2. congruence. }
    intros k k'. unfold step_goal. destruct (decide (k = dst)) as [->|A1], (decide (k' = dst)) as [->|A2]; [done| | |].
    + intros E. by destruct (Hother k' A2).
    + intros E. by destruct (Hother k A1).
    + destruct (decide (k = src)) as [->|A3], (decide (k' = src)) as [->|A4]; intros E; [done|by apply T2 in E|by apply T2 in E|by apply T2].
  - intros k. unfold step_goal. case_decide; [done|]. case_decide; [subst; intros _; apply T3; congruence|by apply T3].
  - assert (Hin : is_Some (od_get m dst)) by (apply od_get_keys; by rewrite T4). rewrite <-T4. clear -Hin. induction m as [|[k v] m IH]; simpl in *; [by destruct Hin|].
    case_decide as Hk; simpl; [by subst|]. f_equal. by apply IH.
  - intros k Hk. rewrite place_at_swap by done. unfold swap_ix. repeat case_decide; subst; [by apply T5|apply T5, T3; congruence|by apply T5].
  - intros k Hkf Hks. unfold mget. rewrite od_get_set. unfold step_goal. case_decide; [done|]. rewrite decide_False by congruence. by apply T6.
  - intros k Hk. unfold step_goal. case_decide; [done|]. case_decide; [subst; done|by apply T7].
Qed.

Lemma swap_cycle_holds fuel : ∀ src dst m g ps b finished,
  batch_holds f32 n ps b → to_go m g ps finished (Some src) → g src = dst → src ∉ finished → src ∈ K → length (moving g) ≤ fuel →
  ∃ m' b' g' l, swap_cycle fuel src dst m b = Ok (m', b') ∧ batch_holds f32 n (swap_all l ps) b' ∧ same_config b b' ∧
    to_go m' g' (swap_all l ps) (src :: finished) None ∧
    (∀ k, is_Some (place_at (swap_all l ps) k) ↔ is_Some (place_at ps k)) ∧
    (∀ i j, (i, j) ∈ l → i ∈ K ∧ j ∈ K) ∧
    removed_list (ib_builder b') = removed_list (ib_builder b) ∧ added (ib_builder b') = added (ib_builder b) ∧
    moved (ib_builder b') = moved (ib_builder b) ++ (if is_pooling_model (ib_config b) then [] else map (λ '(i, j), (i, j, SWAP)) l).
Proof.
  induction fuel as [|fuel IH]; intros src dst m g ps b finished Hb Hg Hdst Hfin HsK Hfuel; cbn [swap_cycle]; destruct (decide (src = dst)) as [He|Hne].
  1, 3: exists m, b, g, []; split_and!; try done; [..|by destruct (is_pooling_model (ib_config b)); rewrite app_nil_r];
    [destruct Hg as [T1 T2 T3 T4 T5 T6 T7]; split; try done;
      [intros k Hk _; apply T6; [set_solver|intros [= ->]; apply Hk; left]
      |intros k [->|Hk]%elem_of_cons; [congruence|by apply T7]]
    |by intros i j ?%elem_of_nil].
  - exfalso. assert (src ∈ moving g) as Hin by (apply list_elem_of_filter; split; [congruence|done]). destruct (moving g); [by apply elem_of_nil in Hin|simpl in Hfuel; lia].
  - assert (Hlive : ∀ k, k ∈ K → k < length ps) by (intros k Hk; destruct (tg_live _ _ _ _ _ Hg k Hk) as [p Hp]; by eapply place_at_lt).
    assert (HdK : dst ∈ K). { apply (tg_moving _ _ _ _ _ Hg). intros E. apply Hne, (tg_inj _ _ _ _ _ Hg). congruence. }
    destruct (to_go_step m g ps finished src dst Hg Hdst Hne Hfin (Hlive _ HsK) (Hlive _ HdK)) as (_ & Hnext & Hg').
    destruct (tg_live _ _ _ _ _ Hg src HsK) as [p1 Hp1]. destruct (tg_live _ _ _ _ _ Hg dst HdK) as [p2 Hp2].
    destruct (swap_states_holds f32 n ps b src dst p1 p2 Hb Hp1 Hp2) as (b1 & -> & Hb1 & [Hc1 Hc2] & Hu1). cbn [mbind result_bind].
    change (default dst (od_get m dst)) with (mget m dst).
    destruct (IH src (mget m dst) (od_set m dst dst) (step_goal g src dst) (np_swap src dst ps) b1 finished) as (m' & b' & g' & l & Hrun & Hb' & [Hd1 Hd2] & Hgo & Hl & Hlk & Hr & Ha & Hm).
    { done. }
    { done. }
    { unfold step_goal. rewrite decide_False, decide_True by done. done. }
    { done. }
    { done. }
    { pose proof (moving_step g src dst (tg_inj _ _ _ _ _ Hg) Hdst Hne HdK). lia. }
    exists m', b', g', ((src, dst) :: l). split_and!; [done|done|split; congruence|done| | | | |].
    + intros k. rewrite (Hl k), place_at_swap by (by apply Hlive). unfold swap_ix. repeat case_decide; subst; [|..|done].
      * rewrite Hp1, Hp2. by split; intros _.
      * rewrite Hp1, Hp2. by split; intros _.
    + intros i j [[= -> ->]|Hij]%elem_of_cons; [done|by apply Hlk].
    + rewrite Hr, Hu1. by destruct (is_pooling_model (ib_config b)).
    + rewrite Ha, Hu1. by destruct (is_pooling_model (ib_config b)).
    + rewrite Hm, Hc1, Hu1. destruct (is_pooling_model (ib_config b)); simpl; [done|]. by rewrite <-app_assoc.
Qed.

(** All sources in turn: every request arrives. *)
Lemma swap_sources l : ∀ m g ps b finished,
  batch_holds f32 n ps b → to_go m g ps finished None → NoDup l → (∀ k, k ∈ l → (k ∉ finished) ∧ (k ∈ K)) → (∀ k, k ∈ K → (k ∈ l) ∨ (k ∈ finished)) →
  ∃ m' b' sw, foldM swap_from (m, b) l = Ok (m', b') ∧ batch_holds f32 n (swap_all sw ps) b' ∧ same_config b b' ∧
    (∀ k, place_at (swap_all sw ps) k = T k) ∧ (∀ k, is_Some (place_at (swap_all sw ps) k) ↔ is_Some (place_at ps k)) ∧
    (∀ i j, (i, j) ∈ sw → i ∈ K ∧ j ∈ K) ∧
    removed_list (ib_builder b') = removed_list (ib_builder b) ∧ added (ib_builder b') = added (ib_builder b) ∧
    moved (ib_builder b') = moved (ib_builder b) ++ (if is_pooling_model (ib_config b) then [] else map (λ '(i, j), (i, j, SWAP)) sw).
Proof.
  induction l as [|src l IH]; intros m g ps b finished Hb Hg Hnd Hl Hcov.
  - exists m, b, []. split_and!; try done; [|by intros i j ?%elem_of_nil|by destruct (is_pooling_model (ib_config b)); rewrite app_nil_r].
    intros k. simpl. rewrite <-(tg_target _ _ _ _ _ Hg). f_equal. destruct (decide (g k = k)) as [E|E]; [done|].
    pose proof (tg_moving _ _ _ _ _ Hg k E) as Hk. destruct (Hcov k Hk) as [?%elem_of_nil|Hf]; [done|]. by apply (tg_finished _ _ _ _ _ Hg).
  - apply NoDup_cons in Hnd as [Hsl Hnd]. destruct (Hl src ltac:(left)) as [Hsf HsK]. cbn [foldM].
    assert (Hin : is_Some (od_get m src)) by (apply od_get_keys; by rewrite (tg_keys _ _ _ _ _ Hg)). destruct Hin as [dst Hdst].
    assert (Hfrom : swap_from (m, b) src = swap_cycle (length m) src dst m b) by (unfold swap_from; by rewrite Hdst). rewrite Hfrom. clear Hfrom.
    assert (Hgs : g src = dst). { pose proof (tg_map _ _ _ _ _ Hg src Hsf ltac:(done)) as E. unfold mget in E. rewrite Hdst in E. by simpl in E. }
    assert (Hg1 : to_go m g ps finished (Some src)) by (destruct Hg; split; auto).
    destruct (swap_cycle_holds (length m) src dst m g ps b finished Hb Hg1 Hgs Hsf HsK) as (m1 & b1 & g1 & sw1 & -> & Hb1 & [Hc1 Hc2] & Hgo & Hlv & Hk1 & Hr1 & Ha1 & Hm1).
    { rewrite <-(length_fmap fst m). change (m.*1) with (od_keys m). rewrite (tg_keys _ _ _ _ _ Hg). apply length_filter. }
    cbn [mbind result_bind].
    destruct (IH m1 g1 (swap_all sw1 ps) b1 (src :: finished) Hb1 Hgo Hnd) as (m' & b' & sw & Hrun & Hb' & [Hd1 Hd2] & HT & Hlv' & Hk' & Hr' & Ha' & Hm').
    { intros k Hk. destruct (Hl k ltac:(by right)) as [? ?]. split; [|done]. intros [->|?]%elem_of_cons; done. }
    { intros k Hk. destruct (Hcov k Hk) as [[->|?]%elem_of_cons|?]; [right; left|by left|right; by right]. }
    assert (Happ : swap_all (sw1 ++ sw) ps = swap_all sw (swap_all sw1 ps)) by (unfold swap_all; by rewrite foldl_app).
    exists m', b', (sw1 ++ sw). rewrite Happ. split_and!; [done|done|split; congruence|done| | | | |].
    + intros k. by rewrite Hlv', Hlv.
    + intros i j [?|?]%elem_of_app; [by apply Hk1|by apply Hk'].
    + congruence.
    + congruence.
    + rewrite Hm', Hm1, Hc1. destruct (is_pooling_model (ib_config b)); [by rewrite !app_nil_r|]. by rewrite map_app, app_assoc.
Qed.
End Cycles.

(** ** The whole reordering *)

Lemma np_swap_perm {A} i j (l : list A) : np_swap i j l ≡ₚ l.
Proof.
  destruct (decide (i < length l ∧ j < length l)) as [[Hi Hj]|Hn].
  - apply Permutation_inj. split; [apply np_swap_length|]. exists (swap_ix i j). split; [|intros k; by apply np_swap_lookup].
    intros a b E. by rewrite <-(swap_ix_involutive i j a), E, swap_ix_involutive.
  - unfold np_swap. destruct (l !! i) eqn:E1, (l !! j) eqn:E2; try done. apply lookup_lt_Some in E1, E2. tauto.
Qed.

Lemma swap_all_requests l ps : requests (swap_all l ps) ≡ₚ requests ps.
Proof.
  unfold swap_all. revert ps. induction l as [|[i j] l IH]; intros ps; simpl; [done|]. rewrite IH. unfold requests. by rewrite np_swap_perm.
Qed.

Lemma od_get_zip {A} (a : list nat) (b : list A) x k v : NoDup a → a !! x = Some k → b !! x = Some v → od_get (zip a b) k = Some v.
Proof.
  intros Hd. revert b x. induction Hd as [|y a Hy Hd IH]; intros b x Ha Hb; [done|]. destruct b as [|w b]; [done|]. destruct x as [|x]; simpl in *; simplify_eq.
  - by rewrite decide_True.
  - rewrite decide_False; [by eapply IH|]. intros ->. by apply Hy, list_elem_of_lookup_2 with x.
Qed.

Lemma od_get_zip_none {A} (a : list nat) (b : list A) k : k ∉ a → od_get (zip a b) k = None.
Proof.
  intros Hk. apply od_get_None. intros Hin. apply Hk. unfold od_keys in Hin. clear Hk. revert b Hin.
  induction a as [|x a IH]; intros b Hin; [by apply elem_of_nil in Hin|]. destruct b as [|y b]; [by apply elem_of_nil in Hin|]. simpl in Hin.
  apply elem_of_cons in Hin as [->|Hin]; [left|right; by eapply IH].
Qed.

Definition region_of (num_scheduled_tokens : gmap string nat) (decode_threshold : nat) (p : Place) : option nat :=
  (λ s, req_region decode_threshold s (pl_computed p) (pl_prompt p)) <$> num_scheduled_tokens !! pl_id p.
Definition region_at sched thr (ps : places) (i : nat) : option nat := p ← place_at ps i; region_of sched thr p.

Lemma req_region_le t s c p : req_region t s c p ≤ 3.
Proof. unfold req_region. repeat case_match; lia. Qed.

Section Reorder.
Context (f32 : Q → Q) (sched : gmap string nat) (thr : nat).
Implicit Types (b : InputBatch) (ps : places).

(** The list of regions that the code computes. *)
Lemma regions_computed n ps b : batch_holds f32 n ps b → (∀ i, i < n → is_Some (place_at ps i)) →
  (∀ i p, place_at ps i = Some p → is_Some (sched !! pl_id p)) →
  ∃ scheduled, mapM_ok (λ id, id ← unwrap KeyError id; unwrap KeyError (sched !! id)) (ib_req_ids b) = Ok scheduled ∧
    ∃ regions, zip_with (λ s '(c, p), req_region thr s c p) scheduled
      (zip (take n (num_computed_tokens_cpu (ib_tokens b))) (take n (num_prompt_tokens (ib_tokens b)))) = regions ∧
    length regions = n ∧ ∀ i, i < n → regions !! i = region_at sched thr ps i.
Proof.
  intros H Hlive Hs. pose proof (bh_ids _ _ _ _ H) as [Hlen Hids].
  assert (Hrun : runs (mapM_ok (λ id, id ← unwrap KeyError id; unwrap KeyError (sched !! id)) (ib_req_ids b))
    (Forall2 (λ o s, ∃ id, o = Some id ∧ sched !! id = Some s) (ib_req_ids b))).
  { apply runs_mapM. intros o Ho. apply list_elem_of_lookup in Ho as [i Hi]. pose proof (lookup_lt_Some _ _ _ Hi) as Hlt. rewrite Hlen in Hlt.
    rewrite (Hids i Hlt) in Hi. destruct (Hlive i Hlt) as [p Hp]. rewrite Hp in Hi. injection Hi as <-. simpl. destruct (Hs i p Hp) as [s Hsp]. rewrite Hsp. simpl. by exists (pl_id p). }
  apply runs_Ok in Hrun as (scheduled & -> & HF). exists scheduled. split; [done|]. eexists. split; [done|].
  pose proof (Forall2_length _ _ _ HF) as Hl2. destruct (hold_dims _ _ _ _ (bh_tokens _ _ _ _ H)) as [D1 D2 D3 D4 D5 D6 D7 D8].
  pose proof (bh_count _ _ _ _ H) as Hps. pose proof (bh_in_use _ _ _ _ H) as Hn. split.
  - rewrite length_zip_with, length_zip_with, !length_take. lia.
  - intros i Hi. destruct (Hlive i Hi) as [p Hp]. pose proof (hold_at _ _ _ _ (bh_tokens _ _ _ _ H) i p Hp) as Hat.
    destruct (Forall2_lookup_l _ _ _ i (Some (pl_id p)) HF) as (s & Hsi & id & [= <-] & Hsid); [by rewrite Hids, Hp|].
    rewrite lookup_zip_with, Hsi. simpl. rewrite lookup_zip_with, !lookup_take_lt by done. rewrite (at_computed _ _ _ _ Hat), (at_prompt _ _ _ _ Hat). simpl.
    unfold region_at, region_of. rewrite Hp. simpl. by rewrite Hsid.
Qed.

(** Reordering, with the exchanges it makes. *)
Lemma reorder_holds n ps b : batch_holds f32 n ps b → (∀ i, i < n → is_Some (place_at ps i)) →
  (∀ i p, place_at ps i = Some p → is_Some (sched !! pl_id p)) →
  ∃ changed b' sw, reorder_batch_to_split_decodes_and_prefills sched thr b = Ok (changed, b') ∧ batch_holds f32 n (swap_all sw ps) b' ∧ same_config b b' ∧
    (∀ k, is_Some (place_at (swap_all sw ps) k) ↔ is_Some (place_at ps k)) ∧
    (∀ i j, (i, j) ∈ sw → is_Some (place_at ps i) ∧ is_Some (place_at ps j)) ∧
    (∃ target, StronglySorted le target ∧ ∀ i, i < n → region_at sched thr (swap_all sw ps) i = target !! i) ∧
    (changed = false → b' = b) ∧
    removed_list (ib_builder b') = removed_list (ib_builder b) ∧ added (ib_builder b') = added (ib_builder b) ∧
    moved (ib_builder b') = moved (ib_builder b) ++ (if is_pooling_model (ib_config b) then [] else map (λ '(i, j), (i, j, SWAP)) sw).
Proof.
  intros H Hlive Hs. unfold reorder_batch_to_split_decodes_and_prefills. rewrite (en_length _ _ _ _ (bh_ids _ _ _ _ H)).
  destruct (regions_computed n ps b H Hlive Hs) as (scheduled & -> & regions & Hreg & Hlen & Hat). cbn [mbind result_bind]. rewrite Hreg.
  assert (Hr3 : ∀ r, r ∈ regions → r ≤ 3).
  { intros r (i & Hi)%list_elem_of_lookup. pose proof (lookup_lt_Some _ _ _ Hi) as Hlt. rewrite Hlen in Hlt. rewrite (Hat i Hlt) in Hi.
    unfold region_at in Hi. apply bind_Some in Hi as (p & Hp & Hi). unfold region_of in Hi. apply fmap_Some in Hi as (s & _ & ->). apply req_region_le. }
  pose proof (src_regions regions Hr3) as Hsrc. cbv zeta in Hsrc. rewrite Hlen in Hsrc.
  set (target := target_regions_of regions) in *. set (orig := filter (λ i, regions !! i ≠ target !! i) (seq 0 n)) in *.
  assert (Htl : length target = n) by (unfold target; by rewrite target_length).
  assert (Horig : ∀ i, i ∈ orig ↔ i < n ∧ regions !! i ≠ target !! i) by (intros i; unfold orig; rewrite list_elem_of_filter, elem_of_seq; naive_solver lia).
  destruct orig as [|o orig'] eqn:Eo.
  { exists false, b, []. split_and!; try done; [by intros i j ?%elem_of_nil| |by destruct (is_pooling_model (ib_config b)); rewrite app_nil_r].
    exists target. split; [apply target_sorted|]. intros i Hi. simpl. rewrite <-Hat by done. destruct (decide (regions !! i = target !! i)) as [E|E]; [done|].
    exfalso. by apply (not_elem_of_nil i), Horig. }
  assert (Hne : orig ≠ []) by by rewrite Eo.
  rewrite <-Eo in Hsrc, Horig |- *. clear Eo o orig'. set (src := map (λ k, orig !!! k) (argsort (map (λ i, regions !!! i) orig))) in *. destruct Hsrc as [Hperm Hval].
  assert (HndO : NoDup orig) by (unfold orig; apply NoDup_filter, NoDup_seq). assert (HndS : NoDup src) by by rewrite Hperm.
  pose proof (Permutation_length Hperm) as Hls. assert (Hkeys : od_keys (zip src orig) = src) by (unfold od_keys; apply fst_zip; lia).
  set (T := λ j, place_at ps (mget (zip orig src) j)).
  assert (Hpair : ∀ x k v, src !! x = Some k → orig !! x = Some v → mget (zip src orig) k = v ∧ mget (zip orig src) v = k).
  { intros x k v Hk Hv. unfold mget. by rewrite (od_get_zip src orig x k v), (od_get_zip orig src x v k). }
  assert (Hout : ∀ k, k ∉ src → mget (zip src orig) k = k ∧ mget (zip orig src) k = k).
  { intros k Hk. unfold mget. rewrite od_get_zip_none by done. rewrite od_get_zip_none; [done|]. by rewrite <-Hperm. }
  assert (Hinv : ∀ k, mget (zip orig src) (mget (zip src orig) k) = k).
  { intros k. destruct (decide (k ∈ src)) as [[x Hx]%list_elem_of_lookup|Hk].
    - destruct (lookup_lt_is_Some_2 orig x) as [v Hv]; [rewrite <-Hls; by eapply lookup_lt_Some|]. destruct (Hpair x k v Hx Hv) as [-> ->]. done.
    - destruct (Hout k Hk) as [-> ->]. done. }
  assert (Hgo : to_go T src (zip src orig) (mget (zip src orig)) ps [] None).
  { split.
    - intros k. unfold T. by rewrite Hinv.
    - intros k k' E. apply (f_equal (mget (zip orig src))) in E. by rewrite !Hinv in E.
    - intros k Hk. destruct (decide (k ∈ src)); [done|]. by destruct (Hout k).
    - done.
    - intros k Hk. apply Hlive. apply Horig. by rewrite <-Hperm.
    - done.
    - by intros k ?%elem_of_nil. }
  rewrite Hkeys. destruct (swap_sources f32 n T src HndS src (zip src orig) _ ps b [] H Hgo HndS) as (m' & b' & sw & Hrun & Hb' & Hsame & HT & Hlv & Hk & Hrm & Ha & Hm).
  { intros k Hk. split; [apply not_elem_of_nil|done]. }
  { intros k Hk. by left. }
  exists true, b', sw. split_and!; try done.
  - destruct orig; [done|]. by rewrite Hrun.
  - intros i j Hij. destruct (Hk i j Hij) as [Hi Hj]. rewrite Hperm in Hi, Hj. apply Horig in Hi as [Hi _], Hj as [Hj _]. by split; apply Hlive.
  - exists target. split; [apply target_sorted|]. intros j Hj. unfold region_at. rewrite HT. unfold T.
    destruct (decide (j ∈ orig)) as [[x Hx]%list_elem_of_lookup|Hjn].
    + destruct (lookup_lt_is_Some_2 src x) as [k Hkx]; [rewrite Hls; by eapply lookup_lt_Some|]. destruct (Hpair x k j Hkx Hx) as [_ ->].
      trans (region_at sched thr ps k); [done|].
      assert (Hkn : k < n) by (apply Horig; rewrite <-Hperm; by eapply list_elem_of_lookup_2). rewrite <-Hat by done.
      assert (E : map (λ i, regions !!! i) src !! x = map (λ i, target !!! i) orig !! x) by by rewrite Hval. rewrite !map_lookup, Hkx, Hx in E. simpl in E.
      injection E as E. rewrite (list_lookup_lookup_total_lt regions k) by lia. rewrite (list_lookup_lookup_total_lt target j) by lia. by rewrite E.
    + destruct (Hout j) as [_ ->]; [by rewrite Hperm|]. trans (region_at sched thr ps j); [done|]. rewrite <-Hat by done.
      destruct (decide (regions !! j = target !! j)); [done|]. exfalso. by apply Hjn, Horig.
Qed.
(** C0: For a batch without holes whose requests are all scheduled, the exchanges along
    the cycles terminate with the same requests in the order of their regions
    (decodes, short extends, long extends, prefills), each with everything the
    batch has of it; a batch in that order is left alone. *)
Theorem reorder_correct n ps b : batch_holds f32 n ps b → (∀ i, i < n → is_Some (place_at ps i)) →
  (∀ i p, place_at ps i = Some p → is_Some (sched !! pl_id p)) →
  ∃ changed b' ps', reorder_batch_to_split_decodes_and_prefills sched thr b = Ok (changed, b') ∧ batch_holds f32 n ps' b' ∧
    requests ps' ≡ₚ requests ps ∧ (∀ i, i < n → is_Some (place_at ps' i)) ∧
    (∀ i j ri rj, i ≤ j → region_at sched thr ps' i = Some ri → region_at sched thr ps' j = Some rj → ri ≤ rj) ∧ (changed = false → b' = b).
Proof.
  intros H Hlive Hs. destruct (reorder_holds n ps b H Hlive Hs) as (changed & b' & sw & Hrun & Hb' & _ & Hlv & _ & (target & Hsorted & Hreg) & Hch & _).
  exists changed, b', (swap_all sw ps). split_and!; try done; [apply swap_all_requests|intros i Hi; by apply Hlv, Hlive|].
  assert (Hlt : ∀ k rk, region_at sched thr (swap_all sw ps) k = Some rk → k < n).
  { intros k rk Hk. unfold region_at in Hk. apply bind_Some in Hk as (p & Hp & _). by eapply batch_lt. }
  intros i j ri rj Hij Hi Hj. rewrite (Hreg i (Hlt _ _ Hi)) in Hi. rewrite (Hreg j (Hlt _ _ Hj)) in Hj. by eapply (sorted_lookup_le target i j).
Qed.
End Reorder.
