(* ===== verification/WorkerStates.v ===== *)
(** * The states a worker keeps between steps

    [_update_states] and its helpers of [v1/worker/gpu_model_runner.py]: a model
    runner caches a state for each request it has been told of, keeps the
    scheduled ones in the persistent batch, and follows the output of the
    scheduler from step to step.  A cached state is known by its request id, so
    that a state queued for the batch and the cached one are the same object; its
    list of output tokens is in a store, because the batch refers to the same list.

    Left out are multimodal rotary positions, the GPU n-gram proposer, late
    interaction and the device copies; [make_generator] is what torch makes of a
    seed, and [update_state] is a logits processor's method. *)

From S2P Require Import Prelude NumPy BlockTable InputBatch ReorderBatch.
From Stdlib Require Import QArith.
Local Open Scope nat_scope.

(** ** What the scheduler sends *)

(** [NewRequestData] with its payload. *)
Record NewRequest : Type := mkNewRequest {
  nr_req_id : string;
  nr_prompt_token_ids : option (list Z);
  nr_sampling_params : option BatchParams;
  nr_pooling_params : option Z;
  nr_block_ids : list (list Z);
  nr_num_computed_tokens : nat;
  nr_lora_request : option Adapter;
  nr_prompt_embeds : option Embeds;
  nr_prompt_is_token_ids : option (list bool);
}.

(** [CachedRequestData]: parallel lists. *)
Record CachedRequests : Type := mkCachedRequests {
  cd_req_ids : list string;
  cd_resumed_req_ids : gset string;
  cd_new_token_ids : list (list Z);
  cd_all_token_ids : list (string * list Z);
  cd_new_block_ids : list (option (list (list Z)));
  cd_num_computed_tokens : list nat;
  cd_num_output_tokens : list nat;
}.

(** The fields of [SchedulerOutput] that a model runner reads here. *)
Record StepOutput : Type := mkStepOutput {
  st_new : list NewRequest;
  st_cached : CachedRequests;
  st_num_scheduled : gmap string nat;
  st_spec : list (string * list Z);
  st_finished : gset string;
  st_free_encoder : list string;
}.

(** ** Cached states *)

Definition set_prev_drafts (n : nat) (r : CachedRequestState) : CachedRequestState :=
  mkCachedRequestState (cr_req_id r) (cr_prompt_token_ids r) (cr_sampling_params r) (cr_generator r) (cr_block_ids r)
    (cr_num_computed_tokens r) (cr_output_token_ids r) (cr_lora_request r) (cr_prompt_embeds r) (cr_prompt_is_token_ids r)
    n (cr_pooling_params r) (cr_num_prompt_tokens r).
Definition set_computed (n : nat) (r : CachedRequestState) : CachedRequestState :=
  mkCachedRequestState (cr_req_id r) (cr_prompt_token_ids r) (cr_sampling_params r) (cr_generator r) (cr_block_ids r)
    n (cr_output_token_ids r) (cr_lora_request r) (cr_prompt_embeds r) (cr_prompt_is_token_ids r)
    (cr_prev_num_draft_len r) (cr_pooling_params r) (cr_num_prompt_tokens r).
Definition set_blocks (ids : list (list Z)) (r : CachedRequestState) : CachedRequestState :=
  mkCachedRequestState (cr_req_id r) (cr_prompt_token_ids r) (cr_sampling_params r) (cr_generator r) ids
    (cr_num_computed_tokens r) (cr_output_token_ids r) (cr_lora_request r) (cr_prompt_embeds r) (cr_prompt_is_token_ids r)
    (cr_prev_num_draft_len r) (cr_pooling_params r) (cr_num_prompt_tokens r).
Definition set_output_ref (ref : output_ref) (r : CachedRequestState) : CachedRequestState :=
  mkCachedRequestState (cr_req_id r) (cr_prompt_token_ids r) (cr_sampling_params r) (cr_generator r) (cr_block_ids r)
    (cr_num_computed_tokens r) ref (cr_lora_request r) (cr_prompt_embeds r) (cr_prompt_is_token_ids r)
    (cr_prev_num_draft_len r) (cr_pooling_params r) (cr_num_prompt_tokens r).

(** [for block_ids, new_ids in zip(...): block_ids.extend(new_ids)] *)
Fixpoint extend_blocks (old new : list (list Z)) : list (list Z) :=
  match old, new with
  | ids :: old, new_ids :: new => (ids ++ new_ids) :: extend_blocks old new
  | _, _ => old
  end.

(** [l[-n:]] for [0 < n] *)
Definition py_last {A} (n : nat) (l : list A) : list A := drop (length l - n) l.

(** ** The runner *)

Record RunnerConfig : Type := mkRunnerConfig {
  use_async_scheduling : bool;
  is_last_rank : bool;
  use_async_spec_decode : bool;
  num_kv_cache_groups : nat;
  reorder_batch_threshold : option nat;
}.

Record ModelRunner (P : Type) : Type := mkRunner {
  mr_requests : gmap string CachedRequestState;
  mr_outputs : gmap output_ref (list Z);
  mr_batch : InputBatch;
  mr_num_prompt_logprobs : gmap string Z;
  mr_encoder_cache : gmap string Z;
  mr_prev_num_draft_tokens : list nat;
  mr_logitsprocs : list P;
}.
Arguments mkRunner {P} _ _ _ _ _ _ _.
Arguments mr_requests {P} _.
Arguments mr_outputs {P} _.
Arguments mr_batch {P} _.
Arguments mr_num_prompt_logprobs {P} _.
Arguments mr_encoder_cache {P} _.
Arguments mr_prev_num_draft_tokens {P} _.
Arguments mr_logitsprocs {P} _.

Section Setters.
Context {P : Type}.
Implicit Types (w : ModelRunner P).

Definition with_requests (m : gmap string CachedRequestState) w : ModelRunner P :=
  mkRunner m (mr_outputs w) (mr_batch w) (mr_num_prompt_logprobs w) (mr_encoder_cache w) (mr_prev_num_draft_tokens w) (mr_logitsprocs w).
Definition with_outputs (m : gmap output_ref (list Z)) w : ModelRunner P :=
  mkRunner (mr_requests w) m (mr_batch w) (mr_num_prompt_logprobs w) (mr_encoder_cache w) (mr_prev_num_draft_tokens w) (mr_logitsprocs w).
Definition with_batch (b : InputBatch) w : ModelRunner P :=
  mkRunner (mr_requests w) (mr_outputs w) b (mr_num_prompt_logprobs w) (mr_encoder_cache w) (mr_prev_num_draft_tokens w) (mr_logitsprocs w).
Definition with_prompt_logprobs (m : gmap string Z) w : ModelRunner P :=
  mkRunner (mr_requests w) (mr_outputs w) (mr_batch w) m (mr_encoder_cache w) (mr_prev_num_draft_tokens w) (mr_logitsprocs w).
Definition with_encoder_cache (m : gmap string Z) w : ModelRunner P :=
  mkRunner (mr_requests w) (mr_outputs w) (mr_batch w) (mr_num_prompt_logprobs w) m (mr_prev_num_draft_tokens w) (mr_logitsprocs w).
Definition with_prev_drafts (l : list nat) w : ModelRunner P :=
  mkRunner (mr_requests w) (mr_outputs w) (mr_batch w) (mr_num_prompt_logprobs w) (mr_encoder_cache w) l (mr_logitsprocs w).
Definition put_request (r : CachedRequestState) w : ModelRunner P := with_requests (<[cr_req_id r := r]> (mr_requests w)) w.
Definition put_output (ref : output_ref) (out : list Z) w : ModelRunner P := with_outputs (<[ref := out]> (mr_outputs w)) w.
Definition output_of w (r : CachedRequestState) : list Z := default [] (mr_outputs w !! cr_output_token_ids r).
End Setters.

Section Runner.
Context {P : Type} (update_state : option BatchUpdate → P → P) (f32 : Q → Q) (make_generator : Z → Z) (cfg : RunnerConfig).
Implicit Types (w : ModelRunner P) (r : CachedRequestState) (o : StepOutput).

(** ** Requests that leave the batch *)

(** Finished requests leave the cached states, then the batch. *)
Definition forget_request w (req_id : string) : ModelRunner P :=
  with_prompt_logprobs (delete req_id (mr_num_prompt_logprobs w)) (with_requests (delete req_id (mr_requests w)) w).

Definition drop_from_batch w (req_id : string) : result (ModelRunner P) :=
  '(_, b) ← remove_request req_id (mr_batch w);
  Ok (with_batch b w).

(** [_process_encoder_cache_scheduler_output] *)
Definition free_encoder_outputs (hashes : list string) w : ModelRunner P :=
  with_encoder_cache (foldl (λ m h, delete h m) (mr_encoder_cache w) hashes) w.

(** [cached_req_ids - (scheduled_req_ids - resumed_req_ids)] *)
Definition unscheduled_req_ids o w : gset string :=
  dom (ib_req_id_to_index (mr_batch w)) ∖ (dom (st_num_scheduled o) ∖ cd_resumed_req_ids (st_cached o)).

(** ** New requests *)

(** [_update_streaming_request] *)
Definition _update_streaming_request w (r : CachedRequestState) (d : NewRequest) : result (ModelRunner P) :=
  w ← drop_from_batch w (nr_req_id d);
  n ← length_from_prompt_token_ids_or_embeds (nr_prompt_token_ids d) (nr_prompt_embeds d);
  let r := mkCachedRequestState (cr_req_id r) (nr_prompt_token_ids d) (nr_sampling_params d) (cr_generator r) (nr_block_ids d)
             (nr_num_computed_tokens d) (cr_output_token_ids r) (cr_lora_request r) (nr_prompt_embeds d) (cr_prompt_is_token_ids r)
             (cr_prev_num_draft_len r) (nr_pooling_params d) n in
  Ok (put_output (cr_output_token_ids r) [] (put_request r w)).

(** The cached state of a new request; its list of output tokens is a new one. *)
Definition make_request_state (ref : output_ref) (d : NewRequest) : result CachedRequestState :=
  let generator := p ← nr_sampling_params d; if decide (sampling_type p = RANDOM_SEED) then make_generator <$> seed p else None in
  n ← length_from_prompt_token_ids_or_embeds (nr_prompt_token_ids d) (nr_prompt_embeds d);
  Ok (mkCachedRequestState (nr_req_id d) (nr_prompt_token_ids d) (nr_sampling_params d) generator (nr_block_ids d)
        (nr_num_computed_tokens d) ref (nr_lora_request d) (nr_prompt_embeds d) (nr_prompt_is_token_ids d) 0 (nr_pooling_params d) n).

Definition note_prompt_logprobs (d : NewRequest) w : ModelRunner P :=
  match nr_sampling_params d ≫= prompt_logprobs with
  | Some n => with_prompt_logprobs (<[nr_req_id d := if (n =? -1)%Z then vocab_size (ib_config (mr_batch w)) else n]> (mr_num_prompt_logprobs w)) w
  | None => w
  end.

(** One round of the loop over the new requests. *)
Definition new_request (s : ModelRunner P * list string) (d : NewRequest) : result (ModelRunner P * list string) :=
  let '(w, to_add) := s in
  match mr_requests w !! nr_req_id d with
  | Some r => w ← _update_streaming_request w r d; Ok (w, to_add ++ [nr_req_id d])
  | None =>
      _ ← py_assert (negb (is_pooling_model (ib_config (mr_batch w))) || bool_decide (is_Some (nr_pooling_params d)));
      let ref := fresh (dom (mr_outputs w)) in
      r ← make_request_state ref d;
      Ok (note_prompt_logprobs d (put_request r (put_output ref [] w)), to_add ++ [nr_req_id d])
  end.

(** ** Running and resumed requests *)

(** The first part of a round: drafts that an asynchronous step assumes accepted. *)
Definition assume_accepted w r (req_index : option nat) : result (ModelRunner P * CachedRequestState * list (string * nat)) :=
  if bool_decide (cr_prev_num_draft_len r ≠ 0) && use_async_scheduling cfg then
    match req_index with
    | None => Ok (w, set_prev_drafts 0 r, [])
    | Some _ =>
        let n := cr_prev_num_draft_len r in
        let w := put_output (cr_output_token_ids r) (output_of w r ++ replicate n (-1)%Z) w in
        drafts ← match ib_prev_req_id_to_index (mr_batch w) ≫= λ m, m !! cr_req_id r with
          | Some prev_req_index => np_set prev_req_index n (mr_prev_num_draft_tokens w)
          | None => Ok (mr_prev_num_draft_tokens w)
          end;
        Ok (with_prev_drafts drafts w, r, [(cr_req_id r, n)])
    end
  else Ok (w, r, []).

Definition set_no_spec (req_index n : nat) (b : InputBatch) : result InputBatch :=
  let t := ib_tokens b in
  l ← np_set req_index n (num_tokens_no_spec t);
  Ok (set_tokens (mkTokenCols (token_ids_cpu t) (is_token_ids t) (req_prompt_embeds t) l (num_prompt_tokens t) (num_computed_tokens_cpu t)
                    (replayssm_decode_base t) (spec_token_ids t)) b).

(** The output tokens of a round: on the last rank they may be cut, on the others
    the new ones arrive with the scheduler's output. *)
Definition update_output w r (req_index : option nat) (new_token_ids : list Z) (num_computed num_output_tokens : nat) : result (ModelRunner P) :=
  let out := output_of w r in
  if is_last_rank cfg then
    if num_output_tokens <? length out then
      let w := put_output (cr_output_token_ids r) (take num_output_tokens out) w in
      match req_index with
      | None => Ok w
      | Some i =>
          n ← np_get (num_prompt_tokens (ib_tokens (mr_batch w))) i;
          b ← set_no_spec i (n + num_output_tokens) (mr_batch w);
          Ok (with_batch b w)
      end
    else Ok w
  else
    let num_new_tokens := (Z.of_nat (num_computed + length new_token_ids) - Z.of_nat (cr_num_prompt_tokens r + length out))%Z in
    if (num_new_tokens =? 1)%Z then
      x ← unwrap IndexError (last new_token_ids);
      Ok (put_output (cr_output_token_ids r) (out ++ [x]) w)
    else if (0 <? num_new_tokens)%Z then Ok (put_output (cr_output_token_ids r) (out ++ py_last (Z.to_nat num_new_tokens) new_token_ids) w)
    else Ok w.

Definition update_blocks r (req_index : option nat) (resumed : bool) (new_block_ids : option (list (list Z))) : result CachedRequestState :=
  if resumed then
    _ ← py_assert (bool_decide (req_index = None));
    ids ← unwrap AssertionError new_block_ids;
    Ok (set_blocks ids r)
  else Ok (match new_block_ids with Some ids => set_blocks (extend_blocks (cr_block_ids r) ids) r | None => r end).

Definition set_batch_computed (req_index n : nat) (b : InputBatch) : result InputBatch :=
  let t := ib_tokens b in
  l ← np_set req_index n (num_computed_tokens_cpu t);
  Ok (set_tokens (mkTokenCols (token_ids_cpu t) (is_token_ids t) (req_prompt_embeds t) (num_tokens_no_spec t) (num_prompt_tokens t) l
                    (replayssm_decode_base t) (spec_token_ids t)) b).

(** Tokens that arrived with the scheduler's output, on ranks other than the last. *)
Definition put_new_tokens (req_index : nat) (new_token_ids : list Z) (num_computed : nat) (b : InputBatch) : result InputBatch :=
  let t := ib_tokens b in
  start ← np_get (num_tokens_no_spec t) req_index;
  let stop := start `max` (num_computed + length new_token_ids) in
  if start <? stop then
    tokens ← match new_token_ids with
      | [] => Ok (token_ids_cpu t)
      | _ => set_row req_index (np_assign start stop (py_last (stop - start) new_token_ids)) (token_ids_cpu t)
      end;
    flags ← set_row req_index (λ row, Ok (np_fill start stop true row)) (is_token_ids t);
    l ← np_set req_index stop (num_tokens_no_spec t);
    Ok (set_tokens (mkTokenCols tokens flags (req_prompt_embeds t) l (num_prompt_tokens t) (num_computed_tokens_cpu t)
                      (replayssm_decode_base t) (spec_token_ids t)) b)
  else Ok b.

(** The second part of a round, for a request in the batch. *)
Definition update_in_batch o w r (req_index : nat) (new_token_ids : list Z) (new_block_ids : option (list (list Z))) : result (ModelRunner P) :=
  b ← set_batch_computed req_index (cr_num_computed_tokens r) (mr_batch w);
  b ← match new_block_ids with
    | Some ids => ts ← mg_append_row ids req_index (ib_block_table b); Ok (set_block_table ts b)
    | None => Ok b
    end;
  b ← (if is_last_rank cfg then Ok b else put_new_tokens req_index new_token_ids (cr_num_computed_tokens r) b);
  '(r, b) ← update_req_spec_token_ids r (st_spec o) b;
  Ok (put_request r (with_batch b w)).

(** ... and for one that is not: it will be added again. *)
Definition queue_request o w r (num_output_tokens : nat) : result (ModelRunner P) :=
  if use_async_scheduling cfg && (0 <? num_output_tokens) then
    ids ← unwrap KeyError (od_get (cd_all_token_ids (st_cached o)) (cr_req_id r));
    let ref := fresh (dom (mr_outputs w)) in
    Ok (put_request (set_output_ref ref r) (put_output ref (py_last num_output_tokens ids) w))
  else Ok (put_request r w).

(** One round of the loop over the running and resumed requests; the state goes
    with the requests to add and the corrections to make later. *)
Definition cached_request o (s : ModelRunner P * list string * list (string * nat)) (i : nat) :
    result (ModelRunner P * list string * list (string * nat)) :=
  let '(w, to_add, deferred) := s in
  let d := st_cached o in
  req_id ← unwrap IndexError (cd_req_ids d !! i);
  r ← unwrap KeyError (mr_requests w !! req_id);
  num_computed ← unwrap IndexError (cd_num_computed_tokens d !! i);
  new_block_ids ← unwrap IndexError (cd_new_block_ids d !! i);
  num_output_tokens ← unwrap IndexError (cd_num_output_tokens d !! i);
  let resumed := bool_decide (req_id ∈ cd_resumed_req_ids d) in
  let req_index := ib_req_id_to_index (mr_batch w) !! req_id in
  '(w, r, corrections) ← assume_accepted w r req_index;
  let r := set_computed num_computed r in
  new_token_ids ← (if is_last_rank cfg then Ok [] else match cd_new_token_ids d with [] => Ok [] | l => unwrap IndexError (l !! i) end);
  w ← (if is_last_rank cfg || bool_decide (cd_new_token_ids d ≠ []) then update_output w r req_index new_token_ids num_computed num_output_tokens
       else Ok w);
  r ← update_blocks r req_index resumed new_block_ids;
  match req_index with
  | None => w ← queue_request o w r num_output_tokens; Ok (w, to_add ++ [req_id], deferred ++ corrections)
  | Some index => w ← update_in_batch o w r index new_token_ids new_block_ids; Ok (w, to_add, deferred ++ corrections)
  end.

(** ** Into the batch *)

Definition add_to_batch o w (req_id : string) : result (ModelRunner P) :=
  r ← unwrap KeyError (mr_requests w !! req_id);
  '(_, b) ← add_request f32 (mr_outputs w) r (mr_batch w);
  '(r, b) ← update_req_spec_token_ids r (st_spec o) b;
  Ok (put_request r (with_batch b w)).

(** [_may_reorder_batch] *)
Definition _may_reorder_batch o (b : InputBatch) : result InputBatch :=
  if decide (num_kv_cache_groups cfg = 0) then Ok b
  else match reorder_batch_threshold cfg with
       | Some threshold => '(_, b) ← reorder_batch_to_split_decodes_and_prefills (st_num_scheduled o) threshold b; Ok b
       | None => Ok b
       end.

(** [refresh_metadata], without the metadata of sampling. *)
Definition refresh_metadata w : ModelRunner P :=
  let b := mr_batch w in
  if is_pooling_model (ib_config b) then with_batch (set_builder (builder_reset (ib_builder b)).2 b) w
  else
    let '(batch_update, u) := get_and_reset (num_reqs b) (ib_builder b) in
    mkRunner (mr_requests w) (mr_outputs w) (set_builder u b) (mr_num_prompt_logprobs w) (mr_encoder_cache w) (mr_prev_num_draft_tokens w)
      (map (update_state batch_update) (mr_logitsprocs w)).

(** [_update_states]; a set is gone through in the order of its elements. *)
Definition _update_states o w : result (ModelRunner P * list (string * nat)) :=
  let finished := elements (st_finished o) in
  let w := foldl forget_request w finished in
  w ← foldM drop_from_batch w finished;
  let w := free_encoder_outputs (st_free_encoder o) w in
  w ← foldM drop_from_batch w (elements (unscheduled_req_ids o w));
  '(w, to_add) ← foldM new_request (w, []) (st_new o);
  let w := if use_async_spec_decode cfg then with_prev_drafts (map (λ _, 0) (mr_prev_num_draft_tokens w)) w else w in
  '(w, to_add, deferred) ← foldM (cached_request o) (w, to_add, []) (seq 0 (length (cd_req_ids (st_cached o))));
  w ← foldM (add_to_batch o) w to_add;
  b ← condense (mr_batch w);
  b ← _may_reorder_batch o b;
  Ok (refresh_metadata (with_batch b w), deferred).

(** ** After the model has run *)

(** [correct_spec_decode_token_counts]: fewer drafts were accepted than assumed.
    A count of computed tokens is a natural number here; the drafts assumed are
    among those it counts, so that the code does not go below zero either. *)
Definition correct_one (valid_sampled_token_count : list nat) (prev_index : gmap string nat) w (c : string * nat) : result (ModelRunner P) :=
  let '(req_id, assumed) := c in
  match prev_index !! req_id with
  | None => Ok w
  | Some prev_req_index =>
      count ← unwrap IndexError (valid_sampled_token_count !! prev_req_index);
      r ← unwrap KeyError (mr_requests w !! req_id);
      let correct (n : nat) : nat := Z.to_nat (Z.of_nat n - (Z.of_nat assumed - (Z.of_nat count - 1))) in
      let w := put_request (set_computed (correct (cr_num_computed_tokens r)) r) w in
      match ib_req_id_to_index (mr_batch w) !! req_id with
      | None => Ok w
      | Some i =>
          n ← np_get (num_computed_tokens_cpu (ib_tokens (mr_batch w))) i;
          b ← set_batch_computed i (correct n) (mr_batch w);
          Ok (with_batch b w)
      end
  end.
Definition correct_spec_decode_token_counts (deferred : list (string * nat)) (valid_sampled_token_count : list nat) w : result (ModelRunner P) :=
  match valid_sampled_token_count, ib_prev_req_id_to_index (mr_batch w) with
  | [], _ | _, None => Ok w
  | _, Some prev_index => if decide (prev_index = ∅) then Ok w else foldM (correct_one valid_sampled_token_count prev_index) w deferred
  end.

(** Caching the sampled tokens of one request in [_bookkeeping_sync]. *)
Definition cache_sampled (max_len : nat) w (x : nat * list Z) : result (ModelRunner P) :=
  let '(req_idx, sampled_ids) := x in
  match sampled_ids with
  | [] => Ok w
  | _ =>
      let b := mr_batch w in
      let t := ib_tokens b in
      start_idx ← np_get (num_tokens_no_spec t) req_idx;
      let end_idx := start_idx + length sampled_ids in
      _ ← py_assert (end_idx <=? max_len);
      tokens ← set_row req_idx (np_assign start_idx end_idx sampled_ids) (token_ids_cpu t);
      flags ← set_row req_idx (λ row, Ok (np_fill start_idx end_idx true row)) (is_token_ids t);
      l ← np_set req_idx end_idx (num_tokens_no_spec t);
      req_id ← np_get (ib_req_ids b) req_idx;
      req_id ← unwrap KeyError req_id;
      r ← unwrap KeyError (mr_requests w !! req_id);
      let b := set_tokens (mkTokenCols tokens flags (req_prompt_embeds t) l (num_prompt_tokens t) (num_computed_tokens_cpu t)
                             (replayssm_decode_base t) (spec_token_ids t)) b in
      Ok (put_output (cr_output_token_ids r) (output_of w r ++ sampled_ids) (with_batch b w))
  end.

(** [_bookkeeping_sync], what it does to the runner: [sampled] holds the valid
    tokens of each place, [invalid] the places whose tokens are discarded. *)
Definition bookkeeping (sampled : list (list Z)) (invalid : list nat) w : result (ModelRunner P) :=
  let b := mr_batch w in
  let max_len := max_model_len (ib_config b) in
  if use_async_scheduling cfg then
    let prev := foldl (λ m '(i, o), match o with Some id => if decide (i ∈ invalid) then m else <[id := i]> m | None => m end) ∅ (imap pair (ib_req_ids b)) in
    let w := with_batch (mkInputBatch (ib_config b) (ib_req_ids b) (ib_req_id_to_index b) (ib_req_output_token_ids b) (ib_tokens b) (ib_block_table b)
                           (ib_sampling b) (ib_sets b) (ib_lora b) (ib_builder b) (Some prev)) w in
    foldM (cache_sampled max_len) w (imap (λ i _, (i, if decide (i ∈ invalid) then [] else [(-1)%Z])) sampled)
  else foldM (cache_sampled max_len) w (imap (λ i ids, (i, if decide (i ∈ invalid) then [] else ids)) sampled).
End Runner.
