(* ===== verification/WorkerPlaces.v ===== *)
(** * One place of the persistent batch

    What a model runner does to the arrays of a request that is in the batch: its
    number of computed tokens, its blocks, its tokens and its drafts change, and
    everything else in the batch stays as it is. *)

From S2P Require Import Prelude NumPy BlockTable BlockTableSpec InputBatch InputBatchSpec InputBatchParts InputBatchRun WorkerStates.
From Stdlib Require Import QArith.
Local Open Scope nat_scope.

(** ** A place that changes *)

Definition with_computed (n : nat) (p : Place) : Place :=
  mkPlace (pl_id p) (pl_ref p) (pl_params p) (pl_pooling p) (pl_generator p) (pl_lora p) (pl_embeds p) (pl_tokens p) (pl_is_tokens p)
    (pl_prompt p) n (pl_base p) (pl_spec p) (pl_fresh p) (pl_blocks p).
Definition with_blocks (ids : list (list Z)) (p : Place) : Place :=
  mkPlace (pl_id p) (pl_ref p) (pl_params p) (pl_pooling p) (pl_generator p) (pl_lora p) (pl_embeds p) (pl_tokens p) (pl_is_tokens p)
    (pl_prompt p) (pl_computed p) (pl_base p) (pl_spec p) (pl_fresh p) ids.
(** Other tokens: the drafts no longer follow them. *)
Definition with_tokens (ts : list (option Z)) (flags : list bool) (p : Place) : Place :=
  mkPlace (pl_id p) (pl_ref p) (pl_params p) (pl_pooling p) (pl_generator p) (pl_lora p) (pl_embeds p) ts flags
    (pl_prompt p) (pl_computed p) (pl_base p) (pl_spec p) false (pl_blocks p).
Definition cut_place (n : nat) (p : Place) : Place := with_tokens (take n (pl_tokens p)) (take n (pl_is_tokens p)) p.
Definition extend_place (out : list Z) (p : Place) : Place :=
  with_tokens (pl_tokens p ++ map Some out) (pl_is_tokens p ++ replicate (length out) true) p.

Section Tokens.
Context (c : BatchConfig).
Implicit Types (t : TokenCols) (ps : places) (p : Place).

(** Columns that agree but for one place. *)
Record elsewhere (i : nat) t t' : Prop := {
  ew_spec : spec_token_ids t' = spec_token_ids t;
  ew_embeds : req_prompt_embeds t' = req_prompt_embeds t;
  ew_prompt : num_prompt_tokens t' = num_prompt_tokens t;
  ew_base : replayssm_decode_base t' = replayssm_decode_base t;
  ew_rows : ∀ k, k ≠ i → token_ids_cpu t' !! k = token_ids_cpu t !! k;
  ew_flags : ∀ k, k ≠ i → is_token_ids t' !! k = is_token_ids t !! k;
  ew_no_spec : ∀ k, k ≠ i → num_tokens_no_spec t' !! k = num_tokens_no_spec t !! k;
  ew_computed : ∀ k, k ≠ i → num_computed_tokens_cpu t' !! k = num_computed_tokens_cpu t !! k;
}.

Lemma tokens_update n ps t t' i p p' : tokens_hold c n ps t → place_at ps i = Some p → pl_spec p' = pl_spec p → elsewhere i t t' →
  token_dims c t' → tokens_at c t' i p' → tokens_hold c n (<[i := Some p']> ps) t'.
Proof.
  intros [Hd Hc Hs Ha] Hp Hsp [] Hd' Hat. pose proof (place_at_lt _ _ _ Hp) as Hi. split; [done| | |].
  - by rewrite ew_spec0.
  - intros k s. rewrite ew_spec0. intros Hk. apply Hs in Hk as ->. unfold spec_at. rewrite place_at_insert by done. case_decide as He; [|done].
    subst. rewrite Hp. simpl. by rewrite Hsp.
  - intros k q. rewrite place_at_insert by done. case_decide as He; [by intros [= <-]; subst|]. intros Hk.
    apply (tokens_at_frame c t t' k k); [by auto|by auto|by auto|congruence|by auto|congruence| |by apply Ha]. intros e _. by rewrite ew_embeds0.
Qed.

(** Fewer tokens. *)
Definition set_column_no_spec (l : list nat) t : TokenCols :=
  mkTokenCols (token_ids_cpu t) (is_token_ids t) (req_prompt_embeds t) l (num_prompt_tokens t) (num_computed_tokens_cpu t)
    (replayssm_decode_base t) (spec_token_ids t).

Lemma cut_tokens_hold n ps t i p m : tokens_hold c n ps t → place_at ps i = Some p → m ≤ length (pl_tokens p) →
  i < length (num_tokens_no_spec t) ∧ tokens_hold c n (<[i := Some (cut_place m p)]> ps) (set_column_no_spec (<[i := m]> (num_tokens_no_spec t)) t).
Proof.
  intros H Hp Hm. pose proof (hold_at _ _ _ _ H i p Hp) as Hat. pose proof (lookup_lt_Some _ _ _ (at_no_spec _ _ _ _ Hat)) as Hi. split; [done|].
  eapply (tokens_update n ps t _ i p); [done|done|done| | |].
  - split; try done. intros k Hk. simpl. by rewrite list_lookup_insert_ne.
  - destruct (hold_dims _ _ _ _ H). split; simpl; rewrite ?length_insert; done.
  - destruct Hat. split; simpl; try done.
    + intros row Hr. rewrite app_nil_r. apply (prefix_known _ (drop m (pl_tokens p))). rewrite take_drop. by eapply prefix_known, at_row.
    + intros row Hr. rewrite app_nil_r. apply (prefix_known _ (map Some (drop m (pl_is_tokens p)))). rewrite <-map_app, take_drop.
      specialize (at_flags row Hr). rewrite map_app in at_flags. by eapply prefix_known.
    + rewrite list_lookup_insert_eq by done. f_equal. rewrite length_take. lia.
    + rewrite !length_take. lia.
    + rewrite length_take. lia.
Qed.

(** More computed tokens. *)
Definition set_column_computed (l : list nat) t : TokenCols :=
  mkTokenCols (token_ids_cpu t) (is_token_ids t) (req_prompt_embeds t) (num_tokens_no_spec t) (num_prompt_tokens t) l
    (replayssm_decode_base t) (spec_token_ids t).

Lemma computed_tokens_hold n ps t i p m : tokens_hold c n ps t → place_at ps i = Some p →
  i < length (num_computed_tokens_cpu t) ∧
  tokens_hold c n (<[i := Some (with_computed m p)]> ps) (set_column_computed (<[i := m]> (num_computed_tokens_cpu t)) t).
Proof.
  intros H Hp. pose proof (hold_at _ _ _ _ H i p Hp) as Hat. pose proof (lookup_lt_Some _ _ _ (at_computed _ _ _ _ Hat)) as Hi. split; [done|].
  eapply (tokens_update n ps t _ i p); [done|done|done| | |].
  - split; try done. intros k Hk. simpl. by rewrite list_lookup_insert_ne.
  - destruct (hold_dims _ _ _ _ H). split; simpl; rewrite ?length_insert; done.
  - destruct Hat. split; simpl; try done. by rewrite list_lookup_insert_eq.
Qed.

(** Sampled tokens are written behind the tokens, over the drafts. *)
Definition write_tokens (i : nat) (out : list Z) (start : nat) t : result TokenCols :=
  tokens ← set_row i (np_assign start (start + length out) out) (token_ids_cpu t);
  flags ← set_row i (λ row, Ok (np_fill start (start + length out) true row)) (is_token_ids t);
  l ← np_set i (start + length out) (num_tokens_no_spec t);
  Ok (mkTokenCols tokens flags (req_prompt_embeds t) l (num_prompt_tokens t) (num_computed_tokens_cpu t)
        (replayssm_decode_base t) (spec_token_ids t)).

Lemma write_tokens_hold n ps t i p out : tokens_hold c n ps t → place_at ps i = Some p → length (pl_tokens p) + length out ≤ max_model_len c →
  ∃ t', write_tokens i out (length (pl_tokens p)) t = Ok t' ∧ tokens_hold c n (<[i := Some (extend_place out p)]> ps) t'.
Proof.
  intros H Hp Hroom. pose proof (hold_at _ _ _ _ H i p Hp) as Hat. pose proof (lookup_lt_Some _ _ _ (at_no_spec _ _ _ _ Hat)) as Hi.
  destruct (hold_dims _ _ _ _ H) as [D1 D2 D3 D4 D5 D6 D7 D8]. unfold write_tokens.
  destruct (lookup_lt_is_Some_2 (token_ids_cpu t) i ltac:(lia)) as [row Hrow]. destruct (lookup_lt_is_Some_2 (is_token_ids t) i ltac:(lia)) as [flags Hflags].
  pose proof (D3 _ _ Hrow) as Hlr. pose proof (D4 _ _ Hflags) as Hlf. set (m := length (pl_tokens p)) in *.
  rewrite (set_row_ok i _ (token_ids_cpu t) row _ Hrow (np_assign_fits m out row ltac:(lia))). cbn [mbind result_bind].
  rewrite (set_row_ok i (λ row, Ok (np_fill m (m + length out) true row)) (is_token_ids t) flags _ Hflags eq_refl). cbn [mbind result_bind].
  rewrite np_set_ok by lia. cbn [mbind result_bind]. eexists. split; [done|]. eapply (tokens_update n ps t _ i p); [done|done|done| | |].
  - split; try done; intros k Hk; simpl; by rewrite list_lookup_insert_ne.
  - split; simpl; rewrite ?length_insert; try done.
    + apply insert_rows_dim; [done|]. rewrite <-Hlr. eapply np_assign_length, (np_assign_fits _ out). lia.
    + apply insert_rows_dim; [done|]. by rewrite np_fill_length.
  - destruct Hat. split; simpl; try done.
    + intros r Hr. rewrite app_nil_r. rewrite list_lookup_insert_eq in Hr by lia. injection Hr as <-. apply (row_known_write (pl_tokens p) out row); [lia|].
      by eapply prefix_known, at_row.
    + intros r Hr. rewrite app_nil_r. rewrite list_lookup_insert_eq in Hr by lia. injection Hr as <-. rewrite np_fill_true by lia. unfold m.
      rewrite map_app, <-at_flag_count, <-(length_map Some (pl_is_tokens p)). apply row_known_write; [rewrite length_map; lia|].
      specialize (at_flags flags Hflags). rewrite map_app in at_flags. by eapply prefix_known.
    + rewrite list_lookup_insert_eq by lia. f_equal. by rewrite length_app, length_map.
    + rewrite !length_app, length_map, length_replicate. lia.
    + rewrite length_app, length_map. lia.
Qed.
End Tokens.

(** ** The same for a whole batch *)

Section Batch.
Context (f32 : Q → Q).
Implicit Types (b : InputBatch) (ps : places) (p : Place).

Lemma set_no_spec_holds n ps b i p m : batch_holds f32 n ps b → place_at ps i = Some p → m ≤ length (pl_tokens p) →
  ∃ tok, set_no_spec i m b = Ok (set_tokens tok b) ∧ batch_holds f32 n (<[i := Some (cut_place m p)]> ps) (set_tokens tok b).
Proof.
  intros H Hp Hm. destruct (cut_tokens_hold _ n ps _ i p m (bh_tokens _ _ _ _ H) Hp Hm) as [Hi Htok]. unfold set_no_spec.
  rewrite np_set_ok by done. eexists. split; [done|]. by apply (batch_update f32 n ps b i p).
Qed.

Lemma set_batch_computed_holds n ps b i p m : batch_holds f32 n ps b → place_at ps i = Some p →
  ∃ tok, set_batch_computed i m b = Ok (set_tokens tok b) ∧ batch_holds f32 n (<[i := Some (with_computed m p)]> ps) (set_tokens tok b).
Proof.
  intros H Hp. destruct (computed_tokens_hold _ n ps _ i p m (bh_tokens _ _ _ _ H) Hp) as [Hi Htok]. unfold set_batch_computed.
  rewrite np_set_ok by done. eexists. split; [done|]. by apply (batch_update f32 n ps b i p).
Qed.

Lemma extend_blocks_length old new : length (extend_blocks old new) = length old.
Proof. revert new. induction old as [|ids old IH]; intros [|x new]; simpl; [done..|]. by rewrite IH. Qed.

Lemma extend_blocks_lookup old new k ids new_ids : old !! k = Some ids → new !! k = Some new_ids →
  extend_blocks old new !! k = Some (ids ++ new_ids).
Proof.
  revert new k. induction old as [|x old IH]; intros [|y new] [|k] Hk Hn; simplify_eq/=; [done|]. by apply IH.
Qed.

Lemma append_blocks_holds n ps b i p ids : batch_holds f32 n ps b → place_at ps i = Some p → length ids = length (ib_block_table b) →
  blocks_fit (map tb_config (ib_block_table b)) (extend_blocks (pl_blocks p) ids) →
  ∃ ts, mg_append_row ids i (ib_block_table b) = Ok ts ∧ map tb_config ts = map tb_config (ib_block_table b) ∧
    batch_holds f32 n (<[i := Some (with_blocks (extend_blocks (pl_blocks p) ids) p)]> ps) (set_block_table ts b).
Proof.
  intros H Hp Hlen [Hcount Hfit]. rewrite extend_blocks_length, length_map in Hcount. pose proof (place_at_lt _ _ _ Hp) as Hi.
  set (p' := with_blocks (extend_blocks (pl_blocks p) ids) p).
  destruct (on_tables_with_all (λ ids, append_row ids i) ids (ib_block_table b)
    (λ k t', config_ok (tb_config t') ∧ holds (tb_config t') t' (map (blocks_of k) (<[i := Some p']> ps))) Hlen) as (ts & Hts & Hc & Hh).
  { intros k t l Hk Hl. destruct (bh_tables _ _ _ _ H k t Hk) as [Hok Hold].
    destruct (lookup_lt_is_Some_2 (pl_blocks p) k) as [old Hold_k]; [rewrite Hcount; by eapply lookup_lt_Some|].
    pose proof (extend_blocks_lookup _ _ _ _ _ Hold_k Hl) as Hext. pose proof (blocks_lookup ps k i Hi) as Hb. rewrite Hp in Hb. unfold blocks_of in Hb. simpl in Hb.
    rewrite Hold_k in Hb. simpl in Hb.
    destruct (append_row_holds (tb_config t) Hok t _ i old l Hold Hb) as (t' & Hr & Hh' & _).
    { apply (Hfit k); [by rewrite map_lookup, Hk|done]. }
    exists t'. split; [done|]. rewrite (holds_config _ _ _ Hh'). split_and!; [done..|]. rewrite map_insert. unfold blocks_of at 1. simpl. by rewrite Hext. }
  exists ts. split; [done|]. split; [done|].
  assert (Hsame : set_tokens (ib_tokens b) b = b) by by destruct b. replace (set_block_table ts b) with (set_block_table ts (set_tokens (ib_tokens b) b)) by by rewrite Hsame.
  apply (batch_replace f32 n ps b i p p'); [done..| |].
  - pose proof (hold_at _ _ _ _ (bh_tokens _ _ _ _ H) i p Hp) as [].
    eapply (tokens_update (ib_config b) n ps (ib_tokens b) _ i p); [apply (bh_tokens _ _ _ _ H)|done|done|by split|apply (hold_dims _ _ _ _ (bh_tokens _ _ _ _ H))|by split].
  - intros k t Hk. destruct (Hh k t Hk). done.
Qed.
End Batch.
