(* ===== verification/WorkerRun.v ===== *)
(** * The states of a worker: the invariant, and leaving the batch

    Every request in the batch mirrors its cached state.  The first half of
    [_update_states] removes requests from the batch and takes in new ones; it
    keeps that, and every logits processor can follow. *)

From S2P Require Import Prelude NumPy BlockTable InputBatch InputBatchSpec InputBatchParts InputBatchRun LogitsUpdates WorkerStates WorkerPlaces.
From Stdlib Require Import QArith.
Local Open Scope nat_scope.

(** ** The invariant *)

(** A place but for what its cached state does not say: the base of replayed
    states and the drafts. *)
Definition settled (p : Place) : Place :=
  mkPlace (pl_id p) (pl_ref p) (pl_params p) (pl_pooling p) (pl_generator p) (pl_lora p) (pl_embeds p) (pl_tokens p) (pl_is_tokens p)
    (pl_prompt p) (pl_computed p) 0 [] true (pl_blocks p).

(** Cached states are found under their ids, and have lists of output tokens of
    their own. *)
Record states_ok (m : gmap string CachedRequestState) (outs : gmap output_ref (list Z)) : Prop := {
  so_keys : ∀ id r, m !! id = Some r → cr_req_id r = id;
  so_refs : ∀ id r, m !! id = Some r → cr_output_token_ids r ∈ dom outs;
  so_distinct : ∀ id id' r r', m !! id = Some r → m !! id' = Some r' → cr_output_token_ids r = cr_output_token_ids r' → id = id';
}.

Section Run.
Context {P : Type} (f32 : Q → Q).
Implicit Types (w : ModelRunner P) (ps : places) (p : Place) (r : CachedRequestState) (b : InputBatch).

Definition mirrored w p : Prop := ∃ r, mr_requests w !! pl_id p = Some r ∧ settled p = settled (place_of r (output_of w r)).

Record runner_holds (n : nat) ps w : Prop := {
  rh_batch : batch_holds f32 n ps (mr_batch w);
  rh_mirror : ∀ i p, place_at ps i = Some p → mirrored w p;
  rh_states : states_ok (mr_requests w) (mr_outputs w);
}.

(** What a logits processor should know of the places. *)
Section Entries.
Context {T : Type} (new_entry : BatchParams → option (list Z) → output_ref → option T).

Definition entry_of w (id : string) : option T :=
  r ← mr_requests w !! id; q ← cr_sampling_params r; new_entry q (cr_prompt_token_ids r) (cr_output_token_ids r).
Definition follows w ps (d : gmap nat T) : Prop := ∀ i, d !! i = place_at ps i ≫= λ p, entry_of w (pl_id p).
End Entries.

(** Whatever a processor makes of a request: if it knew the places before, what the
    builder has collected tells it the places now. *)
Definition tracks w0 ps0 w ps : Prop := ∀ (T : Type) (new_entry : BatchParams → option (list Z) → output_ref → option T) d0,
  follows new_entry w0 ps0 d0 → ∃ d, tells new_entry d0 (ib_builder (mr_batch w)) d ∧ follows new_entry w ps d.

(** Before the batch is condensed. *)
Record phase w0 ps0 (n : nat) ps w : Prop := {
  ph_runner : runner_holds n ps w;
  ph_holes : holes n ps (removed_list (ib_builder (mr_batch w)));
  ph_sorted : sorted_if (ib_builder (mr_batch w));
  ph_moved : moved (ib_builder (mr_batch w)) = [];
  ph_tracks : is_pooling_model (ib_config (mr_batch w)) = false → tracks w0 ps0 w ps;
  ph_same : same_config (mr_batch w0) (mr_batch w);
}.
Definition removing w : Prop := is_removed_sorted (ib_builder (mr_batch w)) = false ∧ added (ib_builder (mr_batch w)) = [].

Lemma phase_start n ps w : runner_holds n ps w → ib_builder (mr_batch w) = empty_builder → holes n ps [] → phase w ps n ps w ∧ removing w.
Proof.
  intros H He Hh. split; [|by split; rewrite He]. split; rewrite ?He; try done. intros _ T ne d0 Hd. exists d0. split; [|done].
  rewrite He. apply tells_start.
Qed.

Lemma with_batch_same w : with_batch (mr_batch w) w = w.
Proof. by destruct w. Qed.
Lemma with_batch_twice b b' w : with_batch b (with_batch b' w) = with_batch b w.
Proof. by destruct w. Qed.

(** The cached states change, but not those of the places. *)
Lemma phase_frame w0 ps0 n ps w w' : phase w0 ps0 n ps w → mr_batch w' = mr_batch w → states_ok (mr_requests w') (mr_outputs w') →
  (∀ i p r, place_at ps i = Some p → mr_requests w !! pl_id p = Some r → mr_requests w' !! pl_id p = Some r ∧ output_of w' r = output_of w r) →
  phase w0 ps0 n ps w'.
Proof.
  intros [[Hb Hm Hs] Hh Hso Hmv Ht Hsame] E Hs' Hp. split; rewrite ?E; try done.
  - split; rewrite ?E; try done. intros i p Hi. destruct (Hm i p Hi) as (r & Hr & Hset). destruct (Hp i p r Hi Hr) as [Hr' Ho].
    exists r. split; [done|]. by rewrite Ho.
  - intros Hpool T ne d0 Hd0. destruct (Ht Hpool T ne d0 Hd0) as (d & Htell & Hf). exists d. split; [by rewrite E|].
    intros i. rewrite (Hf i). destruct (place_at ps i) as [p|] eqn:Ei; [|done]. simpl. destruct (Hm i p Ei) as (r & Hr & _).
    unfold entry_of. rewrite Hr. by destruct (Hp i p r Ei Hr) as [-> _].
Qed.

(** ** Removing requests *)

Definition in_places ps (id : string) : Prop := ∃ i p, place_at ps i = Some p ∧ pl_id p = id.
Definition clear_ids (l : list string) ps : places := map (λ o : option Place, p ← o; if decide (pl_id p ∈ l) then None else Some p) ps.

Lemma place_at_clear l ps i : place_at (clear_ids l ps) i = (p ← place_at ps i; if decide (pl_id p ∈ l) then None else Some p).
Proof. unfold place_at, clear_ids. rewrite map_lookup. destruct (ps !! i) as [[p|]|]; done. Qed.

Lemma clear_ids_nil ps : clear_ids [] ps = ps.
Proof.
  unfold clear_ids. apply list_eq. intros i. rewrite map_lookup. by destruct (ps !! i) as [[p|]|].
Qed.

Lemma clear_ids_cons id l ps : clear_ids (id :: l) ps = clear_ids l (clear_ids [id] ps).
Proof.
  unfold clear_ids. rewrite map_map. apply map_ext. intros [p|]; simpl; [|done]. destruct (decide (pl_id p ∈ [id])) as [H1|H1]; simpl.
  - apply list_elem_of_singleton in H1. rewrite decide_True by (rewrite H1; left). done.
  - destruct (decide (pl_id p ∈ l)) as [H2|H2]; [by rewrite decide_True by by right|].
    rewrite decide_False; [done|]. intros [?|?]%elem_of_cons; [by apply H1, list_elem_of_singleton|done].
Qed.

Lemma in_places_clear l ps id : in_places (clear_ids l ps) id ↔ in_places ps id ∧ id ∉ l.
Proof.
  split.
  - intros (i & p & Hp & <-). rewrite place_at_clear in Hp. destruct (place_at ps i) as [q|] eqn:E; [|done]. simpl in Hp. case_decide; [done|].
    injection Hp as <-. split; [by exists i, q|done].
  - intros ((i & p & Hp & <-) & Hl). exists i, p. rewrite place_at_clear, Hp. simpl. by rewrite decide_False.
Qed.

Lemma clear_absent ps id : ¬ in_places ps id → clear_ids [id] ps = ps.
Proof.
  intros Hn. apply list_eq. intros i. unfold clear_ids. rewrite map_lookup. destruct (ps !! i) as [[p|]|] eqn:E; simpl; [|done..].
  rewrite decide_False; [done|]. intros Hid%list_elem_of_singleton. apply Hn. exists i, p. split; [by apply place_at_Some|done].
Qed.

Lemma clear_present ps i p : distinct ps → place_at ps i = Some p → clear_ids [pl_id p] ps = <[i := None]> ps.
Proof.
  intros Hd Hp. apply list_eq. intros k. unfold clear_ids. rewrite map_lookup. destruct (decide (k = i)) as [->|Hne].
  - pose proof (place_at_lt _ _ _ Hp). rewrite list_lookup_insert_eq by done. apply place_at_Some in Hp. rewrite Hp. simpl. by rewrite decide_True by left.
  - rewrite list_lookup_insert_ne by done. destruct (ps !! k) as [[q|]|] eqn:E; simpl; [|done..]. rewrite decide_False; [done|].
    intros Hid%list_elem_of_singleton. apply Hne. apply place_at_Some in E. by apply (Hd _ _ _ _ E Hp).
Qed.

Lemma index_places n ps b id i : batch_holds f32 n ps b → ib_req_id_to_index b !! id = Some i → ∃ p, place_at ps i = Some p ∧ pl_id p = id.
Proof. intros H Hi. by apply (bh_index _ _ _ _ H). Qed.

Lemma index_none n ps b id : batch_holds f32 n ps b → ib_req_id_to_index b !! id = None ↔ ¬ in_places ps id.
Proof.
  intros H. split.
  - intros Hn (i & p & Hp & Hid). assert (ib_req_id_to_index b !! id = Some i) as E; [|congruence]. apply (bh_index _ _ _ _ H). by exists p.
  - intros Hn. destruct (ib_req_id_to_index b !! id) as [i|] eqn:E; [|done]. exfalso. apply Hn. destruct (index_places _ _ _ _ _ H E) as (p & ? & ?). by exists i, p.
Qed.

Lemma same_config_trans b1 b2 b3 : same_config b1 b2 → same_config b2 b3 → same_config b1 b3.
Proof. intros [H1 H2] [H3 H4]. split; congruence. Qed.

Lemma drop_phase w0 ps0 n ps w id : phase w0 ps0 n ps w → removing w →
  ∃ b, drop_from_batch w id = Ok (with_batch b w) ∧ phase w0 ps0 n (clear_ids [id] ps) (with_batch b w) ∧ removing (with_batch b w).
Proof.
  intros [[Hb Hm Hs] Hh Hso Hmv Ht Hsame] [Hr Ha]. unfold drop_from_batch. destruct (ib_req_id_to_index (mr_batch w) !! id) as [i|] eqn:E.
  - destruct (index_places _ _ _ _ _ Hb E) as (p & Hp & <-). pose proof (batch_distinct _ _ _ _ Hb) as Hd.
    destruct (remove_request_holds f32 n ps (mr_batch w) i p Hb Hh Hr Hp) as (b & -> & Hb' & Hc & Hrl & Hh' & Hf' & Ha' & Hm'). cbn [mbind result_bind].
    rewrite (clear_present _ _ _ Hd Hp). exists b. split; [done|]. split; [|split; [done|by simpl; rewrite Ha']].
    pose proof (place_at_lt _ _ _ Hp) as Hi. split; simpl; try done; [|by intros ?; congruence|by rewrite Hm'| |by eapply same_config_trans].
    + split; [done| |done]. intros k q. rewrite place_at_insert by done. case_decide; [done|]. intros Hq. apply (Hm k q Hq).
    + intros Hpool T ne d0 Hd0. destruct Hc as [Hc _]. rewrite Hc in Hpool. destruct (Ht Hpool T ne d0 Hd0) as (d & Htell & Hfol).
      exists (delete i d). split.
      * apply (tells_remove ne d0 _ d i _ Htell); [done|done| |done|simpl; congruence|simpl; congruence]. intros Hin. apply (ho_elem _ _ _ Hh) in Hin as [_ Hin]. congruence.
      * intros k. rewrite place_at_insert by done. destruct (decide (k = i)) as [->|Hne]; [by rewrite lookup_delete_eq|]. rewrite lookup_delete_ne by done. apply Hfol.
  - rewrite (remove_request_absent id _ E). cbn [mbind result_bind]. exists (mr_batch w). rewrite with_batch_same. split; [done|].
    rewrite (clear_absent ps id) by by eapply index_none. done.
Qed.

Lemma drop_all_phase l : ∀ w0 ps0 n ps w, phase w0 ps0 n ps w → removing w →
  ∃ b, foldM drop_from_batch w l = Ok (with_batch b w) ∧ phase w0 ps0 n (clear_ids l ps) (with_batch b w) ∧ removing (with_batch b w).
Proof.
  induction l as [|id l IH]; intros w0 ps0 n ps w H Hr.
  - exists (mr_batch w). by rewrite with_batch_same, clear_ids_nil.
  - cbn [foldM]. destruct (drop_phase w0 ps0 n ps w id H Hr) as (b & -> & H1 & Hr1). cbn [mbind result_bind].
    destruct (IH w0 ps0 n (clear_ids [id] ps) (with_batch b w) H1 Hr1) as (b' & -> & H2 & Hr2). rewrite !with_batch_twice in *.
    exists b'. by rewrite (clear_ids_cons id l).
Qed.

(** Dropping looks at the batch only. *)
Lemma drop_all_batch l : ∀ w w' b, mr_batch w' = mr_batch w → foldM drop_from_batch w l = Ok (with_batch b w) → foldM drop_from_batch w' l = Ok (with_batch b w').
Proof.
  induction l as [|id l IH]; intros w w' b E.
  - cbn [foldM]. intros [= Hw]. f_equal. assert (mr_batch w = b) as Hb by by rewrite Hw. rewrite <-Hb, <-E. by rewrite with_batch_same.
  - cbn [foldM]. intros H. destruct (drop_from_batch w id) as [w1|] eqn:Ed; [|done]. cbn [mbind result_bind] in H.
    unfold drop_from_batch in *. rewrite E. destruct (remove_request id (mr_batch w)) as [[? b1]|]; [|done]. cbn [mbind result_bind] in *. injection Ed as <-.
    rewrite <-(with_batch_twice b b1 w'). apply (IH (with_batch b1 w)); [done|]. by rewrite with_batch_twice.
Qed.

(** ** Forgetting finished requests *)

Lemma forget_all_batch l w : mr_batch (foldl forget_request w l) = mr_batch w.
Proof. revert w. induction l as [|id l IH]; intros w; simpl; [done|]. by rewrite IH. Qed.
Lemma forget_all_outputs l w : mr_outputs (foldl forget_request w l) = mr_outputs w.
Proof. revert w. induction l as [|id l IH]; intros w; simpl; [done|]. by rewrite IH. Qed.
Lemma forget_all_procs l w : mr_logitsprocs (foldl forget_request w l) = mr_logitsprocs w.
Proof. revert w. induction l as [|id l IH]; intros w; simpl; [done|]. by rewrite IH. Qed.
Lemma forget_all_requests l w id : mr_requests (foldl forget_request w l) !! id = if decide (id ∈ l) then None else mr_requests w !! id.
Proof.
  revert w. induction l as [|x l IH]; intros w; simpl; [done|]. rewrite IH. simpl. destruct (decide (id = x)) as [->|Hne].
  - rewrite lookup_delete_eq. rewrite (decide_True (P := x ∈ x :: l)) by left. by case_decide.
  - rewrite lookup_delete_ne by done. destruct (decide (id ∈ l)) as [Hl|Hl]; [by rewrite decide_True by by right|].
    rewrite decide_False; [done|]. by intros [?|?]%elem_of_cons.
Qed.

Lemma states_forget m outs m' : states_ok m outs → (∀ id r, m' !! id = Some r → m !! id = Some r) → states_ok m' outs.
Proof. intros [H1 H2 H3] Hsub. split; eauto. Qed.

(** Finished requests leave the cached states and the batch. *)
Lemma finish_phase w0 ps0 n ps w l : phase w0 ps0 n ps w → removing w →
  ∃ w', foldM drop_from_batch (foldl forget_request w l) l = Ok w' ∧ phase w0 ps0 n (clear_ids l ps) w' ∧ removing w' ∧
    (∀ id, mr_requests w' !! id = if decide (id ∈ l) then None else mr_requests w !! id) ∧ mr_outputs w' = mr_outputs w ∧ mr_logitsprocs w' = mr_logitsprocs w.
Proof.
  intros H Hr. destruct (drop_all_phase l w0 ps0 n ps w H Hr) as (b & Hrun & H1 & Hr1).
  exists (with_batch b (foldl forget_request w l)). split; [eapply drop_all_batch; [apply forget_all_batch|done]|].
  assert (Hreq : ∀ id, mr_requests (with_batch b (foldl forget_request w l)) !! id = if decide (id ∈ l) then None else mr_requests w !! id).
  { intros id. simpl. apply forget_all_requests. }
  split; [|split; [done|split; [done|split; [apply forget_all_outputs|apply forget_all_procs]]]].
  eapply (phase_frame w0 ps0 n _ (with_batch b w)); [done|done| |].
  - eapply states_forget; [simpl; rewrite forget_all_outputs; apply (rh_states _ _ _ (ph_runner _ _ _ _ _ H))|].
    intros id r. rewrite Hreq. by case_decide.
  - intros i p r Hp Hpr. rewrite Hreq. rewrite decide_False.
    + split; [done|]. unfold output_of. simpl. by rewrite forget_all_outputs.
    + assert (Hin : in_places (clear_ids l ps) (pl_id p)) by by exists i, p. by apply in_places_clear in Hin as [_ ?].
Qed.
End Run.
