(* ===== verification/WorkerNew.v ===== *)
(** * The states of a worker: new requests

    A new request gets a cached state of its own, and one that continues a
    streaming session replaces what was known; neither is in the batch yet. *)

From S2P Require Import Prelude NumPy BlockTable InputBatch InputBatchSpec InputBatchParts InputBatchRun LogitsUpdates WorkerStates WorkerPlaces WorkerRun.
From Stdlib Require Import QArith.
Local Open Scope nat_scope.

Section New.
Context {P : Type} (f32 : Q → Q) (make_generator : Z → Z).
Implicit Types (w : ModelRunner P) (ps : places) (p : Place) (r : CachedRequestState) (d : NewRequest).

(** The cached states and outputs of a request are as they were. *)
Definition untouched w w' (id : string) : Prop :=
  mr_requests w' !! id = mr_requests w !! id ∧ ∀ r, mr_requests w !! id = Some r → output_of w' r = output_of w r.

Lemma untouched_trans w1 w2 w3 id : untouched w1 w2 id → untouched w2 w3 id → untouched w1 w3 id.
Proof. intros [H1 H2] [H3 H4]. split; [congruence|]. intros r Hr. rewrite H4 by congruence. by apply H2. Qed.

Lemma untouched_refl w id : untouched w w id.
Proof. done. Qed.

Lemma untouched_batch w b id : untouched w (with_batch b w) id.
Proof. done. Qed.

(** The state of a request and its output list are put together. *)
Definition put_state r (out : list Z) w : ModelRunner P := put_request r (put_output (cr_output_token_ids r) out w).

Lemma states_put m outs r out : states_ok m outs →
  (∀ id' r', id' ≠ cr_req_id r → m !! id' = Some r' → cr_output_token_ids r' ≠ cr_output_token_ids r) →
  states_ok (<[cr_req_id r := r]> m) (<[cr_output_token_ids r := out]> outs).
Proof.
  intros [H1 H2 H3] Hd. split.
  - intros id r'. rewrite lookup_insert_Some. intros [[<- <-]|[_ Hr]]; [done|by apply H1].
  - intros id r'. rewrite lookup_insert_Some, dom_insert, elem_of_union, elem_of_singleton. intros [[<- <-]|[_ Hr]]; [by left|right; by eapply H2].
  - intros id id' r1 r2. rewrite !lookup_insert_Some. intros [[<- <-]|[Hn1 Hr1]] [[<- <-]|[Hn2 Hr2]] E.
    + done.
    + exfalso. by apply (Hd id' r2).
    + exfalso. by apply (Hd id r1).
    + by eapply H3.
Qed.

(** A list of its own: a new one, or the one it had. *)
Definition own_list w r : Prop := cr_output_token_ids r ∉ dom (mr_outputs w) ∨ ∃ r0, mr_requests w !! cr_req_id r = Some r0 ∧ cr_output_token_ids r = cr_output_token_ids r0.

Lemma own_list_distinct w r id' r' : states_ok (mr_requests w) (mr_outputs w) → own_list w r → id' ≠ cr_req_id r → mr_requests w !! id' = Some r' →
  cr_output_token_ids r' ≠ cr_output_token_ids r.
Proof.
  intros [H1 H2 H3] [Hn|(r0 & Hr0 & E)] Hne Hr' Heq.
  - apply Hn. rewrite <-Heq. by eapply H2.
  - apply Hne. by apply (H3 _ _ r' r0); [..|congruence].
Qed.

Lemma put_state_untouched w r out id : states_ok (mr_requests w) (mr_outputs w) → own_list w r → id ≠ cr_req_id r → untouched w (put_state r out w) id.
Proof.
  intros Hs Ho Hne. split; [simpl; by rewrite lookup_insert_ne|]. intros r' Hr'. unfold output_of. simpl. rewrite lookup_insert_ne; [done|].
  intros E. by eapply (own_list_distinct w r).
Qed.

Lemma put_state_output w r out : output_of (put_state r out w) r = out.
Proof. unfold output_of. simpl. by rewrite lookup_insert_eq. Qed.

Lemma put_state_ok w r out : states_ok (mr_requests w) (mr_outputs w) → own_list w r →
  states_ok (mr_requests (put_state r out w)) (mr_outputs (put_state r out w)).
Proof. intros Hs Ho. apply states_put; [done|]. intros id' r' Hne Hr'. by eapply own_list_distinct. Qed.

Lemma put_state_phase w0 ps0 n ps w r out : phase f32 w0 ps0 n ps w → ¬ in_places ps (cr_req_id r) → own_list w r → phase f32 w0 ps0 n ps (put_state r out w).
Proof.
  intros H Hn Ho. pose proof (rh_states _ _ _ _ (ph_runner _ _ _ _ _ _ H)) as Hs. apply (phase_frame f32 w0 ps0 n ps w); [done|done| |].
  - by apply put_state_ok.
  - intros i p r' Hp Hr'. assert (Hne : pl_id p ≠ cr_req_id r) by (intros E; apply Hn; by exists i, p).
    destruct (put_state_untouched w r out _ Hs Ho Hne) as [H1 H2]. split; [by rewrite H1|by apply H2].
Qed.

(** Writing back the list as it is. *)
Lemma put_output_same w r : cr_output_token_ids r ∈ dom (mr_outputs w) → put_output (cr_output_token_ids r) (output_of w r) w = w.
Proof.
  intros [out Hout]%elem_of_dom. destruct w. unfold put_output, output_of, with_outputs in *. simpl in *. f_equal. apply insert_id. by rewrite Hout.
Qed.

(** ** One new request *)

(** The state that a new request leaves: a new one, or one that replaces [old]. *)
Definition request_from (old : option CachedRequestState) (ref : output_ref) d (num_prompt : nat) : CachedRequestState :=
  match old with
  | Some r =>
      mkCachedRequestState (nr_req_id d) (nr_prompt_token_ids d) (nr_sampling_params d) (cr_generator r) (nr_block_ids d)
        (nr_num_computed_tokens d) (cr_output_token_ids r) (cr_lora_request r) (nr_prompt_embeds d) (cr_prompt_is_token_ids r)
        (cr_prev_num_draft_len r) (nr_pooling_params d) num_prompt
  | None =>
      mkCachedRequestState (nr_req_id d) (nr_prompt_token_ids d) (nr_sampling_params d)
        (p ← nr_sampling_params d; if decide (sampling_type p = RANDOM_SEED) then make_generator <$> seed p else None) (nr_block_ids d)
        (nr_num_computed_tokens d) ref (nr_lora_request d) (nr_prompt_embeds d) (nr_prompt_is_token_ids d) 0 (nr_pooling_params d) num_prompt
  end.

Definition prompt_len d : result nat := length_from_prompt_token_ids_or_embeds (nr_prompt_token_ids d) (nr_prompt_embeds d).

Lemma note_prompt_logprobs_frame d w : mr_batch (note_prompt_logprobs d w) = mr_batch w ∧ mr_requests (note_prompt_logprobs d w) = mr_requests w ∧
  mr_outputs (note_prompt_logprobs d w) = mr_outputs w ∧ mr_logitsprocs (note_prompt_logprobs d w) = mr_logitsprocs w.
Proof. unfold note_prompt_logprobs. by destruct (nr_sampling_params d ≫= prompt_logprobs). Qed.

Lemma phase_same w0 ps0 n ps w w' : phase f32 w0 ps0 n ps w → mr_batch w' = mr_batch w → mr_requests w' = mr_requests w → mr_outputs w' = mr_outputs w →
  phase f32 w0 ps0 n ps w'.
Proof.
  intros H Eb Er Eo. apply (phase_frame f32 w0 ps0 n ps w); [done|done|rewrite Er, Eo; apply (rh_states _ _ _ _ (ph_runner _ _ _ _ _ _ H))|].
  intros i p r _ Hr. rewrite Er. split; [done|]. unfold output_of. by rewrite Eo.
Qed.

Lemma new_request_phase w0 ps0 n ps w to_add d num : phase f32 w0 ps0 n ps w → removing w → prompt_len d = Ok num →
  (is_pooling_model (ib_config (mr_batch w)) = true → is_Some (nr_pooling_params d)) →
  ∃ w' ref, new_request make_generator (w, to_add) d = Ok (w', to_add ++ [nr_req_id d]) ∧ phase f32 w0 ps0 n (clear_ids [nr_req_id d] ps) w' ∧ removing w' ∧
    (∀ id, id ≠ nr_req_id d → untouched w w' id) ∧
    (let r := request_from (mr_requests w !! nr_req_id d) ref d num in mr_requests w' !! nr_req_id d = Some r ∧ output_of w' r = []) ∧
    mr_logitsprocs w' = mr_logitsprocs w.
Proof.
  intros H Hr Hnum Hpool. pose proof (ph_runner _ _ _ _ _ _ H) as Hrun. pose proof (rh_states _ _ _ _ Hrun) as Hs. unfold new_request.
  destruct (mr_requests w !! nr_req_id d) as [r|] eqn:Er.
  - unfold _update_streaming_request. destruct (drop_phase f32 w0 ps0 n ps w (nr_req_id d) H Hr) as (b & -> & H1 & Hr1). cbn [mbind result_bind].
    unfold prompt_len in Hnum. rewrite Hnum. cbn [mbind result_bind]. pose proof (so_keys _ _ Hs _ _ Er) as Hid.
    set (r' := request_from (Some r) 0 d num). assert (Hself : mkCachedRequestState (cr_req_id r) (nr_prompt_token_ids d) (nr_sampling_params d) (cr_generator r)
      (nr_block_ids d) (nr_num_computed_tokens d) (cr_output_token_ids r) (cr_lora_request r) (nr_prompt_embeds d) (cr_prompt_is_token_ids r)
      (cr_prev_num_draft_len r) (nr_pooling_params d) num = r') by (unfold r', request_from; by rewrite Hid). rewrite Hself.
    assert (Hown : own_list (with_batch b w) r') by (right; exists r; split; [done|done]).
    exists (put_state r' [] (with_batch b w)), 0. split; [done|]. split.
    { apply put_state_phase; [done| |done]. intros [_ Hn]%in_places_clear. apply Hn. by left. }
    split; [done|]. split; [intros id Hne; by apply (put_state_untouched (with_batch b w))|]. split; [|done]. cbv zeta. fold r'. split; [|apply put_state_output].
    simpl. by rewrite lookup_insert_eq.
  - rewrite orb_comm. unfold py_assert. assert (Hassert : bool_decide (is_Some (nr_pooling_params d)) || negb (is_pooling_model (ib_config (mr_batch w))) = true).
    { destruct (is_pooling_model _); [|by rewrite orb_true_r]. rewrite bool_decide_true by auto. done. }
    rewrite Hassert. cbn [mbind result_bind]. unfold make_request_state. unfold prompt_len in Hnum. rewrite Hnum. cbn [mbind result_bind].
    set (ref := fresh (dom (mr_outputs w))). set (r' := request_from None ref d num).
    assert (Hown : own_list w r') by (left; apply is_fresh).
    assert (Habs : ¬ in_places ps (nr_req_id d)).
    { intros (i & p & Hp & Hid). destruct (rh_mirror _ _ _ _ Hrun i p Hp) as (r & Hpr & _). congruence. }
    destruct (note_prompt_logprobs_frame d (put_state r' [] w)) as (Eb & Eq & Eo & Ep).
    exists (note_prompt_logprobs d (put_state r' [] w)), ref. split; [done|]. rewrite (clear_absent ps _ Habs). split.
    { apply (phase_same w0 ps0 n ps (put_state r' [] w)); [|done..]. by apply put_state_phase. }
    split; [unfold removing; by rewrite Eb|]. split.
    { intros id Hne. destruct (put_state_untouched w r' [] id Hs Hown Hne) as [H1 H2]. split; [by rewrite Eq|]. intros r Hr'. rewrite <-(H2 r Hr').
      unfold output_of. by rewrite Eo. }
    cbv zeta. fold r'. split; [|by rewrite Ep]. rewrite Eq. split; [simpl; by rewrite lookup_insert_eq|]. pose proof (put_state_output w r' []) as Ho.
    unfold output_of in *. by rewrite Eo.
Qed.

(** ** All new requests *)

Lemma new_requests_phase l : ∀ w0 ps0 n ps w to_add, phase f32 w0 ps0 n ps w → removing w → NoDup (map nr_req_id l) →
  (∀ d, d ∈ l → (∃ num, prompt_len d = Ok num) ∧ (is_pooling_model (ib_config (mr_batch w)) = true → is_Some (nr_pooling_params d))) →
  ∃ w', foldM (new_request make_generator) (w, to_add) l = Ok (w', to_add ++ map nr_req_id l) ∧ phase f32 w0 ps0 n (clear_ids (map nr_req_id l) ps) w' ∧
    removing w' ∧ (∀ id, id ∉ map nr_req_id l → untouched w w' id) ∧
    (∀ d num, d ∈ l → prompt_len d = Ok num → ∃ ref, let r := request_from (mr_requests w !! nr_req_id d) ref d num in
       mr_requests w' !! nr_req_id d = Some r ∧ output_of w' r = []) ∧
    mr_logitsprocs w' = mr_logitsprocs w.
Proof.
  induction l as [|d l IH]; intros w0 ps0 n ps w to_add H Hr Hnd Hok.
  - exists w. simpl. rewrite app_nil_r, clear_ids_nil. split_and!; try done. by intros d num ?%elem_of_nil.
  - cbn [map] in Hnd. apply NoDup_cons in Hnd as [Hd Hnd]. destruct (Hok d ltac:(left)) as [[num Hnum] Hpool]. cbn [foldM].
    destruct (new_request_phase w0 ps0 n ps w to_add d num H Hr Hnum Hpool) as (w1 & ref & -> & H1 & Hr1 & Hun1 & Hd1 & Hp1). cbn [mbind result_bind].
    assert (Hcfg : ib_config (mr_batch w1) = ib_config (mr_batch w)) by (destruct (ph_same _ _ _ _ _ _ H1) as [? _], (ph_same _ _ _ _ _ _ H) as [? _]; congruence).
    destruct (IH w0 ps0 n (clear_ids [nr_req_id d] ps) w1 (to_add ++ [nr_req_id d]) H1 Hr1 Hnd) as (w' & -> & H' & Hr' & Hun' & Hd' & Hp').
    { intros d' Hd'. rewrite Hcfg. apply Hok. by right. }
    exists w'. rewrite <-app_assoc. split; [done|]. cbn [map]. rewrite (clear_ids_cons (nr_req_id d)). split; [done|]. split; [done|]. split; [|split].
    + intros id Hid. apply not_elem_of_cons in Hid as [Hne Hid]. eapply untouched_trans; [by apply Hun1|by apply Hun'].
    + intros d' num' [->|Hin]%elem_of_cons Hnum'.
      * assert (num' = num) as -> by congruence. exists ref. cbv zeta in *. destruct (Hun' _ Hd) as [E1 E2]. destruct Hd1 as [E3 E4]. split; [congruence|]. rewrite (E2 _ E3). exact E4.
      * destruct (Hd' d' num' Hin Hnum') as (ref' & E1 & E2). exists ref'. cbv zeta in *.
        assert (Hne : nr_req_id d' ≠ nr_req_id d) by (intros E; apply Hd; rewrite <-E; by apply list_elem_of_fmap_2).
        destruct (Hun1 _ Hne) as [E _]. rewrite E in E1, E2. done.
    + congruence.
Qed.
End New.
