(* ===== verification/WorkerCached.v ===== *)
(** * The states of a worker: running and resumed requests

    The loop over the requests that the scheduler has already sent: a request that
    is in the batch is updated in its place, another one is queued to be added. *)

From S2P Require Import Prelude NumPy BlockTable InputBatch InputBatchSpec InputBatchParts InputBatchRun LogitsUpdates WorkerStates WorkerPlaces WorkerRun WorkerNew.
From Stdlib Require Import QArith.
Local Open Scope nat_scope.

Section Cached.
Context {P : Type} (f32 : Q → Q) (cfg : RunnerConfig) (o : StepOutput).
Implicit Types (w : ModelRunner P) (ps : places) (p : Place) (r : CachedRequestState) (b : InputBatch).

Definition drafts_of (id : string) : list Z := default [] (od_get (st_spec o) id).
(** The drafts that were scheduled follow the tokens. *)
Definition drafted p : Prop := pl_spec p = drafts_of (pl_id p) ∧ pl_fresh p = true.

Definition next_blocks r (id : string) (blk : option (list (list Z))) : list (list Z) :=
  if decide (id ∈ cd_resumed_req_ids (st_cached o)) then default [] blk
  else match blk with Some ids => extend_blocks (cr_block_ids r) ids | None => cr_block_ids r end.
Definition next_output w r (id : string) (n : nat) : list Z :=
  match ib_req_id_to_index (mr_batch w) !! id with
  | None => if use_async_scheduling cfg && (0 <? n) then py_last n (default [] (od_get (cd_all_token_ids (st_cached o)) id)) else take n (output_of w r)
  | Some _ => take n (output_of w r)
  end.
Definition next_request r (id : string) (num_computed : nat) (blk : option (list (list Z))) (ref : output_ref) (prev : nat) : CachedRequestState :=
  mkCachedRequestState (cr_req_id r) (cr_prompt_token_ids r) (cr_sampling_params r) (cr_generator r) (next_blocks r id blk)
    num_computed ref (cr_lora_request r) (cr_prompt_embeds r) (cr_prompt_is_token_ids r) prev (cr_pooling_params r) (cr_num_prompt_tokens r).

(** Entry [k] of the scheduler's lists is for the request [id], whose cached state
    is [r], and what it asks for fits. *)
Record cached_ok w (k : nat) (id : string) r (num_computed : nat) (blk : option (list (list Z))) (n : nat) : Prop := {
  co_id : cd_req_ids (st_cached o) !! k = Some id;
  co_state : mr_requests w !! id = Some r;
  co_computed : cd_num_computed_tokens (st_cached o) !! k = Some num_computed;
  co_blk : cd_new_block_ids (st_cached o) !! k = Some blk;
  co_output : cd_num_output_tokens (st_cached o) !! k = Some n;
  co_settled : use_async_scheduling cfg = true → cr_prev_num_draft_len r = 0;
  co_resumed : id ∈ cd_resumed_req_ids (st_cached o) → ib_req_id_to_index (mr_batch w) !! id = None ∧ is_Some blk;
  co_recover : use_async_scheduling cfg = true → ib_req_id_to_index (mr_batch w) !! id = None → 0 < n →
    is_Some (od_get (cd_all_token_ids (st_cached o)) id);
  co_groups : ∀ ids, blk = Some ids → length ids = length (ib_block_table (mr_batch w));
  co_tokens : request_tokens_ok (ib_config (mr_batch w)) (next_request r id num_computed blk 0 0) (next_output w r id n);
  co_fit : blocks_fit (map tb_config (ib_block_table (mr_batch w))) (next_blocks r id blk);
  co_room : cr_num_prompt_tokens r + length (next_output w r id n) + length (drafts_of id) ≤ max_model_len (ib_config (mr_batch w));
}.

(** ** A request in the batch *)

(** A place and its cached state change together. *)
Lemma place_phase w0 ps0 n ps w i p p' r r' out b : phase f32 w0 ps0 n ps w → removing w → place_at ps i = Some p → mr_requests w !! pl_id p = Some r →
  batch_holds f32 n (<[i := Some p']> ps) b → ib_builder b = ib_builder (mr_batch w) → same_config (mr_batch w) b →
  pl_id p' = pl_id p → cr_req_id r' = cr_req_id r → cr_output_token_ids r' = cr_output_token_ids r → cr_sampling_params r' = cr_sampling_params r →
  cr_prompt_token_ids r' = cr_prompt_token_ids r → settled p' = settled (place_of r' out) →
  phase f32 w0 ps0 n (<[i := Some p']> ps) (with_batch b (put_state r' out w)) ∧ removing (with_batch b (put_state r' out w)).
Proof.
  intros [[Hb Hm Hs] Hh Hso Hmv Ht Hsame] Hrem Hp Hr Hb' Hbu Hc Hid Hrid Href Hpar Hprompt Hset.
  pose proof (so_keys _ _ Hs _ _ Hr) as Hkey. pose proof (place_at_lt _ _ _ Hp) as Hi. pose proof (batch_distinct _ _ _ _ Hb) as Hd.
  assert (Hown : own_list w r') by (right; exists r; by rewrite Hrid, Hkey).
  assert (Hother : ∀ k q, k ≠ i → place_at ps k = Some q → pl_id q ≠ cr_req_id r') by (intros k q Hne Hq E; apply Hne, (Hd _ _ _ _ Hq Hp); congruence).
  split; [|by unfold removing; simpl; rewrite Hbu]. split; simpl; rewrite ?Hbu; try done; [| | |by eapply same_config_trans].
  - split; simpl; [done| |by apply put_state_ok]. intros k q. rewrite place_at_insert by done. destruct (decide (k = i)) as [->|Hne].
    + intros [= <-]. exists r'. rewrite Hid, <-Hkey, <-Hrid. split; [simpl; by rewrite lookup_insert_eq|]. rewrite Hset. do 2 f_equal.
      symmetry. apply (put_state_output w).
    + intros Hq. destruct (Hm k q Hq) as (r0 & Hr0 & Hset0). destruct (put_state_untouched w r' out (pl_id q) Hs Hown (Hother k q Hne Hq)) as [E1 E2].
      exists r0. split; [simpl in *; congruence|]. rewrite Hset0. do 2 f_equal. symmetry. by apply (E2 r0).
  - destruct Hh as [H1 H2]. split; [done|]. intros k. rewrite H2, place_at_insert by done. destruct (decide (k = i)) as [->|]; [|done].
    rewrite Hp. split; by intros [_ ?].
  - intros Hpool T ne d0 Hd0. destruct Hc as [Hc _]. rewrite Hc in Hpool. destruct (Ht Hpool T ne d0 Hd0) as (d & Htell & Hf). exists d. split; [by simpl; rewrite Hbu|].
    intros k. rewrite (Hf k), place_at_insert by done. destruct (decide (k = i)) as [->|Hne].
    + rewrite Hp. simpl. unfold entry_of. rewrite Hid, Hr. simpl. rewrite <-Hkey, <-Hrid, lookup_insert_eq. simpl. by rewrite Hpar, Hprompt, Href.
    + destruct (place_at ps k) as [q|] eqn:Eq; [|done]. simpl. unfold entry_of. simpl. rewrite lookup_insert_ne; [done|]. intros E. by apply (Hother k q).
Qed.

Lemma assume_nothing w r index : (use_async_scheduling cfg = true → cr_prev_num_draft_len r = 0) → assume_accepted cfg w r index = Ok (w, r, []).
Proof.
  intros H. unfold assume_accepted. destruct (use_async_scheduling cfg); [|by rewrite andb_false_r]. rewrite H by done. by rewrite bool_decide_false by lia.
Qed.

(** Cutting the output list: of the store always, of the batch if it is there. *)
Lemma update_output_absent w r nts c n : is_last_rank cfg = true → cr_output_token_ids r ∈ dom (mr_outputs w) →
  update_output cfg w r None nts c n = Ok (put_output (cr_output_token_ids r) (take n (output_of w r)) w).
Proof.
  intros Hl Hr. unfold update_output. rewrite Hl. destruct (Nat.ltb_spec n (length (output_of w r))); [done|].
  rewrite take_ge by done. by rewrite put_output_same.
Qed.

Lemma update_output_present n ps w r i p nts c m : is_last_rank cfg = true → runner_holds f32 n ps w → place_at ps i = Some p →
  cr_output_token_ids r ∈ dom (mr_outputs w) → length (pl_tokens p) = cr_num_prompt_tokens r + length (output_of w r) → pl_prompt p = cr_num_prompt_tokens r →
  ∃ tok p', update_output cfg w r (Some i) nts c m =
    Ok (with_batch (set_tokens tok (mr_batch w)) (put_output (cr_output_token_ids r) (take m (output_of w r)) w)) ∧
    batch_holds f32 n (<[i := Some p']> ps) (set_tokens tok (mr_batch w)) ∧
    (p' = p ∨ p' = cut_place (cr_num_prompt_tokens r + m) p) ∧ pl_tokens p' = take (cr_num_prompt_tokens r + m) (pl_tokens p) ∧
    (length (pl_is_tokens p) = length (pl_tokens p) → pl_is_tokens p' = take (cr_num_prompt_tokens r + m) (pl_is_tokens p)).
Proof.
  intros Hl [Hb Hm Hs] Hp Hr Hlen Hprompt. unfold update_output. rewrite Hl. destruct (Nat.ltb_spec m (length (output_of w r))) as [Hlt|Hge].
  - pose proof (hold_at _ _ _ _ (bh_tokens _ _ _ _ Hb) i p Hp) as Hat. cbn [mr_batch put_output with_outputs]. cbn [with_requests].
    rewrite (np_get_Some _ _ _ (at_prompt _ _ _ _ Hat)). cbn [mbind result_bind]. rewrite Hprompt.
    destruct (set_no_spec_holds f32 n ps (mr_batch w) i p (cr_num_prompt_tokens r + m) Hb Hp ltac:(lia)) as (tok & -> & Hb'). cbn [mbind result_bind].
    exists tok, (cut_place (cr_num_prompt_tokens r + m) p). split; [done|]. split; [done|]. split; [by right|done].
  - exists (ib_tokens (mr_batch w)), p. assert (Hsame : set_tokens (ib_tokens (mr_batch w)) (mr_batch w) = mr_batch w) by by destruct (mr_batch w).
    rewrite Hsame. rewrite take_ge by done. rewrite put_output_same by done. rewrite with_batch_same. split; [done|].
    rewrite list_insert_id by by apply place_at_Some. split; [done|]. split; [by left|]. split; [by rewrite take_ge by lia|]. intros Hfl. by rewrite take_ge by lia.
Qed.

(** What a round leaves of the request. *)
Definition cached_done w w' (id : string) r (num_computed : nat) (blk : option (list (list Z))) (n : nat) : Prop :=
  ∃ ref prev, mr_requests w' !! id = Some (next_request r id num_computed blk ref prev) ∧
    output_of w' (next_request r id num_computed blk ref prev) = next_output w r id n ∧
    (is_Some (ib_req_id_to_index (mr_batch w) !! id) → prev = length (drafts_of id)).

(** The rest of a round for a request in the batch. *)
Lemma update_in_batch_holds n ps w i p r nts blk : is_last_rank cfg = true → batch_holds f32 n ps (mr_batch w) → place_at ps i = Some p →
  pl_id p = cr_req_id r → (∀ ids, blk = Some ids → length ids = length (ib_block_table (mr_batch w))) →
  blocks_fit (map tb_config (ib_block_table (mr_batch w))) (match blk with Some ids => extend_blocks (pl_blocks p) ids | None => pl_blocks p end) →
  length (pl_tokens p) + length (drafts_of (cr_req_id r)) ≤ max_model_len (ib_config (mr_batch w)) →
  ∃ b, update_in_batch cfg o w r i nts blk = Ok (put_request (set_prev_drafts (length (drafts_of (cr_req_id r))) r) (with_batch b w)) ∧
    batch_holds f32 n (<[i := Some (with_spec (drafts_of (cr_req_id r))
      (with_blocks (match blk with Some ids => extend_blocks (pl_blocks p) ids | None => pl_blocks p end) (with_computed (cr_num_computed_tokens r) p)))]> ps) b ∧
    ib_builder b = ib_builder (mr_batch w) ∧ same_config (mr_batch w) b ∧ ib_req_id_to_index b = ib_req_id_to_index (mr_batch w).
Proof.
  intros Hl Hb Hp Hid Hgr Hfit Hroom. pose proof (place_at_lt _ _ _ Hp) as Hi. unfold update_in_batch.
  destruct (set_batch_computed_holds f32 n ps (mr_batch w) i p (cr_num_computed_tokens r) Hb Hp) as (tok & -> & Hb1). cbn [mbind result_bind].
  set (p1 := with_computed (cr_num_computed_tokens r) p) in *. set (b1 := set_tokens tok (mr_batch w)) in *. set (ps1 := <[i:=Some p1]> ps) in *.
  assert (Hp1 : place_at ps1 i = Some p1) by (unfold ps1; by rewrite place_at_insert, decide_True).
  set (ids' := match blk with Some ids => extend_blocks (pl_blocks p) ids | None => pl_blocks p end) in *.
  assert (Hblk : ∃ b2, match blk with Some ids => ts ← mg_append_row ids i (ib_block_table b1); Ok (set_block_table ts b1) | None => Ok b1 end = Ok b2 ∧
    batch_holds f32 n (<[i := Some (with_blocks ids' p1)]> ps) b2 ∧ ib_builder b2 = ib_builder (mr_batch w) ∧ same_config (mr_batch w) b2 ∧
    ib_req_id_to_index b2 = ib_req_id_to_index (mr_batch w)).
  { unfold ids' in *. destruct blk as [ids|].
    - destruct (append_blocks_holds f32 n ps1 b1 i p1 ids Hb1 Hp1 (Hgr ids eq_refl) Hfit) as (ts & -> & Hts & Hb2). cbn [mbind result_bind].
      exists (set_block_table ts b1). split; [done|]. split; [|done]. unfold ps1 in Hb2. by rewrite list_insert_insert_eq in Hb2.
    - exists b1. split; [done|]. replace (with_blocks (pl_blocks p) p1) with p1 by (by destruct p). done. }
  destruct Hblk as (b2 & -> & Hb2 & Hu2 & Hc2 & Hx2). cbn [mbind result_bind]. rewrite Hl. cbn [mbind result_bind].
  destruct (update_spec_holds f32 n _ b2 r i (with_blocks ids' p1) (st_spec o) Hb2) as (tok3 & Hrun & Hb3).
  { by rewrite place_at_insert, decide_True. }
  { done. }
  { destruct Hc2 as [-> _]. exact Hroom. }
  rewrite Hrun. cbn [mbind result_bind]. exists (set_tokens tok3 b2). split; [done|]. rewrite list_insert_insert_eq in Hb3. done.
Qed.

Lemma prompt_len_ok c r out : request_tokens_ok c r out → length (prompt_tokens r) = cr_num_prompt_tokens r ∧ length (prompt_flags r) = cr_num_prompt_tokens r.
Proof. intros H. split; [by eapply prompt_tokens_length|by eapply prompt_flags_length]. Qed.

(** A place as it should be from now on. *)
Lemma settled_next r id c blk n out p p' : settled p = settled (place_of r out) → length (prompt_tokens r) = cr_num_prompt_tokens r →
  length (prompt_flags r) = cr_num_prompt_tokens r → id ∉ cd_resumed_req_ids (st_cached o) →
  pl_tokens p' = take (cr_num_prompt_tokens r + n) (pl_tokens p) → pl_is_tokens p' = take (cr_num_prompt_tokens r + n) (pl_is_tokens p) →
  (p' = p ∨ p' = cut_place (cr_num_prompt_tokens r + n) p) → ∀ spec ref prev, ref = cr_output_token_ids r →
  settled (with_spec spec (with_blocks (match blk with Some ids => extend_blocks (pl_blocks p') ids | None => pl_blocks p' end) (with_computed c p')))
    = settled (place_of (next_request r id c blk ref prev) (take n out)).
Proof.
  intros Hset Hl1 Hl2 Hres Ht Hf Hcase spec ref prev ->. unfold settled in *. simpl in *. injection Hset as E1 E2 E3 E4 E5 E6 E7 E8 E9 E10 E11 E12.
  rewrite Ht, Hf, E8, E9. assert (Hb : pl_blocks p' = cr_block_ids r ∧ pl_id p' = cr_req_id r ∧ pl_ref p' = cr_output_token_ids r ∧ pl_params p' = cr_sampling_params r ∧
    pl_pooling p' = cr_pooling_params r ∧ pl_generator p' = cr_generator r ∧ pl_lora p' = cr_lora_request r ∧ pl_embeds p' = cr_prompt_embeds r ∧ pl_prompt p' = cr_num_prompt_tokens r)
    by (destruct Hcase as [->| ->]; done).
  destruct Hb as (-> & -> & -> & -> & -> & -> & -> & -> & ->). unfold next_blocks. rewrite decide_False by done.
  assert (Htk : ∀ {A} (a b : list A) k, length a = k → take (k + n) (a ++ b) = a ++ take n b).
  { intros A a b k <-. by rewrite take_app_add. }
  f_equal; try done.
  - rewrite Htk by done. by rewrite firstn_map.
  - rewrite Htk by done. by rewrite take_replicate, length_take.
Qed.

Lemma cached_in_batch w0 ps0 n ps w to_add deferred k id r c blk m i : is_last_rank cfg = true → phase f32 w0 ps0 n ps w → removing w →
  cached_ok w k id r c blk m → ib_req_id_to_index (mr_batch w) !! id = Some i →
  ∃ w' p', cached_request cfg o (w, to_add, deferred) k = Ok (w', to_add, deferred) ∧ place_at ps i ≠ None ∧
    phase f32 w0 ps0 n (<[i := Some p']> ps) w' ∧ removing w' ∧ pl_id p' = id ∧ drafted p' ∧ (∀ id', id' ≠ id → untouched w w' id') ∧
    cached_done w w' id r c blk m ∧ ib_req_id_to_index (mr_batch w') = ib_req_id_to_index (mr_batch w) ∧ mr_logitsprocs w' = mr_logitsprocs w.
Proof.
  intros Hl H Hrem Hok Hix. pose proof (ph_runner _ _ _ _ _ _ H) as Hrun. destruct (index_places _ _ _ _ _ _ (rh_batch _ _ _ _ Hrun) Hix) as (p & Hp & Hpid).
  destruct Hok. unfold cached_request. rewrite co_id0, co_computed0, co_blk0, co_output0. cbn [mbind result_bind unwrap]. rewrite co_state0. cbn [mbind result_bind unwrap].
  rewrite Hix. rewrite (assume_nothing w r (Some i) co_settled0). cbn [mbind result_bind]. rewrite Hl. cbn [orb mbind result_bind].
  assert (Hnres : id ∉ cd_resumed_req_ids (st_cached o)) by (intros Hres; destruct (co_resumed0 Hres); congruence).
  pose proof (so_keys _ _ (rh_states _ _ _ _ Hrun) _ _ co_state0) as Hkey.
  destruct (rh_mirror _ _ _ _ Hrun i p Hp) as (r0 & Hr0 & Hset). assert (r0 = r) as -> by congruence.
  destruct (prompt_len_ok _ _ _ co_tokens0) as [Hl1 Hl2]. change (length (prompt_tokens r) = cr_num_prompt_tokens r) in Hl1. change (length (prompt_flags r) = cr_num_prompt_tokens r) in Hl2.
  assert (Htl : length (pl_tokens p) = cr_num_prompt_tokens r + length (output_of w r)).
  { apply (f_equal pl_tokens) in Hset. simpl in Hset. by rewrite Hset, length_app, Hl1, length_map. }
  assert (Hfl : length (pl_is_tokens p) = length (pl_tokens p)).
  { apply (f_equal pl_is_tokens) in Hset. simpl in Hset. by rewrite Hset, length_app, Hl2, length_replicate. }
  assert (Hpp : pl_prompt p = cr_num_prompt_tokens r) by (by apply (f_equal pl_prompt) in Hset).
  assert (Hpb : pl_blocks p = cr_block_ids r) by (by apply (f_equal pl_blocks) in Hset).
  destruct (update_output_present n ps w (set_computed c r) i p [] c m Hl Hrun Hp) as (tok & p1 & -> & Hb1 & Hcase & Ht1 & Hf1); [by apply (so_refs _ _ (rh_states _ _ _ _ Hrun) _ _ co_state0)|done|done|].
  specialize (Hf1 Hfl). cbn [mbind result_bind]. unfold update_blocks. rewrite bool_decide_false by done. cbn [mbind result_bind].
  set (w1 := with_batch (set_tokens tok (mr_batch w)) (put_output (cr_output_token_ids (set_computed c r)) (take m (output_of w (set_computed c r))) w)).
  set (r1 := match blk with Some ids => set_blocks (extend_blocks (cr_block_ids (set_computed c r)) ids) (set_computed c r) | None => set_computed c r end).
  assert (Hr1 : r1 = next_request r id c blk (cr_output_token_ids r) (cr_prev_num_draft_len r)).
  { unfold r1, next_request, next_blocks. rewrite decide_False by done. by destruct blk, r. }
  assert (Hp1b : pl_blocks p1 = cr_block_ids r) by (destruct Hcase as [->| ->]; done).
  assert (Hp1i : pl_id p1 = id) by (destruct Hcase as [->| ->]; done).
  pose proof (place_at_lt _ _ _ Hp) as Hi.
  assert (Hout : next_output w r id m = take m (output_of w r)) by (unfold next_output; by rewrite Hix).
  destruct (update_in_batch_holds n (<[i := Some p1]> ps) w1 i p1 r1 [] blk Hl Hb1) as (b & -> & Hb2 & Hu & Hc & Hx).
  { by rewrite place_at_insert, decide_True. }
  { rewrite Hr1. simpl. congruence. }
  { exact co_groups0. }
  { rewrite Hp1b. unfold next_blocks in co_fit0. rewrite decide_False in co_fit0 by done. exact co_fit0. }
  { rewrite Ht1, length_take, Htl. rewrite Hr1. simpl. rewrite Hkey. rewrite Hout, length_take in co_room0. lia. }
  rewrite list_insert_insert_eq in Hb2. cbn [mbind result_bind]. rewrite app_nil_r.
  set (r2 := next_request r id c blk (cr_output_token_ids r) (length (drafts_of id))).
  assert (Hr2 : set_prev_drafts (length (drafts_of (cr_req_id r1))) r1 = r2) by (rewrite Hr1; unfold r2; simpl; by rewrite Hkey).
  rewrite Hr2. assert (Hcomp : cr_num_computed_tokens r1 = c) by by rewrite Hr1. assert (Hri : cr_req_id r1 = id) by (rewrite Hr1; simpl; congruence). rewrite Hcomp, Hri in Hb2.
  set (p' := with_spec (drafts_of id) (with_blocks (match blk with Some ids => extend_blocks (pl_blocks p1) ids | None => pl_blocks p1 end) (with_computed c p1))) in *.
  exists (with_batch b (put_state r2 (take m (output_of w r)) w)), p'.
  assert (Hset' : settled p' = settled (place_of r2 (take m (output_of w r)))).
  { apply (settled_next r id c blk m (output_of w r) p p1); done. }
  assert (Hid' : pl_id p' = pl_id p) by (unfold p'; simpl; congruence).
  destruct (place_phase w0 ps0 n ps w i p p' r r2 (take m (output_of w r)) b H Hrem Hp ltac:(congruence) Hb2 Hu Hc Hid' eq_refl eq_refl eq_refl eq_refl Hset') as [Hph Hrem'].
  split; [done|]. split; [by rewrite Hp|]. split; [done|]. split; [done|]. split; [congruence|]. split; [split; simpl; [by rewrite Hp1i|done]|]. split.
  { intros id' Hne. apply (put_state_untouched w r2); [apply (rh_states _ _ _ _ Hrun)|right; exists r; simpl; by rewrite Hkey|simpl; congruence]. }
  split; [|done]. exists (cr_output_token_ids r), (length (drafts_of id)). split; [simpl; rewrite <-Hkey at 1; by rewrite lookup_insert_eq|]. split; [|done].
  rewrite Hout. apply (put_state_output w r2).
Qed.
(** ** A request that is not in the batch *)

Lemma phase_put_twice w r out r' out' : cr_req_id r' = cr_req_id r → cr_output_token_ids r' = cr_output_token_ids r →
  put_state r' out' (put_state r out w) = put_state r' out' w.
Proof. intros E1 E2. unfold put_state, put_request, put_output, with_requests, with_outputs. simpl. by rewrite E1, E2, !insert_insert_eq. Qed.

Lemma queue_holds w r0 r out m : mr_requests w !! cr_req_id r = Some r0 → states_ok (mr_requests w) (mr_outputs w) → cr_output_token_ids r = cr_output_token_ids r0 →
  (use_async_scheduling cfg = true → 0 < m → is_Some (od_get (cd_all_token_ids (st_cached o)) (cr_req_id r))) →
  ∃ w' ref out', queue_request cfg o (put_output (cr_output_token_ids r) out w) r m = Ok w' ∧
    out' = (if use_async_scheduling cfg && (0 <? m) then py_last m (default [] (od_get (cd_all_token_ids (st_cached o)) (cr_req_id r))) else out) ∧
    (∀ id', id' ≠ cr_req_id r → untouched w w' id') ∧ mr_requests w' !! cr_req_id r = Some (set_output_ref ref r) ∧ output_of w' (set_output_ref ref r) = out' ∧
    states_ok (mr_requests w') (mr_outputs w') ∧ mr_batch w' = mr_batch w ∧ mr_logitsprocs w' = mr_logitsprocs w.
Proof.
  intros Hr Hs Href Hrec. unfold queue_request. assert (Hown : own_list w r) by (right; by exists r0).
  destruct (use_async_scheduling cfg && (0 <? m)) eqn:E.
  - apply andb_true_iff in E as [Ea Em]. apply Nat.ltb_lt in Em. destruct (Hrec Ea Em) as [ids Hids]. rewrite Hids. cbn [mbind result_bind unwrap default].
    set (w1 := put_output (cr_output_token_ids r) out w). set (ref := fresh (dom (mr_outputs w1))).
    exists (put_state (set_output_ref ref r) (py_last m ids) w1), ref, (py_last m ids). split; [done|]. split; [done|].
    assert (Hin : cr_output_token_ids r ∈ dom (mr_outputs w)) by (rewrite Href; by eapply so_refs).
    assert (Hfresh : ref ∉ dom (mr_outputs w1)) by apply is_fresh.
    assert (Hfr : ref ∉ dom (mr_outputs w)) by (intros Hin'; apply Hfresh; simpl; rewrite dom_insert; set_solver).
    assert (Hown2 : own_list w (set_output_ref ref r)) by by left.
    split; [|split; [simpl; by rewrite lookup_insert_eq|split; [apply put_state_output|split; [|done]]]].
    + intros id' Hne. split; [simpl; by rewrite lookup_insert_ne|]. intros r' Hr'. unfold output_of. simpl. rewrite lookup_insert_ne.
      * rewrite lookup_insert_ne; [done|]. intros E. by apply (own_list_distinct w r id' r' Hs Hown Hne Hr').
      * intros E. apply (own_list_distinct w _ id' r' Hs Hown2 Hne Hr'). simpl. congruence.
    + simpl. pose proof (put_state_ok w (set_output_ref ref r) (py_last m ids) Hs Hown2) as [S1 S2 S3]. simpl in *. split; [done| |done].
      intros id r' Hr'. rewrite !dom_insert. specialize (S2 id r' Hr'). rewrite dom_insert in S2. set_solver.
  - exists (put_state r out w), (cr_output_token_ids r), out. split; [done|]. split; [done|].
    assert (Hself : set_output_ref (cr_output_token_ids r) r = r) by by destruct r. rewrite Hself.
    split; [intros id' Hne; by apply put_state_untouched|]. split; [simpl; by rewrite lookup_insert_eq|]. split; [apply put_state_output|]. split; [by apply put_state_ok|done].
Qed.

Lemma cached_absent w0 ps0 n ps w to_add deferred k id r c blk m : is_last_rank cfg = true → phase f32 w0 ps0 n ps w → removing w →
  cached_ok w k id r c blk m → ib_req_id_to_index (mr_batch w) !! id = None →
  ∃ w', cached_request cfg o (w, to_add, deferred) k = Ok (w', to_add ++ [id], deferred) ∧ phase f32 w0 ps0 n ps w' ∧ removing w' ∧
    (∀ id', id' ≠ id → untouched w w' id') ∧ cached_done w w' id r c blk m ∧ ib_req_id_to_index (mr_batch w') = ib_req_id_to_index (mr_batch w) ∧
    mr_logitsprocs w' = mr_logitsprocs w.
Proof.
  intros Hl H Hrem Hok Hix. pose proof (ph_runner _ _ _ _ _ _ H) as Hrun. pose proof (rh_states _ _ _ _ Hrun) as Hs.
  destruct Hok. unfold cached_request. rewrite co_id0, co_computed0, co_blk0, co_output0. cbn [mbind result_bind unwrap]. rewrite co_state0. cbn [mbind result_bind unwrap].
  rewrite Hix. rewrite (assume_nothing w r None co_settled0). cbn [mbind result_bind]. rewrite Hl. cbn [orb mbind result_bind].
  pose proof (so_keys _ _ Hs _ _ co_state0) as Hkey. rewrite update_output_absent by (done || by apply (so_refs _ _ Hs _ _ co_state0)). cbn [mbind result_bind].
  change (output_of w (set_computed c r)) with (output_of w r). change (cr_output_token_ids (set_computed c r)) with (cr_output_token_ids r).
  set (r1 := next_request r id c blk (cr_output_token_ids r) (cr_prev_num_draft_len r)).
  assert (Hblk : update_blocks (set_computed c r) None (bool_decide (id ∈ cd_resumed_req_ids (st_cached o))) blk = Ok r1).
  { unfold update_blocks, r1, next_request, next_blocks. destruct (decide (id ∈ cd_resumed_req_ids (st_cached o))) as [Hres|Hres].
    - rewrite bool_decide_true by done. destruct (co_resumed0 Hres) as [_ [ids ->]]. cbn [mbind result_bind py_assert unwrap default]. done.
    - rewrite bool_decide_false by done. by destruct blk, r. }
  rewrite Hblk. cbn [mbind result_bind]. change (cr_output_token_ids r) with (cr_output_token_ids r1).
  assert (Hrid : cr_req_id r1 = id) by exact Hkey.
  destruct (queue_holds w r r1 (take m (output_of w r)) m) as (w' & ref & out' & Hq & Hout & Hun & Hreq & Houtr & Hst & Hb & Hp); [by rewrite Hrid|done|done|by rewrite Hrid; intros ? ?; apply co_recover0|].
  rewrite Hq. cbn [mbind result_bind]. rewrite app_nil_r. rewrite Hrid in *. exists w'. split; [done|].
  assert (Hph : phase f32 w0 ps0 n ps w').
  { apply (phase_frame f32 w0 ps0 n ps w); [done|done|done|]. intros i p r' Hpl Hr'. assert (Hne : pl_id p ≠ id).
    { intros E. apply (index_none f32 n ps (mr_batch w) id (rh_batch _ _ _ _ Hrun)); [done|]. by exists i, p. }
    destruct (Hun _ Hne) as [E1 E2]. split; [by rewrite E1|by apply E2]. }
  split; [done|]. split; [unfold removing; by rewrite Hb|]. split; [done|]. split; [|by rewrite Hb].
  exists ref, (cr_prev_num_draft_len r). split; [exact Hreq|]. split; [|rewrite Hix; by intros [? ?]]. unfold next_output. rewrite Hix.
  change (output_of w' (set_output_ref ref r1) = if use_async_scheduling cfg && (0 <? m) then py_last m (default [] (od_get (cd_all_token_ids (st_cached o)) id)) else take m (output_of w r)).
  by rewrite Houtr.
Qed.
End Cached.
