(* ===== verification/WorkerLoops.v ===== *)
(** * The states of a worker: the two loops

    All running and resumed requests in turn, and then those that the batch does
    not hold yet are added to it. *)

From S2P Require Import Prelude NumPy BlockTable InputBatch InputBatchSpec InputBatchParts InputBatchRun LogitsUpdates WorkerStates WorkerPlaces WorkerRun WorkerNew WorkerCached.
From Stdlib Require Import QArith.
Local Open Scope nat_scope.

Section Loops.
Context {P : Type} (f32 : Q → Q) (cfg : RunnerConfig) (o : StepOutput).
Implicit Types (w : ModelRunner P) (ps : places) (p : Place) (r : CachedRequestState) (b : InputBatch).

(** ** The running and resumed requests *)

Definition ids_of (l : list nat) : list string := omap (λ k, cd_req_ids (st_cached o) !! k) l.
Definition missing w (l : list string) : list string := filter (λ id, ib_req_id_to_index (mr_batch w) !! id = None) l.

Lemma next_output_frame w w1 r id m : untouched w w1 id → mr_requests w !! id = Some r →
  ib_req_id_to_index (mr_batch w1) = ib_req_id_to_index (mr_batch w) → next_output cfg o w1 r id m = next_output cfg o w r id m.
Proof. intros [_ H] Hr E. unfold next_output. by rewrite E, (H r Hr). Qed.

Lemma cached_ok_frame w w1 k id r c blk m : untouched w w1 id → ib_req_id_to_index (mr_batch w1) = ib_req_id_to_index (mr_batch w) →
  same_config (mr_batch w) (mr_batch w1) → cached_ok cfg o w k id r c blk m → cached_ok cfg o w1 k id r c blk m.
Proof.
  intros Hu Hx [Hc1 Hc2] []. pose proof (next_output_frame w w1 r id m Hu co_state Hx) as Hn. split; rewrite ?Hx, ?Hc1, ?Hc2, ?Hn; try done.
  - destruct Hu as [Hu _]. congruence.
  - intros ids Hids. rewrite (co_groups ids Hids). rewrite <-(length_map tb_config), <-Hc2. by rewrite length_map.
Qed.

Lemma cached_done_later w w1 w' id r c blk m : cached_done cfg o w w1 id r c blk m → untouched w1 w' id → cached_done cfg o w w' id r c blk m.
Proof. intros (ref & prev & H1 & H2 & H3) [E1 E2]. exists ref, prev. split; [congruence|]. split; [|done]. by rewrite (E2 _ H1). Qed.

Lemma cached_done_earlier w w1 w' id r c blk m : cached_done cfg o w1 w' id r c blk m → untouched w w1 id → mr_requests w !! id = Some r →
  ib_req_id_to_index (mr_batch w1) = ib_req_id_to_index (mr_batch w) → cached_done cfg o w w' id r c blk m.
Proof.
  intros (ref & prev & H1 & H2 & H3) Hu Hr Hx. exists ref, prev. split; [done|]. split; [by rewrite H2; apply next_output_frame|]. by rewrite Hx in H3.
Qed.

Lemma same_config_via b0 b b1 : same_config b0 b → same_config b0 b1 → same_config b b1.
Proof. intros [H1 H2] [H3 H4]. split; congruence. Qed.

(** One round, whether the request is in the batch or not. *)
Lemma cached_step w0 ps0 n ps w to_add deferred k id r c blk m : is_last_rank cfg = true → phase f32 w0 ps0 n ps w → removing w →
  cached_ok cfg o w k id r c blk m →
  ∃ w' ps', cached_request cfg o (w, to_add, deferred) k = Ok (w', to_add ++ missing w [id], deferred) ∧ phase f32 w0 ps0 n ps' w' ∧ removing w' ∧
    (∀ id', id' ≠ id → untouched w w' id') ∧ cached_done cfg o w w' id r c blk m ∧ ib_req_id_to_index (mr_batch w') = ib_req_id_to_index (mr_batch w) ∧
    mr_logitsprocs w' = mr_logitsprocs w ∧ (∀ i, pl_id <$> place_at ps' i = pl_id <$> place_at ps i) ∧
    (∀ i p', place_at ps' i = Some p' → if decide (pl_id p' = id) then drafted o p' else place_at ps i = Some p').
Proof.
  intros Hl H Hrem Hok. pose proof (rh_batch _ _ _ _ (ph_runner _ _ _ _ _ _ H)) as Hb. unfold missing. destruct (ib_req_id_to_index (mr_batch w) !! id) as [i|] eqn:E.
  - destruct (cached_in_batch f32 cfg o w0 ps0 n ps w to_add deferred k id r c blk m i Hl H Hrem Hok E) as (w' & p' & Hrun & Hne & Hph & Hrem' & Hid & Hdr & Hun & Hdone & Hx & Hp).
    destruct (index_places f32 n ps (mr_batch w) id i Hb E) as (p & Hpl & Hpid). pose proof (place_at_lt _ _ _ Hpl) as Hi.
    exists w', (<[i := Some p']> ps). rewrite filter_cons_False, filter_nil, app_nil_r by congruence. split_and!; try done.
    + intros k'. rewrite place_at_insert by done. case_decide; [subst; rewrite Hpl; simpl; congruence|done].
    + intros k' q. rewrite place_at_insert by done. destruct (decide (k' = i)) as [->|Hk]; [intros [= <-]; by rewrite decide_True|]. intros Hq.
      rewrite decide_False; [done|]. intros Hqid. apply Hk. apply (batch_distinct _ _ _ _ Hb _ _ q p); [done|done|congruence].
  - destruct (cached_absent f32 cfg o w0 ps0 n ps w to_add deferred k id r c blk m Hl H Hrem Hok E) as (w' & Hrun & Hph & Hrem' & Hun & Hdone & Hx & Hp).
    exists w', ps. rewrite filter_cons_True, filter_nil by done. split_and!; try done. intros i p' Hp'. rewrite decide_False; [done|]. intros Hid.
    apply (index_none f32 n ps (mr_batch w) id Hb); [done|]. by exists i, p'.
Qed.

Lemma cached_all l : ∀ w0 ps0 n ps w to_add deferred, is_last_rank cfg = true → phase f32 w0 ps0 n ps w → removing w → NoDup (ids_of l) →
  (∀ k, k ∈ l → ∃ id r c blk m, cached_ok cfg o w k id r c blk m) →
  ∃ w' ps', foldM (cached_request cfg o) (w, to_add, deferred) l = Ok (w', to_add ++ missing w (ids_of l), deferred) ∧
    phase f32 w0 ps0 n ps' w' ∧ removing w' ∧ (∀ id, id ∉ ids_of l → untouched w w' id) ∧
    (∀ k id r c blk m, k ∈ l → cached_ok cfg o w k id r c blk m → cached_done cfg o w w' id r c blk m) ∧
    ib_req_id_to_index (mr_batch w') = ib_req_id_to_index (mr_batch w) ∧ mr_logitsprocs w' = mr_logitsprocs w ∧
    (∀ i, pl_id <$> place_at ps' i = pl_id <$> place_at ps i) ∧
    (∀ i p', place_at ps' i = Some p' → if decide (pl_id p' ∈ ids_of l) then drafted o p' else place_at ps i = Some p').
Proof.
  induction l as [|k l IH]; intros w0 ps0 n ps w to_add deferred Hl H Hrem Hnd Hok.
  - exists w, ps. unfold missing. cbn [ids_of omap list_omap]. rewrite filter_nil, app_nil_r. split_and!; try done. by intros k ? ? ? ? ? ?%elem_of_nil.
  - destruct (Hok k ltac:(left)) as (id & r & c & blk & m & Hk). pose proof (co_id _ _ _ _ _ _ _ _ _ Hk) as Hid.
    assert (Hids : ids_of (k :: l) = id :: ids_of l) by (unfold ids_of; simpl; by rewrite Hid). rewrite Hids in *. apply NoDup_cons in Hnd as [Hidl Hnd].
    destruct (cached_step w0 ps0 n ps w to_add deferred k id r c blk m Hl H Hrem Hk) as (w1 & ps1 & Hrun & H1 & Hrem1 & Hun1 & Hd1 & Hx1 & Hp1 & Hsame1 & Hpl1).
    cbn [foldM]. rewrite Hrun. cbn [mbind result_bind].
    assert (Hlid : ∀ k' id', k' ∈ l → cd_req_ids (st_cached o) !! k' = Some id' → id' ∈ ids_of l) by (intros k' id' Hk' E; apply list_elem_of_omap; by exists k').
    assert (Hother : ∀ k' id' r' c' blk' m', k' ∈ l → cached_ok cfg o w k' id' r' c' blk' m' → cached_ok cfg o w1 k' id' r' c' blk' m' ∧ id' ≠ id ∧ id' ∈ ids_of l).
    { intros k' id' r' c' blk' m' Hk' Hok'. pose proof (Hlid k' id' Hk' (co_id _ _ _ _ _ _ _ _ _ Hok')) as Hin. assert (Hne : id' ≠ id) by congruence.
      split; [|done]. eapply cached_ok_frame; [by apply Hun1|done|eapply same_config_via; [apply (ph_same _ _ _ _ _ _ H)|apply (ph_same _ _ _ _ _ _ H1)]|done]. }
    destruct (IH w0 ps0 n ps1 w1 (to_add ++ missing w [id]) deferred Hl H1 Hrem1 Hnd) as (w' & ps' & -> & H' & Hrem' & Hun' & Hd' & Hx' & Hp' & Hsame' & Hpl').
    { intros k' Hk'. destruct (Hok k' ltac:(by right)) as (id' & r' & c' & blk' & m' & Hok'). exists id', r', c', blk', m'. by apply Hother. }
    exists w', ps'. split.
    { do 3 f_equal. rewrite <-app_assoc. f_equal. unfold missing. rewrite Hx1. by rewrite <-filter_app. }
    split; [done|]. split; [done|]. split_and!.
    + intros id' Hid'. apply not_elem_of_cons in Hid' as [Hne Hin]. eapply untouched_trans; [by apply Hun1|by apply Hun'].
    + intros k' id' r' c' blk' m' Hk' Hok'. apply elem_of_cons in Hk' as [->|Hk'].
      * assert (id' = id ∧ r' = r ∧ c' = c ∧ blk' = blk ∧ m' = m) as (-> & -> & -> & -> & ->) by (destruct Hk, Hok'; split_and!; congruence).
        eapply cached_done_later; [done|by apply Hun'].
      * destruct (Hother _ _ _ _ _ _ Hk' Hok') as (Hok1 & Hne & Hin). eapply cached_done_earlier; [by eapply Hd'|by apply Hun1|by apply (co_state _ _ _ _ _ _ _ _ _ Hok')|done].
    + congruence.
    + congruence.
    + intros i. by rewrite Hsame', Hsame1.
    + intros i p' Hp'i. specialize (Hpl' i p' Hp'i). destruct (decide (pl_id p' ∈ ids_of l)) as [Hin|Hin].
      * by rewrite decide_True by by right.
      * specialize (Hpl1 i p' Hpl'). destruct (decide (pl_id p' = id)) as [->|Hne]; [by rewrite decide_True by left|].
        rewrite decide_False; [done|]. by intros [?|?]%elem_of_cons.
Qed.

(** ** Adding to the batch *)

Lemma live_insert ps i p : i < length ps → place_at ps i = None → live (<[i := Some p]> ps) ≡ₚ i :: live ps.
Proof.
  intros Hi Hn. apply NoDup_Permutation; [apply NoDup_live| |].
  - apply NoDup_cons. split; [|apply NoDup_live]. intros [q Hq]%elem_of_live. congruence.
  - intros k. rewrite elem_of_cons, !elem_of_live. setoid_rewrite place_at_insert; [|done]. destruct (decide (k = i)) as [->|Hne].
    + split; [by left|intros _; by exists p].
    + split; [by right|by intros [?|?]].
Qed.

Lemma with_drafts_prev r n : with_drafts r n = set_prev_drafts n r.
Proof. done. Qed.

Lemma add_phase w0 ps0 n ps w id r : phase f32 w0 ps0 n ps w → mr_requests w !! id = Some r → ¬ in_places ps id →
  length (live ps) < max_num_reqs (ib_config (mr_batch w)) → request_ok (mr_batch w) r (output_of w r) →
  cr_num_prompt_tokens r + length (output_of w r) + length (drafts_of o id) ≤ max_model_len (ib_config (mr_batch w)) →
  ∃ w' i n' p, add_to_batch f32 o w id = Ok w' ∧ place_at ps i = None ∧ i < length ps ∧ phase f32 w0 ps0 n' (<[i := Some p]> ps) w' ∧ drafted o p ∧ pl_id p = id ∧
    mr_requests w' = <[id := set_prev_drafts (length (drafts_of o id)) r]> (mr_requests w) ∧ mr_outputs w' = mr_outputs w ∧ mr_logitsprocs w' = mr_logitsprocs w.
Proof.
  intros [[Hb Hm Hs] Hh Hso Hmv Ht Hsame] Hr Hnew Hlive Hok Hroom. pose proof (so_keys _ _ Hs _ _ Hr) as Hkey. unfold add_to_batch. rewrite Hr. cbn [mbind result_bind unwrap].
  assert (Hix : ib_req_id_to_index (mr_batch w) !! cr_req_id r = None) by (rewrite Hkey; by apply (index_none f32 n ps)).
  destruct (add_request_holds f32 (mr_outputs w) n ps (mr_batch w) r Hb Hh Hso Hlive Hix Hok) as (i & b1 & -> & Hnone & Hi & Hb1 & Hc1 & Hh1 & Hso1 & Ha1 & Hm1 & Hcase).
  cbn [mbind result_bind]. fold (output_of w r) in *. set (p0 := place_of r (output_of w r)) in *. set (n' := n `max` S i) in *.
  pose proof (prompt_len_ok _ _ _ (ro_tokens _ _ _ Hok)) as [Hl1 _].
  destruct (update_spec_holds f32 n' _ b1 r i p0 (st_spec o) Hb1) as (tok & -> & Hb2); [by rewrite place_at_insert, decide_True|done| |].
  { destruct Hc1 as [-> _]. unfold p0. simpl. rewrite length_app, length_map, Hl1, Hkey. exact Hroom. }
  cbn [mbind result_bind]. rewrite list_insert_insert_eq in Hb2. rewrite with_drafts_prev, Hkey in *. fold (drafts_of o id) in *.
  set (p := with_spec (drafts_of o id) p0) in *. set (r' := set_prev_drafts (length (drafts_of o id)) r) in *. set (b2 := set_tokens tok b1) in *.
  assert (Hpid : pl_id p = id) by exact Hkey. assert (Hput : put_request r' (with_batch b2 w) = with_batch b2 (with_requests (<[id := r']> (mr_requests w)) w)).
  { unfold put_request. change (cr_req_id r') with (cr_req_id r). by rewrite Hkey. }
  exists (with_batch b2 (with_requests (<[id := r']> (mr_requests w)) w)), i, n', p. rewrite Hput. split; [done|]. split; [done|]. split; [done|].
  assert (Hstates : states_ok (<[id := r']> (mr_requests w)) (mr_outputs w)).
  { destruct Hs as [S1 S2 S3]. split.
    - intros x y. rewrite lookup_insert_Some. intros [[<- <-]|[_ Hy]]; [exact Hkey|by apply S1].
    - intros x y. rewrite lookup_insert_Some. intros [[<- <-]|[_ Hy]]; [by apply (S2 _ _ Hr)|by eapply S2].
    - intros x x' y y'. rewrite !lookup_insert_Some. intros [[<- <-]|[_ Hy]] [[<- <-]|[_ Hy']] E; [done| | |by eapply S3];
        [by apply (S3 _ _ _ _ Hr Hy')|by apply (S3 _ _ _ _ Hy Hr)]. }
  assert (Hother : ∀ k q, place_at ps k = Some q → pl_id q ≠ id) by (intros k q Hq E; apply Hnew; by exists k, q).
  split; [|split_and!; try done; split; [by rewrite Hpid|done]].
  split; simpl; try done; [| |by rewrite Hm1| |].
  - split; simpl; try done. intros k q. rewrite place_at_insert by done. case_decide.
    + intros [= <-]. exists r'. rewrite Hpid. split; [simpl; by rewrite lookup_insert_eq|done].
    + intros Hq. destruct (Hm k q Hq) as (r0 & Hr0 & Hset). exists r0. split; [|done]. simpl. rewrite lookup_insert_ne; [done|]. by apply not_eq_sym, (Hother k).
  - destruct Hh1 as [A1 A2]. split; [done|]. intros k. rewrite A2, !place_at_insert by done. destruct (decide (k = i)); [|done]. split; by intros [_ ?].
  - intros Hpool T ne d0 Hd0. destruct Hc1 as [Hc1 _]. rewrite Hc1 in Hpool. destruct (Ht Hpool T ne d0 Hd0) as (d & Htell & Hf).
    pose proof (ro_kind _ _ _ Hok) as Hkind. rewrite Hpool in Hkind. destruct Hkind as (q & Hq & _).
    set (a := mkAdded i q (cr_prompt_token_ids r) (cr_output_token_ids r)). exists (add1 ne a d). split.
    + apply (tells_add ne d0 (ib_builder (mr_batch w)) d a); [done|done|simpl; rewrite Ha1; unfold added_entry; by rewrite Hq|simpl; by rewrite Hm1|].
      simpl. destruct Hcase as [(E1 & E2 & _)|E]; [by left|by right].
    + intros k. rewrite place_at_insert by done. unfold add1. simpl. destruct (decide (k = i)) as [->|Hne].
      * cbn [mbind option_bind]. rewrite Hpid. unfold entry_of. cbn [mr_requests with_batch with_requests]. rewrite lookup_insert_eq. simpl. rewrite Hq. simpl.
        destruct (ne q (cr_prompt_token_ids r) (cr_output_token_ids r)); [by rewrite lookup_insert_eq|by rewrite lookup_delete_eq].
      * assert (Hk : (match ne q (cr_prompt_token_ids r) (cr_output_token_ids r) with Some state => <[i := state]> d | None => delete i d end) !! k = d !! k).
        { destruct (ne _ _ _); [by rewrite lookup_insert_ne|by rewrite lookup_delete_ne]. }
        rewrite Hk, (Hf k). destruct (place_at ps k) as [q'|] eqn:Eq; [|done]. simpl. unfold entry_of. simpl. rewrite lookup_insert_ne; [done|].
        by apply not_eq_sym, (Hother k).
  - eapply same_config_trans; [exact Hsame|]. exact Hc1.
Qed.
Lemma add_all l : ∀ w0 ps0 n ps w, phase f32 w0 ps0 n ps w → NoDup l → (∀ id, id ∈ l → ¬ in_places ps id) →
  length (live ps) + length l ≤ max_num_reqs (ib_config (mr_batch w)) →
  (∀ id, id ∈ l → ∃ r, mr_requests w !! id = Some r ∧ request_ok (mr_batch w) r (output_of w r) ∧
     cr_num_prompt_tokens r + length (output_of w r) + length (drafts_of o id) ≤ max_model_len (ib_config (mr_batch w))) →
  ∃ w' n' ps', foldM (add_to_batch f32 o) w l = Ok w' ∧ phase f32 w0 ps0 n' ps' w' ∧
    (∀ i p, place_at ps i = Some p → place_at ps' i = Some p) ∧
    (∀ i p', place_at ps' i = Some p' → place_at ps i = Some p' ∨ (pl_id p' ∈ l ∧ drafted o p')) ∧ (∀ id, id ∈ l → in_places ps' id) ∧
    (∀ id, mr_requests w' !! id = if decide (id ∈ l) then set_prev_drafts (length (drafts_of o id)) <$> mr_requests w !! id else mr_requests w !! id) ∧
    mr_outputs w' = mr_outputs w ∧ mr_logitsprocs w' = mr_logitsprocs w.
Proof.
  induction l as [|id l IH]; intros w0 ps0 n ps w H Hnd Hnew Hlive Hok.
  - exists w, n, ps. split_and!; try done; [by left|by intros id ?%elem_of_nil].
  - apply NoDup_cons in Hnd as [Hid Hnd]. destruct (Hok id ltac:(left)) as (r & Hr & Hrok & Hroom). simpl in Hlive.
    destruct (add_phase w0 ps0 n ps w id r H Hr (Hnew id ltac:(left)) ltac:(lia) Hrok Hroom) as (w1 & i & n1 & p & Hrun & Hnone & Hi & H1 & Hdr & Hpid & Hreq & Hout & Hpr).
    cbn [foldM]. rewrite Hrun. cbn [mbind result_bind].
    assert (Hc : same_config (mr_batch w) (mr_batch w1)) by (eapply same_config_via; [apply (ph_same _ _ _ _ _ _ H)|apply (ph_same _ _ _ _ _ _ H1)]).
    destruct (IH w0 ps0 n1 (<[i := Some p]> ps) w1 H1 Hnd) as (w' & n' & ps' & Hrun' & H' & Hkeep & Hnewp & Hin & Hreq' & Hout' & Hpr').
    { intros id' Hid' (k & q & Hq & Hqid). rewrite place_at_insert in Hq by done. case_decide; [injection Hq as <-; congruence|].
      apply (Hnew id' ltac:(by right)). by exists k, q. }
    { rewrite (live_insert ps i p Hi Hnone). simpl. destruct Hc as [-> _]. lia. }
    { intros id' Hid'. destruct (Hok id' ltac:(by right)) as (r' & Hr' & Hrok' & Hroom'). exists r'. rewrite Hreq, lookup_insert_ne by congruence.
      assert (Ho : output_of w1 r' = output_of w r') by (unfold output_of; by rewrite Hout). rewrite Ho. split; [done|].
      split; [by eapply request_ok_same|]. by destruct Hc as [-> _]. }
    rewrite Hrun'. exists w', n', ps'. split; [done|]. split; [done|]. split_and!.
    + intros k q Hq. apply Hkeep. rewrite place_at_insert by done. rewrite decide_False; [done|]. intros ->. congruence.
    + intros k q Hq. destruct (Hnewp k q Hq) as [Hq'|[Hin' Hd']]; [|right; split; [by right|done]]. rewrite place_at_insert in Hq' by done. case_decide; [|by left].
      injection Hq' as <-. right. split; [rewrite Hpid; left|done].
    + intros id' [->|Hid']%elem_of_cons; [|by apply Hin]. exists i, p. split; [|done]. apply Hkeep. by rewrite place_at_insert, decide_True.
    + intros id'. rewrite Hreq', Hreq. destruct (decide (id' = id)) as [->|Hne].
      * rewrite lookup_insert_eq. rewrite decide_False by done. rewrite (decide_True (P := id ∈ id :: l)) by left. by rewrite Hr.
      * rewrite lookup_insert_ne by done. destruct (decide (id' ∈ l)) as [Hl|Hl]; [by rewrite decide_True by by right|]. rewrite decide_False; [done|]. by intros [?|?]%elem_of_cons.
    + congruence.
    + congruence.
Qed.
End Loops.
