(* ===== verification/WorkerFollow.v ===== *)
(** * Logits processors through condensing and reordering

    The slides and exchanges that the builder has recorded tell a processor where
    its entries are now. *)

From S2P Require Import Prelude NumPy InputBatch InputBatchSpec Condense ReorderBatch LogitsUpdates.
Local Open Scope nat_scope.

Section Follow.
Context {T : Type} (new_entry : BatchParams → option (list Z) → output_ref → option T) (e : string → option T).
Implicit Types (d : gmap nat T) (ps : places) (u : BatchUpdateBuilder).

Definition stands_for ps d : Prop := ∀ i, d !! i = place_at ps i ≫= λ p, e (pl_id p).

Lemma move1_slide a b d k : a ≠ b → d !! b = None →
  move1 (a, b, UNIDIRECTIONAL) d !! k = if decide (k = a) then None else if decide (k = b) then d !! a else d !! k.
Proof.
  intros Hne Hb. unfold move1. simpl. rewrite lookup_delete_ne by done. rewrite Hb. simpl. destruct (d !! a) as [x|] eqn:Ea; simpl.
  - destruct (decide (k = b)) as [->|Hkb]; [rewrite lookup_insert_eq; by rewrite decide_False|]. rewrite lookup_insert_ne, lookup_delete_ne by done.
    destruct (decide (k = a)) as [->|Hka]; [by rewrite lookup_delete_eq|by rewrite lookup_delete_ne].
  - destruct (decide (k = b)) as [->|Hkb]; [rewrite lookup_delete_eq; by rewrite decide_False|]. rewrite lookup_delete_ne by done.
    destruct (decide (k = a)) as [->|Hka]; [by rewrite lookup_delete_eq|by rewrite lookup_delete_ne].
Qed.

Lemma move1_swap a b d k : move1 (a, b, SWAP) d !! k = d !! swap_ix a b k.
Proof.
  unfold move1, swap_ix. simpl. destruct (decide (a = b)) as [->|Hne].
  - rewrite lookup_delete_eq. assert (Hk : (if decide (k = b) then b else if decide (k = b) then b else k) = k) by (repeat case_decide; by subst). rewrite Hk.
    destruct (d !! b) as [x|] eqn:E; simpl; destruct (decide (k = b)) as [->|Hkb].
    + by rewrite lookup_insert_eq.
    + by rewrite lookup_insert_ne, !lookup_delete_ne.
    + by rewrite lookup_delete_eq.
    + by rewrite !lookup_delete_ne.
  - rewrite lookup_delete_ne by done.
    destruct (d !! a) as [x|] eqn:Ea; simpl; destruct (d !! b) as [y|] eqn:Eb; simpl; destruct (decide (k = a)), (decide (k = b)); subst; try done;
      simplify_map_eq; rewrite ?lookup_insert_ne, ?lookup_delete_ne by congruence; done.
Qed.

Lemma stands_slide ps d src tgt : stands_for ps d → src < length ps → tgt < length ps → src ≠ tgt → place_at ps tgt = None →
  stands_for (move_place src tgt ps) (move1 (src, tgt, UNIDIRECTIONAL) d).
Proof.
  intros H Hs Ht Hne Hn k. rewrite move1_slide by (done || by rewrite (H tgt), Hn). rewrite place_at_move by done. repeat case_decide; [done|apply H|apply H].
Qed.

Lemma stands_swap ps d i j : stands_for ps d → i < length ps → j < length ps → stands_for (np_swap i j ps) (move1 (i, j, SWAP) d).
Proof. intros H Hi Hj k. rewrite move1_swap, place_at_swap by done. apply H. Qed.

(** Sliding: what stays removed is empty. *)
Lemma slides_told R ps ms R' ps' : slides R ps ms R' ps' → ∀ d0 u d u', tells new_entry d0 u d → removed_list u = R → stands_for ps d →
  (∀ i, i ∈ R → i < length ps ∧ place_at ps i = None) → removed_list u' = R' → added u' = added u →
  moved u' = moved u ++ map (λ '(s, t), (s, t, UNIDIRECTIONAL)) ms →
  ∃ d', tells new_entry d0 u' d' ∧ stands_for ps' d' ∧ (∀ i, i ∈ R' → place_at ps' i = None).
Proof.
  induction 1 as [R R' ps Hp|R R1 R' ps ps' src tgt ms p Hp Hmin Hlt Hsrc Hps Hpt Hrest IH]; intros d0 u d u' Htell HR Hst Hhole HR' Ha Hm.
  - exists d. rewrite app_nil_r in Hm. split; [by eapply tells_perm; [done|rewrite HR', HR|done|done]|]. split; [done|]. intros i. rewrite Hp. by apply Hhole.
  - assert (Htin : tgt ∈ R) by (rewrite <-Hp; set_solver). destruct (Hhole tgt Htin) as [Htl _]. pose proof (place_at_lt _ _ _ Hps) as Hsl.
    set (u1 := mkBuilder R1 (is_removed_sorted u) (added u) (moved u ++ [(src, tgt, UNIDIRECTIONAL)]) (batch_changed u)).
    assert (Hne : src ≠ tgt) by lia.
    assert (Htell1 : tells new_entry d0 u1 (move1 (src, tgt, UNIDIRECTIONAL) d)) by (apply (tells_slide new_entry d0 u d src tgt u1); try done; by rewrite HR).
    assert (Hnd : tgt ∉ R1). { pose proof (te_nodup _ _ _ _ Htell) as Hnd. rewrite HR, <-Hp in Hnd. apply NoDup_app in Hnd as (_ & Hdis & _). intros Hin. apply (Hdis tgt Hin). left. }
    apply (IH d0 u1 _ u' Htell1 eq_refl); [by apply stands_slide| |done|done|simpl; by rewrite Hm, <-app_assoc].
    intros i Hi. assert (HiR : i ∈ R) by (rewrite <-Hp; set_solver). destruct (Hhole i HiR) as [Hil Hin]. rewrite move_place_length. split; [done|].
    rewrite place_at_move by done. repeat case_decide; [done|congruence|done].
Qed.

(** Exchanging: all of them are between requests. *)
Lemma swaps_told l : ∀ ps d0 u d u', tells new_entry d0 u d → stands_for ps d → (∀ i, i ∈ removed_list u → place_at ps i = None) →
  (∀ i j, (i, j) ∈ l → is_Some (place_at ps i) ∧ is_Some (place_at ps j)) →
  removed_list u' = removed_list u → added u' = added u → moved u' = moved u ++ map (λ '(i, j), (i, j, SWAP)) l →
  ∃ d', tells new_entry d0 u' d' ∧ stands_for (swap_all l ps) d'.
Proof.
  induction l as [|[i j] l IH]; intros ps d0 u d u' Htell Hst Hrem Hlive Hr Ha Hm.
  - exists d. rewrite app_nil_r in Hm. split; [|done]. by eapply tells_perm; [done|rewrite Hr|done|done].
  - destruct (Hlive i j ltac:(left)) as [[p Hp] [q Hq]]. pose proof (place_at_lt _ _ _ Hp) as Hi. pose proof (place_at_lt _ _ _ Hq) as Hj.
    assert (Hsw : ∀ k, is_Some (place_at (np_swap i j ps) k) ↔ is_Some (place_at ps k)).
    { intros k. rewrite place_at_swap by done. unfold swap_ix. repeat case_decide; subst; [| |done]; rewrite Hp, Hq; split; by intros _. }
    apply (IH (np_swap i j ps) d0 (push_moved (i, j, SWAP) u) (move1 (i, j, SWAP) d) u'); try done.
    + apply tells_swap; [done| |]; intros Hin; apply Hrem in Hin; congruence.
    + by apply stands_swap.
    + intros k Hk. specialize (Hrem k Hk). destruct (place_at (np_swap i j ps) k) as [x|] eqn:E; [|done]. exfalso.
      assert (is_Some (place_at ps k)) as [y Hy] by (apply Hsw; rewrite E; by eexists). congruence.
    + intros a b Hab. rewrite !Hsw. apply Hlive. by right.
    + simpl. by rewrite Hm, <-app_assoc.
Qed.
End Follow.
