(* ===== verification/WorkerStep.v ===== *)
(** * The states of a worker: a whole step

    [_update_states] on the output of a scheduler that knows the runner: it
    succeeds, the batch then holds the scheduled requests without holes, each of
    them as its cached state says and followed by the drafts to verify, and every
    logits processor has its entries where the requests are. *)

From S2P Require Import Prelude NumPy BlockTable InputBatch InputBatchSpec InputBatchParts InputBatchRun Condense LogitsUpdates ReorderBatch.
From S2P Require Import WorkerStates WorkerPlaces WorkerRun WorkerNew WorkerCached WorkerLoops WorkerFollow.
From Stdlib Require Import QArith.
From Stdlib Require Import Sorting.Sorted.
Local Open Scope nat_scope.

Section Step.
Context {P : Type} (update_state : option BatchUpdate → P → P) (f32 : Q → Q) (make_generator : Z → Z) (cfg : RunnerConfig) (o : StepOutput).
Implicit Types (w : ModelRunner P) (ps : places) (p : Place) (r : CachedRequestState) (b : InputBatch).

(** ** Outputs of the scheduler that fit a runner *)

Definition new_ids : list string := map nr_req_id (st_new o).
Definition cached_ids : list string := cd_req_ids (st_cached o).
Definition is_resumed (id : string) : Prop := id ∈ cd_resumed_req_ids (st_cached o).

(** The cached state a new request replaces, if it continues a session. *)
Definition old_state w (id : string) : option CachedRequestState := if decide (id ∈ st_finished o) then None else mr_requests w !! id.

(** A running request stays where it is in the batch. *)
Definition stays w (id : string) : Prop := is_Some (ib_req_id_to_index (mr_batch w) !! id) ∧ ¬ is_resumed id.
#[local] Instance stays_dec w id : Decision (stays w id) := and_dec _ _.

(** The output tokens of a running or resumed request: those known, up to the number
    the scheduler knows, or all from the scheduler when it was away from the batch
    while tokens were only placeholders. *)
Definition output_after w r (id : string) (n : nat) : list Z :=
  if decide (stays w id) then take n (output_of w r)
  else if use_async_scheduling cfg && (0 <? n) then py_last n (default [] (od_get (cd_all_token_ids (st_cached o)) id)) else take n (output_of w r).

Record entry_ok w (k : nat) (id : string) r (num_computed : nat) (blk : option (list (list Z))) (n : nat) : Prop := {
  eo_state : mr_requests w !! id = Some r;
  eo_running : id ∉ st_finished o;
  eo_computed : cd_num_computed_tokens (st_cached o) !! k = Some num_computed;
  eo_blk : cd_new_block_ids (st_cached o) !! k = Some blk;
  eo_output : cd_num_output_tokens (st_cached o) !! k = Some n;
  eo_settled : use_async_scheduling cfg = true → cr_prev_num_draft_len r = 0;
  eo_resumed : is_resumed id → is_Some blk;
  eo_recover : use_async_scheduling cfg = true → ¬ stays w id → 0 < n → is_Some (od_get (cd_all_token_ids (st_cached o)) id);
  eo_groups : ∀ ids, blk = Some ids → length ids = length (ib_block_table (mr_batch w));
  eo_fits : request_ok (mr_batch w) (next_request o r id num_computed blk 0 0) (output_after w r id n);
  eo_room : cr_num_prompt_tokens r + length (output_after w r id n) + length (drafts_of o id) ≤ max_model_len (ib_config (mr_batch w));
}.

Record step_ok w : Prop := {
  sk_rank : is_last_rank cfg = true;
  sk_distinct : NoDup (new_ids ++ cached_ids);
  sk_scheduled : ∀ id, id ∈ dom (st_num_scheduled o) ↔ id ∈ new_ids ++ cached_ids;
  sk_count : size (st_num_scheduled o) ≤ max_num_reqs (ib_config (mr_batch w));
  sk_new : ∀ d, d ∈ st_new o → ∃ num, prompt_len d = Ok num ∧ (∀ ref, request_ok (mr_batch w) (request_from make_generator (old_state w (nr_req_id d)) ref d num) []) ∧
    num + length (drafts_of o (nr_req_id d)) ≤ max_model_len (ib_config (mr_batch w));
  sk_cached : ∀ k id, cached_ids !! k = Some id → ∃ r num_computed blk n, entry_ok w k id r num_computed blk n;
}.

(** What a step leaves of the cached states. *)
Record states_done w w' : Prop := {
  sd_new : ∀ d num, d ∈ st_new o → prompt_len d = Ok num → ∃ ref, let r := set_prev_drafts (length (drafts_of o (nr_req_id d)))
    (request_from make_generator (old_state w (nr_req_id d)) ref d num) in mr_requests w' !! nr_req_id d = Some r ∧ output_of w' r = [];
  sd_cached : ∀ k id r num_computed blk n, cached_ids !! k = Some id → entry_ok w k id r num_computed blk n →
    ∃ ref, let r' := next_request o r id num_computed blk ref (length (drafts_of o id)) in
      mr_requests w' !! id = Some r' ∧ output_of w' r' = output_after w r id n;
  sd_other : ∀ id, id ∉ new_ids ++ cached_ids → mr_requests w' !! id = old_state w id ∧ ∀ r, old_state w id = Some r → output_of w' r = output_of w r;
}.

(** ** Leaving the batch *)

Record left_batch n ps w ps2 w2 : Prop := {
  lb_phase : phase f32 w ps n ps2 w2;
  lb_removing : removing w2;
  lb_places : ∀ id, in_places ps2 id ↔ in_places ps id ∧ (id ∉ st_finished o) ∧ id ∈ dom (st_num_scheduled o) ∧ ¬ is_resumed id;
  lb_requests : ∀ id, mr_requests w2 !! id = old_state w id;
  lb_outputs : mr_outputs w2 = mr_outputs w;
  lb_procs : mr_logitsprocs w2 = mr_logitsprocs w;
}.

Lemma leave_phase n ps w : runner_holds f32 n ps w → ib_builder (mr_batch w) = empty_builder → holes n ps [] →
  ∃ w1 w2, foldM drop_from_batch (foldl forget_request w (elements (st_finished o))) (elements (st_finished o)) = Ok w1 ∧
    foldM drop_from_batch (free_encoder_outputs (st_free_encoder o) w1) (elements (unscheduled_req_ids o (free_encoder_outputs (st_free_encoder o) w1))) = Ok w2 ∧
    ∃ ps2, left_batch n ps w ps2 w2.
Proof.
  intros H He Hh. destruct (phase_start f32 n ps w H He Hh) as [Hph Hrem].
  destruct (finish_phase f32 w ps n ps w (elements (st_finished o)) Hph Hrem) as (w1 & Hrun1 & H1 & Hrem1 & Hreq1 & Hout1 & Hpr1).
  set (w1' := free_encoder_outputs (st_free_encoder o) w1).
  assert (H1' : phase f32 w ps n (clear_ids (elements (st_finished o)) ps) w1') by by apply (phase_same f32 w ps n _ w1).
  destruct (drop_all_phase f32 (elements (unscheduled_req_ids o w1')) w ps n _ w1' H1' Hrem1) as (b & Hrun2 & H2 & Hrem2).
  exists w1, (with_batch b w1'). split; [done|]. split; [done|]. eexists. split; [exact H2|done| | |done|done].
  - intros id. rewrite in_places_clear, in_places_clear, !elem_of_elements. unfold unscheduled_req_ids.
    assert (Hdom : in_places (clear_ids (elements (st_finished o)) ps) id ↔ id ∈ dom (ib_req_id_to_index (mr_batch w1'))).
    { rewrite elem_of_dom. pose proof (index_none f32 n _ (mr_batch w1') id (rh_batch _ _ _ _ (ph_runner _ _ _ _ _ _ H1'))) as Hi.
      destruct (ib_req_id_to_index (mr_batch w1') !! id) as [i|] eqn:E.
      - split; [by intros _|]. intros _. destruct (index_places f32 n _ (mr_batch w1') id i (rh_batch _ _ _ _ (ph_runner _ _ _ _ _ _ H1')) E) as (p & Hp & Hid). by exists i, p.
      - split; [|by intros [? ?]]. intros Hin. by destruct (proj1 Hi eq_refl). }
    rewrite in_places_clear, elem_of_elements in Hdom. unfold is_resumed. rewrite !elem_of_difference.
    destruct (decide (id ∈ dom (st_num_scheduled o))), (decide (id ∈ cd_resumed_req_ids (st_cached o))); tauto.
  - intros id. simpl. rewrite Hreq1. unfold old_state. destruct (decide (id ∈ st_finished o)) as [Hf|Hf].
    + by rewrite decide_True by by apply elem_of_elements.
    + rewrite decide_False; [done|]. by rewrite elem_of_elements.
Qed.

(** ** Cached states *)

Lemma index_stays n ps w id : runner_holds f32 n ps w → stays w id ↔ in_places ps id ∧ ¬ is_resumed id.
Proof.
  intros H. unfold stays. pose proof (index_none f32 n ps (mr_batch w) id (rh_batch _ _ _ _ H)) as Hi. destruct (ib_req_id_to_index (mr_batch w) !! id) as [i|] eqn:E.
  - destruct (index_places f32 n ps (mr_batch w) id i (rh_batch _ _ _ _ H) E) as (p & Hp & Hid). split; [intros [_ Hr]; split; [by exists i, p|done]|by intros [_ Hr]].
  - split; [by intros [[? ?] _]|]. intros [Hin _]. by destruct (proj1 Hi eq_refl).
Qed.

Lemma cached_lookup k id : cached_ids !! k = Some id → id ∈ cached_ids ∧ (NoDup (new_ids ++ cached_ids) → id ∉ new_ids).
Proof.
  intros Hk. assert (Hin : id ∈ cached_ids) by by eapply list_elem_of_lookup_2. split; [done|]. intros (_ & Hd & _)%NoDup_app Hn. by apply (Hd id).
Qed.

Lemma new_phase n ps w ps2 w2 : runner_holds f32 n ps w → step_ok w → left_batch n ps w ps2 w2 →
  ∃ w3 ps3, foldM (new_request make_generator) (w2, []) (st_new o) = Ok (w3, new_ids) ∧ phase f32 w ps n ps3 w3 ∧ removing w3 ∧
    (∀ id, in_places ps3 id ↔ stays w id ∧ id ∈ cached_ids) ∧
    (∀ id, id ∉ new_ids → mr_requests w3 !! id = old_state w id ∧ ∀ r, old_state w id = Some r → output_of w3 r = output_of w r) ∧
    (∀ d num, d ∈ st_new o → prompt_len d = Ok num → ∃ ref, let r := request_from make_generator (old_state w (nr_req_id d)) ref d num in
       mr_requests w3 !! nr_req_id d = Some r ∧ output_of w3 r = []) ∧
    mr_logitsprocs w3 = mr_logitsprocs w.
Proof.
  intros H Hok [Hph Hrem Hpl Hreq Hout Hpr]. pose proof (sk_distinct _ Hok) as Hnd. apply NoDup_app in Hnd as (Hnd & Hdis & _).
  destruct (new_requests_phase f32 make_generator (st_new o) w ps n ps2 w2 [] Hph Hrem Hnd) as (w3 & Hrun & H3 & Hrem3 & Hun & Hnew & Hpr3).
  { intros d Hd. destruct (sk_new _ Hok d Hd) as (num & Hnum & Hfit & _). split; [by exists num|]. intros Hpool. pose proof (ro_kind _ _ _ (Hfit 0)) as Hkind.
    destruct (ph_same _ _ _ _ _ _ Hph) as [Hc _]. rewrite Hc in Hpool. rewrite Hpool in Hkind. destruct Hkind as [_ Hk]. by destruct (old_state w (nr_req_id d)). }
  exists w3, (clear_ids new_ids ps2). split; [done|]. split; [done|]. split; [done|]. split; [|split; [|split; [|congruence]]].
  - intros id. rewrite in_places_clear, Hpl, (index_stays n ps w id H), (sk_scheduled _ Hok), elem_of_app. split; [tauto|]. intros [[Hin Hr] Hc].
    assert (Hf : id ∉ st_finished o). { apply list_elem_of_lookup in Hc as [k Hk]. destruct (sk_cached _ Hok k id Hk) as (r & c & blk & m & He). apply (eo_running _ _ _ _ _ _ _ He). }
    split; [tauto|]. intros Hn. by apply (Hdis id).
  - intros id Hid. destruct (Hun id Hid) as [E1 E2]. rewrite Hreq in E1, E2. split; [done|]. intros r Hr. rewrite (E2 r Hr). unfold output_of. by rewrite Hout.
  - intros d num Hd Hnum. destruct (Hnew d num Hd Hnum) as (ref & E). rewrite Hreq in E. by exists ref.
Qed.

Lemma omap_lookup_seq {A} (l : list A) : omap (λ k, l !! k) (seq 0 (length l)) = l.
Proof.
  assert (H : ∀ l1 l2 : list A, omap (λ k, (l1 ++ l2) !! k) (seq (length l1) (length l2)) = l2).
  { intros l1 l2. revert l1. induction l2 as [|x l2 IH]; intros l1; [done|]. simpl. rewrite lookup_app_r, Nat.sub_diag by done. simpl. f_equal.
    specialize (IH (l1 ++ [x])). rewrite length_app, Nat.add_1_r in IH. rewrite <-app_assoc in IH. exact IH. }
  apply (H []).
Qed.

(** The entry of the scheduler's lists, at the time the loop comes to it. *)
Lemma entry_cached n ps w w3 ps3 k id r c blk m : step_ok w → phase f32 w ps n ps3 w3 →
  (∀ id, in_places ps3 id ↔ stays w id ∧ id ∈ cached_ids) →
  (∀ id, id ∉ new_ids → mr_requests w3 !! id = old_state w id ∧ ∀ r, old_state w id = Some r → output_of w3 r = output_of w r) →
  cached_ids !! k = Some id → entry_ok w k id r c blk m →
  cached_ok cfg o w3 k id r c blk m ∧ next_output cfg o w3 r id m = output_after w r id m ∧
    (is_Some (ib_req_id_to_index (mr_batch w3) !! id) ↔ stays w id).
Proof.
  intros Hok Hph Hpl Hst Hk []. destruct (cached_lookup k id Hk) as [Hin Hnew]. specialize (Hnew (sk_distinct _ Hok)).
  assert (Hold : old_state w id = Some r) by (unfold old_state; by rewrite decide_False). destruct (Hst id Hnew) as [E1 E2]. specialize (E2 r Hold).
  pose proof (rh_batch _ _ _ _ (ph_runner _ _ _ _ _ _ Hph)) as Hb. pose proof (index_none f32 n ps3 (mr_batch w3) id Hb) as Hi. specialize (Hpl id).
  assert (Hix : ib_req_id_to_index (mr_batch w3) !! id = None ↔ ¬ stays w id) by (rewrite Hi, Hpl; tauto).
  assert (Hix' : is_Some (ib_req_id_to_index (mr_batch w3) !! id) ↔ stays w id).
  { rewrite <-not_eq_None_Some, Hix. split; [apply dec_stable|auto]. }
  assert (Hn : next_output cfg o w3 r id m = output_after w r id m).
  { unfold next_output, output_after. rewrite E2. destruct (ib_req_id_to_index (mr_batch w3) !! id) as [i|] eqn:Ei.
    - rewrite decide_True; [done|]. apply Hix'. by eexists.
    - rewrite decide_False; [done|]. by apply Hix. }
  destruct (ph_same _ _ _ _ _ _ Hph) as [Hc1 Hc2].
  split; [|done]. split; rewrite ?Hn, ?Hc1, ?Hc2, ?E1; try done.
  - intros Hres. split; [|by apply eo_resumed0]. apply Hix. by intros [_ ?].
  - intros Ha Hno Hm. apply eo_recover0; [done| |done]. by apply Hix.
  - intros ids Hids. rewrite (eo_groups0 ids Hids), <-(length_map tb_config), <-Hc2. by rewrite length_map.
  - apply (ro_tokens _ _ _ eo_fits0).
  - apply (ro_blocks _ _ _ eo_fits0).
Qed.
(** The cached states before the batch takes its new requests: the number of drafts
    is known of those that stay. *)
Record states_half w w4 : Prop := {
  sh_new : ∀ d num, d ∈ st_new o → prompt_len d = Ok num → ∃ ref, let r := request_from make_generator (old_state w (nr_req_id d)) ref d num in
    mr_requests w4 !! nr_req_id d = Some r ∧ output_of w4 r = [];
  sh_cached : ∀ k id r c blk m, cached_ids !! k = Some id → entry_ok w k id r c blk m →
    ∃ ref prev, let r' := next_request o r id c blk ref prev in
      mr_requests w4 !! id = Some r' ∧ output_of w4 r' = output_after w r id m ∧ (stays w id → prev = length (drafts_of o id));
  sh_other : ∀ id, id ∉ new_ids ++ cached_ids → mr_requests w4 !! id = old_state w id ∧ ∀ r, old_state w id = Some r → output_of w4 r = output_of w r;
}.

Lemma cached_phase n ps w w3 ps3 : step_ok w → phase f32 w ps n ps3 w3 → removing w3 → (∀ id, in_places ps3 id ↔ stays w id ∧ id ∈ cached_ids) →
  (∀ id, id ∉ new_ids → mr_requests w3 !! id = old_state w id ∧ ∀ r, old_state w id = Some r → output_of w3 r = output_of w r) →
  (∀ d num, d ∈ st_new o → prompt_len d = Ok num → ∃ ref, let r := request_from make_generator (old_state w (nr_req_id d)) ref d num in
     mr_requests w3 !! nr_req_id d = Some r ∧ output_of w3 r = []) →
  ∃ w4 ps4 absent, foldM (cached_request cfg o) (w3, new_ids, []) (seq 0 (length cached_ids)) = Ok (w4, new_ids ++ absent, []) ∧
    phase f32 w ps n ps4 w4 ∧ states_half w w4 ∧ NoDup (new_ids ++ absent) ∧ (∀ id, id ∈ absent ↔ id ∈ cached_ids ∧ ¬ stays w id) ∧
    (∀ id, in_places ps4 id ↔ stays w id ∧ id ∈ cached_ids) ∧ (∀ i p, place_at ps4 i = Some p → drafted o p) ∧ mr_logitsprocs w4 = mr_logitsprocs w3.
Proof.
  intros Hok Hph Hrem Hpl Hst Hnew. pose proof (sk_distinct _ Hok) as Hnd. pose proof Hnd as (Hnd1 & Hdis & Hnd2)%NoDup_app.
  assert (Hids : ids_of o (seq 0 (length cached_ids)) = cached_ids) by apply omap_lookup_seq.
  assert (Hentry : ∀ k, k < length cached_ids → ∃ id r c blk m, cached_ids !! k = Some id ∧ entry_ok w k id r c blk m).
  { intros k Hk. destruct (lookup_lt_is_Some_2 cached_ids k Hk) as [id Hid]. destruct (sk_cached _ Hok k id Hid) as (r & c & blk & m & He). by exists id, r, c, blk, m. }
  destruct (cached_all f32 cfg o (seq 0 (length cached_ids)) w ps n ps3 w3 new_ids [] (sk_rank _ Hok) Hph Hrem) as
    (w4 & ps4 & Hrun & H4 & Hrem4 & Hun & Hdone & Hx & Hpr & Hsame & Hdr).
  { by rewrite Hids. }
  { intros k [_ Hk]%elem_of_seq. destruct (Hentry k ltac:(lia)) as (id & r & c & blk & m & Hid & He). exists id, r, c, blk, m. by eapply entry_cached. }
  rewrite Hids in *. exists w4, ps4, (missing w3 cached_ids). split; [done|]. split; [done|].
  assert (Habs : ∀ id, id ∈ missing w3 cached_ids ↔ id ∈ cached_ids ∧ ¬ stays w id).
  { intros id. unfold missing. rewrite list_elem_of_filter. assert (Hiff : id ∈ cached_ids → ib_req_id_to_index (mr_batch w3) !! id = None ↔ ¬ stays w id).
    { intros Hin. apply list_elem_of_lookup in Hin as [k Hk]. destruct (sk_cached _ Hok k id Hk) as (r & c & blk & m & He).
      destruct (entry_cached n ps w w3 ps3 k id r c blk m Hok Hph Hpl Hst Hk He) as (_ & _ & Hiff). by rewrite <-Hiff, eq_None_not_Some. }
    split; [intros [Hi Hin]; split; [done|by apply Hiff]|intros [Hin Hi]; split; [by apply Hiff|done]]. }
  split; [|split; [|split; [done|split; [|split; [|done]]]]].
  - split.
    + intros d num Hd Hnum. destruct (Hnew d num Hd Hnum) as (ref & E1 & E2). exists ref. cbv zeta in *.
      destruct (Hun (nr_req_id d)) as [E3 E4]; [intros Hin; apply (Hdis (nr_req_id d)); [by apply list_elem_of_fmap_2|done]|]. split; [congruence|]. by rewrite (E4 _ E1).
    + intros k id r c blk m Hk He. destruct (entry_cached n ps w w3 ps3 k id r c blk m Hok Hph Hpl Hst Hk He) as (Hc & Hn & Hiff).
      destruct (Hdone k id r c blk m) as (ref & prev & E1 & E2 & E3); [apply elem_of_seq; apply lookup_lt_Some in Hk; lia|done|].
      exists ref, prev. cbv zeta. split; [done|]. split; [congruence|]. intros Hs. apply E3. by apply Hiff.
    + intros id Hid. rewrite not_elem_of_app in Hid. destruct Hid as [Hid1 Hid2]. destruct (Hst id Hid1) as [E1 E2], (Hun id Hid2) as [E3 E4].
      split; [congruence|]. intros r Hr. rewrite E4 by congruence. by apply E2.
  - apply NoDup_app. split; [done|]. split; [|unfold missing; by apply NoDup_filter]. intros id Hid Hin. apply Habs in Hin as [Hin _]. by apply (Hdis id).
  - intros id. rewrite <-Hpl. split; intros (i & p & Hp & Hid); specialize (Hsame i); rewrite Hp in Hsame.
    + symmetry in Hsame. apply fmap_Some in Hsame as (q & Hq & E). exists i, q. split; [done|congruence].
    + apply fmap_Some in Hsame as (q & Hq & E). exists i, q. split; [done|congruence].
  - intros i p Hp. specialize (Hdr i p Hp). rewrite decide_True in Hdr; [done|]. specialize (Hsame i). rewrite Hp in Hsame. symmetry in Hsame.
    apply fmap_Some in Hsame as (q & Hq & E). assert (Hin : in_places ps3 (pl_id p)) by (exists i, q; split; [done|congruence]). by apply Hpl in Hin as [_ ?].
Qed.
(** ** Into the batch *)

Lemma live_count ps (l : list string) (X : gset string) : distinct ps → NoDup l → (∀ id, in_places ps id → id ∈ X ∧ id ∉ l) → (∀ id, id ∈ l → id ∈ X) →
  length (live ps) + length l ≤ size X.
Proof.
  intros Hd Hl Hin Hlx. set (f := λ i, default ""%string (pl_id <$> place_at ps i)).
  assert (Hf : ∀ i, i ∈ live ps → in_places ps (f i)) by (intros i [p Hp]%elem_of_live; exists i, p; unfold f; by rewrite Hp).
  assert (Hnd : NoDup (map f (live ps) ++ l)).
  { apply NoDup_app. split; [|split; [|done]].
    - apply NoDup_fmap_2_strong; [|apply NoDup_live]. intros i j [p Hp]%elem_of_live [q Hq]%elem_of_live. unfold f. rewrite Hp, Hq. simpl. by apply Hd.
    - intros id (i & -> & Hi)%list_elem_of_fmap. by apply Hin, Hf. }
  assert (Hs : size (list_to_set (map f (live ps) ++ l) : gset string) ≤ size X).
  { apply subseteq_size. intros id. rewrite elem_of_list_to_set, elem_of_app. intros [(i & -> & Hi)%list_elem_of_fmap|Hi]; [by apply Hin, Hf|by apply Hlx]. }
  rewrite size_list_to_set in Hs by done. by rewrite length_app, length_map in Hs.
Qed.

Lemma request_ok_prev b r id c blk ref prev out : request_ok b (next_request o r id c blk 0 0) out → request_ok b (next_request o r id c blk ref prev) out.
Proof. intros [[T1 T2 T3] H2 H3 H4]. by split. Qed.

(** A queued request fits the batch. *)
Lemma queued_ok w w4 b id absent : step_ok w → states_half w w4 → same_config (mr_batch w) b → (∀ id, id ∈ absent ↔ id ∈ cached_ids ∧ ¬ stays w id) →
  id ∈ new_ids ++ absent → ∃ r, mr_requests w4 !! id = Some r ∧ request_ok b r (output_of w4 r) ∧
    cr_num_prompt_tokens r + length (output_of w4 r) + length (drafts_of o id) ≤ max_model_len (ib_config b).
Proof.
  intros Hok Hh Hc Habs [Hin|Hin]%elem_of_app.
  - apply list_elem_of_fmap in Hin as (d & -> & Hd). destruct (sk_new _ Hok d Hd) as (num & Hnum & Hfit & Hroom).
    destruct (sh_new _ _ Hh d num Hd Hnum) as (ref & E1 & E2). cbv zeta in *. eexists. split; [exact E1|]. rewrite E2. split; [by eapply request_ok_same|].
    destruct Hc as [-> _]. assert (Hn : cr_num_prompt_tokens (request_from make_generator (old_state w (nr_req_id d)) ref d num) = num) by by destruct (old_state w (nr_req_id d)).
    rewrite Hn. simpl. lia.
  - apply Habs in Hin as [Hin Hns]. apply list_elem_of_lookup in Hin as [k Hk]. destruct (sk_cached _ Hok k id Hk) as (r & c & blk & m & He).
    destruct (sh_cached _ _ Hh k id r c blk m Hk He) as (ref & prev & E1 & E2 & _). cbv zeta in *. eexists. split; [exact E1|]. rewrite E2.
    split; [eapply request_ok_same; [done|]; apply request_ok_prev, (eo_fits _ _ _ _ _ _ _ He)|]. destruct Hc as [-> _]. apply (eo_room _ _ _ _ _ _ _ He).
Qed.

Lemma enter_phase n ps w w4 ps4 absent : step_ok w → phase f32 w ps n ps4 w4 → states_half w w4 → NoDup (new_ids ++ absent) →
  (∀ id, id ∈ absent ↔ id ∈ cached_ids ∧ ¬ stays w id) → (∀ id, in_places ps4 id ↔ stays w id ∧ id ∈ cached_ids) → (∀ i p, place_at ps4 i = Some p → drafted o p) →
  ∃ w5 n5 ps5, foldM (add_to_batch f32 o) w4 (new_ids ++ absent) = Ok w5 ∧ phase f32 w ps n5 ps5 w5 ∧ states_done w w5 ∧
    (∀ i p, place_at ps5 i = Some p → drafted o p) ∧ (∀ id, in_places ps5 id ↔ id ∈ dom (st_num_scheduled o)) ∧ mr_logitsprocs w5 = mr_logitsprocs w4.
Proof.
  intros Hok Hph Hh Hnd Habs Hpl Hdr. pose proof (sk_distinct _ Hok) as (_ & Hdis & _)%NoDup_app. pose proof (ph_same _ _ _ _ _ _ Hph) as Hc.
  assert (Hnot : ∀ id, id ∈ new_ids ++ absent → ¬ in_places ps4 id).
  { intros id [Hin|Hin]%elem_of_app; rewrite Hpl; [intros [_ Hc']; by apply (Hdis id)|apply Habs in Hin; tauto]. }
  destruct (add_all f32 o (new_ids ++ absent) w ps n ps4 w4 Hph Hnd Hnot) as (w5 & n5 & ps5 & Hrun & H5 & Hkeep & Hnewp & Hin & Hreq & Hout & Hpr).
  { etrans; [|destruct Hc as [-> _]; apply (sk_count _ Hok)]. rewrite <-size_dom. apply live_count; [apply (batch_distinct f32 n ps4 (mr_batch w4)), (ph_runner _ _ _ _ _ _ Hph)|done| |].
    - intros id Hid. split; [|intros Hl; by apply (Hnot id)]. apply (sk_scheduled _ Hok). apply Hpl in Hid. apply elem_of_app. tauto.
    - intros id [Hid|Hid]%elem_of_app; apply (sk_scheduled _ Hok), elem_of_app; [by left|right]. by apply Habs in Hid as [? _]. }
  { intros id Hid. by eapply queued_ok. }
  exists w5, n5, ps5. split; [done|]. split; [done|]. assert (Ho : ∀ r, output_of w5 r = output_of w4 r) by (intros r; unfold output_of; by rewrite Hout).
  split; [|split; [|split; [|done]]].
  - split.
    + intros d num Hd Hnum. destruct (sh_new _ _ Hh d num Hd Hnum) as (ref & E1 & E2). exists ref. cbv zeta in *. rewrite Hreq, E1, decide_True by (apply elem_of_app; left; by apply list_elem_of_fmap_2).
      split; [done|]. rewrite Ho. exact E2.
    + intros k id r c blk m Hk He. destruct (sh_cached _ _ Hh k id r c blk m Hk He) as (ref & prev & E1 & E2 & E3). exists ref. cbv zeta in *. rewrite Hreq, E1.
      destruct (cached_lookup k id Hk) as [Hc' Hn']. specialize (Hn' (sk_distinct _ Hok)). rewrite Ho. split; [|exact E2]. case_decide as Hd; [done|].
      rewrite E3; [done|]. destruct (decide (stays w id)) as [|Hs]; [done|]. exfalso. apply Hd, elem_of_app. right. by apply Habs.
    + intros id Hid. destruct (sh_other _ _ Hh id Hid) as [E1 E2]. rewrite Hreq, decide_False; [split; [done|]; intros r Hr; rewrite Ho; by apply E2|].
      rewrite not_elem_of_app in Hid. intros [?|Ha]%elem_of_app; [tauto|]. apply Habs in Ha. tauto.
  - intros i p Hp. destruct (Hnewp i p Hp) as [Hp'|[_ Hd]]; [by eapply Hdr|done].
  - intros id. rewrite (sk_scheduled _ Hok), elem_of_app. split.
    + intros (i & p & Hp & Hid). destruct (Hnewp i p Hp) as [Hp'|[Hl _]].
      * assert (Hi : in_places ps4 id) by by exists i, p. apply Hpl in Hi. tauto.
      * rewrite Hid in Hl. apply elem_of_app in Hl as [?|Ha]; [by left|right]. by apply Habs in Ha as [? _].
    + intros Hid. destruct (decide (id ∈ new_ids ++ absent)) as [Ha|Ha]; [by apply Hin|]. rewrite not_elem_of_app, Habs in Ha.
      assert (Hi : in_places ps4 id) by (apply Hpl; destruct (decide (stays w id)); tauto). destruct Hi as (i & p & Hp & E). exists i, p. split; [by apply Hkeep|done].
Qed.
(** ** The finished batch *)

(** A runner between two steps: the requests are in front, nothing is pending. *)
Record between_steps ps w : Prop := {
  bs_holds : runner_holds f32 (num_reqs (mr_batch w)) ps w;
  bs_builder : ib_builder (mr_batch w) = empty_builder;
  bs_dense : ∀ i, i < num_reqs (mr_batch w) → is_Some (place_at ps i);
}.

Lemma elem_of_requests ps p : p ∈ requests ps ↔ ∃ i, place_at ps i = Some p.
Proof.
  unfold requests. rewrite list_elem_of_omap. split.
  - intros (q & Hq & E). simpl in E. subst. apply list_elem_of_lookup in Hq as [i Hi]. exists i. by apply place_at_Some.
  - intros [i Hi]. exists (Some p). split; [|done]. apply place_at_Some in Hi. by eapply list_elem_of_lookup_2.
Qed.

Lemma in_requests ps ps' id : requests ps' ≡ₚ requests ps → in_places ps' id ↔ in_places ps id.
Proof.
  intros Hp. unfold in_places. split; intros (i & p & Hi & Hid); assert (Hr : ∃ j, place_at ps j = Some p ∨ place_at ps' j = Some p) by (exists i; auto).
  - assert (Hin : p ∈ requests ps) by (rewrite <-Hp; apply elem_of_requests; by exists i). apply elem_of_requests in Hin as [j Hj]. by exists j, p.
  - assert (Hin : p ∈ requests ps') by (rewrite Hp; apply elem_of_requests; by exists i). apply elem_of_requests in Hin as [j Hj]. by exists j, p.
Qed.

(** Requests of lower regions come first. *)
Definition regions_ordered ps : Prop := num_kv_cache_groups cfg ≠ 0 → ∀ thr, reorder_batch_threshold cfg = Some thr →
  ∀ i j ri rj, i ≤ j → region_at (st_num_scheduled o) thr ps i = Some ri → region_at (st_num_scheduled o) thr ps j = Some rj → ri ≤ rj.

Lemma reorder_phase n ps b : batch_holds f32 n ps b → (∀ i, i < n → is_Some (place_at ps i)) →
  (∀ i p, place_at ps i = Some p → is_Some (st_num_scheduled o !! pl_id p)) →
  ∃ b' sw, _may_reorder_batch cfg o b = Ok b' ∧ batch_holds f32 n (swap_all sw ps) b' ∧ same_config b b' ∧ regions_ordered (swap_all sw ps) ∧
    (∀ k, is_Some (place_at (swap_all sw ps) k) ↔ is_Some (place_at ps k)) ∧ (∀ i j, (i, j) ∈ sw → is_Some (place_at ps i) ∧ is_Some (place_at ps j)) ∧
    removed_list (ib_builder b') = removed_list (ib_builder b) ∧ added (ib_builder b') = added (ib_builder b) ∧
    moved (ib_builder b') = moved (ib_builder b) ++ (if is_pooling_model (ib_config b) then [] else map (λ '(i, j), (i, j, SWAP)) sw).
Proof.
  intros Hb Hlive Hs. unfold _may_reorder_batch.
  assert (Hnone : regions_ordered ps → ∃ b' sw, Ok b = Ok b' ∧ batch_holds f32 n (swap_all sw ps) b' ∧ same_config b b' ∧ regions_ordered (swap_all sw ps) ∧
    (∀ k, is_Some (place_at (swap_all sw ps) k) ↔ is_Some (place_at ps k)) ∧ (∀ i j, (i, j) ∈ sw → is_Some (place_at ps i) ∧ is_Some (place_at ps j)) ∧
    removed_list (ib_builder b') = removed_list (ib_builder b) ∧ added (ib_builder b') = added (ib_builder b) ∧
    moved (ib_builder b') = moved (ib_builder b) ++ (if is_pooling_model (ib_config b) then [] else map (λ '(i, j), (i, j, SWAP)) sw)).
  { intros Hr. exists b, []. split_and!; try done; [by intros i j ?%elem_of_nil|]. destruct (is_pooling_model (ib_config b)); by rewrite app_nil_r. }
  destruct (decide (num_kv_cache_groups cfg = 0)) as [Hz|Hz]; [by apply Hnone; intros ?|].
  destruct (reorder_batch_threshold cfg) as [thr|] eqn:Et; [|by apply Hnone; intros ? thr; rewrite Et]. clear Hnone.
  destruct (reorder_holds f32 (st_num_scheduled o) thr n ps b Hb Hlive Hs) as (changed & b' & sw & -> & Hb' & Hc & Hlv & Hsw & (target & Hsorted & Hreg) & _ & Hr & Ha & Hm).
  cbn [mbind result_bind]. exists b', sw. split_and!; try done. intros _ thr' Ht i j ri rj Hij Hi Hj. rewrite Et in Ht. injection Ht as <-.
  assert (Hlt : ∀ k rk, region_at (st_num_scheduled o) thr (swap_all sw ps) k = Some rk → k < n).
  { intros k rk Hk. unfold region_at in Hk. apply bind_Some in Hk as (p & Hp & _). by eapply batch_lt. }
  rewrite (Hreg i (Hlt _ _ Hi)) in Hi. rewrite (Hreg j (Hlt _ _ Hj)) in Hj. by eapply (sorted_lookup_le target i j).
Qed.

(** What a logits processor is told at the end of the step. *)
Definition processors_follow ps w ps' w' : Prop := is_pooling_model (ib_config (mr_batch w')) = false →
  ∃ u, mr_logitsprocs w' = map (update_state u) (mr_logitsprocs w) ∧
    ∀ (T : Type) (truthy_entry : T → bool) new_entry d, follows new_entry w ps d → follows new_entry w' ps' (process_dict_updates truthy_entry new_entry d u).2.

Lemma settle_phase ps w n5 ps5 w5 : phase f32 w ps n5 ps5 w5 → (∀ i p, place_at ps5 i = Some p → is_Some (st_num_scheduled o !! pl_id p)) →
  mr_logitsprocs w5 = mr_logitsprocs w →
  ∃ b6 b7 ps', condense (mr_batch w5) = Ok b6 ∧ _may_reorder_batch cfg o b6 = Ok b7 ∧
    let w' := refresh_metadata update_state (with_batch b7 w5) in
    between_steps ps' w' ∧ requests ps' ≡ₚ requests ps5 ∧ regions_ordered ps' ∧ mr_requests w' = mr_requests w5 ∧ mr_outputs w' = mr_outputs w5 ∧
    processors_follow ps w ps' w'.
Proof.
  intros [[Hb Hm Hs] Hh Hso Hmv Ht Hsame] Hsched Hpr.
  destruct (condense_holds f32 n5 ps5 (mr_batch w5) Hb Hh Hso) as (b6 & ps6 & ms & Hcond & Hb6 & Hc6 & Hdense & Hsl & Ha6 & Hm6).
  assert (Hlt : ∀ j, j ∈ removed_list (ib_builder (mr_batch w5)) → j < length ps5 ∧ place_at ps5 j = None).
  { intros j Hj. apply (ho_elem _ _ _ Hh) in Hj as [Hj Hn]. split; [|done]. pose proof (bh_in_use _ _ _ _ Hb). lia. }
  assert (Hreq6 : requests ps6 ≡ₚ requests ps5) by (eapply slides_requests; [|done]; intros j Hj; by apply Hlt).
  pose proof (num_reqs_live _ _ _ _ Hb6) as Hn6. pose proof (num_reqs_live _ _ _ _ Hb) as Hn5. pose proof (live_perm _ _ Hreq6) as Hlp.
  assert (Hlive6 : ∀ i, i < num_reqs (mr_batch w5) → is_Some (place_at ps6 i)).
  { intros i Hi. apply not_eq_None_Some. intros E. apply Hdense in E. lia. }
  destruct (reorder_phase (num_reqs (mr_batch w5)) ps6 b6 Hb6 Hlive6) as (b7 & sw & Hreo & Hb7 & Hc7 & Hreg & Hlv & Hsw & Hr7 & Ha7 & Hm7).
  { intros i p Hp. assert (Hin : p ∈ requests ps5) by (rewrite <-Hreq6; apply elem_of_requests; by exists i). apply elem_of_requests in Hin as [j Hj]. by eapply Hsched. }
  set (ps7 := swap_all sw ps6) in *. assert (Hreq7 : requests ps7 ≡ₚ requests ps5) by (unfold ps7; by rewrite swap_all_requests).
  exists b6, b7, ps7. split; [done|]. split; [done|]. cbv zeta. set (w' := refresh_metadata update_state (with_batch b7 w5)).
  assert (Hw' : mr_requests w' = mr_requests w5 ∧ mr_outputs w' = mr_outputs w5 ∧ (∃ u, mr_batch w' = set_builder u b7) ∧ ib_builder (mr_batch w') = empty_builder ∧
    (is_pooling_model (ib_config b7) = false → mr_logitsprocs w' = map (update_state (get_and_reset (num_reqs b7) (ib_builder b7)).1) (mr_logitsprocs w5))).
  { unfold w', refresh_metadata. simpl. destruct (is_pooling_model (ib_config b7)); simpl; [split_and!; try done; by eexists|].
    unfold get_and_reset. destruct (removed_list (ib_builder b7)), (moved (ib_builder b7)), (added (ib_builder b7)); simpl; split_and!; try done; by eexists. }
  destruct Hw' as (Eq & Eo & (u & Eb) & Ebu & Eproc). pose proof (num_reqs_live _ _ _ _ Hb7) as Hn7. pose proof (live_perm _ _ Hreq7) as Hlp7.
  assert (Hnum : num_reqs (mr_batch w') = num_reqs (mr_batch w5)) by (rewrite Eb; change (num_reqs (set_builder u b7)) with (num_reqs b7); lia).
  split; [|split; [done|split; [done|split; [done|split; [done|]]]]].
  - split; [|done|intros i Hi; apply Hlv, Hlive6; lia]. rewrite Hnum. split; [rewrite Eb; by apply batch_holds_builder| |by rewrite Eq, Eo].
    intros i p Hp. assert (Hin : p ∈ requests ps5) by (rewrite <-Hreq7; apply elem_of_requests; by exists i). apply elem_of_requests in Hin as [j Hj].
    destruct (Hm j p Hj) as (r & Hr & Hset). exists r. rewrite Eq. split; [done|]. rewrite Hset. unfold output_of. by rewrite Eo.
  - intros Hpool. rewrite Eb in Hpool. change (is_pooling_model (ib_config b7) = false) in Hpool. exists (get_and_reset (num_reqs b7) (ib_builder b7)).1.
    split; [rewrite Eproc by done; by rewrite Hpr|]. intros T truthy ne d0 Hd0.
    assert (Hp6 : is_pooling_model (ib_config b6) = false) by (destruct Hc7 as [Hc7 _]; congruence).
    assert (Hp5 : is_pooling_model (ib_config (mr_batch w5)) = false) by (destruct Hc6 as [Hc6 _]; congruence).
    destruct (Ht Hp5 T ne d0 Hd0) as (d & Htell & Hf). rewrite Hp5 in Hm6. rewrite Hp6 in Hm7.
    destruct (slides_told ne (entry_of ne w5) _ _ _ _ _ Hsl d0 (ib_builder (mr_batch w5)) d (ib_builder b6) Htell eq_refl Hf Hlt eq_refl Ha6 Hm6) as (d6 & Htell6 & Hf6 & Hrem6).
    destruct (swaps_told ne (entry_of ne w5) sw ps6 d0 (ib_builder b6) d6 (ib_builder b7) Htell6 Hf6 Hrem6 Hsw Hr7 Ha7 Hm7) as (d7 & Htell7 & Hf7).
    rewrite (tells_process truthy ne d0 (ib_builder b7) d7 (num_reqs b7) Htell7). intros i. rewrite (Hf7 i). fold ps7. destruct (place_at ps7 i); [|done].
    simpl. unfold entry_of. by rewrite Eq.
Qed.
End Step.
