(* ===== verification/WorkerSampled.v ===== *)
(** * The states of a worker: sampled tokens

    After the model has run, the tokens it sampled are written behind those of
    each request, in the batch and in the list that the request shares with its
    cached state. *)

From S2P Require Import Prelude NumPy BlockTable InputBatch InputBatchSpec InputBatchParts InputBatchRun.
From S2P Require Import WorkerStates WorkerPlaces WorkerRun WorkerNew WorkerCached WorkerStep.
From Stdlib Require Import QArith.
Local Open Scope nat_scope.

Section Sampled.
Context {P : Type} (f32 : Q → Q) (cfg : RunnerConfig).
Implicit Types (w : ModelRunner P) (ps : places) (p : Place) (r : CachedRequestState).

Definition extend_if (out : list Z) p : Place := match out with [] => p | _ => extend_place out p end.

(** What caching does not change. *)
Record kept_along w w' : Prop := {
  ka_requests : mr_requests w' = mr_requests w;
  ka_index : ib_req_id_to_index (mr_batch w') = ib_req_id_to_index (mr_batch w);
  ka_builder : ib_builder (mr_batch w') = ib_builder (mr_batch w);
  ka_config : ib_config (mr_batch w') = ib_config (mr_batch w);
  ka_procs : mr_logitsprocs w' = mr_logitsprocs w;
}.

Lemma kept_trans w1 w2 w3 : kept_along w1 w2 → kept_along w2 w3 → kept_along w1 w3.
Proof. intros [] []. split; congruence. Qed.

Lemma settled_extend r out sampled p : settled p = settled (place_of r out) → settled (extend_if sampled p) = settled (place_of r (out ++ sampled)).
Proof.
  intros H. destruct sampled as [|x l]; [by rewrite app_nil_r|]. unfold settled in *. simpl in *. injection H as E1 E2 E3 E4 E5 E6 E7 E8 E9 E10 E11 E12.
  f_equal; try done.
  - by rewrite E8, map_app, app_assoc.
  - rewrite E9, length_app, replicate_add, <-app_assoc. done.
Qed.

Lemma cache_sampled_holds n ps w i p r out : runner_holds f32 n ps w → place_at ps i = Some p → mr_requests w !! pl_id p = Some r →
  length (pl_tokens p) + length out ≤ max_model_len (ib_config (mr_batch w)) →
  ∃ w', cache_sampled (max_model_len (ib_config (mr_batch w))) w (i, out) = Ok w' ∧ runner_holds f32 n (<[i := Some (extend_if out p)]> ps) w' ∧
    kept_along w w' ∧ output_of w' r = output_of w r ++ out ∧ (∀ id, id ≠ pl_id p → untouched w w' id).
Proof.
  intros [Hb Hm Hs] Hp Hr Hroom. pose proof (so_keys _ _ Hs _ _ Hr) as Hkey. pose proof (place_at_lt _ _ _ Hp) as Hi. pose proof (batch_lt _ _ _ _ _ _ Hb Hp) as Hin.
  destruct out as [|x out]; unfold cache_sampled.
  { exists w. simpl. rewrite app_nil_r, list_insert_id by by apply place_at_Some. split_and!; try done. }
  set (l := x :: out) in *. pose proof (hold_at _ _ _ _ (bh_tokens _ _ _ _ Hb) i p Hp) as Hat.
  rewrite (np_get_Some _ _ _ (at_no_spec _ _ _ _ Hat)). cbn [mbind result_bind]. unfold py_assert. rewrite (proj2 (Nat.leb_le _ _) Hroom). cbn [mbind result_bind].
  destruct (write_tokens_hold (ib_config (mr_batch w)) n ps (ib_tokens (mr_batch w)) i p l (bh_tokens _ _ _ _ Hb) Hp Hroom) as (t' & Hw & Htok).
  unfold write_tokens in Hw. destruct (set_row i (np_assign _ _ l) (token_ids_cpu (ib_tokens (mr_batch w)))) as [rows|]; [|done]. cbn [mbind result_bind] in *.
  destruct (set_row i _ (is_token_ids (ib_tokens (mr_batch w)))) as [flags|]; [|done]. cbn [mbind result_bind] in *.
  destruct (np_set i _ (num_tokens_no_spec (ib_tokens (mr_batch w)))) as [nos|]; [|done]. cbn [mbind result_bind] in *. injection Hw as Hw. rewrite Hw.
  rewrite (entries_np_get _ _ _ _ _ _ (bh_ids _ _ _ _ Hb) Hp Hin). cbn [mbind result_bind unwrap]. rewrite Hr. cbn [mbind result_bind unwrap].
  assert (Hb' : batch_holds f32 n (<[i := Some (extend_place l p)]> ps) (set_tokens t' (mr_batch w))) by by apply (batch_update f32 n ps (mr_batch w) i p).
  assert (Hown : own_list w r) by (right; exists r; by rewrite Hkey).
  assert (Hput : put_output (cr_output_token_ids r) (output_of w r ++ l) (with_batch (set_tokens t' (mr_batch w)) w) = with_batch (set_tokens t' (mr_batch w)) (put_state r (output_of w r ++ l) w)).
  { unfold put_state, put_request, put_output, with_outputs, with_requests, with_batch. simpl. by rewrite (insert_id (mr_requests w) (cr_req_id r) r) by (by rewrite Hkey). }
  rewrite Hput. eexists. split; [done|]. assert (Hun : ∀ id, id ≠ pl_id p → untouched w (put_state r (output_of w r ++ l) w) id).
  { intros id Hne. apply put_state_untouched; [done|done|congruence]. }
  split; [|split; [|split; [apply (put_state_output w)|intros id Hne; by apply Hun]]].
  - split; [done| |by apply (put_state_ok w)]. intros k q. rewrite place_at_insert by done. destruct (decide (k = i)) as [->|Hne].
    + intros [= <-]. exists r. simpl. rewrite <-Hkey, lookup_insert_eq. split; [done|].
      destruct (Hm i p Hp) as (r0 & Hr0 & Hset). assert (r0 = r) as -> by congruence. apply (settled_extend _ _ l) in Hset. simpl in Hset. rewrite Hset. do 2 f_equal.
      symmetry. apply (put_state_output w).
    + intros Hq. destruct (Hm k q Hq) as (r0 & Hr0 & Hset). assert (Hqid : pl_id q ≠ pl_id p) by (intros E; apply Hne; by apply (batch_distinct _ _ _ _ Hb _ _ q p)).
      destruct (Hun _ Hqid) as [E1 E2]. exists r0. split; [simpl in *; congruence|]. rewrite Hset. do 2 f_equal. symmetry. by apply (E2 r0).
  - split; try done. simpl. by rewrite (insert_id (mr_requests w) (cr_req_id r) r) by by rewrite Hkey.
Qed.

Lemma cache_all l : ∀ n ps w, runner_holds f32 n ps w → NoDup l.*1 →
  (∀ i out, (i, out) ∈ l → ∃ p, place_at ps i = Some p ∧ length (pl_tokens p) + length out ≤ max_model_len (ib_config (mr_batch w))) →
  ∃ w' ps', foldM (cache_sampled (max_model_len (ib_config (mr_batch w)))) w l = Ok w' ∧ runner_holds f32 n ps' w' ∧ kept_along w w' ∧
    (∀ i, place_at ps' i = extend_if (default [] (od_get l i)) <$> place_at ps i) ∧
    (∀ i p r, place_at ps i = Some p → mr_requests w !! pl_id p = Some r → output_of w' r = output_of w r ++ default [] (od_get l i)) ∧
    (∀ id r, ¬ in_places ps id → mr_requests w !! id = Some r → output_of w' r = output_of w r).
Proof.
  induction l as [|[i out] l IH]; intros n ps w H Hnd Hok.
  - exists w, ps. split_and!; try done. + intros i. simpl. by destruct (place_at ps i). + intros i p r _ _. simpl. by rewrite app_nil_r.
  - simpl in Hnd. apply NoDup_cons in Hnd as [Hil Hnd]. destruct (Hok i out ltac:(left)) as (p & Hp & Hroom). destruct (rh_mirror _ _ _ _ H i p Hp) as (r & Hr & _).
    destruct (cache_sampled_holds n ps w i p r out H Hp Hr Hroom) as (w1 & Hrun & H1 & Hk1 & Ho1 & Hun1). cbn [foldM]. rewrite Hrun. cbn [mbind result_bind].
    pose proof (place_at_lt _ _ _ Hp) as Hi. rewrite <-(ka_config _ _ Hk1).
    assert (Hdist : ∀ k q, k ≠ i → place_at ps k = Some q → pl_id q ≠ pl_id p).
    { intros k q Hne Hq E. apply Hne. by apply (batch_distinct _ _ _ _ (rh_batch _ _ _ _ H) _ _ q p). }
    assert (Hel : ∀ k out', (k, out') ∈ l → k ≠ i) by (intros k out' Hin ->; apply Hil; apply list_elem_of_fmap; by exists (i, out')).
    destruct (IH n (<[i := Some (extend_if out p)]> ps) w1 H1 Hnd) as (w' & ps' & -> & H' & Hk' & Hpl' & Ho' & Hot').
    { intros k out' Hin. destruct (Hok k out' ltac:(by right)) as (q & Hq & Hqroom). exists q. rewrite (ka_config _ _ Hk1). split; [|done].
      rewrite place_at_insert by done. rewrite decide_False; [done|]. by eapply Hel. }
    assert (Hnil : od_get l i = None) by (by apply od_get_None).
    exists w', ps'. split; [done|]. split; [done|]. split; [by eapply kept_trans|]. split; [|split].
    + intros k. rewrite Hpl', place_at_insert by done. cbn [od_get]. destruct (decide (k = i)) as [->|Hne]; [|done]. rewrite Hnil, Hp. done.
    + intros k q r' Hq Hr'. cbn [od_get]. destruct (decide (k = i)) as [->|Hne].
      * assert (q = p) as -> by congruence. assert (r' = r) as -> by congruence. rewrite (Ho' i (extend_if out p) r).
        -- by rewrite Ho1, Hnil, app_nil_r.
        -- by rewrite place_at_insert, decide_True.
        -- rewrite (ka_requests _ _ Hk1). by destruct out.
      * rewrite (Ho' k q r'); [|by rewrite place_at_insert, decide_False|by rewrite (ka_requests _ _ Hk1)]. f_equal. by apply (Hun1 (pl_id q) (Hdist k q Hne Hq)).
    + intros id r' Hid Hr'. rewrite (Hot' id r'); [|intros (k & q & Hq & Hqid)|by rewrite (ka_requests _ _ Hk1)].
      * apply (Hun1 id); [|done]. intros ->. apply Hid. by exists i, p.
      * rewrite place_at_insert in Hq by done. apply Hid. case_decide; [|by exists k, q]. injection Hq as <-. exists i, p. split; [done|]. rewrite <-Hqid. by destruct out.
Qed.

(** The tokens that count for each place. *)
Definition valid_tokens (sampled : list (list Z)) (invalid : list nat) (i : nat) : list Z :=
  match sampled !! i with
  | None => []
  | Some ids => if decide (i ∈ invalid) then [] else if use_async_scheduling cfg then [(-1)%Z] else ids
  end.

Lemma od_get_imap {A B} (f : nat → A → B) (l : list A) i k : od_get (imap (λ j x, (k + j, f j x)) l) i = if decide (k ≤ i) then f (i - k) <$> l !! (i - k) else None.
Proof.
  revert f k. induction l as [|x l IH]; intros f k; simpl; [by case_decide|]. rewrite Nat.add_0_r. destruct (decide (i = k)) as [->|Hne].
  - rewrite decide_True by lia. by rewrite Nat.sub_diag.
  - assert (Hshift : imap ((λ j y, (k + j, f j y)) ∘ S) l = imap (λ j y, (S k + j, f (S j) y)) l) by (apply imap_ext; intros j y _; simpl; f_equal; lia).
    rewrite Hshift, (IH (λ j, f (S j)) (S k)). destruct (decide (k ≤ i)).
    + rewrite decide_True by lia. replace (i - k) with (S (i - S k)) by lia. done.
    + by rewrite decide_False by lia.
Qed.

Lemma od_get_imap0 {A B} (f : nat → A → B) (l : list A) i : od_get (imap (λ j x, (j, f j x)) l) i = f i <$> l !! i.
Proof. pose proof (od_get_imap f l i 0) as H. rewrite decide_True, Nat.sub_0_r in H by lia. exact H. Qed.

Lemma imap_keys {A B} (f : nat → A → B) (l : list A) : (imap (λ j x, (j, f j x)) l).*1 = seq 0 (length l).
Proof.
  apply list_eq. intros i. rewrite list_lookup_fmap, list_lookup_imap. destruct (decide (i < length l)) as [Hi|Hi].
  - destruct (lookup_lt_is_Some_2 l i Hi) as [x ->]. by rewrite lookup_seq_lt.
  - rewrite (lookup_ge_None_2 l) by lia. rewrite lookup_ge_None_2; [done|]. rewrite length_seq. lia.
Qed.

Lemma bookkeeping_holds ps w sampled invalid : between_steps f32 ps w → length sampled ≤ num_reqs (mr_batch w) →
  (∀ i p, place_at ps i = Some p → length (pl_tokens p) + length (valid_tokens sampled invalid i) ≤ max_model_len (ib_config (mr_batch w))) →
  ∃ w' ps', bookkeeping cfg sampled invalid w = Ok w' ∧ between_steps f32 ps' w' ∧ mr_requests w' = mr_requests w ∧ mr_logitsprocs w' = mr_logitsprocs w ∧
    (∀ i, place_at ps' i = extend_if (valid_tokens sampled invalid i) <$> place_at ps i) ∧
    (∀ i p r, place_at ps i = Some p → mr_requests w !! pl_id p = Some r → output_of w' r = output_of w r ++ valid_tokens sampled invalid i) ∧
    (∀ id r, ¬ in_places ps id → mr_requests w !! id = Some r → output_of w' r = output_of w r).
Proof.
  intros [Hh He Hd] Hlen Hroom. set (f := λ i (ids : list Z), if decide (i ∈ invalid) then [] else if use_async_scheduling cfg then [(-1)%Z] else ids).
  assert (Hv : ∀ i, valid_tokens sampled invalid i = default [] (od_get (imap (λ j x, (j, f j x)) sampled) i)).
  { intros i. rewrite od_get_imap0. unfold valid_tokens. by destruct (sampled !! i). }
  assert (Hall : ∀ w1, runner_holds f32 (num_reqs (mr_batch w)) ps w1 → kept_along w w1 → (∀ r, output_of w1 r = output_of w r) →
    ∃ w' ps', foldM (cache_sampled (max_model_len (ib_config (mr_batch w)))) w1 (imap (λ j x, (j, f j x)) sampled) = Ok w' ∧ between_steps f32 ps' w' ∧
      mr_requests w' = mr_requests w ∧ mr_logitsprocs w' = mr_logitsprocs w ∧
      (∀ i, place_at ps' i = extend_if (valid_tokens sampled invalid i) <$> place_at ps i) ∧
      (∀ i p r, place_at ps i = Some p → mr_requests w !! pl_id p = Some r → output_of w' r = output_of w r ++ valid_tokens sampled invalid i) ∧
      (∀ id r, ¬ in_places ps id → mr_requests w !! id = Some r → output_of w' r = output_of w r)).
  { intros w1 H1 Hk1 Ho1. rewrite <-(ka_config _ _ Hk1).
    destruct (cache_all (imap (λ j x, (j, f j x)) sampled) (num_reqs (mr_batch w)) ps w1 H1) as (w' & ps' & Hrun & H' & Hk' & Hpl & Ho & Hot).
    { rewrite imap_keys. apply NoDup_seq. }
    { intros i out Hin. rewrite (ka_config _ _ Hk1). apply elem_of_lookup_imap in Hin as (j & x & [= -> ->] & Hx). pose proof (lookup_lt_Some _ _ _ Hx) as Hj.
      destruct (Hd j ltac:(lia)) as [p Hp]. exists p. split; [done|]. specialize (Hroom j p Hp). unfold valid_tokens in Hroom. rewrite Hx in Hroom. exact Hroom. }
    pose proof (kept_trans _ _ _ Hk1 Hk') as Hk. assert (Hn : num_reqs (mr_batch w') = num_reqs (mr_batch w)) by (unfold num_reqs; by rewrite (ka_index _ _ Hk)).
    exists w', ps'. split; [done|]. split; [|split; [apply (ka_requests _ _ Hk)|split; [apply (ka_procs _ _ Hk)|split; [|split]]]].
    - split; [by rewrite Hn|by rewrite (ka_builder _ _ Hk)|]. intros i Hi. rewrite Hpl. destruct (Hd i ltac:(lia)) as [p ->]. by eexists.
    - intros i. by rewrite Hpl, Hv.
    - intros i p r Hp Hr. rewrite (Ho i p r Hp), Hv, Ho1; [done|]. by rewrite (ka_requests _ _ Hk1).
    - intros id r Hid Hr. rewrite (Hot id r Hid), Ho1; [done|]. by rewrite (ka_requests _ _ Hk1). }
  unfold bookkeeping. unfold f in Hall. destruct (use_async_scheduling cfg) eqn:Ea; apply Hall; try done.
  destruct Hh as [Hb Hm Hs]. split; [|done|done]. destruct Hb. by split.
Qed.
End Sampled.
