(* ===== verification/WorkerSafe.v ===== *)
(** * The states of a worker: correctness

    A step of a model runner on an output of the scheduler that fits it: what the
    batch and the cached states are afterwards, what the logits processors know,
    and the tokens that are cached after the model has run. *)

From S2P Require Import Prelude NumPy BlockTable InputBatch InputBatchSpec InputBatchParts InputBatchRun Condense LogitsUpdates ReorderBatch.
From S2P Require Import WorkerStates WorkerPlaces WorkerRun WorkerNew WorkerCached WorkerLoops WorkerFollow WorkerStep WorkerSampled.
From Stdlib Require Import QArith.
Local Open Scope nat_scope.

Section Safe.
Context {P : Type} (update_state : option BatchUpdate → P → P) (f32 : Q → Q) (make_generator : Z → Z) (cfg : RunnerConfig) (o : StepOutput).
Implicit Types (w : ModelRunner P) (ps : places).

Lemma update_states_holds ps w : between_steps f32 ps w → step_ok make_generator cfg o w →
  ∃ w' ps', _update_states update_state f32 make_generator cfg o w = Ok (w', []) ∧ between_steps f32 ps' w' ∧
    (∀ i p, place_at ps' i = Some p → drafted o p) ∧ (∀ id, in_places ps' id ↔ id ∈ dom (st_num_scheduled o)) ∧
    states_done make_generator cfg o w w' ∧ regions_ordered cfg o ps' ∧ processors_follow update_state ps w ps' w'.
Proof.
  intros [Hh He Hd] Hok. assert (Hho : holes (num_reqs (mr_batch w)) ps []).
  { split; [constructor|]. intros i. split; [by intros ?%elem_of_nil|]. intros [Hi Hn]. destruct (Hd i Hi) as [p Hp]. congruence. }
  destruct (leave_phase f32 o (num_reqs (mr_batch w)) ps w Hh He Hho) as (w1 & w2 & Hrun1 & Hrun2 & ps2 & Hleft).
  destruct (new_phase f32 make_generator cfg o (num_reqs (mr_batch w)) ps w ps2 w2 Hh Hok Hleft) as (w3 & ps3 & Hrun3 & H3 & Hrem3 & Hpl3 & Hst3 & Hnew3 & Hpr3).
  set (w3' := if use_async_spec_decode cfg then with_prev_drafts (map (λ _, 0) (mr_prev_num_draft_tokens w3)) w3 else w3).
  assert (Hsame : mr_batch w3' = mr_batch w3 ∧ mr_requests w3' = mr_requests w3 ∧ mr_outputs w3' = mr_outputs w3 ∧ mr_logitsprocs w3' = mr_logitsprocs w3)
    by (unfold w3'; by destruct (use_async_spec_decode cfg)).
  destruct Hsame as (Eb & Eq & Eo & Ep). assert (Eout : ∀ r, output_of w3' r = output_of w3 r) by (intros r; unfold output_of; by rewrite Eo).
  destruct (cached_phase f32 make_generator cfg o (num_reqs (mr_batch w)) ps w w3' ps3 Hok) as (w4 & ps4 & absent & Hrun4 & H4 & Hhalf & Hnd & Habs & Hpl4 & Hdr4 & Hpr4).
  { by eapply phase_same. }
  { unfold removing. by rewrite Eb. }
  { done. }
  { intros id Hid. rewrite Eq. destruct (Hst3 id Hid) as [E1 E2]. split; [done|]. intros r Hr. rewrite Eout. by apply E2. }
  { intros d num Hin Hnum. destruct (Hnew3 d num Hin Hnum) as (ref & E1 & E2). exists ref. cbv zeta in *. by rewrite Eq, Eout. }
  destruct (enter_phase f32 make_generator cfg o (num_reqs (mr_batch w)) ps w w4 ps4 absent Hok H4 Hhalf Hnd Habs Hpl4 Hdr4) as (w5 & n5 & ps5 & Hrun5 & H5 & Hdone & Hdr5 & Hpl5 & Hpr5).
  destruct (settle_phase update_state f32 cfg o ps w n5 ps5 w5 H5) as (b6 & b7 & ps' & Hrun6 & Hrun7 & Hbet & Hreq & Hreg & Eq' & Eo' & Hfol).
  { intros i p Hp. apply elem_of_dom, Hpl5. by exists i, p. }
  { congruence. }
  exists (refresh_metadata update_state (with_batch b7 w5)), ps'. split; [|split; [done|split; [|split; [|split; [|done]]]]].
  - unfold _update_states. rewrite Hrun1. cbn [mbind result_bind]. rewrite Hrun2. cbn [mbind result_bind]. rewrite Hrun3. cbn [mbind result_bind]. fold w3'.
    unfold cached_ids in Hrun4. rewrite Hrun4. cbn [mbind result_bind]. rewrite Hrun5. cbn [mbind result_bind]. rewrite Hrun6. cbn [mbind result_bind].
    rewrite Hrun7. done.
  - intros i p Hp. assert (Hin : p ∈ requests ps5) by (rewrite <-Hreq; apply elem_of_requests; by exists i). apply elem_of_requests in Hin as [j Hj]. by eapply Hdr5.
  - intros id. rewrite <-Hpl5. by apply in_requests.
  - assert (Ho : ∀ r, output_of (refresh_metadata update_state (with_batch b7 w5)) r = output_of w5 r) by (intros r; unfold output_of; by rewrite Eo').
    destruct Hdone as [D1 D2 D3]. split.
    + intros d num Hin Hnum. destruct (D1 d num Hin Hnum) as (ref & E1 & E2). exists ref. cbv zeta in *. by rewrite Eq', Ho.
    + intros k id r c blk m Hk Hen. destruct (D2 k id r c blk m Hk Hen) as (ref & E1 & E2). exists ref. cbv zeta in *. by rewrite Eq', Ho.
    + intros id Hid. destruct (D3 id Hid) as [E1 E2]. rewrite Eq'. split; [done|]. intros r Hr. rewrite Ho. by apply E2.
Qed.



End Safe.
