(* ===== verification/WorkerDemo.v ===== *)
(** * The states of a worker: runs

    A runner of three places from its first step on, the instances of the theorems
    on it, and runs that show what the batch forgets. *)

From S2P Require Import Prelude NumPy BlockTable BlockTableSpec InputBatch InputBatchSpec InputBatchParts InputBatchRun Condense LogitsUpdates ReorderBatch.
From S2P Require Import WorkerStates WorkerPlaces WorkerRun WorkerNew WorkerCached WorkerLoops WorkerFollow WorkerStep WorkerSampled WorkerSafe.
From Stdlib Require Import QArith.
Local Open Scope nat_scope.

(** ** A new runner *)

Section Init.
Context {P : Type} (f32 : Q → Q).

Definition init_runner (b : InputBatch) (drafts : list nat) (procs : list P) : ModelRunner P := mkRunner ∅ ∅ b ∅ ∅ drafts procs.

Lemma place_at_empty n i : place_at (replicate n None) i = None.
Proof. unfold place_at. destruct (replicate n None !! i) as [x|] eqn:E; [|done]. by apply lookup_replicate in E as [-> _]. Qed.

Lemma present_empty n k : ¬ present (replicate n None) k.
Proof. intros (i & p & Hp & _). by rewrite place_at_empty in Hp. Qed.

Lemma init_tokens c : tokens_hold c 0 (replicate (max_num_reqs c) None) (ib_tokens (InputBatch_init c [])).
Proof.
  split; simpl.
  - split; simpl; rewrite ?length_replicate; try done; intros i row Hr; apply lookup_replicate in Hr as [-> _]; by rewrite length_replicate.
  - lia.
  - intros i s Hs. apply lookup_replicate in Hs as [-> _]. unfold spec_at. by rewrite place_at_empty.
  - intros i p Hp. by rewrite place_at_empty in Hp.
Qed.

Lemma init_batch c ts : (∀ t, t ∈ ts → config_ok (tb_config t) ∧ holds (tb_config t) t (replicate (max_num_reqs c) [])) →
  batch_holds f32 0 (replicate (max_num_reqs c) None) (InputBatch_init c ts).
Proof.
  intros Ht. pose proof (present_empty (max_num_reqs c)) as Hn.
  assert (Hs : ∀ (Pq : BatchParams → bool), set_holds (replicate (max_num_reqs c) None) Pq ∅) by (intros Pq rid; split; [set_solver|intros (k & q & Hk & _); by destruct (Hn k)]).
  assert (Hm : ∀ {A} (f : BatchParams → option A), map_holds (replicate (max_num_reqs c) None) f ∅).
  { intros A f rid v. rewrite lookup_empty. split; [done|intros (k & q & Hk & _); by destruct (Hn k)]. }
  split; simpl; rewrite ?length_replicate; try done; [lia|by intros; apply place_at_empty| | | | | | | | |].
  - split; [done|lia].
  - split; [done|lia].
  - intros rid i. rewrite lookup_empty. split; [done|]. intros (p & Hp & _). by rewrite place_at_empty in Hp.
  - apply init_tokens.
  - intros k t Hk. destruct (Ht t ltac:(by eapply list_elem_of_lookup_2)) as [H1 H2]. split; [done|]. by rewrite map_replicate.
  - intros _. split; [|by split].
    split; simpl; [split; simpl; rewrite ?length_replicate; done|intros i p q Hp; by rewrite place_at_empty in Hp|intros i..]; by rewrite place_at_empty.
  - intros i p Hp. by rewrite place_at_empty in Hp.
  - intros _ rid v. rewrite lookup_empty. split; [done|]. intros (k & Hk & _). by destruct (Hn k).
  - split; simpl; rewrite ?length_replicate; try done.
    + intros i p Hp. by rewrite place_at_empty in Hp.
    + intros id rid. split; [intros (X & HX & _); by rewrite lookup_empty in HX|intros (k & a & Hk & _); by destruct (Hn k)].
    + intros id. by rewrite !lookup_empty.
    + intros i p a Hp. by rewrite place_at_empty in Hp.
Qed.

Lemma init_between c ts drafts procs : (∀ t, t ∈ ts → config_ok (tb_config t) ∧ holds (tb_config t) t (replicate (max_num_reqs c) [])) →
  between_steps f32 (replicate (max_num_reqs c) None) (init_runner (InputBatch_init c ts) drafts procs).
Proof.
  intros Ht. split; [split; [by apply init_batch| |]|done|].
  - intros i p Hp. by rewrite place_at_empty in Hp.
  - split; simpl; intros; by simplify_map_eq.
  - intros i Hi. simpl in Hi. by apply Nat.nlt_0_r in Hi.
Qed.
End Init.

(** ** Two steps of a runner *)

Module Demo.
Definition params (min : Z) : BatchParams := mkBatchParams 0 None 1 0 0 0 1 None None None None None 0 min [].
Definition batch_config : BatchConfig := mkBatchConfig 3 8 10 false false.
Definition table : BlockTable :=
  let c := mkTableConfig 4 4 1 false 2 16 1 0 1 TOKEN_TO_KV_SLOT in
  mkBlockTable c (replicate 3 [0; 0]%Z) (replicate 3 [0; 0]%Z) [0; 0; 0] (replicate 16 0%Z).
Definition cfg : RunnerConfig := mkRunnerConfig false true false 1 (Some 1).

(** A processor like that of minimal lengths: an entry for the requests that have one. *)
Definition new_entry (q : BatchParams) (_ : option (list Z)) (_ : output_ref) : option Z := if (0 <? min_tokens q)%Z then Some (min_tokens q) else None.
Definition update (u : option BatchUpdate) (d : gmap nat Z) : gmap nat Z := (process_dict_updates (λ _, true) new_entry d u).2.
Definition new (id : string) (prompt : list Z) (min : Z) (blocks : list Z) : NewRequest :=
  mkNewRequest id (Some prompt) (Some (params min)) None [blocks] 0 None None None.
Definition step := _update_states update (λ q, q) (λ s, s) cfg.

Definition w0 : ModelRunner (gmap nat Z) := init_runner (InputBatch_init batch_config [table]) [0; 0; 0] [∅].
Definition out1 : StepOutput := mkStepOutput [new "a" [1; 2; 3]%Z 0 [1]%Z; new "b" [4; 5]%Z 2 [2]%Z; new "c" [6]%Z 0 [3]%Z] (mkCachedRequests [] ∅ [] [] [] [] [])
  (list_to_map [("a", 3); ("b", 2); ("c", 1)]) [] ∅ [].
Definition result_or {A} (d : A) (m : result A) : A := match m with Ok a => a | Err _ => d end.
Definition w1 : ModelRunner (gmap nat Z) := (result_or (w0, []) (step out1 w0)).1.
Definition w2 : ModelRunner (gmap nat Z) := result_or w1 (bookkeeping cfg [[7]; [8]; [9]]%Z [] w1).

(** Request a has finished, b has a draft to verify, d is new. *)
Definition out2 : StepOutput := mkStepOutput [new "d" [1; 1; 1]%Z 3 [4]%Z] (mkCachedRequests ["b"; "c"] ∅ [] [] [Some [[5]]%Z; None] [2; 1] [1; 1])
  (list_to_map [("b", 2); ("c", 1); ("d", 3)]) [("b", [5]%Z)] {["a"]} [].

(** The new request takes the place of a; then the decode comes to the front, and
    the prefill to the end. *)
Example second_step : match step out2 w2 with
  | Ok (w, _) =>
      let b := mr_batch w in
      (ib_req_ids b, take 3 <$> token_ids_cpu (ib_tokens b), map tb_np (ib_block_table b), map (λ d : gmap nat Z, map_to_list d) (mr_logitsprocs w))
  | Err _ => ([], [], [], [])
  end = ([Some "c"; Some "b"; Some "d"], [[6; 9; 0]; [4; 5; 8]; [1; 1; 1]]%Z, [[[3; 0]; [2; 5]; [4; 0]]]%Z, [[(2, 3%Z); (1, 2%Z)]]).
Proof. vm_compute. reflexivity. Qed.

Lemma table_ok : config_ok (tb_config table) ∧ holds (tb_config table) table (replicate 3 []).
Proof.
  split; [by split|]. split; [done|done|done|]. repeat constructor.
Qed.

Lemma w0_between : between_steps (λ q, q) (replicate 3 None) w0.
Proof. apply (init_between (λ q, q) batch_config). intros t ->%list_elem_of_singleton. exact table_ok. Qed.

(** Requests with a prompt of tokens, no adapter and no list of allowed tokens. *)
Lemma plain_ok (b : InputBatch) r out ids q l : ib_config b = batch_config → map tb_config (ib_block_table b) = [tb_config table] →
  cr_prompt_token_ids r = Some ids → cr_prompt_embeds r = None → cr_prompt_is_token_ids r = None → cr_num_prompt_tokens r = length ids →
  length ids + length out ≤ 8 → cr_block_ids r = [l] → length l ≤ 2 → cr_sampling_params r = Some q → allowed_token_ids q = None → cr_lora_request r = None →
  request_ok b r out.
Proof.
  intros Hc Ht Hids He Hf Hn Hl Hb Hbl Hq Ha Hlo. split.
  - split; [by rewrite Hids, He, Hn|by rewrite Hf|by rewrite Hc, Hn].
  - rewrite Ht, Hb. split; [done|]. intros [|k] c l' Hk Hl'; simplify_eq/=. unfold row_fits, kernel_ids, map_to_kernel_blocks. simpl. lia.
  - rewrite Hc. simpl. exists q. split; [done|]. intros x. by rewrite Ha.
  - intros a. by rewrite Hlo.
Qed.

Lemma out1_ok : step_ok (λ s, s) cfg out1 w0.
Proof.
  split.
  - done.
  - apply (bool_decide_unpack _). vm_compute. exact I.
  - intros id. cbn [out1 st_num_scheduled]. rewrite dom_list_to_map_L. simpl. set_solver.
  - vm_compute. lia.
  - intros d Hd. simpl in Hd. rewrite !elem_of_cons, elem_of_nil in Hd. destruct Hd as [->|[->|[->|[]]]]; eexists; (split; [reflexivity|]);
      (split; [|vm_compute; lia]); intros ref; eapply plain_ok; try reflexivity; simpl; lia.
  - by intros k id ?.
Qed.

(** The first step and its tokens: the runner is between steps again. *)
Lemma w2_between : ∃ ps, between_steps (λ q, q) ps w2.
Proof.
  destruct (update_states_holds update (λ q, q) (λ s, s) cfg out1 _ w0 w0_between out1_ok) as (w & ps & Hrun & Hb & _).
  assert (w = w1) as -> by (unfold w1, step; by rewrite Hrun).
  destruct (bookkeeping_holds (λ q, q) cfg ps w1 [[7]; [8]; [9]]%Z [] Hb) as (w' & ps' & Hbook & Hb' & _).
  - vm_compute. lia.
  - intros i p Hp. pose proof (rh_batch _ _ _ _ (bs_holds _ _ _ Hb)) as Hbh. pose proof (batch_lt _ _ _ _ _ _ Hbh Hp) as Hi.
    pose proof (at_no_spec _ _ _ _ (hold_at _ _ _ _ (bh_tokens _ _ _ _ Hbh) i p Hp)) as Hn. revert Hn.
    generalize (length (pl_tokens p)). intros m Hn. vm_compute in Hi. destruct i as [|[|[|i]]]; [| | |exfalso; lia];
      vm_compute in Hn; injection Hn as <-; vm_compute; lia.
  - exists ps'. assert (w' = w2) as <-; [|done]. unfold w2. by rewrite Hbook.
Qed.

Lemma out2_ok : step_ok (λ s, s) cfg out2 w2.
Proof.
  split.
  - done.
  - apply (bool_decide_unpack _). vm_compute. exact I.
  - intros id. cbn [out2 st_num_scheduled]. rewrite dom_list_to_map_L. simpl. set_solver.
  - vm_compute. lia.
  - intros d Hd. simpl in Hd. rewrite list_elem_of_singleton in Hd. subst. eexists; (split; [reflexivity|]).
    split; [|vm_compute; lia]. intros ref. eapply plain_ok; try (vm_compute; reflexivity); vm_compute; lia.
  - intros k id Hk. destruct k as [|[|k]]; [| |done]; injection Hk as <-; eexists _, _, _, _.
    + split; [vm_compute; reflexivity|set_solver|reflexivity|reflexivity|reflexivity|done|intros ?; by eexists|done|by intros ids [= <-]| |vm_compute; lia].
      eapply plain_ok; try (vm_compute; reflexivity); vm_compute; lia.
    + split; [vm_compute; reflexivity|set_solver|reflexivity|reflexivity|reflexivity|done|unfold is_resumed; set_solver|done|done| |vm_compute; lia].
      eapply plain_ok; try (vm_compute; reflexivity); vm_compute; lia.
Qed.

(** The places of [w2], as far as the batch says. *)
Lemma w2_places ps : between_steps (λ q, q) ps w2 → ∀ i p, place_at ps i = Some p → pl_id p ∈ ["a"; "b"; "c"].
Proof.
  intros [Hh _ _] i p Hp. pose proof (rh_batch _ _ _ _ Hh) as Hb. pose proof (batch_lt _ _ _ _ _ _ Hb Hp) as Hi.
  pose proof (en_lookup _ _ _ _ (bh_ids _ _ _ _ Hb) i Hi) as Hid. rewrite Hp in Hid. simpl in Hid. revert Hid. generalize (pl_id p). intros id Hid.
  vm_compute in Hi. destruct i as [|[|[|i]]]; [| | |exfalso; lia]; vm_compute in Hid; injection Hid as <-; set_solver.
Qed.

Lemma w2_place ps id i : between_steps (λ q, q) ps w2 → ib_req_id_to_index (mr_batch w2) !! id = Some i → ∃ p, place_at ps i = Some p ∧ pl_id p = id.
Proof. intros [Hh _ _]. apply (bh_index _ _ _ _ (rh_batch _ _ _ _ Hh)). Qed.
End Demo.

(** ** Instances *)




Lemma condense_correct_witness : ∃ b b' ps', remove_request "a" (mr_batch Demo.w2) = Ok (Some 0, b) ∧ condense b = Ok b' ∧
  ∀ i, is_Some (place_at ps' i) ↔ i < num_reqs b.
Proof.
  destruct Demo.w2_between as [ps Hps]. destruct (Demo.w2_place ps "a" 0 Hps eq_refl) as (p & Hp & Hid).
  destruct (remove_request_holds (λ q, q) _ ps (mr_batch Demo.w2) 0 p (rh_batch _ _ _ _ (bs_holds _ _ _ Hps))) as (b & Hrun & Hb & _ & _ & Hh & Hf & _).
  - split; [constructor|]. intros i. split; [intros Hi; by apply elem_of_nil in Hi|]. intros [Hi Hn]. destruct (bs_dense _ _ _ Hps i Hi) as [q Hq]. congruence.
  - reflexivity.
  - exact Hp.
  - destruct (condense_correct (λ q, q) _ _ b Hb Hh) as (b' & ps' & H1 & _ & _ & H2 & _); [intros E; congruence|].
    exists b, b', ps'. rewrite Hid in Hrun. split; [exact Hrun|]. split; [exact H1|exact H2].
Defined.

Lemma reorder_correct_witness : ∃ changed b' ps',
  reorder_batch_to_split_decodes_and_prefills (list_to_map [("a", 3); ("b", 2); ("c", 1)]) 1 (mr_batch Demo.w2) = Ok (changed, b') ∧
  ∀ i j ri rj, i ≤ j → region_at (list_to_map [("a", 3); ("b", 2); ("c", 1)]) 1 ps' i = Some ri →
    region_at (list_to_map [("a", 3); ("b", 2); ("c", 1)]) 1 ps' j = Some rj → ri ≤ rj.
Proof.
  destruct Demo.w2_between as [ps Hps].
  destruct (reorder_correct (λ q, q) (list_to_map [("a", 3); ("b", 2); ("c", 1)]) 1 _ ps (mr_batch Demo.w2) (rh_batch _ _ _ _ (bs_holds _ _ _ Hps)) (bs_dense _ _ _ Hps)) as
    (changed & b' & ps' & H1 & _ & _ & _ & H2 & _).
  - intros i p Hp. pose proof (Demo.w2_places ps Hps i p Hp) as Hid. rewrite !elem_of_cons, elem_of_nil in Hid.
    destruct Hid as [->|[->|[->|[]]]]; vm_compute; by eexists.
  - exists changed, b', ps'. split; [exact H1|exact H2].
Defined.

(** ** What the batch forgets *)

Module Forgets.
Import Demo.
Definition unlimited (id : string) (allowed : option (list nat)) : NewRequest :=
  mkNewRequest id (Some [1%Z]) (Some (mkBatchParams 0 None 1 0 0 0 1 None None None allowed None 0 0 [])) None [[1]]%Z 0 None None None.
Definition sends (l : list NewRequest) (cached : list string) (finished : gset string) : StepOutput :=
  mkStepOutput l (mkCachedRequests cached ∅ [] [] (replicate (length cached) None) (replicate (length cached) 1) (replicate (length cached) 0))
    (list_to_map (map (λ id, (id, 1)) (map nr_req_id l ++ cached))) [] finished [].
Definition run (w : ModelRunner (gmap nat Z)) (o : StepOutput) : ModelRunner (gmap nat Z) := (result_or (w, []) (step o w)).1.

(** Request c is only allowed token 0.  When a finishes, c slides into its place,
    and the row that c leaves is not cleared; d, which allows every token, comes to
    that place and is limited as c is. *)
Definition limited : ModelRunner (gmap nat Z) :=
  run (run (run w0 (sends [unlimited "a" None; unlimited "b" None; unlimited "c" (Some [0])] [] ∅)) (sends [] ["b"; "c"] {["a"]}))
    (sends [unlimited "d" None] ["b"; "c"] ∅).
Example mask_outlives_request :
  ib_req_ids (mr_batch limited) = [Some "c"; Some "b"; Some "d"] ∧ has_allowed_token_ids (ib_sets (mr_batch limited)) = {["c"]} ∧
  (r ← mr_requests limited !! "d"; q ← cr_sampling_params r; allowed_token_ids q) = None ∧
  (mask ← allowed_token_ids_mask (ib_sampling (mr_batch limited)); mask !! 2) = Some (false :: replicate 9 true).
Proof. vm_compute. split_and!; reflexivity. Qed.

(** Embeddings of a prompt stay under their index when the request is removed. *)
Definition embedded : ModelRunner (gmap nat Z) :=
  run (run w0 (sends [mkNewRequest "a" None (Some (params 0)) None [[1]]%Z 0 None (Some (mkEmbeds 77 2)) None] [] ∅)) (sends [new "b" [1]%Z 0 [2]%Z] [] {["a"]}).
Example embeddings_outlive_request :
  ib_req_ids (mr_batch embedded) = [Some "b"] ∧ mr_requests embedded !! "a" = None ∧ req_prompt_embeds (ib_tokens (mr_batch embedded)) !! 0 = Some (mkEmbeds 77 2).
Proof. vm_compute. split_and!; reflexivity. Qed.

(** A streaming session that continues with a seed gets no generator; a new request
    with the same parameters gets one. *)
Definition seeded (id : string) : NewRequest :=
  mkNewRequest id (Some [1; 2]%Z) (Some (mkBatchParams 1 (Some 5%Z) 1 0 0 0 1 None None None None None 0 0 [])) None [[1]]%Z 0 None None None.
Definition streamed : ModelRunner (gmap nat Z) := run (run w0 (sends [new "a" [1]%Z 0 [1]%Z] [] ∅)) (sends [seeded "a"; seeded "b"] [] ∅).
Example session_seed_ignored :
  (cr_sampling_params <$> mr_requests streamed !! "a") = (cr_sampling_params <$> mr_requests streamed !! "b") ∧
  (cr_generator <$> mr_requests streamed !! "a") = Some None ∧ (cr_generator <$> mr_requests streamed !! "b") = Some (Some 5%Z) ∧
  generators (ib_sampling (mr_batch streamed)) = {[1 := 5%Z]}.
Proof. vm_compute. split_and!; reflexivity. Qed.
End Forgets.
